(* ===== verification/_CoqProject ===== *)
-Q . S2P
Overview.v
Prelude.v
Term.v
Ids.v
Machine.v
Contracts.v
Json.v
Actors.v
Planner.v
PlannerMatch.v
PlannerSearch.v
PlannerOptimal.v
PlannerEnrich.v
Registry.v
Bus.v
Routing.v
Authorization.v
Physical.v
Run.v
MemoryRunner.v
Sha256.v
ProofOfWork.v
Executor.v
Execution.v
Completion.v
Observation.v
Directory.v
Movement.v
Provisioning.v
Customers.v
Placement.v
Fencing.v
Resume.v
Base64.v
Csv.v
CsvStatements.v
Text.v
Reconciliation.v
Ranking.v
ReconciliationFlow.v
Canonical.v
CanonicalJson.v
Store.v
ClientContract.v
ContractFacts.v
ArtifactService.v
Publishing.v
Browsing.v
Admission.v
Programs.v
Threads.v
Tables.v
Checkout.v
Mail.v
MailSystem.v
Sites.v
SiteHost.v
SitesSystem.v
Names.v
NamesFacts.v
Register.v
Subscriptions.v
Webhooks.v
Outbox.v
CheckoutSystem.v
NamesJourney.v
BillingFacts.v
Tenants.v
Entitlements.v
CheckoutSample.v
SqlRunner.v
RunnerSystem.v
RunnersAgree.v
Intents.v
IntentSystem.v
HttpContracts.v
Vault.v
Acquisition.v
HttpFacts.v
HttpSystem.v
