(* ===== verification/Overview.v ===== *)
(** * avenOS: a verification library

    avenOS lets people and language models work through actors.  An actor
    declares what it needs and what it produces as predicates; a planner composes
    actors from these declarations; a policy decides what a person may plan with;
    an executor and a runner carry the plan out; and a platform moves the data of
    customers between runtimes.  This library models the core of that program,
    the TypeScript sources under [src/libs] and [src/services], and proves what
    makes each part correct.  File names below that end in [.ts] are paths under
    [src/]; the others are files of this directory.

    ** The parts and how they interact

    - Contracts and planning ([libs/aven-actors/src]).  A manifest lists methods
      with the predicates they require and produce ([Contracts.v], [actor.ts]).
      Predicates are terms with variables ([Term.v], [term.ts]); resources have
      canonical names ([Ids.v], [ids.ts]); a deterministic actor may be written
      as a fact-only Prolog program ([Machine.v], [machine.ts]).  The planner
      ([Planner.v], [planner.ts]) joins requirements with facts, searches forward
      for the cheapest program of invocations, and enriches a set of facts
      exhaustively.  Its theory is split by subject: [PlannerMatch.v] (the join),
      [PlannerSearch.v] (soundness and bounds), [PlannerOptimal.v] (optimality
      and diagnosis), [PlannerEnrich.v] (enrichment).
    - Actors at work ([libs/aven-actors/src]).  An [Actor] binds handlers and has
      a mailbox ([Actors.v], [actor.ts] and the session of [sandbox.ts]); the
      [MessageBus] routes messages, emits predicates, bridges tool calls of the
      language model and holds what a human must confirm ([Bus.v], [bus.ts]; the
      theorems are in [Routing.v]).  What they exchange is JSON ([Json.v]).
    - Catalog and policy ([libs/aven-actors/src]).  The registry keeps
      definitions, instances and factory offers ([Registry.v], [registry.ts]);
      authorization projects it to what a principal may discover and use
      ([Authorization.v], [authorization.ts]); the physical planner plans over
      such a view and places each step on an authorized target, and affordances
      are the next operations worth offering ([Physical.v],
      [physical-planner.ts], [affordances.ts]).
    - Execution ([libs/aven-actors/src], [services/actor-runner]).  The executor
      plans a request and carries the physical program out against a host
      ([Executor.v], [executor.ts], [factory.ts]).  [Execution.v] states its
      contract as a state machine over the calls it makes and proves that it
      implements it; [Completion.v] composes planner, policy, placement and
      executor.  Plan runs and their JSON boundary are [Run.v] ([run.ts]); the
      process-local runner that drives attempts is [MemoryRunner.v]
      ([memory-runner.ts]).  Operations whose outputs are observed instead of
      planned with are [Observation.v] ([observation-solver.ts]).
      The runner of the customers
      keeps its runs in their database ([SqlRunner.v], [sql-runner.ts], with the
      part of [movement-postgres.ts] that waits for it).  [RunnerSystem.v] is
      about its interleavings, [RunnersAgree.v] compares it with the
      process-local runner and runs it.
    - Intents ([services/intent-service]).  What a customer wants, what is said
      about it and how intents are merged ([Intents.v], [store.ts] over
      [0001_intents.sql]; theorems in [IntentSystem.v]).
    - Web resources ([libs/aven-http-resources/src]).  The requests actors may
      make ([HttpContracts.v], [contracts.ts]), the vault with the secrets of a
      customer ([Vault.v], [vault.ts]) and the acquisition that sends a secret
      only where its binding allows ([Acquisition.v], [acquisition.ts]).
      [HttpFacts.v] is about requests and the vault each alone, [HttpSystem.v]
      about both while they are used and administered, about the end of
      acquisitions and about what is fetched, with runs on a few URLs.
    - Customers and their placement ([services/aven-api],
      [services/platform-provisioner]).  Three programs share the tables of
      [Directory.v] (the [.sql] migrations): the customer API ([Customers.v],
      [customers/store.ts] with [libs/aven-customer-contracts]), the provisioning
      workers ([Provisioning.v], [control.ts], [move-cli.ts]) and the movement
      controllers ([Movement.v], [movement.ts]).  [Placement.v] makes them the
      steps of one transition system and proves its invariants; [Fencing.v]
      states what they guarantee; [Resume.v] is about the controller loop.
    - Checkout ([services/checkout]).  SHA-256 and its counter hasher
      ([Sha256.v], [sha256.ts]) and the proof of work that protects it
      ([ProofOfWork.v], [proof-of-work.ts] of the client and the server).  The
      tables and what every module writes ([Checkout.v], [schema], [audit.ts],
      [email/queue.ts], [platform-events.ts]); the names people buy ([Names.v],
      [names/service.ts], [validation.ts]); subscriptions ([Subscriptions.v],
      [billing/subscriptions.ts]); the calls of the payment provider
      ([Webhooks.v], [billing/provider.ts], [billing/webhook-deliveries.ts] and
      the route [api/webhooks/polar]); the worker that tells the customer API
      what was sold ([Outbox.v], [scripts/platform-event-worker.ts]); the
      rendering of mails and the worker that sends them ([Mail.v], [email/templates.ts],
      [email/worker.ts]; theorems and a run in [MailSystem.v]).  A request
      is a program of statements and transactions, and a server is a pool of
      programs ([Programs.v]).  [NamesFacts.v] and [Register.v] say what each
      transaction does and keeps, [CheckoutSystem.v] what holds of every state
      the server reaches, [NamesJourney.v] and [BillingFacts.v] what single
      requests do.
      [Tenants.v] and [Entitlements.v] put the checkout and the customer API
      together ([customers/handler.ts]), over a network that loses calls;
      [CheckoutSample.v] runs the checkout alone and both.
    - Documents ([libs/aven-document-ingest/src]).  Recognition of bank statements
      in CSV ([Csv.v] over [Base64.v], [csv.ts]; theorems in [CsvStatements.v]),
      the comparison of invoices with transactions ([Text.v],
      [Reconciliation.v], [reconciliation.ts]; theorems in [Ranking.v]) and the
      flow that reads and shortlists them, with its theorems
      ([ReconciliationFlow.v], [reconciliation-flow.ts]).
    - Artifacts ([libs/aven-artifact-store/src],
      [services/aven-api/src/lib/server/artifacts]).  Canonical JSON
      ([Canonical.v], [canonical.ts]; theorems in [CanonicalJson.v]); the
      requests of the store's client and what it makes of the answers
      ([Store.v], [client.ts], [client-runs.ts], [csv-confirmation.ts]), with
      scripts of requests run against any store; the contracts of
      the client's procedures ([ClientContract.v]) and the service that
      publishes, browses and inspects ([ArtifactService.v], [service.ts]).  The
      theorems are in [ContractFacts.v], [Publishing.v], [Browsing.v] and
      [Admission.v], which has a store to try them.

    - Static sites ([services/aven-api/src/hosting],
      [services/static-site-host]).  What a customer may bind to a host name, the
      table of bindings and its endpoints ([Sites.v], [validation.ts], [store.ts],
      [handler.ts], [0000_hosting_control.sql]); the host that checks the DNS of
      the bindings it is told of, makes releases of their repositories and serves
      them ([SiteHost.v], [binding.ts], [dns.ts], [repository.ts],
      [bounded-command.ts], [host.ts]).  [SitesSystem.v] puts both together, with
      reports and restarts, and runs a few sites.

    [Prelude.v] holds what all share: the error monad for exceptions, the string,
    array and [Map] operations of JavaScript the sources call, the stable sort,
    the tactics and hint databases.  [Tables.v] holds what the parts that keep
    rows share; [Programs.v] has programs of steps on a database and pools of
    them, and [Threads.v] numbered threads, each of which may rely on the others
    to leave alone what is its own.

    ** How the code is modelled

    - A class with state is a record; a method is a function on it that returns
      the new state or throws ([result], where an error is the message).  A method
      that awaits is split at each [await]; what it waits for is part of the
      state, so the theorems on systems cover every interleaving.  A database
      transaction is one function on the tables, and throwing is [ROLLBACK].
    - A request of the checkout is split at each statement or transaction: what
      other requests do in between is arbitrary, and a request may stop anywhere.
      A transaction itself is atomic; the source takes a lock per name where two
      of them could meet.  Where the order of rows is not fixed, any order may be
      read ([reordered] in [CheckoutSystem.v]).
    - The plan runner and the vault run as threads.  A thread of the runner is a
      session of the database with its advisory locks; each statement and each
      transaction is a step, waiting for a lock is a step that is not taken or
      times out, a connection may be lost between any two steps, and an executor
      is a tree of the progress it reports, whose answers it may depend on (one
      that is resumed gets no way to report).  A thread of the web resources is
      an acquisition, split at each of its [await]s, or a call of the
      administration.  The states the vault has been in and the questions put to
      the index, the policy and the network are written down, so that the
      theorems can speak of the moment a secret was sent.
    - The mail workers are a transition system ([mail_step] in [Mail.v]): any
      number of them start, recover once, claim, deliver the mails of a batch side
      by side and end anywhere, and each of their statements may fail, applied or
      not.  What was given to the mail server is written down with its answer.
    - The control of the sites and their host are one transition system ([act] in
      [SitesSystem.v]), which can be run: requests of users and seeds, the steps of
      a pass over the directory with its tasks side by side, reports under way, and
      restarts.  What the directory listed, which checks of the DNS were in order,
      which releases were made and which tokens were handed out is written down.
      DNS, git and its checkout answer anything; the file system holds releases and
      the saved state, and its own calls succeed.
    - Parts that are not in this repository, or that are input and output, are
      parameters: the collation of [localeCompare], the authorizer and its policy,
      the host of the executor (resolver, publisher, factories, actors), the
      outcomes of executors given to a runner, the port and abort signal of the
      observation solver, the QuickJS session of an actor, handlers and gate
      actions bound by applications, the driver of a movement, [createHash], the
      text decoders, the platform's digest, [Buffer.from] of base64, the artifact
      store, the payment provider and the check of its signatures, the identity
      service, the pricing package's [canBuyMore], how the database reads a UUID
      or a timestamp, the platform's [URL] (with the laws of [UrlLaws]), [z.uuid()],
      the index of responses, the policy of egress and the network, clocks and fresh identifiers.  A policy, a host and a port answer from the whole history of
      what they were asked before, so nothing is assumed about repeated questions;
      a failing [Promise.all] is one answer of the host that says which promise
      rejected first.
    - Strings are lists of code units below 256 ([String.string]); CSV texts are
      lists of 16-bit code units.  Costs and other numbers are integers, except
      where a source computes with 32-bit integers ([Sha256.v]), which are written
      with their wrap-around.  Objects used as maps keep their insertion order
      where it can be observed.  Values that may be shared or cyclic live in an
      explicit heap ([Run.v]); elsewhere the copies the code takes make values
      immutable, and the model uses plain values.  What is thrown is text.

    ** Fuel

    Loops that JavaScript does not bound take fuel.  Each is given enough, and
    the theorems state results, not "if it returns": [resolve] and [unify] take
    the size of the bindings and terms ([Term.v] proves more never changes the
    answer); the ancestry check takes one more than the number of steps, since an
    ancestor has a smaller number; the enrichment takes one pass more than its
    limit of steps, and every pass but the last adds a step; the portable clone
    takes one more than the number of objects of the heap, since a path without
    repetition is no longer; the stages of the bus take one turn per actor; an
    observed run takes one turn more than the invocations it may spend; a resumed
    movement takes six turns ([Resume.v]).  The proof-of-work solver polls between
    chunks: its fuel is the number of chunks, and it finds the least solution
    that lies within them.  The strict JSON parser takes twice the length of its
    input and one turn more; reading one type of artifacts takes one turn more than
    the pages the source allows, and browsing 10,000 turns, the limit of the source.
    An acquisition takes one turn more than the redirects its request allows
    ([acquisitions_end]: with more turns it does the same).

    ** What the theorems show

    - Planning.  Unification returns a most general unifier; matching is a
      complete join; a program the planner returns can be executed and reaches its
      goals, no program whose facts have no variables is cheaper within the same
      budget (and one with a variable output is missed), and its absence is
      diagnosed; an enrichment is saturated and repeats nothing within a lineage.
    - Acting.  A mailbox handles one message at a time and drains; no message
      under the name of a gated method reaches its actor unless a human saw and
      confirmed it, while the same event can be sent under an alias, and the names
      for which this is so are exactly told; emissions reach exactly their
      subscribers; the directory of the bus is consistent.
    - Authorizing and executing.  Views fail closed; every execution, successful
      or not, and whatever the host answers, is a run of the protocol of
      [Execution.v]: nothing is spawned, invoked, published or delivered before it
      was allowed, each of them concerns the step of the plan whose turn it is, with
      its factory, actor, capability, method and step, and everything spawned is
      released; a successful execution did every step on inputs it read back; with a
      cooperative host everything that can be planned completes, but for programs
      with steps under an empty tenant, which are refused.  Observed runs assume nothing and stop for a
      reason.  Runs of the runners keep their invariant and their final states;
      on the database a run is executed by one thread at a time, a customer whose
      access was stopped has no executor at work and does not change any more, and
      an execution that is left alone ends the run as the process-local runner
      does, with no other row, lock, mark or session changed.
    - Wanting.  The tables of the intents are consistent, a version stands for one
      state of an intent, every merged intent leads to one that is not, and a
      command that is sent again answers as before.
    - Fetching.  A secret goes along only with requests that an enabled binding of
      the session's subject covers, in a state of the vault between the question to
      the policy and the sending of this very hop, also after a redirect; nothing but its use depends on a secret;
      versions of a credential keep their secret; requests are in normal form, no
      field of the transport is sent, and acquisitions end.
    - Hosting.  A site is served, or a certificate admitted for it, only for a host
      name that the directory listed and whose DNS was then in order for its owner,
      from a release that passed the checks of its source; only files below the
      release are sent, and none that begins with a dot; the host takes every
      binding the control admits, and users change only their own.
    - Placement.  The routing generation is a fence: as long as it is the same the
      customer is at the same place; stale workers change nothing; an activation
      publishes what was verified; revocation wins; the controller ends.
    - Selling.  In every state the checkout reaches a name is reserved by one
      request at a time, sold once and by a payment of its own, and the customer
      API is told of each sale and each revocation once; who asks for a free name,
      follows the link and pays owns it; a payment event takes effect once; a call
      of the provider is processed, turned away or refused, and the archive says
      which; replayed subscription events converge, and the actions of a customer
      concern nobody else.  A mail goes out as it was queued, at most once for each
      attempt it counts; when a worker is left alone all that is due is sent in the
      order of priority and age, finished mails never change, and no
      value gets into the structure of a mail.  Over any network each tenant comes from a purchase,
      and once the grant was accepted a suspension lasts.
    - Data.  SHA-256 is the standard's; challenges are consumed once; resource
      names, JSON copies, canonical artifacts and CSV tables round-trip; eligible
      statements and eligible pairs are exact.  What a client publishes follows
      the contract of its procedure, admitted statements were confirmed by a
      human, decisions follow a ranking, and uploads are bounded.

    Theorems also record behaviour that looks unintended: the alias of a gated
    method, an emission to the second instance of an actor, the update lost
    between overlapping events, the operation of a lost worker that blocks
    movements, progress reported late, plans under an empty tenant, a revocation
    that is overtaken by the grant it revokes, a refund that is processed before
    its payment, two names of one account, a reservation dropped with its link,
    what a late event or one failure does to subscriptions, an interrupted run
    that blocks its customer and a cancelled one that blocks a movement, intents
    addressed in capitals, a 304 nobody asked for, credentials whose names lose
    their capitals, a host suffix that becomes empty, a mail that a restart leaves
    in delivery, a sent mail that counts as a failure, a report that verifies another
    host name, an old artifact that passes for a new source, a seed that anyone can
    block, and missing assets that are kept for a year.

    ** What is not modelled, and why

    User interface, voice and canvas ([src/app]), deployment scripts and
    infrastructure ([src/scripts], [src/infrastructure], [src/deploy]) are input
    and output.  Grants are signed and validated by libraries.  The movement
    driver runs [pg_dump] and role statements.  The sandbox is QuickJS; the shape
    model of [actor.ts] is prompt text.  The HTTP layer under the
    artifact store's client, the adapter of the payment provider's SDK, the
    health checks of the mail worker and the concurrency of chunked reads are left out, as are
    actors around language models.  Of the site host the processes of git and their
    limits, its configuration and the fetch of the directory as HTTP are left out.  Generated files and the archive are not part
    of the program.  Next would be the queue of publications and the
    identity service. *)
From stdpp Require Import base.
