(* ===== verification/Prelude.v ===== *)
(** * Prelude

    What the components share: the error monad that stands for JavaScript
    exceptions, the string and array operations of the JavaScript standard
    library that the source calls, the insertion-ordered [Map], the stable
    [Array.prototype.sort], and the tactics and hint databases of the
    development. *)

From stdpp Require Export base list strings option gmap pretty sorting.
From Stdlib Require Export ZArith Lia.
From Stdlib Require Export Ascii Sorted.

(** The Standard Library numeral notations stay closed: [nat] is the default. *)
Declare Scope js_scope.
Delimit Scope js_scope with js.

(** ** Exceptions

    A function that may [throw new Error(message)] returns a [result]. *)

Inductive result (A : Type) : Type :=
| Ok (value : A)
| Throw (message : string).
Arguments Ok {A} value.
Arguments Throw {A} message.

#[export] Instance result_ret : MRet result := fun A a => Ok a.
#[export] Instance result_bind : MBind result := fun A B k m =>
  match m with Ok a => k a | Throw e => Throw e end.
#[export] Instance result_fmap : FMap result := fun A B f m =>
  match m with Ok a => Ok (f a) | Throw e => Throw e end.

#[export] Instance result_eq_dec `{EqDecision A} : EqDecision (result A).
Proof. solve_decision. Defined.

(** [if (condition) throw new Error(message)]. *)
Definition throw_if (condition : bool) (message : string) : result unit :=
  if condition then Throw message else Ok tt.

Definition is_ok {A} (m : result A) : bool :=
  match m with Ok _ => true | Throw _ => false end.

Notation "'throw!' b 'as' m ; k" := (mbind (fun _ : unit => k) (throw_if b m))
  (at level 100, b at next level, m at next level, k at level 200, right associativity) : js_scope.

(** ** Strings

    A JavaScript string is a sequence of code units.  The model keeps the code
    units below 256, the ones [ascii] has; the source only ever compares,
    splits and searches for characters of that range. *)

#[global] Arguments String.append !_ _ : simpl nomatch.

(** White space as [String.prototype.trim] and [\s] have it, below 256. *)
Definition is_space (c : ascii) : bool :=
  let n := nat_of_ascii c in
  (Nat.leb 9 n && Nat.leb n 13) || Nat.eqb n 32 || Nat.eqb n 160.

Definition is_decimal_char (c : ascii) : bool :=
  let n := nat_of_ascii c in Nat.leb 48 n && Nat.leb n 57.

Fixpoint trim_start (s : string) : string :=
  match s with
  | EmptyString => EmptyString
  | String c rest => if is_space c then trim_start rest else s
  end.

Fixpoint trim_end (s : string) : string :=
  match s with
  | EmptyString => EmptyString
  | String c rest =>
      match trim_end rest with
      | EmptyString => if is_space c then EmptyString else String c EmptyString
      | rest' => String c rest'
      end
  end.

(** [s.trim()]. *)
Definition trim (s : string) : string := trim_start (trim_end s).

(** [s.indexOf(c)] for a one-character needle; [None] is -1. *)
Fixpoint index_of (c : ascii) (s : string) : option nat :=
  match s with
  | EmptyString => None
  | String d rest => if Ascii.eqb c d then Some 0 else S <$> index_of c rest
  end.

(** [s.lastIndexOf(c)]. *)
Fixpoint last_index_of (c : ascii) (s : string) : option nat :=
  match s with
  | EmptyString => None
  | String d rest =>
      match last_index_of c rest with
      | Some i => Some (S i)
      | None => if Ascii.eqb c d then Some 0 else None
      end
  end.

(** An [indexOf] result as the number JavaScript returns. *)
Definition js_index (o : option nat) : Z :=
  match o with Some i => Z.of_nat i | None => (-1)%Z end.

Fixpoint string_take (n : nat) (s : string) : string :=
  match n, s with
  | S n, String c rest => String c (string_take n rest)
  | _, _ => EmptyString
  end.

Fixpoint string_drop (n : nat) (s : string) : string :=
  match n, s with
  | S n, String _ rest => string_drop n rest
  | _, _ => s
  end.

(** [s.slice(start, end)]: negative indexes count from the end. *)
Definition js_slice (s : string) (start stop : Z) : string :=
  let len := Z.of_nat (String.length s) in
  let clamp i := if (i <? 0)%Z then Z.max 0 (len + i) else Z.min i len in
  let from := clamp start in
  let to := clamp stop in
  string_take (Z.to_nat (to - from)) (string_drop (Z.to_nat from) s).

(** [s.slice(start)]. *)
Definition js_slice_from (s : string) (start : Z) : string :=
  js_slice s start (Z.of_nat (String.length s)).

(** [s.split(c)] for a one-character separator. *)
Fixpoint split_on (c : ascii) (s : string) : list string :=
  match s with
  | EmptyString => [EmptyString]
  | String d rest =>
      if Ascii.eqb c d then EmptyString :: split_on c rest
      else match split_on c rest with
           | [] => [String d EmptyString]
           | hd :: tl => String d hd :: tl
           end
  end.

(** [list.join(separator)]. *)
Definition join (separator : string) (l : list string) : string := String.concat separator l.

Fixpoint string_forall (P : ascii -> bool) (s : string) : bool :=
  match s with
  | EmptyString => true
  | String c rest => P c && string_forall P rest
  end.

(** [s.startsWith(prefix)]. *)
Definition starts_with (s prefix_ : string) : bool := String.prefix prefix_ s.

(** [s.includes(c)] for a one-character needle. *)
Definition includes_char (c : ascii) (s : string) : bool := bool_decide (is_Some (index_of c s)).

(** [typeof x === 'string' && x] style truthiness of an optional string. *)
Definition truthy (o : option string) : option string :=
  match o with Some EmptyString => None | _ => o end.

Lemma truthy_Some o s : truthy o = Some s -> o = Some s.
Proof. by destruct o as [[]|]. Qed.

(** A text whose code units may go beyond 255 is a list of them; these are the
    code units of a literal. *)
Abbreviation text := (list Z).
Fixpoint lit (s : string) : text :=
  match s with EmptyString => [] | String c s => Z.of_nat (nat_of_ascii c) :: lit s end.

(** [\s], and [s.trim()]. *)
Definition is_white (c : Z) : bool := (
  ((9 <=? c) && (c <=? 13)) || (c =? 32) || (c =? 160) || (c =? 5760) || ((8192 <=? c) && (c <=? 8202)) ||
  (c =? 8232) || (c =? 8233) || (c =? 8239) || (c =? 8287) || (c =? 12288) || (c =? 65279))%Z.
Fixpoint drop_white (s : text) : text :=
  match s with c :: rest => if is_white c then drop_white rest else s | [] => [] end.
Definition trim_text (s : text) : text := reverse (drop_white (reverse (drop_white s))).

(** ** Arrays *)

(** [list.find(predicate)]. *)
Fixpoint js_find {A} (p : A -> bool) (l : list A) : option A :=
  match l with
  | [] => None
  | x :: l => if p x then Some x else js_find p l
  end.

(** [list.some(predicate)] and [list.every(predicate)] are [existsb] and
    [forallb]; [list.includes(x)] on strings: *)
Definition includes `{EqDecision A} (l : list A) (x : A) : bool := bool_decide (x ∈ l).

(** [[...new Set(list)]]: the first occurrence of every element, in order. *)
Fixpoint dedup_from `{EqDecision A} (seen l : list A) : list A :=
  match l with
  | [] => []
  | x :: l => if decide (x ∈ seen) then dedup_from seen l else x :: dedup_from (x :: seen) l
  end.
Definition dedup `{EqDecision A} (l : list A) : list A := dedup_from [] l.

(** [list.sort(compare)]: stable, with a comparator that returns a number. *)
Fixpoint sort_insert {A} (cmp : A -> A -> Z) (x : A) (l : list A) : list A :=
  match l with
  | [] => [x]
  | y :: l' => if (cmp x y <=? 0)%Z then x :: l else y :: sort_insert cmp x l'
  end.
Definition js_sort {A} (cmp : A -> A -> Z) (l : list A) : list A := foldr (sort_insert cmp) [] l.

(** [a || b] on numbers. *)
Definition or_else (a b : Z) : Z := if (a =? 0)%Z then b else a.

(** The default order of [Array.prototype.sort], and [<] on strings: code units. *)
Fixpoint string_cmp (s t : string) : Z :=
  match s, t with
  | EmptyString, EmptyString => 0%Z
  | EmptyString, String _ _ => (-1)%Z
  | String _ _, EmptyString => 1%Z
  | String c s, String d t =>
      or_else (Z.of_nat (nat_of_ascii c) - Z.of_nat (nat_of_ascii d))%Z (string_cmp s t)
  end.

(** [left.localeCompare(right)] depends on the locale of the process; all the
    code relies on is that it is a consistent comparator. *)
Class Collation := localeCompare : string -> string -> Z.
Class CollationLaws (C : Collation) : Prop := {
  locale_refl s : localeCompare s s = 0%Z;
  locale_antisym s t : Z.sgn (localeCompare t s) = (- Z.sgn (localeCompare s t))%Z;
  locale_trans s t u : (localeCompare s t <= 0)%Z -> (localeCompare t u <= 0)%Z ->
                       (localeCompare s u <= 0)%Z
}.

(** ** [Map]: an association list in insertion order *)

Section JsMap.
Context {K V : Type} `{EqDecision K}.

Fixpoint map_get (k : K) (m : list (K * V)) : option V :=
  match m with
  | [] => None
  | (k', v) :: m => if decide (k = k') then Some v else map_get k m
  end.

(** [map.set(k, v)]: in place for a present key, at the end for a new one. *)
Fixpoint map_set (k : K) (v : V) (m : list (K * V)) : list (K * V) :=
  match m with
  | [] => [(k, v)]
  | (k', v') :: m => if decide (k = k') then (k, v) :: m else (k', v') :: map_set k v m
  end.

Definition map_has (k : K) (m : list (K * V)) : bool := bool_decide (is_Some (map_get k m)).

(** [map.delete(k)]. *)
Definition map_delete (k : K) (m : list (K * V)) : list (K * V) :=
  base.filter (fun p => p.1 <> k) m.

(** Every key once: what [Map] guarantees. *)
Definition map_ok (m : list (K * V)) : Prop := NoDup m.*1.
End JsMap.

(** ** Tactics *)

(** Case analysis on the results an operation was computed from. *)
Ltac inv_result :=
  repeat match goal with
  | H : mbind _ ?m = Ok _ |- _ => destruct m eqn:?; cbn [mbind result_bind] in H; [|discriminate H]
  | H : throw_if ?b _ = Ok _ |- _ => destruct b eqn:?; cbn [throw_if] in H; [discriminate H|clear H]
  | H : Ok _ = Ok _ |- _ => injection H as H; subst
  | H : Throw _ = Ok _ |- _ => discriminate H
  | H : Ok _ = Throw _ |- _ => discriminate H
  | H : mret _ = Ok _ |- _ => change (Ok _ = Ok _) in H
  end.

(** Boolean tests as propositions. *)
Ltac bools :=
  repeat match goal with
  | H : andb _ _ = true |- _ => apply andb_prop in H as [? ?]
  | H : orb _ _ = false |- _ => apply orb_false_elim in H as [? ?]
  | H : negb _ = true |- _ => apply negb_true_iff in H
  | H : negb _ = false |- _ => apply negb_false_iff in H
  | H : bool_decide _ = true |- _ => apply bool_decide_eq_true in H
  | H : bool_decide _ = false |- _ => apply bool_decide_eq_false in H
  end.

(** A decidable closed fact. *)
Ltac by_compute :=
  match goal with
  | |- ?P => refine (proj1 (bool_decide_eq_true P) _); vm_compute; reflexivity
  end.

Create HintDb js discriminated.
Create Rewrite HintDb js_rw.

(** ** Lemmas on arrays *)

Lemma drop_app_string s t : string_drop (String.length s) (s +:+ t) = t.
Proof. induction s as [|c s IH]; cbn; [by destruct t|done]. Qed.
Lemma length_app_string s t : String.length (s +:+ t) = String.length s + String.length t.
Proof. induction s as [|c s IH]; cbn; [done|by rewrite IH]. Qed.

Lemma js_find_Some {A} (p : A -> bool) l x : js_find p l = Some x -> x ∈ l /\ p x = true.
Proof.
  induction l as [|y l IH]; cbn; [discriminate|]. destruct (p y) eqn:E.
  - intros [= ->]. split; [left|done].
  - intros [? ?]%IH. split; [right|]; done.
Qed.

Lemma js_find_None {A} (p : A -> bool) l : js_find p l = None <-> forall x, x ∈ l -> p x = false.
Proof.
  induction l as [|y l IH]; cbn.
  - split; [intros _ x Hx; by apply not_elem_of_nil in Hx|done].
  - destruct (p y) eqn:E.
    + split; [discriminate|]. intros H. rewrite (H y) in E; [discriminate|left].
    + rewrite IH. split; intros H x; [intros [->|?]%elem_of_cons; auto|].
      intros ?. apply H. by right.
Qed.

Lemma existsb_elem {A} (p : A -> bool) l : existsb p l = true <-> exists x, x ∈ l /\ p x = true.
Proof.
  rewrite List.existsb_exists. by setoid_rewrite <- list_elem_of_In.
Qed.

Lemma existsb_elem_false {A} (p : A -> bool) l :
  existsb p l = false <-> forall x, x ∈ l -> p x = false.
Proof.
  rewrite <- not_true_iff_false, existsb_elem. split.
  - intros H x Hx. apply not_true_iff_false. intros E. apply H. eauto.
  - intros H (x & Hx & E). rewrite (H x Hx) in E. discriminate.
Qed.

Lemma forallb_elem {A} (p : A -> bool) l : forallb p l = true <-> forall x, x ∈ l -> p x = true.
Proof.
  rewrite List.forallb_forall. by setoid_rewrite <- list_elem_of_In.
Qed.

Section DedupLemmas.
Context {A : Type} `{EqDecision A}.
Implicit Types (l seen : list A).

Lemma elem_of_dedup_from x seen l : x ∈ dedup_from seen l <-> x ∈ l /\ x ∉ seen.
Proof.
  revert seen. induction l as [|y l IH]; intros seen; cbn.
  - split; [intros H%not_elem_of_nil|intros [H%not_elem_of_nil _]]; done.
  - rewrite elem_of_cons. case_decide as Hy; rewrite ?elem_of_cons, IH, ?elem_of_cons.
    + split; [tauto|]. intros [[->|?] ?]; done.
    + destruct (decide (x = y)) as [->|]; tauto.
Qed.

Lemma NoDup_dedup_from seen l : NoDup (dedup_from seen l).
Proof.
  revert seen. induction l as [|y l IH]; intros seen; cbn; [constructor|].
  case_decide; [apply IH|]. constructor; [|apply IH].
  rewrite elem_of_dedup_from, elem_of_cons. tauto.
Qed.

Lemma elem_of_dedup x l : x ∈ dedup l <-> x ∈ l.
Proof.
  unfold dedup. rewrite elem_of_dedup_from. pose proof (not_elem_of_nil x). tauto.
Qed.

Lemma NoDup_dedup l : NoDup (dedup l).
Proof. apply NoDup_dedup_from. Qed.
End DedupLemmas.
#[export] Hint Resolve NoDup_dedup : js.

(** ** Lemmas on sorting *)

Lemma StronglySorted_weaken {A} (P Q : A -> A -> Prop) l :
  (forall x y, P x y -> Q x y) -> StronglySorted P l -> StronglySorted Q l.
Proof.
  intros HPQ. induction 1; constructor; [done|]. eapply Forall_impl; [eassumption|]. auto.
Qed.

Section SortLemmas.
Context {A : Type} (cmp : A -> A -> Z).

Lemma sort_insert_perm x l : sort_insert cmp x l ≡ₚ x :: l.
Proof.
  induction l as [|y l IH]; cbn; [done|]. case_match; [done|].
  rewrite IH. constructor.
Qed.

Lemma js_sort_perm l : js_sort cmp l ≡ₚ l.
Proof.
  induction l as [|x l IH]; cbn; [done|]. rewrite sort_insert_perm. by constructor.
Qed.

Lemma elem_of_js_sort x l : x ∈ js_sort cmp l <-> x ∈ l.
Proof. by rewrite js_sort_perm. Qed.

Lemma length_js_sort l : length (js_sort cmp l) = length l.
Proof. by rewrite js_sort_perm. Qed.

Let R x y := (cmp x y <= 0)%Z.

Lemma sort_insert_sorted x l :
  (forall x y, R x y \/ R y x) -> (forall x y z, R x y -> R y z -> R x z) ->
  StronglySorted R l -> StronglySorted R (sort_insert cmp x l).
Proof.
  intros Htot Htr. induction 1 as [|y l Hs IH Hall]; cbn; [repeat constructor|].
  destruct (Z.leb_spec (cmp x y) 0) as [H|H].
  - constructor; [by constructor|]. constructor; [done|].
    eapply Forall_impl; [exact Hall|]. intros z. by apply Htr.
  - assert (R y x) as Hyx by (destruct (Htot x y); [unfold R in *; lia|done]).
    constructor; [apply IH|]. rewrite sort_insert_perm. by constructor.
Qed.

Lemma js_sort_sorted l :
  (forall x y, R x y \/ R y x) -> (forall x y z, R x y -> R y z -> R x z) ->
  StronglySorted R (js_sort cmp l).
Proof.
  intros Htot Htr. induction l as [|x l IH]; cbn; [constructor|].
  by apply sort_insert_sorted.
Qed.
End SortLemmas.

(** ** Comparators

    What makes a comparator consistent, so that the sorted list does not depend on
    the algorithm of [Array.prototype.sort]. *)

Class Ordering {A} (cmp : A -> A -> Z) : Prop := {
  ordering_antisym x y : Z.sgn (cmp y x) = (- Z.sgn (cmp x y))%Z;
  ordering_trans x y z : (cmp x y <= 0)%Z -> (cmp y z <= 0)%Z -> (cmp x z <= 0)%Z
}.

Section Orderings.
Context {A : Type}.
Implicit Types (f g : A -> A -> Z) (key : A -> Z).
Local Open Scope Z_scope.

Lemma ordering_total f `{!Ordering f} x y : f x y <= 0 \/ f y x <= 0.
Proof. pose proof (ordering_antisym x y). lia. Qed.

Lemma ordering_strict f `{!Ordering f} x y z : f x y < 0 -> f y z <= 0 -> f x z < 0.
Proof.
  intros Hxy Hyz. pose proof (ordering_trans x y z). pose proof (ordering_trans y z x).
  pose proof (ordering_antisym x y). pose proof (ordering_antisym x z). lia.
Qed.

#[export] Instance ordering_by key : Ordering (fun x y => key x - key y).
Proof. split; intros; lia. Qed.

#[export] Instance ordering_down key : Ordering (fun x y => key y - key x).
Proof. split; intros; lia. Qed.

#[export] Instance ordering_sgn f `{!Ordering f} : Ordering (fun x y => Z.sgn (f x y)).
Proof.
  split; intros.
  - pose proof (ordering_antisym x y). lia.
  - pose proof (ordering_trans x y z). lia.
Qed.

#[export] Instance ordering_lex f g `{!Ordering f, !Ordering g} :
  Ordering (fun x y => or_else (f x y) (g x y)).
Proof.
  split; unfold or_else.
  - intros x y. pose proof (ordering_antisym (cmp := f) x y).
    pose proof (ordering_antisym (cmp := g) x y).
    destruct (Z.eqb_spec (f x y) 0), (Z.eqb_spec (f y x) 0); lia.
  - intros x y z. pose proof (ordering_strict f x y z). pose proof (ordering_strict f y z x).
    pose proof (ordering_antisym (cmp := f) x y). pose proof (ordering_antisym (cmp := f) y z).
    pose proof (ordering_antisym (cmp := f) x z).
    pose proof (ordering_trans (cmp := f) x y z). pose proof (ordering_trans (cmp := f) z y x).
    pose proof (ordering_trans (cmp := g) x y z).
    destruct (Z.eqb_spec (f x y) 0), (Z.eqb_spec (f y z) 0), (Z.eqb_spec (f x z) 0); lia.
Qed.

Lemma js_sort_ordered f `{!Ordering f} l : StronglySorted (fun x y => f x y <= 0) (js_sort f l).
Proof. apply js_sort_sorted; [apply ordering_total, _|apply ordering_trans]. Qed.
End Orderings.

Lemma ordering_on {A B} (key : A -> B) (f : B -> B -> Z) `{!Ordering f} :
  Ordering (fun x y => f (key x) (key y)).
Proof. split; intros; [apply ordering_antisym|by eapply ordering_trans]. Qed.
#[export] Hint Extern 5 (Ordering (fun x y => ?f (?key x) (?key y))) =>
  notypeclasses refine (ordering_on key f) : typeclass_instances.

(** ** Lemmas on [Map] *)

Section MapLemmas.
Context {K V : Type} `{EqDecision K}.
Implicit Types (m : list (K * V)) (k : K) (v : V).

Lemma map_get_set k k' v m :
  map_get k (map_set k' v m) = if decide (k = k') then Some v else map_get k m.
Proof.
  induction m as [|[k1 v1] m IH]; cbn; [done|].
  destruct (decide (k' = k1)) as [->|Hk]; cbn; [by destruct (decide (k = k1))|].
  rewrite IH. destruct (decide (k = k1)) as [->|]; [|done]. by rewrite decide_False.
Qed.

Lemma map_get_set_eq k v m : map_get k (map_set k v m) = Some v.
Proof. rewrite map_get_set. by rewrite decide_True. Qed.

Lemma map_get_set_ne k k' v m : k <> k' -> map_get k (map_set k' v m) = map_get k m.
Proof. intros. rewrite map_get_set. by rewrite decide_False. Qed.

Lemma map_get_elem k v m : map_get k m = Some v -> (k, v) ∈ m.
Proof.
  induction m as [|[k1 v1] m IH]; cbn; [discriminate|].
  case_decide; [intros [= ->]; subst; left|]. intros ?%IH. by right.
Qed.

Lemma map_set_elem k v m e : e ∈ map_set k v m -> e = (k, v) \/ e ∈ m.
Proof.
  induction m as [|[k' v'] m IH]; cbn; [by intros ->%list_elem_of_singleton; left|].
  case_decide; rewrite !elem_of_cons; naive_solver.
Qed.

Lemma map_get_None k m : map_get k m = None <-> k ∉ m.*1.
Proof.
  induction m as [|[k1 v1] m IH]; cbn; [split; [intros _; apply not_elem_of_nil|done]|].
  rewrite elem_of_cons. case_decide; [split; [discriminate|tauto]|]. rewrite IH. tauto.
Qed.

Lemma map_get_ok k v m : map_ok m -> (k, v) ∈ m -> map_get k m = Some v.
Proof.
  unfold map_ok. induction m as [|[k1 v1] m IH]; cbn; [by intros _ ?%not_elem_of_nil|].
  intros [Hn Hok]%NoDup_cons [H|H]%elem_of_cons.
  - injection H as -> ->. by rewrite decide_True.
  - case_decide; subst; [|by apply IH].
    destruct Hn. apply list_elem_of_fmap. by exists (k1, v).
Qed.

Lemma map_set_keys k v m :
  (map_set k v m).*1 = if decide (k ∈ m.*1) then m.*1 else m.*1 ++ [k].
Proof.
  induction m as [|[k1 v1] m IH]; cbn.
  - rewrite decide_False; [done|apply not_elem_of_nil].
  - destruct (decide (k = k1)) as [->|E]; cbn; [rewrite decide_True; [done|left]|].
    rewrite IH. destruct (decide (k ∈ m.*1)) as [Hin|Hin].
    + rewrite decide_True; [done|by right].
    + rewrite decide_False; [done|]. rewrite elem_of_cons. tauto.
Qed.

Lemma map_ok_set k v m : map_ok m -> map_ok (map_set k v m).
Proof.
  unfold map_ok. rewrite map_set_keys. case_decide as Hin; [done|]. intros Hok.
  apply NoDup_app. repeat split; [done| |apply NoDup_singleton].
  intros x Hx ->%list_elem_of_singleton. done.
Qed.

Lemma map_get_delete k k' m :
  map_get k (map_delete k' m) = if decide (k = k') then None else map_get k m.
Proof.
  unfold map_delete. induction m as [|[k1 v1] m IH].
  { cbn. by destruct (decide (k = k')). }
  rewrite filter_cons. cbn [map_get fst]. destruct (decide (k1 <> k')) as [Hk|Hk].
  - cbn [map_get]. rewrite IH. destruct (decide (k = k1)) as [->|]; [|done].
    by rewrite decide_False.
  - apply dec_stable in Hk as ->. rewrite IH. by destruct (decide (k = k')).
Qed.

Lemma map_ok_delete k m : map_ok m -> map_ok (map_delete k m).
Proof.
  unfold map_ok, map_delete. induction m as [|[k1 v1] m IH]; [done|].
  rewrite filter_cons. cbn [fst fmap list_fmap].
  intros [Hn Hok]%NoDup_cons. destruct (decide (k1 <> k)) as [Hk|Hk]; cbn; [|by apply IH].
  apply NoDup_cons. split; [|by apply IH].
  intros ((k2 & v2) & -> & H)%list_elem_of_fmap. apply Hn.
  apply list_elem_of_filter in H as [_ H]. apply list_elem_of_fmap. by exists (k2, v2).
Qed.

Lemma map_set_same k v m : map_get k m = Some v -> map_set k v m = m.
Proof.
  induction m as [|[k1 v1] m IH]; cbn; [done|].
  case_decide; [subst; by intros [= ->]|]. intros ?. by rewrite IH.
Qed.

Lemma map_set_set k v w m : map_set k v (map_set k w m) = map_set k v m.
Proof.
  induction m as [|[k' v'] m IH]; cbn [map_set]; [by rewrite decide_True|].
  destruct (decide (k = k')) as [->|Hne]; cbn [map_set]; [by rewrite decide_True|].
  by rewrite decide_False, IH.
Qed.

Lemma map_set_new k v m : map_has k m = false -> map_set k v m = m ++ [(k, v)].
Proof.
  induction m as [|[k' v'] m IH]; [done|]. unfold map_has in *. cbn.
  case_decide; [by subst; rewrite bool_decide_true|]. intros Hn. by rewrite IH.
Qed.

Lemma map_has_app k m m' : map_has k (m ++ m') = map_has k m || map_has k m'.
Proof.
  induction m as [|[k' v'] m IH]; [by unfold map_has|]. unfold map_has in *. cbn.
  case_decide; [by rewrite bool_decide_true|done].
Qed.

Lemma map_ok_filter (P : K * V -> Prop) `{!forall e, Decision (P e)} m :
  map_ok m -> map_ok (base.filter P m).
Proof.
  unfold map_ok. induction m as [|e m IH]; [done|]. rewrite filter_cons. cbn [fmap list_fmap].
  intros [Hn Hok]%NoDup_cons. case_decide; [|auto]. cbn. apply NoDup_cons. split; [|auto].
  intros (e' & Ee & He)%list_elem_of_fmap. apply Hn. rewrite Ee. apply list_elem_of_fmap_2.
  by apply list_elem_of_filter in He as [_ ?].
Qed.

Lemma map_get_filter (P : K * V -> Prop) `{!forall e, Decision (P e)} k v m :
  map_ok m -> map_get k (base.filter P m) = Some v <-> map_get k m = Some v /\ P (k, v).
Proof.
  intros Hok. split.
  - intros [? ?]%map_get_elem%list_elem_of_filter. split; [by apply map_get_ok|done].
  - intros [Hk HP]. apply map_get_ok; [by apply map_ok_filter|].
    apply list_elem_of_filter. split; [done|by apply map_get_elem].
Qed.

Lemma map_ok_nil : map_ok (@nil (K * V)).
Proof. constructor. Qed.
Lemma map_get_app k m m' : map_get k (m ++ m') = match map_get k m with Some v => Some v | None => map_get k m' end.
Proof. induction m as [|[k' v] m IH]; cbn; [done|]. case_decide; auto. Qed.

Lemma map_has_get k m : map_has k m = true <-> exists v, map_get k m = Some v.
Proof. unfold map_has. by rewrite bool_decide_eq_true. Qed.

Lemma map_has_none k m : map_has k m = false <-> map_get k m = None.
Proof. unfold map_has. rewrite bool_decide_eq_false. by rewrite eq_None_not_Some. Qed.

Lemma map_ok_add k v m : map_ok m -> map_get k m = None -> map_ok (m ++ [(k, v)]).
Proof.
  intros Hm Hk. unfold map_ok. rewrite fmap_app, NoDup_app. split; [done|]. split; [|apply NoDup_singleton].
  intros x Hx ->%list_elem_of_singleton. by apply map_get_None in Hk.
Qed.
End MapLemmas.
#[export] Hint Resolve map_ok_set map_ok_delete map_ok_nil : js.
#[export] Hint Rewrite @map_get_set_eq @map_get_set @map_get_delete : js_rw.

(** ** Lemmas on strings *)

Lemma string_app_nil s : "" +:+ s = s.
Proof. done. Qed.

Lemma string_app_nil_r s : s +:+ "" = s.
Proof. induction s as [|c s IH]; cbn; [done|by rewrite IH]. Qed.

Lemma string_app_assoc s t u : (s +:+ t) +:+ u = s +:+ (t +:+ u).
Proof. induction s as [|c s IH]; cbn; [done|by rewrite IH]. Qed.

(** A string in which character [c] does not occur. *)
Definition free_of (c : ascii) : string -> bool := string_forall (fun d => negb (Ascii.eqb c d)).

Lemma string_forall_app P s t : string_forall P (s +:+ t) = string_forall P s && string_forall P t.
Proof. induction s as [|c s IH]; cbn; [done|]. by rewrite IH, andb_assoc. Qed.

Lemma string_forall_impl (P Q : ascii -> bool) s :
  (forall c, P c = true -> Q c = true) -> string_forall P s = true -> string_forall Q s = true.
Proof.
  intros HPQ. induction s as [|c s IH]; cbn; [done|]. intros [Hc Hs]%andb_prop.
  rewrite (HPQ _ Hc), IH by done. done.
Qed.

Lemma last_index_app c s t :
  free_of c t = true -> last_index_of c (s +:+ String c t) = Some (String.length s).
Proof.
  intros Ht. assert (last_index_of c t = None) as Hn.
  { induction t as [|d t IH]; cbn in *; [done|]. bools. rewrite IH by done.
    match goal with H : Ascii.eqb _ _ = false |- _ => by rewrite H end. }
  induction s as [|d s IH]; cbn; [by rewrite Hn, Ascii.eqb_refl|by rewrite IH].
Qed.

(** The prefix and a suffix without the separator determine a key. *)
Lemma suffixed_inj {A} (f : A -> string) `{!Inj (=) (=) f} c s s' x x' :
  free_of c (f x) = true -> free_of c (f x') = true ->
  s +:+ String c (f x) = s' +:+ String c (f x') -> s = s' /\ x = x'.
Proof.
  intros Hx Hx' E. pose proof (last_index_app c s (f x) Hx) as Hl. rewrite E, last_index_app in Hl by done.
  injection Hl as Hl. revert s' E Hl. induction s as [|d s IH]; intros [|d' s']; cbn; try done.
  - intros [= E%(inj f)] _. done.
  - intros [= -> E] [= Hl]. by destruct (IH s' E Hl) as [-> ->].
Qed.

Lemma pretty_N_go_free c x s :
  (forall y, c <> pretty_N_char y) -> free_of c s = true -> free_of c (pretty_N_go x s) = true.
Proof.
  intros Hc. revert s. induction (N.lt_wf_0 x) as [x _ IH]; intros s Hs.
  destruct (decide (x = 0)%N) as [->|Hx]; [by rewrite pretty_N_go_0|].
  rewrite pretty_N_go_step by lia. apply IH; [apply N.div_lt; lia|]. cbn.
  rewrite Hs, andb_true_r. apply negb_true_iff, Ascii.eqb_neq, Hc.
Qed.

(** The digits of a number do not contain a separator. *)
Lemma pretty_nat_free c (n : nat) : is_decimal_char c = false -> free_of c (pretty n) = true.
Proof.
  intros Hc. assert (forall y, c <> pretty_N_char y) as Hne.
  { intros y ->. unfold pretty_N_char in Hc. by repeat case_match. }
  unfold pretty, pretty_nat, pretty, pretty_N. case_decide; [|by apply pretty_N_go_free].
  cbn. specialize (Hne 0%N). cbn in Hne. by rewrite (proj2 (Ascii.eqb_neq _ _) Hne).
Qed.

Lemma split_on_cons c s : exists h t, split_on c s = h :: t.
Proof.
  induction s as [|d s (h & t & IH)]; cbn; [eauto|]. destruct (Ascii.eqb c d); [eauto|].
  rewrite IH. eauto.
Qed.

Lemma split_on_app c s t : free_of c s = true ->
  split_on c (s +:+ String c t) = s :: split_on c t.
Proof.
  induction s as [|d s IH]; cbn; [by rewrite Ascii.eqb_refl|].
  intros [Hd Hs]%andb_prop. apply negb_true_iff in Hd. by rewrite Hd, (IH Hs).
Qed.

Lemma split_on_free c s : free_of c s = true -> split_on c s = [s].
Proof.
  induction s as [|d s IH]; cbn; [done|].
  intros [Hd Hs]%andb_prop. apply negb_true_iff in Hd. by rewrite Hd, (IH Hs).
Qed.

Lemma join_cons sep s l : l <> [] -> join sep (s :: l) = s +:+ sep +:+ join sep l.
Proof. by destruct l. Qed.

Lemma split_on_join c l : l <> [] -> Forall (fun s => free_of c s = true) l ->
  split_on c (join (String c "") l) = l.
Proof.
  intros Hne H. induction H as [|s l Hs Hl IH]; [done|]. destruct l as [|s' l].
  - by apply split_on_free.
  - rewrite join_cons by done. cbn [String.append].
    rewrite split_on_app by done. f_equal. by apply IH.
Qed.

Lemma trim_space c s : is_space c = true -> trim (String c s) = trim s.
Proof.
  intros Hc. unfold trim. cbn. destruct (trim_end s) as [|d t] eqn:E; cbn; rewrite Hc; done.
Qed.

(** Cutting a string keeps a property of its characters. *)

Section StringForall.
Context (P : ascii -> bool).

Lemma trim_start_idem s : trim_start (trim_start s) = trim_start s.
Proof.
  induction s as [|c s IH]; cbn; [done|]. destruct (is_space c) eqn:E; [done|]. cbn. by rewrite E.
Qed.

Lemma trim_end_cons c s :
  trim_end (String c s) =
    if is_space c && bool_decide (trim_end s = "") then "" else String c (trim_end s).
Proof. cbn. destruct (trim_end s); cbn; by destruct (is_space c). Qed.

Lemma trim_end_idem s : trim_end (trim_end s) = trim_end s.
Proof.
  induction s as [|c s IH]; [done|]. rewrite trim_end_cons.
  destruct (is_space c && _) eqn:E; [done|]. by rewrite trim_end_cons, IH, E.
Qed.

Lemma trim_end_start s : trim_end (trim_start s) = trim_start (trim_end s).
Proof.
  induction s as [|c s IH]; [done|]. rewrite trim_end_cons. cbn [trim_start].
  destruct (is_space c) eqn:E; cbn [andb].
  - rewrite IH. case_bool_decide as Hn; [by rewrite Hn|]. cbn. by rewrite E.
  - rewrite trim_end_cons, E. cbn. by rewrite E.
Qed.

Lemma trim_idem s : trim (trim s) = trim s.
Proof. unfold trim. by rewrite trim_end_start, trim_end_idem, trim_start_idem. Qed.

(** Trimming stops at an end that is not white space. *)
Lemma trim_end_app s c : is_space c = false -> trim_end (s +:+ String c "") = s +:+ String c "".
Proof.
  intros Hc. induction s as [|d s IH]; cbn [String.append]; [cbn; by rewrite Hc|].
  assert (s +:+ String c "" <> "") as Hn by (by destruct s).
  by rewrite trim_end_cons, IH, (bool_decide_false _ Hn), andb_false_r.
Qed.

Lemma trim_start_trimmed s c t : trim_start s = s -> is_space c = false ->
  trim_start (s +:+ String c t) = s +:+ String c t.
Proof.
  destruct s as [|d s]; cbn; [by intros _ ->|]. destruct (is_space d) eqn:E; [|done].
  intros Hs. exfalso. assert (String.length (trim_start s) <= String.length s) as Hl.
  { clear. induction s as [|c s IH]; cbn; [lia|]. destruct (is_space c); cbn; lia. }
  rewrite Hs in Hl. cbn in Hl. lia.
Qed.

Lemma trimmed_start s : trim s = s -> trim_start s = s.
Proof. intros H. rewrite <- H at 1. unfold trim at 1. by rewrite trim_start_idem. Qed.

Lemma index_of_app c s t : free_of c s = true -> index_of c (s +:+ String c t) = Some (String.length s).
Proof.
  induction s as [|d s IH]; cbn; [by rewrite Ascii.eqb_refl|]. intros H. bools.
  match goal with H : Ascii.eqb _ _ = false |- _ => rewrite H end. by rewrite IH.
Qed.

Lemma index_of_None c s : index_of c s = None <-> free_of c s = true.
Proof.
  induction s as [|d s IH]; cbn; [done|]. destruct (Ascii.eqb c d); cbn; [done|].
  rewrite <- IH. by destruct (index_of c s).
Qed.

Lemma index_of_take c s n : index_of c s = Some n ->
  n <= String.length s /\ free_of c (string_take n s) = true.
Proof.
  revert n. induction s as [|d s IH]; intros n; cbn [index_of]; [done|].
  destruct (Ascii.eqb c d) eqn:E; [intros [= <-]; split; [cbn; lia|done]|].
  intros (k & [Hk Hf]%IH & ->)%fmap_Some. split; [cbn; lia|]. unfold free_of in *. cbn. by rewrite E.
Qed.

Lemma string_take_app s t : string_take (String.length s) (s +:+ t) = s.
Proof. induction s as [|c s IH]; cbn; [by destruct t|by rewrite IH]. Qed.

Lemma string_forall_trim_start s : string_forall P s = true -> string_forall P (trim_start s) = true.
Proof.
  induction s as [|c s IH]; cbn; [done|]. intros [Hc Hs]%andb_prop.
  destruct (is_space c); [auto|]. cbn. by rewrite Hc, Hs.
Qed.

Lemma string_forall_trim_end s : string_forall P s = true -> string_forall P (trim_end s) = true.
Proof.
  induction s as [|c s IH]; cbn; [done|]. intros [Hc Hs]%andb_prop.
  specialize (IH Hs). destruct (trim_end s) as [|d t] eqn:E.
  - destruct (is_space c); [done|]. cbn. by rewrite Hc.
  - cbn in *. by rewrite Hc, IH.
Qed.

Lemma string_forall_trim s : string_forall P s = true -> string_forall P (trim s) = true.
Proof. intros. by apply string_forall_trim_start, string_forall_trim_end. Qed.

Lemma string_forall_take n s : string_forall P s = true -> string_forall P (string_take n s) = true.
Proof.
  revert s. induction n as [|n IH]; intros [|c s]; cbn; try done.
  intros [Hc Hs]%andb_prop. by rewrite Hc, IH.
Qed.

Lemma string_forall_drop n s : string_forall P s = true -> string_forall P (string_drop n s) = true.
Proof.
  revert s. induction n as [|n IH]; intros [|c s]; cbn; try done.
  intros [Hc Hs]%andb_prop. auto.
Qed.

Lemma string_forall_slice s i j : string_forall P s = true -> string_forall P (js_slice s i j) = true.
Proof. intros. by apply string_forall_take, string_forall_drop. Qed.

Lemma string_forall_split c s : string_forall P s = true ->
  Forall (fun t => string_forall P t = true) (split_on c s).
Proof.
  induction s as [|d s IH]; cbn; [by repeat constructor|]. intros [Hd Hs]%andb_prop.
  specialize (IH Hs). destruct (Ascii.eqb c d); [by constructor|].
  destruct (split_on c s) as [|h t]; inversion IH; subst; constructor; cbn; try constructor;
    rewrite ?Hd; auto.
Qed.

Lemma string_forall_join sep l : string_forall P sep = true ->
  Forall (fun t => string_forall P t = true) l -> string_forall P (join sep l) = true.
Proof.
  intros Hsep. induction 1 as [|s l Hs Hl IH]; [done|]. destruct l as [|s' l]; [done|].
  rewrite join_cons, !string_forall_app, Hs, Hsep by done. done.
Qed.
End StringForall.

(** ** The order of strings *)

Lemma nat_of_ascii_inj c d : nat_of_ascii c = nat_of_ascii d -> c = d.
Proof. intros H. rewrite <- (ascii_nat_embedding c), <- (ascii_nat_embedding d). by f_equal. Qed.

Lemma string_cmp_opp s t : string_cmp t s = (- string_cmp s t)%Z.
Proof.
  revert t. induction s as [|c s IH]; intros [|d t]; cbn; try done. unfold or_else.
  repeat case_match; rewrite ?Z.eqb_eq, ?Z.eqb_neq in *; try lia. apply IH.
Qed.

Lemma string_cmp_eq s t : string_cmp s t = 0%Z -> s = t.
Proof.
  revert t. induction s as [|c s IH]; intros [|d t]; cbn; try done. unfold or_else.
  case_match eqn:E; [|intros H; rewrite Z.eqb_neq in E; lia].
  rewrite Z.eqb_eq in E. intros ->%IH. f_equal. apply nat_of_ascii_inj. lia.
Qed.

Lemma string_cmp_trans s t u :
  (string_cmp s t <= 0)%Z -> (string_cmp t u <= 0)%Z -> (string_cmp s u <= 0)%Z.
Proof.
  revert t u. induction s as [|c s IH]; intros [|d t] [|e u]; cbn; try lia. unfold or_else.
  intros H1 H2. destruct (_ =? 0)%Z eqn:E1 in H1; destruct (_ =? 0)%Z eqn:E2 in H2;
    rewrite ?Z.eqb_eq, ?Z.eqb_neq in *;
    match goal with |- context [(?x =? 0)%Z] => destruct (Z.eqb_spec x 0) end; try lia.
  by apply (IH t u).
Qed.

#[export] Instance string_cmp_ordering : Ordering string_cmp.
Proof. split; intros; [rewrite string_cmp_opp; lia|by eapply string_cmp_trans]. Qed.

Lemma string_cmp_total s t : (string_cmp s t <= 0)%Z \/ (string_cmp t s <= 0)%Z.
Proof. rewrite (string_cmp_opp s t). lia. Qed.

(** Sorting strings forgets the order they came in. *)
Lemma js_sort_strings l k : l ≡ₚ k -> js_sort string_cmp l = js_sort string_cmp k.
Proof.
  intros Hp. assert (AntiSymm (=) (fun s t => (string_cmp s t <= 0)%Z)) as Hanti.
  { intros s t H1 H2. apply string_cmp_eq. rewrite (string_cmp_opp s t) in H2. lia. }
  apply (StronglySorted_unique (fun s t => (string_cmp s t <= 0)%Z)).
  - apply js_sort_sorted; [apply string_cmp_total|apply string_cmp_trans].
  - apply js_sort_sorted; [apply string_cmp_total|apply string_cmp_trans].
  - by rewrite !js_sort_perm.
Qed.

Lemma size_list_to_set_le `{Countable A} (l : list A) : size (list_to_set l : gset A) <= length l.
Proof.
  induction l as [|x l IH]; cbn [list_to_set length]; [by rewrite size_empty|].
  rewrite size_union_alt, size_singleton.
  assert (size ((list_to_set l : gset A) ∖ {[x]}) <= size (list_to_set l : gset A)); [|lia].
  apply subseteq_size. set_solver.
Qed.

(** Comparison of code units is a collation. *)
Definition bytes_collation : Collation := string_cmp.

Lemma bytes_collation_laws : CollationLaws bytes_collation.
Proof.
  split; unfold localeCompare, bytes_collation.
  - intros s. pose proof (string_cmp_opp s s). lia.
  - intros s t. rewrite string_cmp_opp. lia.
  - intros s t u. apply string_cmp_trans.
Qed.
