(* ===== verification/Term.v ===== *)
(** * Predicates as terms

    [libs/aven-actors/src/term.ts]: [parseTerm], [isVariable], [resolve],
    [unify] and [unifiable], and their theory: resolution ends, unification
    returns a most general unifier, and unifiability does not depend on which
    predicate comes first.

    A [Bindings] object is a [gmap]: its key order is never observed.  Names
    that [Object.prototype] defines (["__proto__"] and the like) are taken not
    to be used as variables. *)

From S2P Require Import Prelude.

Open Scope stdpp_scope.

(** ** Data *)

Record Term := { functor : string; args : list string }.

Abbreviation Bindings := (gmap string string).

#[export] Instance Term_eq_dec : EqDecision Term.
Proof. solve_decision. Defined.

(** ** Operations *)

Definition parseTerm (predicate : string) : Term :=
  let trimmed := trim predicate in
  match index_of "("%char trimmed with
  | None => {| functor := trimmed; args := [] |}
  | Some open =>
      let functor := trim (js_slice trimmed 0 (Z.of_nat open)) in
      let inner := trim (js_slice trimmed (Z.of_nat open + 1)
                                  (js_index (last_index_of ")"%char trimmed))) in
      let args := if bool_decide (inner = "") then [] else trim <$> split_on ","%char inner in
      {| functor := functor; args := args |}
  end.

(** [/^[A-Z_]/]. *)
Definition isVariable (arg : string) : bool :=
  match arg with
  | EmptyString => false
  | String c _ =>
      let n := nat_of_ascii c in (Nat.leb 65 n && Nat.leb n 90) || Nat.eqb n 95
  end.

(** The [while] loop of [resolve]; every turn adds a bound variable to [seen]. *)
Fixpoint resolve_loop (fuel : nat) (bindings : Bindings) (seen : gset string)
    (current : string) : string :=
  match fuel with
  | 0 => current
  | S fuel =>
      if isVariable current then
        match bindings !! current with
        | Some next =>
            if decide (current ∈ seen) then current
            else resolve_loop fuel bindings ({[current]} ∪ seen) next
        | None => current
        end
      else current
  end.

Definition resolve (value : string) (bindings : Bindings) : string :=
  resolve_loop (S (size bindings)) bindings ∅ value.

(** The loop of [unify] over the two argument lists. *)
Fixpoint unify_args (la ra : list string) (next : Bindings) : option Bindings :=
  match la, ra with
  | leftArgument :: la, rightArgument :: ra =>
      if bool_decide (leftArgument = "_") || bool_decide (rightArgument = "_")
      then unify_args la ra next
      else
        let left := resolve leftArgument next in
        let right := resolve rightArgument next in
        if bool_decide (left = right) then unify_args la ra next
        else if isVariable left then unify_args la ra (<[left := right]> next)
        else if isVariable right then unify_args la ra (<[right := left]> next)
        else None
  | _, _ => Some next
  end.

Definition unify (a b : string) (bindings : Bindings) : option Bindings :=
  let ta := parseTerm a in
  let tb := parseTerm b in
  if negb (bool_decide (functor ta = functor tb))
     || negb (bool_decide (length (args ta) = length (args tb)))
  then None
  else unify_args (args ta) (args tb) bindings.

Definition unifiable (a b : string) : bool := bool_decide (is_Some (unify a b ∅)).

Example parse_ex : parseTerm " intent( M , hoch ) " = {| functor := "intent"; args := ["M"; "hoch"] |}.
Proof. reflexivity. Qed.
Example parse_nested_ex :
  parseTerm "guard(clear_done, status(done))" =
  {| functor := "guard"; args := ["clear_done"; "status(done)"] |}.
Proof. reflexivity. Qed.
Example parse_open_ex : parseTerm "work(M" = {| functor := "work"; args := [] |}.
Proof. reflexivity. Qed.
Example unify_ex1 : unifiable "intent(X, hoch)" "intent(M, niedrig)" = false.
Proof. reflexivity. Qed.
Example unify_ex2 : unify "p(X, Y, X)" "p(Y, a, _)" ∅ = Some {[ "X" := "Y"; "Y" := "a" ]}.
Proof. vm_compute. reflexivity. Qed.

(** ** Resolution *)

(** [steps σ n v t]: following bindings from [v] ends at [t] after [n] of them. *)
Inductive steps (σ : Bindings) : nat -> string -> string -> Prop :=
| steps_const v : isVariable v = false -> steps σ 0 v v
| steps_free v : σ !! v = None -> steps σ 0 v v
| steps_bound n v w t :
    isVariable v = true -> σ !! v = Some w -> steps σ n w t -> steps σ (S n) v t.

(** No chain of bindings loops. *)
Definition acyclic (σ : Bindings) : Prop := forall v, exists n t, steps σ n v t.

Lemma steps_det σ n v t : steps σ n v t -> forall m u, steps σ m v u -> m = n /\ u = t.
Proof.
  induction 1 as [v Hc|v Hf|n v w t Hv Hb H IH]; intros m u Hm; inversion Hm; subst;
    try congruence; eauto.
  replace w0 with w in * by congruence.
  match goal with Hs : steps σ ?k w u |- _ => destruct (IH _ _ Hs) as [-> ->] end. done.
Qed.

Lemma steps_stop σ n v t : steps σ n v t -> isVariable t = true -> σ !! t = None.
Proof. induction 1; intros; [congruence|done|auto]. Qed.

Lemma resolve_loop_steps σ n v t fuel seen :
  steps σ n v t ->
  (forall x, x ∈ seen -> exists m, n < m /\ steps σ m x t) ->
  seen ⊆ dom σ -> size σ < fuel + size seen ->
  resolve_loop fuel σ seen v = t.
Proof.
  intros H. revert fuel seen. induction H as [v Hc|v Hf|n v w t Hv Hb H IH];
    intros fuel seen Hseen Hdom Hfuel.
  all: destruct fuel as [|fuel];
    [apply subseteq_size in Hdom; rewrite size_dom in Hdom; cbn in Hfuel; lia|]; cbn.
  - by rewrite Hc.
  - rewrite Hf. by destruct (isVariable v).
  - rewrite Hv, Hb. destruct (decide (v ∈ seen)) as [Hin|Hin].
    { destruct (Hseen v Hin) as (m & Hm & Hs).
      destruct (steps_det _ _ _ _ Hs (S n) t) as [? _]; [by econstructor|lia]. }
    apply IH.
    + intros x [->%elem_of_singleton|Hx]%elem_of_union.
      * exists (S n). split; [lia|]. by econstructor.
      * destruct (Hseen x Hx) as (m & ? & ?). exists m. split; [lia|done].
    + apply union_subseteq. split; [|done]. apply singleton_subseteq_l. by apply elem_of_dom.
    + rewrite size_union by set_solver. rewrite size_singleton. lia.
Qed.

(** The loop's fuel is enough: [resolve] reaches the end of the chain. *)
Lemma resolve_steps σ n v t : steps σ n v t -> resolve v σ = t.
Proof.
  intros H. unfold resolve. eapply resolve_loop_steps; [exact H|set_solver|set_solver|lia].
Qed.

Lemma resolve_const σ v : isVariable v = false -> resolve v σ = v.
Proof. intros. eapply resolve_steps. by constructor. Qed.

Lemma resolve_free σ v : σ !! v = None -> resolve v σ = v.
Proof. intros. eapply resolve_steps. by apply steps_free. Qed.

Lemma resolve_bound σ v w :
  acyclic σ -> isVariable v = true -> σ !! v = Some w -> resolve v σ = resolve w σ.
Proof.
  intros Hac Hv Hb. destruct (Hac w) as (n & t & Hs).
  rewrite (resolve_steps _ _ _ _ Hs). eapply resolve_steps. by econstructor.
Qed.

Lemma resolve_end σ v : acyclic σ ->
  isVariable (resolve v σ) = true -> σ !! resolve v σ = None.
Proof.
  intros Hac. destruct (Hac v) as (n & t & Hs). rewrite (resolve_steps _ _ _ _ Hs).
  by eapply steps_stop.
Qed.

Lemma acyclic_empty : acyclic ∅.
Proof. intros v. exists 0, v. by apply steps_free. Qed.

(** Binding the free end of a chain to another end makes no loop. *)
Lemma acyclic_insert σ x y :
  acyclic σ -> σ !! x = None -> x <> y -> (isVariable y = true -> σ !! y = None) ->
  acyclic (<[x := y]> σ).
Proof.
  intros Hac Hx Hne Hy.
  assert (exists n t, steps (<[x:=y]> σ) n y t) as (ny & ty & Hsy).
  { exists 0, y. destruct (isVariable y) eqn:E; [|by constructor].
    apply steps_free. rewrite lookup_insert_ne by done. auto. }
  intros v. destruct (Hac v) as (n & t & Hs). clear Hac.
  induction Hs as [v Hc|v Hf|n v w t Hv Hb Hs IH].
  - exists 0, v. by constructor.
  - destruct (decide (v = x)) as [->|Hvx].
    + destruct (isVariable x) eqn:E; [|exists 0, x; by constructor].
      exists (S ny), ty. econstructor; [done|apply lookup_insert_eq|done].
    + exists 0, v. apply steps_free. by rewrite lookup_insert_ne.
  - destruct IH as (m & u & IH). exists (S m), u.
    econstructor; [done| |exact IH]. rewrite lookup_insert_ne; [done|congruence].
Qed.

(** ** Unification

    A valuation gives every variable a value and every constant itself; it
    satisfies the bindings it identifies, and it unifies two argument lists
    when it makes them equal outside the anonymous positions. *)

Definition valuation (θ : string -> string) : Prop :=
  forall c, isVariable c = false -> θ c = c.

Definition satisfies (θ : string -> string) (σ : Bindings) : Prop :=
  forall v w, isVariable v = true -> σ !! v = Some w -> θ v = θ w.

Definition agree1 (θ : string -> string) (l r : string) : Prop :=
  l = "_" \/ r = "_" \/ θ l = θ r.

Definition agree (θ : string -> string) (la ra : list string) : Prop :=
  Forall2 (agree1 θ) la ra.

Lemma satisfies_empty θ : satisfies θ ∅.
Proof. intros v w _ H. by rewrite lookup_empty in H. Qed.

Lemma satisfies_steps θ σ n v t : satisfies θ σ -> steps σ n v t -> θ t = θ v.
Proof. intros Hθ. induction 1; [done..|]. rewrite IHsteps. symmetry. by apply Hθ. Qed.

Lemma satisfies_resolve θ σ v : acyclic σ -> satisfies θ σ -> θ (resolve v σ) = θ v.
Proof.
  intros Hac Hθ. destruct (Hac v) as (n & t & Hs).
  rewrite (resolve_steps _ _ _ _ Hs). by eapply satisfies_steps.
Qed.

Lemma satisfies_insert θ σ x y :
  isVariable x = true -> σ !! x = None ->
  satisfies θ (<[x := y]> σ) <-> satisfies θ σ /\ θ x = θ y.
Proof.
  intros Hx Hf. split.
  - intros H. split.
    + intros v w Hv Hb. apply H; [done|]. rewrite lookup_insert_ne; [done|congruence].
    + apply H; [done|]. apply lookup_insert_eq.
  - intros [H Hxy] v w Hv. rewrite lookup_insert. case_decide; [intros [= ->]; by subst|auto].
Qed.

(** The bindings of an acyclic store, read as a valuation. *)
Lemma resolve_valuation σ : valuation (fun v => resolve v σ).
Proof. intros c Hc. by apply resolve_const. Qed.

Lemma resolve_satisfies σ : acyclic σ -> satisfies (fun v => resolve v σ) σ.
Proof. intros Hac v w Hv Hb. by apply resolve_bound. Qed.

(** What one position of [unify] does. *)
Lemma unify_args_cons l r la ra σ :
  unify_args (l :: la) (r :: ra) σ =
    if decide (l = "_" \/ r = "_" \/ resolve l σ = resolve r σ) then unify_args la ra σ
    else if isVariable (resolve l σ) then unify_args la ra (<[resolve l σ := resolve r σ]> σ)
    else if isVariable (resolve r σ) then unify_args la ra (<[resolve r σ := resolve l σ]> σ)
    else None.
Proof.
  cbn [unify_args]. destruct (decide (l = "_")) as [Hl|Hl].
  { rewrite (bool_decide_true (l = "_")), decide_True by tauto. done. }
  destruct (decide (r = "_")) as [Hr|Hr].
  { rewrite (bool_decide_true (r = "_")), orb_true_r, decide_True by tauto. done. }
  rewrite (bool_decide_false (l = "_")), (bool_decide_false (r = "_")) by done. cbn.
  destruct (decide (resolve l σ = resolve r σ)) as [He|He].
  - rewrite bool_decide_true, decide_True by tauto. done.
  - rewrite bool_decide_false, decide_False by tauto. done.
Qed.

(** The result is the most general unifier: the valuations that satisfy it are
    the ones that satisfied the given bindings and unify the arguments. *)
Lemma unify_args_mgu la ra σ τ :
  acyclic σ -> length la = length ra -> unify_args la ra σ = Some τ ->
  acyclic τ /\ σ ⊆ τ /\
  (forall θ, valuation θ -> satisfies θ τ <-> satisfies θ σ /\ agree θ la ra).
Proof.
  revert ra σ. induction la as [|l la IH]; intros [|r ra] σ Hac Hlen; try discriminate Hlen.
  { intros [= <-]. split; [done|]. split; [done|]. intros θ _.
    split; [intros H; split; [done|constructor]|intros [H _]; done]. }
  injection Hlen as Hlen. rewrite unify_args_cons.
  assert (Hagree : forall θ, agree θ (l :: la) (r :: ra) <-> agree1 θ l r /\ agree θ la ra)
    by (intros; apply Forall2_cons).
  destruct (decide _) as [Hd|Hd].
  { intros Hu. destruct (IH _ _ Hac Hlen Hu) as (Hac' & Hsub & Hθ).
    split; [done|]. split; [done|]. intros θ Hv. rewrite (Hθ θ Hv), Hagree.
    split; [|tauto]. intros [Hs Ha]. split; [done|]. split; [|done]. unfold agree1.
    destruct Hd as [?|[?|He]]; [tauto..|]. right. right.
    rewrite <- (satisfies_resolve θ σ l), <- (satisfies_resolve θ σ r) by done. by f_equal. }
  assert (Hbind : forall x y, isVariable x = true -> σ !! x = None ->
    (isVariable y = true -> σ !! y = None) -> x <> y ->
    (forall θ, satisfies θ σ -> agree1 θ l r <-> θ x = θ y) ->
    unify_args la ra (<[x:=y]> σ) = Some τ ->
    acyclic τ /\ σ ⊆ τ /\
    (forall θ, valuation θ -> satisfies θ τ <-> satisfies θ σ /\ agree θ (l :: la) (r :: ra))).
  { intros x y Hx Hf Hy Hne Hxy Hu.
    destruct (IH ra _ (acyclic_insert _ _ _ Hac Hf Hne Hy) Hlen Hu) as (Hac' & Hsub & Hθ).
    split; [done|]. split; [etrans; [|exact Hsub]; by apply insert_subseteq|].
    intros θ Hv. rewrite (Hθ θ Hv), Hagree, satisfies_insert by done.
    specialize (Hxy θ). tauto. }
  assert (Hlr : forall θ, satisfies θ σ -> agree1 θ l r <-> θ (resolve l σ) = θ (resolve r σ)).
  { intros θ Hs. rewrite !satisfies_resolve by done. unfold agree1. tauto. }
  destruct (isVariable (resolve l σ)) eqn:El.
  { apply Hbind; auto using resolve_end. }
  destruct (isVariable (resolve r σ)) eqn:Er; [|discriminate].
  apply Hbind; auto using resolve_end; try congruence.
  intros θ Hs. rewrite (Hlr θ Hs). done.
Qed.

(** When it fails there is no unifier at all. *)
Lemma unify_args_complete la ra σ θ :
  acyclic σ -> length la = length ra -> valuation θ -> satisfies θ σ -> agree θ la ra ->
  is_Some (unify_args la ra σ).
Proof.
  revert ra σ. induction la as [|l la IH]; intros [|r ra] σ Hac Hlen Hv Hs Ha;
    try discriminate Hlen; [done|].
  injection Hlen as Hlen. apply Forall2_cons in Ha as [Ha1 Ha]. rewrite unify_args_cons.
  destruct (decide _) as [Hd|Hd]; [by apply IH|].
  assert (θ (resolve l σ) = θ (resolve r σ)) as He.
  { rewrite !satisfies_resolve by done. unfold agree1 in Ha1. tauto. }
  destruct (isVariable (resolve l σ)) eqn:El.
  { apply IH; [|done..|apply satisfies_insert; auto using resolve_end|done].
    apply acyclic_insert; auto using resolve_end. }
  destruct (isVariable (resolve r σ)) eqn:Er.
  { apply IH; [|done..|apply satisfies_insert; auto using resolve_end|done].
    apply acyclic_insert; auto using resolve_end; congruence. }
  destruct Hd. right. right. by rewrite (Hv _ El), (Hv _ Er) in He.
Qed.

(** ** Predicates *)

Definition same_shape (a b : string) : Prop :=
  functor (parseTerm a) = functor (parseTerm b) /\
  length (args (parseTerm a)) = length (args (parseTerm b)).

Definition unifier (θ : string -> string) (a b : string) : Prop :=
  same_shape a b /\ agree θ (args (parseTerm a)) (args (parseTerm b)).

#[export] Instance same_shape_dec a b : Decision (same_shape a b).
Proof. unfold same_shape. apply _. Defined.

Lemma unify_unfold a b σ :
  unify a b σ = if decide (same_shape a b)
                then unify_args (args (parseTerm a)) (args (parseTerm b)) σ else None.
Proof.
  unfold unify, same_shape.
  destruct (decide (functor (parseTerm a) = functor (parseTerm b))) as [Hf|Hf].
  - rewrite (bool_decide_true (functor _ = _)) by done. cbn.
    destruct (decide (length (args (parseTerm a)) = length (args (parseTerm b)))) as [Hl|Hl].
    + rewrite bool_decide_true, decide_True by done. done.
    + rewrite bool_decide_false, decide_False by tauto. done.
  - rewrite (bool_decide_false (functor _ = _)), decide_False by tauto. done.
Qed.

Lemma unify_mgu a b σ τ :
  acyclic σ -> unify a b σ = Some τ ->
  acyclic τ /\ σ ⊆ τ /\
  (forall θ, valuation θ -> satisfies θ τ <-> satisfies θ σ /\ unifier θ a b).
Proof.
  intros Hac. rewrite unify_unfold. case_decide as Hsh; [|discriminate]. intros Hu.
  destruct (unify_args_mgu _ _ _ _ Hac (proj2 Hsh) Hu) as (? & ? & Hθ).
  split; [done|]. split; [done|]. intros θ Hv. rewrite (Hθ θ Hv). unfold unifier. tauto.
Qed.

Lemma unify_complete a b σ θ :
  acyclic σ -> valuation θ -> satisfies θ σ -> unifier θ a b -> is_Some (unify a b σ).
Proof.
  intros Hac Hv Hs [Hsh Ha]. rewrite unify_unfold, decide_True by done.
  apply unify_args_complete with θ; [done|apply Hsh|done..].
Qed.

Lemma unify_acyclic a b σ τ : acyclic σ -> unify a b σ = Some τ -> acyclic τ.
Proof. intros Hac Hu. by apply (unify_mgu _ _ _ _ Hac Hu). Qed.

Lemma unify_subseteq a b σ τ : acyclic σ -> unify a b σ = Some τ -> σ ⊆ τ.
Proof. intros Hac Hu. by apply (unify_mgu _ _ _ _ Hac Hu). Qed.

(** The returned bindings unify the two predicates, and keep unifying whatever
    the given bindings already did. *)
Lemma unify_unifies a b σ τ :
  acyclic σ -> unify a b σ = Some τ -> unifier (fun v => resolve v τ) a b.
Proof.
  intros Hac Hu. destruct (unify_mgu _ _ _ _ Hac Hu) as (Hac' & _ & Hθ).
  apply Hθ; [apply resolve_valuation|by apply resolve_satisfies].
Qed.

Lemma unifiable_spec a b : unifiable a b = true <-> exists θ, valuation θ /\ unifier θ a b.
Proof.
  unfold unifiable. rewrite bool_decide_eq_true. split.
  - intros [τ Hu]. exists (fun v => resolve v τ). split; [apply resolve_valuation|].
    by eapply unify_unifies; [apply acyclic_empty|].
  - intros (θ & Hv & Hu).
    by eapply unify_complete; [apply acyclic_empty|exact Hv|apply satisfies_empty|].
Qed.

Lemma unifier_sym θ a b : unifier θ a b -> unifier θ b a.
Proof.
  intros [[Hf Hl] Ha]. split; [done|]. apply Forall2_flip.
  eapply Forall2_impl; [exact Ha|]. intros l r [?|[?|?]]; unfold agree1; cbn; auto.
Qed.

#[export] Hint Resolve acyclic_empty resolve_valuation resolve_satisfies unify_acyclic : js.

(** ** Properties *)

(** [unify] computes a most general unifier.  When it returns bindings they
    extend the given ones, contain no cycle, and are satisfied by exactly the
    valuations that satisfied the given ones and make the two predicates equal
    (anonymous arguments apart); when it returns [null] no valuation does. *)
Theorem unify_most_general (a b : string) (σ : Bindings) :
  acyclic σ ->
  match unify a b σ with
  | Some τ =>
      acyclic τ /\ σ ⊆ τ /\
      forall θ, valuation θ -> satisfies θ τ <-> satisfies θ σ /\ unifier θ a b
  | None => forall θ, valuation θ -> satisfies θ σ -> ~ unifier θ a b
  end.
Proof.
  intros Hac. destruct (unify a b σ) as [τ|] eqn:E; [by apply unify_mgu|].
  intros θ Hv Hs Hu. destruct (unify_complete a b σ θ Hac Hv Hs Hu) as [τ Hτ]. congruence.
Qed.

(** whether two predicates are unifiable does not depend on their order, so
    the prover, the router and the derived graph agree on every edge. *)
Theorem unifiable_symmetric (a b : string) : unifiable a b = unifiable b a.
Proof.
  apply eq_true_iff_eq. rewrite !unifiable_spec.
  split; intros (θ & ? & ?); exists θ; auto using unifier_sym.
Qed.

(** ** Witnesses *)

Lemma unify_most_general_witness :
  acyclic ∅ /\
  exists τ, unify "intent(X, hoch)" "intent(m, Y)" ∅ = Some τ /\ acyclic τ.
Proof.
  split; [apply acyclic_empty|].
  destruct (unify "intent(X, hoch)" "intent(m, Y)" ∅) as [τ|] eqn:E.
  - exists τ. split; [done|].
    pose proof (unify_most_general "intent(X, hoch)" "intent(m, Y)" ∅ acyclic_empty) as H.
    rewrite E in H. apply H.
  - vm_compute in E. discriminate E.
Defined.
