(* ===== verification/Ids.v ===== *)
(** * Resource identities

    [libs/aven-actors/src/ids.ts]: the canonical form
    [authority:kind:namespace:name@version] of a catalog identity, its printer
    [resourceId] and its parser [parseResourceId], with the round trip between
    them. *)

From S2P Require Import Prelude.

Open Scope stdpp_scope.

(** ** Data *)

Inductive ActorResourceKind :=
| KActor | KCapability | KFactory | KOffer | KSchema | KSkill
| KPolicy | KProtocol | KAssurance | KAction | KEntitlement.

Definition kind_text (k : ActorResourceKind) : string :=
  match k with
  | KActor => "actor" | KCapability => "capability" | KFactory => "factory"
  | KOffer => "offer" | KSchema => "schema" | KSkill => "skill" | KPolicy => "policy"
  | KProtocol => "protocol" | KAssurance => "assurance" | KAction => "action"
  | KEntitlement => "entitlement"
  end.

(** [AvenAuthority]: the three authorities the repository owns. *)
Definition AVEN_ID_AUTHORITY : string := "id.aven".
Definition AVEN_RUNTIME_AUTHORITY : string := "os.aven".
Definition AVEN_CEO_AUTHORITY : string := "ceo.aven".

(** The kind is a string at run time: [parseResourceId] casts what it read. *)
Record ResourceName := {
  rn_authority : string;
  rn_kind : string;
  rn_namespace : string;
  rn_name : string;
  rn_version : string
}.

#[export] Instance ResourceName_eq_dec : EqDecision ResourceName.
Proof. solve_decision. Defined.

(** ** The regular expressions *)

Definition in_range (lo hi : nat) (c : ascii) : bool :=
  Nat.leb lo (nat_of_ascii c) && Nat.leb (nat_of_ascii c) hi.
Definition is_digit : ascii -> bool := in_range 48 57.
Definition is_upper : ascii -> bool := in_range 65 90.
Definition is_lower : ascii -> bool := in_range 97 122.
Definition one_of (chars : string) (c : ascii) : bool := includes_char c chars.

(** [^first rest*$] *)
Definition first_then (first rest : ascii -> bool) (s : string) : bool :=
  match s with
  | EmptyString => false
  | String c s => first c && string_forall rest s
  end.

Definition lower_alnum (c : ascii) : bool := is_lower c || is_digit c.
Definition alnum (c : ascii) : bool := is_upper c || lower_alnum c.

(** [SEGMENT] is [/^[a-z0-9][a-z0-9._-]*$/]. *)
Definition SEGMENT : string -> bool :=
  first_then lower_alnum (fun c => lower_alnum c || one_of "._-" c).
(** [VERSION] is [/^[a-zA-Z0-9][a-zA-Z0-9._+-]*$/]. *)
Definition VERSION : string -> bool :=
  first_then alnum (fun c => alnum c || one_of "._+-" c).

(** ** Operations *)

Definition resourceId (name : ResourceName) : result string :=
  _ ← throw_if (negb (SEGMENT (rn_authority name)))
        ("invalid resource authority: " +:+ rn_authority name);
  _ ← throw_if (negb (SEGMENT (rn_namespace name)))
        ("invalid resource namespace: " +:+ rn_namespace name);
  _ ← throw_if (negb (SEGMENT (rn_name name)))
        ("invalid resource name: " +:+ rn_name name);
  _ ← throw_if (negb (VERSION (rn_version name)))
        ("invalid resource version: " +:+ rn_version name);
  Ok (rn_authority name +:+ ":" +:+ rn_kind name +:+ ":" +:+ rn_namespace name +:+ ":" +:+
      rn_name name +:+ "@" +:+ rn_version name).

(** A group [([^c]+)c]: what precedes the first [c], when not empty. *)
Fixpoint take_until (c : ascii) (s : string) : option (string * string) :=
  match s with
  | EmptyString => None
  | String d rest =>
      if Ascii.eqb c d then Some (EmptyString, rest)
      else '(h, t) ← take_until c rest; Some (String d h, t)
  end.
Definition group_until (c : ascii) (s : string) : option (string * string) :=
  '(h, t) ← take_until c s; if bool_decide (h = "") then None else Some (h, t).

(** [.] of a regular expression: not a line terminator. *)
Definition not_newline (c : ascii) : bool := negb (one_of (String "010" (String "013" "")) c).

(** [/^([^:]+):([^:]+):([^:]+):([^@]+)@(.+)$/].  The fourth group may hold
    colons, and no group can be split in two ways. *)
Definition match_resource (id : string) : option ResourceName :=
  '(authority, id) ← group_until ":" id;
  '(kind, id) ← group_until ":" id;
  '(namespace, id) ← group_until ":" id;
  '(name, version) ← group_until "@" id;
  if bool_decide (version = "") || negb (string_forall not_newline version) then None
  else Some {| rn_authority := authority; rn_kind := kind; rn_namespace := namespace;
               rn_name := name; rn_version := version |}.

Definition parseResourceId (id : string) : result ResourceName :=
  match match_resource id with
  | Some name => Ok name
  | None => Throw ("invalid resource id: " +:+ id)
  end.

Example resource_ex :
  resourceId {| rn_authority := "os.aven"; rn_kind := "actor"; rn_namespace := "docs";
                rn_name := "ocr"; rn_version := "2" |} = Ok "os.aven:actor:docs:ocr@2".
Proof. reflexivity. Qed.

(** ** Round trip *)

Lemma string_app_cons c s t : String c s +:+ t = String c (s +:+ t).
Proof. reflexivity. Qed.

Lemma take_until_app c s t :
  string_forall (fun d => negb (Ascii.eqb c d)) s = true ->
  take_until c (s +:+ String c t) = Some (s, t).
Proof.
  induction s as [|d s IH]; cbn; [by rewrite Ascii.eqb_refl|].
  intros [Hd Hs]%andb_prop. apply negb_true_iff in Hd. rewrite Hd, IH by done. done.
Qed.

Lemma group_until_app c s t :
  s <> "" -> string_forall (fun d => negb (Ascii.eqb c d)) s = true ->
  group_until c (s +:+ String c t) = Some (s, t).
Proof. intros Hne Hs. unfold group_until. rewrite take_until_app by done. cbn. by case_bool_decide. Qed.

Lemma first_then_forall f r (P : ascii -> bool) s :
  (forall c, f c = true -> P c = true) -> (forall c, r c = true -> P c = true) ->
  first_then f r s = true -> s <> "" /\ string_forall P s = true.
Proof.
  intros Hf Hr. destruct s as [|c s]; cbn; [discriminate|]. intros [Hc Hs]%andb_prop.
  split; [discriminate|]. rewrite (Hf _ Hc). cbn. by apply string_forall_impl with r.
Qed.

Ltac all_ascii := let c := fresh in intros c; destruct c as [[] [] [] [] [] [] [] []];
  vm_compute; first [done | discriminate].

Lemma SEGMENT_free (sep : ascii) s : sep = ":"%char \/ sep = "@"%char -> SEGMENT s = true ->
  s <> "" /\ string_forall (fun d => negb (Ascii.eqb sep d)) s = true.
Proof. intros [-> | ->]; apply first_then_forall; all_ascii. Qed.

Lemma VERSION_line s : VERSION s = true -> s <> "" /\ string_forall not_newline s = true.
Proof. apply first_then_forall; all_ascii. Qed.

Lemma kind_text_free k :
  kind_text k <> "" /\ string_forall (fun d => negb (Ascii.eqb ":" d)) (kind_text k) = true.
Proof. by destruct k. Qed.

Lemma resourceId_parse n k id :
  rn_kind n = kind_text k -> resourceId n = Ok id -> parseResourceId id = Ok n.
Proof.
  intros Hk. unfold resourceId. intros H. inv_result. bools.
  destruct (SEGMENT_free ":" (rn_authority n)) as [? ?]; [tauto|done|].
  destruct (SEGMENT_free ":" (rn_namespace n)) as [? ?]; [tauto|done|].
  destruct (SEGMENT_free "@" (rn_name n)) as [? ?]; [tauto|done|].
  destruct (VERSION_line (rn_version n)) as [? Hv]; [done|].
  destruct (kind_text_free k) as [? ?]. rewrite <- Hk in *.
  unfold parseResourceId, match_resource.
  change ":" with (String ":" ""). change "@" with (String "@" "").
  cbn [String.append].
  do 4 (rewrite group_until_app by done; cbn [mbind option_bind]).
  rewrite Hv, bool_decide_false by done. by destruct n.
Qed.

(** ** Properties *)

(** [parseResourceId] reads back exactly the name [resourceId] printed, so
    two resources never share an identity. *)
Theorem resourceId_roundtrip (n1 n2 : ResourceName) (k1 k2 : ActorResourceKind) (id : string) :
  rn_kind n1 = kind_text k1 -> resourceId n1 = Ok id ->
  parseResourceId id = Ok n1 /\
  (rn_kind n2 = kind_text k2 -> resourceId n2 = Ok id -> n2 = n1).
Proof.
  intros Hk1 H1. pose proof (resourceId_parse _ _ _ Hk1 H1) as Hp. split; [done|].
  intros Hk2 H2. pose proof (resourceId_parse _ _ _ Hk2 H2). congruence.
Qed.

(** ** Witnesses *)

Lemma resourceId_roundtrip_witness :
  parseResourceId "os.aven:actor:docs:ocr@2" =
  Ok {| rn_authority := "os.aven"; rn_kind := "actor"; rn_namespace := "docs";
        rn_name := "ocr"; rn_version := "2" |}.
Proof.
  set (n := {| rn_authority := "os.aven"; rn_kind := "actor"; rn_namespace := "docs";
               rn_name := "ocr"; rn_version := "2" |}).
  apply (resourceId_roundtrip n n KActor KActor); [reflexivity|vm_compute; reflexivity].
Defined.
