(* ===== verification/Machine.v ===== *)
(** * State machines as facts

    [libs/aven-actors/src/machine.ts]: the reader of fact-only Prolog programs
    ([parseProgram], [contractsOf]), the query by unification and the typed
    machine [loadMachine] builds.  The program of the todo actor
    ([app/src/lib/actors/todo-machine.pl]) is loaded as the running example. *)

From S2P Require Import Prelude Ids Term.

Open Scope stdpp_scope.

(** ** Data *)

Record Transition := { tr_event : string; tr_from : string; tr_to : string }.
Record Guard := { gd_event : string; gd_cond : string }.
Record Show := { sh_view : string; sh_state : string }.
Record Move := { mv_from : string; mv_to : string }.
Record ContractSets := { ct_requires : list string; ct_produces : list string }.

#[export] Instance Transition_eq_dec : EqDecision Transition.
Proof. solve_decision. Defined.
#[export] Instance Move_eq_dec : EqDecision Move.
Proof. solve_decision. Defined.

Record Machine := {
  db : list string;
  states : list string;
  initial : list string;
  terminal : list string;
  transitions : list Transition;
  views : list string;
  shows : list Show;
  guards : list Guard;
  cycles : list Move;
  contracts : ContractSets
}.

(** ** Reading a program *)

Definition newline : ascii := "010"%char.

(** [line.replace(/%.*$/, '')]: [.] stops at a carriage return and [$] is the
    end of the line, so only a [%] with no line terminator after it starts a
    comment. *)
Fixpoint strip_comment (line : string) : string :=
  match line with
  | EmptyString => EmptyString
  | String c rest =>
      if Ascii.eqb c "%" && string_forall not_newline rest then EmptyString
      else String c (strip_comment rest)
  end.

(** [clause.replace(/\s+/g, ' ')]. *)
Fixpoint collapse_spaces (in_run : bool) (s : string) : string :=
  match s with
  | EmptyString => EmptyString
  | String c rest =>
      if is_space c
      then if in_run then collapse_spaces true rest else String " " (collapse_spaces true rest)
      else String c (collapse_spaces false rest)
  end.

Definition parseProgram (source : string) : list string :=
  base.filter (fun clause => clause <> "")
    ((fun clause => trim (collapse_spaces false clause)) <$>
       split_on "." (join (String newline "") (strip_comment <$> split_on newline source))).

(** [clause.match(new RegExp(`^${name}\\((.+)\\)$`))?.[1]]: [.+] takes the whole
    inside, up to the closing parenthesis that ends the clause. *)
Definition contract_inside (name clause : string) : option string :=
  if starts_with clause (name +:+ "(") then
    let rest := js_slice_from clause (Z.of_nat (String.length name) + 1) in
    match last_index_of ")" rest with
    | Some close =>
        let inside := js_slice rest 0 (Z.of_nat close) in
        if bool_decide (S close = String.length rest) && negb (bool_decide (inside = ""))
           && string_forall not_newline inside
        then Some inside else None
    | None => None
    end
  else None.

Definition contractsOf (db : list string) : ContractSets :=
  let pick name := omap (fun clause => trim <$> contract_inside name clause) db in
  {| ct_requires := pick "requires"; ct_produces := pick "produces" |}.

(** ** Querying *)

(** findall: every substitution under which [goal] unifies with a clause. *)
Fixpoint query (db : list string) (goal : string) : list Bindings :=
  match db with
  | [] => []
  | clause :: db =>
      match unify goal clause ∅ with
      | Some bindings => bindings :: query db goal
      | None => query db goal
      end
  end.

Definition one (db : list string) (goal v : string) : list string :=
  resolve v <$> query db goal.

Definition loadMachine (source : string) : Machine :=
  let db := parseProgram source in
  {| db := db;
     states := one db "state(S)" "S";
     initial := one db "initial(S)" "S";
     terminal := one db "terminal(S)" "S";
     transitions :=
       (fun b => {| tr_event := resolve "E" b; tr_from := resolve "F" b; tr_to := resolve "T" b |})
         <$> query db "transition(E, F, T)";
     views := one db "view(V)" "V";
     shows := (fun b => {| sh_view := resolve "V" b; sh_state := resolve "S" b |})
                <$> query db "shows(V, S)";
     guards := (fun b => {| gd_event := resolve "E" b; gd_cond := resolve "C" b |})
                 <$> query db "guard(E, C)";
     cycles := (fun b => {| mv_from := resolve "F" b; mv_to := resolve "T" b |})
                 <$> query db "cycle(F, T)";
     contracts := contractsOf db |}.

(** ** The machine's questions *)

Definition legal (m : Machine) (event from to : string) : bool :=
  existsb (fun t => bool_decide (tr_event t = event) && bool_decide (tr_from t = from)
                    && bool_decide (tr_to t = to)) (transitions m).

Definition nextStates (m : Machine) (from : string) : list (string * string) :=
  (fun t => (tr_event t, tr_to t)) <$> base.filter (fun t => tr_from t = from) (transitions m).

Definition isState (m : Machine) (s : string) : bool := includes (states m) s.

Definition statusMoves (m : Machine) : list Move :=
  (fun t => {| mv_from := tr_from t; mv_to := tr_to t |}) <$>
    base.filter (fun t => isState m (tr_from t) && isState m (tr_to t)) (transitions m).

Definition legalStatus (m : Machine) (from to : string) : bool :=
  existsb (fun v => bool_decide (mv_from v = from) && bool_decide (mv_to v = to)) (statusMoves m).

Definition nextStatus (m : Machine) (from : string) : string :=
  match js_find (fun c => bool_decide (mv_from c = from)) (cycles m) with
  | Some c => mv_to c
  | None => from
  end.

(** ** Programs and their layout

    A program text is a sequence of lines: clauses ended by a full stop,
    comments and blank lines. *)

Inductive line := Clause (text : string) | Comment (text : string) | Blank.

Definition print_line (l : line) : string :=
  match l with
  | Clause text => text +:+ "."
  | Comment text => String "%" text
  | Blank => ""
  end.

(** A clause as [parseProgram] leaves it: trimmed, single spaces, no full stop
    and no percent sign. *)
Definition canonical (text : string) : bool :=
  bool_decide (trim (collapse_spaces false text) = text) && negb (bool_decide (text = ""))
  && free_of "." text && free_of "%" text && free_of newline text.

Definition line_ok (l : line) : bool :=
  match l with
  | Clause text => canonical text
  | Comment text => string_forall not_newline text
  | Blank => true
  end.

Definition clause_of (l : line) : option string :=
  match l with Clause text => Some text | _ => None end.

Definition clauses (s : string) : list string :=
  base.filter (fun clause => clause <> "")
    ((fun clause => trim (collapse_spaces false clause)) <$> split_on "." s).

Lemma strip_comment_free s : free_of "%" s = true -> strip_comment s = s.
Proof.
  induction s as [|c s IH]; cbn [strip_comment free_of string_forall]; [done|].
  intros [Hc Hs]%andb_prop. apply negb_true_iff in Hc.
  rewrite Ascii.eqb_sym, Hc. cbn. by rewrite (IH Hs).
Qed.

Lemma trim_collapse_space b c s : is_space c = true ->
  trim (collapse_spaces b (String c s)) = trim (collapse_spaces true s).
Proof. intros Hc. cbn. rewrite Hc. destruct b; [done|]. by apply trim_space. Qed.

Lemma trim_collapse_run s :
  trim (collapse_spaces true s) = trim (collapse_spaces false s).
Proof.
  destruct s as [|c s]; [done|]. destruct (is_space c) eqn:Hc.
  - by rewrite !trim_collapse_space.
  - cbn. by rewrite Hc.
Qed.

Lemma clauses_space c s : is_space c = true -> c <> "."%char -> clauses (String c s) = clauses s.
Proof.
  intros Hc Hne. unfold clauses. cbn [split_on].
  rewrite (proj2 (Ascii.eqb_neq _ _)) by congruence.
  destruct (split_on_cons "." s) as (h & t & ->). cbn [fmap list_fmap].
  by rewrite trim_collapse_space, trim_collapse_run.
Qed.

Lemma clauses_clause text s : canonical text = true ->
  clauses (text +:+ String "." s) = text :: clauses s.
Proof.
  unfold canonical. intros H. bools. unfold clauses. rewrite split_on_app by done.
  cbn [fmap list_fmap]. rewrite H, filter_cons, decide_True by done. done.
Qed.

Lemma strip_print l : line_ok l = true ->
  strip_comment (print_line l) = match l with Clause text => text +:+ "." | _ => "" end.
Proof.
  destruct l as [text|text|]; cbn [line_ok print_line]; [|intros H; cbn; by rewrite H|done].
  unfold canonical. intros H. bools. apply strip_comment_free.
  unfold free_of in *. rewrite string_forall_app. by rewrite andb_true_iff.
Qed.

Lemma clauses_lines ls : Forall (fun l => line_ok l = true) ls ->
  clauses (join (String newline "") (strip_comment <$> (print_line <$> ls))) = omap clause_of ls.
Proof.
  induction 1 as [|l ls Hl Hls IH]; [done|]. cbn [fmap list_fmap].
  rewrite (strip_print l Hl). destruct ls as [|l' ls].
  - cbn [fmap list_fmap join String.concat]. destruct l as [text|text|]; [|done..].
    rewrite (clauses_clause text "") by done. done.
  - rewrite join_cons by done. cbn [String.append]. destruct l as [text|text|].
    + rewrite string_app_assoc. cbn [String.append]. rewrite clauses_clause by done.
      rewrite clauses_space by done. exact (f_equal (cons text) IH).
    + cbn [String.append]. rewrite clauses_space by done. exact IH.
    + cbn [String.append]. rewrite clauses_space by done. exact IH.
Qed.

Lemma print_line_newline l : line_ok l = true -> free_of newline (print_line l) = true.
Proof.
  destruct l as [text|text|]; cbn [line_ok print_line]; [| |done].
  - unfold canonical. intros H. bools. unfold free_of in *.
    rewrite string_forall_app. by rewrite andb_true_iff.
  - intros H. unfold free_of. cbn. by apply string_forall_impl with not_newline; [all_ascii|].
Qed.

(** A program read back from its text: the clauses, in order, whatever the
    comments and blank lines between them. *)
Lemma parseProgram_lines ls : Forall (fun l => line_ok l = true) ls ->
  parseProgram (join (String newline "") (print_line <$> ls)) = omap clause_of ls.
Proof.
  intros H. unfold parseProgram. destruct ls as [|l ls]; [done|].
  rewrite split_on_join; [by apply clauses_lines|done|].
  apply Forall_fmap. eapply Forall_impl; [exact H|]. apply print_line_newline.
Qed.

(** ** Ground facts *)

Definition ground_arg (a : string) : bool := negb (isVariable a).

Lemma ground_not_anonymous a : ground_arg a = true -> a <> "_".
Proof. by intros H ->. Qed.

(** A goal whose arguments are distinct variables, against a ground fact: one
    answer, which binds every variable to the argument in its place. *)
Lemma unify_ground goal clause τ :
  forallb ground_arg (args (parseTerm clause)) = true ->
  "_" ∉ args (parseTerm goal) ->
  unify goal clause ∅ = Some τ ->
  (fun v => resolve v τ) <$> args (parseTerm goal) = args (parseTerm clause).
Proof.
  intros Hg Hgoal Hu.
  destruct (unify_unifies _ _ _ _ acyclic_empty Hu) as [_ Ha].
  set (la := args (parseTerm goal)) in *. set (ra := args (parseTerm clause)) in *.
  clearbody la ra. clear Hu. unfold agree in Ha.
  induction Ha as [|l r la ra Ha1 Ha IH]; [done|]. cbn in *.
  apply andb_prop in Hg as [Hr Hg]. apply not_elem_of_cons in Hgoal as [Hl Hgoal].
  f_equal; [|auto]. destruct Ha1 as [?|[?|E]]; [congruence| |].
  - by destruct (ground_not_anonymous r).
  - rewrite E. apply resolve_const. by apply negb_true_iff.
Qed.

Lemma ground_unifier la ra :
  NoDup la -> forallb isVariable la = true -> length la = length ra ->
  exists θ, valuation θ /\ Forall2 (fun l r => θ l = r) la ra.
Proof.
  revert ra. induction la as [|l la IH]; intros [|r ra] Hnd Hv Hlen; try discriminate Hlen.
  { exists id. split; [done|constructor]. }
  apply NoDup_cons in Hnd as [Hl Hnd]. cbn in Hv. apply andb_prop in Hv as [Hvl Hv].
  destruct (IH ra) as (θ & Hθ & Ha); [done..|by injection Hlen|].
  exists (fun v => if decide (v = l) then r else θ v). split.
  - intros c Hc. rewrite decide_False by congruence. by apply Hθ.
  - constructor; [by rewrite decide_True|]. clear -Ha Hl.
    induction Ha as [|l' r' la ra E Ha IH]; constructor.
    + apply not_elem_of_cons in Hl as [? _]. by rewrite decide_False.
    + apply IH. by apply not_elem_of_cons in Hl as [_ ?].
Qed.

Lemma unify_ground_complete goal clause :
  NoDup (args (parseTerm goal)) -> forallb isVariable (args (parseTerm goal)) = true ->
  forallb ground_arg (args (parseTerm clause)) = true ->
  same_shape goal clause -> is_Some (unify goal clause ∅).
Proof.
  intros Hnd Hv Hg Hsh.
  destruct (ground_unifier (args (parseTerm goal)) (args (parseTerm clause)))
    as (θ & Hθ & Ha); [done|done|apply Hsh|].
  eapply unify_complete; [apply acyclic_empty|exact Hθ|apply satisfies_empty|].
  split; [done|]. clear Hsh Hnd Hv. revert Ha Hg. unfold agree.
  generalize (args (parseTerm goal)) (args (parseTerm clause)).
  induction 1 as [|l r la ra E Ha IH]; cbn; [constructor|]. intros [Hr Hg]%andb_prop.
  constructor; [|auto]. right. right. rewrite E. symmetry. apply Hθ. by apply negb_true_iff.
Qed.

Lemma elem_of_query db goal b :
  b ∈ query db goal <-> exists clause, clause ∈ db /\ unify goal clause ∅ = Some b.
Proof.
  induction db as [|c db IH]; cbn.
  - split; [by intros ?%not_elem_of_nil|intros (? & ?%not_elem_of_nil & _); done].
  - destruct (unify goal c ∅) as [τ|] eqn:E; rewrite ?elem_of_cons, IH; split.
    + intros [->|(c' & ? & ?)]; [exists c|exists c']; rewrite elem_of_cons; auto.
    + intros (c' & [->|?]%elem_of_cons & ?); [left; congruence|right; eauto].
    + intros (c' & ? & ?). exists c'. rewrite elem_of_cons. auto.
    + intros (c' & [->|?]%elem_of_cons & ?); [congruence|eauto].
Qed.

(** In a program of ground facts, the query [functor(V1, ..., Vn)] answers with
    the arguments of exactly the facts of that name and arity. *)
Definition ground (db : list string) : bool :=
  forallb (fun clause => forallb ground_arg (args (parseTerm clause))) db.

Lemma query_facts db goal values :
  ground db = true -> NoDup (args (parseTerm goal)) ->
  forallb isVariable (args (parseTerm goal)) = true -> "_" ∉ args (parseTerm goal) ->
  (exists b, b ∈ query db goal /\ (fun v => resolve v b) <$> args (parseTerm goal) = values) <->
  (exists clause, clause ∈ db /\ parseTerm clause =
     {| functor := functor (parseTerm goal); args := values |} /\
     length values = length (args (parseTerm goal))).
Proof.
  intros Hdb Hnd Hv Hu. unfold ground in Hdb. rewrite forallb_elem in Hdb. split.
  - intros (b & (clause & Hc & E)%elem_of_query & <-). exists clause. split; [done|].
    rewrite (unify_ground _ _ _ (Hdb _ Hc) Hu E).
    destruct (unify_unifies _ _ _ _ acyclic_empty E) as [[Hf Hl] _]. split; [|done].
    destruct (parseTerm clause); cbn in *. by rewrite Hf.
  - intros (clause & Hc & E & Hl).
    assert (same_shape goal clause) as Hsh by (split; rewrite E; cbn; congruence).
    destruct (unify_ground_complete _ _ Hnd Hv (Hdb _ Hc) Hsh) as [b Hb].
    exists b. split; [apply elem_of_query; eauto|].
    rewrite (unify_ground _ _ _ (Hdb _ Hc) Hu Hb), E. done.
Qed.

Lemma elem_of_transitions source e f t :
  ground (parseProgram source) = true ->
  {| tr_event := e; tr_from := f; tr_to := t |} ∈ transitions (loadMachine source) <->
  exists clause, clause ∈ parseProgram source /\
    parseTerm clause = {| functor := "transition"; args := [e; f; t] |}.
Proof.
  intros Hg. cbn [transitions loadMachine]. rewrite list_elem_of_fmap.
  destruct (query_facts _ "transition(E, F, T)" [e; f; t] Hg) as [Hq1 Hq2];
    [by_compute..|]. split.
  - intros (b & E & Hb). destruct Hq1 as (clause & ? & Hc & _).
    + exists b. split; [done|]. injection E as -> -> ->. done.
    + by exists clause.
  - intros (clause & Hc & E). destruct Hq2 as (b & Hb & E').
    + by exists clause.
    + exists b. split; [|done]. vm_compute (args _) in E'. by injection E' as <- <- <-.
Qed.

Lemma elem_of_states source s :
  ground (parseProgram source) = true ->
  s ∈ states (loadMachine source) <->
  exists clause, clause ∈ parseProgram source /\
    parseTerm clause = {| functor := "state"; args := [s] |}.
Proof.
  intros Hg. cbn [states loadMachine]. unfold one. rewrite list_elem_of_fmap.
  destruct (query_facts _ "state(S)" [s] Hg) as [Hq1 Hq2]; [by_compute..|]. split.
  - intros (b & E & Hb). destruct Hq1 as (clause & ? & Hc & _).
    + exists b. split; [done|]. by rewrite E.
    + by exists clause.
  - intros (clause & Hc & E). destruct Hq2 as (b & Hb & E'); [by exists clause|].
    exists b. split; [|done]. vm_compute (args _) in E'. by injection E' as <-.
Qed.

Lemma legal_spec m e f t :
  legal m e f t = true <-> {| tr_event := e; tr_from := f; tr_to := t |} ∈ transitions m.
Proof.
  unfold legal. rewrite existsb_elem. split.
  - intros ([e' f' t'] & H & E). bools. cbn in *. by subst.
  - intros H. eexists. split; [exact H|]. cbn. by rewrite !bool_decide_true.
Qed.

Lemma legalStatus_spec m f t :
  legalStatus m f t = true <->
  f ∈ states m /\ t ∈ states m /\ exists e, legal m e f t = true.
Proof.
  unfold legalStatus, statusMoves. rewrite existsb_elem.
  setoid_rewrite legal_spec. setoid_rewrite list_elem_of_fmap.
  setoid_rewrite list_elem_of_filter. unfold isState, includes. split.
  - intros (v & ([e f' t'] & -> & Hs & Hin) & E). cbn in *.
    apply Is_true_true, andb_prop in Hs as [Hs1 Hs2]. bools. subst. eauto.
  - intros (Hf & Ht & e & H). eexists. split.
    + eexists. split; [reflexivity|]. split; [|exact H]. cbn.
      apply Is_true_true. by rewrite !bool_decide_true.
    + cbn. by rewrite !bool_decide_true.
Qed.

(** ** The todo machine *)

Definition todo_machine_source : string :=
"% todo-machine.pl — the todo lifecycle, as a formal state machine.
%
% ONE source of truth, colocated with the actor primitives. The Skills
% canvas renders these facts AND the live todo reducer gates every status
% change through them (injected into the QuickJS sandbox as data — behavior
% stays data, flow stays data). States ARE the kanban columns; transitions
% ARE the only legal moves; cycle/2 is the board button's walk order.
%
% Fact-only Prolog: parsed by machine.ts and answered by unification
% (term.ts). Keep every clause a ground fact; no list literals.

% ---- states: the three kanban columns ---------------------------------
state(open).
state(doing).
state(done).

initial(open).
terminal(done).

% 'none' is the void before a task exists; 'deleted' the void after. Both
% are pseudo-states — reachable by a transition, never shown as a column.

% ---- transitions: transition(Event, From, To) -------------------------
% The legal moves, and ONLY these. Note there is no done -> doing: a
% finished task reopens to open, it does not slip back into progress.
transition(create,     none,  open).
transition(start,      open,  doing).
transition(finish,     doing, done).
transition(complete,   open,  done).
transition(reopen,     done,  open).
transition(delete,     open,  deleted).
transition(delete,     doing, deleted).
transition(delete,     done,  deleted).
transition(clear_done, done,  deleted).

% ---- cycle: the board button's forward walk (each edge is a transition) -
cycle(open,  doing).
cycle(doing, done).
cycle(done,  open).

% ---- guards: a transition may carry a condition -----------------------
guard(clear_done, status(done)).

% ---- contracts: what flows in and out ---------------------------------
% A create intent may come from anywhere — the voice, the chat, or the
% inbox skill's router: the cross-skill recipe edge unifies right here.
requires(todo_intent(I)).
produces(todo(T)).

% ---- views over the same machine --------------------------------------
view(list).
view(board).

shows(list,  open).
shows(list,  doing).
shows(list,  done).
shows(board, open).
shows(board, doing).
shows(board, done).
".

Definition todo_machine : Machine := loadMachine todo_machine_source.

(** ** Properties *)

(** reading a program back from its text gives its clauses in order, whatever
    comments and blank lines stand between them, so the layout of a [.pl] file
    never changes the machine it declares. *)
Theorem parseProgram_layout (ls : list line) :
  Forall (fun l => line_ok l = true) ls ->
  parseProgram (join (String newline "") (print_line <$> ls)) = omap clause_of ls.
Proof. apply parseProgram_lines. Qed.

(** in a program of ground facts, [legal] allows a move exactly when the
    program declares that transition, and [legalStatus] exactly when some event
    makes the move between two declared states: unification derives nothing
    that is not declared, and loses nothing that is. *)
Theorem legal_is_declared (source e f t : string) :
  ground (parseProgram source) = true ->
  (legal (loadMachine source) e f t = true <->
     exists clause, clause ∈ parseProgram source /\
       parseTerm clause = {| functor := "transition"; args := [e; f; t] |}) /\
  (legalStatus (loadMachine source) f t = true <->
     f ∈ states (loadMachine source) /\ t ∈ states (loadMachine source) /\
     exists e', legal (loadMachine source) e' f t = true).
Proof.
  intros Hg. split; [|apply legalStatus_spec].
  rewrite legal_spec. by apply elem_of_transitions.
Qed.

(** the todo program is a program of ground facts whose only status moves are
    open to doing, doing to done, open to done and done to open; in particular
    a finished task never slips back to doing, and the board button always
    makes a legal move. *)
Theorem todo_machine_moves (f t : string) :
  ground (parseProgram todo_machine_source) = true /\
  (legalStatus todo_machine f t = true <->
     (f, t) ∈ [("open", "doing"); ("doing", "done"); ("open", "done"); ("done", "open")]) /\
  (f ∈ states todo_machine -> legalStatus todo_machine f (nextStatus todo_machine f) = true).
Proof.
  split; [by vm_compute|]. split.
  - unfold legalStatus. change (statusMoves todo_machine) with
      (ltac:(let x := eval vm_compute in (statusMoves todo_machine) in exact x)).
    rewrite existsb_elem. rewrite !elem_of_cons. setoid_rewrite elem_of_cons.
    setoid_rewrite elem_of_cons. setoid_rewrite elem_of_cons. setoid_rewrite elem_of_cons.
    setoid_rewrite elem_of_nil. split.
    + intros (v & Hv & E). bools. destruct Hv as [-> |[-> |[-> |[-> |[]]]]]; cbn in *; subst; tauto.
    + intros H. exists {| mv_from := f; mv_to := t |}. cbn.
      rewrite !bool_decide_true by done. split; [|done].
      destruct H as [[= -> ->]|[[= -> ->]|[[= -> ->]|[[= -> ->]|[]]]]]; tauto.
  - change (states todo_machine) with ["open"; "doing"; "done"].
    intros [->|[->|[->|?%elem_of_nil]%elem_of_cons]%elem_of_cons]%elem_of_cons; by vm_compute.
Qed.

(** ** Witnesses *)

Lemma parseProgram_layout_witness :
  parseProgram (join (String newline "")
    (print_line <$> [Comment " lifecycle"; Clause "state(a)"; Blank; Clause "move(a, b)"])) =
  ["state(a)"; "move(a, b)"].
Proof.
  apply (parseProgram_layout
           [Comment " lifecycle"; Clause "state(a)"; Blank; Clause "move(a, b)"]).
  repeat constructor.
Defined.

Lemma legal_is_declared_witness :
  legal (loadMachine todo_machine_source) "reopen" "done" "open" = true.
Proof.
  refine (proj2 (proj1 (legal_is_declared todo_machine_source "reopen" "done" "open" _)) _);
    [by vm_compute|].
  exists "transition(reopen, done, open)". split; [by_compute|by vm_compute].
Defined.
