(* ===== verification/Contracts.v ===== *)
(** * Actor contracts

    The data of [libs/aven-actors/src/actor.ts]: the manifest of an actor, the
    methods and slots it declares, [functor], and the interface of a composite
    actor derived from its members ([compositeInterface]). *)

From S2P Require Import Prelude Term.

Open Scope stdpp_scope.

(** ** JSON

    Payloads, schemas and configurations the core passes through.  Numbers
    inside them are integers. *)

Inductive json :=
| JNull
| JBool (b : bool)
| JNumber (n : Z)
| JString (s : string)
| JArray (items : list json)
| JObject (entries : list (string * json)).

(** Induction that reaches the items of arrays and the values of objects. *)
Definition json_nested_ind (P : json -> Prop)
    (Hnull : P JNull) (Hbool : forall b, P (JBool b)) (Hnumber : forall n, P (JNumber n))
    (Hstring : forall s, P (JString s))
    (Harray : forall items, Forall P items -> P (JArray items))
    (Hobject : forall entries, Forall (fun e => P e.2) entries -> P (JObject entries)) :
    forall j, P j :=
  fix ind j :=
    match j with
    | JNull => Hnull
    | JBool b => Hbool b
    | JNumber n => Hnumber n
    | JString s => Hstring s
    | JArray items =>
        Harray items ((fix all l : Forall P l :=
          match l with [] => List.Forall_nil P | x :: l => @List.Forall_cons _ P x l (ind x) (all l) end) items)
    | JObject entries =>
        Hobject entries ((fix all l : Forall (fun e : string * json => P e.2) l :=
          match l with
          | [] => List.Forall_nil _
          | e :: l => @List.Forall_cons _ (fun e : string * json => P e.2) e l (ind e.2) (all l)
          end) entries)
    end.

(** An object used as a record: [Record<string, unknown>]. *)
Abbreviation jobject := (list (string * json)).

(** ** Data *)

Inductive Mode := MTransform | MObserve | MEffect | MStream | MView.
Inductive Idempotency := IPure | IIdempotent | IReconcilable | INone.
Inductive Cardinality := One | Optional | Many.

#[export] Instance Mode_eq_dec : EqDecision Mode.
Proof. solve_decision. Defined.
#[export] Instance Idempotency_eq_dec : EqDecision Idempotency.
Proof. solve_decision. Defined.
#[export] Instance Cardinality_eq_dec : EqDecision Cardinality.
Proof. solve_decision. Defined.

Record CapabilitySlot := {
  sl_name : string;
  sl_predicate : string;
  sl_schema : option string;
  sl_role : option string;
  sl_cardinality : Cardinality;
  sl_sensitive : option bool
}.

Record MethodSpec := {
  ms_name : string;
  ms_description : string;
  ms_parameters : json;
  ms_mode : option Mode;
  ms_idempotency : option Idempotency;
  ms_cost : option Z;
  ms_requires : option (list string);
  ms_produces : option (list string);
  ms_inputSlots : option (list CapabilitySlot);
  ms_outputSlots : option (list CapabilitySlot);
  ms_event : option string;
  ms_hitl : option string
}.

(** The manifest of an actor; what only the views and the sandbox read (view,
    style, source, llm lane) is left out. *)
Record Manifest := {
  mf_id : string;
  mf_authority : string;
  mf_namespace : string;
  mf_version : string;
  mf_name : string;
  mf_description : string;
  mf_tags : list string;
  mf_methods : list MethodSpec;
  mf_requires : option (list string);
  mf_produces : option (list string);
  mf_machine : option string;
  mf_logic : option string
}.

(** ** Operations *)

(** [functor]: what precedes the parenthesis. *)
Definition predicate_functor (p : string) : string :=
  match index_of "("%char p with
  | None => trim p
  | Some at_ => trim (js_slice p 0 (Z.of_nat at_))
  end.

(** The contracts of a member or of a composite. *)
Record Interface := { if_requires : list string; if_produces : list string }.

(** The merge law: what the members need that no member produces, and all they
    produce. *)
Definition compositeInterface (members : list Interface) : Interface :=
  let produced := List.flat_map if_produces members in
  let required := List.flat_map if_requires members in
  {| if_requires :=
       dedup (base.filter (fun r => negb (existsb (fun p => unifiable p r) produced)) required);
     if_produces := dedup produced |}.

(** ** Properties *)

Lemma elem_of_flat_map {A B} (f : A -> list B) l y :
  y ∈ List.flat_map f l <-> exists x, x ∈ l /\ y ∈ f x.
Proof.
  rewrite list_elem_of_In, List.in_flat_map. by setoid_rewrite list_elem_of_In.
Qed.

Lemma elem_of_composite_requires members r :
  r ∈ if_requires (compositeInterface members) <->
  (exists m, m ∈ members /\ r ∈ if_requires m) /\
  forall m p, m ∈ members -> p ∈ if_produces m -> unifiable p r = false.
Proof.
  cbn. rewrite elem_of_dedup, list_elem_of_filter, Is_true_true, negb_true_iff,
    existsb_elem_false, elem_of_flat_map.
  setoid_rewrite elem_of_flat_map. naive_solver.
Qed.

Lemma elem_of_composite_produces members p :
  p ∈ if_produces (compositeInterface members) <-> exists m, m ∈ members /\ p ∈ if_produces m.
Proof. cbn. by rewrite elem_of_dedup, elem_of_flat_map. Qed.

(** the merge law composes.  Grouping some members into a composite of their
    own changes neither what the whole requires (the members' requirements that
    no member's output unifies with) nor what it produces, and neither list
    names a predicate twice. *)
Theorem compositeInterface_merge (inner outer : list Interface) :
  let whole := compositeInterface (inner ++ outer) in
  let nested := compositeInterface (compositeInterface inner :: outer) in
  (forall r, r ∈ if_requires whole <-> r ∈ if_requires nested) /\
  (forall p, p ∈ if_produces whole <-> p ∈ if_produces nested) /\
  NoDup (if_requires whole) /\ NoDup (if_produces whole).
Proof.
  cbn zeta. split; [|split; [|split; apply NoDup_dedup]].
  - intros r. rewrite !elem_of_composite_requires. setoid_rewrite elem_of_app.
    setoid_rewrite elem_of_cons. split.
    + intros [(m & Hm & Hr) Hno]. split.
      * destruct Hm as [Hm|Hm]; [|by exists m; eauto].
        exists (compositeInterface inner). split; [by left|].
        apply elem_of_composite_requires. split; [eauto|]. intros m' p ? Hp.
        apply (Hno m' p); [by left|done].
      * intros m' p [->|Hm'] Hp; [|apply (Hno m' p); [by right|done]].
        apply elem_of_composite_produces in Hp as (m' & ? & ?).
        apply (Hno m' p); [by left|done].
    + intros [(m & Hm & Hr) Hno]. split.
      * destruct Hm as [->|Hm]; [|by exists m; eauto].
        apply elem_of_composite_requires in Hr as [(m & ? & ?) _]. eauto.
      * intros m' p [Hm'|Hm'] Hp; [|apply (Hno m' p); [by right|done]].
        apply (Hno (compositeInterface inner) p); [by left|].
        apply elem_of_composite_produces. eauto.
  - intros p. rewrite !elem_of_composite_produces. setoid_rewrite elem_of_app.
    setoid_rewrite elem_of_cons. split.
    + intros (m & [Hm|Hm] & Hp); [|eauto]. eexists. split; [by left|].
      apply elem_of_composite_produces. eauto.
    + intros (m & [->|Hm] & Hp); [|eauto].
      apply elem_of_composite_produces in Hp as (m & ? & ?). eauto.
Qed.
