(* ===== verification/Json.v ===== *)
(** * JSON texts

    [JSON.stringify] and [String] of the values the core passes around, and the
    records a handler answers with.  A record is a JSON text that the program
    only ever parses again; the model keeps what [JSON.parse] reads from it, and
    [None] for a text it refuses. *)

From S2P Require Import Prelude Contracts.

Open Scope stdpp_scope.

(** ** Texts *)

(** The JSON text of a string.  Control characters have a six character escape. *)
Definition hex_digit (n : nat) : ascii :=
  ascii_of_nat (if Nat.ltb n 10 then 48 + n else 87 + n).

Definition escape (c : ascii) : string :=
  let n := nat_of_ascii c in
  if Nat.eqb n 34 then String "\" (String c "")
  else if Nat.eqb n 92 then "\\"
  else if Nat.eqb n 8 then "\b"
  else if Nat.eqb n 9 then "\t"
  else if Nat.eqb n 10 then "\n"
  else if Nat.eqb n 12 then "\f"
  else if Nat.eqb n 13 then "\r"
  else if Nat.ltb n 32
  then "\u00" +:+ String (hex_digit (Nat.div n 16)) (String (hex_digit (Nat.modulo n 16)) "")
  else String c "".

Fixpoint escaped (s : string) : string :=
  match s with EmptyString => "" | String c s => escape c +:+ escaped s end.

Definition quote : string := String (ascii_of_nat 34) "".
Definition json_string (s : string) : string := quote +:+ escaped s +:+ quote.

(** [JSON.stringify(value)]. *)
Fixpoint stringify (j : json) : string :=
  match j with
  | JNull => "null"
  | JBool b => if b then "true" else "false"
  | JNumber n => pretty n
  | JString s => json_string s
  | JArray items => "[" +:+ join "," (stringify <$> items) +:+ "]"
  | JObject entries =>
      "{" +:+ join "," ((fun e => json_string e.1 +:+ ":" +:+ stringify e.2) <$> entries) +:+ "}"
  end.

(** [String(value)]; inside an array [null] is the empty string. *)
Fixpoint js_String (j : json) : string :=
  match j with
  | JNull => "null"
  | JBool b => if b then "true" else "false"
  | JNumber n => pretty n
  | JString s => s
  | JArray items =>
      join "," ((fun item => match item with JNull => "" | _ => js_String item end) <$> items)
  | JObject _ => "[object Object]"
  end.

(** [value?.[key]] of a parsed value: [None] is [undefined]. *)
Definition json_get (key : string) (j : json) : option json :=
  match j with JObject entries => map_get key entries | _ => None end.

(** [stableJson]: the keys of objects sorted. *)
Section Stable.
Context `{Collation}.
Fixpoint stableJson (j : json) : string :=
  match j with
  | JNull => "null"
  | JBool b => if b then "true" else "false"
  | JNumber n => pretty n
  | JString s => json_string s
  | JArray items => "[" +:+ join "," (stableJson <$> items) +:+ "]"
  | JObject entries =>
      let texts := (fun e => (e.1, stableJson e.2)) <$> entries in
      "{" +:+ join "," ((fun e => json_string e.1 +:+ ":" +:+ e.2) <$>
                        js_sort (fun left right => localeCompare left.1 right.1) texts) +:+ "}"
  end.
End Stable.

(** ** Results of handlers *)

Record HandlerResult := { hr_record : option json; hr_wire : string }.

(** [JSON.stringify({ ok: false, error })]. *)
Definition failure_record (error : string) : json :=
  JObject [("ok", JBool false); ("error", JString error)].

Definition refused (message : string) : HandlerResult :=
  {| hr_record := Some (failure_record message); hr_wire := message |}.

(** [JSON.parse(record)?.ok === false]; it throws on a text that is not JSON. *)
Definition says_no (record : option json) : result bool :=
  match record with
  | None => Throw "SyntaxError"
  | Some j => Ok (match json_get "ok" j with Some (JBool false) => true | _ => false end)
  end.
