(* ===== verification/Actors.v ===== *)
(** * Actors

    The class [Actor] of [libs/aven-actors/src/actor.ts]: the handlers its
    constructor binds, the contracts it takes part in, and its mailbox.  The
    mailbox is a state machine whose steps are the parts of the code between two
    [await]s; the sandbox ([sandbox.ts] around QuickJS) and handlers written by
    hand are outside, so the model lets them answer as they like.  Values a
    handler throws convert to strings. *)

From S2P Require Import Prelude Term Machine Contracts Json.

Open Scope stdpp_scope.

(** ** Actors *)

(** [HAdapter send] is the generic adapter of a declared event, [HCustom] a
    handler passed to the constructor or bound by a subclass, and [HInherited] a
    property every object inherits. *)
Inductive Handler :=
| HAdapter (send : string)
| HCustom (name : string)
| HInherited (name : string).

#[export] Instance Handler_eq_dec : EqDecision Handler.
Proof. solve_decision. Defined.

(** The properties of [Object.prototype], which [in] and member access find on
    the handlers object. *)
Definition OBJECT_PROTOTYPE : list string :=
  ["constructor"; "__defineGetter__"; "__defineSetter__"; "hasOwnProperty"; "__lookupGetter__";
   "__lookupSetter__"; "isPrototypeOf"; "propertyIsEnumerable"; "toString"; "valueOf"; "__proto__";
   "toLocaleString"].

(** What the constructor fixes, and the members of a composite. *)
Inductive Actor := MkActor
  (uuid instanceName : string) (manifest : Manifest) (handlers : list (string * Handler))
  (own_contracts : option ContractSets) (members : list Actor).

Definition ac_uuid (a : Actor) := let 'MkActor u _ _ _ _ _ := a in u.
Definition ac_instanceName (a : Actor) := let 'MkActor _ n _ _ _ _ := a in n.
Definition ac_manifest (a : Actor) := let 'MkActor _ _ m _ _ _ := a in m.
Definition ac_handlers (a : Actor) := let 'MkActor _ _ _ h _ _ := a in h.
Definition ac_members (a : Actor) := let 'MkActor _ _ _ _ _ ms := a in ms.

Definition handler_of (handlers : list (string * Handler)) (method : string) : option Handler :=
  match map_get method handlers with
  | Some h => Some h
  | None => if includes OBJECT_PROTOTYPE method then Some (HInherited method) else None
  end.

(** [method in this.#handlers]. *)
Definition handles (a : Actor) (method : string) : bool :=
  bool_decide (is_Some (handler_of (ac_handlers a) method)).

(** ** Construction *)

(** The bindings of one declared method: under its own name, and under the
    functor of the first predicate it produces and requires, unless those names
    are taken. *)
Definition bind_alias (send : string) (handlers : list (string * Handler)) (predicate : option string) :
    list (string * Handler) :=
  match truthy predicate with
  | None => handlers
  | Some p =>
      if bool_decide (is_Some (handler_of handlers (predicate_functor p))) then handlers
      else map_set (predicate_functor p) (HAdapter send) handlers
  end.

Definition bind_method (handlers : list (string * Handler)) (method : MethodSpec) :
    list (string * Handler) :=
  match truthy (ms_event method) with
  | None => handlers
  | Some send =>
      fold_left (bind_alias send) [ms_produces method ≫= head; ms_requires method ≫= head]
        (map_set (ms_name method) (HAdapter send) handlers)
  end.

Definition machine_contracts (manifest : Manifest) : option ContractSets :=
  match truthy (mf_machine manifest) with
  | None => None
  | Some source =>
      let c := contractsOf (parseProgram source) in
      if Nat.ltb 0 (length (ct_requires c)) || Nat.ltb 0 (length (ct_produces c))
      then Some c else None
  end.

(** [new Actor(manifest, handlers)], with the identity the runtime mints. *)
Definition new_actor (uuid : string) (manifest : Manifest) (custom : list (string * Handler)) : Actor :=
  MkActor uuid (mf_id manifest) manifest
    (fold_left bind_method (mf_methods manifest) custom) (machine_contracts manifest) [].

(** ** Contracts *)

(** The getters [requires] and [produces]. *)
Fixpoint contracts_of (a : Actor) : Interface :=
  let 'MkActor _ _ manifest _ own members := a in
  match members with
  | [] =>
      {| if_requires := dedup (match own with
                               | Some c => ct_requires c
                               | None => default [] (mf_requires manifest)
                               end ++ List.flat_map (fun m => default [] (ms_requires m)) (mf_methods manifest));
         if_produces := dedup (match own with
                               | Some c => ct_produces c
                               | None => default [] (mf_produces manifest)
                               end ++ List.flat_map (fun m => default [] (ms_produces m)) (mf_methods manifest)) |}
  | _ => compositeInterface (contracts_of <$> members)
  end.

Definition ac_requires (a : Actor) : list string := if_requires (contracts_of a).
Definition ac_produces (a : Actor) : list string := if_produces (contracts_of a).

(** ** The running actor *)

Record ActorEvent := { ev_send : string; ev_payload : jobject }.

Record ReduceOutcome := { ro_state : json; ro_said : option string; ro_record : option jobject }.

(** One message of the mailbox; the ticket stands for the promise it resolves. *)
Record Message := { msg_ticket : nat; msg_method : string; msg_payload : jobject }.

(** The message in hand: the attempt, and the state its reduction was called
    with, once it was called. *)
Record Handling := { hg_message : Message; hg_attempt : nat; hg_read : option json }.

(** [#ready] and [#session]: the sandbox is starting, failed to start, is there,
    or is not (no logic, or disposed of). *)
Inductive Session := SBooting | SBroken (reason : string) | SReady | SNone.

(** [pr_delivered] records every message that was delivered and [pr_replies]
    every promise that was resolved, in order. *)
Record Process := {
  pr_mailbox : list Message;
  pr_current : option Handling;
  pr_events : list (ActorEvent * option json);
  pr_session : Session;
  pr_state : json;
  pr_failures : nat;
  pr_lastError : option string;
  pr_delivered : list Message;
  pr_replies : list (nat * HandlerResult)
}.

(** A fresh actor: nothing delivered; the sandbox starts when there is logic. *)
Definition new_process (a : Actor) : Process :=
  {| pr_mailbox := []; pr_current := None; pr_events := [];
     pr_session := match truthy (mf_logic (ac_manifest a)) with Some _ => SBooting | None => SNone end;
     pr_state := JNull; pr_failures := 0; pr_lastError := None; pr_delivered := []; pr_replies := [] |}.

Definition set_current (h : option Handling) (p : Process) : Process :=
  {| pr_mailbox := pr_mailbox p; pr_current := h; pr_events := pr_events p;
     pr_session := pr_session p; pr_state := pr_state p; pr_failures := pr_failures p;
     pr_lastError := pr_lastError p; pr_delivered := pr_delivered p; pr_replies := pr_replies p |}.
Definition set_mailbox (l : list Message) (p : Process) : Process :=
  {| pr_mailbox := l; pr_current := pr_current p; pr_events := pr_events p;
     pr_session := pr_session p; pr_state := pr_state p; pr_failures := pr_failures p;
     pr_lastError := pr_lastError p; pr_delivered := pr_delivered p; pr_replies := pr_replies p |}.
Definition set_events (l : list (ActorEvent * option json)) (p : Process) : Process :=
  {| pr_mailbox := pr_mailbox p; pr_current := pr_current p; pr_events := l;
     pr_session := pr_session p; pr_state := pr_state p; pr_failures := pr_failures p;
     pr_lastError := pr_lastError p; pr_delivered := pr_delivered p; pr_replies := pr_replies p |}.
Definition set_session (s : Session) (p : Process) : Process :=
  {| pr_mailbox := pr_mailbox p; pr_current := pr_current p; pr_events := pr_events p;
     pr_session := s; pr_state := pr_state p; pr_failures := pr_failures p;
     pr_lastError := pr_lastError p; pr_delivered := pr_delivered p; pr_replies := pr_replies p |}.
Definition set_state (s : json) (p : Process) : Process :=
  {| pr_mailbox := pr_mailbox p; pr_current := pr_current p; pr_events := pr_events p;
     pr_session := pr_session p; pr_state := s; pr_failures := pr_failures p;
     pr_lastError := pr_lastError p; pr_delivered := pr_delivered p; pr_replies := pr_replies p |}.
Definition add_failure (reason : string) (p : Process) : Process :=
  {| pr_mailbox := pr_mailbox p; pr_current := pr_current p; pr_events := pr_events p;
     pr_session := pr_session p; pr_state := pr_state p; pr_failures := S (pr_failures p);
     pr_lastError := Some reason; pr_delivered := pr_delivered p; pr_replies := pr_replies p |}.
Definition reply (ticket : nat) (r : HandlerResult) (p : Process) : Process :=
  {| pr_mailbox := pr_mailbox p; pr_current := pr_current p; pr_events := pr_events p;
     pr_session := pr_session p; pr_state := pr_state p; pr_failures := pr_failures p;
     pr_lastError := pr_lastError p; pr_delivered := pr_delivered p;
     pr_replies := pr_replies p ++ [(ticket, r)] |}.
Definition enqueue (m : Message) (p : Process) : Process :=
  {| pr_mailbox := pr_mailbox p ++ [m]; pr_current := pr_current p; pr_events := pr_events p;
     pr_session := pr_session p; pr_state := pr_state p; pr_failures := pr_failures p;
     pr_lastError := pr_lastError p; pr_delivered := pr_delivered p ++ [m];
     pr_replies := pr_replies p |}.

(** ** The mailbox *)

(** One turn of the loop of [#pump]: take the next message, or stop pumping.
    [pr_current] is also the flag [#pumping]. *)
Definition pump_next (p : Process) : Process :=
  match pr_mailbox p with
  | [] => set_current None p
  | m :: rest => set_current (Some {| hg_message := m; hg_attempt := 0; hg_read := None |}) (set_mailbox rest p)
  end.

Definition deliver (method : string) (payload : jobject) (p : Process) : nat * Process :=
  let m := {| msg_ticket := length (pr_delivered p); msg_method := method; msg_payload := payload |} in
  let p := enqueue m p in
  (msg_ticket m, match pr_current p with Some _ => p | None => pump_next p end).

Definition unknown_method (a : Actor) (method : string) : HandlerResult :=
  refused (mf_id (ac_manifest a) +:+ " does not know " +:+ method).

(** [message.resolve(...)] and back to the loop. *)
Definition resolve_current (r : HandlerResult) (p : Process) : Process :=
  match pr_current p with
  | None => p
  | Some h => pump_next (reply (msg_ticket (hg_message h)) r p)
  end.

(** The end of one attempt of [#handle]: a value, one fresh attempt after the
    first error, or the failure. *)
Definition end_attempt (outcome : result HandlerResult) (p : Process) : Process :=
  match pr_current p with
  | None => p
  | Some h =>
      match outcome with
      | Ok r => resolve_current r p
      | Throw reason =>
          if Nat.eqb (hg_attempt h) 0
          then set_current (Some {| hg_message := hg_message h; hg_attempt := 1; hg_read := None |}) p
          else
            let method := msg_method (hg_message h) in
            resolve_current (refused (method +:+ " failed: " +:+ reason))
              (add_failure (method +:+ ": " +:+ reason) p)
      end
  end.

(** The error [applyEvent] throws before it reduces anything. *)
Definition session_error (a : Actor) (s : Session) : option string :=
  match s with
  | SBroken reason => Some reason
  | SNone => Some (mf_id (ac_manifest a) +:+ " has no logic session")
  | SBooting | SReady => None
  end.

(** [#adapt]: the words and data of an outcome as a result. *)
Definition adapt (outcome : ReduceOutcome) : HandlerResult :=
  let record := default [("ok", JBool true)] (ro_record outcome) in
  {| hr_record := Some (JObject (if map_has "ok" record then record else ("ok", JBool true) :: record));
     hr_wire := default (stringify (JObject record)) (ro_said outcome) |}.

(** [await this.#session.reduce(this.state, event)] returned or threw, inside
    the adapter of the message in hand. *)
Definition end_reduction (outcome : result ReduceOutcome) (p : Process) : Process :=
  match outcome with
  | Ok o => end_attempt (Ok (adapt o)) (set_state (ro_state o) p)
  | Throw reason => end_attempt (Throw reason) p
  end.

(** ** Steps *)

(** How the sandbox may answer [reduce(state, event)]. *)
Abbreviation Sandbox := (json -> ActorEvent -> result ReduceOutcome -> Prop).

Inductive process_step (a : Actor) (reduces : Sandbox) (p : Process) : Process -> Prop :=
(** messages *)
| ps_deliver method payload : process_step a reduces p (deliver method payload p).2
| ps_unknown h :
    pr_current p = Some h -> handler_of (ac_handlers a) (msg_method (hg_message h)) = None ->
    process_step a reduces p (resolve_current (unknown_method a (msg_method (hg_message h))) p)
| ps_handler h name outcome :
    pr_current p = Some h ->
    (handler_of (ac_handlers a) (msg_method (hg_message h)) = Some (HCustom name) \/
     handler_of (ac_handlers a) (msg_method (hg_message h)) = Some (HInherited name)) ->
    process_step a reduces p (end_attempt outcome p)
(** the adapter *)
| ps_no_session h send reason :
    pr_current p = Some h -> hg_read h = None ->
    handler_of (ac_handlers a) (msg_method (hg_message h)) = Some (HAdapter send) ->
    session_error a (pr_session p) = Some reason ->
    process_step a reduces p (end_attempt (Throw reason) p)
| ps_reduce h send :
    pr_current p = Some h -> hg_read h = None ->
    handler_of (ac_handlers a) (msg_method (hg_message h)) = Some (HAdapter send) ->
    pr_session p = SReady ->
    process_step a reduces p
      (set_current (Some {| hg_message := hg_message h; hg_attempt := hg_attempt h;
                            hg_read := Some (pr_state p) |}) p)
| ps_reduced h send state outcome :
    pr_current p = Some h -> hg_read h = Some state ->
    handler_of (ac_handlers a) (msg_method (hg_message h)) = Some (HAdapter send) ->
    reduces state {| ev_send := send; ev_payload := msg_payload (hg_message h) |} outcome ->
    process_step a reduces p (end_reduction outcome p)
(** [applyEvent] called outside the mailbox, for a click *)
| ps_event e : process_step a reduces p (set_events (pr_events p ++ [(e, None)]) p)
| ps_event_refused before e after reason :
    pr_events p = before ++ (e, None) :: after -> session_error a (pr_session p) = Some reason ->
    process_step a reduces p (set_events (before ++ after) p)
| ps_event_reduce before e after :
    pr_events p = before ++ (e, None) :: after -> pr_session p = SReady ->
    process_step a reduces p (set_events (before ++ (e, Some (pr_state p)) :: after) p)
| ps_event_done before e state after o :
    pr_events p = before ++ (e, Some state) :: after -> reduces state e (Ok o) ->
    process_step a reduces p (set_state (ro_state o) (set_events (before ++ after) p))
| ps_event_failed before e state after reason :
    pr_events p = before ++ (e, Some state) :: after -> reduces state e (Throw reason) ->
    process_step a reduces p (set_events (before ++ after) p)
(** the session *)
| ps_booted state : pr_session p = SBooting -> process_step a reduces p (set_state state (set_session SReady p))
| ps_broken reason : pr_session p = SBooting -> process_step a reduces p (set_session (SBroken reason) p)
| ps_dispose : pr_session p = SReady -> process_step a reduces p (set_session SNone p).

(** ** Order and supervision *)

Lemma handles_spec a method : handles a method = true <-> is_Some (handler_of (ac_handlers a) method).
Proof. apply bool_decide_eq_true. Qed.

(** The message in hand. *)
Definition in_hand (p : Process) : list Message :=
  match pr_current p with Some h => [hg_message h] | None => [] end.

(** What a process is between two steps: the messages answered so far, with
    their answers, then the message in hand, then the mailbox are the messages
    delivered, in order; the pump is never idle on a full mailbox; the tickets
    are the positions. *)
Record mailbox_ok (log : list (Message * HandlerResult)) (p : Process) : Prop := {
  mo_delivered : pr_delivered p = log.*1 ++ in_hand p ++ pr_mailbox p;
  mo_replies : pr_replies p = (fun e => (msg_ticket e.1, e.2)) <$> log;
  mo_pumping : pr_current p = None -> pr_mailbox p = [];
  mo_tickets : msg_ticket <$> pr_delivered p = seq 0 (length (pr_delivered p));
  mo_attempt : forall h, pr_current p = Some h -> hg_attempt h <= 1
}.

(** The state that an execution without direct events keeps: the reduction in
    flight reads the current state. *)
Definition reads_current (p : Process) : Prop :=
  forall h s, pr_current p = Some h -> hg_read h = Some s -> s = pr_state p.

(** How one message is answered: the state it is handled in, the answer and the
    state it leaves. *)
Inductive answered (a : Actor) (reduces : Sandbox) (s : json) (m : Message) :
    HandlerResult -> json -> Prop :=
| an_unknown : handler_of (ac_handlers a) (msg_method m) = None ->
    answered a reduces s m (unknown_method a (msg_method m)) s
| an_handler name r :
    (handler_of (ac_handlers a) (msg_method m) = Some (HCustom name) \/
     handler_of (ac_handlers a) (msg_method m) = Some (HInherited name)) ->
    answered a reduces s m r s
| an_reduced send o :
    handler_of (ac_handlers a) (msg_method m) = Some (HAdapter send) ->
    reduces s {| ev_send := send; ev_payload := msg_payload m |} (Ok o) ->
    answered a reduces s m (adapt o) (ro_state o)
| an_failed send reason :
    handler_of (ac_handlers a) (msg_method m) = Some (HAdapter send) ->
    (reduces s {| ev_send := send; ev_payload := msg_payload m |} (Throw reason) \/
     exists session, session_error a session = Some reason) ->
    answered a reduces s m (refused (msg_method m +:+ " failed: " +:+ reason)) s.

(** The messages of a log, answered one after the other. *)
Inductive sequentially (a : Actor) (reduces : Sandbox) : json -> list (Message * HandlerResult) -> json -> Prop :=
| sq_nil s : sequentially a reduces s [] s
| sq_snoc s log s' m r s'' :
    sequentially a reduces s log s' -> answered a reduces s' m r s'' ->
    sequentially a reduces s (log ++ [(m, r)]) s''.

Lemma pump_next_ok log p m r :
  pr_delivered p = log.*1 ++ m :: pr_mailbox p ->
  pr_replies p = ((fun e => (msg_ticket e.1, e.2)) <$> log) ++ [(msg_ticket m, r)] ->
  msg_ticket <$> pr_delivered p = seq 0 (length (pr_delivered p)) ->
  mailbox_ok (log ++ [(m, r)]) (pump_next p).
Proof.
  intros Hd Hr Ht. assert (pr_delivered p = (log ++ [(m, r)]).*1 ++ pr_mailbox p) as Hd'
    by by rewrite Hd, fmap_app, <- app_assoc.
  assert (pr_replies p = (fun e => (msg_ticket e.1, e.2)) <$> log ++ [(m, r)]) as Hr'
    by by rewrite Hr, fmap_app.
  unfold pump_next. destruct (pr_mailbox p) as [|m' rest] eqn:E; split; try done.
  - cbn. by rewrite Hd', E.
  - intros h [= <-]. cbn. lia.
Qed.

Lemma resolve_current_ok log p h r :
  mailbox_ok log p -> pr_current p = Some h ->
  mailbox_ok (log ++ [(hg_message h, r)]) (resolve_current r p).
Proof.
  intros [Hd Hr _ Ht _] Hh. unfold resolve_current, in_hand in *. rewrite Hh in *.
  apply pump_next_ok; cbn; [done|by rewrite Hr|done].
Qed.

(** Changing what no clause mentions. *)
Lemma mailbox_ok_same log p p' :
  mailbox_ok log p -> pr_delivered p' = pr_delivered p -> pr_replies p' = pr_replies p ->
  pr_mailbox p' = pr_mailbox p -> pr_current p' = pr_current p -> mailbox_ok log p'.
Proof. intros [? ? ? ? ?] Hd Hr Hm Hc. split; unfold in_hand in *; by rewrite ?Hd, ?Hr, ?Hm, ?Hc. Qed.

Lemma mailbox_ok_current log p h h' :
  mailbox_ok log p -> pr_current p = Some h -> hg_message h' = hg_message h -> hg_attempt h' <= 1 ->
  mailbox_ok log (set_current (Some h') p).
Proof.
  intros [Hd ? ? ? ?] Hc Hm Ha. split; cbn; try done.
  - rewrite Hd. unfold in_hand. cbn. by rewrite Hc, Hm.
  - by intros ? [= <-].
Qed.

Lemma deliver_ok log p method payload : mailbox_ok log p -> mailbox_ok log (deliver method payload p).2.
Proof.
  intros [Hd Hr Hp Ht Ha].
  set (m := {| msg_ticket := length (pr_delivered p); msg_method := method; msg_payload := payload |}).
  assert (msg_ticket <$> pr_delivered p ++ [m] = seq 0 (length (pr_delivered p ++ [m]))) as Ht'.
  { rewrite fmap_app, Ht, length_app, seq_app. done. }
  unfold deliver. fold m. cbv zeta. cbn [snd].
  destruct (pr_current (enqueue m p)) as [h|] eqn:Hc; cbn [pr_current enqueue] in Hc.
  - split; try done.
    + cbn. rewrite Hd. unfold in_hand. cbn. rewrite Hc. by rewrite <- !app_assoc.
    + cbn. by rewrite Hc.
  - unfold pump_next. cbn. rewrite (Hp Hc). cbn. split; try done.
    + cbn. rewrite Hd. unfold in_hand. rewrite Hc, (Hp Hc). by rewrite !app_nil_r.
    + intros h [= <-]. cbn. lia.
Qed.

(** The end of an attempt: the same message again, or its answer. *)
Lemma end_attempt_cases log p h outcome :
  mailbox_ok log p -> pr_current p = Some h ->
  (exists reason, outcome = Throw reason /\ hg_attempt h = 0 /\
     mailbox_ok log (end_attempt outcome p) /\
     pr_current (end_attempt outcome p) =
       Some {| hg_message := hg_message h; hg_attempt := 1; hg_read := None |}) \/
  (exists r, mailbox_ok (log ++ [(hg_message h, r)]) (end_attempt outcome p) /\
     match outcome with
     | Ok r' => r = r'
     | Throw reason => r = refused (msg_method (hg_message h) +:+ " failed: " +:+ reason) /\
                       hg_attempt h = 1
     end).
Proof.
  intros Hok Hc. unfold end_attempt. rewrite Hc. destruct outcome as [r|reason].
  - right. exists r. split; [|done]. by apply resolve_current_ok.
  - destruct (Nat.eqb_spec (hg_attempt h) 0) as [E|E].
    + left. exists reason. do 2 (split; [done|]). split; [|done]. by eapply mailbox_ok_current.
    + right. eexists. split.
      * apply resolve_current_ok; [|done]. by eapply mailbox_ok_same.
      * split; [done|]. pose proof (mo_attempt _ _ Hok h Hc). lia.
Qed.

Lemma process_step_ok a reduces p p' log :
  mailbox_ok log p -> process_step a reduces p p' -> exists more, mailbox_ok (log ++ more) p'.
Proof.
  assert (forall p h outcome, mailbox_ok log p -> pr_current p = Some h ->
            exists more, mailbox_ok (log ++ more) (end_attempt outcome p)) as Hend.
  { intros q h outcome Hok Hc. destruct (end_attempt_cases log q h outcome Hok Hc)
      as [(? & _ & _ & ? & _)|(r & ? & _)]; [exists []; by rewrite app_nil_r|eauto]. }
  intros Hok Hs. destruct Hs;
    try (exists []; rewrite app_nil_r; by first [by apply deliver_ok | by eapply mailbox_ok_same]).
  - eexists. by apply resolve_current_ok.
  - eauto.
  - eauto.
  - exists []. rewrite app_nil_r. eapply mailbox_ok_current; eauto.
    cbn. by eapply mo_attempt.
  - match goal with |- context [end_reduction ?o _] => destruct o as [o'|reason'] end;
      cbn [end_reduction]; [|eauto].
    eapply Hend; [by eapply mailbox_ok_same|done].
Qed.

Lemma new_process_ok a : mailbox_ok [] (new_process a).
Proof. by split. Qed.

Lemma process_steps_ok a reduces p p' log :
  mailbox_ok log p -> rtc (process_step a reduces) p p' -> exists more, mailbox_ok (log ++ more) p'.
Proof.
  intros Hok Hs. revert log Hok. induction Hs as [p|p q p' Hpq _ IH]; intros log Hok.
  - exists []. by rewrite app_nil_r.
  - destruct (process_step_ok _ _ _ _ _ Hok Hpq) as [more Hq]. destruct (IH _ Hq) as [more' ?].
    exists (more ++ more'). by rewrite app_assoc.
Qed.

(** ** Sequential meaning *)

(** A step during which no event is applied directly. *)
Definition quiet_step (a : Actor) (reduces : Sandbox) (p p' : Process) : Prop :=
  process_step a reduces p p' /\ pr_events p' = [].

Definition quiet (p : Process) : Prop :=
  pr_events p = [] /\ reads_current p /\
  (pr_session p = SBooting -> forall h, pr_current p = Some h -> hg_read h = None).

(** Taking the next message touches the mailbox only. *)
Lemma pump_next_frame p :
  pr_state (pump_next p) = pr_state p /\ pr_events (pump_next p) = pr_events p /\
  pr_session (pump_next p) = pr_session p /\
  forall h, pr_current (pump_next p) = Some h -> hg_read h = None.
Proof.
  unfold pump_next. destruct (pr_mailbox p); cbn; repeat (split; [done|]); [done|]. by intros h [= <-].
Qed.

Lemma resolve_current_frame r p :
  pr_state (resolve_current r p) = pr_state p /\ pr_events (resolve_current r p) = pr_events p /\
  pr_session (resolve_current r p) = pr_session p /\
  forall h, pr_current (resolve_current r p) = Some h -> hg_read h = None.
Proof.
  unfold resolve_current. destruct (pr_current p) eqn:E; [apply (pump_next_frame (reply _ _ p))|].
  repeat (split; [done|]). congruence.
Qed.

Lemma end_attempt_frame outcome p :
  pr_state (end_attempt outcome p) = pr_state p /\ pr_events (end_attempt outcome p) = pr_events p /\
  pr_session (end_attempt outcome p) = pr_session p /\
  forall h, pr_current (end_attempt outcome p) = Some h -> hg_read h = None.
Proof.
  unfold end_attempt. destruct (pr_current p) as [h|] eqn:E.
  - destruct outcome; [apply resolve_current_frame|]. destruct (Nat.eqb _ 0).
    + cbn. repeat (split; [done|]). by intros ? [= <-].
    + apply (resolve_current_frame _ (add_failure _ p)).
  - repeat (split; [done|]). congruence.
Qed.

Lemma deliver_frame method payload p :
  let q := (deliver method payload p).2 in
  pr_state q = pr_state p /\ pr_events q = pr_events p /\ pr_session q = pr_session p /\
  forall h, pr_current q = Some h -> pr_current p = Some h \/ hg_read h = None.
Proof.
  cbv zeta. unfold deliver. cbv zeta. cbn [snd].
  set (q := enqueue _ p). destruct (pr_current q) as [h|] eqn:E.
  - repeat (split; [done|]). cbn in *. eauto.
  - destruct (pump_next_frame q) as (-> & -> & -> & Hn). repeat (split; [done|]). eauto.
Qed.

(** The part of an execution after a state, seen as a sequence of answers. *)
Definition serial (a : Actor) (reduces : Sandbox) (log0 : list (Message * HandlerResult)) (s0 : json)
    (p : Process) : Prop :=
  exists log, mailbox_ok (log0 ++ log) p /\ sequentially a reduces s0 log (pr_state p) /\
    quiet p /\ pr_session p <> SBooting.

(** The end of an attempt whose answer the sequential semantics gives. *)
Lemma serial_attempt a reduces log0 s0 log p h outcome :
  mailbox_ok (log0 ++ log) p -> pr_current p = Some h -> pr_events p = [] -> pr_session p <> SBooting ->
  (forall r, (match outcome with
              | Ok r' => r = r'
              | Throw reason => r = refused (msg_method (hg_message h) +:+ " failed: " +:+ reason)
              end) ->
     sequentially a reduces s0 (log ++ [(hg_message h, r)]) (pr_state p)) ->
  (is_ok outcome = false -> sequentially a reduces s0 log (pr_state p)) ->
  serial a reduces log0 s0 (end_attempt outcome p).
Proof.
  intros Hok Hc Hev Hb Hans Hsame.
  destruct (end_attempt_frame outcome p) as (Hs & He & Hsn & Hr).
  assert (quiet (end_attempt outcome p)) as Hq.
  { split; [congruence|]. split; [intros h' s' Hh' Hr'; specialize (Hr h' Hh'); congruence|auto]. }
  unfold serial. rewrite Hs, Hsn.
  destruct (end_attempt_cases _ p h outcome Hok Hc) as [(reason & -> & _ & ? & _)|(r & Hok' & Ho)].
  - exists log. split; [done|]. split; [by apply Hsame|]. done.
  - exists (log ++ [(hg_message h, r)]). rewrite app_assoc. repeat (split; [done|]).
    split; [|done]. apply Hans. destruct outcome; [done|by destruct Ho].
Qed.

Lemma quiet_same p p' :
  quiet p -> pr_events p' = [] -> pr_state p' = pr_state p -> pr_session p' = pr_session p ->
  (forall h, pr_current p' = Some h -> pr_current p = Some h \/ hg_read h = None) -> quiet p'.
Proof.
  intros (_ & Hr & Hb) He Hs Hn Hc. split; [done|]. rewrite Hn. split.
  - intros h s Hh Hs'. rewrite Hs. destruct (Hc h Hh) as [?|?]; [eauto|congruence].
  - intros Hn' h Hh. destruct (Hc h Hh); eauto.
Qed.

Lemma serial_step a reduces log0 s0 p p' :
  serial a reduces log0 s0 p -> quiet_step a reduces p p' -> serial a reduces log0 s0 p'.
Proof.
  intros (log & Hok & Hsq & Hq & Hb) [Hs Hev]. pose proof Hq as (Hev0 & Hr & _).
  destruct Hs as [method payload|h Hh Hf|h name outcome Hh Hf|h send reason Hh Hrd Hf Hse|
    h send Hh Hrd Hf Hse|h send state outcome Hh Hrd Hf Hred| | | | | |
    state Hse|reason Hse|Hse];
    try (by rewrite Hev0 in *; destruct before);
    try (by destruct (pr_events p)); try done.
  - destruct (deliver_frame method payload p) as (Es & Ee & En & Ec).
    exists log. unfold serial. rewrite Es, En. split; [by apply deliver_ok|]. split; [done|].
    split; [|done]. by eapply quiet_same.
  - destruct (resolve_current_frame (unknown_method a (msg_method (hg_message h))) p) as (Es & Ee & En & Ec).
    exists (log ++ [(hg_message h, unknown_method a (msg_method (hg_message h)))]).
    rewrite app_assoc, Es, En. split; [by apply resolve_current_ok|].
    split; [|split; [eapply quiet_same; eauto|done]].
    econstructor; [done|]. by constructor.
  - eapply serial_attempt; eauto. intros r _. econstructor; [done|]. by apply an_handler with name.
  - eapply serial_attempt; eauto. intros r ->. econstructor; [done|]. eapply an_failed; eauto.
  - exists log. split; [apply mailbox_ok_current with h; [done..|exact (mo_attempt _ _ Hok h Hh)]|].
    split; [done|]. split; [|done]. split; [done|]. split; [by intros h' s' [= <-] [= <-]|].
    intros Hn. cbn in Hn. congruence.
  - apply (Hr h state Hh) in Hrd as ->. destruct outcome as [o|reason]; cbn [end_reduction].
    + apply serial_attempt with log h; cbn; try done.
      * by eapply mailbox_ok_same.
      * intros r ->. econstructor; [done|]. by eapply an_reduced.
    + eapply serial_attempt; eauto. intros r ->. econstructor; [done|]. eapply an_failed; eauto.
  - exists log. split; [by eapply mailbox_ok_same|]. split; [done|]. split; [|done].
    split; [done|]. split; [exact Hr|]. done.
Qed.

Lemma quiet_step_quiet a reduces p p' : quiet p -> quiet_step a reduces p p' -> quiet p'.
Proof.
  intros Hq [Hs Hev]. pose proof Hq as (Hev0 & Hr & Hb).
  destruct Hs as [method payload|h Hh Hf'|h name outcome Hh Hf'|h send reason Hh Hrd Hf' Hse|
    h send Hh Hrd Hf' Hse|h send state outcome Hh Hrd Hf' Hred| | | | | | | |];
    try (by rewrite Hev0 in *; destruct before); try (by destruct (pr_events p)).
  - destruct (deliver_frame method payload p) as (Es & Ee & En & Ec). by eapply quiet_same.
  - destruct (resolve_current_frame (unknown_method a (msg_method (hg_message h))) p) as (? & ? & ? & ?).
    eapply quiet_same; eauto.
  - destruct (end_attempt_frame outcome p) as (? & ? & ? & ?). eapply quiet_same; eauto.
  - destruct (end_attempt_frame (Throw reason) p) as (? & ? & ? & ?). eapply quiet_same; eauto.
  - split; [done|]. split; [by intros h' s' [= <-] [= <-]|]. intros Hn. cbn in Hn. congruence.
  - destruct outcome as [o|reason]; cbn [end_reduction] in *.
    + destruct (end_attempt_frame (Ok (adapt o)) (set_state (ro_state o) p)) as (E1 & E2 & E3 & E4).
      split; [done|]. split; [intros h' s' Hh' Hs'; specialize (E4 h' Hh'); congruence|auto].
    + destruct (end_attempt_frame (Throw reason) p) as (? & ? & ? & ?). eapply quiet_same; eauto.
  - split; [done|]. split; [|done]. intros h s Hh Hs. rewrite (Hb ltac:(done) h Hh) in Hs. done.
Qed.

Lemma new_process_quiet a : quiet (new_process a).
Proof. split; [done|]. by split. Qed.

Lemma quiet_steps a reduces p p' : quiet p -> rtc (quiet_step a reduces) p p' -> quiet p'.
Proof. intros Hq Hs. induction Hs as [|p q p' Hs _ IH]; [done|]. apply IH. by eapply quiet_step_quiet. Qed.

Lemma serial_steps a reduces log0 s0 p p' :
  serial a reduces log0 s0 p -> rtc (quiet_step a reduces) p p' -> serial a reduces log0 s0 p'.
Proof. intros Hs Hr. induction Hr as [|p q p' Hpq _ IH]; [done|]. apply IH. by eapply serial_step. Qed.

Lemma quiet_process_steps a reduces p p' :
  rtc (quiet_step a reduces) p p' -> rtc (process_step a reduces) p p'.
Proof. intros Hs. induction Hs as [|p q p' [? _] _ IH]; [constructor|]. by eapply rtc_l. Qed.

(** ** Working the mailbox off *)

Section Drain.
Context (a : Actor) (sandbox : json -> ActorEvent -> result ReduceOutcome)
  (custom : string -> jobject -> result HandlerResult).

(** The next step of the message in hand, when the sandbox and the handlers
    written by hand answer as the functions say. *)
Definition advance (p : Process) : Process :=
  match pr_current p with
  | None => p
  | Some h =>
      let m := hg_message h in
      match handler_of (ac_handlers a) (msg_method m) with
      | None => resolve_current (unknown_method a (msg_method m)) p
      | Some (HCustom name) | Some (HInherited name) => end_attempt (custom name (msg_payload m)) p
      | Some (HAdapter send) =>
          match hg_read h with
          | Some state =>
              end_reduction (sandbox state {| ev_send := send; ev_payload := msg_payload m |}) p
          | None =>
              match session_error a (pr_session p) with
              | Some reason => end_attempt (Throw reason) p
              | None => set_current (Some {| hg_message := m; hg_attempt := hg_attempt h;
                                             hg_read := Some (pr_state p) |}) p
              end
          end
      end
  end.

(** A bound on the steps that are left. *)
Definition work (p : Process) : nat :=
  4 * length (pr_mailbox p) +
  match pr_current p with
  | None => 0
  | Some h => (if Nat.eqb (hg_attempt h) 0 then 2 else 0) +
              match hg_read h with None => 2 | Some _ => 1 end
  end.

Lemma pump_next_work p : work (pump_next p) = 4 * length (pr_mailbox p).
Proof. unfold pump_next, work. destruct (pr_mailbox p) eqn:E; cbn; rewrite ?E; cbn; lia. Qed.

Lemma resolve_current_work r p h :
  pr_current p = Some h -> work (resolve_current r p) < work p.
Proof.
  intros Hc. unfold resolve_current. rewrite Hc, pump_next_work. unfold work. rewrite Hc. cbn.
  destruct (Nat.eqb _ 0), (hg_read h); lia.
Qed.

Lemma end_attempt_work outcome p h :
  pr_current p = Some h -> work (end_attempt outcome p) < work p.
Proof.
  intros Hc. unfold end_attempt. rewrite Hc. destruct outcome as [r|reason].
  - by eapply resolve_current_work.
  - destruct (Nat.eqb (hg_attempt h) 0) eqn:E.
    + unfold work. cbn. rewrite Hc, E. destruct (hg_read h); lia.
    + by eapply (resolve_current_work _ (add_failure _ p)).
Qed.

Lemma advance_work p :
  pr_current p <> None -> work (advance p) < work p.
Proof.
  intros Hne. unfold advance. destruct (pr_current p) as [h|] eqn:Hc; [clear Hne|done].
  destruct (handler_of _ _) as [[send|name|name]|]; [|by eapply end_attempt_work..|by eapply resolve_current_work].
  destruct (hg_read h) as [state|] eqn:Hr.
  - destruct (sandbox _ _) as [o|reason]; cbn [end_reduction].
    + by eapply (end_attempt_work _ (set_state (ro_state o) p)).
    + by eapply end_attempt_work.
  - destruct (session_error _ _); [by eapply end_attempt_work|].
    unfold work. cbn. rewrite Hc, Hr. destruct (Nat.eqb _ 0); lia.
Qed.

(** Every advance is a step of the actor, once its sandbox has started. *)
Lemma advance_step (reduces : Sandbox) p :
  (forall s e, reduces s e (sandbox s e)) -> pr_session p <> SBooting -> pr_current p <> None ->
  process_step a reduces p (advance p).
Proof.
  intros Hsand Hb Hne. unfold advance. destruct (pr_current p) as [h|] eqn:Hc; [clear Hne|done].
  destruct (handler_of _ _) as [[send|name|name]|] eqn:Hf.
  - destruct (hg_read h) as [state|] eqn:Hr; [by eapply ps_reduced|].
    destruct (session_error _ _) eqn:Hse; [by eapply ps_no_session|].
    eapply ps_reduce; eauto. by destruct (pr_session p).
  - eapply ps_handler; eauto.
  - eapply ps_handler; eauto.
  - by apply ps_unknown.
Qed.

Lemma advance_frame p :
  pr_delivered (advance p) = pr_delivered p /\ pr_session (advance p) = pr_session p.
Proof.
  assert (forall p r, pr_delivered (resolve_current r p) = pr_delivered p /\
                      pr_session (resolve_current r p) = pr_session p) as Hres.
  { intros q r. unfold resolve_current, pump_next. destruct (pr_current q); [|done].
    by destruct (pr_mailbox _). }
  assert (forall p o, pr_delivered (end_attempt o p) = pr_delivered p /\
                      pr_session (end_attempt o p) = pr_session p) as Hend.
  { intros q o. unfold end_attempt. destruct (pr_current q); [|done].
    destruct o; [apply Hres|]. destruct (Nat.eqb _ 0); [done|]. apply (Hres (add_failure _ q)). }
  unfold advance. destruct (pr_current p) as [h|]; [|done].
  destruct (handler_of _ _) as [[send|name|name]|]; [|apply Hend..|apply Hres].
  destruct (hg_read h); [|destruct (session_error _ _); [apply Hend|done]].
  destruct (sandbox _ _); cbn [end_reduction]; [|apply Hend]. apply (Hend (set_state _ p)).
Qed.

End Drain.

(** ** Properties *)

(** the mailbox is a queue.  In every state an actor can reach, whatever its
    sandbox and handlers answer and whatever is clicked meanwhile, the messages
    delivered so far are, in order, those that were answered, the one in hand and
    those still waiting; promise [i] belongs to the [i]-th delivery and the
    promises are resolved in that order, each once; and the pump never rests
    while a message waits. *)
Theorem mailbox_is_fifo (a : Actor) (reduces : Sandbox) (p : Process) :
  rtc (process_step a reduces) (new_process a) p ->
  exists answers : list (Message * HandlerResult),
    pr_delivered p = answers.*1 ++ in_hand p ++ pr_mailbox p /\
    msg_ticket <$> pr_delivered p = seq 0 (length (pr_delivered p)) /\
    pr_replies p = imap (fun i e => (i, e.2)) answers /\
    (pr_mailbox p <> [] -> pr_current p <> None).
Proof.
  intros Hs. destruct (process_steps_ok _ _ _ _ [] (new_process_ok a) Hs) as [log [Hd Hr Hp Ht _]].
  cbn in *. exists log. split; [done|]. split; [done|]. split.
  - rewrite Hr. apply list_eq. intros i. rewrite list_lookup_fmap, list_lookup_imap.
    destruct (log !! i) as [[m r]|] eqn:E; cbn; [|done]. do 2 f_equal.
    assert (i < length log) by (eapply lookup_lt_Some; eauto).
    assert ((msg_ticket <$> pr_delivered p) !! i = Some (msg_ticket m)) as Hi.
    { rewrite Hd, list_lookup_fmap, lookup_app_l, list_lookup_fmap, E; [done|]. by rewrite length_fmap. }
    rewrite Ht in Hi. apply lookup_seq in Hi as [-> _]. done.
  - intros Hm Hc. auto.
Qed.

(** messages are handled one at a time, as if nothing else happened.  From any
    state reached after the sandbox started, as long as nobody applies an event
    behind the mailbox, the answers that are given and the state that is left are
    those of handling the delivered messages one after the other: a method
    without a handler is refused, a declared method is reduced from the state its
    predecessor left, and a message whose attempts both threw is answered with the
    error and leaves the state untouched. *)
Theorem mailbox_is_sequential (a : Actor) (reduces : Sandbox) (p p' : Process) :
  rtc (quiet_step a reduces) (new_process a) p -> pr_session p <> SBooting ->
  rtc (quiet_step a reduces) p p' ->
  exists before more : list (Message * HandlerResult),
    pr_replies p = (fun e => (msg_ticket e.1, e.2)) <$> before /\
    pr_delivered p' = (before ++ more).*1 ++ in_hand p' ++ pr_mailbox p' /\
    pr_replies p' = (fun e => (msg_ticket e.1, e.2)) <$> before ++ more /\
    sequentially a reduces (pr_state p) more (pr_state p').
Proof.
  intros Hp Hb Hp'.
  destruct (process_steps_ok _ _ _ _ [] (new_process_ok a) (quiet_process_steps _ _ _ _ Hp)) as [before Hok].
  pose proof (quiet_steps _ _ _ _ (new_process_quiet a) Hp) as Hq.
  destruct (serial_steps a reduces before (pr_state p) p p') as (more & Hok' & Hseq & _); [|done|].
  - exists []. rewrite app_nil_r. split; [done|]. split; [constructor|]. done.
  - exists before, more. split; [apply Hok|]. split; [apply Hok'|]. split; [apply Hok'|done].
Qed.

(** the mailbox drains.  Once its sandbox has started (or failed to), an
    actor whose handlers come to an end answers everything it was sent: at most
    four steps per message leave it with an empty mailbox, nothing in hand, and
    one answer for every message delivered. *)
Theorem mailbox_drains (a : Actor) (reduces : Sandbox) (sandbox : json -> ActorEvent -> result ReduceOutcome)
    (custom : string -> jobject -> result HandlerResult) (p : Process)
    (Hsandbox : forall s e, reduces s e (sandbox s e))
    (Hreach : rtc (process_step a reduces) (new_process a) p) (Hstarted : pr_session p <> SBooting) :
  let q := Nat.iter (4 * (length (pr_delivered p) - length (pr_replies p))) (advance a sandbox custom) p in
  rtc (process_step a reduces) p q /\ pr_current q = None /\ pr_mailbox q = [] /\
  pr_delivered q = pr_delivered p /\ (pr_replies q).*1 = seq 0 (length (pr_delivered p)).
Proof.
  destruct (process_steps_ok _ _ _ _ [] (new_process_ok a) Hreach) as [log Hok]. cbn in Hok.
  assert (work p <= 4 * (length (pr_delivered p) - length (pr_replies p))) as Hw.
  { destruct Hok as [Hd Hr _ _ _]. rewrite Hd, Hr. unfold work, in_hand.
    destruct (pr_current p) as [h|]; rewrite !length_app, !length_fmap; cbn; [|lia].
    destruct (Nat.eqb _ 0), (hg_read h); lia. }
  revert Hw. generalize (4 * (length (pr_delivered p) - length (pr_replies p))) as n.
  clear Hreach. intros n. revert p log Hok Hstarted.
  induction n as [|n IH]; intros p log Hok Hstarted Hw; cbv zeta; [cbn [Nat.iter]|rewrite Nat.iter_succ_r].
  - assert (pr_current p = None) as Hc.
    { unfold work in Hw. destruct (pr_current p) as [h|]; [|done].
      destruct (Nat.eqb _ 0), (hg_read h); lia. }
    assert (pr_mailbox p = []) as Hm by by apply Hok.
    split; [constructor|]. do 3 (split; [done|]). destruct Hok as [Hd Hr _ Ht _].
    change ((pr_replies p).*1 = seq 0 (length (pr_delivered p))).
    rewrite Hr, <- list_fmap_compose, <- Ht, Hd. unfold in_hand. rewrite Hc, Hm, !app_nil_r.
    by rewrite <- list_fmap_compose.
  - destruct (decide (pr_current p = None)) as [Hc|Hc].
    + assert (advance a sandbox custom p = p) as -> by (unfold advance; by rewrite Hc).
      apply IH with log; [done..|]. unfold work in *. rewrite Hc in *.
      rewrite (mo_pumping _ _ Hok Hc) in *. cbn in *. lia.
    + pose proof (advance_step a sandbox custom reduces p Hsandbox Hstarted Hc) as Hs.
      destruct (process_step_ok _ _ _ _ _ Hok Hs) as [more Hok'].
      pose proof (advance_work a sandbox custom p Hc).
      destruct (advance_frame a sandbox custom p) as [Hd Hsn].
      destruct (IH (advance a sandbox custom p) (log ++ more) Hok') as (? & ? & ? & ? & ?);
        [congruence|lia|].
      split; [by eapply rtc_l|]. do 2 (split; [done|]). split; congruence.
Qed.

(** clicks are not serialized.  When two events are applied directly before
    the first reduction has come back, both are reduced from the same state and
    the state that is left is the second one's: the first update is lost,
    although both reductions succeeded. *)
Theorem concurrent_events_lose_an_update (a : Actor) (reduces : Sandbox) (p : Process)
    (e1 e2 : ActorEvent) (o1 o2 : ReduceOutcome)
    (Hready : pr_session p = SReady) (Hidle : pr_events p = [])
    (H1 : reduces (pr_state p) e1 (Ok o1)) (H2 : reduces (pr_state p) e2 (Ok o2)) :
  exists q, rtc (process_step a reduces) p q /\ pr_events q = [] /\
    pr_state q = ro_state o2 /\ pr_session q = SReady /\ pr_replies q = pr_replies p.
Proof.
  set (s := pr_state p) in *.
  exists (set_state (ro_state o2) (set_events [] (set_state (ro_state o1)
            (set_events [(e2, Some s)] (set_events [(e1, Some s); (e2, Some s)]
              (set_events [(e1, Some s); (e2, None)] (set_events [(e1, None); (e2, None)]
                (set_events [(e1, None)] p)))))))).
  split; [|by repeat (split; [done|])].
  assert (forall r q, process_step a reduces p r -> rtc (process_step a reduces) r q ->
            rtc (process_step a reduces) p q) as Hl by (intros; by eapply rtc_l).
  eapply rtc_l; [apply (ps_event _ _ p e1)|]. rewrite Hidle. cbn [app].
  eapply rtc_l; [apply (ps_event _ _ _ e2)|]. cbn [app pr_events set_events].
  eapply rtc_l; [by apply (ps_event_reduce _ _ _ [] e1 [(e2, None)])|]. cbn [app].
  eapply rtc_l; [by apply (ps_event_reduce _ _ _ [(e1, Some s)] e2 [])|]. cbn [app].
  eapply rtc_l; [by apply (ps_event_done _ _ _ [] e1 s [(e2, Some s)] o1)|]. cbn [app].
  eapply rtc_l; [by apply (ps_event_done _ _ _ [] e2 s [] o2)|]. constructor.
Qed.

(** ** Bindings *)

Lemma handler_of_set k h handlers k' :
  handler_of (map_set k h handlers) k' = if decide (k' = k) then Some h else handler_of handlers k'.
Proof. unfold handler_of. rewrite map_get_set. by case_decide. Qed.

Lemma bind_alias_keeps send handlers p k h :
  handler_of handlers k = Some h -> handler_of (bind_alias send handlers p) k = Some h.
Proof.
  intros Hk. unfold bind_alias. destruct (truthy p) as [q|]; [|done].
  case_bool_decide as Hn; [done|]. rewrite handler_of_set. case_decide; [|done]. subst.
  destruct Hn. eauto.
Qed.

Lemma bind_method_keeps handlers m k h :
  ms_name m <> k -> handler_of handlers k = Some h -> handler_of (bind_method handlers m) k = Some h.
Proof.
  intros Hne Hk. unfold bind_method. destruct (truthy (ms_event m)) as [send|]; [|done].
  cbn [fold_left]. do 2 apply bind_alias_keeps. rewrite handler_of_set. by rewrite decide_False by done.
Qed.

Lemma bind_method_bound handlers m k :
  is_Some (handler_of handlers k) -> is_Some (handler_of (bind_method handlers m) k).
Proof.
  intros [h Hk]. unfold bind_method. destruct (truthy (ms_event m)) as [send|]; [|eauto].
  cbn [fold_left]. destruct (decide (k = ms_name m)) as [->|Hne].
  - exists (HAdapter send). do 2 apply bind_alias_keeps. rewrite handler_of_set. by rewrite decide_True.
  - exists h. do 2 apply bind_alias_keeps. rewrite handler_of_set. by rewrite decide_False.
Qed.

Lemma bind_method_own handlers m send :
  truthy (ms_event m) = Some send -> handler_of (bind_method handlers m) (ms_name m) = Some (HAdapter send).
Proof.
  intros He. unfold bind_method. rewrite He. cbn [fold_left]. do 2 apply bind_alias_keeps.
  rewrite handler_of_set. by rewrite decide_True.
Qed.

(** The alias of a method's predicate. *)
Definition aliases (m : MethodSpec) (p : string) : Prop :=
  truthy (ms_produces m ≫= head) = Some p \/ truthy (ms_requires m ≫= head) = Some p.

Lemma bind_alias_bound send handlers p q :
  truthy p = Some q -> is_Some (handler_of (bind_alias send handlers p) (predicate_functor q)).
Proof.
  intros Hq. unfold bind_alias. rewrite Hq. case_bool_decide as Hn; [done|].
  rewrite handler_of_set, decide_True by done. eauto.
Qed.

Lemma bind_method_alias handlers m send p :
  truthy (ms_event m) = Some send -> aliases m p ->
  is_Some (handler_of (bind_method handlers m) (predicate_functor p)).
Proof.
  intros He [Hp|Hp]; unfold bind_method; rewrite He; cbn [fold_left].
  - destruct (bind_alias_bound send (map_set (ms_name m) (HAdapter send) handlers) _ _ Hp) as [h Hh].
    exists h. by apply bind_alias_keeps.
  - by apply bind_alias_bound.
Qed.

Lemma bind_methods_keep ms handlers k h :
  (forall m, m ∈ ms -> ms_name m <> k) -> handler_of handlers k = Some h ->
  handler_of (fold_left bind_method ms handlers) k = Some h.
Proof.
  revert handlers. induction ms as [|m ms IH]; intros handlers Hne Hk; cbn; [done|].
  apply IH; [intros; apply Hne; by right|]. apply bind_method_keeps; [apply Hne; left|done].
Qed.

Lemma bind_methods_bound ms handlers k :
  is_Some (handler_of handlers k) -> is_Some (handler_of (fold_left bind_method ms handlers) k).
Proof.
  revert handlers. induction ms as [|m ms IH]; intros handlers Hk; cbn; [done|].
  by apply IH, bind_method_bound.
Qed.

(** What the adapter of an event is bound under: a handler handed to the constructor, the
    name of a method that declares the event, or an alias of one. *)
Lemma bind_alias_source send handlers p k e :
  handler_of (bind_alias send handlers p) k = Some (HAdapter e) ->
  handler_of handlers k = Some (HAdapter e) \/
  e = send /\ exists q, truthy p = Some q /\ predicate_functor q = k.
Proof.
  unfold bind_alias. destruct (truthy p) as [q|]; [|by left]. case_bool_decide; [by left|].
  rewrite handler_of_set. case_decide; [|by left]. intros [= ->]. right. eauto.
Qed.

Lemma bind_method_source handlers m k e :
  handler_of (bind_method handlers m) k = Some (HAdapter e) ->
  handler_of handlers k = Some (HAdapter e) \/
  truthy (ms_event m) = Some e /\ (ms_name m = k \/ exists q, aliases m q /\ predicate_functor q = k).
Proof.
  unfold bind_method. destruct (truthy (ms_event m)) as [send|]; [|by left]. cbn [fold_left].
  intros [[Hk|(-> & q & ? & ?)]%bind_alias_source|(-> & q & ? & ?)]%bind_alias_source.
  - rewrite handler_of_set in Hk. case_decide; [|by left]. injection Hk as ->. right. auto.
  - right. split; [done|]. right. exists q. split; [by left|done].
  - right. split; [done|]. right. exists q. split; [by right|done].
Qed.

Lemma bind_methods_source ms handlers k e :
  handler_of (fold_left bind_method ms handlers) k = Some (HAdapter e) ->
  handler_of handlers k = Some (HAdapter e) \/
  exists m, m ∈ ms /\ truthy (ms_event m) = Some e /\
    (ms_name m = k \/ exists q, aliases m q /\ predicate_functor q = k).
Proof.
  revert handlers. induction ms as [|m ms IH]; intros handlers; cbn [fold_left]; [by left|].
  intros [[?|[? ?]]%bind_method_source|(m' & ? & ?)]%IH; [by left| |]; right.
  - exists m. split; [left|done].
  - exists m'. split; [by right|done].
Qed.

(** declared behaviour is bound.  In an actor whose method names are distinct,
    a method that declares an event is answered by the adapter that sends exactly
    that event, whatever handlers were passed and whatever predicates other
    methods produce or require; and the functors of the first predicate it
    produces and requires are handled too. *)
Theorem declared_methods_are_bound (uuid : string) (manifest : Manifest)
    (custom : list (string * Handler)) (m : MethodSpec) (send : string)
    (Hnames : NoDup (ms_name <$> mf_methods manifest)) (Hm : m ∈ mf_methods manifest)
    (Hevent : truthy (ms_event m) = Some send) :
  handler_of (ac_handlers (new_actor uuid manifest custom)) (ms_name m) = Some (HAdapter send) /\
  forall p, aliases m p -> handles (new_actor uuid manifest custom) (predicate_functor p) = true.
Proof.
  apply list_elem_of_split in Hm as (before & after & E).
  setoid_rewrite handles_spec. cbn. rewrite E, fold_left_app. cbn [fold_left]. split.
  - apply bind_methods_keep; [|by apply bind_method_own]. intros m' Hm' Heq.
    rewrite E, fmap_app, fmap_cons in Hnames. apply NoDup_app in Hnames as (_ & _ & Hn).
    apply NoDup_cons in Hn as [Hn _]. destruct Hn. rewrite <- Heq. by apply list_elem_of_fmap_2.
  - intros p Hp. apply bind_methods_bound. by eapply bind_method_alias.
Qed.

(** ** A counter *)

Module Counter.

Definition add_method : MethodSpec :=
  {| ms_name := "add"; ms_description := ""; ms_parameters := JObject []; ms_mode := None;
     ms_idempotency := None; ms_cost := None; ms_requires := None; ms_produces := Some ["added(N)"];
     ms_inputSlots := None; ms_outputSlots := None; ms_event := Some "ADD"; ms_hitl := None |}.

Definition manifest : Manifest :=
  {| mf_id := "counter"; mf_authority := "os.aven"; mf_namespace := "demo"; mf_version := "1.0.0";
     mf_name := "Counter"; mf_description := ""; mf_tags := []; mf_methods := [add_method];
     mf_requires := None; mf_produces := None; mf_machine := None; mf_logic := Some "reduce" |}.

Definition actor : Actor := new_actor "u1" manifest [].

(** [reduce] adds the number of the payload, and throws without one. *)
Definition sandbox (s : json) (e : ActorEvent) : result ReduceOutcome :=
  match s, map_get "by" (ev_payload e) with
  | JNumber n, Some (JNumber k) =>
      Ok {| ro_state := JNumber (n + k); ro_said := None; ro_record := None |}
  | _, _ => Throw "no number"
  end.

Definition reduces : Sandbox := fun s e r => r = sandbox s e.
Definition by_ (k : Z) : jobject := [("by", JNumber k)].
Definition custom (name : string) (payload : jobject) : result HandlerResult := Throw name.

Definition started : Process := set_state (JNumber 0) (set_session SReady (new_process actor)).
Definition loaded : Process :=
  (deliver "added" (by_ 2) (deliver "forget" [] (deliver "add" [] (deliver "add" (by_ 3) started).2).2).2).2.
Definition worked : Process := Nat.iter 16 (advance actor sandbox custom) loaded.

Lemma quiet_l p q r :
  process_step actor reduces p q -> pr_events q = [] -> rtc (quiet_step actor reduces) q r ->
  rtc (quiet_step actor reduces) p r.
Proof. intros. eapply rtc_l; [|eassumption]. by split. Qed.

Lemma started_quiet : rtc (quiet_step actor reduces) (new_process actor) started.
Proof. apply quiet_l with started; [by apply ps_booted|done|constructor]. Qed.

Lemma loaded_quiet : rtc (quiet_step actor reduces) started loaded.
Proof.
  do 4 (eapply quiet_l; [apply ps_deliver|reflexivity|]). constructor.
Qed.

Lemma worked_quiet : rtc (quiet_step actor reduces) loaded worked.
Proof.
  assert (forall n p, pr_session p <> SBooting -> pr_events p = [] ->
            (forall k, k <= n -> pr_events (Nat.iter k (advance actor sandbox custom) p) = []) ->
            rtc (quiet_step actor reduces) p (Nat.iter n (advance actor sandbox custom) p)) as Hrun.
  { induction n as [|n IH]; intros p Hb He Hk; [constructor|]. rewrite Nat.iter_succ_r.
    destruct (decide (pr_current p = None)) as [Hc|Hc].
    - assert (advance actor sandbox custom p = p) as -> by (unfold advance; by rewrite Hc).
      apply IH; [done..|]. intros k ?. apply Hk. lia.
    - apply quiet_l with (advance actor sandbox custom p).
      + by apply advance_step.
      + apply (Hk 1). lia.
      + apply IH.
        * by rewrite (proj2 (advance_frame _ _ _ _)).
        * apply (Hk 1). lia.
        * intros k ?. rewrite <- Nat.iter_succ_r. apply Hk. lia. }
  apply Hrun; [done..|]. intros k Hk.
  do 17 (destruct k as [|k]; [reflexivity|]). lia.
Qed.
End Counter.

Lemma mailbox_is_fifo_witness :
  exists answers, pr_delivered Counter.worked =
    (fst <$> (answers : list (Message * HandlerResult))) ++ in_hand Counter.worked ++ pr_mailbox Counter.worked.
Proof.
  destruct (mailbox_is_fifo Counter.actor Counter.reduces Counter.worked) as (log & Hd & _).
  - apply quiet_process_steps. etrans; [apply Counter.started_quiet|].
    etrans; [apply Counter.loaded_quiet|apply Counter.worked_quiet].
  - by exists log.
Defined.

Lemma mailbox_is_sequential_witness :
  pr_state Counter.worked = JNumber 5 /\ length (pr_replies Counter.worked) = 4 /\
  exists before more, pr_replies Counter.worked = (fun e => (msg_ticket e.1, e.2)) <$> before ++ more /\
    sequentially Counter.actor Counter.reduces (JNumber 0) more (JNumber 5).
Proof.
  split; [reflexivity|]. split; [reflexivity|].
  destruct (mailbox_is_sequential Counter.actor Counter.reduces Counter.started Counter.worked)
    as (before & more & _ & _ & Hr & Hs).
  - apply Counter.started_quiet.
  - done.
  - etrans; [apply Counter.loaded_quiet|apply Counter.worked_quiet].
  - exists before, more. by split.
Defined.

Lemma mailbox_drains_witness :
  length (pr_replies Counter.worked) = 4 /\ pr_mailbox Counter.worked = [].
Proof.
  split; [vm_compute; reflexivity|].
  refine (proj1 (proj2 (proj2 (mailbox_drains Counter.actor Counter.reduces Counter.sandbox Counter.custom
    Counter.loaded (fun s e => eq_refl) _ _)))).
  - apply quiet_process_steps. etrans; [apply Counter.started_quiet|apply Counter.loaded_quiet].
  - discriminate.
Defined.

Lemma concurrent_events_lose_an_update_witness :
  exists q, pr_events q = [] /\ pr_state q = JNumber 2.
Proof.
  destruct (concurrent_events_lose_an_update Counter.actor Counter.reduces Counter.started
    {| ev_send := "ADD"; ev_payload := Counter.by_ 3 |} {| ev_send := "ADD"; ev_payload := Counter.by_ 2 |}
    {| ro_state := JNumber 3; ro_said := None; ro_record := None |}
    {| ro_state := JNumber 2; ro_said := None; ro_record := None |}
    eq_refl eq_refl eq_refl eq_refl) as (q & _ & He & Hs & _).
  by exists q.
Defined.

Lemma declared_methods_are_bound_witness :
  handler_of (ac_handlers Counter.actor) "add" = Some (HAdapter "ADD") /\
  handles Counter.actor "added" = true.
Proof.
  destruct (declared_methods_are_bound "u1" Counter.manifest [] Counter.add_method "ADD") as [Hh Ha].
  - repeat constructor. by apply not_elem_of_nil.
  - left.
  - reflexivity.
  - split; [exact Hh|]. apply (Ha "added(N)"). by left.
Defined.
