(* ===== verification/Planner.v ===== *)
(** * The planner

    [libs/aven-actors/src/planner.ts]: capabilities advertised by manifests,
    the join of requirements against facts ([matchRequirements]), the
    uniform-cost forward search ([solve]) with its diagnostics ([closure]), and
    the exhaustive enrichment ([planEnrichment], [planGoalThenEnrichment]).

    Costs are integers.  A collation stands for [localeCompare]. *)

From S2P Require Import Prelude Ids Term Contracts.

Open Scope stdpp_scope.

(** ** Data *)

Record Ingredient := { ig_predicate : string; ig_artifactId : option string }.

Record Capability := {
  cap_id : string;
  cap_actor : string;
  cap_method : string;
  cap_requires : list string;
  cap_produces : list string;
  cap_cost : option Z;
  cap_available : option bool;
  cap_mode : option Mode;
  cap_idempotency : option Idempotency;
  cap_parametersSchema : option json;
  cap_inputSlots : option (list CapabilitySlot);
  cap_outputSlots : option (list CapabilitySlot)
}.

Inductive Source :=
| SrcIngredient (artifactId : option string)
| SrcStep (stepId : string) (output : nat).

Record PlanValue := { pv_predicate : string; pv_source : Source }.

Record PlanStep := {
  st_id : string;
  st_capability : string;
  st_actor : string;
  st_method : string;
  st_inputs : list PlanValue;
  st_outputs : list PlanValue;
  st_dependsOn : list string;
  st_cost : Z
}.

Record AdHocProgram := {
  pg_goals : list string;
  pg_steps : list PlanStep;
  pg_totalCost : Z;
  pg_results : list PlanValue
}.

Inductive SolveResult :=
| Solved (program : AdHocProgram) (exploredStates : nat)
| Unsolved (unmetGoals : list string) (exploredStates : nat) (reason : string).

Record SolveOptions := { so_maxSteps : option nat; so_maxStates : option nat }.

Inductive EnrichmentPlanResult :=
| Enriched (program : AdHocProgram) (exploredInvocations : nat)
| EnrichmentFailed (reason : string) (exploredInvocations : nat).

Record SearchState := { ss_facts : list PlanValue; ss_steps : list PlanStep; ss_cost : Z }.

Record RequirementMatch := { rm_bindings : Bindings; rm_inputs : list PlanValue }.

Definition DEFAULT_MAX_STEPS : nat := 24.
Definition DEFAULT_MAX_STATES : nat := 2000.
Definition DEFAULT_MAX_ENRICHMENT_STEPS : nat := 512.

#[export] Instance Source_eq_dec : EqDecision Source.
Proof. solve_decision. Defined.
#[export] Instance PlanValue_eq_dec : EqDecision PlanValue.
Proof. solve_decision. Defined.

(** ** Capabilities from manifests *)

Definition methodContract (own actor : option (list string)) : list string :=
  match own with Some l => l | None => default [] actor end.

Definition capabilityFromMethod (manifest : Manifest) (method : MethodSpec) :
    result (list Capability) :=
  let requires := methodContract (ms_requires method) (mf_requires manifest) in
  let produces := methodContract (ms_produces method) (mf_produces manifest) in
  if bool_decide (produces = []) then Ok []
  else
    id ← resourceId {| rn_authority := mf_authority manifest; rn_kind := "capability";
                       rn_namespace := mf_namespace manifest +:+ "." +:+ mf_id manifest;
                       rn_name := ms_name method; rn_version := mf_version manifest |};
    actor ← resourceId {| rn_authority := mf_authority manifest; rn_kind := "actor";
                          rn_namespace := mf_namespace manifest; rn_name := mf_id manifest;
                          rn_version := mf_version manifest |};
    Ok [{| cap_id := id; cap_actor := actor; cap_method := ms_name method;
           cap_requires := requires; cap_produces := produces; cap_cost := ms_cost method;
           cap_available := None;
           cap_mode := Some (default MTransform (ms_mode method));
           cap_idempotency := Some (default INone (ms_idempotency method));
           cap_parametersSchema := Some (ms_parameters method);
           cap_inputSlots := ms_inputSlots method; cap_outputSlots := ms_outputSlots method |}].

Definition capabilitiesFromManifests (manifests : list Manifest) : result (list Capability) :=
  mjoin <$> mapM (fun manifest =>
    mjoin <$> mapM (capabilityFromMethod manifest) (mf_methods manifest)) manifests.

(** ** Matching requirements *)

Section Visit.
Context (maxAttempts maxMatches : option nat).

(** [n >= (limit ?? Infinity)] and [n > (limit ?? Infinity)]. *)
Definition at_limit (limit : option nat) (n : nat) : bool :=
  match limit with Some k => Nat.leb k n | None => false end.
Definition above_limit (limit : option nat) (n : nat) : bool :=
  match limit with Some k => Nat.ltb k n | None => false end.

(** The state is the attempts made and the matches found; [None] is the
    exception [RequirementSearchLimit]. *)
Fixpoint visit (reqs : list (string * list PlanValue)) (bindings : Bindings)
    (inputs : list PlanValue) (st : nat * list RequirementMatch) {struct reqs} :
    option (nat * list RequirementMatch) :=
  if at_limit maxMatches (length st.2) then Some st
  else
    match reqs with
    | [] => Some (st.1, st.2 ++ [{| rm_bindings := bindings; rm_inputs := inputs |}])
    | (requirement, candidates) :: reqs =>
        (fix each (candidates : list PlanValue) (st : nat * list RequirementMatch) :=
           match candidates with
           | [] => Some st
           | fact :: candidates =>
               if at_limit maxMatches (length st.2) then Some st
               else if above_limit maxAttempts (S st.1) then None
               else
                 match unify requirement (pv_predicate fact) bindings with
                 | Some next =>
                     match visit reqs next (inputs ++ [fact]) (S st.1, st.2) with
                     | Some st => each candidates st
                     | None => None
                     end
                 | None => each candidates (S st.1, st.2)
                 end
           end) candidates st
    end.
End Visit.

Definition candidates_for (facts : list PlanValue) (requirement : string) : list PlanValue :=
  let term := parseTerm requirement in
  base.filter (fun fact =>
    functor (parseTerm (pv_predicate fact)) = functor term /\
    length (args (parseTerm (pv_predicate fact))) = length (args term)) facts.

Definition matchRequirements (requirements : list string) (facts : list PlanValue)
    (maxAttempts maxMatches : option nat) : option (list RequirementMatch) :=
  if bool_decide (requirements = [])
  then Some [{| rm_bindings := ∅; rm_inputs := [] |}]
  else
    snd <$> visit maxAttempts maxMatches
      ((fun r => (r, candidates_for facts r)) <$> requirements) ∅ [] (0, []).

(** [matchRequirements(requirements, facts)] with no options, which has no limit
    to exceed. *)
Definition matchAll (requirements : list string) (facts : list PlanValue) :
    list RequirementMatch :=
  default [] (matchRequirements requirements facts None None).

Definition substitute (predicate : string) (bindings : Bindings) : string :=
  let term := parseTerm predicate in
  if includes_char "(" predicate
  then functor term +:+ "(" +:+ join ", " ((fun a => resolve a bindings) <$> args term) +:+ ")"
  else functor term.

Definition belongsToFactFamilies (predicate : string) (families : list string) : bool :=
  let name := predicate_functor predicate in
  existsb (fun family => bool_decide (name = family) || starts_with name (family +:+ ".")) families.

Definition planValueKey (value : PlanValue) : string :=
  match pv_source value with
  | SrcStep stepId output =>
      pv_predicate value +:+ String "000" "step:" +:+ stepId +:+ ":" +:+ pretty output
  | SrcIngredient artifactId =>
      pv_predicate value +:+ String "000" "ingredient:" +:+ default "" artifactId
  end.

Definition inputsKey (capability : string) (inputs : list PlanValue) : string :=
  capability +:+ String "000" "" +:+ join (String "000" "") (planValueKey <$> inputs).

Definition invocationKey (capability : Capability) (inputs : list PlanValue) : string :=
  inputsKey (cap_id capability) inputs.

Fixpoint hasCapabilityInAncestry (fuel : nat) (value : PlanValue) (capabilityId : string)
    (steps : list PlanStep) (visited : gset string) : bool * gset string :=
  match fuel with
  | 0 => (false, visited)
  | S fuel =>
      match pv_source value with
      | SrcIngredient _ => (false, visited)
      | SrcStep stepId _ =>
          if decide (stepId ∈ visited) then (false, visited)
          else
            let visited := {[stepId]} ∪ visited in
            match js_find (fun candidate => bool_decide (st_id candidate = stepId)) steps with
            | None => (false, visited)
            | Some step =>
                if bool_decide (st_capability step = capabilityId) then (true, visited)
                else
                  (fix some (inputs : list PlanValue) (visited : gset string) :=
                     match inputs with
                     | [] => (false, visited)
                     | input :: inputs =>
                         match hasCapabilityInAncestry fuel input capabilityId steps visited with
                         | (true, visited) => (true, visited)
                         | (false, visited) => some inputs visited
                         end
                     end) (st_inputs step) visited
            end
      end
  end.

Definition resolveGoals (goals : list string) (facts : list PlanValue) : option (list PlanValue) :=
  rm_inputs <$> head (matchAll goals facts).

(** ** Planning steps *)

Definition ingredientValue (ingredient : Ingredient) : PlanValue :=
  {| pv_predicate := ig_predicate ingredient;
     pv_source := SrcIngredient (truthy (ig_artifactId ingredient)) |}.

(** [`step-${n}`]. *)
Definition step_name (n : nat) : string := "step-" +:+ pretty n.

Definition step_ids (inputs : list PlanValue) : list string :=
  omap (fun input => match pv_source input with
                     | SrcStep stepId _ => Some stepId
                     | SrcIngredient _ => None
                     end) inputs.

Definition outputValues (stepId : string) (predicates : list string) : list PlanValue :=
  imap (fun output predicate =>
          {| pv_predicate := predicate; pv_source := SrcStep stepId output |}) predicates.

(** The step that invokes [capability] on a match, when [n] steps precede it. *)
Definition makeStep (n : nat) (capability : Capability) (m : RequirementMatch) : PlanStep :=
  let stepId := step_name (n + 1) in
  {| st_id := stepId;
     st_capability := cap_id capability;
     st_actor := cap_actor capability;
     st_method := cap_method capability;
     st_inputs := rm_inputs m;
     st_outputs :=
       outputValues stepId ((fun p => substitute p (rm_bindings m)) <$> cap_produces capability);
     st_dependsOn := dedup (step_ids (rm_inputs m));
     st_cost := default 1%Z (cap_cost capability) |}.

Section Collated.
Context `{Collation}.

(** ** Uniform-cost search *)

Definition stateKey (state : SearchState) : string :=
  join "|" (js_sort string_cmp (pv_predicate <$> ss_facts state)).

Definition compareStates (a b : SearchState) : Z :=
  or_else (ss_cost a - ss_cost b)%Z
    (or_else (Z.of_nat (length (ss_steps a)) - Z.of_nat (length (ss_steps b)))%Z
       (localeCompare (stateKey a) (stateKey b))).

Definition by_id (a b : Capability) : Z := localeCompare (cap_id a) (cap_id b).

Definition is_available (capability : Capability) : bool :=
  match cap_available capability with Some false => false | _ => true end.

(** The successor through one match, unless every output is already a fact. *)
Definition successor (state : SearchState) (capability : Capability) (m : RequirementMatch) :
    option SearchState :=
  let step := makeStep (length (ss_steps state)) capability m in
  let outputs := st_outputs step in
  if forallb (fun p => existsb (fun f => unifiable (pv_predicate f) (pv_predicate p))
                               (ss_facts state)) outputs
  then None
  else Some {| ss_facts := ss_facts state ++ outputs;
               ss_steps := ss_steps state ++ [step];
               ss_cost := (ss_cost state + st_cost step)%Z |}.

Definition successors (capabilities : list Capability) (state : SearchState) :
    list SearchState :=
  List.flat_map (fun capability =>
    if is_available capability
    then omap (successor state capability)
           (matchAll (cap_requires capability) (ss_facts state))
    else []) (js_sort by_id capabilities).

(** [(best.get(key) ?? Infinity) <= state.cost]. *)
Definition dominated (best : gmap string Z) (state : SearchState) : bool :=
  match best !! stateKey state with
  | Some cost => (cost <=? ss_cost state)%Z
  | None => false
  end.

(** The turns of the loop up to the next state that is explored: sort, take
    the first, skip it when it is dominated. *)
Fixpoint next_state (turns : nat) (queue : list SearchState) (best : gmap string Z) :
    option (SearchState * list SearchState) :=
  match turns with
  | 0 => None
  | S turns =>
      match js_sort compareStates queue with
      | [] => None
      | state :: queue =>
          if dominated best state then next_state turns queue best else Some (state, queue)
      end
  end.

Inductive Search :=
| Found (state : SearchState) (results : list PlanValue) (exploredStates : nat)
| Exhausted (exploredStates : nat).

(** [budget] is [maxStates - exploredStates]. *)
Fixpoint search (capabilities : list Capability) (goals : list string) (maxSteps : nat)
    (budget exploredStates : nat) (queue : list SearchState) (best : gmap string Z) : Search :=
  match budget with
  | 0 => Exhausted exploredStates
  | S budget =>
      match next_state (length queue) queue best with
      | None => Exhausted exploredStates
      | Some (state, queue) =>
          let best := <[stateKey state := ss_cost state]> best in
          match resolveGoals goals (ss_facts state) with
          | Some results => Found state results (S exploredStates)
          | None =>
              let queue := if Nat.leb maxSteps (length (ss_steps state)) then queue
                           else queue ++ successors capabilities state in
              search capabilities goals maxSteps budget (S exploredStates) queue best
          end
      end
  end.

(** ** Diagnostics *)

Definition closure_capability (facts : list PlanValue) (capability : Capability) :
    list PlanValue :=
  if is_available capability then
    match head (matchAll (cap_requires capability) facts) with
    | None => facts
    | Some m =>
        fold_left (fun facts predicate =>
          if existsb (fun fact => unifiable (pv_predicate fact) predicate) facts then facts
          else facts ++ [{| pv_predicate := predicate;
                            pv_source := SrcStep ("closure-" +:+ cap_id capability) 0 |}])
          ((fun p => substitute p (rm_bindings m)) <$> cap_produces capability) facts
    end
  else facts.

(** One pass changes the facts only by adding to them. *)
Fixpoint closure (capabilities : list Capability) (facts : list PlanValue) (maxSteps : nat) :
    list PlanValue :=
  match maxSteps with
  | 0 => facts
  | S maxSteps =>
      let facts' := fold_left closure_capability capabilities facts in
      if Nat.eqb (length facts') (length facts) then facts'
      else closure capabilities facts' maxSteps
  end.

Definition solve (capabilities : list Capability) (ingredients : list Ingredient)
    (goals : list string) (options : SolveOptions) : SolveResult :=
  let maxSteps := default DEFAULT_MAX_STEPS (so_maxSteps options) in
  let maxStates := default DEFAULT_MAX_STATES (so_maxStates options) in
  let start := {| ss_facts := ingredientValue <$> ingredients; ss_steps := []; ss_cost := 0%Z |} in
  match search capabilities goals maxSteps maxStates 0 [start] ∅ with
  | Found state results exploredStates =>
      Solved {| pg_goals := goals; pg_steps := ss_steps state; pg_totalCost := ss_cost state;
                pg_results := results |} exploredStates
  | Exhausted exploredStates =>
      let reachable := closure capabilities (ss_facts start) maxSteps in
      let unmetGoals :=
        base.filter (fun goal =>
          negb (existsb (fun fact => unifiable goal (pv_predicate fact)) reachable)) goals in
      Unsolved unmetGoals exploredStates
        (if Nat.leb maxStates exploredStates
         then "search limit reached after " +:+ pretty maxStates +:+ " states"
         else "no program produces: " +:+ join ", " unmetGoals)
  end.

(** ** Enrichment *)

Record Enrichment := {
  en_steps : list PlanStep;
  en_invoked : gset string;
  en_facts : list PlanValue
}.

(** What a turn of the loops does to the state, or the limit it stops at. *)
Inductive Outcome :=
| Continue (state : Enrichment) (changed : bool)
| LimitReached (invoked : nat).

Definition enrich_match (maxSteps : nat) (capability : Capability) (m : RequirementMatch)
    (state : Enrichment) (changed : bool) : Outcome :=
  if existsb (fun input =>
       fst (hasCapabilityInAncestry (S (length (en_steps state))) input (cap_id capability)
              (en_steps state) ∅)) (rm_inputs m)
  then Continue state changed
  else
    let invocation := invocationKey capability (rm_inputs m) in
    if decide (invocation ∈ en_invoked state) then Continue state changed
    else if Nat.leb maxSteps (length (en_steps state))
    then LimitReached (size (en_invoked state))
    else
      let step := makeStep (length (en_steps state)) capability m in
      Continue {| en_steps := en_steps state ++ [step];
                  en_invoked := {[invocation]} ∪ en_invoked state;
                  en_facts := en_facts state ++ st_outputs step |} true.

Fixpoint enrich_matches (maxSteps : nat) (capability : Capability)
    (matches : list RequirementMatch) (state : Enrichment) (changed : bool) : Outcome :=
  match matches with
  | [] => Continue state changed
  | m :: matches =>
      match enrich_match maxSteps capability m state changed with
      | Continue state changed => enrich_matches maxSteps capability matches state changed
      | stop => stop
      end
  end.

Fixpoint enrich_pass (maxSteps : nat) (eligible : list Capability) (state : Enrichment)
    (changed : bool) : Outcome :=
  match eligible with
  | [] => Continue state changed
  | capability :: eligible =>
      match enrich_matches maxSteps capability
              (matchAll (cap_requires capability) (en_facts state)) state changed with
      | Continue state changed => enrich_pass maxSteps eligible state changed
      | stop => stop
      end
  end.

(** [for (;;)]: a pass that changes something adds a step, so [maxSteps + 1]
    passes are enough; [None] would be a loop still running. *)
Fixpoint enrich_loop (passes : nat) (maxSteps : nat) (eligible : list Capability)
    (state : Enrichment) : option Outcome :=
  match passes with
  | 0 => None
  | S passes =>
      match enrich_pass maxSteps eligible state false with
      | Continue state true => enrich_loop passes maxSteps eligible state
      | outcome => Some outcome
      end
  end.

Definition is_eligible (factFamilies : list string) (capability : Capability) : bool :=
  is_available capability &&
  match cap_mode capability with
  | None | Some MObserve | Some MTransform => true
  | _ => false
  end &&
  existsb (fun predicate => belongsToFactFamilies predicate factFamilies)
    (cap_produces capability).

Definition total_cost (steps : list PlanStep) : Z :=
  fold_left (fun total step => (total + st_cost step)%Z) steps 0%Z.

Definition expandEnrichment (capabilities : list Capability) (facts : list PlanValue)
    (initialSteps : list PlanStep) (factFamilies : list string) (max_steps : option nat)
    (goals : list string) : option EnrichmentPlanResult :=
  let maxSteps := default DEFAULT_MAX_ENRICHMENT_STEPS max_steps in
  let start := {| en_steps := initialSteps;
                  en_invoked := list_to_set
                    ((fun step => inputsKey (st_capability step) (st_inputs step)) <$> initialSteps);
                  en_facts := facts |} in
  let eligible := js_sort by_id (base.filter (is_eligible factFamilies) capabilities) in
  match enrich_loop (S maxSteps) maxSteps eligible start with
  | None => None
  | Some (LimitReached invoked) =>
      Some (EnrichmentFailed
              ("enrichment safety limit reached after " +:+ pretty maxSteps +:+ " steps") invoked)
  | Some (Continue state _) =>
      Some (Enriched {| pg_goals := goals; pg_steps := en_steps state;
                        pg_totalCost := total_cost (en_steps state);
                        pg_results := en_facts state |} (size (en_invoked state)))
  end.

Definition planEnrichment (capabilities : list Capability) (ingredients : list Ingredient)
    (factFamilies : list string) (max_steps : option nat) : option EnrichmentPlanResult :=
  expandEnrichment capabilities (ingredientValue <$> ingredients) [] factFamilies max_steps [].

(** The result carries the states the directed search explored. *)
Definition planGoalThenEnrichment (capabilities : list Capability)
    (ingredients : list Ingredient) (goals : list string) (factFamilies : list string)
    (options : SolveOptions) : option (EnrichmentPlanResult * nat) :=
  match solve capabilities ingredients goals options with
  | Unsolved _ exploredStates reason => Some (EnrichmentFailed reason 0, exploredStates)
  | Solved exact exploredStates =>
      let facts := (ingredientValue <$> ingredients) ++
                   List.flat_map st_outputs (pg_steps exact) in
      (fun enriched => (enriched, exploredStates)) <$>
        expandEnrichment capabilities facts (pg_steps exact) factFamilies
          (so_maxSteps options) goals
  end.
End Collated.

(** ** Sample data *)

(** Two capabilities in a row: [b] needs what [a] publishes. *)
Definition sample_capability (id : string) (requires produces : list string) (cost : Z) :
    Capability :=
  {| cap_id := id; cap_actor := "actor"; cap_method := "run"; cap_requires := requires;
     cap_produces := produces; cap_cost := Some cost; cap_available := None; cap_mode := None;
     cap_idempotency := None; cap_parametersSchema := None; cap_inputSlots := None;
     cap_outputSlots := None |}.

Definition sample_capabilities : list Capability :=
  [sample_capability "b" ["text(D)"] ["fields(D)"] 2;
   sample_capability "a" ["file(D)"] ["text(D)"] 1].

Definition sample_ingredients : list Ingredient :=
  [{| ig_predicate := "file(doc)"; ig_artifactId := Some "artifact-1" |}].
