(* ===== verification/PlannerMatch.v ===== *)
(** * Theory of requirement matching

    [matchRequirements] is the list of all ways to pair every requirement with a
    fact under one substitution, in lexicographic order; limits only cut that
    list short.  [substitute] instantiates a predicate. *)

From S2P Require Import Prelude Ids Term Contracts Planner.

Open Scope stdpp_scope.

(** ** The reference: a comprehension over the facts *)

Fixpoint all_matches (reqs : list string) (facts : list PlanValue) (σ : Bindings)
    (inputs : list PlanValue) : list RequirementMatch :=
  match reqs with
  | [] => [{| rm_bindings := σ; rm_inputs := inputs |}]
  | requirement :: reqs =>
      List.flat_map (fun fact =>
        match unify requirement (pv_predicate fact) σ with
        | Some τ => all_matches reqs facts τ (inputs ++ [fact])
        | None => []
        end) facts
  end.

(** What [maxMatches] leaves of a list. *)
Definition limited {A} (limit : option nat) (l : list A) : list A :=
  match limit with Some k => take k l | None => l end.

Lemma at_limit_limited {A} limit (l k : list A) :
  at_limit limit (length l) = true -> limited limit l = l -> limited limit (l ++ k) = l.
Proof.
  destruct limit as [n|]; cbn; [|discriminate]. intros Hn%Nat.leb_le Hl.
  assert (length l = n) as <-.
  { assert (length (take n l) = length l) as Hlen by congruence.
    rewrite length_take in Hlen. lia. }
  by rewrite take_app_length.
Qed.

Lemma limited_snoc {A} limit (l : list A) x :
  at_limit limit (length l) = false -> limited limit (l ++ [x]) = l ++ [x].
Proof.
  destruct limit as [n|]; cbn; [|done]. intros Hn%Nat.leb_gt.
  apply take_ge. rewrite length_app. cbn. lia.
Qed.

Lemma limited_id {A} limit (l k : list A) :
  limited limit (l ++ k) = l ++ k -> limited limit l = l.
Proof.
  destruct limit as [n|]; cbn; [|done]. intros H. apply take_ge.
  assert (length (take n (l ++ k)) = length (l ++ k)) as Hl by congruence.
  rewrite length_take, length_app in Hl. lia.
Qed.

Lemma limited_idemp {A} limit (l k : list A) :
  limited limit (limited limit l ++ k) = limited limit (l ++ k).
Proof.
  destruct limit as [n|]; cbn; [|done]. rewrite !take_app, take_take, length_take.
  f_equal; f_equal; lia.
Qed.

Lemma limited_limited {A} limit (l : list A) : limited limit (limited limit l) = limited limit l.
Proof. destruct limit as [n|]; cbn; [|done]. rewrite take_take. f_equal. lia. Qed.

Lemma flat_map_cons {A B} (f : A -> list B) x l : List.flat_map f (x :: l) = f x ++ List.flat_map f l.
Proof. done. Qed.

(** Facts of another name or arity cannot match. *)
Lemma flat_map_candidates {B} requirement facts σ (k : Bindings -> PlanValue -> list B) :
  List.flat_map (fun fact => match unify requirement (pv_predicate fact) σ with
                             | Some τ => k τ fact | None => [] end)
                (candidates_for facts requirement) =
  List.flat_map (fun fact => match unify requirement (pv_predicate fact) σ with
                             | Some τ => k τ fact | None => [] end) facts.
Proof.
  induction facts as [|fact facts IH]; [done|]. unfold candidates_for in *.
  rewrite filter_cons. case_decide as Hc; cbn [List.flat_map]; rewrite IH; [done|].
  rewrite unify_unfold, decide_False; [done|]. intros [? ?]. by apply Hc.
Qed.

Section VisitTheory.
Context (maxMatches : option nat) (facts : list PlanValue).

Let pairs (reqs : list string) := (fun r => (r, candidates_for facts r)) <$> reqs.

Lemma visit_all reqs σ inputs attempts found :
  limited maxMatches found = found ->
  exists attempts', visit None maxMatches (pairs reqs) σ inputs (attempts, found) =
    Some (attempts', limited maxMatches (found ++ all_matches reqs facts σ inputs)).
Proof.
  revert σ inputs attempts found. induction reqs as [|r reqs IH];
    intros σ inputs attempts found Hf;
    [|change (pairs (r :: reqs)) with ((r, candidates_for facts r) :: pairs reqs)];
    cbn [visit fst snd].
  - change (pairs []) with (@nil (string * list PlanValue)). cbn [visit fst snd]. destruct (at_limit maxMatches (length found)) eqn:E.
    + exists attempts. by rewrite at_limit_limited.
    + exists attempts. cbn. by rewrite limited_snoc.
  - destruct (at_limit maxMatches (length found)) eqn:E.
    { exists attempts. by rewrite at_limit_limited. }
    cbn [all_matches]. rewrite <- flat_map_candidates. clear E.
    generalize (candidates_for facts r). intros cands. revert attempts found Hf.
    induction cands as [|fact cands IHc]; intros attempts found Hf.
    { exists attempts. cbn. by rewrite app_nil_r, Hf. }
    cbn [fst snd]. destruct (at_limit maxMatches (length found)) eqn:E.
    { exists attempts. by rewrite at_limit_limited. }
    rewrite flat_map_cons. cbn [above_limit].
    destruct (unify r (pv_predicate fact) σ) as [τ|] eqn:Eu; [|by apply IHc].
    destruct (IH τ (inputs ++ [fact]) (S attempts) found Hf) as (a' & ->).
    destruct (IHc a' (limited maxMatches (found ++ all_matches reqs facts τ (inputs ++ [fact]))))
      as (a'' & E''); [by rewrite limited_limited|].
    exists a''. rewrite limited_idemp, <- app_assoc in E''. exact E''.
Qed.

(** A limit on attempts gives up or changes nothing. *)
Lemma visit_attempts limit reqs σ inputs st st' :
  visit limit maxMatches (pairs reqs) σ inputs st = Some st' ->
  visit None maxMatches (pairs reqs) σ inputs st = Some st'.
Proof.
  revert σ inputs st st'. induction reqs as [|r reqs IH]; intros σ inputs st st'; [done|].
  change (pairs (r :: reqs)) with ((r, candidates_for facts r) :: pairs reqs). cbn [visit].
  destruct (at_limit maxMatches (length st.2)); [done|].
  generalize (candidates_for facts r). intros cands. revert st st'.
  induction cands as [|fact cands IHc]; intros st st'; [done|].
  destruct (at_limit maxMatches (length st.2)); [done|].
  destruct (above_limit limit (S st.1)); [discriminate|]. cbn [above_limit].
  destruct (unify r (pv_predicate fact) σ) as [τ|]; [|apply IHc].
  destruct (visit limit maxMatches _ τ _ _) as [st1|] eqn:E; [|discriminate].
  rewrite (IH _ _ _ _ E). apply IHc.
Qed.
End VisitTheory.

Lemma matchRequirements_all reqs facts maxMatches :
  reqs <> [] ->
  matchRequirements reqs facts None maxMatches =
    Some (limited maxMatches (all_matches reqs facts ∅ [])).
Proof.
  intros Hne. unfold matchRequirements. rewrite bool_decide_false by done.
  destruct (visit_all maxMatches facts reqs ∅ [] 0 []) as (a & ->); [|done].
  by destruct maxMatches as [[]|].
Qed.

Lemma matchAll_all reqs facts : matchAll reqs facts = all_matches reqs facts ∅ [].
Proof.
  unfold matchAll. destruct (decide (reqs = [])) as [->|Hne].
  - unfold matchRequirements. by rewrite bool_decide_true.
  - by rewrite matchRequirements_all.
Qed.

(** ** What a match is *)

Fixpoint unify_all (reqs : list string) (inputs : list PlanValue) (σ : Bindings) :
    option Bindings :=
  match reqs, inputs with
  | [], [] => Some σ
  | r :: reqs, fact :: inputs => unify r (pv_predicate fact) σ ≫= unify_all reqs inputs
  | _, _ => None
  end.

Lemma elem_of_all_matches reqs facts σ inputs m :
  m ∈ all_matches reqs facts σ inputs <->
  exists used, Forall (fun f => f ∈ facts) used /\
    unify_all reqs used σ = Some (rm_bindings m) /\ rm_inputs m = inputs ++ used.
Proof.
  revert σ inputs. induction reqs as [|r reqs IH]; intros σ inputs; cbn [all_matches].
  - rewrite list_elem_of_singleton. split.
    + intros ->. exists []. by rewrite app_nil_r.
    + intros ([|f used] & _ & H & Hi); [|discriminate]. injection H as Hs.
      rewrite app_nil_r in Hi. destruct m; cbn in *; by subst.
  - rewrite elem_of_flat_map. split.
    + intros (fact & Hf & H). destruct (unify r (pv_predicate fact) σ) as [τ|] eqn:E;
        [|by apply not_elem_of_nil in H].
      apply IH in H as (used & Hu & Hall & Hi). exists (fact :: used).
      split; [by constructor|]. cbn. rewrite E. cbn. split; [done|].
      rewrite Hi, <- app_assoc. done.
    + intros ([|fact used] & Hu & Hall & Hi); [discriminate|]. apply Forall_cons in Hu as [Hf Hu].
      cbn in Hall. exists fact. split; [done|].
      destruct (unify r (pv_predicate fact) σ) as [τ|]; [|discriminate]. apply IH.
      exists used. rewrite <- app_assoc. done.
Qed.

Lemma elem_of_matchAll reqs facts m :
  m ∈ matchAll reqs facts <->
  Forall (fun f => f ∈ facts) (rm_inputs m) /\
  unify_all reqs (rm_inputs m) ∅ = Some (rm_bindings m).
Proof.
  rewrite matchAll_all, elem_of_all_matches. cbn. split.
  - intros (used & ? & ? & ->). done.
  - intros [? ?]. eauto.
Qed.

Lemma unify_all_length reqs inputs σ τ :
  unify_all reqs inputs σ = Some τ -> length inputs = length reqs.
Proof.
  revert inputs σ. induction reqs as [|r reqs IH]; intros [|f inputs] σ; cbn; try done.
  destruct (unify r (pv_predicate f) σ); cbn; [|discriminate]. intros ?%IH. by f_equal.
Qed.

(** One substitution unifies every requirement with its input. *)
Lemma unify_all_unifies reqs inputs σ τ :
  acyclic σ -> unify_all reqs inputs σ = Some τ ->
  acyclic τ /\ σ ⊆ τ /\
  forall θ, valuation θ -> satisfies θ τ ->
    satisfies θ σ /\ Forall2 (fun r f => unifier θ r (pv_predicate f)) reqs inputs.
Proof.
  revert inputs σ. induction reqs as [|r reqs IH]; intros [|f inputs] σ Hac; cbn; try done.
  { intros [= <-]. repeat split; auto. }
  destruct (unify r (pv_predicate f) σ) as [ρ|] eqn:E; cbn; [|discriminate]. intros H.
  destruct (unify_mgu _ _ _ _ Hac E) as (Hacρ & Hsubρ & Hρ).
  destruct (IH _ _ Hacρ H) as (Hacτ & Hsubτ & Hτ).
  split; [done|]. split; [by etrans|]. intros θ Hv Hs.
  destruct (Hτ θ Hv Hs) as [Hsρ Hall]. apply Hρ in Hsρ as [? ?]; [|done].
  split; [done|]. by constructor.
Qed.

Lemma matchAll_unifies reqs facts m :
  m ∈ matchAll reqs facts ->
  acyclic (rm_bindings m) /\
  Forall2 (fun r f => f ∈ facts /\
             unifier (fun v => resolve v (rm_bindings m)) r (pv_predicate f)) reqs (rm_inputs m).
Proof.
  intros [Hf Hu]%elem_of_matchAll.
  destruct (unify_all_unifies _ _ _ _ acyclic_empty Hu) as (Hac & _ & H). split; [done|].
  destruct (H (fun v => resolve v (rm_bindings m))) as [_ Hall];
    [apply resolve_valuation|by apply resolve_satisfies|].
  clear Hu H. revert Hf. induction Hall as [|r f reqs inputs Hu Hall IH]; intros Hf; [constructor|].
  apply Forall_cons in Hf as [? ?]. constructor; auto.
Qed.

(** Matches only depend on which terms are facts. *)
Definition fact_term (f : PlanValue) : Term := parseTerm (pv_predicate f).

Lemma unify_all_same reqs inputs inputs' σ :
  Forall2 (fun f f' => fact_term f = fact_term f') inputs inputs' ->
  unify_all reqs inputs σ = unify_all reqs inputs' σ.
Proof.
  intros H. revert reqs σ. induction H as [|f f' inputs inputs' E H IH]; intros [|r reqs] σ; cbn;
    try done.
  assert (unify r (pv_predicate f) σ = unify r (pv_predicate f') σ) as ->
    by (unfold fact_term in E; unfold unify; by rewrite E).
  destruct (unify r (pv_predicate f') σ); cbn; [apply IH|done].
Qed.

Lemma matchAll_terms reqs facts facts' m :
  (forall t, t ∈ fact_term <$> facts -> t ∈ fact_term <$> facts') -> m ∈ matchAll reqs facts ->
  exists m', m' ∈ matchAll reqs facts' /\ rm_bindings m' = rm_bindings m.
Proof.
  intros Hs [Hf Hu]%elem_of_matchAll.
  assert (exists inputs', Forall (fun f => f ∈ facts') inputs' /\
    Forall2 (fun f f' => fact_term f = fact_term f') (rm_inputs m) inputs')
    as (inputs' & Hf' & Hsame).
  { clear Hu. induction (rm_inputs m) as [|f inputs IH]; [exists []; by constructor|].
    apply Forall_cons in Hf as [Hf Hfs]. destruct (IH Hfs) as (inputs' & ? & ?).
    assert (fact_term f ∈ fact_term <$> facts') as Hin by (by apply Hs, list_elem_of_fmap_2).
    apply list_elem_of_fmap in Hin as (f' & ? & ?). exists (f' :: inputs'). by split; constructor. }
  exists {| rm_bindings := rm_bindings m; rm_inputs := inputs' |}. split; [|done].
  apply elem_of_matchAll. cbn. split; [done|]. by rewrite <- (unify_all_same _ _ _ _ Hsame).
Qed.

Definition same_predicates (facts facts' : list PlanValue) : Prop :=
  forall p, p ∈ pv_predicate <$> facts <-> p ∈ pv_predicate <$> facts'.

Lemma matchAll_same reqs facts facts' m :
  same_predicates facts facts' -> m ∈ matchAll reqs facts ->
  exists m', m' ∈ matchAll reqs facts' /\ rm_bindings m' = rm_bindings m.
Proof.
  intros Hs. apply matchAll_terms. intros t (f & -> & Hf)%list_elem_of_fmap.
  assert (pv_predicate f ∈ pv_predicate <$> facts') as (f' & E & Hf')%list_elem_of_fmap
    by (by apply Hs, list_elem_of_fmap_2).
  apply list_elem_of_fmap. exists f'. unfold fact_term. by rewrite E.
Qed.

(** A predicate without variables. *)
Definition ground (p : string) : Prop := Forall (fun a => isVariable a = false) (args (parseTerm p)).

#[export] Instance ground_dec p : Decision (ground p).
Proof. unfold ground. apply _. Defined.

Lemma ground_unifiable p q : ground p -> ground q -> unifiable p q = true -> parseTerm p = parseTerm q.
Proof.
  unfold ground. intros Hp Hq (θ & Hv & [Hf _] & Ha)%unifiable_spec.
  destruct (parseTerm p) as [f l], (parseTerm q) as [g k]. cbn in *. subst. f_equal.
  induction Ha as [|x y l k [->|[->|E]] _ IH]; [done|..]; apply Forall_cons in Hp as [Hx Hp], Hq as [Hy Hq];
    [done..|].
  rewrite (Hv x), (Hv y) in E by done. subst. f_equal. by apply IH.
Qed.

(** ** The join is complete *)

Lemma unify_all_complete reqs inputs σ θ :
  acyclic σ -> valuation θ -> satisfies θ σ ->
  Forall2 (fun r f => unifier θ r (pv_predicate f)) reqs inputs ->
  is_Some (unify_all reqs inputs σ).
Proof.
  intros Hac Hv Hs Hall. revert σ Hac Hs.
  induction Hall as [|r f reqs inputs Hu Hall IH]; intros σ Hac Hs; cbn; [eauto|].
  destruct (unify_complete r (pv_predicate f) σ θ Hac Hv Hs Hu) as [τ Hτ]. rewrite Hτ. cbn.
  destruct (unify_mgu _ _ _ _ Hac Hτ) as (? & _ & Hθ). apply IH; [done|]. by apply Hθ.
Qed.

(** [matchRequirements] without limits is a complete join: a list of values
    is the input list of some match exactly when its values are facts, one per
    requirement, and one assignment of the variables makes every requirement
    agree with its value. *)
Theorem matchRequirements_complete_join (reqs : list string) (facts inputs : list PlanValue) :
  (exists m, m ∈ matchAll reqs facts /\ rm_inputs m = inputs) <->
  (exists θ, valuation θ /\
     Forall2 (fun r f => f ∈ facts /\ unifier θ r (pv_predicate f)) reqs inputs).
Proof.
  split.
  - intros (m & Hm & <-). exists (fun v => resolve v (rm_bindings m)).
    split; [apply resolve_valuation|]. by apply matchAll_unifies.
  - intros (θ & Hv & Hall). destruct (unify_all_complete reqs inputs ∅ θ) as [τ Hτ];
      [apply acyclic_empty|done|apply satisfies_empty|by eapply Forall2_impl; [exact Hall|naive_solver]|].
    exists {| rm_bindings := τ; rm_inputs := inputs |}. split; [|done].
    apply elem_of_matchAll. cbn. split; [|done].
    clear -Hall. induction Hall as [|r f reqs inputs [? ?] _ ?]; by constructor.
Qed.

(** The limits of [matchRequirements] never change an answer.  A limit on
    matches keeps the first ones of the complete join; a limit on attempts
    either throws or is not noticed, and without one nothing is thrown. *)
Theorem matchRequirements_limits (reqs : list string) (facts : list PlanValue)
    (maxAttempts maxMatches : option nat) :
  reqs <> [] ->
  match matchRequirements reqs facts maxAttempts maxMatches with
  | Some matches => matches = limited maxMatches (matchAll reqs facts)
  | None => maxAttempts <> None
  end.
Proof.
  intros Hne. pose proof (matchRequirements_all reqs facts maxMatches Hne) as Hall.
  rewrite <- matchAll_all in Hall. destruct maxAttempts as [k|]; [|by rewrite Hall].
  unfold matchRequirements in *. rewrite bool_decide_false in * by done.
  destruct (visit (Some k) _ _ _ _ _) as [st|] eqn:E; cbn; [|done].
  apply visit_attempts in E. rewrite E in Hall. by injection Hall.
Qed.

Lemma matchRequirements_limits_witness :
  let facts := [{| pv_predicate := "parent(a, b)"; pv_source := SrcIngredient None |};
                {| pv_predicate := "parent(b, c)"; pv_source := SrcIngredient None |}] in
  match matchRequirements ["parent(X, Y)"; "parent(Y, Z)"] facts (Some 9) (Some 1) with
  | Some matches =>
      matches = limited (Some 1) (matchAll ["parent(X, Y)"; "parent(Y, Z)"] facts)
  | None => Some 9 <> None
  end.
Proof.
  intros facts.
  exact (matchRequirements_limits ["parent(X, Y)"; "parent(Y, Z)"] facts (Some 9) (Some 1)
           ltac:(discriminate)).
Defined.
