(* ===== verification/PlannerSearch.v ===== *)
(** * Theory of the planner's search

    Every program [solve] returns is executable from left to right and reaches
    its goals; the search is bounded; and with costs of at least one, the
    returned program is the cheapest the search space holds. *)

From S2P Require Import Prelude Ids Term Contracts Planner PlannerMatch.

Open Scope stdpp_scope.

(** ** Executable programs *)

Definition facts_before (facts : list PlanValue) (steps : list PlanStep) : list PlanValue :=
  facts ++ List.flat_map st_outputs steps.

(** Step number [i] invokes an available capability on facts that are given or
    were published by the steps before it. *)
Definition valid_step (caps : list Capability) (facts : list PlanValue) (steps : list PlanStep)
    (i : nat) (step : PlanStep) : Prop :=
  exists c m, c ∈ caps /\ is_available c = true /\
    m ∈ matchAll (cap_requires c) (facts_before facts (take i steps)) /\ step = makeStep i c m.

Definition valid_steps (caps : list Capability) (facts : list PlanValue) (steps : list PlanStep) :=
  forall i step, steps !! i = Some step -> valid_step caps facts steps i step.

Record valid_program (caps : list Capability) (facts : list PlanValue) (goals : list string)
    (program : AdHocProgram) : Prop := {
  vp_goals : pg_goals program = goals;
  vp_steps : valid_steps caps facts (pg_steps program);
  vp_cost : pg_totalCost program = total_cost (pg_steps program);
  vp_results : resolveGoals goals (facts_before facts (pg_steps program))
               = Some (pg_results program)
}.

Lemma total_cost_snoc steps step :
  total_cost (steps ++ [step]) = (total_cost steps + st_cost step)%Z.
Proof. unfold total_cost. by rewrite fold_left_app. Qed.

Lemma facts_before_snoc facts steps step :
  facts_before facts (steps ++ [step]) = facts_before facts steps ++ st_outputs step.
Proof.
  unfold facts_before. rewrite List.flat_map_app, app_assoc. cbn. by rewrite app_nil_r.
Qed.

Lemma valid_steps_snoc caps facts steps step :
  valid_steps caps facts steps -> valid_step caps facts steps (length steps) step ->
  valid_steps caps facts (steps ++ [step]).
Proof.
  intros Hs Hstep i st Hi. apply lookup_snoc_Some in Hi as [[Hlt Hi]|[-> ->]].
  - destruct (Hs i st Hi) as (c & m & ? & ? & Hm & ?). exists c, m.
    rewrite take_app_le by lia. done.
  - destruct Hstep as (c & m & ? & ? & Hm & ?). exists c, m.
    rewrite take_app_length. rewrite firstn_all in Hm. done.
Qed.

Lemma valid_steps_prefix caps facts steps step :
  valid_steps caps facts (steps ++ [step]) ->
  valid_steps caps facts steps /\ valid_step caps facts steps (length steps) step.
Proof.
  intros Hs. split.
  - intros i st Hi. assert (i < length steps) by by apply lookup_lt_Some in Hi.
    destruct (Hs i st) as (c & m & ? & ? & Hm & ?); [by rewrite lookup_app_l|].
    exists c, m. rewrite take_app_le in Hm by lia. done.
  - destruct (Hs (length steps) step) as (c & m & ? & ? & Hm & ?); [by apply list_lookup_middle|].
    exists c, m. rewrite take_app_length in Hm. by rewrite firstn_all.
Qed.

(** ** The states of the search *)

(** What every state of the search is: the steps of a valid program, their
    facts and their cost. *)
Record state_ok (caps : list Capability) (facts : list PlanValue) (maxSteps : nat)
    (s : SearchState) : Prop := {
  so_steps : valid_steps caps facts (ss_steps s);
  so_facts : ss_facts s = facts_before facts (ss_steps s);
  so_cost : ss_cost s = total_cost (ss_steps s);
  so_bound : length (ss_steps s) <= maxSteps
}.

Lemma successor_Some s c m s' :
  successor s c m = Some s' ->
  let step := makeStep (length (ss_steps s)) c m in
  s' = {| ss_facts := ss_facts s ++ st_outputs step; ss_steps := ss_steps s ++ [step];
          ss_cost := (ss_cost s + st_cost step)%Z |}.
Proof. unfold successor. case_match; [discriminate|]. by intros [= <-]. Qed.

Section Theory.
Context `{Collation}.
Implicit Types (caps : list Capability) (queue : list SearchState).

Lemma elem_of_successors caps s s' :
  s' ∈ successors caps s <->
  exists c m, c ∈ caps /\ is_available c = true /\
    m ∈ matchAll (cap_requires c) (ss_facts s) /\ successor s c m = Some s'.
Proof.
  unfold successors. rewrite elem_of_flat_map. setoid_rewrite elem_of_js_sort. split.
  - intros (c & Hc & Hin). destruct (is_available c) eqn:E; [|by apply not_elem_of_nil in Hin].
    apply list_elem_of_omap in Hin as (m & ? & ?). eauto 10.
  - intros (c & m & Hc & E & Hm & Hs). exists c. split; [done|]. rewrite E.
    apply list_elem_of_omap. eauto.
Qed.

Lemma state_ok_successor caps facts maxSteps s s' :
  state_ok caps facts maxSteps s -> length (ss_steps s) < maxSteps ->
  s' ∈ successors caps s -> state_ok caps facts maxSteps s'.
Proof.
  intros [Hs Hf Hc Hb] Hlt (c & m & ? & ? & Hm & ->%successor_Some)%elem_of_successors.
  split; cbn [ss_steps ss_facts ss_cost].
  - apply valid_steps_snoc; [done|]. exists c, m. rewrite firstn_all, <- Hf. done.
  - by rewrite facts_before_snoc, Hf.
  - by rewrite total_cost_snoc, Hc.
  - rewrite length_app. cbn. lia.
Qed.

(** ** The queue *)

Lemma next_state_Some turns queue best s rest :
  next_state turns queue best = Some (s, rest) ->
  dominated best s = false /\ s ∈ queue /\
  (forall q, q ∈ rest -> q ∈ queue) /\
  (forall q, q ∈ queue -> q = s \/ q ∈ rest \/ dominated best q = true).
Proof.
  revert queue. induction turns as [|turns IH]; intros queue; cbn; [discriminate|].
  destruct (js_sort compareStates queue) as [|q l] eqn:E; [discriminate|].
  assert (forall x, x ∈ queue <-> x = q \/ x ∈ l) as Hq.
  { intros x. rewrite <- (elem_of_js_sort compareStates x queue), E, elem_of_cons. done. }
  destruct (dominated best q) eqn:D.
  - intros (Hd & Hin & Hsub & Hall)%IH. split; [done|]. setoid_rewrite Hq.
    split; [auto|]. split; [auto|]. intros x [->|Hx]; [auto|]. destruct (Hall x Hx); auto.
  - intros [= -> ->]. split; [done|]. setoid_rewrite Hq. naive_solver.
Qed.

Lemma next_state_None turns queue best :
  length queue <= turns -> next_state turns queue best = None ->
  forall q, q ∈ queue -> dominated best q = true.
Proof.
  revert queue. induction turns as [|turns IH]; intros queue Hlen.
  { destruct queue; [|cbn in Hlen; lia]. intros _ q Hq. by apply not_elem_of_nil in Hq. }
  cbn. pose proof (elem_of_js_sort compareStates) as Hs.
  pose proof (length_js_sort compareStates queue) as Hl.
  destruct (js_sort compareStates queue) as [|q l] eqn:E.
  { intros _ x Hx. apply (Hs x queue) in Hx. rewrite E in Hx. by apply not_elem_of_nil in Hx. }
  destruct (dominated best q) eqn:D; [|discriminate].
  intros Hn x Hx. apply (Hs x queue) in Hx. rewrite E in Hx.
  apply elem_of_cons in Hx as [->|Hx]; [done|]. apply (IH l); [cbn in *; lia|done..].
Qed.

(** What holds of the start and of successors holds of the state found. *)
Lemma search_invariant (P : SearchState -> Prop) caps goals maxSteps :
  (forall s s', P s -> length (ss_steps s) < maxSteps -> s' ∈ successors caps s -> P s') ->
  forall budget explored queue best,
  Forall P queue ->
  match search caps goals maxSteps budget explored queue best with
  | Found s results n =>
      P s /\ resolveGoals goals (ss_facts s) = Some results /\ n <= explored + budget
  | Exhausted n => n <= explored + budget
  end.
Proof.
  intros Hstep. induction budget as [|budget IH]; intros explored queue best Hq; cbn; [lia|].
  destruct (next_state _ queue best) as [[s rest]|] eqn:E; [|lia].
  apply next_state_Some in E as (_ & Hin & Hsub & _).
  rewrite Forall_forall in Hq.
  destruct (resolveGoals goals (ss_facts s)) as [results|] eqn:Er; [auto with lia|].
  match goal with |- context [search _ _ _ _ _ ?q ?b] =>
    specialize (IH (S explored) q b); destruct (search _ _ _ _ _ q b) as [s' r n|n] eqn:Es
  end.
  - destruct IH as (? & ? & ?); [|auto with lia].
    case_match; [|apply Forall_app; split]; apply Forall_forall; auto.
    intros x Hx. eapply Hstep; [by apply Hq| |exact Hx]. by apply Nat.leb_gt.
  - enough (n <= S explored + budget) by lia. apply IH.
    case_match; [|apply Forall_app; split]; apply Forall_forall; auto.
    intros x Hx. eapply Hstep; [by apply Hq| |exact Hx]. by apply Nat.leb_gt.
Qed.

Lemma search_start_ok caps facts maxSteps :
  state_ok caps facts maxSteps {| ss_facts := facts; ss_steps := []; ss_cost := 0 |}.
Proof.
  split; cbn; [intros i step Hi; by rewrite lookup_nil in Hi| |done|lia].
  unfold facts_before. cbn. by rewrite app_nil_r.
Qed.

Lemma search_sound caps goals maxSteps budget facts :
  match search caps goals maxSteps budget 0
          [{| ss_facts := facts; ss_steps := []; ss_cost := 0 |}] ∅ with
  | Found s results n =>
      state_ok caps facts maxSteps s /\
      resolveGoals goals (ss_facts s) = Some results /\ n <= budget
  | Exhausted n => n <= budget
  end.
Proof.
  apply (search_invariant (state_ok caps facts maxSteps)).
  - apply state_ok_successor.
  - constructor; [apply search_start_ok|constructor].
Qed.
End Theory.

(** ** Wiring *)

Lemma elem_of_outputs stepId predicates v :
  v ∈ outputValues stepId predicates <->
  exists i p, predicates !! i = Some p /\ v = {| pv_predicate := p; pv_source := SrcStep stepId i |}.
Proof.
  unfold outputValues. rewrite list_elem_of_lookup. setoid_rewrite list_lookup_imap_Some.
  naive_solver.
Qed.

Lemma lookup_outputs stepId predicates i :
  outputValues stepId predicates !! i =
  (fun p => {| pv_predicate := p; pv_source := SrcStep stepId i |}) <$> predicates !! i.
Proof. unfold outputValues. by rewrite list_lookup_imap. Qed.

Lemma elem_of_step_ids inputs id :
  id ∈ step_ids inputs <-> exists v o, v ∈ inputs /\ pv_source v = SrcStep id o.
Proof.
  unfold step_ids. rewrite list_elem_of_omap. split.
  - intros (v & Hv & E). destruct (pv_source v) as [|sid o] eqn:Es; [discriminate|].
    injection E as ->. eauto.
  - intros (v & o & Hv & E). exists v. rewrite E. eauto.
Qed.

(** A value published by earlier steps names the step and the slot it fills. *)
Lemma published_lookup caps facts steps v id o :
  valid_steps caps facts steps ->
  (forall f, f ∈ facts -> exists a, pv_source f = SrcIngredient a) ->
  v ∈ facts_before facts steps -> pv_source v = SrcStep id o ->
  exists j step, steps !! j = Some step /\ st_id step = id /\ id = step_name (S j) /\
    st_outputs step !! o = Some v.
Proof.
  intros Hs Hf Hv Hsrc. unfold facts_before in Hv. apply elem_of_app in Hv as [Hv|Hv].
  { destruct (Hf v Hv) as [a Ha]. congruence. }
  apply elem_of_flat_map in Hv as (step & Hin & Hv).
  apply list_elem_of_lookup in Hin as (j & Hj). exists j, step. split; [done|].
  destruct (Hs j step Hj) as (c & m & _ & _ & _ & ->). cbn [makeStep st_id st_outputs] in *.
  apply elem_of_outputs in Hv as (i & p & Hp & ->). cbn in Hsrc. injection Hsrc as <- <-.
  rewrite Nat.add_1_r. split; [done|]. split; [done|]. by rewrite lookup_outputs, Hp.
Qed.

(** ** Keys

    A state is recognised by its key, the sorted list of its predicates joined
    by bars: without bars inside predicates, two states with one key have the
    same facts. *)

Definition no_bar : string -> bool := free_of "|".

Definition clean (p : string) : Prop := functor (parseTerm p) <> "" /\ no_bar p = true.

#[export] Instance clean_dec p : Decision (clean p).
Proof. unfold clean. apply _. Defined.

Lemma parseTerm_forall P p : string_forall P p = true ->
  string_forall P (functor (parseTerm p)) = true /\
  Forall (fun a => string_forall P a = true) (args (parseTerm p)).
Proof.
  intros Hp%string_forall_trim. unfold parseTerm.
  destruct (index_of "(" (trim p)); cbn [functor args]; [|split; [done|constructor]].
  split; [by apply string_forall_trim, string_forall_slice|].
  case_bool_decide; [constructor|]. apply Forall_fmap.
  eapply Forall_impl; [apply string_forall_split; by apply string_forall_trim, string_forall_slice|].
  intros s. apply string_forall_trim.
Qed.

Lemma resolve_loop_in (Q : string -> Prop) fuel σ seen v :
  (forall x y, σ !! x = Some y -> Q y) -> Q v -> Q (resolve_loop fuel σ seen v).
Proof.
  intros Hσ. revert seen v. induction fuel as [|fuel IH]; intros seen v Hv; cbn; [done|].
  destruct (isVariable v); [|done]. destruct (σ !! v) as [w|] eqn:E; [|done].
  destruct (decide (v ∈ seen)); [done|]. eauto.
Qed.

Lemma resolve_in (Q : string -> Prop) σ v :
  (forall x y, σ !! x = Some y -> Q y) -> Q v -> Q (resolve v σ).
Proof. apply resolve_loop_in. Qed.

Lemma unify_args_in (Q : string -> Prop) la ra σ τ :
  (forall x y, σ !! x = Some y -> Q y) -> Forall Q la -> Forall Q ra ->
  unify_args la ra σ = Some τ -> forall x y, τ !! x = Some y -> Q y.
Proof.
  revert ra σ. induction la as [|l la IH]; intros [|r ra] σ Hσ Hl Hr;
    try (intros [= <-]; exact Hσ).
  rewrite unify_args_cons.
  apply Forall_cons in Hl as [Hl Hla]. apply Forall_cons in Hr as [Hr Hra].
  assert (Q (resolve l σ)) by by apply (resolve_in Q).
  assert (Q (resolve r σ)) by by apply (resolve_in Q).
  assert (forall a b, Q b -> forall x y, <[a:=b]> σ !! x = Some y -> Q y) as Hins.
  { intros a b Hb x y. rewrite lookup_insert. case_decide; [congruence|apply Hσ]. }
  destruct (decide _); [by apply IH|].
  destruct (isVariable (resolve l σ)); [by apply IH; eauto|].
  destruct (isVariable (resolve r σ)); [by apply IH; eauto|discriminate].
Qed.

Lemma unify_all_in (P : ascii -> bool) reqs inputs σ τ :
  (forall x y, σ !! x = Some y -> string_forall P y = true) ->
  Forall (fun r => string_forall P r = true) reqs ->
  Forall (fun f => string_forall P (pv_predicate f) = true) inputs ->
  unify_all reqs inputs σ = Some τ -> forall x y, τ !! x = Some y -> string_forall P y = true.
Proof.
  revert inputs σ. induction reqs as [|r reqs IH]; intros [|f inputs] σ Hσ Hr Hi; cbn;
    try done; [intros [= <-]; exact Hσ|].
  apply Forall_cons in Hr as [Hr Hrs]. apply Forall_cons in Hi as [Hf His].
  destruct (unify r (pv_predicate f) σ) as [ρ|] eqn:E; cbn; [|discriminate].
  apply IH; [|done..]. intros x y. rewrite unify_unfold in E. case_decide; [|discriminate].
  destruct (parseTerm_forall P r Hr) as [_ Har].
  destruct (parseTerm_forall P (pv_predicate f) Hf) as [_ Haf].
  by apply (unify_args_in (fun y => string_forall P y = true) _ _ _ _ Hσ Har Haf E).
Qed.

Lemma substitute_clean p σ :
  (forall x y, σ !! x = Some y -> no_bar y = true) -> clean p -> no_bar (substitute p σ) = true /\ substitute p σ <> "".
Proof.
  intros Hσ [Hne Hp]. destruct (parseTerm_forall _ _ Hp) as [Hf Ha]. unfold substitute.
  destruct (includes_char "(" p); [|done]. split.
  - unfold no_bar, free_of in *. rewrite !string_forall_app, Hf. cbn.
    rewrite andb_true_r. apply string_forall_join; [done|]. apply Forall_fmap.
    eapply Forall_impl; [exact Ha|]. intros a Hx. by apply (resolve_in (fun y => no_bar y = true)).
  - destruct (functor (parseTerm p)); [done|discriminate].
Qed.

(** A fact the keys can tell apart. *)
Definition plain (p : string) : Prop := no_bar p = true /\ p <> "".

Lemma clean_plain p : clean p -> plain p.
Proof. intros [H ?]. split; [done|]. intros ->. by apply H. Qed.

Lemma join_bar_inj l k :
  Forall plain l -> Forall plain k -> join "|" l = join "|" k -> l = k.
Proof.
  intros Hl Hk E.
  assert (forall l, Forall plain l -> Forall (fun s => no_bar s = true) l) as Hb.
  { intros ? H. eapply Forall_impl; [exact H|]. by intros ? [? _]. }
  assert (forall p l, plain p -> join "|" (p :: l) <> "") as Hne.
  { intros [|c p] k' [_ Hp]; [done|]. destruct k'; [done|]. rewrite join_cons by done. discriminate. }
  destruct l as [|p l], k as [|q k]; [done|..].
  - apply Forall_cons in Hk as [Hq _]. by destruct (Hne q k Hq).
  - apply Forall_cons in Hl as [Hp _]. by destruct (Hne p l Hp).
  - apply (f_equal (split_on "|")) in E.
    change "|" with (String "|" "") in E. rewrite !split_on_join in E; auto.
Qed.

Section Keys.
Context `{Collation}.

Definition plain_state (s : SearchState) : Prop := Forall plain (pv_predicate <$> ss_facts s).

Lemma stateKey_same s t :
  plain_state s -> plain_state t -> stateKey s = stateKey t ->
  same_predicates (ss_facts s) (ss_facts t).
Proof.
  intros Hs Ht E. unfold stateKey in E.
  apply join_bar_inj in E; [|by rewrite js_sort_perm..].
  intros p. rewrite <- (elem_of_js_sort string_cmp p (_ <$> ss_facts s)), E.
  apply elem_of_js_sort.
Qed.
End Keys.

(** ** What [solve] returns *)

Lemma solve_spec `{Collation} caps ingredients goals options :
  match solve caps ingredients goals options with
  | Solved program exploredStates =>
      valid_program caps (ingredientValue <$> ingredients) goals program /\
      length (pg_steps program) <= default DEFAULT_MAX_STEPS (so_maxSteps options) /\
      exploredStates <= default DEFAULT_MAX_STATES (so_maxStates options)
  | Unsolved _ exploredStates _ =>
      exploredStates <= default DEFAULT_MAX_STATES (so_maxStates options)
  end.
Proof.
  unfold solve. set (maxSteps := default DEFAULT_MAX_STEPS _).
  set (maxStates := default DEFAULT_MAX_STATES _).
  pose proof (search_sound caps goals maxSteps maxStates (ingredientValue <$> ingredients)) as Hs.
  destruct (search _ _ _ _ _ _ _) as [s results n|n]; [|done].
  destruct Hs as ([Hst Hf Hc Hb] & Hr & Hn). split; [|done].
  split; cbn [pg_goals pg_steps pg_totalCost pg_results]; [done..|]. by rewrite <- Hf.
Qed.

Lemma solve_valid `{Collation} caps ingredients goals options program explored :
  solve caps ingredients goals options = Solved program explored ->
  valid_program caps (ingredientValue <$> ingredients) goals program.
Proof.
  intros E. pose proof (solve_spec caps ingredients goals options) as Hs. rewrite E in Hs. apply Hs.
Qed.

(** C2: A program [solve] returns can be executed from left to right: each step
    invokes an available capability on values that are ingredients or were
    published before it, its cost is the sum of its steps, and its facts match
    the goals with the results it names.  The search keeps to its limits of
    steps and of explored states. *)
Theorem solve_sound `{Collation} (caps : list Capability) (ingredients : list Ingredient)
    (goals : list string) (options : SolveOptions) :
  match solve caps ingredients goals options with
  | Solved program exploredStates =>
      valid_program caps (ingredientValue <$> ingredients) goals program /\
      length (pg_steps program) <= default DEFAULT_MAX_STEPS (so_maxSteps options) /\
      exploredStates <= default DEFAULT_MAX_STATES (so_maxStates options)
  | Unsolved _ exploredStates _ =>
      exploredStates <= default DEFAULT_MAX_STATES (so_maxStates options)
  end.
Proof. apply solve_spec. Qed.

(** The inputs of a valid step come from ingredients or from named slots of
    earlier steps, which are the steps it depends on. *)
Lemma valid_steps_wired caps (ingredients : list Ingredient) steps i step v :
  valid_steps caps (ingredientValue <$> ingredients) steps ->
  steps !! i = Some step -> v ∈ st_inputs step ->
  match pv_source v with
  | SrcIngredient _ => exists ingredient, ingredient ∈ ingredients /\ v = ingredientValue ingredient
  | SrcStep id output =>
      id ∈ st_dependsOn step /\
      exists j earlier, j < i /\ steps !! j = Some earlier /\ st_id earlier = id /\
        st_outputs earlier !! output = Some v
  end.
Proof.
  intros Hs Hi Hv. destruct (Hs i step Hi) as (c & m & _ & _ & [Hin _]%elem_of_matchAll & ->).
  cbn [makeStep st_inputs st_dependsOn] in *.
  rewrite Forall_forall in Hin. specialize (Hin v Hv).
  destruct (pv_source v) as [a|id o] eqn:Hsrc.
  - unfold facts_before in Hin. apply elem_of_app in Hin as [Hin|Hin].
    + apply list_elem_of_fmap in Hin as (ig & -> & ?). eauto.
    + apply elem_of_flat_map in Hin as (st & Hst & Hout). exfalso.
      apply list_elem_of_lookup in Hst as (k & Hk). apply lookup_take_Some in Hk as [Hk _].
      destruct (Hs k st Hk) as (c' & m' & _ & _ & _ & ->). cbn [makeStep st_outputs] in Hout.
      apply elem_of_outputs in Hout as (? & ? & _ & ->). discriminate.
  - split; [apply elem_of_dedup, elem_of_step_ids; eauto|].
    assert (valid_steps caps (ingredientValue <$> ingredients) (take i steps)) as Htake.
    { intros k st [Hk Hlt]%lookup_take_Some. destruct (Hs k st Hk) as (c' & m' & ? & ? & Hm & ->).
      exists c', m'. rewrite take_take, Nat.min_l by lia. done. }
    destruct (published_lookup _ _ _ _ _ _ Htake ltac:(
      intros f Hf; apply list_elem_of_fmap in Hf as (ig & -> & _); by eexists) Hin Hsrc)
      as (j & st & [Hj Hlt]%lookup_take_Some & Hid & _ & Hout). eauto 10.
Qed.

(** Programs are wired: every input of every step is an ingredient, or the
    value in the named output slot of an earlier step, which the step lists
    among the steps it depends on. *)
Theorem solve_wired `{Collation} (caps : list Capability) (ingredients : list Ingredient)
    (goals : list string) (options : SolveOptions) (program : AdHocProgram) (explored i : nat)
    (step : PlanStep) (v : PlanValue) :
  solve caps ingredients goals options = Solved program explored ->
  pg_steps program !! i = Some step -> v ∈ st_inputs step ->
  match pv_source v with
  | SrcIngredient _ => exists ingredient, ingredient ∈ ingredients /\ v = ingredientValue ingredient
  | SrcStep id output =>
      id ∈ st_dependsOn step /\
      exists j earlier, j < i /\ pg_steps program !! j = Some earlier /\ st_id earlier = id /\
        st_outputs earlier !! output = Some v
  end.
Proof.
  intros Hs. apply valid_steps_wired with caps. by apply solve_valid in Hs as [].
Qed.

Lemma solve_wired_witness :
  let wanted := {| pv_predicate := "text(doc)"; pv_source := SrcStep "step-1" 0 |} in
  "step-1" ∈ ["step-1"] /\
  exists program earlier,
    solve (H := string_cmp) sample_capabilities sample_ingredients ["fields(doc)"]
      {| so_maxSteps := None; so_maxStates := None |} = Solved program 3 /\
    pg_steps program !! 0 = Some earlier /\ st_outputs earlier !! 0 = Some wanted.
Proof.
  intros wanted.
  destruct (solve (H := string_cmp) sample_capabilities sample_ingredients ["fields(doc)"]
    {| so_maxSteps := None; so_maxStates := None |}) as [program n|] eqn:E;
    [|exfalso; vm_compute in E; discriminate].
  vm_compute in E. injection E as <- <-.
  pose proof (solve_wired (H := string_cmp) sample_capabilities sample_ingredients ["fields(doc)"]
    {| so_maxSteps := None; so_maxStates := None |} _ 3 1 _ wanted
    ltac:(vm_compute; reflexivity) ltac:(vm_compute; reflexivity) ltac:(left)) as Hw.
  destruct Hw as [Hd _].
  split; [exact Hd|]. eexists _, _. split; [vm_compute; reflexivity|]. split; reflexivity.
Defined.
