(* ===== verification/PlannerOptimal.v ===== *)
(** * Optimality of the planner's search

    A run of the search space adds, step by step, an invocation that publishes
    something new.  Over facts without variables every executable program has a run
    with the same terms at no higher cost.  When every capability costs at least one
    and no predicate contains a bar, [solve] finds a program that costs no more than
    any of these whose cost is within the step budget, and reports failure only
    when there is none or when it stopped at its limit of states. *)

From S2P Require Import Prelude Ids Term Contracts Planner PlannerMatch PlannerSearch.

Open Scope stdpp_scope.

(** ** Successors of states with one key *)

Lemma makeStep_outputs n c m :
  pv_predicate <$> st_outputs (makeStep n c m) =
  (fun p => substitute p (rm_bindings m)) <$> cap_produces c.
Proof.
  cbn [makeStep st_outputs]. unfold outputValues. rewrite fmap_imap.
  apply list_eq. intros i. rewrite list_lookup_imap. cbn. by destruct (_ !! i).
Qed.

Definition published (facts outputs : list PlanValue) : bool :=
  forallb (fun p => existsb (fun f => unifiable (pv_predicate f) (pv_predicate p)) facts) outputs.

Lemma published_spec facts outputs :
  published facts outputs = true <->
  forall p, p ∈ pv_predicate <$> outputs ->
    exists f, f ∈ pv_predicate <$> facts /\ unifiable f p = true.
Proof.
  unfold published. rewrite forallb_elem. setoid_rewrite existsb_elem.
  setoid_rewrite list_elem_of_fmap. split.
  - intros H ? (v & -> & Hv). destruct (H v Hv) as (f & ? & ?). eauto.
  - intros H v Hv. destruct (H (pv_predicate v)) as (? & (f & -> & ?) & ?); eauto.
Qed.

Lemma published_same facts facts' outputs outputs' :
  same_predicates facts facts' -> pv_predicate <$> outputs = pv_predicate <$> outputs' ->
  published facts outputs = published facts' outputs'.
Proof.
  intros Hs Ho. apply eq_true_iff_eq. rewrite !published_spec, Ho.
  split; intros H p (f & Hf & Hu)%H; exists f; by split; [apply Hs|].
Qed.

Section Optimal.
Context `{Collation} `{!CollationLaws localeCompare}.
Context (caps : list Capability) (goals : list string) (maxSteps : nat).
Context (Hclean : forall c, c ∈ caps ->
  Forall (fun r => no_bar r = true) (cap_requires c) /\ Forall clean (cap_produces c)).
Context (Hcost : forall c, c ∈ caps -> (1 <= default 1 (cap_cost c))%Z).

Lemma successor_plain s s' :
  plain_state s -> s' ∈ successors caps s -> plain_state s'.
Proof.
  intros Hs (c & m & Hc & _ & Hm & ->%successor_Some)%elem_of_successors.
  unfold plain_state in *. cbn [ss_facts]. rewrite fmap_app. apply Forall_app. split; [done|].
  rewrite makeStep_outputs. apply Forall_fmap. destruct (Hclean c Hc) as [Hr Hp].
  eapply Forall_impl; [exact Hp|]. intros p Hpc.
  apply elem_of_matchAll in Hm as [Hin Hu]. apply substitute_clean; [|done].
  eapply (unify_all_in _ _ _ ∅); [|exact Hr| |exact Hu]; [by intros ? ? [=]|].
  rewrite Forall_forall in Hin. apply Forall_forall. intros f Hf.
  rewrite Forall_fmap, Forall_forall in Hs. by apply (Hs f), Hin.
Qed.

Lemma stateKey_perm s t : plain_state s -> plain_state t -> stateKey s = stateKey t ->
  pv_predicate <$> ss_facts s ≡ₚ pv_predicate <$> ss_facts t.
Proof.
  intros Hs Ht E. unfold stateKey in E.
  apply join_bar_inj in E; [|by rewrite js_sort_perm..].
  by rewrite <- (js_sort_perm string_cmp (_ <$> ss_facts s)), E, js_sort_perm.
Qed.

(** Two states with one key have successors with the same keys, at the same
    additional cost. *)
Lemma successors_key s t s' :
  plain_state s -> plain_state t -> stateKey s = stateKey t -> s' ∈ successors caps s ->
  exists t', t' ∈ successors caps t /\ stateKey t' = stateKey s' /\
    (ss_cost t' - ss_cost t = ss_cost s' - ss_cost s)%Z.
Proof.
  intros Hs Ht E (c & m & Hc & Ha & Hm & Hs')%elem_of_successors.
  pose proof (stateKey_same s t Hs Ht E) as Hsame.
  destruct (matchAll_same _ _ _ _ Hsame Hm) as (m' & Hm' & Hb).
  set (o := st_outputs (makeStep (length (ss_steps s)) c m)).
  set (o' := st_outputs (makeStep (length (ss_steps t)) c m')).
  assert (pv_predicate <$> o = pv_predicate <$> o') as Ho.
  { subst o o'. by rewrite !makeStep_outputs, Hb. }
  assert (published (ss_facts s) o = published (ss_facts t) o') as Hpub by by apply published_same.
  pose proof (successor_Some _ _ _ _ Hs') as ->.
  destruct (successor t c m') as [t'|] eqn:Et'.
  - exists t'. split; [apply elem_of_successors; eauto 10|].
    apply successor_Some in Et' as ->. split; [|cbn; lia].
    unfold stateKey. cbn [ss_facts]. f_equal. apply js_sort_strings.
    rewrite !fmap_app. fold o o'. rewrite Ho. apply Permutation_app_tail. symmetry.
    by apply stateKey_perm.
  - exfalso. unfold successor in Hs', Et'. fold o in Hs'. fold o' in Et'.
    unfold published in Hpub. rewrite Hpub in Hs'.
    destruct (forallb _ o'); discriminate.
Qed.

Definition at_goal (s : SearchState) : Prop := is_Some (resolveGoals goals (ss_facts s)).

Lemma at_goal_key s t :
  plain_state s -> plain_state t -> stateKey s = stateKey t -> at_goal s -> at_goal t.
Proof.
  unfold at_goal, resolveGoals. intros Hs Ht E Hg. apply fmap_is_Some in Hg as [m Hm].
  assert (m ∈ matchAll goals (ss_facts s)) as Hin.
  { destruct (matchAll goals (ss_facts s)); [discriminate|]. injection Hm as ->. left. }
  destruct (matchAll_same _ _ _ _ (stateKey_same s t Hs Ht E) Hin) as (m' & Hm' & _).
  apply fmap_is_Some. destruct (matchAll goals (ss_facts t)); [by apply not_elem_of_nil in Hm'|].
  done.
Qed.

Lemma successor_cost s s' : s' ∈ successors caps s -> (ss_cost s + 1 <= ss_cost s')%Z.
Proof.
  intros (c & m & Hc & _ & _ & ->%successor_Some)%elem_of_successors. cbn.
  pose proof (Hcost c Hc). lia.
Qed.

Definition step (s s' : SearchState) : Prop := s' ∈ successors caps s.

Lemma path_cost s g : rtc step s g -> (ss_cost s <= ss_cost g)%Z.
Proof. induction 1 as [|s s' g Hs _ IH]; [lia|]. apply successor_cost in Hs. lia. Qed.

(** ** The invariant of the loop *)

Definition in_budget (s : SearchState) : Prop := (Z.of_nat (length (ss_steps s)) <= ss_cost s)%Z.

Lemma successor_budget s s' : in_budget s -> s' ∈ successors caps s -> in_budget s'.
Proof.
  unfold in_budget. intros Hb Hs. pose proof (successor_cost _ _ Hs).
  apply elem_of_successors in Hs as (c & m & _ & _ & _ & ->%successor_Some). cbn in *.
  rewrite length_app. cbn. lia.
Qed.

(** State [t] was explored, or is queued, at no higher cost. *)
Definition covered (queue : list SearchState) (best : gmap string Z) (t : SearchState) : Prop :=
  (exists c, best !! stateKey t = Some c /\ (c <= ss_cost t)%Z) \/
  (exists q, q ∈ queue /\ stateKey q = stateKey t /\ (ss_cost q <= ss_cost t)%Z).

Record loop_inv (start : SearchState) (queue : list SearchState) (best : gmap string Z)
    (explored : list SearchState) : Prop := {
  li_plain : forall s, s ∈ queue \/ s ∈ explored -> plain_state s /\ in_budget s;
  li_best : forall k c, best !! k = Some c ->
    exists e, e ∈ explored /\ stateKey e = k /\ ss_cost e = c;
  li_explored : forall e, e ∈ explored -> ~ at_goal e /\
    (length (ss_steps e) < maxSteps -> forall t, t ∈ successors caps e -> covered queue best t);
  li_start : covered queue best start
}.

Lemma dominated_spec best s :
  dominated best s = true <-> exists c, best !! stateKey s = Some c /\ (c <= ss_cost s)%Z.
Proof.
  unfold dominated. destruct (best !! stateKey s) as [c|].
  - rewrite Z.leb_le. split; [eauto|]. by intros (? & [= ->] & ?).
  - split; [discriminate|]. by intros (? & [=] & _).
Qed.

Lemma covered_queue queue queue' best t :
  (forall q, q ∈ queue -> q ∈ queue') -> covered queue best t -> covered queue' best t.
Proof. intros Hsub [?|(q & ? & ? & ?)]; [by left|]. right. exists q. auto. Qed.

(** Exploring a state moves its cover from the queue to [best]. *)
Lemma covered_explore queue best s rest t :
  dominated best s = false ->
  (forall q, q ∈ queue -> q = s \/ q ∈ rest \/ dominated best q = true) ->
  covered queue best t -> covered rest (<[stateKey s := ss_cost s]> best) t.
Proof.
  intros Hd Hq.
  assert (forall c, best !! stateKey t = Some c -> (c <= ss_cost t)%Z ->
    covered rest (<[stateKey s:=ss_cost s]> best) t) as Hbest.
  { intros c Hc Hle. left. rewrite lookup_insert. case_decide as E; [|eauto].
    exists (ss_cost s). split; [done|]. destruct (decide (c <= ss_cost s)%Z); [|lia].
    exfalso. apply not_true_iff_false in Hd. apply Hd, dominated_spec. rewrite E. eauto. }
  intros [(c & ? & ?)|(q & Hin & E & Hle)]; [by eapply Hbest|].
  destruct (Hq q Hin) as [->|[Hr|(c & Hc & Hcle)%dominated_spec]].
  - left. exists (ss_cost s). by rewrite E, lookup_insert_eq.
  - right. eauto.
  - apply (Hbest c); [by rewrite <- E|lia].
Qed.

Lemma loop_inv_explore start queue best explored s rest :
  loop_inv start queue best explored ->
  next_state (length queue) queue best = Some (s, rest) -> ~ at_goal s ->
  let queue' := if Nat.leb maxSteps (length (ss_steps s)) then rest
                else rest ++ successors caps s in
  loop_inv start queue' (<[stateKey s := ss_cost s]> best) (s :: explored).
Proof.
  intros [Hp Hb He Hst] (Hd & Hs & Hsub & Hall)%next_state_Some Hg queue'.
  assert (forall q, q ∈ rest -> q ∈ queue') as Hrest.
  { subst queue'. intros q ?. case_match; [done|]. apply elem_of_app. by left. }
  assert (forall t, covered queue best t ->
    covered queue' (<[stateKey s := ss_cost s]> best) t) as Hcov.
  { intros t Ht. eapply covered_queue; [exact Hrest|]. by eapply covered_explore. }
  split.
  - intros x [Hx|[->|Hx]%elem_of_cons]; [|by apply Hp; left|by apply Hp; right].
    subst queue'. case_match; [by apply Hp; left; apply Hsub|].
    apply elem_of_app in Hx as [Hx|Hx]; [by apply Hp; left; apply Hsub|].
    destruct (Hp s) as [? ?]; [by left|].
    split; [by eapply successor_plain|by eapply successor_budget].
  - intros k c. rewrite lookup_insert. case_decide as E.
    + intros [= <-]. exists s. split; [left|done].
    + intros (e & ? & ? & ?)%Hb. exists e. split; [by right|done].
  - intros e [->|Hin]%elem_of_cons.
    + split; [done|]. intros Hlt t Ht. right. exists t. split; [|done].
      subst queue'. rewrite (proj2 (Nat.leb_gt _ _)) by done. apply elem_of_app. by right.
    + destruct (He e Hin) as [? Hsucc]. split; [done|]. auto.
  - auto.
Qed.

Lemma covered_cases start queue best explored t :
  loop_inv start queue best explored -> covered queue best t ->
  (exists e, e ∈ explored /\ stateKey e = stateKey t /\ (ss_cost e <= ss_cost t)%Z) \/
  (exists q, q ∈ queue /\ dominated best q = false /\ (ss_cost q <= ss_cost t)%Z).
Proof.
  intros [_ Hb _ _] [(c & Hc & Hle)|(q & Hq & Hk & Hle)].
  - left. destruct (Hb _ _ Hc) as (e & ? & ? & <-). by exists e.
  - destruct (dominated best q) eqn:D; [|right; by exists q].
    apply dominated_spec in D as (c & Hc & ?). left.
    destruct (Hb _ _ Hc) as (e & ? & ? & <-). exists e.
    split; [done|]. split; [congruence|lia].
Qed.

(** Along a path to the goals, some queued state that is not dominated costs
    no more than the goal. *)
Lemma queue_covers_path start queue best explored t g :
  loop_inv start queue best explored -> rtc step t g -> plain_state t ->
  covered queue best t -> at_goal g -> (ss_cost g <= Z.of_nat maxSteps)%Z ->
  exists q, q ∈ queue /\ dominated best q = false /\ (ss_cost q <= ss_cost g)%Z.
Proof.
  intros Hinv Hpath. pose proof Hinv as [Hp Hb He Hst].
  induction Hpath as [t|t t' g Hstep Hpath IH]; intros Hpl Hcov Hg Hmax;
    destruct (covered_cases _ _ _ _ _ Hinv Hcov) as [(e & Hin & Hk & Hle)|(q & ? & ? & ?)].
  - exfalso. apply (He e Hin). apply (at_goal_key t e); [exact Hpl|apply Hp; by right|done|done].
  - eauto.
  - destruct (Hp e) as [Hple Hbe]; [by right|].
    destruct (successors_key t e t' Hpl Hple (eq_sym Hk) Hstep) as (e' & He' & Hk' & Hc').
    pose proof (successor_cost _ _ Hstep). pose proof (path_cost _ _ Hpath).
    apply IH; [exact (successor_plain _ _ Hpl Hstep)| |done|done].
    destruct (He e Hin) as [_ Hsucc].
    destruct Hsucc with e' as [(c & Hc & ?)|(q & ? & ? & ?)]; [|done| |].
    + unfold in_budget in Hbe. lia.
    + left. exists c. rewrite <- Hk'. split; [done|lia].
    + right. exists q. split; [done|]. split; [congruence|lia].
  - exists q. pose proof (successor_cost _ _ Hstep). pose proof (path_cost _ _ Hpath).
    split; [done|]. split; [done|lia].
Qed.

(** The comparator orders states by cost first. *)
Lemma compareStates_cost a b : (compareStates a b <= 0)%Z -> (ss_cost a <= ss_cost b)%Z.
Proof. unfold compareStates, or_else. destruct (Z.eqb_spec (ss_cost a - ss_cost b) 0); lia. Qed.

Lemma compareStates_total a b : (compareStates a b <= 0)%Z \/ (compareStates b a <= 0)%Z.
Proof.
  pose proof (locale_antisym (stateKey a) (stateKey b)). unfold compareStates, or_else.
  repeat case_match; rewrite ?Z.eqb_eq, ?Z.eqb_neq in *; lia.
Qed.

Lemma compareStates_trans a b c :
  (compareStates a b <= 0)%Z -> (compareStates b c <= 0)%Z -> (compareStates a c <= 0)%Z.
Proof.
  pose proof (locale_trans (stateKey a) (stateKey b) (stateKey c)) as Ht.
  unfold compareStates, or_else.
  repeat case_match; rewrite ?Z.eqb_eq, ?Z.eqb_neq in *; lia.
Qed.

Lemma next_state_min turns queue best s rest :
  next_state turns queue best = Some (s, rest) ->
  forall q, q ∈ queue -> dominated best q = true \/ (ss_cost s <= ss_cost q)%Z.
Proof.
  revert queue. induction turns as [|turns IH]; intros queue; cbn; [discriminate|].
  pose proof (js_sort_sorted compareStates queue compareStates_total compareStates_trans) as Hs.
  pose proof (fun x => elem_of_js_sort compareStates x queue) as Hq.
  destruct (js_sort compareStates queue) as [|q0 l] eqn:E; [discriminate|].
  inversion Hs as [|? ? _ Hall]; subst. destruct (dominated best q0) eqn:D.
  - intros Hn q [->|Hin]%Hq%elem_of_cons; [by left|]. by apply (IH l).
  - intros [= -> ->] q [->|Hin]%Hq%elem_of_cons; [by right|]. right.
    rewrite Forall_forall in Hall. by apply compareStates_cost, Hall.
Qed.

(** The state found costs no more than any goal within the budget; without
    one, the search ran out of states or there is none. *)
Lemma search_optimal start budget n queue best explored :
  plain_state start -> loop_inv start queue best explored ->
  match search caps goals maxSteps budget n queue best with
  | Found s _ _ => forall g, rtc step start g -> at_goal g ->
      (ss_cost g <= Z.of_nat maxSteps)%Z -> (ss_cost s <= ss_cost g)%Z
  | Exhausted n' => n' = n + budget \/ forall g, rtc step start g -> at_goal g ->
      (Z.of_nat maxSteps < ss_cost g)%Z
  end.
Proof.
  intros Hpl. revert n queue best explored.
  induction budget as [|budget IH]; intros n queue best explored Hinv; cbn; [left; lia|].
  pose proof (fun t g => queue_covers_path start queue best explored t g Hinv) as Hcov.
  destruct (next_state (length queue) queue best) as [[s rest]|] eqn:E.
  - destruct (resolveGoals goals (ss_facts s)) as [results|] eqn:Er.
    + intros g Hpath Hg Hmax. destruct (Hcov start g) as (q & Hq & Hd & Hle);
        [done..|apply Hinv|done|done|].
      destruct (next_state_min _ _ _ _ _ E q Hq); [congruence|lia].
    + assert (~ at_goal s) as Hng by (unfold at_goal; rewrite Er; by intros [? [=]]).
      specialize (IH (S n) _ _ _ (loop_inv_explore _ _ _ _ _ _ Hinv E Hng)).
      destruct (search _ _ _ _ _ _ _); [done|].
      destruct IH as [->|?]; [left; lia|by right].
  - right. intros g Hpath Hg. destruct (Z.lt_ge_cases (Z.of_nat maxSteps) (ss_cost g)); [done|].
    destruct (Hcov start g) as (q & Hq & Hd & _); [done..|apply Hinv|done|done|].
    by rewrite (next_state_None _ _ _ (le_n _) E q Hq) in Hd.
Qed.
End Optimal.


(** ** Optimality *)

Definition start_state (ingredients : list Ingredient) : SearchState :=
  {| ss_facts := ingredientValue <$> ingredients; ss_steps := []; ss_cost := 0 |}.

Lemma start_plain ingredients :
  Forall plain (ig_predicate <$> ingredients) -> plain_state (start_state ingredients).
Proof. unfold plain_state, start_state. cbn [ss_facts]. by rewrite <- list_fmap_compose. Qed.

Lemma start_inv `{Collation} caps goals maxSteps ingredients :
  Forall plain (ig_predicate <$> ingredients) ->
  loop_inv caps goals maxSteps (start_state ingredients) [start_state ingredients] ∅ [].
Proof.
  intros Hp. split.
  - intros s [->%list_elem_of_singleton|[]%not_elem_of_nil].
    split; [by apply start_plain|]. unfold in_budget. cbn. lia.
  - by intros k c [=].
  - by intros e []%not_elem_of_nil.
  - right. exists (start_state ingredients). split; [left|done].
Qed.

(** ** Programs without variables *)

Lemma total_cost_nonneg caps facts steps :
  (forall c, c ∈ caps -> (1 <= default 1 (cap_cost c))%Z) -> valid_steps caps facts steps ->
  (0 <= total_cost steps)%Z.
Proof.
  intros Hcost. induction steps as [|st steps IH] using rev_ind; intros Hs; [done|].
  rewrite total_cost_snoc. destruct (valid_steps_prefix _ _ _ _ Hs) as [Hpre (c & m & Hc & _ & _ & ->)].
  specialize (IH Hpre). specialize (Hcost c Hc). cbn [makeStep st_cost]. lia.
Qed.

(** Along any program of ground facts the search has a state with the same terms
    at no higher cost: what pruning leaves out adds no term. *)
Lemma ground_path `{Collation} caps facts steps :
  (forall c, c ∈ caps -> (1 <= default 1 (cap_cost c))%Z) ->
  valid_steps caps facts steps -> Forall ground (pv_predicate <$> facts_before facts steps) ->
  exists s, rtc (step caps) {| ss_facts := facts; ss_steps := []; ss_cost := 0 |} s /\
    (forall t, t ∈ fact_term <$> ss_facts s <-> t ∈ fact_term <$> facts_before facts steps) /\
    (ss_cost s <= total_cost steps)%Z.
Proof.
  intros Hcost. induction steps as [|st steps IH] using rev_ind; intros Hs Hg.
  { eexists. split; [apply rtc_refl|]. cbn. unfold facts_before. cbn. by rewrite app_nil_r. }
  destruct (valid_steps_prefix _ _ _ _ Hs) as [Hpre (c & m & Hc & Ha & Hm & ->)].
  rewrite facts_before_snoc in Hg |- *. rewrite fmap_app in Hg. apply Forall_app in Hg as [Hg Hgo].
  destruct (IH Hpre Hg) as (s & Hpath & Hterms & Hle). rewrite firstn_all in Hm.
  destruct (matchAll_terms _ _ (ss_facts s) _ (fun t => proj2 (Hterms t)) Hm) as (m' & Hm' & Eb).
  assert (pv_predicate <$> st_outputs (makeStep (length (ss_steps s)) c m') =
          pv_predicate <$> st_outputs (makeStep (length steps) c m)) as Ho
    by (by rewrite !makeStep_outputs, Eb).
  assert (fact_term <$> st_outputs (makeStep (length (ss_steps s)) c m') =
          fact_term <$> st_outputs (makeStep (length steps) c m)) as Hot.
  { apply (f_equal (fmap parseTerm)) in Ho. by rewrite <- !list_fmap_compose in Ho. }
  rewrite total_cost_snoc. cbn [st_cost makeStep]. pose proof (Hcost c Hc).
  destruct (successor s c m') as [s'|] eqn:E.
  - exists s'. split; [eapply rtc_r; [exact Hpath|]; apply elem_of_successors; eauto 10|].
    apply successor_Some in E as ->. cbn [ss_facts ss_cost makeStep st_cost]. split; [|lia].
    intros t. rewrite !fmap_app, !elem_of_app, Hot, Hterms. done.
  - exists s. split; [done|]. split; [|lia]. intros t. rewrite fmap_app, elem_of_app, Hterms.
    split; [by left|]. intros [?|Ht]; [done|]. apply Hterms.
    rewrite <- Hot in Ht. apply list_elem_of_fmap in Ht as (o & -> & Hin).
    unfold successor in E. destruct (forallb _ _) eqn:Hall; [|done]. rewrite forallb_elem in Hall.
    pose proof Hin as Hp. apply Hall, existsb_elem in Hp as (f & Hf & Hu).
    apply list_elem_of_fmap. exists f. split; [|done]. symmetry.
    assert (fact_term f ∈ fact_term <$> facts_before facts steps) as (f' & Ef & Hf')%list_elem_of_fmap
      by (by apply Hterms, list_elem_of_fmap_2).
    rewrite Forall_forall in Hg, Hgo. apply ground_unifiable; [| |done].
    + unfold fact_term in Ef. unfold ground. rewrite Ef. apply (Hg (pv_predicate f')). by apply list_elem_of_fmap_2.
    + apply Hgo. rewrite <- Ho. by apply list_elem_of_fmap_2.
Qed.

Lemma at_goal_terms goals facts s results :
  resolveGoals goals facts = Some results ->
  (forall t, t ∈ fact_term <$> facts -> t ∈ fact_term <$> ss_facts s) -> at_goal goals s.
Proof.
  unfold at_goal, resolveGoals. intros (m & Hm & _)%fmap_Some Hterms. apply fmap_is_Some.
  assert (m ∈ matchAll goals facts) as Hin.
  { destruct (matchAll goals facts); [discriminate|]. injection Hm as ->. left. }
  destruct (matchAll_terms _ _ _ _ Hterms Hin) as (m' & Hm' & _).
  destruct (matchAll goals (ss_facts s)); [by apply not_elem_of_nil in Hm'|done].
Qed.

(** A program whose facts, the ingredients and the outputs of its steps, hold no
    variable. *)
Definition ground_program (caps : list Capability) (facts : list PlanValue) (goals : list string)
    (program : AdHocProgram) : Prop :=
  valid_program caps facts goals program /\
  Forall (fun f => ground (pv_predicate f)) (facts ++ List.flat_map st_outputs (pg_steps program)).

Lemma ground_program_reached `{Collation} caps ingredients goals other :
  (forall c, c ∈ caps -> (1 <= default 1 (cap_cost c))%Z) ->
  ground_program caps (ingredientValue <$> ingredients) goals other ->
  exists s, rtc (step caps) (start_state ingredients) s /\ at_goal goals s /\
    (ss_cost s <= pg_totalCost other)%Z.
Proof.
  intros Hcost [[_ Hs Hc Hr] Hg].
  assert (Forall ground (pv_predicate <$> facts_before (ingredientValue <$> ingredients) (pg_steps other))) as Hg'
    by (by apply Forall_fmap). clear Hg. rename Hg' into Hg.
  destruct (ground_path caps _ _ Hcost Hs Hg) as (s & Hpath & Hterms & Hle).
  exists s. split; [exact Hpath|]. rewrite Hc. split; [|done].
  eapply at_goal_terms; [exact Hr|]. intros t. apply Hterms.
Qed.

(** C5: The search is optimal.  When every capability costs at least one, the
    predicates name something and hold no bar, and the collation is an order,
    [solve] returns a program that costs no more than any other program: any
    sequence of invocations of available capabilities, each on ingredients or on
    outputs of the invocations before it, after which the goals are matched (the
    programs of [solve_sound], whether the search would visit them or not), as
    long as its facts hold no variable and the budget pays for it (it costs at most
    [maxSteps]).  It reports a failure only when it stopped at the limit of states
    or when no such program exists.  Variables in facts are a real exception, see
    [solve_misses_a_variable_output]. *)
Theorem solve_optimal `{C : Collation} `{!CollationLaws C} (caps : list Capability)
    (ingredients : list Ingredient) (goals : list string) (maxSteps maxStates : nat) :
  (forall c, c ∈ caps ->
     Forall (fun r => no_bar r = true) (cap_requires c) /\ Forall clean (cap_produces c)) ->
  (forall c, c ∈ caps -> (1 <= default 1 (cap_cost c))%Z) ->
  Forall plain (ig_predicate <$> ingredients) ->
  match solve caps ingredients goals
          {| so_maxSteps := Some maxSteps; so_maxStates := Some maxStates |} with
  | Solved program _ => forall other,
      ground_program caps (ingredientValue <$> ingredients) goals other ->
      (pg_totalCost other <= Z.of_nat maxSteps)%Z -> (pg_totalCost program <= pg_totalCost other)%Z
  | Unsolved _ exploredStates _ => exploredStates = maxStates \/
      forall other, ground_program caps (ingredientValue <$> ingredients) goals other ->
        (Z.of_nat maxSteps < pg_totalCost other)%Z
  end.
Proof.
  intros Hclean Hcost Hp. unfold solve. cbn [so_maxSteps so_maxStates default].
  pose proof (search_optimal caps goals maxSteps Hclean Hcost (start_state ingredients) maxStates 0
    _ ∅ [] (start_plain _ Hp) (start_inv _ _ _ _ Hp)) as Hs.
  fold (start_state ingredients).
  change (default DEFAULT_MAX_STEPS (Some maxSteps)) with maxSteps.
  change (default DEFAULT_MAX_STATES (Some maxStates)) with maxStates.
  destruct (search _ _ _ _ _ _ _) as [s results n|n].
  - intros other Ho Hmax. destruct (ground_program_reached _ _ _ _ Hcost Ho) as (g & Hpath & Hg & Hle).
    cbn [pg_totalCost]. specialize (Hs g Hpath Hg). lia.
  - destruct Hs as [->|Hs]; [by left|]. right. intros other Ho.
    destruct (ground_program_reached _ _ _ _ Hcost Ho) as (g & Hpath & Hg & Hle).
    specialize (Hs g Hpath Hg). lia.
Qed.

#[local] Existing Instance bytes_collation.

Lemma solve_optimal_witness :
  match solve sample_capabilities sample_ingredients ["fields(doc)"]
          {| so_maxSteps := Some 5; so_maxStates := Some 50 |} with
  | Solved program _ => pg_totalCost program = 3%Z /\
      forall other, ground_program sample_capabilities (ingredientValue <$> sample_ingredients)
                      ["fields(doc)"] other ->
        (pg_totalCost other <= 5)%Z -> (pg_totalCost program <= pg_totalCost other)%Z
  | Unsolved _ _ _ => False
  end.
Proof.
  assert (forall c, c ∈ sample_capabilities ->
    (Forall (fun r => no_bar r = true) (cap_requires c) /\ Forall clean (cap_produces c)) /\
    (1 <= default 1 (cap_cost c))%Z) as Hc.
  { unfold sample_capabilities. intros c Hc. repeat apply elem_of_cons in Hc as [->|Hc];
      [..|by apply not_elem_of_nil in Hc]; (split; [split; repeat constructor; by vm_compute|cbn; lia]). }
  pose proof (@solve_optimal bytes_collation bytes_collation_laws sample_capabilities
    sample_ingredients ["fields(doc)"] 5 50 (fun c Hin => proj1 (Hc c Hin))
    (fun c Hin => proj2 (Hc c Hin)) ltac:(repeat constructor; by vm_compute)) as Ho.
  destruct (solve _ _ _ _) as [program n|u n r] eqn:E.
  - split; [vm_compute in E; by injection E as <- _|exact Ho].
  - vm_compute in E. discriminate.
Defined.

(** ** A published variable hides what it stands for *)

Definition variable_capabilities : list Capability := [sample_capability "a" ["x"] ["p(X)"] 1].

Definition variable_ingredients : list Ingredient :=
  [{| ig_predicate := "x"; ig_artifactId := None |}; {| ig_predicate := "p(a)"; ig_artifactId := None |}].

(** The search prunes an invocation when each of its outputs unifies with some
    fact.  Beside the fact [p(a)] the output [p(X)] is pruned although, unlike
    that fact, it matches the goal [p(b)]: a program of one step exists and
    [solve] reports, with room in both limits, that there is none. *)
Theorem solve_misses_a_variable_output :
  (exists program,
     valid_program variable_capabilities (ingredientValue <$> variable_ingredients) ["p(b)"] program /\
     length (pg_steps program) = 1) /\
  solve variable_capabilities variable_ingredients ["p(b)"] {| so_maxSteps := None; so_maxStates := None |} =
  Unsolved ["p(b)"] 1 "no program produces: p(b)".
Proof.
  split; [|vm_compute; reflexivity].
  assert (exists m,
    let facts := ingredientValue <$> variable_ingredients in
    let s := makeStep 0 (sample_capability "a" ["x"] ["p(X)"] 1) m in
    m ∈ matchAll ["x"] facts /\ is_Some (resolveGoals ["p(b)"] (facts ++ st_outputs s)))
    as (m & Hm & results & Hr).
  { eexists _. split; [vm_compute; left|]. vm_compute. by eexists. }
  eexists {| pg_goals := ["p(b)"]; pg_steps := [_]; pg_totalCost := _; pg_results := results |}.
  split; [|done]. split; cbn [pg_goals pg_steps pg_totalCost pg_results]; [done| |done|].
  - intros [|i] st Hi; [injection Hi as <-|done].
    exists (sample_capability "a" ["x"] ["p(X)"] 1), m. split; [left|]. split; [done|]. by split.
  - exact Hr.
Qed.

(** ** A short program the search does not find *)

(** [a] publishes in one step, at cost 3, what [b] and [c] publish in two steps
    at cost 2; [d] then reaches the goal. *)
Definition detour_capabilities : list Capability :=
  [sample_capability "a" ["x"] ["m"; "y"] 3; sample_capability "b" ["x"] ["m"] 1;
   sample_capability "c" ["m"] ["y"] 1; sample_capability "d" ["y"] ["goal"] 1].

Definition detour_ingredients : list Ingredient := [{| ig_predicate := "x"; ig_artifactId := None |}].

(** The search prunes by cost alone although programs are also limited in
    their number of steps: with two steps allowed, a valid program of two steps
    exists, yet [solve] answers, without having reached its limit of states,
    that no program produces the (empty) list of goals out of reach. *)
Theorem solve_misses_a_short_program :
  (exists program,
     valid_program detour_capabilities (ingredientValue <$> detour_ingredients) ["goal"] program /\
     length (pg_steps program) = 2) /\
  solve detour_capabilities detour_ingredients ["goal"]
    {| so_maxSteps := Some 2; so_maxStates := None |} =
  Unsolved [] 4 "no program produces: ".
Proof.
  split; [|vm_compute; reflexivity].
  assert (exists m1 m2,
    let facts := ingredientValue <$> detour_ingredients in
    let s1 := makeStep 0 (sample_capability "a" ["x"] ["m"; "y"] 3) m1 in
    let s2 := makeStep 1 (sample_capability "d" ["y"] ["goal"] 1) m2 in
    m1 ∈ matchAll ["x"] facts /\ m2 ∈ matchAll ["y"] (facts ++ st_outputs s1) /\
    is_Some (resolveGoals ["goal"] (facts ++ st_outputs s1 ++ st_outputs s2)))
    as (m1 & m2 & Hm1 & Hm2 & results & Hr).
  { eexists _, _. split; [vm_compute; left|]. split; [vm_compute; left|].
    vm_compute. by eexists. }
  eexists {| pg_goals := ["goal"]; pg_steps := [_; _]; pg_totalCost := _; pg_results := results |}.
  split; [|done]. split; cbn [pg_goals pg_steps pg_totalCost pg_results]; [done| |done|].
  - intros [|[|i]] st Hi; [injection Hi as <-..|done].
    + exists (sample_capability "a" ["x"] ["m"; "y"] 3), m1.
      split; [left|]. split; [done|]. by split.
    + exists (sample_capability "d" ["y"] ["goal"] 1), m2. split; [do 3 right; left|].
      split; [done|]. split; [|done]. exact Hm2.
  - exact Hr.
Qed.
