(* ===== verification/PlannerEnrich.v ===== *)
(** * Theory of the planner's enrichment

    The ancestry check decides reachability among steps; the passes of the
    enrichment end; and an enriched program is executable, repeats no invocation
    and no capability within one lineage, and is saturated. *)

From S2P Require Import Prelude Ids Term Contracts Planner PlannerMatch PlannerSearch.

Open Scope stdpp_scope.

(** ** Ancestry *)

Definition step_of (steps : list PlanStep) (id : string) : option PlanStep :=
  js_find (fun candidate => bool_decide (st_id candidate = id)) steps.

Definition source_step (v : PlanValue) : option string :=
  match pv_source v with SrcStep id _ => Some id | SrcIngredient _ => None end.

(** [v] was computed, directly or not, by an invocation of [capability]. *)
Inductive in_ancestry (steps : list PlanStep) (capability : string) : PlanValue -> Prop :=
| ancestry_here v id step :
    source_step v = Some id -> step_of steps id = Some step -> st_capability step = capability ->
    in_ancestry steps capability v
| ancestry_input v id step input :
    source_step v = Some id -> step_of steps id = Some step -> input ∈ st_inputs step ->
    in_ancestry steps capability input -> in_ancestry steps capability v.

Section Ancestry.
Context (steps : list PlanStep) (capability : string).

Definition step_id_set : gset string := list_to_set (st_id <$> steps).

(** The search below a list of inputs. *)
Definition some_ancestry (fuel : nat) : list PlanValue -> gset string -> bool * gset string :=
  fix some (inputs : list PlanValue) (visited : gset string) :=
    match inputs with
    | [] => (false, visited)
    | input :: inputs =>
        match hasCapabilityInAncestry fuel input capability steps visited with
        | (true, visited) => (true, visited)
        | (false, visited) => some inputs visited
        end
    end.

Lemma hasCapability_unfold fuel v visited :
  hasCapabilityInAncestry (S fuel) v capability steps visited =
  match source_step v with
  | None => (false, visited)
  | Some id =>
      if decide (id ∈ visited) then (false, visited)
      else match step_of steps id with
           | None => (false, {[id]} ∪ visited)
           | Some step =>
               if bool_decide (st_capability step = capability) then (true, {[id]} ∪ visited)
               else some_ancestry fuel (st_inputs step) ({[id]} ∪ visited)
           end
  end.
Proof. unfold source_step, step_of. cbn. by destruct (pv_source v). Qed.

(** Node [id] was left without finding the capability, and what it reads is in
    [visited]. *)
Definition closed_at (visited : gset string) (id : string) : Prop :=
  forall step, step_of steps id = Some step ->
    st_capability step <> capability /\
    forall v i, v ∈ st_inputs step -> source_step v = Some i -> i ∈ visited.

Lemma step_of_in id step : step_of steps id = Some step -> id ∈ step_id_set.
Proof.
  intros [Hin E%bool_decide_eq_true]%js_find_Some. apply elem_of_list_to_set.
  apply list_elem_of_fmap. eauto.
Qed.

Definition search_ok (roots : list PlanValue) (visited : gset string)
    (answer : bool * gset string) : Prop :=
  if answer.1 then Exists (in_ancestry steps capability) roots
  else visited ⊆ answer.2 /\
       (forall v i, v ∈ roots -> source_step v = Some i -> i ∈ answer.2) /\
       forall i, i ∈ answer.2 -> i ∉ visited -> closed_at answer.2 i.

Lemma closed_at_mono visited visited' i : visited ⊆ visited' -> closed_at visited i -> closed_at visited' i.
Proof. intros Hsub Hc step Hs. destruct (Hc step Hs). split; [done|]. eauto. Qed.

Lemma some_ancestry_ok fuel :
  (forall v visited, size (step_id_set ∖ visited) < fuel ->
     search_ok [v] visited (hasCapabilityInAncestry fuel v capability steps visited)) ->
  forall inputs visited, size (step_id_set ∖ visited) < fuel ->
    search_ok inputs visited (some_ancestry fuel inputs visited).
Proof.
  intros IH. induction inputs as [|input inputs IHi]; intros visited Hsize.
  - split; cbn; [done|]. split; [by intros ? ? ?%not_elem_of_nil|done].
  - cbn. fold (some_ancestry fuel). specialize (IH input visited Hsize).
    destruct (hasCapabilityInAncestry fuel input capability steps visited) as [[] visited'].
    + cbn in *. apply Exists_cons in IH as [?|[]%Exists_nil]. by constructor.
    + destruct IH as (Hsub & Hin & Hcl); cbn [fst snd] in *.
      specialize (IHi visited'). destruct (some_ancestry fuel inputs visited') as [[] visited''].
      * constructor 2. apply IHi. eapply Nat.le_lt_trans; [|exact Hsize].
        apply subseteq_size. set_solver.
      * destruct IHi as (Hsub' & Hin' & Hcl').
        { eapply Nat.le_lt_trans; [|exact Hsize]. apply subseteq_size. set_solver. }
        cbn [fst snd] in *. split; [set_solver|]. split.
        -- intros v i [->|Hv]%elem_of_cons Hi; [|eauto]. apply Hsub'.
           by apply (Hin input); [left|].
        -- intros i Hi Hn. destruct (decide (i ∈ visited')); [|by apply Hcl'].
           by apply (closed_at_mono visited'), Hcl.
Qed.

Lemma hasCapability_ok fuel v visited :
  size (step_id_set ∖ visited) < fuel ->
  search_ok [v] visited (hasCapabilityInAncestry fuel v capability steps visited).
Proof.
  revert v visited. induction fuel as [|fuel IH]; intros v visited Hsize; [lia|].
  rewrite hasCapability_unfold. destruct (source_step v) as [id|] eqn:Hid.
  2: { split; cbn; [done|]. split; [|done]. intros v' i ->%list_elem_of_singleton. congruence. }
  assert (forall v' i, v' ∈ [v] -> source_step v' = Some i -> i = id) as Hroot.
  { intros v' i ->%list_elem_of_singleton. congruence. }
  case_decide as Hvis.
  { split; cbn; [done|]. split; [|done]. by intros v' i Hv ->%(Hroot v'). }
  destruct (step_of steps id) as [step|] eqn:Hstep.
  2: { split; cbn; [set_solver|]. split; [intros v' i Hv ->%(Hroot v'); set_solver|].
       intros i Hi Hn. assert (i = id) as -> by set_solver. intros step. by rewrite Hstep. }
  case_bool_decide as Hcap; [by constructor; econstructor|].
  assert (size (step_id_set ∖ ({[id]} ∪ visited)) < fuel) as Hsize'.
  { apply Nat.lt_le_trans with (size (step_id_set ∖ visited)); [|lia].
    apply subset_size. pose proof (step_of_in _ _ Hstep). set_solver. }
  pose proof (some_ancestry_ok fuel IH (st_inputs step) _ Hsize') as Hs.
  destruct (some_ancestry fuel (st_inputs step) ({[id]} ∪ visited)) as [[] visited'].
  - cbn in *. constructor. apply Exists_exists in Hs as (input & ? & ?).
    by eapply ancestry_input.
  - destruct Hs as (Hsub & Hin & Hcl). cbn [fst snd] in *. split; [set_solver|].
    split; [intros v' i Hv ->%(Hroot v'); [set_solver|done]|].
    intros i Hi Hn. destruct (decide (i = id)) as [->|Hne]; [|apply Hcl; set_solver].
    intros step' Hs'. rewrite Hstep in Hs'. injection Hs' as <-. auto.
Qed.

Lemma closed_no_ancestry visited v :
  (forall i, i ∈ visited -> closed_at visited i) ->
  (forall i, source_step v = Some i -> i ∈ visited) -> ~ in_ancestry steps capability v.
Proof.
  intros Hcl Hv Ha. induction Ha as [v id step Hid Hs Hc|v id step input Hid Hs Hin Ha IH].
  - by apply (Hcl id (Hv id Hid) step Hs).
  - apply IH. intros i Hi. by apply (Hcl id (Hv id Hid) step Hs) with input.
Qed.

Lemma hasCapability_spec v :
  fst (hasCapabilityInAncestry (S (length steps)) v capability steps ∅) = true <->
  in_ancestry steps capability v.
Proof.
  assert (size (step_id_set ∖ ∅) < S (length steps)) as Hsize.
  { rewrite difference_empty_L. unfold step_id_set.
    pose proof (size_list_to_set_le (st_id <$> steps)). rewrite length_fmap in *.
    lia. }
  pose proof (hasCapability_ok _ v ∅ Hsize) as Hs.
  destruct (hasCapabilityInAncestry _ v capability steps ∅) as [[] visited]; cbn in *.
  - split; [|done]. intros _. by apply Exists_cons in Hs as [?|[]%Exists_nil].
  - split; [discriminate|]. intros Ha. exfalso. destruct Hs as (_ & Hin & Hcl).
    eapply closed_no_ancestry; [|by intros i Hi; apply (Hin v); [left|]|exact Ha].
    intros i Hi. apply Hcl; [done|set_solver].
Qed.
End Ancestry.

(** ** What the passes keep *)

Definition stepKey (step : PlanStep) : string := inputsKey (st_capability step) (st_inputs step).

(** Step number [i] is a new invocation of an eligible capability, none of whose
    inputs descends from that capability. *)
Definition enriching_step (caps : list Capability) (families : list string)
    (facts : list PlanValue) (steps : list PlanStep) (i : nat) (step : PlanStep) : Prop :=
  exists c m, c ∈ caps /\ is_eligible families c = true /\
    m ∈ matchAll (cap_requires c) (facts_before facts (take i steps)) /\ step = makeStep i c m /\
    stepKey step ∉ stepKey <$> take i steps /\
    forall v, v ∈ rm_inputs m -> ~ in_ancestry (take i steps) (cap_id c) v.

(** The invocation is not made: it was made before, or an input descends from
    the capability. *)
Definition blocked (c : Capability) (steps : list PlanStep) (m : RequirementMatch) : Prop :=
  (exists v, v ∈ rm_inputs m /\ in_ancestry steps (cap_id c) v) \/
  invocationKey c (rm_inputs m) ∈ stepKey <$> steps.

Section Enrich.
Context (caps : list Capability) (families : list string) (facts : list PlanValue)
  (initial : list PlanStep) (maxSteps : nat).

Record enrich_ok (st : Enrichment) : Prop := {
  eo_prefix : exists added, en_steps st = initial ++ added;
  eo_facts : en_facts st = facts_before facts (en_steps st);
  eo_invoked : en_invoked st = list_to_set (stepKey <$> en_steps st);
  eo_steps : forall i step, length initial <= i -> en_steps st !! i = Some step ->
    enriching_step caps families facts (en_steps st) i step;
  eo_bound : length (en_steps st) <= Nat.max (length initial) maxSteps
}.

Definition add_step (c : Capability) (m : RequirementMatch) (st : Enrichment) : Enrichment :=
  let step := makeStep (length (en_steps st)) c m in
  {| en_steps := en_steps st ++ [step];
     en_invoked := {[invocationKey c (rm_inputs m)]} ∪ en_invoked st;
     en_facts := en_facts st ++ st_outputs step |}.

Lemma enrich_match_cases c m st b :
  enrich_ok st ->
  match enrich_match maxSteps c m st b with
  | Continue st' b' =>
      (st' = st /\ b' = b /\ blocked c (en_steps st) m) \/
      (st' = add_step c m st /\ b' = true /\ length (en_steps st) < maxSteps /\
       ~ blocked c (en_steps st) m)
  | LimitReached _ => maxSteps <= length (en_steps st)
  end.
Proof.
  intros [_ _ Hinv _ _]. unfold enrich_match.
  destruct (existsb _ (rm_inputs m)) eqn:E.
  { left. split; [done|]. split; [done|]. left. apply existsb_elem in E as (v & Hv & Ha).
    exists v. split; [done|]. by apply hasCapability_spec. }
  rewrite existsb_elem_false in E.
  assert (invocationKey c (rm_inputs m) ∈ en_invoked st <->
          invocationKey c (rm_inputs m) ∈ stepKey <$> en_steps st) as Hk.
  { by rewrite Hinv, elem_of_list_to_set. }
  case_decide as Hin; [left; split; [done|split; [done|]]; by right; apply Hk|].
  destruct (Nat.leb_spec maxSteps (length (en_steps st))); [done|]. right.
  split; [done|]. split; [done|]. split; [done|]. intros [(v & Hv & Ha)|?%Hk]; [|done].
  apply hasCapability_spec in Ha. by rewrite (E v Hv) in Ha.
Qed.

Lemma matchAll_more reqs (l k : list PlanValue) m : m ∈ matchAll reqs l -> m ∈ matchAll reqs (l ++ k).
Proof.
  rewrite !elem_of_matchAll. intros [Hf Hu]. split; [|done].
  eapply Forall_impl; [exact Hf|]. cbn. intros v ?. apply elem_of_app. by left.
Qed.

Lemma enrich_ok_add c m st :
  enrich_ok st -> c ∈ caps -> is_eligible families c = true ->
  m ∈ matchAll (cap_requires c) (en_facts st) -> ~ blocked c (en_steps st) m ->
  length (en_steps st) < maxSteps -> enrich_ok (add_step c m st).
Proof.
  intros [[added Hp] Hf Hi Hs Hb] Hc He Hm Hbl Hlt.
  split; cbn [add_step en_steps en_invoked en_facts].
  - exists (added ++ [makeStep (length (en_steps st)) c m]). by rewrite app_assoc, <- Hp.
  - by rewrite facts_before_snoc, Hf.
  - rewrite fmap_app, list_to_set_app_L, Hi, union_comm_L. f_equal.
    by rewrite list_fmap_singleton, list_to_set_singleton_L.
  - intros i step Hle Hi'. apply lookup_snoc_Some in Hi' as [[Hlti Hi']|[-> <-]].
    + destruct (Hs i step Hle Hi') as (c' & m' & H). exists c', m'.
      rewrite take_app_le by lia. done.
    + exists c, m. rewrite take_app_length, <- Hf. split; [done|]. split; [done|].
      split; [done|]. split; [reflexivity|]. split; [by intros ?; apply Hbl; right|].
      intros v Hv ?. apply Hbl. left. eauto.
  - rewrite length_app. cbn. lia.
Qed.

(** What a run of matches does: nothing, because they are blocked, or it adds
    steps and reports a change. *)
Definition run_ok (P : list PlanStep -> Prop) (st : Enrichment) (b : bool) (o : Outcome) : Prop :=
  match o with
  | Continue st' b' => enrich_ok st' /\ (exists k, en_facts st' = en_facts st ++ k) /\
      ((st' = st /\ b' = b /\ P (en_steps st)) \/
       (b' = true /\ length (en_steps st) < length (en_steps st')))
  | LimitReached _ => True
  end.

Lemma enrich_matches_ok c ms st b :
  enrich_ok st -> c ∈ caps -> is_eligible families c = true ->
  Forall (fun m => m ∈ matchAll (cap_requires c) (en_facts st)) ms ->
  run_ok (fun steps => Forall (blocked c steps) ms) st b (enrich_matches maxSteps c ms st b).
Proof.
  intros Hok Hc He. revert st b Hok. induction ms as [|m ms IH]; intros st b Hok Hms; cbn.
  { split; [done|]. split; [exists []; by rewrite app_nil_r|]. left. by repeat constructor. }
  apply Forall_cons in Hms as [Hm Hms].
  pose proof (enrich_match_cases c m st b Hok) as Hcase.
  destruct (enrich_match maxSteps c m st b) as [st1 b1|]; [|done].
  destruct Hcase as [(-> & -> & Hbl)|(-> & -> & Hlt & Hbl)].
  - specialize (IH st b Hok Hms). destruct (enrich_matches _ _ _ _ _); [|done].
    destruct IH as (? & ? & [(? & ? & ?)|?]); (split; [done|]; split; [done|]); [left|by right].
    repeat split; try done. by constructor.
  - assert (enrich_ok (add_step c m st)) as Hok' by by apply enrich_ok_add.
    specialize (IH (add_step c m st) true Hok').
    destruct (enrich_matches _ _ _ _ _) as [st2 b2|]; [|done].
    destruct IH as (? & (k & Hk) & Hor).
    { eapply Forall_impl; [exact Hms|]. intros m'. apply matchAll_more. }
    split; [done|]. split; [eexists; rewrite Hk; cbn; by rewrite <- app_assoc|]. right.
    assert (length (en_steps st) < length (en_steps (add_step c m st))) as Hgrow.
    { cbn. rewrite length_app. cbn. lia. }
    destruct Hor as [(-> & -> & _)|(-> & ?)]; (split; [done|lia]).
Qed.

(** Every match of the eligible capabilities is blocked. *)
Definition saturated (eligible : list Capability) (steps : list PlanStep) : Prop :=
  Forall (fun c => Forall (blocked c steps)
    (matchAll (cap_requires c) (facts_before facts steps))) eligible.

Lemma enrich_pass_ok eligible st b :
  enrich_ok st -> Forall (fun c => c ∈ caps /\ is_eligible families c = true) eligible ->
  run_ok (saturated eligible) st b (enrich_pass maxSteps eligible st b).
Proof.
  intros Hok Hall. revert st b Hok. induction Hall as [|c eligible [Hc He] _ IH]; intros st b Hok; cbn.
  { split; [done|]. split; [exists []; by rewrite app_nil_r|]. left. by repeat constructor. }
  pose proof (enrich_matches_ok c (matchAll (cap_requires c) (en_facts st)) st b Hok Hc He
    ltac:(by apply Forall_forall)) as Hm.
  destruct (enrich_matches _ _ _ _ _) as [st1 b1|]; [|done].
  destruct Hm as (Hok1 & (k & Hk) & Hor). specialize (IH st1 b1 Hok1).
  destruct (enrich_pass _ _ _ _) as [st2 b2|]; [|done].
  destruct IH as (Hok2 & (k' & Hk') & Hor').
  split; [done|]. split; [exists (k ++ k'); by rewrite Hk', Hk, app_assoc|].
  destruct Hor as [(-> & -> & Hbl)|(-> & ?)]; destruct Hor' as [(-> & -> & ?)|(-> & ?)];
    [left|right; split; [done|lia]..].
  repeat split; [constructor; [|done]]. by rewrite <- (eo_facts _ Hok).
Qed.

Lemma enrich_loop_ok passes eligible st :
  enrich_ok st -> Forall (fun c => c ∈ caps /\ is_eligible families c = true) eligible ->
  Nat.max (length initial) maxSteps - length (en_steps st) < passes ->
  match enrich_loop passes maxSteps eligible st with
  | Some (Continue st' _) => enrich_ok st' /\ saturated eligible (en_steps st')
  | Some (LimitReached _) => True
  | None => False
  end.
Proof.
  intros Hok Hall. revert st Hok. induction passes as [|passes IH]; intros st Hok Hlt; [lia|].
  cbn. pose proof (enrich_pass_ok eligible st false Hok Hall) as Hp.
  destruct (enrich_pass maxSteps eligible st false) as [st1 [|]|]; [| |done].
  - destruct Hp as (Hok1 & _ & [(_ & [=] & _)|(_ & Hgrow)]).
    apply IH; [done|]. pose proof (eo_bound _ Hok1). lia.
  - destruct Hp as (Hok1 & _ & [(-> & _ & Hsat)|([=] & _)]). done.
Qed.
End Enrich.

(** ** Enrichment plans *)

(** [program] extends [initial] by enriching steps until every eligible
    invocation is blocked. *)
Record enriched_program (caps : list Capability) (families : list string)
    (facts : list PlanValue) (initial : list PlanStep) (program : AdHocProgram) : Prop := {
  ep_prefix : exists added, pg_steps program = initial ++ added;
  ep_steps : forall i step, length initial <= i -> pg_steps program !! i = Some step ->
    enriching_step caps families facts (pg_steps program) i step;
  ep_saturated : forall c m, c ∈ caps -> is_eligible families c = true ->
    m ∈ matchAll (cap_requires c) (facts_before facts (pg_steps program)) ->
    blocked c (pg_steps program) m;
  ep_results : pg_results program = facts_before facts (pg_steps program);
  ep_cost : pg_totalCost program = total_cost (pg_steps program)
}.

Lemma expandEnrichment_ok `{Collation} caps facts initial families max_steps goals :
  match expandEnrichment caps (facts_before facts initial) initial families max_steps goals with
  | Some (Enriched program _) =>
      enriched_program caps families facts initial program /\
      length (pg_steps program) <=
        Nat.max (length initial) (default DEFAULT_MAX_ENRICHMENT_STEPS max_steps)
  | Some (EnrichmentFailed _ _) => True
  | None => False
  end.
Proof.
  unfold expandEnrichment. set (maxSteps := default DEFAULT_MAX_ENRICHMENT_STEPS max_steps).
  set (eligible := js_sort by_id _). set (start := {| en_steps := initial |}).
  assert (forall c, c ∈ eligible <-> c ∈ caps /\ is_eligible families c = true) as Hel.
  { intros c. subst eligible. rewrite elem_of_js_sort, list_elem_of_filter, Is_true_true. tauto. }
  pose proof (enrich_loop_ok caps families facts initial maxSteps (S maxSteps) eligible start) as Hl.
  destruct (enrich_loop _ _ _ _) as [[st b|n]|]; [|done|].
  - destruct Hl as ([Hp Hf Hi Hs Hb] & Hsat).
    + split; cbn; [exists []; by rewrite app_nil_r|done|done| |lia].
      intros i step Hle Hi. apply lookup_lt_Some in Hi. lia.
    + apply Forall_forall. apply Hel.
    + cbn. lia.
    + split; [|done]. split; cbn; [done|done| |done|done].
      intros c m Hc He Hm. unfold saturated in Hsat. rewrite Forall_forall in Hsat.
      specialize (Hsat c (proj2 (Hel c) (conj Hc He))). rewrite Forall_forall in Hsat. auto.
  - destruct Hl; [|apply Forall_forall; apply Hel|cbn; lia].
    split; cbn; [exists []; by rewrite app_nil_r|done|done| |lia].
    intros i step Hle Hi. apply lookup_lt_Some in Hi. lia.
Qed.

Lemma facts_before_nil facts : facts_before facts [] = facts.
Proof. apply app_nil_r. Qed.

(** [hasCapabilityInAncestry], with the fuel the enrichment gives it,
    decides whether the capability was invoked anywhere in the computation of
    the value, even where steps read one another in a cycle. *)
Theorem hasCapabilityInAncestry_decides (steps : list PlanStep) (capability : string)
    (v : PlanValue) :
  fst (hasCapabilityInAncestry (S (length steps)) v capability steps ∅) = true <->
  in_ancestry steps capability v.
Proof. apply hasCapability_spec. Qed.

(** The loops of the enrichment end: [maxSteps + 1] passes are enough to
    saturate or to reach the safety limit, after a directed search too. *)
Theorem enrichment_terminates `{Collation} (caps : list Capability)
    (ingredients : list Ingredient) (goals families : list string) (options : SolveOptions) :
  planEnrichment caps ingredients families (so_maxSteps options) <> None /\
  planGoalThenEnrichment caps ingredients goals families options <> None.
Proof.
  split.
  - unfold planEnrichment.
    pose proof (expandEnrichment_ok caps (ingredientValue <$> ingredients) [] families
      (so_maxSteps options) []) as He.
    rewrite facts_before_nil in He. by destruct (expandEnrichment _ _ _ _ _ _).
  - unfold planGoalThenEnrichment. destruct (solve _ _ _ _) as [exact n|]; [|done].
    pose proof (expandEnrichment_ok caps (ingredientValue <$> ingredients) (pg_steps exact) families
      (so_maxSteps options) goals) as He.
    unfold facts_before in He. by destruct (expandEnrichment _ _ _ _ _ _).
Qed.

(** An enrichment of given facts invokes only eligible capabilities, each on
    facts present by then, never the same invocation twice and never on a value
    that descends from the same capability; and it is complete: every further
    invocation of an eligible capability on the facts it ends with would repeat
    an invocation or descend from its own capability. *)
Theorem planEnrichment_saturates `{Collation} (caps : list Capability)
    (ingredients : list Ingredient) (families : list string) (max_steps : option nat)
    (program : AdHocProgram) (explored : nat) :
  planEnrichment caps ingredients families max_steps = Some (Enriched program explored) ->
  enriched_program caps families (ingredientValue <$> ingredients) [] program /\
  NoDup (stepKey <$> pg_steps program) /\
  length (pg_steps program) <= default DEFAULT_MAX_ENRICHMENT_STEPS max_steps.
Proof.
  unfold planEnrichment. intros Heq.
  pose proof (expandEnrichment_ok caps (ingredientValue <$> ingredients) [] families
    max_steps []) as He.
  rewrite facts_before_nil, Heq in He. destruct He as [He Hb]. split; [done|]. split; [|done].
  apply NoDup_alt. intros i j k Hi Hj. rewrite !list_lookup_fmap in Hi, Hj.
  destruct (pg_steps program !! i) as [a|] eqn:Ea, (pg_steps program !! j) as [b|] eqn:Eb;
    try discriminate. injection Hi as <-. injection Hj as Hk.
  assert (forall i j a b, i < j -> pg_steps program !! i = Some a ->
    pg_steps program !! j = Some b -> stepKey b <> stepKey a) as Hne.
  { clear -He. intros i j a b Hlt Ha Hb E.
    destruct (ep_steps _ _ _ _ _ He j b (Nat.le_0_l j) Hb) as (c & m & _ & _ & _ & _ & Hn & _).
    apply Hn. rewrite E. apply list_elem_of_fmap. exists a. split; [done|].
    apply list_elem_of_lookup. exists i. by rewrite lookup_take_lt. }
  destruct (Nat.lt_total i j) as [Hlt|[?|Hlt]]; [|done|].
  - by destruct (Hne i j a b).
  - by destruct (Hne j i b a).
Qed.

Lemma planEnrichment_saturates_witness :
  match planEnrichment (H := string_cmp) sample_capabilities sample_ingredients ["fields"; "text"]
          (Some 7) with
  | Some (Enriched program explored) =>
      length (pg_steps program) = 2 /\ explored = 2 /\ NoDup (stepKey <$> pg_steps program)
  | _ => False
  end.
Proof.
  destruct (planEnrichment (H := string_cmp) sample_capabilities sample_ingredients
    ["fields"; "text"] (Some 7)) as [[program n|]|] eqn:E;
    [|vm_compute in E; discriminate..].
  pose proof (planEnrichment_saturates (H := string_cmp) _ _ _ _ _ _ E) as (_ & Hn & _).
  split; [vm_compute in E; by injection E as <- _|].
  split; [vm_compute in E; by injection E as _ <-|exact Hn].
Defined.

(** The enrichment of a goal keeps the directed program: it either fails as
    [solve] does, or extends a valid program for the goals, without changing its
    steps, by an enrichment of its facts. *)
Theorem planGoalThenEnrichment_extends `{Collation} (caps : list Capability)
    (ingredients : list Ingredient) (goals families : list string) (options : SolveOptions)
    (program : AdHocProgram) (invocations explored : nat) :
  planGoalThenEnrichment caps ingredients goals families options =
    Some (Enriched program invocations, explored) ->
  exists directed, solve caps ingredients goals options = Solved directed explored /\
    valid_steps caps (ingredientValue <$> ingredients) (pg_steps directed) /\
    enriched_program caps families (ingredientValue <$> ingredients) (pg_steps directed) program.
Proof.
  unfold planGoalThenEnrichment.
  destruct (solve caps ingredients goals options) as [directed n|] eqn:E; [|discriminate].
  pose proof (expandEnrichment_ok caps (ingredientValue <$> ingredients) (pg_steps directed) families
    (so_maxSteps options) goals) as He. unfold facts_before in He.
  destruct (expandEnrichment _ _ _ _ _ _) as [r|]; [|discriminate].
  intros [= -> ->]. exists directed. split; [done|]. split; [|apply He].
  by apply solve_valid in E as [].
Qed.

Lemma planGoalThenEnrichment_extends_witness :
  match planGoalThenEnrichment (H := string_cmp) sample_capabilities sample_ingredients ["text(doc)"]
          ["fields"] {| so_maxSteps := None; so_maxStates := None |} with
  | Some (Enriched program _, explored) =>
      length (pg_steps program) = 2 /\ exists directed, length (pg_steps directed) = 1 /\
      enriched_program sample_capabilities ["fields"] (ingredientValue <$> sample_ingredients)
        (pg_steps directed) program
  | _ => False
  end.
Proof.
  destruct (planGoalThenEnrichment (H := string_cmp) sample_capabilities sample_ingredients
    ["text(doc)"] ["fields"] {| so_maxSteps := None; so_maxStates := None |})
    as [[[program n|] explored]|] eqn:E; [|vm_compute in E; discriminate..].
  destruct (planGoalThenEnrichment_extends (H := string_cmp) _ _ _ _ _ _ _ _ E)
    as (directed & Hd & _ & He).
  split; [vm_compute in E; by injection E as <- _|]. exists directed. split; [|exact He].
  vm_compute in Hd. by injection Hd as <- _.
Defined.
