(* ===== verification/Registry.v ===== *)
(** * The actor registry

    [libs/aven-actors/src/registry.ts]: definitions derived from manifests, and
    the catalog of definitions, instances and offers, as a state with one
    operation per method.  The revisions [onChange] is called with are part of
    the state.  [immutableCopy] copies a value and freezes the copy: on the
    immutable values of the model it is the identity. *)

From S2P Require Import Prelude Ids Term Contracts Planner.

Open Scope stdpp_scope.

(** ** Data *)

Inductive ExecutionEnvironment := Local | Server.

Definition environment_text (e : ExecutionEnvironment) : string :=
  match e with Local => "local" | Server => "server" end.
Inductive InstanceStatus := Available | Draining | Unavailable.
Inductive ActorAddress :=
| AddrLocal (value : string) | AddrHttp (value : string)
| AddrWorker (value : string) | AddrOpaque (value : string).
Inductive Lifetime := LShared | LSession | LRun | LStep.

#[export] Instance ExecutionEnvironment_eq_dec : EqDecision ExecutionEnvironment.
Proof. solve_decision. Defined.
#[export] Instance InstanceStatus_eq_dec : EqDecision InstanceStatus.
Proof. solve_decision. Defined.

Record ActorDefinition := {
  ad_ref : string;
  ad_id : string;
  ad_version : string;
  ad_label : string;
  ad_description : string;
  ad_tags : list string;
  ad_manifest : Manifest;
  ad_capabilities : list Capability
}.

Record ActorInstanceAdvertisement := {
  ai_instanceId : string;
  ai_definitionRef : string;
  ai_label : string;
  ai_address : ActorAddress;
  ai_capabilityIds : list string;
  ai_status : InstanceStatus;
  ai_executionEnvironment : ExecutionEnvironment;
  ai_locality : option string;
  ai_trustDomain : option string;
  ai_cost : option Z;
  ai_latencyMs : option Z;
  ai_expiresAt : option string;
  ai_metadata : option jobject
}.

Record ActorFactoryOffer := {
  of_offerId : string;
  of_factoryId : string;
  of_definitionRef : string;
  of_label : string;
  of_capabilityIds : list string;
  of_executionEnvironment : ExecutionEnvironment;
  of_configurationSchema : option jobject;
  of_defaultConfiguration : option jobject;
  of_locality : option string;
  of_trustDomain : option string;
  of_cost : option Z;
  of_latencyMs : option Z;
  of_lifetime : option Lifetime;
  of_metadata : option jobject
}.

Record ActorRegistrySnapshot := {
  sn_revision : nat;
  sn_capturedAt : string;
  sn_definitions : list ActorDefinition;
  sn_instances : list ActorInstanceAdvertisement;
  sn_offers : list ActorFactoryOffer
}.

Record RegisterActorOptions := {
  ro_version : option string;
  ro_label : option string;
  ro_status : option InstanceStatus;
  ro_executionEnvironment : option ExecutionEnvironment;
  ro_locality : option string;
  ro_trustDomain : option string;
  ro_cost : option Z;
  ro_latencyMs : option Z;
  ro_expiresAt : option string;
  ro_metadata : option jobject
}.

(** What the registry reads of an actor: its manifest, the contracts its machine
    publishes, its identity. *)
Record RegisteredActor := {
  ra_manifest : Manifest;
  ra_requires : list string;
  ra_produces : list string;
  ra_uuid : string;
  ra_instanceName : string
}.

(** ** Definitions *)

Definition definitionRef (id version authority namespace : string) : result string :=
  resourceId {| rn_authority := authority; rn_kind := "actor"; rn_namespace := namespace;
                rn_name := id; rn_version := version |}.

Definition methodCapability (manifest : Manifest) (version ref : string)
    (actorRequires actorProduces : list string) (method : MethodSpec) : result (list Capability) :=
  let requires := default actorRequires (ms_requires method) in
  let produces := default actorProduces (ms_produces method) in
  if bool_decide (produces = []) then Ok []
  else
    id ← resourceId {| rn_authority := mf_authority manifest; rn_kind := "capability";
                       rn_namespace := mf_namespace manifest +:+ "." +:+ mf_id manifest;
                       rn_name := ms_name method; rn_version := version |};
    Ok [{| cap_id := id; cap_actor := ref; cap_method := ms_name method;
           cap_requires := requires; cap_produces := produces; cap_cost := ms_cost method;
           cap_available := None;
           cap_mode := Some (default MTransform (ms_mode method));
           cap_idempotency := Some (default INone (ms_idempotency method));
           cap_parametersSchema := Some (ms_parameters method);
           cap_inputSlots := ms_inputSlots method; cap_outputSlots := ms_outputSlots method |}].

Definition methodCapabilities (manifest : Manifest) (version : string)
    (actorRequires actorProduces : list string) : result (list Capability) :=
  ref ← definitionRef (mf_id manifest) version (mf_authority manifest) (mf_namespace manifest);
  mjoin <$> mapM (methodCapability manifest version ref actorRequires actorProduces)
              (mf_methods manifest).

Definition definitionFromManifest (manifest : Manifest) (version : option string) :
    result ActorDefinition :=
  let version := default (mf_version manifest) version in
  ref ← definitionRef (mf_id manifest) version (mf_authority manifest) (mf_namespace manifest);
  capabilities ← methodCapabilities manifest version
                   (default [] (mf_requires manifest)) (default [] (mf_produces manifest));
  Ok {| ad_ref := ref; ad_id := mf_id manifest; ad_version := version;
        ad_label := mf_name manifest; ad_description := mf_description manifest;
        ad_tags := mf_tags manifest; ad_manifest := manifest; ad_capabilities := capabilities |}.

Definition definitionFromActor (actor : RegisteredActor) (version : option string) :
    result ActorDefinition :=
  let version := default (mf_version (ra_manifest actor)) version in
  definition ← definitionFromManifest (ra_manifest actor) (Some version);
  capabilities ← methodCapabilities (ra_manifest actor) version
                   (ra_requires actor) (ra_produces actor);
  Ok {| ad_ref := ad_ref definition; ad_id := ad_id definition;
        ad_version := ad_version definition; ad_label := ad_label definition;
        ad_description := ad_description definition; ad_tags := ad_tags definition;
        ad_manifest := ad_manifest definition; ad_capabilities := capabilities |}.

(** ** The registry *)

(** The maps are JavaScript [Map]s, in insertion order; [rg_notified] lists the
    revisions [onChange] was called with, the latest first. *)
Record ActorRegistry := {
  rg_revision : nat;
  rg_definitions : list (string * ActorDefinition);
  rg_instances : list (string * ActorInstanceAdvertisement);
  rg_offers : list (string * ActorFactoryOffer);
  rg_notified : list nat
}.

Definition new_registry : ActorRegistry :=
  {| rg_revision := 0; rg_definitions := []; rg_instances := []; rg_offers := [];
     rg_notified := [] |}.

Definition changed (r : ActorRegistry) : ActorRegistry :=
  {| rg_revision := S (rg_revision r); rg_definitions := rg_definitions r;
     rg_instances := rg_instances r; rg_offers := rg_offers r;
     rg_notified := S (rg_revision r) :: rg_notified r |}.

Definition set_definitions f (r : ActorRegistry) : ActorRegistry :=
  {| rg_revision := rg_revision r; rg_definitions := f (rg_definitions r);
     rg_instances := rg_instances r; rg_offers := rg_offers r; rg_notified := rg_notified r |}.
Definition set_instances f (r : ActorRegistry) : ActorRegistry :=
  {| rg_revision := rg_revision r; rg_definitions := rg_definitions r;
     rg_instances := f (rg_instances r); rg_offers := rg_offers r; rg_notified := rg_notified r |}.
Definition set_offers f (r : ActorRegistry) : ActorRegistry :=
  {| rg_revision := rg_revision r; rg_definitions := rg_definitions r;
     rg_instances := rg_instances r; rg_offers := f (rg_offers r); rg_notified := rg_notified r |}.

(** [if (unknown)]: an unknown capability named by the empty string is let through. *)
Definition assertCapabilities (r : ActorRegistry) (ref : string) (capabilityIds : list string) :
    result unit :=
  match map_get ref (rg_definitions r) with
  | None => Throw ("unknown actor definition " +:+ ref)
  | Some definition =>
      let known := cap_id <$> ad_capabilities definition in
      match truthy (js_find (fun capabilityId => negb (includes known capabilityId)) capabilityIds) with
      | Some unknown => Throw (unknown +:+ " is not a capability of " +:+ ref)
      | None => Ok tt
      end
  end.

Definition registerDefinition (definition : ActorDefinition) (r : ActorRegistry) : ActorRegistry :=
  changed (set_definitions (map_set (ad_ref definition) definition) r).

Definition registerManifest (manifest : Manifest) (version : option string) (r : ActorRegistry) :
    result (ActorDefinition * ActorRegistry) :=
  definition ← definitionFromManifest manifest version;
  Ok (definition, registerDefinition definition r).

Definition advertiseInstance (advertisement : ActorInstanceAdvertisement) (r : ActorRegistry) :
    result ActorRegistry :=
  _ ← assertCapabilities r (ai_definitionRef advertisement) (ai_capabilityIds advertisement);
  Ok (changed (set_instances (map_set (ai_instanceId advertisement) advertisement) r)).

Definition registerActor (actor : RegisteredActor) (options : RegisterActorOptions)
    (r : ActorRegistry) : result (ActorInstanceAdvertisement * ActorRegistry) :=
  definition ← definitionFromActor actor (ro_version options);
  let r := registerDefinition definition r in
  let advertisement :=
    {| ai_instanceId := ra_uuid actor;
       ai_definitionRef := ad_ref definition;
       ai_label := default (ra_instanceName actor) (ro_label options);
       ai_address := AddrLocal (ra_uuid actor);
       ai_capabilityIds := cap_id <$> ad_capabilities definition;
       ai_status := default Available (ro_status options);
       ai_executionEnvironment := default Local (ro_executionEnvironment options);
       ai_locality := truthy (ro_locality options);
       ai_trustDomain := truthy (ro_trustDomain options);
       ai_cost := ro_cost options;
       ai_latencyMs := ro_latencyMs options;
       ai_expiresAt := truthy (ro_expiresAt options);
       ai_metadata := ro_metadata options |} in
  r ← advertiseInstance advertisement r;
  Ok (advertisement, r).

Definition withdrawInstance (instanceId : string) (r : ActorRegistry) : ActorRegistry :=
  if map_has instanceId (rg_instances r)
  then changed (set_instances (map_delete instanceId) r) else r.

Definition publishOffer (offer : ActorFactoryOffer) (r : ActorRegistry) : result ActorRegistry :=
  _ ← assertCapabilities r (of_definitionRef offer) (of_capabilityIds offer);
  Ok (changed (set_offers (map_set (of_offerId offer) offer) r)).

Definition withdrawOffer (offerId : string) (r : ActorRegistry) : ActorRegistry :=
  if map_has offerId (rg_offers r)
  then changed (set_offers (map_delete offerId) r) else r.

Definition definition (ref : string) (r : ActorRegistry) : option ActorDefinition :=
  map_get ref (rg_definitions r).
Definition instance (instanceId : string) (r : ActorRegistry) : option ActorInstanceAdvertisement :=
  map_get instanceId (rg_instances r).
Definition offer (offerId : string) (r : ActorRegistry) : option ActorFactoryOffer :=
  map_get offerId (rg_offers r).

(** [now] is the clock's answer. *)
Definition snapshot (now : string) (r : ActorRegistry) : ActorRegistrySnapshot :=
  {| sn_revision := rg_revision r; sn_capturedAt := now;
     sn_definitions := (rg_definitions r).*2; sn_instances := (rg_instances r).*2;
     sn_offers := (rg_offers r).*2 |}.

(** ** Checks *)

Lemma assertCapabilities_Ok r ref ids :
  assertCapabilities r ref ids = Ok tt <->
  exists d, definition ref r = Some d /\
    truthy (js_find (fun id => negb (includes (cap_id <$> ad_capabilities d) id)) ids) = None.
Proof.
  unfold assertCapabilities, definition. destruct (map_get ref _) as [d|].
  - destruct (truthy _) as [u|] eqn:E; split; try discriminate.
    + intros (? & [= <-] & ?). congruence.
    + intros _. eauto.
    + done.
  - split; [discriminate|]. by intros (? & [=] & _).
Qed.

Lemma assertCapabilities_known r ref d ids :
  definition ref r = Some d -> (forall id, id ∈ ids -> id ∈ cap_id <$> ad_capabilities d) ->
  assertCapabilities r ref ids = Ok tt.
Proof.
  intros Hd Hk. apply assertCapabilities_Ok. exists d. split; [done|].
  rewrite (proj2 (js_find_None _ _)); [done|]. intros id Hid. apply negb_false_iff.
  unfold includes. apply bool_decide_eq_true. auto.
Qed.

(** ** The invariant *)

(** The operations that succeed. *)
Inductive registry_step (r : ActorRegistry) : ActorRegistry -> Prop :=
| step_definition d : registry_step r (registerDefinition d r)
| step_manifest m version d r' :
    registerManifest m version r = Ok (d, r') -> registry_step r r'
| step_actor actor options ad r' :
    registerActor actor options r = Ok (ad, r') -> registry_step r r'
| step_advertise ad r' : advertiseInstance ad r = Ok r' -> registry_step r r'
| step_withdraw id : registry_step r (withdrawInstance id r)
| step_publish o r' : publishOffer o r = Ok r' -> registry_step r r'
| step_withdraw_offer id : registry_step r (withdrawOffer id r).

Definition keyed {V} (key : V -> string) (m : list (string * V)) : Prop :=
  map_ok m /\ forall k v, map_get k m = Some v -> key v = k.

Definition resolved {V} (ref : V -> string) (m : list (string * V)) (r : ActorRegistry) : Prop :=
  forall k v, map_get k m = Some v -> is_Some (definition (ref v) r).

Record registry_ok (r : ActorRegistry) : Prop := {
  ro_definitions : keyed ad_ref (rg_definitions r);
  ro_instances : keyed ai_instanceId (rg_instances r);
  ro_offers : keyed of_offerId (rg_offers r);
  ro_instance_refs : resolved ai_definitionRef (rg_instances r) r;
  ro_offer_refs : resolved of_definitionRef (rg_offers r) r;
  ro_revisions : rg_notified r = rev (seq 1 (rg_revision r))
}.

Lemma keyed_set {V} (key : V -> string) v m : keyed key m -> keyed key (map_set (key v) v m).
Proof.
  intros [Hok Hk]. split; [auto with js|]. intros k w. rewrite map_get_set.
  case_decide; [by intros [= <-]|apply Hk].
Qed.

Lemma keyed_delete {V} (key : V -> string) k m : keyed key m -> keyed key (map_delete k m).
Proof.
  intros [Hok Hk]. split; [auto with js|]. intros k' w. rewrite map_get_delete.
  case_decide; [discriminate|apply Hk].
Qed.

Lemma resolved_set {V} (ref : V -> string) k v m r :
  is_Some (definition (ref v) r) -> resolved ref m r -> resolved ref (map_set k v m) r.
Proof.
  intros Hv Hm k' w. rewrite map_get_set. case_decide; [by intros [= <-]|apply Hm].
Qed.

Lemma resolved_delete {V} (ref : V -> string) k m r : resolved ref m r -> resolved ref (map_delete k m) r.
Proof. intros Hm k' w. rewrite map_get_delete. case_decide; [discriminate|apply Hm]. Qed.

Lemma resolved_register {V} (ref : V -> string) m d r :
  resolved ref m r -> resolved ref m (registerDefinition d r).
Proof.
  intros Hm k w Hw. unfold definition. cbn. rewrite map_get_set. case_decide; [done|].
  by apply (Hm k).
Qed.

Lemma changed_revisions r :
  rg_notified r = rev (seq 1 (rg_revision r)) ->
  rg_notified (changed r) = rev (seq 1 (rg_revision (changed r))).
Proof. intros E. cbn [changed rg_notified rg_revision]. by rewrite seq_S, rev_app_distr, <- E. Qed.

#[export] Hint Resolve keyed_set keyed_delete resolved_set resolved_delete resolved_register
  changed_revisions : js.

Lemma registerDefinition_ok d r : registry_ok r -> registry_ok (registerDefinition d r).
Proof.
  intros []. split; [by apply keyed_set|done|done|by apply resolved_register..|].
  by apply changed_revisions.
Qed.

Lemma advertiseInstance_ok ad r r' :
  registry_ok r -> advertiseInstance ad r = Ok r' -> registry_ok r'.
Proof.
  intros [] H. unfold advertiseInstance in H.
  destruct (assertCapabilities _ _ _) as [[]|] eqn:E; [|discriminate].
  injection H as <-. apply assertCapabilities_Ok in E as (d & Hd & _).
  split; [done|by apply keyed_set|done|apply resolved_set; [by eexists|done]|done|].
  by apply changed_revisions.
Qed.

Lemma publishOffer_ok o r r' : registry_ok r -> publishOffer o r = Ok r' -> registry_ok r'.
Proof.
  intros [] H. unfold publishOffer in H.
  destruct (assertCapabilities _ _ _) as [[]|] eqn:E; [|discriminate].
  injection H as <-. apply assertCapabilities_Ok in E as (d & Hd & _).
  split; [done|done|by apply keyed_set|done|apply resolved_set; [by eexists|done]|].
  by apply changed_revisions.
Qed.

Lemma registry_step_ok r r' : registry_ok r -> registry_step r r' -> registry_ok r'.
Proof.
  intros Hok [d|m version d r1 H|actor options ad r1 H|ad r1 H|id|o r1 H|id].
  - by apply registerDefinition_ok.
  - unfold registerManifest in H. destruct (definitionFromManifest _ _); [|discriminate].
    injection H as <- <-. by apply registerDefinition_ok.
  - unfold registerActor in H. destruct (definitionFromActor _ _) as [d|]; [|discriminate].
    cbn [mbind result_bind] in H. destruct (advertiseInstance _ _) as [r2|] eqn:E; [|discriminate].
    injection H as <- <-. eapply advertiseInstance_ok; [|exact E]. by apply registerDefinition_ok.
  - by eapply advertiseInstance_ok.
  - destruct Hok. unfold withdrawInstance. case_match; [|by split].
    split; [done|by apply keyed_delete|done|by apply resolved_delete|done|by apply changed_revisions].
  - by eapply publishOffer_ok.
  - destruct Hok. unfold withdrawOffer. case_match; [|by split].
    split; [done..|by apply keyed_delete|done|by apply resolved_delete|by apply changed_revisions].
Qed.

(** After any sequence of operations, the three catalogs have one entry per
    key, filed under its own identity, every instance and offer names a
    definition the registry holds, and [onChange] was called exactly with the
    revisions 1, 2, ... up to the current one. *)
Theorem registry_invariant (r : ActorRegistry) :
  rtc registry_step new_registry r -> registry_ok r.
Proof.
  intros Hr. assert (registry_ok new_registry) as H0.
  { split; try done; split; try apply map_ok_nil; by intros ? ? [=]. }
  revert H0. induction Hr as [|r1 r2 r3 Hs _ IH]; [done|]. intros Hok.
  by apply IH, registry_step_ok with r1.
Qed.

(** [advertiseInstance] on every branch: an unknown definition and a first
    unknown capability that is not the empty string are refused with the code's
    messages and change nothing; otherwise the advertisement replaces the entry
    of its instance, the rest of the registry stays, and the revision moves. *)
Theorem advertiseInstance_checked (ad : ActorInstanceAdvertisement) (r : ActorRegistry) :
  match definition (ai_definitionRef ad) r with
  | None => advertiseInstance ad r = Throw ("unknown actor definition " +:+ ai_definitionRef ad)
  | Some d =>
      match js_find (fun id => negb (includes (cap_id <$> ad_capabilities d) id))
              (ai_capabilityIds ad) with
      | Some (String c unknown) =>
          advertiseInstance ad r =
            Throw (String c unknown +:+ " is not a capability of " +:+ ai_definitionRef ad)
      | _ => exists r', advertiseInstance ad r = Ok r' /\
          instance (ai_instanceId ad) r' = Some ad /\
          (forall id, id <> ai_instanceId ad -> instance id r' = instance id r) /\
          rg_definitions r' = rg_definitions r /\ rg_offers r' = rg_offers r /\
          rg_revision r' = S (rg_revision r)
      end
  end.
Proof.
  unfold definition, advertiseInstance, assertCapabilities.
  destruct (map_get _ (rg_definitions r)) as [d|]; [|done].
  destruct (js_find _ _) as [[|c u]|]; cbn [truthy mbind result_bind]; [|done|];
    (eexists; split; [done|]; unfold instance; cbn; split; [apply map_get_set_eq|];
     split; [|done]; intros id ?; by rewrite map_get_set_ne).
Qed.

(** The check of capability identifiers has a hole: an advertisement that
    claims a capability named by the empty string, which no definition has, is
    accepted (and hides every unknown capability listed after it). *)
Theorem advertiseInstance_accepts_unknown_capability (d : ActorDefinition)
    (ad : ActorInstanceAdvertisement) (ids : list string) :
  "" ∉ cap_id <$> ad_capabilities d -> ai_definitionRef ad = ad_ref d ->
  ai_capabilityIds ad = "" :: ids ->
  is_ok (advertiseInstance ad (registerDefinition d new_registry)) = true.
Proof.
  intros Hd Href Hids. unfold advertiseInstance, assertCapabilities. cbn.
  rewrite Href, Hids, decide_True by done. cbn [js_find]. unfold includes at 1.
  by rewrite bool_decide_false.
Qed.

(** [registerActor] fails exactly as the derivation of the definition does,
    before anything changes; otherwise it files the definition and an instance
    that is advertised for exactly the definition's capabilities, in two
    revisions. *)
Theorem registerActor_advertises (actor : RegisteredActor) (options : RegisterActorOptions)
    (r : ActorRegistry) :
  match definitionFromActor actor (ro_version options) with
  | Throw message => registerActor actor options r = Throw message
  | Ok d => exists ad r', registerActor actor options r = Ok (ad, r') /\
      definition (ai_definitionRef ad) r' = Some d /\ instance (ra_uuid actor) r' = Some ad /\
      ai_capabilityIds ad = cap_id <$> ad_capabilities d /\ rg_offers r' = rg_offers r /\
      rg_revision r' = S (S (rg_revision r))
  end.
Proof.
  unfold registerActor. destruct (definitionFromActor _ _) as [d|m]; [|done].
  cbn [mbind result_bind]. unfold advertiseInstance. cbn [ai_definitionRef ai_capabilityIds].
  rewrite (assertCapabilities_known _ _ d); [|by unfold definition; cbn; apply map_get_set_eq|done].
  cbn [mbind result_bind]. eexists _, _. split; [done|].
  unfold definition, instance. cbn. rewrite !map_get_set_eq. done.
Qed.

Lemma mapM_same {A B} (f g : A -> result B) l : (forall x, f x = g x) -> mapM f l = mapM g l.
Proof.
  intros E. induction l as [|x l IH]; [done|]. unfold mapM in *. cbn. rewrite E. by rewrite IH.
Qed.

(** The registry and the planner derive the same capabilities: whenever a
    definition can be made from a manifest, [capabilitiesFromManifests] gives
    exactly the capabilities of that definition. *)
Theorem definition_capabilities_are_the_planners (manifest : Manifest) (d : ActorDefinition) :
  definitionFromManifest manifest None = Ok d ->
  capabilitiesFromManifests [manifest] = Ok (ad_capabilities d).
Proof.
  unfold definitionFromManifest, methodCapabilities, capabilitiesFromManifests, definitionRef.
  cbn [from_option]. destruct (resourceId _) as [ref|] eqn:Eref; [|discriminate].
  cbn [mbind result_bind].
  rewrite (mapM_same (methodCapability manifest (mf_version manifest) ref _ _)
             (capabilityFromMethod manifest)).
  - destruct (mapM (capabilityFromMethod manifest) (mf_methods manifest)) as [l|] eqn:E; [|discriminate].
    intros [= <-]. cbn. rewrite E. cbn. by rewrite app_nil_r.
  - intros method. unfold methodCapability, capabilityFromMethod, methodContract.
    rewrite Eref. destruct (ms_requires method), (ms_produces method); cbn;
      by repeat case_match.
Qed.

(** ** Witnesses *)

Definition sample_method : MethodSpec :=
  {| ms_name := "ocr"; ms_description := ""; ms_parameters := JObject []; ms_mode := None;
     ms_idempotency := Some IPure; ms_cost := Some 2%Z; ms_requires := Some ["file(D)"];
     ms_produces := Some ["text(D)"]; ms_inputSlots := None; ms_outputSlots := None;
     ms_event := None; ms_hitl := None |}.

Definition sample_manifest : Manifest :=
  {| mf_id := "ocr"; mf_authority := "example.com"; mf_namespace := "docs"; mf_version := "1";
     mf_name := "OCR"; mf_description := ""; mf_tags := []; mf_methods := [sample_method];
     mf_requires := None; mf_produces := None; mf_machine := None; mf_logic := None |}.

Definition sample_actor : RegisteredActor :=
  {| ra_manifest := sample_manifest; ra_requires := []; ra_produces := []; ra_uuid := "u-1";
     ra_instanceName := "ocr-1" |}.

Definition no_options : RegisterActorOptions :=
  {| ro_version := None; ro_label := None; ro_status := None; ro_executionEnvironment := None;
     ro_locality := None; ro_trustDomain := None; ro_cost := None; ro_latencyMs := None;
     ro_expiresAt := None; ro_metadata := None |}.

Lemma registry_invariant_witness :
  exists r, rtc registry_step new_registry r /\ rg_revision r = 3 /\ registry_ok r /\
    rg_instances r = [].
Proof.
  destruct (registerActor sample_actor no_options new_registry) as [[ad r]|] eqn:E;
    [|vm_compute in E; discriminate].
  assert (rtc registry_step new_registry (withdrawInstance "u-1" r)) as Hr.
  { eapply rtc_l; [by eapply step_actor|]. apply rtc_once, step_withdraw. }
  exists (withdrawInstance "u-1" r). split; [exact Hr|].
  vm_compute in E. injection E as <- <-.
  split; [vm_compute; reflexivity|]. split; [exact (registry_invariant _ Hr)|vm_compute; reflexivity].
Defined.

Lemma advertiseInstance_accepts_unknown_capability_witness :
  exists d ad, definitionFromManifest sample_manifest None = Ok d /\
    ai_capabilityIds ad = ["" ; "nonsense"] /\
    is_ok (advertiseInstance ad (registerDefinition d new_registry)) = true.
Proof.
  destruct (definitionFromManifest sample_manifest None) as [d|] eqn:E;
    [|vm_compute in E; discriminate].
  exists d, {| ai_instanceId := "i"; ai_definitionRef := ad_ref d; ai_label := "";
               ai_address := AddrLocal "i"; ai_capabilityIds := [""; "nonsense"];
               ai_status := Available; ai_executionEnvironment := Local; ai_locality := None;
               ai_trustDomain := None; ai_cost := None; ai_latencyMs := None;
               ai_expiresAt := None; ai_metadata := None |}.
  split; [done|]. split; [done|].
  apply (advertiseInstance_accepts_unknown_capability d _ ["nonsense"]); [|reflexivity..].
  vm_compute in E. injection E as <-.
  apply not_elem_of_cons. split; [discriminate|apply not_elem_of_nil].
Defined.

Lemma definition_capabilities_are_the_planners_witness :
  exists d, definitionFromManifest sample_manifest None = Ok d /\ length (ad_capabilities d) = 1 /\
    capabilitiesFromManifests [sample_manifest] = Ok (ad_capabilities d).
Proof.
  destruct (definitionFromManifest sample_manifest None) as [d|] eqn:E;
    [|vm_compute in E; discriminate].
  exists d. split; [done|]. split; [vm_compute in E; by injection E as <-|].
  exact (definition_capabilities_are_the_planners sample_manifest d E).
Defined.
