(* ===== verification/Bus.v ===== *)
(** * The message bus

    [libs/aven-actors/src/bus.ts]: the directory of actors and names, routing of
    envelopes into mailboxes, emission of predicates, the tool bridge with its
    human gate, and the derived flow graph.  A method that awaits is split at the
    [await]: what it waits for is part of the state.  Actions that applications
    bind to the gate ([holdAction]) answer as they like. *)

From S2P Require Import Prelude Ids Term Contracts Json Actors Planner Registry.

Open Scope stdpp_scope.

(** ** Data *)

Record Envelope := {
  nv_id : string; nv_from : string; nv_to : string; nv_method : string; nv_payload : jobject
}.

Record DerivedEdge := { eg_from : string; eg_to : string; eg_predicate : string }.

(** What the human gate is shown; previews are data for the view only. *)
Record HeldMessage := {
  hm_id : string; hm_actor : string; hm_method : string; hm_label : string; hm_detail : string
}.

(** A held action: an envelope of [dispatch], or an application's own action,
    which may have a [reject]. *)
Inductive HeldAction :=
| HeldEnvelope (envelope : Envelope)
| HeldApplication (name : string) (rejects : bool).

(** The promise a caller is given: already resolved, or the reply to a ticket of
    an actor's mailbox. *)
Inductive Reply := Now (r : HandlerResult) | Later (uuid : string) (ticket : nat).

(** What a review in progress waits for. *)
Inductive Review := Confirming (waits : option Reply) | Rejecting.

(** The callbacks the bus makes. *)
Inductive Callback := OnChange | OnHold (held : HeldMessage) | OnHeldResolved (id : string).

(** Actor objects outlive their registration: [bs_processes] has every actor
    that was ever registered, with its mailbox. *)
Record MessageBus := {
  bs_actors : list (string * Actor);
  bs_byName : list (string * string);
  bs_registry : ActorRegistry;
  bs_processes : gmap string (Actor * Process);
  bs_held : list (string * HeldAction);
  bs_resolving : list (string * Review);
  bs_envelopes : nat;
  bs_onHold : bool;
  bs_callbacks : list Callback
}.

Definition new_bus (onHold : bool) : MessageBus :=
  {| bs_actors := []; bs_byName := []; bs_registry := new_registry; bs_processes := ∅; bs_held := [];
     bs_resolving := []; bs_envelopes := 0; bs_onHold := onHold; bs_callbacks := [] |}.

Definition set_directory (actors : list (string * Actor)) (byName : list (string * string))
    (b : MessageBus) : MessageBus :=
  {| bs_actors := actors; bs_byName := byName; bs_registry := bs_registry b;
     bs_processes := bs_processes b; bs_held := bs_held b; bs_resolving := bs_resolving b;
     bs_envelopes := bs_envelopes b; bs_onHold := bs_onHold b; bs_callbacks := bs_callbacks b |}.
Definition set_registry (r : ActorRegistry) (b : MessageBus) : MessageBus :=
  {| bs_actors := bs_actors b; bs_byName := bs_byName b; bs_registry := r;
     bs_processes := bs_processes b; bs_held := bs_held b; bs_resolving := bs_resolving b;
     bs_envelopes := bs_envelopes b; bs_onHold := bs_onHold b; bs_callbacks := bs_callbacks b |}.
Definition set_process (a : Actor) (p : Process) (b : MessageBus) : MessageBus :=
  {| bs_actors := bs_actors b; bs_byName := bs_byName b; bs_registry := bs_registry b;
     bs_processes := <[ac_uuid a := (a, p)]> (bs_processes b); bs_held := bs_held b;
     bs_resolving := bs_resolving b; bs_envelopes := bs_envelopes b; bs_onHold := bs_onHold b;
     bs_callbacks := bs_callbacks b |}.
Definition set_held (held : list (string * HeldAction)) (b : MessageBus) : MessageBus :=
  {| bs_actors := bs_actors b; bs_byName := bs_byName b; bs_registry := bs_registry b;
     bs_processes := bs_processes b; bs_held := held; bs_resolving := bs_resolving b;
     bs_envelopes := bs_envelopes b; bs_onHold := bs_onHold b; bs_callbacks := bs_callbacks b |}.
Definition set_resolving (resolving : list (string * Review)) (b : MessageBus) : MessageBus :=
  {| bs_actors := bs_actors b; bs_byName := bs_byName b; bs_registry := bs_registry b;
     bs_processes := bs_processes b; bs_held := bs_held b; bs_resolving := resolving;
     bs_envelopes := bs_envelopes b; bs_onHold := bs_onHold b; bs_callbacks := bs_callbacks b |}.
Definition count_envelope (b : MessageBus) : MessageBus :=
  {| bs_actors := bs_actors b; bs_byName := bs_byName b; bs_registry := bs_registry b;
     bs_processes := bs_processes b; bs_held := bs_held b; bs_resolving := bs_resolving b;
     bs_envelopes := S (bs_envelopes b); bs_onHold := bs_onHold b; bs_callbacks := bs_callbacks b |}.
Definition callback (c : Callback) (b : MessageBus) : MessageBus :=
  {| bs_actors := bs_actors b; bs_byName := bs_byName b; bs_registry := bs_registry b;
     bs_processes := bs_processes b; bs_held := bs_held b; bs_resolving := bs_resolving b;
     bs_envelopes := bs_envelopes b; bs_onHold := bs_onHold b; bs_callbacks := bs_callbacks b ++ [c] |}.

(** ** The directory *)

Definition actors (b : MessageBus) : list Actor := (bs_actors b).*2.

(** A uuid, or a name: a template's name is its default instance. *)
Definition get (ref : string) (b : MessageBus) : option Actor :=
  match map_get ref (bs_actors b) with
  | Some a => Some a
  | None => map_get (default "" (map_get ref (bs_byName b))) (bs_actors b)
  end.

Definition index_name (name uuid : string) (byName : list (string * string)) : list (string * string) :=
  if map_has name byName then byName else map_set name uuid byName.

Definition no_options : RegisterActorOptions :=
  {| ro_version := None; ro_label := None; ro_status := None; ro_executionEnvironment := None;
     ro_locality := None; ro_trustDomain := None; ro_cost := None; ro_latencyMs := None;
     ro_expiresAt := None; ro_metadata := None |}.

Definition registered (a : Actor) : RegisteredActor :=
  {| ra_manifest := ac_manifest a; ra_requires := ac_requires a; ra_produces := ac_produces a;
     ra_uuid := ac_uuid a; ra_instanceName := ac_instanceName a |}.

(** The directory is written before the registry may throw. *)
Definition register (a : Actor) (b : MessageBus) : result unit * MessageBus :=
  let byName := index_name (ac_instanceName a) (ac_uuid a)
                  (index_name (mf_id (ac_manifest a)) (ac_uuid a) (bs_byName b)) in
  let b := set_directory (map_set (ac_uuid a) a (bs_actors b)) byName b in
  let b := match bs_processes b !! ac_uuid a with
           | Some _ => b
           | None => set_process a (new_process a) b
           end in
  match registerActor (registered a) no_options (bs_registry b) with
  | Throw error => (Throw error, b)
  | Ok (_, r) => (Ok tt, callback OnChange (set_registry r b))
  end.

(** [actor.dispose()]: a session that has started is freed. *)
Definition dispose (p : Process) : Process :=
  match pr_session p with SReady => set_session SNone p | _ => p end.

Definition unregister (ref : string) (b : MessageBus) : MessageBus :=
  match get ref b with
  | None => b
  | Some a =>
      let b := set_directory (map_delete (ac_uuid a) (bs_actors b))
                 (base.filter (fun e => e.2 <> ac_uuid a) (bs_byName b)) b in
      let b := set_registry (withdrawInstance (ac_uuid a) (bs_registry b)) b in
      let b := match bs_processes b !! ac_uuid a with
               | Some (a, p) => set_process a (dispose p) b
               | None => b
               end in
      callback OnChange b
  end.

(** ** Routing *)

(** [actor.deliver(method, payload)] on the actor object [uuid]. *)
Definition deliver_to (uuid method : string) (payload : jobject) (b : MessageBus) : Reply * MessageBus :=
  match bs_processes b !! uuid with
  | None => (Later uuid 0, b)
  | Some (a, p) =>
      let '(ticket, p) := deliver method payload p in
      (Later uuid ticket, set_process a p b)
  end.

Definition send (e : Envelope) (b : MessageBus) : Reply * MessageBus :=
  match get (nv_to e) b with
  | None => (Now (refused ("no actor " +:+ nv_to e)), b)
  | Some a => deliver_to (ac_uuid a) (nv_method e) (nv_payload e) b
  end.

(** [`env_${nextEnvelope++}`]. *)
Definition envelope_name (b : MessageBus) : string := "env_" +:+ pretty (bs_envelopes b).
Definition held_name (b : MessageBus) : string := "held_" +:+ pretty (bs_envelopes b).

Definition wants (predicate : string) (a : Actor) : bool :=
  existsb (fun r => unifiable r predicate) (ac_requires a) && handles a (predicate_functor predicate).

Definition emit_to (predicate : string) (payload : jobject) (from : string)
    (acc : list Reply * MessageBus) (target : Actor) : list Reply * MessageBus :=
  let '(replies, b) := acc in
  let '(r, b) :=
    send {| nv_id := envelope_name b; nv_from := from; nv_to := mf_id (ac_manifest target);
            nv_method := predicate_functor predicate; nv_payload := payload |} (count_envelope b) in
  (replies ++ [r], b).

Definition emit (predicate : string) (payload : jobject) (from : string) (b : MessageBus) :
    list Reply * MessageBus :=
  fold_left (emit_to predicate payload from) (List.filter (wants predicate) (actors b)) ([], b).

(** ** Tools *)

Definition send_tool : MethodSpec :=
  {| ms_name := "send";
     ms_description := "Send one message to one actor: the universal envelope. Use when no named tool fits.";
     ms_parameters := JObject
       [("type", JString "object");
        ("properties", JObject
           [("to", JObject [("type", JString "string"); ("description", JString "Actor id or name.")]);
            ("method", JObject [("type", JString "string"); ("description", JString "The method to deliver.")]);
            ("payload", JObject [("type", JString "object"); ("additionalProperties", JBool true)])]);
        ("required", JArray [JString "to"; JString "method"])];
     ms_mode := None; ms_idempotency := None; ms_cost := None; ms_requires := None; ms_produces := None;
     ms_inputSlots := None; ms_outputSlots := None; ms_event := None; ms_hitl := None |}.

Definition add_spec (acc : list MethodSpec) (m : MethodSpec) : list MethodSpec :=
  if includes (ms_name <$> acc) (ms_name m) then acc else acc ++ [m].

Definition toolSpecs (b : MessageBus) : list MethodSpec :=
  fold_left add_spec (List.flat_map (fun a => mf_methods (ac_manifest a)) (actors b)) [] ++ [send_tool].

(** The label of the gate, when the owner declares [method] with one. *)
Definition gate (a : Actor) (method : string) : option string :=
  truthy (js_find (fun m => bool_decide (ms_name m = method)) (mf_methods (ac_manifest a)) ≫= ms_hitl).

Definition held_result (label id : string) : HandlerResult :=
  {| hr_record := Some (JObject [("ok", JBool true); ("held", JString id); ("confirmation", JString "required")]);
     hr_wire := label +:+ " — held for the human. A button press in the HUD confirms; " +:+
                "voice cannot confirm. Tell the user to press Confirm or Reject." |}.

Definition dispatch (from method : string) (payload : jobject) (b : MessageBus) : Reply * MessageBus :=
  match js_find (fun a => handles a method) (actors b) with
  | None => (Now (refused ("unknown tool " +:+ method)), b)
  | Some owner =>
      let e := {| nv_id := envelope_name b; nv_from := from; nv_to := ac_uuid owner;
                  nv_method := method; nv_payload := payload |} in
      let b := count_envelope b in
      match gate owner method with
      | None => send e b
      | Some label =>
          if negb (bs_onHold b) then (Now (refused "human review is unavailable"), b)
          else
            let id := held_name b in
            let b := set_held (map_set id (HeldEnvelope e) (bs_held b)) (count_envelope b) in
            (Now (held_result label id),
             callback (OnHold {| hm_id := id; hm_actor := ac_instanceName owner; hm_method := method;
                                 hm_label := label; hm_detail := stringify (JObject payload) |}) b)
      end
  end.

(** ** The human gate *)

Definition holdAction (held : HeldMessage) (name : string) (rejects : bool) (b : MessageBus) :
    result MessageBus :=
  if negb (bs_onHold b) then Throw "human review is unavailable"
  else if map_has (hm_id held) (bs_held b) then Ok b
  else Ok (callback (OnHold held) (set_held (map_set (hm_id held) (HeldApplication name rejects) (bs_held b)) b)).

(** [confirmHeld] up to the [await]: an answer at once, or a review in progress. *)
Definition confirmHeld (id : string) (b : MessageBus) : option HandlerResult * MessageBus :=
  if map_has id (bs_resolving b) then (Some (refused "review is being saved"), b)
  else
    match map_get id (bs_held b) with
    | None => (Some (refused "nothing held"), b)
    | Some (HeldEnvelope e) =>
        let '(r, b) := send e b in
        (None, set_resolving (map_set id (Confirming (Some r)) (bs_resolving b)) b)
    | Some (HeldApplication _ _) =>
        (None, set_resolving (map_set id (Confirming None) (bs_resolving b)) b)
    end.

Definition release (id : string) (b : MessageBus) : MessageBus :=
  callback (OnHeldResolved id) (set_held (map_delete id (bs_held b)) b).

Definition settle (id : string) (b : MessageBus) : MessageBus :=
  set_resolving (map_delete id (bs_resolving b)) b.

(** [confirmHeld] from the [await] on. *)
Definition confirmHeld_end (id : string) (outcome : result HandlerResult) (b : MessageBus) :
    result HandlerResult * MessageBus :=
  match outcome with
  | Throw error => (Throw error, settle id b)
  | Ok r =>
      match says_no (hr_record r) with
      | Throw error => (Throw error, settle id b)
      | Ok true => (Ok r, settle id b)
      | Ok false => (Ok r, settle id (release id b))
      end
  end.

Definition rejectHeld (id : string) (b : MessageBus) : MessageBus :=
  if map_has id (bs_resolving b) then b
  else set_resolving (map_set id Rejecting (bs_resolving b)) b.

Definition rejectHeld_end (id : string) (outcome : result unit) (b : MessageBus) :
    result unit * MessageBus :=
  match outcome with
  | Throw error => (Throw error, settle id b)
  | Ok _ => (Ok tt, settle id (release id b))
  end.

(** ** Clicks and the model *)

(** [uiEvent]: the event is applied without awaiting the mailbox. *)
Definition uiEvent (ref : string) (e : ActorEvent) (b : MessageBus) : MessageBus :=
  match get ref b with
  | None => b
  | Some a =>
      match bs_processes b !! ac_uuid a with
      | None => b
      | Some (a, p) => set_process a (set_events (pr_events p ++ [(e, None)]) p) b
      end
  end.

(** [llmLane]: the message to the model's actor, and what is made of its answer. *)
Definition llmLane (system question : string) (settings : option json) (b : MessageBus) :
    option (Reply * MessageBus) :=
  a ← get "llm" b;
  Some (deliver_to (ac_uuid a) "llm_complete"
          ([("system", JString system); ("question", JString question)] ++
           match settings with Some s => [("settings", s)] | None => [] end) b).

Definition llm_answer (r : HandlerResult) : result string :=
  match hr_record r with
  | None | Some JNull => Throw (hr_wire r)
  | Some parsed =>
      match json_get "ok" parsed with
      | Some (JBool false) => Throw (hr_wire r)
      | _ => match json_get "text" parsed with
             | None | Some JNull => Ok ""
             | Some text => Ok (js_String text)
             end
      end
  end.

(** ** The flow graph *)

Definition edges_between (producer consumer : Actor) : list DerivedEdge :=
  if bool_decide (ac_uuid consumer = ac_uuid producer) then []
  else
    omap (fun need =>
      if existsb (fun p => unifiable p need) (ac_produces producer)
      then Some {| eg_from := mf_id (ac_manifest producer); eg_to := mf_id (ac_manifest consumer);
                   eg_predicate := predicate_functor need |}
      else None) (ac_requires consumer).

Definition edges (b : MessageBus) : list DerivedEdge :=
  List.flat_map (fun producer => List.flat_map (edges_between producer) (actors b)) (actors b).

(** Every requirement is known, or nobody produces it. *)
Definition ready (produced known : list string) (a : Actor) : bool :=
  forallb (fun r => existsb (fun k => unifiable k r) known ||
                    negb (existsb (fun p => unifiable p r) produced)) (ac_requires a).

(** The fuel is the number of pending actors. *)
Fixpoint stage_loop (fuel : nat) (produced known : list string) (pending : list Actor) : list (list Actor) :=
  match fuel, pending with
  | 0, _ | _, [] => []
  | S fuel, _ =>
      match List.filter (ready produced known) pending with
      | [] => [pending]
      | stage => stage :: stage_loop fuel produced (known ++ List.flat_map ac_produces stage)
                            (List.filter (fun a => negb (ready produced known a)) pending)
      end
  end.

Definition stages (b : MessageBus) : list (list Actor) :=
  stage_loop (length (actors b)) (List.flat_map ac_produces (actors b)) [] (actors b).
