(* ===== verification/Routing.v ===== *)
(** * What the bus guarantees

    The steps of [Bus.v] as a transition system of the model, the human and the
    host; the invariant of the directory; what the human gate lets through; how
    envelopes and emissions are routed; and the derived graph. *)

From S2P Require Import Prelude Ids Term Contracts Json Actors Planner Registry Bus.

Open Scope stdpp_scope.

(** ** Steps *)

(** Who makes a step: the model calls tools, the human clicks and answers the
    gate, the host program does the rest; [Inside] is work already under way. *)
Inductive Who := Model | Human | Host | Inside.

(** The promise a review waits for has been resolved with [outcome]. *)
Definition settled (b : MessageBus) (waits : option Reply) (outcome : result HandlerResult) : Prop :=
  match waits with
  | None => True
  | Some (Now r) => outcome = Ok r
  | Some (Later uuid ticket) => exists a p r,
      bs_processes b !! uuid = Some (a, p) /\ (ticket, r) ∈ pr_replies p /\ outcome = Ok r
  end.

(** A uuid names one actor object. *)
Definition own_uuid (a : Actor) (b : MessageBus) : Prop :=
  forall a' p, bs_processes b !! ac_uuid a = Some (a', p) -> a' = a.

Inductive bus_step (reduces : Sandbox) (b : MessageBus) : Who -> MessageBus -> Prop :=
| bs_register a : own_uuid a b -> bus_step reduces b Host (register a b).2
| bs_unregister ref : bus_step reduces b Host (unregister ref b)
| bs_send e : bus_step reduces b Host (send e b).2
| bs_emit predicate payload from : bus_step reduces b Host (emit predicate payload from b).2
| bs_dispatch from method payload : bus_step reduces b Model (dispatch from method payload b).2
| bs_hold held name rejects b' : holdAction held name rejects b = Ok b' -> bus_step reduces b Host b'
| bs_confirm id : bus_step reduces b Human (confirmHeld id b).2
| bs_confirmed id waits outcome :
    map_get id (bs_resolving b) = Some (Confirming waits) -> settled b waits outcome ->
    bus_step reduces b Inside (confirmHeld_end id outcome b).2
| bs_reject id : bus_step reduces b Human (rejectHeld id b)
| bs_rejected id outcome :
    map_get id (bs_resolving b) = Some Rejecting -> bus_step reduces b Inside (rejectHeld_end id outcome b).2
| bs_click ref e : bus_step reduces b Human (uiEvent ref e b)
| bs_ask system question settings r b' :
    llmLane system question settings b = Some (r, b') -> bus_step reduces b Host b'
| bs_work a p p' :
    bs_processes b !! ac_uuid a = Some (a, p) -> process_step a reduces p p' ->
    pr_delivered p' = pr_delivered p -> bus_step reduces b Inside (set_process a p' b).

Definition any_step (reduces : Sandbox) (b b' : MessageBus) : Prop := exists who, bus_step reduces b who b'.

(** What happens while no human and no host code acts. *)
Definition unattended (reduces : Sandbox) (b b' : MessageBus) : Prop :=
  bus_step reduces b Model b' \/ bus_step reduces b Inside b'.

(** ** The invariant *)

Record bus_ok (b : MessageBus) : Prop := {
  bo_actors : map_ok (bs_actors b);
  bo_names : map_ok (bs_byName b);
  bo_held : map_ok (bs_held b);
  bo_registered : forall u a, map_get u (bs_actors b) = Some a ->
    ac_uuid a = u /\ exists p, bs_processes b !! u = Some (a, p);
  bo_name_targets : forall n u, map_get n (bs_byName b) = Some u -> is_Some (map_get u (bs_actors b));
  bo_processes : forall u a p, bs_processes b !! u = Some (a, p) ->
    ac_uuid a = u /\ exists log, mailbox_ok log p;
  (** what is held was shown *)
  bo_shown : forall id e, map_get id (bs_held b) = Some (HeldEnvelope e) ->
    exists held, OnHold held ∈ bs_callbacks b /\ hm_id held = id /\ hm_method held = nv_method e /\
      hm_detail held = stringify (JObject (nv_payload e))
}.

(** Messages are only ever added. *)
Definition delivers (b b' : MessageBus) : Prop :=
  forall u a p, bs_processes b !! u = Some (a, p) ->
    exists p' new, bs_processes b' !! u = Some (a, p') /\ pr_delivered p' = pr_delivered p ++ new.

Lemma bus_ok_ext b b' :
  bus_ok b -> bs_actors b' = bs_actors b -> bs_byName b' = bs_byName b -> bs_held b' = bs_held b ->
  bs_processes b' = bs_processes b -> (forall c, c ∈ bs_callbacks b -> c ∈ bs_callbacks b') -> bus_ok b'.
Proof.
  intros [? ? ? ? ? ? Hs] Ha Hn Hh Hp Hc. split; rewrite ?Ha, ?Hn, ?Hh, ?Hp; try done.
  intros id e He. destruct (Hs id e He) as (held & ? & ?). exists held. auto.
Qed.

Lemma set_process_ok a p p' log b :
  bus_ok b -> bs_processes b !! ac_uuid a = Some (a, p) -> mailbox_ok log p' -> bus_ok (set_process a p' b).
Proof.
  intros [? ? ? Hr ? Hp ?] Ha Hok. split; cbn; try done.
  - intros u a' Hu. destruct (Hr u a' Hu) as [Hu' [q Hq]]. split; [done|].
    destruct (decide (u = ac_uuid a)) as [->|Hne].
    + rewrite lookup_insert_eq. rewrite Ha in Hq. injection Hq as -> ->. eauto.
    + rewrite lookup_insert_ne by done. eauto.
  - intros u a' q. destruct (decide (u = ac_uuid a)) as [->|Hne].
    + rewrite lookup_insert_eq. intros [= <- <-]. eauto.
    + rewrite lookup_insert_ne by done. apply Hp.
Qed.

Lemma delivers_refl b b' : bs_processes b' = bs_processes b -> delivers b b'.
Proof. intros E u a p Hu. exists p, []. rewrite E, app_nil_r. done. Qed.

Lemma delivers_trans b c d : delivers b c -> delivers c d -> delivers b d.
Proof.
  intros H1 H2 u a p Hu. destruct (H1 u a p Hu) as (q & k & Hq & Hk).
  destruct (H2 u a q Hq) as (r & l & Hr & Hl). exists r, (k ++ l). rewrite Hl, Hk, app_assoc. done.
Qed.

Lemma set_process_delivers a p p' new b :
  bs_processes b !! ac_uuid a = Some (a, p) -> pr_delivered p' = pr_delivered p ++ new ->
  delivers b (set_process a p' b).
Proof.
  intros Ha Hd u a' q Hu. cbn. destruct (decide (u = ac_uuid a)) as [->|Hne].
  - rewrite lookup_insert_eq. rewrite Ha in Hu. injection Hu as <- <-. eauto.
  - rewrite lookup_insert_ne by done. exists q, []. by rewrite app_nil_r.
Qed.

(** One message put into one mailbox. *)
Definition message (p : Process) (method : string) (payload : jobject) : Message :=
  {| msg_ticket := length (pr_delivered p); msg_method := method; msg_payload := payload |}.

Lemma deliver_delivered method payload p :
  pr_delivered (deliver method payload p).2 = pr_delivered p ++ [message p method payload] /\
  (deliver method payload p).1 = length (pr_delivered p).
Proof.
  unfold deliver. cbv zeta. cbn [snd fst]. split; [|done].
  destruct (pr_current _); [done|]. unfold pump_next. by destruct (pr_mailbox _).
Qed.

Lemma deliver_to_spec u method payload b a p :
  bs_processes b !! u = Some (a, p) ->
  deliver_to u method payload b =
    (Later u (length (pr_delivered p)), set_process a (deliver method payload p).2 b).
Proof.
  intros Hu. unfold deliver_to. rewrite Hu. destruct (deliver method payload p) as [t q] eqn:E.
  destruct (deliver_delivered method payload p) as [_ Ht]. rewrite E in Ht. cbn in *. by subst.
Qed.

(** What a routing step leaves alone. *)
Record routed (b b' : MessageBus) : Prop := {
  rt_actors : bs_actors b' = bs_actors b;
  rt_names : bs_byName b' = bs_byName b;
  rt_held : bs_held b' = bs_held b;
  rt_resolving : bs_resolving b' = bs_resolving b;
  rt_callbacks : bs_callbacks b' = bs_callbacks b;
  rt_onHold : bs_onHold b' = bs_onHold b;
  rt_registry : bs_registry b' = bs_registry b
}.

Lemma routed_refl b : routed b b.
Proof. by split. Qed.
Lemma routed_trans b c d : routed b c -> routed c d -> routed b d.
Proof. intros [] []. split; congruence. Qed.

#[export] Hint Resolve routed_refl : js.

Lemma deliver_to_ok u method payload b :
  bus_ok b ->
  bus_ok (deliver_to u method payload b).2 /\ delivers b (deliver_to u method payload b).2 /\
  routed b (deliver_to u method payload b).2.
Proof.
  intros Hok. destruct (bs_processes b !! u) as [[a p]|] eqn:Hu.
  - rewrite (deliver_to_spec _ _ _ _ _ _ Hu). cbn [snd].
    destruct (bo_processes b Hok u a p Hu) as [<- [log Hlog]]. split; [|split; [|by split]].
    + eapply set_process_ok; [done..|]. by apply deliver_ok.
    + eapply set_process_delivers; [done|]. apply deliver_delivered.
  - unfold deliver_to. rewrite Hu. split; [done|]. split; [by apply delivers_refl|by split].
Qed.

Lemma send_ok e b : bus_ok b -> bus_ok (send e b).2 /\ delivers b (send e b).2 /\ routed b (send e b).2.
Proof.
  intros Hok. unfold send. destruct (get (nv_to e) b); [by apply deliver_to_ok|].
  split; [done|]. split; [by apply delivers_refl|by split].
Qed.

Lemma count_envelope_ok b : bus_ok b -> bus_ok (count_envelope b).
Proof. intros. by eapply bus_ok_ext. Qed.

Lemma emit_all_ok predicate payload from targets replies b :
  bus_ok b ->
  let b' := (fold_left (emit_to predicate payload from) targets (replies, b)).2 in
  bus_ok b' /\ delivers b b' /\ routed b b'.
Proof.
  revert replies b. induction targets as [|t targets IH]; intros replies b Hok; cbv zeta; cbn [fold_left].
  - split; [done|]. split; [by apply delivers_refl|by split].
  - unfold emit_to at 2 4 6. destruct (send _ (count_envelope b)) as [r c] eqn:E.
    match type of E with send ?e _ = _ => destruct (send_ok e (count_envelope b)) as (Hc & Hd & Hr) end;
      [by apply count_envelope_ok|].
    rewrite E in Hc, Hd, Hr. cbn in Hc, Hd, Hr.
    destruct (IH (replies ++ [r]) c Hc) as (? & ? & ?). split; [done|]. split.
    + eapply delivers_trans; [|done]. exact Hd.
    + eapply routed_trans; [|done]. destruct Hr. by split.
Qed.

(** ** The directory *)

Lemma get_Some ref b a : bus_ok b -> get ref b = Some a -> map_get (ac_uuid a) (bs_actors b) = Some a.
Proof.
  intros Hok. unfold get. destruct (map_get ref (bs_actors b)) as [a'|] eqn:E.
  - intros [= <-]. by destruct (bo_registered b Hok ref a' E) as [-> _].
  - intros Ha. by destruct (bo_registered b Hok _ a Ha) as [-> _].
Qed.

Lemma get_uuid a b : map_get (ac_uuid a) (bs_actors b) = Some a -> get (ac_uuid a) b = Some a.
Proof. intros Ha. unfold get. by rewrite Ha. Qed.

Lemma elem_of_actors b a : bus_ok b -> a ∈ actors b <-> map_get (ac_uuid a) (bs_actors b) = Some a.
Proof.
  intros Hok. unfold actors. split.
  - intros ([u a'] & -> & Ha)%list_elem_of_fmap. cbn.
    apply map_get_ok in Ha; [|apply Hok]. by destruct (bo_registered b Hok u a' Ha) as [-> _].
  - intros Ha%map_get_elem. by apply (list_elem_of_fmap_2 snd) in Ha.
Qed.

Lemma index_name_ok name u names : map_ok names -> map_ok (index_name name u names).
Proof. intros. unfold index_name. destruct (map_has name names); auto with js. Qed.

Lemma index_name_target name u names n v :
  map_get n (index_name name u names) = Some v -> v = u \/ map_get n names = Some v.
Proof.
  unfold index_name. destruct (map_has name names); [auto|]. rewrite map_get_set.
  case_decide; [intros [= <-]; auto|auto].
Qed.

Lemma register_ok a b : bus_ok b -> own_uuid a b -> bus_ok (register a b).2.
Proof.
  intros [Ha Hn Hh Hr Ht Hp Hs] Hown. unfold register.
  set (names := index_name (ac_instanceName a) _ _).
  set (b1 := set_directory _ names b).
  set (b2 := match bs_processes b1 !! ac_uuid a with Some _ => b1 | None => set_process a (new_process a) b1 end).
  assert (bus_ok b2) as Hok.
  { assert (forall u a' p, bs_processes b !! u = Some (a', p) -> bs_processes b2 !! u = Some (a', p)) as Hkeep.
    { intros u a' p Hu. unfold b2. destruct (bs_processes b1 !! ac_uuid a) eqn:E; [done|]. cbn in *.
      rewrite lookup_insert_ne; [done|]. congruence. }
    assert (exists p, bs_processes b2 !! ac_uuid a = Some (a, p)) as Hnew.
    { unfold b2. cbn. destruct (bs_processes b !! ac_uuid a) as [[a' p]|] eqn:E.
      - rewrite (Hown a' p E) in E. exists p. exact E.
      - cbn. rewrite lookup_insert_eq. eauto. }
    assert (bs_actors b2 = map_set (ac_uuid a) a (bs_actors b) /\ bs_byName b2 = names /\
            bs_held b2 = bs_held b /\ bs_callbacks b2 = bs_callbacks b) as (Ea & En & Eh & Ec)
      by (unfold b2; by destruct (bs_processes b1 !! ac_uuid a)).
    split; rewrite ?Ea, ?En, ?Eh, ?Ec; try done.
    - auto with js.
    - subst names. auto using index_name_ok.
    - intros u a'. rewrite map_get_set. case_decide as Hu; [intros [= <-]; by subst|].
      intros Hget. destruct (Hr u a' Hget) as [? [p ?]]. split; [done|]. eauto.
    - intros n u Hget. rewrite map_get_set. case_decide; [done|].
      apply index_name_target in Hget as [?|Hget]; [done|].
      apply index_name_target in Hget as [?|Hget]; [done|]. eauto.
    - intros u a' p Hu. unfold b2 in Hu. destruct (bs_processes b1 !! ac_uuid a) eqn:E; [by eapply Hp|].
      cbn in Hu. destruct (decide (u = ac_uuid a)) as [->|].
      + rewrite lookup_insert_eq in Hu. injection Hu as <- <-. split; [done|].
        exists []. apply new_process_ok.
      + rewrite lookup_insert_ne in Hu by done. by eapply Hp. }
  destruct (registerActor _ _ _) as [[ad r]|error]; [|done].
  eapply bus_ok_ext; [exact Hok|done..|]. intros c Hc. cbn. apply elem_of_app. by left.
Qed.

Lemma dispose_ok log p : mailbox_ok log p -> mailbox_ok log (dispose p).
Proof. intros. unfold dispose. destruct (pr_session p); [done..| |done]. by eapply mailbox_ok_same. Qed.

Lemma unregister_ok ref b : bus_ok b -> bus_ok (unregister ref b).
Proof.
  intros Hok. unfold unregister. destruct (get ref b) as [a|] eqn:Hget; [|done].
  apply (get_Some _ _ _ Hok) in Hget.
  set (b1 := set_registry _ (set_directory _ _ b)).
  assert (bus_ok b1) as Hok1.
  { destruct Hok as [Ha Hn Hh Hr Ht Hp Hs]. split; cbn; try done.
    - auto with js.
    - by apply map_ok_filter.
    - intros u a'. rewrite map_get_delete. case_decide; [done|]. apply Hr.
    - intros n u [Hu Hne]%map_get_filter; [|done]. rewrite map_get_delete, decide_False by done. eauto. }
  assert (bus_ok (match bs_processes b1 !! ac_uuid a with
                  | Some (a, p) => set_process a (dispose p) b1 | None => b1 end)) as Hok2.
  { destruct (bs_processes b1 !! ac_uuid a) as [[a' p]|] eqn:E; [|done].
    destruct (bo_processes b1 Hok1 _ _ _ E) as [Ea [log Hlog]]. rewrite <- Ea in E.
    eapply set_process_ok; [done..|by apply dispose_ok]. }
  eapply bus_ok_ext; [exact Hok2|done..|]. intros c Hc. cbn. apply elem_of_app. by left.
Qed.

(** ** Tools *)

(** The first registered actor that handles a method. *)
Abbreviation owner_of method b := (js_find (fun a => handles a method) (actors b)).

Lemma owner_uuid method b a :
  bus_ok b -> owner_of method b = Some a -> get (ac_uuid a) b = Some a.
Proof.
  intros Hok [Ha _]%js_find_Some. apply get_uuid. by apply (elem_of_actors b a Hok).
Qed.

(** The message a tool call becomes. *)
Definition dispatched (from method : string) (payload : jobject) (owner : Actor) (b : MessageBus) : Envelope :=
  {| nv_id := envelope_name b; nv_from := from; nv_to := ac_uuid owner; nv_method := method;
     nv_payload := payload |}.

Definition held_message (method label : string) (payload : jobject) (owner : Actor) (b : MessageBus) :
    HeldMessage :=
  {| hm_id := held_name (count_envelope b); hm_actor := ac_instanceName owner; hm_method := method;
     hm_label := label; hm_detail := stringify (JObject payload) |}.

Lemma hold_ok from method label payload owner b :
  bus_ok b ->
  bus_ok (callback (OnHold (held_message method label payload owner b))
    (set_held (map_set (held_name (count_envelope b)) (HeldEnvelope (dispatched from method payload owner b))
                 (bs_held b)) (count_envelope (count_envelope b)))).
Proof.
  intros [Ha Hn Hh Hr Ht Hp Hs]. split; cbn; try done; [auto with js|].
  intros id e. rewrite map_get_set. case_decide as Hid.
  - intros [= <-]. exists (held_message method label payload owner b).
    split; [apply elem_of_app; right; left|]. by subst.
  - intros He. destruct (Hs id e He) as (held & ? & ?). exists held.
    split; [apply elem_of_app; by left|done].
Qed.

(** A tool call, on every branch. *)
Lemma dispatch_cases from method payload b :
  bus_ok b ->
  let '(r, b') := dispatch from method payload b in
  match owner_of method b with
  | None => r = Now (refused ("unknown tool " +:+ method)) /\ b' = b
  | Some a =>
      match gate a method with
      | Some label =>
          if bs_onHold b
          then r = Now (held_result label (held_name (count_envelope b))) /\
            b' = callback (OnHold (held_message method label payload a b))
                   (set_held (map_set (held_name (count_envelope b))
                                (HeldEnvelope (dispatched from method payload a b)) (bs_held b))
                      (count_envelope (count_envelope b)))
          else r = Now (refused "human review is unavailable") /\ b' = count_envelope b
      | None => exists p, bs_processes b !! ac_uuid a = Some (a, p) /\
          r = Later (ac_uuid a) (length (pr_delivered p)) /\
          b' = set_process a (deliver method payload p).2 (count_envelope b)
      end
  end.
Proof.
  intros Hok. unfold dispatch. destruct (owner_of method b) as [a|] eqn:Ho; [|done].
  destruct (gate a method) as [label|].
  - cbn [bs_onHold count_envelope]. by destruct (bs_onHold b).
  - unfold send. cbn [nv_to nv_method nv_payload].
    pose proof (owner_uuid _ _ _ Hok Ho) as Hg.
    assert (get (ac_uuid a) (count_envelope b) = Some a) as -> by exact Hg.
    apply (get_Some _ _ _ Hok) in Hg. destruct (bo_registered b Hok _ _ Hg) as [_ [p Hp]].
    rewrite (deliver_to_spec _ _ _ _ a p) by exact Hp. by exists p.
Qed.

Lemma dispatch_ok from method payload b : bus_ok b -> bus_ok (dispatch from method payload b).2.
Proof.
  intros Hok. pose proof (dispatch_cases from method payload b Hok) as Hd.
  destruct (dispatch from method payload b) as [r b']. cbn.
  destruct (owner_of method b) as [a|]; [|by destruct Hd as [_ ->]].
  destruct (gate a method) as [label|].
  - destruct (bs_onHold b); destruct Hd as [_ ->]; [by apply hold_ok|by apply count_envelope_ok].
  - destruct Hd as (p & Hp & _ & ->). destruct (bo_processes b Hok _ _ _ Hp) as [_ [log Hlog]].
    eapply set_process_ok; [by apply count_envelope_ok|exact Hp|by apply deliver_ok].
Qed.

Lemma holdAction_ok held name rejects b b' :
  bus_ok b -> holdAction held name rejects b = Ok b' -> bus_ok b'.
Proof.
  intros Hok. unfold holdAction. destruct (bs_onHold b); [|done]. cbn [negb].
  destruct (map_has _ _); [by intros [= <-]|]. intros [= <-].
  destruct Hok as [Ha Hn Hh Hr Ht Hp Hs]. split; cbn; try done; [auto with js|].
  intros id e. rewrite map_get_set. case_decide; [done|]. intros He.
  destruct (Hs id e He) as (h & ? & ?). exists h. split; [apply elem_of_app; by left|done].
Qed.

Lemma confirmHeld_ok id b : bus_ok b -> bus_ok (confirmHeld id b).2.
Proof.
  intros Hok. unfold confirmHeld. destruct (map_has id _); [done|].
  destruct (map_get id _) as [[e|name rejects]|]; [|by eapply bus_ok_ext|done].
  destruct (send e b) as [r c] eqn:E. destruct (send_ok e b Hok) as [Hc _]. rewrite E in Hc. cbn in *.
  by eapply bus_ok_ext.
Qed.

Lemma settle_ok id b : bus_ok b -> bus_ok (settle id b).
Proof. intros. by eapply bus_ok_ext. Qed.

Lemma release_ok id b : bus_ok b -> bus_ok (release id b).
Proof.
  intros [Ha Hn Hh Hr Ht Hp Hs]. split; cbn; try done; [auto with js|].
  intros i e. rewrite map_get_delete. case_decide; [done|]. intros He.
  destruct (Hs i e He) as (h & ? & ?). exists h. split; [apply elem_of_app; by left|done].
Qed.

#[export] Hint Resolve settle_ok release_ok : js.

Lemma confirmHeld_end_ok id outcome b : bus_ok b -> bus_ok (confirmHeld_end id outcome b).2.
Proof.
  intros Hok. unfold confirmHeld_end. destruct outcome as [r|]; [|by apply settle_ok].
  destruct (says_no _) as [[]|]; cbn [snd]; auto with js.
Qed.

Lemma bus_step_ok reduces b who b' : bus_ok b -> bus_step reduces b who b' -> bus_ok b'.
Proof.
  intros Hok Hs. destruct Hs.
  - by apply register_ok.
  - by apply unregister_ok.
  - by apply send_ok.
  - by apply (emit_all_ok predicate payload from _ [] b Hok).
  - by apply dispatch_ok.
  - by eapply holdAction_ok.
  - by apply confirmHeld_ok.
  - by apply confirmHeld_end_ok.
  - unfold rejectHeld. destruct (map_has _ _); [done|]. by eapply bus_ok_ext.
  - unfold rejectHeld_end. destruct outcome; cbn [snd]; auto with js.
  - unfold uiEvent. destruct (get ref b) as [a|]; [|done].
    destruct (bs_processes b !! ac_uuid a) as [[a' p]|] eqn:E; [|done].
    destruct (bo_processes b Hok _ _ _ E) as [Ea [log Hlog]]. rewrite <- Ea in E.
    eapply set_process_ok; [done..|]. by eapply mailbox_ok_same.
  - unfold llmLane in *. destruct (get "llm" b) as [a|]; [|done].
    match goal with H : mbind _ _ = Some _ |- _ => cbn in H; injection H as H end.
    match goal with H : deliver_to ?u ?m ?pl b = _ |- _ =>
      destruct (deliver_to_ok u m pl b Hok) as [Hc _]; by rewrite H in Hc end.
  - match goal with H : bs_processes b !! _ = _, H' : process_step _ _ _ _ |- _ =>
      destruct (bo_processes b Hok _ _ _ H) as [_ [log Hlog]];
      destruct (process_step_ok _ _ _ _ _ Hlog H') as [more Hmore] end.
    by eapply set_process_ok.
Qed.

Lemma new_bus_ok onHold : bus_ok (new_bus onHold).
Proof. split; cbn; try done; apply map_ok_nil. Qed.

Lemma reachable_bus_ok reduces onHold b : rtc (any_step reduces) (new_bus onHold) b -> bus_ok b.
Proof.
  intros Hs. assert (forall b b', bus_ok b -> rtc (any_step reduces) b b' -> bus_ok b') as Hall.
  { clear. intros b b' Hok Hs. induction Hs as [|b c d [who Hbc] _ IH]; [done|].
    apply IH. by eapply bus_step_ok. }
  eapply Hall; [apply new_bus_ok|exact Hs].
Qed.

(** ** What is delivered *)

(** Messages are only added, and every one that is added satisfies [P]. *)
Definition delivers_only (P : Actor -> Message -> Prop) (b b' : MessageBus) : Prop :=
  forall u a p, bs_processes b !! u = Some (a, p) -> exists p' new,
    bs_processes b' !! u = Some (a, p') /\ pr_delivered p' = pr_delivered p ++ new /\ Forall (P a) new.

Lemma delivers_only_same P b b' : bs_processes b' = bs_processes b -> delivers_only P b b'.
Proof. intros E u a p Hu. exists p, []. rewrite E, app_nil_r. done. Qed.

Lemma delivers_only_trans P b c d : delivers_only P b c -> delivers_only P c d -> delivers_only P b d.
Proof.
  intros H1 H2 u a p Hu. destruct (H1 u a p Hu) as (q & k & Hq & Hk & Pk).
  destruct (H2 u a q Hq) as (r & l & Hr & Hl & Pl). exists r, (k ++ l).
  rewrite Hl, Hk, app_assoc. split; [done|]. split; [done|]. by apply Forall_app.
Qed.

Lemma set_process_delivers_only (P : Actor -> Message -> Prop) a p p' new b :
  bs_processes b !! ac_uuid a = Some (a, p) -> pr_delivered p' = pr_delivered p ++ new ->
  Forall (P a) new -> delivers_only P b (set_process a p' b).
Proof.
  intros Ha Hd HP u a' q Hu. cbn. destruct (decide (u = ac_uuid a)) as [->|Hne].
  - rewrite lookup_insert_eq. rewrite Ha in Hu. injection Hu as <- <-. eauto.
  - rewrite lookup_insert_ne by done. exists q, []. by rewrite app_nil_r.
Qed.

Lemma confirmHeld_end_processes id outcome b :
  bs_processes (confirmHeld_end id outcome b).2 = bs_processes b.
Proof. unfold confirmHeld_end. destruct outcome as [r|]; [|done]. by destruct (says_no _) as [[]|]. Qed.

Lemma unattended_ungated reduces b b' :
  bus_ok b -> unattended reduces b b' ->
  delivers_only (fun a m => gate a (msg_method m) = None) b b'.
Proof.
  intros Hok [Hs|Hs]; inversion Hs as [| | | |from method payload| | |id waits outcome| |id outcome| | |
                                        a p p' Hp Hstep Hd]; subst.
  - pose proof (dispatch_cases from method payload b Hok) as Hdc.
    destruct (dispatch from method payload b) as [r c]. cbn [snd].
    destruct (owner_of method b) as [a|]; [|destruct Hdc as [_ ->]; by apply delivers_only_same].
    destruct (gate a method) as [label|] eqn:Hg.
    + destruct (bs_onHold b); destruct Hdc as [_ ->]; by apply delivers_only_same.
    + destruct Hdc as (p & Hp & _ & ->).
      apply delivers_only_trans with (count_envelope b); [by apply delivers_only_same|].
      eapply set_process_delivers_only; [exact Hp|apply deliver_delivered|]. by repeat constructor.
  - apply delivers_only_same, confirmHeld_end_processes.
  - apply delivers_only_same. unfold rejectHeld_end. by destruct outcome.
  - eapply set_process_delivers_only; [exact Hp| |constructor]. by rewrite app_nil_r.
Qed.

(** the directory is consistent.  In every state a bus can reach, an actor is
    found under its uuid and its mailbox is intact, every name of the index leads
    to a registered actor, and everything the gate holds was shown with the
    method and the payload it will send. *)
Theorem bus_invariant (reduces : Sandbox) (onHold : bool) (b : MessageBus) :
  rtc (any_step reduces) (new_bus onHold) b ->
  (forall a, a ∈ actors b -> get (ac_uuid a) b = Some a /\
     exists p log, bs_processes b !! ac_uuid a = Some (a, p) /\ mailbox_ok log p) /\
  (forall name uuid, map_get name (bs_byName b) = Some uuid -> exists a, get name b = Some a /\ a ∈ actors b) /\
  (forall id e, map_get id (bs_held b) = Some (HeldEnvelope e) ->
     exists held, OnHold held ∈ bs_callbacks b /\ hm_id held = id /\ hm_method held = nv_method e /\
       hm_detail held = stringify (JObject (nv_payload e))).
Proof.
  intros Hr. apply reachable_bus_ok in Hr as Hok. split; [|split].
  - intros a Ha. apply (elem_of_actors b a Hok) in Ha. split; [by apply get_uuid|].
    destruct (bo_registered b Hok _ _ Ha) as [_ [p Hp]].
    destruct (bo_processes b Hok _ _ _ Hp) as [_ [log ?]]. eauto.
  - intros name uuid Hn. destruct (bo_name_targets b Hok _ _ Hn) as [a Ha].
    destruct (get name b) as [a'|] eqn:Hg.
    + exists a'. split; [done|]. apply (elem_of_actors b a' Hok). by eapply get_Some.
    + exfalso. unfold get in Hg. destruct (map_get name (bs_actors b)); [done|].
      rewrite Hn in Hg. cbn in Hg. congruence.
  - apply (bo_shown b Hok).
Qed.

(** The gate that [dispatch] finds is the label of the method of that name. *)
Lemma gate_label a m label :
  NoDup (ms_name <$> mf_methods (ac_manifest a)) -> m ∈ mf_methods (ac_manifest a) ->
  ms_hitl m = Some label -> label <> "" -> gate a (ms_name m) = Some label.
Proof.
  unfold gate. generalize (mf_methods (ac_manifest a)). intros ms Hn Hm Hl Hne.
  assert (js_find (fun m' => bool_decide (ms_name m' = ms_name m)) ms = Some m) as ->.
  { induction ms as [|m0 ms IH]; [by apply not_elem_of_nil in Hm|]. cbn.
    rewrite fmap_cons in Hn. apply NoDup_cons in Hn as [Hn0 Hn].
    apply elem_of_cons in Hm as [<-|Hm]; [by rewrite bool_decide_true|].
    rewrite bool_decide_false; [by apply IH|]. intros E. destruct Hn0. rewrite E.
    by apply list_elem_of_fmap_2. }
  cbn. rewrite Hl. by destruct label.
Qed.

Lemma unattended_run_ungated reduces onHold b b' :
  rtc (any_step reduces) (new_bus onHold) b -> rtc (unattended reduces) b b' ->
  delivers_only (fun a m => gate a (msg_method m) = None) b b'.
Proof.
  intros Hreach Hrun. induction Hrun as [b|b c d Hs _ IH]; [by apply delivers_only_same|].
  eapply delivers_only_trans; [eapply unattended_ungated; [by eapply reachable_bus_ok|exact Hs]|].
  apply IH. eapply rtc_r; [exact Hreach|]. destruct Hs; by eexists.
Qed.

(** C23: the human gate holds by name, and by name only.  Take a method that a manifest (with
    distinct method names) declares with a label [hitl], and the actor built from that manifest.
    As long as no human answers the gate and no host code sends messages of its own, no message
    under the name of the method enters the actor's mailbox, however the model calls tools; a
    call of that name, when this actor is the first that handles it, only shows the label and the
    payload to the human, or is refused when nobody can be shown anything.  The gate does not
    protect the event behind the method: it may be sent in the meantime by a message that bears
    another name, and such a name is one that the caller of the constructor bound to the event, that
    of another method with the same event which declares no label, or the functor of the first
    predicate that a method with this event produces or requires. *)
Theorem gate_holds_by_name (reduces : Sandbox) (onHold : bool) (b b' : MessageBus) (uuid : string)
    (manifest : Manifest) (custom : list (string * Handler)) (p : Process) (m : MethodSpec) (label : string)
    (Hreach : rtc (any_step reduces) (new_bus onHold) b) (Hrun : rtc (unattended reduces) b b')
    (Hp : bs_processes b !! uuid = Some (new_actor uuid manifest custom, p))
    (Hnames : NoDup (ms_name <$> mf_methods manifest)) (Hm : m ∈ mf_methods manifest)
    (Hlabel : ms_hitl m = Some label) (Hne : label <> "") :
  let a := new_actor uuid manifest custom in
  (exists p' new, bs_processes b' !! uuid = Some (a, p') /\ pr_delivered p' = pr_delivered p ++ new /\
     forall msg, msg ∈ new -> msg_method msg <> ms_name m /\
       forall event_, ms_event m = Some event_ ->
         handler_of (ac_handlers a) (msg_method msg) = Some (HAdapter event_) ->
         handler_of custom (msg_method msg) = Some (HAdapter event_) \/
         exists m', m' ∈ mf_methods manifest /\ ms_event m' = Some event_ /\
           (msg_method msg = ms_name m' /\ (ms_hitl m' = None \/ ms_hitl m' = Some "") \/
            exists predicate, msg_method msg = predicate_functor predicate /\
              (ms_produces m' ≫= head = Some predicate \/ ms_requires m' ≫= head = Some predicate))) /\
  (forall from payload before after, actors b' = before ++ a :: after ->
     (forall other, other ∈ before -> handler_of (ac_handlers other) (ms_name m) = None) ->
     is_Some (handler_of (ac_handlers a) (ms_name m)) ->
     let c := (dispatch from (ms_name m) payload b').2 in
     bs_processes c = bs_processes b' /\ bs_actors c = bs_actors b' /\
     if bs_onHold b'
     then exists held e, bs_callbacks c = bs_callbacks b' ++ [OnHold held] /\
            hm_method held = ms_name m /\ hm_label held = label /\ hm_detail held = stringify (JObject payload) /\
            bs_held c = map_set (hm_id held) (HeldEnvelope e) (bs_held b') /\
            nv_to e = uuid /\ nv_method e = ms_name m /\ nv_payload e = payload
     else bs_callbacks c = bs_callbacks b' /\ bs_held c = bs_held b').
Proof.
  intros a. pose proof (gate_label a) as Hgate. split.
  - destruct (unattended_run_ungated _ _ _ _ Hreach Hrun uuid a p Hp) as (p' & new & Hp' & Hd & Hall).
    exists p', new. split; [done|]. split; [done|]. intros msg Hin.
    rewrite Forall_forall in Hall. specialize (Hall msg Hin). split.
    { intros E. rewrite E in Hall. by rewrite (Hgate m label) in Hall. }
    intros event_ He Hh. apply bind_methods_source in Hh as [?|(m' & Hm' & He' & Hname)]; [by left|right].
    exists m'. split; [done|]. split; [by apply truthy_Some in He'|].
    destruct Hname as [Hname|(q & Hq & <-)].
    + left. split; [done|]. destruct (ms_hitl m') as [l|] eqn:El; [|by left].
      destruct (decide (l = "")) as [->|Hl]; [by right|].
      by rewrite <- Hname, (Hgate m' l) in Hall.
    + right. exists q. split; [done|]. destruct Hq as [Hq|Hq]; apply truthy_Some in Hq; auto.
  - intros from payload before after Ha Hbefore Hhas. cbn zeta.
    assert (bus_ok b') as Hok.
    { eapply reachable_bus_ok. transitivity b; [exact Hreach|].
      clear -Hrun. induction Hrun as [|x y z [Hs|Hs]]; [done| |]; eapply rtc_l; try done; by eexists. }
    assert (owner_of (ms_name m) b' = Some a) as Ho.
    { rewrite Ha. clear -Hbefore Hhas. induction before as [|o os IH]; cbn.
      - by rewrite (proj2 (handles_spec a (ms_name m)) Hhas).
      - assert (handles o (ms_name m) = false) as ->; [|apply IH; intros; apply Hbefore; by right].
        apply bool_decide_eq_false. rewrite (Hbefore o) by left. by intros []. }
    pose proof (dispatch_cases from (ms_name m) payload b' Hok) as Hd.
    destruct (dispatch from (ms_name m) payload b') as [r c]. rewrite Ho, (Hgate m label) in Hd by done.
    cbn [snd]. destruct (bs_onHold b'); destruct Hd as [_ ->]; [|done].
    split; [done|]. split; [done|]. by eexists (held_message _ _ _ _ _), (dispatched _ _ _ _ _).
Qed.

(** what is confirmed is what was shown.  A human confirmation puts messages
    into mailboxes only for an action the bus has shown under that identifier,
    and then with the method and payload that were shown. *)
Theorem confirmed_messages_were_shown (reduces : Sandbox) (onHold : bool) (b : MessageBus)
    (id uuid : string) (a : Actor) (p : Process)
    (Hreach : rtc (any_step reduces) (new_bus onHold) b) (Hp : bs_processes b !! uuid = Some (a, p)) :
  exists p' new, bs_processes (confirmHeld id b).2 !! uuid = Some (a, p') /\
    pr_delivered p' = pr_delivered p ++ new /\ length new <= 1 /\
    forall m, m ∈ new -> exists held, OnHold held ∈ bs_callbacks b /\ hm_id held = id /\
      hm_method held = msg_method m /\ hm_detail held = stringify (JObject (msg_payload m)).
Proof.
  apply reachable_bus_ok in Hreach as Hok.
  assert (exists p' new, bs_processes b !! uuid = Some (a, p') /\ pr_delivered p' = pr_delivered p ++ new /\
    length new <= 1 /\ forall m, m ∈ new -> exists held, OnHold held ∈ bs_callbacks b /\ hm_id held = id /\
      hm_method held = msg_method m /\ hm_detail held = stringify (JObject (msg_payload m))) as Hsame.
  { exists p, []. rewrite app_nil_r. split; [done|]. split; [done|]. split; [cbn; lia|].
    by intros m ?%not_elem_of_nil. }
  unfold confirmHeld. destruct (map_has id _); [done|].
  destruct (map_get id (bs_held b)) as [[e|name rejects]|] eqn:Hh; [|done..].
  destruct (bo_shown b Hok id e Hh) as (held & Hshown).
  destruct (send e b) as [r c] eqn:E. cbn. unfold send in E.
  destruct (get (nv_to e) b) as [t|] eqn:Hg; [|injection E as <- <-; done].
  apply (get_Some _ _ _ Hok) in Hg. destruct (bo_registered b Hok _ _ Hg) as [_ [q Hq]].
  rewrite (deliver_to_spec _ _ _ _ t q) in E by done. injection E as <- <-. cbn.
  destruct (decide (uuid = ac_uuid t)) as [->|Hne]; [|by rewrite lookup_insert_ne].
  rewrite lookup_insert_eq. rewrite Hq in Hp. injection Hp as -> ->.
  exists (deliver (nv_method e) (nv_payload e) p).2, [message p (nv_method e) (nv_payload e)].
  split; [done|]. split; [apply deliver_delivered|]. split; [cbn; lia|].
  intros m ->%list_elem_of_singleton. by exists held.
Qed.

(** An answer to the gate under way. *)
Definition reviewing (id : string) (action : HeldAction) (c : MessageBus) : Prop :=
  map_has id (bs_resolving c) = true /\ map_get id (bs_held c) = Some action.

Lemma map_has_set {K V} `{EqDecision K} (k : K) (v : V) m : map_has k (map_set k v m) = true.
Proof. unfold map_has. by rewrite map_get_set_eq, bool_decide_true. Qed.

Lemma map_has_delete {K V} `{EqDecision K} (k : K) (m : list (K * V)) : map_has k (map_delete k m) = false.
Proof. unfold map_has. rewrite map_get_delete, decide_True by done. by rewrite bool_decide_false; [|intros []]. Qed.

Lemma confirmHeld_reviewing b id action :
  map_get id (bs_held b) = Some action -> map_has id (bs_resolving b) = false ->
  (confirmHeld id b).1 = None /\ reviewing id action (confirmHeld id b).2.
Proof.
  intros Hh Hn. unfold confirmHeld. rewrite Hn, Hh. destruct action as [e|name rejects].
  - destruct (send e b) as [r c] eqn:E. split; [done|]. split; cbn; [apply map_has_set|].
    unfold send, deliver_to in E. destruct (get _ b) as [a|]; [|by injection E as <- <-].
    destruct (bs_processes b !! _) as [[? ?]|]; [|by injection E as <- <-].
    destruct (deliver _ _ _). by injection E as <- <-.
  - split; [done|]. split; cbn; [apply map_has_set|done].
Qed.

Lemma rejectHeld_reviewing b id action :
  map_get id (bs_held b) = Some action -> map_has id (bs_resolving b) = false ->
  reviewing id action (rejectHeld id b).
Proof.
  intros Hh Hn. unfold rejectHeld. rewrite Hn. split; cbn; [apply map_has_set|done].
Qed.

Lemma reviewing_refuses b id action :
  reviewing id action b ->
  confirmHeld id b = (Some (refused "review is being saved"), b) /\ rejectHeld id b = b.
Proof. intros [Hr _]. unfold confirmHeld, rejectHeld. by rewrite Hr. Qed.

Lemma released_nothing_held id b :
  let c := settle id (release id b) in
  map_has id (bs_resolving c) = false /\
  confirmHeld id c = (Some (refused "nothing held"), c) /\ OnHeldResolved id ∈ bs_callbacks c.
Proof.
  cbv zeta. unfold confirmHeld. assert (map_has id (bs_resolving (settle id (release id b))) = false) as Hn
    by apply map_has_delete.
  split; [done|]. rewrite Hn. split; [|apply elem_of_app; right; left].
  assert (map_get id (bs_held (settle id (release id b))) = None) as ->; [|done].
  cbn. by rewrite map_get_delete, decide_True.
Qed.

Lemma settled_stays_held id action b :
  reviewing id action b ->
  map_has id (bs_resolving (settle id b)) = false /\ map_get id (bs_held (settle id b)) = Some action.
Proof. intros [_ Hh]. split; [apply map_has_delete|exact Hh]. Qed.

(** a held action is resolved once.  While an answer is being saved every
    other answer to it is refused and changes nothing; an action that was
    confirmed and did not say no, or was rejected, is no longer held and the view
    is told; an action that said no or failed stays held and can be answered
    again. *)
Theorem held_actions_resolve_once (b : MessageBus) (id : string) (action : HeldAction) :
  map_get id (bs_held b) = Some action -> map_has id (bs_resolving b) = false ->
  let b1 := (confirmHeld id b).2 in let b2 := rejectHeld id b in
  (confirmHeld id b).1 = None /\
  (forall c, c = b1 \/ c = b2 ->
     confirmHeld id c = (Some (refused "review is being saved"), c) /\ rejectHeld id c = c) /\
  (forall outcome, let c := (confirmHeld_end id outcome b1).2 in
     map_has id (bs_resolving c) = false /\
     if (match outcome with Ok r => bool_decide (says_no (hr_record r) = Ok false) | Throw _ => false end)
     then confirmHeld id c = (Some (refused "nothing held"), c) /\ OnHeldResolved id ∈ bs_callbacks c
     else map_get id (bs_held c) = Some action) /\
  (forall outcome, let c := (rejectHeld_end id outcome b2).2 in
     map_has id (bs_resolving c) = false /\
     if is_ok outcome
     then confirmHeld id c = (Some (refused "nothing held"), c) /\ OnHeldResolved id ∈ bs_callbacks c
     else map_get id (bs_held c) = Some action).
Proof.
  intros Hh Hn b1 b2. destruct (confirmHeld_reviewing b id action Hh Hn) as [H1 R1]. fold b1 in R1.
  pose proof (rejectHeld_reviewing b id action Hh Hn : reviewing id action b2) as R2.
  split; [done|]. split; [|split].
  - intros c [->| ->]; by eapply reviewing_refuses.
  - intros [r|error]; cbn [confirmHeld_end]; [|by apply settled_stays_held].
    destruct (says_no (hr_record r)) as [[]|error] eqn:E; cbn [snd].
    + rewrite bool_decide_false by done. by apply settled_stays_held.
    + rewrite bool_decide_true by done. apply released_nothing_held.
    + rewrite bool_decide_false by done. by apply settled_stays_held.
  - intros [[]|error]; cbn [rejectHeld_end snd is_ok]; [apply released_nothing_held|by apply settled_stays_held].
Qed.

(** ** Emission *)

Lemma get_routed b b' ref : routed b b' -> get ref b' = get ref b.
Proof. intros []. unfold get. by rewrite rt_actors0, rt_names0. Qed.

Lemma send_delivers e b u a p :
  bus_ok b -> bs_processes b !! u = Some (a, p) ->
  exists p', bs_processes (send e b).2 !! u = Some (a, p') /\
    pr_delivered p' = pr_delivered p ++
      if bool_decide (ac_uuid <$> get (nv_to e) b = Some u) then [message p (nv_method e) (nv_payload e)] else [].
Proof.
  intros Hok Hu. unfold send. destruct (get (nv_to e) b) as [t|] eqn:Hg; cbn [fmap option_fmap option_map].
  - apply (get_Some _ _ _ Hok) in Hg. destruct (bo_registered b Hok _ _ Hg) as [_ [q Hq]].
    rewrite (deliver_to_spec _ _ _ _ t q) by done. cbn. destruct (decide (u = ac_uuid t)) as [->|Hne].
    + rewrite lookup_insert_eq, bool_decide_true by done. rewrite Hq in Hu. injection Hu as -> ->.
      eexists. split; [done|]. apply deliver_delivered.
    + rewrite lookup_insert_ne, bool_decide_false by congruence. exists p. by rewrite app_nil_r.
  - exists p. rewrite bool_decide_false by done. by rewrite app_nil_r.
Qed.

(** The actors an emission is addressed to, by the name of their template, and
    that the name leads to [u]. *)
Definition addressed (b : MessageBus) (u : string) (t : Actor) : bool :=
  bool_decide (ac_uuid <$> get (mf_id (ac_manifest t)) b = Some u).

Lemma emit_all_delivers predicate payload from targets replies b u a p :
  bus_ok b -> bs_processes b !! u = Some (a, p) ->
  exists p' new,
    bs_processes (fold_left (emit_to predicate payload from) targets (replies, b)).2 !! u = Some (a, p') /\
    pr_delivered p' = pr_delivered p ++ new /\
    Forall (fun m => msg_method m = predicate_functor predicate /\ msg_payload m = payload) new /\
    length new = length (List.filter (addressed b u) targets).
Proof.
  revert replies b p. induction targets as [|t targets IH]; intros replies b p Hok Hu; cbn [fold_left].
  - exists p, []. rewrite app_nil_r. by repeat split.
  - unfold emit_to at 2.
    set (e := {| nv_id := _; nv_from := _; nv_to := _; nv_method := _; nv_payload := _ |}).
    destruct (send e (count_envelope b)) as [r c] eqn:E.
    destruct (send_ok e (count_envelope b)) as (Hc & _ & Hr); [by apply count_envelope_ok|].
    destruct (send_delivers e (count_envelope b) u a p) as (q & Hq & Hd);
      [by apply count_envelope_ok|done|]. rewrite E in Hc, Hr, Hq. cbn [snd] in *.
    assert (forall ref, get ref c = get ref b) as Hget by (intros ref; by rewrite (get_routed _ _ ref Hr)).
    destruct (IH (replies ++ [r]) c q Hc Hq) as (p' & new & Hp' & Hd' & Hall & Hlen).
    exists p', ((if addressed b u t then [message p (predicate_functor predicate) payload] else []) ++ new).
    split; [done|]. split; [|split].
    + rewrite Hd', Hd, <- app_assoc. done.
    + apply Forall_app. split; [|done]. destruct (addressed b u t); by repeat constructor.
    + rewrite length_app, Hlen. cbn [List.filter].
      assert (List.filter (addressed c u) targets = List.filter (addressed b u) targets) as ->.
      { apply List.filter_ext. intros x. unfold addressed. by rewrite Hget. }
      by destruct (addressed b u t).
Qed.

(** In a map keyed by uuid, the actors with one uuid that pass a test. *)
Lemma count_uuid (P : Actor -> bool) u m :
  map_ok m -> (forall v a, map_get v m = Some a -> ac_uuid a = v) ->
  length (List.filter (fun a => bool_decide (ac_uuid a = u)) (List.filter P m.*2)) =
  match map_get u m with Some a => if P a then 1 else 0 | None => 0 end.
Proof.
  unfold map_ok. induction m as [|[v a] m IH]; cbn [fmap list_fmap snd fst List.filter map_get]; [done|].
  intros [Hn Hok]%NoDup_cons Hk.
  assert (ac_uuid a = v) as Ev by (apply (Hk v); cbn; by rewrite decide_True).
  assert (forall v' a', map_get v' m = Some a' -> ac_uuid a' = v') as Hk'.
  { intros v' a' Hg. apply Hk. cbn. rewrite decide_False; [done|]. intros ->.
    by apply (map_get_None v m) in Hn; rewrite Hn in Hg. }
  specialize (IH Hok Hk'). destruct (decide (u = v)) as [->|Hne].
  - apply (map_get_None v m) in Hn. rewrite Hn in IH. destruct (P a); cbn [List.filter]; [|done].
    rewrite Ev, bool_decide_true by done. cbn [length]. by rewrite IH.
  - destruct (P a); cbn [List.filter]; [|done]. rewrite Ev, bool_decide_false by done. done.
Qed.

(** what an emission delivers.  An actor receives the predicate, under the
    name of its functor and with the payload, once for every registered actor that
    subscribed to it (one of its requirements unifies with the predicate and it
    handles the functor) and whose template name leads to that actor; nothing else
    is delivered.  So where every template has one instance, a subscriber
    receives it exactly once and every other actor nothing. *)
Theorem emit_delivers (reduces : Sandbox) (onHold : bool) (b : MessageBus) (predicate : string)
    (payload : jobject) (from uuid : string) (a : Actor) (p : Process)
    (Hreach : rtc (any_step reduces) (new_bus onHold) b) (Hp : bs_processes b !! uuid = Some (a, p)) :
  exists p' new, bs_processes (emit predicate payload from b).2 !! uuid = Some (a, p') /\
    pr_delivered p' = pr_delivered p ++ new /\
    Forall (fun m => msg_method m = predicate_functor predicate /\ msg_payload m = payload) new /\
    length new = length (List.filter (addressed b uuid) (List.filter (wants predicate) (actors b))) /\
    ((forall t, t ∈ actors b -> get (mf_id (ac_manifest t)) b = Some t) ->
     length new = match map_get uuid (bs_actors b) with
                  | Some t => if wants predicate t then 1 else 0
                  | None => 0
                  end).
Proof.
  apply reachable_bus_ok in Hreach as Hok.
  destruct (emit_all_delivers predicate payload from (List.filter (wants predicate) (actors b)) [] b uuid a p)
    as (p' & new & Hp' & Hd & Hall & Hlen); [done..|].
  exists p', new. do 4 (split; [done|]). intros Hself. rewrite Hlen.
  rewrite <- count_uuid; [|apply Hok|intros v t Hv; by apply (bo_registered b Hok v t)].
  f_equal. apply List.filter_ext_in. intros t Ht. unfold addressed.
  apply List.filter_In in Ht as [Ht _]. rewrite Hself by by apply list_elem_of_In. cbn.
  by apply bool_decide_ext; split; [intros [= ->]|intros ->].
Qed.

(** a second instance hears nothing.  An emission is addressed to the name of
    each subscriber's template, not to the subscriber: with two instances of one
    template, which both subscribe, the default instance receives the emission
    twice and the other one never. *)
Theorem emit_misses_the_second_instance (reduces : Sandbox) (onHold : bool) (b : MessageBus)
    (predicate : string) (payload : jobject) (from : string) (a1 a2 : Actor) (p1 p2 : Process)
    (Hreach : rtc (any_step reduces) (new_bus onHold) b)
    (Hactors : actors b = [a1; a2]) (Hsame : mf_id (ac_manifest a2) = mf_id (ac_manifest a1))
    (Hdefault : get (mf_id (ac_manifest a1)) b = Some a1) (Huuid : ac_uuid a1 <> ac_uuid a2)
    (H1 : wants predicate a1 = true) (H2 : wants predicate a2 = true)
    (Hp1 : bs_processes b !! ac_uuid a1 = Some (a1, p1)) (Hp2 : bs_processes b !! ac_uuid a2 = Some (a2, p2)) :
  let b' := (emit predicate payload from b).2 in
  exists p1' p2' m m', bs_processes b' !! ac_uuid a1 = Some (a1, p1') /\
    pr_delivered p1' = pr_delivered p1 ++ [m; m'] /\ msg_payload m = payload /\ msg_payload m' = payload /\
    bs_processes b' !! ac_uuid a2 = Some (a2, p2') /\ pr_delivered p2' = pr_delivered p2.
Proof.
  apply reachable_bus_ok in Hreach as Hok. cbv zeta. unfold emit.
  destruct (emit_all_delivers predicate payload from (List.filter (wants predicate) (actors b)) [] b
              (ac_uuid a1) a1 p1) as (p1' & new1 & Hp1' & Hd1 & Hall & Hlen1); [done..|].
  destruct (emit_all_delivers predicate payload from (List.filter (wants predicate) (actors b)) [] b
              (ac_uuid a2) a2 p2) as (p2' & new2 & Hp2' & Hd2 & _ & Hlen2); [done..|].
  rewrite Hactors in Hlen1, Hlen2. cbn [List.filter] in Hlen1, Hlen2. rewrite H1, H2 in Hlen1, Hlen2.
  unfold addressed in Hlen1, Hlen2. cbn [List.filter] in Hlen1, Hlen2.
  rewrite Hsame, Hdefault in Hlen1, Hlen2. cbn in Hlen1, Hlen2.
  rewrite bool_decide_true in Hlen1 by done. rewrite bool_decide_false in Hlen2 by congruence.
  destruct new1 as [|m [|m' [|]]], new2; try discriminate.
  rewrite app_nil_r in Hd2. apply Forall_cons in Hall as [[_ Hm] [[_ Hm'] _]%Forall_cons].
  by exists p1', p2', m, m'.
Qed.

(** ** Aliases *)

(** Nothing binds or unbinds the callback. *)
Lemma bus_step_onHold reduces b who b' : bus_step reduces b who b' -> bs_onHold b' = bs_onHold b.
Proof.
  assert (forall u m pl b, bs_onHold (deliver_to u m pl b).2 = bs_onHold b) as Hdel.
  { intros u m pl c. unfold deliver_to. destruct (bs_processes c !! u) as [[? ?]|]; [|done].
    by destruct (deliver _ _ _). }
  assert (forall e b, bs_onHold (send e b).2 = bs_onHold b) as Hsend.
  { intros e c. unfold send. destruct (get _ _); [apply Hdel|done]. }
  intros Hs. destruct Hs.
  - unfold register. destruct (bs_processes _ !! _); by destruct (registerActor _ _ _) as [[? ?]|].
  - unfold unregister. destruct (get ref b); [|done]. by destruct (bs_processes _ !! _) as [[? ?]|].
  - apply Hsend.
  - unfold emit. generalize (List.filter (wants predicate) (actors b)) as targets.
    intros targets. generalize (@nil Reply). revert b. induction targets as [|t targets IH]; intros b rs; [done|].
    cbn [fold_left]. unfold emit_to at 2. destruct (send _ _) as [r c] eqn:E. rewrite IH.
    match type of E with send ?e ?b = _ => pose proof (Hsend e b) as Hb; rewrite E in Hb end. exact Hb.
  - unfold dispatch. destruct (owner_of method b); [|done]. destruct (gate _ _).
    + by destruct (negb _).
    + etrans; [apply Hsend|done].
  - unfold holdAction in *. destruct (negb _); [done|]. destruct (map_has _ _); congruence || by inv_result.
  - unfold confirmHeld. destruct (map_has _ _); [done|]. destruct (map_get _ _) as [[e|? ?]|]; [|done..].
    pose proof (Hsend e b) as Hb. by destruct (send e b).
  - unfold confirmHeld_end. destruct outcome as [r|]; [|done]. by destruct (says_no _) as [[]|].
  - unfold rejectHeld. by destruct (map_has _ _).
  - unfold rejectHeld_end. by destruct outcome.
  - unfold uiEvent. destruct (get ref b); [|done]. by destruct (bs_processes _ !! _) as [[? ?]|].
  - unfold llmLane in *. destruct (get "llm" b) as [a|]; [|done]. cbn in *.
    match goal with H : Some ?x = Some _ |- _ => injection H as H; change b' with (r, b').2; rewrite <- H end.
    apply Hdel.
  - done.
Qed.

Lemma alias_handler uuid manifest m event_ predicate more :
  mf_methods manifest = [m] -> truthy (ms_event m) = Some event_ ->
  ms_produces m = Some (predicate :: more) -> predicate <> "" ->
  predicate_functor predicate <> ms_name m -> predicate_functor predicate ∉ OBJECT_PROTOTYPE ->
  let handlers := ac_handlers (new_actor uuid manifest []) in
  handler_of handlers (predicate_functor predicate) = Some (HAdapter event_) /\
  handler_of handlers (ms_name m) = Some (HAdapter event_).
Proof.
  intros Hm He Hp Hne Ha Hpl. cbn. rewrite Hm. cbn [fold_left]. split; [|by apply bind_method_own].
  unfold bind_method. rewrite He, Hp. cbn [fold_left mbind option_bind head]. apply bind_alias_keeps.
  unfold bind_alias at 1. assert (truthy (Some predicate) = Some predicate) as -> by by destruct predicate.
  assert (handler_of (map_set (ms_name m) (HAdapter event_) []) (predicate_functor predicate) = None) as Hn.
  { rewrite handler_of_set, decide_False by done. unfold handler_of. cbn [map_get].
    unfold includes. by rewrite bool_decide_false. }
  rewrite Hn. rewrite bool_decide_false by by intros []. rewrite handler_of_set. by rewrite decide_True.
Qed.

(** the gate has a back door.  The constructor also binds the adapter of a
    gated method under the functor of what it produces, and the tool bridge looks
    for the gate under the name it was called with: a tool call by that functor
    sends the same event to the same actor at once, without the human, while a
    call by the method's own name is held. *)
Theorem gate_is_bypassed_by_an_alias (reduces : Sandbox) (b : MessageBus) (uuid : string)
    (manifest : Manifest) (m : MethodSpec) (label event_ predicate from : string) (more : list string)
    (payload : jobject)
    (Hreach : rtc (any_step reduces) (new_bus true) b)
    (Hactors : actors b = [new_actor uuid manifest []]) (Hmethods : mf_methods manifest = [m])
    (Hlabel : truthy (ms_hitl m) = Some label) (Hevent : truthy (ms_event m) = Some event_)
    (Hproduces : ms_produces m = Some (predicate :: more)) (Hpredicate : predicate <> "")
    (Halias : predicate_functor predicate <> ms_name m)
    (Hplain : predicate_functor predicate ∉ OBJECT_PROTOTYPE) :
  let a := new_actor uuid manifest [] in
  (exists id, (dispatch from (ms_name m) payload b).1 = Now (held_result label id) /\
     bs_processes (dispatch from (ms_name m) payload b).2 = bs_processes b) /\
  exists p p' msg, bs_processes b !! uuid = Some (a, p) /\
    bs_processes (dispatch from (predicate_functor predicate) payload b).2 !! uuid = Some (a, p') /\
    pr_delivered p' = pr_delivered p ++ [msg] /\ msg_payload msg = payload /\
    handler_of (ac_handlers a) (msg_method msg) = Some (HAdapter event_) /\
    handler_of (ac_handlers a) (ms_name m) = Some (HAdapter event_).
Proof.
  intros a. apply reachable_bus_ok in Hreach as Hok.
  destruct (alias_handler uuid manifest m event_ predicate more) as [Hpred Hname]; [done..|].
  fold a in Hpred, Hname, Hactors.
  assert (forall method, is_Some (handler_of (ac_handlers a) method) -> owner_of method b = Some a) as Howner.
  { intros method Hh. rewrite Hactors. cbn. by rewrite (proj2 (handles_spec a method) Hh). }
  assert (bs_onHold b = true) as Hhold.
  { clear -Hreach. remember (new_bus true) as b0 eqn:E. assert (bs_onHold b0 = true) as H0 by by subst.
    clear E. induction Hreach as [|b c d [who Hs] _ IH]; [done|]. apply IH.
    rewrite <- H0. by eapply bus_step_onHold. }
  split.
  - pose proof (dispatch_cases from (ms_name m) payload b Hok) as Hd.
    destruct (dispatch from (ms_name m) payload b) as [r c]. rewrite Howner in Hd by eauto.
    assert (gate a (ms_name m) = Some label) as Hg.
    { unfold gate. cbn. rewrite Hmethods. cbn. by rewrite bool_decide_true. }
    rewrite Hg, Hhold in Hd. destruct Hd as [-> ->]. by eexists.
  - pose proof (dispatch_cases from (predicate_functor predicate) payload b Hok) as Hd.
    destruct (dispatch from (predicate_functor predicate) payload b) as [r c]. rewrite Howner in Hd by eauto.
    assert (gate a (predicate_functor predicate) = None) as Hg.
    { unfold gate. cbn. rewrite Hmethods. cbn. by rewrite bool_decide_false by congruence. }
    rewrite Hg in Hd. destruct Hd as (p & Hp & -> & ->).
    exists p, (deliver (predicate_functor predicate) payload p).2, (message p (predicate_functor predicate) payload).
    split; [done|]. split; [cbn; by rewrite lookup_insert_eq|]. split; [apply deliver_delivered|]. done.
Qed.

(** ** The flow graph *)

Lemma filter_split_perm {A} (P : A -> bool) l :
  List.filter P l ++ List.filter (fun x => negb (P x)) l ≡ₚ l.
Proof.
  induction l as [|x l IH]; cbn; [done|]. destruct (P x); cbn; [by rewrite IH|].
  by rewrite <- Permutation_middle, IH.
Qed.

Lemma length_filter_split {A} (P : A -> bool) l :
  length (List.filter P l) + length (List.filter (fun x => negb (P x)) l) = length l.
Proof. by rewrite <- length_app, filter_split_perm. Qed.

(** What is known when stage [i] starts. *)
Definition known_at (known : list string) (stages : list (list Actor)) (i : nat) : list string :=
  known ++ List.flat_map ac_produces (mjoin (take i stages)).

(** A stage of actors whose requirements are known, while those of every later
    stage are not; or the last stage, of actors that wait for each other. *)
Definition stage_ok (produced known : list string) (stages : list (list Actor)) (i : nat) (stage : list Actor) :
    Prop :=
  stage <> [] /\
  (((forall a, a ∈ stage -> ready produced (known_at known stages i) a = true) /\
    forall a, a ∈ mjoin (drop (S i) stages) -> ready produced (known_at known stages i) a = false) \/
   (S i = length stages /\ forall a, a ∈ stage -> ready produced (known_at known stages i) a = false)).

Lemma stage_loop_ok fuel produced known pending :
  length pending <= fuel ->
  mjoin (stage_loop fuel produced known pending) ≡ₚ pending /\
  forall i stage, stage_loop fuel produced known pending !! i = Some stage ->
    stage_ok produced known (stage_loop fuel produced known pending) i stage.
Proof.
  revert known pending. induction fuel as [|fuel IH]; intros known pending Hf.
  { destruct pending; [done|cbn in Hf; lia]. }
  destruct pending as [|a0 pending']; [done|]. set (pending := a0 :: pending') in *.
  change (stage_loop (S fuel) produced known pending) with
    (match List.filter (ready produced known) pending with
     | [] => [pending]
     | stage => stage :: stage_loop fuel produced (known ++ List.flat_map ac_produces stage)
                           (List.filter (fun a => negb (ready produced known a)) pending)
     end).
  destruct (List.filter (ready produced known) pending) as [|r0 rs] eqn:E.
  - split; [cbn; by rewrite app_nil_r|]. intros [|i] stage; [|done]. intros [= <-]. split; [done|].
    right. split; [done|]. intros a Ha. unfold known_at. cbn. rewrite app_nil_r.
    destruct (ready produced known a) eqn:Hr; [|done].
    assert (a ∈ List.filter (ready produced known) pending) as Hin
      by by apply list_elem_of_In, List.filter_In; split; [apply list_elem_of_In|].
    rewrite E in Hin. by apply not_elem_of_nil in Hin.
  - rewrite <- E. cbv zeta. set (stage0 := List.filter (ready produced known) pending) in *.
    set (rest := List.filter _ pending).
    assert (stage0 <> []) as Hne by by rewrite E.
    assert (forall a, a ∈ stage0 -> ready produced known a = true) as Hin
      by (intros a Ha%list_elem_of_In; by apply List.filter_In in Ha as [_ ?]).
    assert (forall a, a ∈ rest -> ready produced known a = false) as Hout
      by (intros a Ha%list_elem_of_In; apply List.filter_In in Ha as [_ Ha]; by apply negb_true_iff in Ha).
    assert (length rest <= fuel) as Hrest.
    { pose proof (length_filter_split (ready produced known) pending) as Hl. fold stage0 rest in Hl.
      rewrite E in Hl. cbn [length] in Hl. lia. }
    destruct (IH (known ++ List.flat_map ac_produces stage0) rest Hrest) as [Hperm Hall].
    set (more := stage_loop fuel _ _ rest) in *. split.
    + change (mjoin (stage0 :: more)) with (stage0 ++ mjoin more). rewrite Hperm. apply filter_split_perm.
    + intros [|i] stage Hi; cbn in Hi.
      * injection Hi as <-. split; [exact Hne|]. left. unfold known_at. cbn. rewrite app_nil_r. split.
        -- exact Hin.
        -- intros a. rewrite drop_0, Hperm. apply Hout.
      * destruct (Hall i stage Hi) as [Hne' Hst]. split; [done|].
        assert (known_at known (stage0 :: more) (S i) =
                known_at (known ++ List.flat_map ac_produces stage0) more i) as ->.
        { unfold known_at. cbn [take mjoin list_join]. by rewrite List.flat_map_app, app_assoc. }
        destruct Hst as [?|[? ?]]; [by left|]. right. split; [cbn; congruence|done].
Qed.

(** the stages are a schedule.  They hold every registered actor exactly once;
    the requirements of a stage's actors are met by the external facts and what
    the earlier stages produce, and no actor waits for a stage it does not need;
    the only exception is a last stage of actors that wait for each other. *)
Theorem stages_are_a_schedule (b : MessageBus) :
  mjoin (stages b) ≡ₚ actors b /\
  forall i stage, stages b !! i = Some stage ->
    stage_ok (List.flat_map ac_produces (actors b)) [] (stages b) i stage.
Proof. unfold stages. by apply stage_loop_ok. Qed.

(** an edge is exactly a producer, a consumer other than it, and a requirement
    of the consumer that some output of the producer unifies with. *)
Theorem edges_are_derived (b : MessageBus) (edge : DerivedEdge) :
  edge ∈ edges b <->
  exists producer consumer need output, producer ∈ actors b /\ consumer ∈ actors b /\
    ac_uuid producer <> ac_uuid consumer /\ need ∈ ac_requires consumer /\
    output ∈ ac_produces producer /\ unifiable output need = true /\
    edge = {| eg_from := mf_id (ac_manifest producer); eg_to := mf_id (ac_manifest consumer);
              eg_predicate := predicate_functor need |}.
Proof.
  unfold edges. rewrite elem_of_flat_map. setoid_rewrite elem_of_flat_map.
  unfold edges_between. split.
  - intros (pr & Hpr & co & Hco & He). case_bool_decide as Hne; [by apply not_elem_of_nil in He|].
    apply list_elem_of_omap in He as (need & Hneed & He). destruct (existsb _ _) eqn:Hx; [|done].
    apply existsb_elem in Hx as (output & ? & ?). injection He as <-.
    exists pr, co, need, output. repeat (split; [done || congruence|]). done.
  - intros (pr & co & need & output & Hpr & Hco & Hne & Hneed & Hout & Hu & ->).
    exists pr. split; [done|]. exists co. split; [done|].
    rewrite bool_decide_false by congruence. apply list_elem_of_omap. exists need. split; [done|].
    rewrite (proj2 (existsb_elem _ _)); [done|]. eauto.
Qed.

Lemma add_spec_names acc m : NoDup (ms_name <$> acc) -> NoDup (ms_name <$> add_spec acc m).
Proof.
  intros Hn. unfold add_spec, includes. case_bool_decide as Hin; [done|].
  rewrite fmap_app. apply NoDup_app. split; [done|]. split; [|by apply NoDup_singleton].
  intros x Hx ->%list_elem_of_singleton. done.
Qed.

Lemma add_specs_spec ms acc :
  NoDup (ms_name <$> acc) ->
  NoDup (ms_name <$> fold_left add_spec ms acc) /\
  (forall m, m ∈ fold_left add_spec ms acc -> m ∈ acc \/ m ∈ ms) /\
  (forall n, n ∈ ms_name <$> acc \/ n ∈ ms_name <$> ms -> n ∈ ms_name <$> fold_left add_spec ms acc).
Proof.
  revert acc. induction ms as [|m ms IH]; intros acc Hn; cbn [fold_left].
  - split; [done|]. split; [auto|]. intros n [?|H]; [done|]. by apply not_elem_of_nil in H.
  - destruct (IH (add_spec acc m) (add_spec_names acc m Hn)) as (? & Hin & Hnames).
    split; [done|]. split.
    + intros x [Hx|?]%Hin; [|right; by right]. unfold add_spec in Hx. case_match; [by left|].
      apply elem_of_app in Hx as [?|Hx%list_elem_of_singleton]; [by left|subst x; right; left].
    + intros n Hx. apply Hnames. rewrite fmap_cons, elem_of_cons in Hx.
      assert (n ∈ ms_name <$> add_spec acc m \/ n ∈ ms_name <$> ms) as [?|?]; [|by left|by right].
      unfold add_spec, includes. case_bool_decide as Hm.
      * destruct Hx as [?|[->|?]]; auto.
      * rewrite fmap_app, elem_of_app. cbn. rewrite list_elem_of_singleton. tauto.
Qed.

(** the tool list names every method of every registered actor once, followed
    by the universal envelope. *)
Theorem toolSpecs_name_each_method_once (b : MessageBus) :
  exists specs, toolSpecs b = specs ++ [send_tool] /\ NoDup (ms_name <$> specs) /\
    (forall m, m ∈ specs -> exists a, a ∈ actors b /\ m ∈ mf_methods (ac_manifest a)) /\
    forall a m, a ∈ actors b -> m ∈ mf_methods (ac_manifest a) -> ms_name m ∈ ms_name <$> specs.
Proof.
  unfold toolSpecs. set (ms := List.flat_map _ _). exists (fold_left add_spec ms []).
  destruct (add_specs_spec ms []) as (? & Hin & Hnames); [constructor|].
  split; [done|]. split; [done|]. split.
  - intros m [H0|Hm]%Hin; [by apply not_elem_of_nil in H0|]. by apply elem_of_flat_map in Hm.
  - intros a m Ha Hm. apply Hnames. right. apply list_elem_of_fmap_2. apply elem_of_flat_map. eauto.
Qed.

(** ** A small mesh *)

Lemma own_uuid_fresh a b : bs_processes b !! ac_uuid a = None -> own_uuid a b.
Proof. intros Hn a' p Hp. congruence. Qed.

Lemma any_register reduces a b b' :
  bs_processes b !! ac_uuid a = None -> rtc (any_step reduces) (register a b).2 b' ->
  rtc (any_step reduces) b b'.
Proof. intros Hn Hr. eapply rtc_l; [|exact Hr]. exists Host. by apply bs_register, own_uuid_fresh. Qed.

Module Mesh.

Definition purge : MethodSpec :=
  {| ms_name := "purge"; ms_description := ""; ms_parameters := JObject []; ms_mode := None;
     ms_idempotency := None; ms_cost := None; ms_requires := Some ["tick(N)"];
     ms_produces := Some ["purged(N)"]; ms_inputSlots := None; ms_outputSlots := None;
     ms_event := Some "PURGE"; ms_hitl := Some "Delete everything" |}.

Definition manifest : Manifest :=
  {| mf_id := "store"; mf_authority := "os.aven"; mf_namespace := "demo"; mf_version := "1";
     mf_name := "Store"; mf_description := ""; mf_tags := []; mf_methods := [purge];
     mf_requires := None; mf_produces := None; mf_machine := None; mf_logic := Some "reduce" |}.

Definition store1 : Actor := new_actor "u1" manifest [].
Definition store2 : Actor := new_actor "u2" manifest [].
Definition reduces : Sandbox := fun _ _ _ => False.

Definition one_store : MessageBus := (register store1 (new_bus true)).2.
Definition two_stores : MessageBus := (register store2 one_store).2.
Definition held_store : MessageBus := (dispatch "chat" "purge" [] one_store).2.

Lemma one_store_reachable : rtc (any_step reduces) (new_bus true) one_store.
Proof. apply (any_register reduces store1); [reflexivity|constructor]. Qed.

Lemma two_stores_reachable : rtc (any_step reduces) (new_bus true) two_stores.
Proof.
  eapply rtc_r; [apply one_store_reachable|]. exists Host. apply (bs_register reduces one_store store2).
  apply own_uuid_fresh. vm_compute. reflexivity.
Qed.

Lemma held_store_reachable : rtc (any_step reduces) (new_bus true) held_store.
Proof.
  eapply rtc_r; [apply one_store_reachable|]. exists Model. apply bs_dispatch.
Qed.

(** The model knows the alias. *)
Definition aliased_store : MessageBus := (dispatch "chat" "purged" [] one_store).2.

Lemma aliased_store_unattended : rtc (unattended reduces) one_store aliased_store.
Proof. eapply rtc_l; [|constructor]. left. apply bs_dispatch. Qed.

(** The registry accepted the actor too. *)
Example one_store_advertised :
  bs_callbacks one_store = [OnChange] /\ length (rg_instances (bs_registry one_store)) = 1.
Proof. split; vm_compute; reflexivity. Qed.
End Mesh.

Lemma bus_invariant_witness :
  get "store" Mesh.two_stores = Some Mesh.store1 /\ get "u2" Mesh.two_stores = Some Mesh.store2.
Proof.
  split; [vm_compute; reflexivity|].
  refine (proj1 (proj1 (bus_invariant Mesh.reduces true Mesh.two_stores Mesh.two_stores_reachable) Mesh.store2 _)).
  right. left.
Defined.

Lemma gate_holds_by_name_witness :
  (exists p' new, bs_processes Mesh.aliased_store !! "u1" = Some (Mesh.store1, p') /\ pr_delivered p' = new /\
     new <> [] /\ forall msg, msg ∈ new -> msg_method msg <> "purge") /\
  exists held, bs_callbacks (dispatch "chat" "purge" [] Mesh.aliased_store).2 =
    bs_callbacks Mesh.aliased_store ++ [OnHold held] /\ hm_label held = "Delete everything".
Proof.
  destruct (gate_holds_by_name Mesh.reduces true Mesh.one_store Mesh.aliased_store "u1" Mesh.manifest []
              (new_process Mesh.store1) Mesh.purge "Delete everything" Mesh.one_store_reachable
              Mesh.aliased_store_unattended) as [(p' & new & Hp & Hd & Hall) Hcall];
    [vm_compute; reflexivity|apply (bool_decide_unpack _); vm_compute; exact I|left|reflexivity|discriminate|].
  split.
  - exists p', new. split; [exact Hp|]. split; [exact Hd|]. split; [|intros msg Hin; exact (proj1 (Hall msg Hin))].
    intros ->. vm_compute in Hp. injection Hp as <-. discriminate.
  - assert (actors Mesh.aliased_store = [] ++ Mesh.store1 :: []) as Ha by (vm_compute; reflexivity).
    assert (bs_onHold Mesh.aliased_store = true) as Hh by (vm_compute; reflexivity).
    assert (is_Some (handler_of (ac_handlers Mesh.store1) "purge")) as Hs
      by (exists (HAdapter "PURGE"); vm_compute; reflexivity).
    pose proof (Hcall "chat" [] [] [] Ha (fun other Hin => False_ind _ (not_elem_of_nil other Hin)) Hs) as Hc. cbn zeta in Hc. rewrite Hh in Hc.
    destruct Hc as (_ & _ & held & e & Hc & _ & Hl & _). exists held. split; [exact Hc|exact Hl].
Defined.

Lemma confirmed_messages_were_shown_witness :
  exists p' new, bs_processes (confirmHeld "held_1" Mesh.held_store).2 !! "u1" = Some (Mesh.store1, p') /\
    pr_delivered p' = new /\ new <> [] /\
    forall m, m ∈ new -> exists held, OnHold held ∈ bs_callbacks Mesh.held_store /\
      hm_method held = msg_method m.
Proof.
  destruct (confirmed_messages_were_shown Mesh.reduces true Mesh.held_store "held_1" "u1" Mesh.store1
              (new_process Mesh.store1) Mesh.held_store_reachable) as (p' & new & Hp & Hd & _ & Hall);
    [reflexivity|].
  exists p', new. split; [done|]. split; [done|]. split.
  - intros ->. vm_compute in Hp. injection Hp as <-. discriminate.
  - intros m Hm. destruct (Hall m Hm) as (held & ? & _ & ? & _). eauto.
Defined.

Lemma held_actions_resolve_once_witness :
  (confirmHeld "held_1" Mesh.held_store).1 = None /\
  map_has "held_1" (bs_resolving (rejectHeld_end "held_1" (Ok tt) (rejectHeld "held_1" Mesh.held_store)).2) = false.
Proof.
  destruct (held_actions_resolve_once Mesh.held_store "held_1"
    (HeldEnvelope {| nv_id := "env_0"; nv_from := "chat"; nv_to := "u1"; nv_method := "purge"; nv_payload := [] |}))
    as (H1 & _ & _ & H2); [vm_compute; reflexivity..|].
  split; [exact H1|]. exact (proj1 (H2 (Ok tt))).
Defined.

Lemma emit_delivers_witness :
  exists p' new, bs_processes (emit "tick(3)" [] "clock" Mesh.one_store).2 !! "u1" = Some (Mesh.store1, p') /\
    pr_delivered p' = new /\ length new = 1.
Proof.
  destruct (emit_delivers Mesh.reduces true Mesh.one_store "tick(3)" [] "clock" "u1" Mesh.store1
    (new_process Mesh.store1) Mesh.one_store_reachable) as (p' & new & Hp & Hd & _ & Hlen & _); [reflexivity|].
  exists p', new. split; [done|]. split; [done|]. rewrite Hlen. vm_compute. reflexivity.
Defined.

Lemma emit_misses_the_second_instance_witness :
  exists p1 p2, bs_processes (emit "tick(3)" [] "clock" Mesh.two_stores).2 !! "u1" = Some (Mesh.store1, p1) /\
    length (pr_delivered p1) = 2 /\
    bs_processes (emit "tick(3)" [] "clock" Mesh.two_stores).2 !! "u2" = Some (Mesh.store2, p2) /\
    pr_delivered p2 = [].
Proof.
  destruct (emit_misses_the_second_instance Mesh.reduces true Mesh.two_stores "tick(3)" [] "clock"
    Mesh.store1 Mesh.store2 (new_process Mesh.store1) (new_process Mesh.store2) Mesh.two_stores_reachable)
    as (p1 & p2 & m & m' & H1 & Hd1 & _ & _ & H2 & Hd2); try (vm_compute; reflexivity); [discriminate|].
  exists p1, p2. split; [done|]. split; [by rewrite Hd1|]. split; [done|exact Hd2].
Defined.

Lemma gate_is_bypassed_by_an_alias_witness :
  exists p', bs_processes (dispatch "chat" "purged" [] Mesh.one_store).2 !! "u1" = Some (Mesh.store1, p') /\
    length (pr_delivered p') = 1.
Proof.
  destruct (gate_is_bypassed_by_an_alias Mesh.reduces Mesh.one_store "u1" Mesh.manifest Mesh.purge
    "Delete everything" "PURGE" "purged(N)" "chat" [] [] Mesh.one_store_reachable)
    as (_ & p & p' & m & Hp & Hp' & Hd & _); try (vm_compute; reflexivity); try discriminate.
  - apply (bool_decide_unpack _). vm_compute. exact I.
  - exists p'. split; [exact Hp'|]. rewrite Hd. vm_compute in Hp. injection Hp as <-. reflexivity.
Defined.
