(* ===== verification/Authorization.v ===== *)
(** * Authorized planning views

    [libs/aven-actors/src/authorization.ts]: the projection of a registry
    snapshot that a principal may plan with.  The policy is an interface of the
    program; it may answer each request as it likes, so the model gives it the
    whole history of requests and answers, and records them. *)

From S2P Require Import Prelude Contracts Planner Registry.

Open Scope stdpp_scope.

(** ** Data *)

Inductive PrincipalKind := Anonymous | User | Service.

Record ActorPrincipal := {
  ap_subjectId : string;
  ap_kind : PrincipalKind;
  ap_assurance : list string;
  ap_sessionId : option string
}.

Record ActorAccessContext := {
  ac_tenantId : option string;
  ac_entitlements : option (list string);
  ac_artifactGrantIds : option (list string)
}.

Inductive ActorAuthorizationAction := Discover | Plan | Spawn | Invoke.

Record ActorAuthorizationInput := {
  in_slot : string;
  in_role : string;
  in_artifactId : string;
  in_predicate : string;
  in_schema : string;
  in_typeKey : string;
  in_schemaVersion : Z;
  in_contentDigest : string
}.

Inductive RequestTarget :=
| RTInstance (instanceId : string)
| RTFactory (offerId factoryId : string).

Record ActorAuthorizationRequest := {
  rq_action : ActorAuthorizationAction;
  rq_principal : ActorPrincipal;
  rq_access : ActorAccessContext;
  rq_definitionRef : string;
  rq_capabilityId : option string;
  rq_method : option string;
  rq_target : option RequestTarget;
  rq_configuration : option jobject;
  rq_inputs : option (list ActorAuthorizationInput);
  rq_runId : option string;
  rq_resource : option jobject
}.

Record AuthorizationConstraints := {
  ct_configurationSchema : option jobject;
  ct_forcedConfiguration : option jobject;
  ct_maxUses : option Z
}.

(** The decision [allow: true]. *)
Record Allowance := {
  al_decisionId : string;
  al_expiresAt : option string;
  al_constraints : option AuthorizationConstraints;
  al_obligations : option (list string)
}.

Inductive ActorAuthorizationDecision :=
| Allow (allowance : Allowance)
| Deny (decisionId reasonCode : string).

Inductive AuthorizedActorTarget :=
| TInstance (instanceId definitionRef : string) (address : ActorAddress)
    (environment : ExecutionEnvironment) (cost : Z) (latencyMs : option Z) (authorization : Allowance)
| TFactory (offerId factoryId definitionRef : string) (configuration : jobject)
    (environment : ExecutionEnvironment) (cost : Z) (latencyMs : option Z) (authorization : Allowance).

Definition tg_environment (target : AuthorizedActorTarget) : ExecutionEnvironment :=
  match target with TInstance _ _ _ e _ _ _ => e | TFactory _ _ _ _ e _ _ _ => e end.
Definition tg_cost (target : AuthorizedActorTarget) : Z :=
  match target with TInstance _ _ _ _ c _ _ => c | TFactory _ _ _ _ _ c _ _ => c end.
Definition tg_authorization (target : AuthorizedActorTarget) : Allowance :=
  match target with TInstance _ _ _ _ _ _ a => a | TFactory _ _ _ _ _ _ _ a => a end.

Record AuthorizedCapability := { az_capability : Capability; az_targets : list AuthorizedActorTarget }.

Record AuthorizedRegistryView := {
  vw_registryRevision : nat;
  vw_capturedAt : string;
  vw_principal : ActorPrincipal;
  vw_access : ActorAccessContext;
  vw_capabilities : list AuthorizedCapability
}.

Record PlanningAuthorizationOptions := {
  po_access : option ActorAccessContext;
  po_configurationByOffer : option (list (string * jobject));
  po_resource : option jobject
}.

(** ** Targets *)

Definition usableInstance (i : ActorInstanceAdvertisement) (capturedAt : string) : bool :=
  bool_decide (ai_status i = Available) &&
  match truthy (ai_expiresAt i) with
  | None => true
  | Some expiresAt => (0 <? string_cmp expiresAt capturedAt)%Z
  end.

(** [{ ...a, ...b }]. *)
Definition spread (a : jobject) (b : option jobject) : jobject :=
  fold_left (fun o e => map_set e.1 e.2 o) (default [] b) a.

Definition factoryTarget (o : ActorFactoryOffer) (configuration : jobject)
    (authorization : Allowance) : AuthorizedActorTarget :=
  TFactory (of_offerId o) (of_factoryId o) (of_definitionRef o)
    (spread configuration (al_constraints authorization ≫= ct_forcedConfiguration))
    (of_executionEnvironment o) (default 0%Z (of_cost o)) (of_latencyMs o) authorization.

Definition instanceTarget (definition : ActorDefinition) (i : ActorInstanceAdvertisement)
    (authorization : Allowance) : AuthorizedActorTarget :=
  TInstance (ai_instanceId i) (ad_ref definition) (ai_address i) (ai_executionEnvironment i)
    (default 0%Z (ai_cost i)) (ai_latencyMs i) authorization.

Definition targetId (target : AuthorizedActorTarget) : string :=
  match target with
  | TInstance instanceId _ _ _ _ _ _ => instanceId
  | TFactory offerId _ _ _ _ _ _ _ => offerId
  end.

(** ** The projection *)

Abbreviation Log := (list (ActorAuthorizationRequest * ActorAuthorizationDecision)).

Section Authorize.
Context `{Collation} (decide : Log -> ActorAuthorizationRequest -> ActorAuthorizationDecision).
Context (snapshot : ActorRegistrySnapshot) (principal : ActorPrincipal)
  (options : PlanningAuthorizationOptions).

Definition view_access : ActorAccessContext :=
  default {| ac_tenantId := None; ac_entitlements := None; ac_artifactGrantIds := None |}
    (po_access options).

Definition request (action : ActorAuthorizationAction) (definition : ActorDefinition)
    (capability : Capability) (target : option RequestTarget) (configuration : option jobject) :
    ActorAuthorizationRequest :=
  {| rq_action := action; rq_principal := principal; rq_access := view_access;
     rq_definitionRef := ad_ref definition; rq_capabilityId := Some (cap_id capability);
     rq_method := Some (cap_method capability); rq_target := target;
     rq_configuration := configuration; rq_inputs := None; rq_runId := None;
     rq_resource := po_resource options |}.

(** [await authorizer.decide(request)]. *)
Definition ask (rq : ActorAuthorizationRequest) (log : Log) : option Allowance * Log :=
  let d := decide log rq in
  (match d with Allow a => Some a | Deny _ _ => None end, log ++ [(rq, d)]).

Definition configurationFor (o : ActorFactoryOffer) : jobject :=
  match po_configurationByOffer options ≫= map_get (of_offerId o) with
  | Some configuration => configuration
  | None => default [] (of_defaultConfiguration o)
  end.

Definition instance_request definition capability (i : ActorInstanceAdvertisement) :=
  request Plan definition capability (Some (RTInstance (ai_instanceId i))) None.
Definition offer_request definition capability (o : ActorFactoryOffer) :=
  request Plan definition capability (Some (RTFactory (of_offerId o) (of_factoryId o)))
    (Some (configurationFor o)).

(** A loop that asks for each candidate and pushes what is allowed. *)
Fixpoint ask_each {X Y} (rq : X -> ActorAuthorizationRequest) (target : X -> Allowance -> Y)
    (candidates : list X) (log : Log) : list Y * Log :=
  match candidates with
  | [] => ([], log)
  | x :: candidates =>
      let '(decision, log) := ask (rq x) log in
      let '(targets, log) := ask_each rq target candidates log in
      (match decision with Some a => target x a :: targets | None => targets end, log)
  end.

Definition advertised (definition : ActorDefinition) (capability : Capability)
    (ref : string) (capabilityIds : list string) : bool :=
  bool_decide (ref = ad_ref definition) && includes capabilityIds (cap_id capability).

Definition instance_candidates (definition : ActorDefinition) (capability : Capability) :=
  List.filter (fun i =>
    advertised definition capability (ai_definitionRef i) (ai_capabilityIds i) &&
    usableInstance i (sn_capturedAt snapshot)) (sn_instances snapshot).
Definition offer_candidates (definition : ActorDefinition) (capability : Capability) :=
  List.filter (fun o => advertised definition capability (of_definitionRef o) (of_capabilityIds o))
    (sn_offers snapshot).

Definition compareTargets (left right : AuthorizedActorTarget) : Z :=
  or_else (tg_cost left - tg_cost right)%Z (localeCompare (targetId left) (targetId right)).

Definition authorizeCapability (definition : ActorDefinition) (capability : Capability) (log : Log) :
    list AuthorizedCapability * Log :=
  let '(visible, log) := ask (request Discover definition capability None None) log in
  match visible with
  | None => ([], log)
  | Some _ =>
      let '(instances, log) :=
        ask_each (instance_request definition capability) (instanceTarget definition)
          (instance_candidates definition capability) log in
      let '(factories, log) :=
        ask_each (offer_request definition capability) (fun o => factoryTarget o (configurationFor o))
          (offer_candidates definition capability) log in
      let targets := instances ++ factories in
      (if Nat.ltb 0 (length targets)
       then [{| az_capability := capability; az_targets := js_sort compareTargets targets |}]
       else [], log)
  end.

Fixpoint authorizeAll (capabilities : list (ActorDefinition * Capability)) (log : Log) :
    list AuthorizedCapability * Log :=
  match capabilities with
  | [] => ([], log)
  | (definition, capability) :: capabilities =>
      let '(here, log) := authorizeCapability definition capability log in
      let '(rest, log) := authorizeAll capabilities log in
      (here ++ rest, log)
  end.

(** Every definition with each of its capabilities, in the order of the loops. *)
Definition catalog : list (ActorDefinition * Capability) :=
  List.flat_map (fun definition => (fun capability => (definition, capability)) <$>
    ad_capabilities definition) (sn_definitions snapshot).

Definition authorizeRegistryForPlanning (log : Log) : AuthorizedRegistryView * Log :=
  let '(capabilities, log) := authorizeAll catalog log in
  ({| vw_registryRevision := sn_revision snapshot; vw_capturedAt := sn_capturedAt snapshot;
      vw_principal := principal; vw_access := view_access; vw_capabilities := capabilities |}, log).

(** ** Theory *)

(** [rq] was asked and allowed with [a]. *)
Definition allowed (log : Log) (rq : ActorAuthorizationRequest) (a : Allowance) : Prop :=
  (rq, Allow a) ∈ log.

(** [rq] was asked and denied. *)
Definition denied (log : Log) (rq : ActorAuthorizationRequest) : Prop :=
  exists id reason, (rq, Deny id reason) ∈ log.

Lemma allowed_app log log' rq a : allowed log rq a -> allowed (log ++ log') rq a.
Proof. intros ?. apply elem_of_app. by left. Qed.

Lemma denied_app log log' rq : denied log rq -> denied (log ++ log') rq.
Proof. intros (i & r & ?). exists i, r. apply elem_of_app. by left. Qed.

Lemma ask_spec rq log o log' :
  ask rq log = (o, log') ->
  (exists k, log' = log ++ k) /\
  match o with Some a => allowed log' rq a | None => denied log' rq end.
Proof.
  unfold ask. intros [= <- <-]. split; [by eexists|].
  destruct (decide log rq) as [a|id reason]; [|exists id, reason]; apply elem_of_app; right; left.
Qed.

Lemma ask_each_spec {X Y} rq (target : X -> Allowance -> Y) candidates log ys log' :
  ask_each rq target candidates log = (ys, log') ->
  (exists k, log' = log ++ k) /\
  (forall y, y ∈ ys -> exists x a, x ∈ candidates /\ allowed log' (rq x) a /\ y = target x a) /\
  (forall x, x ∈ candidates ->
     denied log' (rq x) \/ exists a, allowed log' (rq x) a /\ target x a ∈ ys).
Proof.
  revert log ys log'. induction candidates as [|x candidates IH]; intros log ys log'; cbn [ask_each].
  { intros [= <- <-]. split; [exists []; by rewrite app_nil_r|].
    split; intros ? []%not_elem_of_nil. }
  destruct (ask (rq x) log) as [o log1] eqn:Ea. apply ask_spec in Ea as [[k1 ->] Ho].
  destruct (ask_each rq target candidates (log ++ k1)) as [ys2 log2] eqn:Ee.
  apply IH in Ee as ([k2 ->] & Hs & Hc). intros [= <- <-].
  split; [exists (k1 ++ k2); by rewrite app_assoc|]. split.
  - intros y Hy. destruct o as [a|].
    + apply elem_of_cons in Hy as [->|Hy].
      * exists x, a. split; [left|]. split; [by apply allowed_app|done].
      * destruct (Hs y Hy) as (x' & a' & ? & ? & ?). exists x', a'. by split; [right|].
    + destruct (Hs y Hy) as (x' & a' & ? & ? & ?). exists x', a'. by split; [right|].
  - intros x' [->|Hx']%elem_of_cons.
    + destruct o as [a|]; [right; exists a|left; by apply denied_app].
      split; [by apply allowed_app|left].
    + destruct (Hc x' Hx') as [?|(a & ? & ?)]; [by left|]. right. exists a. split; [done|].
      destruct o; [by right|done].
Qed.

(** An instance a capability can be planned on: it advertises the capability of
    the definition, is available, and its advertisement has not expired. *)
Definition plannable_instance (d : ActorDefinition) (c : Capability)
    (i : ActorInstanceAdvertisement) : Prop :=
  i ∈ sn_instances snapshot /\ ai_definitionRef i = ad_ref d /\ cap_id c ∈ ai_capabilityIds i /\
  ai_status i = Available /\
  forall expiresAt, ai_expiresAt i = Some expiresAt ->
    expiresAt = "" \/ (0 < string_cmp expiresAt (sn_capturedAt snapshot))%Z.

(** An offer a capability can be planned on. *)
Definition plannable_offer (d : ActorDefinition) (c : Capability) (o : ActorFactoryOffer) : Prop :=
  o ∈ sn_offers snapshot /\ of_definitionRef o = ad_ref d /\ cap_id c ∈ of_capabilityIds o.

Lemma usableInstance_spec i capturedAt : usableInstance i capturedAt = true <->
  ai_status i = Available /\
  forall e, ai_expiresAt i = Some e -> e = "" \/ (0 < string_cmp e capturedAt)%Z.
Proof.
  unfold usableInstance. rewrite andb_true_iff, bool_decide_eq_true.
  destruct (ai_expiresAt i) as [[|a e]|]; cbn [truthy].
  - split; intros [? _]; (split; [done|]); [intros ? [= <-]; by left|done].
  - rewrite Z.ltb_lt. split; intros [? He]; (split; [done|]); [intros ? [= <-]; by right|].
    by destruct (He _ eq_refl).
  - split; intros [? _]; done.
Qed.

Lemma elem_of_instance_candidates d c i : i ∈ instance_candidates d c <-> plannable_instance d c i.
Proof.
  unfold instance_candidates, plannable_instance, advertised, includes.
  rewrite list_elem_of_In, List.filter_In, <- list_elem_of_In, !andb_true_iff, !bool_decide_eq_true,
    usableInstance_spec. tauto.
Qed.

Lemma elem_of_offer_candidates d c o : o ∈ offer_candidates d c <-> plannable_offer d c o.
Proof.
  unfold offer_candidates, plannable_offer, advertised, includes.
  rewrite list_elem_of_In, List.filter_In, <- list_elem_of_In, andb_true_iff, !bool_decide_eq_true. tauto.
Qed.

(** A target the view may hold for a capability: an instance or an offer of the
    snapshot that advertises it, which the policy allowed to plan with. *)
Definition justified (log : Log) (d : ActorDefinition) (c : Capability) (t : AuthorizedActorTarget) :
    Prop :=
  (exists i a, plannable_instance d c i /\ allowed log (instance_request d c i) a /\
     t = instanceTarget d i a) \/
  (exists o a, plannable_offer d c o /\ allowed log (offer_request d c o) a /\
     t = factoryTarget o (configurationFor o) a).

(** What the view shows of a capability is visible, usable and justified. *)
Definition capability_sound (log : Log) (ac : AuthorizedCapability) : Prop :=
  exists d, (d, az_capability ac) ∈ catalog /\
    (exists a, allowed log (request Discover d (az_capability ac) None None) a) /\
    az_targets ac <> [] /\
    forall t, t ∈ az_targets ac -> justified log d (az_capability ac) t.

(** What the view does not show was refused. *)
Definition capability_complete (log : Log) (acs : list AuthorizedCapability) (d : ActorDefinition)
    (c : Capability) : Prop :=
  denied log (request Discover d c None None) \/
  forall t rq, (exists i, plannable_instance d c i /\ rq = instance_request d c i /\
                  t = instanceTarget d i) \/
               (exists o, plannable_offer d c o /\ rq = offer_request d c o /\
                  t = factoryTarget o (configurationFor o)) ->
    denied log rq \/
    exists a ac, allowed log rq a /\ ac ∈ acs /\ az_capability ac = c /\ t a ∈ az_targets ac.

Lemma justified_app log k d c t : justified log d c t -> justified (log ++ k) d c t.
Proof.
  intros [(i & a & ? & ? & ?)|(o & a & ? & ? & ?)]; [left; exists i, a|right; exists o, a];
    (split; [done|]; split; [by apply allowed_app|done]).
Qed.

Lemma capability_sound_app log k ac : capability_sound log ac -> capability_sound (log ++ k) ac.
Proof.
  intros (d & ? & (a & ?) & ? & Ht). exists d. split; [done|].
  split; [exists a; by apply allowed_app|]. split; [done|]. intros t Hin.
  by apply justified_app, Ht.
Qed.

Lemma capability_complete_app log k acs acs' d c :
  (forall ac, ac ∈ acs -> ac ∈ acs') ->
  capability_complete log acs d c -> capability_complete (log ++ k) acs' d c.
Proof.
  intros Hsub [Hd|Hc]; [left; by apply denied_app|right].
  intros t rq Ht. destruct (Hc t rq Ht) as [?|(a & ac & ? & ? & ? & ?)].
  - left. by apply denied_app.
  - right. exists a, ac. split; [by apply allowed_app|]. auto.
Qed.

Lemma authorizeCapability_spec d c log acs log' :
  (d, c) ∈ catalog -> authorizeCapability d c log = (acs, log') ->
  (exists k, log' = log ++ k) /\ Forall (capability_sound log') acs /\
  capability_complete log' acs d c.
Proof.
  intros Hin. unfold authorizeCapability.
  destruct (ask (request Discover d c None None) log) as [o log1] eqn:Ea.
  apply ask_spec in Ea as [[k1 ->] Ho].
  destruct o as [a|]; [|intros [= <- <-]; split; [by eexists|]; split; [done|by left]].
  destruct (ask_each _ _ (instance_candidates d c) _) as [insts log2] eqn:Ei.
  apply ask_each_spec in Ei as ([k2 ->] & Hsi & Hci).
  destruct (ask_each _ _ (offer_candidates d c) _) as [offs log3] eqn:Eo.
  apply ask_each_spec in Eo as ([k3 ->] & Hso & Hco).
  set (log3 := ((log ++ k1) ++ k2) ++ k3) in *. intros [= <- <-].
  assert (forall t, t ∈ insts ++ offs -> justified log3 d c t) as Hj.
  { intros t [Ht|Ht]%elem_of_app.
    - apply Hsi in Ht as (i & b & ?%elem_of_instance_candidates & ? & ?). left. exists i, b.
      split; [done|]. split; [by apply allowed_app|done].
    - apply Hso in Ht as (x & b & ?%elem_of_offer_candidates & ? & ?). right. by exists x, b. }
  split; [exists (k1 ++ k2 ++ k3); subst log3; by rewrite !app_assoc|]. split.
  - destruct (Nat.ltb_spec 0 (length (insts ++ offs))) as [Hlt|]; [|constructor].
    constructor; [|constructor]. exists d. cbn [az_capability az_targets]. split; [done|].
    split; [exists a; by do 2 apply allowed_app|]. split.
    + intros E. apply (f_equal length) in E. rewrite length_js_sort in E. cbn in E. lia.
    + intros t Ht%elem_of_js_sort. auto.
  - right. intros t rq Ht.
    assert (denied log3 rq \/ exists b, allowed log3 rq b /\ t b ∈ insts ++ offs) as [?|(b & Hb & Hin')];
      [|by left|].
    { destruct Ht as [(i & Hi & -> & ->)|(x & Hx & -> & ->)].
      - destruct (Hci i (proj2 (elem_of_instance_candidates _ _ _) Hi)) as [?|(b & ? & ?)]; [left; by apply denied_app|right; exists b].
        split; [by apply allowed_app|]. apply elem_of_app. by left.
      - destruct (Hco x (proj2 (elem_of_offer_candidates _ _ _) Hx)) as [?|(b & ? & ?)]; [by left|right; exists b].
        split; [done|]. apply elem_of_app. by right. }
    right. eexists b, _. split; [done|].
    rewrite (proj2 (Nat.ltb_lt _ _)); [|destruct (insts ++ offs); [by apply not_elem_of_nil in Hin'|cbn; lia]].
    split; [left|]. split; [done|]. by apply elem_of_js_sort.
Qed.

Lemma authorizeAll_spec cs log acs log' :
  (forall dc, dc ∈ cs -> dc ∈ catalog) -> authorizeAll cs log = (acs, log') ->
  (exists k, log' = log ++ k) /\ Forall (capability_sound log') acs /\
  forall d c, (d, c) ∈ cs -> capability_complete log' acs d c.
Proof.
  revert log acs log'. induction cs as [|[d c] cs IH]; intros log acs log' Hsub; cbn [authorizeAll].
  { intros [= <- <-]. split; [exists []; by rewrite app_nil_r|]. split; [constructor|].
    by intros ? ? ?%not_elem_of_nil. }
  destruct (authorizeCapability d c log) as [here log1] eqn:E1.
  apply authorizeCapability_spec in E1 as ([k1 ->] & Hs1 & Hc1); [|apply Hsub; left].
  destruct (authorizeAll cs _) as [rest log2] eqn:E2.
  apply IH in E2 as ([k2 ->] & Hs2 & Hc2); [|intros; apply Hsub; by right].
  intros [= <- <-]. split; [exists (k1 ++ k2); by rewrite app_assoc|]. split.
  - apply Forall_app. split; [|done]. eapply Forall_impl; [exact Hs1|]. apply capability_sound_app.
  - intros d' c' [[= -> ->]|Hin]%elem_of_cons.
    + eapply capability_complete_app; [|exact Hc1]. intros. apply elem_of_app. by left.
    + rewrite <- (app_nil_r (_ ++ k2)). eapply capability_complete_app; [|by apply Hc2].
      intros. apply elem_of_app. by right.
Qed.

(** The log is a history: each answer is what the policy said then. *)
Definition genuine (log : Log) : Prop :=
  forall before rq d after, log = before ++ (rq, d) :: after -> d = decide before rq.

Lemma ask_genuine rq log : genuine log -> genuine (ask rq log).2.
Proof.
  intros Hg before rq' d after. cbn. intros E.
  destruct (@exists_last _ ((rq', d) :: after)) as (after' & e & Ea); [by intros ?|].
  rewrite Ea, app_assoc in E. apply app_inj_tail in E as [-> He].
  destruct after' as [|e' after']; cbn in Ea.
  - injection Ea as <- ->. injection He as <- <-. by rewrite app_nil_r.
  - injection Ea as <- ->. by eapply (Hg before rq' d after').
Qed.

Lemma ask_each_genuine {X Y} rq (target : X -> Allowance -> Y) candidates log :
  genuine log -> genuine (ask_each rq target candidates log).2.
Proof.
  revert log. induction candidates as [|x candidates IH]; intros log Hg; cbn [ask_each]; [done|].
  pose proof (ask_genuine (rq x) log Hg) as H1. destruct (ask (rq x) log) as [o log1]. apply (IH log1) in H1.
  by destruct (ask_each _ _ _ _).
Qed.

Lemma authorizeAll_genuine cs log : genuine log -> genuine (authorizeAll cs log).2.
Proof.
  revert log. induction cs as [|[d c] cs IH]; intros log Hg; cbn [authorizeAll]; [done|].
  assert (genuine (authorizeCapability d c log).2) as H1.
  { unfold authorizeCapability. pose proof (ask_genuine (request Discover d c None None) log Hg) as H1.
    destruct (ask _ log) as [[a|] log1]; [|done].
    pose proof (ask_each_genuine (instance_request d c) (instanceTarget d) (instance_candidates d c) _ H1) as H2.
    destruct (ask_each _ _ (instance_candidates d c) _) as [insts log2].
    pose proof (ask_each_genuine (offer_request d c) (fun o => factoryTarget o (configurationFor o))
      (offer_candidates d c) _ H2) as H3.
    by destruct (ask_each _ _ (offer_candidates d c) _). }
  destruct (authorizeCapability d c log) as [here log1]. apply (IH log1) in H1.
  by destruct (authorizeAll cs log1).
Qed.

(** Targets are ordered by cost. *)
Lemma authorizeCapability_sorted `{!CollationLaws localeCompare} d c log acs log' :
  authorizeCapability d c log = (acs, log') ->
  Forall (fun ac => StronglySorted (fun t u => tg_cost t <= tg_cost u)%Z (az_targets ac)) acs.
Proof.
  unfold authorizeCapability. destruct (ask _ _) as [[a|] log1]; [|by intros [= <- _]].
  destruct (ask_each _ _ (instance_candidates d c) _) as [insts log2].
  destruct (ask_each _ _ (offer_candidates d c) _) as [offs log3]. intros [= <- _].
  case_match; constructor; [|constructor]. cbn.
  eapply StronglySorted_weaken; [|apply js_sort_sorted].
  - intros x y. unfold compareTargets, or_else. destruct (Z.eqb_spec (tg_cost x - tg_cost y) 0); lia.
  - intros x y. unfold compareTargets, or_else.
    pose proof (locale_antisym (targetId x) (targetId y)).
    repeat case_match; rewrite ?Z.eqb_eq, ?Z.eqb_neq in *; lia.
  - intros x y z. unfold compareTargets, or_else.
    pose proof (locale_trans (targetId x) (targetId y) (targetId z)).
    repeat case_match; rewrite ?Z.eqb_eq, ?Z.eqb_neq in *; lia.
Qed.

Lemma authorizeAll_sorted `{!CollationLaws localeCompare} cs log acs log' :
  authorizeAll cs log = (acs, log') ->
  Forall (fun ac => StronglySorted (fun t u => tg_cost t <= tg_cost u)%Z (az_targets ac)) acs.
Proof.
  revert log acs log'. induction cs as [|[d c] cs IH]; intros log acs log'; cbn [authorizeAll].
  { intros [= <- <-]. constructor. }
  destruct (authorizeCapability d c log) as [here log1] eqn:E1.
  destruct (authorizeAll cs log1) as [rest log2] eqn:E2. intros [= <- <-].
  apply Forall_app. split; [by eapply authorizeCapability_sorted|by eapply IH].
Qed.
End Authorize.


(** ** Properties *)

Lemma view_sound `{Collation} decide snapshot principal options :
  let '(view, log) := authorizeRegistryForPlanning decide snapshot principal options [] in
  Forall (capability_sound snapshot principal options log) (vw_capabilities view) /\
  vw_registryRevision view = sn_revision snapshot /\ vw_principal view = principal /\
  vw_access view = view_access options.
Proof.
  unfold authorizeRegistryForPlanning. destruct (authorizeAll _ _ _ _ _ _) as [acs log] eqn:E.
  apply authorizeAll_spec in E as (_ & ? & _); [|done]. done.
Qed.

Lemma spread_get k a b :
  map_ok (default [] b) ->
  map_get k (spread a b) = match map_get k (default [] b) with Some v => Some v | None => map_get k a end.
Proof.
  unfold spread. generalize (default [] b). clear b. intros b. revert a.
  induction b as [|[k' v] b IH]; intros a Hok; cbn [fold_left map_get fst snd]; [done|].
  apply NoDup_cons in Hok as [Hn Hok]. rewrite (IH _ Hok), map_get_set.
  case_decide as E; [subst|done]. by rewrite (proj2 (map_get_None _ _) Hn).
Qed.

(** A request, field by field, and the moment the policy allowed it with [a]. *)
Record allowed_request (decide : Log -> ActorAuthorizationRequest -> ActorAuthorizationDecision)
    (principal : ActorPrincipal) (options : PlanningAuthorizationOptions) (log : Log)
    (action : ActorAuthorizationAction) (d : ActorDefinition) (c : Capability) (target : option RequestTarget)
    (configuration : option jobject) (rq : ActorAuthorizationRequest) (a : Allowance) : Prop := {
  aq_answer : exists before after, log = before ++ (rq, Allow a) :: after /\ decide before rq = Allow a;
  aq_action : rq_action rq = action;
  aq_principal : rq_principal rq = principal;
  aq_access : match po_access options with
              | Some access => rq_access rq = access
              | None => ac_tenantId (rq_access rq) = None /\ ac_entitlements (rq_access rq) = None /\
                        ac_artifactGrantIds (rq_access rq) = None
              end;
  aq_definition : rq_definitionRef rq = ad_ref d;
  aq_capability : rq_capabilityId rq = Some (cap_id c);
  aq_method : rq_method rq = Some (cap_method c);
  aq_target : rq_target rq = target;
  aq_configuration : rq_configuration rq = configuration;
  aq_run : rq_inputs rq = None /\ rq_runId rq = None;
  aq_resource : rq_resource rq = po_resource options
}.

(** What an instance or an offer of the snapshot makes of an allowance. *)
Record instance_target (snapshot : ActorRegistrySnapshot) (d : ActorDefinition) (c : Capability)
    (i : ActorInstanceAdvertisement) (t : AuthorizedActorTarget) (a : Allowance) : Prop := {
  it_listed : i ∈ sn_instances snapshot;
  it_definition : ai_definitionRef i = ad_ref d;
  it_capability : cap_id c ∈ ai_capabilityIds i;
  it_status : ai_status i = Available;
  it_expires : forall expiresAt, ai_expiresAt i = Some expiresAt ->
    expiresAt = "" \/ (0 < string_cmp expiresAt (sn_capturedAt snapshot))%Z;
  it_target : t = TInstance (ai_instanceId i) (ad_ref d) (ai_address i) (ai_executionEnvironment i)
                    (default 0%Z (ai_cost i)) (ai_latencyMs i) a
}.

Record offer_target (snapshot : ActorRegistrySnapshot) (d : ActorDefinition) (c : Capability)
    (o : ActorFactoryOffer) (requested : jobject) (t : AuthorizedActorTarget) (a : Allowance) : Prop := {
  ot_listed : o ∈ sn_offers snapshot;
  ot_definition : of_definitionRef o = ad_ref d;
  ot_capability : cap_id c ∈ of_capabilityIds o;
  ot_target : exists configured,
    t = TFactory (of_offerId o) (of_factoryId o) (ad_ref d) configured (of_executionEnvironment o)
          (default 0%Z (of_cost o)) (of_latencyMs o) a /\
    match al_constraints a ≫= ct_forcedConfiguration with
    | None => configured = requested
    | Some forced => map_ok forced -> forall key,
        map_get key configured = match map_get key forced with Some v => Some v | None => map_get key requested end
    end
}.

Lemma allowed_request_of decide principal options log action d c target configuration a :
  genuine decide log -> allowed log (request principal options action d c target configuration) a ->
  allowed_request decide principal options log action d c target configuration
    (request principal options action d c target configuration) a.
Proof.
  intros Hg Ha. split; try done.
  - apply list_elem_of_split in Ha as (before & after & E). exists before, after. split; [done|].
    symmetry. exact (Hg _ _ _ _ E).
  - cbn. unfold view_access. by destruct (po_access options).
Qed.

Lemma offer_target_of snapshot d c o requested a :
  plannable_offer snapshot d c o -> offer_target snapshot d c o requested (factoryTarget o requested a) a.
Proof.
  intros (? & Hd & ?). split; [done..|]. unfold factoryTarget. rewrite Hd. eexists. split; [done|].
  destruct (al_constraints a ≫= ct_forcedConfiguration) as [forced|]; [|done].
  intros Hok key. by apply spread_get.
Qed.

(** C36: The view fails closed.  Whatever the policy answers, and even if its answers change
    between requests, for every capability of the view the policy was asked, with the principal,
    the access and the resource of the caller, the definition, the capability and its method,
    whether it may be discovered, and allowed it; no capability is shown without a target; and
    every target is an instance of the snapshot that advertises the capability of that definition,
    is available and had not expired when the snapshot was taken, or an offer of the snapshot that
    advertises it.  For each target the policy was asked with the action "plan" and the identifier of
    that very instance, or of that offer and its factory with the configuration requested for the
    offer, or else its default one; and the allowance the target carries is the answer of the policy
    to that request at that moment, and the configuration it forces wins over the requested one. *)
Theorem authorizeRegistryForPlanning_sound `{Collation}
    (decide : Log -> ActorAuthorizationRequest -> ActorAuthorizationDecision)
    (snapshot : ActorRegistrySnapshot) (principal : ActorPrincipal)
    (options : PlanningAuthorizationOptions) :
  let '(view, log) := authorizeRegistryForPlanning decide snapshot principal options [] in
  vw_registryRevision view = sn_revision snapshot /\ vw_principal view = principal /\
  forall ac, ac ∈ vw_capabilities view -> let c := az_capability ac in
    exists d, d ∈ sn_definitions snapshot /\ c ∈ ad_capabilities d /\
      (exists rq a, allowed_request decide principal options log Discover d c None None rq a) /\
      az_targets ac <> [] /\
      forall t, t ∈ az_targets ac ->
        (exists i rq a, instance_target snapshot d c i t a /\
           allowed_request decide principal options log Plan d c (Some (RTInstance (ai_instanceId i))) None rq a) \/
        (exists o rq a requested, offer_target snapshot d c o requested t a /\
           allowed_request decide principal options log Plan d c (Some (RTFactory (of_offerId o) (of_factoryId o)))
             (Some requested) rq a /\
           match po_configurationByOffer options ≫= map_get (of_offerId o) with
           | Some configuration => requested = configuration
           | None => requested = default [] (of_defaultConfiguration o)
           end).
Proof.
  pose proof (view_sound decide snapshot principal options) as Hv.
  assert (genuine decide (authorizeRegistryForPlanning decide snapshot principal options []).2) as Hg.
  { unfold authorizeRegistryForPlanning.
    pose proof (authorizeAll_genuine decide snapshot principal options (catalog snapshot) []) as Hg.
    destruct (authorizeAll _ _ _ _ _ _) as [acs log]. apply Hg. by intros [|? ?] ? ? ?. }
  destruct (authorizeRegistryForPlanning _ _ _ _ _) as [view log]. cbn in Hg. destruct Hv as (Hall & ? & ? & _).
  split; [done|]. split; [done|]. intros ac Hac. rewrite Forall_forall in Hall.
  destruct (Hall ac Hac) as (d & Hcat & (a & Ha) & Hne & Ht). exists d.
  apply elem_of_flat_map in Hcat as (d' & Hd & (c' & [= -> <-] & Hc)%list_elem_of_fmap).
  split; [done|]. split; [done|]. split; [|split; [done|]].
  - eexists _, a. by apply allowed_request_of.
  - intros t Hin. destruct (Ht t Hin) as [(i & b & (?&?&?&?&?) & Hb & ->)|(o & b & Ho & Hb & ->)]; [left|right].
    + eexists i, _, b. split; [by split|]. by apply allowed_request_of.
    + exists o. eexists _, b, _. split; [by apply offer_target_of|].
      split; [by apply allowed_request_of|]. unfold configurationFor. by destruct (_ ≫= map_get _).
Qed.

(** The view hides nothing that is allowed: a capability of the snapshot is
    missing from the view, or one of its usable placements is, only if the
    policy was asked for it and refused. *)
Theorem authorizeRegistryForPlanning_complete `{Collation}
    (decide : Log -> ActorAuthorizationRequest -> ActorAuthorizationDecision)
    (snapshot : ActorRegistrySnapshot) (principal : ActorPrincipal)
    (options : PlanningAuthorizationOptions) (d : ActorDefinition) (c : Capability) :
  d ∈ sn_definitions snapshot -> c ∈ ad_capabilities d ->
  let '(view, log) := authorizeRegistryForPlanning decide snapshot principal options [] in
  capability_complete snapshot principal options log (vw_capabilities view) d c.
Proof.
  intros Hd Hc. unfold authorizeRegistryForPlanning.
  destruct (authorizeAll _ _ _ _ _ _) as [acs log] eqn:E.
  apply authorizeAll_spec in E as (_ & _ & Hall); [|done]. cbn. apply Hall.
  apply elem_of_flat_map. exists d. split; [done|]. apply list_elem_of_fmap. eauto.
Qed.

(** A configuration the policy forces wins over the requested one: under
    every key it names, the target is configured with the forced value, and with
    the requested value under every other key. *)
Theorem factoryTarget_forces_configuration (o : ActorFactoryOffer) (configuration : jobject)
    (a : Allowance) (constraints : AuthorizationConstraints) (forced : jobject) (key : string) :
  al_constraints a = Some constraints -> ct_forcedConfiguration constraints = Some forced ->
  map_ok forced ->
  match factoryTarget o configuration a with
  | TFactory _ _ _ configured _ _ _ _ =>
      map_get key configured =
      match map_get key forced with Some v => Some v | None => map_get key configuration end
  | TInstance _ _ _ _ _ _ _ => False
  end.
Proof. intros Ha Hc Hok. cbn. rewrite Ha. cbn. rewrite Hc. by apply spread_get. Qed.

Definition sample_instance : ActorInstanceAdvertisement :=
  {| ai_instanceId := "i"; ai_definitionRef := "ref"; ai_label := ""; ai_address := AddrLocal "i";
     ai_capabilityIds := ["cap"]; ai_status := Available; ai_executionEnvironment := Local;
     ai_locality := None; ai_trustDomain := None; ai_cost := Some 2%Z; ai_latencyMs := None;
     ai_expiresAt := Some "2030"; ai_metadata := None |}.

Definition sample_offer : ActorFactoryOffer :=
  {| of_offerId := "o"; of_factoryId := "f"; of_definitionRef := "ref"; of_label := "";
     of_capabilityIds := ["cap"]; of_executionEnvironment := Server;
     of_configurationSchema := None; of_defaultConfiguration := None; of_locality := None;
     of_trustDomain := None; of_cost := None; of_latencyMs := None; of_lifetime := None;
     of_metadata := None |}.

Definition sample_definition : ActorDefinition :=
  {| ad_ref := "ref"; ad_id := "ocr"; ad_version := "1"; ad_label := ""; ad_description := "";
     ad_tags := []; ad_manifest := sample_manifest;
     ad_capabilities := [sample_capability "cap" ["file(D)"] ["text(D)"] 1] |}.

Definition sample_snapshot : ActorRegistrySnapshot :=
  {| sn_revision := 4; sn_capturedAt := "2026"; sn_definitions := [sample_definition];
     sn_instances := [sample_instance]; sn_offers := [sample_offer] |}.

Definition sample_principal : ActorPrincipal :=
  {| ap_subjectId := "u"; ap_kind := User; ap_assurance := []; ap_sessionId := None |}.

Definition no_planning_options : PlanningAuthorizationOptions :=
  {| po_access := None; po_configurationByOffer := None; po_resource := None |}.

Definition sample_allowance : Allowance :=
  {| al_decisionId := "d"; al_expiresAt := None; al_constraints := None; al_obligations := None |}.

(** A policy that refuses factories. *)
Definition sample_policy (_ : Log) (rq : ActorAuthorizationRequest) : ActorAuthorizationDecision :=
  match rq_target rq with
  | Some (RTFactory _ _) => Deny "d" "no_spawn"
  | _ => Allow sample_allowance
  end.

Lemma authorizeRegistryForPlanning_complete_witness :
  let '(view, log) := authorizeRegistryForPlanning (H := string_cmp) sample_policy sample_snapshot
                        sample_principal no_planning_options [] in
  length (vw_capabilities view) = 1 /\ length log = 3 /\
  capability_complete sample_snapshot sample_principal no_planning_options log
    (vw_capabilities view) sample_definition (sample_capability "cap" ["file(D)"] ["text(D)"] 1).
Proof.
  pose proof (authorizeRegistryForPlanning_complete (H := string_cmp) sample_policy sample_snapshot
    sample_principal no_planning_options sample_definition
    (sample_capability "cap" ["file(D)"] ["text(D)"] 1) ltac:(left) ltac:(left)) as Hc.
  destruct (authorizeRegistryForPlanning _ _ _ _ _) as [view log] eqn:E.
  split; [vm_compute in E; by injection E as <- _|].
  split; [vm_compute in E; by injection E as _ <-|exact Hc].
Defined.

Lemma factoryTarget_forces_configuration_witness :
  let a := {| al_decisionId := "d"; al_expiresAt := None; al_obligations := None;
              al_constraints := Some {| ct_configurationSchema := None;
                ct_forcedConfiguration := Some [("network", JBool false)]; ct_maxUses := None |} |} in
  match factoryTarget sample_offer [("network", JBool true)] a with
  | TFactory _ _ _ configured _ _ _ _ => map_get "network" configured = Some (JBool false)
  | TInstance _ _ _ _ _ _ _ => False
  end.
Proof.
  intros a.
  exact (factoryTarget_forces_configuration sample_offer [("network", JBool true)] a _
    [("network", JBool false)] "network" (eq_refl (al_constraints a)) eq_refl
    ltac:(apply NoDup_singleton)).
Defined.
