(* ===== verification/Physical.v ===== *)
(** * Physical planning and affordances

    [libs/aven-actors/src/physical-planner.ts]: logical planning over the
    capabilities a view shows in one execution environment, and the placement of
    every step on an authorized target; and
    [libs/aven-actors/src/affordances.ts]: the next operations an application may
    offer. *)

From S2P Require Import Prelude Ids Term Contracts Planner PlannerMatch PlannerSearch PlannerEnrich.
From S2P Require Import Registry Authorization.

Open Scope stdpp_scope.

(** The search is never unfolded by conversion: its limit is a large numeral. *)
#[local] Opaque solve expandEnrichment.

(** ** Data *)

Record PhysicalPlanStep := { ps_step : PlanStep; ps_target : AuthorizedActorTarget }.

Record PlannedFor := { pf_subjectId : string; pf_tenantId : option string }.

Record PhysicalProgram := {
  pp_goals : list string;
  pp_totalCost : Z;
  pp_results : list PlanValue;
  pp_registryRevision : nat;
  pp_plannedFor : PlannedFor;
  pp_executionEnvironment : ExecutionEnvironment;
  pp_steps : list PhysicalPlanStep
}.

Record PhysicalPlanningOptions := { pl_solve : SolveOptions; pl_environment : ExecutionEnvironment }.

Inductive PhysicalPlanResult :=
| Placed (program : PhysicalProgram) (exploredStates : nat)
| NotPlaced (unmetGoals : list string) (exploredStates : nat) (reason : string).

Inductive PhysicalEnrichmentResult :=
| EnrichmentPlaced (program : PhysicalProgram) (exploredInvocations : nat)
| EnrichmentNotPlaced (reason : string) (exploredInvocations : nat).

(** ** Operations *)

Definition availableCapabilities (view : AuthorizedRegistryView) (env : ExecutionEnvironment) :
    list AuthorizedCapability :=
  List.filter (fun ac => Nat.ltb 0 (length (az_targets ac)))
    ((fun ac => {| az_capability := az_capability ac;
                   az_targets := List.filter (fun target => bool_decide (tg_environment target = env))
                                   (az_targets ac) |}) <$> vw_capabilities view).

(** [Math.min(...costs)] of at least one cost. *)
Definition minimum (costs : list Z) : Z :=
  match costs with [] => 0 | c :: costs => fold_left Z.min costs c end.

(** [{ ...capability, cost: (capability.cost ?? 1) + Math.min(...) }]. *)
Definition priced (ac : AuthorizedCapability) : Capability :=
  let c := az_capability ac in
  {| cap_id := cap_id c; cap_actor := cap_actor c; cap_method := cap_method c;
     cap_requires := cap_requires c; cap_produces := cap_produces c;
     cap_cost := Some (default 1 (cap_cost c) + minimum (tg_cost <$> az_targets ac))%Z;
     cap_available := cap_available c; cap_mode := cap_mode c; cap_idempotency := cap_idempotency c;
     cap_parametersSchema := cap_parametersSchema c; cap_inputSlots := cap_inputSlots c;
     cap_outputSlots := cap_outputSlots c |}.

(** The map from a capability to the first of its targets; of two entries with
    one key the later stays. *)
Definition target_map (capabilities : list AuthorizedCapability) :
    list (string * option AuthorizedActorTarget) :=
  fold_left (fun m ac => map_set (cap_id (az_capability ac)) (head (az_targets ac)) m)
    capabilities [].

Definition placeStep (targets : list (string * option AuthorizedActorTarget)) (step : PlanStep) :
    result PhysicalPlanStep :=
  match mjoin (map_get (st_capability step) targets) with
  | None => Throw ("authorized target disappeared for " +:+ st_capability step)
  | Some target => Ok {| ps_step := step; ps_target := target |}
  end.

Definition physicalProgram (view : AuthorizedRegistryView) (logical : AdHocProgram)
    (capabilities : list AuthorizedCapability) (env : ExecutionEnvironment) :
    result PhysicalProgram :=
  steps ← mapM (placeStep (target_map capabilities)) (pg_steps logical);
  Ok {| pp_goals := pg_goals logical; pp_totalCost := pg_totalCost logical;
        pp_results := pg_results logical; pp_registryRevision := vw_registryRevision view;
        pp_plannedFor := {| pf_subjectId := ap_subjectId (vw_principal view);
                            pf_tenantId := truthy (ac_tenantId (vw_access view)) |};
        pp_executionEnvironment := env; pp_steps := steps |}.

Section Place.
Context `{Collation}.

Definition solveAuthorized (view : AuthorizedRegistryView) (ingredients : list Ingredient)
    (goals : list string) (options : PhysicalPlanningOptions) : result PhysicalPlanResult :=
  let capabilities := availableCapabilities view (pl_environment options) in
  match solve (priced <$> capabilities) ingredients goals (pl_solve options) with
  | Unsolved unmetGoals exploredStates reason => Ok (NotPlaced unmetGoals exploredStates reason)
  | Solved program exploredStates =>
      placed ← physicalProgram view program capabilities (pl_environment options);
      Ok (Placed placed exploredStates)
  end.

Definition enrichAuthorized (view : AuthorizedRegistryView) (ingredients : list Ingredient)
    (factFamilies : list string) (options : PhysicalPlanningOptions) :
    option (result PhysicalEnrichmentResult) :=
  let capabilities := availableCapabilities view (pl_environment options) in
  logical ← planEnrichment (priced <$> capabilities) ingredients factFamilies
              (so_maxSteps (pl_solve options));
  Some match logical with
       | EnrichmentFailed reason exploredInvocations =>
           Ok (EnrichmentNotPlaced reason exploredInvocations)
       | Enriched program exploredInvocations =>
           placed ← physicalProgram view program capabilities (pl_environment options);
           Ok (EnrichmentPlaced placed exploredInvocations)
       end.

Definition enrichAfterGoalsAuthorized (view : AuthorizedRegistryView)
    (ingredients : list Ingredient) (goals factFamilies : list string)
    (options : PhysicalPlanningOptions) : option (result PhysicalEnrichmentResult) :=
  let capabilities := availableCapabilities view (pl_environment options) in
  logical ← planGoalThenEnrichment (priced <$> capabilities) ingredients goals factFamilies
              (pl_solve options);
  Some match logical.1 with
       | EnrichmentFailed reason exploredInvocations =>
           Ok (EnrichmentNotPlaced reason exploredInvocations)
       | Enriched program exploredInvocations =>
           placed ← physicalProgram view program capabilities (pl_environment options);
           Ok (EnrichmentPlaced placed exploredInvocations)
       end.
End Place.

(** ** Affordances *)

Inductive Effect := ENone | EPrepare | ECommit.

Record AffordanceDefinition := {
  af_id : string;
  af_label : string;
  af_description : string;
  af_requires : list string;
  af_goals : list string;
  af_effect : Effect
}.

Record AvailableAffordance := {
  av_id : string;
  av_label : string;
  av_description : string;
  av_goals : list string;
  av_effect : Effect;
  av_ingredients : list Ingredient
}.

Definition input_ingredient (input : PlanValue) : option Ingredient :=
  match pv_source input with
  | SrcStep _ _ => None
  | SrcIngredient artifactId =>
      (fun id => {| ig_predicate := pv_predicate input; ig_artifactId := Some id |})
        <$> truthy artifactId
  end.

Section Discover.
Context `{Collation} (facts : list Ingredient) (capabilities : list Capability).

Definition affordance_goals (d : AffordanceDefinition) (m : RequirementMatch) : list string :=
  (fun goal => substitute goal (rm_bindings m)) <$> af_goals d.

Definition affordance_key (d : AffordanceDefinition) (m : RequirementMatch) : string :=
  af_id d +:+ String "000" "" +:+ join (String "000" "") (affordance_goals d m).

Definition affordance (d : AffordanceDefinition) (m : RequirementMatch) : AvailableAffordance :=
  {| av_id := af_id d; av_label := af_label d; av_description := af_description d;
     av_goals := affordance_goals d m; av_effect := af_effect d;
     av_ingredients := omap input_ingredient (rm_inputs m) |}.

Definition is_solved (r : SolveResult) : bool :=
  match r with Solved _ _ => true | Unsolved _ _ _ => false end.

Definition offer_match (d : AffordanceDefinition) (available : list (string * AvailableAffordance))
    (m : RequirementMatch) : list (string * AvailableAffordance) :=
  if negb (is_solved (solve capabilities facts (affordance_goals d m)
                        {| so_maxSteps := None; so_maxStates := None |}))
  then available
  else if map_has (affordance_key d m) available then available
  else map_set (affordance_key d m) (affordance d m) available.

Definition offer_definition (available : list (string * AvailableAffordance))
    (d : AffordanceDefinition) : list (string * AvailableAffordance) :=
  fold_left (offer_match d) (matchAll (af_requires d) (ingredientValue <$> facts)) available.

Definition discoverAffordances (definitions : list AffordanceDefinition) :
    list AvailableAffordance :=
  (fold_left offer_definition
     (js_sort (fun left right => localeCompare (af_id left) (af_id right)) definitions) []).*2.
End Discover.

(** ** Placement *)

Lemma elem_of_available view env ac :
  ac ∈ availableCapabilities view env <->
  exists shown, shown ∈ vw_capabilities view /\ az_capability ac = az_capability shown /\
    az_targets ac =
      List.filter (fun t => bool_decide (tg_environment t = env)) (az_targets shown) /\
    az_targets ac <> [].
Proof.
  unfold availableCapabilities. rewrite list_elem_of_In, List.filter_In, <- list_elem_of_In.
  rewrite list_elem_of_fmap, Nat.ltb_lt. split.
  - intros [(shown & -> & Hs) Hl]. exists shown. cbn in *. repeat split; try done.
    intros E. rewrite E in Hl. cbn in Hl. lia.
  - intros (shown & Hs & Hc & Ht & Hne). split.
    + exists shown. split; [|done]. destruct ac. cbn in *. by subst.
    + destruct (az_targets ac); [done|cbn; lia].
Qed.

Lemma target_map_spec cs id m :
  map_get id (fold_left (fun m ac => map_set (cap_id (az_capability ac)) (head (az_targets ac)) m) cs m) =
  match js_find (fun ac => bool_decide (cap_id (az_capability ac) = id)) (rev cs) with
  | Some ac => Some (head (az_targets ac))
  | None => map_get id m
  end.
Proof.
  induction cs as [|ac cs IH] using rev_ind; [done|].
  rewrite fold_left_app, rev_app_distr. cbn [fold_left rev app js_find]. rewrite map_get_set.
  case_decide as E; [subst; by rewrite bool_decide_true|].
  rewrite bool_decide_false by congruence. exact IH.
Qed.

(** A target of [env] authorized for the capability of the step. *)
Definition placed (view : AuthorizedRegistryView) (env : ExecutionEnvironment)
    (step : PlanStep) (ps : PhysicalPlanStep) : Prop :=
  ps_step ps = step /\
  exists ac, ac ∈ availableCapabilities view env /\
    cap_id (az_capability ac) = st_capability step /\ head (az_targets ac) = Some (ps_target ps).

Lemma placeStep_ok view env step :
  st_capability step ∈ cap_id ∘ az_capability <$> availableCapabilities view env ->
  exists ps, placeStep (target_map (availableCapabilities view env)) step = Ok ps /\
    placed view env step ps.
Proof.
  intros Hin. unfold placeStep, target_map. rewrite target_map_spec.
  destruct (js_find _ _) as [ac|] eqn:E.
  - apply js_find_Some in E as [Hac Hid%bool_decide_eq_true].
    rewrite list_elem_of_In, <- in_rev, <- list_elem_of_In in Hac.
    destruct (az_targets ac) as [|t ts] eqn:Et.
    + apply elem_of_available in Hac as (? & _ & _ & _ & Hne). congruence.
    + cbn. eexists. split; [done|]. split; [done|]. exists ac. by rewrite Et.
  - exfalso. apply list_elem_of_fmap in Hin as (ac & Hid & Hac).
    assert (ac ∈ rev (availableCapabilities view env)) as Hr
      by by rewrite list_elem_of_In, <- in_rev, <- list_elem_of_In.
    pose proof (proj1 (js_find_None _ _) E ac Hr) as Hn%bool_decide_eq_false. by destruct Hn.
Qed.

Lemma mapM_Ok {A B} (f : A -> result B) (P : A -> B -> Prop) l :
  (forall x, x ∈ l -> exists y, f x = Ok y /\ P x y) -> exists k, mapM f l = Ok k /\ Forall2 P l k.
Proof.
  induction l as [|x l IH]; intros H; [exists []; by split|].
  destruct (H x ltac:(left)) as (y & Hy & ?).
  destruct IH as (k & Hk & ?); [intros; apply H; by right|].
  exists (y :: k). split; [|by constructor]. unfold mapM in *. cbn. rewrite Hy. cbn. by rewrite Hk.
Qed.

(** Programs over the priced capabilities of the environment can be placed. *)
Record placed_program (view : AuthorizedRegistryView) (env : ExecutionEnvironment)
    (logical : AdHocProgram) (p : PhysicalProgram) : Prop := {
  pd_steps : Forall2 (placed view env) (pg_steps logical) (pp_steps p);
  pd_goals : pp_goals p = pg_goals logical;
  pd_results : pp_results p = pg_results logical;
  pd_cost : pp_totalCost p = pg_totalCost logical;
  pd_environment : pp_executionEnvironment p = env;
  pd_revision : pp_registryRevision p = vw_registryRevision view;
  pd_subject : pf_subjectId (pp_plannedFor p) = ap_subjectId (vw_principal view);
  pd_tenant : pf_tenantId (pp_plannedFor p) = truthy (ac_tenantId (vw_access view))
}.

Lemma physicalProgram_ok view env logical :
  (forall step, step ∈ pg_steps logical ->
     exists c, c ∈ priced <$> availableCapabilities view env /\ st_capability step = cap_id c) ->
  exists p, physicalProgram view logical (availableCapabilities view env) env = Ok p /\
    placed_program view env logical p.
Proof.
  intros Hin. unfold physicalProgram.
  destruct (mapM_Ok (placeStep (target_map (availableCapabilities view env)))
    (placed view env) (pg_steps logical)) as (steps & -> & Hsteps).
  - intros step Hs. apply placeStep_ok. destruct (Hin step Hs) as (c & Hc & ->).
    apply list_elem_of_fmap in Hc as (ac & -> & Hac). apply list_elem_of_fmap. by exists ac.
  - eexists. split; [done|]. by split.
Qed.

Lemma valid_steps_capability caps facts steps step :
  valid_steps caps facts steps -> step ∈ steps ->
  exists c, c ∈ caps /\ st_capability step = cap_id c.
Proof.
  intros Hs (i & Hi)%list_elem_of_lookup. destruct (Hs i step Hi) as (c & m & ? & _ & _ & ->).
  by exists c.
Qed.

Lemma enriched_capability caps families facts program step :
  enriched_program caps families facts [] program -> step ∈ pg_steps program ->
  exists c, c ∈ caps /\ st_capability step = cap_id c.
Proof.
  intros He (i & Hi)%list_elem_of_lookup.
  destruct (ep_steps _ _ _ _ _ He i step (Nat.le_0_l i) Hi) as (c & m & ? & _ & _ & -> & _).
  by exists c.
Qed.

Lemma minimum_head t ts :
  StronglySorted (fun t u => tg_cost t <= tg_cost u)%Z (t :: ts) ->
  minimum (tg_cost <$> t :: ts) = tg_cost t.
Proof.
  intros Hs. inversion Hs as [|? ? _ Hall]; subst. cbn. clear Hs.
  induction Hall as [|u ts Hu _ IH]; cbn; [done|]. by rewrite Z.min_l.
Qed.

Lemma StronglySorted_filter {A} (R : A -> A -> Prop) (p : A -> bool) l :
  StronglySorted R l -> StronglySorted R (List.filter p l).
Proof.
  induction 1 as [|x l Hs IH Hall]; cbn; [constructor|]. destruct (p x); [|done].
  constructor; [done|]. rewrite Forall_forall in *. intros y Hy. apply Hall.
  rewrite list_elem_of_In, List.filter_In, <- list_elem_of_In in Hy. by destruct Hy.
Qed.


(** ** The planning functions *)

Lemma solveAuthorized_logical `{Collation} view ingredients goals options :
  let env := pl_environment options in
  match solveAuthorized view ingredients goals options with
  | Ok (Placed p explored) => exists logical,
      solve (priced <$> availableCapabilities view env) ingredients goals (pl_solve options)
        = Solved logical explored /\
      valid_steps (priced <$> availableCapabilities view env) (ingredientValue <$> ingredients)
        (pg_steps logical) /\
      placed_program view env logical p
  | Ok (NotPlaced _ _ _) => True
  | Throw _ => False
  end.
Proof.
  intros env. unfold solveAuthorized. fold env.
  destruct (solve _ _ _ _) as [logical n|] eqn:E; [|done].
  assert (valid_steps (priced <$> availableCapabilities view env)
    (ingredientValue <$> ingredients) (pg_steps logical)) as Hv.
  { by apply solve_valid in E as []. }
  destruct (physicalProgram_ok view env logical) as (p & -> & Hp).
  { intros step. by apply valid_steps_capability with (ingredientValue <$> ingredients). }
  cbn. by exists logical.
Qed.

(** A placed step, the capability it invokes and where it runs. *)
Lemma placed_step view env logical p i ps :
  placed_program view env logical p -> pp_steps p !! i = Some ps ->
  pg_steps logical !! i = Some (ps_step ps) /\
  exists shown t ts, shown ∈ vw_capabilities view /\
    cap_id (az_capability shown) = st_capability (ps_step ps) /\
    List.filter (fun t => bool_decide (tg_environment t = env)) (az_targets shown) = t :: ts /\
    ps_target ps = t.
Proof.
  intros [Hsteps _ _ _ _ _ _ _] Hi.
  destruct (Forall2_lookup_r _ _ _ _ _ Hsteps Hi) as (step & Hl & <- & ac & Hac & Hid & Hhd).
  split; [done|]. apply elem_of_available in Hac as (shown & Hsh & Hc & Ht & _).
  rewrite Ht in Hhd. destruct (List.filter _ _) as [|t ts] eqn:E; [discriminate|].
  injection Hhd as ->. exists shown, (ps_target ps), ts. rewrite <- Hc. done.
Qed.

Lemma filter_head_in {A} (f : A -> bool) l t ts :
  List.filter f l = t :: ts -> t ∈ l /\ f t = true.
Proof.
  intros E. assert (t ∈ List.filter f l) as Hin by (rewrite E; left).
  by rewrite list_elem_of_In, List.filter_In, <- list_elem_of_In in Hin.
Qed.

(** ** Properties *)

(** Physical planning never loses a target: whatever [solve] finds over the
    capabilities of one environment is placed without an error, and each of its
    steps runs on a target that the view authorizes for the step's capability in
    that environment. *)
Theorem solveAuthorized_places `{Collation} (view : AuthorizedRegistryView)
    (ingredients : list Ingredient) (goals : list string) (options : PhysicalPlanningOptions) :
  match solveAuthorized view ingredients goals options with
  | Ok (Placed p explored) => exists logical,
      solve (priced <$> availableCapabilities view (pl_environment options)) ingredients goals
        (pl_solve options) = Solved logical explored /\
      placed_program view (pl_environment options) logical p /\
      (forall ps, ps ∈ pp_steps p -> tg_environment (ps_target ps) = pl_environment options /\
         exists shown, shown ∈ vw_capabilities view /\
           cap_id (az_capability shown) = st_capability (ps_step ps) /\
           ps_target ps ∈ az_targets shown)
  | Ok (NotPlaced _ _ _) => True
  | Throw _ => False
  end.
Proof.
  pose proof (solveAuthorized_logical view ingredients goals options) as Hs.
  destruct (solveAuthorized _ _ _ _) as [[p n|]|]; [|done..].
  destruct Hs as (logical & Hsolve & _ & Hp). exists logical. split; [done|]. split; [done|].
  intros ps (i & Hi)%list_elem_of_lookup.
  destruct (placed_step _ _ _ _ _ _ Hp Hi) as (_ & shown & t & ts & ? & ? & Hf & ->).
  apply filter_head_in in Hf as [? Henv%bool_decide_eq_true]. split; [done|]. by exists shown.
Qed.

(** The price of a step is the price of where it runs.  In a program planned
    over a view that [authorizeRegistryForPlanning] made, with distinct
    capabilities, every step costs what its capability costs plus what the very
    target it was placed on costs, since the first target is the cheapest. *)
Theorem solveAuthorized_prices_the_target `{C : Collation} `{!CollationLaws C}
    (decide : Log -> ActorAuthorizationRequest -> ActorAuthorizationDecision)
    (snapshot : ActorRegistrySnapshot) (principal : ActorPrincipal)
    (planning : PlanningAuthorizationOptions) (log : Log) (ingredients : list Ingredient)
    (goals : list string) (options : PhysicalPlanningOptions) (p : PhysicalProgram)
    (explored : nat) (ps : PhysicalPlanStep) :
  let view := (authorizeRegistryForPlanning decide snapshot principal planning log).1 in
  NoDup (cap_id ∘ az_capability <$> vw_capabilities view) ->
  solveAuthorized view ingredients goals options = Ok (Placed p explored) -> ps ∈ pp_steps p ->
  exists shown, shown ∈ vw_capabilities view /\
    cap_id (az_capability shown) = st_capability (ps_step ps) /\
    ps_target ps ∈ az_targets shown /\
    st_cost (ps_step ps) =
      (default 1 (cap_cost (az_capability shown)) + tg_cost (ps_target ps))%Z.
Proof.
  intros view Hnd. assert (forall ac, ac ∈ vw_capabilities view ->
    StronglySorted (fun t u => tg_cost t <= tg_cost u)%Z (az_targets ac)) as Hsorted.
  { subst view. unfold authorizeRegistryForPlanning.
    destruct (authorizeAll _ _ _ _ _ _) as [acs log'] eqn:E.
    apply authorizeAll_sorted in E; [|done]. rewrite Forall_forall in E. exact E. }
  intros Hsolve (i & Hi)%list_elem_of_lookup.
  pose proof (solveAuthorized_logical view ingredients goals options) as Hs.
  rewrite Hsolve in Hs. destruct Hs as (logical & _ & Hv & Hp).
  destruct (placed_step _ _ _ _ _ _ Hp Hi) as (Hl & shown & t & ts & Hsh & Hid & Hf & ->).
  destruct (Hv i _ Hl) as (c & m & Hc & _ & _ & Hmk).
  apply list_elem_of_fmap in Hc as (ac & -> & Hac).
  apply elem_of_available in Hac as (shown' & Hsh' & Hcap & Ht & _).
  assert (shown' = shown) as ->.
  { apply list_elem_of_lookup in Hsh as (a & Ha). apply list_elem_of_lookup in Hsh' as (b & Hb).
    assert (a = b) as ->; [|congruence]. eapply NoDup_lookup; [exact Hnd|..];
      rewrite list_lookup_fmap; [by rewrite Ha|]. rewrite Hb, Hmk in *.
    cbn in *. unfold compose. congruence. }
  exists shown. split; [done|]. split; [done|].
  split; [by apply filter_head_in in Hf as [? _]|].
  rewrite Hmk. cbn [makeStep st_cost priced cap_cost default]. rewrite Ht, Hf, Hcap.
  rewrite minimum_head; [done|]. rewrite <- Hf. by apply StronglySorted_filter, Hsorted.
Qed.

Lemma solveAuthorized_prices_the_target_witness :
  let view := (authorizeRegistryForPlanning (H := bytes_collation) sample_policy sample_snapshot
                 sample_principal no_planning_options []).1 in
  match solveAuthorized (H := bytes_collation) view sample_ingredients ["text(doc)"]
          {| pl_solve := {| so_maxSteps := None; so_maxStates := None |}; pl_environment := Local |} with
  | Ok (Placed p explored) => exists ps, pp_steps p = [ps] /\ exists shown,
      shown ∈ vw_capabilities view /\
      cap_id (az_capability shown) = st_capability (ps_step ps) /\
      ps_target ps ∈ az_targets shown /\
      st_cost (ps_step ps) = (default 1 (cap_cost (az_capability shown)) + tg_cost (ps_target ps))%Z
  | _ => False
  end.
Proof.
  intros view.
  assert (exists p explored ps,
    solveAuthorized (H := bytes_collation) view sample_ingredients ["text(doc)"]
      {| pl_solve := {| so_maxSteps := None; so_maxStates := None |}; pl_environment := Local |}
    = Ok (Placed p explored) /\ pp_steps p = [ps]) as (p & n & ps & E & Hp).
  { eexists _, _, _. split; vm_compute; reflexivity. }
  rewrite E. exists ps. split; [exact Hp|].
  exact (@solveAuthorized_prices_the_target bytes_collation bytes_collation_laws sample_policy
    sample_snapshot sample_principal no_planning_options [] sample_ingredients ["text(doc)"] _ p n ps
    ltac:(vm_compute; apply NoDup_singleton) E ltac:(rewrite Hp; left)).
Defined.

(** Authorized enrichment ends, and everything it plans is placed. *)
Theorem enrichAuthorized_places `{Collation} (view : AuthorizedRegistryView)
    (ingredients : list Ingredient) (factFamilies : list string)
    (options : PhysicalPlanningOptions) :
  match enrichAuthorized view ingredients factFamilies options with
  | Some (Ok (EnrichmentPlaced p _)) => exists logical,
      enriched_program (priced <$> availableCapabilities view (pl_environment options)) factFamilies
        (ingredientValue <$> ingredients) [] logical /\
      placed_program view (pl_environment options) logical p
  | Some (Ok (EnrichmentNotPlaced _ _)) => True
  | Some (Throw _) | None => False
  end.
Proof.
  unfold enrichAuthorized, planEnrichment. set (env := pl_environment options).
  pose proof (expandEnrichment_ok (priced <$> availableCapabilities view env)
    (ingredientValue <$> ingredients) [] factFamilies (so_maxSteps (pl_solve options)) []) as He.
  rewrite facts_before_nil in He.
  destruct (expandEnrichment _ _ _ _ _ _) as [[logical n|]|]; cbn in *; [|done..].
  destruct He as [He _]. destruct (physicalProgram_ok view env logical) as (p & -> & Hp).
  { intros step. by apply enriched_capability with factFamilies (ingredientValue <$> ingredients). }
  cbn. by exists logical.
Qed.

(** ** Affordances *)

Section Affordances.
Context `{Collation} (facts : list Ingredient) (capabilities : list Capability).

(** The goals of the match have an executable route. *)
Definition has_route (d : AffordanceDefinition) (m : RequirementMatch) : bool :=
  is_solved (solve capabilities facts (affordance_goals d m)
               {| so_maxSteps := None; so_maxStates := None |}).

Definition matches_of (definitions : list AffordanceDefinition) :
    list (AffordanceDefinition * RequirementMatch) :=
  List.flat_map (fun d => (fun m => (d, m)) <$> matchAll (af_requires d) (ingredientValue <$> facts))
    definitions.

Lemma fold_left_fmap {A B C} (f : A -> C -> A) (g : B -> C) l a :
  fold_left f (g <$> l) a = fold_left (fun a x => f a (g x)) l a.
Proof. revert a. induction l as [|x l IH]; intros a; cbn; auto. Qed.

Lemma discover_flat definitions available :
  fold_left (offer_definition facts capabilities) definitions available =
  fold_left (fun available dm => offer_match facts capabilities dm.1 available dm.2)
    (matches_of definitions) available.
Proof.
  revert available. induction definitions as [|d definitions IH]; intros available; [reflexivity|].
  unfold matches_of. cbn [fold_left List.flat_map]. fold (matches_of definitions).
  rewrite fold_left_app, fold_left_fmap, IH. reflexivity.
Qed.

Record offered (dms : list (AffordanceDefinition * RequirementMatch))
    (available : list (string * AvailableAffordance)) : Prop := {
  od_ok : map_ok available;
  od_sound : forall k a, (k, a) ∈ available -> exists d m,
    (d, m) ∈ dms /\ has_route d m = true /\ k = affordance_key d m /\ a = affordance d m;
  od_complete : forall d m, (d, m) ∈ dms -> has_route d m = true ->
    map_has (affordance_key d m) available = true
}.

Lemma offered_all dms :
  offered dms (fold_left (fun available dm => offer_match facts capabilities dm.1 available dm.2) dms []).
Proof.
  induction dms as [|[d m] dms IH] using rev_ind.
  { split; [apply map_ok_nil|by intros ? ? ?%not_elem_of_nil|by intros ? ? ?%not_elem_of_nil]. }
  rewrite fold_left_app. cbn. set (available := fold_left _ dms []) in *.
  assert (forall d' m' : _, (d', m') ∈ dms ++ [(d, m)] ->
    (d', m') ∈ dms \/ (d' = d /\ m' = m)) as Hin.
  { intros d' m' [?|E%list_elem_of_singleton]%elem_of_app; [by left|]. right. by injection E. }
  destruct IH as [Hok Hs Hc]. unfold offer_match. fold (has_route d m).
  destruct (has_route d m) eqn:Hr; cbn [negb]; [destruct (map_has (affordance_key d m) available) eqn:Hh|].
  - split; [done| |].
    + intros k a (d' & m' & ? & ?)%Hs. exists d', m'. split; [apply elem_of_app; by left|done].
    + intros d' m' [?|[-> ->]]%Hin Hr'; auto.
  - rewrite map_set_new by done. split.
    + rewrite <- map_set_new by done. auto with js.
    + intros k a [(d' & m' & ? & ?)%Hs|E%list_elem_of_singleton]%elem_of_app.
      * exists d', m'. split; [apply elem_of_app; by left|done].
      * injection E as -> ->. exists d, m. split; [apply elem_of_app; right; left|done].
    + intros d' m' [?|[-> ->]]%Hin Hr'; rewrite map_has_app; apply orb_true_iff; [left; auto|right].
      unfold map_has. cbn. by rewrite decide_True, bool_decide_true.
  - split; [done| |].
    + intros k a (d' & m' & ? & ?)%Hs. exists d', m'. split; [apply elem_of_app; by left|done].
    + intros d' m' [?|[-> ->]]%Hin Hr'; [auto|congruence].
Qed.
End Affordances.

(** [discoverAffordances] offers exactly what can be done: every affordance
    it offers grounds a definition in a match of the facts and has a valid
    program for its goals; every such match is offered, under its key of name
    and goals, which no other affordance of the answer has. *)
Theorem discoverAffordances_exact `{Collation} (definitions : list AffordanceDefinition)
    (facts : list Ingredient) (capabilities : list Capability) :
  exists keys, NoDup keys /\ length keys = length (discoverAffordances facts capabilities definitions) /\
    (forall a, a ∈ discoverAffordances facts capabilities definitions -> exists d m program,
       d ∈ definitions /\ m ∈ matchAll (af_requires d) (ingredientValue <$> facts) /\
       a = affordance d m /\
       valid_program capabilities (ingredientValue <$> facts) (av_goals a) program) /\
    (forall d m, d ∈ definitions -> m ∈ matchAll (af_requires d) (ingredientValue <$> facts) ->
       has_route facts capabilities d m = true -> affordance_key d m ∈ keys).
Proof.
  unfold discoverAffordances. rewrite discover_flat. set (sorted := js_sort _ definitions).
  assert (forall d m, (d, m) ∈ matches_of facts sorted <->
    d ∈ definitions /\ m ∈ matchAll (af_requires d) (ingredientValue <$> facts)) as Hin.
  { intros d m. unfold matches_of. rewrite elem_of_flat_map. subst sorted.
    setoid_rewrite elem_of_js_sort. setoid_rewrite list_elem_of_fmap. split.
    - intros (d' & ? & m' & [= -> ->] & ?). done.
    - intros [? ?]. exists d. eauto. }
  destruct (offered_all facts capabilities (matches_of facts sorted)) as [Hok Hs Hc].
  set (available := fold_left _ (matches_of facts sorted) []) in *.
  exists available.*1. split; [done|]. split; [by rewrite !length_fmap|]. split.
  - intros a ([k a'] & -> & Ha)%list_elem_of_fmap. apply Hs in Ha as (d & m & Hdm & Hr & _ & ->).
    apply Hin in Hdm as [? ?]. unfold has_route in Hr. cbn [snd affordance av_goals].
    destruct (solve _ _ _ _) as [program n|] eqn:E; [|discriminate].
    exists d, m, program. repeat split; try done; by apply solve_valid in E as [].
  - intros d m Hd Hm Hr. specialize (Hc d m (proj2 (Hin d m) (conj Hd Hm)) Hr).
    unfold map_has in Hc. apply bool_decide_eq_true in Hc as [a Ha]. apply map_get_elem in Ha.
    apply list_elem_of_fmap. by exists (affordance_key d m, a).
Qed.
