(* ===== verification/Run.v ===== *)
(** * Plan runs

    [libs/aven-actors/src/run.ts]: the protocol between an application and a
    plan runner, the transitions of a run, and the check that a value survives
    the JSON boundary ([assertPortableRunValue], [portableRunClone]) over a heap
    of JavaScript objects, where values may share and even contain themselves. *)

From S2P Require Import Prelude Ids Contracts Planner Registry Authorization Physical.

Open Scope stdpp_scope.

(** ** Protocol *)

Definition ACTOR_RUN_PROTOCOL_V1 : result string :=
  resourceId {| rn_authority := AVEN_RUNTIME_AUTHORITY; rn_kind := "protocol";
                rn_namespace := "actors"; rn_name := "plan-runner"; rn_version := "1" |}.
Definition ACTOR_RUN_PROTOCOL : result string :=
  resourceId {| rn_authority := AVEN_RUNTIME_AUTHORITY; rn_kind := "protocol";
                rn_namespace := "actors"; rn_name := "plan-runner"; rn_version := "2" |}.

Inductive PlanRunState :=
| Accepted | Planning | Running | WaitingForInput | Succeeded | Failed | Cancelled.

#[export] Instance PlanRunState_eq_dec : EqDecision PlanRunState.
Proof. solve_decision. Defined.

Definition state_text (s : PlanRunState) : string :=
  match s with
  | Accepted => "accepted" | Planning => "planning" | Running => "running"
  | WaitingForInput => "waiting_for_input" | Succeeded => "succeeded" | Failed => "failed"
  | Cancelled => "cancelled"
  end.

Inductive PlanRunGoalSpec :=
| GoalExplore (subject : Ingredient) (factFamilies : list string)
| GoalOnly
| GoalThenEnrich (subject : Ingredient) (factFamilies : list string).

Record PlanRunSecurityContext := {
  sc_principal : ActorPrincipal;
  sc_access : ActorAccessContext;
  sc_establishedBy : string;
  sc_authorizedAt : string
}.

Record PlanRunStartRequest := {
  sr_protocol : string;
  sr_requestId : string;
  sr_idempotencyKey : string;
  sr_requestedAt : string;
  sr_skillRef : string;
  sr_executionEnvironment : ExecutionEnvironment;
  sr_ingredients : list Ingredient;
  sr_goals : list string;
  sr_goalSpec : option PlanRunGoalSpec;
  sr_parameters : jobject;
  sr_security : PlanRunSecurityContext
}.

Record PlanRunHandle := {
  hd_runId : string;
  hd_revision : nat;
  hd_state : PlanRunState;
  hd_executionEnvironment : ExecutionEnvironment
}.

Record PlanRunCheckpoint := {
  cp_checkpointId : string;
  cp_ordinal : nat;
  cp_committedAt : string;
  cp_completedStepIds : list string;
  cp_artifactIds : list string;
  cp_remainingGoals : list string;
  cp_registryRevision : nat;
  cp_policyDecisionIds : list string;
  cp_output : option json
}.

Inductive ContinuationKind := KInput | KSecret | KApproval | KAssurance.
Inductive Persistence := MetadataOnly | PersistArtifact.
Inductive ContinuationState := COpen | CPostponed | CResolved | CCancelled.

#[export] Instance ContinuationKind_eq_dec : EqDecision ContinuationKind.
Proof. solve_decision. Defined.
#[export] Instance Persistence_eq_dec : EqDecision Persistence.
Proof. solve_decision. Defined.
#[export] Instance ContinuationState_eq_dec : EqDecision ContinuationState.
Proof. solve_decision. Defined.

Record PlanRunContinuation := {
  ct_continuationId : string;
  ct_kind : ContinuationKind;
  ct_schema : string;
  ct_subject : option string;
  ct_prompt : string;
  ct_persistence : Persistence;
  ct_state : ContinuationState
}.

Record PlanRunFailure := { fl_code : string; fl_message : string; fl_retryable : bool }.

(** A value from outside the protocol, as [portableRunClone] receives it: a copy
    or the error it throws. *)
Abbreviation unknown := (result json).

Record PlanRunExecutionResult := {
  er_artifactIds : option (list string);
  er_completedStepIds : option (list string);
  er_remainingGoals : option (list string);
  er_registryRevision : option nat;
  er_policyDecisionIds : option (list string);
  er_output : option unknown;
  er_continuation : option PlanRunContinuation
}.

Inductive PlanRunContinuationSubmission :=
| Postpone (requestId continuationId : string)
| Submit (requestId continuationId : string) (kind : ContinuationKind) (value : unknown).

Definition submission_continuation (s : PlanRunContinuationSubmission) : string :=
  match s with Postpone _ id => id | Submit _ id _ _ => id end.

(** ** Transitions *)

Definition TRANSITIONS (from : PlanRunState) : list PlanRunState :=
  match from with
  | Accepted => [Planning; Cancelled; Failed]
  | Planning => [Running; WaitingForInput; Cancelled; Failed]
  | Running => [Planning; WaitingForInput; Succeeded; Cancelled; Failed]
  | WaitingForInput => [Planning; Running; Cancelled; Failed]
  | Succeeded => []
  | Failed => [Planning; Cancelled]
  | Cancelled => []
  end.

Definition assertPlanRunTransition (from to : PlanRunState) : result unit :=
  if bool_decide (from = to) then Ok tt
  else throw_if (negb (includes (TRANSITIONS from) to))
         ("invalid plan run transition " +:+ state_text from +:+ " -> " +:+ state_text to).

(** ** Portable values *)

(** A value of the language; a number is [None] when it is not finite, and
    [VOther] is [undefined], a function, a symbol or a big integer. *)
Inductive value :=
| VNull
| VString (s : string)
| VBool (b : bool)
| VNumber (n : option Z)
| VOther
| VRef (l : nat).

(** An array may have holes; [OExotic] has another prototype. *)
Inductive object :=
| OArray (items : list (option value))
| OPlain (entries : list (string * value))
| OExotic.

Abbreviation heap := (gmap nat object).

Section Portable.
Context (h : heap).

(** [Array.prototype.forEach] from an index on, and the loop over the entries. *)
Definition check_items (check : value -> string -> result unit) (path : string) :
    nat -> list (option value) -> result unit :=
  fix each (index : nat) (items : list (option value)) :=
    match items with
    | [] => Ok tt
    | None :: items => each (S index) items
    | Some item :: items =>
        _ ← check item (path +:+ "[" +:+ pretty index +:+ "]"); each (S index) items
    end.

Definition check_entries (check : value -> string -> result unit) (path : string) :
    list (string * value) -> result unit :=
  fix each (entries : list (string * value)) :=
    match entries with
    | [] => Ok tt
    | (key, item) :: entries => _ ← check item (path +:+ "." +:+ key); each entries
    end.

(** [seen] holds the objects the value is inside of: the code deletes an object
    from its set when it leaves it.  The fuel bounds their number. *)
Fixpoint assertPortableRunValue (fuel : nat) (seen : gset nat) (v : value) (path : string) :
    result unit :=
  match v with
  | VNull | VString _ | VBool _ => Ok tt
  | VNumber n => throw_if (bool_decide (n = None)) (path +:+ " is not a finite JSON number")
  | VOther => Throw (path +:+ " is not portable JSON")
  | VRef l =>
      if decide (l ∈ seen) then Throw (path +:+ " contains a cycle")
      else
        match fuel with
        | 0 => Throw "out of fuel"
        | S fuel =>
            let check := assertPortableRunValue fuel ({[l]} ∪ seen) in
            match h !! l with
            | Some (OArray items) => check_items check path 0 items
            | Some (OPlain entries) => check_entries check path entries
            | Some OExotic | None => Throw (path +:+ " must be a plain object")
            end
        end
  end.

(** [JSON.parse(JSON.stringify(value))] of a value that passed the check: holes
    become [null]. *)
Fixpoint json_copy (fuel : nat) (v : value) : json :=
  match v with
  | VString s => JString s
  | VBool b => JBool b
  | VNumber (Some n) => JNumber n
  | VRef l =>
      match fuel with
      | 0 => JNull
      | S fuel =>
          match h !! l with
          | Some (OArray items) =>
              JArray ((fun item => match item with
                                   | Some item => json_copy fuel item
                                   | None => JNull
                                   end) <$> items)
          | Some (OPlain entries) => JObject ((fun e => (e.1, json_copy fuel e.2)) <$> entries)
          | _ => JNull
          end
      end
  | _ => JNull
  end.

Definition portableRunClone (v : value) : result json :=
  _ ← assertPortableRunValue (S (size h)) ∅ v "$"; Ok (json_copy (S (size h)) v).
End Portable.

(** ** What a portable value is *)

(** [v] is, in the heap, the finite tree [j]: no cycle, no function, no number
    that is not finite, no object of another prototype. *)
Section Denotes.
Context (h : heap).

Fixpoint denotes (v : value) (j : json) {struct j} : Prop :=
  match v, j with
  | VNull, JNull => True
  | VString s, JString t => s = t
  | VBool b, JBool c => b = c
  | VNumber (Some n), JNumber m => n = m
  | VRef l, JArray js => exists items, h !! l = Some (OArray items) /\
      (fix all (items : list (option value)) (js : list json) {struct js} : Prop :=
         match items, js with
         | [], [] => True
         | None :: items, j :: js => j = JNull /\ all items js
         | Some v :: items, j :: js => denotes v j /\ all items js
         | _, _ => False
         end) items js
  | VRef l, JObject js => exists entries, h !! l = Some (OPlain entries) /\
      (fix all (entries : list (string * value)) (js : list (string * json)) {struct js} : Prop :=
         match entries, js with
         | [], [] => True
         | (k, v) :: entries, (k', j) :: js => k = k' /\ denotes v j /\ all entries js
         | _, _ => False
         end) entries js
  | _, _ => False
  end.

Definition denotes_item (item : option value) (j : json) : Prop :=
  match item with Some v => denotes v j | None => j = JNull end.
Definition denotes_entry (e : string * value) (e' : string * json) : Prop :=
  e.1 = e'.1 /\ denotes e.2 e'.2.

Lemma denotes_array l js :
  denotes (VRef l) (JArray js) <->
  exists items, h !! l = Some (OArray items) /\ Forall2 denotes_item items js.
Proof.
  cbn [denotes]. apply exist_proper. intros items. apply and_iff_compat_l.
  revert js. induction items as [|[v|] items IH]; intros [|j js];
    rewrite ?Forall2_nil, ?Forall2_cons; try rewrite IH; try done;
    split; try done; intros H; inversion H.
Qed.

Lemma denotes_object l js :
  denotes (VRef l) (JObject js) <->
  exists entries, h !! l = Some (OPlain entries) /\ Forall2 denotes_entry entries js.
Proof.
  cbn [denotes]. apply exist_proper. intros entries. apply and_iff_compat_l.
  revert js. induction entries as [|[k v] entries IH]; intros [|[k' j] js];
    rewrite ?Forall2_nil, ?Forall2_cons; try rewrite IH; try done;
    try (split; try done; intros H; by inversion H).
  unfold denotes_entry. cbn. tauto.
Qed.

(** A value is one tree. *)
Lemma denotes_fun j : forall v k, denotes v j -> denotes v k -> k = j.
Proof.
  induction j as [| | | |items IH|entries IH] using json_nested_ind; intros v k Hj Hk;
    try (destruct v as [| | |[]| |]; try done; destruct k; try done; cbn in *; by subst).
  - destruct v as [| | |[]| |]; try done. apply denotes_array in Hj as (xs & Hl & Hj).
    destruct k as [| | | |js|js]; try (by cbn in Hk).
    + apply denotes_array in Hk as (ys & Hl' & Hk). rewrite Hl in Hl'. injection Hl' as <-. f_equal.
      clear Hl. revert js Hk. induction Hj as [|x i xs is' Hx _ IHj]; intros js Hk;
        inversion Hk as [|? j' ? js' Hx' Hk']; subst; [done|].
      apply Forall_cons in IH as [IHi IH]. f_equal; [|by apply IHj].
      destruct x as [x|]; cbn in *; [by apply (IHi x)|congruence].
    + apply denotes_object in Hk as (ys & Hl' & _). congruence.
  - destruct v as [| | |[]| |]; try done. apply denotes_object in Hj as (xs & Hl & Hj).
    destruct k as [| | | |js|js]; try (by cbn in Hk).
    + apply denotes_array in Hk as (ys & Hl' & _). congruence.
    + apply denotes_object in Hk as (ys & Hl' & Hk). rewrite Hl in Hl'. injection Hl' as <-. f_equal.
      clear Hl. revert js Hk. induction Hj as [|x i xs is' [Hx1 Hx2] _ IHj]; intros js Hk;
        inversion Hk as [|? j' ? js' [Hx1' Hx2'] Hk']; subst; [done|].
      apply Forall_cons in IH as [IHi IH]. f_equal; [|by apply IHj].
      destruct i, j', x; cbn in *. f_equal; [congruence|]. by eapply IHi.
Qed.
End Denotes.

(** ** The check is exact *)

Fixpoint json_size (j : json) : nat :=
  match j with
  | JArray items => S (sum_list_with json_size items)
  | JObject entries => S (sum_list_with (fun e => json_size e.2) entries)
  | _ => 1
  end.

Lemma sum_list_with_elem {A} (f : A -> nat) l x : x ∈ l -> f x <= sum_list_with f l.
Proof. induction 1; cbn; lia. Qed.

Section Exact.
Context (h : heap).

Lemma check_items_sound check copy path i items :
  (forall v p, check v p = Ok tt -> denotes h v (copy v)) ->
  check_items check path i items = Ok tt ->
  Forall2 (denotes_item h) items
    ((fun item => match item with Some item => copy item | None => JNull end) <$> items).
Proof.
  intros Hc. revert i. induction items as [|[v|] items IH]; intros i H; cbn in *.
  - constructor.
  - destruct (check v _) as [[]|] eqn:E; [|discriminate]. constructor; [by eapply Hc|by eapply IH].
  - constructor; [done|by eapply IH].
Qed.

Lemma check_entries_sound check copy path entries :
  (forall v p, check v p = Ok tt -> denotes h v (copy v)) ->
  check_entries check path entries = Ok tt ->
  Forall2 (denotes_entry h) entries ((fun e => (e.1, copy e.2)) <$> entries).
Proof.
  intros Hc. induction entries as [|[k v] entries IH]; intros H; cbn in *; [constructor|].
  destruct (check v _) as [[]|] eqn:E; [|discriminate].
  constructor; [split; [done|by eapply Hc]|by apply IH].
Qed.

Lemma assertPortable_sound fuel : forall seen v path,
  assertPortableRunValue h fuel seen v path = Ok tt -> denotes h v (json_copy h fuel v).
Proof.
  induction fuel as [|fuel IH]; intros seen v path;
    (destruct v as [| | |[]| |l]; [by intros _..|discriminate|discriminate|]); cbn;
    (case_decide as Hseen; [discriminate|]); [discriminate|].
  destruct (h !! l) as [[items|entries|]|] eqn:El; [| |discriminate..]; intros H.
  - apply denotes_array. exists items. split; [done|]. eapply check_items_sound; [|exact H].
    intros v p. apply IH.
  - apply denotes_object. exists entries. split; [done|]. eapply check_entries_sound; [|exact H].
    intros v p. apply IH.
Qed.

Lemma check_items_complete check path i items js :
  (forall v p j, j ∈ js -> denotes h v j -> check v p = Ok tt) ->
  Forall2 (denotes_item h) items js -> check_items check path i items = Ok tt.
Proof.
  intros Hc Hall. revert i. induction Hall as [|[v|] j items js Hv _ IH]; intros i; cbn; [done| |].
  - rewrite (Hc v _ j); [|left|done]. apply IH. intros w p j' Hj. apply Hc. by right.
  - apply IH. intros w p j' Hj. apply Hc. by right.
Qed.

Lemma check_entries_complete check path entries js :
  (forall v p e, e ∈ js -> denotes h v e.2 -> check v p = Ok tt) ->
  Forall2 (denotes_entry h) entries js -> check_entries check path entries = Ok tt.
Proof.
  intros Hc Hall. induction Hall as [|[k v] e entries js [_ Hv] _ IH]; cbn; [done|].
  rewrite (Hc v _ e); [|left|done]. apply IH. intros w p j' Hj. apply Hc. by right.
Qed.

(** Each object a value is inside of is a larger tree, so it is not the value. *)
Definition enclosing (seen : gset nat) (j : json) : Prop :=
  forall l, l ∈ seen -> exists jl, denotes h (VRef l) jl /\ json_size j < json_size jl.

Lemma enclosing_child seen l jl j :
  enclosing seen jl -> denotes h (VRef l) jl -> json_size j < json_size jl ->
  enclosing ({[l]} ∪ seen) j.
Proof.
  intros Hs Hl Hj l' [->%elem_of_singleton|Hin]%elem_of_union; [eauto|].
  destruct (Hs l' Hin) as (jl' & ? & ?). exists jl'. split; [done|lia].
Qed.

Lemma assertPortable_complete fuel : forall seen v j path,
  denotes h v j -> enclosing seen j -> size (dom h ∖ seen) <= fuel ->
  assertPortableRunValue h fuel seen v path = Ok tt.
Proof.
  induction fuel as [|fuel IH]; intros seen v j path Hv Hs Hf;
    (destruct v as [| | |[]| |l]; [done|done|done|done|by destruct j|by destruct j|]).
  all: assert (l ∉ seen) as Hl
    by (intros Hin; destruct (Hs l Hin) as (jl & Hjl & Hlt); rewrite (denotes_fun h j _ _ Hv Hjl) in Hlt; lia).
  all: assert (is_Some (h !! l)) as Hdom
    by (destruct j; try done; [apply denotes_array in Hv as (? & -> & _)|
          apply denotes_object in Hv as (? & -> & _)]; eauto).
  all: assert (size (dom h ∖ ({[l]} ∪ seen)) < size (dom h ∖ seen)) as Hdec
    by (apply subset_size; apply elem_of_dom in Hdom; set_solver).
  - exfalso. lia.
  - assert (forall v p j', json_size j' < json_size j -> denotes h v j' ->
      assertPortableRunValue h fuel ({[l]} ∪ seen) v p = Ok tt) as Hrec.
    { intros v p j' Hlt Hj'. apply IH with j'; [done|by apply enclosing_child with j|lia]. }
    cbn. rewrite decide_False by done. destruct j as [| | | |js|js]; try done.
    + apply denotes_array in Hv as (items & -> & Hall). eapply check_items_complete; [|exact Hall].
      intros v p j' Hj'. apply Hrec. pose proof (sum_list_with_elem json_size js j' Hj'). cbn. lia.
    + apply denotes_object in Hv as (entries & -> & Hall).
      eapply check_entries_complete; [|exact Hall]. intros v p e Hj'. apply Hrec.
      pose proof (sum_list_with_elem (fun e => json_size e.2) js e Hj'). cbn in *. lia.
Qed.

End Exact.

(** ** Properties *)

(** The JSON boundary is exact on every heap, shared and cyclic ones too:
    [portableRunClone] returns a copy exactly when the value is a finite tree of
    plain JSON, the copy is that tree, and in every other case (a cycle, a
    function, [undefined], a number that is not finite, an object of a class) it
    throws. *)
Theorem portableRunClone_exact (h : heap) (v : value) (j : json) :
  portableRunClone h v = Ok j <-> denotes h v j.
Proof.
  unfold portableRunClone. split.
  - destruct (assertPortableRunValue _ _ _ _ _) as [[]|] eqn:E; [|discriminate].
    apply assertPortable_sound in E. revert E. generalize (json_copy h (S (size h)) v).
    by intros copy ? [= <-].
  - intros Hv. assert (assertPortableRunValue h (S (size h)) ∅ v "$" = Ok tt) as E.
    { apply assertPortable_complete with j; [done|by intros ? ?%elem_of_empty|].
      rewrite difference_empty_L, size_dom. lia. }
    rewrite E. cbn [mbind result_bind]. f_equal. apply (denotes_fun h j v _ Hv).
    exact (assertPortable_sound h _ _ _ _ E).
Qed.

(** A value that contains itself is refused as a cycle, whatever the depth at
    which it does. *)
Theorem portableRunClone_refuses_self_reference (h : heap) (l : nat)
    (entries : list (string * value)) (key : string) :
  h !! l = Some (OPlain entries) -> (key, VRef l) ∈ entries ->
  is_ok (portableRunClone h (VRef l)) = false.
Proof.
  intros Hl Hin. destruct (portableRunClone h (VRef l)) as [j|] eqn:E; [|done]. exfalso.
  unfold portableRunClone in E.
  destruct (assertPortableRunValue _ _ _ _ _) as [[]|] eqn:Ea; [|discriminate]. clear E.
  apply assertPortable_sound in Ea. revert Ea. generalize (json_copy h (S (size h)) (VRef l)).
  intros j' Hj. assert (exists js, j' = JObject js) as [js ->].
  { destruct j' as [| | | |js|js]; try done; [|eauto]. apply denotes_array in Hj as (? & ? & _). congruence. }
  pose proof Hj as Hd. apply denotes_object in Hj as (es & Hes & Hall).
  rewrite Hl in Hes. injection Hes as <-. apply list_elem_of_lookup in Hin as (i & Hi).
  destruct (Forall2_lookup_l _ _ _ _ _ Hall Hi) as ([k j2] & Hj2 & [_ Hv]).
  cbn in Hv. pose proof (denotes_fun h _ _ _ Hd Hv) as ->.
  pose proof (sum_list_with_elem (fun e => json_size e.2) js (k, JObject js)
    (list_elem_of_lookup_2 _ _ _ Hj2)) as Hs. cbn in Hs. lia.
Qed.

Lemma portableRunClone_refuses_self_reference_witness :
  let h : heap := {[0 := OPlain [("shared", VRef 1); ("again", VRef 1); ("self", VRef 0)];
                    1 := OArray [Some (VNumber (Some 1%Z)); None]]} in
  is_ok (portableRunClone h (VRef 0)) = false /\
  portableRunClone h (VRef 1) = Ok (JArray [JNumber 1; JNull]).
Proof.
  intros h. split; [|reflexivity].
  apply (portableRunClone_refuses_self_reference h 0
    [("shared", VRef 1); ("again", VRef 1); ("self", VRef 0)] "self"); [reflexivity|].
  right. right. left.
Defined.

(** The states of a run: a transition is refused exactly when it is neither
    the identity nor in the table; a run that succeeded or was cancelled stays
    so; every other state can be cancelled; and only a running run succeeds. *)
Theorem assertPlanRunTransition_table (from to : PlanRunState) :
  (is_ok (assertPlanRunTransition from to) = true <-> from = to \/ to ∈ TRANSITIONS from) /\
  (from = Succeeded \/ from = Cancelled ->
     is_ok (assertPlanRunTransition from to) = true -> to = from) /\
  (is_ok (assertPlanRunTransition from Cancelled) = true <-> from <> Succeeded) /\
  (is_ok (assertPlanRunTransition from Succeeded) = true <-> from = Running \/ from = Succeeded).
Proof.
  split.
  - unfold assertPlanRunTransition, throw_if, includes.
    destruct (bool_decide_reflect (from = to)); [naive_solver|].
    destruct (bool_decide_reflect (to ∈ TRANSITIONS from)); cbn; naive_solver.
  - split; [|split].
    + by intros [-> | ->]; destruct to.
    + by destruct from.
    + destruct from; cbn; naive_solver.
Qed.
