(* ===== verification/MemoryRunner.v ===== *)
(** * The process-local plan runner

    [services/actor-runner/src/memory-runner.ts].  Every part of a method that
    runs without interruption is one function on the state of the runner; the
    executor is outside, so the attempts in flight are part of the state and an
    event ends one with any outcome.  [now] and fresh identifiers are arguments. *)

From S2P Require Import Prelude Contracts Json Planner Registry Authorization Run.

Open Scope stdpp_scope.
Open Scope js_scope.

(** ** The material of a command *)

Section Material.
Context `{Collation}.

Definition ingredient_json (i : Ingredient) : json :=
  JObject (("predicate", JString (ig_predicate i)) ::
           match ig_artifactId i with Some a => [("artifactId", JString a)] | None => [] end).

Definition strings_json (l : list string) : json := JArray (JString <$> l).

Definition goalSpec_json (g : PlanRunGoalSpec) : json :=
  match g with
  | GoalExplore subject families =>
      JObject [("mode", JString "explore"); ("subject", ingredient_json subject);
               ("factFamilies", strings_json families)]
  | GoalOnly => JObject [("mode", JString "exact"); ("completion", JString "goal_only")]
  | GoalThenEnrich subject families =>
      JObject [("mode", JString "exact"); ("completion", JString "goal_then_enrich");
               ("subject", ingredient_json subject); ("factFamilies", strings_json families)]
  end.

Definition materialCommand (request : PlanRunStartRequest) : string :=
  stableJson (JObject ([("protocol", JString (sr_protocol request));
    ("skillRef", JString (sr_skillRef request));
    ("executionEnvironment", JString (environment_text (sr_executionEnvironment request)));
    ("ingredients", JArray (ingredient_json <$> sr_ingredients request));
    ("goals", strings_json (sr_goals request))] ++
    match sr_goalSpec request with Some g => [("goalSpec", goalSpec_json g)] | None => [] end ++
    [("parameters", JObject (sr_parameters request))])).
End Material.

(** ** Records *)

Record PlanRunRecord := {
  rr_runId : string;
  rr_revision : nat;
  rr_state : PlanRunState;
  rr_request : PlanRunStartRequest;
  rr_createdAt : string;
  rr_updatedAt : string;
  rr_checkpoints : list PlanRunCheckpoint;
  rr_progress : option json;
  rr_continuations : list PlanRunContinuation;
  rr_failure : option PlanRunFailure
}.

Definition handle (r : PlanRunRecord) : PlanRunHandle :=
  {| hd_runId := rr_runId r; hd_revision := rr_revision r; hd_state := rr_state r;
     hd_executionEnvironment := sr_executionEnvironment (rr_request r) |}.

(** The assignments to one record. *)
Definition moved (state : PlanRunState) (now : string) (r : PlanRunRecord) : PlanRunRecord :=
  {| rr_runId := rr_runId r; rr_revision := S (rr_revision r); rr_state := state;
     rr_request := rr_request r; rr_createdAt := rr_createdAt r; rr_updatedAt := now;
     rr_checkpoints := rr_checkpoints r; rr_progress := rr_progress r;
     rr_continuations := rr_continuations r; rr_failure := rr_failure r |}.
Definition with_progress (progress : json) (now : string) (r : PlanRunRecord) : PlanRunRecord :=
  {| rr_runId := rr_runId r; rr_revision := S (rr_revision r); rr_state := rr_state r;
     rr_request := rr_request r; rr_createdAt := rr_createdAt r; rr_updatedAt := now;
     rr_checkpoints := rr_checkpoints r; rr_progress := Some progress;
     rr_continuations := rr_continuations r; rr_failure := rr_failure r |}.
Definition with_continuations (cs : list PlanRunContinuation) (r : PlanRunRecord) : PlanRunRecord :=
  {| rr_runId := rr_runId r; rr_revision := rr_revision r; rr_state := rr_state r;
     rr_request := rr_request r; rr_createdAt := rr_createdAt r; rr_updatedAt := rr_updatedAt r;
     rr_checkpoints := rr_checkpoints r; rr_progress := rr_progress r;
     rr_continuations := cs; rr_failure := rr_failure r |}.
Definition with_checkpoint (c : PlanRunCheckpoint) (r : PlanRunRecord) : PlanRunRecord :=
  {| rr_runId := rr_runId r; rr_revision := rr_revision r; rr_state := rr_state r;
     rr_request := rr_request r; rr_createdAt := rr_createdAt r; rr_updatedAt := rr_updatedAt r;
     rr_checkpoints := rr_checkpoints r ++ [c]; rr_progress := rr_progress r;
     rr_continuations := rr_continuations r; rr_failure := rr_failure r |}.
Definition with_failure (f : PlanRunFailure) (r : PlanRunRecord) : PlanRunRecord :=
  {| rr_runId := rr_runId r; rr_revision := rr_revision r; rr_state := rr_state r;
     rr_request := rr_request r; rr_createdAt := rr_createdAt r; rr_updatedAt := rr_updatedAt r;
     rr_checkpoints := rr_checkpoints r; rr_progress := rr_progress r;
     rr_continuations := rr_continuations r; rr_failure := Some f |}.

Definition set_ct_state (s : ContinuationState) (c : PlanRunContinuation) : PlanRunContinuation :=
  {| ct_continuationId := ct_continuationId c; ct_kind := ct_kind c; ct_schema := ct_schema c;
     ct_subject := ct_subject c; ct_prompt := ct_prompt c; ct_persistence := ct_persistence c;
     ct_state := s |}.

Definition transition (r : PlanRunRecord) (state : PlanRunState) (now : string) :
    result PlanRunRecord :=
  _ ← assertPlanRunTransition (rr_state r) state; Ok (moved state now r).

(** ** Continuations *)

(** [findIndex]. *)
Fixpoint find_index {A} (p : A -> bool) (l : list A) : option nat :=
  match l with
  | [] => None
  | x :: l => if p x then Some 0 else S <$> find_index p l
  end.

Definition can_resume (c : PlanRunContinuation) : bool :=
  bool_decide (ct_state c = COpen) || bool_decide (ct_state c = CPostponed).

(** The continuation is an object of the record: the model keeps its position. *)
Definition requiredContinuation (r : PlanRunRecord) (continuationId : string) : result nat :=
  match find_index (fun c => bool_decide (ct_continuationId c = continuationId) && can_resume c)
          (rr_continuations r) with
  | None => Throw "continuation is not open"
  | Some i => Ok i
  end.

Definition assertContinuation (c : PlanRunContinuation) : result unit :=
  throw! negb (bool_decide (ct_state c = COpen)) as "executor continuation must be open";
  throw! bool_decide (ct_kind c = KSecret) && negb (bool_decide (ct_persistence c = MetadataOnly))
    as "secret continuation metadata cannot request artifact persistence";
  Ok tt.

Definition upsertContinuation (r : PlanRunRecord) (c : PlanRunContinuation) : PlanRunRecord :=
  match find_index (fun x => bool_decide (ct_continuationId x = ct_continuationId c))
          (rr_continuations r) with
  | None => with_continuations (rr_continuations r ++ [c]) r
  | Some i => with_continuations (<[i := c]> (rr_continuations r)) r
  end.

Definition set_resolved (i : option nat) (r : PlanRunRecord) : PlanRunRecord :=
  match i with
  | None => r
  | Some i => with_continuations (alter (set_ct_state CResolved) i (rr_continuations r)) r
  end.

(** ** Results *)

Definition appendCheckpoint (r : PlanRunRecord) (result_ : PlanRunExecutionResult)
    (checkpointId now : string) : result PlanRunRecord :=
  output ← match er_output result_ with
           | None => Ok None
           | Some output => Some <$> output
           end;
  Ok (with_checkpoint
    {| cp_checkpointId := checkpointId; cp_ordinal := length (rr_checkpoints r);
       cp_committedAt := now; cp_completedStepIds := default [] (er_completedStepIds result_);
       cp_artifactIds := default [] (er_artifactIds result_);
       cp_remainingGoals := default [] (er_remainingGoals result_);
       cp_registryRevision := default 0 (er_registryRevision result_);
       cp_policyDecisionIds := default [] (er_policyDecisionIds result_);
       cp_output := output |} r).

(** What happens to a record before an error is thrown stays: the record comes
    back with the outcome. *)
Definition applyResult (r : PlanRunRecord) (result_ : PlanRunExecutionResult)
    (resolved : option nat) (checkpointId now : string) : PlanRunRecord * result unit :=
  let remainingGoals := default [] (er_remainingGoals result_) in
  let commit r state :=
    match appendCheckpoint r result_ checkpointId now with
    | Throw m => (r, Throw m)
    | Ok r => match transition r state now with Throw m => (r, Throw m) | Ok r => (r, Ok tt) end
    end in
  match er_continuation result_ with
  | Some continuation =>
      match assertContinuation continuation with
      | Throw m => (r, Throw m)
      | Ok _ =>
          if bool_decide (remainingGoals = [])
          then (r, Throw "a continuation must retain at least one unfinished goal")
          else
            let other := match resolved with
                         | Some i => match rr_continuations r !! i with
                                     | Some c => negb (bool_decide (ct_continuationId c =
                                                   ct_continuationId continuation))
                                     | None => false
                                     end
                         | None => false
                         end in
            let r := if other then set_resolved resolved r else r in
            commit (upsertContinuation r continuation) WaitingForInput
      end
  | None =>
      if bool_decide (remainingGoals = [])
      then commit (set_resolved resolved r) Succeeded
      else (r, Throw ("executor left unmet goals: " +:+ join ", " remainingGoals))
  end.

Definition execution_failed (message : string) : PlanRunFailure :=
  {| fl_code := "EXECUTION_FAILED"; fl_message := message; fl_retryable := false |}.

(** The failure is assigned before the transition is attempted. *)
Definition fail_record (r : PlanRunRecord) (message now : string) : PlanRunRecord :=
  let r := with_failure (execution_failed message) r in
  match transition r Failed now with Ok r => r | Throw _ => r end.

(** ** The runner *)

(** What is to happen to a run: [#run] in the microtask queue, the first attempt
    being executed, an attempt of [resume] being executed, with the revision it started
    from and the position and kind of its continuation. *)
Inductive Job :=
| Queued (request : PlanRunStartRequest)
| Executing
| Resuming (revision : nat) (continuation : nat) (kind : ContinuationKind).

Record Runner := {
  mr_records : list (string * PlanRunRecord);
  mr_idempotency : list (string * (string * string));
  mr_jobs : list (string * Job)
}.

Definition new_runner : Runner := {| mr_records := []; mr_idempotency := []; mr_jobs := [] |}.

Definition set_record (runId : string) (r : PlanRunRecord) (s : Runner) : Runner :=
  {| mr_records := map_set runId r (mr_records s); mr_idempotency := mr_idempotency s;
     mr_jobs := mr_jobs s |}.
Definition set_jobs (jobs : list (string * Job)) (s : Runner) : Runner :=
  {| mr_records := mr_records s; mr_idempotency := mr_idempotency s; mr_jobs := jobs |}.
Definition add_job (runId : string) (job : Job) (s : Runner) : Runner :=
  set_jobs (mr_jobs s ++ [(runId, job)]) s.

Definition required (runId : string) (s : Runner) : result PlanRunRecord :=
  match map_get runId (mr_records s) with None => Throw "run not found" | Some r => Ok r end.

Definition idempotency_key (request : PlanRunStartRequest) : string :=
  let nul := String "000" "" in
  ap_subjectId (sc_principal (sr_security request)) +:+ nul +:+
  default "" (ac_tenantId (sc_access (sr_security request))) +:+ nul +:+
  sr_skillRef request +:+ nul +:+ sr_idempotencyKey request.

Definition new_record (request : PlanRunStartRequest) (runId now : string) : PlanRunRecord :=
  {| rr_runId := runId; rr_revision := 1; rr_state := Accepted; rr_request := request;
     rr_createdAt := now; rr_updatedAt := now; rr_checkpoints := []; rr_progress := None;
     rr_continuations := []; rr_failure := None |}.

(** [cloned] is what [portableRunClone] makes of the request. *)
Definition start `{Collation} (cloned : result PlanRunStartRequest) (runId now : string)
    (s : Runner) : result (PlanRunHandle * Runner) :=
  admitted ← cloned;
  throw! negb (bool_decide (sr_executionEnvironment admitted = Server))
    as "the server runner accepts only server placement";
  let key := idempotency_key admitted in
  let material := materialCommand admitted in
  match map_get key (mr_idempotency s) with
  | Some (previous, bound) =>
      throw! negb (bool_decide (bound = material))
        as "the idempotency key is already bound to another command";
      match map_get previous (mr_records s) with
      | None => Throw "the idempotency index references a missing run"
      | Some r => Ok (handle r, s)
      end
  | None =>
      let r := new_record admitted runId now in
      Ok (handle r,
          {| mr_records := map_set runId r (mr_records s);
             mr_idempotency := map_set key (runId, material) (mr_idempotency s);
             mr_jobs := mr_jobs s ++ [(runId, Queued admitted)] |})
  end.

Definition status (runId : string) (s : Runner) : option PlanRunRecord :=
  map_get runId (mr_records s).

(** [#run] up to its await: the microtask runs, and the attempt is in flight. *)
Definition run_begin (runId now : string) (s : Runner) : result Runner :=
  r ← required runId s;
  if negb (bool_decide (rr_state r = Accepted)) then Ok s
  else
    r ← transition r Planning now;
    r ← transition r Running now;
    Ok (add_job runId Executing (set_record runId r s)).

(** [reportProgress]. *)
Definition report_progress (runId : string) (progress : unknown) (now : string) (s : Runner) :
    result Runner :=
  r ← required runId s;
  throw! negb (bool_decide (rr_state r = Running)) as "the actor run is no longer active";
  progress ← progress;
  Ok (set_record runId (with_progress progress now r) s).

(** [#run] after its await: [outcome] is what the executor returned or the
    message of what it threw. *)
Definition run_end (runId : string) (outcome : result PlanRunExecutionResult)
    (checkpointId now : string) (s : Runner) : result Runner :=
  r ← required runId s;
  if bool_decide (rr_state r = Cancelled) then Ok s
  else
    let '(r, err) := match outcome with
                     | Throw m => (r, Throw m)
                     | Ok result_ => applyResult r result_ None checkpointId now
                     end in
    match err with
    | Ok _ => Ok (set_record runId r s)
    | Throw message => Ok (set_record runId (fail_record r message now) s)
    end.

(** [resume] up to its await: an answer at once, or an attempt in flight. *)
Definition resume (runId : string) (submission : PlanRunContinuationSubmission) (now : string)
    (s : Runner) : result (option PlanRunHandle * Runner) :=
  r ← required runId s;
  throw! negb (bool_decide (rr_state r = WaitingForInput)) as "the run is not waiting for input";
  i ← requiredContinuation r (submission_continuation submission);
  match submission with
  | Postpone _ _ =>
      let r := with_continuations (alter (set_ct_state CPostponed) i (rr_continuations r)) r in
      r ← transition r WaitingForInput now;
      Ok (Some (handle r), set_record runId r s)
  | Submit _ _ kind value_ =>
      throw! negb (bool_decide (Some kind = (ct_kind <$> rr_continuations r !! i)))
        as "continuation kind mismatch";
      _ ← value_;
      r ← transition r Running now;
      Ok (None, add_job runId (Resuming (rr_revision r) i kind) (set_record runId r s))
  end.

(** The [catch] of [resume]. *)
Definition resume_caught (runId : string) (kind : ContinuationKind) (now : string) (s : Runner)
    (r : PlanRunRecord) (message : string) : result (PlanRunHandle * Runner) :=
  if bool_decide (rr_state r = Running) then
    let message := if bool_decide (kind = KSecret) then "Secret continuation execution failed." else message in
    let r := with_failure (execution_failed message) r in
    r ← transition r Failed now;
    Ok (handle r, set_record runId r s)
  else Ok (handle r, set_record runId r s).

(** [resume] after its await. *)
Definition resume_end (runId : string) (revision i : nat) (kind : ContinuationKind)
    (outcome : result PlanRunExecutionResult) (checkpointId now : string) (s : Runner) :
    result (PlanRunHandle * Runner) :=
  r ← required runId s;
  match outcome with
  | Throw message => resume_caught runId kind now s r message
  | Ok result_ =>
      if bool_decide (rr_state r = Cancelled) then Ok (handle r, s)
      else if negb (Nat.eqb (rr_revision r) revision) || negb (bool_decide (rr_state r = Running))
      then resume_caught runId kind now s r "the actor run changed concurrently"
      else
        match applyResult r result_ (Some i) checkpointId now with
        | (r, Ok _) => Ok (handle r, set_record runId r s)
        | (r, Throw message) => resume_caught runId kind now s r message
        end
  end.

Definition cancel (runId now : string) (s : Runner) : result (PlanRunHandle * Runner) :=
  r ← required runId s;
  if bool_decide (rr_state r = Cancelled) then Ok (handle r, s)
  else
    _ ← assertPlanRunTransition (rr_state r) Cancelled;
    r ← transition r Cancelled now;
    Ok (handle r, set_record runId r s).

(** ** The events *)

(** Requests arrive, microtasks run and attempts end in any order and with any
    outcome.  A new run has an identifier no run has. *)
Inductive runner_step `{Collation} (s : Runner) : Runner -> Prop :=
| ev_start cloned runId now h s' :
    map_get runId (mr_records s) = None -> start cloned runId now s = Ok (h, s') ->
    runner_step s s'
| ev_begin pre post runId request now s' :
    mr_jobs s = pre ++ (runId, Queued request) :: post ->
    run_begin runId now (set_jobs (pre ++ post) s) = Ok s' -> runner_step s s'
| ev_progress runId progress now s' :
    report_progress runId progress now s = Ok s' -> runner_step s s'
| ev_end pre post runId outcome checkpointId now s' :
    mr_jobs s = pre ++ (runId, Executing) :: post ->
    run_end runId outcome checkpointId now (set_jobs (pre ++ post) s) = Ok s' -> runner_step s s'
| ev_resume runId submission now h s' :
    resume runId submission now s = Ok (h, s') -> runner_step s s'
| ev_resume_end pre post runId revision i kind outcome checkpointId now h s' :
    mr_jobs s = pre ++ (runId, Resuming revision i kind) :: post ->
    resume_end runId revision i kind outcome checkpointId now (set_jobs (pre ++ post) s) = Ok (h, s') ->
    runner_step s s'
| ev_cancel runId now h s' : cancel runId now s = Ok (h, s') -> runner_step s s'.

(** ** How a record advances *)

Definition legal (a b : PlanRunState) : Prop := b ∈ TRANSITIONS a.

Definition terminal (s : PlanRunState) : bool :=
  match s with Succeeded | Cancelled => true | _ => false end.

(** One event moves a record that is not terminal along legal transitions, to a
    higher revision; it keeps its identity and its command, and its checkpoints
    are only added to. *)
Record advanced (r r' : PlanRunRecord) : Prop := {
  av_runId : rr_runId r' = rr_runId r;
  av_request : rr_request r' = rr_request r;
  av_revision : rr_revision r < rr_revision r';
  av_states : rtc legal (rr_state r) (rr_state r');
  av_live : terminal (rr_state r) = false;
  av_checkpoints : exists more, rr_checkpoints r' = rr_checkpoints r ++ more
}.

(** What is true of a record between events. *)
Record record_ok (r : PlanRunRecord) : Prop := {
  rk_ordinals : forall i c, rr_checkpoints r !! i = Some c -> cp_ordinal c = i;
  rk_settled : rr_state r <> Planning;
  rk_waiting : rr_state r = WaitingForInput -> exists c, c ∈ rr_continuations r /\ can_resume c = true;
  rk_succeeded : rr_state r = Succeeded -> exists cs c,
    rr_checkpoints r = cs ++ [c] /\ cp_remainingGoals c = [];
  rk_failed : rr_state r = Failed -> is_Some (rr_failure r)
}.

Lemma transition_Ok r state now r' :
  transition r state now = Ok r' ->
  r' = moved state now r /\ (rr_state r = state \/ legal (rr_state r) state).
Proof.
  unfold transition, assertPlanRunTransition, throw_if, includes.
  case_bool_decide as E; [intros [= <-]; auto|]. case_bool_decide; cbn; [|discriminate].
  intros [= <-]. auto.
Qed.

Lemma transition_legal r state now :
  legal (rr_state r) state -> transition r state now = Ok (moved state now r).
Proof.
  intros Hl. unfold transition, assertPlanRunTransition, throw_if, includes.
  case_bool_decide; [done|]. by rewrite (bool_decide_true (state ∈ _)).
Qed.

Lemma legal_dec a b : includes (TRANSITIONS a) b = true -> legal a b.
Proof. by intros H%bool_decide_eq_true. Qed.

Ltac is_legal := apply legal_dec; reflexivity.

Lemma find_index_Some {A} (p : A -> bool) l i :
  find_index p l = Some i -> exists x, l !! i = Some x /\ p x = true.
Proof.
  revert i. induction l as [|x l IH]; intros i; cbn; [discriminate|].
  destruct (p x) eqn:E; [intros [= <-]; eauto|]. intros (k & Hk & ->)%fmap_Some. by apply IH.
Qed.

Lemma upsert_in r c : c ∈ rr_continuations (upsertContinuation r c).
Proof.
  unfold upsertContinuation. destruct (find_index _ _) as [i|] eqn:E; cbn.
  - apply find_index_Some in E as (x & Hx & _). apply list_elem_of_lookup. exists i.
    apply list_lookup_insert_eq. by eapply lookup_lt_Some.
  - apply elem_of_app. right. left.
Qed.

(** The parts of a record the assignments to continuations leave alone. *)
Record same_but_continuations (r r' : PlanRunRecord) : Prop := {
  sb_runId : rr_runId r' = rr_runId r;
  sb_revision : rr_revision r' = rr_revision r;
  sb_state : rr_state r' = rr_state r;
  sb_request : rr_request r' = rr_request r;
  sb_checkpoints : rr_checkpoints r' = rr_checkpoints r;
  sb_failure : rr_failure r' = rr_failure r
}.

Lemma same_refl r : same_but_continuations r r.
Proof. by split. Qed.

Lemma same_resolved i r : same_but_continuations r (set_resolved i r).
Proof. by destruct i; split. Qed.

Lemma same_upsert c r r' : same_but_continuations r r' -> same_but_continuations r (upsertContinuation r' c).
Proof. intros []. unfold upsertContinuation. by case_match; split. Qed.

Lemma appendCheckpoint_Ok r result_ checkpointId now r' :
  appendCheckpoint r result_ checkpointId now = Ok r' ->
  exists c, r' = with_checkpoint c r /\ cp_ordinal c = length (rr_checkpoints r) /\
    cp_remainingGoals c = default [] (er_remainingGoals result_).
Proof.
  unfold appendCheckpoint. destruct (er_output result_) as [[o|m]|]; cbn; [|discriminate|];
    intros [= <-]; (eexists; split; [reflexivity|by split]).
Qed.

(** [applyResult] on a running record. *)
Definition applied (r r' : PlanRunRecord) (result_ : PlanRunExecutionResult) : Prop :=
  exists c, rr_checkpoints r' = rr_checkpoints r ++ [c] /\
    cp_ordinal c = length (rr_checkpoints r) /\
    cp_remainingGoals c = default [] (er_remainingGoals result_) /\
    rr_runId r' = rr_runId r /\ rr_request r' = rr_request r /\
    rr_revision r' = S (rr_revision r) /\
    match er_continuation result_ with
    | Some k => rr_state r' = WaitingForInput /\ k ∈ rr_continuations r' /\ ct_state k = COpen /\
        cp_remainingGoals c <> []
    | None => rr_state r' = Succeeded /\ cp_remainingGoals c = []
    end.

Lemma commit_applied r r1 state result_ checkpointId now r' e :
  same_but_continuations r r1 -> legal (rr_state r) state ->
  match appendCheckpoint r1 result_ checkpointId now with
  | Throw m => (r1, Throw m)
  | Ok r => match transition r state now with Throw m => (r, Throw m) | Ok r => (r, Ok tt) end
  end = (r', e) ->
  match e with
  | Throw _ => same_but_continuations r r'
  | Ok _ => exists c, rr_checkpoints r' = rr_checkpoints r ++ [c] /\
      cp_ordinal c = length (rr_checkpoints r) /\
      cp_remainingGoals c = default [] (er_remainingGoals result_) /\
      rr_runId r' = rr_runId r /\ rr_request r' = rr_request r /\
      rr_revision r' = S (rr_revision r) /\ rr_state r' = state /\
      rr_continuations r' = rr_continuations r1
  end.
Proof.
  intros [] Hl. destruct (appendCheckpoint _ _ _ _) as [r2|m] eqn:Ea; [|by intros [= <- <-]].
  apply appendCheckpoint_Ok in Ea as (c & -> & Hord & Hrem).
  rewrite transition_legal by (by cbn; rewrite sb_state0). intros [= <- <-]. exists c. cbn. by repeat split; congruence.
Qed.

Lemma applyResult_running r result_ resolved checkpointId now r' e :
  rr_state r = Running -> applyResult r result_ resolved checkpointId now = (r', e) ->
  match e with
  | Ok _ => applied r r' result_
  | Throw _ => same_but_continuations r r'
  end.
Proof.
  intros Hr. unfold applyResult, applied. set (goals := default [] (er_remainingGoals result_)).
  destruct (er_continuation result_) as [k|] eqn:Ek.
  - destruct (assertContinuation k) as [[]|m] eqn:Ea; [|intros [= <- <-]; apply same_refl].
    assert (ct_state k = COpen) as Hopen.
    { unfold assertContinuation, throw_if in Ea. destruct (bool_decide_reflect (ct_state k = COpen)); done. }
    case_bool_decide as Hg; [intros [= <- <-]; apply same_refl|].
    match goal with |- context [upsertContinuation ?x k] => set (r1 := x) end.
    intros H. assert (same_but_continuations r (upsertContinuation r1 k)) as Hs.
    { apply same_upsert. subst r1. clear H.
      match goal with |- context [if ?b then _ else _] => destruct b end;
        [apply same_resolved|apply same_refl]. }
    assert (legal (rr_state r) WaitingForInput) as Hl by (rewrite Hr; is_legal).
    apply (commit_applied r) in H; [|done..].
    subst goals. destruct e; [|done]. destruct H as (c & ? & ? & ? & ? & ? & ? & ? & Hc). exists c.
    repeat split; try done; [rewrite Hc; apply upsert_in|congruence].
  - case_bool_decide as Hg; [|intros [= <- <-]; apply same_refl]. intros H.
    assert (legal (rr_state r) Succeeded) as Hl by (rewrite Hr; is_legal).
    apply (commit_applied r) in H; [|apply same_resolved|done].
    subst goals. destruct e; [|done]. destruct H as (c & ? & ? & ? & ? & ? & ? & ? & _). exists c.
    repeat split; congruence.
Qed.

Lemma same_advanced r r0 state now :
  same_but_continuations r r0 -> legal (rr_state r) state -> terminal (rr_state r) = false ->
  advanced r (moved state now r0).
Proof.
  intros [] Hl Ht. split; cbn; [congruence|congruence|lia| |done|].
  - by apply rtc_once.
  - exists []. by rewrite app_nil_r.
Qed.

Lemma fail_running r r0 message now :
  same_but_continuations r r0 -> rr_state r = Running -> record_ok r ->
  let r' := fail_record r0 message now in
  advanced r r' /\ record_ok r' /\ rr_state r' = Failed.
Proof.
  intros Hs Hr Hok. cbn. unfold fail_record.
  assert (legal (rr_state r) Failed) as Hl by (rewrite Hr; is_legal).
  rewrite transition_legal; [|cbn; by rewrite (sb_state _ _ Hs)].
  split; [|split; [|done]].
  - destruct Hs. split; cbn; [congruence|congruence|lia|by apply rtc_once|by rewrite Hr|].
    exists []. by rewrite app_nil_r.
  - split; cbn; [|done..|by eexists]. rewrite (sb_checkpoints _ _ Hs). apply Hok.
Qed.

Lemma applied_running r r' result_ :
  rr_state r = Running -> record_ok r -> applied r r' result_ ->
  advanced r r' /\ record_ok r' /\ (rr_state r' = WaitingForInput \/ rr_state r' = Succeeded).
Proof.
  intros Hr Hok (c & Hcp & Hord & Hrem & Hid & Hreq & Hrev & Hcase).
  assert (rr_state r' = WaitingForInput \/ rr_state r' = Succeeded) as Hst.
  { destruct (er_continuation result_); [left|right]; by destruct Hcase. }
  assert (forall i c', rr_checkpoints r' !! i = Some c' -> cp_ordinal c' = i) as Hords.
  { intros i c'. rewrite Hcp. intros [[_ Hi]|[-> <-]]%lookup_snoc_Some; [by apply Hok|done]. }
  split; [|split; [|done]].
  - split; [done|done|lia| |by rewrite Hr|by exists [c]].
    rewrite Hr. apply rtc_once. destruct Hst as [-> | ->]; is_legal.
  - split; [done| | | |].
    + destruct Hst as [-> | ->]; done.
    + intros E. destruct (er_continuation result_) as [k|].
      * destruct Hcase as (_ & Hk & Ho & _). exists k. split; [done|]. unfold can_resume.
        by rewrite bool_decide_true.
      * destruct Hcase. congruence.
    + intros E. destruct (er_continuation result_) as [k|].
      * destruct Hcase as (? & _). congruence.
      * destruct Hcase as [_ Hg]. exists (rr_checkpoints r), c. done.
    + intros E. destruct Hst; congruence.
Qed.

(** ** The invariant of the runner *)

Definition jobs_of (id : string) (jobs : list (string * Job)) : list Job :=
  (base.filter (fun j => j.1 = id) jobs).*2.

(** A run is in the queue, or in flight in exactly one attempt, or at rest; what
    is left of a cancelled run has no effect. *)
Definition job_ok (state : PlanRunState) (jobs : list Job) : Prop :=
  match state with
  | Accepted => exists request, jobs = [Queued request]
  | Running => exists job, jobs = [job] /\ forall request, job <> Queued request
  | Cancelled => True
  | _ => jobs = []
  end.

Record runner_ok `{Collation} (s : Runner) : Prop := {
  ok_records : forall id r, map_get id (mr_records s) = Some r ->
    rr_runId r = id /\ record_ok r /\ job_ok (rr_state r) (jobs_of id (mr_jobs s));
  ok_jobs : forall id job, (id, job) ∈ mr_jobs s -> is_Some (map_get id (mr_records s));
  ok_index : forall key id material, map_get key (mr_idempotency s) = Some (id, material) ->
    exists r, map_get id (mr_records s) = Some r /\ idempotency_key (rr_request r) = key /\
      materialCommand (rr_request r) = material;
  ok_bound : forall id r, map_get id (mr_records s) = Some r ->
    map_get (idempotency_key (rr_request r)) (mr_idempotency s) =
      Some (id, materialCommand (rr_request r))
}.

Lemma jobs_of_app id l k : jobs_of id (l ++ k) = jobs_of id l ++ jobs_of id k.
Proof. unfold jobs_of. by rewrite filter_app, fmap_app. Qed.

Lemma jobs_of_cons id id' job l :
  jobs_of id ((id', job) :: l) = if decide (id' = id) then job :: jobs_of id l else jobs_of id l.
Proof. unfold jobs_of. rewrite filter_cons. cbn. by case_decide. Qed.

Lemma jobs_of_none id jobs : (forall job, (id, job) ∉ jobs) -> jobs_of id jobs = [].
Proof.
  intros Hn. induction jobs as [|[id' job] jobs IH]; [done|]. rewrite jobs_of_cons, decide_False.
  - apply IH. intros job' ?. apply (Hn job'). by right.
  - intros ->. apply (Hn job). left.
Qed.

(** Taking a job out leaves the jobs of other runs, and all jobs are of runs. *)
Lemma take_job id id' job pre post :
  jobs_of id (pre ++ (id', job) :: post) =
  if decide (id' = id) then jobs_of id pre ++ job :: jobs_of id post else jobs_of id (pre ++ post).
Proof. rewrite !jobs_of_app, jobs_of_cons. by case_decide. Qed.

(** A job taken out is the only one of its run, unless the run is cancelled. *)
Lemma taken_job `{Collation} s pre id job post r :
  runner_ok s -> mr_jobs s = pre ++ (id, job) :: post -> map_get id (mr_records s) = Some r ->
  rr_state r <> Cancelled ->
  jobs_of id (pre ++ post) = [] /\
  rr_state r = match job with Queued _ => Accepted | _ => Running end.
Proof.
  intros Hok Hj Hr Hc. destruct (ok_records _ Hok id r Hr) as (_ & _ & Hjob).
  rewrite Hj, take_job, decide_True in Hjob by done.
  assert (forall x, jobs_of id pre ++ job :: jobs_of id post = [x] ->
    jobs_of id (pre ++ post) = [] /\ x = job) as Hone.
  { intros x. rewrite jobs_of_app. destruct (jobs_of id pre) as [|y l]; cbn.
    - by intros [= <- ->].
    - intros [= _ Hl]. by destruct l. }
  destruct (rr_state r); cbn in Hjob; try (by destruct (jobs_of id pre)); try done.
  - destruct Hjob as (rq & [? <-]%Hone). done.
  - destruct Hjob as (x & [? ->]%Hone & Hn). split; [done|]. destruct job; [by destruct (Hn request)|done..].
Qed.

Lemma runner_ok_set_jobs `{Collation} s jobs :
  runner_ok s -> (forall j, j ∈ jobs -> j ∈ mr_jobs s) ->
  (forall id r, map_get id (mr_records s) = Some r -> job_ok (rr_state r) (jobs_of id jobs)) ->
  runner_ok (set_jobs jobs s).
Proof.
  intros [Hr Hj Hi Hb] Hsub Hjobs. split; [|by intros id job ?%Hsub; apply (Hj id job)|done|done].
  intros id r Hget. destruct (Hr id r Hget) as (? & ? & _). auto.
Qed.

(** One run advances and the jobs of the others stay. *)
Lemma runner_ok_advance `{Collation} s id r r' jobs :
  runner_ok s -> map_get id (mr_records s) = Some r -> advanced r r' -> record_ok r' ->
  (forall id', id' <> id -> jobs_of id' jobs = jobs_of id' (mr_jobs s)) ->
  (forall id' job, (id', job) ∈ jobs -> id' = id \/ (id', job) ∈ mr_jobs s) ->
  job_ok (rr_state r') (jobs_of id jobs) -> runner_ok (set_jobs jobs (set_record id r' s)).
Proof.
  intros [Hr Hj Hi Hb] Hget [Hid Hreq _ _ _ _] Hok Hother Hfrom Hjob.
  split; cbn [set_jobs set_record mr_records mr_jobs mr_idempotency].
  - intros id' x. rewrite map_get_set. case_decide as E; [subst|].
    + intros [= <-]. destruct (Hr id r Hget) as (<- & _). done.
    + intros Hx. destruct (Hr id' x Hx) as (? & ? & ?). by rewrite Hother.
  - intros id' job Hin. rewrite map_get_set. case_decide; [done|].
    apply Hfrom in Hin as [->|Hin]; [done|by apply (Hj id' job)].
  - intros key id' material Hk. destruct (Hi key id' material Hk) as (x & Hx & Hkey & Hm).
    rewrite map_get_set. case_decide as E; [subst id'|by exists x].
    assert (x = r) as -> by congruence. exists r'. rewrite Hreq. done.
  - intros id' x. rewrite map_get_set. case_decide as E; [subst|by apply Hb].
    intros [= <-]. rewrite Hreq. by apply Hb.
Qed.

(** ** Each event *)

(** No run is lost, and each is left alone or advances. *)
Definition evolves (s s' : Runner) : Prop :=
  forall id r, map_get id (mr_records s) = Some r ->
    exists r', map_get id (mr_records s') = Some r' /\ (r' = r \/ advanced r r').

Lemma evolves_same s s' : mr_records s' = mr_records s -> evolves s s'.
Proof. intros E id r Hr. exists r. rewrite E. auto. Qed.

Lemma evolves_set s id r r' jobs :
  map_get id (mr_records s) = Some r -> advanced r r' ->
  evolves s (set_jobs jobs (set_record id r' s)).
Proof.
  intros Hr Ha id' x Hx. cbn. rewrite map_get_set. case_decide as E; [subst|by exists x; auto].
  exists r'. split; [done|]. right. congruence.
Qed.

Lemma required_Ok id s r : required id s = Ok r <-> map_get id (mr_records s) = Some r.
Proof. unfold required. destruct (map_get _ _); split; intros [= ->]; done. Qed.

Lemma set_record_same id r s : map_get id (mr_records s) = Some r -> set_record id r s = s.
Proof. intros Hr. unfold set_record. rewrite map_set_same by done. by destruct s. Qed.

Section Events.
Context `{Collation}.

Lemma start_ok s cloned id now h s' :
  runner_ok s -> map_get id (mr_records s) = None -> start cloned id now s = Ok (h, s') ->
  runner_ok s' /\ evolves s s'.
Proof.
  intros Hok Hnew. unfold start. destruct cloned as [rq|]; [|discriminate]. cbn [mbind result_bind].
  unfold throw_if. destruct (bool_decide _); [|discriminate]. cbn [mbind result_bind negb].
  destruct (map_get (idempotency_key rq) (mr_idempotency s)) as [[prev bound]|] eqn:Ei.
  { destruct (bool_decide _); [|discriminate]. cbn.
    destruct (map_get prev _); [|discriminate]. intros [= _ <-]. split; [done|by apply evolves_same]. }
  intros [= _ <-]. destruct Hok as [Hr Hj Hi Hb].
  assert (jobs_of id (mr_jobs s) = []) as Hnone.
  { apply jobs_of_none. intros job Hin. destruct (Hj id job Hin). congruence. }
  split.
  - split; cbn [mr_records mr_idempotency mr_jobs].
    + intros id' r. rewrite map_get_set, jobs_of_app, jobs_of_cons. case_decide as E; [subst id'|].
      * intros [= <-]. rewrite decide_True, Hnone by done. split; [done|].
        split; [by split|by exists rq].
      * intros Hx. rewrite decide_False by done. rewrite app_nil_r. auto.
    + intros id' job [Hin|[= -> _]%list_elem_of_singleton]%elem_of_app; rewrite map_get_set;
        case_decide; try done. by apply (Hj id' job).
    + intros key id' material. rewrite map_get_set. case_decide as E; [subst key|].
      * intros [= <- <-]. exists (new_record rq id now). by rewrite map_get_set_eq.
      * intros Hk. destruct (Hi _ _ _ Hk) as (x & Hx & ?). exists x.
        rewrite map_get_set_ne; [done|]. congruence.
    + intros id' r. rewrite map_get_set. case_decide as E; [subst id'|].
      * intros [= <-]. by rewrite map_get_set_eq.
      * intros Hx. pose proof (Hb id' r Hx) as Hk. rewrite map_get_set_ne; [done|]. congruence.
  - intros id' r Hx. exists r. cbn. rewrite map_get_set_ne; [auto|congruence].
Qed.

(** A handler that takes the only job of a run and moves the run on. *)
Lemma advance_ok s id r r' pre job post new :
  runner_ok s -> mr_jobs s = pre ++ (id, job) :: post -> map_get id (mr_records s) = Some r ->
  rr_state r <> Cancelled -> advanced r r' -> record_ok r' ->
  job_ok (rr_state r') new ->
  let s' := set_jobs (pre ++ post ++ ((fun j => (id, j)) <$> new)) (set_record id r' s) in
  runner_ok s' /\ evolves s s'.
Proof.
  intros Hok Hj Hr Hc Ha Hro Hjob s'. destruct (taken_job _ _ _ _ _ _ Hok Hj Hr Hc) as [Hnone _].
  assert (forall id', jobs_of id' ((fun j => (id, j)) <$> new) = if decide (id = id') then new else []) as Hn.
  { clear. intros id'. induction new as [|j new IH]; [by case_decide|].
    rewrite fmap_cons, jobs_of_cons, IH. by case_decide. }
  split; [|by apply evolves_set with r].
  apply (runner_ok_advance s id r r'); [done..| | |].
  - intros id' Hne. rewrite app_assoc, jobs_of_app, Hn, decide_False by congruence.
    by rewrite Hj, take_job, decide_False, app_nil_r by congruence.
  - intros id' j. rewrite Hj, !elem_of_app, elem_of_cons.
    intros [?|[?|(x & [= -> ->] & _)%list_elem_of_fmap]]; auto.
  - by rewrite app_assoc, jobs_of_app, Hn, decide_True, Hnone.
Qed.

Lemma dropped_ok s id r pre job post :
  runner_ok s -> mr_jobs s = pre ++ (id, job) :: post -> map_get id (mr_records s) = Some r ->
  rr_state r = Cancelled -> runner_ok (set_jobs (pre ++ post) s) /\ evolves s (set_jobs (pre ++ post) s).
Proof.
  intros Hok Hj Hr Hc. split; [|by apply evolves_same]. apply runner_ok_set_jobs; [done| |].
  - intros j. rewrite Hj, !elem_of_app, elem_of_cons. tauto.
  - intros id' x Hx. destruct (decide (id' = id)) as [->|Hne].
    + assert (x = r) as -> by congruence. by rewrite Hc.
    + destruct (ok_records _ Hok id' x Hx) as (_ & _ & Hjob).
      rewrite Hj, take_job, decide_False in Hjob by congruence. done.
Qed.

(** A handler that keeps the jobs. *)
Lemma advance_in_place s id r r' :
  runner_ok s -> map_get id (mr_records s) = Some r -> advanced r r' -> record_ok r' ->
  job_ok (rr_state r') (jobs_of id (mr_jobs s)) ->
  runner_ok (set_record id r' s) /\ evolves s (set_record id r' s).
Proof.
  intros Hok Hr Ha Hro Hjob.
  change (set_record id r' s) with (set_jobs (mr_jobs s) (set_record id r' s)).
  split; [|by apply evolves_set with r].
  apply (runner_ok_advance s id r r'); auto.
Qed.

(** At rest: waiting for input, succeeded or failed. *)
Definition settled (state : PlanRunState) : Prop :=
  state = WaitingForInput \/ state = Succeeded \/ state = Failed.

Lemma settled_job state : settled state -> job_ok state [].
Proof. by intros [-> | [-> | ->]]. Qed.

Lemma running_ok r r' :
  record_ok r -> rr_checkpoints r' = rr_checkpoints r -> rr_state r' = Running -> record_ok r'.
Proof. intros [Ho _ _ _ _] Hc Hs. split; rewrite ?Hs, ?Hc; done. Qed.

Lemma begin_ok s pre post id rq now s' :
  runner_ok s -> mr_jobs s = pre ++ (id, Queued rq) :: post ->
  run_begin id now (set_jobs (pre ++ post) s) = Ok s' -> runner_ok s' /\ evolves s s'.
Proof.
  intros Hok Hj. unfold run_begin.
  destruct (required id _) as [r|] eqn:Hr; [|discriminate]. apply required_Ok in Hr. cbn in Hr.
  cbn [mbind result_bind]. destruct (bool_decide_reflect (rr_state r = Accepted)) as [Hacc|Hacc]; cbn [negb].
  - rewrite transition_legal by (rewrite Hacc; is_legal). cbn [mbind result_bind].
    rewrite transition_legal by (cbn; is_legal). cbn [mbind result_bind]. intros [= <-].
    destruct (ok_records _ Hok id r Hr) as (_ & Hro & _).
    destruct (advance_ok s id r (moved Running now (moved Planning now r)) pre (Queued rq) post
      [Executing]) as [Ha Hb]; [done..|by rewrite Hacc| | |by exists Executing|].
    + split; cbn; [done|done|lia| |by rewrite Hacc|exists []; by rewrite app_nil_r].
      rewrite Hacc. apply rtc_l with Planning; [is_legal|apply rtc_once; is_legal].
    + by apply running_ok with r.
    + rewrite app_assoc in Ha, Hb. done.
  - intros [= <-]. apply (dropped_ok s id r pre (Queued rq) post); [done..|].
    destruct (decide (rr_state r = Cancelled)) as [|Hc]; [done|].
    by destruct (taken_job _ _ _ _ _ _ Hok Hj Hr Hc).
Qed.

Lemma progress_ok s id progress now s' :
  runner_ok s -> report_progress id progress now s = Ok s' -> runner_ok s' /\ evolves s s'.
Proof.
  intros Hok. unfold report_progress, throw_if.
  destruct (required id s) as [r|] eqn:Hr; [|discriminate]. apply required_Ok in Hr.
  cbn [mbind result_bind]. destruct (bool_decide_reflect (rr_state r = Running)) as [Hrun|]; [|discriminate].
  cbn [negb mbind result_bind]. destruct progress as [p|]; [|discriminate]. intros [= <-].
  destruct (ok_records _ Hok id r Hr) as (_ & Hro & Hjob).
  apply advance_in_place with r; [done|done| | |by cbn; rewrite Hrun in *].
  - split; cbn; [done|done|lia|done|by rewrite Hrun|exists []; by rewrite app_nil_r].
  - by apply running_ok with r.
Qed.

(** The end of an attempt settles a running record. *)
Lemma outcome_settles r result_ resolved checkpointId now r' e :
  rr_state r = Running -> record_ok r ->
  applyResult r result_ resolved checkpointId now = (r', e) ->
  match e with
  | Ok _ => advanced r r' /\ record_ok r' /\ settled (rr_state r')
  | Throw _ => same_but_continuations r r'
  end.
Proof.
  intros Hr Hok Ha. apply applyResult_running in Ha; [|done]. destruct e as [[]|]; [|done].
  apply applied_running in Ha as (? & ? & [E|E]); [..|done|done];
    (split; [done|]; split; [done|]; rewrite E; unfold settled; auto).
Qed.

Lemma finish_ok s pre job post id r r' :
  runner_ok s -> mr_jobs s = pre ++ (id, job) :: post -> map_get id (mr_records s) = Some r ->
  rr_state r = Running -> advanced r r' -> record_ok r' -> settled (rr_state r') ->
  let s' := set_record id r' (set_jobs (pre ++ post) s) in runner_ok s' /\ evolves s s'.
Proof.
  intros Hok Hj Hr Hrun Ha Hro Hst.
  destruct (advance_ok s id r r' pre job post []) as [H1 H2];
    [done..|by rewrite Hrun|done|done|by apply settled_job|].
  cbn [fmap list_fmap] in H1, H2. by rewrite app_nil_r in H1, H2.
Qed.

Lemma run_end_ok s pre post id outcome checkpointId now s' :
  runner_ok s -> mr_jobs s = pre ++ (id, Executing) :: post ->
  run_end id outcome checkpointId now (set_jobs (pre ++ post) s) = Ok s' ->
  runner_ok s' /\ evolves s s'.
Proof.
  intros Hok Hj. unfold run_end.
  destruct (required id _) as [r|] eqn:Hr; [|discriminate]. apply required_Ok in Hr. cbn in Hr.
  cbn [mbind result_bind]. case_bool_decide as Hc.
  { intros [= <-]. by apply (dropped_ok s id r pre Executing post). }
  destruct (taken_job _ _ _ _ _ _ Hok Hj Hr Hc) as [_ Hrun]. cbn in Hrun.
  destruct (ok_records _ Hok id r Hr) as (_ & Hro & _).
  assert (forall r0 m, same_but_continuations r r0 ->
    let s' := set_record id (fail_record r0 m now) (set_jobs (pre ++ post) s) in
    runner_ok s' /\ evolves s s') as Hfail.
  { intros r0 m Hs. destruct (fail_running r r0 m now Hs Hrun Hro) as (? & ? & E).
    apply (finish_ok s pre Executing post id r); [done..|]. rewrite E. unfold settled. auto. }
  destruct outcome as [result_|m]; [|intros [= <-]; apply Hfail, same_refl].
  destruct (applyResult r result_ None checkpointId now) as [r' e] eqn:Ea.
  apply outcome_settles in Ea; [|done..]. destruct e as [[]|m]; intros [= <-]; [|by apply Hfail].
  destruct Ea as (? & ? & ?). by apply (finish_ok s pre Executing post id r).
Qed.

Lemma resume_ok s id submission now h s' :
  runner_ok s -> resume id submission now s = Ok (h, s') -> runner_ok s' /\ evolves s s'.
Proof.
  intros Hok. unfold resume, throw_if.
  destruct (required id s) as [r|] eqn:Hr; [|discriminate]. apply required_Ok in Hr.
  cbn [mbind result_bind]. destruct (bool_decide_reflect (rr_state r = WaitingForInput)) as [Hw|]; [|discriminate].
  cbn [negb mbind result_bind]. destruct (ok_records _ Hok id r Hr) as (_ & Hro & Hjob).
  destruct (requiredContinuation r _) as [i|] eqn:Ei; [|discriminate]. cbn [mbind result_bind].
  destruct submission as [rq cid|rq cid kind v].
  - unfold transition, assertPlanRunTransition. cbn [with_continuations rr_state].
    rewrite bool_decide_true by done. cbn [mbind result_bind]. intros [= _ <-].
    apply advance_in_place with r; [done|done| | |by cbn; rewrite Hw in Hjob].
    + split; cbn; [done|done|lia|by rewrite Hw|by rewrite Hw|exists []; by rewrite app_nil_r].
    + split; cbn; [apply Hro|done| |done|done]. intros _.
      unfold requiredContinuation in Ei. destruct (find_index _ _) as [i'|] eqn:Ef; [|discriminate].
      injection Ei as ->. apply find_index_Some in Ef as (c & Hc & _).
      exists (set_ct_state CPostponed c). split; [|done]. apply list_elem_of_lookup. exists i.
      by rewrite list_lookup_alter_eq, Hc.
  - destruct (bool_decide _); [|discriminate]. cbn [negb mbind result_bind].
    destruct v as [v|]; [|discriminate]. cbn [mbind result_bind].
    rewrite transition_legal by (rewrite Hw; is_legal). cbn [mbind result_bind]. intros [= _ <-].
    set (r' := moved Running now r).
    assert (advanced r r') as Ha.
    { apply same_advanced; [apply same_refl|rewrite Hw; is_legal|by rewrite Hw]. }
    split; [|by apply evolves_set with r].
    rewrite Hw in Hjob. cbn in Hjob. unfold add_job.
    apply (runner_ok_advance s id r r'); [done|done|done|by apply running_ok with r|..]; cbn [set_record mr_jobs r' moved rr_state rr_revision job_ok].
    + intros id' Hne. by rewrite jobs_of_app, jobs_of_cons, decide_False, app_nil_r by congruence.
    + intros id' job [?|[= -> _]%list_elem_of_singleton]%elem_of_app; auto.
    + rewrite jobs_of_app, jobs_of_cons, decide_True, Hjob by done. by eexists.
Qed.

Lemma resume_end_ok s pre post id revision i kind outcome checkpointId now h s' :
  runner_ok s -> mr_jobs s = pre ++ (id, Resuming revision i kind) :: post ->
  resume_end id revision i kind outcome checkpointId now (set_jobs (pre ++ post) s) = Ok (h, s') ->
  runner_ok s' /\ evolves s s'.
Proof.
  intros Hok Hj. unfold resume_end.
  destruct (required id _) as [r|] eqn:Hr; [|discriminate]. apply required_Ok in Hr. cbn in Hr.
  cbn [mbind result_bind]. destruct (decide (rr_state r = Cancelled)) as [Hc|Hc].
  { unfold resume_caught. rewrite !(bool_decide_false (rr_state r = Running)),
      (bool_decide_true (rr_state r = Cancelled)) by congruence.
    destruct (dropped_ok s id r pre _ post Hok Hj Hr Hc) as [Hd He].
    rewrite set_record_same by done. by destruct outcome; intros [= _ <-]. }
  destruct (taken_job _ _ _ _ _ _ Hok Hj Hr Hc) as [_ Hrun]. cbn in Hrun.
  destruct (ok_records _ Hok id r Hr) as (_ & Hro & _).
  assert (forall r0 m, same_but_continuations r r0 ->
    resume_caught id kind now (set_jobs (pre ++ post) s) r0 m = Ok (h, s') ->
    runner_ok s' /\ evolves s s') as Hcaught.
  { intros r0 m Hs. unfold resume_caught. rewrite bool_decide_true by (by rewrite (sb_state _ _ Hs)).
    set (m' := if bool_decide _ then _ else _).
    destruct (fail_running r r0 m' now Hs Hrun Hro) as (Ha & Hro' & E).
    unfold fail_record in Ha, Hro', E. destruct (transition _ _ _) as [r'|]; [|discriminate].
    intros [= _ <-]. apply (finish_ok s pre (Resuming revision i kind) post id r); [done..|]. rewrite E.
    unfold settled. auto. }
  destruct outcome as [result_|m]; [|intros; eapply Hcaught; [apply same_refl|done]].
  rewrite bool_decide_false by done. case_match; [intros; eapply Hcaught; [apply same_refl|done]|].
  destruct (applyResult r result_ (Some i) checkpointId now) as [r' e] eqn:Ea.
  apply outcome_settles in Ea; [|done..]. destruct e as [[]|m].
  - intros [= _ <-]. destruct Ea as (? & ? & ?). by apply (finish_ok s pre (Resuming revision i kind) post id r).
  - by apply Hcaught.
Qed.

Lemma fail_state r r0 m now :
  same_but_continuations r r0 -> rr_state r = Running -> record_ok r ->
  settled (rr_state (fail_record r0 m now)).
Proof.
  intros Hs Hrun Hro. destruct (fail_running r r0 m now Hs Hrun Hro) as (_ & _ & ->).
  unfold settled. auto.
Qed.

Lemma run_end_total id outcome checkpointId now s r :
  required id s = Ok r -> rr_state r = Running -> record_ok r ->
  exists r', run_end id outcome checkpointId now s = Ok (set_record id r' s) /\ settled (rr_state r').
Proof.
  intros Hr Hrun Hro. unfold run_end. rewrite Hr. cbn [mbind result_bind].
  rewrite bool_decide_false by congruence.
  destruct outcome as [result_|m]; [|eexists; split; [done|by apply fail_state with r; [apply same_refl|..]]].
  destruct (applyResult r result_ None checkpointId now) as [r' e] eqn:Ea.
  apply outcome_settles in Ea; [|done..]. destruct e as [[]|m]; eexists; (split; [done|]).
  - apply Ea.
  - by apply fail_state with r.
Qed.

Lemma resume_caught_total id kind now s r r0 m :
  same_but_continuations r r0 -> rr_state r = Running -> record_ok r ->
  exists r', resume_caught id kind now s r0 m = Ok (handle r', set_record id r' s) /\
    settled (rr_state r').
Proof.
  intros Hs Hrun Hro. unfold resume_caught. rewrite bool_decide_true by (by rewrite (sb_state _ _ Hs)).
  rewrite transition_legal by (cbn; rewrite (sb_state _ _ Hs), Hrun; is_legal).
  eexists. split; [done|]. unfold settled. cbn. auto.
Qed.

Lemma resume_end_total id revision i kind outcome checkpointId now s r :
  required id s = Ok r -> rr_state r = Running -> record_ok r ->
  exists r', resume_end id revision i kind outcome checkpointId now s =
    Ok (handle r', set_record id r' s) /\ settled (rr_state r').
Proof.
  intros Hr Hrun Hro. unfold resume_end. rewrite Hr. cbn [mbind result_bind].
  rewrite bool_decide_false by congruence.
  destruct outcome as [result_|m]; [|apply resume_caught_total with r; [apply same_refl|done..]].
  case_match; [apply resume_caught_total with r; [apply same_refl|done..]|].
  destruct (applyResult r result_ (Some i) checkpointId now) as [r' e] eqn:Ea.
  apply outcome_settles in Ea; [|done..]. destruct e as [[]|m].
  - exists r'. split; [done|apply Ea].
  - by apply resume_caught_total with r.
Qed.

Lemma cancel_ok s id now h s' :
  runner_ok s -> cancel id now s = Ok (h, s') -> runner_ok s' /\ evolves s s'.
Proof.
  intros Hok. unfold cancel. destruct (required id s) as [r|] eqn:Hr; [|discriminate].
  apply required_Ok in Hr. cbn [mbind result_bind].
  case_bool_decide as Hc; [intros [= _ <-]; split; [done|by apply evolves_same]|].
  destruct (assertPlanRunTransition _ _) as [[]|] eqn:Ea; [|discriminate]. cbn [mbind result_bind].
  destruct (transition r Cancelled now) as [r'|] eqn:Et; [|discriminate]. intros [= _ <-].
  apply transition_Ok in Et as [-> [?|Hl]]; [done|].
  assert (terminal (rr_state r) = false) as Ht.
  { by destruct (rr_state r). }
  destruct (ok_records _ Hok id r Hr) as (_ & Hro & _).
  apply advance_in_place with r; [done|done| | |done].
  - apply same_advanced; [apply same_refl|done|done].
  - split; cbn; [apply Hro|done..].
Qed.

Lemma runner_step_ok s s' : runner_ok s -> runner_step s s' -> runner_ok s' /\ evolves s s'.
Proof.
  intros Hok [].
  - by eapply start_ok.
  - by eapply begin_ok.
  - by eapply progress_ok.
  - by eapply run_end_ok.
  - by eapply resume_ok.
  - by eapply resume_end_ok.
  - by eapply cancel_ok.
Qed.

Lemma new_runner_ok : runner_ok new_runner.
Proof.
  split; cbn; [by intros ? ? [=]|by intros ? ? ?%not_elem_of_nil|by intros ? ? ? [=]|by intros ? ? [=]].
Qed.

Lemma reachable_ok s : rtc runner_step new_runner s -> runner_ok s.
Proof.
  intros Hs. pose proof new_runner_ok as H0. revert H0.
  induction Hs as [|s1 s2 s3 Hstep _ IH]; [done|]. intros Hok. apply IH.
  by apply (runner_step_ok s1 s2).
Qed.
End Events.

(** ** Properties *)

(** Whatever the order of events and the answers of executors, every run of
    the runner is filed under its identity; its checkpoints are numbered in
    order; a run that waits has a continuation to resume it with; a run that
    succeeded has a last checkpoint without open goals; a run that failed says
    why; a queued run is queued once and a running one has exactly one attempt
    in flight; and the idempotency index holds exactly the existing runs. *)
Theorem runner_invariant `{Collation} (s : Runner) : rtc runner_step new_runner s -> runner_ok s.
Proof. apply reachable_ok. Qed.

(** Runs only move forward.  An event leaves a run untouched or takes it,
    along the legal transitions, to a higher revision with the same command and
    all its checkpoints; so two readings of a run with one revision are the same
    record. *)
Theorem runner_moves_forward `{Collation} (s s' : Runner) (id : string) (r : PlanRunRecord) :
  rtc runner_step new_runner s -> runner_step s s' -> map_get id (mr_records s) = Some r ->
  exists r', map_get id (mr_records s') = Some r' /\
    (r' = r \/ rr_revision r < rr_revision r') /\
    rtc legal (rr_state r) (rr_state r') /\ rr_request r' = rr_request r /\
    exists more, rr_checkpoints r' = rr_checkpoints r ++ more.
Proof.
  intros Hs Hstep Hr. destruct (runner_step_ok s s' (reachable_ok s Hs) Hstep) as [_ He].
  destruct (He id r Hr) as (r' & Hr' & [->|[]]); [|by eauto 10].
  exists r. split; [done|]. split; [auto|]. split; [done|]. split; [done|].
  exists []. by rewrite app_nil_r.
Qed.

(** Cancelling is final, and so is success: once a run has ended so, its
    record never changes again, however late an attempt still in flight returns,
    throws or reports progress. *)
Theorem terminal_runs_are_frozen `{Collation} (s s' : Runner) (id : string) (r : PlanRunRecord) :
  rtc runner_step new_runner s -> rtc runner_step s s' ->
  map_get id (mr_records s) = Some r -> terminal (rr_state r) = true ->
  map_get id (mr_records s') = Some r.
Proof.
  intros Hs Hsteps Hr Ht. pose proof (reachable_ok s Hs) as Hok. clear Hs.
  induction Hsteps as [|s1 s2 s3 Hstep _ IH]; [done|].
  destruct (runner_step_ok s1 s2 Hok Hstep) as [Hok2 He].
  destruct (He id r Hr) as (r' & Hr' & [->|[]]); [by apply IH|congruence].
Qed.

(** No run is left running: for a running run there is an attempt in flight,
    and whatever it ends with, the run then waits for input, has succeeded or
    has failed. *)
Theorem running_attempts_settle `{Collation} (s : Runner) (id : string) (r : PlanRunRecord) :
  rtc runner_step new_runner s -> map_get id (mr_records s) = Some r -> rr_state r = Running ->
  exists pre job post, mr_jobs s = pre ++ (id, job) :: post /\
    forall outcome checkpointId now,
      let rest := set_jobs (pre ++ post) s in
      match job with
      | Queued _ => False
      | Executing => exists s' r', run_end id outcome checkpointId now rest = Ok s' /\
          map_get id (mr_records s') = Some r' /\ settled (rr_state r')
      | Resuming revision i kind => exists h s' r',
          resume_end id revision i kind outcome checkpointId now rest = Ok (h, s') /\
          map_get id (mr_records s') = Some r' /\ settled (rr_state r') /\ h = handle r'
      end.
Proof.
  intros Hs Hr Hrun. pose proof (reachable_ok s Hs) as Hok.
  destruct (ok_records _ Hok id r Hr) as (_ & Hro & Hjob). rewrite Hrun in Hjob.
  destruct Hjob as (job & Hjobs & Hnq).
  assert ((id, job) ∈ mr_jobs s) as (pre & post & Hj)%list_elem_of_split.
  { assert (job ∈ jobs_of id (mr_jobs s)) as Hin by (rewrite Hjobs; left).
    unfold jobs_of in Hin. apply list_elem_of_fmap in Hin as ([id' job'] & -> & Hin).
    apply list_elem_of_filter in Hin as [E ?]. cbn in *. by subst. }
  exists pre, job, post. split; [done|]. intros outcome checkpointId now rest.
  assert (required id rest = Ok r) as Hreq by by apply required_Ok.
  destruct job as [rq| |revision i kind]; [by destruct (Hnq rq)| |].
  - destruct (run_end_total id outcome checkpointId now rest r Hreq Hrun Hro) as (r' & E & Hst).
    exists (set_record id r' rest), r'. split; [done|]. split; [apply map_get_set_eq|done].
  - destruct (resume_end_total id revision i kind outcome checkpointId now rest r Hreq Hrun Hro)
      as (r' & E & Hst).
    exists (handle r'), (set_record id r' rest), r'. split; [done|].
    split; [apply map_get_set_eq|done].
Qed.

(** One command, one run: runs that are bound to one idempotency key are the
    same run, and starting a bound key again changes nothing, answering with the
    run if the command is materially the same and refusing it otherwise. *)
Theorem start_is_idempotent `{Collation} (s : Runner) :
  rtc runner_step new_runner s ->
  (forall id1 id2 r1 r2,
     map_get id1 (mr_records s) = Some r1 -> map_get id2 (mr_records s) = Some r2 ->
     idempotency_key (rr_request r1) = idempotency_key (rr_request r2) -> id1 = id2) /\
  (forall id r request runId now,
     map_get id (mr_records s) = Some r -> sr_executionEnvironment request = Server ->
     idempotency_key request = idempotency_key (rr_request r) ->
     start (Ok request) runId now s =
       if decide (materialCommand (rr_request r) = materialCommand request) then Ok (handle r, s)
       else Throw "the idempotency key is already bound to another command").
Proof.
  intros Hs%reachable_ok. split.
  - intros id1 id2 r1 r2 H1 H2 E. pose proof (ok_bound _ Hs id1 r1 H1) as B1.
    pose proof (ok_bound _ Hs id2 r2 H2) as B2. rewrite E in B1. congruence.
  - intros id r request runId now Hr Henv E. unfold start. cbn [mbind result_bind].
    rewrite Henv. cbn [bool_decide negb throw_if mbind result_bind].
    rewrite E, (ok_bound _ Hs id r Hr). unfold throw_if.
    case_decide as Hm; [rewrite bool_decide_true by done; cbn; by rewrite Hr|].
    by rewrite bool_decide_false.
Qed.

(** A reporter is not tied to its attempt: progress reported for a run that
    is being resumed (by the first attempt, which kept its reporter) is accepted,
    and makes the resumed attempt fail the run whatever result it returns. *)
Theorem late_progress_fails_a_resumed_run (id : string) (r : PlanRunRecord) (progress : json)
    (now : string) (s s' : Runner) (i : nat) (kind : ContinuationKind)
    (result_ : PlanRunExecutionResult) (checkpointId later : string) :
  map_get id (mr_records s) = Some r -> rr_state r = Running ->
  report_progress id (Ok progress) now s = Ok s' ->
  exists h s2, resume_end id (rr_revision r) i kind (Ok result_) checkpointId later s' = Ok (h, s2) /\
    hd_state h = Failed.
Proof.
  intros Hr Hrun. unfold report_progress. rewrite (proj2 (required_Ok _ _ _) Hr).
  cbn [mbind result_bind]. unfold throw_if. rewrite bool_decide_true by done.
  cbn [negb mbind result_bind]. intros [= <-]. unfold resume_end.
  rewrite (proj2 (required_Ok id (set_record id _ s) (with_progress progress now r)))
    by apply map_get_set_eq.
  cbn [mbind result_bind with_progress rr_state rr_revision].
  rewrite bool_decide_false by congruence.
  rewrite (proj2 (Nat.eqb_neq _ _)) by lia. cbn [negb orb]. unfold resume_caught.
  cbn [rr_state]. rewrite bool_decide_true by done.
  rewrite transition_legal by (cbn; rewrite Hrun; is_legal). by eexists _, _.
Qed.

(** ** Witnesses *)

Definition sample_request : PlanRunStartRequest :=
  {| sr_protocol := "p"; sr_requestId := "q"; sr_idempotencyKey := "key"; sr_requestedAt := "t";
     sr_skillRef := "skill"; sr_executionEnvironment := Server; sr_ingredients := [];
     sr_goals := ["text(doc)"]; sr_goalSpec := None; sr_parameters := [("page", JNumber 1)];
     sr_security := {| sc_principal := sample_principal; sc_access := {| ac_tenantId := None;
       ac_entitlements := None; ac_artifactGrantIds := None |}; sc_establishedBy := "host";
       sc_authorizedAt := "t" |} |}.

Definition sample_result : PlanRunExecutionResult :=
  {| er_artifactIds := Some ["a"]; er_completedStepIds := None; er_remainingGoals := None;
     er_registryRevision := None; er_policyDecisionIds := None; er_output := None;
     er_continuation := None |}.

Definition or_new (s : result Runner) : Runner := match s with Ok s => s | Throw _ => new_runner end.

#[local] Existing Instance bytes_collation.

Definition sample_started : Runner :=
  or_new (snd <$> start (Ok sample_request) "run" "t" new_runner).
Definition sample_running : Runner := or_new (run_begin "run" "t" (set_jobs [] sample_started)).
Definition sample_cancelled : Runner := or_new (snd <$> cancel "run" "t" sample_running).
Definition sample_record : PlanRunRecord :=
  default (new_record sample_request "run" "t") (status "run" sample_running).

Lemma sample_running_reachable : rtc runner_step new_runner sample_running.
Proof.
  eapply rtc_l; [eapply (ev_start _ (Ok sample_request) "run" "t"); vm_compute; reflexivity|].
  apply rtc_once. by eapply (ev_begin _ [] [] "run" sample_request "t"); vm_compute.
Qed.

Lemma sample_cancelled_step : runner_step sample_running sample_cancelled.
Proof. by eapply (ev_cancel _ "run" "t"); vm_compute. Qed.

Lemma runner_invariant_witness : runner_ok sample_running /\ length (mr_jobs sample_running) = 1.
Proof. split; [exact (runner_invariant _ sample_running_reachable)|vm_compute; reflexivity]. Defined.

Lemma runner_moves_forward_witness :
  exists r', map_get "run" (mr_records sample_cancelled) = Some r' /\
    rr_request r' = rr_request sample_record /\ rtc legal Running (rr_state r').
Proof.
  destruct (runner_moves_forward sample_running sample_cancelled "run" sample_record
    sample_running_reachable sample_cancelled_step ltac:(vm_compute; reflexivity))
    as (r' & Hr' & _ & Hl & Hreq & _).
  exists r'. split; [exact Hr'|]. split; [exact Hreq|exact Hl].
Defined.

(** The attempt of the cancelled run returns a result. *)
Definition sample_late : Runner :=
  or_new (run_end "run" (Ok sample_result) "c" "t" (set_jobs [] sample_cancelled)).

Lemma sample_late_step : runner_step sample_cancelled sample_late.
Proof. by eapply (ev_end _ [] [] "run" (Ok sample_result) "c" "t"); vm_compute. Qed.

Lemma terminal_runs_are_frozen_witness :
  exists r, rr_state r = Cancelled /\ map_get "run" (mr_records sample_late) = Some r.
Proof.
  destruct (map_get "run" (mr_records sample_cancelled)) as [r|] eqn:E;
    [|vm_compute in E; discriminate].
  assert (rr_state r = Cancelled) as Hc by (vm_compute in E; by injection E as <-).
  exists r. split; [exact Hc|].
  apply (terminal_runs_are_frozen sample_cancelled sample_late "run" r
    (rtc_r _ _ _ sample_running_reachable sample_cancelled_step)
    (rtc_once _ _ sample_late_step) E). by rewrite Hc.
Defined.

Lemma running_attempts_settle_witness :
  rr_state sample_record = Running /\
  exists pre job post, mr_jobs sample_running = pre ++ ("run", job) :: post.
Proof.
  split; [vm_compute; reflexivity|].
  destruct (running_attempts_settle sample_running "run" sample_record sample_running_reachable
    ltac:(vm_compute; reflexivity) ltac:(vm_compute; reflexivity)) as (pre & job & post & Hj & _).
  exists pre, job, post. exact Hj.
Defined.

Lemma start_is_idempotent_witness :
  start (Ok sample_request) "other" "t" sample_running = Ok (handle sample_record, sample_running).
Proof.
  destruct (start_is_idempotent sample_running sample_running_reachable) as [_ Hs].
  rewrite (Hs "run" sample_record sample_request "other" "t") by (vm_compute; reflexivity).
  by rewrite decide_True by reflexivity.
Defined.

Lemma late_progress_fails_a_resumed_run_witness :
  exists s' h s2, report_progress "run" (Ok JNull) "t" sample_running = Ok s' /\
    resume_end "run" 3 0 KInput (Ok sample_result) "c" "t" s' = Ok (h, s2) /\ hd_state h = Failed.
Proof.
  destruct (report_progress "run" (Ok JNull) "t" sample_running) as [s'|] eqn:E;
    [|vm_compute in E; discriminate].
  destruct (late_progress_fails_a_resumed_run "run" sample_record JNull "t" sample_running s' 0 KInput
    sample_result "c" "t" ltac:(vm_compute; reflexivity) ltac:(vm_compute; reflexivity) E)
    as (h & s2 & H & Hf).
  exists s', h, s2. split; [done|]. split; [exact H|exact Hf].
Defined.
