(* ===== verification/Sha256.v ===== *)
(** * SHA-256 and the counter hasher

    [services/checkout/src/lib/sha256.ts]: the digest with the code's signed
    32-bit operations and in-place buffers, and the hasher of the proof of work
    that reuses its buffers between calls.  Both are compared with the digest of
    the standard, written with unsigned words and lists.

    A byte and a word are integers; a typed array is a list, whose elements are
    truncated when they are stored. *)

From S2P Require Import Prelude.

Open Scope stdpp_scope.
Local Open Scope Z_scope.

(** ** Operators on numbers *)

Definition uint32 (x : Z) : Z := x mod 2 ^ 32.
Definition int32 (x : Z) : Z := (x + 2 ^ 31) mod 2 ^ 32 - 2 ^ 31.

(** [a | b], [a ^ b], [a & b], [~a], [a << n], [a >>> n]. *)
Definition bor (a b : Z) : Z := Z.lor (int32 a) (int32 b).
Definition bxor (a b : Z) : Z := Z.lxor (int32 a) (int32 b).
Definition band (a b : Z) : Z := Z.land (int32 a) (int32 b).
Definition bnot (a : Z) : Z := Z.lnot (int32 a).
Definition shl (a n : Z) : Z := int32 (Z.shiftl a n).
Definition ushr (a n : Z) : Z := Z.shiftr (uint32 a) n.

Infix "^^" := bxor (at level 50, left associativity).

(** ** Arrays *)

Definition at_ (l : list Z) (i : nat) : Z := nth i l 0.

(** [Uint32Array] and [Uint8Array] assignments. *)
Definition set32 (l : list Z) (i : nat) (x : Z) : list Z := <[i := uint32 x]> l.
Definition set8 (l : list Z) (i : nat) (x : Z) : list Z := <[i := x mod 256]> l.

(** [array.set(values, from)] of bytes. *)
Fixpoint set_bytes (l : list Z) (from : nat) (values : list Z) : list Z :=
  match values with [] => l | v :: values => set_bytes (set8 l from v) (S from) values end.

(** The big-endian bytes of a word. *)
Definition word_bytes (x : Z) : list Z :=
  [(x / 2 ^ 24) mod 256; (x / 2 ^ 16) mod 256; (x / 2 ^ 8) mod 256; x mod 256].

(** [view.setUint32] and [view.getUint32]. *)
Definition setUint32 (view : list Z) (offset : nat) (x : Z) : list Z :=
  set_bytes view offset (word_bytes (uint32 x)).
Definition getUint32 (view : list Z) (offset : nat) : Z :=
  at_ view offset * 2 ^ 24 + at_ view (offset + 1) * 2 ^ 16 +
  at_ view (offset + 2) * 2 ^ 8 + at_ view (offset + 3).

(** ** Constants *)

(** The table, a row of the source at a time. *)
Definition K : list Z :=
  [0x428a2f98; 0x71374491; 0xb5c0fbcf; 0xe9b5dba5; 0x3956c25b; 0x59f111f1; 0x923f82a4; 0xab1c5ed5] ++
  [0xd807aa98; 0x12835b01; 0x243185be; 0x550c7dc3; 0x72be5d74; 0x80deb1fe; 0x9bdc06a7; 0xc19bf174] ++
  [0xe49b69c1; 0xefbe4786; 0x0fc19dc6; 0x240ca1cc; 0x2de92c6f; 0x4a7484aa; 0x5cb0a9dc; 0x76f988da] ++
  [0x983e5152; 0xa831c66d; 0xb00327c8; 0xbf597fc7; 0xc6e00bf3; 0xd5a79147; 0x06ca6351; 0x14292967] ++
  [0x27b70a85; 0x2e1b2138; 0x4d2c6dfc; 0x53380d13; 0x650a7354; 0x766a0abb; 0x81c2c92e; 0x92722c85] ++
  [0xa2bfe8a1; 0xa81a664b; 0xc24b8b70; 0xc76c51a3; 0xd192e819; 0xd6990624; 0xf40e3585; 0x106aa070] ++
  [0x19a4c116; 0x1e376c08; 0x2748774c; 0x34b0bcb5; 0x391c0cb3; 0x4ed8aa4a; 0x5b9cca4f; 0x682e6ff3] ++
  [0x748f82ee; 0x78a5636f; 0x84c87814; 0x8cc70208; 0x90befffa; 0xa4506ceb; 0xbef9a3f7; 0xc67178f2].

Definition INIT : list Z := [
  0x6a09e667; 0xbb67ae85; 0x3c6ef372; 0xa54ff53a; 0x510e527f; 0x9b05688c; 0x1f83d9ab; 0x5be0cd19].

(** ** Compression *)

Definition rotr (x n : Z) : Z := bor (ushr x n) (shl x (32 - n)).

Definition load_words (w view : list Z) (offset : nat) : list Z :=
  fold_left (fun w i => set32 w i (getUint32 view (offset + i * 4))) (seq 0 16) w.

Definition extend_word (w : list Z) (i : nat) : list Z :=
  let s0 := rotr (at_ w (i - 15)) 7 ^^ rotr (at_ w (i - 15)) 18 ^^ ushr (at_ w (i - 15)) 3 in
  let s1 := rotr (at_ w (i - 2)) 17 ^^ rotr (at_ w (i - 2)) 19 ^^ ushr (at_ w (i - 2)) 10 in
  set32 w i (at_ w (i - 16) + s0 + at_ w (i - 7) + s1).

(** The eight working variables. *)
Record Vars := { va : Z; vb : Z; vc : Z; vd : Z; ve : Z; vf : Z; vg : Z; vh : Z }.

Definition round (w : list Z) (v : Vars) (i : nat) : Vars :=
  let e := ve v in
  let a := va v in
  let t1 := uint32 (vh v + (rotr e 6 ^^ rotr e 11 ^^ rotr e 25) +
                    (band e (vf v) ^^ band (bnot e) (vg v)) + at_ K i + at_ w i) in
  let t2 := uint32 ((rotr a 2 ^^ rotr a 13 ^^ rotr a 22) +
                    (band a (vb v) ^^ band a (vc v) ^^ band (vb v) (vc v))) in
  {| vh := vg v; vg := vf v; vf := e; ve := uint32 (vd v + t1);
     vd := vc v; vc := vb v; vb := a; va := uint32 (t1 + t2) |}.

Definition compress_block (view : list Z) (hw : list Z * list Z) (offset : nat) :
    list Z * list Z :=
  let '(h, w) := hw in
  let w := load_words w view offset in
  let w := fold_left extend_word (seq 16 48) w in
  let v := fold_left (round w) (seq 0 64)
    {| va := at_ h 0; vb := at_ h 1; vc := at_ h 2; vd := at_ h 3;
       ve := at_ h 4; vf := at_ h 5; vg := at_ h 6; vh := at_ h 7 |} in
  ([uint32 (at_ h 0 + va v); uint32 (at_ h 1 + vb v); uint32 (at_ h 2 + vc v);
    uint32 (at_ h 3 + vd v); uint32 (at_ h 4 + ve v); uint32 (at_ h 5 + vf v);
    uint32 (at_ h 6 + vg v); uint32 (at_ h 7 + vh v)], w).

(** The offsets 0, 64, ... below [byteLength]; [h] and [w] are buffers. *)
Definition compress (h w view : list Z) (byteLength : nat) : list Z * list Z :=
  fold_left (compress_block view) ((fun k => (k * 64)%nat) <$> seq 0 ((byteLength + 63) / 64)) (h, w).

(** [(((length + 8) >> 6) << 6) + 64]. *)
Definition padded_size (length : nat) : nat :=
  Z.to_nat (shl (Z.shiftr (int32 (Z.of_nat length + 8)) 6) 6 + 64).

Definition digest_of (h digest : list Z) : list Z :=
  fold_left (fun d i => setUint32 d (i * 4) (at_ h i)) (seq 0 8) digest.

Definition sha256 (message : list Z) : list Z :=
  let len := length message in
  let padded := replicate (padded_size len) 0 in
  let padded := set_bytes padded 0 message in
  let padded := set8 padded len 0x80 in
  let view := setUint32 padded (length padded - 8) (Z.of_nat len / 0x20000000) in
  let view := setUint32 view (length padded - 4) (ushr (shl (Z.of_nat len) 3) 0) in
  let '(h, _) := compress INIT (replicate 64 0) view (length view) in
  digest_of h (replicate 32 0).

(** ** The counter hasher *)

(** What the closure keeps between calls. *)
Record Hasher := {
  hs_digest : list Z;
  hs_h : list Z;
  hs_w : list Z;
  hs_padded : list Z;
  hs_currentLength : Z
}.

Definition createCounterHasher : Hasher :=
  {| hs_digest := replicate 32 0; hs_h := replicate 8 0; hs_w := replicate 64 0;
     hs_padded := []; hs_currentLength := -1 |}.

(** [padded.fill(0, from)]. *)
Definition fill_zero (l : list Z) (from : nat) : list Z :=
  take from l ++ replicate (length l - from) 0.

(** A call with the codes of the characters of the suffix. *)
Definition hash_suffix (prefix suffix : list Z) (s : Hasher) : Hasher :=
  let len := (length prefix + length suffix)%nat in
  let padded :=
    if negb (Z.of_nat len =? hs_currentLength s) then
      let size := padded_size len in
      let padded :=
        if negb (Nat.eqb (length (hs_padded s)) size)
        then set_bytes (replicate size 0) 0 prefix
        else fill_zero (hs_padded s) len in
      let padded := set8 padded len 0x80 in
      setUint32 padded (size - 4) (ushr (shl (Z.of_nat len) 3) 0)
    else hs_padded s in
  let padded := set_bytes padded (length prefix) suffix in
  let '(h, w) := compress INIT (hs_w s) padded (length padded) in
  {| hs_digest := digest_of h (hs_digest s); hs_h := h; hs_w := w; hs_padded := padded;
     hs_currentLength := Z.of_nat len |}.

(** ** The standard

    FIPS 180-4, with words as integers below [2 ^ 32]. *)

Module Standard.

Definition rotr32 (x n : Z) : Z := Z.lor (Z.shiftr x n) (Z.shiftl x (32 - n) mod 2 ^ 32).
Definition not32 (x : Z) : Z := 2 ^ 32 - 1 - x.
Definition Ch (x y z : Z) : Z := Z.lxor (Z.land x y) (Z.land (not32 x) z).
Definition Maj (x y z : Z) : Z := Z.lxor (Z.lxor (Z.land x y) (Z.land x z)) (Z.land y z).
Definition Sigma0 (x : Z) : Z := Z.lxor (Z.lxor (rotr32 x 2) (rotr32 x 13)) (rotr32 x 22).
Definition Sigma1 (x : Z) : Z := Z.lxor (Z.lxor (rotr32 x 6) (rotr32 x 11)) (rotr32 x 25).
Definition sigma0 (x : Z) : Z := Z.lxor (Z.lxor (rotr32 x 7) (rotr32 x 18)) (Z.shiftr x 3).
Definition sigma1 (x : Z) : Z := Z.lxor (Z.lxor (rotr32 x 17) (rotr32 x 19)) (Z.shiftr x 10).

(** The message, a one bit, zeros, and the length in bits as 64 bits. *)
Definition pad (message : list Z) : list Z :=
  let bits := 8 * Z.of_nat (length message) in
  message ++ [0x80] ++ replicate (Z.to_nat ((55 - Z.of_nat (length message)) mod 64)) 0 ++
  word_bytes (bits / 2 ^ 32) ++ word_bytes (bits mod 2 ^ 32).

Definition block_words (padded : list Z) (k : nat) : list Z :=
  (fun i => getUint32 padded (k * 64 + i * 4)) <$> seq 0 16.

Definition schedule (words : list Z) : list Z :=
  fold_left (fun w t =>
    w ++ [(sigma1 (at_ w (t - 2)) + at_ w (t - 7) + sigma0 (at_ w (t - 15)) + at_ w (t - 16)) mod 2 ^ 32])
    (seq 16 48) words.

Definition step (w : list Z) (v : Vars) (t : nat) : Vars :=
  let T1 := (vh v + Sigma1 (ve v) + Ch (ve v) (vf v) (vg v) + at_ K t + at_ w t) mod 2 ^ 32 in
  let T2 := (Sigma0 (va v) + Maj (va v) (vb v) (vc v)) mod 2 ^ 32 in
  {| vh := vg v; vg := vf v; vf := ve v; ve := (vd v + T1) mod 2 ^ 32;
     vd := vc v; vc := vb v; vb := va v; va := (T1 + T2) mod 2 ^ 32 |}.

Definition block (padded : list Z) (H : list Z) (k : nat) : list Z :=
  let w := schedule (block_words padded k) in
  let v := fold_left (step w) (seq 0 64)
    {| va := at_ H 0; vb := at_ H 1; vc := at_ H 2; vd := at_ H 3;
       ve := at_ H 4; vf := at_ H 5; vg := at_ H 6; vh := at_ H 7 |} in
  zip_with (fun x y => (x + y) mod 2 ^ 32) H [va v; vb v; vc v; vd v; ve v; vf v; vg v; vh v].

Definition digest (message : list Z) : list Z :=
  let padded := pad message in
  List.flat_map word_bytes (fold_left (block padded) (seq 0 (length padded / 64)) INIT).

End Standard.

(** ** Words *)

Definition word (x : Z) : Prop := 0 <= x < 2 ^ 32.
Definition byte (x : Z) : Prop := 0 <= x < 256.

Lemma uint32_word x : word (uint32 x).
Proof. apply Z.mod_pos_bound. lia. Qed.
Lemma uint32_id x : word x -> uint32 x = x.
Proof. apply Z.mod_small. Qed.
Lemma uint32_idemp x : uint32 (uint32 x) = uint32 x.
Proof. apply uint32_id, uint32_word. Qed.
Lemma uint32_int32 x : uint32 (int32 x) = uint32 x.
Proof.
  unfold uint32, int32. rewrite Zminus_mod_idemp_l.
  replace (x + 2 ^ 31 - 2 ^ 31) with x by lia. done.
Qed.

Lemma uint32_land x : uint32 x = Z.land x (Z.ones 32).
Proof. by rewrite Z.land_ones. Qed.

Lemma uint32_lxor a b : uint32 (Z.lxor a b) = Z.lxor (uint32 a) (uint32 b).
Proof.
  rewrite !uint32_land. apply Z.bits_inj'. intros n Hn.
  rewrite !Z.land_spec, !Z.lxor_spec, !Z.land_spec. by destruct (Z.testbit a n), (Z.testbit b n), (Z.testbit (Z.ones 32) n).
Qed.
Lemma uint32_lor a b : uint32 (Z.lor a b) = Z.lor (uint32 a) (uint32 b).
Proof.
  rewrite !uint32_land. apply Z.bits_inj'. intros n Hn.
  rewrite !Z.land_spec, !Z.lor_spec, !Z.land_spec. by destruct (Z.testbit a n), (Z.testbit b n), (Z.testbit (Z.ones 32) n).
Qed.
Lemma uint32_and a b : uint32 (Z.land a b) = Z.land (uint32 a) (uint32 b).
Proof.
  rewrite !uint32_land. apply Z.bits_inj'. intros n Hn.
  rewrite !Z.land_spec. by destruct (Z.testbit a n), (Z.testbit b n), (Z.testbit (Z.ones 32) n).
Qed.

Lemma uint32_bxor a b : uint32 (bxor a b) = Z.lxor (uint32 a) (uint32 b).
Proof. unfold bxor. by rewrite uint32_lxor, !uint32_int32. Qed.
Lemma uint32_bor a b : uint32 (bor a b) = Z.lor (uint32 a) (uint32 b).
Proof. unfold bor. by rewrite uint32_lor, !uint32_int32. Qed.
Lemma uint32_band a b : uint32 (band a b) = Z.land (uint32 a) (uint32 b).
Proof. unfold band. by rewrite uint32_and, !uint32_int32. Qed.
Lemma uint32_bnot a : uint32 (bnot a) = Standard.not32 (uint32 a).
Proof.
  unfold bnot. transitivity ((-1 - int32 a) mod 2 ^ 32).
  { unfold uint32. f_equal. unfold Z.lnot. lia. }
  rewrite Zminus_mod. fold (uint32 (int32 a)). rewrite uint32_int32. unfold Standard.not32.
  pose proof (uint32_word a). unfold word in *.
  change (-1 mod 2 ^ 32) with (2 ^ 32 - 1). apply Z.mod_small. lia.
Qed.

Lemma ushr_word x n : word x -> ushr x n = Z.shiftr x n.
Proof. intros. unfold ushr. by rewrite uint32_id. Qed.

Lemma shiftr_word x n : 0 <= n -> word x -> word (Z.shiftr x n).
Proof.
  unfold word. intros Hn [Hx Hlt]. rewrite Z.shiftr_div_pow2 by done.
  assert (0 < 2 ^ n) as Hp by (apply Z.pow_pos_nonneg; [reflexivity|done]).
  split; [by apply Z.div_pos|]. apply Z.le_lt_trans with x; [|done].
  apply Z.div_le_upper_bound; [done|]. revert Hp. generalize (2 ^ n). intros. nia.
Qed.

Lemma uint32_rotr x n : 0 <= n -> word x -> uint32 (rotr x n) = Standard.rotr32 x n.
Proof.
  intros Hn Hx. unfold rotr, Standard.rotr32. rewrite uint32_bor. f_equal.
  - rewrite ushr_word by done. by apply uint32_id, shiftr_word.
  - unfold shl. by rewrite uint32_int32.
Qed.
Lemma uint32_ushr x n : 0 <= n -> word x -> uint32 (ushr x n) = Z.shiftr x n.
Proof. intros Hn Hx. rewrite ushr_word by done. by apply uint32_id, shiftr_word. Qed.

Lemma uint32_add a b : uint32 (a + b) = uint32 (uint32 a + uint32 b).
Proof. unfold uint32. by rewrite Z.add_mod. Qed.

(** ** A round *)

Definition vars_ok (v : Vars) : Prop :=
  word (va v) /\ word (vb v) /\ word (vc v) /\ word (vd v) /\
  word (ve v) /\ word (vf v) /\ word (vg v) /\ word (vh v).

Lemma add_congr a a' b b' :
  uint32 a = uint32 a' -> uint32 b = uint32 b' -> uint32 (a + b) = uint32 (a' + b').
Proof. intros Ha Hb. rewrite uint32_add, Ha, Hb. by rewrite <- uint32_add. Qed.

Lemma Sigma1_js e : word e ->
  uint32 (rotr e 6 ^^ rotr e 11 ^^ rotr e 25) = uint32 (Standard.Sigma1 e).
Proof.
  intros. rewrite !uint32_bxor, !uint32_rotr by (done || lia). unfold Standard.Sigma1.
  rewrite !uint32_lxor, <- !uint32_rotr, !uint32_idemp by (done || lia). done.
Qed.

Lemma Sigma0_js a : word a ->
  uint32 (rotr a 2 ^^ rotr a 13 ^^ rotr a 22) = uint32 (Standard.Sigma0 a).
Proof.
  intros. rewrite !uint32_bxor, !uint32_rotr by (done || lia). unfold Standard.Sigma0.
  rewrite !uint32_lxor, <- !uint32_rotr, !uint32_idemp by (done || lia). done.
Qed.

Lemma sigma0_js x : word x ->
  uint32 (rotr x 7 ^^ rotr x 18 ^^ ushr x 3) = uint32 (Standard.sigma0 x).
Proof.
  intros. rewrite !uint32_bxor, !uint32_rotr, uint32_ushr by (done || lia). unfold Standard.sigma0.
  rewrite !uint32_lxor, <- !uint32_rotr, <- uint32_ushr, !uint32_idemp by (done || lia). done.
Qed.

Lemma sigma1_js x : word x ->
  uint32 (rotr x 17 ^^ rotr x 19 ^^ ushr x 10) = uint32 (Standard.sigma1 x).
Proof.
  intros. rewrite !uint32_bxor, !uint32_rotr, uint32_ushr by (done || lia). unfold Standard.sigma1.
  rewrite !uint32_lxor, <- !uint32_rotr, <- uint32_ushr, !uint32_idemp by (done || lia). done.
Qed.

Lemma Ch_js x y z : word x -> word y -> word z ->
  uint32 (band x y ^^ band (bnot x) z) = uint32 (Standard.Ch x y z).
Proof.
  intros Hx Hy Hz. rewrite uint32_bxor, !uint32_band, uint32_bnot. unfold Standard.Ch.
  rewrite uint32_lxor, !uint32_and, (uint32_id x), (uint32_id y), (uint32_id z) by done.
  f_equal. f_equal. symmetry. apply uint32_id. unfold Standard.not32, word in *. lia.
Qed.

Lemma Maj_js x y z : uint32 (band x y ^^ band x z ^^ band y z) = uint32 (Standard.Maj x y z).
Proof. unfold Standard.Maj. by rewrite !uint32_bxor, !uint32_band, !uint32_lxor, !uint32_and. Qed.

Lemma round_step w v i : vars_ok v -> round w v i = Standard.step w v i /\ vars_ok (round w v i).
Proof.
  intros (Ha & Hb & Hc & Hd & He & Hf & Hg & Hh).
  split; [|repeat split; try apply uint32_word; apply Ha || apply Hb || apply Hc || apply He || apply Hf || apply Hg].
  unfold round, Standard.step.
  assert (uint32 (vh v + (rotr (ve v) 6 ^^ rotr (ve v) 11 ^^ rotr (ve v) 25) +
      (band (ve v) (vf v) ^^ band (bnot (ve v)) (vg v)) + at_ K i + at_ w i) =
    (vh v + Standard.Sigma1 (ve v) + Standard.Ch (ve v) (vf v) (vg v) + at_ K i + at_ w i) mod 2 ^ 32)
    as ->.
  { repeat apply add_congr; [done|by apply Sigma1_js|by apply Ch_js|done|done]. }
  assert (uint32 ((rotr (va v) 2 ^^ rotr (va v) 13 ^^ rotr (va v) 22) +
      (band (va v) (vb v) ^^ band (va v) (vc v) ^^ band (vb v) (vc v))) =
    (Standard.Sigma0 (va v) + Standard.Maj (va v) (vb v) (vc v)) mod 2 ^ 32) as ->.
  { apply add_congr; [by apply Sigma0_js|by apply Maj_js]. }
  reflexivity.
Qed.

Lemma rounds_steps w l v : vars_ok v ->
  fold_left (round w) l v = fold_left (Standard.step w) l v /\ vars_ok (fold_left (round w) l v).
Proof.
  revert v. induction l as [|i l IH]; intros v Hv; [done|]. cbn [fold_left].
  destruct (round_step w v i Hv) as [E Hok]. rewrite <- E. by apply IH.
Qed.

(** ** Buffers *)

Lemma length_set_bytes l from vs : length (set_bytes l from vs) = length l.
Proof.
  revert l from. induction vs as [|v vs IH]; intros l from; cbn; [done|].
  rewrite IH. unfold set8. by rewrite length_insert.
Qed.

(** Writing bytes that fit replaces what is there. *)
Lemma set_bytes_app pre old rest vs :
  length old = length vs -> Forall byte vs ->
  set_bytes (pre ++ old ++ rest) (length pre) vs = pre ++ vs ++ rest.
Proof.
  revert pre old. induction vs as [|v vs IH]; intros pre [|o old] Hlen Hb; try discriminate; [done|].
  apply Forall_cons in Hb as [Hv Hb]. cbn [set_bytes]. unfold set8.
  rewrite insert_app_r_alt, Nat.sub_diag by done. cbn [app]. rewrite Z.mod_small by done.
  change (<[0%nat:=v]> (o :: old ++ rest)) with (v :: old ++ rest).
  replace (S (length pre)) with (length (pre ++ [v])) by (rewrite length_app; cbn; lia).
  rewrite (app_assoc pre [v] (old ++ rest) : pre ++ v :: old ++ rest = _), IH;
    [by rewrite <- app_assoc|cbn in Hlen; lia|done].
Qed.

Lemma word_bytes_ok x : Forall byte (word_bytes x).
Proof. repeat constructor; apply Z.mod_pos_bound; lia. Qed.

Lemma set_bytes_start old rest vs :
  length old = length vs -> Forall byte vs -> set_bytes (old ++ rest) 0 vs = vs ++ rest.
Proof. apply (set_bytes_app []). Qed.

Lemma setUint32_at pre old rest off x :
  off = length pre -> length old = 4%nat ->
  setUint32 (pre ++ old ++ rest) off x = pre ++ word_bytes (uint32 x) ++ rest.
Proof. intros -> ?. apply set_bytes_app; [done|apply word_bytes_ok]. Qed.

Lemma length_setUint32 l off x : length (setUint32 l off x) = length l.
Proof. apply length_set_bytes. Qed.

Lemma length_set8 l i x : length (set8 l i x) = length l.
Proof. unfold set8. by rewrite length_insert. Qed.

Lemma at_app_r l k i : at_ (l ++ k) (length l + i) = at_ k i.
Proof. unfold at_. rewrite app_nth2_plus. done. Qed.

Lemma at_app_l l k i : (i < length l)%nat -> at_ (l ++ k) i = at_ l i.
Proof. intros. unfold at_. by apply app_nth1. Qed.

Lemma at_word l i : Forall word l -> word (at_ l i).
Proof.
  intros H. unfold at_. destruct (nth_in_or_default i l 0) as [Hin| ->]; [|unfold word; lia].
  rewrite Forall_forall in H. by apply H, list_elem_of_In.
Qed.

(** A loop that stores the [i]-th element on turn [i] fills the array with what a
    loop that appends would produce. *)
Lemma fill_loop (P : list Z -> Prop) (f g : list Z -> nat -> Z) n : forall pre rest,
  (n <= length rest)%nat -> P pre ->
  (forall d r, P d -> f (d ++ r) (length d) = g d (length d)) ->
  (forall d, P d -> P (d ++ [g d (length d)])) ->
  fold_left (fun w i => <[i := f w i]> w) (seq (length pre) n) (pre ++ rest) =
  fold_left (fun w i => w ++ [g w i]) (seq (length pre) n) pre ++ drop n rest.
Proof.
  induction n as [|n IH]; intros pre rest Hn HP Hfg Hstep; [done|].
  destruct rest as [|x rest]; [cbn in Hn; lia|]. cbn [seq fold_left].
  rewrite (Hfg pre (x :: rest)) by done. rewrite insert_app_r_alt, Nat.sub_diag by done.
  change (<[0%nat:=g pre (length pre)]> (x :: rest)) with (g pre (length pre) :: rest).
  replace (S (length pre)) with (length (pre ++ [g pre (length pre)])) by (rewrite length_app; cbn; lia).
  replace (pre ++ g pre (length pre) :: rest) with ((pre ++ [g pre (length pre)]) ++ rest)
    by (by rewrite <- app_assoc).
  rewrite IH; [done|cbn in Hn; lia|by apply Hstep|done|done].
Qed.

Lemma append_loop_ok (P : list Z -> Prop) (g : list Z -> nat -> Z) n : forall pre,
  P pre -> (forall d, P d -> P (d ++ [g d (length d)])) ->
  P (fold_left (fun w i => w ++ [g w i]) (seq (length pre) n) pre).
Proof.
  induction n as [|n IH]; intros pre HP Hstep; [done|]. cbn [seq fold_left].
  replace (S (length pre)) with (length (pre ++ [g pre (length pre)])) by (rewrite length_app; cbn; lia).
  apply IH; auto.
Qed.

Lemma length_appends (g : list Z -> nat -> Z) l w :
  length (fold_left (fun w i => w ++ [g w i]) l w) = (length w + length l)%nat.
Proof.
  revert w. induction l as [|i l IH]; intros w; cbn; [lia|]. rewrite IH, length_app. cbn. lia.
Qed.

Lemma appends_map (g : nat -> Z) l w :
  fold_left (fun w i => w ++ [g i]) l w = w ++ (g <$> l).
Proof.
  revert w. induction l as [|i l IH]; intros w; cbn; [by rewrite app_nil_r|].
  by rewrite IH, <- app_assoc.
Qed.

Lemma getUint32_word view o : Forall byte view -> word (getUint32 view o).
Proof.
  intros H. unfold getUint32.
  assert (forall i, byte (at_ view i)) as Hat.
  { intros i. unfold at_. destruct (nth_in_or_default i view 0) as [Hin| ->]; [|unfold byte; lia].
    rewrite Forall_forall in H. by apply H, list_elem_of_In. }
  pose proof (Hat o). pose proof (Hat (o + 1)%nat). pose proof (Hat (o + 2)%nat).
  pose proof (Hat (o + 3)%nat). unfold byte, word in *. lia.
Qed.

(** ** The words of a block *)

Lemma load_words_spec w view k :
  Forall byte view -> length w = 64%nat ->
  load_words w view (k * 64) = Standard.block_words view k ++ drop 16 w.
Proof.
  intros Hv Hw. unfold load_words, set32.
  pose proof (fill_loop (fun _ => True) (fun _ i => uint32 (getUint32 view (k * 64 + i * 4)))
    (fun _ i => getUint32 view (k * 64 + i * 4)) 16 [] w ltac:(lia) I) as E.
  cbn [length app] in E. rewrite E; [|intros; by apply uint32_id, getUint32_word|done].
  rewrite appends_map. done.
Qed.

(** The next word of the schedule, in the code and in the standard. *)
Definition js_word (w : list Z) (i : nat) : Z :=
  uint32 (at_ w (i - 16) +
    (rotr (at_ w (i - 15)) 7 ^^ rotr (at_ w (i - 15)) 18 ^^ ushr (at_ w (i - 15)) 3) + at_ w (i - 7) +
    (rotr (at_ w (i - 2)) 17 ^^ rotr (at_ w (i - 2)) 19 ^^ ushr (at_ w (i - 2)) 10)).
Definition std_word (w : list Z) (t : nat) : Z :=
  (Standard.sigma1 (at_ w (t - 2)) + at_ w (t - 7) + Standard.sigma0 (at_ w (t - 15)) +
   at_ w (t - 16)) mod 2 ^ 32.

Definition words_ok (w : list Z) : Prop := Forall word w /\ (16 <= length w)%nat.

Lemma js_word_std d r : words_ok d -> js_word (d ++ r) (length d) = std_word d (length d).
Proof.
  intros [Hw Hl]. unfold js_word, std_word. rewrite !at_app_l by lia.
  transitivity (uint32 (at_ d (length d - 16) + Standard.sigma0 (at_ d (length d - 15)) +
    at_ d (length d - 7) + Standard.sigma1 (at_ d (length d - 2)))); [|unfold uint32; f_equal; lia].
  repeat apply add_congr; try done; [by apply sigma0_js, at_word|by apply sigma1_js, at_word].
Qed.

Lemma std_word_ok d i : words_ok d -> words_ok (d ++ [std_word d i]).
Proof.
  intros [Hw Hl]. split; [|rewrite length_app; lia].
  apply Forall_app. split; [done|]. repeat constructor; apply uint32_word.
Qed.

Lemma extend_words words rest :
  Forall word words -> length words = 16%nat -> length rest = 48%nat ->
  fold_left extend_word (seq 16 48) (words ++ rest) = Standard.schedule words /\
  words_ok (Standard.schedule words) /\ length (Standard.schedule words) = 64%nat.
Proof.
  intros Hw Hl Hr. assert (words_ok words) as Hok by (split; [done|lia]).
  change (Standard.schedule words) with (fold_left (fun w i => w ++ [std_word w i]) (seq 16 48) words).
  split; [|split].
  - pose proof (fill_loop words_ok js_word std_word 48 words rest ltac:(lia) Hok js_word_std
      (fun d => std_word_ok d _)) as E.
    rewrite Hl, (drop_ge rest 48), app_nil_r in E by lia. exact E.
  - pose proof (append_loop_ok words_ok std_word 48 words Hok (fun d => std_word_ok d _)) as E.
    by rewrite Hl in E.
  - by rewrite length_appends, length_seq, Hl.
Qed.

(** ** Blocks *)

Definition state_ok (h : list Z) : Prop := Forall word h /\ length h = 8%nat.

Lemma block_words_ok view k :
  Forall byte view -> Forall word (Standard.block_words view k) /\
  length (Standard.block_words view k) = 16%nat.
Proof.
  intros Hv. split; [|unfold Standard.block_words; by rewrite length_fmap, length_seq].
  apply Forall_fmap, Forall_forall. intros i _. by apply getUint32_word.
Qed.

Lemma zip_eight (f : Z -> Z -> Z) h a b c d e g i j :
  length h = 8%nat ->
  zip_with f h [a; b; c; d; e; g; i; j] =
  [f (at_ h 0) a; f (at_ h 1) b; f (at_ h 2) c; f (at_ h 3) d;
   f (at_ h 4) e; f (at_ h 5) g; f (at_ h 6) i; f (at_ h 7) j].
Proof.
  intros Hl. do 8 (destruct h as [|? h]; [discriminate|]). by destruct h.
Qed.

Lemma compress_block_spec view h w k :
  Forall byte view -> state_ok h -> length w = 64%nat ->
  exists w', compress_block view (h, w) (k * 64) = (Standard.block view h k, w') /\
    length w' = 64%nat /\ state_ok (Standard.block view h k).
Proof.
  intros Hv [Hh Hlen] Hw. unfold compress_block. rewrite load_words_spec by done.
  destruct (block_words_ok view k Hv) as [Hbw Hbl].
  destruct (extend_words (Standard.block_words view k) (drop 16 w) Hbw Hbl) as (-> & _ & Hsl).
  { rewrite length_drop, Hw. done. }
  set (W := Standard.schedule _) in *.
  set (v0 := {| va := _ |}). assert (vars_ok v0) as Hv0 by (repeat split; by apply at_word).
  destruct (rounds_steps W (seq 0 64) v0 Hv0) as [Ef _]. rewrite Ef.
  exists W. unfold Standard.block. fold W. fold v0. set (v := fold_left _ _ v0).
  rewrite zip_eight by done. split; [done|]. split; [done|]. split; [|done].
  repeat constructor; apply uint32_word.
Qed.

Lemma fold_simulation {A B} (f : A * B -> nat -> A * B) (g : A -> nat -> A)
    (P : A -> Prop) (Q : B -> Prop) (h : nat -> nat) :
  (forall a b k, P a -> Q b -> exists b', f (a, b) (h k) = (g a k, b') /\ Q b' /\ P (g a k)) ->
  forall l a b, P a -> Q b ->
  exists b', fold_left f (h <$> l) (a, b) = (fold_left g l a, b') /\ Q b' /\ P (fold_left g l a).
Proof.
  intros Hstep. induction l as [|k l IH]; intros a b Ha Hb; [by exists b|]. cbn.
  destruct (Hstep a b k Ha Hb) as (b' & -> & ? & ?). by apply IH.
Qed.

Lemma compress_spec view h w n :
  Forall byte view -> state_ok h -> length w = 64%nat ->
  exists w', fold_left (compress_block view) ((fun k => (k * 64)%nat) <$> n) (h, w) =
    (fold_left (Standard.block view) n h, w') /\ length w' = 64%nat /\
    state_ok (fold_left (Standard.block view) n h).
Proof.
  intros Hv. apply (fold_simulation _ _ state_ok (fun w => length w = 64%nat)).
  intros h' w' k. by apply compress_block_spec.
Qed.

Lemma INIT_ok : state_ok INIT.
Proof. split; [|done]. repeat constructor; unfold word; lia. Qed.

(** ** Digests *)

Lemma digest_of_spec h d : state_ok h -> length d = 32%nat ->
  digest_of h d = List.flat_map word_bytes h.
Proof.
  intros [Hh Hl] Hd. do 8 (destruct h as [|? h]; [discriminate|]). destruct h; [|discriminate].
  do 32 (destruct d as [|? d]; [discriminate|]). destruct d; [|discriminate].
  repeat (apply Forall_cons in Hh as [? Hh]).
  assert (forall x, byte (x mod 256)) as Hm by (intros; apply Z.mod_pos_bound; lia).
  unfold digest_of. cbn [seq fold_left at_ nth Nat.mul Nat.add]. unfold setUint32.
  cbn [set_bytes word_bytes set8 insert list_insert app List.flat_map].
  rewrite !Zmod_mod, !uint32_id by done. done.
Qed.

(** ** Padding *)

(** Lengths for which the 32-bit arithmetic of [padded_size] does not wrap. *)
Definition short (len : nat) : Prop := Z.of_nat len < 2 ^ 31 - 72.

Lemma int32_id x : 0 <= x < 2 ^ 31 -> int32 x = x.
Proof. intros. unfold int32. rewrite Z.mod_small by lia. lia. Qed.

Lemma padded_size_spec len : short len -> padded_size len = (((len + 8) / 64 + 1) * 64)%nat.
Proof.
  unfold short, padded_size, shl. intros Hs. rewrite (int32_id (Z.of_nat len + 8)) by lia.
  rewrite Z.shiftr_div_pow2, Z.shiftl_mul_pow2 by lia. rewrite int32_id.
  - change (2 ^ 6) with 64. rewrite <- (Nat2Z.id ((_ + 1) * 64)). f_equal.
    rewrite Nat2Z.inj_mul, Nat2Z.inj_add, Nat2Z.inj_div, Nat2Z.inj_add. lia.
  - change (2 ^ 6) with 64. pose proof (Z.div_mod (Z.of_nat len + 8) 64 ltac:(lia)).
    pose proof (Z.mod_pos_bound (Z.of_nat len + 8) 64 ltac:(lia)). lia.
Qed.

Lemma size_facts len : let size := (((len + 8) / 64 + 1) * 64)%nat in
  (len + 9 <= size)%nat /\ ((size + 63) / 64)%nat = (size / 64)%nat /\
  (size - len - 9)%nat = Z.to_nat ((55 - Z.of_nat len) mod 64).
Proof.
  intros size. subst size. set (q := ((len + 8) / 64)%nat).
  pose proof (Nat.div_mod (len + 8) 64 ltac:(lia)) as Hq. fold q in Hq.
  pose proof (Nat.mod_upper_bound (len + 8) 64 ltac:(lia)) as Hr.
  set (r := ((len + 8) mod 64)%nat) in *. split; [lia|]. split.
  - rewrite Nat.div_mul by lia. symmetry. apply (Nat.div_unique _ _ _ 63); lia.
  - rewrite <- (Z.mod_unique (55 - Z.of_nat len) 64 (- Z.of_nat q) (63 - Z.of_nat r)); lia.
Qed.

Lemma set8_app pre x rest v : set8 (pre ++ x :: rest) (length pre) v = pre ++ (v mod 256) :: rest.
Proof. unfold set8. by rewrite insert_app_r_alt, Nat.sub_diag. Qed.

(** The end mark and the low word of the length. *)
Lemma mark_end pre n v :
  (9 <= n)%nat ->
  setUint32 (set8 (pre ++ replicate n 0) (length pre) 0x80) (length pre + n - 4) v =
  pre ++ [0x80] ++ replicate (n - 5) 0 ++ word_bytes (uint32 v).
Proof.
  intros Hn. destruct n as [|n]; [lia|]. cbn [replicate]. rewrite set8_app.
  change (0x80 mod 256) with 0x80. replace (S n - 5)%nat with (n - 4)%nat by lia.
  assert (replicate n 0 = replicate (n - 4) 0 ++ replicate 4 0) as Hsplit
    by (rewrite <- replicate_add; f_equal; lia).
  rewrite Hsplit.
  pose proof (setUint32_at (pre ++ [0x80] ++ replicate (n - 4) 0) (replicate 4 0) []
    (length pre + S n - 4) v) as E.
  rewrite !app_nil_r, <- !app_assoc in E. apply E; [|done].
  rewrite !length_app, length_replicate. cbn [length]. lia.
Qed.

Lemma low_word len : uint32 (ushr (shl (Z.of_nat len) 3) 0) = (8 * Z.of_nat len) mod 2 ^ 32.
Proof.
  unfold ushr, shl. rewrite Z.shiftr_0_r, uint32_idemp, uint32_int32, Z.shiftl_mul_pow2 by lia.
  unfold uint32. f_equal. lia.
Qed.

Lemma bytes_pad message : Forall byte message -> Forall byte (Standard.pad message).
Proof.
  intros H. unfold Standard.pad.
  repeat (apply Forall_app; split); try done; try apply word_bytes_ok.
  - repeat constructor; unfold byte; lia.
  - apply Forall_replicate. unfold byte. lia.
Qed.

Lemma length_pad message :
  length (Standard.pad message) = (((length message + 8) / 64 + 1) * 64)%nat.
Proof.
  destruct (size_facts (length message)) as (H1 & _ & H3). unfold Standard.pad.
  rewrite !length_app, length_replicate, <- H3. cbn [length word_bytes]. lia.
Qed.

(** The buffer [sha256] fills. *)
Lemma sha256_view message : Forall byte message -> short (length message) ->
  let len := length message in
  let padded := set8 (set_bytes (replicate (padded_size len) 0) 0 message) len 0x80 in
  let view := setUint32 padded (length padded - 8) (Z.of_nat len / 0x20000000) in
  setUint32 view (length padded - 4) (ushr (shl (Z.of_nat len) 3) 0) = Standard.pad message.
Proof.
  intros Hb Hs. cbn zeta. rewrite length_set8, length_set_bytes, length_replicate.
  rewrite padded_size_spec by done. destruct (size_facts (length message)) as (H1 & _ & H3).
  set (size := (((length message + 8) / 64 + 1) * 64)%nat) in *.
  assert (replicate size 0 = replicate (length message) 0 ++
    0 :: replicate (size - length message - 9) 0 ++ replicate 4 0 ++ replicate 4 0) as ->.
  { rewrite <- !replicate_add.
    change (0 :: replicate ?k 0) with (replicate (S k) 0). rewrite <- replicate_add. f_equal. lia. }
  rewrite (set_bytes_start (replicate (length message) 0)) by (rewrite ?length_replicate; done).
  rewrite set8_app. change (0x80 mod 256) with 0x80.
  set (zeros := replicate (size - length message - 9) 0).
  pose proof (setUint32_at (message ++ [0x80] ++ zeros) (replicate 4 0) (replicate 4 0) (size - 8)
    (Z.of_nat (length message) / 0x20000000)) as E1.
  rewrite <- !app_assoc in E1. cbn [app] in E1. rewrite E1; clear E1; [|
    rewrite length_app; cbn [length]; subst zeros; rewrite length_replicate; lia|done].
  set (hi := word_bytes _).
  pose proof (setUint32_at (message ++ [0x80] ++ zeros ++ hi) (replicate 4 0) [] (size - 4)
    (ushr (shl (Z.of_nat (length message)) 3) 0)) as E2.
  rewrite !app_nil_r, <- !app_assoc in E2. cbn [app] in E2. rewrite E2; clear E2; [|
    rewrite length_app; cbn [length]; rewrite length_app; subst zeros; rewrite length_replicate;
    cbn [length word_bytes hi]; lia|done].
  rewrite low_word. unfold Standard.pad. cbn [app]. subst zeros. rewrite H3. do 4 f_equal.
  subst hi. do 2 f_equal. unfold short in Hs. rewrite uint32_id.
  - change (2 ^ 32) with (8 * 0x20000000). by rewrite Z.div_mul_cancel_l.
  - unfold word. split; [apply Z.div_pos; lia|]. apply Z.div_lt_upper_bound; lia.
Qed.

Lemma sha256_standard message : Forall byte message -> short (length message) ->
  sha256 message = Standard.digest message.
Proof.
  intros Hb Hs. unfold sha256.
  pose proof (sha256_view message Hb Hs) as Hv. cbn zeta in Hv. cbn zeta. rewrite Hv.
  unfold compress, Standard.digest.
  destruct (size_facts (length message)) as (_ & H2 & _).
  rewrite length_pad, H2.
  destruct (compress_spec (Standard.pad message) INIT (replicate 64 0)
    (seq 0 (((length message + 8) / 64 + 1) * 64 / 64)) (bytes_pad _ Hb) INIT_ok eq_refl)
    as (w' & -> & _ & Hst).
  by apply digest_of_spec.
Qed.

(** ** The counter hasher *)

(** The padding after a message of length [len]. *)
Definition tail (len : nat) : list Z :=
  [0x80] ++ replicate (Z.to_nat ((55 - Z.of_nat len) mod 64)) 0 ++
  word_bytes (8 * Z.of_nat len / 2 ^ 32) ++ word_bytes ((8 * Z.of_nat len) mod 2 ^ 32).

Lemma pad_tail message : Standard.pad message = message ++ tail (length message).
Proof. reflexivity. Qed.

(** Below [2 ^ 29] bytes the high word of the length is zero. *)
Lemma tail_low len : Z.of_nat len < 2 ^ 29 ->
  let size := (((len + 8) / 64 + 1) * 64)%nat in
  tail len = [0x80] ++ replicate (size - len - 5) 0 ++ word_bytes ((8 * Z.of_nat len) mod 2 ^ 32).
Proof.
  intros Hl size. destruct (size_facts len) as (H1 & _ & H3). fold size in H1, H3.
  unfold tail. rewrite <- H3. rewrite (Z.div_small (8 * Z.of_nat len)) by lia.
  change (word_bytes 0) with (replicate 4 0).
  rewrite (app_assoc (replicate _ 0) (replicate 4 0)), <- replicate_add. do 4 f_equal. lia.
Qed.

Section Hasher.
Context (prefix : list Z) (Hprefix : Forall byte prefix).

(** What the closure holds between calls: nothing yet, or the padded message of
    the last call. *)
Record hasher_ok (s : Hasher) : Prop := {
  hk_digest : length (hs_digest s) = 32%nat;
  hk_w : length (hs_w s) = 64%nat;
  hk_padded : (hs_currentLength s = -1 /\ hs_padded s = []) \/
    exists mid, hs_padded s = Standard.pad (prefix ++ mid) /\
      hs_currentLength s = Z.of_nat (length prefix + length mid) /\
      hs_currentLength s < 2 ^ 29
}.

Lemma createCounterHasher_ok : hasher_ok createCounterHasher.
Proof. split; [done|done|by left]. Qed.

(** Rewriting the suffix in a padded message of the same length. *)
Lemma write_suffix mid suffix rest :
  length mid = length suffix -> Forall byte suffix ->
  set_bytes ((prefix ++ mid) ++ rest) (length prefix) suffix = (prefix ++ suffix) ++ rest.
Proof. intros. rewrite <- !app_assoc. by apply set_bytes_app. Qed.

Lemma remark mid suffix :
  let len := (length prefix + length suffix)%nat in
  length mid = length suffix -> Forall byte suffix -> Z.of_nat len < 2 ^ 29 ->
  let size := (((len + 8) / 64 + 1) * 64)%nat in
  set_bytes (setUint32 (set8 ((prefix ++ mid) ++ replicate (size - len) 0) len 0x80) (size - 4)
    (ushr (shl (Z.of_nat len) 3) 0)) (length prefix) suffix = Standard.pad (prefix ++ suffix).
Proof.
  intros len Hm Hb Hl size. destruct (size_facts len) as (H1 & _ & _). fold size in H1.
  assert (length (prefix ++ mid) = len) as Hlen by (rewrite length_app; lia).
  pose proof (mark_end (prefix ++ mid) (size - len) (ushr (shl (Z.of_nat len) 3) 0) ltac:(lia)) as E.
  rewrite Hlen, low_word in E. replace (len + (size - len) - 4)%nat with (size - 4)%nat in E by lia.
  rewrite E, write_suffix, pad_tail by done.
  assert (length (prefix ++ suffix) = len) as -> by (by rewrite length_app).
  by rewrite tail_low.
Qed.

Lemma hash_suffix_padded s suffix :
  let len := (length prefix + length suffix)%nat in
  hasher_ok s -> Forall byte suffix -> Z.of_nat len < 2 ^ 29 ->
  hs_padded (hash_suffix prefix suffix s) = Standard.pad (prefix ++ suffix).
Proof.
  intros len [_ _ Hp] Hb Hl. unfold hash_suffix. fold len.
  rewrite padded_size_spec by (unfold short; lia). set (size := (((len + 8) / 64 + 1) * 64)%nat).
  destruct (size_facts len) as (H1 & _ & _). fold size in H1.
  match goal with |- context [compress INIT (hs_w s) ?p _] => assert (p = Standard.pad (prefix ++ suffix)) as -> end;
    [|by destruct (compress _ _ _ _)].
  destruct (Z.eqb_spec (Z.of_nat len) (hs_currentLength s)) as [E|E]; cbn [negb].
  - destruct Hp as [[? _]|(mid & -> & Hc & _)]; [lia|].
    assert (length mid = length suffix) as Hm by lia.
    rewrite !pad_tail, write_suffix, !length_app, Hm by done. done.
  - destruct (Nat.eqb_spec (length (hs_padded s)) size) as [Es|Es]; cbn [negb].
    + destruct Hp as [[_ Hp]|(mid & Hp & Hc & _)]; rewrite Hp in *; [cbn in Es; lia|].
      unfold fill_zero. rewrite Es, pad_tail, <- app_assoc.
      rewrite take_app_ge by lia. apply remark; [|done|done].
      rewrite length_take. rewrite pad_tail, !length_app in Es. rewrite !length_app. lia.
    + assert (replicate size 0 = replicate (length prefix) 0 ++ replicate (length suffix) 0 ++
        replicate (size - len) 0) as -> by (rewrite <- !replicate_add; f_equal; lia).
      rewrite set_bytes_start by (rewrite ?length_replicate; done).
      rewrite app_assoc. apply remark; [by rewrite length_replicate|done|done].
Qed.

Lemma hash_suffix_ok s suffix :
  hasher_ok s -> Forall byte suffix -> Z.of_nat (length prefix + length suffix) < 2 ^ 29 ->
  hasher_ok (hash_suffix prefix suffix s) /\
  hs_digest (hash_suffix prefix suffix s) = Standard.digest (prefix ++ suffix).
Proof.
  intros Hok Hb Hl. pose proof (hash_suffix_padded s suffix Hok Hb Hl) as Hp.
  assert (Forall byte (prefix ++ suffix)) as Hbytes by by apply Forall_app.
  unfold hash_suffix in *.
  match goal with |- context [compress INIT (hs_w s) ?p _] => set (padded := p) in * end.
  destruct (compress INIT (hs_w s) padded (length padded)) as [h w] eqn:Ec.
  cbn [hs_padded hs_digest] in *. rewrite Hp in Ec.
  unfold compress in Ec. destruct (size_facts (length (prefix ++ suffix))) as (_ & H2 & _).
  rewrite length_pad, H2 in Ec.
  destruct (compress_spec (Standard.pad (prefix ++ suffix)) INIT (hs_w s)
    (seq 0 (((length (prefix ++ suffix) + 8) / 64 + 1) * 64 / 64)) (bytes_pad _ Hbytes) INIT_ok
    (hk_w _ Hok)) as (w' & E & Hw & Hst).
  assert (digest_of (fold_left (Standard.block (Standard.pad (prefix ++ suffix)))
    (seq 0 (((length (prefix ++ suffix) + 8) / 64 + 1) * 64 / 64)) INIT) (hs_digest s) =
    Standard.digest (prefix ++ suffix)) as Ed.
  { unfold Standard.digest. rewrite length_pad. apply digest_of_spec; [done|apply Hok]. }
  rewrite E in Ec. clear E. set (F := fold_left _ _ INIT) in *. clearbody F.
  injection Ec as <- <-. rewrite Ed. split; [|done].
  split; cbn [hs_digest hs_w hs_padded hs_currentLength]; [|done|right; exists suffix; auto].
  rewrite <- Ed, digest_of_spec by (done || apply Hok). destruct Hst as [_ Hl8]. clear -Hl8.
  do 8 (destruct F as [|? F]; [discriminate|]). by destruct F.
Qed.
End Hasher.

(** ** Properties *)

(** C34: [sha256] computes SHA-256: on every message of bytes short enough for the
    32-bit arithmetic of the buffer size, signed 32-bit operators, truncating
    stores and the in-place schedule give the digest of the standard. *)
Theorem sha256_is_standard (message : list Z) :
  Forall byte message -> Z.of_nat (length message) < 2 ^ 31 - 72 ->
  sha256 message = Standard.digest message.
Proof. apply sha256_standard. Qed.

(** The digests a hasher returns for a sequence of calls. *)
Fixpoint hash_all (prefix : list Z) (suffixes : list (list Z)) (s : Hasher) : list (list Z) :=
  match suffixes with
  | [] => []
  | suffix :: suffixes =>
      let s := hash_suffix prefix suffix s in hs_digest s :: hash_all prefix suffixes s
  end.

(** The reused buffers of the counter hasher never leak from one call into
    another: in any sequence of suffixes, growing, shrinking or crossing a block
    boundary, each digest is the SHA-256 of the prefix followed by that suffix,
    as long as the message is below [2 ^ 29] bytes (the hasher writes only the
    low word of the length). *)
Theorem createCounterHasher_digests (prefix : list Z) (suffixes : list (list Z)) :
  Forall byte prefix ->
  Forall (fun suffix => Forall byte suffix /\
            Z.of_nat (length prefix + length suffix) < 2 ^ 29) suffixes ->
  hash_all prefix suffixes createCounterHasher =
    (fun suffix => Standard.digest (prefix ++ suffix)) <$> suffixes.
Proof.
  intros Hp Hs. pose proof (createCounterHasher_ok prefix) as Hok. revert Hok.
  generalize createCounterHasher. induction Hs as [|suffix suffixes [Hb Hl] _ IH]; intros s Hok; [done|].
  rewrite fmap_cons. cbn [hash_all].
  destruct (hash_suffix_ok prefix Hp s suffix Hok Hb Hl) as [Hok' E]. rewrite E. f_equal. by apply IH.
Qed.

Definition codes (s : string) : list Z := (fun c => Z.of_nat (nat_of_ascii c)) <$> String.list_ascii_of_string s.

Lemma codes_bytes s : Forall byte (codes s).
Proof.
  apply Forall_fmap, Forall_forall. intros c _. cbn. pose proof (nat_ascii_bounded c).
  unfold byte. lia.
Qed.

Lemma sha256_is_standard_witness :
  sha256 (codes "abc") = Standard.digest (codes "abc") /\
  take 4 (sha256 (codes "abc")) = [0xba; 0x78; 0x16; 0xbf].
Proof.
  split; [|vm_compute; reflexivity].
  exact (sha256_is_standard (codes "abc") (codes_bytes "abc") ltac:(vm_compute; reflexivity)).
Defined.

Lemma createCounterHasher_digests_witness :
  hash_all (codes "id:nonce:secure-name:") (codes <$> ["9"; "10"; "7"]) createCounterHasher =
  (fun suffix => Standard.digest (codes "id:nonce:secure-name:" ++ suffix)) <$>
    (codes <$> ["9"; "10"; "7"]).
Proof.
  apply createCounterHasher_digests; [apply codes_bytes|].
  apply Forall_fmap, Forall_forall. intros s Hs. unfold compose.
  split; [apply codes_bytes|].
  repeat (apply elem_of_cons in Hs as [->|Hs]; [vm_compute; reflexivity|]).
  by apply not_elem_of_nil in Hs.
Defined.
