(* ===== verification/ProofOfWork.v ===== *)
(** * Proof of work

    [services/checkout/src/lib/proof-of-work.ts] and
    [services/checkout/src/lib/server/proof-of-work.ts]: the difficulty test, the
    solver over the counter hasher, and the service that issues challenges and
    consumes proofs, on its table of challenges.  A transaction that throws is
    rolled back, so a failed verification leaves the table as it was.

    The digest of the server, [createHash('sha256')], is a parameter. *)

From Stdlib Require Import DecimalString DecimalN.
From S2P Require Import Prelude Sha256.

Open Scope stdpp_scope.

(** ** Difficulty *)

(** [digest[i]], which is [undefined] out of range. *)
Definition byte_at (digest : list Z) (i : nat) : option Z := digest !! i.

Definition hasLeadingZeroBits (digest : list Z) (bits : nat) : bool :=
  let completeBytes := Nat.div bits 8 in
  if negb (forallb (fun i => match byte_at digest i with Some 0%Z => true | _ => false end)
             (seq 0 completeBytes)) then false
  else
    let remainingBits := Nat.modulo bits 8 in
    Nat.eqb remainingBits 0 ||
    (band (default 255 (byte_at digest completeBytes)) (shl 0xff (8 - Z.of_nat remainingBits)) =? 0)%Z.

(** ** Text *)

(** [String(n)] of a counter, and the digits of a counter in a proof. *)
Definition decimal (n : N) : string := NilEmpty.string_of_uint (N.to_uint n).
Definition read_decimal (s : string) : option N := N.of_uint <$> NilEmpty.uint_of_string s.

Fixpoint utf8 (s : string) : list Z :=
  match s with
  | EmptyString => []
  | String c s =>
      let n := Z.of_nat (nat_of_ascii c) in
      if (n <? 128)%Z then n :: utf8 s
      else (192 + n / 64)%Z :: (128 + n mod 64)%Z :: utf8 s
  end.

Definition is_digit (c : ascii) : bool :=
  let n := nat_of_ascii c in Nat.leb 48 n && Nat.leb n 57.
(** [[0-9a-f-]]. *)
Definition is_id_char (c : ascii) : bool :=
  let n := nat_of_ascii c in is_digit c || (Nat.leb 97 n && Nat.leb n 102) || Nat.eqb n 45.

(** ** The solver *)

Record ProofOfWorkChallenge := {
  ch_id : string;
  ch_nonce : string;
  ch_purpose : string;
  ch_difficultyBits : nat;
  ch_expiresAt : Z
}.

Definition challenge_prefix (id nonce purpose : string) : string :=
  id +:+ ":" +:+ nonce +:+ ":" +:+ purpose +:+ ":".

Definition chunkSize : nat := 50000.

(** The inner loop: a counter that solves the challenge, or where it stopped. *)
Fixpoint solve_chunk (prefix : list Z) (bits : nat) (turns : nat) (counter : N) (s : Hasher) :
    (N + N) * Hasher :=
  match turns with
  | 0 => (inr counter, s)
  | S turns =>
      let s := hash_suffix prefix (codes (decimal counter)) s in
      if hasLeadingZeroBits (hs_digest s) bits then (inl counter, s)
      else solve_chunk prefix bits turns (N.succ counter) s
  end.

(** The outer loop on the answers of [deadline()]; [None] is a loop still running
    when the answers end. *)
Fixpoint solve_loop (prefix : list Z) (bits : nat) (deadline : list bool) (counter : N) (s : Hasher) :
    option (result N) :=
  match deadline with
  | [] => None
  | false :: _ => Some (Throw "The local proof-of-work challenge expired. Please retry.")
  | true :: deadline =>
      match solve_chunk prefix bits chunkSize counter s with
      | (inl counter, _) => Some (Ok counter)
      | (inr counter, s) => solve_loop prefix bits deadline counter s
      end
  end.

Definition solveChallenge (challenge : ProofOfWorkChallenge) (deadline : list bool) :
    option (result N) :=
  solve_loop
    (utf8 (challenge_prefix (ch_id challenge) (ch_nonce challenge) (ch_purpose challenge)))
    (ch_difficultyBits challenge) deadline 0 createCounterHasher.

(** The value of the header [x-proof-of-work]. *)
Definition proof_header (challenge : ProofOfWorkChallenge) (counter : N) : string :=
  ch_id challenge +:+ "." +:+ decimal counter.

(** ** The service *)

Record ChallengeRow := {
  cr_id : string;
  cr_nonce : string;
  cr_purpose : string;
  cr_difficulty_bits : nat;
  cr_expires_at : Z;
  cr_used_at : option Z
}.

Record ProofOfWorkError := { pe_code : string; pe_message : string }.

Definition error (code message : string) : ProofOfWorkError :=
  {| pe_code := code; pe_message := message |}.

Definition used_error : ProofOfWorkError := error "PROOF_OF_WORK_USED"
  "The proof-of-work challenge has already been used. Retry to create a new challenge.".

Section Service.
Context (sha256_hex : list Z -> list Z) (difficultyBits : nat) (ttlSeconds : Z).

Definition proofDigest (id nonce purpose : string) (counter : N) : list Z :=
  sha256_hex (utf8 (challenge_prefix id nonce purpose +:+ decimal counter)).

(** The [DELETE] of [issue]. *)
Definition is_stale (now : Z) (row : ChallengeRow) : bool :=
  (cr_expires_at row <? now)%Z ||
  match cr_used_at row with Some used => (used <? now - ttlSeconds * 1000)%Z | None => false end.

(** [id] and [nonce] are drawn at random. *)
Definition issue (purpose id nonce : string) (now : Z) (table : list ChallengeRow) :
    ProofOfWorkChallenge * list ChallengeRow :=
  let challenge := {| ch_id := id; ch_nonce := nonce; ch_purpose := purpose;
                      ch_difficultyBits := difficultyBits;
                      ch_expiresAt := (now + ttlSeconds * 1000)%Z |} in
  (challenge,
   List.filter (fun row => negb (is_stale now row)) table ++
   [{| cr_id := id; cr_nonce := nonce; cr_purpose := purpose; cr_difficulty_bits := difficultyBits;
       cr_expires_at := (now + ttlSeconds * 1000)%Z; cr_used_at := None |}]).

Definition MAX_SAFE_INTEGER : N := 9007199254740991.

(** The identifier and the counter of a proof.  [Number] of sixteen digits is
    exact up to [MAX_SAFE_INTEGER] and not a safe integer beyond. *)
Definition parse_proof (proof : option string) : ProofOfWorkError + string * N :=
  match truthy proof with
  | None => inl (error "PROOF_OF_WORK_REQUIRED"
                  "Complete the local proof-of-work challenge and retry.")
  | Some proof =>
      let separator := js_index (last_index_of "." proof) in
      let id := if (0 <? separator)%Z then js_slice proof 0 separator else "" in
      let counterText := if (0 <? separator)%Z then js_slice_from proof (separator + 1) else "" in
      let len := String.length counterText in
      if negb (Nat.eqb (String.length id) 36 && string_forall is_id_char id) ||
         negb (Nat.leb 1 len && Nat.leb len 16 && string_forall is_digit counterText)
      then inl (error "PROOF_OF_WORK_INVALID" "The proof-of-work response is malformed.")
      else
        let counter := default 0%N (read_decimal counterText) in
        if negb (counter <=? MAX_SAFE_INTEGER)%N
        then inl (error "PROOF_OF_WORK_INVALID" "The proof-of-work counter is invalid.")
        else inr (id, counter)
  end.

Definition mark_used (id : string) (now : Z) (row : ChallengeRow) : ChallengeRow :=
  if bool_decide (cr_id row = id) && bool_decide (cr_used_at row = None)
  then {| cr_id := cr_id row; cr_nonce := cr_nonce row; cr_purpose := cr_purpose row;
          cr_difficulty_bits := cr_difficulty_bits row; cr_expires_at := cr_expires_at row;
          cr_used_at := Some now |}
  else row.

(** The rows an [UPDATE ... WHERE id = $2 AND used_at IS NULL] changes. *)
Definition to_mark (id : string) (table : list ChallengeRow) : list ChallengeRow :=
  List.filter (fun row => bool_decide (cr_id row = id) && bool_decide (cr_used_at row = None)) table.

Definition verifyAndConsume (purpose : string) (proof : option string) (now : Z)
    (table : list ChallengeRow) : ProofOfWorkError + list ChallengeRow :=
  match parse_proof proof with
  | inl e => inl e
  | inr (id, counter) =>
      match js_find (fun row => bool_decide (cr_id row = id)) table with
      | None => inl (error "PROOF_OF_WORK_INVALID"
                      "The proof-of-work challenge is invalid for this operation.")
      | Some row =>
          if negb (bool_decide (cr_purpose row = purpose))
          then inl (error "PROOF_OF_WORK_INVALID"
                     "The proof-of-work challenge is invalid for this operation.")
          else if bool_decide (is_Some (cr_used_at row)) then inl used_error
          else if (cr_expires_at row <? now)%Z
          then inl (error "PROOF_OF_WORK_EXPIRED"
                     "The proof-of-work challenge expired. Retry to create a new challenge.")
          else if negb (hasLeadingZeroBits (proofDigest (cr_id row) (cr_nonce row) purpose counter)
                          (cr_difficulty_bits row))
          then inl (error "PROOF_OF_WORK_INVALID"
                     "The proof-of-work response does not satisfy the challenge.")
          else if negb (Nat.eqb (length (to_mark id table)) 1) then inl used_error
          else inr (mark_used id now <$> table)
      end
  end.
End Service.

(** ** The difficulty test *)

Definition be_value (digest : list Z) : Z := fold_left (fun n b => n * 256 + b)%Z digest 0%Z.

Lemma be_value_from digest n :
  fold_left (fun n b => n * 256 + b)%Z digest n =
  (n * 256 ^ Z.of_nat (length digest) + be_value digest)%Z.
Proof.
  unfold be_value. revert n. induction digest as [|b digest IH]; intros n; cbn [fold_left length]; [lia|].
  rewrite IH, (IH (0 * 256 + b)%Z), Nat2Z.inj_succ, Z.pow_succ_r by lia. lia.
Qed.

Lemma be_value_app a b :
  be_value (a ++ b) = (be_value a * 256 ^ Z.of_nat (length b) + be_value b)%Z.
Proof. unfold be_value at 1. rewrite fold_left_app. apply be_value_from. Qed.

Lemma be_value_bounds digest : Forall byte digest ->
  (0 <= be_value digest < 256 ^ Z.of_nat (length digest))%Z.
Proof.
  induction digest as [|b digest IH] using rev_ind; [cbn; lia|]. intros [Hd Hb]%Forall_app.
  specialize (IH Hd). apply Forall_inv in Hb. rewrite be_value_app, length_app. cbn [length].
  rewrite Nat2Z.inj_add, Z.pow_add_r by lia. unfold byte in Hb. cbn. lia.
Qed.

Lemma be_value_zero digest : Forall byte digest ->
  be_value digest = 0%Z <-> Forall (fun b => b = 0%Z) digest.
Proof.
  induction digest as [|b digest IH] using rev_ind; [done|]. intros [Hd Hb]%Forall_app.
  rewrite be_value_app, Forall_app, Forall_singleton, <- IH by done.
  pose proof (be_value_bounds _ Hd). apply Forall_inv in Hb. unfold byte in Hb. cbn. lia.
Qed.

Lemma zero_prefix digest k :
  forallb (fun i => match byte_at digest i with Some 0%Z => true | _ => false end) (seq 0 k) = true <->
  k <= length digest /\ Forall (fun b => b = 0%Z) (take k digest).
Proof.
  rewrite forallb_forall. split.
  - intros H. assert (forall i, i < k -> digest !! i = Some 0%Z) as Hz.
    { intros i Hi. specialize (H i (proj2 (in_seq k 0 i) ltac:(lia))). unfold byte_at in H.
      destruct (digest !! i) as [[]|]; done. }
    split.
    + destruct k as [|k]; [lia|]. apply lookup_lt_Some with (x := 0%Z). apply Hz. lia.
    + apply Forall_lookup. intros i b [Hi Hlt]%lookup_take_Some. specialize (Hz i Hlt). congruence.
  - intros [Hk Hz] i [_ Hi]%in_seq. unfold byte_at.
    destruct (lookup_lt_is_Some_2 digest i) as [b Hb]; [lia|]. rewrite Hb.
    rewrite Forall_lookup in Hz. rewrite (Hz i b); [done|]. rewrite lookup_take_lt by lia. done.
Qed.

Definition top_bits_clear (b : Z) (r : nat) : bool :=
  (band b (shl 0xff (8 - Z.of_nat r)) =? 0)%Z.

Lemma top_bits_spec b r : byte b -> 1 <= r <= 7 ->
  top_bits_clear b r = true <-> (b < 2 ^ (8 - Z.of_nat r))%Z.
Proof.
  intros Hb Hr. assert (forallb (fun r => forallb (fun b =>
    Bool.eqb (top_bits_clear (Z.of_nat b) r) (Z.of_nat b <? 2 ^ (8 - Z.of_nat r))%Z)
    (seq 0 256)) (seq 1 7) = true) as H by (vm_compute; reflexivity).
  rewrite forallb_forall in H. specialize (H r (proj2 (in_seq 7 1 r) ltac:(lia))).
  rewrite forallb_forall in H. unfold byte in Hb.
  specialize (H (Z.to_nat b) (proj2 (in_seq 256 0 (Z.to_nat b)) ltac:(lia))).
  rewrite Z2Nat.id in H by lia. apply eqb_prop in H. rewrite H. apply Z.ltb_lt.
Qed.

Lemma leading_zeros_spec digest bits : Forall byte digest ->
  hasLeadingZeroBits digest bits = true <->
  bits <= 8 * length digest /\ (be_value digest < 2 ^ (8 * Z.of_nat (length digest) - Z.of_nat bits))%Z.
Proof.
  intros Hb. unfold hasLeadingZeroBits. set (k := bits / 8). set (r := bits mod 8).
  pose proof (Nat.div_mod bits 8 ltac:(lia)) as Hbits. fold k r in Hbits.
  pose proof (Nat.mod_upper_bound bits 8 ltac:(lia)) as Hr. fold r in Hr. clearbody k r. subst bits.
  pose proof (zero_prefix digest k) as Hz.
  destruct (forallb _ (seq 0 k)); cbn [negb].
  2: { split; [discriminate|]. intros [Hle Hlt]. exfalso. enough (false = true) by done. apply Hz.
       split; [lia|]. apply be_value_zero; [by apply Forall_take|].
       rewrite <- (take_drop k digest), be_value_app in Hlt at 1.
       pose proof (be_value_bounds _ (Forall_take _ k _ Hb)).
       pose proof (be_value_bounds _ (Forall_drop _ k _ Hb)).
       rewrite length_drop in *. set (e := Z.of_nat (length digest - k)) in *.
       assert (2 ^ (8 * Z.of_nat (length digest) - Z.of_nat (8 * k + r)) <= 256 ^ e)%Z as Hpow.
       { change 256%Z with (2 ^ 8)%Z. rewrite <- Z.pow_mul_r by lia. apply Z.pow_le_mono_r; lia. }
       nia. }
  destruct Hz as [Hz _]. specialize (Hz eq_refl) as [Hk Hz].
  apply be_value_zero in Hz; [|by apply Forall_take].
  assert (be_value digest = be_value (drop k digest)) as ->.
  { rewrite <- (take_drop k digest) at 1. rewrite be_value_app, Hz. lia. }
  assert (length digest = k + length (drop k digest)) as Hlen by (rewrite length_drop; lia).
  pose proof (Forall_drop _ k _ Hb) as Hd.
  assert (byte_at digest k = head (drop k digest)) as Hat.
  { unfold byte_at. rewrite head_lookup, lookup_drop, Nat.add_0_r. done. }
  rewrite Hat, Hlen. clear Hat Hlen Hk Hz. revert Hd. generalize (drop k digest). intros rest Hd.
  destruct (Nat.eqb_spec r 0) as [->|Hr0]; cbn [orb].
  - split; [intros _|done]. split; [lia|].
    replace (8 * Z.of_nat (k + length rest) - Z.of_nat (8 * k + 0))%Z with (8 * Z.of_nat (length rest))%Z by lia.
    rewrite Z.pow_mul_r by lia. apply (be_value_bounds _ Hd).
  - fold (top_bits_clear (default 255%Z (head rest)) r).
    destruct rest as [|b rest]; cbn [head default length].
    + split; [|lia]. intros H. apply top_bits_spec in H; [|unfold byte; lia|lia].
      exfalso. assert (2 ^ (8 - Z.of_nat r) <= 2 ^ 7)%Z by (apply Z.pow_le_mono_r; lia). lia.
    + apply Forall_cons in Hd as [Hbyte Hd]. rewrite top_bits_spec by (done || lia).
      change (b :: rest) with ([b] ++ rest). rewrite be_value_app. change (be_value [b]) with (0 * 256 + b)%Z.
      pose proof (be_value_bounds _ Hd) as Hv.
      replace (8 * Z.of_nat (k + S (length rest)) - Z.of_nat (8 * k + r))%Z with
        ((8 - Z.of_nat r) + 8 * Z.of_nat (length rest))%Z by lia.
      rewrite Z.pow_add_r, (Z.pow_mul_r 2 8) by lia. change (2 ^ 8)%Z with 256%Z.
      assert (0 < 256 ^ Z.of_nat (length rest))%Z by lia.
      set (p := (256 ^ Z.of_nat (length rest))%Z) in *. set (q := (2 ^ (8 - Z.of_nat r))%Z).
      clearbody p q. unfold id.
      split.
      * intros Hlt. split; [lia|].
        assert ((b + 1) * p <= q * p)%Z by (apply Z.mul_le_mono_nonneg_r; [lia|]; lia). lia.
      * intros [_ Hlt]. apply (Z.mul_lt_mono_pos_r p); lia.
Qed.

(** ** Text *)

Lemma string_of_uint_digits d : string_forall is_digit (NilEmpty.string_of_uint d) = true.
Proof. by induction d. Qed.

Lemma utf8_app s t : utf8 (s +:+ t) = utf8 s ++ utf8 t.
Proof. induction s as [|c s IH]; cbn; [done|]. rewrite IH. by case_match. Qed.

Lemma utf8_bytes s : Forall byte (utf8 s).
Proof.
  induction s as [|c s IH]; cbn; [constructor|]. pose proof (nat_ascii_bounded c).
  destruct (Z.ltb_spec (Z.of_nat (nat_of_ascii c)) 128); repeat constructor; try done;
    unfold byte; Z.to_euclidean_division_equations; lia.
Qed.

Lemma utf8_digits s : string_forall is_digit s = true -> utf8 s = codes s.
Proof.
  induction s as [|c s IH]; cbn; [done|]. intros [Hc Hs]%andb_prop. unfold is_digit in Hc.
  apply andb_prop in Hc as [_ Hc%Nat.leb_le].
  destruct (Z.ltb_spec (Z.of_nat (nat_of_ascii c)) 128); [|lia]. by rewrite IH.
Qed.

Lemma utf8_decimal n : utf8 (decimal n) = codes (decimal n).
Proof. apply utf8_digits, string_of_uint_digits. Qed.

Lemma read_decimal_decimal n : read_decimal (decimal n) = Some n.
Proof. unfold read_decimal, decimal. rewrite NilEmpty.usu. cbn. by rewrite Unsigned.of_to. Qed.

(** ** The solver *)

Section Solve.
Context (id nonce purpose : string) (bits : nat).

(** The digest both sides test. *)
Definition solves (counter : N) : bool :=
  hasLeadingZeroBits (Standard.digest (utf8 (challenge_prefix id nonce purpose +:+ decimal counter))) bits.

Let prefix := utf8 (challenge_prefix id nonce purpose).

(** The message with this counter is short enough for the hasher. *)
Definition fits (counter : N) : Prop :=
  (Z.of_nat (length prefix + length (codes (decimal counter))) < 2 ^ 29)%Z.

Lemma solve_chunk_spec turns : forall counter s,
  hasher_ok prefix s -> (forall c, (counter <= c < counter + N.of_nat turns)%N -> fits c) ->
  match solve_chunk prefix bits turns counter s with
  | (inl found, _) => solves found = true /\ (counter <= found < counter + N.of_nat turns)%N /\
      forall c, (counter <= c < found)%N -> solves c = false
  | (inr next, s') => hasher_ok prefix s' /\ next = (counter + N.of_nat turns)%N /\
      forall c, (counter <= c < next)%N -> solves c = false
  end.
Proof.
  induction turns as [|turns IH]; intros counter s Hok Hfit; cbn [solve_chunk].
  { split; [done|]. split; [lia|]. intros c Hc. lia. }
  destruct (hash_suffix_ok prefix (utf8_bytes _) s (codes (decimal counter)) Hok (codes_bytes _)
    (Hfit counter ltac:(lia))) as [Hok' Ed].
  rewrite Ed. assert (hasLeadingZeroBits (Standard.digest (prefix ++ codes (decimal counter))) bits =
    solves counter) as -> by (unfold solves; by rewrite utf8_app, utf8_decimal).
  destruct (solves counter) eqn:Es.
  { split; [done|]. split; [lia|]. intros c Hc. lia. }
  specialize (IH (N.succ counter) _ Hok'). destruct (solve_chunk _ _ _ _ _) as [[found|next] s'].
  - destruct IH as (? & ? & Hlt); [intros c Hc; apply Hfit; lia|]. split; [done|]. split; [lia|].
    intros c Hc. destruct (decide (c = counter)) as [->|]; [done|]. apply Hlt. lia.
  - destruct IH as (? & ? & Hlt); [intros c Hc; apply Hfit; lia|]. split; [done|]. split; [lia|].
    intros c Hc. destruct (decide (c = counter)) as [->|]; [done|]. apply Hlt. lia.
Qed.

Lemma solve_loop_spec deadline : forall counter s,
  hasher_ok prefix s ->
  (forall c, (c < counter + N.of_nat (length deadline) * N.of_nat chunkSize)%N -> fits c) ->
  (forall c, (c < counter)%N -> solves c = false) ->
  match solve_loop prefix bits deadline counter s with
  | Some (Ok found) => solves found = true /\ forall c, (c < found)%N -> solves c = false
  | Some (Throw _) => exists polls rest, deadline = replicate polls true ++ false :: rest /\
      forall c, (c < counter + N.of_nat polls * N.of_nat chunkSize)%N -> solves c = false
  | None => deadline = replicate (length deadline) true
  end.
Proof.
  induction deadline as [|[] deadline IH]; intros counter s Hok Hfit Hbelow; cbn [solve_loop]; [done| |].
  - pose proof (solve_chunk_spec chunkSize counter s Hok) as Hc. cbn [length] in Hfit.
    destruct (solve_chunk prefix bits chunkSize counter s) as [[found|next] s'].
    + destruct Hc as (? & ? & Hlt); [intros c Hc; apply Hfit; lia|]. split; [done|].
      intros c Hc. destruct (decide (c < counter)%N); [by apply Hbelow|]. apply Hlt. lia.
    + destruct Hc as (Hok' & -> & Hlt); [intros c Hc; apply Hfit; lia|].
      specialize (IH (counter + N.of_nat chunkSize)%N s' Hok').
      destruct (solve_loop _ _ _ _ _) as [[found|m]|].
      * apply IH; [intros c Hc; apply Hfit; lia|].
        intros c Hc. destruct (decide (c < counter)%N); [by apply Hbelow|]. apply Hlt. lia.
      * destruct IH as (polls & rest & -> & Hs); [intros c Hc; apply Hfit; lia| |].
        { intros c Hc. destruct (decide (c < counter)%N); [by apply Hbelow|]. apply Hlt. lia. }
        exists (S polls), rest. split; [done|]. intros c Hc. apply Hs. lia.
      * cbn. f_equal. apply IH; [intros c Hc; apply Hfit; lia|].
        intros c Hc. destruct (decide (c < counter)%N); [by apply Hbelow|]. apply Hlt. lia.
  - exists 0, deadline. split; [done|]. intros c Hc. apply Hbelow. lia.
Qed.
End Solve.

(** ** The service *)

Section ServiceTheory.
Context (sha256_hex : list Z -> list Z) (difficultyBits : nat) (ttlSeconds : Z).

Lemma mark_used_ids id now (table : list ChallengeRow) : cr_id <$> (mark_used id now <$> table) = cr_id <$> table.
Proof.
  rewrite <- list_fmap_compose. apply list_fmap_ext. intros i row _. unfold compose, mark_used.
  by case_match.
Qed.

(** What a successful verification found, and what it wrote. *)
Lemma verify_inr purpose proof now table table' :
  verifyAndConsume sha256_hex purpose proof now table = inr table' ->
  exists id counter row, parse_proof proof = inr (id, counter) /\ row ∈ table /\ cr_id row = id /\
    cr_purpose row = purpose /\ cr_used_at row = None /\ (now <= cr_expires_at row)%Z /\
    hasLeadingZeroBits (proofDigest sha256_hex id (cr_nonce row) purpose counter)
      (cr_difficulty_bits row) = true /\
    table' = (mark_used id now <$> table).
Proof.
  unfold verifyAndConsume. destruct (parse_proof proof) as [e|[id counter]]; [discriminate|].
  destruct (js_find _ table) as [row|] eqn:Ef; [|discriminate].
  apply js_find_Some in Ef as [Hin Hid%bool_decide_eq_true].
  case_bool_decide as Hp; cbn [negb]; [|discriminate].
  case_bool_decide as Hu; [discriminate|].
  destruct (Z.ltb_spec (cr_expires_at row) now); [discriminate|].
  destruct (hasLeadingZeroBits _ _) eqn:Ez; cbn [negb]; [|discriminate].
  destruct (Nat.eqb _ _); cbn [negb]; [|discriminate]. intros [= <-].
  exists id, counter, row. rewrite Hid in Ez. repeat split; try done.
  by apply eq_None_not_Some.
Qed.

(** The state with its history: the identifiers issued and the proofs consumed. *)
Record Ledger := {
  lg_table : list ChallengeRow;
  lg_issued : list string;
  lg_consumed : list string
}.

Definition empty_ledger : Ledger := {| lg_table := []; lg_issued := []; lg_consumed := [] |}.

(** Challenges are issued under identifiers never used before; a proof is
    verified at any time by anyone, and a failure changes nothing. *)
Inductive ledger_step (l : Ledger) : Ledger -> Prop :=
| lg_issue purpose id nonce now challenge table' :
    id ∉ lg_issued l ->
    issue difficultyBits ttlSeconds purpose id nonce now (lg_table l) = (challenge, table') ->
    ledger_step l {| lg_table := table'; lg_issued := id :: lg_issued l; lg_consumed := lg_consumed l |}
| lg_verify purpose proof now id counter table' :
    verifyAndConsume sha256_hex purpose proof now (lg_table l) = inr table' ->
    parse_proof proof = inr (id, counter) ->
    ledger_step l {| lg_table := table'; lg_issued := lg_issued l; lg_consumed := id :: lg_consumed l |}.

Record ledger_ok (l : Ledger) : Prop := {
  lo_ids : NoDup (cr_id <$> lg_table l);
  lo_issued : forall row, row ∈ lg_table l -> cr_id row ∈ lg_issued l;
  lo_consumed : forall id, id ∈ lg_consumed l -> id ∈ lg_issued l;
  lo_used : forall row, row ∈ lg_table l -> cr_id row ∈ lg_consumed l -> is_Some (cr_used_at row);
  lo_once : NoDup (lg_consumed l)
}.

Lemma sublist_filter {A} (p : A -> bool) (l : list A) : sublist (List.filter p l) l.
Proof. induction l as [|x l IH]; cbn; [constructor|]. destruct (p x); by constructor. Qed.

Lemma ledger_step_ok l l' : ledger_ok l -> ledger_step l l' -> ledger_ok l'.
Proof.
  intros [Hids His Hco Hus Hon] [purpose id nonce now challenge table' Hfresh Hissue|
    purpose proof now id counter table' Hv Hp].
  - injection Hissue as _ <-. set (kept := List.filter _ (lg_table l)).
    assert (forall row, row ∈ kept -> row ∈ lg_table l) as Hkept.
    { intros row. subst kept. rewrite !list_elem_of_In. apply List.filter_In. }
    split; cbn [lg_table lg_issued lg_consumed].
    + rewrite fmap_app. apply NoDup_app. split; [|split].
      * eapply sublist_NoDup; [exact Hids|]. apply fmap_sublist, sublist_filter.
      * intros x (row & -> & Hr)%list_elem_of_fmap E%list_elem_of_singleton. cbn in E.
        apply Hfresh. rewrite <- E. auto.
      * apply NoDup_singleton.
    + intros row [Hr|E%list_elem_of_singleton]%elem_of_app; [right; auto|subst; left].
    + intros x Hx. right. auto.
    + intros row [Hr|E%list_elem_of_singleton]%elem_of_app Hc; [auto|].
      exfalso. subst. by apply Hfresh, Hco.
    + done.
  - apply verify_inr in Hv as (id' & c' & row & Hp' & Hin & Hid & _ & Hnone & _ & _ & ->).
    rewrite Hp in Hp'. injection Hp' as <- <-.
    split; cbn [lg_table lg_issued lg_consumed].
    + by rewrite mark_used_ids.
    + intros r (r0 & -> & Hr)%list_elem_of_fmap. unfold mark_used. case_match; cbn; auto.
    + intros x [->|Hx]%elem_of_cons; [|auto]. rewrite <- Hid. auto.
    + intros r (r0 & -> & Hr)%list_elem_of_fmap Hc. unfold mark_used in *.
      destruct (bool_decide_reflect (cr_id r0 = id)) as [E|E]; cbn [andb] in *.
      * case_bool_decide as Hn; cbn; [done|]. by apply not_eq_None_Some.
      * apply elem_of_cons in Hc as [?|Hc]; [done|auto].
    + constructor; [|done]. intros Hc. rewrite <- Hid in Hc. destruct (Hus row Hin Hc). congruence.
Qed.
End ServiceTheory.

(** ** The length of a counter *)

Lemma length_double d :
  Decimal.nb_digits (Decimal.Little.double d) <= S (Decimal.nb_digits d) /\
  Decimal.nb_digits (Decimal.Little.succ_double d) <= S (Decimal.nb_digits d).
Proof. induction d; cbn in *; lia. Qed.

Lemma length_little p : Decimal.nb_digits (Pos.to_little_uint p) <= Pos.size_nat p.
Proof.
  induction p as [p IH|p IH|]; cbn [Pos.to_little_uint Pos.size_nat]; [| |done];
    pose proof (length_double (Pos.to_little_uint p)); lia.
Qed.

Lemma length_revapp d e : Decimal.nb_digits (Decimal.revapp d e) = Decimal.nb_digits d + Decimal.nb_digits e.
Proof. revert e. induction d; intros e; cbn; rewrite ?IHd; cbn; lia. Qed.

Lemma length_decimal n : length (codes (decimal n)) <= S (N.size_nat n).
Proof.
  assert (forall d, length (codes (NilEmpty.string_of_uint d)) = Decimal.nb_digits d) as Hd.
  { induction d; cbn; unfold codes in *; cbn; try rewrite IHd; try done; by f_equal. }
  unfold decimal. rewrite Hd. destruct n as [|p]; [cbn; lia|]. cbn [N.to_uint N.size_nat].
  unfold Pos.to_uint, Decimal.rev. rewrite length_revapp. pose proof (length_little p). cbn. lia.
Qed.

Lemma size_nat_le n k : (n < 2 ^ N.of_nat k)%N -> N.size_nat n <= k.
Proof.
  destruct n as [|p]; [cbn; lia|]. cbn [N.size_nat]. intros H.
  revert k H.
  induction p as [p IH|p IH|]; intros [|k] H; cbn [Pos.size_nat]; try (cbn in H; lia).
  - rewrite Nat2N.inj_succ, N.pow_succ_r in H by lia. enough (Pos.size_nat p <= k) by lia. apply IH. lia.
  - rewrite Nat2N.inj_succ, N.pow_succ_r in H by lia. enough (Pos.size_nat p <= k) by lia. apply IH. lia.
Qed.

Lemma counters_fit id nonce purpose c :
  (Z.of_nat (length (utf8 (challenge_prefix id nonce purpose))) < 2 ^ 28)%Z -> (c < 2 ^ 64)%N ->
  fits id nonce purpose c.
Proof.
  intros Hp Hc. unfold fits. pose proof (length_decimal c). pose proof (size_nat_le c 64 Hc). lia.
Qed.

(** ** Properties *)

(** The difficulty test means what it says: a digest of bytes passes for
    [bits] exactly when it has that many bits and, read as a big-endian number,
    is below [2 ^ (8 * length - bits)]. *)
Theorem hasLeadingZeroBits_exact (digest : list Z) (bits : nat) :
  Forall byte digest ->
  hasLeadingZeroBits digest bits = true <->
  bits <= 8 * length digest /\ (be_value digest < 2 ^ (8 * Z.of_nat (length digest) - Z.of_nat bits))%Z.
Proof. apply leading_zeros_spec. Qed.

Lemma hasLeadingZeroBits_exact_witness :
  hasLeadingZeroBits [0; 15; 255]%Z 12 = true /\ (be_value [0; 15; 255] < 2 ^ 12)%Z.
Proof.
  split; [reflexivity|].
  apply (hasLeadingZeroBits_exact [0; 15; 255]%Z 12); [|reflexivity].
  repeat constructor; cbn; lia.
Defined.

(** The solver returns the least solution: the counter it returns solves the
    challenge for the digest of the standard, and no smaller one does; it throws
    only after a poll of the deadline said so, and then no counter of the chunks
    searched solves the challenge. *)
Theorem solveChallenge_least (challenge : ProofOfWorkChallenge) (deadline : list bool) :
  let solution := solves (ch_id challenge) (ch_nonce challenge) (ch_purpose challenge)
                    (ch_difficultyBits challenge) in
  (Z.of_nat (length (utf8 (challenge_prefix (ch_id challenge) (ch_nonce challenge)
    (ch_purpose challenge)))) < 2 ^ 28)%Z ->
  (N.of_nat (length deadline) < 2 ^ 32)%N ->
  match solveChallenge challenge deadline with
  | Some (Ok counter) => solution counter = true /\ forall c, (c < counter)%N -> solution c = false
  | Some (Throw _) => exists polls rest, deadline = replicate polls true ++ false :: rest /\
      forall c, (c < N.of_nat polls * N.of_nat chunkSize)%N -> solution c = false
  | None => deadline = replicate (length deadline) true
  end.
Proof.
  intros solution Hp Hd. unfold solveChallenge.
  apply (solve_loop_spec _ _ _ (ch_difficultyBits challenge) deadline 0%N createCounterHasher).
  - apply createCounterHasher_ok.
  - intros c Hc. apply counters_fit; [done|].
    assert (N.of_nat chunkSize = 50000%N) as E by (vm_compute; reflexivity). rewrite E in Hc. lia.
  - intros c Hc. lia.
Qed.

Definition sample_challenge : ProofOfWorkChallenge :=
  {| ch_id := "01234567-89ab-cdef-0123-456789abcdef"; ch_nonce := "b"; ch_purpose := "secure-name";
     ch_difficultyBits := 3; ch_expiresAt := 1000 |}.

Lemma solveChallenge_least_witness :
  solves (ch_id sample_challenge) (ch_nonce sample_challenge) (ch_purpose sample_challenge) 3 1 = true /\
  solves (ch_id sample_challenge) (ch_nonce sample_challenge) (ch_purpose sample_challenge) 3 0 = false.
Proof.
  pose proof (solveChallenge_least sample_challenge [true] ltac:(reflexivity) ltac:(reflexivity)) as H.
  assert (solveChallenge sample_challenge [true] = Some (Ok 1%N)) as E by (vm_compute; reflexivity).
  rewrite E in H. destruct H as [H Hlt]. split; [exact H|apply Hlt; reflexivity].
Defined.

(** A challenge is consumed at most once.  In any history of issued
    challenges with fresh identifiers and of verifications of any proofs, no two
    successful verifications are of one challenge. *)
Theorem challenges_are_single_use (sha256_hex : list Z -> list Z) (difficultyBits : nat)
    (ttlSeconds : Z) (l : Ledger) :
  rtc (ledger_step sha256_hex difficultyBits ttlSeconds) empty_ledger l -> NoDup (lg_consumed l).
Proof.
  intros Hl. assert (ledger_ok empty_ledger) as H0.
  { split; try constructor; intros ? ?%not_elem_of_nil; done. }
  revert H0. induction Hl as [l|l1 l2 l3 Hs _ IH]; [by intros []|].
  intros Hok. by apply IH, (ledger_step_ok sha256_hex difficultyBits ttlSeconds l1 l2).
Qed.

(** ** A solved challenge is accepted *)

Lemma last_index_of_none c s : free_of c s = true -> last_index_of c s = None.
Proof.
  unfold free_of. induction s as [|d s IH]; cbn; [done|]. intros [Hd Hs]%andb_prop.
  rewrite IH by done. by destruct (Ascii.eqb c d).
Qed.

Lemma last_index_of_app c s t :
  free_of c t = true -> last_index_of c (s +:+ String c t) = Some (String.length s).
Proof.
  intros Ht. induction s as [|d s IH]; cbn.
  - by rewrite last_index_of_none, Ascii.eqb_refl.
  - by rewrite IH.
Qed.

Lemma take_app_string s t : string_take (String.length s) (s +:+ t) = s.
Proof. induction s as [|c s IH]; cbn; [done|by rewrite IH]. Qed.
Lemma take_all_string s : string_take (String.length s) s = s.
Proof. induction s as [|c s IH]; cbn; [done|by rewrite IH]. Qed.

Lemma slice_before s t : js_slice (s +:+ t) 0 (Z.of_nat (String.length s)) = s.
Proof.
  unfold js_slice. rewrite length_app_string, !(proj2 (Z.ltb_ge _ _)) by lia.
  rewrite (Z.min_l (Z.of_nat (String.length s))), Z.min_l by lia.
  rewrite Z.sub_0_r, Nat2Z.id. cbn [string_drop Z.to_nat]. destruct (s +:+ t) eqn:E; [|rewrite <- E].
  - by destruct s.
  - apply take_app_string.
Qed.

Lemma slice_after s c t :
  js_slice_from (s +:+ String c t) (Z.of_nat (String.length s) + 1) = t.
Proof.
  unfold js_slice_from, js_slice. rewrite length_app_string. cbn [String.length].
  rewrite !(proj2 (Z.ltb_ge _ _)) by lia. rewrite Z.min_id, Z.min_l by lia.
  replace (Z.to_nat (Z.of_nat (String.length s) + 1)) with (String.length (s +:+ String c "")).
  2: { rewrite length_app_string. cbn. lia. }
  replace (s +:+ String c t) with ((s +:+ String c "") +:+ t) by (by rewrite string_app_assoc).
  rewrite drop_app_string.
  replace (Z.to_nat _) with (String.length t); [apply take_all_string|].
  rewrite ?length_app_string. cbn. lia.
Qed.

Lemma parse_header id counter :
  String.length id = 36 -> string_forall is_id_char id = true ->
  String.length (decimal counter) <= 16 -> (counter <= MAX_SAFE_INTEGER)%N ->
  parse_proof (Some (id +:+ "." +:+ decimal counter)) = inr (id, counter).
Proof.
  intros Hlen Hid Hdec Hc. unfold parse_proof.
  assert (truthy (Some (id +:+ "." +:+ decimal counter)) = Some (id +:+ "." +:+ decimal counter)) as ->
    by (destruct id; [discriminate|done]).
  change ("." +:+ decimal counter) with (String "." (decimal counter)).
  assert (string_forall is_digit (decimal counter) = true) as Hdig by apply string_of_uint_digits.
  rewrite last_index_of_app.
  2: { eapply string_forall_impl; [|exact Hdig]. intros c Hdg.
       destruct (Ascii.eqb_spec "." c) as [<-|]; [discriminate|done]. }
  cbn [js_index]. rewrite (proj2 (Z.ltb_lt 0 _)) by lia. rewrite slice_before, slice_after.
  rewrite Hlen, Hid, Hdig. cbn [Nat.eqb andb negb orb].
  assert (1 <= String.length (decimal counter)) as H1.
  { pose proof (read_decimal_decimal counter) as Hr. destruct (decimal counter) eqn:E; [|cbn; lia].
    by destruct counter as [|p]. }
  rewrite (proj2 (Nat.leb_le 1 _)), (proj2 (Nat.leb_le _ 16)) by done. cbn [andb negb].
  rewrite read_decimal_decimal. change (default 0%N (Some counter)) with counter.
  by rewrite (proj2 (N.leb_le _ _)).
Qed.

(** Solver and service agree.  If the hash of the server is SHA-256, a
    challenge that was issued under a fresh identifier and solved is accepted
    until it expires, by its own table, with the header the client sends. *)
Theorem solved_challenges_are_accepted (sha256_hex : list Z -> list Z) (bits : nat) (ttl : Z)
    (purpose id nonce : string) (issued now : Z) (table table' : list ChallengeRow)
    (challenge : ProofOfWorkChallenge) (deadline : list bool) (counter : N) :
  (forall message, Forall byte message -> sha256_hex message = Standard.digest message) ->
  issue bits ttl purpose id nonce issued table = (challenge, table') ->
  id ∉ (cr_id <$> table) -> String.length id = 36 -> string_forall is_id_char id = true ->
  (Z.of_nat (length (utf8 (challenge_prefix id nonce purpose))) < 2 ^ 28)%Z ->
  (N.of_nat (length deadline) < 2 ^ 32)%N ->
  solveChallenge challenge deadline = Some (Ok counter) ->
  (counter <= MAX_SAFE_INTEGER)%N -> String.length (decimal counter) <= 16 ->
  (now <= ch_expiresAt challenge)%Z ->
  exists table'', verifyAndConsume sha256_hex purpose (Some (proof_header challenge counter)) now table'
    = inr table''.
Proof.
  intros Hsha [= <- <-] Hfresh Hlen Hid Hp Hd Hsolve Hc Hdec Hnow.
  set (kept := List.filter _ table). set (row := {| cr_id := id |}).
  assert (forall r, r ∈ kept -> cr_id r <> id) as Hkept.
  { intros r Hr E. apply Hfresh. apply list_elem_of_fmap. exists r. split; [done|].
    subst kept. rewrite list_elem_of_In in *. by apply List.filter_In in Hr as [? _]. }
  pose proof (solve_loop_spec id nonce purpose bits deadline 0%N createCounterHasher) as Hs.
  unfold solveChallenge in Hsolve. cbn [ch_id ch_nonce ch_purpose ch_difficultyBits] in Hsolve.
  rewrite Hsolve in Hs. destruct Hs as [Hs _].
  { apply createCounterHasher_ok. }
  { intros c Hlt. apply counters_fit; [done|].
    assert (N.of_nat chunkSize = 50000%N) as E by (vm_compute; reflexivity). rewrite E in Hlt. lia. }
  { intros c Hlt. lia. }
  unfold verifyAndConsume, proof_header. cbn [ch_id]. rewrite parse_header by done.
  assert (js_find (fun r => bool_decide (cr_id r = id)) (kept ++ [row]) = Some row) as ->.
  { clear -Hkept. induction kept as [|r kept IH]; cbn; [by rewrite bool_decide_true|].
    rewrite bool_decide_false by (apply Hkept; left). apply IH. intros x ?. apply Hkept. by right. }
  cbn [cr_purpose cr_used_at cr_expires_at cr_id cr_nonce cr_difficulty_bits row].
  rewrite bool_decide_true by done. rewrite bool_decide_false by (by intros [? [=]]).
  cbn [ch_expiresAt] in Hnow. rewrite (proj2 (Z.ltb_ge _ _)) by done. cbn [negb].
  unfold proofDigest. rewrite Hsha by apply utf8_bytes. unfold solves in Hs. rewrite Hs. cbn [negb].
  assert (length (to_mark id (kept ++ [row])) = 1) as ->; [|by eexists].
  unfold to_mark. rewrite List.filter_app, length_app. cbn. rewrite !bool_decide_true by done. cbn.
  enough (List.filter (fun r => bool_decide (cr_id r = id) && bool_decide (cr_used_at r = None)) kept = [])
    as -> by done.
  clear -Hkept. induction kept as [|r kept IH]; cbn; [done|].
  rewrite bool_decide_false by (apply Hkept; left). apply IH. intros x ?. apply Hkept. by right.
Qed.

(** ** Witnesses *)

Definition sample_issue : ProofOfWorkChallenge * list ChallengeRow :=
  issue 3 1 "secure-name" (ch_id sample_challenge) "b" 0 [].

Lemma solved_challenges_are_accepted_witness :
  exists table'', solveChallenge (fst sample_issue) [true] = Some (Ok 1%N) /\
    verifyAndConsume Standard.digest "secure-name" (Some (proof_header (fst sample_issue) 1)) 5
      (snd sample_issue) = inr table''.
Proof.
  assert (solveChallenge (fst sample_issue) [true] = Some (Ok 1%N)) as E by (vm_compute; reflexivity).
  destruct (solved_challenges_are_accepted Standard.digest 3 1 "secure-name" (ch_id sample_challenge)
    "b" 0 5 [] (snd sample_issue) (fst sample_issue) [true] 1 (fun m _ => eq_refl) eq_refl
    ltac:(apply not_elem_of_nil) eq_refl eq_refl ltac:(reflexivity) ltac:(reflexivity) E
    ltac:(discriminate) ltac:(cbn; lia) ltac:(discriminate)) as (table'' & H).
  exists table''. split; [exact E|exact H].
Defined.

Lemma challenges_are_single_use_witness :
  exists l, rtc (ledger_step Standard.digest 0 1) empty_ledger l /\
    lg_consumed l = [ch_id sample_challenge] /\ NoDup (lg_consumed l).
Proof.
  destruct (verifyAndConsume Standard.digest "secure-name" (Some (proof_header sample_challenge 7)) 5
    (snd (issue 0 1 "secure-name" (ch_id sample_challenge) "b" 0 []))) as [e|table] eqn:E;
    [vm_compute in E; discriminate|].
  assert (rtc (ledger_step Standard.digest 0 1) empty_ledger
    {| lg_table := table; lg_issued := [ch_id sample_challenge];
       lg_consumed := [ch_id sample_challenge] |}) as Hr.
  { eapply rtc_l.
    - apply (lg_issue _ _ _ _ "secure-name" (ch_id sample_challenge) "b" 0
        (fst (issue 0 1 "secure-name" (ch_id sample_challenge) "b" 0 []))
        (snd (issue 0 1 "secure-name" (ch_id sample_challenge) "b" 0 []))); [apply not_elem_of_nil|done].
    - apply rtc_once. exact (lg_verify _ _ _
        {| lg_table := snd (issue 0 1 "secure-name" (ch_id sample_challenge) "b" 0 []);
           lg_issued := [ch_id sample_challenge]; lg_consumed := [] |}
        "secure-name" (Some (proof_header sample_challenge 7)) 5 (ch_id sample_challenge) 7 table
        E eq_refl). }
  eexists. split; [exact Hr|]. split; [done|].
  exact (challenges_are_single_use Standard.digest 0 1 _ Hr).
Defined.
