(* ===== verification/Executor.v ===== *)
(** * Execution of physical programs

    [libs/aven-actors/src/executor.ts] with [factory.ts]: the generic executor
    that local and server hosts compose.  Everything the host owns - resolver,
    publisher, authorizer, factories and the actors they spawn - is one record of
    functions that answer from the whole log of calls made before, or reject; the
    log stays when an error is thrown, so [finally] is visible in it. *)

From S2P Require Import Prelude Term Contracts Json Actors Planner.
From S2P Require Import Registry Authorization Physical Run.

Open Scope stdpp_scope.
Open Scope js_scope.

(** ** Data *)

(** Identifiers, kinds and digests are strings; the value comes from outside. *)
Record RuntimeArtifact := {
  ra_artifactId : string;
  ra_predicate : string;
  ra_schema : string;
  ra_typeKey : string;
  ra_schemaVersion : Z;
  ra_contentDigest : string;
  ra_value : unknown
}.

Record RuntimeOutputDraft := {
  dr_slot : string;
  dr_role : string;
  dr_predicate : string;
  dr_schema : string;
  dr_value : unknown
}.

Record RuntimeInputBinding := { ib_slot : string; ib_role : string; ib_artifact : RuntimeArtifact }.

Record RuntimeStepPublication := {
  pb_publicationId : string;
  pb_runId : string;
  pb_stepId : string;
  pb_capabilityId : string;
  pb_inputs : list RuntimeInputBinding;
  pb_outputs : list RuntimeOutputDraft
}.

(** [{ ok: true, outputs, warnings? }]. *)
Record ActorStepResult := { as_outputs : jobject; as_warnings : option (list string) }.

Record ActorSpawnRequest := {
  sq_requestId : string;
  sq_runId : string;
  sq_principal : ActorPrincipal;
  sq_access : ActorAccessContext;
  sq_offerId : string;
  sq_requestedCapabilities : list string;
  sq_configuration : jobject;
  sq_inputs : list ActorAuthorizationInput;
  sq_resource : option jobject
}.

(** The factory's configuration may not be portable ([ad_portable]); then the
    field is what can be read of it. *)
Record Admission := {
  ad_admissionId : string;
  ad_expiresAt : string;
  ad_grantedCapabilities : list string;
  ad_normalizedConfiguration : jobject;
  ad_portable : result unit;
  ad_constraints : option AuthorizationConstraints
}.

Inductive ActorAdmissionDecision :=
| AdmissionGranted (admission : Admission)
| AdmissionRefused (decisionId reasonCode : string).

(** A factory and a spawned actor are objects of the host: their identity, and
    what the executor reads of them. *)
Record ActorFactory := { fy_object : nat; fy_offer : ActorFactoryOffer }.
Record SpawnedActor := {
  sp_object : nat;
  sp_uuid : string;
  sp_advertisement : ActorInstanceAdvertisement
}.

Inductive HostCall :=
| CResolve (artifactId predicate : string) (answer : result (option RuntimeArtifact))
| CFactory (factoryId : string) (answer : option ActorFactory)
| CDecide (request : ActorAuthorizationRequest) (answer : result ActorAuthorizationDecision)
| CAssess (factory : ActorFactory) (request : ActorSpawnRequest) (answer : result ActorAdmissionDecision)
| CSpawn (factory : ActorFactory) (request : ActorSpawnRequest) (admission : Admission)
    (answer : result SpawnedActor)
| CDeliver (spawned : SpawnedActor) (method : string) (payload : jobject) (answer : result HandlerResult)
| CRelease (spawned : SpawnedActor) (answer : result unit)
| CPublish (publication : RuntimeStepPublication) (answer : result (list RuntimeArtifact)).

Abbreviation CallLog := (list HostCall).

(** What the host answers.  [hs_rejection] says which of several concurrent
    rejections comes first. *)
Record Host := {
  hs_resolve : CallLog -> string -> string -> result (option RuntimeArtifact);
  hs_factory : CallLog -> string -> option ActorFactory;
  hs_decide : CallLog -> ActorAuthorizationRequest -> result ActorAuthorizationDecision;
  hs_assess : CallLog -> ActorFactory -> ActorSpawnRequest -> result ActorAdmissionDecision;
  hs_spawn : CallLog -> ActorFactory -> ActorSpawnRequest -> Admission -> result SpawnedActor;
  hs_deliver : CallLog -> SpawnedActor -> string -> jobject -> result HandlerResult;
  hs_release : CallLog -> SpawnedActor -> result unit;
  hs_publish : CallLog -> RuntimeStepPublication -> result (list RuntimeArtifact);
  hs_rejection : CallLog -> nat
}.

(** The host's services are arguments of the functions below.  Principal and
    access context have only strings, and are portable by their types. *)
Record PhysicalProgramExecutionRequest := {
  xq_runId : string;
  xq_program : PhysicalProgram;
  xq_registry : ActorRegistrySnapshot;
  xq_principal : ActorPrincipal;
  xq_access : ActorAccessContext;
  xq_parameters : option (result jobject);
  xq_resource : option (result jobject)
}.

Record PhysicalProgramExecutionResult := {
  xr_completedStepIds : list string;
  xr_artifacts : list RuntimeArtifact;
  xr_fulfilledPredicates : list string;
  xr_remainingGoals : list string;
  xr_registryRevision : nat;
  xr_policyDecisionIds : list string;
  xr_warnings : list string
}.

(** ** Asynchronous code *)

Definition Exec (A : Type) : Type := CallLog -> CallLog * result A.

#[export] Instance Exec_ret : MRet Exec := fun A a log => (log, Ok a).
#[export] Instance Exec_bind : MBind Exec := fun A B k m log =>
  let '(log, r) := m log in match r with Ok a => k a log | Throw e => (log, Throw e) end.

Definition lift {A} (r : result A) : Exec A := fun log => (log, r).

(** [try { body } finally { await cleanup }]. *)
Definition finally {A} (body : Exec A) (cleanup : Exec unit) : Exec A := fun log =>
  let '(log, r) := body log in
  let '(log, c) := cleanup log in
  (log, match c with Throw e => Throw e | Ok _ => r end).

Notation "'reject!' b 'as' m ; k" := (mbind (M := Exec) (fun _ : unit => k) (lift (throw_if b m)))
  (at level 100, b at next level, m at next level, k at level 200, right associativity) : js_scope.

Section Calls.
Context (h : Host).

Definition resolve_artifact (artifactId predicate : string) : Exec (option RuntimeArtifact) := fun log =>
  let answer := hs_resolve h log artifactId predicate in
  (log ++ [CResolve artifactId predicate answer], answer).
Definition resolve_factory (factoryId : string) : Exec (option ActorFactory) := fun log =>
  let answer := hs_factory h log factoryId in (log ++ [CFactory factoryId answer], Ok answer).
Definition ask_policy (request : ActorAuthorizationRequest) : Exec ActorAuthorizationDecision := fun log =>
  let answer := hs_decide h log request in (log ++ [CDecide request answer], answer).
Definition assess (factory : ActorFactory) (request : ActorSpawnRequest) : Exec ActorAdmissionDecision := fun log =>
  let answer := hs_assess h log factory request in (log ++ [CAssess factory request answer], answer).
Definition spawn (factory : ActorFactory) (request : ActorSpawnRequest) (admission : Admission) :
    Exec SpawnedActor := fun log =>
  let answer := hs_spawn h log factory request admission in
  (log ++ [CSpawn factory request admission answer], answer).
Definition deliver_to (spawned : SpawnedActor) (method : string) (payload : jobject) : Exec HandlerResult := fun log =>
  let answer := hs_deliver h log spawned method payload in
  (log ++ [CDeliver spawned method payload answer], answer).
Definition release (spawned : SpawnedActor) : Exec unit := fun log =>
  let answer := hs_release h log spawned in (log ++ [CRelease spawned answer], answer).
Definition publish (publication : RuntimeStepPublication) : Exec (list RuntimeArtifact) := fun log =>
  let answer := hs_publish h log publication in (log ++ [CPublish publication answer], answer).

(** [Promise.all]: every call is started, in order; of several rejections the
    first in time is thrown. *)
Fixpoint run_all {A} (ms : list (Exec A)) (log : CallLog) : CallLog * list (result A) :=
  match ms with
  | [] => (log, [])
  | m :: ms =>
      let '(log, r) := m log in let '(log, rs) := run_all ms log in (log, r :: rs)
  end.

Definition rejections {A} (rs : list (result A)) : list string :=
  omap (fun r => match r with Throw e => Some e | Ok _ => None end) rs.

Definition promise_all {A} (ms : list (Exec A)) : Exec (list A) := fun log =>
  let '(log, rs) := run_all ms log in
  (log, match rejections rs with
        | [] => mapM id rs
        | e :: es => Throw (nth (Nat.modulo (hs_rejection h log) (S (length es))) (e :: es) e)
        end).
End Calls.

(** ** Slots *)

Definition kind_text (input : bool) : string := if input then "input" else "output".

Definition cardinality_text (c : Cardinality) : string :=
  match c with One => "one" | Optional => "optional" | Many => "many" end.

Fixpoint check_declared (input : bool) (slots : list CapabilitySlot) (predicates : list string) : result unit :=
  match slots with
  | [] => Ok tt
  | slot :: slots =>
      let name := kind_text input +:+ " slot " +:+ sl_name slot in
      throw! negb (bool_decide (sl_cardinality slot = One))
        as name +:+ " uses unsupported " +:+ cardinality_text (sl_cardinality slot) +:+ " cardinality";
      throw! bool_decide (truthy (sl_schema slot) = None) as name +:+ " has no schema";
      throw! match truthy (head predicates) with
             | Some predicate => negb (unifiable (sl_predicate slot) predicate)
             | None => true
             end as name +:+ " does not bind capability predicate " +:+ default "undefined" (head predicates);
      check_declared input slots (tail predicates)
  end.

Definition validateDeclaredSlots (input : bool) (slots : option (list CapabilitySlot))
    (predicates : list string) : result (list CapabilitySlot) :=
  match slots with
  | None => Throw (kind_text input +:+ " slots must bind every capability predicate")
  | Some slots =>
      throw! negb (Nat.eqb (length slots) (length predicates))
        as kind_text input +:+ " slots must bind every capability predicate";
      _ ← check_declared input slots predicates;
      Ok slots
  end.

Fixpoint check_artifacts (input : bool) (index : nat) (slots : list CapabilitySlot)
    (artifacts : list RuntimeArtifact) : result unit :=
  match artifacts with
  | [] => Ok tt
  | artifact :: artifacts =>
      match slots with
      | [] => Throw ("missing " +:+ kind_text input +:+ " slot " +:+ pretty index)
      | slot :: slots =>
          let name := kind_text input +:+ " slot " +:+ sl_name slot in
          throw! negb (bool_decide (truthy (sl_schema slot) = Some (ra_schema artifact)))
            as name +:+ " requires schema " +:+ default "undefined" (sl_schema slot);
          throw! negb (unifiable (sl_predicate slot) (ra_predicate artifact))
            as name +:+ " does not accept " +:+ ra_predicate artifact;
          check_artifacts input (S index) slots artifacts
      end
  end.

Definition validateSlots (input : bool) (slots : option (list CapabilitySlot)) (predicates : list string)
    (artifacts : list RuntimeArtifact) : result unit :=
  slots ← validateDeclaredSlots input slots predicates;
  check_artifacts input 0 slots artifacts.

Definition slot_role (slot : CapabilitySlot) : string := default (sl_name slot) (sl_role slot).

Fixpoint bind_slots (c : Capability) (slots : list CapabilitySlot) (artifacts : list RuntimeArtifact) :
    result (list RuntimeInputBinding) :=
  match slots with
  | [] => Ok []
  | slot :: slots =>
      match artifacts with
      | [] => Throw (cap_id c +:+ " omitted input " +:+ sl_name slot)
      | artifact :: artifacts =>
          rest ← bind_slots c slots artifacts;
          Ok ({| ib_slot := sl_name slot; ib_role := slot_role slot; ib_artifact := artifact |} :: rest)
      end
  end.

Definition bindInputs (c : Capability) (artifacts : list RuntimeArtifact) : result (list RuntimeInputBinding) :=
  bind_slots c (default [] (cap_inputSlots c)) artifacts.

(** ** Results of actors *)

(** [candidate.warnings]: absent, a list of strings, or neither. *)
Definition parse_warnings (warnings : option json) : result (option (list string)) :=
  match warnings with
  | None => Ok None
  | Some (JArray items) =>
      match mapM (fun item => match item with JString s => Some s | _ => None end) items with
      | Some l => Ok (Some l)
      | None => Throw "actor returned invalid warnings"
      end
  | Some _ => Throw "actor returned invalid warnings"
  end.

(** What [JSON.parse] read is portable. *)
Definition parseActorStepResult (response : HandlerResult) : result ActorStepResult :=
  match hr_record response with
  | None => Throw "SyntaxError"
  | Some parsed =>
      match parsed with
      | JObject _ | JArray _ =>
          match json_get "ok" parsed, json_get "outputs" parsed with
          | Some (JBool true), Some (JObject outputs) =>
              warnings ← parse_warnings (json_get "warnings" parsed);
              Ok {| as_outputs := outputs; as_warnings := warnings |}
          | _, _ =>
              Throw match json_get "error" parsed with
                    | Some error => js_String error
                    | None => hr_wire response
                    end
          end
      | _ => Throw (hr_wire response)
      end
  end.

(** [name in outputs] and [outputs[name]] also see what every object inherits,
    none of which is data. *)
Definition output_value (name : string) (outputs : jobject) : option unknown :=
  match map_get name outputs with
  | Some value => Some (Ok value)
  | None => if includes OBJECT_PROTOTYPE name then Some (Throw "inherited") else None
  end.

Fixpoint drafts_of (c : Capability) (slots : list CapabilitySlot) (planned : list PlanValue)
    (outputs : jobject) : result (list RuntimeOutputDraft) :=
  match slots with
  | [] => Ok []
  | slot :: slots =>
      match output_value (sl_name slot) outputs with
      | None => Throw (cap_id c +:+ " omitted " +:+ sl_name slot)
      | Some value =>
          match truthy (pv_predicate <$> head planned), truthy (sl_schema slot) with
          | Some predicate, Some schema =>
              rest ← drafts_of c slots (tail planned) outputs;
              Ok ({| dr_slot := sl_name slot; dr_role := slot_role slot; dr_predicate := predicate;
                     dr_schema := schema; dr_value := value |} :: rest)
          | _, _ => Throw (cap_id c +:+ " has an incomplete output slot")
          end
      end
  end.

Definition outputDrafts (c : Capability) (step : PlanStep) (r : ActorStepResult) : result (list RuntimeOutputDraft) :=
  _ ← validateDeclaredSlots false (cap_outputSlots c) (cap_produces c);
  let slots := default [] (cap_outputSlots c) in
  match js_find (fun name => negb (existsb (fun slot => bool_decide (sl_name slot = name)) slots)) (as_outputs r).*1 with
  | Some unknown =>
      throw! negb (bool_decide (unknown = ""))
        as cap_id c +:+ " returned undeclared output slot " +:+ unknown;
      drafts_of c slots (st_outputs step) (as_outputs r)
  | None => drafts_of c slots (st_outputs step) (as_outputs r)
  end.

Definition assertPublishedOutput (artifact : RuntimeArtifact) (planned : PlanValue)
    (draft : option RuntimeOutputDraft) : result unit :=
  match draft with
  | None => Throw ("published artifact does not prove " +:+ pv_predicate planned)
  | Some draft =>
      throw! negb (unifiable (pv_predicate planned) (ra_predicate artifact))
        as "published artifact does not prove " +:+ pv_predicate planned;
      throw_if (negb (bool_decide (ra_schema artifact = dr_schema draft)))
        ("published artifact does not use " +:+ dr_schema draft)
  end.

(** ** Lookups *)

Definition stepValueKey (stepId : string) (output : nat) : string := stepId +:+ ":" +:+ pretty output.

Fixpoint find_capability (definitions : list ActorDefinition) (capabilityId : string) : option Capability :=
  match definitions with
  | [] => None
  | d :: definitions =>
      match js_find (fun c => bool_decide (cap_id c = capabilityId)) (ad_capabilities d) with
      | Some c => Some c
      | None => find_capability definitions capabilityId
      end
  end.

Definition capabilityFor (registry : ActorRegistrySnapshot) (capabilityId : string) : result Capability :=
  match find_capability (sn_definitions registry) capabilityId with
  | Some c => Ok c
  | None => Throw ("planned capability " +:+ capabilityId +:+ " is absent from registry revision")
  end.

Definition authorizationInputs (inputs : list RuntimeInputBinding) : list ActorAuthorizationInput :=
  (fun b => {| in_slot := ib_slot b; in_role := ib_role b; in_artifactId := ra_artifactId (ib_artifact b);
               in_predicate := ra_predicate (ib_artifact b); in_schema := ra_schema (ib_artifact b);
               in_typeKey := ra_typeKey (ib_artifact b);
               in_schemaVersion := ra_schemaVersion (ib_artifact b);
               in_contentDigest := ra_contentDigest (ib_artifact b) |}) <$> inputs.

(** ** Payloads *)

Definition artifact_json (a : RuntimeArtifact) : result json :=
  value ← ra_value a;
  Ok (JObject [("artifactId", JString (ra_artifactId a)); ("predicate", JString (ra_predicate a));
               ("schema", JString (ra_schema a)); ("typeKey", JString (ra_typeKey a));
               ("schemaVersion", JNumber (ra_schemaVersion a));
               ("contentDigest", JString (ra_contentDigest a)); ("value", value)]).

(** [boundInputs[input.slot] = input.artifact] for each input. *)
Definition bound_inputs (inputs : list RuntimeInputBinding) : list (string * RuntimeArtifact) :=
  fold_left (fun m b => map_set (ib_slot b) (ib_artifact b) m) inputs [].

(** The payload, when [assertPortableRunValue] accepts it. *)
Definition payload_of (runId stepId capabilityId : string) (inputs : list RuntimeInputBinding)
    (parameters : jobject) (admission : Admission) : result jobject :=
  bound ← mapM (fun e => j ← artifact_json e.2; Ok (e.1, j)) (bound_inputs inputs);
  _ ← ad_portable admission;
  Ok [("runId", JString runId); ("stepId", JString stepId); ("capabilityId", JString capabilityId);
      ("inputs", JObject bound); ("parameters", JObject parameters);
      ("configuration", JObject (ad_normalizedConfiguration admission))].

(** [set.add(x)] on a set in insertion order. *)
Definition set_add (x : string) (set : list string) : list string :=
  if includes set x then set else set ++ [x].

(** ** One step *)

Record ExecState := {
  es_values : list (string * RuntimeArtifact);
  es_completed : list string;
  es_published : list RuntimeArtifact;
  es_decisions : list string;
  es_warnings : list string
}.

Section Program.
Context (h : Host) (xq : PhysicalProgramExecutionRequest).
(** [request.parameters ?? {}] and [request.resource], found portable. *)
Context (parameters : jobject) (resource : option jobject).

Definition resolveValue (values : list (string * RuntimeArtifact)) (v : PlanValue) : Exec RuntimeArtifact :=
  match pv_source v with
  | SrcStep stepId output =>
      lift match map_get (stepValueKey stepId output) values with
           | Some artifact => Ok artifact
           | None => Throw ("uncommitted input " +:+ stepId +:+ ":" +:+ pretty output)
           end
  | SrcIngredient artifactId =>
      match truthy artifactId with
      | None => lift (Throw ("ingredient " +:+ pv_predicate v +:+ " has no artifact"))
      | Some artifactId =>
          found ← resolve_artifact h artifactId (pv_predicate v);
          match found with
          | None => lift (Throw ("artifact " +:+ artifactId +:+ " was not found"))
          | Some artifact =>
              reject! negb (unifiable (pv_predicate v) (ra_predicate artifact))
                as "artifact " +:+ ra_artifactId artifact +:+ " does not prove " +:+ pv_predicate v;
              mret artifact
          end
      end
  end.

Definition resolveInputs (inputs : list PlanValue) (values : list (string * RuntimeArtifact)) :
    Exec (list RuntimeArtifact) :=
  promise_all h (resolveValue values <$> inputs).

Definition step_request (action : ActorAuthorizationAction) (step : PlanStep) (definitionRef : string)
    (target : RequestTarget) (configuration : jobject) (inputs : list RuntimeInputBinding) :
    ActorAuthorizationRequest :=
  {| rq_action := action; rq_principal := xq_principal xq; rq_access := xq_access xq;
     rq_definitionRef := definitionRef; rq_capabilityId := Some (st_capability step);
     rq_method := Some (st_method step); rq_target := Some target;
     rq_configuration := Some configuration; rq_inputs := Some (authorizationInputs inputs);
     rq_runId := Some (xq_runId xq); rq_resource := resource |}.

(** What runs between the spawn and the release. *)
Definition use_actor (step : PlanStep) (capability : Capability) (definitionRef : string)
    (admission : Admission) (inputs : list RuntimeInputBinding) (decisions : list string)
    (spawned : SpawnedActor) : Exec (list RuntimeOutputDraft * list string * list string) :=
  let advertisement := sp_advertisement spawned in
  reject! negb (bool_decide (ai_definitionRef advertisement = definitionRef)) ||
          negb (bool_decide (ai_executionEnvironment advertisement = pp_executionEnvironment (xq_program xq))) ||
          negb (includes (ai_capabilityIds advertisement) (st_capability step))
    as "spawned actor does not satisfy " +:+ st_capability step;
  answer ← ask_policy h (step_request Invoke step definitionRef (RTInstance (ai_instanceId advertisement))
                       (ad_normalizedConfiguration admission) inputs);
  match answer with
  | Deny _ reasonCode => lift (Throw ("invoke denied: " +:+ reasonCode))
  | Allow allowance =>
      let decisions := set_add (al_decisionId allowance) decisions in
      payload ← lift (payload_of (xq_runId xq) (st_id step) (st_capability step) inputs parameters
                        admission);
      response ← deliver_to h spawned (st_method step) payload;
      parsed ← lift (parseActorStepResult response);
      drafts ← lift (outputDrafts capability step parsed);
      mret (drafts, default [] (as_warnings parsed), decisions)
  end.

Definition spawn_request (step : PlanStep) (offerId : string) (configuration : jobject)
    (allowance : Allowance) (inputs : list RuntimeInputBinding) : ActorSpawnRequest :=
  {| sq_requestId := xq_runId xq +:+ ":" +:+ st_id step +:+ ":spawn"; sq_runId := xq_runId xq;
     sq_principal := xq_principal xq; sq_access := xq_access xq; sq_offerId := offerId;
     sq_requestedCapabilities := [st_capability step];
     sq_configuration := spread configuration (al_constraints allowance ≫= ct_forcedConfiguration);
     sq_inputs := authorizationInputs inputs; sq_resource := resource |}.

(** Drafts, warnings and the decisions so far. *)
Definition executeFactoryStep (ps : PhysicalPlanStep) (capability : Capability)
    (inputs : list RuntimeInputBinding) (decisions : list string) :
    Exec (list RuntimeOutputDraft * list string * list string) :=
  let step := ps_step ps in
  match ps_target ps with
  | TInstance _ _ _ _ _ _ _ =>
      lift (Throw ("executor slice requires a factory target for " +:+ st_capability step))
  | TFactory offerId factoryId definitionRef configuration _ _ _ _ =>
      found ← resolve_factory h factoryId;
      match found with
      | None => lift (Throw ("factory implementation is unavailable for " +:+ offerId))
      | Some factory =>
          reject! negb (bool_decide (of_offerId (fy_offer factory) = offerId))
            as "factory implementation is unavailable for " +:+ offerId;
          answer ← ask_policy h (step_request Spawn step definitionRef (RTFactory offerId factoryId)
                               configuration inputs);
          match answer with
          | Deny _ reasonCode => lift (Throw ("spawn denied: " +:+ reasonCode))
          | Allow allowance =>
              let decisions := set_add (al_decisionId allowance) decisions in
              let request := spawn_request step offerId configuration allowance inputs in
              admitted ← assess h factory request;
              match admitted with
              | AdmissionRefused _ reasonCode => lift (Throw ("factory denied: " +:+ reasonCode))
              | AdmissionGranted admission =>
                  reject! negb (includes (ad_grantedCapabilities admission) (st_capability step))
                    as "factory admission omitted " +:+ st_capability step;
                  spawned ← spawn h factory request admission;
                  finally (use_actor step capability definitionRef admission inputs decisions spawned)
                          (release h spawned)
              end
          end
      end
  end.

(** [for (let index ...)]: the published artifacts against plan and drafts. *)
Fixpoint accept_outputs (stepId : string) (index : nat) (publication : list RuntimeArtifact)
    (planned : list PlanValue) (drafts : list RuntimeOutputDraft) (s : ExecState) : result ExecState :=
  match publication, planned with
  | [], _ => Ok s
  | artifact :: publication, value :: planned =>
      _ ← assertPublishedOutput artifact value (head drafts);
      _ ← ra_value artifact;
      accept_outputs stepId (S index) publication planned (tail drafts)
        {| es_values := map_set (stepValueKey stepId index) artifact (es_values s);
           es_completed := es_completed s; es_published := es_published s ++ [artifact];
           es_decisions := es_decisions s; es_warnings := es_warnings s |}
  | _ :: _, [] => Throw (stepId +:+ " omitted output " +:+ pretty index)
  end.

Definition publication_of (step : PlanStep) (inputs : list RuntimeInputBinding)
    (drafts : list RuntimeOutputDraft) : RuntimeStepPublication :=
  {| pb_publicationId := xq_runId xq +:+ ":" +:+ st_id step; pb_runId := xq_runId xq;
     pb_stepId := st_id step; pb_capabilityId := st_capability step; pb_inputs := inputs;
     pb_outputs := drafts |}.

(** One turn of the loop over the steps. *)
Definition run_step (ps : PhysicalPlanStep) (s : ExecState) : Exec ExecState :=
  let step := ps_step ps in
  let decisions := set_add (al_decisionId (tg_authorization (ps_target ps))) (es_decisions s) in
  reject! negb (bool_decide (tg_environment (ps_target ps) = pp_executionEnvironment (xq_program xq)))
    as st_id step +:+ " target violates the frozen execution environment";
  let missing := truthy (js_find (fun d => negb (includes (es_completed s) d)) (st_dependsOn step)) in
  reject! bool_decide (is_Some missing)
    as st_id step +:+ " depends on incomplete " +:+ default "" missing;
  capability ← lift (capabilityFor (xq_registry xq) (st_capability step));
  artifacts ← resolveInputs (st_inputs step) (es_values s);
  _ ← lift (validateSlots true (cap_inputSlots capability) (cap_requires capability) artifacts);
  inputs ← lift (bindInputs capability artifacts);
  '(drafts, warnings, decisions) ← executeFactoryStep ps capability inputs decisions;
  publication ← publish h (publication_of step inputs drafts);
  reject! negb (Nat.eqb (length publication) (length (st_outputs step)))
    as st_capability step +:+ " published " +:+ pretty (length publication) +:+ " artifacts for " +:+
       pretty (length (st_outputs step)) +:+ " planned outputs";
  lift (s ← accept_outputs (st_id step) 0 publication (st_outputs step) drafts
              {| es_values := es_values s; es_completed := es_completed s;
                 es_published := es_published s; es_decisions := decisions;
                 es_warnings := es_warnings s ++ warnings |};
        Ok {| es_values := es_values s; es_completed := es_completed s ++ [st_id step];
              es_published := es_published s; es_decisions := es_decisions s;
              es_warnings := es_warnings s |}).

Fixpoint run_steps (steps : list PhysicalPlanStep) (s : ExecState) : Exec ExecState :=
  match steps with
  | [] => mret s
  | ps :: steps => s ← run_step ps s; run_steps steps s
  end.
End Program.

(** ** Programs *)

Definition no_progress : ExecState :=
  {| es_values := []; es_completed := []; es_published := []; es_decisions := []; es_warnings := [] |}.

Definition executePhysicalProgram (h : Host) (xq : PhysicalProgramExecutionRequest) :
    Exec PhysicalProgramExecutionResult :=
  let program := xq_program xq in
  parameters ← lift (default (Ok []) (xq_parameters xq));
  resource ← lift (match xq_resource xq with None => Ok None | Some r => Some <$> r end);
  reject! negb (Nat.eqb (sn_revision (xq_registry xq)) (pp_registryRevision program))
    as "registry snapshot does not match the physical plan";
  reject! negb (bool_decide (ap_subjectId (xq_principal xq) = pf_subjectId (pp_plannedFor program)))
    as "execution principal does not match the physical plan";
  reject! negb (bool_decide (ac_tenantId (xq_access xq) = pf_tenantId (pp_plannedFor program)))
    as "execution tenant does not match the physical plan";
  s ← run_steps h xq parameters resource (pp_steps program) no_progress;
  results ← promise_all h (resolveValue h (es_values s) <$> pp_results program);
  let fulfilled := ra_predicate <$> results in
  mret {| xr_completedStepIds := es_completed s; xr_artifacts := es_published s;
          xr_fulfilledPredicates := fulfilled;
          xr_remainingGoals := List.filter (fun goal => negb (existsb (unifiable goal) fulfilled)) (pp_goals program);
          xr_registryRevision := pp_registryRevision program;
          xr_policyDecisionIds := js_sort string_cmp (es_decisions s);
          xr_warnings := es_warnings s |}.

(** ** Plans *)

(** What a host adds for a request, one field for each [Promise.all]: the registry
    (with the authorizer), the resource (with factories and artifacts), and the
    affordances with the related ingredients. *)
Record ActorExecutionHost := {
  ah_executionEnvironment : ExecutionEnvironment;
  ah_registry : result ActorRegistrySnapshot;
  ah_resource : result (option (result jobject));
  ah_context : result (list AffordanceDefinition * list Ingredient)
}.

Record UnderstoodFact := { uf_predicate : string; uf_artifactId : string; uf_schema : option string }.

(** The status is always complete, the reason always saturated. *)
Record PlanRunUnderstandingOutput := {
  uo_subjectArtifactId : string;
  uo_facts : list UnderstoodFact;
  uo_affordances : list AvailableAffordance
}.

Record PlanExecution := {
  pe_artifactIds : list string;
  pe_completedStepIds : list string;
  pe_remainingGoals : list string;
  pe_registryRevision : nat;
  pe_policyDecisionIds : list string;
  pe_output : option PlanRunUnderstandingOutput
}.

(** The subject of a goal specification, when it has one. *)
Definition subject_of (spec : option PlanRunGoalSpec) : option (Ingredient * list string) :=
  match spec with
  | Some (GoalExplore subject families) | Some (GoalThenEnrich subject families) => Some (subject, families)
  | _ => None
  end.

Definition is_exploration (spec : option PlanRunGoalSpec) : bool :=
  match spec with Some (GoalExplore _ _) => true | _ => false end.

Definition same_ingredient (a b : Ingredient) : bool :=
  bool_decide (ig_predicate a = ig_predicate b) && bool_decide (ig_artifactId a = ig_artifactId b).

Definition assertGoalRequest (request : PlanRunStartRequest) : result unit :=
  throw! is_exploration (sr_goalSpec request) && negb (Nat.eqb (length (sr_goals request)) 0)
    as "exploration cannot include exact goals";
  throw! negb (is_exploration (sr_goalSpec request)) && Nat.eqb (length (sr_goals request)) 0
    as "exact execution requires at least one goal";
  match subject_of (sr_goalSpec request) with
  | None => Ok tt
  | Some (subject, _) =>
      throw! bool_decide (truthy (ig_artifactId subject) = None)
        as "exploration subject requires an artifact";
      throw_if (negb (existsb (fun i => same_ingredient i subject) (sr_ingredients request)))
        "exploration subject is not an admitted ingredient"
  end.

(** [`${predicate}\0${artifactId ?? ''}`]. *)
Definition ingredient_key (i : Ingredient) : string :=
  ig_predicate i +:+ String "000" (default "" (ig_artifactId i)).

Definition uniqueIngredients (ingredients : list Ingredient) : list Ingredient :=
  (fold_left (fun m i => map_set (ingredient_key i) i m) ingredients []).*2.

Section Plan.
Context `{Collation} (h : Host) (host : ActorExecutionHost) (request : PlanRunStartRequest).

Definition understood_fact (artifacts : list RuntimeArtifact) (fact : Ingredient) : list UnderstoodFact :=
  match truthy (ig_artifactId fact) with
  | None => []
  | Some id =>
      [{| uf_predicate := ig_predicate fact; uf_artifactId := id;
          uf_schema := ra_schema <$> js_find (fun a => bool_decide (ra_artifactId a = id)) artifacts |}]
  end.

Definition understandingOutput (view : AuthorizedRegistryView) (artifacts : list RuntimeArtifact)
    (subject : Ingredient) : result PlanRunUnderstandingOutput :=
  match truthy (ig_artifactId subject) with
  | None => Throw "exploration subject requires an artifact"
  | Some subjectArtifactId =>
      '(definitions, related) ← ah_context host;
      let currentFacts := sr_ingredients request ++
        ((fun a => {| ig_predicate := ra_predicate a; ig_artifactId := Some (ra_artifactId a) |}) <$> artifacts) in
      let capabilities := az_capability <$> List.filter (fun ac =>
        existsb (fun t => bool_decide (tg_environment t = ah_executionEnvironment host)) (az_targets ac))
        (vw_capabilities view) in
      let facts := uniqueIngredients (currentFacts ++ related) in
      Ok {| uo_subjectArtifactId := subjectArtifactId;
            uo_facts := List.flat_map (understood_fact artifacts) (uniqueIngredients currentFacts);
            uo_affordances := discoverAffordances facts capabilities definitions |}
  end.

(** [authorizeRegistryForPlanning] with this host's authorizer: the view is
    computed from its decisions, and then each of them is asked for; the first
    that is rejected ends the planning. *)
Fixpoint ask_all (asked : Log) : Exec unit :=
  match asked with
  | [] => mret tt
  | (rq, _) :: asked => _ ← ask_policy h rq; ask_all asked
  end.

Definition as_calls (asked : Log) : CallLog := (fun e => CDecide e.1 (Ok e.2)) <$> asked.

Definition decided_view (registry : ActorRegistrySnapshot) (log : CallLog) : AuthorizedRegistryView * Log :=
  let answer asked rq := match hs_decide h (log ++ as_calls asked) rq with
                         | Ok d => d
                         | Throw e => Deny "" e
                         end in
  authorizeRegistryForPlanning answer registry (sc_principal (sr_security request))
    {| po_access := Some (sc_access (sr_security request)); po_configurationByOffer := None;
       po_resource := None |} [].

Definition authorized_view (registry : ActorRegistrySnapshot) : Exec AuthorizedRegistryView := fun log =>
  let '(view, asked) := decided_view registry log in (_ ← ask_all asked; mret view) log.

Definition no_limits : SolveOptions := {| so_maxSteps := None; so_maxStates := None |}.

(** The program, or the reason there is none. *)
Definition planned (view : AuthorizedRegistryView) : result PhysicalProgram :=
  let options := {| pl_solve := no_limits; pl_environment := ah_executionEnvironment host |} in
  match subject_of (sr_goalSpec request) with
  | Some (_, families) =>
      match (if is_exploration (sr_goalSpec request)
             then enrichAuthorized view (sr_ingredients request) families options
             else enrichAfterGoalsAuthorized view (sr_ingredients request) (sr_goals request) families options) with
      | Some (Ok (EnrichmentPlaced program _)) => Ok program
      | Some (Ok (EnrichmentNotPlaced reason _)) => Throw reason
      | Some (Throw e) => Throw e
      | None => Throw "out of fuel"
      end
  | None =>
      match solveAuthorized view (sr_ingredients request) (sr_goals request) options with
      | Ok (Placed program _) => Ok program
      | Ok (NotPlaced _ _ reason) => Throw reason
      | Throw e => Throw e
      end
  end.

Definition output_for (view : AuthorizedRegistryView) (artifacts : list RuntimeArtifact) :
    result (option PlanRunUnderstandingOutput) :=
  match subject_of (sr_goalSpec request) with
  | None => Ok None
  | Some (subject, _) => Some <$> understandingOutput view artifacts subject
  end.

(** From the program on. *)
Definition execute_plan (registry : ActorRegistrySnapshot) (view : AuthorizedRegistryView)
    (program : PhysicalProgram) : Exec PlanExecution :=
  if Nat.eqb (length (pp_steps program)) 0 then
    output ← lift (output_for view []);
    mret {| pe_artifactIds := []; pe_completedStepIds := [];
            pe_remainingGoals :=
              match subject_of (sr_goalSpec request) with
              | None => []
              | Some _ => List.filter (fun goal => negb (existsb (fun i => unifiable goal (ig_predicate i))
                            (sr_ingredients request))) (sr_goals request)
              end;
            pe_registryRevision := sn_revision registry; pe_policyDecisionIds := []; pe_output := output |}
  else
    resource ← lift (ah_resource host);
    result ← executePhysicalProgram h
      {| xq_runId := sr_idempotencyKey request; xq_program := program; xq_registry := registry;
         xq_principal := sc_principal (sr_security request); xq_access := sc_access (sr_security request);
         xq_parameters := Some (Ok (sr_parameters request)); xq_resource := resource |};
    output ← lift (output_for view (xr_artifacts result));
    mret {| pe_artifactIds := ra_artifactId <$> xr_artifacts result;
            pe_completedStepIds := xr_completedStepIds result;
            pe_remainingGoals := xr_remainingGoals result;
            pe_registryRevision := xr_registryRevision result;
            pe_policyDecisionIds := xr_policyDecisionIds result; pe_output := output |}.

Definition createActorPlanExecutor : Exec PlanExecution :=
  reject! negb (bool_decide (sr_executionEnvironment request = ah_executionEnvironment host))
    as environment_text (ah_executionEnvironment host) +:+ " execution host cannot run " +:+
       environment_text (sr_executionEnvironment request) +:+ " placement";
  _ ← lift (assertGoalRequest request);
  registry ← lift (ah_registry host);
  view ← authorized_view registry;
  program ← lift (planned view);
  execute_plan registry view program.
End Plan.
