(* ===== verification/Execution.v ===== *)
(** * What an execution may do

    The contract of the generic executor ([executor.ts]) as a state machine over
    the calls it makes to its host, and the proof that every execution follows it,
    whatever the host answers. *)

From S2P Require Import Prelude Term Contracts Json Actors Planner.
From S2P Require Import Registry Authorization Physical Run Executor.

Open Scope stdpp_scope.
Open Scope js_scope.

(** ** The protocol *)

(** Where an execution stands between two calls; [n] counts the steps of the plan
    before the current one. *)
Inductive Phase :=
| Idle (n : nat)
| Found (n : nat) (factory : ActorFactory)
| SpawnAllowed (n : nat) (factory : ActorFactory) (rq : ActorAuthorizationRequest) (allowance : Allowance)
| Assessed (n : nat) (factory : ActorFactory) (rq : ActorAuthorizationRequest) (request : ActorSpawnRequest)
    (admission : Admission)
| Live (n : nat) (rq : ActorAuthorizationRequest) (admission : Admission) (spawned : SpawnedActor)
| Cleared (n : nat) (rq : ActorAuthorizationRequest) (admission : Admission) (spawned : SpawnedActor)
| Used (n : nat) (rq : ActorAuthorizationRequest) (spawned : SpawnedActor)
| Closing (spawned : SpawnedActor)
| Finished (n : nat) (rq : ActorAuthorizationRequest)
| Halted.

(** No actor is alive. *)
Definition settled (s : Phase) : Prop :=
  match s with Live _ _ _ _ | Cleared _ _ _ _ | Used _ _ _ | Closing _ => False | _ => True end.

(** [rq] asks to spawn what step [ps] of the plan names: for the principal, the
    tenant and the run of the request, the capability and method of the step, and
    the offer, the factory, the definition and the configuration of its target,
    with a factory that makes this offer. *)
Record spawns_for (xq : PhysicalProgramExecutionRequest) (ps : PhysicalPlanStep) (factory : ActorFactory)
    (rq : ActorAuthorizationRequest) : Prop := {
  sf_action : rq_action rq = Spawn;
  sf_principal : rq_principal rq = xq_principal xq;
  sf_access : rq_access rq = xq_access xq;
  sf_run : rq_runId rq = Some (xq_runId xq);
  sf_capability : rq_capabilityId rq = Some (st_capability (ps_step ps));
  sf_method : rq_method rq = Some (st_method (ps_step ps));
  sf_target : exists offerId factoryId definitionRef configuration environment cost latencyMs authorization,
    ps_target ps = TFactory offerId factoryId definitionRef configuration environment cost latencyMs authorization /\
    of_offerId (fy_offer factory) = offerId /\ rq_target rq = Some (RTFactory offerId factoryId) /\
    rq_definitionRef rq = definitionRef /\ rq_configuration rq = Some configuration
}.

(** A spawn request asks for what the policy allowed, with what it forces. *)
Record asks_for (rq : ActorAuthorizationRequest) (allowance : Allowance) (offerId : string)
    (request : ActorSpawnRequest) : Prop := {
  sk_principal : sq_principal request = rq_principal rq;
  sk_access : sq_access request = rq_access rq;
  sk_run : rq_runId rq = Some (sq_runId request);
  sk_offer : sq_offerId request = offerId;
  sk_capability : exists c, rq_capabilityId rq = Some c /\ sq_requestedCapabilities request = [c];
  sk_inputs : rq_inputs rq = Some (sq_inputs request);
  sk_configuration : exists c, rq_configuration rq = Some c /\
    sq_configuration request = spread c (al_constraints allowance ≫= ct_forcedConfiguration)
}.

(** The request to invoke: the same definition, capability, method and inputs, on
    the spawned instance, with the configuration the factory normalized.  The
    instance runs in the environment of the plan and advertises the capability. *)
Record invokes (xq : PhysicalProgramExecutionRequest) (rq : ActorAuthorizationRequest) (admission : Admission) (spawned : SpawnedActor)
    (invoke : ActorAuthorizationRequest) : Prop := {
  ik_action : rq_action invoke = Invoke;
  ik_principal : rq_principal invoke = rq_principal rq;
  ik_access : rq_access invoke = rq_access rq;
  ik_run : rq_runId invoke = rq_runId rq;
  ik_definition : rq_definitionRef invoke = rq_definitionRef rq /\
    rq_definitionRef rq = ai_definitionRef (sp_advertisement spawned);
  ik_capability : rq_capabilityId invoke = rq_capabilityId rq;
  ik_method : rq_method invoke = rq_method rq;
  ik_target : rq_target invoke = Some (RTInstance (ai_instanceId (sp_advertisement spawned)));
  ik_inputs : rq_inputs invoke = rq_inputs rq;
  ik_configuration : rq_configuration invoke = Some (ad_normalizedConfiguration admission);
  ik_environment : ai_executionEnvironment (sp_advertisement spawned) = pp_executionEnvironment (xq_program xq);
  ik_advertised : exists c, rq_capabilityId rq = Some c /\ c ∈ ai_capabilityIds (sp_advertisement spawned)
}.

(** Every artifact in the payload is, under its slot, one the policy was shown. *)
Definition only_shows (inputs : option (list ActorAuthorizationInput)) (payload : jobject) : Prop :=
  exists shown bound, inputs = Some shown /\ map_get "inputs" payload = Some (JObject bound) /\
    forall slot artifact, (slot, artifact) ∈ bound -> exists i, i ∈ shown /\ in_slot i = slot /\
      json_get "artifactId" artifact = Some (JString (in_artifactId i)) /\
      json_get "predicate" artifact = Some (JString (in_predicate i)) /\
      json_get "contentDigest" artifact = Some (JString (in_contentDigest i)).

Section Protocol.
Context (xq : PhysicalProgramExecutionRequest).

(** Step [n] of the plan, and the values it needs; after the last step these are
    the results of the plan. *)
Definition planned_at (n : nat) (ps : PhysicalPlanStep) : Prop := pp_steps (xq_program xq) !! n = Some ps.

Definition wanted (n : nat) : list PlanValue :=
  match pp_steps (xq_program xq) !! n with
  | Some ps => st_inputs (ps_step ps)
  | None => pp_results (xq_program xq)
  end.

Inductive protocol : Phase -> HostCall -> Phase -> Prop :=
(** artifacts the plan names *)
| pt_resolve n v artifactId answer :
    v ∈ wanted n -> pv_source v = SrcIngredient (Some artifactId) ->
    protocol (Idle n) (CResolve artifactId (pv_predicate v) answer) (Idle n)
(** the factory of the step *)
| pt_factory n ps offerId factoryId definitionRef configuration environment cost latencyMs authorization answer :
    planned_at n ps -> environment = pp_executionEnvironment (xq_program xq) ->
    ps_target ps = TFactory offerId factoryId definitionRef configuration environment cost latencyMs authorization ->
    protocol (Idle n) (CFactory factoryId answer)
      (match answer with Some factory => Found n factory | None => Halted end)
(** permission to spawn *)
| pt_may_spawn n ps factory rq allowance :
    planned_at n ps -> spawns_for xq ps factory rq ->
    protocol (Found n factory) (CDecide rq (Ok (Allow allowance))) (SpawnAllowed n factory rq allowance)
| pt_may_not_spawn n ps factory rq answer :
    planned_at n ps -> spawns_for xq ps factory rq -> (forall allowance, answer <> Ok (Allow allowance)) ->
    protocol (Found n factory) (CDecide rq answer) Halted
(** admission by the factory *)
| pt_admitted n factory rq allowance request admission :
    asks_for rq allowance (of_offerId (fy_offer factory)) request ->
    protocol (SpawnAllowed n factory rq allowance) (CAssess factory request (Ok (AdmissionGranted admission)))
      (Assessed n factory rq request admission)
| pt_not_admitted n factory rq allowance request answer :
    asks_for rq allowance (of_offerId (fy_offer factory)) request ->
    (forall admission, answer <> Ok (AdmissionGranted admission)) ->
    protocol (SpawnAllowed n factory rq allowance) (CAssess factory request answer) Halted
(** the actor *)
| pt_spawned n factory rq request admission capability spawned :
    rq_capabilityId rq = Some capability -> capability ∈ ad_grantedCapabilities admission ->
    protocol (Assessed n factory rq request admission) (CSpawn factory request admission (Ok spawned))
      (Live n rq admission spawned)
| pt_not_spawned n factory rq request admission capability e :
    rq_capabilityId rq = Some capability -> capability ∈ ad_grantedCapabilities admission ->
    protocol (Assessed n factory rq request admission) (CSpawn factory request admission (Throw e)) Halted
(** permission to invoke *)
| pt_may_invoke n rq admission spawned invoke allowance :
    invokes xq rq admission spawned invoke ->
    protocol (Live n rq admission spawned) (CDecide invoke (Ok (Allow allowance))) (Cleared n rq admission spawned)
| pt_may_not_invoke n rq admission spawned invoke answer :
    invokes xq rq admission spawned invoke -> (forall allowance, answer <> Ok (Allow allowance)) ->
    protocol (Live n rq admission spawned) (CDecide invoke answer) (Closing spawned)
(** the one message *)
| pt_delivered n rq admission spawned method payload answer :
    rq_method rq = Some method -> only_shows (rq_inputs rq) payload ->
    protocol (Cleared n rq admission spawned) (CDeliver spawned method payload (Ok answer)) (Used n rq spawned)
| pt_not_delivered n rq admission spawned method payload e :
    rq_method rq = Some method -> only_shows (rq_inputs rq) payload ->
    protocol (Cleared n rq admission spawned) (CDeliver spawned method payload (Throw e)) (Closing spawned)
(** release, always *)
| pt_released n rq spawned : protocol (Used n rq spawned) (CRelease spawned (Ok tt)) (Finished n rq)
| pt_not_released n rq spawned e : protocol (Used n rq spawned) (CRelease spawned (Throw e)) Halted
| pt_given_up s spawned answer :
    s = Closing spawned \/ (exists n rq admission, s = Live n rq admission spawned) \/
    (exists n rq admission, s = Cleared n rq admission spawned) ->
    protocol s (CRelease spawned answer) Halted
(** publication of the outputs of exactly this step and these inputs *)
| pt_published n ps rq publication answer :
    planned_at n ps -> pb_stepId publication = st_id (ps_step ps) ->
    rq_capabilityId rq = Some (pb_capabilityId publication) -> rq_runId rq = Some (pb_runId publication) ->
    rq_inputs rq = Some (authorizationInputs (pb_inputs publication)) ->
    protocol (Finished n rq) (CPublish publication answer)
      (match answer with Ok _ => Idle (S n) | Throw _ => Halted end).

Inductive follows : CallLog -> Phase -> Prop :=
| follows_nil : follows [] (Idle 0)
| follows_snoc log s c s' : follows log s -> protocol s c s' -> follows (log ++ [c]) s'.

(** ** Triples *)

(** From a log in a phase with [p]: with a value the phase has [q], with an error
    no actor is alive or, inside the [try], [e] holds. *)
Definition triple {A} (p : Phase -> Prop) (m : Exec A) (q : A -> Phase -> Prop) (e : Phase -> Prop) : Prop :=
  forall log s, follows log s -> p s ->
    exists s', follows (m log).1 s' /\
      match (m log).2 with Ok a => q a s' | Throw _ => e s' end.

Lemma triple_ret {A} (a : A) (p : Phase -> Prop) (q : A -> Phase -> Prop) e :
  (forall s, p s -> q a s) -> triple p (mret a) q e.
Proof. intros H log s Hf Hp. exists s. split; [done|]. by apply H. Qed.

Lemma triple_lift {A} (r : result A) (p : Phase -> Prop) (q : A -> Phase -> Prop) (e : Phase -> Prop) :
  (forall a s, r = Ok a -> p s -> q a s) -> (forall s, p s -> e s) -> triple p (lift r) q e.
Proof. intros Hq He log s Hf Hp. exists s. split; [done|]. cbn. destruct r; auto. Qed.

Lemma triple_bind {A B} (m : Exec A) (k : A -> Exec B) p q r e :
  triple p m q e -> (forall a, triple (q a) (k a) r e) -> triple p (m ≫= k) r e.
Proof.
  intros Hm Hk log s Hf Hp. destruct (Hm log s Hf Hp) as (s1 & Hf1 & H1).
  unfold mbind, Exec_bind. destruct (m log) as [log1 [a|error]]; cbn in *; [|by exists s1].
  exact (Hk a log1 s1 Hf1 H1).
Qed.

Lemma triple_guard {B} b message (k : Exec B) (p : Phase -> Prop) r (e : Phase -> Prop) :
  (forall s, p s -> e s) -> (b = false -> triple p k r e) ->
  triple p (mbind (M := Exec) (fun _ : unit => k) (lift (throw_if b message))) r e.
Proof.
  intros He Hk log s Hf Hp. unfold mbind, Exec_bind, lift. destruct b; cbn; [exists s; auto|].
  exact (Hk eq_refl log s Hf Hp).
Qed.

Lemma triple_let {A B} (v : result A) (k : A -> Exec B) (p : Phase -> Prop) r (e : Phase -> Prop) :
  (forall s, p s -> e s) -> (forall a, v = Ok a -> triple p (k a) r e) ->
  triple p (mbind (M := Exec) k (lift v)) r e.
Proof.
  intros He Hk log s Hf Hp. unfold mbind, Exec_bind, lift. destruct v; cbn; [|exists s; auto].
  exact (Hk _ eq_refl log s Hf Hp).
Qed.

Lemma triple_pre {A} (m : Exec A) (p p' : Phase -> Prop) q e :
  (forall s, p s -> p' s) -> triple p' m q e -> triple p m q e.
Proof. intros H Hm log s Hf Hp. by apply (Hm log s Hf), H. Qed.

Lemma triple_post {A} (m : Exec A) p (q q' : A -> Phase -> Prop) (e e' : Phase -> Prop) :
  triple p m q e -> (forall a s, q a s -> q' a s) -> (forall s, e s -> e' s) -> triple p m q' e'.
Proof.
  intros Hm Hq He log s Hf Hp. destruct (Hm log s Hf Hp) as (s' & ? & H). exists s'. split; [done|].
  destruct (m log).2; auto.
Qed.

(** A call: one step of the protocol for each answer. *)
Lemma triple_call {A} (answer : CallLog -> result A) (c : result A -> HostCall) p q e :
  (forall r s, p s -> exists s', protocol s (c r) s' /\
     match r with Ok a => q a s' | Throw _ => e s' end) ->
  triple p (fun log => (log ++ [c (answer log)], answer log)) q e.
Proof.
  intros H log s Hf Hp. destruct (H (answer log) s Hp) as (s' & Hs & Hq). exists s'. cbn.
  split; [by eapply follows_snoc|done].
Qed.

Lemma triple_finally {A} (body : Exec A) (cleanup : Exec unit) p q e q' e' :
  triple p body q e -> (forall a, triple (q a) cleanup (fun _ => q' a) e') ->
  triple e cleanup (fun _ => e') e' -> triple p (finally body cleanup) q' e'.
Proof.
  intros Hb Hq He log s Hf Hp. destruct (Hb log s Hf Hp) as (s1 & Hf1 & H1). unfold finally.
  destruct (body log) as [log1 [a|error]]; cbn in *.
  - destruct (Hq a log1 s1 Hf1 H1) as (s2 & Hf2 & H2). exists s2.
    by destruct (cleanup log1) as [log2 [[]|]].
  - destruct (He log1 s1 Hf1 H1) as (s2 & Hf2 & H2). exists s2.
    by destruct (cleanup log1) as [log2 [[]|]].
Qed.

(** ** The calls *)

Context (h : Host) (parameters : jobject) (resource : option jobject).

Lemma run_all_idle {A} n (ms : list (Exec A)) :
  Forall (fun m => triple (eq (Idle n)) m (fun _ => eq (Idle n)) (eq (Idle n))) ms ->
  forall log, follows log (Idle n) -> follows (run_all ms log).1 (Idle n).
Proof.
  induction 1 as [|m ms Hm _ IH]; intros log Hf; cbn [run_all]; [done|].
  destruct (Hm log (Idle n) Hf eq_refl) as (s & Hs & Hq). destruct (m log) as [log' r]. cbn in *.
  assert (s = Idle n) as -> by (by destruct r). specialize (IH log' Hs).
  by destruct (run_all ms log').
Qed.

Lemma triple_promise_all {A} n (ms : list (Exec A)) :
  Forall (fun m => triple (eq (Idle n)) m (fun _ => eq (Idle n)) (eq (Idle n))) ms ->
  triple (eq (Idle n)) (promise_all h ms) (fun _ => eq (Idle n)) (eq (Idle n)).
Proof.
  intros Hms log s Hf <-. exists (Idle n). unfold promise_all.
  pose proof (run_all_idle n ms Hms log Hf) as Hr. destruct (run_all ms log) as [log' rs]. cbn in *.
  split; [done|]. by destruct (rejections rs); [destruct (mapM id rs)|].
Qed.

Lemma triple_resolveValue n values v :
  v ∈ wanted n -> triple (eq (Idle n)) (resolveValue h values v) (fun _ => eq (Idle n)) (eq (Idle n)).
Proof.
  intros Hv. unfold resolveValue.
  destruct (pv_source v) as [artifactId|stepId output] eqn:Es; [|by apply triple_lift].
  destruct (truthy artifactId) as [id|] eqn:Et; [|by apply triple_lift].
  assert (artifactId = Some id) as -> by (by apply truthy_Some).
  eapply triple_bind;
    [apply (triple_call _ (CResolve id (pv_predicate v)) (eq (Idle n)) (fun _ => eq (Idle n)))|].
  - intros r s <-. exists (Idle n). split; [by constructor|by destruct r].
  - intros [a|]; [|by apply triple_lift]. apply triple_guard; [done|].
    intros _. by apply triple_ret.
Qed.

Lemma triple_resolve_all n values vs :
  (forall v, v ∈ vs -> v ∈ wanted n) ->
  triple (eq (Idle n)) (promise_all h (resolveValue h values <$> vs)) (fun _ => eq (Idle n)) (eq (Idle n)).
Proof.
  intros Hvs. apply triple_promise_all, Forall_fmap, Forall_forall. intros v Hv. by apply triple_resolveValue, Hvs.
Qed.

(** ** Payloads *)

Lemma bound_inputs_elem inputs slot artifact :
  (slot, artifact) ∈ bound_inputs inputs ->
  exists b, b ∈ inputs /\ ib_slot b = slot /\ ib_artifact b = artifact.
Proof.
  unfold bound_inputs.
  assert (forall m, (slot, artifact) ∈ fold_left (fun m b => map_set (ib_slot b) (ib_artifact b) m) inputs m ->
    (slot, artifact) ∈ m \/ exists b, b ∈ inputs /\ ib_slot b = slot /\ ib_artifact b = artifact) as H.
  { induction inputs as [|b inputs IH]; intros m; cbn [fold_left]; [by left|].
    intros [Hin|(b' & ? & ?)]%IH.
    - apply map_set_elem in Hin as [[= -> ->]|Hin]; [|by left].
      right. exists b. split; [left|done].
    - right. exists b'. split; [by right|done]. }
  intros [Hin%not_elem_of_nil|?]%H; done.
Qed.

Lemma mapM_result_elem {A B} (f : A -> result B) l k y :
  mapM f l = Ok k -> y ∈ k -> exists x, x ∈ l /\ f x = Ok y.
Proof.
  revert k. induction l as [|x l IH]; intros k; cbn; [intros [= <-] H; by apply not_elem_of_nil in H|].
  destruct (f x) as [z|] eqn:E; cbn; [|done].
  destruct (mapM f l) as [k'|] eqn:E'; cbn; [|done].
  intros [= <-] [->|Hin]%elem_of_cons; [exists x; split; [left|done]|].
  destruct (IH k' eq_refl Hin) as (x' & ? & ?). exists x'. split; [by right|done].
Qed.

Lemma payload_only_shows runId stepId capabilityId inputs admission payload :
  payload_of runId stepId capabilityId inputs parameters admission = Ok payload ->
  only_shows (Some (authorizationInputs inputs)) payload.
Proof.
  unfold payload_of. destruct (mapM _ _) as [bound|] eqn:Eb; cbn; [|done].
  destruct (ad_portable admission); cbn; [|done]. intros [= <-].
  exists (authorizationInputs inputs), bound. split; [done|]. split; [done|].
  intros slot artifact Hin. destruct (mapM_result_elem _ _ _ _ Eb Hin) as ([k a] & Hka & Hj).
  unfold artifact_json in Hj. cbn in Hj. destruct (ra_value a); cbn in Hj; [|done].
  injection Hj as <- <-. apply bound_inputs_elem in Hka as (b & Hb & <- & <-).
  eexists. split; [apply list_elem_of_fmap_2; exact Hb|]. done.
Qed.

(** ** A step *)

(** The request for [spawn] a step makes. *)
Definition spawn_rq (step : PlanStep) offerId factoryId definitionRef configuration inputs :=
  step_request xq resource Spawn step definitionRef (RTFactory offerId factoryId) configuration inputs.

Lemma triple_use_actor n step capability rq admission inputs decisions spawned offerId factoryId
    definitionRef configuration :
  rq = spawn_rq step offerId factoryId definitionRef configuration inputs ->
  triple (eq (Live n rq admission spawned))
    (use_actor h xq parameters resource step capability definitionRef admission inputs decisions spawned)
    (fun _ => eq (Used n rq spawned))
    (fun s => s = Used n rq spawned \/ s = Live n rq admission spawned \/ s = Cleared n rq admission spawned \/
              s = Closing spawned).
Proof.
  intros Erq. unfold use_actor. apply triple_guard; [by auto|]. unfold includes. intros Hfit. bools.
  assert (invokes xq rq admission spawned
    (step_request xq resource Invoke step definitionRef (RTInstance (ai_instanceId (sp_advertisement spawned)))
       (ad_normalizedConfiguration admission) inputs)) as Hinvokes
    by (rewrite Erq; split; try done; by eexists).
  eapply triple_bind.
  - apply (triple_call _ (CDecide _) _ (fun d s => match d with
      | Allow _ => s = Cleared n rq admission spawned | Deny _ _ => s = Closing spawned end)).
    intros r s <-. destruct r as [[allowance|id reason]|e].
    + exists (Cleared n rq admission spawned). split; [|done]. by apply pt_may_invoke.
    + exists (Closing spawned). split; [by eapply pt_may_not_invoke|done].
    + exists (Closing spawned). split; [by eapply pt_may_not_invoke|auto].
  - intros [allowance|id reason]; [|apply triple_lift; [done|auto]].
    apply triple_let; [intros s ->; auto|]. intros payload Hp%payload_only_shows.
    eapply triple_bind.
    + apply (triple_call _ (CDeliver spawned (st_method step) payload) _ (fun _ => eq (Used n rq spawned))).
      intros r s ->. destruct r as [response|e].
      * exists (Used n rq spawned). split; [|done]. by apply pt_delivered; rewrite Erq.
      * exists (Closing spawned). split; [|auto]. by apply pt_not_delivered; rewrite Erq.
    + intros response. apply triple_let; [intros s <-; auto|]. intros parsed _.
      apply triple_let; [intros s <-; auto|]. intros drafts _. by apply triple_ret.
Qed.

Lemma triple_release_used n rq spawned :
  triple (eq (Used n rq spawned)) (release h spawned) (fun _ => eq (Finished n rq)) settled.
Proof.
  apply (triple_call _ (CRelease spawned)). intros r s <-.
  destruct r as [[]|e]; [exists (Finished n rq)|exists Halted]; (split; [constructor|done]).
Qed.

Lemma triple_release n rq admission spawned :
  triple (fun s => s = Used n rq spawned \/ s = Live n rq admission spawned \/
                   s = Cleared n rq admission spawned \/ s = Closing spawned)
    (release h spawned) (fun _ => settled) settled.
Proof.
  apply (triple_call _ (CRelease spawned)). intros r s [->|Hs].
  - destruct r as [[]|e]; [exists (Finished n rq)|exists Halted]; (split; [constructor|done]).
  - exists Halted. split; [apply pt_given_up; naive_solver|by destruct r].
Qed.

Lemma triple_executeFactoryStep n ps capability inputs decisions :
  planned_at n ps -> tg_environment (ps_target ps) = pp_executionEnvironment (xq_program xq) ->
  triple (eq (Idle n)) (executeFactoryStep h xq parameters resource ps capability inputs decisions)
    (fun _ s => exists rq, s = Finished n rq /\ rq_capabilityId rq = Some (st_capability (ps_step ps)) /\
       rq_runId rq = Some (xq_runId xq) /\ rq_inputs rq = Some (authorizationInputs inputs))
    settled.
Proof.
  intros Hps Henv. unfold executeFactoryStep.
  destruct (ps_target ps) as [|offerId factoryId definitionRef configuration env cost latency al] eqn:Et;
    [apply triple_lift; [done|by intros ? <-]|].
  eapply triple_bind.
  { intros log s Hf <-. cbn. pose proof (pt_factory n ps _ _ _ _ _ _ _ _ (hs_factory h log factoryId) Hps Henv Et) as Hc.
    eexists. split; [by eapply follows_snoc|].
    instantiate (1 := fun found s => s = match found with Some f => Found n f | None => Halted end). done. }
  intros [f|]; [|apply triple_lift; [done|by intros ? ->]].
  apply triple_guard; [by intros ? ->|]. intros Hoffer. bools.
  set (rq := spawn_rq (ps_step ps) offerId factoryId definitionRef configuration inputs).
  assert (spawns_for xq ps f rq) as Hspawns by (split; try done; by do 8 eexists).
  eapply triple_bind.
  { apply (triple_call _ (CDecide rq) _ (fun d s => match d with
      | Allow a => s = SpawnAllowed n f rq a | Deny _ _ => s = Halted end)).
    intros r s ->. destruct r as [[a|id reason]|e].
    - exists (SpawnAllowed n f rq a). split; [|done]. by eapply pt_may_spawn.
    - exists Halted. split; [by eapply pt_may_not_spawn|done].
    - exists Halted. split; [by eapply pt_may_not_spawn|done]. }
  intros [a|id reason]; [|apply triple_lift; [done|by intros ? ->]].
  set (request := spawn_request xq resource (ps_step ps) offerId configuration a inputs).
  assert (asks_for rq a (of_offerId (fy_offer f)) request) as Hasks
    by (rewrite Hoffer; split; try done; eexists; by split).
  eapply triple_bind.
  { apply (triple_call _ (CAssess f request) _ (fun d s => match d with
      | AdmissionGranted admission => s = Assessed n f rq request admission | AdmissionRefused _ _ => s = Halted end)).
    intros r s ->. destruct r as [[admission|id reason]|e].
    - exists (Assessed n f rq request admission). split; [|done]. by apply pt_admitted.
    - exists Halted. split; [by eapply pt_not_admitted|done].
    - exists Halted. split; [by eapply pt_not_admitted|done]. }
  intros [admission|id reason]; [|apply triple_lift; [done|by intros ? ->]].
  apply triple_guard; [by intros ? ->|]. unfold includes. intros Hgranted. bools.
  eapply triple_bind.
  { apply (triple_call _ (CSpawn f request admission) _ (fun spawned s => s = Live n rq admission spawned)).
    intros r s ->. destruct r as [spawned|e]; [exists (Live n rq admission spawned)|exists Halted];
      (split; [by econstructor|done]). }
  intros spawned. apply (triple_post _ _ (fun _ => eq (Finished n rq)) _ settled _);
    [|by intros ? s Hs; exists rq; rewrite <- Hs|done].
  eapply triple_finally; [|intros ?; apply triple_release_used|apply triple_release].
  eapply triple_pre; [|eapply (triple_use_actor _ _ _ rq)]; [by intros ? ->|reflexivity].
Qed.

Lemma triple_run_step n ps s :
  planned_at n ps ->
  triple (eq (Idle n)) (run_step h xq parameters resource ps s) (fun _ => eq (Idle (S n))) settled.
Proof.
  intros Hps. unfold run_step. apply triple_guard; [by intros ? <-|]. intros Henv. bools.
  apply triple_guard; [by intros ? <-|intros _].
  apply triple_let; [by intros ? <-|]. intros capability _.
  eapply triple_bind.
  { eapply triple_post; [apply (triple_resolve_all n)| |by intros ? <-].
    - intros v Hv. unfold wanted. by rewrite Hps.
    - intros a s' H. exact H. }
  intros artifacts. do 2 (apply triple_let; [by intros ? <-|]; intros ? _).
  eapply triple_bind; [by apply (triple_executeFactoryStep n)|]. intros [[drafts warnings] decisions].
  eapply triple_bind.
  { apply (triple_call _ (CPublish _) _ (fun _ => eq (Idle (S n)))). intros r s' (rq & -> & Hc & Hr & Hi).
    eexists. split; [by eapply pt_published|]. by destruct r. }
  intros publication. apply triple_guard; [by intros ? <-|]. intros _.
  apply triple_lift; [by intros|by intros ? <-].
Qed.

Lemma triple_run_steps n steps s :
  (forall i ps, steps !! i = Some ps -> planned_at (n + i) ps) ->
  triple (eq (Idle n)) (run_steps h xq parameters resource steps s)
    (fun _ => eq (Idle (n + length steps))) settled.
Proof.
  revert n s. induction steps as [|ps steps IH]; intros n s Hps; cbn [run_steps length].
  { rewrite Nat.add_0_r. by apply triple_ret. }
  eapply triple_bind; [apply (triple_run_step n)|].
  - rewrite <- (Nat.add_0_r n). by apply Hps.
  - intros s'. rewrite Nat.add_succ_r, <- Nat.add_succ_l. apply IH. intros i ps' Hi.
    rewrite Nat.add_succ_l, <- Nat.add_succ_r. by apply Hps.
Qed.
End Protocol.

Lemma triple_execute h xq :
  triple xq (eq (Idle 0)) (executePhysicalProgram h xq)
    (fun _ => eq (Idle (length (pp_steps (xq_program xq))))) settled.
Proof.
  unfold executePhysicalProgram. apply triple_let; [by intros ? <-|]. intros parameters _.
  apply triple_let; [by intros ? <-|]. intros resource _.
  do 3 (apply triple_guard; [by intros ? <-|intros _]).
  eapply triple_bind; [by apply (triple_run_steps xq h parameters resource 0)|]. intros s.
  eapply triple_bind.
  { eapply triple_post; [apply (triple_resolve_all xq h (length (pp_steps (xq_program xq))))| |by intros ? <-].
    - intros v Hv. unfold wanted. by rewrite (lookup_ge_None_2 _ _ (le_n _)).
    - intros a s' H. exact H. }
  intros results. by apply triple_ret.
Qed.

(** C7: every execution keeps the protocol.  Whatever the host answers and however
    the execution ends, its calls form a run of the protocol.  The steps of the
    plan are carried out in its order.  For each (and, after the last, for the
    results of the plan) the only artifacts read are the
    ingredients it names, and the only factory looked up is the one its target
    names.  An actor is spawned only by a factory that makes the planned offer,
    after the policy allowed this principal, tenant and run to spawn, from the
    planned offer, factory, definition and configuration, the capability and the
    method of the step on exactly these inputs, and the factory granted the
    capability.  The actor gets one message, after the policy allowed to invoke
    this very instance with the same capability, method and inputs, and its payload
    shows no other artifact; it is released in every case; and only then are
    outputs published, under the same step, capability, run and inputs.  An
    execution that succeeds has gone through all the steps. *)
Theorem executions_keep_the_protocol (h : Host) (xq : PhysicalProgramExecutionRequest) :
  let '(log, r) := executePhysicalProgram h xq [] in
  exists s, follows xq log s /\ settled s /\
    (is_ok r = true -> s = Idle (length (pp_steps (xq_program xq)))).
Proof.
  destruct (triple_execute h xq [] (Idle 0) (follows_nil xq) eq_refl) as (s & Hf & Hs).
  destruct (executePhysicalProgram h xq []) as [log r]. cbn in *. exists s. split; [done|].
  destruct r; subst; [done|]. by split.
Qed.

(** ** Successful executions *)

(** Calls are only ever added. *)
Definition extends {A} (m : Exec A) : Prop := forall log, log `prefix_of` (m log).1.

Lemma extends_lift {A} (r : result A) : extends (lift r).
Proof. by intros log. Qed.

Lemma extends_ret {A} (a : A) : extends (mret a).
Proof. by intros log. Qed.

Lemma extends_bind {A B} (m : Exec A) (k : A -> Exec B) :
  extends m -> (forall a, extends (k a)) -> extends (m ≫= k).
Proof.
  intros Hm Hk log. unfold mbind, Exec_bind. specialize (Hm log). destruct (m log) as [log1 [a|e]]; [|done].
  etransitivity; [exact Hm|apply Hk].
Qed.

Lemma extends_finally {A} (body : Exec A) (cleanup : Exec unit) :
  extends body -> extends cleanup -> extends (finally body cleanup).
Proof.
  intros Hb Hc log. unfold finally. specialize (Hb log). destruct (body log) as [log1 r]. cbn in *.
  specialize (Hc log1). destruct (cleanup log1) as [log2 c]. cbn in *. by etransitivity.
Qed.

Lemma extends_call {A} (answer : CallLog -> result A) (c : result A -> HostCall) :
  extends (fun log => (log ++ [c (answer log)], answer log)).
Proof. intros log. by eexists. Qed.

Lemma extends_run_all {A} (ms : list (Exec A)) :
  Forall extends ms -> forall log, log `prefix_of` (run_all ms log).1.
Proof.
  induction 1 as [|m ms Hm _ IH]; intros log; cbn [run_all]; [done|].
  specialize (Hm log). destruct (m log) as [log1 r]. specialize (IH log1).
  destruct (run_all ms log1) as [log2 rs]. cbn in *. by etransitivity.
Qed.

Lemma extends_promise_all {A} h (ms : list (Exec A)) : Forall extends ms -> extends (promise_all h ms).
Proof.
  intros Hms log. unfold promise_all. pose proof (extends_run_all ms Hms log). by destruct (run_all ms log).
Qed.

Ltac extends_auto :=
  repeat first
    [ apply extends_lift | apply extends_ret | apply extends_call
    | apply extends_bind; [|intros ?] | apply extends_finally
    | match goal with |- extends (match ?x with _ => _ end) => destruct x end
    | match goal with |- extends (let '(_, _) := ?x in _) => destruct x end ].

Lemma extends_resolveValue h values v : extends (resolveValue h values v).
Proof. unfold resolveValue. extends_auto. Qed.

Lemma extends_resolve_all h values vs : extends (promise_all h (resolveValue h values <$> vs)).
Proof. apply extends_promise_all, Forall_fmap, Forall_true. intros v. apply extends_resolveValue. Qed.

Lemma extends_executeFactoryStep h xq parameters resource ps capability inputs decisions :
  extends (executeFactoryStep h xq parameters resource ps capability inputs decisions).
Proof. unfold executeFactoryStep, use_actor. extends_auto. intros log. by eexists. Qed.

Lemma extends_run_step h xq parameters resource ps s : extends (run_step h xq parameters resource ps s).
Proof.
  unfold run_step, resolveInputs. extends_auto; [apply extends_resolve_all|apply extends_executeFactoryStep].
Qed.

Lemma bind_Ok {A B} (m : Exec A) (k : A -> Exec B) log log' b :
  (m ≫= k) log = (log', Ok b) -> exists a log1, m log = (log1, Ok a) /\ k a log1 = (log', Ok b).
Proof.
  unfold mbind, Exec_bind. destruct (m log) as [log1 [a|e]]; [|done]. intros H. by exists a, log1.
Qed.

Lemma lift_Ok {A} (r : result A) log log' a : lift r log = (log', Ok a) -> log' = log /\ r = Ok a.
Proof. by intros [= -> ->]. Qed.

Ltac exec_inv :=
  repeat match goal with
  | H : mbind (M := Exec) _ _ _ = (_, Ok _) |- _ =>
      let a := fresh "a" in let l := fresh "log" in let E := fresh "E" in
      apply bind_Ok in H as (a & l & E & H)
  | H : lift _ _ = (_, Ok _) |- _ =>
      let E := fresh "E" in apply lift_Ok in H as [? E]; subst; try (unfold throw_if in E)
  | H : mret _ _ = (_, Ok _) |- _ => injection H as ? ?; subst
  | H : (if ?b then Throw _ else Ok _) = Ok _ |- _ => destruct b eqn:?; [discriminate H|clear H]
  end.

Ltac case_exec :=
  match goal with H : (match ?x with _ => _ end) _ = (_, Ok _) |- _ => destruct x; try discriminate H end.

Lemma run_all_Ok {A} (ms : list (Exec A)) log log' rs l :
  run_all ms log = (log', rs) -> mapM id rs = Ok l -> Forall extends ms ->
  Forall2 (fun m a => exists log1 log2, log `prefix_of` log1 /\ log2 `prefix_of` log' /\ m log1 = (log2, Ok a)) ms l.
Proof.
  revert log rs l. induction ms as [|m ms IH]; intros log rs l; cbn [run_all].
  - intros [= <- <-]. by intros [= <-].
  - destruct (m log) as [log1 r] eqn:Em. destruct (run_all ms log1) as [log2 rs'] eqn:Er.
    intros [= <- <-]. cbn. destruct r as [a|]; cbn; [|done].
    destruct (mapM id rs') as [l'|] eqn:El; cbn; [|done]. intros [= <-] [Hm Hms]%Forall_cons.
    pose proof (Hm log) as Hp. rewrite Em in Hp. cbn in Hp.
    pose proof (extends_run_all ms Hms log1) as Hp2. rewrite Er in Hp2. cbn in Hp2.
    constructor.
    + exists log, log1. split_and!; done.
    + eapply Forall2_impl; [by apply (IH log1 rs')|]. intros m' a' (l1 & l2 & H1 & H2 & H3).
      exists l1, l2. split_and!; [by etransitivity|done..].
Qed.

(** ** Data flow *)

(** The steps that were done, with what each published. *)
Abbreviation History := (list (PhysicalPlanStep * list RuntimeArtifact)).

(** Where an input came from: what that output of that step was published as, or
    what the resolver answered for the artifact, if it proves the predicate. *)
Definition comes_from (log : CallLog) (history : History) (v : PlanValue) (a : RuntimeArtifact) : Prop :=
  match pv_source v with
  | SrcStep id output => exists ps batch, (ps, batch) ∈ history /\ st_id (ps_step ps) = id /\
      batch !! output = Some a
  | SrcIngredient artifactId => exists id, truthy artifactId = Some id /\
      CResolve id (pv_predicate v) (Ok (Some a)) ∈ log /\
      unifiable (pv_predicate v) (ra_predicate a) = true
  end.

(** An artifact fits a slot: one value of its schema that proves its predicate. *)
Definition fits (slot : CapabilitySlot) (b : RuntimeInputBinding) : Prop :=
  ib_slot b = sl_name slot /\ sl_cardinality slot = One /\ sl_schema slot = Some (ra_schema (ib_artifact b)) /\
  unifiable (sl_predicate slot) (ra_predicate (ib_artifact b)) = true.

(** A published artifact proves what was planned with the schema of its draft. *)
Definition proves (v : PlanValue) (draft : RuntimeOutputDraft) (a : RuntimeArtifact) : Prop :=
  unifiable (pv_predicate v) (ra_predicate a) = true /\ ra_schema a = dr_schema draft /\
  is_ok (ra_value a) = true.

Record step_ok (xq : PhysicalProgramExecutionRequest) (log : CallLog) (history : History)
    (ps : PhysicalPlanStep) (batch : list RuntimeArtifact) : Prop := {
  so_environment : tg_environment (ps_target ps) = pp_executionEnvironment (xq_program xq);
  so_depends : "" ∉ st_dependsOn (ps_step ps) -> forall d, d ∈ st_dependsOn (ps_step ps) ->
    d ∈ (fun e => st_id (ps_step e.1)) <$> history;
  so_publication : exists capability inputs slots drafts out,
    capabilityFor (xq_registry xq) (st_capability (ps_step ps)) = Ok capability /\
    CPublish (publication_of xq (ps_step ps) inputs drafts) (Ok batch) ∈ log /\
    cap_inputSlots capability = Some slots /\ Forall2 fits slots inputs /\
    Forall2 (comes_from log history) (st_inputs (ps_step ps)) (ib_artifact <$> inputs) /\
    cap_outputSlots capability = Some out /\
    Forall2 (fun slot d => dr_slot d = sl_name slot /\ Some (dr_schema d) = sl_schema slot) out drafts /\
    length batch = length (st_outputs (ps_step ps)) /\
    forall i a, batch !! i = Some a -> exists v d,
      st_outputs (ps_step ps) !! i = Some v /\ drafts !! i = Some d /\ proves v d a
}.

Lemma comes_from_mono log log' history history' v a :
  log `prefix_of` log' -> history ⊆ history' -> comes_from log history v a -> comes_from log' history' v a.
Proof.
  intros Hl Hh. unfold comes_from. destruct (pv_source v) as [x|id output].
  - intros (i & ? & ? & ?). exists i. split_and!; [done| |done]. destruct Hl as [k ->].
    apply elem_of_app. by left.
  - intros (ps & batch & ? & ? & ?). exists ps, batch. split_and!; auto.
Qed.

Lemma step_ok_mono xq log log' history ps batch :
  log `prefix_of` log' -> step_ok xq log history ps batch -> step_ok xq log' history ps batch.
Proof.
  intros Hl [He Hd (c & inputs & slots & drafts & out & Hc & Hp & Hs & Hf & Hin & Ho & Hdr & Hl' & Hv)].
  split; [done..|]. exists c, inputs, slots, drafts, out. split_and!; try done.
  - destruct Hl as [k ->]. apply elem_of_app. by left.
  - eapply Forall2_impl; [exact Hin|]. intros v a. by apply comes_from_mono.
Qed.

(** ** Slots *)

Lemma check_declared_one input slots predicates :
  check_declared input slots predicates = Ok tt -> Forall (fun slot => sl_cardinality slot = One) slots.
Proof.
  revert predicates. induction slots as [|slot slots IH]; intros predicates H; [constructor|].
  cbn [check_declared] in H. inv_result. bools. constructor; [done|]. by eapply IH.
Qed.

Lemma declared_slots input slots predicates l :
  validateDeclaredSlots input slots predicates = Ok l ->
  slots = Some l /\ length l = length predicates /\ Forall (fun slot => sl_cardinality slot = One) l.
Proof.
  unfold validateDeclaredSlots. destruct slots as [k|]; [|done]. intros H. inv_result. bools.
  split_and!; [done|by apply Nat.eqb_eq|].
  match goal with u : unit |- _ => destruct u end. by eapply check_declared_one.
Qed.

Lemma inputs_fit c slots artifacts inputs index :
  Forall (fun slot => sl_cardinality slot = One) slots ->
  check_artifacts true index slots artifacts = Ok tt -> bind_slots c slots artifacts = Ok inputs ->
  ib_artifact <$> inputs = artifacts /\ Forall2 fits slots inputs.
Proof.
  intros Hone. revert artifacts inputs index.
  induction Hone as [|slot slots Hs _ IH]; intros artifacts inputs index Hc Hb; cbn [bind_slots] in Hb.
  - injection Hb as <-. destruct artifacts as [|a artifacts]; [split; [done|constructor]|done].
  - destruct artifacts as [|a artifacts]; [done|]. cbn [check_artifacts] in Hc. cbv zeta in Hc. inv_result. bools.
    match goal with Hr : bind_slots _ _ _ = _ |- _ => destruct (IH _ _ _ Hc Hr) as [<- ?] end. split; [done|].
    constructor; [|done]. split_and!; try done. by apply truthy_Some.
Qed.

Lemma drafts_fit c slots planned outputs drafts :
  drafts_of c slots planned outputs = Ok drafts ->
  Forall2 (fun slot d => dr_slot d = sl_name slot /\ Some (dr_schema d) = sl_schema slot) slots drafts.
Proof.
  revert planned drafts. induction slots as [|slot slots IH]; intros planned drafts; cbn [drafts_of].
  - intros [= <-]. constructor.
  - destruct (output_value _ _); [|done]. destruct (truthy (pv_predicate <$> head planned)); [|done].
    destruct (truthy (sl_schema slot)) as [schema|] eqn:E; [|done]. intros H. inv_result.
    constructor; [|by eapply IH]. split; [done|]. by rewrite (truthy_Some _ _ E).
Qed.

Lemma outputDrafts_fit c step r drafts :
  outputDrafts c step r = Ok drafts ->
  exists out, cap_outputSlots c = Some out /\
    Forall2 (fun slot d => dr_slot d = sl_name slot /\ Some (dr_schema d) = sl_schema slot) out drafts.
Proof.
  unfold outputDrafts. destruct (validateDeclaredSlots _ _ _) as [out|] eqn:E; cbn; [|done].
  apply declared_slots in E as (Eo & _). rewrite Eo. cbn. intros H. exists out. split; [done|].
  destruct (js_find _ _); [|by eapply drafts_fit]. inv_result. by eapply drafts_fit.
Qed.

Lemma stepValueKey_inj id id' n n' :
  stepValueKey id n = stepValueKey id' n' -> id = id' /\ n = n'.
Proof. apply (suffixed_inj (pretty (A := nat)) ":"%char); by apply pretty_nat_free. Qed.

(** ** States *)

(** What the executor remembers is the history. *)
Record state_ok (history : History) (s : ExecState) : Prop := {
  st_values : forall key a, map_get key (es_values s) = Some a -> exists ps batch k,
    (ps, batch) ∈ history /\ key = stepValueKey (st_id (ps_step ps)) k /\ batch !! k = Some a;
  st_completed : es_completed s = (fun e => st_id (ps_step e.1)) <$> history;
  st_published : es_published s = mjoin history.*2
}.

Lemma accept_outputs_spec stepId index publication planned drafts s s' :
  accept_outputs stepId index publication planned drafts s = Ok s' ->
  es_completed s' = es_completed s /\ es_published s' = es_published s ++ publication /\
  (forall i a, publication !! i = Some a -> exists v d,
     planned !! i = Some v /\ drafts !! i = Some d /\ proves v d a) /\
  (forall key a, map_get key (es_values s') = Some a ->
     map_get key (es_values s) = Some a \/
     exists k, key = stepValueKey stepId (index + k) /\ publication !! k = Some a).
Proof.
  revert index planned drafts s. induction publication as [|artifact publication IH]; intros index planned drafts s;
    cbn [accept_outputs].
  - intros [= <-]. rewrite app_nil_r. split_and!; auto. by intros i a.
  - destruct planned as [|v planned]; [done|]. intros H. inv_result.
    apply IH in H as (Hc & Hp & Hi & Hv). cbn in Hc, Hp, Hv. split_and!; [done| | |].
    + by rewrite Hp, <- app_assoc.
    + intros [|i] a; cbn; [|intros ?; destruct (Hi i a) as (v' & d & ? & ? & ?); [done|];
        exists v', d; split_and!; [done| |done]; by destruct drafts].
      intros [= <-]. unfold assertPublishedOutput in *.
      destruct drafts as [|d drafts]; cbn in *; [done|]. inv_result. bools.
      exists v, d. unfold proves. split_and!; try done. match goal with H : ra_value _ = Ok _ |- _ => by rewrite H end.
    + intros key a [Hk|(k & -> & ?)]%Hv.
      * rewrite map_get_set in Hk. case_decide; [|by left]. injection Hk as <-. right. exists 0.
        split; [by rewrite Nat.add_0_r|done].
      * right. exists (S k). split; [by rewrite Nat.add_succ_r|done].
Qed.

Lemma resolveValue_Ok h values log v log' a :
  resolveValue h values v log = (log', Ok a) ->
  match pv_source v with
  | SrcStep id output => map_get (stepValueKey id output) values = Some a
  | SrcIngredient artifactId => exists id, truthy artifactId = Some id /\
      CResolve id (pv_predicate v) (Ok (Some a)) ∈ log' /\ unifiable (pv_predicate v) (ra_predicate a) = true
  end.
Proof.
  unfold resolveValue. destruct (pv_source v) as [artifactId|id output].
  - destruct (truthy artifactId) as [id|]; [|done]. intros H. exec_inv.
    unfold resolve_artifact in *. destruct a0 as [artifact|]; [|done]. exec_inv. bools.
    match goal with H : (_, hs_resolve _ _ _ _) = _ |- _ => injection H as <- Hr end.
    exists id. rewrite Hr. split_and!; [done| |done]. apply elem_of_app. right. left.
  - intros [-> H]%lift_Ok. destruct (map_get _ values); [|done]. by injection H as ->.
Qed.

Lemma resolve_all_Ok h history s vs log log' l :
  state_ok history s ->
  promise_all h (resolveValue h (es_values s) <$> vs) log = (log', Ok l) ->
  Forall2 (comes_from log' history) vs l.
Proof.
  intros Hs H. unfold promise_all in H. destruct (run_all _ log) as [log1 rs] eqn:Er.
  injection H as -> H. destruct (rejections rs); [|done].
  pose proof (run_all_Ok _ _ _ _ _ Er H) as Hall.
  specialize (Hall (proj2 (Forall_fmap _ _ _) (Forall_true _ vs (extends_resolveValue h _)))).
  rewrite Forall2_fmap_l in Hall. eapply Forall2_impl; [exact Hall|].
  intros v a (log2 & log3 & _ & Hp & Hv%resolveValue_Ok). unfold comes_from.
  destruct (pv_source v) as [artifactId|id output].
  - destruct Hv as (i & ? & ? & ?). exists i. split_and!; [done| |done]. destruct Hp as [k ->].
    apply elem_of_app. by left.
  - destruct (st_values _ _ Hs _ _ Hv) as (ps & batch & k & ? & E & ?).
    apply stepValueKey_inj in E as [-> ->]. by exists ps, batch.
Qed.

Lemma state_ok_nil : state_ok [] no_progress.
Proof. by split. Qed.

Section Success.
Context (h : Host) (xq : PhysicalProgramExecutionRequest) (parameters : jobject) (resource : option jobject).

(** The drafts of a step are those of the actor's result. *)
Lemma executeFactoryStep_Ok ps capability inputs decisions log log' drafts warnings decisions' :
  executeFactoryStep h xq parameters resource ps capability inputs decisions log =
    (log', Ok (drafts, warnings, decisions')) ->
  exists r, outputDrafts capability (ps_step ps) r = Ok drafts.
Proof.
  unfold executeFactoryStep. destruct (ps_target ps); [done|]. intros H.
  do 4 (exec_inv; try case_exec). exec_inv.
  unfold finally in H. destruct (use_actor _ _ _ _ _ _ _ _ _ _ _ _) as [l r] eqn:Eu.
  destruct (release h _ l) as [l' [[]|]]; [|done]. injection H as <- ->.
  unfold use_actor in Eu. exec_inv. case_exec. exec_inv. eexists. eassumption.
Qed.

Lemma depends_met (completed depends : list string) :
  ~ is_Some (truthy (js_find (fun d => negb (includes completed d)) depends)) -> "" ∉ depends ->
  forall d, d ∈ depends -> d ∈ completed.
Proof.
  intros Hn He. destruct (js_find _ depends) as [d|] eqn:E.
  - apply js_find_Some in E as [Hd _]. exfalso. apply Hn. cbn. destruct d; [done|]. by eexists.
  - intros d Hd. pose proof (proj1 (js_find_None _ _) E d Hd) as H. unfold includes in H. by bools.
Qed.

Lemma state_ok_snoc history s ps batch s' decisions warnings :
  state_ok history s -> es_completed s' = es_completed s -> es_published s' = es_published s ++ batch ->
  (forall key a, map_get key (es_values s') = Some a -> map_get key (es_values s) = Some a \/
     exists k, key = stepValueKey (st_id (ps_step ps)) (0 + k) /\ batch !! k = Some a) ->
  state_ok (history ++ [(ps, batch)])
    {| es_values := es_values s'; es_completed := es_completed s' ++ [st_id (ps_step ps)];
       es_published := es_published s'; es_decisions := decisions; es_warnings := warnings |}.
Proof.
  intros [Hv Hc Hp] Ec Ep Ev. split; cbn.
  - intros key a [Ha|(k & -> & Hk)]%Ev.
    + destruct (Hv _ _ Ha) as (ps' & b & k & ? & ? & ?). exists ps', b, k. split_and!; [|done..].
      apply elem_of_app. by left.
    + exists ps, batch, k. split_and!; [|done..]. apply elem_of_app. right. left.
  - by rewrite Ec, Hc, fmap_app.
  - rewrite Ep, Hp, fmap_app, join_app. cbn. by rewrite app_nil_r.
Qed.

Lemma run_step_Ok ps history s log log' s' :
  state_ok history s -> run_step h xq parameters resource ps s log = (log', Ok s') ->
  exists batch, state_ok (history ++ [(ps, batch)]) s' /\ step_ok xq log' history ps batch.
Proof.
  intros Hs H. unfold run_step in H. exec_inv. bools.
  match goal with H : capabilityFor _ _ = Ok ?c |- _ => rename c into capability; rename H into Hcap end.
  match goal with H : context [executeFactoryStep] |- _ => rename H into Hexec end.
  match type of Hexec with _ = (_, Ok ?x) => destruct x as [[drafts warnings] decisions] end.
  exec_inv. bools. inv_result.
  match goal with H : resolveInputs _ _ _ _ = (?l, Ok ?x) |- _ =>
    rename x into artifacts; rename H into Hin; rename l into log1 end.
  match goal with H : bindInputs _ _ = Ok ?x |- _ => rename x into inputs; rename H into Hbind end.
  match goal with H : publish _ _ _ = (_, Ok ?x) |- _ => rename x into batch; rename H into Hpub end.
  match goal with H : accept_outputs _ _ _ _ _ _ = Ok ?x |- _ =>
    apply accept_outputs_spec in H as (Ec & Ep & Hproves & Ev) end. cbn [es_completed es_published es_values] in *.
  exists batch. split; [by apply (state_ok_snoc history s)|].
  pose proof (extends_executeFactoryStep h xq parameters resource ps capability inputs
    (set_add (al_decisionId (tg_authorization (ps_target ps))) (es_decisions s)) log1) as Hext.
  rewrite Hexec in Hext. apply executeFactoryStep_Ok in Hexec as (r & (out & Ho & Hdrafts)%outputDrafts_fit).
  unfold publish in Hpub. injection Hpub as <- Hpub.
  match goal with H : validateSlots _ _ _ _ = Ok ?u |- _ => unfold validateSlots in H; destruct u end.
  inv_result. match goal with H : validateDeclaredSlots _ _ _ = Ok ?x |- _ =>
    rename x into slots; apply declared_slots in H as (Es & _ & Hone) end.
  unfold bindInputs in Hbind. rewrite Es in Hbind. cbn in Hbind.
  match goal with H : check_artifacts _ _ _ _ = Ok _ |- _ =>
    destruct (inputs_fit _ _ _ _ _ Hone H Hbind) as [Ea Hfit] end.
  split; [done| |].
  - rewrite <- (st_completed _ _ Hs). by apply depends_met.
  - exists capability, inputs, slots, drafts, out. split_and!; try done.
    + rewrite <- Hpub. apply elem_of_app. right. left.
    + rewrite Ea. eapply Forall2_impl; [by eapply resolve_all_Ok|]. intros v x.
      apply comes_from_mono; [|done]. etransitivity; [exact Hext|by eexists].
    + by apply Nat.eqb_eq.
Qed.

Lemma extends_run_steps steps s : extends (run_steps h xq parameters resource steps s).
Proof.
  revert s. induction steps as [|ps steps IH]; intros s; cbn [run_steps]; [apply extends_ret|].
  apply extends_bind; [apply extends_run_step|]. intros s'. apply IH.
Qed.

(** Every step of a history was fine when it was done. *)
Definition history_ok (log : CallLog) (history : History) : Prop :=
  forall i ps batch, history !! i = Some (ps, batch) -> step_ok xq log (take i history) ps batch.

Lemma run_steps_Ok steps history s log log' s' :
  state_ok history s -> history_ok log history ->
  run_steps h xq parameters resource steps s log = (log', Ok s') ->
  exists history', state_ok history' s' /\ history_ok log' history' /\ history'.*1 = history.*1 ++ steps.
Proof.
  revert history s log. induction steps as [|ps steps IH]; intros history s log Hs Hh H; cbn [run_steps] in H.
  - injection H as <- <-. exists history. by rewrite app_nil_r.
  - apply bind_Ok in H as (s1 & log1 & H1 & H2).
    pose proof (extends_run_step h xq parameters resource ps s log) as Hext. rewrite H1 in Hext. cbn in Hext.
    destruct (run_step_Ok _ _ _ _ _ _ Hs H1) as (batch & Hs1 & Hstep).
    assert (history_ok log1 (history ++ [(ps, batch)])) as Hh1.
    { intros i ps' b Hi. destruct (decide (i < length history)) as [Hlt|Hge].
      * rewrite lookup_app_l in Hi by done. rewrite take_app_le by lia.
        by apply (step_ok_mono _ log), Hh.
      * rewrite lookup_app_r in Hi by lia. apply list_lookup_singleton_Some in Hi as [Hi [= <- <-]].
        rewrite take_app_le, take_ge by lia. done. }
    destruct (IH _ _ _ Hs1 Hh1 H2) as (history' & ? & ? & E). exists history'. split_and!; [done..|]. by rewrite E, fmap_app, <- app_assoc.
Qed.
End Success.

(** what a successful execution has done.  If a program completes, every one of
    its steps was done, in order: on a target of the planned environment, after the
    steps it depends on; its outputs were published with the very inputs the actor
    saw, each of which is what the planned step had published at that place, or
    what the resolver gave for the planned artifact and proves its predicate; each
    input fits its declared slot by schema and predicate; and each published
    artifact proves the planned output with the schema of the declared output slot.
    The artifacts returned are those published, and the goals that remain are those
    no resolved result proves. *)
Theorem successful_executions_are_justified (h : Host) (xq : PhysicalProgramExecutionRequest)
    (log : CallLog) (r : PhysicalProgramExecutionResult)
    (Hrun : executePhysicalProgram h xq [] = (log, Ok r)) :
  exists history results,
    history.*1 = pp_steps (xq_program xq) /\ history_ok xq log history /\
    xr_completedStepIds r = (fun ps => st_id (ps_step ps)) <$> pp_steps (xq_program xq) /\
    xr_artifacts r = mjoin history.*2 /\
    Forall2 (comes_from log history) (pp_results (xq_program xq)) results /\
    xr_fulfilledPredicates r = ra_predicate <$> results /\
    forall goal, goal ∈ pp_goals (xq_program xq) ->
      goal ∈ xr_remainingGoals r \/ exists a, a ∈ results /\ unifiable goal (ra_predicate a) = true.
Proof.
  unfold executePhysicalProgram in Hrun. exec_inv.
  match goal with H : run_steps _ _ _ _ _ _ _ = (?l, Ok ?x) |- _ =>
    rename x into s; rename H into Hsteps; rename l into log1 end.
  match goal with H : promise_all _ _ _ = (_, Ok ?x) |- _ => rename x into results; rename H into Hres end.
  destruct (run_steps_Ok h xq _ _ _ [] _ _ _ _ state_ok_nil ltac:(by intros i ps b) Hsteps)
    as (history & Hs & Hh & E). cbn in E.
  pose proof (extends_resolve_all h (es_values s) (pp_results (xq_program xq)) log1) as Hext.
  rewrite Hres in Hext. cbn in Hext.
  exists history, results. cbn. split_and!; [done| | | | |done|].
  - intros i ps batch Hi. by apply (step_ok_mono _ log1), Hh.
  - by rewrite (st_completed _ _ Hs), <- E, <- list_fmap_compose.
  - apply (st_published _ _ Hs).
  - by eapply resolve_all_Ok.
  - intros goal Hg. destruct (existsb (unifiable goal) (ra_predicate <$> results)) eqn:Eb.
    + right. apply existsb_elem in Eb as (p & (x & -> & Hx)%list_elem_of_fmap & Hu). by exists x.
    + left. apply list_elem_of_In, List.filter_In. split; [by apply list_elem_of_In|by rewrite Eb].
Qed.

(** ** A concrete host *)

Module Reading.

Definition schema (p : string) : string := "schema:" +:+ functor (parseTerm p).

Definition slot (name p : string) : CapabilitySlot :=
  {| sl_name := name; sl_predicate := p; sl_schema := Some (schema p); sl_role := None;
     sl_cardinality := One; sl_sensitive := None |}.

Definition capability (id requires produces : string) : Capability :=
  {| cap_id := id; cap_actor := "actor"; cap_method := "run"; cap_requires := [requires];
     cap_produces := [produces]; cap_cost := Some 1%Z; cap_available := None; cap_mode := None;
     cap_idempotency := None; cap_parametersSchema := None;
     cap_inputSlots := Some [slot "in" requires]; cap_outputSlots := Some [slot "out" produces] |}.

(** A file is read, and its text parsed. *)
Definition read : Capability := capability "read" "file(D)" "text(D)".
Definition parse : Capability := capability "parse" "text(D)" "fields(D)".

Definition definition : ActorDefinition :=
  {| ad_ref := "ref"; ad_id := "reader"; ad_version := "1"; ad_label := ""; ad_description := "";
     ad_tags := []; ad_manifest := ad_manifest sample_definition; ad_capabilities := [read; parse] |}.

Definition offer : ActorFactoryOffer :=
  {| of_offerId := "o"; of_factoryId := "f"; of_definitionRef := "ref"; of_label := "";
     of_capabilityIds := ["read"; "parse"]; of_executionEnvironment := Server;
     of_configurationSchema := None; of_defaultConfiguration := None; of_locality := None;
     of_trustDomain := None; of_cost := None; of_latencyMs := None; of_lifetime := None;
     of_metadata := None |}.

Definition registry : ActorRegistrySnapshot :=
  {| sn_revision := 7; sn_capturedAt := "2026"; sn_definitions := [definition]; sn_instances := [];
     sn_offers := [offer] |}.

Definition artifact (p schema : string) : RuntimeArtifact :=
  {| ra_artifactId := "artifact:" +:+ p; ra_predicate := p; ra_schema := schema; ra_typeKey := "t";
     ra_schemaVersion := 1; ra_contentDigest := "d"; ra_value := Ok JNull |}.

Definition admission (q : ActorSpawnRequest) : Admission :=
  {| ad_admissionId := "a"; ad_expiresAt := "2027"; ad_grantedCapabilities := sq_requestedCapabilities q;
     ad_normalizedConfiguration := sq_configuration q; ad_portable := Ok tt; ad_constraints := None |}.

Definition advertisement (f : ActorFactory) (q : ActorSpawnRequest) : ActorInstanceAdvertisement :=
  {| ai_instanceId := "i"; ai_definitionRef := of_definitionRef (fy_offer f); ai_label := "";
     ai_address := AddrLocal "i"; ai_capabilityIds := sq_requestedCapabilities q; ai_status := Available;
     ai_executionEnvironment := of_executionEnvironment (fy_offer f); ai_locality := None;
     ai_trustDomain := None; ai_cost := None; ai_latencyMs := None; ai_expiresAt := None; ai_metadata := None |}.

Definition answer : HandlerResult :=
  {| hr_record := Some (JObject [("ok", JBool true); ("outputs", JObject [("out", JNull)])]); hr_wire := "" |}.

Definition host : Host :=
  {| hs_resolve := fun _ _ p => Ok (Some (artifact p (schema p)));
     hs_factory := fun _ id => if bool_decide (id = "f") then Some {| fy_object := 0; fy_offer := offer |} else None;
     hs_decide := fun _ _ => Ok (Allow sample_allowance);
     hs_assess := fun _ _ q => Ok (AdmissionGranted (admission q));
     hs_spawn := fun _ f q _ => Ok {| sp_object := 1; sp_uuid := "u"; sp_advertisement := advertisement f q |};
     hs_deliver := fun _ _ _ _ => Ok answer;
     hs_release := fun _ _ => Ok tt;
     hs_publish := fun _ pub => Ok ((fun d => artifact (dr_predicate d) (dr_schema d)) <$> pb_outputs pub);
     hs_rejection := fun _ => 0 |}.

Definition target : AuthorizedActorTarget := factoryTarget offer [] sample_allowance.

Definition value (p : string) (source : Source) : PlanValue := {| pv_predicate := p; pv_source := source |}.

Definition step (id capability : string) (input output : PlanValue) (dependsOn : list string) : PhysicalPlanStep :=
  {| ps_step := {| st_id := id; st_capability := capability; st_actor := "actor"; st_method := "run";
                   st_inputs := [input]; st_outputs := [output]; st_dependsOn := dependsOn; st_cost := 1 |};
     ps_target := target |}.

Definition text : PlanValue := value "text(doc)" (SrcStep "step-1" 0).
Definition fields : PlanValue := value "fields(doc)" (SrcStep "step-2" 0).

Definition program : PhysicalProgram :=
  {| pp_goals := ["fields(doc)"]; pp_totalCost := 2; pp_results := [fields]; pp_registryRevision := 7;
     pp_plannedFor := {| pf_subjectId := "u"; pf_tenantId := None |}; pp_executionEnvironment := Server;
     pp_steps := [step "step-1" "read" (value "file(doc)" (SrcIngredient (Some "artifact-1"))) text [];
                  step "step-2" "parse" text fields ["step-1"]] |}.

Definition request : PhysicalProgramExecutionRequest :=
  {| xq_runId := "run-1"; xq_program := program; xq_registry := registry; xq_principal := sample_principal;
     xq_access := {| ac_tenantId := None; ac_entitlements := None; ac_artifactGrantIds := None |};
     xq_parameters := None; xq_resource := None |}.

Definition outcome : CallLog * result PhysicalProgramExecutionResult := executePhysicalProgram host request [].

Example outcome_complete :
  match outcome.2 with
  | Ok r => xr_completedStepIds r = ["step-1"; "step-2"] /\ xr_remainingGoals r = [] /\
      length outcome.1 = 17
  | Throw _ => False
  end.
Proof. vm_compute. repeat split. Qed.

End Reading.

Lemma successful_executions_are_justified_witness :
  exists r history, Reading.outcome = (Reading.outcome.1, Ok r) /\
    history.*1 = pp_steps Reading.program /\ xr_artifacts r = mjoin history.*2.
Proof.
  destruct Reading.outcome.2 as [r|e] eqn:E; [|vm_compute in E; discriminate E].
  assert (executePhysicalProgram Reading.host Reading.request [] = (Reading.outcome.1, Ok r)) as Hrun.
  { rewrite <- E. exact (surjective_pairing Reading.outcome). }
  destruct (successful_executions_are_justified Reading.host Reading.request Reading.outcome.1 r Hrun)
    as (history & results & ? & _ & _ & ? & _).
  exists r, history. split; [exact Hrun|]. by split.
Defined.
