(* ===== verification/Completion.v ===== *)
(** * From request to completion

    Planner, authorizer, physical planner and executor together: over a registry
    whose slots declare the schemas of their predicates, and with a host that
    cooperates, a request for exact goals is carried out completely whenever the
    planner finds a program for it. *)

From S2P Require Import Prelude Term Contracts Json Actors Planner PlannerMatch PlannerSearch.
From S2P Require Import Registry Authorization Physical Run Executor Execution.

Open Scope stdpp_scope.
Open Scope js_scope.

#[local] Opaque solve.

(** ** Names of predicates *)

Lemma functor_plain p :
  trim (functor (parseTerm p)) = functor (parseTerm p) /\ free_of "(" (functor (parseTerm p)) = true.
Proof.
  unfold parseTerm. destruct (index_of "(" (trim p)) as [n|] eqn:E; cbn [functor].
  - split; [apply trim_idem|]. apply string_forall_trim.
    apply index_of_take in E as [Hn Hf].
    unfold js_slice. rewrite (proj2 (Z.ltb_ge 0 0)), (proj2 (Z.ltb_ge (Z.of_nat n) 0)) by lia.
    rewrite !Z.min_l by lia. rewrite Z.sub_0_r, Nat2Z.id. exact Hf.
  - split; [apply trim_idem|by apply index_of_None].
Qed.

(** A substitution does not change the name of a predicate. *)
Lemma functor_substitute p σ : functor (parseTerm (substitute p σ)) = functor (parseTerm p).
Proof.
  destruct (functor_plain p) as [Ht Hf]. unfold substitute. set (f := functor (parseTerm p)) in *.
  destruct (includes_char "(" p).
  - set (x := join ", " _). unfold parseTerm.
    assert (trim (f +:+ "(" +:+ x +:+ ")") = f +:+ String "(" (x +:+ ")")) as ->.
    { change ("(" +:+ x +:+ ")") with (String "(" (x +:+ ")")). unfold trim.
      assert (f +:+ String "(" (x +:+ ")") = (f +:+ String "(" x) +:+ String ")" "") as E
        by (by rewrite string_app_assoc).
      rewrite E, trim_end_app, <- E by done. by apply trim_start_trimmed; [apply trimmed_start|]. }
    rewrite index_of_app by done. cbn [functor]. unfold js_slice.
    assert (String.length f <= String.length (f +:+ String "(" (x +:+ ")"))) as Hl.
    { clear. induction f as [|c f IH]; cbn; lia. }
    rewrite (proj2 (Z.ltb_ge 0 0)), (proj2 (Z.ltb_ge _ 0)) by lia.
    rewrite !Z.min_l by lia. rewrite Z.sub_0_r, Nat2Z.id. change (Z.to_nat 0) with 0. cbn [string_drop].
    by rewrite string_take_app.
  - unfold parseTerm. rewrite Ht, (proj2 (index_of_None _ _) Hf). done.
Qed.

Lemma unifiable_refl p : unifiable p p = true.
Proof.
  apply unifiable_spec. exists (fun v => v). split; [by intros c|]. split; [by split|].
  apply Forall2_same_length_lookup_2; [done|]. intros i x y Hx Hy. right. right. congruence.
Qed.

(** ** Succeeding *)

(** From every log the code succeeds, with a value that has [q]. *)
Definition succeeds {A} (m : Exec A) (q : A -> Prop) : Prop :=
  forall log, exists log' a, m log = (log', Ok a) /\ q a.

Lemma succeeds_ret {A} (a : A) (q : A -> Prop) : q a -> succeeds (mret a) q.
Proof. intros Hq log. by exists log, a. Qed.

Lemma succeeds_lift {A} (r : result A) a (q : A -> Prop) : r = Ok a -> q a -> succeeds (lift r) q.
Proof. intros -> Hq log. by exists log, a. Qed.

Lemma succeeds_bind {A B} (m : Exec A) (k : A -> Exec B) p q :
  succeeds m p -> (forall a, p a -> succeeds (k a) q) -> succeeds (m ≫= k) q.
Proof.
  intros Hm Hk log. destruct (Hm log) as (log1 & a & E & Ha). unfold mbind, Exec_bind. rewrite E.
  exact (Hk a Ha log1).
Qed.

Lemma succeeds_guard {B} b message (k : Exec B) q :
  b = false -> succeeds k q -> succeeds (mbind (M := Exec) (fun _ : unit => k) (lift (throw_if b message))) q.
Proof. intros -> Hk log. apply Hk. Qed.

Lemma succeeds_let {A B} (v : result A) a (k : A -> Exec B) q :
  v = Ok a -> succeeds (k a) q -> succeeds (mbind (M := Exec) k (lift v)) q.
Proof. intros -> Hk log. apply Hk. Qed.

Lemma succeeds_impl {A} (m : Exec A) (p q : A -> Prop) :
  succeeds m p -> (forall a, p a -> q a) -> succeeds m q.
Proof. intros Hm H log. destruct (Hm log) as (log' & a & ? & ?). exists log', a. auto. Qed.

Lemma succeeds_finally {A} (body : Exec A) (cleanup : Exec unit) q :
  succeeds body q -> succeeds cleanup (fun _ => True) -> succeeds (finally body cleanup) q.
Proof.
  intros Hb Hc log. destruct (Hb log) as (log1 & a & E & Ha). destruct (Hc log1) as (log2 & u & E2 & _).
  exists log2, a. unfold finally. by rewrite E, E2.
Qed.

Lemma succeeds_all {A B} h (f : B -> Exec A) (q : B -> A -> Prop) (l : list B) :
  (forall x, x ∈ l -> succeeds (f x) (q x)) -> succeeds (promise_all h (f <$> l)) (Forall2 q l).
Proof.
  intros Hl log. unfold promise_all.
  assert (exists log' k, run_all (f <$> l) log = (log', Ok <$> k) /\ Forall2 q l k) as (log' & k & -> & Hk).
  { revert log. induction l as [|x l IH]; intros log; [by exists log, []|].
    change (f <$> (x :: l)) with (f x :: (f <$> l)). cbn [run_all].
    destruct (Hl x ltac:(left) log) as (log1 & a & -> & Ha).
    destruct (IH ltac:(intros; apply Hl; by right) log1) as (log2 & k & Er & Hk).
    rewrite Er. exists log2, (a :: k).
    split; [done|by constructor]. }
  exists log', k. split; [|done].
  assert (rejections (Ok <$> k) = []) as -> by (clear; unfold rejections; induction k; cbn; done).
  f_equal. clear. induction k as [|a k IH]; [done|]. cbn. by rewrite IH.
Qed.

Lemma list_nil_filter {A} (f : A -> bool) l : (forall x, x ∈ l -> f x = false) -> List.filter f l = [].
Proof.
  induction l as [|x l IH]; intros H; [done|]. cbn. rewrite (H x) by left. apply IH. intros; apply H; by right.
Qed.

(** ** A registry with schemas and a host that cooperates *)

Section Cooperation.
Context (sch : string -> string) (h : Host) (registry : ActorRegistrySnapshot).

(** The schema of a predicate depends on its name. *)
Definition schema_of (p : string) : string := sch (functor (parseTerm p)).

(** The slots bind the predicates one by one, each with its schema. *)
Definition declares (slots : option (list CapabilitySlot)) (predicates : list string) : Prop :=
  exists l, slots = Some l /\
    Forall2 (fun slot p => sl_predicate slot = p /\ functor (parseTerm p) <> "" /\
               sl_cardinality slot = One /\ sl_schema slot = Some (schema_of p) /\ schema_of p <> "") l predicates.

(** Identifiers name one capability, every slot is declared, and what can be
    planned on are factories. *)
Record well_declared : Prop := {
  wd_capability : forall d c, d ∈ sn_definitions registry -> c ∈ ad_capabilities d ->
    capabilityFor registry (cap_id c) = Ok c /\
    declares (cap_inputSlots c) (cap_requires c) /\ declares (cap_outputSlots c) (cap_produces c);
  wd_factories : sn_instances registry = []
}.

(** An artifact that is what its predicate promises. *)
Definition good (p : string) (a : RuntimeArtifact) : Prop :=
  ra_predicate a = p /\ ra_schema a = schema_of p /\ is_ok (ra_value a) = true.

(** The actor's result fills every declared output slot and no other. *)
Definition fills (c : Capability) (r : ActorStepResult) : Prop :=
  forall name, name ∈ (as_outputs r).*1 <-> exists slot, slot ∈ default [] (cap_outputSlots c) /\ sl_name slot = name.

(** Artifacts are found, the policy allows, the factories of the offers are there
    and give what was asked, actors answer, and what is published is returned. *)
Record cooperative : Prop := {
  co_resolve : forall log id p, exists a, hs_resolve h log id p = Ok (Some a) /\ good p a;
  co_factory : forall log o, o ∈ sn_offers registry ->
    exists f, hs_factory h log (of_factoryId o) = Some f /\ fy_offer f = o;
  co_decide : forall log rq, exists a, hs_decide h log rq = Ok (Allow a);
  co_assess : forall log f q, exists ad, hs_assess h log f q = Ok (AdmissionGranted ad) /\
    ad_portable ad = Ok tt /\ forall c, c ∈ sq_requestedCapabilities q -> c ∈ ad_grantedCapabilities ad;
  co_spawn : forall log f q ad, exists sp, hs_spawn h log f q ad = Ok sp /\
    ai_definitionRef (sp_advertisement sp) = of_definitionRef (fy_offer f) /\
    ai_executionEnvironment (sp_advertisement sp) = of_executionEnvironment (fy_offer f) /\
    forall c, c ∈ sq_requestedCapabilities q -> c ∈ ai_capabilityIds (sp_advertisement sp);
  co_deliver : forall log sp method payload d c, d ∈ sn_definitions registry -> c ∈ ad_capabilities d ->
    map_get "capabilityId" payload = Some (JString (cap_id c)) ->
    exists response r, hs_deliver h log sp method payload = Ok response /\
      parseActorStepResult response = Ok r /\ fills c r;
  co_release : forall log sp, hs_release h log sp = Ok tt;
  co_publish : forall log pub, exists artifacts, hs_publish h log pub = Ok artifacts /\
    Forall2 (fun d a => ra_predicate a = dr_predicate d /\ ra_schema a = dr_schema d /\
               is_ok (ra_value a) = true) (pb_outputs pub) artifacts
}.

(** ** Slots *)

Lemma truthy_ne s : s <> "" -> truthy (Some s) = Some s.
Proof. by destruct s. Qed.

Lemma named_ne p : functor (parseTerm p) <> "" -> p <> "".
Proof. by intros H ->. Qed.

Lemma declared_ok input slots predicates :
  declares slots predicates -> exists l, slots = Some l /\ validateDeclaredSlots input slots predicates = Ok l /\
    Forall2 (fun slot p => sl_predicate slot = p /\ functor (parseTerm p) <> "" /\
               sl_cardinality slot = One /\ sl_schema slot = Some (schema_of p) /\ schema_of p <> "") l predicates.
Proof.
  intros (l & -> & Hl). exists l. split; [done|]. split; [|done]. unfold validateDeclaredSlots.
  rewrite (Forall2_length _ _ _ Hl), Nat.eqb_refl. cbn.
  assert (check_declared input l predicates = Ok tt) as ->; [|done].
  induction Hl as [|slot p l predicates (Hp & Hf & Hc & Hs & Hne) _ IH]; [done|].
  cbn [check_declared head tail]. rewrite (bool_decide_true _ Hc), Hs, truthy_ne, truthy_ne, Hp, unifiable_refl
    by (done || by apply named_ne). cbn. exact IH.
Qed.

Lemma inputs_ok c slots requires vs artifacts θ :
  declares slots requires -> slots = cap_inputSlots c ->
  Forall2 (fun r v => unifier θ r (pv_predicate v)) requires vs -> valuation θ ->
  Forall2 (fun v a => good (pv_predicate v) a) vs artifacts ->
  validateSlots true slots requires artifacts = Ok tt /\
  exists inputs, bindInputs c artifacts = Ok inputs /\ ib_artifact <$> inputs = artifacts.
Proof.
  intros Hd Hc Hu Hθ Hg. destruct (declared_ok true slots requires Hd) as (l & El & Ev & Hl).
  unfold validateSlots, bindInputs. rewrite <- Hc, Ev, El. cbn. clear Hc Ev El Hd. generalize 0 as index.
  revert vs artifacts Hu Hg. induction Hl as [|slot p l requires (Hp & Hf & Hc & Hs & Hne) _ IH];
    intros vs artifacts Hu Hg index.
  - inversion Hu; subst. inversion Hg; subst. split; [done|]. by exists [].
  - inversion Hu as [|? v ? vs' Hpv Hu']; subst. inversion Hg as [|? a ? artifacts' (Ha & Hsc & Hv) Hg']; subst.
    destruct (IH vs' artifacts' Hu' Hg' (S index)) as (Hcheck & inputs & Hb & Hin). cbn [check_artifacts bind_slots].
    assert (schema_of (pv_predicate v) = schema_of (sl_predicate slot)) as Esch.
    { unfold schema_of. by destruct Hpv as [[-> _] _]. }
    rewrite Hs, truthy_ne, Hsc, Esch, bool_decide_true by done. cbn.
    assert (unifiable (sl_predicate slot) (ra_predicate a) = true) as ->.
    { rewrite Ha. apply unifiable_spec. by exists θ. }
    cbn. split; [exact Hcheck|]. rewrite Hb. cbn. eexists. split; [done|]. cbn. by rewrite Hin.
Qed.

Lemma drafts_ok c r out produces planned :
  Forall2 (fun slot p => sl_predicate slot = p /\ functor (parseTerm p) <> "" /\
             sl_cardinality slot = One /\ sl_schema slot = Some (schema_of p) /\ schema_of p <> "") out produces ->
  Forall2 (fun p v => functor (parseTerm (pv_predicate v)) = functor (parseTerm p)) produces planned ->
  (forall slot, slot ∈ out -> sl_name slot ∈ (as_outputs r).*1) ->
  exists drafts, drafts_of c out planned (as_outputs r) = Ok drafts /\
    Forall2 (fun v d => dr_predicate d = pv_predicate v /\ dr_schema d = schema_of (pv_predicate v)) planned drafts.
Proof.
  intros Hd. revert planned. induction Hd as [|slot p out produces (Hp & Hf & Hc & Hs & Hne) _ IH];
    intros planned Hpl Hin; inversion Hpl as [|? v ? planned' Hv Hpl']; subst.
  - by exists [].
  - destruct (IH planned' Hpl' ltac:(intros; apply Hin; by right)) as (drafts & Hdr & Hall).
    cbn [drafts_of head tail fmap option_fmap option_map]. unfold output_value.
    destruct (map_get (sl_name slot) (as_outputs r)) as [value|] eqn:Em.
    2:{ apply map_get_None in Em. exfalso. apply Em, Hin. left. }
    rewrite Hs, truthy_ne by (apply named_ne; by rewrite Hv). rewrite truthy_ne, Hdr by done. cbn.
    eexists. split; [done|]. constructor; [|done]. cbn. split; [done|]. unfold schema_of. by rewrite Hv.
Qed.

Lemma outputDrafts_ok c step r :
  declares (cap_outputSlots c) (cap_produces c) -> fills c r ->
  Forall2 (fun p v => functor (parseTerm (pv_predicate v)) = functor (parseTerm p)) (cap_produces c) (st_outputs step) ->
  exists drafts, outputDrafts c step r = Ok drafts /\
    Forall2 (fun v d => dr_predicate d = pv_predicate v /\ dr_schema d = schema_of (pv_predicate v))
      (st_outputs step) drafts.
Proof.
  intros Hd Hfill Hpl. destruct (declared_ok false _ _ Hd) as (out & Eo & Ev & Hout).
  unfold fills in Hfill. unfold outputDrafts. rewrite Ev, Eo in *. cbn [mbind result_bind default] in *.
  destruct (drafts_ok c r out _ _ Hout Hpl) as (drafts & Hdr & Hall).
  { intros slot Hs. apply Hfill. by exists slot. }
  exists drafts. split; [|done].
  destruct (js_find _ _) as [name|] eqn:Ej; [|done]. exfalso.
  apply js_find_Some in Ej as [Hn He]. bools. apply Hfill in Hn as (slot & Hs & <-).
  pose proof (proj1 (existsb_elem_false _ _) He slot Hs) as Hne. cbv beta in Hne. by bools.
Qed.

Lemma accept_ok stepId index publication planned drafts s :
  Forall2 (fun v d => dr_predicate d = pv_predicate v /\ dr_schema d = schema_of (pv_predicate v)) planned drafts ->
  Forall2 (fun d a => ra_predicate a = dr_predicate d /\ ra_schema a = dr_schema d /\
             is_ok (ra_value a) = true) drafts publication ->
  exists s', accept_outputs stepId index publication planned drafts s = Ok s' /\
    es_completed s' = es_completed s /\
    (forall key, (forall k, index <= k -> key <> stepValueKey stepId k) ->
       map_get key (es_values s') = map_get key (es_values s)) /\
    forall k v, planned !! k = Some v -> exists a,
      map_get (stepValueKey stepId (index + k)) (es_values s') = Some a /\ good (pv_predicate v) a.
Proof.
  intros Hpd. revert index publication s. induction Hpd as [|v d planned drafts [Hp Hs] _ IH];
    intros index publication s Hda; inversion Hda as [|? a ? publication' (Ha & Hsc & Hv) Hda']; subst.
  - exists s. by split_and!.
  - cbn [accept_outputs head tail]. unfold assertPublishedOutput.
    rewrite Ha, Hp, unifiable_refl, Hsc, bool_decide_true by done. cbn.
    destruct (ra_value a) as [value|] eqn:Ev; [|done]. cbn.
    edestruct (IH (S index)) as (s' & Eacc & Ec & Hold & Hnew); [exact Hda'|].
    exists s'. split; [exact Eacc|]. split; [done|]. split.
    + intros key Hk. rewrite Hold by (intros k ?; apply Hk; lia). cbn.
      rewrite map_get_set_ne; [done|]. apply Hk. lia.
    + intros [|k] v'; cbn [lookup list_lookup].
      * intros [= <-]. exists a. rewrite Nat.add_0_r, Hold.
        -- cbn. rewrite map_get_set_eq. split; [done|]. split_and!; [by rewrite Ha|by rewrite Hsc|by rewrite Ev].
        -- intros k Hk [_ ?]%stepValueKey_inj. lia.
      * intros Hk. rewrite Nat.add_succ_r. by apply (Hnew k).
Qed.

(** ** One step *)

Context (Hwell : well_declared) (Hhost : cooperative).
Context (xq : PhysicalProgramExecutionRequest) (parameters : jobject) (resource : option jobject).

Lemma payload_ok runId stepId capabilityId inputs admission :
  Forall (fun b => is_ok (ra_value (ib_artifact b)) = true) inputs -> ad_portable admission = Ok tt ->
  exists payload, payload_of runId stepId capabilityId inputs parameters admission = Ok payload /\
    map_get "capabilityId" payload = Some (JString capabilityId).
Proof.
  intros Hin Hp. unfold payload_of.
  match goal with |- context [mapM ?f ?l] => destruct (mapM_Ok f (fun _ _ => True) l) as (bound & -> & _) end.
  { intros [slot a] (b & Hb & _ & <-)%bound_inputs_elem. unfold artifact_json. cbn.
    pose proof (proj1 (Forall_forall _ _) Hin b Hb) as Ha. cbn in Ha.
    destruct (ra_value (ib_artifact b)); [|done]. cbn. by eexists. }
  cbn. rewrite Hp. cbn. by eexists.
Qed.

Lemma ask_ok rq : succeeds (ask_policy h rq) (fun r => exists a, r = Allow a).
Proof.
  intros log. destruct (co_decide Hhost log rq) as [a Ha]. unfold ask_policy. rewrite Ha.
  do 2 eexists. split; [done|by exists a].
Qed.

Lemma factory_ok o : o ∈ sn_offers registry ->
  succeeds (resolve_factory h (of_factoryId o)) (fun r => exists f, r = Some f /\ fy_offer f = o).
Proof.
  intros Ho log. destruct (co_factory Hhost log o Ho) as (f & Hf & Hof). unfold resolve_factory. rewrite Hf.
  do 2 eexists. split; [done|by exists f].
Qed.

Lemma assess_ok f request :
  succeeds (assess h f request) (fun r => exists ad, r = AdmissionGranted ad /\ ad_portable ad = Ok tt /\
    forall c, c ∈ sq_requestedCapabilities request -> c ∈ ad_grantedCapabilities ad).
Proof.
  intros log. destruct (co_assess Hhost log f request) as (ad & Had & ? & ?). unfold assess. rewrite Had.
  do 2 eexists. split; [done|by exists ad].
Qed.

Lemma spawn_ok f request admission :
  succeeds (spawn h f request admission) (fun sp =>
    ai_definitionRef (sp_advertisement sp) = of_definitionRef (fy_offer f) /\
    ai_executionEnvironment (sp_advertisement sp) = of_executionEnvironment (fy_offer f) /\
    forall c, c ∈ sq_requestedCapabilities request -> c ∈ ai_capabilityIds (sp_advertisement sp)).
Proof.
  intros log. destruct (co_spawn Hhost log f request admission) as (sp & Hsp & Hs). unfold spawn. rewrite Hsp.
  do 2 eexists. by split.
Qed.

Lemma deliver_answers spawned method payload d c :
  d ∈ sn_definitions registry -> c ∈ ad_capabilities d ->
  map_get "capabilityId" payload = Some (JString (cap_id c)) ->
  succeeds (deliver_to h spawned method payload)
    (fun response => exists r, parseActorStepResult response = Ok r /\ fills c r).
Proof.
  intros Hd Hc Hget log.
  destruct (co_deliver Hhost log spawned method payload d c Hd Hc Hget) as (response & r & Hr & ?).
  unfold deliver_to. rewrite Hr. do 2 eexists. split; [done|by exists r].
Qed.

Lemma publish_ok publication :
  succeeds (publish h publication) (Forall2 (fun d a => ra_predicate a = dr_predicate d /\
    ra_schema a = dr_schema d /\ is_ok (ra_value a) = true) (pb_outputs publication)).
Proof.
  intros log. destruct (co_publish Hhost log publication) as (artifacts & Ha & ?). unfold publish. rewrite Ha.
  do 2 eexists. by split.
Qed.

(** Drafts for the planned outputs. *)
Definition drafted (planned : list PlanValue) (drafts : list RuntimeOutputDraft) : Prop :=
  Forall2 (fun v d => dr_predicate d = pv_predicate v /\ dr_schema d = schema_of (pv_predicate v)) planned drafts.

(** The outputs of a step are instances of what its capability produces. *)
Definition instances_of (produces : list string) (planned : list PlanValue) : Prop :=
  Forall2 (fun p v => functor (parseTerm (pv_predicate v)) = functor (parseTerm p)) produces planned.

Lemma use_actor_succeeds step c d definitionRef admission inputs decisions spawned :
  d ∈ sn_definitions registry -> c ∈ ad_capabilities d -> st_capability step = cap_id c ->
  ai_definitionRef (sp_advertisement spawned) = definitionRef ->
  ai_executionEnvironment (sp_advertisement spawned) = pp_executionEnvironment (xq_program xq) ->
  st_capability step ∈ ai_capabilityIds (sp_advertisement spawned) ->
  Forall (fun b => is_ok (ra_value (ib_artifact b)) = true) inputs -> ad_portable admission = Ok tt ->
  instances_of (cap_produces c) (st_outputs step) ->
  succeeds (use_actor h xq parameters resource step c definitionRef admission inputs decisions spawned)
    (fun r => drafted (st_outputs step) r.1.1).
Proof.
  intros Hd Hc Hid Href Henv Hcap Hin Hp Hout. unfold use_actor. apply succeeds_guard.
  { unfold includes. by rewrite !bool_decide_true. }
  eapply succeeds_bind; [apply ask_ok|]. intros ? [allowance ->].
  destruct (payload_ok (xq_runId xq) (st_id step) (st_capability step) inputs admission Hin Hp)
    as (payload & Hpay & Hget). eapply succeeds_let; [exact Hpay|]. rewrite Hid in Hget.
  eapply succeeds_bind; [by eapply deliver_answers|]. intros response (r & Hparse & Hfill).
  eapply succeeds_let; [exact Hparse|].
  destruct (outputDrafts_ok c step r) as (drafts & Hdr & Hall); [by eapply wd_capability|done|done|].
  eapply succeeds_let; [exact Hdr|]. by apply succeeds_ret.
Qed.

Lemma factory_step_succeeds ps c d o configuration allowance inputs decisions :
  d ∈ sn_definitions registry -> c ∈ ad_capabilities d -> st_capability (ps_step ps) = cap_id c ->
  o ∈ sn_offers registry -> ps_target ps = factoryTarget o configuration allowance ->
  of_executionEnvironment o = pp_executionEnvironment (xq_program xq) ->
  Forall (fun b => is_ok (ra_value (ib_artifact b)) = true) inputs ->
  instances_of (cap_produces c) (st_outputs (ps_step ps)) ->
  succeeds (executeFactoryStep h xq parameters resource ps c inputs decisions)
    (fun r => drafted (st_outputs (ps_step ps)) r.1.1).
Proof.
  intros Hd Hc Hid Ho Ht Henv Hin Hout. unfold executeFactoryStep. rewrite Ht. cbn [factoryTarget].
  eapply succeeds_bind; [by apply factory_ok|]. intros ? (f & -> & Hof).
  apply succeeds_guard; [by rewrite Hof, bool_decide_true|].
  eapply succeeds_bind; [apply ask_ok|]. intros ? [a ->].
  eapply succeeds_bind; [apply assess_ok|]. intros ? (ad & -> & Hp & Hg).
  apply succeeds_guard; [unfold includes; rewrite bool_decide_true; [done|apply Hg; left]|].
  eapply succeeds_bind; [apply spawn_ok|]. intros sp (Href & He & Hcap). rewrite Hof in Href, He.
  apply succeeds_finally.
  - apply (use_actor_succeeds (ps_step ps) c d); try done; [by rewrite He|apply Hcap; left].
  - intros log. unfold release. rewrite (co_release Hhost). by do 2 eexists.
Qed.

(** ** Programs *)

Context (ingredients : list Ingredient).
Context (Hids : forall i, i ∈ ingredients -> truthy (ig_artifactId i) <> None).
Context (caps : list Capability) (steps : list PlanStep).
Context (Hvalid : valid_steps caps (ingredientValue <$> ingredients) steps).

Abbreviation facts_at n := (facts_before (ingredientValue <$> ingredients) (take n steps)).

(** After [n] steps: they are completed, and their outputs are at hand. *)
Record ready (n : nat) (s : ExecState) : Prop := {
  rd_completed : es_completed s = st_id <$> take n steps;
  rd_values : forall j step k v, j < n -> steps !! j = Some step -> st_outputs step !! k = Some v ->
    exists a, map_get (stepValueKey (st_id step) k) (es_values s) = Some a /\ good (pv_predicate v) a
}.

Lemma valid_prefix n : valid_steps caps (ingredientValue <$> ingredients) (take n steps).
Proof.
  intros k st [Hk Hlt]%lookup_take_Some. destruct (Hvalid k st Hk) as (c & m & ? & ? & Hm & ->).
  exists c, m. rewrite take_take, Nat.min_l by lia. done.
Qed.

Lemma step_name_inj n m : step_name n = step_name m -> n = m.
Proof. unfold step_name. by intros [= E%(inj pretty)]. Qed.

Lemma step_id_name j step : steps !! j = Some step -> st_id step = step_name (S j).
Proof. intros Hj. destruct (Hvalid j step Hj) as (c & m & _ & _ & _ & ->). cbn. by rewrite Nat.add_1_r. Qed.

Lemma resolve_succeeds n s v :
  ready n s -> v ∈ facts_at n -> succeeds (resolveValue h (es_values s) v) (good (pv_predicate v)).
Proof.
  intros Hs Hv. unfold resolveValue. destruct (pv_source v) as [artifactId|id output] eqn:Hsrc.
  - assert (exists i, i ∈ ingredients /\ v = ingredientValue i) as (i & Hi & ->).
    { unfold facts_before in Hv. apply elem_of_app in Hv as [(i & -> & ?)%list_elem_of_fmap|Hv]; [by exists i|].
      apply elem_of_flat_map in Hv as (st & Hst & Hout). exfalso.
      apply list_elem_of_lookup in Hst as (k & [Hk _]%lookup_take_Some).
      destruct (Hvalid k st Hk) as (c' & m' & _ & _ & _ & ->). cbn in Hout.
      apply elem_of_outputs in Hout as (? & ? & _ & ->). discriminate. }
    cbn in Hsrc. injection Hsrc as <-. specialize (Hids i Hi).
    destruct (truthy (ig_artifactId i)) as [id|] eqn:Et; [|done].
    assert (truthy (Some id) = Some id) as -> by (unfold truthy in *; by repeat case_match; simplify_eq).
    eapply succeeds_bind with (p := fun r => exists a, r = Some a /\ good (ig_predicate i) a).
    + intros log. destruct (co_resolve Hhost log id (ig_predicate i)) as (a & Ha & Hg).
      unfold resolve_artifact. cbn. rewrite Ha. do 2 eexists. split; [done|by exists a].
    + intros ? (a & -> & Hg). apply succeeds_guard; [|by apply succeeds_ret].
      destruct Hg as [-> _]. cbn. by rewrite unifiable_refl.
  - destruct (published_lookup _ _ _ _ _ _ (valid_prefix n) ltac:(
      intros f (i & -> & _)%list_elem_of_fmap; by eexists) Hv Hsrc)
      as (j & step & [Hj Hlt]%lookup_take_Some & <- & _ & Hout).
    destruct (rd_values _ _ Hs j step output v Hlt Hj Hout) as (a & Ha & Hg).
    eapply succeeds_lift; [by rewrite Ha|done].
Qed.

Lemma depends_ready n s step :
  ready n s -> steps !! n = Some step ->
  bool_decide (is_Some (truthy (js_find (fun d => negb (includes (es_completed s) d)) (st_dependsOn step)))) = false.
Proof.
  intros Hs Hn. apply bool_decide_eq_false. intros [x Hx].
  destruct (js_find _ _) as [d|] eqn:E; [|done]. apply js_find_Some in E as [Hd Hc].
  unfold includes in Hc. bools. apply Hc. rewrite (rd_completed _ _ Hs).
  destruct (Hvalid n step Hn) as (c & m & _ & _ & _ & ->). cbn in Hd.
  apply elem_of_dedup, elem_of_step_ids in Hd as (v & o & Hv & Hsrc).
  pose proof (valid_steps_wired _ _ _ _ _ _ Hvalid Hn Hv) as Hw. rewrite Hsrc in Hw.
  destruct Hw as (_ & j & earlier & Hlt & Hj & <- & _). apply list_elem_of_fmap_2.
  apply list_elem_of_lookup. exists j. by apply lookup_take_Some.
Qed.

(** What placing a step promises: an offered factory of the environment, for a
    capability of the registry. *)
Record placed_on (ps : PhysicalPlanStep) (n : nat) : Prop := {
  po_step : steps !! n = Some (ps_step ps);
  po_capability : exists c d c' m, d ∈ sn_definitions registry /\ c ∈ ad_capabilities d /\
    m ∈ matchAll (cap_requires c) (facts_at n) /\ ps_step ps = makeStep n c' m /\
    cap_id c' = cap_id c /\ cap_produces c' = cap_produces c;
  po_target : exists o configuration allowance, o ∈ sn_offers registry /\
    ps_target ps = factoryTarget o configuration allowance /\
    of_executionEnvironment o = pp_executionEnvironment (xq_program xq)
}.

Lemma outputs_instances n c m : instances_of (cap_produces c) (st_outputs (makeStep n c m)).
Proof.
  unfold instances_of. cbn. apply Forall2_same_length_lookup. unfold outputValues.
  split; [by rewrite length_imap, length_fmap|]. intros i p v Hp Hv.
  rewrite list_lookup_imap, list_lookup_fmap, Hp in Hv. injection Hv as <-. apply functor_substitute.
Qed.

Lemma ready_step n step s s' decisions warnings :
  steps !! n = Some step -> ready n s -> es_completed s' = es_completed s ->
  (forall key, (forall k, 0 <= k -> key <> stepValueKey (st_id step) k) ->
     map_get key (es_values s') = map_get key (es_values s)) ->
  (forall k v, st_outputs step !! k = Some v -> exists a,
     map_get (stepValueKey (st_id step) (0 + k)) (es_values s') = Some a /\ good (pv_predicate v) a) ->
  ready (S n) {| es_values := es_values s'; es_completed := es_completed s' ++ [st_id step];
                 es_published := es_published s'; es_decisions := decisions; es_warnings := warnings |}.
Proof.
  intros Hn [Hc Hv] Ec Hold Hnew. split; cbn.
  - by rewrite Ec, Hc, (take_S_r _ _ _ Hn), fmap_app.
  - intros j st k v Hlt Hj Hk. destruct (decide (j = n)) as [->|Hne].
    + rewrite Hn in Hj. injection Hj as <-. by apply Hnew.
    + destruct (Hv j st k v ltac:(lia) Hj Hk) as (a & Ha & Hg). exists a. split; [|done].
      rewrite Hold; [done|]. intros k' _ [E _]%stepValueKey_inj.
      rewrite (step_id_name _ _ Hj), (step_id_name _ _ Hn) in E. apply step_name_inj in E. lia.
Qed.

Lemma run_step_succeeds n ps s :
  xq_registry xq = registry -> placed_on ps n -> ready n s ->
  succeeds (run_step h xq parameters resource ps s) (ready (S n)).
Proof.
  intros Hreg [Hn (c & d & c' & m & Hd & Hc & Hm & Hstep & Hid & Hprod) (o & configuration & allowance & Ho & Ht & Henv)] Hs.
  destruct (wd_capability Hwell d c Hd Hc) as (Hfor & Hin & Hout).
  assert (st_capability (ps_step ps) = cap_id c) as Hcap by (by rewrite Hstep).
  assert (instances_of (cap_produces c) (st_outputs (ps_step ps))) as Hinst.
  { rewrite Hstep, <- Hprod. apply outputs_instances. }
  pose proof Hm as [Hfacts _]%elem_of_matchAll. apply matchAll_unifies in Hm as [_ Hm].
  unfold run_step. apply succeeds_guard; [rewrite Ht; cbn; by rewrite bool_decide_true|].
  apply succeeds_guard; [by apply (depends_ready n)|].
  eapply succeeds_let; [by rewrite Hreg, Hcap|].
  eapply succeeds_bind.
  { apply (succeeds_all h (resolveValue h (es_values s)) (fun v a => good (pv_predicate v) a)).
    intros v Hv. apply (resolve_succeeds n); [done|]. rewrite Hstep in Hv.
    by apply (proj1 (Forall_forall _ _) Hfacts). }
  intros artifacts Hgood. rewrite Hstep in Hgood. cbn [makeStep st_inputs] in Hgood.
  destruct (inputs_ok c (cap_inputSlots c) (cap_requires c) (rm_inputs m) artifacts
    (fun v => resolve v (rm_bindings m)) Hin eq_refl) as (Hval & inputs & Hbind & Hart); try done.
  { eapply Forall2_impl; [exact Hm|]. by intros r v [_ ?]. }
  { apply resolve_valuation. }
  eapply succeeds_let; [exact Hval|]. eapply succeeds_let; [exact Hbind|].
  eapply succeeds_bind; [eapply (factory_step_succeeds ps c d o)|]; try done.
  { apply (Forall_fmap ib_artifact (fun a => is_ok (ra_value a) = true)). rewrite Hart.
    apply Forall_forall. intros a (i & Hi)%list_elem_of_lookup.
    destruct (Forall2_lookup_r _ _ _ _ _ Hgood Hi) as (v & _ & _ & _ & ?). done. }
  intros [[drafts warnings] decisions] Hdr. cbn in Hdr.
  eapply succeeds_bind; [apply publish_ok|]. intros publication Hpub. cbn [publication_of pb_outputs] in Hpub.
  apply succeeds_guard.
  { by rewrite <- (Forall2_length _ _ _ Hpub), <- (Forall2_length _ _ _ Hdr), Nat.eqb_refl. }
  edestruct (accept_ok (st_id (ps_step ps)) 0 publication) as (s' & Hacc & Ec & Hold & Hnew); [exact Hdr|exact Hpub|].
  eapply succeeds_lift; [rewrite Hacc; reflexivity|]. by apply (ready_step n (ps_step ps) s s').
Qed.

Lemma run_steps_succeed n pss s :
  xq_registry xq = registry -> (forall i ps, pss !! i = Some ps -> placed_on ps (n + i)) -> ready n s ->
  succeeds (run_steps h xq parameters resource pss s) (ready (n + length pss)).
Proof.
  intros Hreg. revert n s. induction pss as [|ps pss IH]; intros n s Hp Hs; cbn [run_steps length].
  - rewrite Nat.add_0_r. by apply succeeds_ret.
  - eapply succeeds_bind; [apply (run_step_succeeds n); [done| |done]|].
    + rewrite <- (Nat.add_0_r n). by apply Hp.
    + intros s' Hs'. rewrite Nat.add_succ_r, <- Nat.add_succ_l. apply IH; [|done].
      intros i ps' Hi. rewrite Nat.add_succ_l, <- Nat.add_succ_r. by apply Hp.
Qed.

Lemma execute_succeeds :
  xq_registry xq = registry -> pp_registryRevision (xq_program xq) = sn_revision registry ->
  pf_subjectId (pp_plannedFor (xq_program xq)) = ap_subjectId (xq_principal xq) ->
  pf_tenantId (pp_plannedFor (xq_program xq)) = ac_tenantId (xq_access xq) ->
  xq_parameters xq = Some (Ok parameters) ->
  match xq_resource xq with None => resource = None | Some r => Some <$> r = Ok resource end ->
  ps_step <$> pp_steps (xq_program xq) = steps ->
  (forall i ps, pp_steps (xq_program xq) !! i = Some ps -> placed_on ps i) ->
  Forall (fun v => v ∈ facts_before (ingredientValue <$> ingredients) steps) (pp_results (xq_program xq)) ->
  Forall2 (fun goal v => unifiable goal (pv_predicate v) = true) (pp_goals (xq_program xq))
    (pp_results (xq_program xq)) ->
  succeeds (executePhysicalProgram h xq) (fun r =>
    xr_completedStepIds r = (fun ps => st_id (ps_step ps)) <$> pp_steps (xq_program xq) /\
    xr_remainingGoals r = []).
Proof.
  intros Hreg Hrev Hsub Hten Hpar Hres Hsteps Hplaced Hresults Hgoals. unfold executePhysicalProgram.
  eapply succeeds_let; [by rewrite Hpar|].
  eapply succeeds_let; [destruct (xq_resource xq); [exact Hres|by rewrite Hres]|].
  apply succeeds_guard; [by rewrite Hreg, Hrev, Nat.eqb_refl|].
  do 2 (apply succeeds_guard; [by rewrite bool_decide_true|]).
  eapply succeeds_bind.
  { apply (run_steps_succeed 0); [done|exact Hplaced|]. split; [done|]. intros; lia. }
  intros s Hs. cbn [Nat.add] in Hs.
  assert (take (length (pp_steps (xq_program xq))) steps = steps) as Htake.
  { apply take_ge. by rewrite <- Hsteps, length_fmap. }
  eapply succeeds_bind.
  { apply (succeeds_all h (resolveValue h (es_values s)) (fun v a => good (pv_predicate v) a)).
    intros v Hv. eapply resolve_succeeds; [exact Hs|]. rewrite Htake.
    by apply (proj1 (Forall_forall _ _) Hresults). }
  intros results Hgood. apply succeeds_ret. cbn. split.
  - rewrite (rd_completed _ _ Hs), Htake, <- Hsteps, <- list_fmap_compose. done.
  - apply list_nil_filter. intros goal Hg. apply negb_false_iff, existsb_elem.
    apply list_elem_of_lookup in Hg as (i & Hi).
    destruct (Forall2_lookup_l _ _ _ _ _ Hgoals Hi) as (v & Hv & Hu).
    destruct (Forall2_lookup_l _ _ _ _ _ Hgood Hv) as (a & Ha & Hp & _).
    exists (ra_predicate a). split; [|by rewrite Hp]. apply list_elem_of_fmap_2.
    by eapply list_elem_of_lookup_2.
Qed.
End Cooperation.

(** ** Plans *)

Lemma capability_registered sch registry d c :
  well_declared sch registry -> (d, c) ∈ catalog registry ->
  d ∈ sn_definitions registry /\ c ∈ ad_capabilities d /\ capabilityFor registry (cap_id c) = Ok c.
Proof.
  intros Hwell Hin. unfold catalog in Hin. apply elem_of_flat_map in Hin as (d' & Hd & Hc).
  apply list_elem_of_fmap in Hc as (c' & [= -> ->] & Hc). split_and!; [done..|]. by eapply wd_capability.
Qed.

Lemma program_placed sch registry principal options log view env logical p xq ingredients :
  well_declared sch registry ->
  Forall (capability_sound registry principal options log) (vw_capabilities view) ->
  valid_steps (priced <$> availableCapabilities view env) (ingredientValue <$> ingredients) (pg_steps logical) ->
  placed_program view env logical p -> xq_program xq = p ->
  forall i ps, pp_steps p !! i = Some ps -> placed_on registry xq ingredients (pg_steps logical) ps i.
Proof.
  intros Hwell Hsound Hvalid Hp Exq i ps Hi.
  destruct (placed_step _ _ _ _ _ _ Hp Hi) as (Hstep & shown & t & ts & Hsh & Hid & Hf & Ht).
  rewrite Forall_forall in Hsound.
  destruct (Hsound shown Hsh) as (d & Hd & _ & _ & Htargets).
  destruct (capability_registered _ _ _ _ Hwell Hd) as (Hdd & Hdc & Hfor).
  apply filter_head_in in Hf as [Htin Henv%bool_decide_eq_true].
  split; [done| |].
  - destruct (Hvalid i (ps_step ps) Hstep) as (c' & m & Hc' & _ & Hm & Hmake).
    apply list_elem_of_fmap in Hc' as (ac & -> & Hac).
    apply elem_of_available in Hac as (shown' & Hsh' & Eac & _ & _).
    destruct (Hsound shown' Hsh') as (d' & Hd' & _). rewrite <- Eac in Hd'.
    destruct (capability_registered _ _ _ _ Hwell Hd') as (_ & _ & Hfor').
    assert (az_capability ac = az_capability shown) as E.
    { assert (cap_id (az_capability ac) = cap_id (az_capability shown)) as Eid
        by (by rewrite Hid, Hmake).
      rewrite Eid in Hfor'. congruence. }
    exists (az_capability shown), d, (priced ac), m. rewrite <- E. split_and!; try done; by rewrite E.
  - destruct (Htargets t Htin) as [(i' & a & (Hi' & _) & _)|(o & a & (Ho & _) & _ & Et)].
    + rewrite (wd_factories _ _ Hwell) in Hi'. by apply not_elem_of_nil in Hi'.
    + exists o, (configurationFor options o), a. rewrite Ht, Et. split_and!; [done..|].
      rewrite Et in Henv. cbn in Henv. rewrite Exq, (pd_environment _ _ _ _ Hp). done.
Qed.

(** The program planned for exact goals can be executed. *)
Lemma planned_exact `{Collation} (host : ActorExecutionHost) (request : PlanRunStartRequest) view program :
  subject_of (sr_goalSpec request) = None -> planned host request view = Ok program ->
  exists logical,
    valid_steps (priced <$> availableCapabilities view (ah_executionEnvironment host))
      (ingredientValue <$> sr_ingredients request) (pg_steps logical) /\
    placed_program view (ah_executionEnvironment host) logical program /\
    pg_goals logical = sr_goals request /\
    resolveGoals (sr_goals request) (facts_before (ingredientValue <$> sr_ingredients request) (pg_steps logical)) =
      Some (pg_results logical).
Proof.
  intros Hs. unfold planned. rewrite Hs. set (options := {| pl_solve := _; pl_environment := _ |}).
  pose proof (solveAuthorized_logical view (sr_ingredients request) (sr_goals request) options) as Hl.
  destruct (solveAuthorized _ _ _ _) as [[p explored|]|]; [|done..]. intros [= <-].
  destruct Hl as (logical & Hsolve & Hvalid & Hp). exists logical.
  apply solve_valid in Hsolve as [Hg _ _ Hr]. split_and!; done.
Qed.

Lemma resolved_goals goals facts results :
  resolveGoals goals facts = Some results ->
  Forall (fun v => v ∈ facts) results /\
  Forall2 (fun goal v => unifiable goal (pv_predicate v) = true) goals results.
Proof.
  unfold resolveGoals. intros (m & Hm & ->)%fmap_Some. assert (m ∈ matchAll goals facts) as Hin.
  { destruct (matchAll goals facts); [done|]. injection Hm as ->. left. }
  split; [by apply elem_of_matchAll in Hin as [? _]|]. apply matchAll_unifies in Hin as [_ Hall].
  eapply Forall2_impl; [exact Hall|]. intros goal v [_ Hu]. apply unifiable_spec.
  exists (fun x => resolve x (rm_bindings m)). split; [apply resolve_valuation|done].
Qed.

(** Steps of a program that was placed are those that were planned. *)
Lemma placed_steps view env logical p : placed_program view env logical p -> ps_step <$> pp_steps p = pg_steps logical.
Proof.
  intros [Hs _ _ _ _ _ _ _]. induction Hs as [|step ps l k [E _] _ IH]; [done|]. cbn. by rewrite E, IH.
Qed.

Lemma ask_all_succeeds sch h registry asked : cooperative sch h registry -> succeeds (ask_all h asked) (fun _ => True).
Proof.
  intros Hh. induction asked as [|[rq d] asked IH]; cbn [ask_all]; [by apply succeeds_ret|].
  eapply succeeds_bind; [by eapply ask_ok|]. intros _ _. exact IH.
Qed.

Lemma bind_lift {A B} (a : A) (k : A -> Exec B) log : (lift (Ok a) ≫= k) log = k a log.
Proof. done. Qed.

Lemma bind_eq {A B} (m : Exec A) (k : A -> Exec B) log log' a :
  m log = (log', Ok a) -> (m ≫= k) log = k a log'.
Proof. unfold mbind, Exec_bind. by intros ->. Qed.

Lemma bind_fails {A B} (m : Exec A) (k : A -> Exec B) log log' e :
  m log = (log', Throw e) -> (m ≫= k) log = (log', Throw e).
Proof. unfold mbind, Exec_bind. by intros ->. Qed.

(** The view of a host that decides is the view its decisions make. *)
Lemma authorized_view_ok `{Collation} sch h registry request log :
  cooperative sch h registry ->
  exists log', authorized_view h request registry log = (log', Ok (decided_view h request registry log).1).
Proof.
  intros Hh. unfold authorized_view. destruct (decided_view h request registry log) as [view asked].
  destruct (ask_all_succeeds sch h registry asked Hh log) as (log1 & [] & Hask & _).
  exists log1. by rewrite (bind_eq _ _ _ _ _ Hask).
Qed.

Lemma view_fits `{Collation} h registry request :
  let view := (decided_view h request registry []).1 in
  (exists options log, Forall (capability_sound registry (sc_principal (sr_security request)) options log)
     (vw_capabilities view)) /\
  vw_registryRevision view = sn_revision registry /\ vw_principal view = sc_principal (sr_security request) /\
  vw_access view = sc_access (sr_security request).
Proof.
  cbv zeta. unfold decided_view. match goal with |- context [authorizeRegistryForPlanning ?d ?s ?p ?o []] =>
    pose proof (view_sound d s p o) as Hv; destruct (authorizeRegistryForPlanning d s p o []) as [view log] end.
  destruct Hv as (? & ? & ? & ?). split; [by do 2 eexists|done].
Qed.

(** The planner writes an empty tenant identifier as no tenant. *)
Definition made_for (view : AuthorizedRegistryView) (p : PhysicalProgram) : Prop :=
  pf_tenantId (pp_plannedFor p) = truthy (ac_tenantId (vw_access view)) /\
  pf_subjectId (pp_plannedFor p) = ap_subjectId (vw_principal view) /\
  pp_registryRevision p = vw_registryRevision view.

Lemma physicalProgram_for view logical capabilities env p :
  physicalProgram view logical capabilities env = Ok p -> made_for view p.
Proof. unfold physicalProgram. intros H. by inv_result. Qed.

Lemma planned_for `{Collation} host request view program :
  planned host request view = Ok program -> made_for view program.
Proof.
  unfold planned, enrichAuthorized, enrichAfterGoalsAuthorized, solveAuthorized. intros Hp.
  destruct (subject_of _) as [[subject families]|]; [destruct (is_exploration _)|].
  - destruct (planEnrichment _ _ _ _) as [[|]|]; cbn in Hp; [|done..].
    destruct (physicalProgram _ _ _ _) as [p|] eqn:E; cbn in Hp; [|done].
    injection Hp as <-. by eapply physicalProgram_for.
  - destruct (planGoalThenEnrichment _ _ _ _ _) as [[[|] n]|]; cbn in Hp; [|done..].
    destruct (physicalProgram _ _ _ _) as [p|] eqn:E; cbn in Hp; [|done].
    injection Hp as <-. by eapply physicalProgram_for.
  - destruct (solve _ _ _ _) as [logical n|]; cbn in Hp; [|done].
    destruct (physicalProgram _ _ _ _) as [p|] eqn:E; cbn in Hp; [|done].
    injection Hp as <-. by eapply physicalProgram_for.
Qed.

Lemma execute_plan_succeeds `{Collation} sch h registry host request view program :
  well_declared sch registry -> cooperative sch h registry ->
  (exists r, ah_resource host = Ok r /\ forall j, r = Some j -> is_ok j = true) ->
  subject_of (sr_goalSpec request) = None ->
  (forall i, i ∈ sr_ingredients request -> truthy (ig_artifactId i) <> None) ->
  ac_tenantId (sc_access (sr_security request)) <> Some "" \/ pp_steps program = [] ->
  view = (decided_view h request registry []).1 -> planned host request view = Ok program ->
  succeeds (execute_plan h host request registry view program) (fun e =>
    pe_completedStepIds e = (fun ps => st_id (ps_step ps)) <$> pp_steps program /\ pe_remainingGoals e = []).
Proof.
  intros Hwell Hhost (r & Hres & Hr) Hexact Hids Hten -> Hplan.
  destruct (view_fits h registry request) as ((options & log & Hsound) & Hrev & Hprin & Hacc).
  set (view := (decided_view h request registry []).1) in *. clearbody view.
  destruct (planned_exact _ _ _ _ Hexact Hplan) as (logical & Hvalid & Hp & Hg & Hresults).
  apply resolved_goals in Hresults as [Hin Hgoals].
  unfold execute_plan, output_for. rewrite Hexact. destruct (Nat.eqb _ 0) eqn:En.
  { apply Nat.eqb_eq, nil_length_inv in En. apply succeeds_let with None; [done|].
    apply succeeds_ret. cbn. by rewrite En. }
  eapply succeeds_let; [exact Hres|].
  set (xq := {| xq_runId := _; xq_program := _ |}).
  assert (exists resource, match r with None => resource = None | Some j => Some <$> j = Ok resource end)
    as [resource Hresource].
  { destruct r as [j|]; [|by exists None]. specialize (Hr j eq_refl). destruct j as [j|]; [|done]. by exists (Some j). }
  eapply succeeds_bind.
  - destruct Hten as [Hten|Hten]; [|by rewrite Hten in En].
    apply (execute_succeeds sch h registry Hwell Hhost xq (sr_parameters request) resource
      (sr_ingredients request) Hids _ (pg_steps logical) Hvalid).
    all: unfold xq; cbn [xq_program xq_registry xq_principal xq_access xq_resource]; try done.
    + by rewrite (pd_revision _ _ _ _ Hp).
    + by rewrite (pd_subject _ _ _ _ Hp), Hprin.
    + rewrite (pd_tenant _ _ _ _ Hp), Hacc. cbn.
      destruct (ac_tenantId (sc_access (sr_security request))) as [t|]; [|done]. apply truthy_ne. congruence.
    + by apply (placed_steps _ _ _ _ Hp).
    + by eapply program_placed.
    + by rewrite (pd_results _ _ _ _ Hp).
    + by rewrite (pd_goals _ _ _ _ Hp), (pd_results _ _ _ _ Hp), Hg.
  - intros x [Hc Hrem]. apply succeeds_let with None; [done|]. by apply succeeds_ret.
Qed.

(** Under an empty tenant the executor refuses a program that has a step. *)
Lemma execute_plan_refuses `{Collation} h registry host request program log :
  (exists r, ah_resource host = Ok r /\ forall j, r = Some j -> is_ok j = true) ->
  ac_tenantId (sc_access (sr_security request)) = Some "" -> pp_steps program <> [] ->
  planned host request (decided_view h request registry []).1 = Ok program ->
  (execute_plan h host request registry (decided_view h request registry []).1 program log).2 =
    Throw "execution tenant does not match the physical plan".
Proof.
  intros (r & Hres & Hr) Hten Hsteps Hplan.
  destruct (view_fits h registry request) as (_ & Hrev & Hprin & Hacc).
  set (view := (decided_view h request registry []).1) in *. clearbody view.
  apply planned_for in Hplan as (Ht & Hs & Hv). unfold execute_plan.
  destruct (Nat.eqb _ 0) eqn:En; [by apply Nat.eqb_eq, nil_length_inv in En|].
  rewrite Hres, bind_lift.
  assert (exists v, match r with None => Ok None | Some j => Some <$> j end = Ok v) as [v Hr'].
  { destruct r as [[j|e]|]; [by eexists| |by eexists]. by specialize (Hr _ eq_refl). }
  erewrite bind_fails; [reflexivity|]. unfold executePhysicalProgram.
  cbn [xq_runId xq_program xq_registry xq_principal xq_access xq_parameters xq_resource default].
  unfold mbind, Exec_bind. cbn [lift]. rewrite Hr'. cbn [lift]. rewrite Hv, Hrev, Nat.eqb_refl, Hs, Hprin, Ht, Hacc, Hten.
  by rewrite bool_decide_true by done.
Qed.

(** C3: what the planner finds, the executor completes.  Suppose the following.
    The capabilities of the registry have distinct identifiers and declare one slot
    with its schema for every predicate, and only factories are registered
    ([well_declared]).  The host cooperates ([cooperative]: it finds artifacts,
    allows, admits, spawns, and its actors fill the declared slots); its registry
    and its resource can be read and it runs the environment of the request.  The
    request names at least one goal, asks for exactly its goals (no enrichment),
    and every ingredient carries the identifier of its artifact.  Then the request
    fails with the very reason the planner gives, or every step of the plan is
    completed and no goal is left open: no check of the executor (revision,
    principal, environment, dependencies, slots, schemas, outputs) stands in the
    way of a program that was planned.  There is one exception, and it is decided
    exactly: a request under the tenant [""] whose program has a step is refused
    because the planner writes that tenant as no tenant. *)
Theorem planned_requests_complete `{Collation} (sch : string -> string) (h : Host)
    (registry : ActorRegistrySnapshot) (host : ActorExecutionHost) (request : PlanRunStartRequest)
    (Hwell : well_declared sch registry) (Hhost : cooperative sch h registry)
    (Hregistry : ah_registry host = Ok registry)
    (Hresource : exists r, ah_resource host = Ok r /\ forall j, r = Some j -> is_ok j = true)
    (Henv : sr_executionEnvironment request = ah_executionEnvironment host)
    (Hgoals : sr_goals request <> []) (Hexact : subject_of (sr_goalSpec request) = None)
    (Hids : forall i, i ∈ sr_ingredients request -> truthy (ig_artifactId i) <> None) :
  let r := (createActorPlanExecutor h host request []).2 in
  match planned host request (decided_view h request registry []).1 with
  | Throw reason => r = Throw reason
  | Ok program =>
      if bool_decide (ac_tenantId (sc_access (sr_security request)) = Some "" /\ pp_steps program <> [])
      then r = Throw "execution tenant does not match the physical plan"
      else exists e, r = Ok e /\
        pe_completedStepIds e = (fun ps => st_id (ps_step ps)) <$> pp_steps program /\
        pe_remainingGoals e = []
  end.
Proof.
  cbv zeta. unfold createActorPlanExecutor. rewrite Henv, bool_decide_true by done.
  assert (assertGoalRequest request = Ok tt) as ->.
  { unfold assertGoalRequest. rewrite Hexact.
    assert (is_exploration (sr_goalSpec request) = false) as -> by (by destruct (sr_goalSpec request) as [[]|]).
    by destruct (sr_goals request). }
  rewrite Hregistry. cbn [negb throw_if]. rewrite !bind_lift.
  destruct (authorized_view_ok sch h registry request [] Hhost) as [log1 Hview].
  rewrite (bind_eq _ _ _ _ _ Hview). destruct (planned host request _) as [program|reason] eqn:Hplan; [|done].
  rewrite bind_lift. case_bool_decide as Ht.
  - destruct Ht as [Ht Hs]. by apply execute_plan_refuses.
  - assert (ac_tenantId (sc_access (sr_security request)) <> Some "" \/ pp_steps program = []) as Hten.
    { destruct (decide (pp_steps program = [])); [by right|]. left. by intros Hte; apply Ht. }
    destruct (execute_plan_succeeds sch h registry host request _ program Hwell Hhost Hresource Hexact
      Hids Hten eq_refl Hplan log1) as (log2 & e & -> & He). by exists e.
Qed.

(** ** An empty tenant *)

(** an empty tenant is planned for but never executed.  The planner writes an
    empty tenant identifier as no tenant, and the executor compares it with the
    one of the request: under an empty tenant no plan with a step ever runs,
    whatever the host; a run that does return has completed nothing. *)
Theorem empty_tenants_never_execute `{Collation} (h : Host) (host : ActorExecutionHost)
    (request : PlanRunStartRequest) (log : CallLog) (e : PlanExecution)
    (Htenant : ac_tenantId (sc_access (sr_security request)) = Some "")
    (Hrun : createActorPlanExecutor h host request [] = (log, Ok e)) :
  pe_completedStepIds e = [] /\ pe_artifactIds e = [].
Proof.
  unfold createActorPlanExecutor in Hrun. exec_inv.
  match goal with H : ah_registry _ = Ok ?r, H' : authorized_view _ _ _ _ = (_, Ok ?v), H'' : planned _ _ _ = Ok ?p |- _ =>
    rename r into registry; rename v into view; rename p into program; rename H' into Hview; rename H'' into Hplan end.
  apply planned_for in Hplan as [Hplan _].
  assert (vw_access view = sc_access (sr_security request)) as Hacc.
  { unfold authorized_view, decided_view in Hview.
    match type of Hview with context [authorizeRegistryForPlanning ?d ?s ?p ?o []] =>
      pose proof (view_sound d s p o) as Hv; destruct (authorizeRegistryForPlanning d s p o []) as [v asked] end.
    exec_inv. destruct Hv as (_ & _ & _ & ->). done. }
  rewrite Hacc, Htenant in Hplan. unfold execute_plan in Hrun.
  destruct (Nat.eqb _ 0); exec_inv; [by split|]. exfalso.
  match goal with H : executePhysicalProgram _ _ _ = _ |- _ => unfold executePhysicalProgram in H end.
  exec_inv. bools. cbn in *. congruence.
Qed.

(** ** A concrete request *)

Module Asked.

Definition sch (name : string) : string := "schema:" +:+ name.

Definition host : ActorExecutionHost :=
  {| ah_executionEnvironment := Server; ah_registry := Ok Reading.registry; ah_resource := Ok None;
     ah_context := Ok ([], []) |}.

Definition request_for (tenantId : option string) (goal : string) : PlanRunStartRequest :=
  {| sr_protocol := "p"; sr_requestId := "r"; sr_idempotencyKey := "run-1"; sr_requestedAt := "2026";
     sr_skillRef := "s"; sr_executionEnvironment := Server;
     sr_ingredients := [{| ig_predicate := "file(doc)"; ig_artifactId := Some "artifact-1" |}];
     sr_goals := [goal]; sr_goalSpec := None; sr_parameters := [];
     sr_security := {| sc_principal := sample_principal;
                       sc_access := {| ac_tenantId := tenantId; ac_entitlements := None; ac_artifactGrantIds := None |};
                       sc_establishedBy := "host"; sc_authorizedAt := "2026" |} |}.

Definition request : PlanRunStartRequest := request_for None "fields(doc)".

Lemma declared : well_declared sch Reading.registry.
Proof.
  split; [|done]. intros d c ->%list_elem_of_singleton Hc. cbn in Hc.
  assert (forall name p, functor (parseTerm p) <> "" -> declares sch (Some [Reading.slot name p]) [p]) as Hd.
  { intros name p Hp. eexists. split; [done|]. constructor; [|constructor]. by split_and!. }
  apply elem_of_cons in Hc as [Hc|Hc]; [|apply list_elem_of_singleton in Hc]; subst c;
    (split; [reflexivity|]); split; apply Hd; vm_compute; done.
Qed.

Lemma cooperates : cooperative sch Reading.host Reading.registry.
Proof.
  split; cbn.
  - intros _ _ p. eexists. split; [done|]. by split_and!.
  - intros _ o ->%list_elem_of_singleton. by eexists.
  - intros _ _. by eexists.
  - intros _ _ q. eexists. by split.
  - intros _ f q ad. eexists. by split.
  - intros _ _ _ payload d c ->%list_elem_of_singleton Hc _. do 2 eexists.
    split; [done|]. split; [reflexivity|]. intros name. cbn in Hc.
    apply elem_of_cons in Hc as [Hc|Hc]; [|apply list_elem_of_singleton in Hc]; subst c; cbn;
      rewrite list_elem_of_singleton; (split; [intros ->; eexists; by split; [left|]|]);
      by intros (slot & ->%list_elem_of_singleton & <-).
  - done.
  - intros _ pub. eexists. split; [done|]. induction (pb_outputs pub) as [|d l IH]; constructor; [by split_and!|done].
Qed.

End Asked.

Lemma planned_requests_complete_witness :
  exists e program, (@createActorPlanExecutor bytes_collation Reading.host Asked.host Asked.request []).2 = Ok e /\
    pe_completedStepIds e = (fun ps => st_id (ps_step ps)) <$> pp_steps program /\ pe_remainingGoals e = [].
Proof.
  assert (exists r, ah_resource Asked.host = Ok r /\ forall j, r = Some j -> is_ok j = true) as Hr
    by (exists None; split; [reflexivity|discriminate]).
  assert (forall i, i ∈ sr_ingredients Asked.request -> truthy (ig_artifactId i) <> None) as Hi
    by (intros i ->%list_elem_of_singleton; discriminate).
  assert (sr_goals Asked.request <> []) as Hg by discriminate.
  pose proof (@planned_requests_complete bytes_collation Asked.sch Reading.host Reading.registry Asked.host Asked.request
    Asked.declared Asked.cooperates eq_refl Hr eq_refl Hg eq_refl Hi) as H. cbv zeta in H.
  set (plan := @planned bytes_collation Asked.host Asked.request _) in H.
  assert (is_ok plan = true) as Hok by (vm_compute; reflexivity).
  clearbody plan. destruct plan as [program|reason]; [|discriminate Hok].
  destruct (bool_decide_reflect (ac_tenantId (sc_access (sr_security Asked.request)) = Some "" /\ pp_steps program <> []))
    as [[Ht _]|_] in H; [discriminate Ht|].
  destruct H as (e & He). exists e, program. exact He.
Defined.

(** Under an empty tenant a goal that holds already is answered, and one that
    needs a step is refused. *)
Lemma empty_tenants_never_execute_witness :
  (exists e, (@createActorPlanExecutor bytes_collation Reading.host Asked.host
      (Asked.request_for (Some "") "file(doc)") []).2 = Ok e /\ pe_completedStepIds e = []) /\
  (@createActorPlanExecutor bytes_collation Reading.host Asked.host (Asked.request_for (Some "") "fields(doc)") []).2 =
    Throw "execution tenant does not match the physical plan".
Proof.
  split; [|vm_compute; reflexivity].
  set (run := @createActorPlanExecutor bytes_collation Reading.host Asked.host (Asked.request_for (Some "") "file(doc)") []).
  assert (is_ok run.2 = true) as Hok by (vm_compute; reflexivity).
  destruct run as [log [e|reason]] eqn:E; [|discriminate Hok]. exists e. split; [reflexivity|].
  exact (proj1 (@empty_tenants_never_execute bytes_collation Reading.host Asked.host
    (Asked.request_for (Some "") "file(doc)") log e eq_refl E)).
Defined.
