(* ===== verification/Observation.v ===== *)
(** * The observation solver

    [libs/aven-actors/src/observation-solver.ts]: operations whose outputs are
    not planned with but observed.  Only committed facts enter the next frontier,
    which the shared matcher of the planner computes.  The host's port and the
    abort signal are outside: they may answer from everything that happened
    before.  Costs are integers; names of gathers are not array indexes. *)

From S2P Require Import Prelude Sha256 ProofOfWork.
From S2P Require Import Ids Term Contracts Json Planner PlannerMatch PlannerSearch Run.

Open Scope stdpp_scope.
Open Scope js_scope.

(** ** Data *)

(** The value comes from outside: a portable copy, or the error that refuses it. *)
Record SolverFact := { sf_id : string; sf_predicate : string; sf_value : unknown }.

Record SolverGather := {
  gt_name : string; gt_collection : Z; gt_member : string; gt_predicate : string
}.

Record SolverOperation := {
  sv_capability : Capability;
  sv_gathers : option (list SolverGather);
  sv_failureProduces : option (list string)
}.

Record SolverInvocation := {
  iv_id : string;
  iv_operation : string;
  iv_bindings : Bindings;
  iv_inputs : list SolverFact;
  iv_gathers : list (string * list SolverFact)
}.

Inductive ReceiptState := ReceiptSucceeded | ReceiptFailed | ReceiptOther (state : string).

Record SolverReceipt := {
  rc_invocationId : string;
  rc_operation : string;
  rc_state : ReceiptState;
  rc_facts : list SolverFact;
  rc_error : option string
}.

Inductive RunState := Complete | Partial | NoRoute | Limit | RunCancelled.

Record ObservationRunResult := {
  or_state : RunState;
  or_facts : list SolverFact;
  or_receipts : list SolverReceipt;
  or_goalsSatisfied : bool
}.

(** ** Predicates *)

Definition is_letter (c : ascii) : bool :=
  let n := nat_of_ascii c in (Nat.leb 97 n && Nat.leb n 122) || (Nat.leb 65 n && Nat.leb n 90).
Definition name_char (c : ascii) : bool :=
  is_letter c || is_decimal_char c || existsb (Ascii.eqb c) ["_"; "."; "-"]%char.
Definition argument_char (c : ascii) : bool :=
  is_letter c || is_decimal_char c || existsb (Ascii.eqb c) ["_"; ":"; "."; "/"; "-"]%char.

(** An argument between optional white space. *)
Definition argument_text (s : string) : bool :=
  negb (bool_decide (trim s = "")) && string_forall argument_char (trim s).

(** The regular expression of [validatePredicate]: a name, and optionally a
    parenthesized list of arguments, up to the end. *)
Definition predicate_syntax (p : string) : bool :=
  let name s := match s with String c rest => is_letter c && string_forall name_char rest | "" => false end in
  match index_of "(" p with
  | None => name p
  | Some open =>
      let inside := string_drop (S open) p in
      match last_index_of ")" inside with
      | Some close =>
          bool_decide (S close = String.length inside) && name (string_take open p) &&
          forallb argument_text (split_on "," (string_take close inside))
      | None => false
      end
  end.

Definition validatePredicate (p : string) : result unit :=
  throw_if (negb (predicate_syntax p)) ("unsupported predicate syntax: " +:+ p).

Fixpoint validate_all (predicates : list string) : result unit :=
  match predicates with
  | [] => Ok tt
  | p :: predicates => _ ← validatePredicate p; validate_all predicates
  end.

Definition planValue (fact : SolverFact) : PlanValue :=
  {| pv_predicate := sf_predicate fact; pv_source := SrcIngredient (Some (sf_id fact)) |}.

Definition ingredientId (v : PlanValue) : result string :=
  match pv_source v with
  | SrcIngredient artifactId =>
      match truthy artifactId with
      | Some id => Ok id
      | None => Throw "ungrounded solver input"
      end
  | SrcStep _ _ => Throw "ungrounded solver input"
  end.

(** ** Compilation *)

(** [operation.cost ?? 1] and the other fields with a default. *)
Definition sv_id (o : SolverOperation) : string := cap_id (sv_capability o).
Definition sv_requires (o : SolverOperation) : list string := cap_requires (sv_capability o).
Definition sv_produces (o : SolverOperation) : list string := cap_produces (sv_capability o).
Definition sv_cost (o : SolverOperation) : Z := default 1%Z (cap_cost (sv_capability o)).

(** [requires[index]], [undefined] out of range. *)
Definition at_index {A} (l : list A) (index : Z) : option A :=
  if (index <? 0)%Z then None else l !! Z.to_nat index.

Definition check_gather (requires : list string) (names : list string) (g : SolverGather) : result unit :=
  throw! includes names (gt_name g) as "duplicate gather " +:+ gt_name g;
  throw! bool_decide (truthy (at_index requires (gt_collection g)) = None)
    as "gather " +:+ gt_name g +:+ " has no collection requirement";
  _ ← validatePredicate (gt_predicate g);
  throw! bool_decide (gt_member g = "_") || negb (isVariable (gt_member g)) ||
         negb (includes (args (parseTerm (gt_predicate g))) (gt_member g))
    as "gather " +:+ gt_name g +:+ " must bind its member variable";
  throw_if (existsb (fun p => includes (args (parseTerm p)) (gt_member g)) requires)
    ("gather " +:+ gt_name g +:+ " captures a requirement variable").

Fixpoint check_gathers (requires names : list string) (gathers : list SolverGather) : result unit :=
  match gathers with
  | [] => Ok tt
  | g :: gathers =>
      _ ← check_gather requires names g; check_gathers requires (gt_name g :: names) gathers
  end.

Definition check_operation (ids : list string) (o : SolverOperation) : result unit :=
  throw! includes ids (sv_id o) as "duplicate operation " +:+ sv_id o;
  throw! (sv_cost o <? 0)%Z as "invalid operation cost " +:+ sv_id o;
  _ ← validate_all (sv_requires o ++ sv_produces o ++ default [] (sv_failureProduces o));
  check_gathers (sv_requires o) [] (default [] (sv_gathers o)).

Fixpoint check_operations (ids : list string) (operations : list SolverOperation) : result unit :=
  match operations with
  | [] => Ok tt
  | o :: operations => _ ← check_operation ids o; check_operations (sv_id o :: ids) operations
  end.

Section Collated.
Context `{Collation}.

Definition compare_operations (a b : SolverOperation) : Z :=
  or_else (sv_cost a - sv_cost b)%Z (localeCompare (sv_id a) (sv_id b)).

(** What is compiled is data already, so the clone is the operation. *)
Definition compileObservationOperations (operations : list SolverOperation) :
    result (list SolverOperation) :=
  _ ← check_operations [] operations; Ok (js_sort compare_operations operations).
End Collated.

(** ** Identity *)

(** [digest[i] = (digest[i] & 0x0f) | 0x80] on one byte, with its mask. *)
Definition stamp (mask byte : Z) : Z := Z.lor (Z.land byte mask) 0x80.

Definition hex_byte (byte : Z) : string :=
  String (hex_digit (Z.to_nat (byte / 16))) (String (hex_digit (Z.to_nat (byte mod 16))) "").

Definition solverIdentity (seed : string) : string :=
  let digest := take 16 (Standard.digest (utf8 seed)) in
  let digest := alter (stamp 0x0f) 6 digest in
  let digest := alter (stamp 0x3f) 8 digest in
  let hex := String.concat "" (hex_byte <$> digest) in
  js_slice hex 0 8 +:+ "-" +:+ js_slice hex 8 12 +:+ "-" +:+ js_slice hex 12 16 +:+ "-" +:+
  js_slice hex 16 20 +:+ "-" +:+ js_slice_from hex 20.

Definition strings_json (l : list string) : json := JArray (JString <$> l).

Definition identity_seed (runId operation : string) (inputs : list SolverFact)
    (gathers : list (string * list SolverFact)) : string :=
  stringify (JArray [JString runId; JString operation; strings_json (sf_id <$> inputs);
    JArray ((fun e => JArray [JString e.1; strings_json (sf_id <$> e.2)]) <$> gathers)]).

(** ** The frontier *)

Section Frontier.
Context (runId : string) (facts : list SolverFact).

Definition by_fact_id (id : string) : option SolverFact :=
  fold_left (fun found fact => if bool_decide (sf_id fact = id) then Some fact else found) facts None.

Definition values : list PlanValue := planValue <$> facts.

(** [byId.get(ingredientId(input))!]. *)
Definition fact_of (input : PlanValue) : result SolverFact :=
  id ← ingredientId input;
  match by_fact_id id with Some fact => Ok fact | None => Throw "TypeError" end.

(** The members a collection declares, when it is a sealed collection. *)
Definition member_names (items : list json) : option (list string) :=
  mapM (fun item => match item with
                    | JString s => if isVariable s then None else Some s
                    | _ => None
                    end) items.

Definition collection_members (input : option SolverFact) : option (list string) :=
  match input with
  | Some {| sf_value := Ok value |} =>
      match json_get "members" value with Some (JArray items) => member_names items | _ => None end
  | _ => None
  end.

(** The members of one gather: [None] when one of them was not observed yet. *)
Fixpoint gather_members (operation : string) (g : SolverGather) (bindings : Bindings) (members : list string) :
    result (option (list SolverFact)) :=
  match members with
  | [] => Ok (Some [])
  | member :: members =>
      let query := substitute (gt_predicate g) (<[gt_member g := member]> bindings) in
      match matchAll [query] values with
      | [] => Ok None
      | [m] =>
          match rm_inputs m with
          | [] => Ok None
          | input :: _ =>
              fact ← fact_of input;
              rest ← gather_members operation g bindings members;
              Ok match rest with Some rest => Some (fact :: rest) | None => None end
          end
      | _ => Throw ("ambiguous collection member " +:+ operation +:+ ":" +:+ gt_name g +:+ ":" +:+ member)
      end
  end.

Fixpoint gather_all (operation : string) (inputs : list SolverFact) (bindings : Bindings)
    (gathers : list SolverGather) (acc : list (string * list SolverFact)) :
    result (option (list (string * list SolverFact))) :=
  match gathers with
  | [] => Ok (Some acc)
  | g :: gathers =>
      match collection_members (at_index inputs (gt_collection g)) with
      | None => Throw ("invalid sealed collection for " +:+ operation +:+ ":" +:+ gt_name g)
      | Some members =>
          throw! negb (bool_decide (NoDup members))
            as "duplicate collection member for " +:+ operation +:+ ":" +:+ gt_name g;
          gathered ← gather_members operation g bindings members;
          match gathered with
          | None => Ok None
          | Some gathered =>
              gather_all operation inputs bindings gathers (map_set (gt_name g) gathered acc)
          end
      end
  end.

(** The invocation of an operation on one match, when it is ready. *)
Definition invocation_of (o : SolverOperation) (m : RequirementMatch) : result (list SolverInvocation) :=
  inputs ← mapM fact_of (rm_inputs m);
  gathers ← gather_all (sv_id o) inputs (rm_bindings m) (default [] (sv_gathers o)) [];
  match gathers with
  | None => Ok []
  | Some gathers =>
      Ok [{| iv_id := solverIdentity (identity_seed runId (sv_id o) inputs gathers);
             iv_operation := sv_id o; iv_bindings := rm_bindings m; iv_inputs := inputs;
             iv_gathers := gathers |}]
  end.

(** [None] is the exception [RequirementSearchLimit]. *)
Fixpoint frontier_of (operations : list SolverOperation) (maxSearchAttempts : nat) :
    option (result (list SolverInvocation)) :=
  match operations with
  | [] => Some (Ok [])
  | o :: operations =>
      if negb (is_available (sv_capability o)) then frontier_of operations maxSearchAttempts
      else
        match matchRequirements (sv_requires o) values (Some maxSearchAttempts) None with
        | None => None
        | Some matches =>
            match mjoin <$> mapM (invocation_of o) matches with
            | Throw e => Some (Throw e)
            | Ok here =>
                match frontier_of operations maxSearchAttempts with
                | Some (Ok rest) => Some (Ok (here ++ rest))
                | other => other
                end
            end
        end
  end.

Definition solveObservedFrontier (operations : list SolverOperation) (maxSearchAttempts : nat) :
    option (result (list SolverInvocation)) :=
  if bool_decide (NoDup (sf_id <$> facts)) then frontier_of operations maxSearchAttempts
  else Some (Throw "duplicate fact occurrence identity").
End Frontier.

(** ** Execution *)

(** What was asked of the port, and its answers, in order. *)
Inductive PortCall :=
| CallLookup (invocation : SolverInvocation) (answer : option SolverReceipt)
| CallInvoke (invocation : SolverInvocation) (answer : SolverReceipt).

Record RunOptions := {
  op_runId : string;
  op_operations : list SolverOperation;
  op_ingredients : list SolverFact;
  op_goals : list string;
  op_goalOnly : bool;
  op_maxInvocations : option nat;
  op_maxSearchAttempts : option nat;
  op_allowEffects : bool
}.

Record RunProgress := {
  rp_facts : list (string * SolverFact);
  rp_receipts : list SolverReceipt;
  rp_completed : list string;
  rp_calls : list PortCall
}.

(** [JSON.stringify(fact)] of a portable fact. *)
Definition fact_text (id predicate : string) (value : json) : string :=
  stringify (JObject [("id", JString id); ("predicate", JString predicate); ("value", value)]).

Definition same_text (a b : SolverFact) : bool :=
  match sf_value a, sf_value b with
  | Ok v, Ok w => bool_decide (fact_text (sf_id a) (sf_predicate a) v = fact_text (sf_id b) (sf_predicate b) w)
  | _, _ => false
  end.

Definition admit_fact (fact : SolverFact) (facts : list (string * SolverFact)) :
    result (list (string * SolverFact)) :=
  _ ← validatePredicate (sf_predicate fact);
  throw! bool_decide (sf_id fact = "") || existsb isVariable (args (parseTerm (sf_predicate fact)))
    as "observation is not grounded: " +:+ sf_predicate fact;
  _ ← sf_value fact;
  match map_get (sf_id fact) facts with
  | Some existing =>
      throw! negb (same_text existing fact) as "conflicting fact occurrence " +:+ sf_id fact;
      Ok (map_set (sf_id fact) fact facts)
  | None => Ok (map_set (sf_id fact) fact facts)
  end.

Fixpoint admit_all (new : list SolverFact) (facts : list (string * SolverFact)) :
    result (list (string * SolverFact)) :=
  match new with
  | [] => Ok facts
  | fact :: new => facts ← admit_fact fact facts; admit_all new facts
  end.

(** The predicates a receipt may publish, and the test of one fact. *)
Definition declared (o : SolverOperation) (s : ReceiptState) : list string :=
  match s with ReceiptFailed => default [] (sv_failureProduces o) | _ => sv_produces o end.

Definition published_as (bindings : Bindings) (predicates : list string) (fact : SolverFact) : bool :=
  existsb (fun p => Nat.ltb 0 (length (matchAll [substitute p bindings] [planValue fact]))) predicates.

Fixpoint check_published (o : SolverOperation) (bindings : Bindings) (predicates : list string)
    (facts : list SolverFact) : result unit :=
  match facts with
  | [] => Ok tt
  | fact :: facts =>
      throw! negb (published_as bindings predicates fact)
        as sv_id o +:+ " published an undeclared observation: " +:+ sf_predicate fact;
      check_published o bindings predicates facts
  end.

Definition receipt_belongs (receipt : SolverReceipt) (i : SolverInvocation) : bool :=
  bool_decide (rc_invocationId receipt = iv_id i) && bool_decide (rc_operation receipt = iv_operation i) &&
  match rc_state receipt with ReceiptOther _ => false | _ => true end.

(** The operations that run: effects by policy only, streams and views never. *)
Definition admitted (allowEffects : bool) (o : SolverOperation) : bool :=
  match cap_mode (sv_capability o) with
  | Some MEffect => allowEffects
  | Some MStream | Some MView => false
  | _ => true
  end.

Inductive Turn := Stop (r : ObservationRunResult) | Raise (error : string) | Continue (p : RunProgress).

Section Execute.
Context `{Collation} (options : RunOptions).
Context (lookup : list PortCall -> SolverInvocation -> result (option SolverReceipt)).
Context (invoke : list PortCall -> SolverInvocation -> result SolverReceipt).
Context (aborted : list PortCall -> bool).

Definition goalsSatisfied (p : RunProgress) : bool :=
  match matchRequirements (op_goals options) (planValue <$> (rp_facts p).*2) None (Some 1) with
  | Some matches => Nat.ltb 0 (length matches)
  | None => false
  end.

Definition stop (s : RunState) (p : RunProgress) : Turn :=
  Stop {| or_state := s; or_facts := (rp_facts p).*2; or_receipts := rp_receipts p;
          or_goalsSatisfied := goalsSatisfied p |}.

Definition failed (r : SolverReceipt) : bool :=
  match rc_state r with ReceiptFailed => true | _ => false end.

(** [(await lookup(invocation)) ?? (await invoke(invocation))]. *)
Definition ask_port (i : SolverInvocation) (calls : list PortCall) : result (SolverReceipt * list PortCall) :=
  found ← lookup calls i;
  let calls := calls ++ [CallLookup i found] in
  match found with
  | Some receipt => Ok (receipt, calls)
  | None => receipt ← invoke calls i; Ok (receipt, calls ++ [CallInvoke i receipt])
  end.

(** From the answer of the port to the end of the turn. *)
Definition commit (o : SolverOperation) (i : SolverInvocation) (receipt : SolverReceipt)
    (calls : list PortCall) (p : RunProgress) : result RunProgress :=
  throw! negb (receipt_belongs receipt i) as "receipt does not belong to the admitted invocation";
  _ ← check_published o (iv_bindings i) (declared o (rc_state receipt)) (rc_facts receipt);
  facts ← admit_all (rc_facts receipt) (rp_facts p);
  Ok {| rp_facts := facts; rp_receipts := rp_receipts p ++ [receipt];
        rp_completed := iv_id i :: rp_completed p; rp_calls := calls |}.

Definition turn_with (operations : list SolverOperation) (p : RunProgress)
    (frontier : list SolverInvocation) : Turn :=
  match js_find (fun i => negb (includes (rp_completed p) (iv_id i))) frontier with
  | None =>
      stop (if negb (goalsSatisfied p) then NoRoute
            else if existsb failed (rp_receipts p) then Partial else Complete) p
  | Some i =>
      if Nat.leb (default 1024 (op_maxInvocations options)) (length (rp_receipts p)) then stop Limit p
      else
        match js_find (fun o => bool_decide (sv_id o = iv_operation i)) operations with
        | None => Raise "TypeError"
        | Some o =>
            match ('(receipt, calls) ← ask_port i (rp_calls p); commit o i receipt calls p) with
            | Throw e => Raise e
            | Ok p => Continue p
            end
        end
  end.

Definition turn (operations : list SolverOperation) (p : RunProgress) : Turn :=
  if aborted (rp_calls p) then stop RunCancelled p
  else if op_goalOnly options && goalsSatisfied p then stop Complete p
  else
    match solveObservedFrontier (op_runId options) (rp_facts p).*2 operations
            (default 100000 (op_maxSearchAttempts options)) with
    | None => stop Limit p
    | Some (Throw e) => Raise e
    | Some (Ok frontier) => turn_with operations p frontier
    end.

(** Every turn that continues adds a receipt, and their number is bounded. *)
Fixpoint turns (fuel : nat) (operations : list SolverOperation) (p : RunProgress) : option (result ObservationRunResult) :=
  match fuel with
  | 0 => None
  | S fuel =>
      match turn operations p with
      | Stop r => Some (Ok r)
      | Raise e => Some (Throw e)
      | Continue p => turns fuel operations p
      end
  end.

Definition executeObservedProgram (fuel : nat) : option (result ObservationRunResult) :=
  match (compiled ← compileObservationOperations (op_operations options);
         facts ← admit_all (op_ingredients options) [];
         Ok (compiled, facts)) with
  | Throw e => Some (Throw e)
  | Ok (compiled, facts) =>
      turns fuel (List.filter (admitted (op_allowEffects options)) compiled)
        {| rp_facts := facts; rp_receipts := []; rp_completed := []; rp_calls := [] |}
  end.
End Execute.

(** ** Facts *)

(** An admitted fact: valid, named, ground and portable. *)
Definition fact_ok (f : SolverFact) : Prop :=
  predicate_syntax (sf_predicate f) = true /\ sf_id f <> "" /\
  (forall a, a ∈ args (parseTerm (sf_predicate f)) -> isVariable a = false) /\
  exists v, sf_value f = Ok v.

Record facts_ok (m : list (string * SolverFact)) : Prop := {
  fo_keys : map_ok m;
  fo_facts : forall id f, map_get id m = Some f -> sf_id f = id /\ fact_ok f
}.

Lemma admit_fact_spec f m m' :
  facts_ok m -> admit_fact f m = Ok m' -> facts_ok m' /\ m' = map_set (sf_id f) f m.
Proof.
  intros [Hk Hf] Ha. assert (fact_ok f /\ m' = map_set (sf_id f) f m) as [Hok ->].
  { unfold admit_fact, validatePredicate in Ha. inv_result. bools. split.
    - split; [done|]. split; [done|]. split; [|eauto]. intros a Hin.
      match goal with H : existsb isVariable _ = false |- _ => exact (proj1 (existsb_elem_false _ _) H a Hin) end.
    - destruct (map_get (sf_id f) m); by inv_result. }
  split; [|done]. split; [auto with js|]. intros id g. rewrite map_get_set.
  case_decide; [intros [= <-]; by subst|apply Hf].
Qed.

Lemma admit_all_spec new m m' :
  facts_ok m -> admit_all new m = Ok m' ->
  facts_ok m' /\ (forall f, f ∈ m'.*2 -> f ∈ new \/ f ∈ m.*2) /\ (forall id, id ∈ m.*1 -> id ∈ m'.*1) /\
  (forall f, f ∈ new -> sf_id f ∈ m'.*1).
Proof.
  revert m. induction new as [|f new IH]; intros m Hok Ha; cbn in Ha.
  - injection Ha as <-. split; [done|]. split; [auto|]. split; [done|]. by intros f ?%not_elem_of_nil.
  - destruct (admit_fact f m) as [m1|] eqn:E; cbn in Ha; [|done].
    apply admit_fact_spec in E as [Hok1 ->]; [|done].
    destruct (IH _ Hok1 Ha) as (Hok' & Hin & Hkeep & Hnew). split; [done|].
    assert (forall id, id = sf_id f \/ id ∈ m.*1 -> id ∈ (map_set (sf_id f) f m).*1) as Hset.
    { intros id Hid. rewrite map_set_keys. case_decide.
      - destruct Hid as [->|?]; done.
      - apply elem_of_app. destruct Hid as [->|?]; [right; left|by left]. }
    split; [|split].
    + intros g [Hg|Hg]%Hin; [left; by right|].
      apply list_elem_of_fmap in Hg as ([k v] & -> & Hg). cbn.
      apply map_get_ok in Hg; [|apply Hok1]. rewrite map_get_set in Hg.
      case_decide; [injection Hg as <-; left; left|]. right.
      apply map_get_elem in Hg. by apply (list_elem_of_fmap_2 snd) in Hg.
    + intros id Hid. apply Hkeep, Hset. by right.
    + intros g [->|Hg]%elem_of_cons; [apply Hkeep, Hset; by left|by apply Hnew].
Qed.

Lemma facts_ok_nil : facts_ok [].
Proof. split; [apply map_ok_nil|done]. Qed.

Lemma facts_ids m : facts_ok m -> NoDup (sf_id <$> m.*2).
Proof.
  intros [Hk Hf]. assert (sf_id <$> m.*2 = m.*1) as ->; [|done].
  unfold map_ok in Hk. rewrite <- list_fmap_compose. apply list_fmap_ext. intros i [k f] Hi. cbn.
  apply Hf. apply map_get_ok; [done|]. by eapply list_elem_of_lookup_2.
Qed.

Lemma facts_elem m f : facts_ok m -> f ∈ m.*2 -> fact_ok f.
Proof.
  intros [Hk Hf] ([k g] & -> & Hg)%list_elem_of_fmap. cbn. by apply (Hf k), map_get_ok.
Qed.

Lemma by_fact_id_Some facts id f : by_fact_id facts id = Some f -> f ∈ facts /\ sf_id f = id.
Proof.
  unfold by_fact_id. assert (forall found, fold_left (fun found fact =>
      if bool_decide (sf_id fact = id) then Some fact else found) facts found = Some f ->
    (f ∈ facts /\ sf_id f = id) \/ found = Some f) as Hall.
  { induction facts as [|g facts IH]; intros found; cbn; [auto|]. intros [[? ?]|H]%IH.
    - left. split; [by right|done].
    - case_bool_decide; [injection H as <-; left; split; [left|done]|by right]. }
  intros H. by destruct (Hall None H).
Qed.

Lemma NoDup_fact_eq facts f g :
  NoDup (sf_id <$> facts) -> f ∈ facts -> g ∈ facts -> sf_id f = sf_id g -> f = g.
Proof.
  intros Hn (i & Hi)%list_elem_of_lookup (j & Hj)%list_elem_of_lookup E.
  assert (i = j) as ->; [|congruence].
  eapply (NoDup_lookup (sf_id <$> facts) i j (sf_id f)); [done|by rewrite list_lookup_fmap, Hi|].
  rewrite list_lookup_fmap, Hj. cbn. by rewrite E.
Qed.

(** Looking a value of the frontier up gives the fact it came from. *)
Lemma fact_of_spec facts input f :
  NoDup (sf_id <$> facts) -> input ∈ values facts -> fact_of facts input = Ok f ->
  f ∈ facts /\ planValue f = input.
Proof.
  intros Hn (g & -> & Hg)%list_elem_of_fmap. unfold fact_of, ingredientId. cbn.
  destruct (sf_id g) as [|c s] eqn:Eg; [done|]. cbn. destruct (by_fact_id facts _) as [f'|] eqn:E; [|done].
  intros [= ->]. apply by_fact_id_Some in E as [Hf Hid]. split; [done|].
  assert (f = g) as ->; [|done]. eapply NoDup_fact_eq; eauto. congruence.
Qed.

Lemma mapM_fact_of facts inputs fs :
  NoDup (sf_id <$> facts) -> Forall (fun v => v ∈ values facts) inputs -> mapM (fact_of facts) inputs = Ok fs ->
  Forall (fun f => f ∈ facts) fs /\ planValue <$> fs = inputs.
Proof.
  intros Hn. revert fs. induction inputs as [|v inputs IH]; intros fs Hall; cbn.
  - intros [= <-]. by split.
  - apply Forall_cons in Hall as [Hv Hall]. destruct (fact_of facts v) as [f|] eqn:E; cbn; [|done].
    destruct (mapM (fact_of facts) inputs) as [fs'|] eqn:E'; cbn; [|done]. intros [= <-].
    destruct (fact_of_spec _ _ _ Hn Hv E) as [? <-]. destruct (IH fs' Hall eq_refl) as [? <-].
    split; [by constructor|done].
Qed.

(** ** The frontier is justified *)

(** [f] is the one fact that [query] matches. *)
Definition only_match (facts : list SolverFact) (query : string) (f : SolverFact) : Prop :=
  f ∈ facts /\ is_Some (unify query (sf_predicate f) ∅) /\
  forall g, g ∈ facts -> is_Some (unify query (sf_predicate g) ∅) -> g = f.

(** The members of the sealed collection that a gather names: the texts listed in the value
    of an input, no variables, each once. *)
Definition sealed_members (i : SolverInvocation) (g : SolverGather) (members : list string) : Prop :=
  exists n f value, gt_collection g = Z.of_nat n /\ iv_inputs i !! n = Some f /\ sf_value f = Ok value /\
    json_get "members" value = Some (JArray (JString <$> members)) /\
    (forall member, member ∈ members -> isVariable member = false) /\ NoDup members.

Lemma member_names_spec items members : member_names items = Some members ->
  items = JString <$> members /\ forall member, member ∈ members -> isVariable member = false.
Proof.
  unfold member_names. revert members. induction items as [|item items IH]; intros members H; cbn in H.
  - injection H as <-. split; [done|by intros m ?%not_elem_of_nil].
  - destruct item as [| | |s| |]; cbn in H; try discriminate. destruct (isVariable s) eqn:Ev; cbn in H; [discriminate|].
    destruct (mapM _ items) as [l|] eqn:El; cbn in H; [|discriminate]. injection H as <-.
    destruct (IH l eq_refl) as [-> Hl]. split; [done|]. by intros m [->|Hm]%elem_of_cons; [|apply Hl].
Qed.

Lemma collection_members_spec i g members : NoDup members ->
  collection_members (at_index (iv_inputs i) (gt_collection g)) = Some members -> sealed_members i g members.
Proof.
  intros Hn. unfold collection_members, at_index. destruct (Z.ltb_spec (gt_collection g) 0); [done|].
  destruct (iv_inputs i !! Z.to_nat (gt_collection g)) as [[id predicate [value|e]]|] eqn:Ei; [|done..].
  destruct (json_get "members" value) as [[| | | |items|]|] eqn:Ej; try done. intros [-> Hv]%member_names_spec.
  exists (Z.to_nat (gt_collection g)). eexists _, value. split; [lia|]. split; [exact Ei|]. done.
Qed.

(** One gather of an invocation: for each declared member, in the order of the
    sealed collection, the only fact that the query of that member matches. *)
Definition gathered_ok (facts : list SolverFact) (i : SolverInvocation) (g : SolverGather) : Prop :=
  exists members gathered,
    sealed_members i g members /\
    map_get (gt_name g) (iv_gathers i) = Some gathered /\
    Forall2 (fun member f => only_match facts
               (substitute (gt_predicate g) (<[gt_member g := member]> (iv_bindings i))) f) members gathered.

(** An invocation that the observations justify. *)
Record justified (facts : list SolverFact) (o : SolverOperation) (i : SolverInvocation) : Prop := {
  ju_operation : iv_operation i = sv_id o;
  ju_available : cap_available (sv_capability o) <> Some false;
  ju_inputs : Forall (fun f => f ∈ facts) (iv_inputs i);
  ju_match : unify_all (sv_requires o) (planValue <$> iv_inputs i) ∅ = Some (iv_bindings i);
  ju_gathers : NoDup (gt_name <$> default [] (sv_gathers o)) ->
    Forall (gathered_ok facts i) (default [] (sv_gathers o))
}.

Lemma single_match facts query m input rest :
  matchAll [query] (values facts) = [m] -> rm_inputs m = input :: rest ->
  input ∈ values facts /\ is_Some (unify query (pv_predicate input) ∅) /\
  forall v, v ∈ values facts -> is_Some (unify query (pv_predicate v) ∅) -> v = input.
Proof.
  intros Hm Hi. assert (m ∈ matchAll [query] (values facts)) as Hin by (rewrite Hm; left).
  apply elem_of_matchAll in Hin as [Hf Hu]. rewrite Hi in Hf, Hu. apply Forall_cons in Hf as [Hv _].
  split; [done|]. cbn in Hu. destruct (unify query (pv_predicate input) ∅) as [τ|] eqn:E; [|done].
  split; [eauto|]. intros v Hvf [σ Hs].
  assert ({| rm_bindings := σ; rm_inputs := [v] |} ∈ matchAll [query] (values facts)) as Hv'.
  { apply elem_of_matchAll. split; [by repeat constructor|]. cbn. by rewrite Hs. }
  rewrite Hm in Hv'. apply list_elem_of_singleton in Hv'. rewrite <- Hv' in Hi. by injection Hi as ->.
Qed.

Lemma gather_members_spec facts operation g bindings members gathered :
  NoDup (sf_id <$> facts) ->
  gather_members facts operation g bindings members = Ok (Some gathered) ->
  Forall2 (fun member f => only_match facts
             (substitute (gt_predicate g) (<[gt_member g := member]> bindings)) f) members gathered.
Proof.
  intros Hn. revert gathered. induction members as [|member members IH]; intros gathered;
    cbn [gather_members]; cbv zeta.
  - intros [= <-]. constructor.
  - match goal with |- context [matchAll ?q ?v] => destruct (matchAll q v) as [|m [|m' ms]] eqn:E end;
      [done| |done].
    destruct (rm_inputs m) as [|input rest] eqn:Ei; [done|].
    destruct (fact_of facts input) as [f|] eqn:Ef; cbn; [|done].
    destruct (gather_members facts operation g bindings members) as [[more|]|] eqn:Em; cbn; [|done..].
    intros [= <-]. constructor; [|by apply IH].
    destruct (single_match _ _ _ _ _ E Ei) as (Hin & Hs & Honly).
    destruct (fact_of_spec _ _ _ Hn Hin Ef) as [Hf <-].
    split; [done|]. split; [done|]. intros g' Hg Hs'.
    eapply NoDup_fact_eq; [exact Hn|done..|].
    assert (planValue g' = planValue f) as Heq.
    { apply Honly; [by apply list_elem_of_fmap_2|done]. }
    unfold planValue in Heq. congruence.
Qed.

Lemma gather_all_spec facts operation inputs bindings gathers acc out :
  NoDup (sf_id <$> facts) -> NoDup (gt_name <$> gathers) ->
  gather_all facts operation inputs bindings gathers acc = Ok (Some out) ->
  (forall name, name ∉ gt_name <$> gathers -> map_get name out = map_get name acc) /\
  Forall (fun g => exists members gathered,
    collection_members (at_index inputs (gt_collection g)) = Some members /\ NoDup members /\
    map_get (gt_name g) out = Some gathered /\
    Forall2 (fun member f => only_match facts
      (substitute (gt_predicate g) (<[gt_member g := member]> bindings)) f) members gathered) gathers.
Proof.
  intros Hn. revert acc. induction gathers as [|g gathers IH]; intros acc Hnames; cbn.
  - intros [= <-]. by split.
  - apply NoDup_cons in Hnames as [Hg Hnames].
    destruct (collection_members _) as [members|] eqn:Ec; [|done].
    destruct (bool_decide (NoDup members)) eqn:Ed; cbn; [|done]. apply bool_decide_eq_true in Ed.
    destruct (gather_members _ _ _ _ members) as [[gathered|]|] eqn:Em; cbn; [|done..].
    intros Ho. destruct (IH _ Hnames Ho) as [Hkeep Hall]. split.
    + intros name [Hne Hname]%not_elem_of_cons. rewrite Hkeep by done. by rewrite map_get_set_ne.
    + constructor; [|done]. exists members, gathered. split; [done|]. split; [done|].
      split; [by rewrite Hkeep, map_get_set_eq|]. by eapply gather_members_spec.
Qed.

Lemma invocation_of_spec runId facts o m l i :
  NoDup (sf_id <$> facts) -> is_available (sv_capability o) = true ->
  m ∈ matchAll (sv_requires o) (values facts) -> invocation_of runId facts o m = Ok l -> i ∈ l ->
  justified facts o i.
Proof.
  intros Hn Hav Hm. unfold invocation_of. apply elem_of_matchAll in Hm as [Hf Hu].
  destruct (mapM (fact_of facts) (rm_inputs m)) as [inputs|] eqn:Ei; cbn; [|done].
  destruct (mapM_fact_of _ _ _ Hn Hf Ei) as [Hin Hpl].
  destruct (gather_all _ _ _ _ _ _) as [[gathers|]|] eqn:Eg; cbn; [| |done].
  - intros [= <-] ->%list_elem_of_singleton. split; cbn; try done; [|by rewrite Hpl|].
    + unfold is_available in Hav. by destruct (cap_available _) as [[]|].
    + intros Hnames. destruct (gather_all_spec _ _ _ _ _ _ _ Hn Hnames Eg) as [_ Hall].
      eapply Forall_impl; [exact Hall|]. intros g (members & gathered & Hc & Hd & Hget & Hm).
      exists members, gathered. split; [|done]. by apply collection_members_spec.
  - intros [= <-] H. by apply not_elem_of_nil in H.
Qed.

Lemma mapM_elem {A B} (f : A -> result (list B)) (l : list A) (k : list (list B)) (y : B) :
  mapM f l = Ok k -> y ∈ mjoin k -> exists x z, x ∈ l /\ f x = Ok z /\ y ∈ z.
Proof.
  revert k. induction l as [|x l IH]; intros k; cbn.
  - intros [= <-] H. by apply not_elem_of_nil in H.
  - destruct (f x) as [z|] eqn:E; cbn; [|done]. destruct (mapM f l) as [k'|]; cbn; [|done].
    intros [= <-]. cbn. intros [Hy|Hy]%elem_of_app; [exists x, z; split; [left|done]|].
    destruct (IH k' eq_refl Hy) as (x' & z' & ? & ? & ?). exists x', z'. split; [by right|done].
Qed.

Lemma frontier_sound runId facts operations attempts frontier i :
  NoDup (sf_id <$> facts) -> frontier_of runId facts operations attempts = Some (Ok frontier) ->
  i ∈ frontier -> exists o, o ∈ operations /\ justified facts o i.
Proof.
  intros Hn. revert frontier. induction operations as [|o operations IH]; intros frontier; cbn.
  - intros [= <-] H. by apply not_elem_of_nil in H.
  - destruct (is_available (sv_capability o)) eqn:Hav; cbn [negb].
    + destruct (matchRequirements _ _ _ _) as [matches|] eqn:Em; [|done].
      destruct (mapM _ matches) as [l|] eqn:El; cbn; [|done].
      destruct (frontier_of _ _ operations attempts) as [[rest|]|] eqn:Er; [|done..].
      intros [= <-]. intros [Hi|Hi]%elem_of_app.
      * destruct (mapM_elem _ _ _ _ El Hi) as (m & z & Hm & Hz & Hiz).
        assert (m ∈ matchAll (sv_requires o) (values facts)) as Hm'.
        { destruct (decide (sv_requires o = [])) as [E|E].
          - unfold matchAll, matchRequirements in *. rewrite E in *.
            rewrite bool_decide_true in * by done. by injection Em as <-.
          - pose proof (matchRequirements_limits (sv_requires o) (values facts) (Some attempts) None E) as Hl.
            rewrite Em in Hl. cbn in Hl. by subst. }
        exists o. split; [left|]. by eapply invocation_of_spec.
      * destruct (IH rest eq_refl Hi) as (o' & ? & ?). exists o'. split; [by right|done].
    + intros Hf Hi. destruct (IH frontier Hf Hi) as (o' & ? & ?). exists o'. split; [by right|done].
Qed.

(** ** Compiled operations *)

(** What compilation guarantees of an operation. *)
Definition operation_ok (o : SolverOperation) : Prop :=
  (0 <= sv_cost o)%Z /\ NoDup (gt_name <$> default [] (sv_gathers o)) /\
  forall p, p ∈ sv_requires o ++ sv_produces o ++ default [] (sv_failureProduces o) ->
    predicate_syntax p = true.

Lemma validate_all_spec ps : validate_all ps = Ok tt -> forall p, p ∈ ps -> predicate_syntax p = true.
Proof.
  induction ps as [|q ps IH]; cbn; [by intros _ p ?%not_elem_of_nil|].
  unfold validatePredicate. intros H. inv_result. bools. intros p [->|Hp]%elem_of_cons; auto.
Qed.

Lemma check_gathers_spec requires names gathers :
  check_gathers requires names gathers = Ok tt ->
  NoDup (gt_name <$> gathers) /\ forall n, n ∈ names -> n ∉ gt_name <$> gathers.
Proof.
  revert names. induction gathers as [|g gathers IH]; intros names; cbn [check_gathers].
  - intros _. split; [constructor|]. intros n _. apply not_elem_of_nil.
  - destruct (check_gather requires names g) as [[]|] eqn:E; cbn; [|done]. intros Hg.
    destruct (IH _ Hg) as [Hn Hd]. unfold check_gather in E. inv_result. unfold includes in *. bools.
    split; [apply NoDup_cons; split; [apply Hd; left|done]|].
    intros n Hin [->|?]%elem_of_cons; [done|]. by apply (Hd n); [right|].
Qed.

Lemma check_operations_spec ids operations :
  check_operations ids operations = Ok tt ->
  NoDup (sv_id <$> operations) /\ (forall id, id ∈ ids -> id ∉ sv_id <$> operations) /\
  Forall operation_ok operations.
Proof.
  revert ids. induction operations as [|o operations IH]; intros ids; cbn [check_operations].
  - intros _. split; [constructor|]. split; [|constructor]. intros id _. apply not_elem_of_nil.
  - destruct (check_operation ids o) as [[]|] eqn:E; cbn; [|done]. intros Ho.
    destruct (IH _ Ho) as (Hn & Hd & Hall). unfold check_operation in E. inv_result.
    unfold includes in *. bools. split; [apply NoDup_cons; split; [apply Hd; left|done]|]. split.
    + intros id Hin [->|?]%elem_of_cons; [done|]. by apply (Hd id); [right|].
    + constructor; [|done]. split; [lia|]. split.
      * by destruct (check_gathers_spec _ _ _ E).
      * match goal with H : validate_all _ = Ok ?u |- _ => destruct u; exact (validate_all_spec _ H) end.
Qed.

Lemma compile_spec `{Collation} operations compiled :
  compileObservationOperations operations = Ok compiled ->
  compiled ≡ₚ operations /\ NoDup (sv_id <$> compiled) /\ Forall operation_ok compiled.
Proof.
  unfold compileObservationOperations.
  destruct (check_operations [] operations) as [[]|] eqn:E; cbn; [|done]. intros [= <-].
  apply check_operations_spec in E as (Hn & _ & Hall).
  split; [apply js_sort_perm|]. by rewrite !js_sort_perm.
Qed.

Lemma find_operation operations o i :
  NoDup (sv_id <$> operations) -> o ∈ operations -> iv_operation i = sv_id o ->
  js_find (fun o => bool_decide (sv_id o = iv_operation i)) operations = Some o.
Proof.
  intros Hn Ho Hi. destruct (js_find _ _) as [o'|] eqn:E.
  - apply js_find_Some in E as [Ho' Hid%bool_decide_eq_true]. f_equal.
    apply list_elem_of_lookup in Ho as (j & Hj). apply list_elem_of_lookup in Ho' as (k & Hk).
    assert (k = j) as ->; [|congruence].
    eapply (NoDup_lookup (sv_id <$> operations) k j (sv_id o)); [done|..];
      rewrite list_lookup_fmap; [rewrite Hk|rewrite Hj]; cbn; congruence.
  - pose proof (proj1 (js_find_None _ _) E o Ho) as Hf. apply bool_decide_eq_false in Hf. by destruct Hf.
Qed.

(** ** Runs *)

(** One entry of the history of a run. *)
Record Entry := { en_operation : SolverOperation; en_invocation : SolverInvocation; en_receipt : SolverReceipt }.

(** What was observed before entry [k]. *)
Definition observed_before (ingredients : list SolverFact) (trace : list Entry) (k : nat) : list SolverFact :=
  ingredients ++ List.flat_map (fun e => rc_facts (en_receipt e)) (take k trace).

(** An entry: the invocation was justified by facts observed before it, and its
    receipt names it and its operation, says that it succeeded or failed, and publishes
    only what the operation produces, or produces when it fails. *)
Record entry_ok (operations : list SolverOperation) (known : list SolverFact) (e : Entry) : Prop := {
  ek_operation : en_operation e ∈ operations;
  ek_justified : exists facts, (forall f, f ∈ facts -> f ∈ known) /\ NoDup (sf_id <$> facts) /\
    justified facts (en_operation e) (en_invocation e);
  ek_invocation : rc_invocationId (en_receipt e) = iv_id (en_invocation e);
  ek_named : rc_operation (en_receipt e) = iv_operation (en_invocation e);
  ek_state : rc_state (en_receipt e) = ReceiptSucceeded \/ rc_state (en_receipt e) = ReceiptFailed;
  ek_declared : forall f, f ∈ rc_facts (en_receipt e) ->
    exists p, is_Some (unify (substitute p (iv_bindings (en_invocation e))) (sf_predicate f) ∅) /\
      (rc_state (en_receipt e) = ReceiptSucceeded -> p ∈ cap_produces (sv_capability (en_operation e))) /\
      (rc_state (en_receipt e) = ReceiptFailed ->
         exists failures, sv_failureProduces (en_operation e) = Some failures /\ p ∈ failures)
}.

Lemma receipt_belongs_spec receipt i : receipt_belongs receipt i = true ->
  rc_invocationId receipt = iv_id i /\ rc_operation receipt = iv_operation i /\
  (rc_state receipt = ReceiptSucceeded \/ rc_state receipt = ReceiptFailed).
Proof. unfold receipt_belongs. intros H. bools. destruct (rc_state receipt); auto; done. Qed.

(** Only operations that transform run, and effects where the policy allows them. *)
Definition may_run (allowEffects : bool) (o : SolverOperation) : Prop :=
  cap_mode (sv_capability o) <> Some MStream /\ cap_mode (sv_capability o) <> Some MView /\
  (cap_mode (sv_capability o) = Some MEffect -> allowEffects = true).

Lemma admitted_may_run allowEffects o : admitted allowEffects o = true -> may_run allowEffects o.
Proof. unfold admitted, may_run. by destruct (cap_mode _) as [[]|]. Qed.

Section PortCalls.
Context (lookup : list PortCall -> SolverInvocation -> result (option SolverReceipt)).
Context (invoke : list PortCall -> SolverInvocation -> result SolverReceipt).

(** The calls a history makes, with the answers of the port: a lookup for each
    entry, and an invocation only when the lookup found nothing. *)
Inductive calls_of : list Entry -> list PortCall -> Prop :=
| calls_none : calls_of [] []
| calls_found trace calls e :
    calls_of trace calls -> lookup calls (en_invocation e) = Ok (Some (en_receipt e)) ->
    calls_of (trace ++ [e]) (calls ++ [CallLookup (en_invocation e) (Some (en_receipt e))])
| calls_invoked trace calls e :
    calls_of trace calls -> lookup calls (en_invocation e) = Ok None ->
    invoke (calls ++ [CallLookup (en_invocation e) None]) (en_invocation e) = Ok (en_receipt e) ->
    calls_of (trace ++ [e])
      (calls ++ [CallLookup (en_invocation e) None; CallInvoke (en_invocation e) (en_receipt e)]).

Record progress_ok (operations : list SolverOperation) (ingredients : list SolverFact) (trace : list Entry)
    (p : RunProgress) : Prop := {
  po_facts : facts_ok (rp_facts p);
  po_sources : forall f, f ∈ (rp_facts p).*2 -> f ∈ observed_before ingredients trace (length trace);
  po_receipts : rp_receipts p = en_receipt <$> trace;
  po_completed : rp_completed p = rev ((fun e => iv_id (en_invocation e)) <$> trace);
  po_once : NoDup ((fun e => iv_id (en_invocation e)) <$> trace);
  po_entries : forall k e, trace !! k = Some e ->
    entry_ok operations (observed_before ingredients trace k) e;
  po_calls : calls_of trace (rp_calls p)
}.

End PortCalls.

Lemma observed_before_snoc ingredients trace e k :
  k <= length trace -> observed_before ingredients (trace ++ [e]) k = observed_before ingredients trace k.
Proof. intros Hk. unfold observed_before. by rewrite take_app_le. Qed.

Lemma check_published_spec o bindings predicates facts :
  check_published o bindings predicates facts = Ok tt ->
  forall f, f ∈ facts -> exists p, p ∈ predicates /\ is_Some (unify (substitute p bindings) (sf_predicate f) ∅).
Proof.
  induction facts as [|f facts IH]; cbn [check_published]; [by intros _ g ?%not_elem_of_nil|].
  intros H. inv_result. bools. intros g [->|Hg]%elem_of_cons; [|auto].
  match goal with H : published_as _ _ _ = true |- _ =>
    apply existsb_elem in H as (p & Hp & Hm) end.
  exists p. split; [done|]. apply Nat.ltb_lt in Hm.
  destruct (matchAll _ _) as [|m ms] eqn:E; [cbn in Hm; lia|].
  assert (m ∈ matchAll [substitute p bindings] [planValue f]) as Hin by (rewrite E; left).
  apply elem_of_matchAll in Hin as [Hf Hu]. cbn in Hu.
  destruct (rm_inputs m) as [|v [|]]; [done| |destruct (unify _ _ _); done].
  apply Forall_cons in Hf as [Hv _]. apply list_elem_of_singleton in Hv as ->. cbn in Hu.
  destruct (unify _ _ ∅); [eauto|done].
Qed.

Section Runs.
Context `{Collation} (options : RunOptions).
Context (lookup : list PortCall -> SolverInvocation -> result (option SolverReceipt)).
Context (invoke : list PortCall -> SolverInvocation -> result SolverReceipt).
Context (aborted : list PortCall -> bool).
Context (operations : list SolverOperation) (ingredients : list SolverFact).
Context (Hids : NoDup (sv_id <$> operations)).

Abbreviation progress := (progress_ok lookup invoke operations ingredients).
Abbreviation max := (default 1024 (op_maxInvocations options)).

(** Nothing is left to do: every invocation of the frontier has its receipt. *)
Definition exhausted (p : RunProgress) : Prop :=
  exists frontier,
    solveObservedFrontier (op_runId options) (rp_facts p).*2 operations
      (default 100000 (op_maxSearchAttempts options)) = Some (Ok frontier) /\
    forall i, i ∈ frontier -> iv_id i ∈ rp_completed p.

(** Why a run stops. *)
Definition stopped (p : RunProgress) (r : ObservationRunResult) : Prop :=
  or_facts r = (rp_facts p).*2 /\ or_receipts r = rp_receipts p /\
  or_goalsSatisfied r = goalsSatisfied options p /\
  match or_state r with
  | Complete => or_goalsSatisfied r = true /\
      (op_goalOnly options = true \/ exhausted p /\ forall rc, rc ∈ or_receipts r -> rc_state rc <> ReceiptFailed)
  | Partial => or_goalsSatisfied r = true /\ exhausted p /\ exists rc, rc ∈ or_receipts r /\ rc_state rc = ReceiptFailed
  | NoRoute => or_goalsSatisfied r = false /\ exhausted p
  | Limit | RunCancelled => True
  end.

Lemma stop_stopped s p r :
  stop options s p = Stop r ->
  match s with
  | Complete => goalsSatisfied options p = true /\
      (op_goalOnly options = true \/ exhausted p /\ forall rc, rc ∈ rp_receipts p -> rc_state rc <> ReceiptFailed)
  | Partial => goalsSatisfied options p = true /\ exhausted p /\ exists rc, rc ∈ rp_receipts p /\ rc_state rc = ReceiptFailed
  | NoRoute => goalsSatisfied options p = false /\ exhausted p
  | Limit | RunCancelled => True
  end -> stopped p r.
Proof. intros [= <-] Hs. do 3 (split; [done|]). exact Hs. Qed.

Lemma commit_ok trace o i receipt calls p p' :
  progress trace p -> o ∈ operations -> justified (rp_facts p).*2 o i -> iv_id i ∉ rp_completed p ->
  calls_of lookup invoke (trace ++ [{| en_operation := o; en_invocation := i; en_receipt := receipt |}]) calls ->
  commit o i receipt calls p = Ok p' ->
  progress (trace ++ [{| en_operation := o; en_invocation := i; en_receipt := receipt |}]) p'.
Proof.
  set (e := {| en_operation := o; en_invocation := i; en_receipt := receipt |}).
  intros [Hf Hs Hr Hc Hn He _] Ho Hj Hnew Hcalls Hcommit. unfold commit in Hcommit. inv_result. bools.
  match goal with H : check_published _ _ _ _ = Ok ?u |- _ => destruct u;
    pose proof (check_published_spec _ _ _ _ H) as Hpub end.
  match goal with H : admit_all _ _ = Ok ?m |- _ =>
    destruct (admit_all_spec _ _ _ Hf H) as (Hf' & Hin & _) end.
  split; cbn; try done.
  - intros f Hff. unfold observed_before. rewrite length_app. cbn. rewrite Nat.add_1_r.
    rewrite (take_ge (trace ++ [e])) by (rewrite length_app; cbn; lia).
    rewrite List.flat_map_app. destruct (Hin f Hff) as [Hnf|Hof].
    + do 2 (apply elem_of_app; right). cbn. by rewrite app_nil_r.
    + apply Hs in Hof. unfold observed_before in Hof. rewrite take_ge in Hof by done.
      rewrite app_assoc. apply elem_of_app. by left.
  - by rewrite fmap_app, Hr.
  - by rewrite fmap_app, rev_app_distr, Hc.
  - rewrite fmap_app. apply NoDup_app. split; [done|]. split; [|by apply NoDup_singleton].
    intros id Hid ->%list_elem_of_singleton. apply Hnew. rewrite Hc.
    by rewrite list_elem_of_In, <- in_rev, <- list_elem_of_In.
  - intros k e' Hk. destruct (decide (k < length trace)) as [Hlt|Hge].
    + rewrite lookup_app_l in Hk by done. rewrite observed_before_snoc by lia. by apply He.
    + rewrite lookup_app_r in Hk by lia. apply list_lookup_singleton_Some in Hk as [Hk <-].
      assert (k = length trace) as -> by lia. rewrite observed_before_snoc by lia.
      destruct (receipt_belongs_spec receipt i) as (H1 & H2 & H3); [done|]. split; cbn; try done.
      * exists (rp_facts p).*2. split; [done|]. split; [by apply facts_ids|done].
      * intros f (q & Hq & Hu)%Hpub. exists q. split; [exact Hu|]. unfold declared in Hq.
        split; intros Hst; rewrite Hst in Hq; [exact Hq|].
        destruct (sv_failureProduces o) as [l|]; [by exists l|by apply not_elem_of_nil in Hq].
Qed.

Lemma ask_port_spec i calls receipt calls' :
  ask_port lookup invoke i calls = Ok (receipt, calls') ->
  (calls' = calls ++ [CallLookup i (Some receipt)] /\ lookup calls i = Ok (Some receipt)) \/
  (calls' = calls ++ [CallLookup i None; CallInvoke i receipt] /\ lookup calls i = Ok None /\
   invoke (calls ++ [CallLookup i None]) i = Ok receipt).
Proof.
  unfold ask_port. destruct (lookup calls i) as [[r|]|]; cbn; [by intros [= -> <-]; left| |done].
  destruct (invoke _ i) as [r|] eqn:E; cbn; [|done]. intros [= -> <-]. right.
  by rewrite <- app_assoc.
Qed.

Lemma turn_ok trace p :
  progress trace p ->
  match turn options lookup invoke aborted operations p with
  | Stop r => stopped p r
  | Raise _ => True
  | Continue p' => length trace < max /\ exists e, progress (trace ++ [e]) p'
  end.
Proof.
  intros Hp. unfold turn. destruct (aborted _).
  { by apply (stop_stopped RunCancelled). }
  destruct (op_goalOnly options && goalsSatisfied options p) eqn:Eg.
  { apply andb_prop in Eg as [Hg Hs]. apply (stop_stopped Complete); [done|]. auto. }
  destruct (solveObservedFrontier _ _ _ _) as [[frontier|error]|] eqn:Ef; [|done|by apply (stop_stopped Limit)].
  assert (forall i, i ∈ frontier -> exists o, o ∈ operations /\ justified (rp_facts p).*2 o i) as Hsound.
  { intros i Hi. unfold solveObservedFrontier in Ef. case_bool_decide as Hn; [|done].
    by eapply frontier_sound. }
  unfold turn_with. destruct (js_find _ frontier) as [i|] eqn:Ei.
  - apply js_find_Some in Ei as [Hi Hnew]. unfold includes in Hnew. bools.
    destruct (Nat.leb _ _) eqn:El; [by apply (stop_stopped Limit)|]. apply Nat.leb_gt in El.
    destruct (Hsound i Hi) as (o & Ho & Hj).
    rewrite (find_operation operations o i Hids Ho (ju_operation _ _ _ Hj)).
    destruct (ask_port lookup invoke i (rp_calls p)) as [[receipt calls]|] eqn:Ea; cbn; [|done].
    destruct (commit o i receipt calls p) as [p'|] eqn:Ec; [|done].
    split; [rewrite (po_receipts _ _ _ _ _ _ Hp), length_fmap in El; exact El|].
    eexists. eapply commit_ok; eauto.
    destruct (ask_port_spec _ _ _ _ Ea) as [[-> ?]|(-> & ? & ?)]; constructor; try done; apply Hp.
  - assert (exhausted p) as Hex.
    { exists frontier. split; [done|]. intros i Hi.
      pose proof (proj1 (js_find_None _ _) Ei i Hi) as Hc. unfold includes in Hc. by bools. }
    destruct (goalsSatisfied options p) eqn:Es; cbn [negb].
    + destruct (existsb failed (rp_receipts p)) eqn:Efail.
      * apply existsb_elem in Efail as (rc & Hrc & Hfl). apply (stop_stopped Partial); [done|].
        split; [done|]. split; [done|]. exists rc. split; [done|]. by destruct rc as [? ? []].
      * apply (stop_stopped Complete); [done|]. split; [done|]. right. split; [done|].
        intros rc Hrc Hst. pose proof (proj1 (existsb_elem_false _ _) Efail rc Hrc) as Hfl.
        unfold failed in Hfl. by rewrite Hst in Hfl.
    + by apply (stop_stopped NoRoute).
Qed.

Lemma turns_ok fuel trace p :
  progress trace p ->
  (length trace <= max -> max < length trace + fuel -> turns options lookup invoke aborted fuel operations p <> None) /\
  forall r, turns options lookup invoke aborted fuel operations p = Some (Ok r) ->
    exists trace' p', progress trace' p' /\ stopped p' r /\ (length trace <= max -> length trace' <= max).
Proof.
  revert trace p. induction fuel as [|fuel IH]; intros trace p Hp; cbn [turns].
  - split; [lia|done].
  - pose proof (turn_ok trace p Hp) as Ht. destruct (turn _ _ _ _ _ p) as [r|error|p'].
    + split; [done|]. intros r' [= <-]. eauto 6.
    + by split.
    + destruct Ht as [Hlt [e Hp']]. destruct (IH _ _ Hp') as [Hterm Hres].
      rewrite length_app in *. cbn in *. split; [intros; apply Hterm; lia|].
      intros r Hr. destruct (Hres r Hr) as (trace' & q & ? & ? & Hb).
      exists trace', q. split; [done|]. split; [done|]. intros _. apply Hb. lia.
Qed.
End Runs.

(** ** Whole runs *)

Lemma start_progress lookup invoke operations ingredients m :
  admit_all ingredients [] = Ok m ->
  progress_ok lookup invoke operations ingredients []
    {| rp_facts := m; rp_receipts := []; rp_completed := []; rp_calls := [] |}.
Proof.
  intros Ha. destruct (admit_all_spec _ _ _ facts_ok_nil Ha) as (Hok & Hin & _).
  split; cbn; try done; try constructor.
  intros f Hf. unfold observed_before. cbn. rewrite app_nil_r.
  destruct (Hin f Hf) as [?|H]; [done|]. by apply not_elem_of_nil in H.
Qed.

Lemma execute_spec `{Collation} options lookup invoke aborted fuel :
  match executeObservedProgram options lookup invoke aborted fuel with
  | None => fuel <= default 1024 (op_maxInvocations options)
  | Some (Throw _) => True
  | Some (Ok r) => exists operations trace p,
      (forall o, o ∈ operations ->
         o ∈ op_operations options /\ operation_ok o /\ admitted (op_allowEffects options) o = true) /\
      progress_ok lookup invoke operations (op_ingredients options) trace p /\
      stopped options operations p r /\ length trace <= default 1024 (op_maxInvocations options)
  end.
Proof.
  unfold executeObservedProgram.
  destruct (compileObservationOperations (op_operations options)) as [compiled|] eqn:Ec; cbn; [|done].
  destruct (admit_all (op_ingredients options) []) as [m|] eqn:Ea; cbn; [|done].
  apply compile_spec in Ec as (Hperm & Hn & Hall).
  set (operations := List.filter (admitted (op_allowEffects options)) compiled).
  assert (NoDup (sv_id <$> operations)) as Hn'.
  { clear -Hn. subst operations. induction compiled as [|o compiled IH]; cbn in *; [done|].
    apply NoDup_cons in Hn as [Ho Hn]. destruct (admitted _ o); cbn; [|auto].
    apply NoDup_cons. split; [|auto]. intros (o' & E & Hin)%list_elem_of_fmap. apply Ho. rewrite E.
    apply list_elem_of_fmap_2. apply list_elem_of_In in Hin. apply List.filter_In in Hin as [? _].
    by apply list_elem_of_In. }
  pose proof (start_progress lookup invoke operations (op_ingredients options) m Ea) as Hstart.
  destruct (turns_ok options lookup invoke aborted operations (op_ingredients options) Hn' fuel [] _ Hstart)
    as [Hterm Hres]. cbn in Hterm.
  destruct (turns _ _ _ _ _ _ _) as [[r|error]|] eqn:Et; [|done|].
  - destruct (Hres r eq_refl) as (trace & p & Hp & Hst & Hb). exists operations, trace, p.
    split; [|split; [done|split; [done|apply Hb; cbn; lia]]].
    intros o Ho. subst operations. apply list_elem_of_In in Ho. apply List.filter_In in Ho as [Ho Had].
    apply list_elem_of_In in Ho. split; [by rewrite <- Hperm|]. split; [|done].
    rewrite Forall_forall in Hall. by apply Hall.
  - destruct (decide (fuel <= default 1024 (op_maxInvocations options))); [done|].
    exfalso. by apply Hterm; [lia|lia|].
Qed.

(** C17: a run observes, it never assumes.  Whatever the port answers: every fact of
    the result is ground, portable and was either an ingredient or published by a
    receipt; every receipt is that of one invocation of an operation that is
    available, no stream and no view, and an effect only where the policy allows
    effects; the inputs of the invocation had been observed before it and match what
    the operation requires, with exactly one fact for each member of each sealed
    collection, the members being those the collection's value lists; a receipt that
    says succeeded publishes only what its operation produces, and one that says
    failed only what it produces on failure, instantiated as the invocation binds
    them; no invocation runs twice, and the port is asked to run one only after its
    lookup found no receipt for it. *)
Theorem observed_runs_are_justified `{Collation} (options : RunOptions)
    (lookup : list PortCall -> SolverInvocation -> result (option SolverReceipt))
    (invoke : list PortCall -> SolverInvocation -> result SolverReceipt)
    (aborted : list PortCall -> bool) (fuel : nat) (r : ObservationRunResult)
    (Hrun : executeObservedProgram options lookup invoke aborted fuel = Some (Ok r)) :
  exists trace calls,
    or_receipts r = en_receipt <$> trace /\
    NoDup ((fun e => iv_id (en_invocation e)) <$> trace) /\ calls_of lookup invoke trace calls /\
    (forall k e, trace !! k = Some e ->
       entry_ok (op_operations options) (observed_before (op_ingredients options) trace k) e /\
       may_run (op_allowEffects options) (en_operation e) /\ operation_ok (en_operation e)) /\
    (forall f, f ∈ or_facts r ->
       fact_ok f /\ f ∈ observed_before (op_ingredients options) trace (length trace)) /\
    NoDup (sf_id <$> or_facts r).
Proof.
  pose proof (execute_spec options lookup invoke aborted fuel) as Hs. rewrite Hrun in Hs.
  destruct Hs as (operations & trace & p & Hops & [Hf Hsrc Hr Hc Hn He Hcalls] & (Ef & Er & _) & _).
  exists trace, (rp_calls p). split; [congruence|]. split; [done|]. split; [done|]. split; [|split].
  - intros k e Hk. destruct (He k e Hk) as [Ho ? ? ?]. destruct (Hops _ Ho) as (? & ? & ?).
    split; [by split|]. split; [by apply admitted_may_run|done].
  - rewrite Ef. intros f Hff. split; [by eapply facts_elem|by apply Hsrc].
  - rewrite Ef. by apply facts_ids.
Qed.

(** a run stops, and says why.  With more turns than invocations allowed it
    always ends, with a result or an error.  A complete or partial result
    satisfies the goals and one without a route does not; and unless the run was
    to stop at its goals, each of these means that every invocation the final
    facts justify has its receipt among those returned, a partial one after some
    failure and a complete one after none. *)
Theorem observed_runs_stop_for_a_reason `{Collation} (options : RunOptions)
    (lookup : list PortCall -> SolverInvocation -> result (option SolverReceipt))
    (invoke : list PortCall -> SolverInvocation -> result SolverReceipt)
    (aborted : list PortCall -> bool) (fuel : nat)
    (Hfuel : default 1024 (op_maxInvocations options) < fuel) :
  match executeObservedProgram options lookup invoke aborted fuel with
  | None => False
  | Some (Throw _) => True
  | Some (Ok r) =>
      length (or_receipts r) <= default 1024 (op_maxInvocations options) /\
      let saturated := exists operations frontier,
        (forall o, o ∈ operations -> o ∈ op_operations options) /\
        solveObservedFrontier (op_runId options) (or_facts r) operations
          (default 100000 (op_maxSearchAttempts options)) = Some (Ok frontier) /\
        forall i, i ∈ frontier -> iv_id i ∈ rc_invocationId <$> or_receipts r in
      match or_state r with
      | Complete => or_goalsSatisfied r = true /\
          (op_goalOnly options = true \/
           saturated /\ forall rc, rc ∈ or_receipts r -> rc_state rc <> ReceiptFailed)
      | Partial => or_goalsSatisfied r = true /\ saturated /\
          exists rc, rc ∈ or_receipts r /\ rc_state rc = ReceiptFailed
      | NoRoute => or_goalsSatisfied r = false /\ saturated
      | Limit | RunCancelled => True
      end
  end.
Proof.
  pose proof (execute_spec options lookup invoke aborted fuel) as Hs.
  destruct (executeObservedProgram _ _ _ _ fuel) as [[r|error]|]; [|done|lia].
  destruct Hs as (operations & trace & p & Hops & Hp & (Ef & Er & _ & Hst) & Hb).
  split; [by rewrite Er, (po_receipts _ _ _ _ _ _ Hp), length_fmap|]. cbv zeta.
  assert (rp_completed p = rev (rc_invocationId <$> or_receipts r)) as Ec.
  { rewrite (po_completed _ _ _ _ _ _ Hp), Er, (po_receipts _ _ _ _ _ _ Hp), <- list_fmap_compose.
    f_equal. apply list_fmap_ext. intros k e Hk.
    symmetry. exact (ek_invocation _ _ _ (po_entries _ _ _ _ _ _ Hp k e Hk)). }
  assert (exhausted options operations p -> exists operations frontier,
    (forall o, o ∈ operations -> o ∈ op_operations options) /\
    solveObservedFrontier (op_runId options) (or_facts r) operations
      (default 100000 (op_maxSearchAttempts options)) = Some (Ok frontier) /\
    forall i, i ∈ frontier -> iv_id i ∈ rc_invocationId <$> or_receipts r) as Hex.
  { intros (frontier & Hfr & Hall). exists operations, frontier.
    split; [intros o Ho; by apply Hops|]. split; [by rewrite Ef|]. intros i Hi.
    specialize (Hall i Hi). rewrite Ec in Hall.
    by rewrite list_elem_of_In, <- in_rev, <- list_elem_of_In in Hall. }
  rewrite Er in *. destruct (or_state r); [|naive_solver|naive_solver|done|done].
  destruct Hst as [? [?|[? ?]]]; auto.
Qed.

(** ** Identities *)

Lemma standard_digest_bytes message :
  length (Standard.digest message) = 32 /\ Forall byte (Standard.digest message).
Proof.
  unfold Standard.digest. set (padded := Standard.pad message).
  assert (forall ks h, length h = 8 -> length (fold_left (Standard.block padded) ks h) = 8) as Hlen.
  { induction ks as [|k ks IH]; intros h Hh; cbn [fold_left]; [done|]. apply IH.
    unfold Standard.block. rewrite length_zip_with, Hh. done. }
  specialize (Hlen (seq 0 (length padded / 64)) INIT eq_refl).
  set (h := fold_left _ _ _) in *. clearbody h. split.
  - do 9 (destruct h as [|? h]; [discriminate Hlen || reflexivity|]). discriminate Hlen.
  - clear Hlen. induction h as [|x h IH]; cbn [List.flat_map]; [constructor|]. apply Forall_app.
    split; [apply word_bytes_ok|done].
Qed.

(** A lower-case hexadecimal digit. *)
Definition is_hex (c : ascii) : bool := existsb (fun n => Ascii.eqb c (hex_digit n)) (seq 0 16).

Lemma hex_digit_is_hex n : n < 16 -> is_hex (hex_digit n) = true.
Proof. intros H. do 16 (destruct n as [|n]; [reflexivity|]). lia. Qed.

Definition variant_digit (c : ascii) : bool := existsb (Ascii.eqb c) ["8"; "9"; "a"; "b"]%char.

(** A version 8 UUID of the variant of RFC 9562. *)
Definition uuid8 (s : string) : bool :=
  Nat.eqb (String.length s) 36 &&
  forallb (fun k => match String.get k s with
    | Some c =>
        if Nat.eqb k 8 || Nat.eqb k 13 || Nat.eqb k 18 || Nat.eqb k 23 then Ascii.eqb c "-"
        else if Nat.eqb k 14 then Ascii.eqb c "8"
        else if Nat.eqb k 19 then variant_digit c
        else is_hex c
    | None => false
    end) (seq 0 36).

(** What holds of each byte holds by inspection. *)
Lemma every_byte (P : Z -> bool) b :
  forallb P (Z.of_nat <$> seq 0 256) = true -> byte b -> P b = true.
Proof.
  rewrite forallb_forall. intros H Hb. apply H. apply list_elem_of_In, list_elem_of_fmap.
  exists (Z.to_nat b). unfold byte in Hb. split; [lia|]. apply list_elem_of_In, in_seq. lia.
Qed.

Definition hex_pair (first : ascii -> bool) (s : string) : bool :=
  match s with String a (String b "") => first a && is_hex b | _ => false end.

Lemma hex_pair_inv first s :
  hex_pair first s = true -> exists a b, s = String a (String b "") /\ first a = true /\ is_hex b = true.
Proof. destruct s as [|a [|b [|? ?]]]; cbn; try done. intros [? ?]%andb_prop. eauto. Qed.

Lemma hex_byte_pair b : byte b -> hex_pair is_hex (hex_byte b) = true.
Proof. apply (every_byte (fun b => hex_pair is_hex (hex_byte b))). vm_compute. reflexivity. Qed.

Lemma version_pair b : byte b -> hex_pair (Ascii.eqb "8") (hex_byte (stamp 0x0f b)) = true.
Proof. apply (every_byte (fun b => hex_pair _ (hex_byte (stamp 0x0f b)))). vm_compute. reflexivity. Qed.

Lemma variant_pair b : byte b -> hex_pair variant_digit (hex_byte (stamp 0x3f b)) = true.
Proof. apply (every_byte (fun b => hex_pair _ (hex_byte (stamp 0x3f b)))). vm_compute. reflexivity. Qed.

Ltac pair_of H := apply hex_pair_inv in H as (? & ? & -> & ? & ?).

(** the identity of a bound invocation, whatever the run, the operation and the
    facts, has the shape of a version 8 UUID: 36 characters, dashes in their four
    places, the version and the variant digits, and lower-case hexadecimal digits
    everywhere else. *)
Theorem solverIdentity_is_a_uuid (seed : string) : uuid8 (solverIdentity seed) = true.
Proof.
  unfold solverIdentity. destruct (standard_digest_bytes (utf8 seed)) as [Hl Hb].
  set (d := Standard.digest _) in *. clearbody d.
  do 16 (destruct d as [|? d]; [discriminate Hl|]). clear Hl.
  cbn [take alter list_alter fmap list_fmap].
  do 6 (apply Forall_cons in Hb as [?%hex_byte_pair Hb]).
  apply Forall_cons in Hb as [?%version_pair Hb]. apply Forall_cons in Hb as [?%hex_byte_pair Hb].
  apply Forall_cons in Hb as [?%variant_pair Hb].
  do 7 (apply Forall_cons in Hb as [?%hex_byte_pair Hb]). clear Hb.
  repeat match goal with H : hex_pair _ _ = true |- _ => pair_of H end.
  repeat match goal with H : Ascii.eqb _ _ = true |- _ => apply Ascii.eqb_eq in H as <- end.
  unfold uuid8, js_slice_from, js_slice, variant_digit in *. cbn -[is_hex existsb].
  repeat (apply andb_true_intro; split); done.
Qed.

(** ** A concrete run *)

Module Pages.

Definition plain (predicate id : string) : SolverFact :=
  {| sf_id := id; sf_predicate := predicate; sf_value := Ok JNull |}.

(** The pages of a document, and one scan of each. *)
Definition pages : SolverFact :=
  {| sf_id := "f1"; sf_predicate := "pages(doc)";
     sf_value := Ok (JObject [("members", JArray [JString "p1"])]) |}.
Definition ingredients : list SolverFact := [pages; plain "scan(p1)" "f2"].

(** Every scan is read, and a document is joined when all its pages were. *)
Definition read : SolverOperation :=
  {| sv_capability := sample_capability "read" ["scan(P)"] ["text(P)"] 1;
     sv_gathers := None; sv_failureProduces := Some ["unreadable(P)"] |}.
Definition join : SolverOperation :=
  {| sv_capability := sample_capability "join" ["pages(D)"] ["joined(D)"] 2;
     sv_gathers := Some [{| gt_name := "texts"; gt_collection := 0; gt_member := "M"; gt_predicate := "text(M)" |}];
     sv_failureProduces := None |}.

Definition options : RunOptions :=
  {| op_runId := "run-1"; op_operations := [join; read]; op_ingredients := ingredients;
     op_goals := ["joined(doc)"]; op_goalOnly := false; op_maxInvocations := Some 4;
     op_maxSearchAttempts := Some 50; op_allowEffects := false |}.

(** The port has a receipt for the page already, and runs the rest. *)
Definition receipt (i : SolverInvocation) (facts : list SolverFact) : SolverReceipt :=
  {| rc_invocationId := iv_id i; rc_operation := iv_operation i; rc_state := ReceiptSucceeded;
     rc_facts := facts; rc_error := None |}.
Definition done_by (i : SolverInvocation) : SolverReceipt :=
  receipt i (match iv_inputs i with
             | [f] => if bool_decide (sf_id f = "f1") then [plain "joined(doc)" "f4"]
                      else [plain "text(p1)" "f3"]
             | _ => []
             end).
Definition lookup (calls : list PortCall) (i : SolverInvocation) : result (option SolverReceipt) :=
  Ok (if bool_decide (sf_id <$> iv_inputs i = ["f2"]) then Some (done_by i) else None).
Definition invoke (calls : list PortCall) (i : SolverInvocation) : result SolverReceipt := Ok (done_by i).
Definition never (calls : list PortCall) : bool := false.

Definition summary : ObservationRunResult :=
  Eval vm_compute in
    match @executeObservedProgram bytes_collation options lookup invoke never 5 with
    | Some (Ok r) => r
    | _ => {| or_state := Limit; or_facts := []; or_receipts := []; or_goalsSatisfied := false |}
    end.

Example summary_complete :
  or_state summary = Complete /\ (sf_id <$> or_facts summary) = ["f1"; "f2"; "f3"; "f4"] /\
  (rc_operation <$> or_receipts summary) = ["read"; "join"] /\ or_goalsSatisfied summary = true.
Proof. repeat split; reflexivity. Qed.

End Pages.

Lemma observed_runs_are_justified_witness :
  exists trace, or_receipts Pages.summary = en_receipt <$> trace /\ length trace = 2.
Proof.
  assert (@executeObservedProgram bytes_collation Pages.options Pages.lookup Pages.invoke Pages.never 5 =
    Some (Ok Pages.summary)) as Hrun by vm_cast_no_check (eq_refl (Some (Ok Pages.summary))).
  destruct (@observed_runs_are_justified bytes_collation Pages.options Pages.lookup Pages.invoke Pages.never 5
    Pages.summary Hrun) as (trace & calls & Hr & _).
  exists trace. split; [exact Hr|].
  rewrite <- (length_fmap en_receipt), <- Hr. vm_compute. reflexivity.
Defined.

Lemma observed_runs_stop_for_a_reason_witness :
  4 < 5 /\
  @executeObservedProgram bytes_collation Pages.options Pages.lookup Pages.invoke Pages.never 5 <> None.
Proof.
  split; [lia|]. intros E.
  pose proof (@observed_runs_stop_for_a_reason bytes_collation Pages.options Pages.lookup Pages.invoke
    Pages.never 5 ltac:(cbn; lia)) as H.
  rewrite E in H. exact H.
Defined.
