(* ===== verification/Directory.v ===== *)
(** * The customer directory

    The tables of [services/aven-api/migrations], which three programs share:
    the customer API ([services/aven-api/src/customers]), the provisioning
    workers and the movement controllers ([services/platform-provisioner/src]).
    A transaction is a function on the directory that may throw; a thrown error
    is the [ROLLBACK] of the source.  Transactions are serial in the model; row
    and advisory locks that outlive one are part of the state or arguments.
    Timestamps other than leases and creation order are left out. *)

From S2P Require Import Prelude Contracts.

Open Scope stdpp_scope.
Open Scope js_scope.
Local Open Scope Z_scope.

(** ** Columns *)

Inductive MovementPhase :=
| Paused | Fenced | Copied | Verified | Returning | Activated | Completed | Cancelled | Superseded.
Inductive MovementMode := Move | Rollback.
Inductive DesiredState := DesiredReady | DesiredSuspended.
Inductive ObservedState := Pending | Reconciling | Ready | Suspended | Failed | Unknown.
Inductive OperationStatus := Queued | Running | Succeeded | StatusFailed | StatusUnknown.
Inductive OperationAction := Reconcile | Suspend.
Inductive MembershipRole := Owner | Admin | Member.
Inductive EntitlementType := PurchaseGranted | PurchaseRevoked.

#[export] Instance MovementPhase_eq_dec : EqDecision MovementPhase.
Proof. solve_decision. Defined.
#[export] Instance MovementMode_eq_dec : EqDecision MovementMode.
Proof. solve_decision. Defined.
#[export] Instance DesiredState_eq_dec : EqDecision DesiredState.
Proof. solve_decision. Defined.
#[export] Instance ObservedState_eq_dec : EqDecision ObservedState.
Proof. solve_decision. Defined.
#[export] Instance OperationStatus_eq_dec : EqDecision OperationStatus.
Proof. solve_decision. Defined.
#[export] Instance OperationAction_eq_dec : EqDecision OperationAction.
Proof. solve_decision. Defined.
#[export] Instance MembershipRole_eq_dec : EqDecision MembershipRole.
Proof. solve_decision. Defined.
#[export] Instance EntitlementType_eq_dec : EqDecision EntitlementType.
Proof. solve_decision. Defined.

(** A [jsonb] object. *)
Abbreviation evidence := (gmap string json).

(** [left || right] on [jsonb] objects, and [{ ...left, ...right }]. *)
Definition jsonb_concat (left right : evidence) : evidence := right ∪ left.

Record CatalogComponent := {
  cat_componentRef : string;
  cat_targetSchemaVersion : Z;
  cat_migrationSetDigest : string
}.
#[export] Instance CatalogComponent_eq_dec : EqDecision CatalogComponent.
Proof. solve_decision. Defined.

(** ** Rows *)

(** [customer_runtimes]. *)
Record Runtime := {
  rt_release_sha : option string;
  rt_component_catalog : option (list CatalogComponent);
  rt_retired : bool
}.

(** [customer_environments]. *)
Record Environment := {
  en_purchased_name : string;
  en_owner_subject_id : string;
  en_database_name : string;
  en_desired_state : DesiredState;
  en_observed_state : ObservedState;
  en_routing_generation : Z;
  en_runtime_id : string;
  en_movement_id : option string;
  en_last_error : option string;
  en_created_at : Z
}.

(** [customer_environment_components], keyed by environment and component. *)
Record Component := {
  cc_desired_state : DesiredState;
  cc_observed_state : ObservedState;
  cc_target_schema_version : Z;
  cc_observed_schema_version : option Z;
  cc_migration_set_digest : string;
  cc_observed_migration_set_digest : option string;
  cc_routing_generation : Z;
  cc_last_operation_id : option string;
  cc_last_error : option string
}.

(** [customer_component_operations]. *)
Record OperationRow := {
  op_environment_id : string;
  op_component_ref : string;
  op_action : OperationAction;
  op_status : OperationStatus;
  op_target_schema_version : Z;
  op_migration_set_digest : string;
  op_routing_generation : Z;
  op_attempt : Z;
  op_lease_owner : option string;
  op_lease_expires_at : option Z;
  op_last_error : option string;
  op_created_at : Z
}.

(** [customer_movements]. *)
Record Movement := {
  mv_environment_id : string;
  mv_source_runtime_id : string;
  mv_destination_runtime_id : string;
  mv_source_generation : Z;
  mv_destination_generation : Z;
  mv_phase : MovementPhase;
  mv_mode : MovementMode;
  mv_rollback_of : option string;
  mv_accept_divergence : bool;
  mv_evidence : evidence;
  mv_last_error : option string
}.

(** [customer_entitlement_events]; [occurredAt] in milliseconds. *)
Record EntitlementRow := {
  ev_event_type : EntitlementType;
  ev_subject_id : string;
  ev_purchased_name : string;
  ev_occurred_at : Z
}.
#[export] Instance EntitlementRow_eq_dec : EqDecision EntitlementRow.
Proof. solve_decision. Defined.

(** The tables, and the session advisory locks [movement:<id>] that are held,
    with the session that holds each. *)
Record Directory := {
  runtimes : gmap string Runtime;
  default_runtime : string;
  environments : gmap string Environment;
  memberships : gmap (string * string) MembershipRole;
  components : gmap (string * string) Component;
  operations : gmap string OperationRow;
  movements : gmap string Movement;
  events : gmap string EntitlementRow;
  controllers : gmap string nat
}.

Definition set_runtimes x (d : Directory) : Directory :=
  {| runtimes := x; default_runtime := default_runtime d; environments := environments d;
     memberships := memberships d; components := components d; operations := operations d;
     movements := movements d; events := events d; controllers := controllers d |}.
Definition set_default_runtime x (d : Directory) : Directory :=
  {| runtimes := runtimes d; default_runtime := x; environments := environments d;
     memberships := memberships d; components := components d; operations := operations d;
     movements := movements d; events := events d; controllers := controllers d |}.
Definition set_environments x (d : Directory) : Directory :=
  {| runtimes := runtimes d; default_runtime := default_runtime d; environments := x;
     memberships := memberships d; components := components d; operations := operations d;
     movements := movements d; events := events d; controllers := controllers d |}.
Definition set_memberships x (d : Directory) : Directory :=
  {| runtimes := runtimes d; default_runtime := default_runtime d; environments := environments d;
     memberships := x; components := components d; operations := operations d;
     movements := movements d; events := events d; controllers := controllers d |}.
Definition set_components x (d : Directory) : Directory :=
  {| runtimes := runtimes d; default_runtime := default_runtime d; environments := environments d;
     memberships := memberships d; components := x; operations := operations d;
     movements := movements d; events := events d; controllers := controllers d |}.
Definition set_operations x (d : Directory) : Directory :=
  {| runtimes := runtimes d; default_runtime := default_runtime d; environments := environments d;
     memberships := memberships d; components := components d; operations := x;
     movements := movements d; events := events d; controllers := controllers d |}.
Definition set_movements x (d : Directory) : Directory :=
  {| runtimes := runtimes d; default_runtime := default_runtime d; environments := environments d;
     memberships := memberships d; components := components d; operations := operations d;
     movements := x; events := events d; controllers := controllers d |}.
Definition set_events x (d : Directory) : Directory :=
  {| runtimes := runtimes d; default_runtime := default_runtime d; environments := environments d;
     memberships := memberships d; components := components d; operations := operations d;
     movements := movements d; events := x; controllers := controllers d |}.
Definition set_controllers x (d : Directory) : Directory :=
  {| runtimes := runtimes d; default_runtime := default_runtime d; environments := environments d;
     memberships := memberships d; components := components d; operations := operations d;
     movements := movements d; events := events d; controllers := x |}.

(** The directory after the migrations: one runtime, [primary], the default. *)
Definition initial_directory : Directory :=
  {| runtimes := {["primary" := {| rt_release_sha := None; rt_component_catalog := None;
                                   rt_retired := false |}]};
     default_runtime := "primary"; environments := ∅; memberships := ∅; components := ∅;
     operations := ∅; movements := ∅; events := ∅; controllers := ∅ |}.

(** ** Assignments to one environment *)

(** The state columns: [desired_state], [observed_state], [last_error]. *)
Definition env_observed (o : ObservedState) (e : Environment) : Environment :=
  {| en_purchased_name := en_purchased_name e; en_owner_subject_id := en_owner_subject_id e;
     en_database_name := en_database_name e; en_desired_state := en_desired_state e;
     en_observed_state := o; en_routing_generation := en_routing_generation e;
     en_runtime_id := en_runtime_id e; en_movement_id := en_movement_id e;
     en_last_error := en_last_error e; en_created_at := en_created_at e |}.
Definition env_failed (message : string) (e : Environment) : Environment :=
  {| en_purchased_name := en_purchased_name e; en_owner_subject_id := en_owner_subject_id e;
     en_database_name := en_database_name e; en_desired_state := en_desired_state e;
     en_observed_state := Failed; en_routing_generation := en_routing_generation e;
     en_runtime_id := en_runtime_id e; en_movement_id := en_movement_id e;
     en_last_error := Some message; en_created_at := en_created_at e |}.
(** [SET movement_id=$2]. *)
Definition env_held (id : string) (e : Environment) : Environment :=
  {| en_purchased_name := en_purchased_name e; en_owner_subject_id := en_owner_subject_id e;
     en_database_name := en_database_name e; en_desired_state := en_desired_state e;
     en_observed_state := en_observed_state e; en_routing_generation := en_routing_generation e;
     en_runtime_id := en_runtime_id e; en_movement_id := Some id;
     en_last_error := en_last_error e; en_created_at := en_created_at e |}.
(** [SET runtime_id=$3,routing_generation=$4,movement_id=NULL,observed_state='ready']. *)
Definition env_placed (runtime : string) (generation : Z) (e : Environment) : Environment :=
  {| en_purchased_name := en_purchased_name e; en_owner_subject_id := en_owner_subject_id e;
     en_database_name := en_database_name e; en_desired_state := en_desired_state e;
     en_observed_state := Ready; en_routing_generation := generation;
     en_runtime_id := runtime; en_movement_id := None;
     en_last_error := en_last_error e; en_created_at := en_created_at e |}.
(** The [UPDATE] of an accepted entitlement. *)
Definition env_entitled (owner : string) (desired : DesiredState) (e : Environment) : Environment :=
  {| en_purchased_name := en_purchased_name e; en_owner_subject_id := owner;
     en_database_name := en_database_name e; en_desired_state := desired;
     en_observed_state := Pending;
     en_routing_generation := match en_movement_id e with
                              | None => en_routing_generation e + 1
                              | Some _ => en_routing_generation e
                              end;
     en_runtime_id := en_runtime_id e; en_movement_id := en_movement_id e;
     en_last_error := en_last_error e; en_created_at := en_created_at e |}.

Definition update_environment (id : string) (f : Environment -> Environment) (d : Directory) : Directory :=
  set_environments (alter f id (environments d)) d.

(** ** Assignments to one movement *)

(** [phase=$3, evidence=evidence || $4]. *)
Definition mv_moved (phase : MovementPhase) (more : evidence) (last_error : option string)
    (m : Movement) : Movement :=
  {| mv_environment_id := mv_environment_id m; mv_source_runtime_id := mv_source_runtime_id m;
     mv_destination_runtime_id := mv_destination_runtime_id m;
     mv_source_generation := mv_source_generation m;
     mv_destination_generation := mv_destination_generation m; mv_phase := phase;
     mv_mode := mv_mode m; mv_rollback_of := mv_rollback_of m;
     mv_accept_divergence := mv_accept_divergence m;
     mv_evidence := jsonb_concat (mv_evidence m) more; mv_last_error := last_error |}.

Definition update_movement (id : string) (f : Movement -> Movement) (d : Directory) : Directory :=
  set_movements (alter f id (movements d)) d.

(** A phase in which the environment is held. *)
Definition holding (p : MovementPhase) : bool :=
  match p with Paused | Fenced | Copied | Verified | Returning => true | _ => false end.

(** The predicate of the unique index [customer_movement_active_idx]. *)
Definition open_phase (p : MovementPhase) : bool :=
  match p with Completed | Cancelled | Superseded => false | _ => true end.

(** The [CHECK]s of one movement row. *)
Definition movement_check (m : Movement) : bool :=
  (0 <? mv_source_generation m) && (mv_source_generation m <? mv_destination_generation m) &&
  bool_decide (mv_source_runtime_id m <> mv_destination_runtime_id m) &&
  match mv_mode m, mv_rollback_of m, mv_accept_divergence m with
  | Move, None, false => true
  | Rollback, Some _, true => true
  | _, _, _ => false
  end.

(** [INSERT INTO customer_movements]: primary key, checks, foreign keys, and the unique index. *)
Definition insert_movement (id : string) (m : Movement) (d : Directory) : result Directory :=
  throw! bool_decide (is_Some (movements d !! id)) as
    "duplicate key value violates unique constraint customer_movements_pkey";
  throw! negb (movement_check m) as "new row for relation customer_movements violates check constraint";
  throw! bool_decide (environments d !! mv_environment_id m = None) ||
         bool_decide (runtimes d !! mv_source_runtime_id m = None) ||
         bool_decide (runtimes d !! mv_destination_runtime_id m = None) ||
         match mv_rollback_of m with
         | Some other => bool_decide (movements d !! other = None)
         | None => false
         end as "insert on table customer_movements violates foreign key constraint";
  throw! existsb (fun row => bool_decide (mv_environment_id row.2 = mv_environment_id m) &&
                             open_phase (mv_phase row.2)) (map_to_list (movements d)) &&
         open_phase (mv_phase m) as
    "duplicate key value violates unique constraint customer_movement_active_idx";
  Ok (set_movements (<[id := m]> (movements d)) d).

(** ** Assignments to one operation and one component *)

Definition op_update (status : OperationStatus) (attempt : Z) (owner : option string)
    (expires : option Z) (last_error : option string) (o : OperationRow) : OperationRow :=
  {| op_environment_id := op_environment_id o; op_component_ref := op_component_ref o;
     op_action := op_action o; op_status := status;
     op_target_schema_version := op_target_schema_version o;
     op_migration_set_digest := op_migration_set_digest o;
     op_routing_generation := op_routing_generation o; op_attempt := attempt;
     op_lease_owner := owner; op_lease_expires_at := expires; op_last_error := last_error;
     op_created_at := op_created_at o |}.

Definition cc_observed (o : ObservedState) (c : Component) : Component :=
  {| cc_desired_state := cc_desired_state c; cc_observed_state := o;
     cc_target_schema_version := cc_target_schema_version c;
     cc_observed_schema_version := cc_observed_schema_version c;
     cc_migration_set_digest := cc_migration_set_digest c;
     cc_observed_migration_set_digest := cc_observed_migration_set_digest c;
     cc_routing_generation := cc_routing_generation c;
     cc_last_operation_id := cc_last_operation_id c; cc_last_error := cc_last_error c |}.

(** The unique key of an operation. *)
Definition op_key (o : OperationRow) :=
  (op_environment_id o, op_component_ref o, op_action o, op_routing_generation o,
   op_target_schema_version o, op_migration_set_digest o).

(** The operation that has a key, if one has. *)
Definition find_operation (d : Directory) (o : OperationRow) : option (string * OperationRow) :=
  js_find (fun row => bool_decide (op_key row.2 = op_key o)) (map_to_list (operations d)).

(** ** Regular expressions *)

Definition is_lower (c : ascii) : bool :=
  let n := nat_of_ascii c in Nat.leb 97 n && Nat.leb n 122.
Definition is_digit (c : ascii) : bool :=
  let n := nat_of_ascii c in Nat.leb 48 n && Nat.leb n 57.
Definition is_dash (c : ascii) : bool := Nat.eqb (nat_of_ascii c) 45.

(** [/^[a-f0-9]{length}$/]. *)
Definition is_hex (length : nat) (s : string) : bool :=
  Nat.eqb (String.length s) length &&
  string_forall (fun c => is_digit c || (Nat.leb 97 (nat_of_ascii c) && Nat.leb (nat_of_ascii c) 102)) s.

(** [/^[a-z][a-z0-9-]{0,62}$/]. *)
Definition is_runtime_id (s : string) : bool :=
  match s with
  | EmptyString => false
  | String c rest =>
      is_lower c && Nat.leb (String.length rest) 62 &&
      string_forall (fun c => is_lower c || is_digit c || is_dash c) rest
  end.

(** [/^[a-z0-9][a-z0-9-]{0,62}$/]. *)
Definition is_purchased_name (s : string) : bool :=
  match s with
  | EmptyString => false
  | String c rest =>
      (is_lower c || is_digit c) && Nat.leb (String.length rest) 62 &&
      string_forall (fun c => is_lower c || is_digit c || is_dash c) rest
  end.

(** ** Integers *)

Definition MAX_SAFE_INTEGER : Z := 9007199254740991.
Definition isSafeInteger (n : Z) : bool := (- MAX_SAFE_INTEGER <=? n) && (n <=? MAX_SAFE_INTEGER).
(** The range of an [integer] column. *)
Definition is_int4 (n : Z) : bool := (-2147483648 <=? n) && (n <=? 2147483647).
(** The range of a [bigint] column. *)
Definition is_int8 (n : Z) : bool := (-9223372036854775808 <=? n) && (n <=? 9223372036854775807).

(** ** Programs of several transactions *)

(** A program that talks to the directory: what it leaves there, and its result. *)
Definition Program (A : Type) : Type := Directory -> Directory * result A.

#[export] Instance program_ret : MRet Program := fun A a d => (d, Ok a).
#[export] Instance program_bind : MBind Program := fun A B k m d =>
  match m d with
  | (d, Ok a) => k a d
  | (d, Throw message) => (d, Throw message)
  end.

Definition throws {A} (message : string) : Program A := fun d => (d, Throw message).

(** [BEGIN] ... [COMMIT], with [ROLLBACK] when the body throws. *)
Definition transaction {A} (body : Directory -> result (Directory * A)) : Program A := fun d =>
  match body d with
  | Ok (d', a) => (d', Ok a)
  | Throw message => (d, Throw message)
  end.
