(* ===== verification/Movement.v ===== *)
(** * Customer movement

    [services/platform-provisioner/src/movement.ts]: the [CustomerMovementStore]
    that moves a customer environment from one runtime to another, and
    [resumeMovement], the controller loop that drives one movement. *)

From S2P Require Import Prelude Contracts Directory.

Open Scope stdpp_scope.
Open Scope js_scope.
Local Open Scope Z_scope.

(** ** Runtimes *)

(** [registerRuntime]: the [ON CONFLICT ... WHERE] leaves a row of another release alone. *)
Definition registerRuntime (id releaseSha : string) (d : Directory) : result Directory :=
  throw! negb (is_runtime_id id) || negb (is_hex 40 releaseSha) as "runtime identity is invalid";
  match runtimes d !! id with
  | None => Ok (set_runtimes (<[id := {| rt_release_sha := Some releaseSha;
                                         rt_component_catalog := None; rt_retired := false |}]>
                              (runtimes d)) d)
  | Some row =>
      throw! negb (bool_decide (rt_release_sha row = None) ||
                   bool_decide (rt_release_sha row = Some releaseSha)) as
        "runtime ID is already bound to another release";
      Ok (set_runtimes (<[id := {| rt_release_sha := Some releaseSha;
                                   rt_component_catalog := rt_component_catalog row;
                                   rt_retired := rt_retired row |}]> (runtimes d)) d)
  end.

Section Catalog.
Context `{Collation}.

Definition catalog_valid (catalog : list CatalogComponent) : bool :=
  negb (bool_decide (catalog = [])) &&
  Nat.eqb (length (dedup (cat_componentRef <$> catalog))) (length catalog) &&
  forallb (fun c => negb (bool_decide (cat_componentRef c = "")) &&
                    isSafeInteger (cat_targetSchemaVersion c) &&
                    (1 <=? cat_targetSchemaVersion c) &&
                    is_hex 64 (cat_migrationSetDigest c)) catalog.

(** The catalog as it is stored: sorted by component. *)
Definition canonical (catalog : list CatalogComponent) : list CatalogComponent :=
  js_sort (fun a b => localeCompare (cat_componentRef a) (cat_componentRef b)) catalog.

(** The row the [UPDATE] of [selectDefaultRuntime] matches. *)
Definition selectable (releaseSha : string) (catalog : list CatalogComponent) (row : Runtime) : bool :=
  bool_decide (rt_release_sha row = Some releaseSha) && negb (rt_retired row) &&
  (bool_decide (rt_component_catalog row = None) ||
   bool_decide (rt_component_catalog row = Some catalog)).

Definition selectDefaultRuntime (id releaseSha : string) (catalog : list CatalogComponent)
    (d : Directory) : result Directory :=
  throw! negb (catalog_valid catalog) as "runtime component catalog is invalid";
  match runtimes d !! id with
  | None => Throw "runtime release or immutable catalog does not match"
  | Some row =>
      throw! negb (selectable releaseSha (canonical catalog) row) as
        "runtime release or immutable catalog does not match";
      let row' := {| rt_release_sha := rt_release_sha row;
                     rt_component_catalog := Some (canonical catalog);
                     rt_retired := rt_retired row |} in
      Ok (set_default_runtime id (set_runtimes (<[id := row']> (runtimes d)) d))
  end.
End Catalog.

(** ** [begin] *)

Record BeginInput := {
  bi_id : option string;
  bi_environmentId : string;
  bi_sourceRuntimeId : string;
  bi_destinationRuntimeId : string;
  bi_expectedGeneration : Z;
  bi_rollbackOf : option string;
  bi_acceptDivergence : option bool
}.

Definition acceptsDivergence (input : BeginInput) : bool :=
  default false (bi_acceptDivergence input).

(** A movement found under the identifier was begun with the same input. *)
Definition same_input (prior : Movement) (input : BeginInput) : bool :=
  bool_decide (mv_environment_id prior = bi_environmentId input) &&
  bool_decide (mv_source_runtime_id prior = bi_sourceRuntimeId input) &&
  bool_decide (mv_destination_runtime_id prior = bi_destinationRuntimeId input) &&
  (mv_source_generation prior =? bi_expectedGeneration input) &&
  bool_decide (mv_rollback_of prior = bi_rollbackOf input) &&
  Bool.eqb (mv_accept_divergence prior) (acceptsDivergence input).

Definition placement_ready (environment : Environment) (input : BeginInput) : bool :=
  bool_decide (en_runtime_id environment = bi_sourceRuntimeId input) &&
  (en_routing_generation environment =? bi_expectedGeneration input) &&
  bool_decide (en_movement_id environment = None) &&
  bool_decide (en_desired_state environment = DesiredReady) &&
  bool_decide (en_observed_state environment = Ready).

(** The runtimes among [ids] that are bound to a release and not retired. *)
Definition bound_runtimes (ids : list string) (d : Directory) : gmap string Runtime :=
  base.filter (fun row => row.1 ∈ ids /\ rt_release_sha row.2 <> None /\ rt_retired row.2 = false)
    (runtimes d).

(** An operation of the environment has status [running]. *)
Definition provisioning_running (environmentId : string) (d : Directory) : bool :=
  existsb (fun row => bool_decide (op_environment_id row.2 = environmentId) &&
                      bool_decide (op_status row.2 = Running)) (map_to_list (operations d)).

Definition retained_phase (p : MovementPhase) : bool :=
  match p with Activated | Completed => true | _ => false end.

(** The retained movement a rollback names undoes the requested one. *)
Definition rolls_back (retained : Movement) (input : BeginInput) : bool :=
  acceptsDivergence input && retained_phase (mv_phase retained) &&
  bool_decide (mv_environment_id retained = bi_environmentId input) &&
  bool_decide (mv_source_runtime_id retained = bi_destinationRuntimeId input) &&
  bool_decide (mv_destination_runtime_id retained = bi_sourceRuntimeId input).

(** The rollback branch: an activated movement is superseded, unless its controller runs. *)
Definition supersede (input : BeginInput) (d : Directory) : result Directory :=
  match truthy (bi_rollbackOf input) with
  | Some rollbackOf =>
      match movements d !! rollbackOf with
      | None => Throw "rollback requires a retained customer movement and explicit divergence acceptance"
      | Some retained =>
          throw! negb (rolls_back retained input) as
            "rollback requires a retained customer movement and explicit divergence acceptance";
          throw! bool_decide (is_Some (controllers d !! rollbackOf)) as
            "the previous movement controller is still active; retry rollback after it exits";
          Ok (if bool_decide (mv_phase retained = Activated)
              then update_movement rollbackOf (fun m => mv_moved Superseded ∅ (mv_last_error m) m) d
              else d)
      end
  | None =>
      throw! acceptsDivergence input as "divergence acceptance applies only to rollback";
      Ok d
  end.

(** The row [begin] inserts. *)
Definition begun (input : BeginInput) : Movement :=
  {| mv_environment_id := bi_environmentId input;
     mv_source_runtime_id := bi_sourceRuntimeId input;
     mv_destination_runtime_id := bi_destinationRuntimeId input;
     mv_source_generation := bi_expectedGeneration input;
     mv_destination_generation := bi_expectedGeneration input + 1;
     mv_phase := Paused;
     mv_mode := match truthy (bi_rollbackOf input) with Some _ => Rollback | None => Move end;
     mv_rollback_of := bi_rollbackOf input;
     mv_accept_divergence := acceptsDivergence input;
     mv_evidence := ∅; mv_last_error := None |}.

(** [uuid] is the [randomUUID()] of a call without an identifier. *)
Definition begin (input : BeginInput) (uuid : string) (d : Directory) : result (Directory * string) :=
  let id := default uuid (bi_id input) in
  throw! negb (isSafeInteger (bi_expectedGeneration input)) || (bi_expectedGeneration input <? 1) ||
         (MAX_SAFE_INTEGER <=? bi_expectedGeneration input) as "routing generation is invalid";
  match movements d !! id with
  | Some prior =>
      throw! negb (same_input prior input) as "movement ID is already bound to different input";
      Ok (d, id)
  | None =>
      throw! negb (match environments d !! bi_environmentId input with
                   | Some environment => placement_ready environment input
                   | None => false
                   end) as "customer placement is not ready or has changed";
      throw! negb (Nat.eqb (size (bound_runtimes [bi_sourceRuntimeId input;
                                                   bi_destinationRuntimeId input] d)) 2) as
        "two distinct release-bound runtimes are required";
      throw! provisioning_running (bi_environmentId input) d as
        "customer provisioning is still running";
      d ← supersede input d;
      d ← insert_movement id (begun input) d;
      Ok (update_environment (bi_environmentId input) (env_held id) d, id)
  end.

(** ** Phases *)

(** [read]: the join finds the environment of the row by its foreign key. *)
Definition read (id : string) (d : Directory) : result Movement :=
  match movements d !! id with
  | Some row =>
      match environments d !! mv_environment_id row with
      | Some _ => Ok row
      | None => Throw "customer movement does not exist"
      end
  | None => Throw "customer movement does not exist"
  end.

Definition successor (from : MovementPhase) : option MovementPhase :=
  match from with
  | Paused => Some Fenced
  | Fenced => Some Copied
  | Copied => Some Verified
  | Activated => Some Completed
  | _ => None
  end.

Definition advance (id : string) (from to : MovementPhase) (more : evidence) (d : Directory) :
    result Directory :=
  throw! negb (bool_decide (successor from = Some to)) as "invalid movement phase transition";
  throw! negb (bool_decide (mv_phase <$> movements d !! id = Some from)) as "movement phase changed";
  Ok (update_movement id (mv_moved to more None) d).

Definition returnable (m : Movement) : bool :=
  match mv_phase m with
  | Paused | Fenced | Copied | Verified | Returning | Cancelled =>
      mv_destination_generation m <? MAX_SAFE_INTEGER
  | _ => false
  end.

Definition requestReturn (id : string) (d : Directory) : result Directory :=
  throw! negb (match movements d !! id with Some m => returnable m | None => false end) as
    "return is only allowed before activation; use explicit retained rollback afterwards";
  Ok (update_movement id (fun m =>
        mv_moved (if bool_decide (mv_phase m = Cancelled) then mv_phase m else Returning) ∅
                 (mv_last_error m) m) d).

(** ** [activate] *)

(** A property of an unknown value: reading one of [null] throws, a value
    without it has [undefined]. *)
Definition property (name : string) (value : json) : result (option json) :=
  match value with
  | JNull => Throw "Cannot read properties of null"
  | JObject entries => Ok (map_get name entries)
  | _ => Ok None
  end.

(** [===] on the values a property can have: two objects of the evidence are
    never the same object. *)
Definition same_value (a b : option json) : bool :=
  match a, b with
  | None, None => true
  | Some JNull, Some JNull => true
  | Some (JBool a), Some (JBool b) => Bool.eqb a b
  | Some (JNumber a), Some (JNumber b) => a =? b
  | Some (JString a), Some (JString b) => String.eqb a b
  | _, _ => false
  end.

Fixpoint properties (name : string) (values : list json) : result (list (option json)) :=
  match values with
  | [] => Ok []
  | value :: values =>
      p ← property name value; ps ← properties name values; Ok (p :: ps)
  end.

(** [new Set(values).size === values.length]. *)
Fixpoint all_distinct (values : list (option json)) : bool :=
  match values with
  | [] => true
  | v :: values => negb (existsb (same_value v) values) && all_distinct values
  end.

(** The components the directory has for an environment. *)
Definition required_components (environmentId : string) (d : Directory) : list string :=
  (fun row => row.1.2) <$>
    base.filter (fun row : (string * string) * Component => row.1.1 = environmentId)
      (map_to_list (components d)).

(** What a valid [verifiedComponents] entry says. *)
Record VerifiedComponent := {
  vc_component_ref : string;
  vc_schema_version : Z;
  vc_migration_set_digest : string
}.

(** The checks of the loop body.  A [migration_set_digest] that is not a string
    but that [test] reads as one is refused by the column it is stored in. *)
Definition verified_component (value : json) : result VerifiedComponent :=
  ref ← property "component_ref" value;
  version ← property "schema_version" value;
  digest ← property "migration_set_digest" value;
  match ref, version, digest with
  | Some (JString ref), Some (JNumber version), Some (JString digest) =>
      throw! negb (isSafeInteger version) || (version <? 1) || negb (is_hex 64 digest) as
        "verified component evidence is invalid";
      Ok {| vc_component_ref := ref; vc_schema_version := version;
            vc_migration_set_digest := digest |}
  | _, _, _ => Throw "verified component evidence is invalid"
  end.

(** The row an upsert of [activate] leaves. *)
Definition component_verified (v : VerifiedComponent) (generation : Z) (prior : option Component) :
    Component :=
  {| cc_desired_state := match prior with Some c => cc_desired_state c | None => DesiredReady end;
     cc_observed_state := Ready;
     cc_target_schema_version := vc_schema_version v;
     cc_observed_schema_version := Some (vc_schema_version v);
     cc_migration_set_digest := vc_migration_set_digest v;
     cc_observed_migration_set_digest := Some (vc_migration_set_digest v);
     cc_routing_generation := generation;
     cc_last_operation_id := prior ≫= cc_last_operation_id;
     cc_last_error := prior ≫= cc_last_error |}.

Definition upsert_component (environmentId : string) (generation : Z) (v : VerifiedComponent)
    (d : Directory) : result Directory :=
  throw! negb (is_int4 (vc_schema_version v)) as "value is out of range for type integer";
  let key := (environmentId, vc_component_ref v) in
  Ok (set_components (<[key := component_verified v generation (components d !! key)]> (components d)) d).

Fixpoint store_components (environmentId : string) (generation : Z) (values : list json)
    (d : Directory) : result Directory :=
  match values with
  | [] => Ok d
  | value :: values =>
      v ← verified_component value;
      d ← upsert_component environmentId generation v d;
      store_components environmentId generation values d
  end.

(** The condition of the [UPDATE] that publishes the new placement. *)
Definition publishable (id : string) (row : Movement) (phase : MovementPhase) (e : Environment)
    (d : Directory) : bool :=
  bool_decide (en_movement_id e = Some id) &&
  bool_decide (en_runtime_id e = mv_source_runtime_id row) &&
  (en_routing_generation e =? mv_source_generation row) &&
  bool_decide (en_desired_state e = DesiredReady) &&
  bool_decide (mv_phase <$> movements d !! id = Some phase).

(** The movement as [activate] uses it: on return, with the source as destination. *)
Definition effective (row : Movement) (returnEvidence : option evidence) : Movement :=
  match returnEvidence with
  | None => row
  | Some more =>
      {| mv_environment_id := mv_environment_id row;
         mv_source_runtime_id := mv_source_runtime_id row;
         mv_destination_runtime_id := mv_source_runtime_id row;
         mv_source_generation := mv_source_generation row;
         mv_destination_generation := mv_destination_generation row + 1;
         mv_phase := mv_phase row; mv_mode := mv_mode row; mv_rollback_of := mv_rollback_of row;
         mv_accept_divergence := mv_accept_divergence row;
         mv_evidence := jsonb_concat (mv_evidence row) more; mv_last_error := mv_last_error row |}
  end.

(** The evidence covers the installation: every component once, none missing. *)
Definition coverage (values : list json) (required : list string) : result unit :=
  refs ← properties "component_ref" values;
  throw! negb (all_distinct refs) ||
         negb (forallb (fun ref => existsb (same_value (Some (JString ref))) refs) required) as
    "verified components do not cover the customer installation";
  Ok tt.

Definition activate (id : string) (returnEvidence : option evidence) (d : Directory) : result Directory :=
  row ← read id d;
  throw! bool_decide (returnEvidence <> None) && negb (bool_decide (mv_phase row = Returning)) as
    "movement is not returning";
  let movement := effective row returnEvidence in
  let environmentId := mv_environment_id movement in
  throw! negb (match environments d !! environmentId with
               | Some e => publishable id movement
                             (match returnEvidence with Some _ => Returning | None => Verified end) e d
               | None => false
               end) as "customer placement or entitlement changed; activation refused";
  let d := update_environment environmentId
             (env_placed (mv_destination_runtime_id movement) (mv_destination_generation movement)) d in
  match mv_evidence movement !! "verifiedComponents" with
  | Some (JArray (value :: values)) =>
      _ ← coverage (value :: values) (required_components environmentId d);
      d ← store_components environmentId (mv_destination_generation movement) (value :: values) d;
      Ok (update_movement id (fun m =>
            mv_moved (match returnEvidence with Some _ => Cancelled | None => Activated end)
                     (default ∅ returnEvidence) (mv_last_error m) m) d)
  | _ => Throw "verified component evidence is missing"
  end.

(** ** The controller *)

(** A driver acts on the runtimes outside; while it does, other transactions
    change the directory. *)
Record MovementDriver := {
  dr_returnToSource : option (Movement -> Program evidence);
  dr_fence : Movement -> Program evidence;
  dr_copy : Movement -> Program evidence;
  dr_verify : Movement -> Program evidence;
  dr_beforeActivate : Movement -> Program unit;
  dr_afterActivate : option (Movement -> Program unit);
  dr_observe : Movement -> Program evidence
}.

(** A store method as a program. *)
Definition store (method : Directory -> result Directory) : Program unit :=
  transaction (fun d => d ← method d; Ok (d, tt)).

Definition query {A} (method : Directory -> result A) : Program A :=
  transaction (fun d => a ← method d; Ok (d, a)).

Section Controller.
Context (session : nat) (id : string) (driver : MovementDriver).

(** The abort signal: the session that holds the lock has lost it. *)
Definition throwIfAborted : Program unit := fun d =>
  (d, throw_if (negb (bool_decide (controllers d !! id = Some session)))
        "movement controller lost its directory lock").

Definition exclusive {A} (work : Program A) : Program A := fun d =>
  match controllers d !! id with
  | Some _ => (d, Throw "another controller owns this movement")
  | None =>
      let '(d, outcome) := work (set_controllers (<[id := session]> (controllers d)) d) in
      (if bool_decide (controllers d !! id = Some session)
       then set_controllers (delete id (controllers d)) d else d, outcome)
  end.

(** One turn of the loop; it ends with the movement, or goes on. *)
Definition turn : Program (option Movement) :=
  _ ← throwIfAborted;
  movement ← query (read id);
  match mv_phase movement with
  | Paused =>
      more ← dr_fence driver movement;
      _ ← throwIfAborted;
      _ ← store (advance id Paused Fenced more);
      mret None
  | Fenced =>
      more ← dr_copy driver movement;
      _ ← throwIfAborted;
      _ ← store (advance id Fenced Copied more);
      mret None
  | Copied =>
      more ← dr_verify driver movement;
      _ ← throwIfAborted;
      _ ← store (advance id Copied Verified more);
      mret None
  | Verified =>
      _ ← dr_beforeActivate driver movement;
      _ ← throwIfAborted;
      _ ← store (activate id None);
      mret None
  | Activated =>
      _ ← match dr_afterActivate driver with Some after => after movement | None => mret tt end;
      _ ← throwIfAborted;
      more ← dr_observe driver movement;
      _ ← throwIfAborted;
      _ ← store (advance id Activated Completed more);
      mret None
  | Returning =>
      match dr_returnToSource driver with
      | None => throws "this driver cannot return to the source"
      | Some returnToSource =>
          more ← returnToSource movement;
          _ ← throwIfAborted;
          _ ← store (activate id (Some more));
          mret None
      end
  | Completed | Cancelled | Superseded => mret (Some movement)
  end.

(** [for (;;)] with fuel: [None] when the fuel has run out. *)
Fixpoint turns (fuel : nat) : Program (option Movement) :=
  match fuel with
  | O => mret None
  | S fuel => finished ← turn; match finished with Some m => mret (Some m) | None => turns fuel end
  end.

Definition resumeMovement (returnToSource : bool) (fuel : nat) : Program (option Movement) :=
  exclusive (
    _ ← (if returnToSource
         then match dr_returnToSource driver with
              | None => throws "this driver cannot return to the source"
              | Some _ => store (requestReturn id)
              end
         else mret tt);
    turns fuel).
End Controller.
