(* ===== verification/Provisioning.v ===== *)
(** * Provisioning work

    [services/platform-provisioner/src/control.ts]: the queue of operations that
    provisioning workers claim, finish and fail, and the [reconcile] action of
    [move-cli.ts] that fills it again. *)

From S2P Require Import Prelude Contracts Directory.

Open Scope stdpp_scope.
Open Scope js_scope.
Local Open Scope Z_scope.

(** The operation a worker holds in memory. *)
Record Operation := {
  wk_id : string;
  wk_environmentId : string;
  wk_databaseName : string;
  wk_componentRef : string;
  wk_action : OperationAction;
  wk_targetSchemaVersion : Z;
  wk_migrationSetDigest : string;
  wk_routingGeneration : Z
}.

(** ** [queueCustomerReconciliation] *)

Definition environment_components (environmentId : string) (d : Directory) : list (string * Component) :=
  (fun row => (row.1.2, row.2)) <$>
    base.filter (fun row : (string * string) * Component => row.1.1 = environmentId)
      (map_to_list (components d)).

Definition reconcile_row (environmentId : string) (e : Environment) (now : Z)
    (component : string * Component) : OperationRow :=
  {| op_environment_id := environmentId; op_component_ref := component.1; op_action := Reconcile;
     op_status := Queued; op_target_schema_version := cc_target_schema_version component.2;
     op_migration_set_digest := cc_migration_set_digest component.2;
     op_routing_generation := en_routing_generation e; op_attempt := 0; op_lease_owner := None;
     op_lease_expires_at := None; op_last_error := None; op_created_at := now |}.

(** An active worker keeps its lease. *)
Definition requeueable (now : Z) (o : OperationRow) : bool :=
  negb (bool_decide (op_status o = Running)) ||
  match op_lease_expires_at o with Some expires => expires <=? now | None => true end.

(** [INSERT ... ON CONFLICT (key) DO UPDATE ... WHERE]. *)
Definition queue_row (uuid : string) (now : Z) (o : OperationRow) (d : Directory) : result Directory :=
  match find_operation d o with
  | Some (id, existing) =>
      Ok (if requeueable now existing
          then set_operations (<[id := op_update Queued (op_attempt existing) None None None existing]>
                               (operations d)) d
          else d)
  | None =>
      throw! bool_decide (is_Some (operations d !! uuid)) as
        "duplicate key value violates unique constraint customer_component_operations_pkey";
      Ok (set_operations (<[uuid := o]> (operations d)) d)
  end.

Fixpoint queue_rows (uuids : nat -> string) (now : Z) (rows : list OperationRow) (d : Directory) :
    result Directory :=
  match rows with
  | [] => Ok d
  | o :: rows => d ← queue_row (uuids O) now o d; queue_rows (fun n => uuids (S n)) now rows d
  end.

Definition queueCustomerReconciliation (uuids : nat -> string) (now : Z) (environmentId : string)
    (d : Directory) : result Directory :=
  match environments d !! environmentId with
  | Some e =>
      if bool_decide (en_desired_state e = DesiredReady) && bool_decide (en_movement_id e = None)
      then queue_rows uuids now
             (reconcile_row environmentId e now <$>
              base.filter (fun c : string * Component => cc_desired_state c.2 = DesiredReady)
                (environment_components environmentId d)) d
      else Ok d
  | None => Ok d
  end.

(** ** [ControlStore] *)

Section Worker.
Context (instanceId : string) (leaseSeconds : Z) (runtimeId : string).

(** The [WHERE] of [claim]. *)
Definition claimable (now : Z) (d : Directory) (o : OperationRow) : bool :=
  match environments d !! op_environment_id o with
  | Some e =>
      bool_decide (en_runtime_id e = runtimeId) && bool_decide (en_movement_id e = None) &&
      (op_routing_generation o =? en_routing_generation e) &&
      match op_status o with
      | Queued => true
      | Running => match op_lease_expires_at o with Some expires => expires <? now | None => false end
      | _ => false
      end
  | None => false
  end.

(** [ORDER BY o.created_at, o.id]. *)
Definition claim_order (left right : string * OperationRow) : Z :=
  or_else (op_created_at left.2 - op_created_at right.2) (string_cmp left.1 right.1).

(** The row [claim] selects; [locked] are the rows other transactions hold. *)
Definition next_operation (now : Z) (locked : string -> bool) (d : Directory) :
    option (string * OperationRow) :=
  head (js_sort claim_order
          (base.filter (fun row : string * OperationRow =>
                          claimable now d row.2 && negb (locked row.1) = true)
             (map_to_list (operations d)))).

Definition claimed_component (operationId : string) (c : Component) : Component :=
  {| cc_desired_state := cc_desired_state c; cc_observed_state := Reconciling;
     cc_target_schema_version := cc_target_schema_version c;
     cc_observed_schema_version := cc_observed_schema_version c;
     cc_migration_set_digest := cc_migration_set_digest c;
     cc_observed_migration_set_digest := cc_observed_migration_set_digest c;
     cc_routing_generation := cc_routing_generation c;
     cc_last_operation_id := Some operationId; cc_last_error := cc_last_error c |}.

Definition claim (now : Z) (locked : string -> bool) (d : Directory) : Directory * option Operation :=
  match next_operation now locked d with
  | None => (d, None)
  | Some (id, row) =>
      let d := set_operations
                 (alter (fun o => op_update Running (op_attempt o + 1) (Some instanceId)
                                    (Some (now + leaseSeconds)) (op_last_error o) o) id (operations d)) d in
      let d := set_components
                 (alter (claimed_component id) (op_environment_id row, op_component_ref row)
                    (components d)) d in
      let databaseName := match environments d !! op_environment_id row with
                          | Some e => en_database_name e | None => "" end in
      let d := update_environment (op_environment_id row) (env_observed Reconciling) d in
      (d, Some {| wk_id := id; wk_environmentId := op_environment_id row;
                  wk_databaseName := databaseName; wk_componentRef := op_component_ref row;
                  wk_action := op_action row;
                  wk_targetSchemaVersion := op_target_schema_version row;
                  wk_migrationSetDigest := op_migration_set_digest row;
                  wk_routingGeneration := op_routing_generation row |})
  end.

(** The placement an operation was claimed for is still the customer's. *)
Definition still_placed (operation : Operation) (d : Directory) : bool :=
  match environments d !! wk_environmentId operation with
  | Some e =>
      bool_decide (en_runtime_id e = runtimeId) &&
      (en_routing_generation e =? wk_routingGeneration operation) &&
      bool_decide (en_movement_id e = None)
  | None => false
  end.

(** The worker holds the attempt: the row is running under its name. *)
Definition holds_attempt (operation : Operation) (d : Directory) : bool :=
  match operations d !! wk_id operation with
  | Some o => bool_decide (op_status o = Running) && bool_decide (op_lease_owner o = Some instanceId)
  | None => false
  end.

Definition finished_component (operation : Operation) (c : Component) : Component :=
  if cc_routing_generation c =? wk_routingGeneration operation then
    {| cc_desired_state := cc_desired_state c;
       cc_observed_state := match wk_action operation with Suspend => Suspended | Reconcile => Ready end;
       cc_target_schema_version := cc_target_schema_version c;
       cc_observed_schema_version := Some (wk_targetSchemaVersion operation);
       cc_migration_set_digest := cc_migration_set_digest c;
       cc_observed_migration_set_digest := Some (wk_migrationSetDigest operation);
       cc_routing_generation := cc_routing_generation c;
       cc_last_operation_id := cc_last_operation_id c; cc_last_error := None |}
  else c.

(** The [CASE] that sums the components of an environment up. *)
Definition summary (environmentId : string) (d : Directory) (e : Environment) : ObservedState :=
  let states := (fun c : string * Component => cc_observed_state c.2) <$> environment_components environmentId d in
  match en_desired_state e with
  | DesiredSuspended =>
      if forallb (fun s => bool_decide (s = Suspended)) states then Suspended else Reconciling
  | DesiredReady =>
      if forallb (fun s => bool_decide (s = Ready)) states then Ready else Reconciling
  end.

Definition finish (operation : Operation) (d : Directory) : result Directory :=
  throw! negb (still_placed operation d) as "customer placement changed during provisioning";
  throw! negb (holds_attempt operation d) as "provisioning attempt is stale";
  let d := set_operations (alter (fun o => op_update Succeeded (op_attempt o) None None None o)
                             (wk_id operation) (operations d)) d in
  let d := set_components (alter (finished_component operation)
                             (wk_environmentId operation, wk_componentRef operation)
                             (components d)) d in
  Ok (update_environment (wk_environmentId operation)
        (fun e => env_observed (summary (wk_environmentId operation) d e) e) d).

Definition failed_component (operation : Operation) (message : string) (c : Component) : Component :=
  if cc_routing_generation c =? wk_routingGeneration operation then
    {| cc_desired_state := cc_desired_state c; cc_observed_state := Failed;
       cc_target_schema_version := cc_target_schema_version c;
       cc_observed_schema_version := cc_observed_schema_version c;
       cc_migration_set_digest := cc_migration_set_digest c;
       cc_observed_migration_set_digest := cc_observed_migration_set_digest c;
       cc_routing_generation := cc_routing_generation c;
       cc_last_operation_id := cc_last_operation_id c; cc_last_error := Some message |}
  else c.

(** [error] is the text of [String(error)]. *)
Definition fail_operation (operation : Operation) (error : string) (d : Directory) : Directory :=
  let message := js_slice error 0 1000 in
  let environment := still_placed operation d in
  let current := holds_attempt operation d in
  let d := if current
           then set_operations (alter (fun o => op_update StatusFailed (op_attempt o) None None (Some message) o)
                                  (wk_id operation) (operations d)) d
           else d in
  if environment && current then
    update_environment (wk_environmentId operation) (env_failed message)
      (set_components (alter (failed_component operation message)
                         (wk_environmentId operation, wk_componentRef operation) (components d)) d)
  else d.
End Worker.

(** ** The [reconcile] action of the operator *)

(** The customers of a runtime that can be reconciled, by identifier. *)
Definition reconcilable (runtimeId : string) (d : Directory) : list string :=
  js_sort string_cmp
    ((base.filter (fun row : string * Environment =>
        en_runtime_id row.2 = runtimeId /\ en_desired_state row.2 = DesiredReady /\
        en_movement_id row.2 = None) (map_to_list (environments d))).*1).

Definition pending_components (environmentId : string) (d : Directory) : Directory :=
  set_components
    (map_imap (fun key c => Some (if bool_decide (key.1 = environmentId /\ cc_desired_state c = DesiredReady)
                                  then cc_observed Pending c else c)) (components d)) d.

(** [restore] is [restoreProvisionerAuthority], which acts on the customer's
    database; [uuids] gives each customer its fresh identifiers. *)
Fixpoint reconcile_customers (restore : string -> result unit) (uuids : string -> nat -> string)
    (now : Z) (customers : list string) (d : Directory) : result Directory :=
  match customers with
  | [] => Ok d
  | customer :: customers =>
      _ ← restore customer;
      d ← queueCustomerReconciliation (uuids customer) now customer d;
      reconcile_customers restore uuids now customers
        (update_environment customer (env_observed Reconciling) (pending_components customer d))
  end.

Definition reconcileRuntime (restore : string -> result unit) (uuids : string -> nat -> string)
    (now : Z) (runtimeId : string) (d : Directory) : result Directory :=
  reconcile_customers restore uuids now (reconcilable runtimeId d) d.
