(* ===== verification/Customers.v ===== *)
(** * Customers

    [services/aven-api/src/customers/store.ts]: the entitlement events that
    create and revoke customer environments, and the authorization of a member
    to act on a component; with the membership policy of
    [libs/aven-customer-contracts/src/authorization.ts], the static catalog of
    [catalog.ts] and the names of [roles.ts]. *)

From S2P Require Import Prelude Contracts Directory.

Open Scope stdpp_scope.
Open Scope js_scope.
Local Open Scope Z_scope.

(** ** Membership *)

Definition role_text (r : MembershipRole) : string :=
  match r with Owner => "owner" | Admin => "admin" | Member => "member" end.

Definition artifacts_ref := "ceo.aven:component:data:artifacts@1".
Definition intents_ref := "ceo.aven:component:data:intents@1".
Definition runs_ref := "os.aven:component:actors:run-repository@1".

Definition policy (component : string) : option (MembershipRole -> list string) :=
  if String.eqb component artifacts_ref then
    Some (fun _ => ["artifacts:read"; "artifacts:write"])
  else if String.eqb component intents_ref then
    Some (fun role => match role with
                      | Owner | Admin => ["intents:read"; "intents:write"; "intents:delete"; "intents:merge"]
                      | Member => ["intents:read"; "intents:write"]
                      end)
  else if String.eqb component runs_ref then
    Some (fun _ => ["actor-runs:read"; "actor-runs:write"])
  else None.

Definition role_of_text (role : string) : option MembershipRole :=
  if String.eqb role "owner" then Some Owner
  else if String.eqb role "admin" then Some Admin
  else if String.eqb role "member" then Some Member else None.

Definition membershipAllows (role component : string) (actions : list string) : bool :=
  match role_of_text role, policy component with
  | Some role, Some allowed =>
      negb (bool_decide (actions = [])) && forallb (fun action => includes (allowed role) action) actions
  | _, _ => false
  end.

(** ** Catalog and names *)

Definition customerComponentCatalog : list CatalogComponent := [
  {| cat_componentRef := artifacts_ref; cat_targetSchemaVersion := 3;
     cat_migrationSetDigest := "d0f56d78fac8732d7340caf4079d7d63616e4a1599c56cddbe821326569cf72f" |};
  {| cat_componentRef := intents_ref; cat_targetSchemaVersion := 1;
     cat_migrationSetDigest := "f3a492c6ace83c96f9f2fb73ad0b45d567c6fca894bd02f5af237a342bfe968c" |};
  {| cat_componentRef := runs_ref; cat_targetSchemaVersion := 1;
     cat_migrationSetDigest := "db8feebbeb4514adcf0c0b2a04601b712ea8e00b436d6fbfc67a17958193732c" |}].

(** [replaceAll('-', '')]. *)
Fixpoint without_dashes (s : string) : string :=
  match s with
  | EmptyString => EmptyString
  | String c s => if is_dash c then without_dashes s else String c (without_dashes s)
  end.

(** ** Entitlements *)

Record EntitlementEvent := {
  ee_eventId : string;
  ee_row : EntitlementRow
}.

Record Accepted := { ac_environmentId : string; ac_replay : bool }.

Section Entitlements.
(** [isUuid] is the [z.uuid()] of the schema library; [uuid] and [uuids] are
    the random identifiers of the call. *)
Context (isUuid : string -> bool) (uuid : string) (uuids : nat -> string) (now : Z).

Definition databaseNameForEnvironment (environmentId : string) : result string :=
  throw! negb (isUuid environmentId) as "invalid environment ID";
  let hex := without_dashes environmentId in
  throw! negb (is_hex 32 hex) as "invalid database name";
  Ok ("cust_" +:+ hex).

Definition find_environment (purchasedName : string) (d : Directory) : option string :=
  fst <$> js_find (fun row : string * Environment => bool_decide (en_purchased_name row.2 = purchasedName))
            (map_to_list (environments d)).

Definition desired_of (t : EntitlementType) : DesiredState :=
  match t with PurchaseGranted => DesiredReady | PurchaseRevoked => DesiredSuspended end.

(** The default runtime, when it is not retired. *)
Definition placement (d : Directory) : option (string * option (list CatalogComponent)) :=
  match runtimes d !! default_runtime d with
  | Some row => if rt_retired row then None else Some (default_runtime d, rt_component_catalog row)
  | None => None
  end.

Definition placement_components (p : string * option (list CatalogComponent)) : list CatalogComponent :=
  match p.2 with
  | Some catalog => catalog
  | None => if String.eqb p.1 "primary" then customerComponentCatalog else []
  end.

Definition installed_components (environmentId : string) (d : Directory) : list CatalogComponent :=
  (fun row => {| cat_componentRef := row.1.2; cat_targetSchemaVersion := cc_target_schema_version row.2;
                 cat_migrationSetDigest := cc_migration_set_digest row.2 |}) <$>
    base.filter (fun row : (string * string) * Component => row.1.1 = environmentId)
      (map_to_list (components d)).

(** The row an upsert of a component leaves. *)
Definition component_entitled (desired : DesiredState) (generation : Z) (c : CatalogComponent)
    (prior : option Component) : Component :=
  {| cc_desired_state := desired; cc_observed_state := Pending;
     cc_target_schema_version := cat_targetSchemaVersion c;
     cc_observed_schema_version := prior ≫= cc_observed_schema_version;
     cc_migration_set_digest := cat_migrationSetDigest c;
     cc_observed_migration_set_digest := prior ≫= cc_observed_migration_set_digest;
     cc_routing_generation := generation;
     cc_last_operation_id := prior ≫= cc_last_operation_id;
     cc_last_error := prior ≫= cc_last_error |}.

Definition entitled_operation (environmentId : string) (desired : DesiredState) (generation : Z)
    (c : CatalogComponent) : OperationRow :=
  {| op_environment_id := environmentId; op_component_ref := cat_componentRef c;
     op_action := match desired with DesiredReady => Reconcile | DesiredSuspended => Suspend end;
     op_status := Queued; op_target_schema_version := cat_targetSchemaVersion c;
     op_migration_set_digest := cat_migrationSetDigest c; op_routing_generation := generation;
     op_attempt := 0; op_lease_owner := None; op_lease_expires_at := None; op_last_error := None;
     op_created_at := now |}.

(** [INSERT ... ON CONFLICT DO NOTHING]. *)
Definition insert_operation (id : string) (o : OperationRow) (d : Directory) : Directory :=
  if bool_decide (is_Some (find_operation d o)) || bool_decide (is_Some (operations d !! id)) then d
  else set_operations (<[id := o]> (operations d)) d.

Fixpoint install (environmentId : string) (desired : DesiredState) (generation : Z) (n : nat)
    (catalog : list CatalogComponent) (d : Directory) : result Directory :=
  match catalog with
  | [] => Ok d
  | c :: catalog =>
      throw! negb (is_int4 (cat_targetSchemaVersion c)) as "value is out of range for type integer";
      throw! (cat_targetSchemaVersion c <? 1) || negb (is_hex 64 (cat_migrationSetDigest c)) as
        "new row for relation customer_environment_components violates check constraint";
      let key := (environmentId, cat_componentRef c) in
      let d := set_components (<[key := component_entitled desired generation c (components d !! key)]>
                               (components d)) d in
      let d := insert_operation (uuids n) (entitled_operation environmentId desired generation c) d in
      install environmentId desired generation (S n) catalog d
  end.

(** The environment of a new purchase. *)
Definition purchased (event : EntitlementRow) (databaseName runtimeId : string) : Environment :=
  {| en_purchased_name := ev_purchased_name event; en_owner_subject_id := ev_subject_id event;
     en_database_name := databaseName; en_desired_state := desired_of (ev_event_type event);
     en_observed_state := Pending; en_routing_generation := 1; en_runtime_id := runtimeId;
     en_movement_id := None; en_last_error := None; en_created_at := now |}.

(** [INSERT INTO customer_environments]: unique identifier, name and database;
    the runtime exists.  [purchased_name] is known to be new. *)
Definition insert_environment (id : string) (e : Environment) (d : Directory) : result Directory :=
  throw! bool_decide (is_Some (environments d !! id)) ||
         existsb (fun row : string * Environment =>
                    bool_decide (en_database_name row.2 = en_database_name e))
           (map_to_list (environments d)) as
    "duplicate key value violates unique constraint customer_environments";
  Ok (set_environments (<[id := e]> (environments d)) d).

(** The environment of the event: updated when the name is known, else created. *)
Definition entitle (event : EntitlementRow) (d : Directory) :
    result (Directory * string * list CatalogComponent) :=
  match find_environment (ev_purchased_name event) d with
  | Some environmentId =>
      throw! match environments d !! environmentId with
             | Some e => bool_decide (en_movement_id e = None) &&
                         negb (is_int8 (en_routing_generation e + 1))
             | None => false
             end as "bigint out of range";
      let d := update_environment environmentId
                 (env_entitled (ev_subject_id event) (desired_of (ev_event_type event))) d in
      Ok (d, environmentId, installed_components environmentId d)
  | None =>
      match placement d with
      | None => Throw "default customer runtime is unavailable"
      | Some p =>
          databaseName ← databaseNameForEnvironment uuid;
          d ← insert_environment uuid (purchased event databaseName p.1) d;
          Ok (d, uuid, placement_components p)
      end
  end.

Definition acceptEntitlement (event : EntitlementEvent) (d : Directory) : result (Directory * Accepted) :=
  throw! negb (is_purchased_name (ev_purchased_name (ee_row event))) as
    "new row for relation customer_entitlement_events violates check constraint";
  match events d !! ee_eventId event with
  | Some replay =>
      throw! negb (bool_decide (replay = ee_row event)) as
        "The event ID is already bound to different entitlement data.";
      match find_environment (ev_purchased_name (ee_row event)) d with
      | None => Throw "entitlement replay has no environment"
      | Some environmentId => Ok (d, {| ac_environmentId := environmentId; ac_replay := true |})
      end
  | None =>
      let d := set_events (<[ee_eventId event := ee_row event]> (events d)) d in
      placed ← entitle (ee_row event) d;
      let '(d, environmentId, catalog) := placed in
      let d := set_memberships (<[(environmentId, ev_subject_id (ee_row event)) := Owner]>
                                (memberships d)) d in
      generation ← match environments d !! environmentId with
                   | Some e => if en_routing_generation e =? 0
                               then Throw "environment generation missing"
                               else Ok (en_routing_generation e)
                   | None => Throw "environment generation missing"
                   end;
      throw! bool_decide (catalog = []) as "default runtime has no component catalog";
      d ← install environmentId (desired_of (ev_event_type (ee_row event))) generation 0 catalog d;
      Ok (d, {| ac_environmentId := environmentId; ac_replay := false |})
  end.
End Entitlements.

(** ** Authorization *)

Record Grant := {
  gr_audience : string;
  gr_subject : string;
  gr_membershipRole : MembershipRole;
  gr_environmentId : string;
  gr_databaseName : string;
  gr_runtimeId : string;
  gr_routingGeneration : Z;
  gr_actions : list string
}.

(** Issuer, session and platform role are copied from the configuration and the claims. *)
Definition authorize (subject environmentId componentRef : string) (actions : list string)
    (d : Directory) : result Grant :=
  match environments d !! environmentId, memberships d !! (environmentId, subject),
        components d !! (environmentId, componentRef) with
  | Some e, Some role, Some component =>
      throw! negb (membershipAllows (role_text role) componentRef actions) as
        "Your customer role does not permit this action.";
      throw! negb (bool_decide (en_movement_id e = None)) ||
             negb (bool_decide (en_desired_state e = DesiredReady)) ||
             negb (bool_decide (en_observed_state e = Ready)) ||
             negb (bool_decide (cc_observed_state component = Ready)) as
        "The customer component is not ready.";
      Ok {| gr_audience := componentRef; gr_subject := subject; gr_membershipRole := role;
            gr_environmentId := environmentId; gr_databaseName := en_database_name e;
            gr_runtimeId := en_runtime_id e; gr_routingGeneration := en_routing_generation e;
            gr_actions := actions |}
  | _, _, _ => Throw "Environment not found."
  end.

(** [list]: what a member sees of its environments, oldest first. *)
Record EnvironmentSummary := {
  es_id : string;
  es_purchasedName : string;
  es_role : MembershipRole;
  es_desiredState : DesiredState;
  es_observedState : ObservedState;
  es_routingGeneration : Z;
  es_components : list (string * DesiredState * ObservedState)
}.

Section Listing.
(** [collate] is the order of text in the database. *)
Context (collate : string -> string -> Z).

Definition summarize (subject : string) (d : Directory) (row : string * Environment) :
    option EnvironmentSummary :=
  role ← memberships d !! (row.1, subject);
  Some {| es_id := row.1; es_purchasedName := en_purchased_name row.2; es_role := role;
          es_desiredState := en_desired_state row.2; es_observedState := en_observed_state row.2;
          es_routingGeneration := en_routing_generation row.2;
          es_components :=
            (fun c => (c.1, cc_desired_state c.2, cc_observed_state c.2)) <$>
              js_sort (fun a b : string * Component => collate a.1 b.1)
                ((fun c => (c.1.2, c.2)) <$>
                   base.filter (fun c : (string * string) * Component => c.1.1 = row.1)
                     (map_to_list (components d))) |}.

Definition list_environments (subject : string) (d : Directory) : list EnvironmentSummary :=
  omap (summarize subject d)
    (js_sort (fun a b : string * Environment =>
                or_else (en_created_at a.2 - en_created_at b.2) (string_cmp a.1 b.1))
       (map_to_list (environments d))).
End Listing.
