(* ===== verification/Placement.v ===== *)
(** * Placement of a customer

    The movement controllers, the provisioning workers and the customer API as
    the steps of one system on the directory, and the invariants that make the
    routing generation a fence: who may act on a customer's data, and where. *)

From S2P Require Import Prelude Contracts Directory Movement Provisioning Customers.
From stdpp Require Import relations.

Open Scope stdpp_scope.
Open Scope js_scope.
Local Open Scope Z_scope.

(** Past the checks of a transaction that committed. *)
Ltac past_checks H :=
  repeat (cbn [mbind result_bind] in H;
    match type of H with
    | mbind (fun _ : unit => _) ?m = Ok _ => destruct m; [|discriminate H]
    end); cbn [mbind result_bind] in H.

(** ** The system *)

Section System.
Context `{Collation} (isUuid : string -> bool).

(** Any committed transaction of any program, in any order. *)
Inductive dir_step : Directory -> Directory -> Prop :=
| StepRegister id sha d d' : registerRuntime id sha d = Ok d' -> dir_step d d'
| StepDefault id sha catalog d d' : selectDefaultRuntime id sha catalog d = Ok d' -> dir_step d d'
| StepBegin input uuid d d' id : begin input uuid d = Ok (d', id) -> dir_step d d'
| StepAdvance id from to more d d' : advance id from to more d = Ok d' -> dir_step d d'
| StepReturn id d d' : requestReturn id d = Ok d' -> dir_step d d'
| StepActivate id more d d' : activate id more d = Ok d' -> dir_step d d'
| StepLock id session d : controllers d !! id = None ->
    dir_step d (set_controllers (<[id := session]> (controllers d)) d)
| StepUnlock id d : dir_step d (set_controllers (delete id (controllers d)) d)
| StepEntitle uuid uuids now event d d' accepted :
    acceptEntitlement isUuid uuid uuids now event d = Ok (d', accepted) -> dir_step d d'
| StepClaim instanceId lease runtimeId now locked d :
    dir_step d (claim instanceId lease runtimeId now locked d).1
| StepFinish instanceId runtimeId operation d d' :
    finish instanceId runtimeId operation d = Ok d' -> dir_step d d'
| StepFail instanceId runtimeId operation error d :
    dir_step d (fail_operation instanceId runtimeId operation error d)
| StepReconcile restore uuids now runtimeId d d' :
    reconcileRuntime restore uuids now runtimeId d = Ok d' -> dir_step d d'.
End System.

(** ** The invariant *)

(** How a movement and the environment it is about fit together. *)
Record movement_fits (id : string) (m : Movement) (e : Environment) : Prop := {
  fits_generations : mv_destination_generation m = mv_source_generation m + 1;
  fits_positive : 0 < mv_source_generation m;
  fits_distinct : mv_source_runtime_id m <> mv_destination_runtime_id m;
  fits_phase : if holding (mv_phase m)
               then en_movement_id e = Some id /\ en_runtime_id e = mv_source_runtime_id m /\
                    en_routing_generation e = mv_source_generation m
               else mv_destination_generation m <= en_routing_generation e
}.

Record dir_inv (d : Directory) : Prop := {
  inv_movement : forall id m, movements d !! id = Some m ->
    exists e, environments d !! mv_environment_id m = Some e /\ movement_fits id m e;
  inv_held : forall eid e id, environments d !! eid = Some e -> en_movement_id e = Some id ->
    exists m, movements d !! id = Some m /\ mv_environment_id m = eid /\ holding (mv_phase m) = true;
  inv_open : forall i j mi mj, movements d !! i = Some mi -> movements d !! j = Some mj ->
    mv_environment_id mi = mv_environment_id mj ->
    open_phase (mv_phase mi) = true -> open_phase (mv_phase mj) = true -> i = j;
  inv_components : forall eid ref c, components d !! (eid, ref) = Some c ->
    exists e, environments d !! eid = Some e /\ cc_routing_generation c <= en_routing_generation e;
  inv_operations : forall id o, operations d !! id = Some o ->
    exists e, environments d !! op_environment_id o = Some e /\
              op_routing_generation o <= en_routing_generation e /\
              (op_status o = Running -> en_movement_id e = None)
}.

(** ** Steps that keep every placement *)

(** Where a customer is: what a worker's step never touches. *)
Definition placed (e : Environment) : string * Z * option string :=
  (en_runtime_id e, en_routing_generation e, en_movement_id e).

(** An operation of the new table comes from one of the old, or is new and waits. *)
Definition operation_from (d : Directory) (id : string) (o' : OperationRow) : Prop :=
  (exists o, operations d !! id = Some o /\ op_environment_id o' = op_environment_id o /\
             op_routing_generation o' = op_routing_generation o /\
             (op_status o' = Running -> op_status o = Running)) \/
  (exists e, environments d !! op_environment_id o' = Some e /\
             op_routing_generation o' <= en_routing_generation e /\
             (op_status o' = Running -> en_movement_id e = None)).

Record frame (d d' : Directory) : Prop := {
  frame_movements : movements d' = movements d;
  frame_environments : forall eid, placed <$> environments d' !! eid = placed <$> environments d !! eid;
  frame_components : forall key c', components d' !! key = Some c' ->
    exists c, components d !! key = Some c /\ cc_routing_generation c' = cc_routing_generation c;
  frame_operations : forall id o', operations d' !! id = Some o' -> operation_from d id o'
}.

Lemma frame_lookup d d' eid e : frame d d' -> environments d !! eid = Some e ->
  exists e', environments d' !! eid = Some e' /\ placed e' = placed e.
Proof.
  intros Hf He. pose proof (frame_environments _ _ Hf eid) as Hp. rewrite He in Hp. cbn in Hp.
  destruct (environments d' !! eid) as [e'|]; [|discriminate]. injection Hp as Hp. exists e'.
  split; [done|]. unfold placed. congruence.
Qed.

Lemma frame_lookup_back d d' eid e' : frame d d' -> environments d' !! eid = Some e' ->
  exists e, environments d !! eid = Some e /\ placed e' = placed e.
Proof.
  intros Hf He. pose proof (frame_environments _ _ Hf eid) as Hp. rewrite He in Hp. cbn in Hp.
  destruct (environments d !! eid) as [e|]; [|discriminate]. injection Hp as Hp. exists e.
  split; [done|]. unfold placed. congruence.
Qed.

(** What [placed] fixes. *)
Ltac placed_eq H :=
  unfold placed in H; injection H as ? ? ?.

Lemma fits_placed id m e e' : placed e' = placed e -> movement_fits id m e -> movement_fits id m e'.
Proof.
  intros Hp [H1 H2 H3 H4]. placed_eq Hp. split; [done..|].
  destruct (holding (mv_phase m)); [|lia]. destruct H4 as (? & ? & ?). repeat split; congruence.
Qed.

Lemma frame_inv d d' : dir_inv d -> frame d d' -> dir_inv d'.
Proof.
  intros [Hm Hh Ho Hc Hop] Hf. split.
  - intros id m Hid. rewrite (frame_movements _ _ Hf) in Hid.
    destruct (Hm id m Hid) as (e & He & Hfit). destruct (frame_lookup _ _ _ _ Hf He) as (e' & He' & Hp).
    exists e'. split; [done|]. by eapply fits_placed.
  - intros eid e' id He' Hid. rewrite (frame_movements _ _ Hf).
    destruct (frame_lookup_back _ _ _ _ Hf He') as (e & He & Hp). placed_eq Hp.
    apply (Hh eid e id); congruence.
  - intros i j mi mj. rewrite (frame_movements _ _ Hf). apply Ho.
  - intros eid ref c' Hc'. destruct (frame_components _ _ Hf _ _ Hc') as (c & Hcc & ->).
    destruct (Hc eid ref c Hcc) as (e & He & Hg). destruct (frame_lookup _ _ _ _ Hf He) as (e' & He' & Hp).
    placed_eq Hp. exists e'. split; [done|lia].
  - intros id o' Ho'. destruct (frame_operations _ _ Hf _ _ Ho') as [(o & Hid & E1 & E2 & E3)|(e & He & Hg & Hr)].
    + destruct (Hop id o Hid) as (e & He & Hg & Hr).
      destruct (frame_lookup _ _ _ _ Hf He) as (e' & He' & Hp). placed_eq Hp.
      exists e'. rewrite E1, E2. split; [done|]. split; [lia|]. intros ?. rewrite <- (Hr (E3 ltac:(done))). done.
    + destruct (frame_lookup _ _ _ _ Hf He) as (e' & He' & Hp). placed_eq Hp.
      exists e'. split; [done|]. split; [lia|]. intros ?. rewrite <- Hr by done. done.
Qed.

Lemma frame_refl d : frame d d.
Proof. split; [done..|eauto|]. intros id o' ?. left. eauto. Qed.

Lemma frame_trans d1 d2 d3 : frame d1 d2 -> frame d2 d3 -> frame d1 d3.
Proof.
  intros H12 H23. split.
  - by rewrite (frame_movements _ _ H23), (frame_movements _ _ H12).
  - intros eid. by rewrite (frame_environments _ _ H23), (frame_environments _ _ H12).
  - intros key c3 Hc. destruct (frame_components _ _ H23 _ _ Hc) as (c2 & Hc2 & ->).
    by apply (frame_components _ _ H12).
  - intros id o3 Ho. destruct (frame_operations _ _ H23 _ _ Ho) as [(o2 & Ho2 & E1 & E2 & E3)|(e & He & Hg & Hr)].
    + destruct (frame_operations _ _ H12 _ _ Ho2) as [(o1 & Ho1 & F1 & F2 & F3)|(e & He & Hg & Hr)].
      * left. exists o1. repeat split; [done|congruence|congruence|auto].
      * right. exists e. rewrite E1, E2. auto.
    + right. destruct (frame_lookup_back _ _ _ _ H12 He) as (e1 & He1 & Hp). placed_eq Hp.
      exists e1. split; [done|]. split; [lia|]. intros ?. rewrite <- Hr by done. done.
Qed.

(** Frames of single table updates. *)

Lemma frame_env d eid f : (forall e, placed (f e) = placed e) -> frame d (update_environment eid f d).
Proof.
  intros Hf. split; [done| |eauto|intros id o' ?; left; eauto].
  intros eid'. cbn. destruct (decide (eid = eid')) as [->|].
  - rewrite lookup_alter_eq. destruct (environments d !! eid') as [e|]; [exact (f_equal Some (Hf e))|done].
  - by rewrite lookup_alter_ne.
Qed.

Lemma frame_alter_component d key f : (forall c, cc_routing_generation (f c) = cc_routing_generation c) ->
  frame d (set_components (alter f key (components d)) d).
Proof.
  intros Hf. split; [done..| |intros id o' ?; left; eauto].
  intros key' c'. cbn. destruct (decide (key = key')) as [->|].
  - rewrite lookup_alter_eq. destruct (components d !! key') as [c|]; cbn; [|discriminate].
    intros [= <-]. eauto.
  - rewrite lookup_alter_ne by done. eauto.
Qed.

Lemma frame_operation_insert d id o : operation_from d id o ->
  frame d (set_operations (<[id := o]> (operations d)) d).
Proof.
  intros Ho. split; [done..|eauto|]. intros id' o'. cbn. destruct (decide (id = id')) as [->|].
  - rewrite lookup_insert_eq. by intros [= <-].
  - rewrite lookup_insert_ne by done. left. eauto.
Qed.

Lemma frame_alter_operation d id f :
  (forall o, operations d !! id = Some o -> operation_from d id (f o)) ->
  frame d (set_operations (alter f id (operations d)) d).
Proof.
  intros Hf. split; [done..|eauto|]. intros id' o'. cbn. destruct (decide (id = id')) as [->|].
  - rewrite lookup_alter_eq. destruct (operations d !! id') as [o|] eqn:E; cbn; [|discriminate].
    intros [= <-]. by apply Hf.
  - rewrite lookup_alter_ne by done. left. eauto.
Qed.

Lemma frame_controllers d x : frame d (set_controllers x d).
Proof. split; [done..|eauto|]. intros id o' ?. left. eauto. Qed.
#[export] Hint Resolve frame_refl frame_controllers : js.

(** ** Workers and operators keep placements *)

Lemma op_update_from d id o status attempt owner expires last_error :
  operations d !! id = Some o -> (status = Running -> op_status o = Running) ->
  operation_from d id (op_update status attempt owner expires last_error o).
Proof. intros Ho Hr. left. by exists o. Qed.

Lemma elem_of_operations d id o : (id, o) ∈ map_to_list (operations d) <-> operations d !! id = Some o.
Proof. apply elem_of_map_to_list. Qed.

Lemma next_operation_claimable runtimeId now locked d id o :
  next_operation runtimeId now locked d = Some (id, o) ->
  operations d !! id = Some o /\ claimable runtimeId now d o = true.
Proof.
  unfold next_operation. intros Hh%head_Some_elem_of.
  rewrite elem_of_js_sort in Hh. apply list_elem_of_filter in Hh as [Hb Hin]. bools.
  by apply elem_of_operations in Hin.
Qed.

Lemma claimable_environment runtimeId now d o : claimable runtimeId now d o = true ->
  exists e, environments d !! op_environment_id o = Some e /\ en_runtime_id e = runtimeId /\
            en_movement_id e = None /\ op_routing_generation o = en_routing_generation e.
Proof.
  unfold claimable. destruct (environments d !! op_environment_id o) as [e|]; [|done]. intros Hb.
  bools. rewrite Z.eqb_eq in *. eauto.
Qed.

Lemma claim_frame instanceId lease runtimeId now locked d :
  frame d (claim instanceId lease runtimeId now locked d).1.
Proof.
  unfold claim. destruct (next_operation _ _ _ _) as [[id row]|] eqn:E; [|apply frame_refl].
  apply next_operation_claimable in E as [Ho Hc].
  apply claimable_environment in Hc as (e & He & _ & Hn & Hg). cbn [fst].
  eapply frame_trans; [|by apply frame_env].
  eapply frame_trans; [|by apply frame_alter_component].
  apply frame_alter_operation. intros o Ho'. right. exists e. cbn.
  assert (o = row) as -> by congruence. repeat split; [done|lia|done].
Qed.

Lemma finish_frame instanceId runtimeId operation d d' :
  finish instanceId runtimeId operation d = Ok d' -> frame d d'.
Proof.
  unfold finish. intros Hf. inv_result. eapply frame_trans; [|by apply frame_env].
  set (d1 := set_operations _ d). apply (frame_trans _ d1).
  - apply frame_alter_operation. intros o Ho. by apply op_update_from.
  - apply (frame_alter_component d1). intros c. unfold finished_component. by case_match.
Qed.

Lemma fail_frame instanceId runtimeId operation error d :
  frame d (fail_operation instanceId runtimeId operation error d).
Proof.
  unfold fail_operation. set (d1 := if holds_attempt _ _ _ then _ else _).
  assert (frame d d1) as H1.
  { subst d1. case_match; [|apply frame_refl]. apply frame_alter_operation. intros o Ho.
    by apply op_update_from. }
  case_match; [|done]. eapply frame_trans; [exact H1|]. eapply frame_trans; [|by apply frame_env].
  apply frame_alter_component. intros c. unfold failed_component. by case_match.
Qed.

Lemma queue_row_frame uuid now o d d' : queue_row uuid now o d = Ok d' ->
  op_status o = Queued ->
  (exists e, environments d !! op_environment_id o = Some e /\
             op_routing_generation o <= en_routing_generation e) -> frame d d'.
Proof.
  unfold queue_row, find_operation. intros Hq Hs (e & He & Hg).
  destruct (js_find _ _) as [[id existing]|] eqn:E.
  - injection Hq as <-. destruct (requeueable now existing); [|apply frame_refl].
    apply js_find_Some in E as [Hin _]. apply elem_of_operations in Hin.
    apply frame_operation_insert. by apply op_update_from.
  - inv_result. apply frame_operation_insert. right. exists e. repeat split; [done|done|congruence].
Qed.

Lemma queue_rows_frame uuids now rows d d' : queue_rows uuids now rows d = Ok d' ->
  Forall (fun o => op_status o = Queued /\
                   exists e, environments d !! op_environment_id o = Some e /\
                             op_routing_generation o <= en_routing_generation e) rows -> frame d d'.
Proof.
  revert uuids d. induction rows as [|o rows IH]; intros uuids d; cbn.
  - intros [= <-] _. apply frame_refl.
  - intros Hq Hall. inversion Hall as [|? ? [Hs He] Hrest]; subst.
    destruct (queue_row (uuids O) now o d) as [d1|] eqn:E1; [|discriminate Hq]. cbn in Hq.
    assert (frame d d1) as H1 by (by eapply queue_row_frame). eapply frame_trans; [exact H1|].
    eapply IH; [done|]. eapply Forall_impl; [exact Hrest|]. cbn. intros o' [Hs' (e & He' & Hg)].
    split; [done|]. destruct (frame_lookup _ _ _ _ H1 He') as (e2 & He2 & Hp). placed_eq Hp.
    exists e2. split; [done|lia].
Qed.

Lemma queue_frame uuids now environmentId d d' :
  queueCustomerReconciliation uuids now environmentId d = Ok d' -> frame d d'.
Proof.
  unfold queueCustomerReconciliation. destruct (environments d !! environmentId) as [e|] eqn:He.
  - case_match; [|intros [= <-]; apply frame_refl]. intros Hq. eapply queue_rows_frame; [done|].
    apply Forall_fmap, Forall_true. intros c. cbn. split; [done|]. exists e. split; [done|lia].
  - intros [= <-]. apply frame_refl.
Qed.

Lemma pending_frame environmentId d : frame d (pending_components environmentId d).
Proof.
  split; [done..| |intros id o' ?; left; eauto]. intros key c'. cbn. rewrite map_lookup_imap.
  destruct (components d !! key) as [c|]; cbn; [|discriminate]. intros [= <-].
  exists c. split; [done|]. by case_match.
Qed.

Lemma reconcile_customers_frame restore uuids now customers d d' :
  reconcile_customers restore uuids now customers d = Ok d' -> frame d d'.
Proof.
  revert d. induction customers as [|c customers IH]; intros d; cbn.
  - intros [= <-]. apply frame_refl.
  - intros Hr. inv_result. eapply frame_trans; [by eapply queue_frame|].
    eapply frame_trans; [apply pending_frame|]. eapply frame_trans; [|by eapply IH].
    by apply frame_env.
Qed.

(** Registering and selecting runtimes touches nothing but the runtimes. *)
Lemma register_frame id sha d d' : registerRuntime id sha d = Ok d' -> frame d d'.
Proof.
  unfold registerRuntime. intros Hr. inv_result. destruct (runtimes d !! id); inv_result;
    (split; [done..|eauto|intros ? ? ?; left; eauto]).
Qed.

Lemma default_frame `{Collation} id sha catalog d d' :
  selectDefaultRuntime id sha catalog d = Ok d' -> frame d d'.
Proof.
  unfold selectDefaultRuntime. intros Hr. inv_result. destruct (runtimes d !! id); inv_result;
    (split; [done..|eauto|intros ? ? ?; left; eauto]).
Qed.

(** ** Movements *)

(** A movement moves within its group of phases: holding, or past it. *)
Lemma update_movement_inv d id f : dir_inv d ->
  (forall m, movements d !! id = Some m ->
     mv_environment_id (f m) = mv_environment_id m /\
     mv_source_runtime_id (f m) = mv_source_runtime_id m /\
     mv_destination_runtime_id (f m) = mv_destination_runtime_id m /\
     mv_source_generation (f m) = mv_source_generation m /\
     mv_destination_generation (f m) = mv_destination_generation m /\
     holding (mv_phase (f m)) = holding (mv_phase m) /\
     (open_phase (mv_phase (f m)) = true -> open_phase (mv_phase m) = true)) ->
  dir_inv (update_movement id f d).
Proof.
  intros [Hm Hh Ho Hc Hop] Hf.
  assert (forall j m', movements (update_movement id f d) !! j = Some m' -> exists m,
    movements d !! j = Some m /\ mv_environment_id m' = mv_environment_id m /\
    (forall e, movement_fits j m e -> movement_fits j m' e) /\
    holding (mv_phase m') = holding (mv_phase m) /\
    (open_phase (mv_phase m') = true -> open_phase (mv_phase m) = true)) as Hback.
  { intros j m'. cbn. destruct (decide (id = j)) as [->|].
    - rewrite lookup_alter_eq. destruct (movements d !! j) as [m|] eqn:E; [|done]. intros [= <-].
      destruct (Hf m eq_refl) as (E1 & E2 & E3 & E4 & E5 & E6 & E7). exists m.
      split; [done|]. split; [done|]. split; [|done].
      intros e [F1 F2 F3 F4]. split; rewrite ?E2, ?E3, ?E4, ?E5, ?E6; done.
    - rewrite lookup_alter_ne by done. intros. exists m'. auto. }
  split.
  - intros j m' Hj. destruct (Hback j m' Hj) as (m & Hjm & -> & Hfit & _).
    destruct (Hm j m Hjm) as (e & He & Hfe). eauto.
  - intros eid e j He Hj. destruct (Hh eid e j He Hj) as (m & Hjm & Hme & Hhold). cbn.
    destruct (decide (id = j)) as [->|]; [|rewrite lookup_alter_ne by done; eauto].
    rewrite lookup_alter_eq, Hjm. destruct (Hf m Hjm) as (E1 & _ & _ & _ & _ & E6 & _).
    exists (f m). split; [done|]. split; congruence.
  - intros i j mi mj Hi Hj Hij Hoi Hoj.
    destruct (Hback i mi Hi) as (m1 & H1 & E1 & _ & _ & O1).
    destruct (Hback j mj Hj) as (m2 & H2 & E2 & _ & _ & O2). apply (Ho i j m1 m2); auto; congruence.
  - exact Hc.
  - exact Hop.
Qed.

Lemma advance_inv id from to more d d' : advance id from to more d = Ok d' -> dir_inv d -> dir_inv d'.
Proof.
  unfold advance. intros Ha Hd. inv_result. bools.
  apply update_movement_inv; [done|]. intros m Hm. cbn.
  match goal with H : mv_phase <$> _ = Some from |- _ => rewrite Hm in H; injection H as -> end.
  destruct from; cbn in *; simplify_eq; done.
Qed.

Lemma requestReturn_inv id d d' : requestReturn id d = Ok d' -> dir_inv d -> dir_inv d'.
Proof.
  unfold requestReturn. intros Hr Hd. inv_result. bools. apply update_movement_inv; [done|].
  intros m Hm. rewrite Hm in *. unfold returnable in *. cbn.
  destruct (mv_phase m) eqn:E; try discriminate; cbn; rewrite ?E; done.
Qed.

(** ** Beginning a movement *)

Lemma movement_check_spec m : movement_check m = true ->
  0 < mv_source_generation m /\ mv_source_generation m < mv_destination_generation m /\
  mv_source_runtime_id m <> mv_destination_runtime_id m.
Proof.
  unfold movement_check. intros Hb. bools. rewrite Z.ltb_lt in *. auto.
Qed.

Lemma no_open_movement d env :
  existsb (fun row => bool_decide (mv_environment_id row.2 = env) && open_phase (mv_phase row.2))
    (map_to_list (movements d)) = false ->
  forall j m, movements d !! j = Some m -> mv_environment_id m = env -> open_phase (mv_phase m) = false.
Proof.
  rewrite existsb_elem_false. intros Hn j m Hj <-.
  specialize (Hn (j, m) (proj2 (elem_of_map_to_list _ _ _) Hj)). cbn in Hn.
  by rewrite bool_decide_true in Hn.
Qed.

Lemma not_running d env : provisioning_running env d = false ->
  forall j o, operations d !! j = Some o -> op_environment_id o = env -> op_status o <> Running.
Proof.
  unfold provisioning_running. rewrite existsb_elem_false. intros Hn j o Hj <- Hr.
  specialize (Hn (j, o) (proj2 (elem_of_operations _ _ _) Hj)). cbn in Hn.
  by rewrite Hr, !bool_decide_true in Hn.
Qed.

Lemma holding_open p : holding p = true -> open_phase p = true.
Proof. by destruct p. Qed.

(** What the rollback branch leaves: at most one movement superseded. *)
Lemma supersede_spec input d d1 : supersede input d = Ok d1 ->
  (dir_inv d -> dir_inv d1) /\ environments d1 = environments d /\ operations d1 = operations d /\
  components d1 = components d /\ runtimes d1 = runtimes d /\ controllers d1 = controllers d /\
  (forall j m, movements d !! j = Some m -> movements d1 !! j = Some m \/
     (mv_phase m = Activated /\ bi_rollbackOf input = Some j /\ mv_environment_id m = bi_environmentId input)).
Proof.
  unfold supersede. intros Hs. destruct (truthy (bi_rollbackOf input)) as [r|] eqn:Er.
  2:{ inv_result. split; [done|]. repeat (split; [done|]). auto. }
  assert (bi_rollbackOf input = Some r) as Hr.
  { destruct (bi_rollbackOf input) as [[|? ?]|]; cbn in Er; congruence. }
  destruct (movements d !! r) as [m|] eqn:Em; [|discriminate]. inv_result.
  unfold rolls_back in *. bools.
  case_bool_decide as Ha; [|split; [done|]; repeat (split; [done|]); auto].
  split; [|repeat (split; [done|])].
  - intros Hd. apply update_movement_inv; [done|]. intros m' Hm'. cbn.
    assert (m' = m) as -> by congruence. rewrite Ha. done.
  - intros j m' Hj. cbn. destruct (decide (r = j)) as [<-|].
    + right. assert (m' = m) as -> by congruence. done.
    + left. by rewrite lookup_alter_ne.
Qed.

(** A begun movement holds its environment. *)
Definition begins (input : BeginInput) (id : string) (d1 : Directory) : Directory :=
  update_environment (bi_environmentId input) (env_held id)
    (set_movements (<[id := begun input]> (movements d1)) d1).

Lemma begin_spec input uuid d d' id : begin input uuid d = Ok (d', id) ->
  (d' = d /\ exists m, movements d !! id = Some m /\ same_input m input = true) \/
  (exists e d1, movements d !! id = None /\ environments d !! bi_environmentId input = Some e /\
     placement_ready e input = true /\ provisioning_running (bi_environmentId input) d = false /\
     supersede input d = Ok d1 /\ movement_check (begun input) = true /\
     (forall j m, movements d1 !! j = Some m -> mv_environment_id m = bi_environmentId input ->
                  open_phase (mv_phase m) = false) /\
     d' = begins input id d1).
Proof.
  unfold begin. intros Hb. inv_result. set (i := default uuid (bi_id input)) in *.
  destruct (movements d !! i) as [prior|] eqn:Ep.
  - inv_result. left. bools. eauto.
  - right. unfold insert_movement in *. inv_result.
    destruct (environments d !! bi_environmentId input) as [e|] eqn:Ee; [|discriminate]. bools.
    match goal with H : supersede _ _ = Ok ?x |- _ => exists e, x end.
    repeat (split; [first [done | by apply negb_false_iff]|]). split; [|done].
    apply no_open_movement. rewrite andb_false_iff in *.
    match goal with H : _ \/ open_phase (mv_phase (begun input)) = false |- _ => by destruct H end.
Qed.

Lemma placement_ready_spec e input : placement_ready e input = true ->
  en_runtime_id e = bi_sourceRuntimeId input /\ en_routing_generation e = bi_expectedGeneration input /\
  en_movement_id e = None /\ en_desired_state e = DesiredReady /\ en_observed_state e = Ready.
Proof. unfold placement_ready. intros Hb. bools. rewrite Z.eqb_eq in *. auto. Qed.

Lemma begins_inv input id d1 e : dir_inv d1 -> movements d1 !! id = None ->
  environments d1 !! bi_environmentId input = Some e -> placement_ready e input = true ->
  (forall j o, operations d1 !! j = Some o -> op_environment_id o = bi_environmentId input ->
               op_status o <> Running) ->
  movement_check (begun input) = true ->
  (forall j m, movements d1 !! j = Some m -> mv_environment_id m = bi_environmentId input ->
               open_phase (mv_phase m) = false) ->
  dir_inv (begins input id d1).
Proof.
  intros [Hm Hh Ho Hc Hop] Hid He Hready Hrun Hcheck Hopen.
  apply placement_ready_spec in Hready as (Hrt & Hgen & Hnone & _).
  apply movement_check_spec in Hcheck as (Hpos & _ & Hne). cbn in Hpos, Hne.
  assert (forall eid e1, environments d1 !! eid = Some e1 -> exists e2,
    environments (begins input id d1) !! eid = Some e2 /\ en_runtime_id e2 = en_runtime_id e1 /\
    en_routing_generation e2 = en_routing_generation e1 /\
    en_movement_id e2 = if decide (eid = bi_environmentId input) then Some id else en_movement_id e1) as Henv.
  { intros eid e1 He1. cbn. destruct (decide (eid = bi_environmentId input)) as [->|].
    - rewrite lookup_alter_eq, He1. cbn. eauto.
    - rewrite lookup_alter_ne by done. eauto. }
  split.
  - intros j m. cbn. destruct (decide (id = j)) as [<-|].
    + rewrite lookup_insert_eq. intros [= <-]. destruct (Henv _ _ He) as (e2 & He2 & E1 & E2 & E3).
      exists e2. split; [exact He2|]. rewrite decide_True in E3 by done.
      split; cbn; [done|done|done|]. repeat split; congruence.
    + rewrite lookup_insert_ne by done. intros Hj. destruct (Hm j m Hj) as (e1 & He1 & [F1 F2 F3 F4]).
      destruct (Henv _ _ He1) as (e2 & He2 & E1 & E2 & E3). exists e2. split; [exact He2|].
      split; [done..|]. rewrite E1, E2. destruct (holding (mv_phase m)) eqn:Eh; [|done].
      rewrite decide_False in E3; [by rewrite E3|]. intros Hme. pose proof (Hopen j m Hj Hme).
      apply holding_open in Eh. congruence.
  - intros eid e2 j. cbn. destruct (decide (bi_environmentId input = eid)) as [<-|].
    + rewrite lookup_alter_eq, He. cbn. intros [= <-] [= <-]. exists (begun input).
      rewrite lookup_insert_eq. done.
    + rewrite lookup_alter_ne by done. intros He2 Hj. destruct (Hh eid e2 j He2 Hj) as (m & Hjm & Hx).
      exists m. rewrite lookup_insert_ne; [done|]. intros ->. congruence.
  - intros i j mi mj. cbn. destruct (decide (id = i)) as [<-|]; destruct (decide (id = j)) as [<-|];
      rewrite ?lookup_insert_eq, ?lookup_insert_ne by done; [done| | |apply Ho].
    + intros [= <-] Hj Henvs _ Hoj. cbn in Henvs. rewrite (Hopen j mj) in Hoj; done.
    + intros Hi [= <-] Henvs Hoi _. cbn in Henvs. rewrite (Hopen i mi) in Hoi; done.
  - intros eid ref c Hcc. destruct (Hc eid ref c Hcc) as (e1 & He1 & Hg).
    destruct (Henv _ _ He1) as (e2 & He2 & _ & E2 & _). exists e2. split; [done|lia].
  - intros j o Hj. destruct (Hop j o Hj) as (e1 & He1 & Hg & Hr).
    destruct (Henv _ _ He1) as (e2 & He2 & _ & E2 & E3). exists e2. split; [done|]. split; [lia|].
    intros Hrr. rewrite E3. case_decide; [|auto]. by destruct (Hrun j o Hj).
Qed.

Lemma begin_inv input uuid d d' id : begin input uuid d = Ok (d', id) -> dir_inv d -> dir_inv d'.
Proof.
  intros Hb Hd. apply begin_spec in Hb as [[-> _]|(e & d1 & Hid & He & Hready & Hrun & Hs & Hck & Hopen & ->)];
    [done|]. destruct (supersede_spec _ _ _ Hs) as (Hi & E1 & E2 & _ & _ & _ & _).
  apply (begins_inv input id d1 e); auto; [|by rewrite E1|].
  - assert (forall j, movements d1 !! j = None <-> movements d !! j = None) as Hdom; [|by apply Hdom].
    unfold supersede in Hs. intros j. destruct (truthy _); inv_result; [|done].
    destruct (movements d !! s); inv_result. case_match; [|done]. cbn.
    destruct (decide (s = j)) as [->|]; [|by rewrite lookup_alter_ne].
    rewrite lookup_alter_eq. by destruct (movements d !! j).
  - rewrite E2. by apply not_running.
Qed.

(** ** Activation *)

Lemma store_components_spec eid generation values d d' :
  store_components eid generation values d = Ok d' ->
  movements d' = movements d /\ environments d' = environments d /\ operations d' = operations d /\
  runtimes d' = runtimes d /\ controllers d' = controllers d /\
  (forall key c, components d' !! key = Some c ->
     components d !! key = Some c \/ (key.1 = eid /\ cc_routing_generation c = generation)) /\
  (forall key, components d' !! key = None -> components d !! key = None).
Proof.
  revert d. induction values as [|value values IH]; intros d; cbn.
  - intros [= <-]. repeat (split; [done|]). auto.
  - intros Hs. destruct (verified_component value) as [v|]; [|discriminate Hs]. cbn in Hs.
    unfold upsert_component in Hs. destruct (throw_if _ _) in Hs; [|discriminate Hs].
    cbn [mbind result_bind] in Hs. apply IH in Hs as (E1 & E2 & E3 & E4 & E5 & Hc & Hn). cbn in *. repeat (split; [done|]). split.
    + intros key c Hk. destruct (Hc key c Hk) as [Hin|]; [|auto].
      destruct (decide ((eid, vc_component_ref v) = key)) as [<-|Hne].
      * rewrite lookup_insert_eq in Hin. injection Hin as <-. auto.
      * rewrite lookup_insert_ne in Hin by done. auto.
    + intros key Hk. apply Hn in Hk. by apply lookup_insert_None in Hk as [? _].
Qed.

(** What a committed activation did. *)
Record activation (id : string) (returnEvidence : option evidence) (row : Movement) (e : Environment)
    (d d' : Directory) : Prop := {
  act_row : movements d !! id = Some row;
  act_environment : environments d !! mv_environment_id row = Some e;
  act_phase : mv_phase row = match returnEvidence with Some _ => Returning | None => Verified end;
  act_movement_id : en_movement_id e = Some id;
  act_runtime : en_runtime_id e = mv_source_runtime_id row;
  act_generation : en_routing_generation e = mv_source_generation row;
  act_entitled : en_desired_state e = DesiredReady;
  act_environments : environments d' =
    <[mv_environment_id row :=
        env_placed (mv_destination_runtime_id (effective row returnEvidence))
                   (mv_destination_generation (effective row returnEvidence)) e]> (environments d);
  act_movements : movements d' =
    <[id := mv_moved (match returnEvidence with Some _ => Cancelled | None => Activated end)
                     (default ∅ returnEvidence) (mv_last_error row) row]> (movements d);
  act_operations : operations d' = operations d;
  act_controllers : controllers d' = controllers d;
  act_evidence : exists values d1, values <> [] /\
    mv_evidence (effective row returnEvidence) !! "verifiedComponents" = Some (JArray values) /\
    coverage values (required_components (mv_environment_id row) d) = Ok tt /\
    store_components (mv_environment_id row)
      (mv_destination_generation (effective row returnEvidence)) values
      (update_environment (mv_environment_id row)
         (env_placed (mv_destination_runtime_id (effective row returnEvidence))
                     (mv_destination_generation (effective row returnEvidence))) d) = Ok d1 /\
    components d' = components d1;
  act_components : forall key c, components d' !! key = Some c -> components d !! key = Some c \/
    (key.1 = mv_environment_id row /\
     cc_routing_generation c = mv_destination_generation (effective row returnEvidence))
}.

Lemma alter_Some {A} (f : A -> A) (m : gmap string A) k x :
  m !! k = Some x -> alter f k m = <[k := f x]> m.
Proof.
  intros Hk. apply map_eq. intros j. destruct (decide (k = j)) as [<-|].
  - by rewrite lookup_alter_eq, lookup_insert_eq, Hk.
  - by rewrite lookup_alter_ne, lookup_insert_ne.
Qed.

Lemma effective_fields row more :
  mv_environment_id (effective row more) = mv_environment_id row /\
  mv_source_runtime_id (effective row more) = mv_source_runtime_id row /\
  mv_source_generation (effective row more) = mv_source_generation row.
Proof. by destruct more. Qed.

Lemma activate_spec id more d d' : activate id more d = Ok d' ->
  exists row e, activation id more row e d d'.
Proof.
  unfold activate, read. intros Ha. destruct (movements d !! id) as [row|] eqn:Erow; [|discriminate].
  destruct (environments d !! mv_environment_id row) as [e|] eqn:Ee; [|discriminate].
  destruct (effective_fields row more) as (E1 & E2 & E3). cbn [mbind result_bind] in Ha. inv_result. rewrite E1 in *.
  rewrite Ee in *. bools. unfold publishable in *. bools. rewrite Z.eqb_eq in *.
  rewrite ?E2, ?E3, ?Erow in *.
  destruct (mv_evidence _ !! _) as [[| | | |[|v1 vs]|]|] eqn:Eev; try discriminate.
  destruct (coverage _ _) as [[]|] eqn:Ecov; [|discriminate]. cbn [mbind result_bind] in Ha.
  destruct (store_components _ _ _ _) as [d2|] eqn:Est; [|discriminate].
  cbn [mbind result_bind] in Ha. injection Ha as <-.
  destruct (store_components_spec _ _ _ _ _ Est) as (M & E & O & R & C & Hc & _). cbn in M, E, O, R, C, Hc.
  exists row, e. split; try done.
  - match goal with H : mv_phase <$> Some row = Some _ |- _ => by injection H end.
  - cbn. rewrite E. by rewrite (alter_Some _ _ _ _ Ee).
  - cbn. rewrite M. by rewrite (alter_Some _ _ _ _ Erow).
  - exists (v1 :: vs), d2. done.
Qed.

Lemma activation_inv id more row e d d' : activation id more row e d d' -> dir_inv d -> dir_inv d'.
Proof.
  intros [Hrow He Hphase Hmid Hrt Hgen _ Henv Hmov Hops _ _ Hcomp] [Hm Hh Ho Hc Hop].
  set (e' := env_placed _ _ e) in Henv. set (row' := mv_moved _ _ _ row) in Hmov.
  destruct (Hm _ _ Hrow) as (e0 & He0 & Hfit). assert (e0 = e) as -> by congruence.
  assert (holding (mv_phase row) = true) as Hhold by (rewrite Hphase; by destruct more).
  assert (mv_destination_generation row <= en_routing_generation e' /\
          en_routing_generation e < en_routing_generation e' /\ en_movement_id e' = None) as (Hg1 & Hg2 & Hg3).
  { subst e'. destruct Hfit. destruct more; cbn; (split; [lia|split; [lia|done]]). }
  assert (forall eid e1, environments d !! eid = Some e1 -> exists e2, environments d' !! eid = Some e2 /\
    en_routing_generation e1 <= en_routing_generation e2 /\
    ((eid = mv_environment_id row /\ e2 = e') \/ (eid <> mv_environment_id row /\ e2 = e1))) as Hget.
  { intros eid e1 He1. rewrite Henv. destruct (decide (mv_environment_id row = eid)) as [<-|].
    - rewrite lookup_insert_eq. exists e'. assert (e1 = e) as -> by congruence. split; [done|]. split; [lia|auto].
    - rewrite lookup_insert_ne by done. exists e1. split; [done|]. split; [lia|auto]. }
  split.
  - intros j m. rewrite Hmov. destruct (decide (id = j)) as [<-|].
    + rewrite lookup_insert_eq. intros [= <-]. destruct (Hget _ _ He) as (e2 & He2 & _ & [[_ ->]|[? _]]); [|done].
      exists e'. split; [done|]. destruct Hfit. split; try done. cbn. by destruct more.
    + rewrite lookup_insert_ne by done. intros Hj. destruct (Hm j m Hj) as (e1 & He1 & [F1 F2 F3 F4]).
      destruct (Hget _ _ He1) as (e2 & He2 & Hle & Hcase). exists e2. split; [done|]. split; [done..|].
      destruct (holding (mv_phase m)) eqn:Eh; [|lia]. destruct Hcase as [[Heq _]|[_ ->]]; [|done].
      destruct F4 as (Hj' & _). rewrite Heq in He1. congruence.
  - intros eid e2 j. rewrite Henv, Hmov. destruct (decide (mv_environment_id row = eid)) as [<-|].
    + rewrite lookup_insert_eq. intros [= <-]. congruence.
    + rewrite lookup_insert_ne by done. intros He2 Hj.
      destruct (Hh _ _ _ He2 Hj) as (m & Hjm & Hx & Hy). exists m.
      rewrite lookup_insert_ne; [done|]. intros <-. congruence.
  - intros i j mi mj. rewrite Hmov.
    assert (forall k m, <[id:=row']> (movements d) !! k = Some m -> exists m0, movements d !! k = Some m0 /\
      mv_environment_id m = mv_environment_id m0 /\
      (open_phase (mv_phase m) = true -> open_phase (mv_phase m0) = true)) as Hback.
    { intros k m. destruct (decide (id = k)) as [<-|].
      - rewrite lookup_insert_eq. intros [= <-]. exists row. split; [done|]. split; [done|].
        intros _. by apply holding_open.
      - rewrite lookup_insert_ne by done. eauto. }
    intros (m1 & H1 & E1 & O1)%Hback (m2 & H2 & E2 & O2)%Hback Hij Hoi Hoj.
    apply (Ho i j m1 m2); auto; congruence.
  - intros eid ref c [Hcc|[Hk Hg]]%Hcomp.
    + destruct (Hc _ _ _ Hcc) as (e1 & He1 & Hg). destruct (Hget _ _ He1) as (e2 & He2 & Hle & _).
      exists e2. split; [done|lia].
    + cbn in Hk. subst eid. destruct (Hget _ _ He) as (e2 & He2 & _ & [[_ ->]|[? _]]); [|done].
      exists e'. split; [done|]. rewrite Hg. done.
  - intros j o. rewrite Hops. intros Hj. destruct (Hop j o Hj) as (e1 & He1 & Hg & Hr).
    destruct (Hget _ _ He1) as (e2 & He2 & Hle & Hcase). exists e2. split; [done|]. split; [lia|].
    destruct Hcase as [[_ ->]|[_ ->]]; auto.
Qed.

Lemma activate_inv id more d d' : activate id more d = Ok d' -> dir_inv d -> dir_inv d'.
Proof. intros (row & e & Ha)%activate_spec. by eapply activation_inv. Qed.

(** ** Entitlements *)

(** An environment only gains generations, and none while it is held. *)
Definition env_grows (e e' : Environment) : Prop :=
  en_movement_id e' = en_movement_id e /\ en_runtime_id e' = en_runtime_id e /\
  en_routing_generation e <= en_routing_generation e' /\
  (en_movement_id e <> None -> en_routing_generation e' = en_routing_generation e).

Record growth (d d' : Directory) : Prop := {
  growth_movements : movements d' = movements d;
  growth_old : forall eid e, environments d !! eid = Some e ->
    exists e', environments d' !! eid = Some e' /\ env_grows e e';
  growth_new : forall eid e', environments d' !! eid = Some e' -> environments d !! eid = None ->
    en_movement_id e' = None;
  growth_components : forall eid ref c', components d' !! (eid, ref) = Some c' ->
    components d !! (eid, ref) = Some c' \/
    exists e', environments d' !! eid = Some e' /\ cc_routing_generation c' <= en_routing_generation e';
  growth_operations : forall id o', operations d' !! id = Some o' -> operations d !! id = Some o' \/
    (op_status o' <> Running /\
     exists e', environments d' !! op_environment_id o' = Some e' /\
                op_routing_generation o' <= en_routing_generation e')
}.

Lemma growth_inv d d' : dir_inv d -> growth d d' -> dir_inv d'.
Proof.
  intros [Hm Hh Ho Hc Hop] [Gm Gold Gnew Gc Go]. split.
  - intros id m. rewrite Gm. intros Hid. destruct (Hm id m Hid) as (e & He & [F1 F2 F3 F4]).
    destruct (Gold _ _ He) as (e' & He' & E1 & E2 & E3 & E4). exists e'. split; [done|].
    split; [done..|]. destruct (holding (mv_phase m)); [|lia]. destruct F4 as (F4 & F5 & F6).
    rewrite E1, E2, E4 by congruence. done.
  - intros eid e' id He' Hid. rewrite Gm. destruct (environments d !! eid) as [e|] eqn:He.
    + destruct (Gold _ _ He) as (e2 & He2 & E1 & _). apply (Hh eid e id); [done|]. congruence.
    + rewrite (Gnew _ _ He' He) in Hid. done.
  - rewrite Gm. done.
  - intros eid ref c' [Hcc|Hnew]%Gc; [|done]. destruct (Hc _ _ _ Hcc) as (e & He & Hg).
    destruct (Gold _ _ He) as (e' & He' & _ & _ & E3 & _). exists e'. split; [done|lia].
  - intros id o' [Ho'|(Hr & e' & He' & Hg)]%Go.
    + destruct (Hop _ _ Ho') as (e & He & Hg & Hr). destruct (Gold _ _ He) as (e' & He' & E1 & _ & E3 & _).
      exists e'. rewrite E1. split; [done|]. split; [lia|done].
    + exists e'. done.
Qed.

(** The components and operations an entitlement installs belong to its environment. *)
Lemma install_spec uuids now eid desired generation n catalog d d' :
  install uuids now eid desired generation n catalog d = Ok d' ->
  movements d' = movements d /\ environments d' = environments d /\ runtimes d' = runtimes d /\
  controllers d' = controllers d /\ memberships d' = memberships d /\ events d' = events d /\
  (forall key c, components d' !! key = Some c -> components d !! key = Some c \/
     (key.1 = eid /\ cc_routing_generation c = generation)) /\
  (forall id o, operations d' !! id = Some o -> operations d !! id = Some o \/
     (op_status o = Queued /\ op_environment_id o = eid /\ op_routing_generation o = generation)) /\
  (forall id o, operations d !! id = Some o -> operations d' !! id = Some o).
Proof.
  revert n d. induction catalog as [|c catalog IH]; intros n d; cbn [install].
  - intros [= <-]. repeat (split; [done|]). auto.
  - intros Hs. past_checks Hs.
    apply IH in Hs as (E1 & E2 & E3 & E4 & E5 & E6 & Hc & Hop & Hmono). clear IH.
    set (d1 := set_components _ d) in *. set (o1 := entitled_operation _ _ _ _ _) in *.
    assert (forall id o, operations (insert_operation (uuids n) o1 d1) !! id = Some o ->
              operations d !! id = Some o \/ o = o1) as Hback.
    { intros id o. unfold insert_operation. case_match; [auto|]. cbn.
      destruct (decide (uuids n = id)) as [<-|]; [rewrite lookup_insert_eq; intros [= <-]; auto|].
      rewrite lookup_insert_ne by done. auto. }
    assert (forall id o, operations d !! id = Some o ->
              operations (insert_operation (uuids n) o1 d1) !! id = Some o) as Hfwd.
    { intros id o Hid. unfold insert_operation. case_match eqn:Eb; [done|]. cbn.
      rewrite lookup_insert_ne; [done|]. intros <-. apply orb_false_iff in Eb as [_ Eb]. bools.
      apply Eb. cbn. by exists o. }
    assert (components (insert_operation (uuids n) o1 d1) = components d1 /\
            movements (insert_operation (uuids n) o1 d1) = movements d /\
            environments (insert_operation (uuids n) o1 d1) = environments d /\
            runtimes (insert_operation (uuids n) o1 d1) = runtimes d /\
            controllers (insert_operation (uuids n) o1 d1) = controllers d /\
            memberships (insert_operation (uuids n) o1 d1) = memberships d /\
            events (insert_operation (uuids n) o1 d1) = events d) as (C1 & C2 & C3 & C4 & C5 & C6 & C7).
    { unfold insert_operation. by case_match. }
    repeat (split; [congruence|]). split; [|split].
    + intros key k [Hk|]%Hc; [|auto]. rewrite C1 in Hk. unfold d1 in Hk. cbn in Hk.
      destruct (decide ((eid, cat_componentRef c) = key)) as [<-|].
      * rewrite lookup_insert_eq in Hk. injection Hk as <-. auto.
      * rewrite lookup_insert_ne in Hk by done. auto.
    + intros id o [Hid|]%Hop; [|auto]. destruct (Hback _ _ Hid) as [?|He]; [auto|subst o; auto].
    + intros id o Hid. apply Hmono, Hfwd, Hid.
Qed.

Section Accepting.
Context (isUuid : string -> bool) (uuid : string) (uuids : nat -> string) (now : Z).

Lemma find_environment_Some name d eid : find_environment name d = Some eid ->
  exists e, environments d !! eid = Some e /\ en_purchased_name e = name.
Proof.
  unfold find_environment. destruct (js_find _ _) as [[i e]|] eqn:E; [|discriminate]. intros [= <-].
  apply js_find_Some in E as [Hin Hb]. bools. apply elem_of_map_to_list in Hin. eauto.
Qed.

Lemma env_entitled_grows owner desired e : env_grows e (env_entitled owner desired e).
Proof.
  unfold env_grows. cbn. repeat (split; [done|]). destruct (en_movement_id e); [auto with lia|].
  split; [lia|done].
Qed.

Lemma entitle_spec event d d' eid catalog : entitle isUuid uuid now event d = Ok (d', eid, catalog) ->
  exists e', environments d' = <[eid := e']> (environments d) /\
    movements d' = movements d /\ operations d' = operations d /\ components d' = components d /\
    events d' = events d /\ controllers d' = controllers d /\
    en_desired_state e' = desired_of (ev_event_type event) /\ en_observed_state e' = Pending /\
    match environments d !! eid with
    | Some e => env_grows e e' /\ catalog = installed_components eid d /\
                find_environment (ev_purchased_name event) d = Some eid /\
                (en_movement_id e = None -> en_routing_generation e < en_routing_generation e')
    | None => en_movement_id e' = None /\ eid = uuid /\ en_routing_generation e' = 1 /\
              exists p, placement d = Some p /\ en_runtime_id e' = p.1 /\ catalog = placement_components p
    end.
Proof.
  unfold entitle. intros He. destruct (find_environment _ d) as [i|] eqn:Ef.
  - destruct (find_environment_Some _ _ _ Ef) as (e & Hi & Hn). inv_result.
    exists (env_entitled (ev_subject_id event) (desired_of (ev_event_type event)) e).
    split; [by cbn; rewrite (alter_Some _ _ _ _ Hi)|]. repeat (split; [done|]). rewrite Hi.
    split; [apply env_entitled_grows|]. repeat (split; [done|]). cbn. intros ->. lia.
  - destruct (placement d) as [p|] eqn:Ep; [|discriminate].
    destruct (databaseNameForEnvironment isUuid uuid) as [databaseName|]; [|discriminate].
    cbn [mbind result_bind] in He. unfold insert_environment in He.
    destruct (bool_decide _) eqn:Eb in He; [discriminate|]. bools. cbn [orb] in He. inv_result.
    eexists. split; [done|]. repeat (split; [done|]).
    destruct (environments d !! _) as [e|] eqn:E0; [destruct Eb; by exists e|].
    split; [done|]. split; [done|]. split; [done|]. by exists p.
Qed.

Lemma acceptEntitlement_growth event d d' accepted :
  acceptEntitlement isUuid uuid uuids now event d = Ok (d', accepted) -> growth d d'.
Proof.
  unfold acceptEntitlement. intros Ha. past_checks Ha. destruct (events d !! ee_eventId event) as [replay|].
  { past_checks Ha.
    destruct (find_environment _ _); [|discriminate]. injection Ha as <- <-. split; [done| |congruence|auto|auto].
    intros eid e He. exists e. repeat split; [done|lia]. }
  destruct (entitle _ _ _ _ _) as [[[d1 eid] catalog]|] eqn:Eent; [|discriminate].
  cbn [mbind result_bind] in Ha.
  destruct (entitle_spec _ _ _ _ _ Eent) as (e' & E1 & E2 & E3 & E4 & E5 & E6 & _ & _ & Hcase).
  cbn in E1, E2, E3, E4, E5, E6, Hcase. cbn [environments set_memberships] in Ha.
  rewrite E1, lookup_insert_eq in Ha. destruct (en_routing_generation e' =? 0); [discriminate|].
  past_checks Ha. destruct (install _ _ _ _ _ _ _ _) as [d2|] eqn:Ei; [|discriminate].
  injection Ha as <- <-.
  destruct (install_spec _ _ _ _ _ _ _ _ _ Ei) as (I1 & I2 & _ & _ & _ & _ & Ic & Io & _).
  cbn in I1, I2, Ic, Io. rewrite E1 in I2. split; [congruence|..].
  - intros i e He. rewrite I2. destruct (decide (eid = i)) as [<-|].
    + exists e'. rewrite lookup_insert_eq. rewrite He in Hcase. destruct Hcase as [? _]. done.
    + exists e. rewrite lookup_insert_ne by done. repeat split; [done|lia].
  - intros i e Hi Hn. rewrite I2 in Hi. destruct (decide (eid = i)) as [<-|].
    + rewrite lookup_insert_eq in Hi. injection Hi as <-. rewrite Hn in Hcase. by destruct Hcase.
    + rewrite lookup_insert_ne in Hi by done. congruence.
  - intros i ref c [Hc|[Hk Hg]]%Ic; [left; by rewrite <- E4|]. right. cbn in Hk. subst i. exists e'.
    rewrite I2, lookup_insert_eq. split; [done|lia].
  - intros i o [Ho|(Hs & He & Hg)]%Io; [left; by rewrite <- E3|]. right. rewrite Hs. split; [done|].
    exists e'. rewrite I2, He, lookup_insert_eq. split; [done|lia].
Qed.
End Accepting.

(** ** All steps *)

Section Reachability.
Context `{Collation} (isUuid : string -> bool).

Lemma dir_step_inv d d' : dir_step isUuid d d' -> dir_inv d -> dir_inv d'.
Proof.
  destruct 1; intros Hd.
  - eapply frame_inv; [done|]. by eapply register_frame.
  - eapply frame_inv; [done|]. by eapply default_frame.
  - by eapply begin_inv.
  - by eapply advance_inv.
  - by eapply requestReturn_inv.
  - by eapply activate_inv.
  - eapply frame_inv; [done|]. apply frame_controllers.
  - eapply frame_inv; [done|]. apply frame_controllers.
  - eapply growth_inv; [done|]. by eapply acceptEntitlement_growth.
  - eapply frame_inv; [done|]. apply claim_frame.
  - eapply frame_inv; [done|]. by eapply finish_frame.
  - eapply frame_inv; [done|]. apply fail_frame.
  - eapply frame_inv; [done|]. by eapply reconcile_customers_frame.
Qed.

Lemma initial_inv : dir_inv initial_directory.
Proof. split; cbn; intros; rewrite ?lookup_empty in *; done. Qed.

Lemma dir_steps_inv d d' : rtc (dir_step isUuid) d d' -> dir_inv d -> dir_inv d'.
Proof. induction 1; eauto using dir_step_inv. Qed.
End Reachability.
