(* ===== verification/Fencing.v ===== *)
(** * What the directory guarantees

    The properties of the system of [Placement.v]: the generation of a customer
    identifies its placement, stale workers and held customers are fenced off,
    an activation publishes exactly what was verified, revocation wins, and the
    controller loop ends. *)

From S2P Require Import Prelude Contracts Directory Movement Provisioning Customers Placement.
From stdpp Require Import relations.

Open Scope stdpp_scope.
Open Scope js_scope.
Local Open Scope Z_scope.

(** ** The phases of a movement *)

Inductive phase_edge : MovementPhase -> MovementPhase -> Prop :=
| EdgeFence : phase_edge Paused Fenced
| EdgeCopy : phase_edge Fenced Copied
| EdgeVerify : phase_edge Copied Verified
| EdgeActivate : phase_edge Verified Activated
| EdgeObserve : phase_edge Activated Completed
| EdgeSupersede : phase_edge Activated Superseded
| EdgeReturn p : p ∈ [Paused; Fenced; Copied; Verified] -> phase_edge p Returning
| EdgeCancel : phase_edge Returning Cancelled.

(** What [begin] wrote and nothing changes. *)
Definition movement_input (m : Movement) :=
  (mv_environment_id m, mv_source_runtime_id m, mv_destination_runtime_id m, mv_source_generation m,
   mv_destination_generation m, mv_mode m, mv_rollback_of m, mv_accept_divergence m).

Definition movement_later (m m' : Movement) : Prop :=
  movement_input m' = movement_input m /\ rtc phase_edge (mv_phase m) (mv_phase m').

(** An environment afterwards: a later generation, or the same one at the same place. *)
Definition placement_later (e e' : Environment) : Prop :=
  en_routing_generation e < en_routing_generation e' \/
  (en_routing_generation e' = en_routing_generation e /\ en_runtime_id e' = en_runtime_id e).

#[export] Instance movement_later_preorder : PreOrder movement_later.
Proof.
  split.
  - intros m. split; [done|apply rtc_refl].
  - intros m1 m2 m3 [E1 P1] [E2 P2]. split; [congruence|]. by etrans.
Qed.

#[export] Instance placement_later_preorder : PreOrder placement_later.
Proof.
  split; unfold placement_later.
  - intros e. auto.
  - intros e1 e2 e3 [?|[? ?]] [?|[? ?]]; try (left; lia). right. split; congruence.
Qed.

Lemma update_movement_later d id f j m :
  (forall m, movements d !! id = Some m -> movement_later m (f m)) ->
  movements d !! j = Some m ->
  exists m', movements (update_movement id f d) !! j = Some m' /\ movement_later m m'.
Proof.
  intros Hf Hj. cbn. destruct (decide (id = j)) as [<-|].
  - rewrite lookup_alter_eq, Hj. cbn. eauto.
  - rewrite lookup_alter_ne by done. eexists. split; [done|reflexivity].
Qed.

Section Later.
Context `{Collation} (isUuid : string -> bool).

Lemma begin_later input uuid d d' i j m : begin input uuid d = Ok (d', i) ->
  movements d !! j = Some m -> exists m', movements d' !! j = Some m' /\ movement_later m m'.
Proof.
  intros Hb Hj. apply begin_spec in Hb as [[-> _]|(e & d1 & Hid & _ & _ & _ & Hs & _ & _ & ->)].
  { exists m. split; [done|reflexivity]. }
  assert (exists m', movements d1 !! j = Some m' /\ movement_later m m') as (m' & Hm' & Hl).
  { unfold supersede in Hs. destruct (truthy _) as [r|]; inv_result; [|exists m; split; [done|reflexivity]].
    destruct (movements d !! r) as [mr|] eqn:Er; inv_result.
    bools. case_bool_decide; [|exists m; split; [done|reflexivity]].
    apply update_movement_later; [|done]. intros m0 Hm0. split; [done|]. cbn.
    replace (mv_phase m0) with Activated by congruence. apply rtc_once. constructor. }
  exists m'. split; [|done]. cbn. rewrite lookup_insert_ne; [done|]. intros <-. congruence.
Qed.

Lemma dir_step_movement d d' j m : dir_step isUuid d d' -> movements d !! j = Some m ->
  exists m', movements d' !! j = Some m' /\ movement_later m m'.
Proof.
  intros Hstep Hj.
  assert (movements d' = movements d -> exists m', movements d' !! j = Some m' /\ movement_later m m') as Hsame.
  { intros ->. exists m. split; [done|reflexivity]. }
  destruct Hstep as [? ? d d' Hs|? ? ? d d' Hs|? ? d d' i Hs|i from to more d d' Hs|i d d' Hs|i more d d' Hs
    | | |? ? ? ? d d' ? Hs|? ? ? ? ? d|? ? ? d d' Hs|? ? ? ? d|? ? ? ? d d' Hs].
  - apply Hsame. by eapply frame_movements, register_frame.
  - apply Hsame. by eapply frame_movements, default_frame.
  - by eapply begin_later.
  - unfold advance in Hs. inv_result. bools. apply update_movement_later; [|done]. intros m0 Hm0.
    split; [done|]. cbn. rewrite Hm0 in *. simplify_eq/=.
    match goal with E : successor (mv_phase m0) = Some to |- _ => revert E end.
    destruct (mv_phase m0); intros [= <-]; apply rtc_once; constructor.
  - unfold requestReturn in Hs. inv_result. bools. apply update_movement_later; [|done]. intros m0 Hm0.
    split; [done|]. cbn. rewrite Hm0 in *. unfold returnable in *.
    destruct (mv_phase m0); cbn in *; try discriminate; try apply rtc_refl;
      apply rtc_once; constructor; set_solver.
  - apply activate_spec in Hs as (row & e & Ha). rewrite (act_movements _ _ _ _ _ _ Ha).
    destruct (decide (i = j)) as [<-|].
    + rewrite lookup_insert_eq. eexists. split; [done|].
      assert (row = m) as -> by (pose proof (act_row _ _ _ _ _ _ Ha); congruence).
      split; [done|]. cbn. rewrite (act_phase _ _ _ _ _ _ Ha). destruct more; apply rtc_once; constructor.
    + rewrite lookup_insert_ne by done. exists m. split; [done|reflexivity].
  - by apply Hsame.
  - by apply Hsame.
  - apply Hsame. by eapply growth_movements, acceptEntitlement_growth.
  - apply Hsame. apply frame_movements, claim_frame.
  - apply Hsame. by eapply frame_movements, finish_frame.
  - apply Hsame. apply frame_movements, fail_frame.
  - apply Hsame. by eapply frame_movements, reconcile_customers_frame.
Qed.

Lemma dir_steps_movement d d' j m : rtc (dir_step isUuid) d d' -> movements d !! j = Some m ->
  exists m', movements d' !! j = Some m' /\ movement_later m m'.
Proof.
  intros Hs. revert m. induction Hs as [d|d1 d2 d3 H1 Hs IH]; intros m Hj.
  - exists m. split; [done|reflexivity].
  - destruct (dir_step_movement _ _ _ _ H1 Hj) as (m2 & Hj2 & L2).
    destruct (IH m2 Hj2) as (m3 & Hj3 & L3). exists m3. split; [done|]. by etrans.
Qed.

(** ** Generations *)

Lemma frame_later d d' eid e : frame d d' -> environments d !! eid = Some e ->
  exists e', environments d' !! eid = Some e' /\ placement_later e e'.
Proof.
  intros Hf He. destruct (frame_lookup _ _ _ _ Hf He) as (e' & He' & Hp). placed_eq Hp.
  exists e'. split; [done|]. by right.
Qed.

Lemma dir_step_placement d d' eid e : dir_step isUuid d d' -> dir_inv d ->
  environments d !! eid = Some e ->
  exists e', environments d' !! eid = Some e' /\ placement_later e e'.
Proof.
  intros Hstep Hd He.
  assert (frame d d' -> exists e', environments d' !! eid = Some e' /\ placement_later e e') as Hframe.
  { intros Hf. by eapply frame_later. }
  assert (environments d' = environments d ->
          exists e', environments d' !! eid = Some e' /\ placement_later e e') as Hsame.
  { intros ->. exists e. split; [done|reflexivity]. }
  destruct Hstep as [? ? d d' Hs|? ? ? d d' Hs|input ? d d' i Hs|i from to more d d' Hs|i d d' Hs|i more d d' Hs
    | | |? ? ? ? d d' ? Hs|? ? ? ? ? d|? ? ? d d' Hs|? ? ? ? d|? ? ? ? d d' Hs].
  - apply Hframe. by eapply register_frame.
  - apply Hframe. by eapply default_frame.
  - apply begin_spec in Hs as [[-> _]|(e1 & d1 & Hid & He1 & _ & _ & Hs & _ & _ & ->)]; [by apply Hsame|].
    destruct (supersede_spec _ _ _ Hs) as (_ & E1 & _). cbn. rewrite E1.
    destruct (decide (bi_environmentId input = eid)) as [<-|].
    + rewrite lookup_alter_eq, He. cbn. eexists. split; [done|]. by right.
    + rewrite lookup_alter_ne by done. exists e. split; [done|reflexivity].
  - apply Hsame. unfold advance in Hs. by inv_result.
  - apply Hsame. unfold requestReturn in Hs. by inv_result.
  - apply activate_spec in Hs as (row & e1 & Ha). rewrite (act_environments _ _ _ _ _ _ Ha).
    destruct (decide (mv_environment_id row = eid)) as [<-|].
    + rewrite lookup_insert_eq. eexists. split; [done|]. left.
      destruct Ha as [Hrow He1 _ _ _ Hg _ _ _ _ _ _ _]. assert (e1 = e) as -> by congruence.
      destruct (inv_movement _ Hd _ _ Hrow) as (e2 & _ & Hfit). destruct Hfit. cbn.
      destruct more; cbn; lia.
    + rewrite lookup_insert_ne by done. exists e. split; [done|reflexivity].
  - by apply Hsame.
  - by apply Hsame.
  - destruct (growth_old _ _ (acceptEntitlement_growth _ _ _ _ _ _ _ _ Hs) _ _ He) as (e' & He' & _ & E2 & E3 & _).
    exists e'. split; [done|]. unfold placement_later.
    destruct (Z.lt_trichotomy (en_routing_generation e) (en_routing_generation e')) as [?|[?|?]]; [auto|auto|lia].
  - apply Hframe, claim_frame.
  - apply Hframe. by eapply finish_frame.
  - apply Hframe, fail_frame.
  - apply Hframe. by eapply reconcile_customers_frame.
Qed.

Lemma dir_steps_placement d d' eid e : rtc (dir_step isUuid) d d' -> dir_inv d ->
  environments d !! eid = Some e ->
  exists e', environments d' !! eid = Some e' /\ placement_later e e'.
Proof.
  intros Hs. revert e. induction Hs as [d|d1 d2 d3 H1 Hs IH]; intros e Hd He.
  - exists e. split; [done|reflexivity].
  - destruct (dir_step_placement _ _ _ _ H1 Hd He) as (e2 & He2 & L2).
    destruct (IH e2 (dir_step_inv _ _ _ H1 Hd) He2) as (e3 & He3 & L3).
    exists e3. split; [done|]. by etrans.
Qed.

Lemma placement_later_generation e e' : placement_later e e' ->
  en_routing_generation e <= en_routing_generation e'.
Proof. unfold placement_later. lia. Qed.
End Later.

(** ** A customer that moves

    A purchase, provisioned after a first worker was lost, moved from [primary]
    to [second]. *)

Module Demo.

Definition anyUuid (_ : string) : bool := true.
Definition unlocked (_ : string) : bool := false.
Definition ok_or (d : Directory) (m : result Directory) : Directory :=
  match m with Ok d => d | Throw _ => d end.

Definition shaA := "aaaaaaaaaaaaaaaaaaaaaaaaaaaaaaaaaaaaaaaa".
Definition shaB := "bbbbbbbbbbbbbbbbbbbbbbbbbbbbbbbbbbbbbbbb".
Definition customer := "00000000-0000-4000-8000-000000000001".
Definition uuids (prefix : string) (n : nat) : string := prefix +:+ pretty n.

Definition grant : EntitlementEvent :=
  {| ee_eventId := "event-1";
     ee_row := {| ev_event_type := PurchaseGranted; ev_subject_id := "alice";
                  ev_purchased_name := "alice"; ev_occurred_at := 5 |} |}.
Definition revocation : EntitlementEvent :=
  {| ee_eventId := "event-2";
     ee_row := {| ev_event_type := PurchaseRevoked; ev_subject_id := "alice";
                  ev_purchased_name := "alice"; ev_occurred_at := 9 |} |}.

Definition accept (event : EntitlementEvent) (prefix : string) (now : Z) (d : Directory) : Directory :=
  match acceptEntitlement anyUuid customer (uuids prefix) now event d with
  | Ok (d, _) => d | Throw _ => d end.

(** One worker's turn: claim and finish. *)
Definition claimed (instanceId : string) (now : Z) (d : Directory) :=
  claim instanceId 10 "primary" now unlocked d.
Definition work (instanceId : string) (now : Z) (d : Directory) : Directory :=
  match claimed instanceId now d with
  | (d, Some operation) => ok_or d (finish instanceId "primary" operation d)
  | (d, None) => d
  end.

Definition registered := ok_or initial_directory (registerRuntime "primary" shaA initial_directory).
Definition both := ok_or registered (registerRuntime "second" shaB registered).
Definition purchased_ := accept grant "op-" 0 both.
Definition lost := claimed "A" 0 purchased_.
Definition ready1 := work "B" 100 lost.1.
Definition ready2 := work "B" 200 ready1.
Definition ready := work "B" 300 ready2.

Definition request : BeginInput :=
  {| bi_id := Some "move-1"; bi_environmentId := customer; bi_sourceRuntimeId := "primary";
     bi_destinationRuntimeId := "second"; bi_expectedGeneration := 1; bi_rollbackOf := None;
     bi_acceptDivergence := None |}.
Definition begun_ := match begin request "" ready with Ok (d, _) => d | Throw _ => ready end.

Definition verified_entry (c : CatalogComponent) : json :=
  JObject [("component_ref", JString (cat_componentRef c));
           ("schema_version", JNumber (cat_targetSchemaVersion c));
           ("migration_set_digest", JString (cat_migrationSetDigest c))].
Definition verification : evidence :=
  {["verifiedComponents" := JArray (verified_entry <$> customerComponentCatalog)]}.

Definition fenced := ok_or begun_ (advance "move-1" Paused Fenced ∅ begun_).
Definition copied := ok_or fenced (advance "move-1" Fenced Copied ∅ fenced).
Definition verified := ok_or copied (advance "move-1" Copied Verified verification copied).
Definition activated := ok_or verified (activate "move-1" None verified).

(** The customer revoked and granted again while worker A is lost. *)
Definition grant2 : EntitlementEvent :=
  {| ee_eventId := "event-3";
     ee_row := {| ev_event_type := PurchaseGranted; ev_subject_id := "alice";
                  ev_purchased_name := "alice"; ev_occurred_at := 12 |} |}.
Definition revoked := accept revocation "revoke-" 20 lost.1.
Definition granted := accept grant2 "grant-" 30 revoked.
Definition stuck := work "B" 300 (work "B" 200 (work "B" 100 granted)).
Definition retry : BeginInput :=
  {| bi_id := Some "move-2"; bi_environmentId := customer; bi_sourceRuntimeId := "primary";
     bi_destinationRuntimeId := "second"; bi_expectedGeneration := 3; bi_rollbackOf := None;
     bi_acceptDivergence := None |}.

Definition environment (d : Directory) : Environment :=
  default {| en_purchased_name := ""; en_owner_subject_id := ""; en_database_name := "";
             en_desired_state := DesiredReady; en_observed_state := Unknown;
             en_routing_generation := 0; en_runtime_id := ""; en_movement_id := None;
             en_last_error := None; en_created_at := 0 |} (environments d !! customer).
Definition movement (d : Directory) : Movement := default (begun request) (movements d !! "move-1").
Definition stranded_row : OperationRow :=
  default {| op_environment_id := ""; op_component_ref := ""; op_action := Reconcile;
             op_status := StatusUnknown; op_target_schema_version := 0; op_migration_set_digest := "";
             op_routing_generation := 0; op_attempt := 0; op_lease_owner := None;
             op_lease_expires_at := None; op_last_error := None; op_created_at := 0 |}
    (operations stuck !! "op-0").
Definition held_operation : Operation :=
  default {| wk_id := ""; wk_environmentId := ""; wk_databaseName := ""; wk_componentRef := "";
             wk_action := Reconcile; wk_targetSchemaVersion := 0; wk_migrationSetDigest := "";
             wk_routingGeneration := 0 |} lost.2.
End Demo.

(** The demo's states are what the operations return, when they return. *)
Lemma ok_or_eq d m : is_ok m = true -> m = Ok (Demo.ok_or d m).
Proof. by destruct m. Qed.

Lemma claimed_eq o : Demo.lost.2 = Some o -> Demo.claimed "A" 0 Demo.purchased_ = (Demo.lost.1, Some o).
Proof. intros <-. apply surjective_pairing. Qed.

Lemma accept_eq event prefix now d accepted :
  (snd <$> acceptEntitlement Demo.anyUuid Demo.customer (Demo.uuids prefix) now event d) = Ok accepted ->
  acceptEntitlement Demo.anyUuid Demo.customer (Demo.uuids prefix) now event d =
    Ok (Demo.accept event prefix now d, accepted).
Proof. unfold Demo.accept. destruct (acceptEntitlement _ _ _ _ _ _) as [[d' a]|]; [|done]. by intros [= ->]. Qed.

Section DemoReachable.
Context `{Collation}.

Abbreviation demo_steps := (rtc (dir_step Demo.anyUuid)).

Lemma demo_ok d m : (forall d', m = Ok d' -> dir_step Demo.anyUuid d d') -> demo_steps d (Demo.ok_or d m).
Proof. intros Hm. destruct m as [d'|]; [by apply rtc_once, Hm|apply rtc_refl]. Qed.

Lemma demo_accept event prefix now d : demo_steps d (Demo.accept event prefix now d).
Proof.
  unfold Demo.accept. destruct (acceptEntitlement _ _ _ _ _ _) as [[d' r]|] eqn:E; [|apply rtc_refl].
  apply rtc_once. by eapply StepEntitle.
Qed.

Lemma demo_claimed instanceId now d : demo_steps d (Demo.claimed instanceId now d).1.
Proof. apply rtc_once. apply StepClaim. Qed.

Lemma demo_work instanceId now d : demo_steps d (Demo.work instanceId now d).
Proof.
  unfold Demo.work. pose proof (demo_claimed instanceId now d) as Hc.
  destruct (Demo.claimed instanceId now d) as [d1 [op|]]; [|done]. etrans; [exact Hc|].
  apply demo_ok. intros. by eapply StepFinish.
Qed.

Lemma demo_lost_ready : demo_steps Demo.lost.1 Demo.ready.
Proof. do 3 (etrans; [|apply demo_work]). apply rtc_refl. Qed.

Lemma demo_purchased : demo_steps initial_directory Demo.purchased_.
Proof.
  etrans; [|apply demo_accept]. etrans; apply demo_ok; intros; by eapply StepRegister.
Qed.

Lemma demo_begun : demo_steps Demo.ready Demo.begun_.
Proof.
  unfold Demo.begun_. destruct (begin _ _ _) as [[d' i]|] eqn:E; [|apply rtc_refl].
  apply rtc_once. by eapply StepBegin.
Qed.

Lemma demo_verified : demo_steps Demo.begun_ Demo.verified.
Proof. do 3 (etrans; [|apply demo_ok; intros; by eapply StepAdvance]). apply rtc_refl. Qed.

Lemma demo_activated : demo_steps Demo.verified Demo.activated.
Proof. apply demo_ok. intros. by eapply StepActivate. Qed.

Lemma demo_stuck : demo_steps initial_directory Demo.stuck.
Proof.
  etrans; [apply demo_purchased|]. etrans; [apply (demo_claimed "A" 0)|].
  do 2 (etrans; [apply demo_accept|]). do 2 (etrans; [apply demo_work|]). apply demo_work.
Qed.

Lemma demo_ready : demo_steps initial_directory Demo.ready.
Proof.
  etrans; [apply demo_purchased|]. etrans; [apply (demo_claimed "A" 0)|]. apply demo_lost_ready.
Qed.

Lemma demo_all : demo_steps initial_directory Demo.activated.
Proof.
  etrans; [apply demo_ready|]. etrans; [apply demo_begun|]. etrans; [apply demo_verified|].
  apply demo_activated.
Qed.
End DemoReachable.

(** ** Lemmas for the properties *)

Section Lemmas.
Context `{Collation} (isUuid : string -> bool).

Lemma claim_spec instanceId lease runtimeId now locked d d1 op :
  claim instanceId lease runtimeId now locked d = (d1, Some op) ->
  exists e, environments d !! wk_environmentId op = Some e /\ en_runtime_id e = runtimeId /\
            en_movement_id e = None /\ wk_routingGeneration op = en_routing_generation e /\
            exists o, operations d !! wk_id op = Some o /\ op_environment_id o = wk_environmentId op /\
                      op_routing_generation o = wk_routingGeneration op.
Proof.
  unfold claim. destruct (next_operation _ _ _ _) as [[id row]|] eqn:E; [|discriminate].
  apply next_operation_claimable in E as [Ho Hc].
  apply claimable_environment in Hc as (e & He & Hrt & Hn & Hg). intros [= <- <-]. cbn. eauto 10.
Qed.

(** Work of an older generation is refused, and its failure is not recorded. *)
Lemma stale_operation instanceId runtimeId op d e :
  environments d !! wk_environmentId op = Some e ->
  wk_routingGeneration op < en_routing_generation e ->
  finish instanceId runtimeId op d = Throw "customer placement changed during provisioning" /\
  forall error, environments (fail_operation instanceId runtimeId op error d) = environments d /\
                components (fail_operation instanceId runtimeId op error d) = components d.
Proof.
  intros He Hlt. assert (still_placed runtimeId op d = false) as Hs.
  { unfold still_placed. rewrite He. destruct (en_routing_generation e =? wk_routingGeneration op) eqn:E;
      [rewrite Z.eqb_eq in E; lia|]. by rewrite andb_false_r. }
  unfold finish, fail_operation. rewrite Hs. cbn. split; [done|]. intros error. by case_match.
Qed.

Lemma authorize_spec subject eid ref actions d g : authorize subject eid ref actions d = Ok g ->
  exists e role, environments d !! eid = Some e /\ memberships d !! (eid, subject) = Some role /\
    membershipAllows (role_text role) ref actions = true /\
    en_movement_id e = None /\ en_desired_state e = DesiredReady /\ en_observed_state e = Ready /\
    gr_runtimeId g = en_runtime_id e /\ gr_routingGeneration g = en_routing_generation e /\
    gr_membershipRole g = role /\ gr_databaseName g = en_database_name e.
Proof.
  unfold authorize. destruct (environments d !! eid) as [e|]; [|discriminate].
  destruct (memberships d !! (eid, subject)) as [role|]; [|discriminate].
  destruct (components d !! (eid, ref)) as [c|]; [|discriminate]. intros Ha. inv_result. bools.
  exists e, role. cbn. done.
Qed.

Lemma not_ok {A} (m : result A) : (forall a, m <> Ok a) -> is_ok m = false.
Proof. destruct m as [a|]; [intros Hm; by destruct (Hm a)|done]. Qed.

(** *** What an activation stores *)

Definition verified_row (generation : Z) (c : Component) : Prop :=
  cc_observed_state c = Ready /\ cc_routing_generation c = generation /\
  cc_observed_schema_version c = Some (cc_target_schema_version c) /\
  cc_observed_migration_set_digest c = Some (cc_migration_set_digest c).

Lemma store_one eid generation v d d' : upsert_component eid generation v d = Ok d' ->
  (exists c, components d' !! (eid, vc_component_ref v) = Some c /\ verified_row generation c) /\
  (forall key, key <> (eid, vc_component_ref v) -> components d' !! key = components d !! key).
Proof.
  unfold upsert_component. intros Hu. inv_result. cbn. split.
  - rewrite lookup_insert_eq. eexists. done.
  - intros key Hk. by rewrite lookup_insert_ne.
Qed.

Lemma store_covers eid generation values d d' : store_components eid generation values d = Ok d' ->
  (forall ref, (exists c, components d !! (eid, ref) = Some c /\ verified_row generation c) \/
               (exists v, v ∈ values /\ property "component_ref" v = Ok (Some (JString ref))) ->
               exists c, components d' !! (eid, ref) = Some c /\ verified_row generation c) /\
  (forall key, key.1 <> eid -> components d' !! key = components d !! key).
Proof.
  revert d. induction values as [|v0 values IH]; intros d; cbn [store_components].
  - intros [= <-]. split; [|done]. intros ref [?|(v & Hv & _)]; [done|]. by apply not_elem_of_nil in Hv.
  - intros Hs. destruct (verified_component v0) as [v|] eqn:Ev; [|discriminate Hs].
    cbn [mbind result_bind] in Hs. destruct (upsert_component eid generation v d) as [d1|] eqn:Eu; [|discriminate Hs].
    cbn [mbind result_bind] in Hs. destruct (IH d1 Hs) as [Hcov Hother].
    destruct (store_one _ _ _ _ _ Eu) as [Hone Hkeep]. split.
    + intros ref Href. apply Hcov. destruct (decide (ref = vc_component_ref v)) as [->|Hne]; [by left|].
      destruct Href as [Hc|(w & [->|Hw]%elem_of_cons & Hp)]; [|exfalso; apply Hne|right; eauto].
      * left. rewrite Hkeep; [done|]. congruence.
      * unfold verified_component in Ev. rewrite Hp in Ev. cbn [mbind result_bind] in Ev.
        destruct (property "schema_version" v0) as [vs|]; [|discriminate].
        destruct (property "migration_set_digest" v0) as [vd|]; [|discriminate].
        cbn [mbind result_bind] in Ev. destruct vs as [[]|], vd as [[]|]; inv_result. done.
    + intros key Hk. rewrite Hother by done. apply Hkeep. intros ->. done.
Qed.

Lemma coverage_spec values required ref : coverage values required = Ok tt -> ref ∈ required ->
  exists v, v ∈ values /\ property "component_ref" v = Ok (Some (JString ref)).
Proof.
  unfold coverage. intros Hc Href. destruct (properties "component_ref" values) as [refs|] eqn:E; [|discriminate].
  cbn [mbind result_bind] in Hc. inv_result. bools.
  match goal with Hx : forallb _ required = true |- _ =>
    rewrite forallb_elem in Hx; specialize (Hx ref Href); apply existsb_elem in Hx as (r & Hr & Hs) end.
  assert (r = Some (JString ref)) as -> by (destruct r as [[]|]; cbn in Hs; try done; by apply String.eqb_eq in Hs as ->).
  clear - E Hr. revert refs E Hr. induction values as [|v values IH]; intros refs; cbn.
  - intros [= <-] Hr. by apply not_elem_of_nil in Hr.
  - destruct (property "component_ref" v) as [p|] eqn:Ep; [|done].
    destruct (properties "component_ref" values) as [ps|]; [|done]. cbn. intros [= <-] [->|Hr]%elem_of_cons.
    + exists v. split; [left|done].
    + destruct (IH ps eq_refl Hr) as (w & Hw & Hp). exists w. split; [by right|done].
Qed.

Lemma elem_of_required eid ref d : ref ∈ required_components eid d <-> is_Some (components d !! (eid, ref)).
Proof.
  unfold required_components. rewrite list_elem_of_fmap. split.
  - intros ([[eid' ref'] c] & -> & [Hk Hin]%list_elem_of_filter). cbn in Hk. subst eid'.
    apply elem_of_map_to_list in Hin. by exists c.
  - intros [c Hc]. exists ((eid, ref), c). split; [done|]. apply list_elem_of_filter. split; [done|].
    by apply elem_of_map_to_list.
Qed.
End Lemmas.

(** ** Properties *)

(** C6: In every directory that committed transactions of the three programs can
    produce, in any order: a movement in progress holds exactly its environment,
    which still is at the source with the generation the movement began at; an
    environment is held by at most one movement and has at most one open one;
    components and operations never carry a generation the environment has not
    reached; and no operation of a held environment is running. *)
Theorem directory_invariant `{Collation} (isUuid : string -> bool) (d : Directory)
    (Hreach : rtc (dir_step isUuid) initial_directory d) : dir_inv d.
Proof. eapply dir_steps_inv; [exact Hreach|]. apply initial_inv. Qed.

Lemma directory_invariant_witness : dir_inv Demo.activated.
Proof.
  exact (@directory_invariant bytes_collation Demo.anyUuid Demo.activated (@demo_all bytes_collation)).
Defined.

(** C1: The routing generation is a fence: it never decreases, and as long as it
    is the same the customer is on the same runtime, whatever movements, rollbacks
    and entitlement changes came in between. *)
Theorem generation_identifies_placement `{Collation} (isUuid : string -> bool) (d d' : Directory)
    (eid : string) (e : Environment)
    (Hreach : rtc (dir_step isUuid) initial_directory d) (Hlater : rtc (dir_step isUuid) d d')
    (He : environments d !! eid = Some e) :
  exists e', environments d' !! eid = Some e' /\
    en_routing_generation e <= en_routing_generation e' /\
    (en_routing_generation e' = en_routing_generation e -> en_runtime_id e' = en_runtime_id e).
Proof.
  assert (dir_inv d) as Hd by (eapply dir_steps_inv; [exact Hreach|apply initial_inv]).
  destruct (dir_steps_placement _ _ _ _ _ Hlater Hd He) as (e' & He' & Hl).
  exists e'. split; [done|]. split; [by apply placement_later_generation|].
  destruct Hl as [?|[_ ?]]; [lia|done].
Qed.

Lemma generation_identifies_placement_witness :
  exists e', environments Demo.activated !! Demo.customer = Some e' /\
    en_routing_generation (Demo.environment Demo.ready) <= en_routing_generation e' /\
    (en_routing_generation e' = en_routing_generation (Demo.environment Demo.ready) ->
     en_runtime_id e' = en_runtime_id (Demo.environment Demo.ready)).
Proof.
  apply (@generation_identifies_placement bytes_collation Demo.anyUuid Demo.ready Demo.activated).
  - apply demo_ready.
  - etrans; [apply demo_begun|]. etrans; [apply demo_verified|]. apply demo_activated.
  - vm_compute. reflexivity.
Defined.

(** A movement keeps the input it was begun with, and its phase only moves
    along the declared transitions, under all interleavings; so a retried [begin]
    with the same input returns the same movement and changes nothing. *)
Theorem movement_history `{Collation} (isUuid : string -> bool) (d d' : Directory) (id : string)
    (m : Movement) (input : BeginInput) (uuid : string)
    (Hlater : rtc (dir_step isUuid) d d') (Hm : movements d !! id = Some m)
    (Hid : bi_id input = Some id) (Hsame : same_input m input = true)
    (Hgeneration : 0 < bi_expectedGeneration input < MAX_SAFE_INTEGER) :
  begin input uuid d' = Ok (d', id) /\
  exists m', movements d' !! id = Some m' /\ rtc phase_edge (mv_phase m) (mv_phase m').
Proof.
  destruct (dir_steps_movement _ _ _ _ _ Hlater Hm) as (m' & Hm' & Hinput & Hphase).
  split; [|eauto]. unfold begin. rewrite Hid. change (default uuid (Some id)) with id. cbv zeta. rewrite Hm'.
  replace (_ || _) with false.
  2:{ unfold isSafeInteger, MAX_SAFE_INTEGER in *. symmetry. rewrite !orb_false_iff, negb_false_iff, andb_true_iff.
      rewrite !Z.leb_le, Z.ltb_ge, Z.leb_gt. lia. }
  replace (same_input m' input) with true; [done|].
  rewrite <- Hsame. unfold same_input, movement_input in *. injection Hinput as E1 E2 E3 E4 _ _ E7 E8. by rewrite E1, E2, E3, E4, E7, E8.
Qed.

Lemma movement_history_witness :
  begin Demo.request "" Demo.activated = Ok (Demo.activated, "move-1") /\
  exists m', movements Demo.activated !! "move-1" = Some m' /\
             rtc phase_edge (mv_phase (Demo.movement Demo.begun_)) (mv_phase m').
Proof.
  apply (@movement_history bytes_collation Demo.anyUuid Demo.begun_).
  - etrans; [apply demo_verified|]. apply demo_activated.
  - vm_compute. reflexivity.
  - reflexivity.
  - vm_compute. reflexivity.
  - split; reflexivity.
Defined.

(** Once a customer's placement was published anew, by an activation, a return or
    a rollback, no operation claimed before it can finish any more, not even on
    the runtime the customer came back to, and its failure reaches neither the
    environment nor its components. *)
Theorem stale_workers_are_fenced `{Collation} (isUuid : string -> bool) (d d1 d2 d3 d4 : Directory)
    (instanceId runtimeId mid : string) (lease now : Z) (locked : string -> bool) (op : Operation)
    (more : option evidence) (row : Movement)
    (Hreach : rtc (dir_step isUuid) initial_directory d)
    (Hclaim : claim instanceId lease runtimeId now locked d = (d1, Some op))
    (Hbefore : rtc (dir_step isUuid) d1 d2)
    (Hrow : movements d2 !! mid = Some row) (Henv : mv_environment_id row = wk_environmentId op)
    (Hactivate : activate mid more d2 = Ok d3) (Hafter : rtc (dir_step isUuid) d3 d4) :
  finish instanceId runtimeId op d4 = Throw "customer placement changed during provisioning" /\
  forall error, environments (fail_operation instanceId runtimeId op error d4) = environments d4 /\
                components (fail_operation instanceId runtimeId op error d4) = components d4.
Proof.
  destruct (claim_spec _ _ _ _ _ _ _ _ Hclaim) as (e & He & _ & _ & Hg & _).
  assert (dir_inv d) as Hd by (eapply dir_steps_inv; [exact Hreach|apply initial_inv]).
  assert (rtc (dir_step isUuid) d d2) as H2.
  { eapply rtc_l; [|exact Hbefore]. replace d1 with (claim instanceId lease runtimeId now locked d).1
      by (by rewrite Hclaim). apply StepClaim. }
  destruct (dir_steps_placement _ _ _ _ _ H2 Hd He) as (e2 & He2 & Hl2%placement_later_generation).
  assert (dir_inv d2) as Hd2 by (by eapply dir_steps_inv).
  pose proof (activate_spec _ _ _ _ Hactivate) as (row' & e2' & Ha).
  assert (row' = row) as -> by (pose proof (act_row _ _ _ _ _ _ Ha); congruence).
  assert (environments d3 !! wk_environmentId op = Some (env_placed (mv_destination_runtime_id (effective row more))
    (mv_destination_generation (effective row more)) e2')) as He3.
  { by rewrite (act_environments _ _ _ _ _ _ Ha), <- Henv, lookup_insert_eq. }
  assert (dir_inv d3) as Hd3 by (by eapply activate_inv).
  destruct (dir_steps_placement _ _ _ _ _ Hafter Hd3 He3) as (e4 & He4 & Hl4%placement_later_generation).
  apply (stale_operation _ _ _ _ e4 He4). cbn in Hl4.
  destruct Ha as [_ He2' _ _ _ Hg2 _ _ _ _ _ _ _]. rewrite Henv in He2'.
  assert (e2' = e2) as -> by congruence.
  destruct (inv_movement _ Hd2 _ _ Hrow) as (e5 & _ & [F1 _ _ _]).
  assert (mv_destination_generation row <= mv_destination_generation (effective row more)) by (destruct more; cbn; lia).
  lia.
Qed.

Lemma stale_workers_are_fenced_witness :
  finish "A" "primary" Demo.held_operation Demo.activated =
    Throw "customer placement changed during provisioning" /\
  forall error,
    environments (fail_operation "A" "primary" Demo.held_operation error Demo.activated) =
      environments Demo.activated /\
    components (fail_operation "A" "primary" Demo.held_operation error Demo.activated) =
      components Demo.activated.
Proof.
  apply (@stale_workers_are_fenced bytes_collation Demo.anyUuid Demo.purchased_ Demo.lost.1 Demo.verified
           Demo.activated Demo.activated "A" "primary" "move-1" 10 0 Demo.unlocked Demo.held_operation
           None (Demo.movement Demo.verified)).
  - apply demo_purchased.
  - apply claimed_eq. vm_compute. reflexivity.
  - etrans; [apply demo_lost_ready|]. etrans; [apply demo_begun|]. apply demo_verified.
  - vm_compute. reflexivity.
  - vm_compute. reflexivity.
  - apply ok_or_eq. vm_compute. reflexivity.
  - apply rtc_refl.
Defined.

(** While a movement holds a customer, nobody works on it: none of its operations
    is running, no worker can claim one, reconciliation queues nothing, and no
    member is authorized. *)
Theorem held_customers_are_quiet `{Collation} (isUuid : string -> bool) (d : Directory) (eid id : string)
    (e : Environment) (Hreach : rtc (dir_step isUuid) initial_directory d)
    (He : environments d !! eid = Some e) (Hheld : en_movement_id e = Some id) :
  (forall oid o, operations d !! oid = Some o -> op_environment_id o = eid -> op_status o <> Running) /\
  (forall instanceId lease runtimeId now locked d' op,
     claim instanceId lease runtimeId now locked d = (d', Some op) -> wk_environmentId op <> eid) /\
  (forall uuids now, queueCustomerReconciliation uuids now eid d = Ok d) /\
  (forall subject ref actions, is_ok (authorize subject eid ref actions d) = false).
Proof.
  assert (dir_inv d) as Hd by (eapply dir_steps_inv; [exact Hreach|apply initial_inv]).
  split; [|split; [|split]].
  - intros oid o Ho <- Hr. destruct (inv_operations _ Hd _ _ Ho) as (e' & He' & _ & Hn).
    assert (e' = e) as -> by congruence. rewrite Hn in Hheld; done.
  - intros * Hc Heq. destruct (claim_spec _ _ _ _ _ _ _ _ Hc) as (e' & He' & _ & Hn & _). congruence.
  - intros uuids now. unfold queueCustomerReconciliation. rewrite He, Hheld.
    by rewrite andb_false_r.
  - intros subject ref actions. apply not_ok. intros g Hg.
    apply authorize_spec in Hg as (e' & role & He' & _ & _ & Hn & _). congruence.
Qed.

Lemma held_customers_are_quiet_witness :
  (forall oid o, operations Demo.begun_ !! oid = Some o -> op_environment_id o = Demo.customer ->
                 op_status o <> Running) /\
  (forall instanceId lease runtimeId now locked d' op,
     claim instanceId lease runtimeId now locked Demo.begun_ = (d', Some op) ->
     wk_environmentId op <> Demo.customer) /\
  (forall uuids now, queueCustomerReconciliation uuids now Demo.customer Demo.begun_ = Ok Demo.begun_) /\
  (forall subject ref actions, is_ok (authorize subject Demo.customer ref actions Demo.begun_) = false).
Proof.
  apply (@held_customers_are_quiet bytes_collation Demo.anyUuid Demo.begun_ Demo.customer "move-1"
           (Demo.environment Demo.begun_)).
  - etrans; [apply demo_ready|]. apply demo_begun.
  - vm_compute. reflexivity.
  - vm_compute. reflexivity.
Defined.

(** A committed activation publishes exactly the movement: it required the
    recorded phase, source, generation and a standing entitlement; it puts the
    environment alone at the destination (or, on return, back at the source) with
    the next generation; every component installed is verified, ready and at the
    new generation; other environments and all operations are as before. *)
Theorem activation_publishes (id : string) (more : option evidence) (d d' : Directory)
    (Ha : activate id more d = Ok d') :
  exists row e,
    movements d !! id = Some row /\ environments d !! mv_environment_id row = Some e /\
    mv_phase row = match more with Some _ => Returning | None => Verified end /\
    en_movement_id e = Some id /\ en_runtime_id e = mv_source_runtime_id row /\
    en_routing_generation e = mv_source_generation row /\ en_desired_state e = DesiredReady /\
    let runtime := match more with Some _ => mv_source_runtime_id row | None => mv_destination_runtime_id row end in
    let generation := match more with Some _ => mv_destination_generation row + 1
                                    | None => mv_destination_generation row end in
    environments d' = <[mv_environment_id row := env_placed runtime generation e]> (environments d) /\
    (exists row', movements d' = <[id := row']> (movements d) /\ movement_input row' = movement_input row /\
       mv_phase row' = match more with Some _ => Cancelled | None => Activated end) /\
    operations d' = operations d /\
    (forall ref, is_Some (components d !! (mv_environment_id row, ref)) ->
       exists c, components d' !! (mv_environment_id row, ref) = Some c /\ verified_row generation c) /\
    (forall key, key.1 <> mv_environment_id row -> components d' !! key = components d !! key).
Proof.
  destruct (activate_spec _ _ _ _ Ha) as (row & e & []). exists row, e.
  destruct act_evidence as (values & d1 & _ & _ & Hcov & Hstore & Hcomp).
  destruct (store_covers _ _ _ _ _ Hstore) as [Hc Ho]. cbn in Hc, Ho.
  repeat (split; [done|]). cbn zeta.
  assert (mv_destination_runtime_id (effective row more) =
          match more with Some _ => mv_source_runtime_id row | None => mv_destination_runtime_id row end) as <-
    by (by destruct more).
  assert (mv_destination_generation (effective row more) =
          match more with Some _ => mv_destination_generation row + 1 | None => mv_destination_generation row end) as <-
    by (by destruct more).
  split; [done|]. split; [by eexists|]. split; [done|]. rewrite Hcomp. split; [|done].
  intros ref Href. apply Hc. right. eapply coverage_spec; [exact Hcov|]. by apply elem_of_required.
Qed.

Lemma activation_publishes_witness : exists row e,
  movements Demo.verified !! "move-1" = Some row /\
  environments Demo.verified !! mv_environment_id row = Some e /\
  environments Demo.activated =
    <[mv_environment_id row := env_placed (mv_destination_runtime_id row) (mv_destination_generation row) e]>
      (environments Demo.verified).
Proof.
  destruct (activation_publishes "move-1" None Demo.verified Demo.activated) as (row & e & Hrow & He & H).
  - apply ok_or_eq. vm_compute. reflexivity.
  - destruct H as (_ & _ & _ & _ & _ & Henv & _). exists row, e. auto.
Defined.

(** ** Revocation *)

Lemma accepted_environment isUuid uuid uuids now event d d' accepted :
  acceptEntitlement isUuid uuid uuids now event d = Ok (d', accepted) -> ac_replay accepted = false ->
  exists e', environments d' !! ac_environmentId accepted = Some e' /\
    en_desired_state e' = desired_of (ev_event_type (ee_row event)) /\ en_observed_state e' = Pending /\
    forall e, environments d !! ac_environmentId accepted = Some e ->
      env_grows e e' /\ (en_movement_id e = None -> en_routing_generation e < en_routing_generation e').
Proof.
  unfold acceptEntitlement. intros Ha. past_checks Ha. destruct (events d !! ee_eventId event) as [replay|].
  { past_checks Ha. destruct (find_environment _ _); [|discriminate]. injection Ha as <- <-. done. }
  intros _. destruct (entitle _ _ _ _ _) as [[[d1 eid] catalog]|] eqn:Eent; [|discriminate].
  cbn [mbind result_bind] in Ha.
  destruct (entitle_spec _ _ _ _ _ _ _ _ Eent) as (e' & E1 & E2 & E3 & E4 & E5 & E6 & Hd & Ho & Hcase).
  cbn in E1, Hcase. cbn [environments set_memberships] in Ha.
  rewrite E1, lookup_insert_eq in Ha. destruct (en_routing_generation e' =? 0); [discriminate|].
  past_checks Ha. destruct (install _ _ _ _ _ _ _ _) as [d2|] eqn:Ei; [|discriminate].
  injection Ha as <- <-.
  destruct (install_spec _ _ _ _ _ _ _ _ _ Ei) as (_ & I2 & _). cbn in I2. cbn [ac_environmentId].
  exists e'. rewrite I2, E1, lookup_insert_eq. repeat (split; [done|]).
  intros e He. rewrite He in Hcase. destruct Hcase as (? & _ & _ & ?). done.
Qed.

Lemma activate_entitled id more d d' row : activate id more d = Ok d' -> movements d !! id = Some row ->
  exists e, environments d !! mv_environment_id row = Some e /\ en_desired_state e = DesiredReady.
Proof.
  intros (row' & e & Ha)%activate_spec Hrow. destruct Ha. exists e.
  assert (row' = row) as -> by congruence. done.
Qed.

(** A revocation wins: once it is accepted, no member of the environment is
    authorized, no movement of it can be published, not even a return, it has left
    its placement alone, and, unless a movement holds it, every grant and operation
    of before carries an outdated generation. *)
Theorem revocation_wins (isUuid : string -> bool) (uuid : string) (uuids : nat -> string) (now : Z)
    (event : EntitlementEvent) (d d' : Directory) (accepted : Accepted)
    (Haccept : acceptEntitlement isUuid uuid uuids now event d = Ok (d', accepted))
    (Hnew : ac_replay accepted = false) (Hrevoked : ev_event_type (ee_row event) = PurchaseRevoked) :
  (forall subject ref actions, is_ok (authorize subject (ac_environmentId accepted) ref actions d') = false) /\
  (forall id more row, movements d' !! id = Some row -> mv_environment_id row = ac_environmentId accepted ->
     is_ok (activate id more d') = false) /\
  (forall e, environments d !! ac_environmentId accepted = Some e ->
     exists e', environments d' !! ac_environmentId accepted = Some e' /\
       en_runtime_id e' = en_runtime_id e /\ en_movement_id e' = en_movement_id e /\
       (en_movement_id e = None -> en_routing_generation e < en_routing_generation e')).
Proof.
  destruct (accepted_environment _ _ _ _ _ _ _ _ Haccept Hnew) as (e' & He' & Hs & _ & Hgrow).
  rewrite Hrevoked in Hs. cbn in Hs. split; [|split].
  - intros subject ref actions. apply not_ok. intros g Hg.
    apply authorize_spec in Hg as (e & role & He & _ & _ & _ & Hr & _). congruence.
  - intros id more row Hrow Henv. apply not_ok. intros d2 Ha.
    destruct (activate_entitled _ _ _ _ _ Ha Hrow) as (e & He & Hr). congruence.
  - intros e He. destruct (Hgrow e He) as [(E1 & E2 & _) Hgen]. eauto 6.
Qed.

Lemma revocation_wins_witness :
  is_ok (authorize "aid_owner" Demo.customer "aid_owner" ["customer.read"] Demo.revoked) = false.
Proof.
  refine (proj1 (revocation_wins Demo.anyUuid Demo.customer (Demo.uuids "revoke-") 20 Demo.revocation
           Demo.lost.1 Demo.revoked {| ac_environmentId := Demo.customer; ac_replay := false |} _ _ _)
           "aid_owner" "aid_owner" ["customer.read"]).
  - apply (accept_eq Demo.revocation). vm_compute. reflexivity.
  - reflexivity.
  - reflexivity.
Defined.

(** ** A worker that is lost *)

Section Lost.
Context `{Collation} (isUuid : string -> bool) (oid owner : string).

(** Any step, except that the lost worker ends its own attempt. *)
Definition without_worker (d d' : Directory) : Prop :=
  dir_step isUuid d d' /\
  (forall runtimeId op, wk_id op = oid -> finish owner runtimeId op d <> Ok d') /\
  (forall runtimeId op error, wk_id op = oid -> d' <> fail_operation owner runtimeId op error d).

(** The row of an attempt of an earlier generation. *)
Definition stranded (eid : string) (d : Directory) : Prop :=
  exists o e, operations d !! oid = Some o /\ op_environment_id o = eid /\ op_status o = Running /\
    op_lease_owner o = Some owner /\ environments d !! eid = Some e /\
    op_routing_generation o < en_routing_generation e.

Lemma stranded_keep eid d d' : stranded eid d ->
  (forall o, operations d !! oid = Some o -> op_status o = Running -> op_lease_owner o = Some owner ->
     (exists e, environments d !! op_environment_id o = Some e /\
                op_routing_generation o < en_routing_generation e) -> operations d' !! oid = Some o) ->
  (forall e, environments d !! eid = Some e ->
     exists e', environments d' !! eid = Some e' /\ placement_later e e') -> stranded eid d'.
Proof.
  intros (o & e & Ho & <- & Hr & Hl & He & Hg) Hop Henv.
  destruct (Henv e He) as (e' & He' & Hle%placement_later_generation).
  exists o, e'. split; [apply Hop; eauto|]. repeat (split; [done|]). lia.
Qed.

Lemma queue_row_stranded uuid now o0 d d' o : queue_row uuid now o0 d = Ok d' ->
  operations d !! oid = Some o ->
  (op_environment_id o = op_environment_id o0 -> op_routing_generation o <> op_routing_generation o0) ->
  operations d' !! oid = Some o.
Proof.
  unfold queue_row, find_operation. intros Hq Ho Hne. destruct (js_find _ _) as [[i ex]|] eqn:E.
  - injection Hq as <-. case_match; [|done]. cbn. rewrite lookup_insert_ne; [done|]. intros ->.
    apply js_find_Some in E as [Hin Hk]. apply elem_of_operations in Hin. cbn in Hk. bools.
    assert (ex = o) as -> by congruence. unfold op_key in Hk. injection Hk as E1 _ _ E4 _ _.
    by apply Hne.
  - inv_result. bools. cbn. rewrite lookup_insert_ne; [done|]. intros ->.
    match goal with Hn : ~ is_Some _ |- _ => apply Hn; by exists o end.
Qed.

Lemma queue_rows_stranded uuids now rows d d' o : queue_rows uuids now rows d = Ok d' ->
  operations d !! oid = Some o ->
  Forall (fun o0 => op_environment_id o = op_environment_id o0 ->
                    op_routing_generation o <> op_routing_generation o0) rows ->
  operations d' !! oid = Some o.
Proof.
  revert uuids d. induction rows as [|o0 rows IH]; intros uuids d; cbn [queue_rows].
  - intros [= <-]. done.
  - intros Hq Ho Hall. inversion Hall; subst.
    destruct (queue_row (uuids O) now o0 d) as [d1|] eqn:E1; [|discriminate Hq]. cbn in Hq.
    eapply IH; [done| |done]. by eapply queue_row_stranded.
Qed.

Lemma queue_stranded uuids now c d d' o e : queueCustomerReconciliation uuids now c d = Ok d' ->
  operations d !! oid = Some o -> environments d !! op_environment_id o = Some e ->
  op_routing_generation o < en_routing_generation e -> operations d' !! oid = Some o.
Proof.
  unfold queueCustomerReconciliation. intros Hq Ho He Hg.
  destruct (environments d !! c) as [ec|] eqn:Ec; [|by injection Hq as <-].
  case_match; [|by injection Hq as <-]. eapply queue_rows_stranded; [done|done|].
  apply Forall_fmap, Forall_true. intros x. cbn. intros Heq. rewrite Heq in He.
  assert (e = ec) as -> by congruence. lia.
Qed.

Lemma reconcile_stranded restore uuids now customers d d' o e :
  reconcile_customers restore uuids now customers d = Ok d' ->
  operations d !! oid = Some o -> environments d !! op_environment_id o = Some e ->
  op_routing_generation o < en_routing_generation e -> operations d' !! oid = Some o.
Proof.
  revert d e. induction customers as [|c customers IH]; intros d e; cbn [reconcile_customers].
  - intros [= <-]. done.
  - intros Hr Ho He Hg. destruct (restore c) as [u|]; [|discriminate Hr]. cbn [mbind result_bind] in Hr.
    destruct (queueCustomerReconciliation (uuids c) now c d) as [d1|] eqn:E1; [|discriminate Hr].
    cbn [mbind result_bind] in Hr.
    set (d2 := update_environment c (env_observed Reconciling) (pending_components c d1)) in Hr.
    assert (frame d d2) as Hf.
    { eapply frame_trans; [by eapply queue_frame|]. eapply frame_trans; [apply pending_frame|]. by apply frame_env. }
    destruct (frame_lookup _ _ _ _ Hf He) as (e2 & He2 & Hp). placed_eq Hp.
    apply (IH d2 e2 Hr); [|done|lia]. change (operations d1 !! oid = Some o). by eapply queue_stranded.
Qed.

Lemma without_worker_stranded eid d d' : without_worker d d' -> dir_inv d -> stranded eid d -> stranded eid d'.
Proof.
  intros (Hstep & Hnofinish & Hnofail) Hd Hs. eapply stranded_keep; [exact Hs| |].
  2:{ intros e He. by eapply dir_step_placement. }
  intros o Ho Hrun Hown (e & He & Hg).
  destruct Hstep as [? ? d d' Hx|? ? ? d d' Hx|? ? d d' i Hx|i from to more d d' Hx|i d d' Hx|i more d d' Hx
    | | |? ? ? ? d d' ? Hx|? ? ? ? ? d|inst rt op d d' Hx|inst rt op error d|? ? ? ? d d' Hx].
  - unfold registerRuntime in Hx. inv_result. by destruct (runtimes d !! _); inv_result.
  - unfold selectDefaultRuntime in Hx. inv_result. by destruct (runtimes d !! _); inv_result.
  - apply begin_spec in Hx as [[-> _]|(e1 & d1 & _ & _ & _ & _ & Hsup & _ & _ & ->)]; [done|].
    destruct (supersede_spec _ _ _ Hsup) as (_ & _ & E2 & _). cbn. by rewrite E2.
  - unfold advance in Hx. by inv_result.
  - unfold requestReturn in Hx. by inv_result.
  - apply activate_spec in Hx as (row & e1 & Ha). by rewrite (act_operations _ _ _ _ _ _ Ha).
  - done.
  - done.
  - unfold acceptEntitlement in Hx. past_checks Hx. destruct (events d !! _).
    { past_checks Hx. destruct (find_environment _ _); [|discriminate]. by injection Hx as <- <-. }
    destruct (entitle _ _ _ _ _) as [[[d1 eid'] catalog]|] eqn:Eent; [|discriminate].
    cbn [mbind result_bind] in Hx.
    destruct (entitle_spec _ _ _ _ _ _ _ _ Eent) as (e' & E1 & _ & E3 & _). cbn in E1, E3.
    cbn [environments set_memberships] in Hx. rewrite E1, lookup_insert_eq in Hx.
    destruct (_ =? _); [discriminate|]. past_checks Hx.
    destruct (install _ _ _ _ _ _ _ _) as [d2|] eqn:Ei; [|discriminate]. injection Hx as <- <-.
    destruct (install_spec _ _ _ _ _ _ _ _ _ Ei) as (_ & _ & _ & _ & _ & _ & _ & _ & Hmono).
    apply Hmono. cbn. by rewrite E3.
  - unfold claim. destruct (next_operation _ _ _ _) as [[i row]|] eqn:En; [|done]. cbn.
    rewrite lookup_alter_ne; [done|]. intros ->.
    apply next_operation_claimable in En as [Hrow Hc]. assert (row = o) as -> by congruence.
    apply claimable_environment in Hc as (e2 & He2 & _ & _ & Hg2). assert (e2 = e) as -> by congruence. lia.
  - destruct (decide (wk_id op = oid)) as [Hid|Hid].
    + destruct (decide (inst = owner)) as [->|Hi]; [by destruct (Hnofinish rt op Hid)|]. exfalso.
      unfold finish in Hx. inv_result. unfold holds_attempt in *. rewrite Hid, Ho, Hrun, Hown in *. bools. congruence.
    + unfold finish in Hx. inv_result. cbn. by rewrite lookup_alter_ne.
  - destruct (decide (wk_id op = oid)) as [Hid|Hid].
    + destruct (decide (inst = owner)) as [->|Hi]; [by destruct (Hnofail rt op error Hid)|].
      unfold fail_operation. assert (holds_attempt inst op d = false) as ->.
      { unfold holds_attempt. rewrite Hid, Ho, Hrun, Hown. rewrite andb_false_iff. right.
        apply bool_decide_eq_false. congruence. }
      by rewrite andb_false_r.
    + unfold fail_operation. destruct (holds_attempt inst op d); cbn; [|by rewrite andb_false_r].
      destruct (still_placed rt op d); cbn; by rewrite lookup_alter_ne.
  - by eapply reconcile_stranded.
Qed.
End Lost.

(** A worker that is lost while an entitlement changes the generation leaves its
    operation running for good: no other step ends it, since a new claim requires
    the current generation.  From then on every new movement of the customer is
    refused, because [begin] counts running operations of any generation and
    ignores their leases. *)
Theorem lost_worker_blocks_movement `{Collation} (isUuid : string -> bool) (oid owner eid : string)
    (d d' : Directory) (input : BeginInput) (uuid : string)
    (Hreach : rtc (dir_step isUuid) initial_directory d) (Hlost : stranded oid owner eid d)
    (Hsteps : rtc (without_worker isUuid oid owner) d d')
    (Henv : bi_environmentId input = eid) (Hnew : movements d' !! default uuid (bi_id input) = None) :
  is_ok (begin input uuid d') = false.
Proof.
  assert (dir_inv d) as Hd by (eapply dir_steps_inv; [exact Hreach|apply initial_inv]).
  clear Hreach. induction Hsteps as [d|d1 d2 d3 H1 Hs IH].
  - apply not_ok. intros [d2 id] Hb. pose proof Hb as Hb'. apply begin_spec in Hb as [[-> (m & Hm & _)]|Hb].
    + unfold begin in Hb'. cbv zeta in Hb'. rewrite Hnew in Hb'. inv_result. congruence.
    + destruct Hb as (e & d1 & _ & _ & _ & Hn & _). destruct Hlost as (o & e' & Ho & He & Hr & _).
      by apply (not_running _ _ Hn oid o Ho); [congruence|].
  - apply IH; [by eapply without_worker_stranded|done|]. destruct H1 as [H1 _]. by eapply dir_step_inv.
Qed.

Lemma lost_worker_blocks_movement_witness :
  is_ok (begin Demo.retry "" Demo.stuck) = false /\
  en_observed_state (Demo.environment Demo.stuck) = Ready /\
  placement_ready (Demo.environment Demo.stuck) Demo.retry = true.
Proof.
  split; [|split; vm_compute; reflexivity].
  apply (@lost_worker_blocks_movement bytes_collation Demo.anyUuid "op-0" "A" Demo.customer
           Demo.stuck Demo.stuck).
  - apply demo_stuck.
  - exists Demo.stranded_row, (Demo.environment Demo.stuck). split; [vm_compute; reflexivity|].
    repeat (split; [vm_compute; reflexivity|]). vm_compute. reflexivity.
  - apply rtc_refl.
  - reflexivity.
  - vm_compute. reflexivity.
Defined.
