(* ===== verification/Resume.v ===== *)
(** * The controller of a movement ends

    [resumeMovement] of [services/platform-provisioner/src/movement.ts]: the
    [for (;;)] loop makes at most six turns, and a driver whose steps succeed
    brings a movement to its end. *)

From S2P Require Import Prelude Contracts Directory Movement Provisioning Customers Placement Fencing.

Open Scope stdpp_scope.
Open Scope js_scope.
Local Open Scope Z_scope.

(** ** Programs *)

(** What a committed bind ran. *)
Lemma program_bind_Ok {A B} (p : Program A) (k : A -> Program B) d d' b :
  mbind k p d = (d', Ok b) -> exists d1 a, p d = (d1, Ok a) /\ k a d1 = (d', Ok b).
Proof.
  unfold mbind, program_bind. destruct (p d) as [d1 [a|]] eqn:E; [eauto|congruence].
Qed.

Lemma store_Ok method d d' u : store method d = (d', Ok u) -> method d = Ok d'.
Proof.
  unfold store, transaction. destruct (method d) as [d1|]; cbn; congruence.
Qed.

Lemma query_Ok {A} (method : Directory -> result A) d d' a : query method d = (d', Ok a) ->
  d' = d /\ method d = Ok a.
Proof. unfold query, transaction. destruct (method d); cbn; intros [= <- <-]; done. Qed.

Lemma throwIfAborted_Ok session id d d' u : throwIfAborted session id d = (d', Ok u) -> d' = d.
Proof. unfold throwIfAborted. congruence. Qed.

(** The turns left from a phase. *)
Definition phase_rank (p : MovementPhase) : nat :=
  match p with
  | Paused => 5 | Fenced => 4 | Copied => 3 | Verified => 2
  | Activated | Returning => 1
  | Completed | Cancelled | Superseded => 0
  end.

Lemma phase_rank_bound p : (phase_rank p <= 5)%nat.
Proof. destruct p; cbn; lia. Qed.

(** A program leaves a movement as it is: nobody else changes it while the
    controller holds its lock. *)
Definition leaves {A} (id : string) (p : Program A) : Prop :=
  forall d, movements (p d).1 !! id = movements d !! id.

(** A driver that leaves the movement to its controller. *)
Record driver_leaves (id : string) (driver : MovementDriver) : Prop := {
  leaves_return : match dr_returnToSource driver with Some f => forall m, leaves id (f m) | None => True end;
  leaves_fence : forall m, leaves id (dr_fence driver m);
  leaves_copy : forall m, leaves id (dr_copy driver m);
  leaves_verify : forall m, leaves id (dr_verify driver m);
  leaves_beforeActivate : forall m, leaves id (dr_beforeActivate driver m);
  leaves_afterActivate : match dr_afterActivate driver with Some f => forall m, leaves id (f m) | None => True end;
  leaves_observe : forall m, leaves id (dr_observe driver m)
}.

Lemma leaves_Ok {A} id (p : Program A) d d' a : leaves id p -> p d = (d', Ok a) ->
  movements d' !! id = movements d !! id.
Proof. intros Hl Hp. specialize (Hl d). by rewrite Hp in Hl. Qed.

(** Undo the steps of a program that ran to its end. *)
Ltac ran H :=
  repeat match type of H with
  | (mbind _ _) _ = (_, Ok _) =>
      let d := fresh "d" in let a := fresh "a" in let Hp := fresh "Hrun" in
      apply program_bind_Ok in H as (d & a & Hp & H)
  end.

Section Turns.
Context (session : nat) (id : string) (driver : MovementDriver) (Hdriver : driver_leaves id driver).

Lemma advance_phase from to more d d' m : advance id from to more d = Ok d' -> movements d !! id = Some m ->
  exists m', movements d' !! id = Some m' /\ mv_phase m' = to /\ mv_phase m = from.
Proof.
  unfold advance. intros Ha Hm. inv_result. bools. rewrite Hm in *. cbn.
  rewrite lookup_alter_eq, Hm. cbn. eexists. split; [done|]. split; [done|].
  match goal with H : mv_phase <$> Some m = Some from |- _ => by injection H end.
Qed.

Lemma activate_phase more d d' : activate id more d = Ok d' ->
  exists m', movements d' !! id = Some m' /\
    mv_phase m' = match more with Some _ => Cancelled | None => Activated end.
Proof.
  intros (row & e & Ha)%activate_spec. rewrite (act_movements _ _ _ _ _ _ Ha), lookup_insert_eq. eauto.
Qed.

(** A turn that goes on brings the movement closer to its end. *)
Lemma turn_progress d d' m : turn session id driver d = (d', Ok None) -> movements d !! id = Some m ->
  exists m', movements d' !! id = Some m' /\ (phase_rank (mv_phase m') < phase_rank (mv_phase m))%nat.
Proof.
  unfold turn. intros Ht Hm. apply program_bind_Ok in Ht as (d1 & u & H1 & Ht).
  apply throwIfAborted_Ok in H1 as ->. apply program_bind_Ok in Ht as (d2 & row & H2 & Ht).
  apply query_Ok in H2 as [-> Hread]. unfold read in Hread. rewrite Hm in Hread.
  destruct (environments d !! _); [|discriminate]. injection Hread as <-. destruct Hdriver as [L1 L2 L3 L4 L5 L6 L7].
  assert (forall A (p : Program A) da db a, leaves id p -> p da = (db, Ok a) ->
            movements da !! id = Some m -> movements db !! id = Some m) as Hkeep.
  { intros A p da db a Hl Hp Hda. by rewrite (leaves_Ok _ _ _ _ _ Hl Hp). }
  destruct (mv_phase m) eqn:Ephase; cbn [phase_rank].
  1,2,3: ran Ht; apply throwIfAborted_Ok in Hrun0 as ->; apply store_Ok in Hrun1; cbn in Ht; injection Ht as <-;
    destruct (advance_phase _ _ _ _ _ m Hrun1) as (m' & Hm' & Hphase & _);
    [by eapply Hkeep; [|exact Hrun|]|]; exists m'; rewrite Hphase; cbn; split; [done|lia].
  - ran Ht. apply throwIfAborted_Ok in Hrun0 as ->. apply store_Ok in Hrun1. cbn in Ht. injection Ht as <-.
    destruct (activate_phase _ _ _ Hrun1) as (m' & Hm' & Hphase). exists m'. rewrite Hphase. cbn. split; [done|lia].
  - destruct (dr_returnToSource driver) as [f|]; [|discriminate Ht]. ran Ht.
    apply throwIfAborted_Ok in Hrun0 as ->. apply store_Ok in Hrun1. cbn in Ht. injection Ht as <-.
    destruct (activate_phase _ _ _ Hrun1) as (m' & Hm' & Hphase). exists m'. rewrite Hphase. cbn. split; [done|lia].
  - ran Ht. apply throwIfAborted_Ok in Hrun0 as ->. apply throwIfAborted_Ok in Hrun2 as ->.
    apply store_Ok in Hrun3. cbn in Ht. injection Ht as <-.
    assert (movements d0 !! id = Some m) as Hd0.
    { revert Hrun L6. destruct (dr_afterActivate driver) as [f|]; intros Hrun L6; [exact (Hkeep _ _ _ _ _ (L6 m) Hrun Hm)|].
      cbn in Hrun. by injection Hrun as <- _. }
    destruct (advance_phase _ _ _ _ _ m Hrun3) as (m' & Hm' & Hphase & _);
      [exact (Hkeep _ _ _ _ _ (L7 m) Hrun1 Hd0)|].
    exists m'. rewrite Hphase. cbn. split; [done|lia].
  - discriminate Ht.
  - discriminate Ht.
  - discriminate Ht.
Qed.

Lemma turns_end fuel d m : movements d !! id = Some m -> (phase_rank (mv_phase m) < fuel)%nat ->
  (turns session id driver fuel d).2 <> Ok None.
Proof.
  revert d m. induction fuel as [|fuel IH]; intros d m Hm Hf; [lia|]. cbn [turns].
  unfold mbind, program_bind. destruct (turn session id driver d) as [d1 [[m1|]|]] eqn:Et; [done| |done].
  destruct (turn_progress _ _ _ Et Hm) as (m' & Hm' & Hlt). apply (IH d1 m' Hm'). lia.
Qed.

Lemma turns_unknown fuel d : movements d !! id = None ->
  (turns session id driver (S fuel) d).2 <> Ok None.
Proof.
  intros Hm. cbn [turns]. unfold turn, mbind, program_bind, throwIfAborted, query, transaction, read.
  rewrite Hm. by destruct (throw_if _ _).
Qed.
End Turns.

(** The [for (;;)] of [resumeMovement] ends: whatever the driver's steps do and
    whatever other transactions commit meanwhile, as long as they leave the locked
    movement alone, six turns are enough to return a movement or to throw, from
    any phase and with or without a requested return. *)
Theorem resumeMovement_terminates (session : nat) (id : string) (driver : MovementDriver)
    (returnToSource : bool) (fuel : nat) (d : Directory)
    (Hdriver : driver_leaves id driver) (Hfuel : (6 <= fuel)%nat) :
  (resumeMovement session id driver returnToSource fuel d).2 <> Ok None.
Proof.
  assert (forall d, (turns session id driver fuel d).2 <> Ok None) as Hturns.
  { intros d0. destruct (movements d0 !! id) as [m|] eqn:Em.
    - eapply turns_end; [done|done|]. pose proof (phase_rank_bound (mv_phase m)). lia.
    - destruct fuel as [|fuel]; [lia|]. by apply turns_unknown. }
  unfold resumeMovement, exclusive. destruct (controllers d !! id); [done|].
  set (d0 := set_controllers _ d). unfold mbind, program_bind.
  set (start := if returnToSource then _ else _). destruct (start d0) as [d1 [u|]] eqn:Es; [|done].
  specialize (Hturns d1). destruct (turns session id driver fuel d1) as [d2 r]. done.
Qed.

(** A driver that does nothing outside, for the witnesses. *)
Definition demo_driver : MovementDriver :=
  {| dr_returnToSource := None; dr_fence := fun _ => mret ∅; dr_copy := fun _ => mret ∅;
     dr_verify := fun _ => mret Demo.verification; dr_beforeActivate := fun _ => mret tt;
     dr_afterActivate := None; dr_observe := fun _ => mret ∅ |}.

Lemma resumeMovement_terminates_witness :
  (resumeMovement 7 "move-1" demo_driver false 6 Demo.begun_).2 <> Ok None.
Proof.
  apply resumeMovement_terminates; [|lia]. split; try exact I; intros m d; reflexivity.
Defined.

(** ** A movement that completes *)

(** A step of the driver that succeeds while the directory stays as it is. *)
Definition succeeds {A} (p : Program A) (a : A) : Prop := forall d, p d = (d, Ok a).

Record driver_succeeds (driver : MovementDriver) (fenced copied verified observed : evidence) : Prop := {
  succeeds_fence : forall m, succeeds (dr_fence driver m) fenced;
  succeeds_copy : forall m, succeeds (dr_copy driver m) copied;
  succeeds_verify : forall m, succeeds (dr_verify driver m) verified;
  succeeds_beforeActivate : forall m, succeeds (dr_beforeActivate driver m) tt;
  succeeds_afterActivate : match dr_afterActivate driver with
                           | Some f => forall m, succeeds (f m) tt | None => True end;
  succeeds_observe : forall m, succeeds (dr_observe driver m) observed
}.

(** The entries of [verifiedComponents] are well formed. *)
Definition entries_valid (values : list json) : Prop :=
  Forall (fun value => exists v, verified_component value = Ok v /\ is_int4 (vc_schema_version v) = true) values.

Lemma store_components_ok eid generation values d : entries_valid values ->
  exists d', store_components eid generation values d = Ok d'.
Proof.
  intros Hv. revert d. induction Hv as [|value values (v & Ev & Hint) Hv IH]; intros d; cbn; [eauto|].
  rewrite Ev. cbn. unfold upsert_component. rewrite Hint. cbn. apply IH.
Qed.

(** The converse of [activation_publishes]: when the guards hold, it commits. *)
Lemma activate_ok id d row e value values : movements d !! id = Some row ->
  environments d !! mv_environment_id row = Some e -> publishable id row Verified e d = true ->
  mv_evidence row !! "verifiedComponents" = Some (JArray (value :: values)) ->
  coverage (value :: values) (required_components (mv_environment_id row) d) = Ok tt ->
  entries_valid (value :: values) -> exists d', activate id None d = Ok d'.
Proof.
  intros Hrow He Hp Hev Hcov Hval. unfold activate, read. rewrite Hrow, He. cbn [mbind result_bind effective].
  rewrite bool_decide_false by (intros Hn; by apply Hn). cbn [andb throw_if mbind result_bind].
  rewrite He, Hp, Hev. cbn [negb throw_if mbind result_bind].
  unfold required_components in *. cbn [update_environment set_environments components].
  rewrite Hcov. cbn [mbind result_bind].
  destruct (store_components_ok (mv_environment_id row) (mv_destination_generation row) (value :: values)
    (update_environment (mv_environment_id row)
      (env_placed (mv_destination_runtime_id row) (mv_destination_generation row)) d) Hval) as [d' ->].
  cbn. eauto.
Qed.

Section Completes.
Context (session : nat) (id : string) (driver : MovementDriver).
Context (fenced copied verified observed : evidence).
Context (Hdriver : driver_succeeds driver fenced copied verified observed).

(** The controller holds the lock, and the movement is where it should be. *)
Definition at_phase (d : Directory) (m : Movement) : Prop :=
  movements d !! id = Some m /\ controllers d !! id = Some session /\
  is_Some (environments d !! mv_environment_id m).

Lemma at_phase_start d m : at_phase d m ->
  throwIfAborted session id d = (d, Ok tt) /\ query (read id) d = (d, Ok m).
Proof.
  intros (Hm & Hc & [e He]). unfold throwIfAborted, query, transaction, read.
  split; [by rewrite Hc, bool_decide_true|]. rewrite Hm. cbn. by rewrite He.
Qed.

Lemma advance_accepts from to more d m : at_phase d m -> mv_phase m = from -> successor from = Some to ->
  store (advance id from to more) d = (update_movement id (mv_moved to more None) d, Ok tt) /\
  at_phase (update_movement id (mv_moved to more None) d) (mv_moved to more None m).
Proof.
  intros (Hm & Hc & He) Hp Hs. split.
  - assert (bool_decide (mv_phase <$> movements d !! id = Some from) = true) as Hb.
    { apply bool_decide_eq_true. by rewrite Hm, <- Hp. }
    unfold store, transaction, advance. by rewrite Hs, Hb, bool_decide_true.
  - split; [|done]. cbn. by rewrite lookup_alter_eq, Hm.
Qed.

Lemma turn_step d m : at_phase d m -> turn session id driver d =
  match mv_phase m with
  | Paused => (update_movement id (mv_moved Fenced fenced None) d, Ok None)
  | Fenced => (update_movement id (mv_moved Copied copied None) d, Ok None)
  | Copied => (update_movement id (mv_moved Verified verified None) d, Ok None)
  | Activated => (update_movement id (mv_moved Completed observed None) d, Ok None)
  | Completed => (d, Ok (Some m))
  | _ => turn session id driver d
  end.
Proof.
  intros Hat. destruct (at_phase_start _ _ Hat) as [H1 H2]. destruct Hdriver as [S1 S2 S3 _ S5 S6].
  destruct (mv_phase m) eqn:Ep; try done; unfold turn, mbind, program_bind; rewrite H1, H2, Ep.
  - by rewrite S1, H1, (proj1 (advance_accepts _ _ fenced _ _ Hat Ep eq_refl)).
  - by rewrite S2, H1, (proj1 (advance_accepts _ _ copied _ _ Hat Ep eq_refl)).
  - by rewrite S3, H1, (proj1 (advance_accepts _ _ verified _ _ Hat Ep eq_refl)).
  - assert (forall d, match dr_afterActivate driver with Some after => after m | None => mret tt end d = (d, Ok tt)) as S5'.
    { intros d0. destruct (dr_afterActivate driver); [apply S5|done]. }
    by rewrite S5', H1, S6, H1, (proj1 (advance_accepts _ _ observed _ _ Hat Ep eq_refl)).
  - done.
Qed.

Lemma turn_activate d m d' : at_phase d m -> mv_phase m = Verified -> activate id None d = Ok d' ->
  turn session id driver d = (d', Ok None).
Proof.
  intros Hat Ep Ha. destruct (at_phase_start _ _ Hat) as [H1 H2]. destruct Hdriver as [_ _ _ S4 _ _].
  unfold turn, mbind, program_bind. rewrite H1, H2, Ep, S4, H1.
  unfold store, transaction. by rewrite Ha.
Qed.

Lemma turns_S fuel d d' : turn session id driver d = (d', Ok None) ->
  turns session id driver (S fuel) d = turns session id driver fuel d'.
Proof. intros Ht. cbn [turns]. unfold mbind, program_bind. by rewrite Ht. Qed.
End Completes.

(** The four turns up to the publication. *)
Lemma turns_to_verified session id driver ev1 ev2 ev3 ev4 fuel d m :
  driver_succeeds driver ev1 ev2 ev3 ev4 -> at_phase session id d m -> mv_phase m = Paused ->
  exists d3 m3, turns session id driver (3 + fuel) d = turns session id driver fuel d3 /\
    at_phase session id d3 m3 /\ mv_phase m3 = Verified /\ movement_input m3 = movement_input m /\
    mv_evidence m3 = jsonb_concat (jsonb_concat (jsonb_concat (mv_evidence m) ev1) ev2) ev3 /\
    environments d3 = environments d /\ components d3 = components d.
Proof.
  intros Hdr Hat Hp.
  pose proof (turn_step _ _ _ _ _ _ _ Hdr _ _ Hat) as T1. rewrite Hp in T1.
  destruct (advance_accepts session id Paused Fenced ev1 d m Hat Hp eq_refl) as [_ A1].
  pose proof (turn_step _ _ _ _ _ _ _ Hdr _ _ A1) as T2. cbn [mv_phase mv_moved] in T2.
  destruct (advance_accepts session id Fenced Copied ev2 _ _ A1 eq_refl eq_refl) as [_ A2].
  pose proof (turn_step _ _ _ _ _ _ _ Hdr _ _ A2) as T3. cbn [mv_phase mv_moved] in T3.
  destruct (advance_accepts session id Copied Verified ev3 _ _ A2 eq_refl eq_refl) as [_ A3].
  eexists _, _. split; [|split; [exact A3|done]]. cbn [Nat.add].
  rewrite (turns_S _ _ _ _ _ _ T1), (turns_S _ _ _ _ _ _ T2). exact (turns_S _ _ _ _ _ _ T3).
Qed.

(** When the steps of the driver succeed, the verified components cover the
    installation and the customer is still entitled, [resumeMovement] moves a paused
    movement to completion in six turns: the customer is at the destination with
    the next generation, is no longer held, and the controller's lock is free. *)
Theorem resumeMovement_completes (session : nat) (id : string) (driver : MovementDriver)
    (fenced copied verified observed : evidence) (d : Directory) (m : Movement) (e : Environment)
    (value : json) (values : list json)
    (Hdriver : driver_succeeds driver fenced copied verified observed)
    (Hm : movements d !! id = Some m) (Hpaused : mv_phase m = Paused)
    (Hlock : controllers d !! id = None)
    (He : environments d !! mv_environment_id m = Some e)
    (Hplaced : placed e = (mv_source_runtime_id m, mv_source_generation m, Some id))
    (Hentitled : en_desired_state e = DesiredReady)
    (Hevidence : verified !! "verifiedComponents" = Some (JArray (value :: values)))
    (Hcovers : coverage (value :: values) (required_components (mv_environment_id m) d) = Ok tt)
    (Hvalid : entries_valid (value :: values)) :
  exists d' m', resumeMovement session id driver false 6 d = (d', Ok (Some m')) /\
    movements d' !! id = Some m' /\ mv_phase m' = Completed /\ movement_input m' = movement_input m /\
    environments d' !! mv_environment_id m =
      Some (env_placed (mv_destination_runtime_id m) (mv_destination_generation m) e) /\
    controllers d' !! id = None.
Proof.
  set (d0 := set_controllers (<[id := session]> (controllers d)) d).
  assert (at_phase session id d0 m) as Hat.
  { split; [done|]. cbn. rewrite lookup_insert_eq, He. by split. }
  destruct (turns_to_verified session id driver _ _ _ _ 3 d0 m Hdriver Hat Hpaused)
    as (d3 & m3 & Ht & Hat3 & Hp3 & Hin & Hev3 & E3 & C3).
  unfold movement_input in Hin. injection Hin as I1 I2 I3 I4 I5 I6 I7 I8. placed_eq Hplaced.
  assert (environments d3 !! mv_environment_id m3 = Some e) as He3 by (by rewrite E3, I1).
  destruct (activate_ok id d3 m3 e value values) as [d4 Ha].
  { apply Hat3. } { done. }
  { unfold publishable. destruct Hat3 as (Hm3 & _). rewrite Hm3. cbn. rewrite Hp3, !bool_decide_true by congruence.
    rewrite andb_true_r, andb_true_l. rewrite andb_true_r. apply Z.eqb_eq. congruence. }
  { rewrite Hev3. by apply lookup_union_Some_l. }
  { unfold required_components in *. by rewrite C3, I1. }
  { done. }
  pose proof (turn_activate _ _ _ _ _ _ _ Hdriver _ _ _ Hat3 Hp3 Ha) as T4.
  destruct (activate_spec _ _ _ _ Ha) as (row & e' & Hact).
  pose proof (act_row _ _ _ _ _ _ Hact) as Hrow. destruct Hat3 as (Hm3 & Hc3 & _).
  assert (row = m3) as -> by congruence.
  assert (e' = e) as -> by (pose proof (act_environment _ _ _ _ _ _ Hact); congruence).
  set (m4 := mv_moved Activated ∅ (mv_last_error m3) m3).
  assert (environments d4 !! mv_environment_id m3 =
    Some (env_placed (mv_destination_runtime_id m3) (mv_destination_generation m3) e)) as He4.
  { by rewrite (act_environments _ _ _ _ _ _ Hact), lookup_insert_eq. }
  assert (at_phase session id d4 m4) as Hat4.
  { split; [by rewrite (act_movements _ _ _ _ _ _ Hact), lookup_insert_eq|].
    split; [by rewrite (act_controllers _ _ _ _ _ _ Hact)|]. cbn. by rewrite He4. }
  pose proof (turn_step _ _ _ _ _ _ _ Hdriver _ _ Hat4) as T5. cbn [mv_phase mv_moved m4] in T5.
  destruct (advance_accepts session id Activated Completed observed d4 m4 Hat4 eq_refl eq_refl) as [_ Hat5].
  set (d5 := update_movement id _ d4) in *. set (m5 := mv_moved Completed observed None m4) in *.
  pose proof (turn_step _ _ _ _ _ _ _ Hdriver _ _ Hat5) as T6. cbn [mv_phase mv_moved m5] in T6.
  exists (set_controllers (delete id (controllers d5)) d5), m5. split.
  { unfold resumeMovement, exclusive. rewrite Hlock. fold d0.
    change (mbind (fun _ => turns session id driver 6) (mret tt) d0) with (turns session id driver (3 + 3) d0).
    rewrite Ht, (turns_S _ _ _ _ _ _ T4), (turns_S _ _ _ _ _ _ T5). cbn [turns].
    unfold mbind at 1, program_bind at 1. rewrite T6. cbn [mret program_ret].
    destruct Hat5 as (_ & Hc5 & _). by rewrite Hc5, bool_decide_true. }
  split; [apply Hat5|]. split; [done|]. split; [unfold movement_input; cbn; congruence|].
  split; [cbn; rewrite <- I1, He4; congruence|]. cbn. apply lookup_delete_eq.
Qed.

Lemma resumeMovement_completes_witness :
  exists d' m', resumeMovement 7 "move-1" demo_driver false 6 Demo.begun_ = (d', Ok (Some m')) /\
    movements d' !! "move-1" = Some m' /\ mv_phase m' = Completed /\
    movement_input m' = movement_input (Demo.movement Demo.begun_) /\
    environments d' !! Demo.customer = Some (env_placed "second" 2 (Demo.environment Demo.begun_)) /\
    controllers d' !! "move-1" = None.
Proof.
  apply (resumeMovement_completes 7 "move-1" demo_driver ∅ ∅ Demo.verification ∅ Demo.begun_
           (Demo.movement Demo.begun_) (Demo.environment Demo.begun_)
           (Demo.verified_entry {| cat_componentRef := artifacts_ref; cat_targetSchemaVersion := 3;
              cat_migrationSetDigest := "d0f56d78fac8732d7340caf4079d7d63616e4a1599c56cddbe821326569cf72f" |})
           (Demo.verified_entry <$> tail customerComponentCatalog)).
  - split; try exact I; intros m d; reflexivity.
  - vm_compute. reflexivity.
  - vm_compute. reflexivity.
  - vm_compute. reflexivity.
  - vm_compute. reflexivity.
  - vm_compute. reflexivity.
  - vm_compute. reflexivity.
  - vm_compute. reflexivity.
  - vm_compute. reflexivity.
  - unfold entries_valid. repeat apply List.Forall_cons; try apply List.Forall_nil;
      (eexists; split; [vm_compute; reflexivity|vm_compute; reflexivity]).
Defined.
