(* ===== verification/Base64.v ===== *)
(** * Base64

    [Buffer.toString('base64')] and [atob] of the platform, which the artifact
    service and the CSV detection use on the bytes of a source: the encoder with
    padding, the forgiving decoder of the HTML standard, and their round trip.
    Texts are lists of code units, bytes are numbers below 256. *)

From S2P Require Import Prelude.

Open Scope stdpp_scope.
Open Scope js_scope.
Local Open Scope Z_scope.

(** ** The alphabet *)

Definition base64_char (n : Z) : Z :=
  if n <? 26 then 65 + n
  else if n <? 52 then 71 + n
  else if n <? 62 then n - 4
  else if n =? 62 then 43 else 47.

Definition base64_value (c : Z) : option Z :=
  if (65 <=? c) && (c <=? 90) then Some (c - 65)
  else if (97 <=? c) && (c <=? 122) then Some (c - 71)
  else if (48 <=? c) && (c <=? 57) then Some (c + 4)
  else if c =? 43 then Some 62
  else if c =? 47 then Some 63 else None.

(** ** Encoding *)

Fixpoint toBase64 (bytes : list Z) : text :=
  match bytes with
  | [] => []
  | [a] => [base64_char (a / 4); base64_char (a mod 4 * 16); 61; 61]
  | [a; b] => [base64_char (a / 4); base64_char (a mod 4 * 16 + b / 16); base64_char (b mod 16 * 4); 61]
  | a :: b :: c :: rest =>
      [base64_char (a / 4); base64_char (a mod 4 * 16 + b / 16);
       base64_char (b mod 16 * 4 + c / 64); base64_char (c mod 64)] ++ toBase64 rest
  end.

(** ** Decoding *)

Definition ascii_white (c : Z) : bool := bool_decide (c ∈ [9; 10; 12; 13; 32]).

(** One or two [=] at the end of a text whose length is a multiple of four. *)
Definition drop_equals (s : text) : text :=
  match last s with Some c => if c =? 61 then removelast s else s | None => s end.
Definition unpadded (s : text) : text :=
  if Nat.eqb (length s mod 4) 0 then drop_equals (drop_equals s) else s.

(** Groups of four sextets; the bits of an incomplete group that fill no byte are dropped. *)
Fixpoint sextets (l : list Z) : option (list Z) :=
  match l with
  | [] => Some []
  | [_] => None
  | [p; q] => Some [p * 4 + q / 16]
  | [p; q; r] => Some [p * 4 + q / 16; q mod 16 * 16 + r / 4]
  | p :: q :: r :: s :: rest =>
      bytes ← sextets rest; Some ([p * 4 + q / 16; q mod 16 * 16 + r / 4; r mod 4 * 64 + s] ++ bytes)
  end.

Definition atob (s : text) : result (list Z) :=
  match mapM base64_value (unpadded (base.filter (fun c => ascii_white c = false) s)) ≫= sextets with
  | Some bytes => Ok bytes
  | None => Throw "The string to be decoded is not correctly encoded."
  end.

(** ** The round trip *)

Definition is_byte (b : Z) : bool := (0 <=? b) && (b <? 256).

Definition sextet_ok (n : Z) : bool :=
  bool_decide (base64_value (base64_char n) = Some n) && negb (ascii_white (base64_char n)) &&
  negb (base64_char n =? 61).

Lemma base64_char_ok n : 0 <= n < 64 -> sextet_ok n = true.
Proof.
  intros Hn. assert (forallb sextet_ok (seqZ 0 64) = true) as H by by vm_compute.
  rewrite forallb_elem in H. apply H, elem_of_seqZ. lia.
Qed.

Lemma base64_char_value n : 0 <= n < 64 -> base64_value (base64_char n) = Some n.
Proof. intros Hn%base64_char_ok. unfold sextet_ok in Hn. by bools. Qed.

Lemma base64_char_plain n : 0 <= n < 64 -> ascii_white (base64_char n) = false /\ base64_char n <> 61.
Proof. intros Hn%base64_char_ok. unfold sextet_ok in Hn. bools. split; [done|lia]. Qed.

Definition chars (l : list Z) : text := map base64_char l.

(** The text of some bytes: the characters of sextets that decode to them, and padding. *)
Definition encodes (bytes : list Z) (s : text) : Prop :=
  exists l pad, s = chars l ++ replicate pad 61%Z /\ Forall (fun n => 0 <= n < 64) l /\
    (length s mod 4 = 0)%nat /\ (pad <= 2)%nat /\ sextets l = Some bytes.

Lemma mod4_step n : (n mod 4 = 0 -> (4 + n) mod 4 = 0)%nat.
Proof. intros Hn. by rewrite (Nat.Div0.add_mod 4 n 4), Hn. Qed.

Ltac bits := repeat constructor; cbn; (Z.div_mod_to_equations; lia).

Lemma toBase64_encodes bytes : Forall (fun b => 0 <= b < 256) bytes -> encodes bytes (toBase64 bytes).
Proof.
  revert bytes. fix IH 1. intros [|a [|b [|c rest]]] Hb.
  - exists [], 0%nat. by repeat constructor.
  - inversion_clear Hb as [|?? Ha _]. exists [a / 4; a mod 4 * 16], 2%nat. cbn [toBase64]. split_and!; [done|bits|done|lia|].
    cbn. repeat f_equal. Z.div_mod_to_equations; lia.
  - inversion_clear Hb as [|?? Ha Hb']. inversion_clear Hb' as [|?? Hb _].
    exists [a / 4; a mod 4 * 16 + b / 16; b mod 16 * 4], 1%nat. cbn [toBase64].
    split_and!; [done|bits|done|lia|]. cbn. repeat f_equal; Z.div_mod_to_equations; lia.
  - inversion_clear Hb as [|?? Ha Hb']. inversion_clear Hb' as [|?? Hb Hc']. inversion_clear Hc' as [|?? Hc Hr].
    destruct (IH rest Hr) as (l & pad & E & Hl & Hlen & Hpad & Hs).
    exists ([a / 4; a mod 4 * 16 + b / 16; b mod 16 * 4 + c / 64; c mod 64] ++ l), pad. cbn [toBase64]. rewrite E in Hlen |- *.
    split_and!; [done| |..].
    + apply Forall_app. split; [bits|done].
    + exact (mod4_step _ Hlen).
    + done.
    + cbn [app sextets]. rewrite Hs. cbn. repeat f_equal; Z.div_mod_to_equations; lia.
Qed.

Lemma drop_equals_padding s : drop_equals (s ++ [61]) = s.
Proof. unfold drop_equals. rewrite last_snoc. cbn. apply List.removelast_last. Qed.

Lemma drop_equals_plain l : Forall (fun n => 0 <= n < 64) l -> drop_equals (chars l) = chars l.
Proof.
  intros Hl. unfold drop_equals. pose proof (fmap_last base64_char l) as Hm.
  change (last (chars l) = base64_char <$> last l) in Hm. rewrite Hm. destruct (last l) as [n|] eqn:E; [|done].
  apply last_Some_elem_of in E. rewrite Forall_forall in Hl. cbn.
  destruct (Z.eqb_spec (base64_char n) 61) as [E'|]; [|done]. by apply base64_char_plain in E'; [|apply Hl].
Qed.

Lemma unpadded_encoded l pad :
  Forall (fun n => 0 <= n < 64) l -> (pad <= 2)%nat -> (length (chars l ++ replicate pad 61%Z) mod 4 = 0)%nat ->
  unpadded (chars l ++ replicate pad 61%Z) = chars l.
Proof.
  intros Hl Hpad Hlen. unfold unpadded. rewrite Hlen. cbn [Nat.eqb].
  destruct pad as [|[|[|]]]; [..|lia]; cbn [replicate].
  - by rewrite app_nil_r, !drop_equals_plain.
  - by rewrite drop_equals_padding, drop_equals_plain.
  - by rewrite (app_assoc _ [61] [61] : _ ++ [61; 61] = _), !drop_equals_padding.
Qed.

(** What the encoder prints, the decoder reads. *)
Lemma atob_toBase64 bytes : Forall (fun b => 0 <= b < 256) bytes -> atob (toBase64 bytes) = Ok bytes.
Proof.
  intros (l & pad & -> & Hl & Hlen & Hpad & Hs)%toBase64_encodes. unfold atob.
  assert (base.filter (fun c => ascii_white c = false) (chars l ++ replicate pad 61%Z) =
          chars l ++ replicate pad 61%Z) as ->.
  { assert (forall s : text, Forall (fun c => ascii_white c = false) s -> base.filter (fun c => ascii_white c = false) s = s) as Hf.
    { induction 1; [done|]. rewrite filter_cons, decide_True by done. by f_equal. }
    apply Hf, Forall_app. split; [apply (Forall_fmap base64_char)|].
    - eapply Forall_impl; [exact Hl|]. intros n Hn. by apply base64_char_plain.
    - by apply Forall_replicate. }
  rewrite unpadded_encoded by done.
  assert (mapM base64_value (chars l) = Some l) as ->; [|by cbn; rewrite Hs].
  apply mapM_Some, (Forall2_fmap_l base64_char). clear Hs Hlen. induction Hl; constructor; [by apply base64_char_value|done].
Qed.

Example atob_ex : atob (lit " QUI=") = Ok [65; 66] /\ toBase64 [65; 66] = lit "QUI=".
Proof. done. Qed.
