(* ===== verification/Csv.v ===== *)
(** * Bank statements in CSV

    [libs/aven-document-ingest/src/csv.ts]: the bounded record parser, the checks
    on amounts, dates and account numbers, and the recognition of two reviewed
    statement formats.  A text is the list of its UTF-16 code units.  The decoders
    and the digest of the platform are parameters. *)

From S2P Require Import Prelude Base64.

Open Scope stdpp_scope.
Open Scope js_scope.
Local Open Scope Z_scope.

Definition CSV_MAX_BYTES : Z := 1000000.
Definition CSV_DETECTOR_VERSION : string := "csv-statement-v1".
Definition CSV_MAX_RECORDS : Z := 129.
Definition MAX_COLUMNS : Z := 64.

Definition LF : Z := 10.
Definition CR : Z := 13.
Definition QUOTE : Z := 34.
Definition COMMA : Z := 44.
Definition SEMICOLON : Z := 59.
Definition BOM : Z := 65279.

Definition text_length {A} (l : list A) : Z := Z.of_nat (length l).

(** ** Decoding *)

Section Decode.
Context (utf8 windows1252 : list Z -> option text).

Definition unsupported (code : Z) : bool :=
  ((code <? 32) && negb (bool_decide (code ∈ [9; 10; 13]))) || ((127 <=? code) && (code <=? 159)).

Definition decodeCsvText (bytes : list Z) : result text :=
  throw! CSV_MAX_BYTES <? text_length bytes as "CSV exceeds the 1 MB detection limit.";
  decoded ← match utf8 bytes with
            | Some decoded => Ok decoded
            | None => match windows1252 bytes with
                      | Some decoded => Ok decoded
                      | None => Throw "The encoded data was not valid"
                      end
            end;
  throw! existsb unsupported decoded as "CSV contains unsupported control characters.";
  Ok decoded.
End Decode.

(** ** Sources *)

(** [toLowerCase]. The code compares with texts of small Latin letters without k, and no other
    character becomes one of these. *)
Definition small (c : Z) : Z := if (65 <=? c) && (c <=? 90) then c + 32 else c.
Definition toLowerCase (s : text) : text := map small s.

(** [split(';')[0]]. *)
Fixpoint before_semicolon (s : text) : text :=
  match s with c :: rest => if c =? SEMICOLON then [] else c :: before_semicolon rest | [] => [] end.

(** [/\.csv$/i.test(name)]. *)
Definition csv_name (originalName : text) : bool :=
  bool_decide (toLowerCase (drop (length originalName - 4) originalName) = lit ".csv").

Definition isCsvSource (originalName declaredMediaType : text) : bool :=
  csv_name originalName ||
  bool_decide (toLowerCase (trim_text (before_semicolon declaredMediaType)) ∈ lit <$> ["text/csv"; "application/csv"]).

(** ** Records *)

(** The variables of the parser; [ps_rows] and [ps_row] are in order. *)
Record ParserState := {
  ps_rows : list (list text);
  ps_row : list text;
  ps_cell : text;
  ps_quoted : bool;
  ps_closed : bool
}.

Definition initial_state : ParserState :=
  {| ps_rows := []; ps_row := []; ps_cell := []; ps_quoted := false; ps_closed := false |}.

Definition field (s : ParserState) : result ParserState :=
  let row := ps_row s ++ [ps_cell s] in
  throw! MAX_COLUMNS <? text_length row as "CSV exceeds 64 columns.";
  Ok {| ps_rows := ps_rows s; ps_row := row; ps_cell := []; ps_quoted := ps_quoted s; ps_closed := false |}.

Definition record (s : ParserState) : result ParserState :=
  s ← field s;
  let rows := ps_rows s ++ [ps_row s] in
  throw! CSV_MAX_RECORDS <? text_length rows as
    "CSV exceeds 128 transaction records; no partial import.";
  Ok {| ps_rows := rows; ps_row := []; ps_cell := ps_cell s; ps_quoted := ps_quoted s;
        ps_closed := ps_closed s |}.

Definition with_cell (cell : text) (s : ParserState) : ParserState :=
  {| ps_rows := ps_rows s; ps_row := ps_row s; ps_cell := cell; ps_quoted := ps_quoted s;
     ps_closed := ps_closed s |}.
Definition with_quotes (quoted closed : bool) (s : ParserState) : ParserState :=
  {| ps_rows := ps_rows s; ps_row := ps_row s; ps_cell := ps_cell s; ps_quoted := quoted;
     ps_closed := closed |}.

(** The [for] loop over the characters, with the look-ahead of [text[i + 1]]. *)
Fixpoint parse_loop (delimiter : Z) (t : text) (s : ParserState) : result ParserState :=
  match t with
  | [] => Ok s
  | c :: rest =>
      if ps_quoted s then
        if c =? QUOTE then
          match rest with
          | d :: rest' =>
              if d =? QUOTE then parse_loop delimiter rest' (with_cell (ps_cell s ++ [QUOTE]) s)
              else parse_loop delimiter rest (with_quotes false true s)
          | [] => parse_loop delimiter rest (with_quotes false true s)
          end
        else parse_loop delimiter rest (with_cell (ps_cell s ++ [c]) s)
      else if c =? delimiter then s ← field s; parse_loop delimiter rest s
      else if (c =? LF) || (c =? CR) then
        match rest with
        | d :: rest' =>
            if (c =? CR) && (d =? LF) then s ← record s; parse_loop delimiter rest' s
            else s ← record s; parse_loop delimiter rest s
        | [] => s ← record s; parse_loop delimiter rest s
        end
      else if (c =? QUOTE) && bool_decide (ps_cell s = []) && negb (ps_closed s) then
        parse_loop delimiter rest (with_quotes true (ps_closed s) s)
      else
        throw! ps_closed s || (c =? QUOTE) as "Malformed CSV quoting.";
        parse_loop delimiter rest (with_cell (ps_cell s ++ [c]) s)
  end.

(** [text.replace(/^\uFEFF/, '')]. *)
Definition strip_bom (t : text) : text :=
  match t with c :: rest => if c =? BOM then rest else t | [] => t end.

Definition parseCsv (t : text) (delimiter : Z) : result (list (list text)) :=
  throw! (CSV_MAX_BYTES <? text_length t) || existsb (Z.eqb 0) t as "CSV exceeds limits or contains NUL.";
  s ← parse_loop delimiter (strip_bom t) initial_state;
  throw! ps_quoted s as "Unterminated CSV field.";
  if negb (bool_decide (ps_row s = [])) || negb (bool_decide (ps_cell s = [])) || ps_closed s
  then s ← record s; Ok (ps_rows s)
  else Ok (ps_rows s).

(** ** Values *)

Definition digit (c : Z) : bool := (48 <=? c) && (c <=? 57).
Definition upper (c : Z) : bool := (65 <=? c) && (c <=? 90).

(** The number a run of digits stands for. *)
Definition digits_value (t : text) : Z := fold_left (fun n c => n * 10 + (c - 48)) t 0.

Definition unsigned (t : text) : bool * text :=
  match t with
  | c :: rest => if c =? 43 then (false, rest) else if c =? 45 then (true, rest) else (false, t)
  | [] => (false, t)
  end.

(** [/^[+-]?\d{1,13},\d{2}$/]: the sign, the units and the two last digits. *)
Definition money (value : text) : option (bool * text * text) :=
  let '(negative, rest) := unsigned value in
  let n := (length rest - 3)%nat in
  match drop n rest with
  | [comma; a; b] =>
      if (comma =? COMMA) && digit a && digit b && (1 <=? Z.of_nat n) && (Z.of_nat n <=? 13) &&
         forallb digit (take n rest)
      then Some (negative, take n rest, [a; b]) else None
  | _ => None
  end.

Definition MAX_SAFE : Z := 9007199254740991.

(** [-0] is the number 0 of the model. *)
Definition minor (value : text) : result Z :=
  match money value with
  | None => Throw "Ambiguous or missing monetary value."
  | Some (negative, units, cents) =>
      let magnitude := digits_value (units ++ cents) in
      let n := if negative then - magnitude else magnitude in
      throw! negb ((- MAX_SAFE <=? n) && (n <=? MAX_SAFE)) as "Amount exceeds exact integer range.";
      Ok n
  end.

Definition DASH : Z := 45.
Definition DOT : Z := 46.

Definition leap (year : Z) : bool :=
  (year mod 4 =? 0) && (negb (year mod 100 =? 0) || (year mod 400 =? 0)).
Definition days_in_month (year month : Z) : Z :=
  if month =? 2 then (if leap year then 29 else 28)
  else if bool_decide (month ∈ [4; 6; 9; 11]) then 30 else 31.

(** An ISO date that [Date] parses and prints back unchanged: a calendar day. *)
Definition calendar_day (value : text) : bool :=
  match value with
  | [y1; y2; y3; y4; s1; m1; m2; s2; d1; d2] =>
      forallb digit [y1; y2; y3; y4; m1; m2; d1; d2] && (s1 =? DASH) && (s2 =? DASH) &&
      let year := digits_value [y1; y2; y3; y4] in
      let month := digits_value [m1; m2] in
      let day := digits_value [d1; d2] in
      (1 <=? month) && (month <=? 12) && (1 <=? day) && (day <=? days_in_month year month)
  | _ => false
  end.

Definition date (value : text) (german : bool) : result text :=
  value ← (if german then
             match value with
             | [d1; d2; p1; m1; m2; p2; y1; y2; y3; y4] =>
                 throw! negb (forallb digit [d1; d2; m1; m2; y1; y2; y3; y4] &&
                              (p1 =? DOT) && (p2 =? DOT)) as "Date requires an explicit four-digit year.";
                 Ok [y1; y2; y3; y4; DASH; m1; m2; DASH; d1; d2]
             | _ => Throw "Date requires an explicit four-digit year."
             end
           else Ok value);
  throw! negb (calendar_day value) as "Invalid or ambiguous date.";
  Ok value.

(** [/^[A-Z]{2}\d{2}[A-Z0-9]{11,30}$/]. *)
Definition iban_shape (value : text) : bool :=
  match value with
  | a :: b :: c :: d :: rest =>
      upper a && upper b && digit c && digit d && (11 <=? text_length rest) && (text_length rest <=? 30) &&
      forallb (fun x => upper x || digit x) rest
  | _ => false
  end.

(** The decimal digits of one character: those of [c.charCodeAt(0) - 55] for a letter. *)
Definition iban_digits (c : Z) : list Z :=
  if upper c then [(c - 55) / 10; (c - 55) mod 10] else [c - 48].

Definition iban (value : text) : bool :=
  iban_shape value &&
  (fold_left (fun remainder c => fold_left (fun r digit => (r * 10 + digit) mod 97) (iban_digits c) remainder)
     (drop 4 value ++ take 4 value) 0 =? 1).

(** ** Formats *)

Definition RABO : list text := lit <$> [
  "IBAN/BBAN"; "Ccy"; "BIC"; "Seq No"; "Date"; "Value Date"; "Amount"; "Bal After Bkng";
  "Counterpty IBAN/BBAN"; "Name Counterpty"; "Name Ultimate Pty"; "Name Initiating Pty";
  "Counterpty BIC"; "Code"; "Batch ID"; "Transaction Reference"; "Mandate Reference"; "Collector ID";
  "Payment Reference"; "Description-1"; "Description-2"; "Description-3"; "Reasoncode"; "Instr Amt";
  "Instr Ccy"; "Rate"].
Definition HASPA : list text := lit <$> [
  "Auftragskonto"; "Buchungstag"; "Valutadatum"; "Buchungstext"; "Verwendungszweck"; "Glaeubiger ID";
  "Mandatsreferenz"; "Kundenreferenz (End-to-End)"; "Sammlerreferenz"; "Lastschrift Ursprungsbetrag";
  "Auslagenersatz Ruecklastschrift"; "Beguenstigter/Zahlungspflichtiger"; "Kontonummer/IBAN";
  "BIC (SWIFT-Code)"; "Betrag"; "Waehrung"; "Info"].

Record Profile := { pr_headers : list text; pr_delimiter : Z; pr_profile : string }.
Definition rabobank : Profile :=
  {| pr_headers := RABO; pr_delimiter := COMMA; pr_profile := "rabobank-csv-en-v1.2" |}.
Definition haspa : Profile :=
  {| pr_headers := HASPA; pr_delimiter := SEMICOLON; pr_profile := "haspa-csv-camt-v1" |}.

(** ** Transactions *)

Record Transaction := {
  tx_transactionId : option text;
  tx_bookingDate : text;
  tx_valueDate : text;
  tx_title : option text;
  tx_amountMinor : Z;
  tx_counterpartyName : text;
  tx_counterpartyIban : option text;
  tx_description : text;
  tx_balanceAfterMinor : option Z;
  tx_sourceRow : Z
}.

(** [r[i]]; the rows have the width of their header when it is read. *)
Definition column (r : list text) (i : nat) : text := nth i r [].
Definition present (t : text) : bool := negb (bool_decide (t = [])).
Definition or_null (t : text) : option text := if present t then Some t else None.

(** [\d{18}]. *)
Definition sequence_number (t : text) : bool := (text_length t =? 18) && forallb digit t.

(** [join] with a line feed. *)
Fixpoint join_lines (l : list text) : text :=
  match l with
  | [] => []
  | [t] => t
  | t :: l => t ++ LF :: join_lines l
  end.

Definition description_of (german : bool) (r : list text) : text :=
  if german then column r 4
  else join_lines (base.filter (fun t => present t = true) [column r 18; column r 19; column r 20; column r 21]).

(** The body of the [map]: one row, with the sequence numbers seen before. *)
Definition transaction (german : bool) (account : text) (ids : list text) (r : list text) (index : Z) :
    result (Transaction * list text) :=
  throw! negb (bool_decide (column r 0 = account)) ||
         negb (bool_decide (column r (if german then 15 else 1)%nat = lit "EUR")) as
    "Only one explicit EUR account is admitted per file.";
  throw! german && negb (bool_decide (column r 16 = lit "Umsatz gebucht")) as
    "CSV contains a non-booked or unknown transaction status.";
  throw! (if german then present (column r 9) || present (column r 10)
          else present (column r 22) || present (column r 23) || present (column r 24) || present (column r 25)) as
    "Reversal, original amount or FX fields require an unsupported mapping.";
  throw! negb german && (negb (sequence_number (column r 3)) || bool_decide (column r 3 ∈ ids)) as
    "Missing or repeated bank sequence number.";
  let otherIban := column r (if german then 12 else 8)%nat in
  throw! present otherIban && negb (iban otherIban) as
    "Counterparty account needs an unsupported identifier mapping.";
  let description := description_of german r in
  let name := column r (if german then 11 else 9)%nat in
  throw! negb (present description) || negb (present name) || (4000 <? text_length description) ||
         (512 <? text_length name) as "Missing or excessive counterparty or payment description.";
  bookingDate ← date (column r (if german then 1 else 4)%nat) german;
  valueDate ← date (column r (if german then 2 else 5)%nat) german;
  amountMinor ← minor (column r (if german then 14 else 6)%nat);
  balance ← (if german then Ok None else b ← minor (column r 7); Ok (Some b));
  Ok ({| tx_transactionId := if german then None else Some (column r 3);
         tx_bookingDate := bookingDate; tx_valueDate := valueDate;
         tx_title := or_null (column r (if german then 3 else 13)%nat);
         tx_amountMinor := amountMinor; tx_counterpartyName := name;
         tx_counterpartyIban := or_null otherIban; tx_description := description;
         tx_balanceAfterMinor := balance; tx_sourceRow := index + 2 |},
      if german then ids else column r 3 :: ids).

Fixpoint transactions (german : bool) (account : text) (ids : list text) (rows : list (list text))
    (index : Z) : result (list Transaction) :=
  match rows with
  | [] => Ok []
  | r :: rows =>
      x ← transaction german account ids r index;
      rest ← transactions german account x.2 rows (index + 1);
      Ok (x.1 :: rest)
  end.

(** [left > right] on strings. *)
Fixpoint text_cmp (s t : text) : Z :=
  match s, t with
  | [], [] => 0
  | [], _ => -1
  | _, [] => 1
  | a :: s, b :: t => or_else (a - b) (text_cmp s t)
  end.

(** The rows follow each other: dates in order, and every balance the one before plus the amount. *)
Definition follows (before row : Transaction) : bool :=
  negb (0 <? text_cmp (tx_bookingDate before) (tx_bookingDate row)) &&
  match tx_balanceAfterMinor before, tx_balanceAfterMinor row with
  | Some b, Some a => b + tx_amountMinor row =? a
  | _, _ => false
  end.
Fixpoint reconciles (l : list Transaction) : bool :=
  match l with
  | before :: ((row :: _) as rest) => follows before row && reconciles rest
  | _ => true
  end.

(** ** Detection *)

Record Statement := { sm_accountIban : text; sm_transactions : list Transaction }.

Record CsvDetection := {
  cd_sourceArtifactId : text;
  cd_sourceSha256 : text;
  cd_eligible : bool;
  cd_profile : option string;
  cd_reason : string;
  cd_statement : option Statement
}.

Definition recognize (t : text) (p : Profile) : list (Profile * list (list text)) :=
  match parseCsv t (pr_delimiter p) with
  | Ok rows => match rows with
               | header :: _ => if bool_decide (header = pr_headers p) then [(p, rows)] else []
               | [] => []
               end
  | Throw _ => []
  end.

(** The checks on the rows of a recognized format. *)
Definition statement_of (p : Profile) (rows : list (list text)) : result Statement :=
  let german := pr_delimiter p =? SEMICOLON in
  throw! Nat.ltb (length rows) 2 as
    "No transaction rows; document cannot be confirmed for reconciliation.";
  throw! existsb (fun r => negb (Nat.eqb (length r) (length (pr_headers p)))) rows as
    "CSV row width differs from its header.";
  let account := column (nth 1 rows []) 0 in
  throw! negb (iban account) as "Missing or invalid own-account IBAN.";
  list_ ← transactions german account [] (tail rows) 0;
  throw! negb german && negb (reconciles list_) as
    "Statement order or running balance does not reconcile.";
  Ok {| sm_accountIban := account; sm_transactions := list_ |}.

(** [b.toString(16).padStart(2, '0')]. *)
Definition hex_code (n : Z) : Z := if n <? 10 then 48 + n else 87 + n.
Definition hex_byte (b : Z) : text := [hex_code (b / 16); hex_code (b mod 16)].

Section Detect.
Context (utf8 windows1252 : list Z -> option text).
Context (digest : list Z -> list Z).

Definition csvSourceDigest (base64 : text) : result text :=
  bytes ← atob base64; Ok (mjoin (hex_byte <$> digest bytes)).

(** The body of the [try]; the format that was recognized is kept when a check throws. *)
Definition detect (base64 : text) : option string * result (option Statement) :=
  match (bytes ← atob base64; decodeCsvText utf8 windows1252 bytes) with
  | Throw message => (None, Throw message)
  | Ok t =>
      match recognize t rabobank ++ recognize t haspa with
      | [(p, rows)] => (Some (pr_profile p), s ← statement_of p rows; Ok (Some s))
      | _ => (None, Ok None)
      end
  end.

(** The digest is computed before the [try]: bytes that do not decode from base64 reject. *)
Definition detectCsvStatement (artifactId base64 : text) : result CsvDetection :=
  sha256 ← csvSourceDigest base64;
  let '(profile, outcome) := detect base64 in
  Ok {| cd_sourceArtifactId := artifactId; cd_sourceSha256 := sha256;
        cd_eligible := match outcome with Ok (Some _) => true | _ => false end;
        cd_profile := profile;
        cd_reason := match outcome with
                     | Ok (Some _) => "Known CSV layout and every row passed strict checks. A human must still confirm the document type."
                     | Ok None => "Unrecognized CSV statement format."
                     | Throw message => message
                     end;
        cd_statement := match outcome with Ok s => s | Throw _ => None end |}.
End Detect.
