(* ===== verification/CsvStatements.v ===== *)
(** * What the CSV recognition guarantees

    Round trip, bounds, and exactness of [Csv.v]: the parser inverts every
    printer of the format, an account number is checked as one large number, an
    amount is exact, and an eligible statement accounts for every row. *)

From S2P Require Import Prelude Base64 Csv.

Open Scope stdpp_scope.
Open Scope js_scope.
Local Open Scope Z_scope.

(** ** Printing *)

(** A cell as it is written: quoted with its quotes doubled, or as it is. *)
Definition escape_quotes (cell : text) : text :=
  flat_map (fun c => if c =? QUOTE then [QUOTE; QUOTE] else [c]) cell.
Definition print_cell (cell : bool * text) : text :=
  if cell.1 then QUOTE :: escape_quotes cell.2 ++ [QUOTE] else cell.2.

Fixpoint print_row (delimiter : Z) (cells : list (bool * text)) : text :=
  match cells with
  | [] => []
  | [cell] => print_cell cell ++ [CR; LF]
  | cell :: cells => print_cell cell ++ delimiter :: print_row delimiter cells
  end.
Definition print_csv (delimiter : Z) (rows : list (list (bool * text))) : text :=
  mjoin (print_row delimiter <$> rows).

(** The contents of the cells. *)
Definition table (rows : list (list (bool * text))) : list (list text) := (fun row => row.*2) <$> rows.

(** A cell that needs no quotes. *)
Definition plain (delimiter : Z) (cell : text) : bool :=
  forallb (fun c => negb ((c =? delimiter) || (c =? QUOTE) || (c =? CR) || (c =? LF))) cell.

Definition printable (delimiter : Z) (rows : list (list (bool * text))) : Prop :=
  text_length rows <= CSV_MAX_RECORDS /\
  Forall (fun row => row <> [] /\ text_length row <= MAX_COLUMNS /\
                     Forall (fun cell => cell.1 = false -> plain delimiter cell.2 = true) row) rows.

Definition good_delimiter (delimiter : Z) : bool := (delimiter =? COMMA) || (delimiter =? SEMICOLON).

Section Parsing.
Context (delimiter : Z) (Hdelimiter : good_delimiter delimiter = true).

Lemma delimiter_cases : delimiter = 44 \/ delimiter = 59.
Proof. unfold good_delimiter, COMMA, SEMICOLON in Hdelimiter. lia. Qed.

(** One character inside quotes. *)
Lemma parse_doubled rest s : ps_quoted s = true ->
  parse_loop delimiter (QUOTE :: QUOTE :: rest) s =
  parse_loop delimiter rest (with_cell (ps_cell s ++ [QUOTE]) s).
Proof. intros Hq. cbn [parse_loop]. by rewrite Hq, Z.eqb_refl. Qed.

Lemma parse_inside c rest s : ps_quoted s = true -> (c =? QUOTE) = false ->
  parse_loop delimiter (c :: rest) s = parse_loop delimiter rest (with_cell (ps_cell s ++ [c]) s).
Proof. intros Hq Hc. cbn [parse_loop]. by rewrite Hq, Hc. Qed.

(** Inside quotes, up to the closing one. *)
Lemma parse_quoted cell next rest s : ps_quoted s = true -> (next =? QUOTE) = false ->
  parse_loop delimiter (escape_quotes cell ++ QUOTE :: next :: rest) s =
  parse_loop delimiter (next :: rest) (with_quotes false true (with_cell (ps_cell s ++ cell) s)).
Proof.
  intros Hq Hn. revert s Hq. induction cell as [|c cell IH]; intros s Hq.
  - cbn [escape_quotes flat_map app]. cbn [parse_loop]. rewrite Hq, Hn. cbn [Z.eqb].
    rewrite Z.eqb_refl. rewrite app_nil_r. by destruct s.
  - change (escape_quotes (c :: cell)) with ((if c =? QUOTE then [QUOTE; QUOTE] else [c]) ++ escape_quotes cell).
    rewrite <- app_assoc.
    assert (with_cell ((ps_cell s ++ [c]) ++ cell) (with_cell (ps_cell s ++ [c]) s) =
            with_cell (ps_cell s ++ c :: cell) s) as Heq by (unfold with_cell; cbn; by rewrite <- app_assoc).
    destruct (c =? QUOTE) eqn:Ec; cbn [app].
    + apply Z.eqb_eq in Ec. subst c. rewrite parse_doubled by done. rewrite IH by done.
      cbn [ps_cell with_cell]. by rewrite <- Heq.
    + rewrite parse_inside by done. rewrite IH by done. cbn [ps_cell with_cell]. by rewrite <- Heq.
Qed.

(** Outside quotes, up to a character that ends the cell. *)
Lemma parse_plain cell rest s : plain delimiter cell = true -> ps_quoted s = false -> ps_closed s = false ->
  parse_loop delimiter (cell ++ rest) s = parse_loop delimiter rest (with_cell (ps_cell s ++ cell) s).
Proof.
  revert s. induction cell as [|c cell IH]; intros s Hp Hq Hc.
  - rewrite app_nil_r. by destruct s.
  - cbn [plain forallb] in Hp. apply andb_prop in Hp as [Hc1 Hp]. fold (plain delimiter cell) in Hp.
    apply negb_true_iff in Hc1. rewrite !orb_false_iff in Hc1. destruct Hc1 as [[[H1 H2] H3] H4].
    cbn [app parse_loop]. rewrite Hq, H1, H4, H3, H2. cbn [orb andb]. rewrite Hc. cbn [orb throw_if mbind result_bind].
    rewrite IH by done. f_equal. unfold with_cell. cbn. by rewrite <- app_assoc.
Qed.

(** The state at the start of a cell. *)
Definition fresh (rows : list (list text)) (row : list text) : ParserState :=
  {| ps_rows := rows; ps_row := row; ps_cell := []; ps_quoted := false; ps_closed := false |}.

Lemma parse_cell cell next rest rows row : (cell.1 = false -> plain delimiter cell.2 = true) ->
  (next =? QUOTE) = false ->
  parse_loop delimiter (print_cell cell ++ next :: rest) (fresh rows row) =
  parse_loop delimiter (next :: rest)
    {| ps_rows := rows; ps_row := row; ps_cell := cell.2; ps_quoted := false; ps_closed := cell.1 |}.
Proof.
  intros Hp Hn. unfold print_cell. destruct cell as [[] cell]; cbn [fst snd] in *.
  - cbn [app]. rewrite <- app_assoc. cbn [app].
    assert (parse_loop delimiter (QUOTE :: escape_quotes cell ++ QUOTE :: next :: rest) (fresh rows row) =
            parse_loop delimiter (escape_quotes cell ++ QUOTE :: next :: rest)
              (with_quotes true false (fresh rows row))) as ->.
    { cbn [parse_loop]. unfold QUOTE, LF, CR. destruct delimiter_cases as [-> | ->]; done. }
    rewrite parse_quoted by done. done.
  - by rewrite parse_plain by auto.
Qed.

Lemma field_fresh rows row cell closed : text_length row < MAX_COLUMNS ->
  field {| ps_rows := rows; ps_row := row; ps_cell := cell; ps_quoted := false; ps_closed := closed |} =
  Ok (fresh rows (row ++ [cell])).
Proof.
  intros Hl. unfold field. cbn. rewrite (proj2 (Z.ltb_ge _ _)); [done|].
  unfold text_length in *. rewrite length_app. cbn. lia.
Qed.

Lemma record_fresh rows row cell closed : text_length row < MAX_COLUMNS -> text_length rows < CSV_MAX_RECORDS ->
  record {| ps_rows := rows; ps_row := row; ps_cell := cell; ps_quoted := false; ps_closed := closed |} =
  Ok (fresh (rows ++ [row ++ [cell]]) []).
Proof.
  intros Hl Hr. unfold record. rewrite field_fresh by done. cbn. rewrite (proj2 (Z.ltb_ge _ _)); [done|].
  unfold text_length in *. rewrite length_app. cbn. lia.
Qed.

Lemma parse_row cells rest rows row : cells <> [] ->
  Forall (fun cell => cell.1 = false -> plain delimiter cell.2 = true) cells ->
  text_length row + text_length cells <= MAX_COLUMNS -> text_length rows < CSV_MAX_RECORDS ->
  parse_loop delimiter (print_row delimiter cells ++ rest) (fresh rows row) =
  parse_loop delimiter rest (fresh (rows ++ [row ++ cells.*2]) []).
Proof.
  intros Hne Hp. revert row Hne. induction Hp as [|cell cells Hc Hp IH]; intros row Hne Hcols Hrows; [done|].
  assert (text_length row < MAX_COLUMNS) as Hrow by (unfold text_length in *; cbn [length] in *; lia).
  destruct cells as [|cell' cells].
  - cbn [print_row]. rewrite <- app_assoc. cbn [app]. rewrite parse_cell by done.
    cbn [parse_loop ps_quoted]. unfold CR, LF. destruct delimiter_cases as [Hd | Hd]; rewrite Hd; cbn [Z.eqb Pos.eqb orb andb];
      by rewrite record_fresh.
  - change (print_row delimiter (cell :: cell' :: cells)) with
      (print_cell cell ++ delimiter :: print_row delimiter (cell' :: cells)).
    rewrite <- app_assoc. cbn [app]. rewrite parse_cell; [|done|].
    2:{ unfold QUOTE. destruct delimiter_cases as [Hd | Hd]; by rewrite Hd. }
    cbn [parse_loop ps_quoted]. rewrite Z.eqb_refl, field_fresh by done. cbn [mbind result_bind].
    rewrite IH; [|done| |done].
    + cbn [fmap list_fmap snd]. by rewrite <- app_assoc.
    + unfold text_length in *. rewrite length_app. cbn [length] in *. lia.
Qed.

Lemma parse_rows rows rest before :
  Forall (fun row => row <> [] /\ text_length row <= MAX_COLUMNS /\
                     Forall (fun cell => cell.1 = false -> plain delimiter cell.2 = true) row) rows ->
  text_length before + text_length rows <= CSV_MAX_RECORDS ->
  parse_loop delimiter (print_csv delimiter rows ++ rest) (fresh before []) =
  parse_loop delimiter rest (fresh (before ++ table rows) []).
Proof.
  intros Hp. revert before. induction Hp as [|row rows (Hne & Hcols & Hcells) Hp IH]; intros before Hl.
  - cbn. by rewrite app_nil_r.
  - unfold print_csv in *. cbn [fmap list_fmap mjoin]. cbn [mjoin list_join]. rewrite <- app_assoc.
    rewrite parse_row; [|done|done|unfold text_length in *; cbn in *; lia|unfold text_length in *; cbn [length] in *; lia].
    rewrite IH; [|unfold text_length in *; rewrite length_app; cbn [length] in *; lia].
    cbn [app]. by rewrite <- app_assoc.
Qed.
End Parsing.

(** Lossless: whatever the cells hold (delimiters, quotes, line breaks, nothing),
    and whichever of them are written with quotes, parsing the text of a table
    gives the table back, up to the declared limits. *)
Theorem parseCsv_roundtrip (delimiter : Z) (rows : list (list (bool * text)))
    (Hdelimiter : good_delimiter delimiter = true) (Hrows : printable delimiter rows)
    (Hlength : text_length (print_csv delimiter rows) <= CSV_MAX_BYTES)
    (Hnul : 0 ∉ print_csv delimiter rows) (Hbom : head (print_csv delimiter rows) <> Some BOM) :
  parseCsv (print_csv delimiter rows) delimiter = Ok (table rows).
Proof.
  unfold parseCsv. rewrite (proj2 (Z.ltb_ge _ _)) by done.
  replace (existsb (Z.eqb 0) (print_csv delimiter rows)) with false.
  2:{ symmetry. apply existsb_elem_false. intros c Hc. apply Z.eqb_neq. intros <-. done. }
  cbn [orb throw_if mbind result_bind].
  replace (strip_bom (print_csv delimiter rows)) with (print_csv delimiter rows ++ []).
  2:{ rewrite app_nil_r. unfold strip_bom. destruct (print_csv delimiter rows) as [|c t]; [done|].
      destruct (Z.eqb_spec c BOM); [subst; by destruct Hbom|done]. }
  destruct Hrows as [Hlen Hall]. change initial_state with (fresh [] []).
  rewrite parse_rows; [|done|done|done]. done.
Qed.

Lemma parseCsv_roundtrip_witness :
  parseCsv (print_csv SEMICOLON [[(true, [34; 59; 10]); (false, [65])]; [(false, []); (true, [])]]) SEMICOLON =
  Ok [[[34; 59; 10]; [65]]; [[]; []]].
Proof.
  apply (parseCsv_roundtrip SEMICOLON [[(true, [34; 59; 10]); (false, [65])]; [(false, []); (true, [])]]).
  - reflexivity.
  - split; [vm_compute; discriminate|]. repeat apply List.Forall_cons; try apply List.Forall_nil;
      (split; [discriminate|split; [vm_compute; discriminate|]];
       repeat apply List.Forall_cons; try apply List.Forall_nil; cbn; try reflexivity; try discriminate).
  - vm_compute. discriminate.
  - refine (proj1 (bool_decide_eq_true _) _). vm_compute. reflexivity.
  - discriminate.
Defined.

(** ** Bounds *)

Record state_bounds (s : ParserState) : Prop := {
  sb_rows : text_length (ps_rows s) <= CSV_MAX_RECORDS;
  sb_columns : Forall (fun row => 1 <= text_length row <= MAX_COLUMNS) (ps_rows s);
  sb_row : text_length (ps_row s) <= MAX_COLUMNS
}.

Lemma field_bounds s s' : field s = Ok s' -> state_bounds s ->
  state_bounds s' /\ 1 <= text_length (ps_row s') /\ ps_rows s' = ps_rows s.
Proof.
  unfold field. intros Hf [H1 H2 H3]. inv_result. rewrite Z.ltb_ge in *. split; [by split|]. cbn.
  unfold text_length. rewrite length_app. cbn. split; [lia|done].
Qed.

Lemma record_bounds s s' : record s = Ok s' -> state_bounds s -> state_bounds s'.
Proof.
  unfold record. intros Hr Hs. destruct (field s) as [s1|] eqn:Ef; [|discriminate]. cbn in Hr.
  destruct (field_bounds _ _ Ef Hs) as ([H1 H2 H3] & Hne & Heq). inv_result. rewrite Z.ltb_ge in *.
  split; cbn; [done| |vm_compute; discriminate]. apply Forall_app. split; [done|]. by repeat constructor.
Qed.

Lemma parse_loop_bounds delimiter t s s' : parse_loop delimiter t s = Ok s' -> state_bounds s -> state_bounds s'.
Proof.
  assert (forall s cell, state_bounds s -> state_bounds (with_cell cell s)) as Hcell by (intros ? ? []; by split).
  assert (forall s q c, state_bounds s -> state_bounds (with_quotes q c s)) as Hquotes by (intros ? ? ? []; by split).
  remember (length t) as n eqn:Hn. assert (length t <= n)%nat as Hle by lia. clear Hn. revert t s Hle.
  induction n as [|n IH]; intros [|c rest] s Hle Hp Hs; cbn [length] in Hle; try lia;
    try (cbn in Hp; by injection Hp as <-).
  cbn [parse_loop] in Hp.
  repeat (match type of Hp with
    | (if ?b then _ else _) = _ => destruct b
    | match ?r with [] => _ | _ :: _ => _ end = _ => destruct r; cbn [length] in Hle
    | mbind _ (field s) = _ =>
        let E := fresh in destruct (field s) eqn:E; [|discriminate Hp]; apply field_bounds in E as (? & _); [|done];
        cbn [mbind result_bind] in Hp
    | mbind _ (record s) = _ =>
        let E := fresh in destruct (record s) eqn:E; [|discriminate Hp]; apply record_bounds in E; [|done];
        cbn [mbind result_bind] in Hp
    | mbind _ (throw_if ?b _) = _ => destruct b; [discriminate Hp|]; cbn [throw_if mbind result_bind] in Hp
    end); (eapply IH; [|exact Hp|]; [cbn [length]; lia|auto]).
Qed.

(** A parsed file has at most 129 records, every one of them with between one and
    64 columns; anything larger is refused as a whole. *)
Theorem parseCsv_bounds (t : text) (delimiter : Z) (rows : list (list text))
    (Hparse : parseCsv t delimiter = Ok rows) :
  text_length rows <= CSV_MAX_RECORDS /\ Forall (fun row => 1 <= text_length row <= MAX_COLUMNS) rows /\
  text_length t <= CSV_MAX_BYTES.
Proof.
  unfold parseCsv in Hparse.
  destruct (_ || _) eqn:Elimit in Hparse; [discriminate|]. cbn [throw_if mbind result_bind] in Hparse.
  apply orb_false_iff in Elimit as [Elen%Z.ltb_ge _].
  destruct (parse_loop _ _ _) as [s|] eqn:El; [|discriminate]. cbn [mbind result_bind] in Hparse.
  assert (state_bounds s) as Hs.
  { eapply parse_loop_bounds; [exact El|]. split; [vm_compute; discriminate|constructor|vm_compute; discriminate]. }
  destruct (ps_quoted s); [discriminate|]. cbn [throw_if mbind result_bind] in Hparse.
  destruct (_ || _) in Hparse.
  - destruct (record s) as [s'|] eqn:Er; [|discriminate]. injection Hparse as <-.
    destruct (record_bounds _ _ Er Hs). done.
  - injection Hparse as <-. by destruct Hs.
Qed.

Lemma parseCsv_bounds_witness : text_length [[[65]]] <= CSV_MAX_RECORDS.
Proof. apply (parseCsv_bounds [65] COMMA [[[65]]]). vm_compute. reflexivity. Defined.

(** ** Account numbers *)

(** The number an account number stands for: its characters after the first four,
    then those four, letters as 10 to 35. *)
Definition iban_number (value : text) : Z :=
  fold_left (fun n c => if upper c then n * 100 + (c - 55) else n * 10 + (c - 48))
    (drop 4 value ++ take 4 value) 0.

Lemma iban_step n c :
  fold_left (fun r digit => (r * 10 + digit) mod 97) (iban_digits c) (n mod 97) =
  (if upper c then n * 100 + (c - 55) else n * 10 + (c - 48)) mod 97.
Proof.
  unfold iban_digits. destruct (upper c); cbn [fold_left].
  - rewrite (Z.add_mod ((n mod 97 * 10 + (c - 55) / 10) mod 97 * 10)), !Z.mul_mod_idemp_l,
      <- Z.add_mod by done.
    rewrite Z.mul_add_distr_r, <- (Z.add_mod_idemp_l (_ + _)) by done.
    rewrite (Z.add_mod (n mod 97 * 10 * 10)), <- Z.mul_assoc, Z.mul_mod_idemp_l, <- Z.add_mod by done.
    rewrite Z.add_mod_idemp_l by done. f_equal. pose proof (Z.div_mod (c - 55) 10). lia.
  - by rewrite Z.add_mod, Z.mul_mod_idemp_l, <- Z.add_mod by done.
Qed.

Lemma iban_fold l n :
  fold_left (fun remainder c => fold_left (fun r digit => (r * 10 + digit) mod 97) (iban_digits c) remainder)
    l (n mod 97) =
  (fold_left (fun n c => if upper c then n * 100 + (c - 55) else n * 10 + (c - 48)) l n) mod 97.
Proof.
  revert n. induction l as [|c l IH]; intros n; cbn [fold_left]; [done|]. by rewrite iban_step, IH.
Qed.

(** The digit-by-digit check of an account number is the ISO 7064 check: the
    shape, and the whole number, which may have seventy digits, is 1 modulo 97. *)
Theorem iban_is_mod_97 (value : text) :
  iban value = true <-> iban_shape value = true /\ iban_number value mod 97 = 1.
Proof.
  unfold iban. rewrite andb_true_iff, Z.eqb_eq. change 0 with (0 mod 97) at 1. by rewrite iban_fold.
Qed.

(** ** Amounts *)

Lemma digits_value_app t u :
  digits_value (t ++ u) = fold_left (fun n c => n * 10 + (c - 48)) u (digits_value t).
Proof. unfold digits_value. by rewrite fold_left_app. Qed.

Lemma digits_fold u n : fold_left (fun n c => n * 10 + (c - 48)) u n = n * 10 ^ text_length u + digits_value u.
Proof.
  unfold digits_value. revert n. induction u as [|c u IH]; intros n; cbn [fold_left]; [unfold text_length; cbn; lia|].
  rewrite IH, (IH (0 * 10 + _)). unfold text_length. cbn [length]. rewrite Nat2Z.inj_succ, Z.pow_succ_r by lia. lia.
Qed.

Lemma digits_bound t : forallb digit t = true -> 0 <= digits_value t < 10 ^ text_length t.
Proof.
  induction t as [|c t IH]; intros Hd; [done|]. cbn [forallb] in Hd. apply andb_prop in Hd as [Hc Hd].
  specialize (IH Hd). change (digits_value (c :: t)) with (fold_left (fun n c => n * 10 + (c - 48)) t (0 * 10 + (c - 48))).
  rewrite digits_fold. unfold text_length in *. cbn [length]. rewrite Nat2Z.inj_succ, Z.pow_succ_r by lia.
  unfold digit in Hc. nia.
Qed.

(** A written amount: sign, at most thirteen units, a comma and two digits. *)
Definition amount (sign units cents : text) : Prop :=
  sign ∈ [[]; [43]; [45]] /\ 1 <= text_length units <= 13 /\ text_length cents = 2 /\
  forallb digit units = true /\ forallb digit cents = true.

Lemma unsigned_spec value : exists sign, sign ∈ [[]; [43]; [45]] /\ value = sign ++ (unsigned value).2 /\
  (unsigned value).1 = bool_decide (sign = [45]).
Proof.
  unfold unsigned. destruct value as [|c rest]; [exists []; split; [set_solver|done]|].
  destruct (Z.eqb_spec c 43) as [->|]; [exists [43]; split; [set_solver|done]|].
  destruct (Z.eqb_spec c 45) as [->|]; [exists [45]; split; [set_solver|done]|].
  exists []. split; [set_solver|done].
Qed.

Lemma unsigned_sign sign units rest : sign ∈ [[]; [43]; [45]] -> forallb digit units = true -> units <> [] ->
  unsigned (sign ++ units ++ rest) = (bool_decide (sign = [45]), units ++ rest).
Proof.
  intros Hs Hd Hne. destruct units as [|c units]; [done|]. cbn [forallb] in Hd. apply andb_prop in Hd as [Hc _].
  assert ((c =? 43) = false /\ (c =? 45) = false) as [E1 E2] by (unfold digit in Hc; lia).
  rewrite !elem_of_cons, elem_of_nil in Hs. destruct Hs as [->|[->|[->|[]]]]; cbn; [|done|done].
  by rewrite E1, E2.
Qed.

Lemma money_spec value negative units cents : money value = Some (negative, units, cents) <->
  exists sign, value = sign ++ units ++ COMMA :: cents /\ amount sign units cents /\
               negative = bool_decide (sign = [45]).
Proof.
  split.
  - destruct (unsigned_spec value) as (sign & Hs & Hv & Hneg). unfold money. intros Hm.
    destruct (unsigned value) as [neg rest]. cbn [fst snd] in *.
    destruct (drop (length rest - 3) rest) as [|comma [|a [|b [|? ?]]]] eqn:Ed; try discriminate.
    destruct (_ && _) eqn:Eb in Hm; [|discriminate]. injection Hm as <- <- <-. bools.
    rewrite Z.eqb_eq, !Z.leb_le in *. subst comma. exists sign. split; [|split; [|done]].
    + rewrite Hv at 1. f_equal. rewrite <- Ed. by rewrite take_drop.
    + assert (length rest - 3 <= length rest)%nat by lia.
      split; [done|]. unfold text_length. rewrite length_take_le by lia. split; [lia|]. split; [done|].
      split; [done|]. cbn. rewrite !andb_true_iff. auto.
  - intros (sign & -> & (Hs & Hu & Hc & Hdu & Hdc) & ->). unfold money.
    destruct cents as [|a [|b [|? ?]]]; try (unfold text_length in Hc; cbn in Hc; lia).
    rewrite unsigned_sign; [|done|done|intros ->; unfold text_length in Hu; cbn in Hu; lia].
    assert (length (units ++ [COMMA; a; b]) - 3 = length units)%nat as -> by (rewrite length_app; cbn; lia).
    rewrite drop_app_length, take_app_length. cbn in Hdc. bools. unfold text_length in Hu.
    rewrite Hdu. replace (_ && _) with true; [done|]. symmetry. rewrite !andb_true_iff, !Z.leb_le.
    repeat split; try lia; done.
Qed.

(** An amount is read exactly: it is accepted when it is written with a decimal
    comma and two digits, its value is then the number of cents, and that number
    always fits, so the second error of [minor] never occurs. *)
Theorem minor_exact (value : text) :
  (forall n, minor value = Ok n <->
     exists sign units cents, value = sign ++ units ++ COMMA :: cents /\ amount sign units cents /\
       n = (if bool_decide (sign = [45]) then -1 else 1) * (digits_value units * 100 + digits_value cents)) /\
  (forall n, minor value = Ok n -> Z.abs n < 10 ^ 15) /\
  minor value <> Throw "Amount exceeds exact integer range.".
Proof.
  assert (forall negative units cents, money value = Some (negative, units, cents) ->
    minor value = Ok ((if negative then -1 else 1) * (digits_value units * 100 + digits_value cents)) /\
    Z.abs ((if negative then -1 else 1) * (digits_value units * 100 + digits_value cents)) < 10 ^ 15) as Hmoney.
  { intros negative units cents Hm. pose proof Hm as Hm'.
    apply money_spec in Hm' as (sign & _ & (_ & Hu & Hc & Hdu & Hdc) & _).
    unfold minor. rewrite Hm, digits_value_app, digits_fold, Hc. change (10 ^ 2) with 100.
    pose proof (digits_bound _ Hdu) as Hbu. pose proof (digits_bound _ Hdc) as Hbc. rewrite Hc in Hbc.
    assert (10 ^ text_length units <= 10 ^ 13) by (apply Z.pow_le_mono_r; lia).
    change (10 ^ 2) with 100 in Hbc. change (10 ^ 13) with 10000000000000 in *.
    change (10 ^ 15) with 1000000000000000. unfold MAX_SAFE.
    destruct negative; (replace (negb _) with false; [split; [cbn [throw_if mbind result_bind]; f_equal; lia|lia]|]);
      symmetry; rewrite negb_false_iff, andb_true_iff, !Z.leb_le; lia. }
  split; [|split].
  - intros n. split.
    + intros Hn. destruct (money value) as [[[negative units] cents]|] eqn:Em; [|unfold minor in Hn; by rewrite Em in Hn].
      destruct (Hmoney _ _ _ eq_refl) as [Hok _]. rewrite Hok in Hn. injection Hn as <-.
      apply money_spec in Em as (sign & Hv & Ha & ->). eauto 6.
    + intros (sign & units & cents & Hv & Ha & ->).
      assert (money value = Some (bool_decide (sign = [45]), units, cents)) as Em by (apply money_spec; eauto).
      by destruct (Hmoney _ _ _ Em).
  - intros n Hn. destruct (money value) as [[[negative units] cents]|] eqn:Em; [|unfold minor in Hn; by rewrite Em in Hn].
    destruct (Hmoney _ _ _ eq_refl) as [Hok Hb]. rewrite Hok in Hn. by injection Hn as <-.
  - destruct (money value) as [[[negative units] cents]|] eqn:Em; [|unfold minor; by rewrite Em].
    destruct (Hmoney _ _ _ eq_refl) as [-> _]. done.
Qed.

(** ** Statements *)

(** What a transaction says of its row. *)
Record books (german : bool) (account : text) (r : list text) (tx : Transaction) : Prop := {
  bk_account : column r 0 = account;
  bk_currency : column r (if german then 15 else 1)%nat = lit "EUR";
  bk_amount : minor (column r (if german then 14 else 6)%nat) = Ok (tx_amountMinor tx);
  bk_booking : date (column r (if german then 1 else 4)%nat) german = Ok (tx_bookingDate tx);
  bk_value : date (column r (if german then 2 else 5)%nat) german = Ok (tx_valueDate tx);
  bk_name : tx_counterpartyName tx = column r (if german then 11 else 9)%nat;
  bk_description : tx_description tx = description_of german r /\ tx_description tx <> [];
  bk_counterparty : match tx_counterpartyIban tx with
                    | Some other => iban other = true /\ other = column r (if german then 12 else 8)%nat
                    | None => column r (if german then 12 else 8)%nat = []
                    end;
  bk_balance : if german then tx_balanceAfterMinor tx = None
               else exists b, tx_balanceAfterMinor tx = Some b /\ minor (column r 7) = Ok b;
  bk_id : tx_transactionId tx = if german then None else Some (column r 3)
}.

Lemma present_spec t : present t = true <-> t <> [].
Proof. unfold present. rewrite negb_true_iff, bool_decide_eq_false. done. Qed.

Lemma transaction_spec german account ids r index tx ids' :
  transaction german account ids r index = Ok (tx, ids') ->
  books german account r tx /\ tx_sourceRow tx = index + 2 /\
  (german = false -> ids' = column r 3 :: ids /\ column r 3 ∉ ids).
Proof.
  unfold transaction. intros Ht.
  repeat match type of Ht with
  | mbind (fun _ : unit => _) (throw_if ?b _) = _ =>
      let E := fresh "E" in destruct b eqn:E; cbn [throw_if mbind result_bind] in Ht; [discriminate Ht|]
  end.
  destruct (date (column r (if german then 1 else 4)%nat) german) as [booking|] eqn:Eb in Ht; [|discriminate Ht]. cbn [mbind result_bind] in Ht.
  destruct (date (column r (if german then 2 else 5)%nat) german) as [value|] eqn:Ev in Ht; [|discriminate Ht]. cbn [mbind result_bind] in Ht.
  destruct (minor (column r (if german then 14 else 6)%nat)) as [n|] eqn:En in Ht; [|discriminate Ht]. cbn [mbind result_bind] in Ht.
  apply orb_false_iff in E as [Eacc Ecur]. bools. clear E0 E1.
  assert (exists balance, (if german then balance = None else exists b, balance = Some b /\ minor (column r 7) = Ok b) /\
    (tx, ids') = ({| tx_transactionId := if german then None else Some (column r 3);
         tx_bookingDate := booking; tx_valueDate := value;
         tx_title := or_null (column r (if german then 3 else 13)%nat);
         tx_amountMinor := n; tx_counterpartyName := column r (if german then 11 else 9)%nat;
         tx_counterpartyIban := or_null (column r (if german then 12 else 8)%nat);
         tx_description := description_of german r; tx_balanceAfterMinor := balance;
         tx_sourceRow := index + 2 |}, if german then ids else column r 3 :: ids)) as (balance & Hbal & Heq).
  { destruct german; cbn [mbind result_bind] in Ht; [injection Ht as <- <-; eauto|].
    destruct (minor (column r 7)) as [b|]; [|discriminate Ht]. cbn [mbind result_bind] in Ht.
    injection Ht as <- <-. eauto. }
  injection Heq as -> ->. split; [split; cbn; auto|split; [done|]].
  - split; [done|]. by apply present_spec.
  - unfold or_null. destruct (present _) eqn:Ep; cbn.
    + cbn in E3. by apply negb_false_iff in E3.
    + unfold present in Ep. by apply negb_false_iff, bool_decide_eq_true in Ep.
  - intros ->. split; [done|]. cbn in E2. by apply orb_false_iff in E2 as [_ E2%bool_decide_eq_false].
Qed.

Lemma transactions_spec german account ids rows index txs :
  transactions german account ids rows index = Ok txs ->
  Forall2 (books german account) rows txs /\
  (german = false -> NoDup (omap tx_transactionId txs) /\
                     forall i, i ∈ omap tx_transactionId txs -> i ∉ ids).
Proof.
  revert ids index txs. induction rows as [|r rows IH]; intros ids index txs; cbn [transactions].
  - intros [= <-]. split; [constructor|]. intros _. split; [constructor|]. intros i Hi. by apply not_elem_of_nil in Hi.
  - intros Ht. destruct (transaction german account ids r index) as [[tx ids']|] eqn:E1; [|discriminate Ht].
    cbn [mbind result_bind snd fst] in Ht.
    destruct (transactions german account ids' rows (index + 1)) as [rest|] eqn:E2; [|discriminate Ht].
    injection Ht as <-. destruct (transaction_spec _ _ _ _ _ _ _ E1) as (Hb & _ & Hids).
    destruct (IH _ _ _ E2) as [Hall Hnew]. split; [by constructor|]. intros Hg.
    destruct (Hids Hg) as [-> Hni]. destruct (Hnew Hg) as [Hnd Hfresh].
    pose proof (bk_id _ _ _ _ Hb) as Hid. rewrite Hg in Hid. cbn [omap list_omap]. rewrite Hid. split.
    + constructor; [|done]. intros Hin. apply (Hfresh _ Hin). left.
    + intros i [->|Hi]%elem_of_cons; [done|]. intros Hi'. apply (Hfresh _ Hi). by right.
Qed.

Definition sum (l : list Z) : Z := foldr Z.add 0 l.

Lemma reconciles_sum first rest b : reconciles (first :: rest) = true -> tx_balanceAfterMinor first = Some b ->
  exists final, tx_balanceAfterMinor (List.last rest first) = Some final /\
                final = b + sum (tx_amountMinor <$> rest).
Proof.
  revert first b. induction rest as [|row rest IH]; intros first b Hr Hb.
  - exists b. split; [done|]. cbn. lia.
  - cbn [reconciles] in Hr. apply andb_prop in Hr as [Hf Hr]. unfold follows in Hf.
    apply andb_prop in Hf as [_ Hf]. rewrite Hb in Hf.
    destruct (tx_balanceAfterMinor row) as [a|] eqn:Ea; [|done]. apply Z.eqb_eq in Hf.
    destruct (IH row a Hr Ea) as (final & Hfin & Heq). exists final. split.
    + rewrite <- Hfin. f_equal. destruct rest as [|x rest]; [done|]. cbn.
      clear. revert x. induction rest as [|y rest IH]; intros x; [done|]. cbn. apply IH.
    + cbn [fmap list_fmap sum foldr]. unfold sum in Heq. lia.
Qed.

(** What an eligible detection establishes. *)
Record eligible_statement (t : text) (p : Profile) (rows : list (list text)) (st : Statement) : Prop := {
  el_header : parseCsv t (pr_delimiter p) = Ok (pr_headers p :: rows);
  el_rows : rows <> [] /\ Forall (fun r => length r = length (pr_headers p)) rows;
  el_account : iban (sm_accountIban st) = true;
  el_books : Forall2 (books (pr_delimiter p =? SEMICOLON) (sm_accountIban st)) rows (sm_transactions st);
  el_balance : pr_delimiter p = COMMA -> NoDup (omap tx_transactionId (sm_transactions st)) /\
    exists first rest opening final, sm_transactions st = first :: rest /\
      tx_balanceAfterMinor first = Some opening /\
      tx_balanceAfterMinor (List.last rest first) = Some final /\
      final = opening + sum (tx_amountMinor <$> rest)
}.

Lemma recognize_spec t p q rows : recognize t p = [(q, rows)] ->
  q = p /\ exists body, rows = pr_headers p :: body /\ parseCsv t (pr_delimiter p) = Ok rows.
Proof.
  unfold recognize. destruct (parseCsv t (pr_delimiter p)) as [[|header body]|]; try discriminate.
  case_bool_decide; [|discriminate]. intros [= <- <-]. subst. eauto.
Qed.

Lemma recognized t p rows : recognize t rabobank ++ recognize t haspa = [(p, rows)] ->
  (p = rabobank \/ p = haspa) /\ exists body, rows = pr_headers p :: body /\ parseCsv t (pr_delimiter p) = Ok rows.
Proof.
  destruct (recognize t rabobank) as [|x l] eqn:E1; cbn [app].
  - intros E2. apply recognize_spec in E2 as [-> Hb]. auto.
  - intros [= -> Hl]. apply app_eq_nil in Hl as [-> _].
    apply recognize_spec in E1 as [-> Hb]. auto.
Qed.

Lemma statement_spec t p body st : p = rabobank \/ p = haspa ->
  parseCsv t (pr_delimiter p) = Ok (pr_headers p :: body) ->
  statement_of p (pr_headers p :: body) = Ok st -> eligible_statement t p body st.
Proof.
  intros Hp Hparse Hs. unfold statement_of in Hs.
  repeat match type of Hs with
  | mbind (fun _ : unit => _) (throw_if ?b _) = _ =>
      let E := fresh "E" in destruct b eqn:E; cbn [throw_if mbind result_bind] in Hs; [discriminate Hs|]
  end.
  destruct (transactions _ _ _ _ _) as [txs|] eqn:Et; [|discriminate Hs]. cbn [mbind result_bind] in Hs.
  destruct (negb _ && negb _) eqn:Er in Hs; [discriminate Hs|]. injection Hs as <-. cbn [tail] in Et.
  destruct (transactions_spec _ _ _ _ _ _ Et) as [Hall Hids].
  assert (body <> []) as Hne by (intros ->; cbn in E; done).
  split; cbn; [done| | |done|].
  - split; [done|]. apply Forall_forall. intros r Hr. rewrite existsb_elem_false in E0.
    specialize (E0 r ltac:(by right)). apply negb_false_iff, Nat.eqb_eq in E0. done.
  - by apply negb_false_iff in E1.
  - intros Hc. rewrite Hc in Hids, Er, Hall. cbn in Hids, Er, Hall. split; [by apply Hids|].
    apply negb_false_iff in Er. destruct body as [|r body]; [done|].
    inversion Hall as [|? first ? rest Hfirst Hrest]; subst.
    destruct (bk_balance _ _ _ _ Hfirst) as (opening & Ho & _).
    destruct (reconciles_sum _ _ _ Er Ho) as (final & Hf & Heq). exists first, rest, opening, final. done.
Qed.

Lemma eligible_detection (utf8 windows1252 : list Z -> option text) (digest : list Z -> list Z)
    (artifactId base64 : text) (det : CsvDetection) :
  detectCsvStatement utf8 windows1252 digest artifactId base64 = Ok det -> cd_eligible det = true ->
  exists bytes t p rows st, atob base64 = Ok bytes /\ decodeCsvText utf8 windows1252 bytes = Ok t /\
    cd_profile det = Some (pr_profile p) /\ cd_statement det = Some st /\ eligible_statement t p rows st.
Proof.
  intros Hdetect Heligible.
  unfold detectCsvStatement, csvSourceDigest, detect in Hdetect.
  destruct (atob base64) as [bytes|]; [|discriminate Hdetect]. cbn [mbind result_bind] in Hdetect.
  destruct (decodeCsvText utf8 windows1252 bytes) as [t|] eqn:Ed; [|by injection Hdetect as <-].
  destruct (recognize t rabobank ++ recognize t haspa) as [|[p rows] [|? ?]] eqn:Er;
    try (by injection Hdetect as <-).
  destruct (recognized _ _ _ Er) as (Hp & body & -> & Hparse).
  destruct (statement_of p (pr_headers p :: body)) as [st|] eqn:Es; [|by injection Hdetect as <-].
  injection Hdetect as <-. exists bytes, t, p, body, st. repeat (split; [done|]). by apply statement_spec.
Qed.

(** A detection is eligible only for a complete statement: the text is exactly a
    known header with rows of its width, every row gives one booking in EUR on the
    same valid account with exact amount and calendar dates, none is dropped, and
    in the format with balances the sequence numbers are unique and the last balance is
    the first plus all later amounts. *)
Theorem eligible_statements_are_complete (utf8 windows1252 : list Z -> option text)
    (digest : list Z -> list Z) (artifactId base64 : text)
    (det : CsvDetection)
    (Hdetect : detectCsvStatement utf8 windows1252 digest artifactId base64 = Ok det)
    (Heligible : cd_eligible det = true) :
  exists bytes t p rows st, atob base64 = Ok bytes /\ decodeCsvText utf8 windows1252 bytes = Ok t /\
    cd_profile det = Some (pr_profile p) /\ cd_statement det = Some st /\ eligible_statement t p rows st.
Proof. exact (eligible_detection utf8 windows1252 digest artifactId base64 det Hdetect Heligible). Qed.

(** A statement of two bookings. *)
Definition sample_row (seq amount_ balance : string) : list text := lit <$> [
  "NL91ABNA0417164300"; "EUR"; "ABNANL2A"; seq; "2024-02-29"; "2024-03-01"; amount_; balance;
  "DE89370400440532013000"; "Shop, Berlin"; ""; ""; ""; "bc"; ""; ""; ""; ""; ""; "Order 7"; ""; "";
  ""; ""; ""; ""].
Definition sample_csv : text :=
  print_csv COMMA (List.map (List.map (pair true))
    [RABO; sample_row "000000000000000001" "-12,50" "+100,00"; sample_row "000000000000000002" "+0,05" "+100,05"]).
Abbreviation sample_detection :=
  (detectCsvStatement Some (fun _ => None) id (lit "artifact") (toBase64 sample_csv)).

Lemma eligible_statements_are_complete_witness : exists bytes t p rows st,
  atob (toBase64 sample_csv) = Ok bytes /\ decodeCsvText Some (fun _ => None) bytes = Ok t /\
  Some "rabobank-csv-en-v1.2" = Some (pr_profile p) /\ eligible_statement t p rows st.
Proof.
  assert (match sample_detection with
          | Ok d => (cd_eligible d, cd_profile d) | Throw _ => (false, None)
          end = (true, Some "rabobank-csv-en-v1.2")) as Hx by (vm_compute; reflexivity).
  destruct sample_detection as [det|] eqn:E; [|discriminate Hx]. injection Hx as Hx1 Hx2.
  destruct (eligible_statements_are_complete Some (fun _ => None) id (lit "artifact") (toBase64 sample_csv)
              det E Hx1) as (bytes & t & p & rows & st & H1 & H2 & H3 & H4 & H5).
  exists bytes, t, p, rows, st. split; [exact H1|]. split; [exact H2|]. split; [|exact H5].
  rewrite <- H3. symmetry. exact Hx2.
Defined.
