(* ===== verification/Text.v ===== *)
(** * Text for comparison

    How [libs/aven-document-ingest/src/reconciliation.ts] makes names and
    references comparable: [folded] decomposes a text (NFKD), drops the marks,
    and keeps lower-case words of letters and digits.  Texts hold code units
    below 256; what the normalization of Unicode makes of them goes beyond, so the
    functions work on lists of code points, on the part of the Unicode tables that
    such texts can reach. *)

From S2P Require Import Prelude.

Open Scope stdpp_scope.
Local Open Scope Z_scope.

Definition points (s : string) : list Z := lit s.

(** ** The tables *)

(** [value.normalize('NFKD')], for the characters it changes. *)
Definition NFKD : list (Z * list Z) :=
  [(160, [32]); (168, [32; 776]); (170, [97]); (175, [32; 772]); (178, [50]); (179, [51]);
   (180, [32; 769]); (181, [956]); (184, [32; 807]); (185, [49]); (186, [111]);
   (188, [49; 8260; 52]); (189, [49; 8260; 50]); (190, [51; 8260; 52]);
   (192, [65; 768]); (193, [65; 769]); (194, [65; 770]); (195, [65; 771]); (196, [65; 776]);
   (197, [65; 778]); (199, [67; 807]); (200, [69; 768]); (201, [69; 769]); (202, [69; 770]);
   (203, [69; 776]); (204, [73; 768]); (205, [73; 769]); (206, [73; 770]); (207, [73; 776]);
   (209, [78; 771]); (210, [79; 768]); (211, [79; 769]); (212, [79; 770]); (213, [79; 771]);
   (214, [79; 776]); (217, [85; 768]); (218, [85; 769]); (219, [85; 770]); (220, [85; 776]);
   (221, [89; 769]); (224, [97; 768]); (225, [97; 769]); (226, [97; 770]); (227, [97; 771]);
   (228, [97; 776]); (229, [97; 778]); (231, [99; 807]); (232, [101; 768]); (233, [101; 769]);
   (234, [101; 770]); (235, [101; 776]); (236, [105; 768]); (237, [105; 769]); (238, [105; 770]);
   (239, [105; 776]); (241, [110; 771]); (242, [111; 768]); (243, [111; 769]); (244, [111; 770]);
   (245, [111; 771]); (246, [111; 776]); (249, [117; 768]); (250, [117; 769]); (251, [117; 770]);
   (252, [117; 776]); (253, [121; 769]); (255, [121; 776])].

Definition normalize_nfkd (s : string) : list Z :=
  points s ≫= fun c => from_option id [c] (map_get c NFKD).

Definition between (a b c : Z) : bool := (a <=? c) && (c <=? b).

(** [\p{M}]: the combining marks. *)
Definition is_mark (c : Z) : bool := between 768 879 c.

(** [\p{L}] and [\p{N}]. *)
Definition is_letter (c : Z) : bool :=
  between 65 90 c || between 97 122 c || (c =? 170) || (c =? 181) || (c =? 186) ||
  (between 192 255 c && negb (c =? 215) && negb (c =? 247)) || (c =? 956).
Definition is_number (c : Z) : bool :=
  between 48 57 c || (c =? 178) || (c =? 179) || (c =? 185) || between 188 190 c.
Definition is_word (c : Z) : bool := is_letter c || is_number c.

(** [toLowerCase()]. *)
Definition lower (c : Z) : Z :=
  if between 65 90 c || (between 192 222 c && negb (c =? 215)) then c + 32 else c.

(** [toUpperCase()]: sharp s becomes two letters; micro and y with diaeresis
    leave the range. *)
Definition upper (c : Z) : list Z :=
  if c =? 223 then [83; 83]
  else if c =? 181 then [924]
  else if c =? 255 then [376]
  else if between 97 122 c || (between 224 254 c && negb (c =? 247)) then [c - 32]
  else [c].
Definition toUpperCase (s : string) : list Z := points s ≫= upper.

(** ** Folding *)

(** [replace(/[^\p{L}\p{N}]+/gu, ' ')]: a run of other characters becomes one
    space; [inside] says that the run has begun. *)
Fixpoint collapse (inside : bool) (l : list Z) : list Z :=
  match l with
  | [] => []
  | c :: l =>
      if is_word c then c :: collapse false l
      else (if inside then [] else [32]) ++ collapse true l
  end.

(** [trim()] of a text whose white space is spaces. *)
Fixpoint drop_spaces (l : list Z) : list Z :=
  match l with c :: l' => if c =? 32 then drop_spaces l' else l | [] => [] end.
Definition trim_points (l : list Z) : list Z := reverse (drop_spaces (reverse (drop_spaces l))).

(** A missing value folds to the empty text: [value ?? '']. *)
Definition folded (value : option string) : list Z :=
  trim_points (collapse false
    (lower <$> base.filter (fun c => is_mark c = false) (normalize_nfkd (default "" value)))).

Definition compact (value : option string) : list Z := base.filter (fun c => c <> 32) (folded value).

(** [text.split(' ')]. *)
Fixpoint split_spaces (l : list Z) : list (list Z) :=
  match l with
  | [] => [[]]
  | c :: l =>
      if c =? 32 then [] :: split_spaces l
      else match split_spaces l with [] => [[c]] | w :: ws => (c :: w) :: ws end
  end.

(** [text.includes(needle)]. *)
Fixpoint includes_text (needle l : list Z) : bool :=
  bool_decide (needle `prefix_of` l) ||
  match l with [] => false | _ :: l => includes_text needle l end.

(** ** Words

    What the comparison is about: the maximal runs of letters and digits. *)

Definition starts_word (l : list Z) : bool := match l with c :: _ => is_word c | [] => false end.
Definition glue (c : Z) (ws : list (list Z)) : list (list Z) :=
  match ws with w :: ws => (c :: w) :: ws | [] => [[c]] end.
Fixpoint tokens (l : list Z) : list (list Z) :=
  match l with
  | [] => []
  | c :: l =>
      if is_word c then if starts_word l then glue c (tokens l) else [c] :: tokens l
      else tokens l
  end.

Definition raw (s : string) : list Z :=
  lower <$> base.filter (fun c => is_mark c = false) (normalize_nfkd s).

(** The words of a text. *)
Definition words (s : string) : list (list Z) := tokens (raw s).

Definition is_token (w : list Z) : Prop := w <> [] /\ Forall (fun c => is_word c = true) w.

Lemma is_word_space : is_word 32 = false.
Proof. reflexivity. Qed.

Lemma word_not_space c : is_word c = true -> c <> 32.
Proof. by intros H ->. Qed.

Lemma tokens_word l : starts_word l = true -> exists w ws, tokens l = w :: ws.
Proof.
  destruct l as [|c l]; [done|]. cbn. intros ->. destruct (starts_word l); [|by eauto].
  destruct (tokens l); cbn; by eauto.
Qed.

Lemma tokens_are_tokens l : Forall is_token (tokens l).
Proof.
  induction l as [|c l IH]; cbn; [constructor|].
  destruct (is_word c) eqn:Hc; [|done].
  assert (is_token [c]) by (split; [done|by repeat constructor]).
  destruct (starts_word l); [|by constructor].
  destruct IH as [|w ws [_ Hw] Hws]; [by repeat constructor|].
  constructor; [|done]. split; [done|by constructor].
Qed.
#[export] Hint Resolve tokens_are_tokens : js.

(** Words separated by single spaces. *)
Fixpoint spaced (ws : list (list Z)) : list Z :=
  match ws with [] => [] | [w] => w | w :: ws => w ++ 32 :: spaced ws end.

Lemma spaced_cons w ws : ws <> [] -> spaced (w :: ws) = w ++ 32 :: spaced ws.
Proof. by destruct ws. Qed.

Lemma spaced_char c w ws : spaced ((c :: w) :: ws) = c :: spaced (w :: ws).
Proof. by destruct ws. Qed.

Lemma collapse_word l : starts_word l = true -> collapse false l = collapse true l.
Proof. destruct l as [|c l]; [done|]. cbn. by intros ->. Qed.

Lemma collapse_gap l :
  starts_word l = false -> l <> [] -> collapse false l = 32 :: collapse true l.
Proof. destruct l as [|c l]; [done|]. cbn. by intros ->. Qed.

Lemma collapse_spaced l : exists m, collapse true l = spaced (tokens l) ++ replicate m 32.
Proof.
  induction l as [|c l [m IH]]; [by exists 0%nat|]. cbn.
  destruct (is_word c); [|by exists m].
  destruct (starts_word l) eqn:Hl.
  - destruct (tokens_word l Hl) as (w & ws & E). exists m.
    rewrite collapse_word, IH, E by done. cbn [glue]. by rewrite spaced_char.
  - destruct (decide (l = [])) as [->|Hn]; [by exists 0%nat|].
    rewrite collapse_gap, IH by done.
    destruct (decide (tokens l = [])) as [->|Ht]; [by exists (S m)|].
    exists m. by rewrite spaced_cons.
Qed.

Lemma collapse_first l : exists n m,
  collapse false l = replicate n 32 ++ spaced (tokens l) ++ replicate m 32.
Proof.
  destruct (collapse_spaced l) as [m H]. destruct l as [|c l]; [by exists 0%nat, 0%nat|].
  cbn in *. destruct (is_word c); [exists 0%nat, m|exists 1%nat, m]; cbn; by rewrite H.
Qed.

Lemma drop_spaces_replicate n l : drop_spaces (replicate n 32 ++ l) = drop_spaces l.
Proof. by induction n. Qed.

Lemma drop_spaces_word c l : is_word c = true -> drop_spaces (c :: l) = c :: l.
Proof. intros Hc%word_not_space. cbn. by destruct (Z.eqb_spec c 32). Qed.

Lemma spaced_ends ws :
  Forall is_token ws -> ws <> [] ->
  (exists c l, spaced ws = c :: l /\ is_word c = true) /\
  (exists c l, spaced ws = l ++ [c] /\ is_word c = true).
Proof.
  induction 1 as [|w ws [Hw Hall] Hws IH]; [done|]. intros _.
  destruct w as [|c w]; [done|]. inversion Hall as [|? ? Hc Hrest]; subst. split.
  - rewrite spaced_char. by exists c, (spaced (w :: ws)).
  - destruct (decide (ws = [])) as [->|Hn].
    + destruct (exists_last (l := c :: w)) as (l & d & E); [done|]. exists d, l. split; [done|].
      rewrite E in Hall. apply Forall_app in Hall as [_ Hd]. by inversion Hd.
    + destruct IH as [_ (d & l & E & Hd)]; [done|]. rewrite spaced_cons, E by done.
      exists d, ((c :: w) ++ 32 :: l). by rewrite <- app_assoc.
Qed.

Lemma trim_spaced n m ws :
  Forall is_token ws ->
  trim_points (replicate n 32 ++ spaced ws ++ replicate m 32) = spaced ws.
Proof.
  intros Hws. unfold trim_points. rewrite drop_spaces_replicate.
  destruct (decide (ws = [])) as [->|Hn].
  - cbn. rewrite <- (app_nil_r (replicate m 32)), drop_spaces_replicate. done.
  - destruct (spaced_ends ws Hws Hn) as [(c & l & E & Hc) (d & l' & E' & Hd)].
    rewrite E at 1. cbn [app]. rewrite drop_spaces_word by done.
    change (c :: l ++ replicate m 32) with ((c :: l) ++ replicate m 32). rewrite <- E, E'.
    rewrite !reverse_app, reverse_replicate, drop_spaces_replicate, reverse_singleton.
    cbn [app]. rewrite drop_spaces_word by done. by rewrite reverse_cons, reverse_involutive.
Qed.

Lemma folded_words s : folded (Some s) = spaced (words s).
Proof.
  unfold folded, words, raw. cbn [default from_option id].
  match goal with |- trim_points (collapse false ?r) = _ => set (t := r) end.
  destruct (collapse_first t) as (n & m & ->). by apply trim_spaced, tokens_are_tokens.
Qed.

(** ** Words and spaces *)

Lemma split_spaces_word w l :
  Forall (fun c => is_word c = true) w ->
  split_spaces (w ++ l) =
    match split_spaces l with [] => [w] | x :: xs => (w ++ x) :: xs end.
Proof.
  induction 1 as [|c w Hc%word_not_space Hw IH]; cbn.
  - destruct l; cbn; [done|]. repeat case_match; done.
  - destruct (Z.eqb_spec c 32); [done|]. rewrite IH. by destruct (split_spaces l).
Qed.

Lemma split_spaced ws : Forall is_token ws -> ws <> [] -> split_spaces (spaced ws) = ws.
Proof.
  induction 1 as [|w ws [Hw Hall] Hws IH]; [done|]. intros _.
  destruct (decide (ws = [])) as [->|Hn].
  - cbn. rewrite <- (app_nil_r w) at 1. rewrite split_spaces_word by done. cbn. by rewrite app_nil_r.
  - rewrite spaced_cons, split_spaces_word by done. cbn. rewrite IH by done. by rewrite app_nil_r.
Qed.

(** A text with a space before every word and at its end. *)
Definition padded (ws : list (list Z)) : list Z := 32 :: (ws ≫= fun w => w ++ [32]).

Lemma spaced_padded ws : ws <> [] -> [32] ++ spaced ws ++ [32] = padded ws.
Proof.
  unfold padded. cbn. intros H. f_equal. induction ws as [|w ws IH]; [done|].
  destruct (decide (ws = [])) as [->|Hn]; [cbn; by rewrite ?app_nil_r|].
  rewrite spaced_cons, <- app_assoc by done. cbn [app]. rewrite IH by done.
  cbn. by rewrite <- app_assoc.
Qed.

Lemma spaced_filter ws :
  Forall is_token ws -> base.filter (fun c => c <> 32) (spaced ws) = concat ws.
Proof.
  induction 1 as [|w ws [Hw Hall] Hws IH]; [done|].
  assert (base.filter (fun c => c <> 32) w = w) as Hf.
  { clear -Hall. induction Hall as [|c w Hc%word_not_space Hw IH]; [done|].
    rewrite filter_cons_True, IH; done. }
  destruct (decide (ws = [])) as [->|Hn]; [cbn; by rewrite app_nil_r|].
  rewrite spaced_cons, filter_app, Hf by done. cbn [concat]. f_equal.
  by rewrite filter_cons_False, IH by tauto.
Qed.

Lemma compact_words s : compact (Some s) = concat (words s).
Proof. unfold compact. rewrite folded_words. apply spaced_filter, tokens_are_tokens. Qed.

(** ** Searching *)

Lemma includes_text_spec needle l :
  includes_text needle l = true <-> exists l1 l2, l = l1 ++ needle ++ l2.
Proof.
  induction l as [|c l IH]; cbn [includes_text].
  - rewrite orb_false_r, bool_decide_eq_true. split.
    + intros [l2 E]. by exists [], l2.
    + intros (l1 & l2 & E). symmetry in E. apply app_nil in E as [-> [-> ->]%app_nil].
      by exists [].
  - rewrite orb_true_iff, bool_decide_eq_true, IH. split.
    + intros [[l2 E]|(l1 & l2 & ->)]; [by exists [], l2|by exists (c :: l1), l2].
    + intros ([|d l1] & l2 & E); [left; by exists l2|right].
      injection E as -> ->. by exists l1, l2.
Qed.

(** A word and what follows it are determined by the text. *)
Lemma word_split w w' l l' :
  Forall (fun c => is_word c = true) w -> Forall (fun c => is_word c = true) w' ->
  w ++ 32 :: l = w' ++ 32 :: l' -> w = w' /\ l = l'.
Proof.
  intros Hw. revert w'. induction Hw as [|c w Hc%word_not_space Hw IH]; intros v [|d v' Hd%word_not_space Hv'].
  - by intros [= ->].
  - intros [= <- _]. done.
  - intros [= -> _]. done.
  - intros [= -> E]. by destruct (IH v' Hv' E) as [-> ->].
Qed.

Lemma padded_prefix ns ws l :
  Forall is_token ns -> Forall is_token ws ->
  padded ws = padded ns ++ l -> exists rest, ws = ns ++ rest.
Proof.
  intros Hns. revert ws l. induction Hns as [|n ns [Hn Hn'] Hns IH]; intros ws l Hws E.
  - by exists ws.
  - destruct Hws as [|w ws [Hw Hw'] Hws].
    + exfalso. unfold padded in E. cbn in E. destruct n; discriminate.
    + unfold padded in E. cbn in E. injection E as E. rewrite <- !app_assoc in E. cbn in E.
      apply word_split in E as [-> E]; [|done..].
      destruct (IH ws l Hws) as [rest ->]; [|by exists rest]. unfold padded. by rewrite E.
Qed.

Lemma padded_infix ns ws l1 l2 :
  Forall is_token ns -> Forall is_token ws ->
  padded ws = l1 ++ padded ns ++ l2 -> exists ws1 ws2, ws = ws1 ++ ns ++ ws2.
Proof.
  intros Hns Hws. revert l1. induction Hws as [|w ws [Hw Hw'] Hws IH]; intros l1 E.
  - destruct l1 as [|c l1].
    + destruct (padded_prefix ns [] l2) as [rest ?]; [done|constructor|done|]. by exists [], rest.
    + exfalso. unfold padded in E. injection E as _ E. symmetry in E. by apply app_nil in E as [_ ?].
  - destruct l1 as [|c l1].
    + destruct (padded_prefix ns (w :: ws) l2) as [rest ->]; [done|by constructor|done|].
      by exists [], rest.
    + assert (exists l1', padded ws = l1' ++ padded ns ++ l2) as [l1' E'].
      { unfold padded in E. injection E as _ E. cbn in E. rewrite <- app_assoc in E. cbn in E.
        clear -E Hw'. revert l1 E. induction Hw' as [|c w Hc%word_not_space Hw IH]; intros l1 E.
        - by exists l1.
        - destruct l1 as [|d l1]; cbn in E; injection E as E1 E2; [done|by apply (IH l1)]. }
      destruct (IH l1' E') as (ws1 & ws2 & ->). by exists (w :: ws1), ws2.
Qed.

(** Between spaces, a text is found exactly where its words stand in a row. *)
Lemma includes_words ns ws :
  Forall is_token ns -> Forall is_token ws -> ns <> [] ->
  includes_text ([32] ++ spaced ns ++ [32]) ([32] ++ spaced ws ++ [32]) = true <->
  exists ws1 ws2, ws = ws1 ++ ns ++ ws2.
Proof.
  intros Hns Hws Hn. rewrite spaced_padded by done. destruct (decide (ws = [])) as [->|Hw].
  - split; [|intros (ws1 & ws2 & E); symmetry in E; apply app_nil in E as [_ [? _]%app_nil]; done].
    intros (l1 & l2 & E)%includes_text_spec. exfalso.
    destruct Hns as [|n ns [Hn1 Hn2] Hns]; [done|]. destruct n as [|c n]; [done|].
    inversion Hn2 as [|? ? Hc%word_not_space _]; subst.
    assert (c ∈ [32; 32]) as Hin.
    { change (c ∈ [32] ++ spaced [] ++ [32]). rewrite E. apply elem_of_app. right.
      apply elem_of_app. left. unfold padded. cbn. right. left. }
    set_solver.
  - rewrite spaced_padded by done. rewrite includes_text_spec. split.
    + intros (l1 & l2 & E). by eapply padded_infix.
    + intros (ws1 & ws2 & ->). unfold padded. rewrite !bind_app.
      destruct ws1 as [|w ws1 _] using rev_ind; [by exists [], (ws2 ≫= fun w => w ++ [32])|].
      exists (32 :: (ws1 ≫= fun w => w ++ [32]) ++ w), (ws2 ≫= fun w => w ++ [32]).
      rewrite bind_app. cbn. by rewrite app_nil_r, <- !app_assoc.
Qed.
