(* ===== verification/Reconciliation.v ===== *)
(** * Matching invoices with transactions

    [libs/aven-document-ingest/src/reconciliation.ts]: the ranker that compares
    one open invoice with the transactions of bank statements.  Amounts are safe
    integers; the one computation that leaves them, the share of the allowance
    that a distance uses up, is done in binary64 with [SpecFloat].  A date is read
    with [Date.parse] and accepted only in the form that [toISOString] prints. *)

From S2P Require Import Prelude Contracts Json Text.
From Stdlib Require Import SpecFloat.

Open Scope stdpp_scope.
Open Scope js_scope.
Local Open Scope Z_scope.

(** ** Data *)

Inductive ValidationStatus := Consistent | Inconsistent | Incomplete | InsufficientCoverage.
Inductive Direction := Payable | Receivable | UnknownDirection.
Inductive DedupBasis := ProviderId | Fingerprint.
Inductive StatementCoverage := Verified | Unverified | RowLimitReached.

#[export] Instance ValidationStatus_eq_dec : EqDecision ValidationStatus.
Proof. solve_decision. Defined.
#[export] Instance Direction_eq_dec : EqDecision Direction.
Proof. solve_decision. Defined.
#[export] Instance DedupBasis_eq_dec : EqDecision DedupBasis.
Proof. solve_decision. Defined.
#[export] Instance StatementCoverage_eq_dec : EqDecision StatementCoverage.
Proof. solve_decision. Defined.

Record OpenItem := {
  oi_businessKey : string;
  oi_documentKind : string;
  oi_direction : Direction;
  oi_supplierName : string;
  oi_supplierIbans : list string;
  oi_invoiceNumber : string;
  oi_orderNumber : option string;
  oi_issueDate : option string;
  oi_dueDate : option string;
  oi_currency : string;
  oi_grossMinor : Z;
  oi_amountDueMinor : Z;
  oi_amountPaidMinor : option Z;
  oi_references : list string;
  oi_validationStatus : ValidationStatus;
  oi_summary : string
}.

Record StatementTransaction := {
  st_dedupKey : string;
  st_dedupBasis : DedupBasis;
  st_accountRef : string;
  st_providerTransactionId : option string;
  st_bookingDate : option string;
  st_valueDate : option string;
  st_title : option string;
  st_amountMinor : option Z;
  st_currency : option string;
  st_counterpartyName : option string;
  st_counterpartyIban : option string;
  st_description : option string;
  st_originalAmountMinor : option Z;
  st_originalCurrency : option string;
  st_exchangeRate : option string;
  st_fxSurchargeMinor : option Z;
  st_foreignExchangeFeeBps : option Z;
  st_balanceAfterMinor : option Z;
  st_sourceRow : option Z;
  st_sourceOrdinal : Z;
  st_statementValidationStatus : ValidationStatus;
  st_statementCoverage : StatementCoverage
}.

#[export] Instance StatementTransaction_eq_dec : EqDecision StatementTransaction.
Proof. solve_decision. Defined.

Inductive AmountBasis := Account | Original.
#[export] Instance AmountBasis_eq_dec : EqDecision AmountBasis.
Proof. solve_decision. Defined.
Definition basis_text (b : AmountBasis) : string :=
  match b with Account => "account" | Original => "original" end.

(** The four fields of a comparison of amounts are [null] together. *)
Record AmountMatch := {
  am_basis : AmountBasis;
  am_amount : Z;
  am_currency : string;
  am_distance : Z
}.

Inductive CounterpartyMatch := ExactCounterparty | TokenOverlap | NoCounterparty.
Inductive SignMatch := SignMatches | SignConflicts | SignUnknown.
Inductive Recommendation := Review | Reject | EligibleForAssignment.
#[export] Instance SignMatch_eq_dec : EqDecision SignMatch.
Proof. solve_decision. Defined.

Record ReconciliationMatchCandidate := {
  rc_openItemBusinessKey : string;
  rc_transactionDedupKey : string;
  rc_transactionInputOrdinal : nat;
  rc_rank : nat;
  rc_rankScore : Z;
  rc_amount : option AmountMatch;
  rc_issueDateDistanceDays : option Z;
  rc_dueDateDistanceDays : option Z;
  rc_referenceMatch : bool;
  rc_counterpartyMatch : CounterpartyMatch;
  rc_ibanMatch : bool;
  rc_signMatch : SignMatch;
  rc_duplicateCount : Z;
  rc_reasons : list string;
  rc_blockers : list string;
  rc_pairEligible : bool;
  rc_recommendation : Recommendation
}.

(** ** Dates *)

Definition is_digit_point (c : Z) : bool := between 48 57 c.
Definition number (l : list Z) : Z := foldl (fun n c => 10 * n + (c - 48)) 0 l.
Definition digits (l : list Z) : option Z :=
  if forallb is_digit_point l then Some (number l) else None.

(** The days from 1970-01-01 to a date of the proleptic Gregorian calendar. *)
Definition days_from_civil (y m d : Z) : Z :=
  let y := if m <=? 2 then y - 1 else y in
  let era := y / 400 in
  let yoe := y - era * 400 in
  let doy := (153 * (if 2 <? m then m - 3 else m + 9) + 2) / 5 + d - 1 in
  let doe := yoe * 365 + yoe / 4 - yoe / 100 + doy in
  era * 146097 + doe - 719468.

Definition leap (y : Z) : bool :=
  ((y mod 4 =? 0) && negb (y mod 100 =? 0)) || (y mod 400 =? 0).
Definition days_in_month (y m : Z) : Z :=
  if m =? 2 then if leap y then 29 else 28
  else if includes [4; 6; 9; 11] m then 30 else 31.

(** The date in days when [value] is the first ten characters of what
    [toISOString] prints for the time [Date.parse] reads: [YYYY-MM-DD], or, for a
    year of more than four digits or before the year 0, a signed year of six
    digits and the month. *)
Definition iso_date (value : string) : option Z :=
  match points value with
  | [y1; y2; y3; y4; 45; m1; m2; 45; d1; d2] =>
      y ← digits [y1; y2; y3; y4];
      m ← digits [m1; m2];
      d ← digits [d1; d2];
      if between 1 12 m && between 1 (days_in_month y m) d then Some (days_from_civil y m d)
      else None
  | [sign; y1; y2; y3; y4; y5; y6; 45; m1; m2] =>
      y ← digits [y1; y2; y3; y4; y5; y6];
      m ← digits [m1; m2];
      let y' := if sign =? 43 then y else - y in
      let days := days_from_civil y' m 1 in
      if ((sign =? 43) && (9999 <? y) || (sign =? 45) && (0 <? y)) && between 1 12 m &&
         (Z.abs days <=? 100000000)
      then Some days else None
  | _ => None
  end.

Definition dateDistance (left right : option string) : option Z :=
  left ← truthy left;
  right ← truthy right;
  leftTime ← iso_date left;
  rightTime ← iso_date right;
  Some (Z.abs (leftTime - rightTime)).

(** ** Comparisons *)

Definition referenceMatches (reference haystack : string) : bool :=
  let needle := folded (Some reference) in
  if bool_decide (needle = []) then false
  else includes_text ([32] ++ needle ++ [32]) ([32] ++ folded (Some haystack) ++ [32]).

(** [new Set(folded(text).split(' ').filter((token) => token.length >= 2))]. *)
Definition token_set (text : string) : list (list Z) :=
  dedup (List.filter (fun t => 2 <=? Z.of_nat (length t)) (split_spaces (folded (Some text)))).

(** A quotient of two sizes, kept as a fraction. *)
Definition tokenOverlap (left right : string) : Z * Z :=
  let leftTokens := token_set left in
  let rightTokens := token_set right in
  if bool_decide (leftTokens = []) || bool_decide (rightTokens = []) then (0, 1)
  else
    let shared := List.filter (includes rightTokens) leftTokens in
    (Z.of_nat (length shared), Z.max (Z.of_nat (length leftTokens)) (Z.of_nat (length rightTokens))).

(** [overlap >= 0.5]. *)
Definition at_least_half (overlap : Z * Z) : bool := overlap.2 <=? 2 * overlap.1.

Definition same_currency (currency : option string) (openItem : OpenItem) : option string :=
  c ← currency;
  if bool_decide (toUpperCase c = toUpperCase (oi_currency openItem)) then Some c else None.

Definition amount_candidate (openItem : OpenItem) (basis : AmountBasis) (amount : option Z)
    (currency : option string) : list AmountMatch :=
  match amount, same_currency currency openItem with
  | Some a, Some c =>
      [{| am_basis := basis; am_amount := a; am_currency := c;
          am_distance := Z.abs (Z.abs a - Z.abs (oi_grossMinor openItem)) |}]
  | _, _ => []
  end.

Definition amountComparison (openItem : OpenItem) (transaction : StatementTransaction) : option AmountMatch :=
  let candidates :=
    amount_candidate openItem Account (st_amountMinor transaction) (st_currency transaction) ++
    amount_candidate openItem Original (st_originalAmountMinor transaction)
      (st_originalCurrency transaction) in
  head (js_sort
    (fun left right => or_else (am_distance left - am_distance right)
       (if bool_decide (am_basis left = Account) then -1 else 1))
    candidates).

Definition signComparison (direction : Direction) (amountMinor : option Z) : SignMatch :=
  match direction, amountMinor with
  | UnknownDirection, _ | _, None => SignUnknown
  | Payable, Some a =>
      if a =? 0 then SignUnknown else if a <? 0 then SignMatches else SignConflicts
  | Receivable, Some a =>
      if a =? 0 then SignUnknown else if 0 <? a then SignMatches else SignConflicts
  end.

(** [if (condition) blockers.push(name)]. *)
Definition push_if (condition : bool) (name : string) : list string := if condition then [name] else [].

Definition rejectBlockers (openItem : OpenItem) (transaction : StatementTransaction)
    (amountDistanceMinor : option Z) (strongReferenceMatch : bool) (signMatch : SignMatch) : list string :=
  push_if (bool_decide (oi_validationStatus openItem <> Consistent)) "open-item-not-validated" ++
  push_if (bool_decide (st_statementValidationStatus transaction <> Consistent)) "statement-not-validated" ++
  push_if (bool_decide (st_statementCoverage transaction <> Verified)) "statement-coverage-unverified" ++
  push_if (bool_decide (oi_direction openItem = UnknownDirection)) "open-item-direction-unknown" ++
  push_if (bool_decide (amountDistanceMinor <> Some 0)) "amount-or-currency-not-exact" ++
  push_if (negb strongReferenceMatch) "invoice-specific-evidence-missing" ++
  push_if (bool_decide (signMatch <> SignMatches)) "transaction-sign-not-confirmed".

(** ** The score *)

(** A number in binary64, and [Math.round], which rounds halves up. *)
Definition binary64 (n : Z) : spec_float := binary_normalize 53 1024 n 0 false.
Definition hundredths_2 : spec_float := S754_finite false 5764607523034235 (-58).
Definition js_round (x : spec_float) : Z :=
  match x with
  | S754_finite s m e =>
      let m := if s then Zneg m else Zpos m in
      if 0 <=? e then m * 2 ^ e else (2 * m + 2 ^ (- e)) / 2 ^ (1 - e)
  | _ => 0
  end.

(** [Math.max(100, Math.round(Math.abs(openItem.amountDueMinor) * 0.02))]. *)
Definition allowance (openItem : OpenItem) : Z :=
  Z.max 100 (js_round (SFmul 53 1024 (binary64 (Z.abs (oi_amountDueMinor openItem))) hundredths_2)).

Definition distance_score (distance allowance : Z) : Z :=
  Z.max 0 (2500 - js_round (SFmul 53 1024 (SFdiv 53 1024 (binary64 distance) (binary64 allowance))
                                  (binary64 2500))).

Definition amount_score (openItem : OpenItem) (amount : option AmountMatch) : Z * list string :=
  match amount with
  | None => (0, [])
  | Some am =>
      if am_distance am =? 0 then (4000, ["exact-" +:+ basis_text (am_basis am) +:+ "-amount"])
      else (distance_score (am_distance am) (allowance openItem),
            [basis_text (am_basis am) +:+ "-amount-distance:" +:+ pretty (am_distance am)])
  end.

Definition counterparty_score (m : CounterpartyMatch) : Z * list string :=
  match m with
  | ExactCounterparty => (1000, ["exact-counterparty"])
  | TokenOverlap => (600, ["counterparty-token-overlap"])
  | NoCounterparty => (0, [])
  end.

Definition nearest_date (issue due : option Z) : option Z :=
  match issue, due with Some a, Some b => Some (Z.min a b) | Some a, None => Some a | None, d => d end.

Definition date_score (nearest : option Z) : Z * list string :=
  match nearest with
  | Some d => (Z.max 0 (750 - d * 25), ["date-distance:" +:+ pretty d])
  | None => (0, [])
  end.

(** [rankScore] before it is capped, with the reasons. *)
Definition score (openItem : OpenItem) (amount : option AmountMatch) (reference iban : bool)
    (counterparty : CounterpartyMatch) (nearest : option Z) (sign : SignMatch) : Z * list string :=
  let (s1, r1) := amount_score openItem amount in
  let (s2, r2) := if reference then (2500, ["exact-reference"]) else (0, []) in
  let (s3, r3) := if iban then (1500, ["counterparty-iban"]) else (0, []) in
  let (s4, r4) := counterparty_score counterparty in
  let (s5, r5) := date_score nearest in
  let sum := s1 + s2 + s3 + s4 + s5 in
  let (total, r6) :=
    match sign with
    | SignMatches => (sum + 250, ["expected-sign"])
    | SignConflicts => (Z.max 0 (sum - 2000), ["conflicting-sign"])
    | SignUnknown => (sum, [])
    end in
  (total, r1 ++ r2 ++ r3 ++ r4 ++ r5 ++ r6).

(** ** The ranker *)

(** [value ? [value] : []] of the parts a purpose is joined from. *)
Definition purpose (transaction : StatementTransaction) : string :=
  join " " (omap truthy
    [st_title transaction; st_description transaction; st_providerTransactionId transaction]).

(** Is a number too specific to occur by chance? *)
Definition sufficientlySpecific (normalized : list Z) : bool :=
  (6 <=? Z.of_nat (length normalized)) ||
  (4 <=? Z.of_nat (length normalized)) && existsb (between 97 122) normalized &&
  existsb is_digit_point normalized.

Definition strong_reference (openItem : OpenItem) (transaction : StatementTransaction) : bool :=
  let reference := oi_invoiceNumber openItem in
  sufficientlySpecific (compact (Some reference)) && referenceMatches reference (purpose transaction).

Definition iban_match (openItem : OpenItem) (transaction : StatementTransaction) : bool :=
  existsb (fun iban => negb (bool_decide (compact (Some iban) = [])) &&
                       bool_decide (compact (Some iban) = compact (st_counterpartyIban transaction)))
    (oi_supplierIbans openItem).

Definition counterparty_match (openItem : OpenItem) (transaction : StatementTransaction) : CounterpartyMatch :=
  let supplier := compact (Some (oi_supplierName openItem)) in
  if negb (bool_decide (supplier = [])) &&
     bool_decide (supplier = compact (st_counterpartyName transaction))
  then ExactCounterparty
  else if at_least_half
            (tokenOverlap (oi_supplierName openItem) (default "" (st_counterpartyName transaction)))
  then TokenOverlap else NoCounterparty.

Definition contradictory_sign (transaction : StatementTransaction) : bool :=
  match st_originalAmountMinor transaction, st_amountMinor transaction with
  | Some o, Some a => negb (Z.sgn o =? Z.sgn a)
  | _, _ => false
  end.

(** The candidate of one group: its representative and the index of it, the size
    of the group, and whether its observations conflict. *)
Definition assess (openItem : OpenItem) (transaction : StatementTransaction) (index : nat)
    (count : Z) (conflict : bool) : ReconciliationMatchCandidate :=
  let amount := amountComparison openItem transaction in
  let reference := existsb (fun r => referenceMatches r (purpose transaction)) (oi_references openItem) in
  let iban := iban_match openItem transaction in
  let counterparty := counterparty_match openItem transaction in
  let issue := dateDistance (oi_issueDate openItem) (st_bookingDate transaction) in
  let due := dateDistance (oi_dueDate openItem) (st_bookingDate transaction) in
  let sign := signComparison (oi_direction openItem) (st_amountMinor transaction) in
  let blockers :=
    rejectBlockers openItem transaction (am_distance <$> amount)
      (strong_reference openItem transaction) sign ++
    push_if conflict "conflicting-provider-observations" ++
    push_if (contradictory_sign transaction) "contradictory-fx-sign" in
  let (rankScore, reasons) := score openItem amount reference iban counterparty (nearest_date issue due) sign in
  {| rc_openItemBusinessKey := oi_businessKey openItem;
     rc_transactionDedupKey := st_dedupKey transaction;
     rc_transactionInputOrdinal := index;
     rc_rank := 0;
     rc_rankScore := Z.min 10000 rankScore;
     rc_amount := amount;
     rc_issueDateDistanceDays := issue;
     rc_dueDateDistanceDays := due;
     rc_referenceMatch := reference;
     rc_counterpartyMatch := counterparty;
     rc_ibanMatch := iban;
     rc_signMatch := sign;
     rc_duplicateCount := count;
     rc_reasons := reasons;
     rc_blockers := blockers;
     rc_pairEligible := bool_decide (blockers = []);
     rc_recommendation := if bool_decide (blockers = []) then EligibleForAssignment else Review |}.

(** *** Groups of observations *)

Definition json_option {A} (f : A -> json) (o : option A) : json :=
  match o with Some a => f a | None => JNull end.

Definition observationKey (t : StatementTransaction) : string :=
  stringify (JArray
    [JString (st_accountRef t); json_option JNumber (st_amountMinor t);
     json_option JString (st_currency t); json_option JString (st_bookingDate t);
     json_option JString (st_valueDate t); json_option JString (st_description t);
     json_option JString (st_counterpartyName t); json_option JString (st_counterpartyIban t);
     json_option JNumber (st_originalAmountMinor t); json_option JString (st_originalCurrency t);
     json_option JNumber (st_balanceAfterMinor t)]).

Definition group_of (index : nat) (t : StatementTransaction) : string :=
  match st_dedupBasis t with
  | ProviderId => st_dedupKey t
  | Fingerprint => "occurrence:" +:+ pretty index
  end.

(** [duplicateCounts], [representatives] and [conflicts]. *)
Record Groups := {
  gr_duplicateCounts : list (string * Z);
  gr_representatives : list (string * (StatementTransaction * nat));
  gr_conflicts : list string
}.

Definition add_observation (g : Groups) (entry : nat * StatementTransaction) : Groups :=
  let (index, t) := entry in
  let group := group_of index t in
  let current := map_get group (gr_representatives g) in
  {| gr_duplicateCounts :=
       map_set group (default 0 (map_get group (gr_duplicateCounts g)) + 1) (gr_duplicateCounts g);
     gr_representatives :=
       if match current with
          | None => true
          | Some (c, _) => string_cmp (observationKey t) (observationKey c) <? 0
          end
       then map_set group (t, index) (gr_representatives g) else gr_representatives g;
     gr_conflicts :=
       if match current with
          | None => false
          | Some (c, _) => negb (String.eqb (observationKey c) (observationKey t))
          end
       then if includes (gr_conflicts g) group then gr_conflicts g else gr_conflicts g ++ [group]
       else gr_conflicts g |}.

(** [list.entries()]. *)
Definition entries {A} (l : list A) : list (nat * A) := imap (fun i x => (i, x)) l.

Definition groups (transactions : list StatementTransaction) : Groups :=
  foldl add_observation
    {| gr_duplicateCounts := []; gr_representatives := []; gr_conflicts := [] |}
    (entries transactions).

(** *** The order *)

Definition MAX_SAFE_INTEGER : Z := 9007199254740991.

Definition rank_order (left right : ReconciliationMatchCandidate) : Z :=
  or_else (default MAX_SAFE_INTEGER (am_distance <$> rc_amount left) -
           default MAX_SAFE_INTEGER (am_distance <$> rc_amount right))
  (or_else (rc_rankScore right - rc_rankScore left)
  (or_else (default MAX_SAFE_INTEGER (rc_issueDateDistanceDays left) -
            default MAX_SAFE_INTEGER (rc_issueDateDistanceDays right))
           (Z.sgn (string_cmp (rc_transactionDedupKey left) (rc_transactionDedupKey right))))).

Definition with_rank (index : nat) (c : ReconciliationMatchCandidate) : ReconciliationMatchCandidate :=
  {| rc_openItemBusinessKey := rc_openItemBusinessKey c;
     rc_transactionDedupKey := rc_transactionDedupKey c;
     rc_transactionInputOrdinal := rc_transactionInputOrdinal c;
     rc_rank := S index;
     rc_rankScore := rc_rankScore c;
     rc_amount := rc_amount c;
     rc_issueDateDistanceDays := rc_issueDateDistanceDays c;
     rc_dueDateDistanceDays := rc_dueDateDistanceDays c;
     rc_referenceMatch := rc_referenceMatch c;
     rc_counterpartyMatch := rc_counterpartyMatch c;
     rc_ibanMatch := rc_ibanMatch c;
     rc_signMatch := rc_signMatch c;
     rc_duplicateCount := rc_duplicateCount c;
     rc_reasons := rc_reasons c;
     rc_blockers := rc_blockers c;
     rc_pairEligible := rc_pairEligible c;
     rc_recommendation := rc_recommendation c |}.

Definition candidates (openItem : OpenItem) (g : Groups) : list ReconciliationMatchCandidate :=
  (fun '(group, (transaction, index)) =>
     assess openItem transaction index (default 1 (map_get group (gr_duplicateCounts g)))
       (includes (gr_conflicts g) group)) <$> gr_representatives g.

Definition rankInvoiceTransactions (openItem : OpenItem) (transactions : list StatementTransaction) :
    list ReconciliationMatchCandidate :=
  imap with_rank (js_sort rank_order (candidates openItem (groups transactions))).
