(* ===== verification/Ranking.v ===== *)
(** * What the ranker guarantees
    The theory of [Reconciliation.v]: which pairs are eligible, how observations
    are grouped, and what the ranking contains. *)

From S2P Require Import Prelude Contracts Json Text Reconciliation.
From Stdlib Require Import SpecFloat.

Open Scope stdpp_scope.
Open Scope js_scope.

#[local] Arguments observationKey : simpl never.
#[local] Arguments group_of : simpl never.

(** ** Groups of observations, as a reference *)

Abbreviation entry := (nat * StatementTransaction)%type.

(** The observations of a group, in order. *)
Definition members (group : string) (l : list entry) : list entry :=
  base.filter (fun e : entry => group_of e.1 e.2 = group) l.

(** The observation that stands for a list of them: the first with the least key. *)
Definition prefer (current : option entry) (e : entry) : option entry :=
  match current with
  | None => Some e
  | Some c => if (string_cmp (observationKey e.2) (observationKey c.2) <? 0)%Z then Some e else Some c
  end.
Definition representative (l : list entry) : option entry := foldl prefer None l.

Lemma members_app group l l' : members group (l ++ l') = members group l ++ members group l'.
Proof. apply filter_app. Qed.

Lemma members_one group e :
  members group [e] = if decide (group_of e.1 e.2 = group) then [e] else [].
Proof. unfold members. rewrite filter_cons. done. Qed.

Lemma elem_of_members group e l : e ∈ members group l <-> group_of e.1 e.2 = group /\ e ∈ l.
Proof. unfold members. by rewrite list_elem_of_filter. Qed.

Lemma representative_snoc l e : representative (l ++ [e]) = prefer (representative l) e.
Proof. unfold representative. by rewrite foldl_app. Qed.

Lemma representative_None l : representative l = None <-> l = [].
Proof.
  destruct l as [|x l _] using rev_ind; [done|]. rewrite representative_snoc. split.
  - unfold prefer. destruct (representative l); [|done]. by case_match.
  - intros H. by destruct (app_cons_not_nil l [] x).
Qed.

Lemma key_refl t : (string_cmp (observationKey t) (observationKey t) <= 0)%Z.
Proof. pose proof (string_cmp_opp (observationKey t) (observationKey t)). lia. Qed.

Lemma representative_least l e :
  representative l = Some e ->
  e ∈ l /\ forall e', e' ∈ l -> (string_cmp (observationKey e.2) (observationKey e'.2) <= 0)%Z.
Proof.
  revert e. induction l as [|x l IH] using rev_ind; [done|]. intros e.
  rewrite representative_snoc. setoid_rewrite elem_of_app. setoid_rewrite list_elem_of_singleton.
  unfold prefer. destruct (representative l) as [c|] eqn:Hc.
  - destruct (IH c eq_refl) as [Hin Hmin]. case_match eqn:E; intros [= <-].
    + split; [by right|]. intros e' [He'| ->]; [|apply key_refl].
      pose proof (Hmin e' He'). apply (string_cmp_trans _ (observationKey c.2)); [lia|done].
    + split; [by left|]. intros e' [He'| ->]; [auto|].
      pose proof (string_cmp_opp (observationKey c.2) (observationKey x.2)). lia.
  - apply representative_None in Hc as ->. intros [= <-]. split; [by right|].
    intros e' [He'| ->]; [by apply not_elem_of_nil in He'|apply key_refl].
Qed.

(** Observations that contradict each other. *)
Definition conflicting (l : list entry) : Prop :=
  exists e e', e ∈ l /\ e' ∈ l /\ observationKey e.2 <> observationKey e'.2.

Lemma conflicting_snoc l e :
  conflicting (l ++ [e]) <->
  conflicting l \/ exists c, representative l = Some c /\ observationKey c.2 <> observationKey e.2.
Proof.
  unfold conflicting. split.
  - intros (x & y & Hx & Hy & Hn). destruct (representative l) as [c|] eqn:Hc.
    + destruct (representative_least l c Hc) as [Hin _].
      destruct (decide (observationKey c.2 = observationKey e.2)) as [E|E]; [left|right; eauto].
      apply elem_of_app in Hx as [Hx| ->%list_elem_of_singleton];
        apply elem_of_app in Hy as [Hy| ->%list_elem_of_singleton]; [by eauto 6| | |done].
      * exists x, c. by rewrite E.
      * exists c, y. by rewrite E.
    + apply representative_None in Hc as ->. cbn in Hx, Hy.
      apply list_elem_of_singleton in Hx as ->. by apply list_elem_of_singleton in Hy as ->.
  - intros [(x & y & Hx & Hy & Hn)|(c & Hc & Hn)].
    + exists x, y. rewrite !elem_of_app. eauto 6.
    + apply representative_least in Hc as [Hin _]. exists c, e.
      rewrite !elem_of_app, !list_elem_of_singleton. eauto 6.
Qed.

(** ** The three maps hold the groups *)

Record grouped (l : list entry) (g : Groups) : Prop := {
  gd_count group : default 0%Z (map_get group (gr_duplicateCounts g)) = Z.of_nat (length (members group l));
  gd_representative group :
    map_get group (gr_representatives g) = (fun e : entry => (e.2, e.1)) <$> representative (members group l);
  gd_conflict group : group ∈ gr_conflicts g <-> conflicting (members group l);
  gd_ok : map_ok (gr_representatives g)
}.

Lemma add_observation_grouped l g e :
  grouped l g -> grouped (l ++ [e]) (add_observation g e).
Proof.
  intros [Hc Hr Hx Hok]. destruct e as [index t]. unfold add_observation.
  set (k := group_of index t).
  assert (forall group, members group (l ++ [(index, t)]) =
            if decide (k = group) then members group l ++ [(index, t)] else members group l) as Hm.
  { intros group. rewrite members_app, members_one. cbn. fold k. case_decide; by rewrite ?app_nil_r. }
  rewrite (Hr k). split; cbn [gr_duplicateCounts gr_representatives gr_conflicts]; try intros group; rewrite ?Hm.
  - rewrite map_get_set, (Hc k). destruct (decide (k = group)) as [<-|Hn].
    + rewrite decide_True by done. cbn. rewrite length_app. cbn. lia.
    + rewrite decide_False by done. apply Hc.
  - destruct (decide (k = group)) as [<-|Hn].
    + rewrite representative_snoc. destruct (representative (members k l)) as [c|] eqn:Ec; cbn.
      * destruct (string_cmp (observationKey t) (observationKey c.2) <? 0)%Z.
        -- by rewrite map_get_set, decide_True.
        -- by rewrite Hr, Ec.
      * by rewrite map_get_set, decide_True.
    + rewrite <- Hr. case_match; [|done]. by rewrite map_get_set, decide_False.
  - destruct (decide (k = group)) as [<-|Hn].
    + rewrite conflicting_snoc, <- Hx. destruct (representative (members k l)) as [c|] eqn:Ec; cbn.
      * destruct (String.eqb_spec (observationKey c.2) (observationKey t)) as [E|E]; cbn.
        -- split; [by left|]. intros [?|(c' & [= <-] & ?)]; done.
        -- unfold includes. case_bool_decide; [split; eauto|]. rewrite elem_of_app. set_solver.
      * split; [by left|]. intros [?|(c' & ? & ?)]; done.
    + rewrite <- Hx. case_match; [|done]. unfold includes. case_bool_decide; [done|].
      rewrite elem_of_app, list_elem_of_singleton. split; [|by left]. by intros [?| ->].
  - case_match; [|done]. by apply map_ok_set.
Qed.

Lemma groups_grouped txs : grouped (entries txs) (groups txs).
Proof.
  unfold groups. set (init := {| gr_duplicateCounts := [] |}).
  induction (entries txs) as [|e l IH] using rev_ind.
  - split; cbn; [done|done|..|constructor]. intros group. split; [by intros ?%not_elem_of_nil|].
    intros (x & y & Hx & _). by apply not_elem_of_nil in Hx.
  - rewrite foldl_app. by apply add_observation_grouped.
Qed.

(** ** Entries *)

Lemma elem_of_entries {A} i (x : A) l : (i, x) ∈ entries l <-> l !! i = Some x.
Proof.
  unfold entries. rewrite elem_of_lookup_imap. split.
  - by intros (j & y & [= -> ->] & ?).
  - intros ?. by exists i, x.
Qed.

Lemma representative_in txs group i t :
  representative (members group (entries txs)) = Some (i, t) ->
  txs !! i = Some t /\ group_of i t = group /\
  forall j u, txs !! j = Some u -> group_of j u = group ->
    (string_cmp (observationKey t) (observationKey u) <= 0)%Z.
Proof.
  intros [[Hg Hin]%elem_of_members Hmin]%representative_least.
  split; [by apply elem_of_entries|]. split; [done|]. intros j u Hj Hu.
  apply (Hmin (j, u)), elem_of_members. by rewrite elem_of_entries.
Qed.

Lemma conflicting_entries txs group :
  conflicting (members group (entries txs)) <->
  exists i t j u, txs !! i = Some t /\ txs !! j = Some u /\
    group_of i t = group /\ group_of j u = group /\ observationKey t <> observationKey u.
Proof.
  split.
  - intros ([i t] & [j u] & [Ht Hi]%elem_of_members & [Hu Hj]%elem_of_members & Hn).
    apply elem_of_entries in Hi, Hj. by exists i, t, j, u.
  - intros (i & t & j & u & Hi & Hj & Ht & Hu & Hn). exists (i, t), (j, u).
    by rewrite !elem_of_members, !elem_of_entries.
Qed.

(** ** Candidates *)

Lemma elem_of_representatives txs group t i :
  (group, (t, i)) ∈ gr_representatives (groups txs) ->
  representative (members group (entries txs)) = Some (i, t).
Proof.
  destruct (groups_grouped txs) as [_ Hr _ Hok]. intros Hin.
  apply (map_get_ok _ _ _ Hok) in Hin. rewrite Hr in Hin.
  destruct (representative _) as [[j u]|]; [|done]. by injection Hin as -> ->.
Qed.

(** The candidate of a group, from the group alone. *)
Definition candidate_of (openItem : OpenItem) (l : list entry) (e : entry) : ReconciliationMatchCandidate :=
  assess openItem e.2 e.1 (Z.of_nat (length l))
    (bool_decide (Exists (fun e' : entry => observationKey e'.2 <> observationKey e.2) l)).

Lemma conflict_with_representative l e :
  representative l = Some e ->
  conflicting l <-> Exists (fun e' : entry => observationKey e'.2 <> observationKey e.2) l.
Proof.
  intros [He _]%representative_least. rewrite Exists_exists. split.
  - intros (x & y & Hx & Hy & Hn).
    destruct (decide (observationKey x.2 = observationKey e.2)) as [E|E]; [|by eauto].
    exists y. split; [done|]. congruence.
  - intros (x & Hx & Hn). by exists x, e.
Qed.

Lemma assess_candidate openItem txs group i t :
  representative (members group (entries txs)) = Some (i, t) ->
  assess openItem t i (default 1%Z (map_get group (gr_duplicateCounts (groups txs))))
    (includes (gr_conflicts (groups txs)) group) =
  candidate_of openItem (members group (entries txs)) (i, t).
Proof.
  intros Hrep. destruct (groups_grouped txs) as [Hc _ Hx _]. unfold candidate_of. f_equal.
  - rewrite <- Hc. destruct (map_get group (gr_duplicateCounts (groups txs))) eqn:E; [done|].
    exfalso. specialize (Hc group). rewrite E in Hc. cbn in Hc.
    destruct (members group (entries txs)); [done|]. cbn in Hc. lia.
  - unfold includes. apply bool_decide_ext. rewrite Hx. by apply conflict_with_representative.
Qed.

Lemma elem_of_representatives_iff txs group t i :
  (group, (t, i)) ∈ gr_representatives (groups txs) <->
  representative (members group (entries txs)) = Some (i, t).
Proof.
  destruct (groups_grouped txs) as [_ Hr _ Hok]. split; [apply elem_of_representatives|].
  intros Hrep. apply map_get_elem. by rewrite Hr, Hrep.
Qed.

Lemma group_inhabited txs group :
  (exists j u, txs !! j = Some u /\ group_of j u = group) <->
  exists i t, representative (members group (entries txs)) = Some (i, t).
Proof.
  split.
  - intros (j & u & Hj & Hu). destruct (representative (members group (entries txs))) as [[i t]|] eqn:Hrep; [by eauto|].
    exfalso. apply representative_None in Hrep. apply (not_elem_of_nil (j, u)).
    by rewrite <- Hrep, elem_of_members, elem_of_entries.
  - intros (i & t & (Hi & Hg & _)%representative_in). by exists i, t.
Qed.

Lemma elem_of_candidates openItem txs c :
  c ∈ candidates openItem (groups txs) <->
  exists group e, representative (members group (entries txs)) = Some e /\
    c = candidate_of openItem (members group (entries txs)) e.
Proof.
  unfold candidates. rewrite list_elem_of_fmap. split.
  - intros ((group & t & i) & -> & Hin%elem_of_representatives). exists group, (i, t).
    split; [done|]. by apply assess_candidate.
  - intros (group & [i t] & Hrep & ->). exists (group, (t, i)).
    split; [by rewrite assess_candidate|by apply elem_of_representatives_iff].
Qed.

(** The rank is all that ranking adds. *)
Lemma elem_of_ranking openItem txs c :
  c ∈ rankInvoiceTransactions openItem txs ->
  exists k c', c' ∈ candidates openItem (groups txs) /\ c = with_rank k c'.
Proof.
  unfold rankInvoiceTransactions. intros (k & c' & -> & Hk)%elem_of_lookup_imap.
  exists k, c'. split; [|done]. by eapply elem_of_js_sort, list_elem_of_lookup_2.
Qed.

Lemma ranked_candidate openItem txs c :
  c ∈ candidates openItem (groups txs) ->
  exists k, with_rank k c ∈ rankInvoiceTransactions openItem txs.
Proof.
  intros Hc. apply (elem_of_js_sort rank_order) in Hc.
  apply list_elem_of_lookup_1 in Hc as [k Hk]. exists k. unfold rankInvoiceTransactions.
  apply elem_of_lookup_imap. by exists k, c.
Qed.

(** ** References *)

(** A reference is found exactly where its words stand in a row: never inside a
    longer number. *)
Lemma referenceMatches_words reference haystack :
  referenceMatches reference haystack = true <->
  words reference <> [] /\
  exists before after, words haystack = before ++ words reference ++ after.
Proof.
  unfold referenceMatches. rewrite !folded_words.
  assert (Forall is_token (words reference)) as Hr by apply tokens_are_tokens.
  assert (Forall is_token (words haystack)) as Hh by apply tokens_are_tokens.
  assert (spaced (words reference) = [] <-> words reference = []) as Hnil.
  { split; [|by intros ->]. intros E. destruct (decide (words reference = [])) as [|Hn]; [done|].
    destruct (spaced_ends _ Hr Hn) as [(c & l & E' & _) _]. congruence. }
  case_bool_decide as Hs.
  - apply Hnil in Hs. split; [done|]. by intros [? _].
  - rewrite includes_words; [|done|done|by rewrite <- Hnil].
    split; [intros ?; split; [by rewrite <- Hnil|done]|by intros [_ ?]].
Qed.

Definition specific (reference : string) : Prop :=
  let characters := concat (words reference) in
  6 <= length characters \/
  4 <= length characters /\ (exists c, c ∈ characters /\ between 97 122 c = true) /\
  (exists c, c ∈ characters /\ is_digit_point c = true).

Lemma sufficientlySpecific_spec reference :
  sufficientlySpecific (compact (Some reference)) = true <-> specific reference.
Proof.
  unfold sufficientlySpecific, specific. rewrite compact_words.
  rewrite orb_true_iff, !andb_true_iff, !existsb_elem, !Z.leb_le.
  split.
  - intros [H|[[H1 H2] H3]]; [left; lia|right; split; [lia|done]].
  - intros [H|(H1 & H2 & H3)]; [left; lia|right; split; [split; [lia|done]|done]].
Qed.

(** ** Amounts *)

Definition exact_amount (openItem : OpenItem) (amount : option Z) (currency : option string) : Prop :=
  exists a c, amount = Some a /\ currency = Some c /\
    Z.abs a = Z.abs (oi_grossMinor openItem) /\ toUpperCase c = toUpperCase (oi_currency openItem).

Lemma amount_candidate_spec openItem basis amount currency am :
  am ∈ amount_candidate openItem basis amount currency <->
  exists a c, amount = Some a /\ currency = Some c /\
    toUpperCase c = toUpperCase (oi_currency openItem) /\
    am = {| am_basis := basis; am_amount := a; am_currency := c;
            am_distance := Z.abs (Z.abs a - Z.abs (oi_grossMinor openItem)) |}.
Proof.
  unfold amount_candidate, same_currency. destruct amount as [a|]; cbn.
  2: { split; [by intros ?%not_elem_of_nil|]. by intros (? & ? & [=] & _). }
  destruct currency as [c|]; cbn.
  2: { split; [by intros ?%not_elem_of_nil|]. by intros (? & ? & _ & [=] & _). }
  case_bool_decide as E.
  - rewrite list_elem_of_singleton. split; [intros ->; eauto 7|]. by intros (? & ? & [= <-] & [= <-] & _ & ->).
  - split; [by intros ?%not_elem_of_nil|]. by intros (? & ? & _ & [= <-] & ? & _).
Qed.

(** The comparison returns a candidate of least distance. *)
Lemma amountComparison_least openItem t :
  match amountComparison openItem t with
  | Some am =>
      let all := amount_candidate openItem Account (st_amountMinor t) (st_currency t) ++
        amount_candidate openItem Original (st_originalAmountMinor t) (st_originalCurrency t) in
      am ∈ all /\ forall am', am' ∈ all -> (am_distance am <= am_distance am')%Z
  | None =>
      amount_candidate openItem Account (st_amountMinor t) (st_currency t) = [] /\
      amount_candidate openItem Original (st_originalAmountMinor t) (st_originalCurrency t) = []
  end.
Proof.
  unfold amountComparison.
  assert (length (amount_candidate openItem Account (st_amountMinor t) (st_currency t)) <= 1) as H1.
  { unfold amount_candidate. repeat case_match; cbn; lia. }
  assert (length (amount_candidate openItem Original (st_originalAmountMinor t) (st_originalCurrency t)) <= 1) as H2.
  { unfold amount_candidate. repeat case_match; cbn; lia. }
  assert (forall am, am ∈ amount_candidate openItem Account (st_amountMinor t) (st_currency t) ->
    am_basis am = Account) as HA.
  { intros am (? & ? & _ & _ & _ & ->)%amount_candidate_spec. done. }
  destruct (amount_candidate _ Account _ _) as [|a [|]]; cbn in H1; [| |lia];
    destruct (amount_candidate _ Original _ _) as [|b [|]]; cbn in H2; try lia; cbn.
  - done.
  - split; [by left|]. by intros am' ->%list_elem_of_singleton.
  - split; [by left|]. by intros am' ->%list_elem_of_singleton.
  - rewrite bool_decide_true by (apply HA; by left). unfold or_else.
    destruct (Z.eqb_spec (am_distance a - am_distance b) 0); cbn; [|destruct (Z.leb_spec (am_distance a - am_distance b) 0); cbn];
    (split; [rewrite !elem_of_cons; tauto|]); intros am'; rewrite !elem_of_cons, elem_of_nil; intros [-> |[-> |[]]]; lia.
Qed.

Lemma amount_is_exact openItem t :
  am_distance <$> amountComparison openItem t = Some 0%Z <->
  exact_amount openItem (st_amountMinor t) (st_currency t) \/
  exact_amount openItem (st_originalAmountMinor t) (st_originalCurrency t).
Proof.
  pose proof (amountComparison_least openItem t) as H.
  assert (forall basis amount currency,
    exact_amount openItem amount currency <->
    exists am, am ∈ amount_candidate openItem basis amount currency /\ am_distance am = 0%Z) as Hex.
  { intros basis amount currency. unfold exact_amount. setoid_rewrite amount_candidate_spec. split.
    - intros (a & c & Ha & Hc & Hd & Hu). eexists. split; [by exists a, c|]. cbn. lia.
    - intros (am & (a & c & Ha & Hc & Hu & ->) & Hd). cbn in Hd. exists a, c. split_and!; [done..|lia|done]. }
  rewrite (Hex Account), (Hex Original).
  assert (forall basis amount currency am, am ∈ amount_candidate openItem basis amount currency ->
    (0 <= am_distance am)%Z) as Hpos.
  { intros basis amount currency am (? & ? & _ & _ & _ & ->)%amount_candidate_spec. cbn. lia. }
  destruct (amountComparison openItem t) as [am|]; cbn.
  - destruct H as [Hin Hmin]. split.
    + intros [= E]. apply elem_of_app in Hin as [Hin|Hin]; [left|right]; eauto.
    + assert (0 <= am_distance am)%Z by (apply elem_of_app in Hin as [Hin|Hin]; eauto).
      intros [(am' & Hin' & E)|(am' & Hin' & E)];
        (assert (am_distance am <= am_distance am')%Z by (apply Hmin, elem_of_app; auto); f_equal; lia).
  - destruct H as [-> ->]. split; [done|].
    intros [(am' & []%elem_of_nil & _)|(am' & []%elem_of_nil & _)].
Qed.

(** ** Eligible pairs *)

Lemma push_if_nil b name : push_if b name = [] <-> b = false.
Proof. by destruct b. Qed.

(** The money moved in the expected direction. *)
Definition expected_sign (direction : Direction) (amount : option Z) : Prop :=
  match direction, amount with
  | Payable, Some a => (a < 0)%Z
  | Receivable, Some a => (0 < a)%Z
  | _, _ => False
  end.

Lemma signComparison_matches direction amount :
  signComparison direction amount = SignMatches <-> expected_sign direction amount.
Proof.
  destruct direction, amount as [a|]; cbn; try done.
  - destruct (Z.eqb_spec a 0), (Z.ltb_spec a 0); split; (done || lia).
  - destruct (Z.eqb_spec a 0), (Z.ltb_spec 0 a); split; (done || lia).
Qed.

(** What an eligible pair of an invoice and the [i]-th transaction is. *)
Record eligible_pair (openItem : OpenItem) (txs : list StatementTransaction) (i : nat)
    (t : StatementTransaction) : Prop := {
  el_invoice : oi_validationStatus openItem = Consistent;
  el_statement : st_statementValidationStatus t = Consistent /\ st_statementCoverage t = Verified;
  el_sign : expected_sign (oi_direction openItem) (st_amountMinor t);
  el_amount : exact_amount openItem (st_amountMinor t) (st_currency t) \/
              exact_amount openItem (st_originalAmountMinor t) (st_originalCurrency t);
  el_signs_agree o a : st_originalAmountMinor t = Some o -> st_amountMinor t = Some a -> Z.sgn o = Z.sgn a;
  el_specific : specific (oi_invoiceNumber openItem);
  el_named : exists before after, words (purpose t) = before ++ words (oi_invoiceNumber openItem) ++ after;
  el_agreed j u : txs !! j = Some u -> group_of j u = group_of i t -> observationKey u = observationKey t
}.

Lemma contradictory_sign_spec t :
  contradictory_sign t = false <->
  forall o a, st_originalAmountMinor t = Some o -> st_amountMinor t = Some a -> Z.sgn o = Z.sgn a.
Proof.
  unfold contradictory_sign. destruct (st_originalAmountMinor t) as [o|]; [|by split].
  destruct (st_amountMinor t) as [a|]; [|by split]. rewrite negb_false_iff, Z.eqb_eq.
  split; [by intros E ? ? [= <-] [= <-]|auto].
Qed.

Lemma strong_reference_spec openItem t :
  strong_reference openItem t = true <->
  specific (oi_invoiceNumber openItem) /\
  exists before after, words (purpose t) = before ++ words (oi_invoiceNumber openItem) ++ after.
Proof.
  unfold strong_reference. rewrite andb_true_iff, sufficientlySpecific_spec, referenceMatches_words.
  split; [tauto|]. intros [Hs Hw]. split_and!; [done| |done].
  intros E. unfold specific in Hs. rewrite E in Hs. cbn in Hs. lia.
Qed.

Lemma assess_eligible openItem t i count conflict :
  rc_pairEligible (assess openItem t i count conflict) = true <->
  oi_validationStatus openItem = Consistent /\
  (st_statementValidationStatus t = Consistent /\ st_statementCoverage t = Verified) /\
  expected_sign (oi_direction openItem) (st_amountMinor t) /\
  (exact_amount openItem (st_amountMinor t) (st_currency t) \/
   exact_amount openItem (st_originalAmountMinor t) (st_originalCurrency t)) /\
  (forall o a, st_originalAmountMinor t = Some o -> st_amountMinor t = Some a -> Z.sgn o = Z.sgn a) /\
  (specific (oi_invoiceNumber openItem) /\
   exists before after, words (purpose t) = before ++ words (oi_invoiceNumber openItem) ++ after) /\
  conflict = false.
Proof.
  unfold assess. destruct (score _ _ _ _ _ _ _) as [s r]. cbn [rc_pairEligible].
  unfold rejectBlockers. rewrite bool_decide_eq_true, <- !app_assoc.
  repeat setoid_rewrite app_nil. rewrite !push_if_nil, !bool_decide_eq_false, negb_false_iff.
  rewrite strong_reference_spec, contradictory_sign_spec, <- signComparison_matches, <- amount_is_exact.
  assert (forall P : Prop, Decision P -> ~ ~ P <-> P) as Hdne by (intros; split; [apply dec_stable|tauto]).
  rewrite !Hdne by apply _.
  split; [tauto|]. intros (H1 & [H2 H3] & H4 & H5 & H6 & [H7 H7'] & H8). split_and!; try done.
  intros E. rewrite E in H4. done.
Qed.

Lemma agreed_entries txs group i t :
  representative (members group (entries txs)) = Some (i, t) ->
  bool_decide (Exists (fun e : entry => observationKey e.2 <> observationKey t)
    (members group (entries txs))) = false <->
  forall j u, txs !! j = Some u -> group_of j u = group -> observationKey u = observationKey t.
Proof.
  intros _. rewrite bool_decide_eq_false, Exists_exists. split.
  - intros H j u Hj Hu. destruct (decide (observationKey u = observationKey t)) as [|Hn]; [done|].
    destruct H. exists (j, u). by rewrite elem_of_members, elem_of_entries.
  - intros H ([j u] & [Hu Hj%elem_of_entries]%elem_of_members & Hn). by apply Hn, (H j).
Qed.

Lemma candidate_eligible openItem txs group i t :
  representative (members group (entries txs)) = Some (i, t) ->
  rc_pairEligible (candidate_of openItem (members group (entries txs)) (i, t)) = true <->
  eligible_pair openItem txs i t.
Proof.
  intros Hrep. destruct (representative_in txs group i t Hrep) as (Hi & Hg & _).
  unfold candidate_of. cbn [fst snd]. rewrite assess_eligible, (agreed_entries txs group i t Hrep).
  split.
  - intros (H1 & H2 & H3 & H4 & H5 & [H6 H7] & H8). split; try done.
    intros j u Hj Hu. apply (H8 j u Hj). congruence.
  - intros [H1 H2 H3 H4 H5 H6 H7 H8]. split_and!; try done; [apply H2|apply H2|].
    intros j u Hj Hu. apply (H8 j u Hj). congruence.
Qed.

Lemma candidate_fields openItem l e :
  rc_transactionInputOrdinal (candidate_of openItem l e) = e.1 /\
  rc_transactionDedupKey (candidate_of openItem l e) = st_dedupKey e.2 /\
  rc_duplicateCount (candidate_of openItem l e) = Z.of_nat (length l) /\
  rc_openItemBusinessKey (candidate_of openItem l e) = oi_businessKey openItem /\
  rc_pairEligible (candidate_of openItem l e) = bool_decide (rc_blockers (candidate_of openItem l e) = []) /\
  rc_recommendation (candidate_of openItem l e) =
    if rc_pairEligible (candidate_of openItem l e) then EligibleForAssignment else Review.
Proof. unfold candidate_of, assess. by destruct (score _ _ _ _ _ _ _). Qed.

(** eligible pairs are exactly the proven ones. The candidate for a transaction
    is eligible, and recommended for assignment, if and only if invoice and
    statement were validated and the statement is complete; one of its amounts is
    the gross amount, in the currency of the invoice; the money moved in the
    direction of the invoice, and both amounts agree on it; the number of the
    invoice is specific, and its words stand in a row in the purpose; and every
    observation of the same transaction says the same. *)
Theorem eligible_pairs_are_exact openItem txs c :
  c ∈ rankInvoiceTransactions openItem txs ->
  exists i t, txs !! i = Some t /\
    rc_transactionInputOrdinal c = i /\ rc_transactionDedupKey c = st_dedupKey t /\
    (rc_pairEligible c = true <-> eligible_pair openItem txs i t) /\
    (rc_recommendation c = EligibleForAssignment <-> eligible_pair openItem txs i t).
Proof.
  intros (k & c' & (group & [i t] & Hrep & ->)%elem_of_candidates & ->)%elem_of_ranking.
  destruct (representative_in txs group i t Hrep) as (Hi & _ & _).
  pose proof (candidate_eligible openItem txs group i t Hrep) as Hel.
  destruct (candidate_fields openItem (members group (entries txs)) (i, t)) as (F1 & F2 & _ & _ & _ & F6).
  exists i, t. cbn [with_rank rc_transactionInputOrdinal rc_transactionDedupKey rc_pairEligible rc_recommendation].
  split_and!; [done..|]. rewrite F6, <- Hel. by destruct (rc_pairEligible _).
Qed.

(** ** The ranking *)

Lemma StronglySorted_imap {A} (R : A -> A -> Prop) (f : nat -> A -> A) l :
  (forall i j x y, R x y -> R (f i x) (f j y)) -> StronglySorted R l -> StronglySorted R (imap f l).
Proof.
  intros Hf Hs. revert f Hf. induction Hs as [|x l Hs IH Hall]; intros f Hf; [constructor|].
  rewrite imap_cons. constructor; [apply IH; intros; by apply Hf|].
  apply Forall_forall. intros y (i & z & -> & Hz)%elem_of_lookup_imap. apply Hf.
  rewrite Forall_forall in Hall. by eapply Hall, list_elem_of_lookup_2.
Qed.

Lemma StronglySorted_lookup {A} (R : A -> A -> Prop) l i j x y :
  StronglySorted R l -> l !! i = Some x -> l !! j = Some y -> i < j -> R x y.
Proof.
  intros Hs. revert i j. induction Hs as [|z l Hs IH Hall]; intros i j Hi Hj Hij; [done|].
  destruct j as [|j]; [lia|]. destruct i as [|i]; cbn in Hi, Hj.
  - injection Hi as <-. rewrite Forall_forall in Hall. by eapply Hall, list_elem_of_lookup_2.
  - apply (IH i j Hi Hj). lia.
Qed.

#[export] Instance rank_order_ordering : Ordering rank_order.
Proof. unfold rank_order. apply _. Qed.

(** the ranking accounts for every transaction. There is one candidate for every
    group of observations, in ranks from one on and in the order of the
    comparator; it stands for an observation of the group with the least key, and
    counts the group. *)
Theorem ranking_accounts_for_every_transaction openItem txs :
  let ranking := rankInvoiceTransactions openItem txs in
  (forall k c, ranking !! k = Some c -> rc_rank c = S k) /\
  StronglySorted (fun c d => (rank_order c d <= 0)%Z) ranking /\
  exists gs, NoDup gs /\
    (forall group, group ∈ gs <-> exists j u, txs !! j = Some u /\ group_of j u = group) /\
    Forall2 (fun group c => exists i t,
      txs !! i = Some t /\ group_of i t = group /\
      rc_transactionInputOrdinal c = i /\ rc_transactionDedupKey c = st_dedupKey t /\
      (forall j u, txs !! j = Some u -> group_of j u = group ->
        (string_cmp (observationKey t) (observationKey u) <= 0)%Z) /\
      rc_duplicateCount c = Z.of_nat (length (members group (entries txs)))) gs ranking.
Proof.
  cbn. split; [|split].
  - intros k c. unfold rankInvoiceTransactions. rewrite list_lookup_imap.
    destruct (_ !! k); [|done]. by intros [= <-].
  - apply StronglySorted_imap; [done|]. apply js_sort_ordered, _.
  - pose proof (js_sort_perm rank_order (candidates openItem (groups txs))) as Hp.
    unfold candidates in Hp at 2. apply Permutation_map_inv in Hp as (reps & E & Hp).
    exists reps.*1. split; [rewrite <- Hp; apply (gd_ok _ _ (groups_grouped txs))|]. split.
    + intros group. rewrite <- Hp, group_inhabited, list_elem_of_fmap. split.
      * intros ([group' [t i]] & -> & Hin%elem_of_representatives). by exists i, t.
      * intros (i & t & Hin%elem_of_representatives_iff). by exists (group, (t, i)).
    + unfold rankInvoiceTransactions. rewrite E.
      apply Forall2_same_length_lookup_2; [by rewrite length_imap, length_map, length_fmap|].
      intros k group c Hk Hk'. rewrite list_lookup_fmap in Hk. rewrite list_lookup_imap in Hk'.
      change (List.map ?f reps) with (f <$> reps) in Hk'. rewrite list_lookup_fmap in Hk'.
      destruct (reps !! k) as [[group' [t i]]|] eqn:El; [|done]. cbn in Hk, Hk'.
      injection Hk as ->. injection Hk' as <-.
      apply list_elem_of_lookup_2 in El. rewrite <- Hp in El. apply elem_of_representatives in El.
      rewrite assess_candidate by done.
      destruct (representative_in _ _ _ _ El) as (Hi & Hg & Hmin).
      destruct (candidate_fields openItem (members group (entries txs)) (i, t)) as (F1 & F2 & F3 & _).
      by exists i, t.
Qed.

(** ** Scores *)

Section Rounding.
Local Open Scope Z_scope.

(** What is rounded to binary64 keeps its sign. *)
Definition nonnegative (x : spec_float) : bool :=
  match x with S754_finite s _ _ => negb s | _ => true end.

Lemma js_round_nonnegative x : nonnegative x = true -> 0 <= js_round x.
Proof.
  destruct x as [| | |[] m e]; try done. intros _. cbn [js_round]. destruct (Z.leb_spec 0 e).
  - apply Z.mul_nonneg_nonneg; [done|by apply Z.pow_nonneg].
  - apply Z.div_pos; [|by apply Z.pow_pos_nonneg; lia].
    pose proof (Z.pow_nonneg 2 (- e)). lia.
Qed.

Lemma binary_round_aux_sign prec emax m e l : nonnegative (binary_round_aux prec emax false m e l) = true.
Proof. unfold binary_round_aux. repeat (case_match; try done). Qed.

Lemma binary64_nonnegative n : 0 <= n -> nonnegative (binary64 n) = true.
Proof.
  unfold binary64, binary_normalize. destruct n as [|p|p]; [done| |lia]. intros _.
  unfold binary_round. case_match. apply binary_round_aux_sign.
Qed.

Lemma SFmul_nonnegative x y :
  nonnegative x = true -> nonnegative y = true -> nonnegative (SFmul 53 1024 x y) = true.
Proof.
  destruct x as [[]|[]| |[] m e], y as [[]|[]| |[] m' e']; try done. intros _ _. apply binary_round_aux_sign.
Qed.

Lemma SFdiv_nonnegative x y :
  nonnegative x = true -> nonnegative y = true -> nonnegative (SFdiv 53 1024 x y) = true.
Proof.
  destruct x as [[]|[]| |[] m e], y as [[]|[]| |[] m' e']; try done. intros _ _.
  unfold SFdiv. destruct (SFdiv_core_binary _ _ _ _ _ _) as [[q e''] l]. apply binary_round_aux_sign.
Qed.

Lemma distance_score_bounds distance allowance :
  0 <= distance -> 0 <= allowance -> 0 <= distance_score distance allowance <= 2500.
Proof.
  intros Hd Ha. unfold distance_score.
  assert (0 <= js_round (SFmul 53 1024 (SFdiv 53 1024 (binary64 distance) (binary64 allowance)) (binary64 2500))); [|lia].
  apply js_round_nonnegative, SFmul_nonnegative; [apply SFdiv_nonnegative|]; by apply binary64_nonnegative.
Qed.
End Rounding.

Lemma dateDistance_nonnegative l r d : dateDistance l r = Some d -> (0 <= d)%Z.
Proof.
  unfold dateDistance. destruct (truthy l), (truthy r); cbn; try done.
  destruct (iso_date s), (iso_date s0); cbn; try done. intros [= <-]. lia.
Qed.

Lemma amount_score_bounds openItem t :
  (0 <= (amount_score openItem (amountComparison openItem t)).1 <= 4000)%Z.
Proof.
  pose proof (amountComparison_least openItem t) as H. unfold amount_score.
  destruct (amountComparison openItem t) as [am|]; cbn; [|lia].
  destruct H as [Hin _]. case_match; cbn; [lia|].
  assert (0 <= am_distance am)%Z as Hd.
  { apply elem_of_app in Hin as [Hin|Hin]; apply amount_candidate_spec in Hin as (? & ? & _ & _ & _ & ->); cbn; lia. }
  pose proof (distance_score_bounds (am_distance am) (allowance openItem) Hd). unfold allowance in *. lia.
Qed.

Lemma score_bounds openItem t reference iban counterparty nearest sign :
  (forall d, nearest = Some d -> (0 <= d)%Z) ->
  (0 <= (score openItem (amountComparison openItem t) reference iban counterparty nearest sign).1 <= 10000)%Z.
Proof.
  intros Hn. unfold score. pose proof (amount_score_bounds openItem t) as Ha.
  destruct (amount_score openItem (amountComparison openItem t)) as [s1 r1]. cbn [fst] in Ha.
  assert (0 <= (date_score nearest).1 <= 750)%Z as Hd.
  { destruct nearest as [d|]; cbn; [|lia]. specialize (Hn d eq_refl). lia. }
  destruct (date_score nearest) as [s5 r5]. cbn [fst] in Hd.
  destruct reference, iban, counterparty, sign; cbn; lia.
Qed.

Lemma nearest_date_nonnegative l r l' r' d :
  nearest_date (dateDistance l r) (dateDistance l' r') = Some d -> (0 <= d)%Z.
Proof.
  pose proof (dateDistance_nonnegative l r) as H. pose proof (dateDistance_nonnegative l' r') as H'.
  destruct (dateDistance l r) as [a|], (dateDistance l' r') as [b|]; cbn; try done; intros [= <-]; auto.
  specialize (H a eq_refl). specialize (H' b eq_refl). lia.
Qed.

Lemma candidate_score openItem l entry :
  (0 <= rc_rankScore (candidate_of openItem l entry) <= 10000)%Z.
Proof.
  unfold candidate_of, assess.
  match goal with |- context [score _ _ ?c ?d ?k ?n ?s] =>
    pose proof (score_bounds openItem entry.2 c d k n s (nearest_date_nonnegative _ _ _ _)) as H;
    destruct (score openItem (amountComparison openItem entry.2) c d k n s) as [total r] end.
  cbn in H |- *. lia.
Qed.

(** scores are bounded, and exact amounts come first. A score lies between 0 and
    10000, so capping it loses nothing; and whatever the scores are, every
    candidate that is ranked before an eligible one has an exact amount, too. *)
Theorem scores_are_bounded openItem txs :
  Forall (fun c => 0 <= rc_rankScore c <= 10000)%Z (rankInvoiceTransactions openItem txs) /\
  forall i j c d, rankInvoiceTransactions openItem txs !! i = Some c ->
    rankInvoiceTransactions openItem txs !! j = Some d -> i < j -> rc_pairEligible d = true ->
    am_distance <$> rc_amount c = Some 0%Z.
Proof.
  split.
  - apply Forall_forall. intros c (k & c' & (group & e & _ & ->)%elem_of_candidates & ->)%elem_of_ranking.
    apply candidate_score.
  - intros i j c d Hi Hj Hij Hd.
    assert (exists t, rc_amount c = amountComparison openItem t) as [t Ht].
    { apply list_elem_of_lookup_2, elem_of_ranking in Hi as (k & c' & (g & e & _ & ->)%elem_of_candidates & ->).
      exists e.2. unfold candidate_of, assess. by destruct (score _ _ _ _ _ _ _). }
    assert (am_distance <$> rc_amount d = Some 0%Z) as Hz.
    { apply list_elem_of_lookup_2, elem_of_ranking in Hj as (k & c' & (g & e & _ & ->)%elem_of_candidates & ->).
      unfold candidate_of in *. cbn in Hd.
      apply assess_eligible in Hd as (_ & _ & _ & Ha & _). apply amount_is_exact in Ha.
      unfold assess. by destruct (score _ _ _ _ _ _ _). }
    assert (rank_order c d <= 0)%Z as Hle.
    { refine (StronglySorted_lookup (fun c d => (rank_order c d <= 0)%Z) _ i j c d _ Hi Hj Hij).
      by apply StronglySorted_imap, js_sort_ordered, _. }
    unfold rank_order in Hle. rewrite Hz in Hle. cbn in Hle. rewrite Ht in Hle |- *.
    pose proof (amountComparison_least openItem t) as H.
    destruct (amountComparison openItem t) as [am|]; cbn in *.
    + destruct H as [Hin _]. assert (0 <= am_distance am)%Z.
      { apply elem_of_app in Hin as [Hin|Hin]; apply amount_candidate_spec in Hin as (? & ? & _ & _ & _ & ->); cbn; lia. }
      unfold or_else in Hle. destruct (Z.eqb_spec (am_distance am - 0) 0); [f_equal; lia|lia].
    + done.
Qed.

(** ** An invoice and its payment *)

Module Sample.
Definition invoice : OpenItem := {|
  oi_businessKey := "invoice:acmegmbh:re42"; oi_documentKind := "invoice"; oi_direction := Payable;
  oi_supplierName := "ACME GmbH"; oi_supplierIbans := ["DE12500105170648489890"];
  oi_invoiceNumber := "RE-42"; oi_orderNumber := Some "PO-7";
  oi_issueDate := Some "2026-08-15"; oi_dueDate := Some "2026-08-30";
  oi_currency := "EUR"; oi_grossMinor := 1200; oi_amountDueMinor := 1200; oi_amountPaidMinor := None;
  oi_references := ["RE-42"; "PO-7"]; oi_validationStatus := Consistent; oi_summary := "Invoice RE-42."
|}.
Definition payment (key : string) (basis : DedupBasis) (amount : Z) (description : string) : StatementTransaction := {|
  st_dedupKey := key; st_dedupBasis := basis; st_accountRef := "iban:DE89370400440532013000";
  st_providerTransactionId := Some "bank-tx-42"; st_bookingDate := Some "2026-08-18";
  st_valueDate := Some "2026-08-18"; st_title := Some "SEPA transfer"; st_amountMinor := Some amount;
  st_currency := Some "EUR"; st_counterpartyName := Some "ACME GmbH";
  st_counterpartyIban := Some "DE12500105170648489890"; st_description := Some description;
  st_originalAmountMinor := None; st_originalCurrency := None; st_exchangeRate := None;
  st_fxSurchargeMinor := None; st_foreignExchangeFeeBps := None; st_balanceAfterMinor := Some 8800%Z;
  st_sourceRow := Some 17%Z; st_sourceOrdinal := 0; st_statementValidationStatus := Consistent;
  st_statementCoverage := Verified
|}.
Definition transactions : list StatementTransaction :=
  [payment "fingerprint:1" Fingerprint (-2000) "Other purchase";
   payment "provider:42" ProviderId (-1200) "Payment for invoice RE-42";
   payment "provider:42" ProviderId (-1200) "Payment for invoice RE-42"].

Example sample_ranking :
  (fun c => (rc_rank c, rc_transactionInputOrdinal c, rc_rankScore c, rc_duplicateCount c, rc_blockers c)) <$>
    rankInvoiceTransactions invoice transactions =
  [(1, 1, 9925%Z, 2%Z, []);
   (2, 0, 3425%Z, 1%Z, ["amount-or-currency-not-exact"; "invoice-specific-evidence-missing"])].
Proof. vm_compute. reflexivity. Qed.
End Sample.

Lemma eligible_pairs_are_exact_witness :
  exists c i t, c ∈ rankInvoiceTransactions Sample.invoice Sample.transactions /\
    rc_transactionInputOrdinal c = 1 /\ i = 1 /\ eligible_pair Sample.invoice Sample.transactions i t.
Proof.
  destruct (rankInvoiceTransactions Sample.invoice Sample.transactions !! 0) as [c|] eqn:E.
  2: { apply (f_equal (fun o => bool_decide (is_Some o))) in E. vm_compute in E. discriminate. }
  assert ((fun c => (rc_transactionInputOrdinal c, rc_pairEligible c)) <$>
    rankInvoiceTransactions Sample.invoice Sample.transactions !! 0 = Some (1, true)) as H
    by (vm_compute; reflexivity).
  rewrite E in H. injection H as H1 H2. apply list_elem_of_lookup_2 in E as Hin.
  destruct (eligible_pairs_are_exact Sample.invoice Sample.transactions c Hin) as (i & t & _ & Hi & _ & Hel & _).
  exists c, i, t. split; [exact Hin|]. split; [exact H1|]. split; [congruence|]. by apply Hel.
Defined.
