(* ===== verification/ReconciliationFlow.v ===== *)
(** * The reconciliation of invoices

    The steps of [libs/aven-document-ingest/src/reconciliation-flow.ts]: reading a
    snapshot page by page, the shortlist of transactions for an invoice, the
    reviews of a ranking, and the decision.  The gateway is outside; it may answer
    from every query made before. *)

From S2P Require Import Prelude Contracts Json Text Reconciliation Ranking.

Open Scope stdpp_scope.
Open Scope js_scope.

Record ReconciliationArtifact (A : Type) := {
  ra_artifactId : string;
  ra_typeKey : string;
  ra_payload : A
}.
Arguments ra_artifactId {A}.
Arguments ra_typeKey {A}.
Arguments ra_payload {A}.

(** ** Reading a snapshot *)

Section Reading.
Context {A : Type}.

Record Query := { qy_typeKey : string; qy_snapshotSequence : option Z; qy_after : option string }.
Record Page := {
  pg_snapshotSequence : Z;
  pg_items : list (ReconciliationArtifact A);
  pg_nextAfter : option string
}.

Variable query : list Query -> Query -> result Page.

(** The artifacts of a page join those read before: [seen] holds the
    identifiers of [artifacts]. *)
Fixpoint add_page (typeKey : string) (artifacts items : list (ReconciliationArtifact A)) :
    result (list (ReconciliationArtifact A)) :=
  match items with
  | [] => Ok artifacts
  | artifact :: items =>
      throw! negb (String.eqb (ra_typeKey artifact) typeKey) ||
             includes (ra_artifactId <$> artifacts) (ra_artifactId artifact)
        as "reconciliation query returned an invalid occurrence";
      add_page typeKey (artifacts ++ [artifact]) items
  end.

(** The [for (;;)] of [readType]: [log] holds the queries made. *)
Fixpoint read_pages (fuel : nat) (log : list Query) (typeKey : string) (snapshotSequence : option Z)
    (after : option string) (artifacts : list (ReconciliationArtifact A)) :
    option (result (Z * list (ReconciliationArtifact A)) * list Query) :=
  match fuel with
  | 0 => None
  | S fuel =>
      let q := {| qy_typeKey := typeKey; qy_snapshotSequence := snapshotSequence; qy_after := truthy after |} in
      let log' := log ++ [q] in
      match query log q with
      | Throw e => Some (Throw e, log')
      | Ok page =>
          if match snapshotSequence with Some s => negb (s =? pg_snapshotSequence page)%Z | None => false end
          then Some (Throw "reconciliation query changed its snapshot", log')
          else
            match add_page typeKey artifacts (pg_items page) with
            | Throw e => Some (Throw e, log')
            | Ok artifacts' =>
                match truthy (pg_nextAfter page) with
                | None => Some (Ok (pg_snapshotSequence page, artifacts'), log')
                | Some next =>
                    if bool_decide (Some next = after) || match pg_items page with [] => true | _ => false end ||
                       (100000 <? Z.of_nat (length artifacts'))%Z
                    then Some (Throw "reconciliation query failed to reach a bounded snapshot", log')
                    else read_pages fuel log' typeKey (Some (pg_snapshotSequence page)) (Some next) artifacts'
                end
            end
      end
  end.

(** [readType]: every page but the last brings an artifact, and there is no turn
    after more than 100000. *)
Definition READ_FUEL : nat := Z.to_nat 100002.
Definition readType (log : list Query) (typeKey : string) (snapshotSequence : option Z) :=
  read_pages READ_FUEL log typeKey snapshotSequence None [].
End Reading.

(** ** The shortlist *)

Abbreviation invoice_artifact := (ReconciliationArtifact OpenItem).
Abbreviation transaction_artifact := (ReconciliationArtifact StatementTransaction).

(** The fields of a decision that are read. *)
Record Decision_ := {
  de_openItemArtifactId : string;
  de_transactionArtifactId : string;
  de_accepted : bool
}.

Record Scope := {
  sc_invoices : list invoice_artifact;
  sc_transactions : list transaction_artifact;
  sc_decisions : list Decision_
}.

Definition shortlistLimit : nat := 64.

(** Every observation of a selected provider identity, or the transaction alone. *)
Definition observations (transactions : list transaction_artifact) (representative : transaction_artifact) :
    list transaction_artifact :=
  match st_dedupBasis (ra_payload representative) with
  | ProviderId =>
      List.filter (fun item =>
        bool_decide (st_dedupBasis (ra_payload item) = ProviderId) &&
        String.eqb (st_dedupKey (ra_payload item)) (st_dedupKey (ra_payload representative)))
        transactions
  | Fingerprint => [representative]
  end.

(** The loop over the ranked candidates; [!] of an index that is out of range
    would be an exception. *)
Fixpoint select (source : list transaction_artifact) (transactions : list transaction_artifact)
    (truncated : bool) (ranked : list ReconciliationMatchCandidate) :
    result (list transaction_artifact * bool) :=
  match ranked with
  | [] => Ok (transactions, truncated)
  | candidate :: ranked =>
      match source !! rc_transactionInputOrdinal candidate with
      | None => Throw "TypeError"
      | Some representative =>
          let group := observations source representative in
          if shortlistLimit <? length transactions + length group
          then select source transactions true ranked
          else select source (transactions ++ group) truncated ranked
      end
  end.

Definition shortlist (invoice : OpenItem) (source : list transaction_artifact) :
    result (list transaction_artifact * bool) :=
  let ranked := rankInvoiceTransactions invoice (ra_payload <$> source) in
  select source [] false (List.filter (fun c => bool_decide (is_Some (rc_amount c))) ranked).

(** An invoice that was accepted before is left alone, unless it was asked for. *)
Definition wanted (openItemArtifactId : option string) (decisions : list Decision_)
    (invoice : invoice_artifact) : bool :=
  match truthy openItemArtifactId with
  | Some id => String.eqb (ra_artifactId invoice) id
  | None => negb (existsb (fun d => String.eqb (de_openItemArtifactId d) (ra_artifactId invoice) &&
                                    de_accepted d) decisions)
  end.

Record Batch := { ba_invoice : invoice_artifact; ba_transactions : list transaction_artifact }.

Record Shortlists := {
  sl_batches : list Batch;
  sl_unmatchedOpenItemIds : list string;
  sl_truncatedOpenItemIds : list string
}.

Definition shortlist_invoice (source : Scope) (acc : Shortlists) (invoice : invoice_artifact) : result Shortlists :=
  '(transactions, truncated) ← shortlist (ra_payload invoice) (sc_transactions source);
  let truncatedIds :=
    sl_truncatedOpenItemIds acc ++ (if truncated : bool then [ra_artifactId invoice] else []) in
  Ok match transactions with
     | [] => {| sl_batches := sl_batches acc;
                sl_unmatchedOpenItemIds := sl_unmatchedOpenItemIds acc ++ [ra_artifactId invoice];
                sl_truncatedOpenItemIds := truncatedIds |}
     | _ => {| sl_batches := sl_batches acc ++ [{| ba_invoice := invoice; ba_transactions := transactions |}];
               sl_unmatchedOpenItemIds := sl_unmatchedOpenItemIds acc;
               sl_truncatedOpenItemIds := truncatedIds |}
     end.

(** [reconciliation.shortlist.v2]. *)
Definition shortlists (openItemArtifactId : option string) (source : Scope) : result Shortlists :=
  foldl (fun acc invoice => acc ← acc; shortlist_invoice source acc invoice)
    (Ok {| sl_batches := []; sl_unmatchedOpenItemIds := []; sl_truncatedOpenItemIds := [] |})
    (List.filter (wanted openItemArtifactId (sc_decisions source)) (sc_invoices source)).

(** ** Reviews *)

Record ReconciliationReview := {
  rv_openItemArtifactId : string;
  rv_transactionArtifactId : string;
  rv_candidate : ReconciliationMatchCandidate
}.

(** [reconciliation.rank.v2] of a batch, whose publication is outside. *)
Definition reviews (batch : Batch) : list ReconciliationReview :=
  omap (fun c =>
    (fun t => {| rv_openItemArtifactId := ra_artifactId (ba_invoice batch);
                 rv_transactionArtifactId := ra_artifactId t; rv_candidate := c |}) <$>
    ba_transactions batch !! rc_transactionInputOrdinal c)
    (rankInvoiceTransactions (ra_payload (ba_invoice batch)) (ra_payload <$> ba_transactions batch)).

(** [reconciliation.review.v2]: what was decided is not reviewed again. *)
Definition undecided (decisions : list Decision_) (l : list ReconciliationReview) : list ReconciliationReview :=
  List.filter (fun review =>
    negb (existsb (fun d => String.eqb (de_openItemArtifactId d) (rv_openItemArtifactId review) &&
                            String.eqb (de_transactionArtifactId d) (rv_transactionArtifactId review))
      decisions)) l.

(** * What the reconciliation of invoices guarantees
    Reading ends with one snapshot; and narrowing the transactions to a shortlist
    changes no assessment. *)

#[local] Arguments observationKey : simpl never.
#[local] Arguments group_of : simpl never.

(** ** Groups, by their transactions *)

(** The keys of providers are not taken for occurrences: the normalizer begins
    them with [provider:]. *)
Definition provider_keys (txs : list StatementTransaction) : Prop :=
  forall t, t ∈ txs -> st_dedupBasis t = ProviderId -> starts_with (st_dedupKey t) "occurrence:" = false.

Definition of_provider (key : string) (t : StatementTransaction) : Prop :=
  st_dedupBasis t = ProviderId /\ st_dedupKey t = key.
#[export] Instance of_provider_dec key t : Decision (of_provider key t).
Proof. unfold of_provider. apply _. Defined.

Lemma prefix_append p s : String.prefix p (p +:+ s) = true.
Proof. induction p as [|c p IH]; cbn; [by destruct s|]. by destruct (ascii_dec c c). Qed.

Lemma group_of_provider i t key :
  starts_with key "occurrence:" = false -> group_of i t = key <-> of_provider key t.
Proof.
  unfold group_of, of_provider. intros Hk. destruct (st_dedupBasis t); [by split; [intros ->|intros [_ ->]]|].
  split; [|by intros []]. intros <-. unfold starts_with in Hk. by rewrite prefix_append in Hk.
Qed.

Lemma filter_snd (Q : entry -> Prop) (P : StatementTransaction -> Prop)
    `{!forall e, Decision (Q e), !forall t, Decision (P t)} l :
  (forall e, e ∈ l -> Q e <-> P e.2) -> (base.filter Q l).*2 = base.filter P l.*2.
Proof.
  induction l as [|e l IH]; intros Hpq; [done|]. rewrite filter_cons, fmap_cons, filter_cons.
  destruct (decide (Q e)) as [Hq|Hq], (decide (P e.2)) as [Hp|Hp].
  - cbn. f_equal. apply IH. intros e' He'. apply Hpq. by right.
  - destruct Hp. apply (Hpq e); [by left|done].
  - destruct Hq. apply (Hpq e); [by left|done].
  - apply IH. intros e' He'. apply Hpq. by right.
Qed.

Lemma entries_snd {A} (l : list A) : (entries l).*2 = l.
Proof. unfold entries. rewrite fmap_imap. revert l. induction l as [|x l IH]; [done|]. rewrite imap_cons. f_equal. exact IH. Qed.

Lemma entries_NoDup {A} (l : list A) : NoDup (entries l).
Proof.
  unfold entries. apply NoDup_alt. intros i j [k x]. rewrite !list_lookup_imap.
  destruct (l !! i), (l !! j); cbn; try done. by intros [= -> ->] [= -> ->].
Qed.

Lemma members_provider txs key :
  starts_with key "occurrence:" = false ->
  (members key (entries txs)).*2 = base.filter (of_provider key) txs.
Proof.
  intros Hk. unfold members. rewrite <- (entries_snd txs) at 2. apply filter_snd.
  intros [i t] _. by apply group_of_provider.
Qed.

Lemma occurrence_inj (i j : nat) : "occurrence:" +:+ pretty i = "occurrence:" +:+ pretty j -> i = j.
Proof. intros [= H]. by apply (inj pretty) in H. Qed.

Lemma group_of_fingerprint i t : st_dedupBasis t = Fingerprint -> group_of i t = "occurrence:" +:+ pretty i.
Proof. unfold group_of. by intros ->. Qed.

Lemma members_occurrence txs i t :
  provider_keys txs -> txs !! i = Some t -> st_dedupBasis t = Fingerprint ->
  members (group_of i t) (entries txs) = [(i, t)].
Proof.
  intros Hkeys Hi Ht.
  assert ((i, t) ∈ members (group_of i t) (entries txs)) as Hin.
  { by rewrite elem_of_members, elem_of_entries. }
  assert (NoDup (members (group_of i t) (entries txs))) as Hnd by apply NoDup_filter, entries_NoDup.
  assert (forall e, e ∈ members (group_of i t) (entries txs) -> e = (i, t)) as Hall.
  { intros [j u] [Hg Hj%elem_of_entries]%elem_of_members. cbn in Hg.
    rewrite (group_of_fingerprint i t Ht) in Hg. unfold group_of in Hg.
    destruct (st_dedupBasis u) eqn:Hu.
    - exfalso. assert (starts_with (st_dedupKey u) "occurrence:" = false) as Hp.
      { apply Hkeys; [by eapply list_elem_of_lookup_2|done]. }
      rewrite Hg in Hp. unfold starts_with in Hp. by rewrite prefix_append in Hp.
    - apply occurrence_inj in Hg as ->. by rewrite Hi in Hj; injection Hj as ->. }
  destruct (members (group_of i t) (entries txs)) as [|e [|e' l]]; [by apply not_elem_of_nil in Hin| |].
  - f_equal. apply Hall. by left.
  - exfalso. apply NoDup_cons in Hnd as [Hn _]. apply Hn. rewrite (Hall e), (Hall e'); [by left|by right; left|by left].
Qed.

(** ** Assessments, without places *)

(** A candidate without its rank and its index. *)
Definition anonymous (c : ReconciliationMatchCandidate) : ReconciliationMatchCandidate :=
  {| rc_openItemBusinessKey := rc_openItemBusinessKey c;
     rc_transactionDedupKey := rc_transactionDedupKey c;
     rc_transactionInputOrdinal := 0;
     rc_rank := 0;
     rc_rankScore := rc_rankScore c;
     rc_amount := rc_amount c;
     rc_issueDateDistanceDays := rc_issueDateDistanceDays c;
     rc_dueDateDistanceDays := rc_dueDateDistanceDays c;
     rc_referenceMatch := rc_referenceMatch c;
     rc_counterpartyMatch := rc_counterpartyMatch c;
     rc_ibanMatch := rc_ibanMatch c;
     rc_signMatch := rc_signMatch c;
     rc_duplicateCount := rc_duplicateCount c;
     rc_reasons := rc_reasons c;
     rc_blockers := rc_blockers c;
     rc_pairEligible := rc_pairEligible c;
     rc_recommendation := rc_recommendation c |}.

Lemma representative_snd l l' :
  l.*2 = l'.*2 -> snd <$> representative l = snd <$> representative l'.
Proof.
  unfold representative.
  assert (forall cur cur' : option entry, snd <$> cur = snd <$> cur' -> l.*2 = l'.*2 ->
    snd <$> foldl prefer cur l = snd <$> foldl prefer cur' l') as H; [|by apply H].
  revert l'. induction l as [|e l IH]; intros [|e' l'] cur cur' Hcur E; try done.
  cbn in E. injection E as E1 E2. cbn. apply IH; [|done].
  destruct cur as [c|], cur' as [c'|]; try done; cbn in *; [|by f_equal].
  injection Hcur as Hcur. rewrite E1, Hcur. case_match; cbn; by f_equal.
Qed.

Lemma candidate_of_snd openItem l l' e e' :
  l.*2 = l'.*2 -> e.2 = e'.2 ->
  anonymous (candidate_of openItem l e) = anonymous (candidate_of openItem l' e').
Proof.
  intros Hl He. unfold candidate_of. rewrite <- He.
  assert (length l = length l') as Hlen by (rewrite <- (length_fmap snd l), Hl; apply length_fmap).
  assert (forall l : list entry,
    bool_decide (Exists (fun x : entry => observationKey x.2 <> observationKey e.2) l) =
    bool_decide (Exists (fun t => observationKey t <> observationKey e.2) l.*2)) as Hex.
  { intros m. apply bool_decide_ext. by rewrite Exists_fmap. }
  rewrite !Hex, Hl, Hlen. unfold assess, anonymous. by destruct (score _ _ _ _ _ _ _).
Qed.

(** Groups of the same transactions are assessed alike. *)
Lemma same_group openItem txs txs' group group' e :
  representative (members group (entries txs)) = Some e ->
  (members group (entries txs)).*2 = (members group' (entries txs')).*2 ->
  exists c', c' ∈ rankInvoiceTransactions openItem txs' /\
    anonymous (candidate_of openItem (members group (entries txs)) e) = anonymous c'.
Proof.
  intros Hrep Hm. pose proof (representative_snd _ _ Hm) as Hs. rewrite Hrep in Hs.
  destruct (representative (members group' (entries txs'))) as [e'|] eqn:Hrep'; [|done].
  injection Hs as Hs.
  assert (candidate_of openItem (members group' (entries txs')) e' ∈ candidates openItem (groups txs')) as Hin.
  { apply elem_of_candidates. by exists group', e'. }
  apply ranked_candidate in Hin as [k Hk]. eexists. split; [exact Hk|].
  by rewrite (candidate_of_snd openItem _ _ e e' Hm Hs).
Qed.

(** ** What is selected *)

Section Selection.
Context (openItem : OpenItem) (source : list transaction_artifact).

Let txs : list StatementTransaction := ra_payload <$> source.

(** The group a candidate stands for, and the transactions it brings along. *)
Definition candidate_group (l : list StatementTransaction) (c : ReconciliationMatchCandidate) : string :=
  match l !! rc_transactionInputOrdinal c with
  | Some t => group_of (rc_transactionInputOrdinal c) t
  | None => ""
  end.

Definition brings (l : list StatementTransaction) (c : ReconciliationMatchCandidate) : list StatementTransaction :=
  match l !! rc_transactionInputOrdinal c with
  | Some t =>
      match st_dedupBasis t with
      | ProviderId => base.filter (of_provider (st_dedupKey t)) l
      | Fingerprint => [t]
      end
  | None => []
  end.

Lemma observations_payload r :
  ra_payload <$> observations source r =
  match st_dedupBasis (ra_payload r) with
  | ProviderId => base.filter (of_provider (st_dedupKey (ra_payload r))) txs
  | Fingerprint => [ra_payload r]
  end.
Proof.
  unfold observations. destruct (st_dedupBasis (ra_payload r)); [|done]. unfold txs. clear txs.
  induction source as [|a l IH]; [done|]. rewrite fmap_cons, filter_cons. cbn [List.filter].
  destruct (decide (of_provider (st_dedupKey (ra_payload r)) (ra_payload a))) as [[Hb Hk]|Hn].
  - rewrite bool_decide_true, (proj2 (String.eqb_eq _ _) Hk) by done. cbn. by f_equal.
  - replace (bool_decide _ && _) with false; [done|]. symmetry. apply andb_false_iff.
    destruct (decide (st_dedupBasis (ra_payload a) = ProviderId)); [right|left; by apply bool_decide_false].
    apply String.eqb_neq. intros ?. by apply Hn.
Qed.

(** The selection takes whole groups, in order, and never too many. *)
Lemma select_spec ranked ts truncated :
  Forall (fun c => is_Some (txs !! rc_transactionInputOrdinal c)) ranked ->
  length ts <= shortlistLimit ->
  exists chosen ts' truncated',
    select source ts truncated ranked = Ok (ts', truncated') /\
    sublist chosen ranked /\
    ra_payload <$> ts' = (ra_payload <$> ts) ++ (chosen ≫= brings txs) /\
    length ts' <= shortlistLimit /\ (truncated' = false -> chosen = ranked).
Proof.
  intros Hin. revert ts truncated. induction Hin as [|c ranked [t Ht] Hin IH]; intros ts truncated Hts.
  - exists [], ts, truncated. cbn. by rewrite app_nil_r.
  - cbn [select]. unfold txs in Ht. rewrite list_lookup_fmap in Ht.
    destruct (source !! rc_transactionInputOrdinal c) as [r|] eqn:Er; [|done]. injection Ht as <-.
    destruct (Nat.ltb_spec shortlistLimit (length ts + length (observations source r))) as [Hlt|Hle].
    + destruct (IH ts true Hts) as (chosen & ts' & tr & E & Hsub & Hpay & Hlen & _).
      exists chosen, ts', tr. split_and!; try done; [by constructor|].
      intros ->. exfalso. clear -E. revert ts E.
      induction ranked as [|d ranked IH]; cbn; [done|]. intros ts. destruct (source !! _); [|done].
      case_match; apply IH.
    + destruct (IH (ts ++ observations source r) truncated) as (chosen & ts' & tr & E & Hsub & Hpay & Hlen & Htr).
      { by rewrite length_app. }
      exists (c :: chosen), ts', tr. split_and!; try done; [by constructor| |by intros ->%Htr].
      assert (brings txs c = ra_payload <$> observations source r) as Hb.
      { rewrite observations_payload. unfold brings, txs. by rewrite list_lookup_fmap, Er. }
      rewrite Hpay, fmap_app, <- app_assoc. cbn. by rewrite Hb.
Qed.
End Selection.

(** The candidates of a ranking stand for different groups. *)
Lemma ranking_groups openItem txs :
  NoDup (candidate_group txs <$> rankInvoiceTransactions openItem txs).
Proof.
  assert (candidate_group txs <$> rankInvoiceTransactions openItem txs ≡ₚ
          (gr_representatives (groups txs)).*1) as ->; [|apply (gd_ok _ _ (groups_grouped txs))].
  unfold rankInvoiceTransactions. rewrite fmap_imap.
  assert (forall l, imap (fun n => candidate_group txs ∘ with_rank n) l = candidate_group txs <$> l) as ->.
  { intros l. by rewrite <- imap_const. }
  rewrite js_sort_perm. unfold candidates. rewrite <- list_fmap_compose.
  erewrite list_fmap_ext; [reflexivity|]. intros k [group [t i]] Hk%list_elem_of_lookup_2.
  apply elem_of_representatives in Hk. cbn. rewrite assess_candidate by done.
  unfold candidate_group. destruct (candidate_fields openItem (members group (entries txs)) (i, t)) as [-> _].
  cbn. destruct (representative_in _ _ _ _ Hk) as (-> & -> & _). done.
Qed.

(** What a candidate stands for. *)
Lemma ranked_for openItem txs c :
  c ∈ rankInvoiceTransactions openItem txs ->
  exists t, txs !! rc_transactionInputOrdinal c = Some t /\
    representative (members (candidate_group txs c) (entries txs)) = Some (rc_transactionInputOrdinal c, t) /\
    anonymous c = anonymous (candidate_of openItem (members (candidate_group txs c) (entries txs))
                               (rc_transactionInputOrdinal c, t)).
Proof.
  intros (k & c' & (group & [i t] & Hrep & ->)%elem_of_candidates & ->)%elem_of_ranking.
  destruct (representative_in _ _ _ _ Hrep) as (Hi & Hg & _).
  destruct (candidate_fields openItem (members group (entries txs)) (i, t)) as [E _].
  exists t. unfold candidate_group. cbn. rewrite E. cbn. rewrite Hi, Hg. by rewrite Hrep.
Qed.

(** ** The groups of a selection are the groups of the source *)

Section Groups.
Context (txs : list StatementTransaction) (chosen : list ReconciliationMatchCandidate).
Hypothesis Hkeys : provider_keys txs.
Hypothesis Hin : forall c, c ∈ chosen -> exists t, txs !! rc_transactionInputOrdinal c = Some t.
Hypothesis Hdistinct : NoDup (candidate_group txs <$> chosen).

Let selected : list StatementTransaction := chosen ≫= brings txs.

Lemma selected_from t : t ∈ selected -> t ∈ txs.
Proof.
  intros (c & Hc & Hb)%list_elem_of_bind. destruct (Hin c) as [u Hu]; [done|].
  unfold brings in Hc. rewrite Hu in Hc. destruct (st_dedupBasis u).
  - by apply list_elem_of_filter in Hc as [_ ?].
  - apply list_elem_of_singleton in Hc as ->. by eapply list_elem_of_lookup_2.
Qed.

Lemma selected_keys : provider_keys selected.
Proof. intros t Ht. by apply Hkeys, selected_from. Qed.

Lemma brings_provider key c t :
  txs !! rc_transactionInputOrdinal c = Some t -> starts_with key "occurrence:" = false ->
  base.filter (of_provider key) (brings txs c) =
    if decide (key = candidate_group txs c) then base.filter (of_provider key) txs else [].
Proof.
  intros Ht Hk. unfold brings, candidate_group. rewrite Ht. unfold group_of.
  destruct (st_dedupBasis t) eqn:Hb; case_decide as E.
  - subst key. rewrite list_filter_filter. apply list_filter_iff. tauto.
  - apply elem_of_nil_inv. intros u. rewrite !list_elem_of_filter. intros ([_ ?] & [_ ?] & _). congruence.
  - subst key. unfold starts_with in Hk. by rewrite prefix_append in Hk.
  - apply elem_of_nil_inv. intros u. rewrite list_elem_of_filter. intros [[? _] ->%list_elem_of_singleton]. congruence.
Qed.

Lemma selected_provider key :
  starts_with key "occurrence:" = false ->
  base.filter (of_provider key) selected =
    if decide (key ∈ candidate_group txs <$> chosen) then base.filter (of_provider key) txs else [].
Proof.
  unfold selected. intros Hk. induction chosen as [|c l IH]; [done|].
  rewrite bind_cons, filter_app, fmap_cons in *. destruct (Hin c) as [t Ht]; [by left|].
  apply NoDup_cons in Hdistinct as [Hn Hd]. rewrite (brings_provider key c t), IH; [|intros; apply Hin; by right|done..].
  destruct (decide (key = candidate_group txs c)) as [->|Hne].
  - rewrite decide_False, app_nil_r by done. rewrite decide_True; [done|by left].
  - cbn. apply decide_ext. rewrite elem_of_cons. tauto.
Qed.

Lemma chosen_provider c t :
  c ∈ chosen -> txs !! rc_transactionInputOrdinal c = Some t -> st_dedupBasis t = ProviderId ->
  candidate_group txs c = st_dedupKey t /\ starts_with (st_dedupKey t) "occurrence:" = false /\
  base.filter (of_provider (st_dedupKey t)) selected = base.filter (of_provider (st_dedupKey t)) txs.
Proof.
  intros Hc Ht Hb. assert (candidate_group txs c = st_dedupKey t) as E.
  { unfold candidate_group, group_of. by rewrite Ht, Hb. }
  assert (starts_with (st_dedupKey t) "occurrence:" = false) as Hk.
  { apply Hkeys; [by eapply list_elem_of_lookup_2|done]. }
  split_and!; [done..|]. rewrite selected_provider, decide_True; [done| |done].
  rewrite <- E. by apply list_elem_of_fmap_2.
Qed.

Lemma chosen_group c t :
  c ∈ chosen -> txs !! rc_transactionInputOrdinal c = Some t ->
  exists group, (members (candidate_group txs c) (entries txs)).*2 = (members group (entries selected)).*2.
Proof.
  intros Hc Ht. destruct (st_dedupBasis t) eqn:Hb.
  - destruct (chosen_provider c t Hc Ht Hb) as (E & Hk & Hf). exists (st_dedupKey t).
    by rewrite E, !members_provider, Hf.
  - assert (t ∈ selected) as [i Hi]%list_elem_of_lookup_1.
    { apply list_elem_of_bind. exists c. split; [|done]. unfold brings. rewrite Ht, Hb. by left. }
    exists (group_of i t). unfold candidate_group. rewrite Ht.
    by rewrite !members_occurrence by (done || apply selected_keys).
Qed.

Lemma selected_group group e :
  representative (members group (entries selected)) = Some e ->
  exists c, c ∈ chosen /\
    (members group (entries selected)).*2 = (members (candidate_group txs c) (entries txs)).*2.
Proof.
  destruct e as [i t]. intros (Hi & Hg & _)%representative_in. destruct (st_dedupBasis t) eqn:Hb.
  - assert (starts_with (st_dedupKey t) "occurrence:" = false) as Hk.
    { apply selected_keys; [by eapply list_elem_of_lookup_2|done]. }
    assert (group = st_dedupKey t) as -> by (rewrite <- Hg; unfold group_of; by rewrite Hb).
    pose proof (selected_provider _ Hk) as Hf. case_decide as Hc.
    + apply list_elem_of_fmap in Hc as (c & E & Hc). exists c. split; [done|].
      by rewrite <- E, !members_provider, Hf.
    + exfalso. apply (not_elem_of_nil t). rewrite <- Hf. apply list_elem_of_filter.
      split; [done|]. by eapply list_elem_of_lookup_2.
  - assert (t ∈ selected) as (c & Hbr & Hc)%list_elem_of_bind by by eapply list_elem_of_lookup_2.
    exists c. split; [done|]. destruct (Hin c Hc) as [u Hu]. unfold brings in Hbr. rewrite Hu in Hbr.
    destruct (st_dedupBasis u) eqn:Hub.
    + apply list_elem_of_filter in Hbr as [[? _] _]. congruence.
    + apply list_elem_of_singleton in Hbr as ->. unfold candidate_group. rewrite Hu, <- Hg.
      by rewrite !members_occurrence by (done || apply selected_keys).
Qed.
End Groups.

Lemma sublist_fmap {A B} (f : A -> B) l l' : sublist l l' -> sublist (f <$> l) (f <$> l').
Proof. induction 1; cbn; by constructor. Qed.

Lemma List_filter_sublist {A} (p : A -> bool) l : sublist (List.filter p l) l.
Proof. induction l as [|x l IH]; cbn; [constructor|]. destruct (p x); by constructor. Qed.

(** narrowing changes no assessment. Whatever the transactions, the shortlist of
    an invoice holds at most 64 of them; every candidate of the shortlist has a
    comparable amount, and is a candidate of all transactions, with the same
    score, blockers, eligibility and duplicates: only its index and its rank may
    differ. And unless the shortlist says that it was truncated, no candidate
    with a comparable amount is missing. *)
Theorem shortlist_keeps_assessments invoice source :
  provider_keys (ra_payload <$> source) ->
  let all := rankInvoiceTransactions invoice (ra_payload <$> source) in
  exists transactions truncated,
    shortlist invoice source = Ok (transactions, truncated) /\
    length transactions <= 64 /\
    let narrowed := rankInvoiceTransactions invoice (ra_payload <$> transactions) in
    (forall c, c ∈ narrowed -> is_Some (rc_amount c) /\ exists d, d ∈ all /\ anonymous c = anonymous d) /\
    (truncated = false -> forall d, d ∈ all -> is_Some (rc_amount d) ->
      exists c, c ∈ narrowed /\ anonymous c = anonymous d).
Proof.
  intros Hkeys all. set (txs := ra_payload <$> source) in *. unfold shortlist. fold txs. fold all.
  set (ranked := List.filter _ all).
  assert (forall c, c ∈ ranked <-> c ∈ all /\ is_Some (rc_amount c)) as Hranked.
  { intros c. unfold ranked. by rewrite list_elem_of_In, filter_In, bool_decide_eq_true, <- list_elem_of_In. }
  destruct (select_spec source ranked [] false) as (chosen & ts & tr & E & Hsub & Hpay & Hlen & Htr).
  { apply Forall_forall. intros c [(t & Ht & _)%ranked_for _]%Hranked. by exists t. }
  { cbn. lia. }
  exists ts, tr. split; [done|]. split; [done|]. cbn in Hpay. fold txs in Hpay. rewrite Hpay.
  assert (forall c, c ∈ chosen -> c ∈ ranked) as Hchosen by (intros; by eapply elem_of_sublist).
  assert (forall c, c ∈ chosen -> exists t, txs !! rc_transactionInputOrdinal c = Some t) as Hin.
  { intros c [(t & Ht & _)%ranked_for _]%Hchosen%Hranked. by exists t. }
  assert (NoDup (candidate_group txs <$> chosen)) as Hd.
  { eapply sublist_NoDup; [apply (ranking_groups invoice txs)|].
    apply sublist_fmap. transitivity ranked; [done|apply List_filter_sublist]. }
  split.
  - intros c Hc. apply ranked_for in Hc as (t & Ht & Hrep & Ha).
    destruct (selected_group txs chosen Hkeys Hin Hd _ _ Hrep) as (d & Hdc & Hm).
    destruct (proj1 (Hranked d) (Hchosen d Hdc)) as [Hall Hamount].
    destruct (ranked_for _ _ _ Hall) as (u & Hu & Hrep' & Ha').
    assert (anonymous c = anonymous d) as Heq.
    { rewrite Ha, Ha'. apply candidate_of_snd; [done|].
      pose proof (representative_snd _ _ Hm) as Hs. rewrite Hrep, Hrep' in Hs. by injection Hs. }
    split; [|by exists d]. change (rc_amount c) with (rc_amount (anonymous c)). by rewrite Heq.
  - intros Ht d Hall Hamount. rewrite <- (Htr Ht) in Hranked.
    assert (d ∈ chosen) as Hdc by by apply Hranked.
    destruct (ranked_for _ _ _ Hall) as (u & Hu & Hrep & Ha).
    destruct (chosen_group txs chosen Hkeys Hin Hd d u Hdc Hu) as [group Hm].
    destruct (same_group invoice _ _ _ _ _ Hrep Hm) as (c & Hc & Hca).
    exists c. split; [done|]. by rewrite Ha, Hca.
Qed.

(** ** Reading *)

Section Reading.
Context {A : Type} (query : list Query -> Query -> result (@Page A)).

(** What has been read so far is of one type, without repetition. *)
Definition occurrences (typeKey : string) (artifacts : list (ReconciliationArtifact A)) : Prop :=
  NoDup (ra_artifactId <$> artifacts) /\ Forall (fun a => ra_typeKey a = typeKey) artifacts.

Lemma add_page_spec typeKey artifacts items artifacts' :
  occurrences typeKey artifacts -> add_page typeKey artifacts items = Ok artifacts' ->
  artifacts' = artifacts ++ items /\ occurrences typeKey artifacts'.
Proof.
  revert artifacts. induction items as [|a items IH]; intros artifacts [Hnd Hty].
  - intros [= <-]. by rewrite app_nil_r.
  - cbn [add_page]. unfold throw_if. case_match eqn:E; [done|]. cbn. intros Hadd.
    bools. unfold includes in *. bools. apply String.eqb_eq in H.
    destruct (IH (artifacts ++ [a])) as [-> Hocc]; [|done|split; [by rewrite <- app_assoc|done]].
    split.
    + rewrite fmap_app. apply NoDup_app. split_and!; [done| |apply NoDup_singleton].
      intros x Hx ->%list_elem_of_singleton. done.
    + apply Forall_app. split; [done|]. by repeat constructor.
Qed.

Lemma read_pages_spec fuel log typeKey snapshotSequence after artifacts :
  occurrences typeKey artifacts ->
  (Z.of_nat (length artifacts) <= 100000)%Z -> (100002 <= Z.of_nat fuel + Z.of_nat (length artifacts))%Z ->
  exists r log', read_pages query fuel log typeKey snapshotSequence after artifacts = Some (r, log') /\
    forall seq all, r = Ok (seq, all) ->
      occurrences typeKey all /\ (forall s, snapshotSequence = Some s -> seq = s).
Proof.
  revert log snapshotSequence after artifacts.
  induction fuel as [|fuel IH]; intros log snap after artifacts Hocc Hlen Hfuel; [lia|].
  cbn [read_pages]. destruct (query log _) as [page|e]; [|by eexists _, _].
  set (log' := log ++ _). case_match eqn:Es; [by eexists _, _|].
  destruct (add_page typeKey artifacts (pg_items page)) as [artifacts'|e] eqn:Ea; [|by eexists _, _].
  destruct (add_page_spec _ _ _ _ Hocc Ea) as [Eart Hocc'].
  assert (forall s, snap = Some s -> pg_snapshotSequence page = s) as Hsnap.
  { intros s ->. apply negb_false_iff, Z.eqb_eq in Es. by symmetry. }
  destruct (truthy (pg_nextAfter page)) as [next|].
  2: { eexists _, _. split; [done|]. by intros seq all [= <- <-]. }
  match goal with |- context [if ?b then _ else read_pages _ _ _ _ _ _ _] => destruct b eqn:Eb end;
    [by eexists _, _|].
  bools.
  assert (length artifacts < length artifacts').
  { rewrite Eart, length_app. destruct (pg_items page); [done|]. cbn. lia. }
  destruct (IH log' (Some (pg_snapshotSequence page)) (Some next) artifacts') as (r & log'' & E & Hr);
    [done|lia|lia|].
  exists r, log''. split; [done|]. intros seq all Hok. destruct (Hr seq all Hok) as [Hall Hseq].
  split; [done|]. intros s Hs. rewrite <- (Hsnap s Hs). by apply Hseq.
Qed.

(** reading ends with one snapshot. Whatever the gateway answers, the loop of
    [readType] returns or throws; and what it returns has the asked type, no
    occurrence twice, and belongs to the asked snapshot. *)
Theorem readType_ends log typeKey snapshotSequence :
  exists r log', readType query log typeKey snapshotSequence = Some (r, log') /\
    forall seq artifacts, r = Ok (seq, artifacts) ->
      NoDup (ra_artifactId <$> artifacts) /\
      Forall (fun a => ra_typeKey a = typeKey) artifacts /\
      (forall s, snapshotSequence = Some s -> seq = s).
Proof.
  destruct (read_pages_spec READ_FUEL log typeKey snapshotSequence None []) as (r & log' & E & Hr).
  - split; constructor.
  - cbn. lia.
  - unfold READ_FUEL. rewrite Z2Nat.id by lia. cbn. lia.
  - exists r, log'. split; [done|]. intros seq all Hok. by destruct (Hr seq all Hok) as [[? ?] ?].
Qed.
End Reading.

Module Narrowed.
Definition source : list transaction_artifact :=
  imap (fun i t => {| ra_artifactId := pretty i; ra_typeKey := "banking.transaction"; ra_payload := t |})
    Sample.transactions.
End Narrowed.

Lemma shortlist_keeps_assessments_witness :
  exists transactions truncated,
    shortlist Sample.invoice Narrowed.source = Ok (transactions, truncated) /\ length transactions <= 64.
Proof.
  destruct (shortlist_keeps_assessments Sample.invoice Narrowed.source) as (ts & tr & E & Hlen & _).
  - intros t Ht. apply list_elem_of_In in Ht. cbn in Ht. destruct Ht as [<-|[<-|[<-|[]]]]; done.
  - exists ts, tr. split; [exact E|exact Hlen].
Defined.
