(* ===== verification/Canonical.v ===== *)
(** * Canonical JSON of artifacts

    [libs/aven-artifact-store/src/canonical.ts]: the strict parser, which refuses
    duplicate keys and numbers that are not exact, and the canonical printer whose
    text is compared and hashed.  A text is the list of its UTF-16 code units.
    A number that is no integer stands as the text [String] shows for it: the printer
    refuses it and the parser never returns one.  An object is the list of its
    entries. *)

From S2P Require Import Prelude.

Open Scope stdpp_scope.
Open Scope js_scope.
Local Open Scope Z_scope.

Inductive ArtifactJson :=
| ANull
| ABool (b : bool)
| ANumber (n : Z)
| AFraction (shown : text)
| AString (s : text)
| AArray (items : list ArtifactJson)
| AObject (entries : list (text * ArtifactJson)).

(** ** Characters *)

Definition is_lead (c : Z) : bool := (55296 <=? c) && (c <=? 56319).
Definition is_trail (c : Z) : bool := (56320 <=? c) && (c <=? 57343).
Definition is_surrogate (c : Z) : bool := is_lead c || is_trail c.

(** The code points of a text, [Array.from(text)]: surrogates that are no pair
    stand for themselves. *)
Fixpoint code_points (s : text) : list Z :=
  match s with
  | [] => []
  | c :: rest =>
      match rest with
      | d :: rest' =>
          if is_lead c && is_trail d
          then (65536 + (c - 55296) * 1024 + (d - 56320)) :: code_points rest'
          else c :: code_points rest
      | [] => [c]
      end
  end.

(** The code units of a code point. *)
Definition code_units (p : Z) : text :=
  if p <? 65536 then [p] else [55296 + (p - 65536) / 1024; 56320 + (p - 65536) mod 1024].

Definition hex_unit (n : Z) : Z := if n <? 10 then 48 + n else 87 + n.
Definition hex4 (c : Z) : text :=
  [92; 117; hex_unit (c / 4096); hex_unit (c / 256 mod 16); hex_unit (c / 16 mod 16); hex_unit (c mod 16)].

(** ** Printing *)

Definition escape_point (p : Z) : text :=
  if p =? 34 then [92; 34]
  else if p =? 92 then [92; 92]
  else if p =? 8 then [92; 98]
  else if p =? 9 then [92; 116]
  else if p =? 10 then [92; 110]
  else if p =? 12 then [92; 102]
  else if p =? 13 then [92; 114]
  else if (p <? 32) || is_surrogate p then hex4 p
  else code_units p.

(** [JSON.stringify] of a text. *)
Definition stringify_text (s : text) : text := [34] ++ (code_points s ≫= escape_point) ++ [34].

Definition MAX_SAFE_INTEGER : Z := 9007199254740991.
Definition isSafeInteger (n : Z) : bool := (- MAX_SAFE_INTEGER <=? n) && (n <=? MAX_SAFE_INTEGER).

(** [String(value)] of an integer. *)
Definition decimal (n : Z) : text := lit (pretty n).

Fixpoint compare_points (l r : list Z) : Z :=
  match l, r with
  | a :: l, b :: r => or_else (a - b) (compare_points l r)
  | _, _ => Z.of_nat (length l) - Z.of_nat (length r)
  end.
Definition compareScalarStrings (left right : text) : Z :=
  compare_points (code_points left) (code_points right).

Definition comma_joined (l : list text) : text :=
  match l with [] => [] | x :: l => x ++ (l ≫= fun y => 44 :: y) end.

(** The first error, or all results. *)
Fixpoint collect {A} (l : list (result A)) : result (list A) :=
  match l with
  | [] => Ok []
  | x :: l => a ← x; rest ← collect l; Ok (a :: rest)
  end.

Definition by_key {A} (x y : text * A) : Z := compareScalarStrings x.1 y.1.

Fixpoint canonicalArtifactJsonText (value : ArtifactJson) : result text :=
  match value with
  | ANull => Ok (lit "null")
  | ABool b => Ok (lit (if b then "true" else "false"))
  | ANumber n =>
      if isSafeInteger n then Ok (decimal n)
      else Throw "Artifact JSON numbers must be signed safe integers"
  | AFraction _ => Throw "Artifact JSON numbers must be signed safe integers"
  | AString s => Ok (stringify_text s)
  | AArray items =>
      texts ← collect (canonicalArtifactJsonText <$> items);
      Ok ([91] ++ comma_joined texts ++ [93])
  | AObject entries =>
      let sorted := js_sort by_key ((fun e => (e.1, canonicalArtifactJsonText e.2)) <$> entries) in
      texts ← collect ((fun e : text * result text => t ← e.2; Ok (stringify_text e.1 ++ [58] ++ t)) <$> sorted);
      Ok ([123] ++ comma_joined texts ++ [125])
  end.

(** ** Parsing *)

(** What a method of [Parser] leaves: a value, with [#index] and the rest of the
    source; or the error it throws.  The methods call each other on shorter
    sources; the model counts the calls. *)
Inductive parsed (A : Type) :=
| Parsed (value : A) (index : nat) (rest : text)
| Failed (message : text) (index : nat)
| OutOfFuel.
Arguments Parsed {A}.
Arguments Failed {A}.
Arguments OutOfFuel {A}.

Definition parser (A : Type) := nat -> text -> parsed A.
Definition ret {A} (a : A) : parser A := Parsed a.
Definition fail {A} (message : text) : parser A := fun i _ => Failed message i.
Definition bind {A B} (m : parser A) (k : A -> parser B) : parser B := fun i s =>
  match m i s with
  | Parsed a i s => k a i s
  | Failed message i => Failed message i
  | OutOfFuel => OutOfFuel
  end.
Notation "'let!' x := m 'in' k" := (bind m (fun x => k))
  (at level 200, x name, m at level 100, k at level 200).

(** [this.source[this.#index]], and [this.#index += n]. *)
Definition peek : parser (option Z) := fun i s => Parsed (head s) i s.
Definition skip (n : nat) : parser unit := fun i s => Parsed tt (n + i)%nat (drop n s).

Fixpoint whitespace (i : nat) (s : text) : parsed unit :=
  match s with
  | c :: rest => if is_white c then whitespace (S i) rest else Parsed tt i s
  | [] => Parsed tt i []
  end.

Definition expect (c : Z) (name : string) : parser unit := fun i s =>
  match s with
  | d :: _ => if d =? c then skip 1 i s else Failed (lit ("expected '" +:+ name +:+ "'")) i
  | [] => Failed (lit ("expected '" +:+ name +:+ "'")) i
  end.

Definition literal {A} (token : string) (value : A) : parser A := fun i s =>
  if bool_decide (lit token `prefix_of` s) then Parsed value (String.length token + i)%nat (drop (String.length token) s)
  else Failed (lit ("expected " +:+ token)) i.

Definition hex_value (c : Z) : option Z :=
  if (48 <=? c) && (c <=? 57) then Some (c - 48)
  else if (97 <=? c) && (c <=? 102) then Some (c - 87)
  else if (65 <=? c) && (c <=? 70) then Some (c - 55)
  else None.

(** What [JSON.parse] reads between the quotes of a string token. *)
Fixpoint unescape (s : text) : option text :=
  match s with
  | [] => Some []
  | c :: rest =>
      if c =? 92 then
        match rest with
        | e :: rest =>
            let plain c := cons c <$> unescape rest in
            if e =? 34 then plain 34 else if e =? 92 then plain 92 else if e =? 47 then plain 47
            else if e =? 98 then plain 8 else if e =? 102 then plain 12 else if e =? 110 then plain 10
            else if e =? 114 then plain 13 else if e =? 116 then plain 9
            else if e =? 117 then
              match rest with
              | h1 :: h2 :: h3 :: h4 :: rest =>
                  a ← hex_value h1; b ← hex_value h2; c ← hex_value h3; d ← hex_value h4;
                  cons (a * 4096 + b * 256 + c * 16 + d) <$> unescape rest
              | _ => None
              end
            else None
        | [] => None
        end
      else if c <? 32 then None
      else cons c <$> unescape rest
  end.

(** The loop of [#string], after the opening quote: [body] is the token read so
    far, without its quotes. *)
Fixpoint string_loop (escaped : bool) (body : text) (i : nat) (s : text) : parsed text :=
  match s with
  | [] => Failed (lit "unterminated string") i
  | c :: rest =>
      if negb escaped && (c =? 34) then
        match unescape body with
        | Some value => Parsed value (S i) rest
        | None => Failed (lit "invalid JSON string") (S i)
        end
      else if negb escaped && (c <? 32) then Failed (lit "unescaped control character") (S i)
      else string_loop (negb escaped && (c =? 92)) (body ++ [c]) (S i) rest
  end.
Definition string_ : parser text := fun i s => string_loop false [] (S i) (drop 1 s).

Definition is_digit (c : Z) : bool := (48 <=? c) && (c <=? 57).

(** The longest prefix of digits. *)
Fixpoint take_digits (s : text) : text :=
  match s with c :: rest => if is_digit c then c :: take_digits rest else [] | [] => [] end.

(** An optional minus, and a zero or digits that begin with another one. *)
Definition integer_token (s : text) : option text :=
  let (sign, s) := match s with c :: rest => if c =? 45 then ([45], rest) else ([], s) | [] => ([], s) end in
  match s with
  | c :: rest =>
      if c =? 48 then Some (sign ++ [48])
      else if is_digit c then Some (sign ++ c :: take_digits rest)
      else None
  | [] => None
  end.

(** [BigInt(token)]. *)
Definition digits_number (l : text) : Z := foldl (fun n c => 10 * n + (c - 48)) 0 l.
Definition big_int (token : text) : Z :=
  match token with c :: rest => if c =? 45 then - digits_number rest else digits_number token | [] => 0 end.

Definition integer : parser ArtifactJson := fun i s =>
  match integer_token s with
  | None => Failed (lit "invalid number") i
  | Some token =>
      let i := (length token + i)%nat in
      let rest := drop (length token) s in
      let next := head rest in
      if bool_decide (next ∈ [Some 46; Some 101; Some 69])
      then Failed (lit "fractional and exponent numbers are not allowed") i
      else if match next with
              | Some c => negb (is_white c || (c =? 44) || (c =? 93) || (c =? 125))
              | None => false
              end
      then Failed (lit "invalid number suffix") i
      else if isSafeInteger (big_int token) then Parsed (ANumber (big_int token)) i rest
      else Failed (lit "integer is outside the Artifact JSON safe range") i
  end.

(** [#value], the loop of [#object] at a key with the entries read so far, and
    the loop of [#array] at an item.  The entries of an object are kept as they were read; a
    JavaScript object would enumerate keys that are integers first, which is the same object in
    another order. *)
Fixpoint value (fuel : nat) : parser ArtifactJson :=
  match fuel with
  | O => fun _ _ => OutOfFuel
  | S fuel =>
      let! character := peek in
      match character with
      | None => fail (lit "expected a JSON value")
      | Some c =>
          if c =? 123 then
            let! _ := skip 1 in let! _ := whitespace in
            let! next := peek in
            if bool_decide (next = Some 125) then let! _ := skip 1 in ret (AObject [])
            else members fuel []
          else if c =? 91 then
            let! _ := skip 1 in let! _ := whitespace in
            let! next := peek in
            if bool_decide (next = Some 93) then let! _ := skip 1 in ret (AArray [])
            else elements fuel []
          else if c =? 34 then let! s := string_ in ret (AString s)
          else if c =? 116 then literal "true" (ABool true)
          else if c =? 102 then literal "false" (ABool false)
          else if c =? 110 then literal "null" ANull
          else if (c =? 45) || is_digit c then integer
          else fail (lit "expected a JSON value")
      end
  end
with members (fuel : nat) (result : list (text * ArtifactJson)) : parser ArtifactJson :=
  match fuel with
  | O => fun _ _ => OutOfFuel
  | S fuel =>
      let! quote := peek in
      if negb (bool_decide (quote = Some 34)) then fail (lit "object key must be a string") else
      let! key := string_ in
      if includes result.*1 key then fail (lit "duplicate object key " ++ stringify_text key) else
      let! _ := whitespace in
      let! _ := expect 58 ":" in
      let! _ := whitespace in
      let! item := value fuel in
      let! _ := whitespace in
      let! separator := peek in
      let! _ := skip 1 in
      if bool_decide (separator = Some 125) then ret (AObject (result ++ [(key, item)]))
      else if negb (bool_decide (separator = Some 44)) then fail (lit "expected ',' or '}'")
      else let! _ := whitespace in members fuel (result ++ [(key, item)])
  end
with elements (fuel : nat) (result : list ArtifactJson) : parser ArtifactJson :=
  match fuel with
  | O => fun _ _ => OutOfFuel
  | S fuel =>
      let! item := value fuel in
      let! _ := whitespace in
      let! separator := peek in
      let! _ := skip 1 in
      if bool_decide (separator = Some 93) then ret (AArray (result ++ [item]))
      else if negb (bool_decide (separator = Some 44)) then fail (lit "expected ',' or ']'")
      else let! _ := whitespace in elements fuel (result ++ [item])
  end.

(** Every call but the one of an item reads a character first. *)
Definition parse_fuel (source : text) : nat := S (2 * length source).

Definition parse (source : text) : parsed ArtifactJson :=
  (let! _ := whitespace in
   let! result := value (parse_fuel source) in
   let! _ := whitespace in
   let! trailing := peek in
   if bool_decide (trailing = None) then ret result else fail (lit "trailing content")) 0%nat source.

(** [throw new ArtifactJsonError(`${message} at character ${index}`)]; [None]
    only if the fuel was not enough. *)
Inductive read_json := Read (value : ArtifactJson) | ArtifactJsonError (message : text).
Definition parseArtifactJson (source : text) (requireObject : bool) : option read_json :=
  match parse source with
  | Parsed value _ _ =>
      Some (if requireObject && match value with AObject _ => false | _ => true end
            then ArtifactJsonError (lit "a top-level protocol or schema document must be an object")
            else Read value)
  | Failed message index => Some (ArtifactJsonError (message ++ lit (" at character " +:+ pretty index)))
  | OutOfFuel => None
  end.
