(* ===== verification/CanonicalJson.v ===== *)
(** * What canonical JSON guarantees
    The theory of [Canonical.v]: the parser always ends, reads back every
    canonical text, and returns only what the printer accepts; so two values have
    one canonical text exactly when they are equal up to the order of entries. *)

From S2P Require Import Prelude Canonical.

Open Scope stdpp_scope.
Open Scope js_scope.
Local Open Scope Z_scope.

(** ** Values *)

Definition json_ind (P : ArtifactJson -> Prop)
    (Hnull : P ANull) (Hbool : forall b, P (ABool b)) (Hnumber : forall n, P (ANumber n))
    (Hfraction : forall s, P (AFraction s))
    (Hstring : forall s, P (AString s))
    (Harray : forall items, Forall P items -> P (AArray items))
    (Hobject : forall entries, Forall (fun e => P e.2) entries -> P (AObject entries)) :
    forall v, P v :=
  fix go v :=
    match v with
    | ANull => Hnull | ABool b => Hbool b | ANumber n => Hnumber n | AFraction s => Hfraction s | AString s => Hstring s
    | AArray items =>
        Harray items (list_rect (Forall P) (@List.Forall_nil _ P)
          (fun x l Hl => @List.Forall_cons _ P x l (go x) Hl) items)
    | AObject entries =>
        Hobject entries (list_rect (Forall (fun e => P e.2)) (@List.Forall_nil _ _)
          (fun e l Hl => @List.Forall_cons _ (fun e => P e.2) e l (go e.2) Hl) entries)
    end.

Definition unit_ok (c : Z) : bool := (0 <=? c) && (c <=? 65535).
Definition text_ok (s : text) : bool := forallb unit_ok s.

(** The values that have a canonical text: numbers are safe, texts hold code
    units, and no object has a key twice. *)
Fixpoint json_ok (v : ArtifactJson) : bool :=
  match v with
  | ANull | ABool _ => true
  | ANumber n => isSafeInteger n
  | AFraction _ => false
  | AString s => text_ok s
  | AArray items => forallb json_ok items
  | AObject entries =>
      bool_decide (NoDup entries.*1) && forallb (fun e => text_ok e.1 && json_ok e.2) entries
  end.

(** The value with the entries of every object in canonical order. *)
Fixpoint sort_json (v : ArtifactJson) : ArtifactJson :=
  match v with
  | AArray items => AArray (sort_json <$> items)
  | AObject entries => AObject (js_sort by_key ((fun e => (e.1, sort_json e.2)) <$> entries))
  | _ => v
  end.

(** ** The parser ends *)

Definition within {A} (k : nat) (r : parsed A) (n : nat) : Prop :=
  match r with
  | Parsed _ _ rest => (length rest + k <= n)%nat
  | Failed _ _ => True
  | OutOfFuel => False
  end.

Lemma within_bind {A B} (m : parser A) (k : A -> parser B) k1 k2 i s n :
  within k1 (m i s) n ->
  (forall a j rest, m i s = Parsed a j rest -> (length rest + k1 <= n)%nat -> within k2 (k a j rest) n) ->
  within k2 (bind m k i s) n.
Proof. unfold bind. destruct (m i s) eqn:E; cbn; auto. Qed.

Lemma within_weaken {A} k k' (r : parsed A) n n' :
  (k' + n <= k + n')%nat -> within k r n -> within k' r n'.
Proof. destruct r; cbn; [lia|done|done]. Qed.

Lemma within_whitespace i s : within 0 (whitespace i s) (length s).
Proof.
  revert i. induction s as [|c s IH]; intros i; cbn; [lia|]. destruct (is_white c); [|cbn; lia].
  eapply within_weaken; [|apply IH]. lia.
Qed.

Lemma within_skip n i s : within 0 (skip n i s) (length s).
Proof. cbn. rewrite length_drop. lia. Qed.

Lemma within_expect c name i s : within 0 (expect c name i s) (length s).
Proof. destruct s as [|d s]; cbn; [done|]. case_match; [cbn; rewrite drop_0; lia|done]. Qed.

Lemma within_string_loop escaped body i s : within 0 (string_loop escaped body i s) (length s).
Proof.
  revert escaped body i. induction s as [|c s IH]; intros escaped body i; cbn; [done|].
  case_match; [case_match; cbn; [lia|done]|]. case_match; [done|].
  eapply within_weaken; [|apply IH]. lia.
Qed.

Lemma within_string i s : within 0 (string_ i s) (length s).
Proof.
  unfold string_. eapply within_weaken; [|apply within_string_loop]. rewrite length_drop. lia.
Qed.

Lemma length_lit s : length (lit s) = String.length s.
Proof. induction s; cbn; auto. Qed.

Lemma within_literal {A} token (v : A) i s :
  (1 <= String.length token)%nat -> within 1 (literal token v i s) (length s).
Proof.
  intros Ht. unfold literal. case_bool_decide as Hp; [|done]. apply prefix_length in Hp.
  rewrite length_lit in Hp. cbn. rewrite length_drop. lia.
Qed.

Lemma integer_token_length s token :
  integer_token s = Some token -> (1 <= length token <= length s)%nat.
Proof.
  assert (forall s, (length (take_digits s) <= length s)%nat) as Hd.
  { clear. induction s as [|c s IH]; cbn; [lia|]. destruct (is_digit c); cbn; lia. }
  unfold integer_token. destruct s as [|c s]; [done|].
  destruct (c =? 45); [destruct s as [|d s]; [done|]|];
    (case_match; [intros [= <-]; cbn; lia|]); (case_match; [|done]); intros [= <-]; cbn;
    specialize (Hd s); lia.
Qed.

Lemma within_integer i s : within 1 (integer i s) (length s).
Proof.
  unfold integer. destruct (integer_token s) as [token|] eqn:E; [|done].
  apply integer_token_length in E. repeat (case_match; try done).
  all: cbn; rewrite length_drop; lia.
Qed.

Ltac split_if := match goal with |- context [if ?b then _ else _] => destruct b end.

Lemma calls_end fuel :
  (forall i s, (2 * length s < fuel)%nat -> within 1 (value fuel i s) (length s)) /\
  (forall result i s, (2 * length s + 1 < fuel)%nat -> within 0 (members fuel result i s) (length s)) /\
  (forall result i s, (2 * length s + 1 < fuel)%nat -> within 0 (elements fuel result i s) (length s)).
Proof.
  induction fuel as [|fuel (IHv & IHm & IHe)]; [split_and!; intros; lia|]. split_and!.
  - intros i s Hs. cbn [value]. destruct s as [|c s]; [done|]. unfold bind at 1. cbn [peek head].
    cbn in Hs.
    assert (forall (k : unit -> parser ArtifactJson),
      (forall u j rest, (length rest <= length s)%nat -> within 0 (k u j rest) (length rest)) ->
      within 1 ((let! _ := skip 1 in let! u := whitespace in k u) i (c :: s)) (length (c :: s))) as Hopen.
    { intros k Hk. unfold bind at 1. cbn [skip drop]. eapply within_bind.
      - eapply (within_weaken 0 1); [|apply within_whitespace]. rewrite drop_0. cbn. lia.
      - intros u j rest _ Hl. cbn in Hl. eapply within_weaken; [|apply Hk]; cbn; lia. }
    destruct (c =? 123).
    { apply Hopen. intros u j rest Hl. unfold bind at 1. cbn [peek].
      split_if; [cbn; rewrite length_drop; lia|]. apply IHm. lia. }
    destruct (c =? 91).
    { apply Hopen. intros u j rest Hl. unfold bind at 1. cbn [peek].
      split_if; [cbn; rewrite length_drop; lia|]. apply IHe. lia. }
    destruct (c =? 34).
    { unfold bind, string_. cbn [drop]. pose proof (within_string_loop false [] (S i) s) as H.
      rewrite drop_0. destruct (string_loop _ _ _ _); cbn in *; [lia|done|done]. }
    destruct (c =? 116); [by apply within_literal; cbn; lia|].
    destruct (c =? 102); [by apply within_literal; cbn; lia|].
    destruct (c =? 110); [by apply within_literal; cbn; lia|].
    destruct ((c =? 45) || is_digit c); [apply within_integer|done].
  - intros result i s Hs. cbn [members]. unfold bind at 1. cbn [peek].
    split_if; [done|]. eapply within_bind; [apply within_string|]. intros key j rest _ Hl.
    split_if; [done|].
    eapply (within_bind _ _ 0); [eapply within_weaken; [|apply within_whitespace]; lia|]. intros _ j2 rest2 _ Hl2.
    eapply (within_bind _ _ 0); [eapply within_weaken; [|apply within_expect]; lia|]. intros _ j3 rest3 _ Hl3.
    eapply (within_bind _ _ 0); [eapply within_weaken; [|apply within_whitespace]; lia|]. intros _ j4 rest4 _ Hl4.
    eapply (within_bind _ _ 1); [eapply within_weaken; [|apply IHv]; lia|]. intros item j5 rest5 _ Hl5.
    eapply (within_bind _ _ 1); [eapply within_weaken; [|apply within_whitespace]; lia|]. intros _ j6 rest6 _ Hl6.
    unfold bind at 1. cbn [peek].
    eapply (within_bind _ _ 1); [eapply within_weaken; [|apply within_skip]; lia|]. intros _ j7 rest7 _ Hl7.
    split_if; [cbn; lia|]. split_if; [done|].
    eapply (within_bind _ _ 1); [eapply within_weaken; [|apply within_whitespace]; lia|]. intros _ j8 rest8 _ Hl8.
    eapply within_weaken; [|apply IHm]; lia.
  - intros result i s Hs. cbn [elements].
    eapply (within_bind _ _ 1); [eapply within_weaken; [|apply IHv]; lia|]. intros item j5 rest5 _ Hl5.
    eapply (within_bind _ _ 1); [eapply within_weaken; [|apply within_whitespace]; lia|]. intros _ j6 rest6 _ Hl6.
    unfold bind at 1. cbn [peek].
    eapply (within_bind _ _ 1); [eapply within_weaken; [|apply within_skip]; lia|]. intros _ j7 rest7 _ Hl7.
    split_if; [cbn; lia|]. split_if; [done|].
    eapply (within_bind _ _ 1); [eapply within_weaken; [|apply within_whitespace]; lia|]. intros _ j8 rest8 _ Hl8.
    eapply within_weaken; [|apply IHe]; lia.
Qed.

Lemma parse_within source : within 0 (parse source) (length source).
Proof.
  unfold parse. eapply (within_bind _ _ 0); [apply within_whitespace|]. intros _ i s _ Hs.
  eapply (within_bind _ _ 1).
  { eapply within_weaken; [|apply (proj1 (calls_end (parse_fuel source)))]; [lia|]. unfold parse_fuel. lia. }
  intros v j rest _ Hr. eapply (within_bind _ _ 1); [eapply within_weaken; [|apply within_whitespace]; lia|].
  intros _ j' rest' _ Hr'. unfold bind. cbn [peek]. split_if; cbn; [lia|done].
Qed.

(** ** Texts are read back *)

Definition point_ok (p : Z) : Prop := 0 <= p <= 1114111.

Lemma code_points_cons c d s :
  code_points (c :: d :: s) =
    if is_lead c && is_trail d then (65536 + (c - 55296) * 1024 + (d - 56320)) :: code_points s
    else c :: code_points (d :: s).
Proof. reflexivity. Qed.

Lemma code_points_units s : text_ok s = true -> code_points s ≫= code_units = s.
Proof.
  assert (forall n (s : text), (length s <= n)%nat -> text_ok s = true -> code_points s ≫= code_units = s) as H;
    [|by apply (H (length s))].
  clear s. induction n as [|n IH]; intros [|c s] Hn; cbn in Hn; try done; [lia|].
  cbn [text_ok forallb]. intros [Hc Hs]%andb_prop. unfold unit_ok in Hc. bools.
  assert (code_units c = [c]) as Hu by (unfold code_units; destruct (Z.ltb_spec c 65536); [done|lia]).
  destruct s as [|d s]; [cbn; by rewrite Hu|]. rewrite code_points_cons.
  destruct (is_lead c && is_trail d) eqn:E.
  - unfold is_lead, is_trail in E. bools. cbn in Hs. apply andb_prop in Hs as [_ Hs].
    rewrite bind_cons, IH by (done || cbn in Hn; lia). unfold code_units.
    destruct (Z.ltb_spec (65536 + (c - 55296) * 1024 + (d - 56320)) 65536) as [Hl|_]; [lia|].
    replace (65536 + (c - 55296) * 1024 + (d - 56320) - 65536) with ((d - 56320) + (c - 55296) * 1024) by lia.
    rewrite Z.div_add, Z.mod_add, Z.div_small, Z.mod_small by lia. cbn. do 2 f_equal; lia.
  - rewrite bind_cons, Hu, IH; [done|cbn in *; lia|done].
Qed.

Lemma code_points_ok s : text_ok s = true -> Forall point_ok (code_points s).
Proof.
  assert (forall n (s : text), (length s <= n)%nat -> text_ok s = true -> Forall point_ok (code_points s)) as H;
    [|by apply (H (length s))].
  clear s. induction n as [|n IH]; intros [|c s] Hn; cbn in Hn; try (constructor; fail); [lia|].
  cbn [text_ok forallb]. intros [Hc Hs]%andb_prop. unfold unit_ok in Hc. bools.
  assert (point_ok c) by (unfold point_ok; lia).
  destruct s as [|d s]; [by constructor|]. rewrite code_points_cons.
  destruct (is_lead c && is_trail d) eqn:E.
  - unfold is_lead, is_trail in E. bools. cbn in Hs. apply andb_prop in Hs as [_ Hs].
    constructor; [unfold point_ok; lia|]. apply IH; [cbn in Hn; lia|done].
  - constructor; [done|]. apply IH; [cbn in *; lia|done].
Qed.

(** The characters of an escape leave the loop of [#string] running. *)
Definition plain (c : Z) : Prop := 32 <= c /\ c <> 34 /\ c <> 92.

Lemma string_loop_plain l body i rest :
  Forall plain l ->
  string_loop false body i (l ++ rest) = string_loop false (body ++ l) (length l + i) rest.
Proof.
  intros Hl. revert body i. induction Hl as [|c l (H1 & H2 & H3) Hl IH]; intros body i.
  - by rewrite app_nil_r.
  - cbn. destruct (Z.eqb_spec c 34), (Z.ltb_spec c 32), (Z.eqb_spec c 92); try lia. cbn.
    rewrite IH, <- app_assoc. cbn. by rewrite Nat.add_succ_r.
Qed.

Lemma string_loop_escape e l body i rest :
  Forall plain l ->
  string_loop false body i (92 :: e :: l ++ rest) =
  string_loop false (body ++ 92 :: e :: l) (S (S (length l)) + i) rest.
Proof.
  intros Hl. cbn. rewrite string_loop_plain by done. rewrite <- !app_assoc. cbn.
  f_equal. lia.
Qed.

Lemma hex_unit_plain n : 0 <= n < 16 -> plain (hex_unit n).
Proof. unfold hex_unit, plain. destruct (Z.ltb_spec n 10); lia. Qed.

Lemma hex_value_unit n : 0 <= n < 16 -> hex_value (hex_unit n) = Some n.
Proof.
  intros Hn. unfold hex_unit, hex_value. destruct (Z.ltb_spec n 10).
  - destruct (Z.leb_spec 48 (48 + n)), (Z.leb_spec (48 + n) 57); try lia. cbn. f_equal. lia.
  - destruct (Z.leb_spec 48 (87 + n)), (Z.leb_spec (87 + n) 57); try lia; cbn;
      destruct (Z.leb_spec 97 (87 + n)), (Z.leb_spec (87 + n) 102); try lia; cbn; f_equal; lia.
Qed.

Lemma hex_digits p : 0 <= p <= 65535 ->
  p / 4096 * 4096 + p / 256 mod 16 * 256 + p / 16 mod 16 * 16 + p mod 16 = p.
Proof.
  intros Hp. pose proof (Z.div_mod p 16). pose proof (Z.div_mod (p / 16) 16). pose proof (Z.div_mod (p / 256) 16).
  rewrite (Z.div_div p 16 16) in * by lia. change (16 * 16) with 256 in *.
  rewrite (Z.div_div p 256 16) in * by lia. change (256 * 16) with 4096 in *. lia.
Qed.

Lemma hex_digit_bounds p : 0 <= p <= 65535 ->
  0 <= p / 4096 < 16 /\ 0 <= p / 256 mod 16 < 16 /\ 0 <= p / 16 mod 16 < 16 /\ 0 <= p mod 16 < 16.
Proof.
  intros Hp. split; [|split_and!; apply Z.mod_pos_bound; lia].
  split; [apply Z.div_pos; lia|apply Z.div_lt_upper_bound; lia].
Qed.

(** An escaped code point is passed over by the loop, and read back. *)
Record reads_back (e : text) (p : Z) : Prop := {
  rb_loop body i rest :
    string_loop false body i (e ++ rest) = string_loop false (body ++ e) (length e + i) rest;
  rb_unescape rest : unescape (e ++ rest) = app (code_units p) <$> unescape rest
}.

Lemma reads_short e p c :
  code_units p = [c] -> plain e \/ e = 34 \/ e = 92 ->
  (forall rest, unescape (92 :: e :: rest) = cons c <$> unescape rest) ->
  reads_back [92; e] p.
Proof.
  intros Hp He Hu. split.
  - intros body i rest. cbn [app length Nat.add]. destruct He as [He|He].
    + apply (string_loop_escape e [] body i rest). constructor.
    + destruct He as [-> | ->]; cbn; by rewrite <- app_assoc.
  - intros rest. rewrite Hp. apply Hu.
Qed.

Lemma reads_plain l p :
  code_units p = l -> Forall plain l -> reads_back l p.
Proof.
  intros <- Hl. split; [intros; by apply string_loop_plain|].
  induction Hl as [|c l (H1 & H2 & H3) Hl IH]; intros rest; cbn.
  - by destruct (unescape rest).
  - destruct (Z.eqb_spec c 92), (Z.ltb_spec c 32); try lia. rewrite IH. by destruct (unescape rest).
Qed.

Lemma reads_hex p : 0 <= p <= 65535 -> reads_back (hex4 p) p.
Proof.
  intros Hp. destruct (hex_digit_bounds p Hp) as (B1 & B2 & B3 & B4). split.
  - intros body i rest. unfold hex4. apply (string_loop_escape 117 _ body i rest).
    repeat constructor; by apply hex_unit_plain.
  - intros rest. unfold hex4. cbn -[hex_unit].
    rewrite !hex_value_unit by done. cbn. rewrite hex_digits by done.
    unfold code_units. destruct (Z.ltb_spec p 65536); [|lia]. by destruct (unescape rest).
Qed.

Lemma escape_point_reads p : point_ok p -> reads_back (escape_point p) p.
Proof.
  unfold point_ok. intros Hp. unfold escape_point.
  destruct (Z.eqb_spec p 34) as [->|N1]; [by apply (reads_short 34 34 34); auto|].
  destruct (Z.eqb_spec p 92) as [->|N2]; [by apply (reads_short 92 92 92); auto|].
  destruct (Z.eqb_spec p 8) as [->|]; [apply (reads_short 98 8 8); try done; left; by unfold plain|].
  destruct (Z.eqb_spec p 9) as [->|]; [apply (reads_short 116 9 9); try done; left; by unfold plain|].
  destruct (Z.eqb_spec p 10) as [->|]; [apply (reads_short 110 10 10); try done; left; by unfold plain|].
  destruct (Z.eqb_spec p 12) as [->|]; [apply (reads_short 102 12 12); try done; left; by unfold plain|].
  destruct (Z.eqb_spec p 13) as [->|]; [apply (reads_short 114 13 13); try done; left; by unfold plain|].
  destruct ((p <? 32) || is_surrogate p) eqn:E.
  - apply reads_hex. apply orb_prop in E as [E%Z.ltb_lt|E]; [lia|].
    unfold is_surrogate, is_lead, is_trail in E. apply orb_prop in E as [E|E]; bools; lia.
  - apply orb_false_elim in E as [E%Z.ltb_ge _]. apply reads_plain; [done|].
    unfold code_units. destruct (Z.ltb_spec p 65536); [by repeat constructor|].
    assert (0 <= (p - 65536) / 1024) by (apply Z.div_pos; lia).
    pose proof (Z.mod_pos_bound (p - 65536) 1024). repeat constructor; lia.
Qed.

Lemma string_reads s i rest :
  text_ok s = true ->
  string_ i (stringify_text s ++ rest) = Parsed s (length (stringify_text s) + i) rest.
Proof.
  intros Hs. pose proof (code_points_ok s Hs) as Hp. unfold string_, stringify_text.
  cbn [app drop]. rewrite drop_0, <- app_assoc. cbn [app].
  set (e := code_points s ≫= escape_point).
  assert (unescape e = Some s) as Hu.
  { rewrite <- (code_points_units s Hs) at 1. unfold e. clear -Hp.
    induction Hp as [|p l Hp Hl IH]; [done|]. rewrite !bind_cons.
    destruct (escape_point_reads p Hp) as [_ ->]. by rewrite IH. }
  assert (forall body j, string_loop false body j (e ++ 34 :: rest) =
            string_loop false (body ++ e) (length e + j) (34 :: rest)) as Hloop.
  { unfold e. clear -Hp. induction Hp as [|p l Hp Hl IH]; intros body j; [by rewrite app_nil_r|].
    rewrite bind_cons, <- app_assoc. destruct (escape_point_reads p Hp) as [-> _].
    rewrite IH, <- app_assoc, length_app. f_equal. lia. }
  rewrite Hloop. cbn. rewrite Hu, length_app. cbn. f_equal. lia.
Qed.

(** ** Integers are read back *)

Lemma pretty_N_char_digit n : (n < 10)%N -> Z.of_nat (nat_of_ascii (pretty_N_char n)) = 48 + Z.of_N n.
Proof.
  intros Hn. destruct n as [|[[[[]|[]|]|[[]|[]|]|]|[[[]|[]|]|[[]|[]|]|]|]]; try reflexivity; lia.
Qed.

Definition digit (c : Z) : Prop := 48 <= c <= 57.

(** The digits of a number: none is the first of [0]. *)
Lemma pretty_N_go_digits x s : (0 < x)%N ->
  exists c l, lit (pretty_N_go x s) = c :: l ++ lit s /\ 49 <= c <= 57 /\ Forall digit l /\
    digits_number (c :: l) = Z.of_N x.
Proof.
  revert s. induction (N.lt_wf_0 x) as [x _ IH]. intros s Hx.
  rewrite pretty_N_go_step by done.
  assert (x mod 10 < 10)%N as Hm by (apply N.mod_lt; lia).
  pose proof (pretty_N_char_digit _ Hm) as Hc. pose proof (N.div_mod' x 10) as Hdm.
  set (m := (x mod 10)%N) in *. set (q := (x / 10)%N) in *. clearbody m q.
  destruct (decide (q = 0)%N) as [->|Hz].
  - rewrite pretty_N_go_0. cbn [lit]. rewrite Hc. exists (48 + Z.of_N m), []. cbn.
    split_and!; [done|lia|lia|constructor|lia].
  - destruct (IH q) with (s := String (pretty_N_char m) s) as (c & l & E & H1 & H2 & H3); [lia|lia|].
    exists c, (l ++ [48 + Z.of_N m]). rewrite E. cbn [lit]. rewrite Hc, <- app_assoc.
    assert (digit (48 + Z.of_N m)) by (unfold digit; lia).
    split_and!; [done|lia|lia|by apply Forall_app; split; [done|constructor]|].
    unfold digits_number in *. rewrite app_comm_cons, foldl_app, H3. cbn. lia.
Qed.

Lemma take_digits_all l rest :
  Forall digit l -> match rest with c :: _ => is_digit c = false | [] => True end ->
  take_digits (l ++ rest) = l.
Proof.
  intros Hl Hr. induction Hl as [|c l Hc Hl IH]; cbn.
  - destruct rest; cbn; [done|]. by rewrite Hr.
  - unfold is_digit, digit in *. destruct (Z.leb_spec 48 c), (Z.leb_spec c 57); try lia. cbn. by rewrite IH.
Qed.

Lemma digits_read c l rest :
  49 <= c <= 57 -> Forall digit l ->
  match rest with d :: _ => is_digit d = false | [] => True end ->
  integer_token ((c :: l) ++ rest) = Some (c :: l) /\
  integer_token ((45 :: c :: l) ++ rest) = Some (45 :: c :: l).
Proof.
  intros Hc Hl Hr. unfold integer_token. cbn [app].
  destruct (Z.eqb_spec c 45); [lia|]. cbn.
  destruct (Z.eqb_spec c 48); [lia|].
  assert (is_digit c = true) as ->.
  { unfold is_digit. destruct (Z.leb_spec 48 c), (Z.leb_spec c 57); (done || lia). }
  by rewrite (take_digits_all l rest Hl Hr).
Qed.

Lemma decimal_reads n rest :
  match rest with c :: _ => is_digit c = false | [] => True end ->
  integer_token (decimal n ++ rest) = Some (decimal n) /\ big_int (decimal n) = n.
Proof.
  intros Hr. unfold decimal. destruct n as [|p|p]; [by split| |].
  - destruct (pretty_N_go_digits (N.pos p) "") as (c & l & E & H1 & H2 & H3); [lia|].
    change (lit (pretty (Z.pos p))) with (lit (pretty_N_go (N.pos p) "")). rewrite E, app_nil_r.
    split; [by apply digits_read|]. unfold big_int. destruct (Z.eqb_spec c 45); [lia|]. exact H3.
  - destruct (pretty_N_go_digits (N.pos p) "") as (c & l & E & H1 & H2 & H3); [lia|].
    change (lit (pretty (Z.neg p))) with (45 :: lit (pretty_N_go (N.pos p) "")). rewrite E, app_nil_r.
    split; [by apply digits_read|].
    change (big_int (45 :: c :: l)) with (- digits_number (c :: l)). rewrite H3. lia.
Qed.

(** What may follow a value inside another: nothing, a comma or a bracket. *)
Definition closes (rest : text) : Prop :=
  match rest with [] => True | c :: _ => c = 44 \/ c = 93 \/ c = 125 end.

Lemma closes_white rest i : closes rest -> whitespace i rest = Parsed tt i rest.
Proof. destruct rest as [|c rest]; [done|]. by intros [-> |[-> | ->]]. Qed.

Lemma integer_reads n i rest :
  isSafeInteger n = true -> closes rest ->
  integer i (decimal n ++ rest) = Parsed (ANumber n) (length (decimal n) + i) rest.
Proof.
  intros Hn Hr. unfold integer.
  destruct (decimal_reads n rest) as [-> ->].
  { destruct rest as [|c rest]; [done|]. by destruct Hr as [-> |[-> | ->]]. }
  rewrite drop_app_length. destruct rest as [|c rest]; cbn [head].
  - rewrite bool_decide_false by set_solver. by rewrite Hn.
  - rewrite bool_decide_false by (destruct Hr as [-> |[-> | ->]]; set_solver).
    destruct Hr as [-> |[-> | ->]]; by rewrite Hn.
Qed.

(** ** Values are read back *)

(** What a text must be to stand for a value wherever one is expected. *)
Record stands_for (t : text) (v : ArtifactJson) : Prop := {
  sf_head : exists c r, t = c :: r /\ is_white c = false /\ c <> 93 /\ c <> 125;
  sf_reads fuel i rest : (2 * length t < fuel)%nat -> closes rest ->
    value fuel i (t ++ rest) = Parsed v (length t + i) rest
}.

Lemma stands_for_scalar t v c r :
  t = c :: r -> is_white c = false -> c <> 93 -> c <> 125 ->
  (forall fuel i rest, closes rest -> value (S fuel) i (t ++ rest) = Parsed v (length t + i) rest) ->
  stands_for t v.
Proof.
  intros -> H1 H2 H3 H4. split; [by exists c, r|]. intros [|fuel] i rest Hf Hr; [lia|]. by apply H4.
Qed.

Lemma null_stands : stands_for (lit "null") ANull.
Proof. by eapply stands_for_scalar. Qed.

Lemma bool_stands (b : bool) : stands_for (lit (if b then "true" else "false")) (ABool b).
Proof. destruct b; by eapply stands_for_scalar. Qed.

Lemma decimal_head n : exists c r, decimal n = c :: r /\ ((c =? 45) || is_digit c = true).
Proof.
  assert (forall c, 49 <= c <= 57 -> is_digit c = true) as Hd.
  { intros c Hc. unfold is_digit. destruct (Z.leb_spec 48 c), (Z.leb_spec c 57); (done || lia). }
  unfold decimal. destruct n as [|p|p]; [by eexists _, _|..];
    destruct (pretty_N_go_digits (N.pos p) "") as (c & l & E & H1 & _); try lia.
  - change (lit (pretty (Z.pos p))) with (lit (pretty_N_go (N.pos p) "")). rewrite E.
    eexists _, _. split; [done|]. by rewrite Hd, orb_true_r.
  - by eexists _, _.
Qed.

Lemma number_stands n : isSafeInteger n = true -> stands_for (decimal n) (ANumber n).
Proof.
  intros Hn. destruct (decimal_head n) as (c & r & E & Hc).
  assert (45 <= c <= 57) as Hb.
  { unfold is_digit in Hc. apply orb_prop in Hc as [Hc|Hc]; bools; lia. }
  eapply stands_for_scalar; [exact E| |lia|lia|].
  - unfold is_white. repeat (match goal with |- context [?a <=? ?b] => destruct (Z.leb_spec a b) | |- context [?a =? ?b] => destruct (Z.eqb_spec a b) end; try lia); done.
  - intros fuel i rest Hr. rewrite <- (integer_reads n i rest Hn Hr), E. cbn [value]. unfold bind at 1. cbn [peek head app].
    destruct (Z.eqb_spec c 123), (Z.eqb_spec c 91), (Z.eqb_spec c 34), (Z.eqb_spec c 116),
      (Z.eqb_spec c 102), (Z.eqb_spec c 110); try lia. by rewrite Hc.
Qed.

Lemma string_stands s : text_ok s = true -> stands_for (stringify_text s) (AString s).
Proof.
  intros Hs. eapply (stands_for_scalar _ _ 34); [reflexivity|done|done|done|].
  intros fuel i rest Hr. cbn [value]. unfold bind at 1.
  change (peek i (stringify_text s ++ rest)) with (Parsed (Some 34) i (stringify_text s ++ rest)).
  cbn [Z.eqb Pos.eqb]. unfold bind. by rewrite string_reads.
Qed.

Lemma whitespace_stop c i rest : is_white c = false -> whitespace i (c :: rest) = Parsed tt i (c :: rest).
Proof. cbn. by intros ->. Qed.

Lemma stands_whitespace t v i rest : stands_for t v -> whitespace i (t ++ rest) = Parsed tt i (t ++ rest).
Proof. intros [(c & r & -> & Hw & _) _]. by apply whitespace_stop. Qed.

(** *** Arrays *)

(** The comma before every item but the first. *)
Definition more (texts : list text) : text := texts ≫= fun y => 44 :: y.

Lemma elements_read texts vs t v acc fuel i rest :
  Forall2 stands_for texts vs -> stands_for t v ->
  (2 * length (t ++ more texts) + 1 < fuel)%nat ->
  elements fuel acc i ((t ++ more texts) ++ 93 :: rest) =
    Parsed (AArray (acc ++ v :: vs)) (S (length (t ++ more texts)) + i) rest.
Proof.
  intros Hall. revert t v acc fuel i.
  induction Hall as [|t' v' texts vs Ht' Hall IH]; intros t v acc fuel i Ht Hf;
    (destruct fuel as [|fuel]; [lia|]); rewrite length_app in Hf; cbn [elements]; unfold bind at 1.
  - unfold more in *. cbn [mbind list_bind] in *. rewrite app_nil_r in *.
    rewrite (sf_reads t v Ht) by (cbn in *; (lia || auto)).
    unfold bind, peek, skip, ret, whitespace. cbn. rewrite drop_0. done.
  - unfold more in *. rewrite bind_cons, !length_app in Hf. cbn in Hf.
    rewrite bind_cons, <- !app_assoc, (sf_reads t v Ht) by (cbn in *; (lia || auto)). cbn [app].
    unfold bind at 1. rewrite whitespace_stop by done. unfold bind at 1. cbn [peek head]. unfold bind at 1.
    cbn [skip]. rewrite (bool_decide_false (Some 44 = Some 93)), (bool_decide_true (Some 44 = Some 44)) by done.
    cbn [negb drop]. unfold bind at 1. rewrite drop_0, (stands_whitespace t' v' _ _ Ht').
    rewrite app_assoc, (IH t' v') by (done || rewrite ?length_app in *; lia).
    rewrite <- app_assoc. cbn. rewrite !length_app. cbn. rewrite length_app. f_equal. lia.
Qed.

Lemma array_stands texts vs :
  Forall2 stands_for texts vs -> stands_for ([91] ++ comma_joined texts ++ [93]) (AArray vs).
Proof.
  intros Hall. split; [by exists 91, (comma_joined texts ++ [93])|].
  intros [|fuel] i rest Hf Hr; [lia|]. cbn [app value]. unfold bind at 1. cbn [peek head Z.eqb Pos.eqb].
  unfold bind at 1. cbn [skip drop]. unfold bind at 1. rewrite drop_0.
  destruct Hall as [|t v texts vs Ht Hall]; [by cbn; rewrite ?drop_0|].
  cbn [comma_joined] in *. fold (more texts) in *. cbn [app length] in Hf. rewrite !length_app in Hf. cbn in Hf.
  pose proof (sf_head t v Ht) as (c & r & Ec & Hw & Hn & _).
  rewrite <- (app_assoc (t ++ more texts)). cbn [app].
  rewrite <- app_assoc, (stands_whitespace t v _ _ Ht). unfold bind at 1. cbn [peek].
  rewrite bool_decide_false by (rewrite Ec; cbn; congruence).
  rewrite app_assoc, (elements_read texts vs t v []) by (done || rewrite ?length_app; lia).
  f_equal. cbn. rewrite !length_app. cbn. lia.
Qed.

(** *** Objects *)

Definition entry_text (key t : text) : text := stringify_text key ++ [58] ++ t.

(** The text of an entry stands for it. *)
Definition entry_stands (e : text * text) (x : text * ArtifactJson) : Prop :=
  e.1 = x.1 /\ text_ok x.1 = true /\ stands_for e.2 x.2.

Lemma members_step fuel acc key t v i rest :
  text_ok key = true -> key ∉ acc.*1 -> stands_for t v -> (2 * length t < fuel)%nat -> closes rest -> rest <> [] ->
  members (S fuel) acc i (entry_text key t ++ rest) =
    (let! separator := peek in
     let! _ := skip 1 in
     if bool_decide (separator = Some 125) then ret (AObject (acc ++ [(key, v)]))
     else if negb (bool_decide (separator = Some 44)) then fail (lit "expected ',' or '}'")
     else let! _ := whitespace in members fuel (acc ++ [(key, v)]))
      (length (entry_text key t) + i)%nat rest.
Proof.
  intros Hk Hn Ht Hf Hr Hne. cbn [members]. unfold bind at 1.
  change (peek i (entry_text key t ++ rest)) with (Parsed (Some 34) i (entry_text key t ++ rest)).
  cbv beta iota. rewrite bool_decide_true by done. cbn [negb]. unfold entry_text. rewrite <- !app_assoc.
  unfold bind at 1. rewrite string_reads by done. unfold includes. rewrite bool_decide_false by done.
  cbn [app]. unfold bind at 1. rewrite whitespace_stop by done.
  unfold bind at 1. cbn [expect Z.eqb Pos.eqb skip drop]. unfold bind at 1.
  rewrite drop_0, (stands_whitespace t v _ _ Ht). unfold bind at 1.
  rewrite (sf_reads t v Ht) by done. unfold bind at 1. rewrite closes_white by done.
  f_equal. rewrite length_app. cbn. lia.
Qed.

Lemma members_read es xs e x acc fuel i rest :
  Forall2 entry_stands es xs -> entry_stands e x ->
  NoDup (acc.*1 ++ x.1 :: xs.*1) ->
  let texts := (fun e => entry_text e.1 e.2) <$> es in
  (2 * length (entry_text e.1 e.2 ++ more texts) + 1 < fuel)%nat ->
  members fuel acc i ((entry_text e.1 e.2 ++ more texts) ++ 125 :: rest) =
    Parsed (AObject (acc ++ x :: xs)) (S (length (entry_text e.1 e.2 ++ more texts)) + i) rest.
Proof.
  intros Hall. revert e x acc fuel i.
  induction Hall as [|e' x' es xs He' Hall IH]; intros [k t] [k' v] acc fuel i (Ek & Hk & Ht) Hd texts Hf;
    cbn [fst snd] in Ek, Hk, Ht; subst k'; (destruct fuel as [|fuel]; [lia|]); subst texts;
    cbn [fst snd fmap list_fmap] in *;
    (assert (k ∉ acc.*1) as Hn by (apply NoDup_app in Hd as (_ & Hd & _); intros Hin; apply (Hd k Hin); by left));
    (assert (2 * length t < fuel)%nat as Hft
      by (unfold entry_text in Hf; rewrite !length_app in Hf; cbn in Hf; lia)).
  - change (more []) with (@nil Z) in *. rewrite app_nil_r in *.
    rewrite (members_step fuel acc k t v) by (done || cbn; auto).
    unfold bind. cbn [peek head skip]. rewrite bool_decide_true by done. cbn. rewrite drop_0. done.
  - set (texts := (fun e : text * text => entry_text e.1 e.2) <$> es) in *.
    set (one := entry_text e'.1 e'.2) in *.
    change (more (one :: texts)) with (44 :: one ++ more texts) in *.
    rewrite <- app_assoc, (members_step fuel acc k t v) by (done || cbn; auto).
    cbn [app]. unfold bind at 1. cbn [peek head]. unfold bind at 1. cbn [skip].
    rewrite (bool_decide_false (Some 44 = Some 125)), (bool_decide_true (Some 44 = Some 44)) by done.
    cbn [negb drop]. rewrite drop_0. unfold bind at 1.
    destruct He' as (Ee & Hke & Hte).
    assert (exists r, one ++ more texts ++ 125 :: rest = 34 :: r) as [r Er] by by eexists.
    rewrite <- app_assoc, Er, whitespace_stop, <- Er, app_assoc by done.
    rewrite (IH e' x' (acc ++ [(k, v)])).
    + rewrite <- app_assoc. f_equal. rewrite !length_app. cbn. rewrite !length_app. lia.
    + done.
    + rewrite fmap_app, <- app_assoc. exact Hd.
    + rewrite length_app, length_cons, length_app in Hf. fold texts one. rewrite length_app. lia.
Qed.

Lemma object_stands es xs :
  Forall2 entry_stands es xs -> NoDup xs.*1 ->
  stands_for ([123] ++ comma_joined ((fun e => entry_text e.1 e.2) <$> es) ++ [125]) (AObject xs).
Proof.
  intros Hall Hd. split; [by eexists 123, _|].
  intros [|fuel] i rest Hf Hr; [lia|]. cbn [app value]. unfold bind at 1. cbn [peek head Z.eqb Pos.eqb].
  unfold bind at 1. cbn [skip drop]. unfold bind at 1. rewrite drop_0.
  destruct Hall as [|e x es xs He Hall]; [by cbn; rewrite ?drop_0|].
  rewrite fmap_cons in *. cbn [comma_joined] in *.
  set (texts := (fun e : text * text => entry_text e.1 e.2) <$> es) in *. fold (more texts) in *.
  set (body := entry_text e.1 e.2 ++ more texts) in *.
  assert (2 * length body + 1 < fuel)%nat as Hb by (rewrite !length_app in Hf; cbn [length] in Hf; lia).
  rewrite <- app_assoc. cbn [app].
  assert (exists r, body ++ 125 :: rest = 34 :: r) as [r Er] by by eexists.
  rewrite Er, whitespace_stop, <- Er by done. unfold bind at 1. cbn [peek].
  rewrite bool_decide_false by by rewrite Er.
  unfold body. rewrite (members_read es xs e x [] fuel) by done.
  fold texts body. f_equal. rewrite !length_cons, length_app. cbn [length]. lia.
Qed.

(** ** The round trip *)

Lemma sort_insert_fmap {A B} (f : A -> B) cmp cmp' x l :
  (forall x y, cmp (f x) (f y) = cmp' x y) ->
  sort_insert cmp (f x) (f <$> l) = f <$> sort_insert cmp' x l.
Proof.
  intros Hf. induction l as [|y l IH]; cbn; [done|]. rewrite Hf. destruct (cmp' x y <=? 0); [done|].
  cbn. by f_equal.
Qed.

Lemma js_sort_fmap {A B} (f : A -> B) cmp cmp' l :
  (forall x y, cmp (f x) (f y) = cmp' x y) -> js_sort cmp (f <$> l) = f <$> js_sort cmp' l.
Proof.
  intros Hf. induction l as [|x l IH]; [done|]. cbn [fmap list_fmap js_sort foldr] in *.
  unfold js_sort in *. cbn [fmap list_fmap foldr]. rewrite IH. by apply sort_insert_fmap.
Qed.

Lemma collect_all {A B} (f : A -> result B) (Q : A -> B -> Prop) l :
  Forall (fun x => exists y, f x = Ok y /\ Q x y) l ->
  exists ys, collect (f <$> l) = Ok ys /\ Forall2 Q l ys.
Proof.
  induction 1 as [|x l (y & Hy & Hq) Hl (ys & E & Hys)]; [by exists []|].
  exists (y :: ys). split; [|by constructor]. cbn. rewrite Hy. cbn.
  change (list_fmap A (result B) f l) with (f <$> l). by rewrite E.
Qed.

(** A good value has a canonical text, which stands for it. *)
Lemma canonical_stands v :
  json_ok v = true -> exists t, canonicalArtifactJsonText v = Ok t /\ stands_for t (sort_json v).
Proof.
  induction v as [|b|n|f|s|items IH|entries IH] using json_ind; cbn [json_ok]; intros Hok.
  - eexists. split; [done|apply null_stands].
  - eexists. split; [done|apply bool_stands].
  - cbn. rewrite Hok. eexists. split; [done|by apply number_stands].
  - done.
  - eexists. split; [done|by apply string_stands].
  - rewrite forallb_elem in Hok.
    destruct (collect_all canonicalArtifactJsonText (fun v t => stands_for t (sort_json v)) items) as (ts & E & Hts).
    { rewrite Forall_forall in IH |- *. intros v Hv. apply IH; auto. }
    cbn [canonicalArtifactJsonText]. rewrite E. eexists. split; [done|]. apply array_stands.
    apply Forall2_flip, Forall2_fmap_l. eapply Forall2_impl; [exact Hts|done].
  - apply andb_prop in Hok as [Hd%bool_decide_eq_true Hok]. rewrite forallb_elem in Hok.
    cbn [canonicalArtifactJsonText sort_json].
    rewrite (js_sort_fmap (fun e : text * ArtifactJson => (e.1, canonicalArtifactJsonText e.2)) by_key by_key entries) by done.
    rewrite (js_sort_fmap (fun e : text * ArtifactJson => (e.1, sort_json e.2)) by_key by_key entries) by done.
    set (S := js_sort by_key entries).
    assert (S ≡ₚ entries) as Hp by apply js_sort_perm.
    assert (Forall (fun e : text * ArtifactJson => exists t, canonicalArtifactJsonText e.2 = Ok t /\
      (text_ok e.1 = true /\ stands_for t (sort_json e.2))) S) as HS.
    { rewrite Hp. rewrite Forall_forall in IH |- *. intros e He. specialize (Hok e He). apply andb_prop in Hok as [Hk Hv].
      destruct (IH e He Hv) as (t & Et & Ht). by exists t. }
    destruct (collect_all (fun e : text * ArtifactJson => t ← canonicalArtifactJsonText e.2; Ok (entry_text e.1 t))
      (fun e y => exists t, y = entry_text e.1 t /\ entry_stands (e.1, t) (e.1, sort_json e.2)) S) as (ys & E & Hys).
    { eapply Forall_impl; [exact HS|]. intros e (t & Et & Hk & Ht). exists (entry_text e.1 t).
      rewrite Et. split; [done|]. by exists t. }
    rewrite <- list_fmap_compose. unfold compose. cbn [fst snd]. fold entry_text.
    assert (exists es : list (text * text), ys = (fun e => entry_text e.1 e.2) <$> es /\
      Forall2 entry_stands es ((fun e : text * ArtifactJson => (e.1, sort_json e.2)) <$> S)) as (es & -> & Hes).
    { clear -Hys. induction Hys as [|e y S ys (t & -> & Ht) Hys (es & -> & Hes)]; [by exists []|].
      exists ((e.1, t) :: es). split; [done|by constructor]. }
    unfold entry_text at 1 in E. rewrite E. eexists. split; [done|]. apply object_stands; [done|].
    rewrite <- list_fmap_compose. unfold compose. cbn. change (NoDup (S.*1)). by rewrite Hp.
Qed.

Lemma stands_parse t v : stands_for t v -> exists i, parse t = Parsed v i [].
Proof.
  intros Ht. pose proof (stands_whitespace t v 0%nat [] Ht) as Hw.
  pose proof (sf_reads t v Ht (parse_fuel t) 0%nat []) as Hr. rewrite app_nil_r in *.
  unfold parse, bind. rewrite Hw, Hr by (unfold parse_fuel; (lia || done)). by eexists.
Qed.

(** C37: the canonical text is read back. Every good value (its numbers are safe, its
    texts hold code units, no object has a key twice) has a canonical text, and
    parsing that text gives the value with the entries of its objects in
    canonical order. *)
Theorem canonical_roundtrip v :
  json_ok v = true ->
  exists t, canonicalArtifactJsonText v = Ok t /\
    parseArtifactJson t false = Some (Read (sort_json v)).
Proof.
  intros (t & E & Ht)%canonical_stands. exists t. split; [done|].
  unfold parseArtifactJson. by destruct (stands_parse t _ Ht) as [i ->].
Qed.

(** ** The order of keys *)

#[export] Instance compare_points_ordering : Ordering compare_points.
Proof.
  split.
  - induction x as [|a x IH]; intros [|b y]; cbn; try lia. unfold or_else. pose proof (IH y).
    destruct (Z.eqb_spec (a - b) 0), (Z.eqb_spec (b - a) 0); lia.
  - induction x as [|a x IH]; intros [|b y] [|c z]; cbn; try lia. unfold or_else. pose proof (IH y z).
    destruct (Z.eqb_spec (a - b) 0), (Z.eqb_spec (b - c) 0), (Z.eqb_spec (a - c) 0); lia.
Qed.

Lemma compare_points_eq x y : compare_points x y = 0 -> x = y.
Proof.
  revert y. induction x as [|a x IH]; intros [|b y]; cbn; try done; try lia. unfold or_else.
  destruct (Z.eqb_spec (a - b) 0); [|done]. intros ->%IH. f_equal. lia.
Qed.

#[export] Instance by_key_ordering {A} : Ordering (@by_key A).
Proof. apply (ordering_on (fun x : text * A => code_points x.1) compare_points). Qed.

Lemma by_key_eq {A} (x y : text * A) :
  text_ok x.1 = true -> text_ok y.1 = true -> by_key x y <= 0 -> by_key y x <= 0 -> x.1 = y.1.
Proof.
  intros Hx Hy H1 H2. pose proof (ordering_antisym (cmp := by_key) x y).
  rewrite <- (code_points_units _ Hx), <- (code_points_units _ Hy). f_equal.
  apply compare_points_eq. unfold by_key, compareScalarStrings in *. lia.
Qed.

(** Entries with distinct keys have one canonical order. *)
Lemma sorted_once {A} (l l' : list (text * A)) :
  NoDup l.*1 -> Forall (fun e => text_ok e.1 = true) l -> l ≡ₚ l' -> js_sort by_key l = js_sort by_key l'.
Proof.
  intros Hd Hk Hp. rewrite Forall_forall in Hk.
  apply (StronglySorted_unique_strong (fun x y => by_key x y <= 0)); [|apply js_sort_ordered, _..|].
  - intros x y Hx Hy H1 H2. rewrite elem_of_js_sort in Hx, Hy. rewrite <- Hp in Hy.
    assert (x.1 = y.1) as E by (apply by_key_eq; auto).
    apply list_elem_of_lookup in Hx as [i Hi]. apply list_elem_of_lookup in Hy as [j Hj].
    assert (i = j) as ->; [|congruence].
    apply (NoDup_lookup l.*1 i j x.1 Hd); rewrite list_lookup_fmap, ?Hi, ?Hj; cbn; congruence.
  - by rewrite !js_sort_perm.
Qed.

(** ** Equality *)

(** Equal up to the order of the entries of objects. *)
Inductive same_json : ArtifactJson -> ArtifactJson -> Prop :=
| same_scalar v : same_json v v
| same_array items items' : Forall2 same_json items items' -> same_json (AArray items) (AArray items')
| same_object entries entries' permuted :
    entries ≡ₚ permuted ->
    Forall2 (fun e e' => e.1 = e'.1 /\ same_json e.2 e'.2) permuted entries' ->
    same_json (AObject entries) (AObject entries').

Lemma fmap_Forall2 {A B} (f : A -> B) l l' :
  f <$> l = f <$> l' <-> Forall2 (fun x y => f x = f y) l l'.
Proof.
  split.
  - revert l'. induction l as [|x l IH]; intros [|y l']; cbn; try done. intros [= E1 E2].
    constructor; [done|by apply IH].
  - induction 1 as [|x y l l' E Hl IH]; [done|]. cbn. by f_equal.
Qed.

Lemma Forall2_with {A B} (P : A -> Prop) (R R' : A -> B -> Prop) l l' :
  (forall x y, P x -> R x y -> R' x y) -> Forall P l -> Forall2 R l l' -> Forall2 R' l l'.
Proof.
  intros H Hp. intros Hr. revert Hp. induction Hr; intros Hp; [constructor|].
  inversion Hp; subst. constructor; auto.
Qed.

Lemma sorted_same v w : sort_json v = sort_json w -> same_json v w.
Proof.
  revert w. induction v as [|b|n|f|s|items IH|entries IH] using json_ind; intros w;
    destruct w as [|b'|n'|f'|s'|items'|entries']; cbn; try discriminate;
    try (intros [=]; subst; constructor; fail).
  - intros [= E%fmap_Forall2]. constructor. by apply (Forall2_with _ _ _ _ _ (fun x y H => H y) IH).
  - intros [= E].
    set (g := fun e : text * ArtifactJson => (e.1, sort_json e.2)) in *.
    assert (g <$> entries' ≡ₚ g <$> entries) as Hp.
    { by rewrite <- (js_sort_perm by_key (g <$> entries)), E, js_sort_perm. }
    apply Permutation_map_inv in Hp as (permuted & Eg & Hp). symmetry in Hp.
    apply (same_object _ _ permuted); [by symmetry|].
    assert (g <$> permuted = g <$> entries') as Hg%fmap_Forall2 by by symmetry.
    rewrite <- Hp in IH. refine (Forall2_with _ _ _ _ _ _ IH Hg).
    intros x y Hx Hxy. unfold g in Hxy. injection Hxy as H1 H2. auto.
Qed.

Lemma json_ok_entries entries :
  json_ok (AObject entries) = true ->
  NoDup entries.*1 /\ Forall (fun e => text_ok e.1 = true) entries /\ Forall (fun e => json_ok e.2 = true) entries.
Proof.
  cbn. intros [Hd%bool_decide_eq_true Hok]%andb_prop. rewrite forallb_elem in Hok.
  split; [done|]. split; apply Forall_forall; intros e He; specialize (Hok e He); by apply andb_prop in Hok as [? ?].
Qed.

Lemma same_canonical v w :
  json_ok v = true -> same_json v w -> canonicalArtifactJsonText v = canonicalArtifactJsonText w.
Proof.
  revert w. induction v as [|b|n|f|s|items IH|entries IH] using json_ind; intros w Hok Hs; inversion Hs; subst; try done.
  - match goal with H : Forall2 _ _ _ |- _ => rename H into Hall end.
    cbn in Hok |- *. rewrite forallb_elem in Hok.
    assert (canonicalArtifactJsonText <$> items = canonicalArtifactJsonText <$> items') as ->; [|done].
    apply fmap_Forall2. refine (Forall2_with (fun v => v ∈ items /\ (forall w, json_ok v = true -> same_json v w ->
      canonicalArtifactJsonText v = canonicalArtifactJsonText w)) _ _ _ _ _ _ Hall).
    + intros x y [Hx Hxy] Hsame. auto.
    + rewrite Forall_forall in IH |- *. auto.
  - match goal with H : Forall2 _ _ _, H' : _ ≡ₚ _ |- _ => rename H into Hall; rename H' into Hperm end.
    destruct (json_ok_entries _ Hok) as (Hd & Hk & Hv). cbn [canonicalArtifactJsonText].
    set (f := fun e : text * ArtifactJson => (e.1, canonicalArtifactJsonText e.2)).
    assert (f <$> permuted = f <$> entries') as Hf.
    { apply fmap_Forall2. refine (Forall2_with (fun e => json_ok e.2 = true /\ (forall w, json_ok e.2 = true ->
        same_json e.2 w -> canonicalArtifactJsonText e.2 = canonicalArtifactJsonText w)) _ _ _ _ _ _ Hall).
      - intros x y [Hx Hxy] [Hk' Hsame]. unfold f. rewrite Hk'. f_equal. auto.
      - rewrite <- Hperm. rewrite Forall_forall in Hv, IH |- *. auto. }
    assert (js_sort by_key (f <$> entries) = js_sort by_key (f <$> entries')) as ->; [|done].
    rewrite <- Hf. apply sorted_once.
    + by rewrite <- list_fmap_compose.
    + by apply Forall_fmap.
    + by rewrite Hperm.
Qed.

(** one text, one value. Two good values have the same canonical text exactly
    when they are equal up to the order of the entries of their objects: comparing
    or hashing canonical texts neither confuses values nor tells equal ones
    apart. *)
Theorem canonical_decides_equality v w :
  json_ok v = true -> json_ok w = true ->
  canonicalArtifactJsonText v = canonicalArtifactJsonText w <-> same_json v w.
Proof.
  intros Hv Hw. split; [|by apply same_canonical]. intros E. apply sorted_same.
  destruct (canonical_stands v Hv) as (t & Et & Ht), (canonical_stands w Hw) as (u & Eu & Hu).
  assert (t = u) as <- by congruence.
  destruct (stands_parse t _ Ht) as [i Hi], (stands_parse t _ Hu) as [j Hj]. congruence.
Qed.

(** ** What the parser returns *)

Definition good {A} (Q : A -> Prop) (r : parsed A) : Prop :=
  match r with Parsed a _ rest => text_ok rest = true /\ Q a | _ => True end.

Lemma good_bind {A B} (m : parser A) (k : A -> parser B) (Q : A -> Prop) (R : B -> Prop) i s :
  good Q (m i s) -> (forall a j rest, Q a -> text_ok rest = true -> good R (k a j rest)) -> good R (bind m k i s).
Proof. unfold bind. destruct (m i s); cbn; [|done|done]. intros [? ?]; auto. Qed.

Lemma text_ok_drop n s : text_ok s = true -> text_ok (drop n s) = true.
Proof.
  revert s. induction n as [|n IH]; intros [|c s]; cbn; try done. intros [_ Hs]%andb_prop. by apply IH.
Qed.

Lemma good_whitespace i s : text_ok s = true -> good (fun _ => True) (whitespace i s).
Proof.
  revert i. induction s as [|c s IH]; intros i Hs; cbn; [done|]. apply andb_prop in Hs as Hs'. destruct Hs' as [_ Hs'].
  destruct (is_white c); [by apply IH|done].
Qed.

Lemma good_skip n i s : text_ok s = true -> good (fun _ => True) (skip n i s).
Proof. intros Hs. split; [by apply text_ok_drop|done]. Qed.

Lemma good_expect c name i s : text_ok s = true -> good (fun _ => True) (expect c name i s).
Proof. intros Hs. destruct s as [|d s]; cbn; [done|]. split_if; [|done]. by apply (good_skip 1 i (d :: s)). Qed.

Lemma good_literal {A} token (v : A) (Q : A -> Prop) i s : text_ok s = true -> Q v -> good Q (literal token v i s).
Proof. intros Hs Hv. unfold literal. split_if; [|done]. split; [by apply text_ok_drop|done]. Qed.

Lemma hex_value_bound h n : hex_value h = Some n -> 0 <= n < 16.
Proof.
  unfold hex_value. destruct (Z.leb_spec 48 h), (Z.leb_spec h 57), (Z.leb_spec 97 h), (Z.leb_spec h 102),
    (Z.leb_spec 65 h), (Z.leb_spec h 70); cbn; intros [=]; lia.
Qed.

Lemma unit_ok_bounds c : unit_ok c = true <-> 0 <= c <= 65535.
Proof. unfold unit_ok. rewrite andb_true_iff, !Z.leb_le. done. Qed.

Lemma unescape_ok s t : text_ok s = true -> unescape s = Some t -> text_ok t = true.
Proof.
  assert (forall n (s : text) t, (length s <= n)%nat -> text_ok s = true -> unescape s = Some t -> text_ok t = true) as H;
    [|by apply (H (length s))].
  clear s t. induction n as [|n IH]; intros [|c s] t Hn; cbn in Hn; try lia; try (by intros _ [= <-]).
  cbn [text_ok forallb]. intros [Hc Hs]%andb_prop.
  assert (forall (c : Z) s', (length s' <= n)%nat -> text_ok s' = true -> 0 <= c <= 65535 ->
    cons c <$> unescape s' = Some t -> text_ok t = true) as Hcons.
  { intros d s' Hl Hs' Hd. destruct (unescape s') as [t'|] eqn:E; [|done]. intros [= <-]. cbn.
    apply andb_true_intro. split; [by apply unit_ok_bounds|]. by apply (IH s'). }
  cbn [unescape]. destruct (c =? 92).
  2: { destruct (c <? 32); [done|]. apply Hcons; [lia|done|by apply unit_ok_bounds]. }
  destruct s as [|e s]; [done|]. cbn in Hn, Hs. apply andb_prop in Hs as [_ Hs].
  do 8 (split_if; [apply Hcons; [lia|done|lia]|]). split_if; [|done].
  destruct s as [|h1 [|h2 [|h3 [|h4 s]]]]; try done. cbn in Hn, Hs.
  do 4 (apply andb_prop in Hs as [_ Hs]).
  destruct (hex_value h1) as [a|] eqn:E1; [|done]. destruct (hex_value h2) as [b|] eqn:E2; [|done].
  destruct (hex_value h3) as [d|] eqn:E3; [|done]. destruct (hex_value h4) as [f|] eqn:E4; [|done]. cbn.
  apply hex_value_bound in E1, E2, E3, E4. apply Hcons; [lia|done|lia].
Qed.

Lemma good_string_loop escaped body i s :
  text_ok body = true -> text_ok s = true -> good (fun t => text_ok t = true) (string_loop escaped body i s).
Proof.
  revert escaped body i. induction s as [|c s IH]; intros escaped body i Hb Hs; cbn; [done|].
  apply andb_prop in Hs as [Hc Hs]. split_if.
  - destruct (unescape body) eqn:E; [|done]. split; [done|]. by apply (unescape_ok body).
  - split_if; [done|]. apply IH; [|done]. unfold text_ok in *. rewrite forallb_app, Hb. cbn. by rewrite Hc.
Qed.

Lemma good_string i s : text_ok s = true -> good (fun t => text_ok t = true) (string_ i s).
Proof. intros Hs. apply good_string_loop; [done|by apply text_ok_drop]. Qed.

Lemma good_integer i s : text_ok s = true -> good (fun v => json_ok v = true) (integer i s).
Proof.
  intros Hs. unfold integer. destruct (integer_token s) as [token|]; [|done].
  split_if; [done|].
  match goal with |- context [if ?b then Failed _ _ else _] => destruct b; [done|] end.
  destruct (isSafeInteger (big_int token)) eqn:E; [|done]. split; [by apply text_ok_drop|done].
Qed.

Lemma calls_good fuel :
  (forall i s, text_ok s = true -> good (fun v => json_ok v = true) (value fuel i s)) /\
  (forall result i s, json_ok (AObject result) = true -> text_ok s = true ->
    good (fun v => json_ok v = true) (members fuel result i s)) /\
  (forall result i s, json_ok (AArray result) = true -> text_ok s = true ->
    good (fun v => json_ok v = true) (elements fuel result i s)).
Proof.
  induction fuel as [|fuel (IHv & IHm & IHe)]; [done|]. split_and!.
  - intros i s Hs. cbn [value]. unfold bind at 1. cbn [peek]. destruct (head s) as [c|]; [|done].
    do 2 (split_if; [eapply good_bind; [by apply good_skip|]; intros _ j r _ Hr;
      eapply good_bind; [by apply good_whitespace|]; intros _ j' r' _ Hr'; unfold bind at 1; cbn [peek];
      split_if; [eapply good_bind; [by apply good_skip|]; intros _ j'' r'' _ Hr''; by split|by auto]|]).
    split_if; [eapply good_bind; [by apply good_string|]; intros t j r Ht Hr; by split|].
    do 3 (split_if; [by apply good_literal|]). split_if; [by apply good_integer|done].
  - intros result i s Hres Hs. cbn [members]. unfold bind at 1. cbn [peek]. split_if; [done|].
    eapply good_bind; [by apply good_string|]. intros key j r Hkey Hr.
    destruct (includes result.*1 key) eqn:Hnew; [done|].
    eapply good_bind; [by apply good_whitespace|]. intros _ j1 r1 _ Hr1.
    eapply good_bind; [by apply good_expect|]. intros _ j2 r2 _ Hr2.
    eapply good_bind; [by apply good_whitespace|]. intros _ j3 r3 _ Hr3.
    eapply good_bind; [by apply IHv|]. intros item j4 r4 Hitem Hr4.
    assert (json_ok (AObject (result ++ [(key, item)])) = true) as Hres'.
    { cbn [json_ok] in Hres |- *. apply andb_prop in Hres as [Hd%bool_decide_eq_true Hall].
      rewrite forallb_app, Hall. cbn [forallb fst snd]. rewrite Hkey, Hitem. cbn [andb]. rewrite andb_true_r. apply bool_decide_eq_true.
      rewrite fmap_app. unfold includes in Hnew. apply bool_decide_eq_false in Hnew.
      apply NoDup_app. split_and!; [done| |apply NoDup_singleton].
      intros x Hx ->%list_elem_of_singleton. done. }
    eapply good_bind; [by apply good_whitespace|]. intros _ j5 r5 _ Hr5. unfold bind at 1. cbn [peek].
    eapply good_bind; [by apply good_skip|]. intros _ j6 r6 _ Hr6. split_if; [done|]. split_if; [done|].
    eapply good_bind; [by apply good_whitespace|]. intros _ j7 r7 _ Hr7. by apply IHm.
  - intros result i s Hres Hs. cbn [elements].
    eapply good_bind; [by apply IHv|]. intros item j4 r4 Hitem Hr4.
    assert (json_ok (AArray (result ++ [item])) = true) as Hres'.
    { cbn in Hres |- *. rewrite forallb_app, Hres. cbn. by rewrite Hitem. }
    eapply good_bind; [by apply good_whitespace|]. intros _ j5 r5 _ Hr5. unfold bind at 1. cbn [peek].
    eapply good_bind; [by apply good_skip|]. intros _ j6 r6 _ Hr6. split_if; [done|]. split_if; [done|].
    eapply good_bind; [by apply good_whitespace|]. intros _ j7 r7 _ Hr7. by apply IHe.
Qed.

(** the parser is total, and what it returns is good. On every source the parser
    ends, with a value or an error; a value has exact safe numbers and no key
    twice, so it has a canonical text; and parsing that text again gives it back,
    in canonical order. *)
Theorem parsed_values_are_good source requireObject :
  text_ok source = true ->
  exists r, parseArtifactJson source requireObject = Some r /\
    forall v, r = Read v ->
      json_ok v = true /\ (requireObject = true -> exists entries, v = AObject entries) /\
      exists t, canonicalArtifactJsonText v = Ok t /\ parseArtifactJson t requireObject = Some (Read (sort_json v)).
Proof.
  intros Hs. pose proof (parse_within source) as Hw.
  assert (good (fun v => json_ok v = true) (parse source)) as Hg.
  { unfold parse. eapply good_bind; [by apply good_whitespace|]. intros _ i s _ Hs'.
    eapply good_bind; [by apply calls_good|]. intros v j r Hv Hr.
    eapply good_bind; [by apply good_whitespace|]. intros _ j' r' _ Hr'. unfold bind. cbn [peek]. by split_if. }
  unfold parseArtifactJson at 1. destruct (parse source) as [v i rest|m i|]; [|by eexists|done].
  destruct Hg as [_ Hv]. eexists. split; [done|]. intros w Hr.
  assert (w = v /\ (requireObject = true -> exists entries, v = AObject entries)) as [-> Hobj].
  { destruct requireObject, v; cbn in Hr; try discriminate; injection Hr as <-;
      (split; [done|]); intros ?; (discriminate || by eexists). }
  split; [done|]. split; [done|]. destruct (canonical_stands v Hv) as (t & E & Ht). exists t. split; [done|].
  unfold parseArtifactJson. destruct (stands_parse t _ Ht) as [j ->].
  destruct requireObject; [|done]. by destruct Hobj as [entries ->].
Qed.

(** ** Examples *)

Module Samples.
Definition value : ArtifactJson :=
  AObject [(lit "b", AArray [ANumber 1; ANumber (-20); AString [228; 10; 55357; 56832; 56832]]); (lit "a", ANull)].
Definition reordered : ArtifactJson :=
  AObject [(lit "a", ANull); (lit "b", AArray [ANumber 1; ANumber (-20); AString [228; 10; 55357; 56832; 56832]])].
Definition source : text := lit "[1, -20 , null]".
End Samples.

Lemma canonical_roundtrip_witness :
  json_ok Samples.value = true /\
  exists t, canonicalArtifactJsonText Samples.value = Ok t /\
    parseArtifactJson t false = Some (Read (sort_json Samples.value)).
Proof. split; [vm_compute; reflexivity|]. apply (canonical_roundtrip Samples.value). vm_compute. reflexivity. Defined.

Lemma canonical_decides_equality_witness :
  Samples.value <> Samples.reordered /\ same_json Samples.value Samples.reordered.
Proof.
  split; [discriminate|].
  apply (canonical_decides_equality Samples.value Samples.reordered); vm_compute; reflexivity.
Defined.

Lemma parsed_values_are_good_witness :
  exists r, parseArtifactJson Samples.source false = Some r /\ forall v, r = Read v -> json_ok v = true.
Proof.
  destruct (parsed_values_are_good Samples.source false) as (r & E & H); [vm_compute; reflexivity|].
  exists r. split; [exact E|]. intros v Hv. exact (proj1 (H v Hv)).
Defined.
