(* ===== verification/Store.v ===== *)
(** * Talking to the artifact store

    What the artifact service and its client share: the errors they throw, access
    to JSON values, and scripts, programs that ask the store (and the platform's
    source of fresh identifiers) and go on with whatever it answers.  [runs] relates
    a script to every sequence of exchanges it can have, so a theorem about [runs]
    holds for every store.  The requests are those of
    [libs/aven-artifact-store/src/client.ts], for one scope; the end of the file has
    [publication] and [committedClientRun] of that client and the identity of a
    client run ([client-runs.ts]). *)

From S2P Require Import Prelude Base64 Csv Canonical.

Open Scope stdpp_scope.
Open Scope js_scope.
Local Open Scope Z_scope.

(** ** Errors *)

(** [AppError], [ArtifactStoreProblem], and any other error. *)
Inductive error :=
| AppError (status : Z) (code message : text)
| StoreProblem (status : Z) (code message : text)
| OtherError (message : text).

#[export] Instance error_eq_dec : EqDecision error.
Proof. solve_decision. Defined.

Inductive checked (A : Type) :=
| Done (a : A)
| Raise (e : error).
Arguments Done {A} a.
Arguments Raise {A} e.

#[export] Instance checked_ret : MRet checked := fun A a => Done a.
#[export] Instance checked_bind : MBind checked := fun A B k m =>
  match m with Done a => k a | Raise e => Raise e end.

(** [if (condition) throw error]. *)
Definition refuse_if (condition : bool) (e : error) : checked unit := if condition then Raise e else Done tt.
Notation "'refuse!' b 'as' e ; k" := (mbind (fun _ : unit => k) (refuse_if b e))
  (at level 100, b at next level, e at next level, k at level 200, right associativity) : js_scope.

Definition of_result {A} (m : result A) : checked A :=
  match m with Ok a => Done a | Throw message => Raise (OtherError (lit message)) end.

(** [c || m] where [m] may throw. *)
Definition or_check (c : bool) (m : checked bool) : checked bool := if c then Done true else m.

(** ** JSON values *)

Abbreviation entries := (list (text * ArtifactJson)).

Definition object (l : list (string * ArtifactJson)) : ArtifactJson :=
  AObject (map (fun e => (lit e.1, e.2)) l).
Definition str (s : string) : ArtifactJson := AString (lit s).

(** [value[key]]; [None] is [undefined]. *)
Definition get (key : string) (value : entries) : option ArtifactJson := map_get (lit key) value.

(** [value ?? null]. *)
Definition or_null (o : option ArtifactJson) : ArtifactJson :=
  match o with Some v => v | None => ANull end.

(** [value === s] and [value === n]. *)
Definition is_string (o : option ArtifactJson) (s : text) : bool :=
  match o with Some (AString t) => bool_decide (t = s) | _ => false end.
Definition is_number (o : option ArtifactJson) (n : Z) : bool :=
  match o with Some (ANumber m) => m =? n | _ => false end.

(** [String(value)]; [plain] is the text of an object, or nothing where the object has no
    prototype and the conversion throws. *)
Fixpoint js_String (plain : option text) (value : ArtifactJson) : result text :=
  match value with
  | ANull => Ok (lit "null")
  | ABool b => Ok (lit (if b then "true" else "false"))
  | ANumber n => Ok (decimal n)
  | AFraction shown => Ok shown
  | AString s => Ok s
  | AArray items =>
      texts ← collect ((fun item => match item with ANull => Ok [] | _ => js_String plain item end) <$> items);
      Ok (comma_joined texts)
  | AObject _ =>
      match plain with Some t => Ok t | None => Throw "Cannot convert object to primitive value" end
  end.

(** Values the service got with [JSON.parse] have prototypes, those of the store's client have none. *)
Definition String_parsed : ArtifactJson -> result text := js_String (Some (lit "[object Object]")).
Definition String_stored : ArtifactJson -> result text := js_String None.

(** ** Requests and scripts *)

Inductive body := Bytes (bytes : list Z) | Stream.

Inductive request :=
| Context
| Artifact (artifactId : text)
| Content (artifactId : text)
| ProducerInputs (artifactId : text)
| SupportingEvidence (artifactId : text)
| Publication (publicationId : text)
| Feed (storeEpoch : text) (afterSequence limit : Z)
| Upload (claimId sha256 : text) (length : Z) (declaredMediaType : text) (content : body)
| Publish (publicationId storeEpoch : text) (submission : ArtifactJson)
| RandomUUID.

Definition answer (q : request) : Type :=
  match q with Content _ => list Z | RandomUUID => text | _ => ArtifactJson end.

Inductive reply (q : request) :=
| Answered (a : answer q)
| Problem (status : Z) (code detail : text)
| Broken (message : text).
Arguments Answered {q} a.
Arguments Problem {q} status code detail.
Arguments Broken {q} message.

Inductive script (A : Type) :=
| Return (a : A)
| Throws (e : error)
| Ask (q : request) (k : reply q -> script A).
Arguments Return {A} a.
Arguments Throws {A} e.
Arguments Ask {A} q k.

Fixpoint script_then {A B} (k : A -> script B) (m : script A) : script B :=
  match m with
  | Return a => k a
  | Throws e => Throws e
  | Ask q c => Ask q (fun r => script_then k (c r))
  end.
#[export] Instance script_ret : MRet script := fun A a => Return a.
#[export] Instance script_bind : MBind script := fun A B k m => script_then k m.

Definition lift {A} (m : checked A) : script A :=
  match m with Done a => Return a | Raise e => Throws e end.

Definition ask (q : request) : script (answer q) :=
  Ask q (fun r => match r with
                  | Answered a => Return a
                  | Problem status code detail => Throws (StoreProblem status code detail)
                  | Broken message => Throws (OtherError message)
                  end).

(** [try { m } catch (error) { handler(error) }]. *)
Fixpoint catch {A} (handler : error -> script A) (m : script A) : script A :=
  match m with
  | Return a => Return a
  | Throws e => handler e
  | Ask q k => Ask q (fun r => catch handler (k r))
  end.

Fixpoint each {A B} (work : A -> script B) (l : list A) : script (list B) :=
  match l with
  | [] => Return []
  | x :: l => y ← work x; rest ← each work l; Return (y :: rest)
  end.

(** ** Exchanges *)

Record exchange := { ex_request : request; ex_reply : reply ex_request }.

Inductive runs {A} : script A -> list exchange -> checked A -> Prop :=
| runs_return a : runs (Return a) [] (Done a)
| runs_throws e : runs (Throws e) [] (Raise e)
| runs_ask q k r log o : runs (k r) log o -> runs (Ask q k) ({| ex_request := q; ex_reply := r |} :: log) o.

(** One store: its replies may depend on everything that was asked before. *)
Definition store := list exchange -> forall q, reply q.
Fixpoint exec {A} (host : store) (past : list exchange) (m : script A) : list exchange * checked A :=
  match m with
  | Return a => ([], Done a)
  | Throws e => ([], Raise e)
  | Ask q k =>
      let x := {| ex_request := q; ex_reply := host past q |} in
      let '(log, o) := exec host (past ++ [x]) (k (host past q)) in (x :: log, o)
  end.

(** ** The client *)

(** [canonicalArtifactJson(submission)] is the body of the request. *)
Definition publish (publicationId storeEpoch : text) (submission : ArtifactJson) : script ArtifactJson :=
  _ ← lift (of_result (canonicalArtifactJsonText submission));
  ask (Publish publicationId storeEpoch submission).

(** An unknown publication is [null]. *)
Definition publication (publicationId : text) : script ArtifactJson :=
  catch (fun e => match e with
                  | StoreProblem status code _ =>
                      if (status =? 404) && bool_decide (code = lit "RESOURCE_UNAVAILABLE")
                      then Return ANull else Throws e
                  | _ => Throws e
                  end)
    (ask (Publication publicationId)).

Definition invalid_store (message : string) : error := OtherError (lit message).

Definition artifactObject (value : ArtifactJson) : checked entries :=
  match value with AObject l => Done l | _ => Raise (invalid_store "invalid Artifact Store object") end.

(** A field that has to hold a text, or the error given. *)
Definition string_or (e : error) (o : option ArtifactJson) : checked text :=
  match o with Some (AString s) => Done s | _ => Raise e end.

Record Blob := { bl_mediaType : text; bl_base64 : text }.
Record ClientArtifactDraft := {
  dr_localKey : text;
  dr_typeKey : text;
  dr_typeVersion : Z;
  dr_payload : ArtifactJson;
  dr_role : text;
  dr_ordinal : Z;
  dr_blob : option Blob
}.
Record CommittedClientRun := {
  cr_publicationId : text;
  cr_runId : text;
  cr_outputs : list (text * text);
  cr_artifacts : list ClientArtifactDraft;
  cr_procedureKey : text;
  cr_procedureVersion : text;
  cr_parameters : ArtifactJson
}.

Section Client.
Context (digest : list Z -> list Z).

Definition hex_digest (bytes : list Z) : text := mjoin (hex_byte <$> digest bytes).

(** [Boolean(value)]. *)
Definition truthy_json (o : option ArtifactJson) : bool :=
  match o with
  | None | Some ANull | Some (ABool false) | Some (ANumber 0) => false
  | Some (AString s) => negb (bool_decide (s = []))
  | Some _ => true
  end.

(** The checks on one output, between its reference in the publication and its envelope. *)
Definition committed_contract (scopeId publicationId runId artifactId : text)
    (envelope output envelopeOutput : entries) : checked (text * Z * text * Z) :=
  match get "typeKey" envelope, get "typeVersion" envelope, get "role" output, get "ordinal" output with
  | Some (AString typeKey), Some (ANumber typeVersion), Some (AString role), Some (ANumber ordinal) =>
      if is_string (get "artifactId" envelope) artifactId && is_string (get "scopeId" envelope) scopeId &&
         is_string (get "publicationId" envelope) publicationId && is_string (get "producerRunId" envelope) runId &&
         (1 <=? typeVersion) && (0 <=? ordinal) &&
         is_string (get "role" envelopeOutput) role && is_number (get "ordinal" envelopeOutput) ordinal
      then Done (typeKey, typeVersion, role, ordinal)
      else Raise (invalid_store "invalid committed output contract")
  | _, _, _, _ => Raise (invalid_store "invalid committed output contract")
  end.

Definition committed_blob (artifactId : text) (blob : option ArtifactJson) : script (option Blob) :=
  match blob with
  | Some value =>
      if truthy_json (Some value) then
        blob ← lift (artifactObject value);
        bytes ← ask (Content artifactId);
        if is_number (get "length" blob) (Z.of_nat (length bytes)) && is_string (get "sha256" blob) (hex_digest bytes)
        then Return (Some {| bl_mediaType := lit "application/octet-stream"; bl_base64 := toBase64 bytes |})
        else Throws (invalid_store "committed output blob does not match its envelope")
      else Return None
  | None => Return None
  end.

(** The body of the loop, with the identifiers and keys seen before. *)
Definition committed_output (scopeId publicationId runId : text) (seen : list (text * text))
    (entry : ArtifactJson) : script (ClientArtifactDraft * (text * text)) :=
  reference ← lift (artifactObject entry);
  artifactId ← lift (string_or (invalid_store "invalid committed output reference") (get "artifactId" reference));
  localKey ← lift (string_or (invalid_store "invalid committed output reference") (get "localKey" reference));
  _ ← lift (refuse_if (bool_decide (artifactId ∈ seen.*2) || bool_decide (localKey ∈ seen.*1))
              (invalid_store "duplicate committed output reference"));
  answer ← ask (Artifact artifactId);
  envelope ← lift (artifactObject answer);
  output ← lift (artifactObject (or_null (get "output" reference)));
  envelopeOutput ← lift (artifactObject (or_null (get "output" envelope)));
  contract ← lift (committed_contract scopeId publicationId runId artifactId envelope output envelopeOutput);
  payload ← lift (artifactObject (or_null (get "payload" envelope)));
  blob ← committed_blob artifactId (get "blob" envelope);
  let '(typeKey, typeVersion, role, ordinal) := contract in
  Return ({| dr_localKey := localKey; dr_typeKey := typeKey; dr_typeVersion := typeVersion;
             dr_payload := AObject payload; dr_role := role; dr_ordinal := ordinal; dr_blob := blob |},
          (localKey, artifactId)).

Fixpoint committed_outputs (scopeId publicationId runId : text) (seen : list (text * text))
    (items : list ArtifactJson) : script (list (ClientArtifactDraft * (text * text))) :=
  match items with
  | [] => Return []
  | entry :: items =>
      x ← committed_output scopeId publicationId runId seen entry;
      rest ← committed_outputs scopeId publicationId runId (seen ++ [x.2]) items;
      Return (x :: rest)
  end.

Definition committedClientRun (scopeId publicationId : text) : script (option CommittedClientRun) :=
  found ← publication publicationId;
  match found with
  | ANull => Return None
  | _ =>
      details ← lift (artifactObject found);
      item ← lift (artifactObject (or_null (get "publication" details)));
      run ← lift (artifactObject (or_null (get "run" details)));
      procedureKey ← lift (string_or (invalid_store "missing committed procedure identity") (get "procedureKey" run));
      procedureVersion ← lift (string_or (invalid_store "missing committed procedure identity") (get "procedureVersion" run));
      _ ← lift (refuse_if (negb (is_string (get "publicationId" item) publicationId) ||
                           negb (is_string (get "scopeId" item) scopeId))
                  (invalid_store "invalid committed production receipt"));
      runId ← lift (string_or (invalid_store "invalid committed production receipt") (get "runId" item));
      items ← lift (match get "artifacts" item with
                    | Some (AArray items) => Done items
                    | _ => Raise (invalid_store "invalid committed production receipt")
                    end);
      outputs ← committed_outputs scopeId publicationId runId [] items;
      parameters ← lift (artifactObject (or_null (get "parameters" run)));
      Return (Some {| cr_publicationId := publicationId; cr_runId := runId; cr_outputs := outputs.*2;
                      cr_artifacts := outputs.*1; cr_procedureKey := procedureKey;
                      cr_procedureVersion := procedureVersion; cr_parameters := AObject parameters |})
  end.

(** ** The identity of a client run *)

(** [TextEncoder]: a lone surrogate becomes U+FFFD. *)
Definition utf8_point (p : Z) : list Z :=
  let p := if is_surrogate p then 65533 else p in
  if p <? 128 then [p]
  else if p <? 2048 then [192 + p / 64; 128 + p mod 64]
  else if p <? 65536 then [224 + p / 4096; 128 + p / 64 mod 64; 128 + p mod 64]
  else [240 + p / 262144; 128 + p / 4096 mod 64; 128 + p / 64 mod 64; 128 + p mod 64].
Definition utf8_encode (s : text) : list Z := code_points s ≫= utf8_point.

Definition stamp_byte (mask byte : Z) : Z := Z.lor (Z.land byte mask) 128.

Definition clientRunIdentity (seed : text) : text :=
  let bytes := alter (stamp_byte 63) 8%nat (alter (stamp_byte 15) 6%nat (take 16 (digest (utf8_encode seed)))) in
  let hex := mjoin (hex_byte <$> bytes) in
  take 8 hex ++ [45] ++ take 4 (drop 8 hex) ++ [45] ++ take 4 (drop 12 hex) ++ [45] ++
  take 4 (drop 16 hex) ++ [45] ++ drop 20 hex.

(** [JSON.stringify] of an array of texts. *)
Definition stringify_texts (l : list text) : text := [91] ++ comma_joined (stringify_text <$> l) ++ [93].

Definition csvConfirmationIdentity (sourceArtifactId sourceSha256 : text) : text :=
  clientRunIdentity (stringify_texts
    [lit CSV_DETECTOR_VERSION; lit "human-document-confirmation"; sourceArtifactId; sourceSha256]).
End Client.

(** * Runs of scripts

    The rules by which theorems go through a script of Store.v: what a run of each
    construct is, and which requests a script can make at all. *)

(** ** The constructs *)

Lemma runs_return_inv {A} (a : A) log o : runs (Return a) log o -> log = [] /\ o = Done a.
Proof. by inversion 1. Qed.

Lemma runs_throws_inv {A} e log (o : checked A) : runs (Throws e) log o -> log = [] /\ o = Raise e.
Proof. by inversion 1. Qed.

Lemma runs_lift {A} (m : checked A) log o : runs (lift m) log o -> log = [] /\ o = m.
Proof. destruct m; by inversion 1. Qed.

Definition answered {q} (r : reply q) : checked (answer q) :=
  match r with
  | Answered a => Done a
  | Problem status code detail => Raise (StoreProblem status code detail)
  | Broken message => Raise (OtherError message)
  end.

(** Inversion of [runs] at a question, without equality of dependent pairs. *)
Definition run_shape {A} (m : script A) (log : list exchange) (o : checked A) : Prop :=
  match m with
  | Ask q k => exists r log', log = {| ex_request := q; ex_reply := r |} :: log' /\ runs (k r) log' o
  | _ => True
  end.
Lemma runs_shape {A} (m : script A) log o : runs m log o -> run_shape m log o.
Proof. destruct 1; cbn; eauto. Qed.

Lemma runs_ask_inv q log o :
  runs (ask q) log o -> exists r, log = [{| ex_request := q; ex_reply := r |}] /\ o = answered r.
Proof.
  intros (r & log' & -> & H)%runs_shape. exists r.
  destruct r; cbn in *; [apply runs_return_inv in H|apply runs_throws_inv in H..]; by destruct H as [-> ->].
Qed.

Lemma runs_then {A B} (m : script A) (k : A -> script B) log o :
  runs (m ≫= k) log o ->
  (exists log1 a log2, log = log1 ++ log2 /\ runs m log1 (Done a) /\ runs (k a) log2 o) \/
  (exists e, runs m log (Raise e) /\ o = Raise e).
Proof.
  revert log. induction m as [a|e|q c IH]; intros log; cbn.
  - intros H. left. exists [], a, log. by split_and!; [|constructor|].
  - intros [-> ->]%runs_throws_inv. right. exists e. split; [constructor|done].
  - intros (r & log' & -> & H)%runs_shape. apply IH in H as [(l1 & a & l2 & -> & H1 & H2)|(e & H1 & ->)].
    + left. eexists (_ :: l1), a, l2. split_and!; [done|by constructor|done].
    + right. exists e. split; [by constructor|done].
Qed.

Lemma runs_then_done {A B} (m : script A) (k : A -> script B) log b :
  runs (m ≫= k) log (Done b) ->
  exists log1 a log2, log = log1 ++ log2 /\ runs m log1 (Done a) /\ runs (k a) log2 (Done b).
Proof. by intros [H|(e & _ & [=])]%runs_then. Qed.

Lemma runs_catch {A} h (m : script A) log o :
  runs (catch h m) log o ->
  (exists a, runs m log (Done a) /\ o = Done a) \/
  (exists log1 e log2, log = log1 ++ log2 /\ runs m log1 (Raise e) /\ runs (h e) log2 o).
Proof.
  revert log. induction m as [a|e|q c IH]; intros log; cbn.
  - intros [-> ->]%runs_return_inv. left. eexists. split; [constructor|done].
  - intros H. right. exists [], e, log. split_and!; [done|constructor|done].
  - intros (r & log' & -> & H)%runs_shape. apply IH in H as [(a & H1 & ->)|(l1 & e & l2 & -> & H1 & H2)].
    + left. exists a. split; [by constructor|done].
    + right. eexists (_ :: l1), e, l2. split_and!; [done|by constructor|done].
Qed.

Lemma runs_refuse {A} b e (k : script A) log o :
  runs (_ ← lift (refuse_if b e); k) log o ->
  (b = true /\ log = [] /\ o = Raise e) \/ (b = false /\ runs k log o).
Proof. destruct b; cbn; [|by right]. intros [-> ->]%runs_throws_inv. by left. Qed.

Lemma runs_lift_then {A B} (m : checked A) (k : A -> script B) log o :
  runs (x ← lift m; k x) log o ->
  (exists e, m = Raise e /\ log = [] /\ o = Raise e) \/ (exists a, m = Done a /\ runs (k a) log o).
Proof. destruct m; cbn; [right; by eexists|]. intros [-> ->]%runs_throws_inv. left. by eexists. Qed.

(** Either the question was answered, or it is the end of the run. *)
Lemma runs_ask_then {B} q (k : answer q -> script B) log o :
  runs (x ← ask q; k x) log o ->
  (exists a log', log = {| ex_request := q; ex_reply := Answered a |} :: log' /\ runs (k a) log' o) \/
  (exists r e, log = [{| ex_request := q; ex_reply := r |}] /\ o = Raise e).
Proof.
  intros [(l1 & a & l2 & -> & H1 & H2)|(e & H1 & ->)]%runs_then.
  - apply (runs_ask_inv q l1) in H1 as (r & -> & H). destruct r; [|discriminate H..]. injection H as ->. left. by exists a0, l2.
  - apply (runs_ask_inv q log) in H1 as (r & -> & _). right. by exists r, e.
Qed.

(** A script has a run against every store. *)
Lemma exec_runs {A} host past (m : script A) : runs m (exec host past m).1 (exec host past m).2.
Proof.
  revert past. induction m as [a|e|q c IH]; intros past; cbn; [constructor..|].
  specialize (IH (host past q) (past ++ [{| ex_request := q; ex_reply := host past q |}])).
  destruct (exec host _ (c (host past q))) as [log o]. cbn in *. by constructor.
Qed.

(** ** Requests a script can make *)

Definition only (P : request -> Prop) {A} (m : script A) : Prop :=
  forall log o, runs m log o -> Forall (fun x => P (ex_request x)) log.

Section Only.
Context (P : request -> Prop).

Lemma only_return {A} (a : A) : only P (Return a).
Proof. intros log o [-> _]%runs_return_inv. constructor. Qed.

Lemma only_throws {A} e : only P (A := A) (Throws e).
Proof. intros log o [-> _]%runs_throws_inv. constructor. Qed.

Lemma only_lift {A} (m : checked A) : only P (lift m).
Proof. intros log o [-> _]%runs_lift. constructor. Qed.

Lemma only_ask q : P q -> only P (ask q).
Proof. intros Hq log o (r & -> & _)%runs_ask_inv. by constructor. Qed.

Lemma only_then {A B} (m : script A) (k : A -> script B) : only P m -> (forall a, only P (k a)) -> only P (m ≫= k).
Proof.
  intros Hm Hk log o [(l1 & a & l2 & -> & H1 & H2)|(e & H1 & ->)]%runs_then; [|by apply Hm in H1].
  apply Forall_app. split; [by apply Hm in H1|by apply Hk in H2].
Qed.

Lemma only_catch {A} h (m : script A) : (forall e, only P (h e)) -> only P m -> only P (catch h m).
Proof.
  intros Hh Hm log o [(a & H1 & ->)|(l1 & e & l2 & -> & H1 & H2)]%runs_catch; [by apply Hm in H1|].
  apply Forall_app. split; [by apply Hm in H1|by apply Hh in H2].
Qed.

Lemma only_each {A B} (work : A -> script B) l : (forall x, only P (work x)) -> only P (each work l).
Proof.
  intros Hw. induction l as [|x l IH]; cbn [each]; [apply only_return|].
  apply only_then; [done|]. intros y. apply only_then; [done|]. intros. apply only_return.
Qed.
End Only.

(** Through every construct; what remains are the requests. *)
Ltac only_step :=
  match goal with
  | |- only _ (mbind _ _) => apply only_then; [|intros ?]
  | |- only _ (Return _) => apply only_return
  | |- only _ (Throws _) => apply only_throws
  | |- only _ (lift _) => apply only_lift
  | |- only ?P (ask ?q) => apply (only_ask P q)
  | |- only _ (catch _ _) => apply only_catch; [intros ?|]
  | |- only _ (each _ _) => apply only_each; intros ?
  | |- only _ (match ?x with _ => _ end) => destruct x
  | |- only _ (let _ := _ in _) => cbv zeta
  end.
Ltac only_all := repeat only_step.

(** Into a run that succeeds: one equation for each pure step, one exchange for each question. *)
Ltac run_step :=
  match goal with
  | H : runs (mbind _ _) _ (Done _) |- _ =>
      let l1 := fresh "l" in let a := fresh "a" in let l2 := fresh "l" in
      let H1 := fresh "R" in let H2 := fresh "R" in
      apply runs_then_done in H as (l1 & a & l2 & ? & H1 & H2); subst
  | H : runs (lift _) _ _ |- _ => apply runs_lift in H as [? H]; subst
  | H : runs (ask ?q) ?l ?o |- _ =>
      let r := fresh "r" in apply (runs_ask_inv q l o) in H as (r & ? & H); subst
  | H : runs (Return _) _ _ |- _ => apply runs_return_inv in H as [? H]; subst
  | H : runs (Throws _) _ _ |- _ => apply runs_throws_inv in H as [? H]; subst
  | H : Done _ = answered ?r |- _ => destruct r; cbn [answered] in H; [injection H as <-|discriminate H..]
  | H : Done ?x = Done _ |- _ => is_var x; injection H as ->
  | H : Done _ = Done ?x |- _ => is_var x; injection H as <-
  | H : Done _ = refuse_if ?b _ |- _ => destruct b eqn:?; cbn [refuse_if] in H; [discriminate H|clear H]
  | H : Done _ = Raise _ |- _ => discriminate H
  end.
Ltac run_all := repeat run_step.
