(* ===== verification/ClientContract.v ===== *)
(** * Contracts of client procedures

    The validators of [services/aven-api/src/lib/server/artifacts/service.ts]: the
    table of procedures a client may publish, and the checks on inputs, parameters,
    outputs and evidence of a run before anything is sent to the store.  A run has
    the shape of its interface; its numbers that are declared as numbers are
    integers, its JSON values are arbitrary. *)

From S2P Require Import Prelude Base64 Csv Canonical Store.

Open Scope stdpp_scope.
Open Scope js_scope.
Local Open Scope Z_scope.

(** ** Runs *)

Record ClientRunArtifact := {
  ca_localKey : text;
  ca_typeKey : text;
  ca_typeVersion : Z;
  ca_payload : ArtifactJson;
  ca_role : text;
  ca_ordinal : Z;
  ca_blob : option Blob
}.
Record ClientRunEvidence := {
  ce_ordinal : Z;
  ce_outputLocalKey : text;
  ce_outputLocator : ArtifactJson;
  ce_inputRole : text;
  ce_inputOrdinal : Z;
  ce_inputLocator : ArtifactJson
}.
Record ClientInput := { ci_role : text; ci_ordinal : Z; ci_artifactId : text }.
Record PublishClientRunInput := {
  pr_userId : text;
  pr_scopeId : text;
  pr_publicationId : text;
  pr_procedureKey : text;
  pr_procedureVersion : text;
  pr_inputs : list ClientInput;
  pr_parameters : ArtifactJson;
  pr_artifacts : list ClientRunArtifact;
  pr_evidence : list ClientRunEvidence
}.

Definition invalidClientContract (message : text) : error :=
  AppError 400 (lit "CLIENT_PROCEDURE_CONTRACT_INVALID") message.

Definition clientRecord (value : ArtifactJson) (label : text) : checked entries :=
  match value with
  | AObject l => Done l
  | _ => Raise (invalidClientContract (label ++ lit " must be an object."))
  end.

(** The first element the test holds for. *)
Definition input_of (role : text) (l : list ClientInput) : option ClientInput :=
  js_find (fun i => bool_decide (ci_role i = role)) l.
Definition artifact_of (typeKey : string) (l : list ClientRunArtifact) : option ClientRunArtifact :=
  js_find (fun a => bool_decide (ca_typeKey a = lit typeKey)) l.

(** [values.every((value, index) => value === index)] on sorted numbers. *)
Definition dense (ordinals : list Z) : bool :=
  bool_decide (js_sort Z.sub ordinals = seqZ 0 (Z.of_nat (length ordinals))).

(** The first failing check of a loop. *)
Fixpoint check_each {A} (check : A -> checked unit) (l : list A) : checked unit :=
  match l with [] => Done tt | x :: l => _ ← check x; check_each check l end.

(** ** Inputs *)

Definition ordinals_of (role : text) (l : list ClientInput) : list Z :=
  ci_ordinal <$> base.filter (fun i => ci_role i = role) l.

Definition expectInputs (input : PublishClientRunInput) (expected : list (string * (Z * Z))) : checked unit :=
  let roles := lit <$> expected.*1 in
  _ ← check_each (fun item =>
        refuse! negb (bool_decide (ci_role item ∈ roles)) as invalidClientContract
          (pr_procedureKey input ++ lit " cannot consume input role " ++ ci_role item ++ lit "."); Done tt)
        (pr_inputs input);
  check_each (fun e : string * (Z * Z) =>
    let '(role, (low, high)) := e in
    let ordinals := ordinals_of (lit role) (pr_inputs input) in
    let count := Z.of_nat (length ordinals) in
    refuse! (count <? low) || (high <? count) as invalidClientContract
      (pr_procedureKey input ++ lit " requires " ++ decimal low ++ lit "-" ++ decimal high ++ lit " " ++ lit role ++
       lit " input(s).");
    refuse! negb (dense ordinals) as invalidClientContract
      (pr_procedureKey input ++ lit " input ordinals for " ++ lit role ++ lit " must be dense.");
    Done tt) expected.

(** ** Parameters *)

Definition in_range (o : option ArtifactJson) (low high : Z) : bool :=
  match o with Some (ANumber n) => (low <=? n) && (n <=? high) | _ => false end.

Definition expectParameters (input : PublishClientRunInput) (page : bool) : checked unit :=
  parameters ← clientRecord (pr_parameters input) (pr_procedureKey input ++ lit " parameters");
  if negb page then
    refuse! negb (Nat.eqb (length parameters) 0) as invalidClientContract
      (pr_procedureKey input ++ lit " takes no parameters."); Done tt
  else
    refuse! negb (Nat.eqb (length parameters) 1) || negb (in_range (get "page" parameters) 1 63) as
      invalidClientContract (pr_procedureKey input ++ lit " requires one page parameter in the range 1-63."); Done tt.

Definition RECEIPT_FIELDS : list string :=
  ["model"; "profile"; "requestKey"; "promptDigest"; "implementationDigest"].
Definition filled (o : option ArtifactJson) : bool :=
  match o with Some (AString s) => negb (bool_decide (s = [])) | _ => false end.

Definition expectModelParameters (input : PublishClientRunInput) (page : bool) : checked unit :=
  parameters ← clientRecord (pr_parameters input) (pr_procedureKey input ++ lit " parameters");
  refuse! negb (bool_decide (js_sort text_cmp parameters.*1 = lit <$> if page then ["modelReceipt"; "page"] else ["modelReceipt"])) as
    invalidClientContract (pr_procedureKey input ++ lit " model parameters are invalid.");
  refuse! page && negb (in_range (get "page" parameters) 1 63) as
    invalidClientContract (pr_procedureKey input ++ lit " page parameter is invalid.");
  receipt ← clientRecord (or_null (get "modelReceipt" parameters)) (pr_procedureKey input ++ lit " model receipt");
  check_each (fun field =>
    refuse! negb (filled (get field receipt)) as
      invalidClientContract (pr_procedureKey input ++ lit " model receipt " ++ lit field ++ lit " is invalid."); Done tt)
    RECEIPT_FIELDS.

(** ** Outputs *)

Record ExpectedClientArtifact := {
  ex_localKey : string;
  ex_typeKey : string;
  ex_role : string;
  ex_ordinal : Z;
  ex_blob : bool;
  ex_typeVersion : Z
}.

Definition blob_type_ok (artifact : ClientRunArtifact) (blob : Blob) : bool :=
  (bool_decide (ca_typeKey artifact = lit "docs.extracted-text") &&
   bool_decide (bl_mediaType blob = lit "text/plain; charset=utf-8")) ||
  (bool_decide (ca_typeKey artifact = lit "core.file-inspection") &&
   bool_decide (bl_mediaType blob = lit "application/json")).

Definition fits_slot (slot : ExpectedClientArtifact) (artifact : ClientRunArtifact) : bool :=
  bool_decide (ca_typeKey artifact = lit (ex_typeKey slot)) && (ca_typeVersion artifact =? ex_typeVersion slot) &&
  bool_decide (ca_role artifact = lit (ex_role slot)) && (ca_ordinal artifact =? ex_ordinal slot) &&
  Bool.eqb (ex_blob slot) (bool_decide (is_Some (ca_blob artifact))).

Definition expectArtifacts (input : PublishClientRunInput) (expected : list ExpectedClientArtifact) : checked unit :=
  refuse! negb (Nat.eqb (length (pr_artifacts input)) (length expected)) as invalidClientContract
    (pr_procedureKey input ++ lit " must publish exactly " ++ decimal (Z.of_nat (length expected)) ++ lit " artifact(s).");
  check_each (fun slot =>
    let violates := invalidClientContract
      (pr_procedureKey input ++ lit " output " ++ lit (ex_localKey slot) ++ lit " violates its contract.") in
    match js_find (fun candidate => bool_decide (ca_localKey candidate = lit (ex_localKey slot))) (pr_artifacts input) with
    | None => Raise violates
    | Some artifact =>
        refuse! negb (fits_slot slot artifact) as violates;
        refuse! match ca_blob artifact with Some blob => negb (blob_type_ok artifact blob) | None => false end as
          invalidClientContract
            (pr_procedureKey input ++ lit " output " ++ lit (ex_localKey slot) ++ lit " has an invalid blob.");
        Done tt
    end) expected.

Definition expectClassificationLevel (input : PublishClientRunInput) (level mode : string) : checked unit :=
  let refused := invalidClientContract
    (pr_procedureKey input ++ lit " must publish a " ++ lit mode ++ lit "-derived " ++ lit level ++
     lit "-level classification.") in
  match artifact_of "core.content-classification" (pr_artifacts input) with
  | None => Raise refused
  | Some classification =>
      payload ← clientRecord (ca_payload classification) (lit "classification payload");
      refuse! negb (is_string (get "subjectLevel" payload) (lit level)) ||
              negb (is_string (get "resolutionMode" payload) (lit mode)) as refused;
      Done tt
  end.

(** [choices.includes(String(value))]. *)
Definition one_of (choices : list string) (o : option ArtifactJson) : bool :=
  match o with
  | Some value => match String_parsed value with Ok t => bool_decide (t ∈ lit <$> choices) | Throw _ => false end
  | None => false
  end.

Definition expectText (input : PublishClientRunInput) (pageCount : Z) (method : string) : checked unit :=
  let refused := invalidClientContract
    (pr_procedureKey input ++ lit " must publish " ++ lit method ++ lit " text for exactly " ++ decimal pageCount ++
     lit " page(s).") in
  match artifact_of "docs.extracted-text" (pr_artifacts input) with
  | None => Raise refused
  | Some text_ =>
      payload ← clientRecord (ca_payload text_) (lit "native text payload");
      let either := String.eqb method "either" in
      refuse! (negb either && negb (is_string (get "method" payload) (lit method))) ||
              (either && negb (one_of ["native"; "ocr"] (get "method" payload))) ||
              negb (is_number (get "pageCount" payload) pageCount) as refused;
      Done tt
  end.

(** ** What every run has to satisfy *)

Definition slot (role : text) (ordinal : Z) : text := role ++ lit ":" ++ decimal ordinal.

(** The first value that comes again, in a loop over a [Set]. *)
Fixpoint first_duplicate (seen l : list text) : option text :=
  match l with
  | [] => None
  | x :: l => if bool_decide (x ∈ seen) then Some x else first_duplicate (x :: seen) l
  end.
Definition refuse_duplicate (message : text) (l : list text) : checked unit :=
  match first_duplicate [] l with
  | Some x => Raise (invalidClientContract (message ++ x ++ lit "."))
  | None => Done tt
  end.

(** One artifact: its key, then its slot. *)
Fixpoint check_outputs (localKeys outputSlots : list text) (l : list ClientRunArtifact) : checked unit :=
  match l with
  | [] => Done tt
  | a :: l =>
      let s := slot (ca_role a) (ca_ordinal a) in
      refuse! bool_decide (ca_localKey a ∈ localKeys) as
        invalidClientContract (lit "Duplicate client output key " ++ ca_localKey a ++ lit ".");
      refuse! bool_decide (s ∈ outputSlots) as
        invalidClientContract (lit "Duplicate client output slot " ++ s ++ lit ".");
      check_outputs (ca_localKey a :: localKeys) (s :: outputSlots) l
  end.

Fixpoint check_evidence (inputSlots localKeys : list text) (seen : list Z) (l : list ClientRunEvidence) : checked unit :=
  match l with
  | [] => Done tt
  | e :: l =>
      refuse! bool_decide (ce_ordinal e ∈ seen) as
        invalidClientContract (lit "Duplicate client evidence ordinal " ++ decimal (ce_ordinal e) ++ lit ".");
      refuse! negb (bool_decide (ce_outputLocalKey e ∈ localKeys)) as
        invalidClientContract (lit "Evidence names unknown output " ++ ce_outputLocalKey e ++ lit ".");
      let s := slot (ce_inputRole e) (ce_inputOrdinal e) in
      refuse! negb (bool_decide (s ∈ inputSlots)) as
        invalidClientContract (lit "Evidence names unknown input " ++ s ++ lit ".");
      check_evidence inputSlots localKeys (ce_ordinal e :: seen) l
  end.

Definition input_slots (input : PublishClientRunInput) : list text :=
  (fun i => slot (ci_role i) (ci_ordinal i)) <$> pr_inputs input.

Definition validateCommonClientContract (input : PublishClientRunInput) : checked unit :=
  _ ← refuse_duplicate (lit "Duplicate client input slot ") (input_slots input);
  _ ← check_outputs [] [] (pr_artifacts input);
  _ ← check_evidence (input_slots input) (ca_localKey <$> pr_artifacts input) [] (pr_evidence input);
  refuse! negb (dense (ce_ordinal <$> pr_evidence input)) as
    invalidClientContract (lit "Client evidence ordinals must be dense.");
  Done tt.

(** ** The outputs of the procedures *)

Definition output_ (localKey typeKey role : string) (blob : bool) (typeVersion : Z) : ExpectedClientArtifact :=
  {| ex_localKey := localKey; ex_typeKey := typeKey; ex_role := role; ex_ordinal := 0; ex_blob := blob;
     ex_typeVersion := typeVersion |}.

Definition inspectionOutput := output_ "inspection" "core.file-inspection" "inspection" true 2.
Definition textOutput := output_ "text" "docs.extracted-text" "text" true 1.
Definition layoutOutput := output_ "layout" "docs.text-layout" "layout" false 1.
Definition classificationOutput :=
  output_ "classification" "core.content-classification" "classification" false 1.
Definition descriptionOutput := output_ "description" "core.content-description" "description" false 1.
Definition documentClassificationOutput :=
  output_ "classification" "core.document-classification" "classification" false 1.
Definition invoiceOutput := output_ "invoice" "bookkeeping.invoice-candidate" "candidate" false 2.
Definition invoiceDetailsOutput := output_ "details" "bookkeeping.invoice-details" "details" false 2.
Definition statementOutput := output_ "statement" "banking.account-statement-candidate" "candidate" false 2.
Definition invoiceValidationOutput := output_ "validation" "bookkeeping.invoice-validation" "validation" false 1.
Definition statementValidationOutput := output_ "validation" "banking.statement-validation" "validation" false 1.
Definition openItemOutput := output_ "open-item" "bookkeeping.open-item" "open-item" false 1.
Definition normalizedStatementOutput := output_ "normalized-statement" "banking.statement" "statement" false 1.

(** ** Batches *)

Definition statementBatchOffset (input : PublishClientRunInput) : checked Z :=
  parameters ← clientRecord (pr_parameters input) (pr_procedureKey input ++ lit " parameters");
  let refused := invalidClientContract (pr_procedureKey input ++ lit " requires an offset of 0 or 64.") in
  match get "offset" parameters with
  | Some (ANumber offset) =>
      refuse! negb (Nat.eqb (length parameters) 1) || (offset <? 0) || (127 <? offset) ||
              negb (Z.rem offset 64 =? 0) as refused;
      Done offset
  | _ => Raise refused
  end.

(** [String(n).padStart(3, '0')]. *)
Definition padStart3 (n : Z) : text :=
  let t := decimal n in replicate (3 - length t) 48 ++ t.

Definition by_ordinal (l : list ClientRunArtifact) : list (Z * ClientRunArtifact) :=
  imap (fun i a => (Z.of_nat i, a)) (js_sort (fun left right => ca_ordinal left - ca_ordinal right) l).

Definition batch_size_ok (l : list ClientRunArtifact) (high : nat) : bool :=
  Nat.leb 1 (length l) && Nat.leb (length l) high.

Definition expectStatementTransactionBatch (input : PublishClientRunInput) (offset : Z) : checked unit :=
  refuse! negb (batch_size_ok (pr_artifacts input) 64) as invalidClientContract
    (lit "client.fanout-statement-transactions must publish 1-64 transactions.");
  check_each (fun e : Z * ClientRunArtifact =>
    let '(ordinal, transaction) := e in
    let localKey := lit "transaction-" ++ padStart3 (offset + ordinal + 1) in
    payload ← clientRecord (ca_payload transaction) (localKey ++ lit " payload");
    refuse! negb (bool_decide (ca_localKey transaction = localKey)) ||
            negb (bool_decide (ca_typeKey transaction = lit "banking.transaction")) ||
            negb (ca_typeVersion transaction =? 1) ||
            negb (bool_decide (ca_role transaction = lit "transaction")) ||
            negb (ca_ordinal transaction =? ordinal) ||
            negb (is_number (get "sourceOrdinal" payload) (offset + ordinal)) ||
            bool_decide (is_Some (ca_blob transaction)) as
      invalidClientContract (lit "client.fanout-statement-transactions output " ++ localKey ++ lit " is invalid.");
    Done tt) (by_ordinal (pr_artifacts input)).

Definition names_transaction (payload : entries) (inputs : list ClientInput) : bool :=
  match get "transactionInputOrdinal" payload with
  | Some (ANumber n) =>
      isSafeInteger n &&
      existsb (fun item => bool_decide (ci_role item = lit "transaction") && (ci_ordinal item =? n)) inputs
  | _ => false
  end.

Definition expectReconciliationMatches (input : PublishClientRunInput) : checked unit :=
  refuse! negb (batch_size_ok (pr_artifacts input) 64) as invalidClientContract
    (lit "client.rank-invoice-transactions must publish 1-64 match candidates.");
  check_each (fun e : Z * ClientRunArtifact =>
    let '(ordinal, match_) := e in
    let localKey := lit "match-" ++ padStart3 (ordinal + 1) in
    payload ← clientRecord (ca_payload match_) (localKey ++ lit " payload");
    refuse! negb (bool_decide (ca_localKey match_ = localKey)) ||
            negb (bool_decide (ca_typeKey match_ = lit "reconciliation.match-candidate")) ||
            negb (ca_typeVersion match_ =? 2) ||
            negb (bool_decide (ca_role match_ = lit "match-candidate")) ||
            negb (ca_ordinal match_ =? ordinal) ||
            negb (is_string (get "matcherVersion" payload) (lit "invoice-transaction-v2")) ||
            negb (names_transaction payload (pr_inputs input)) ||
            negb (is_number (get "rank" payload) (ordinal + 1)) ||
            bool_decide (is_Some (ca_blob match_)) as
      invalidClientContract (lit "client.rank-invoice-transactions output " ++ localKey ++ lit " is invalid.");
    Done tt) (by_ordinal (pr_artifacts input)).

Definition expectPages (input : PublishClientRunInput) : checked unit :=
  refuse! negb (batch_size_ok (pr_artifacts input) 63) as invalidClientContract
    (lit "client.decompose-pages must publish 1-63 page artifacts.");
  check_each (fun e : Z * ClientRunArtifact =>
    let '(ordinal, page) := e in
    let localKey := lit "page-" ++ padStart3 (ordinal + 1) in
    payload ← clientRecord (ca_payload page) (localKey ++ lit " payload");
    refuse! negb (bool_decide (ca_localKey page = localKey)) ||
            negb (bool_decide (ca_typeKey page = lit "docs.page")) ||
            negb (bool_decide (ca_role page = lit "page")) ||
            negb (ca_ordinal page =? ordinal) ||
            bool_decide (is_Some (ca_blob page)) ||
            negb (is_number (get "sourcePage" payload) (ordinal + 1)) as
      invalidClientContract (lit "client.decompose-pages output " ++ localKey ++ lit " violates its contract.");
    Done tt) (by_ordinal (pr_artifacts input)).

(** [payload[field] !== inputs.find(...)?.artifactId]. *)
Definition same_artifact (o : option ArtifactJson) (i : option ClientInput) : bool :=
  match o, i with
  | Some (AString s), Some i => bool_decide (s = ci_artifactId i)
  | None, None => true
  | _, _ => false
  end.

Definition expectDecision (input : PublishClientRunInput) : checked unit :=
  match pr_artifacts input with
  | [] => Raise (OtherError (lit "TypeError"))
  | artifact :: _ =>
      payload ← clientRecord (ca_payload artifact) (lit "reconciliation decision");
      refuse! negb (one_of ["accepted"; "rejected"] (get "decision" payload)) ||
              negb (is_string (get "relation" payload) (lit "supports-booking")) as
        invalidClientContract (lit "Invalid reconciliation decision.");
      check_each (fun e : string * string =>
        refuse! negb (same_artifact (get e.1 payload) (input_of (lit e.2) (pr_inputs input))) as
          invalidClientContract (lit "Decision identity differs from its production inputs."); Done tt)
        [("candidateArtifactId", "match-candidate"); ("openItemArtifactId", "open-item");
         ("transactionArtifactId", "transaction")]
  end.

Definition expectModelDerived (input : PublishClientRunInput) : checked unit :=
  payload ← clientRecord (match pr_artifacts input with a :: _ => ca_payload a | [] => ANull end)
              (lit "classification payload");
  refuse! negb (is_string (get "resolutionMode" payload) (lit "model")) as
    invalidClientContract (lit "client.classify-document-model must be model-derived.");
  Done tt.

(** ** The procedures *)

Record ClientProcedureDescriptor := {
  dc_actor : string;
  dc_deterministic : bool;
  dc_validate : PublishClientRunInput -> checked unit
}.
Definition procedure (actor : string) (validate : PublishClientRunInput -> checked unit) : ClientProcedureDescriptor :=
  {| dc_actor := actor; dc_deterministic := true; dc_validate := validate |}.
Definition model_procedure (actor : string) (validate : PublishClientRunInput -> checked unit) : ClientProcedureDescriptor :=
  {| dc_actor := actor; dc_deterministic := false; dc_validate := validate |}.

(** [expectInputs], [expectParameters] and [expectArtifacts] in a row. *)
Definition plain (inputs : list (string * (Z * Z))) (page : bool) (outputs : list ExpectedClientArtifact)
    (input : PublishClientRunInput) : checked unit :=
  _ ← expectInputs input inputs; _ ← expectParameters input page; expectArtifacts input outputs.
Definition modelled (inputs : list (string * (Z * Z))) (page : bool) (outputs : list ExpectedClientArtifact)
    (input : PublishClientRunInput) : checked unit :=
  _ ← expectInputs input inputs; _ ← expectModelParameters input page; expectArtifacts input outputs.

Definition one : Z * Z := (1, 1).
Definition pages : Z * Z := (1, 63).

Definition validate_representation (input : PublishClientRunInput) : checked unit :=
  _ ← expectInputs input [("source", one); ("text", pages); ("layout", pages)];
  let texts := Z.of_nat (length (ordinals_of (lit "text") (pr_inputs input))) in
  let layouts := Z.of_nat (length (ordinals_of (lit "layout") (pr_inputs input))) in
  refuse! negb (texts =? layouts) as
    invalidClientContract (lit "client.assemble-document-representation requires paired inputs.");
  _ ← expectParameters input false;
  _ ← expectArtifacts input [textOutput; layoutOutput];
  expectText input texts "either".

Definition validate_review (input : PublishClientRunInput) : checked unit :=
  _ ← plain [("match-candidate", one); ("open-item", one); ("transaction", one)] false
        [output_ "decision" "reconciliation.decision" "decision" false 1] input;
  expectDecision input.

(** [client.detect-csv-statement]. *)
Definition detect_csv_statement : ClientProcedureDescriptor :=
  procedure "csv-statement-detector"
  (plain [("source", one)] false
     [output_ "detection" "banking.csv-statement-detection" "detection" false 1]).

(** [client.confirm-csv-statement]. *)
Definition confirm_csv_statement : ClientProcedureDescriptor :=
  procedure "csv-document-review"
  (plain [("source", one); ("detection", one)] false
     [output_ "confirmation" "banking.csv-statement-confirmation" "confirmation" false 1]).

(** [client.admit-csv-statement]. *)
Definition admit_csv_statement : ClientProcedureDescriptor :=
  procedure "csv-statement-admitter"
  (plain [("source", one); ("detection", one); ("confirmation", one)] false [statementOutput]).

(** [client.review-reconciliation]. *)
Definition review_reconciliation : ClientProcedureDescriptor :=
  procedure "reconciliation-review" validate_review.

(** [client.inspect-file]. *)
Definition inspect_file : ClientProcedureDescriptor :=
  procedure "document-inspector" (plain [("source", one)] false [inspectionOutput]).

(** [client.decompose-pages]. *)
Definition decompose_pages : ClientProcedureDescriptor :=
  procedure "document-decomposer" (fun input =>
  _ ← expectInputs input [("source", one); ("inspection", one)];
  _ ← expectParameters input false; expectPages input).

(** [client.extract-native-text]. *)
Definition extract_native_text : ClientProcedureDescriptor :=
  procedure "native-text-extractor" (fun input =>
  _ ← plain [("source", one); ("page", one)] true [textOutput; layoutOutput] input;
  expectText input 1 "native").

(** [client.classify-page-signals]. *)
Definition classify_page_signals : ClientProcedureDescriptor :=
  procedure "page-signal-classifier" (fun input =>
  _ ← plain [("source", one); ("page", one); ("text", one)] true [classificationOutput] input;
  expectClassificationLevel input "page" "rule").

(** [client.assemble-document-representation]. *)
Definition assemble_document_representation : ClientProcedureDescriptor :=
  procedure "document-assembler" validate_representation.

(** [client.aggregate-content-classification]. *)
Definition aggregate_content_classification : ClientProcedureDescriptor :=
  procedure "content-aggregator" (fun input =>
  _ ← plain [("source", one); ("page-classification", pages); ("text", one); ("layout", one)] false
        [classificationOutput] input;
  expectClassificationLevel input "file" "rule").

(** [client.analyze-page-model]. *)
Definition analyze_page_model : ClientProcedureDescriptor :=
  model_procedure "visual-page-analyzer" (fun input =>
  _ ← modelled [("source", one); ("page", one); ("text", one); ("layout", one)] true
        [textOutput; layoutOutput; classificationOutput; descriptionOutput] input;
  _ ← expectText input 1 "ocr";
  expectClassificationLevel input "page" "model").

(** [client.classify-document-model]. *)
Definition classify_document_model : ClientProcedureDescriptor :=
  model_procedure "document-kind-classifier" (fun input =>
  _ ← modelled [("source", one); ("text", pages); ("layout", pages)] false [documentClassificationOutput] input;
  expectModelDerived input).

(** [client.extract-invoice-model]. *)
Definition extract_invoice_model : ClientProcedureDescriptor :=
  model_procedure "invoice-extractor"
  (modelled [("source", one); ("document-classification", one); ("text", pages); ("layout", pages)] false
     [invoiceOutput; invoiceDetailsOutput]).

(** [client.extract-statement-model]. *)
Definition extract_statement_model : ClientProcedureDescriptor :=
  model_procedure "statement-extractor"
  (modelled [("source", one); ("document-classification", one); ("text", pages); ("layout", pages)] false
     [statementOutput]).

(** [client.validate-invoice]. *)
Definition validate_invoice : ClientProcedureDescriptor :=
  procedure "invoice-validator"
  (plain [("source", one); ("candidate", one)] false [invoiceValidationOutput]).

(** [client.validate-statement]. *)
Definition validate_statement : ClientProcedureDescriptor :=
  procedure "statement-validator"
  (plain [("source", one); ("candidate", one)] false [statementValidationOutput]).

(** [client.normalize-invoice-open-item]. *)
Definition normalize_invoice_open_item : ClientProcedureDescriptor :=
  procedure "open-item-normalizer"
  (plain [("candidate", one); ("details", one); ("validation", one)] false [openItemOutput]).

(** [client.normalize-statement]. *)
Definition normalize_statement : ClientProcedureDescriptor :=
  procedure "statement-normalizer"
  (plain [("candidate", one); ("validation", one)] false [normalizedStatementOutput]).

(** [client.fanout-statement-transactions]. *)
Definition fanout_statement_transactions : ClientProcedureDescriptor :=
  procedure "statement-transaction-fanout" (fun input =>
  _ ← expectInputs input [("candidate", one); ("validation", one); ("statement", one)];
  offset ← statementBatchOffset input;
  expectStatementTransactionBatch input offset).

(** [client.rank-invoice-transactions]. *)
Definition rank_invoice_transactions : ClientProcedureDescriptor :=
  procedure "reconciliation-ranker" (fun input =>
  _ ← expectInputs input [("open-item", one); ("transaction", (1, 64))];
  _ ← expectParameters input false; expectReconciliationMatches input).

Definition CLIENT_PROCEDURES : list (string * ClientProcedureDescriptor) := [
  ("client.detect-csv-statement", detect_csv_statement);
  ("client.confirm-csv-statement", confirm_csv_statement);
  ("client.admit-csv-statement", admit_csv_statement);
  ("client.review-reconciliation", review_reconciliation);
  ("client.inspect-file", inspect_file);
  ("client.decompose-pages", decompose_pages);
  ("client.extract-native-text", extract_native_text);
  ("client.classify-page-signals", classify_page_signals);
  ("client.assemble-document-representation", assemble_document_representation);
  ("client.aggregate-content-classification", aggregate_content_classification);
  ("client.analyze-page-model", analyze_page_model);
  ("client.classify-document-model", classify_document_model);
  ("client.extract-invoice-model", extract_invoice_model);
  ("client.extract-statement-model", extract_statement_model);
  ("client.validate-invoice", validate_invoice);
  ("client.validate-statement", validate_statement);
  ("client.normalize-invoice-open-item", normalize_invoice_open_item);
  ("client.normalize-statement", normalize_statement);
  ("client.fanout-statement-transactions", fanout_statement_transactions);
  ("client.rank-invoice-transactions", rank_invoice_transactions)].

(** [CLIENT_PROCEDURES[key]]. The table is an object with a prototype: the names every object
    inherits are found, too, and what they give is no descriptor. *)
Definition INHERITED : list string :=
  ["constructor"; "__defineGetter__"; "__defineSetter__"; "hasOwnProperty"; "__lookupGetter__"; "__lookupSetter__";
   "isPrototypeOf"; "propertyIsEnumerable"; "toString"; "valueOf"; "__proto__"; "toLocaleString"].

Inductive lookup_result := Own (d : ClientProcedureDescriptor) | Inherited | Missing.
Definition descriptor (key : text) : lookup_result :=
  match js_find (fun e : string * _ => bool_decide (lit e.1 = key)) CLIENT_PROCEDURES with
  | Some (_, d) => Own d
  | None => if bool_decide (key ∈ lit <$> INHERITED) then Inherited else Missing
  end.

(** The first statements of [publishClientRun]: [descriptor.validate] of what is inherited is no
    function, and calling it throws. *)
Definition validate_run (input : PublishClientRunInput) : checked ClientProcedureDescriptor :=
  match descriptor (pr_procedureKey input) with
  | Missing => Raise (AppError 400 (lit "CLIENT_PROCEDURE_INVALID") (lit "The client procedure is not allowed."))
  | Inherited => _ ← validateCommonClientContract input; Raise (OtherError (lit "TypeError"))
  | Own d => _ ← validateCommonClientContract input; _ ← dc_validate d input; Done d
  end.
