(* ===== verification/ContractFacts.v ===== *)
(** * What the contracts of client procedures mean

    Exact characterisations of the validators of ClientContract.v: the common checks,
    the checks on inputs and on outputs, as facts on the run that mention no loop,
    no order of checks and no texts made of keys. *)

From S2P Require Import Prelude Base64 Csv Canonical CanonicalJson Store ClientContract.

Open Scope stdpp_scope.
Open Scope js_scope.
Local Open Scope Z_scope.

(** ** Slots *)

Lemma lit_inj s t : lit s = lit t -> s = t.
Proof.
  revert t. induction s as [|c s IH]; intros [|d t]; cbn; try done. intros [= Hc Ht].
  apply Nat2Z.inj, nat_of_ascii_inj in Hc as ->. by rewrite (IH t).
Qed.

Lemma decimal_inj n m : decimal n = decimal m -> n = m.
Proof. intros H%lit_inj. by apply (inj pretty) in H. Qed.

Lemma pretty_N_go_colon x s : 58 ∉ lit s -> 58 ∉ lit (pretty_N_go x s).
Proof.
  revert s. induction (N.lt_wf_0 x) as [x _ IH]; intros s Hs.
  destruct (decide (x = 0)%N) as [->|Hx]; [by rewrite pretty_N_go_0|].
  rewrite pretty_N_go_step by lia. apply IH; [apply N.div_lt; lia|]. cbn [lit].
  rewrite pretty_N_char_digit by (apply N.mod_lt; lia). intros [E|?]%elem_of_cons; [|done].
  assert (x mod 10 < 10)%N by (apply N.mod_lt; lia). lia.
Qed.

Lemma decimal_colon n : 58 ∉ decimal n.
Proof.
  unfold decimal. destruct n as [|p|p].
  - change (pretty 0) with "0". cbn. set_solver.
  - change (pretty (Z.pos p)) with (pretty_N_go (N.pos p) ""). apply pretty_N_go_colon. set_solver.
  - change (pretty (Z.neg p)) with ("-" +:+ pretty_N_go (N.pos p) ""). cbn. intros [E|H]%elem_of_cons; [done|].
    revert H. apply pretty_N_go_colon. set_solver.
Qed.

Lemma last_colon (r r' s s' : text) : 58 ∉ s -> 58 ∉ s' -> r ++ 58 :: s = r' ++ 58 :: s' -> r = r' /\ s = s'.
Proof.
  intros Hs Hs'. revert r'. induction r as [|c r IH]; intros [|c' r']; cbn.
  - by intros [= ->].
  - intros [= <- E]. exfalso. apply Hs. rewrite E. set_solver.
  - intros [= -> E]. exfalso. apply Hs'. rewrite <- E. set_solver.
  - intros [= -> E]. by destruct (IH r' E) as [-> ->].
Qed.

(** The text of a slot determines its role and ordinal, whatever characters the role has. *)
Lemma slot_inj r n r' n' : slot r n = slot r' n' -> r = r' /\ n = n'.
Proof.
  unfold slot. intros [-> E]%last_colon; [|apply decimal_colon..]. split; [done|by apply decimal_inj].
Qed.

Definition slot_of (e : text * Z) : text := slot e.1 e.2.
#[export] Instance slot_of_inj : Inj (=) (=) slot_of.
Proof. intros [r n] [r' n'] E. apply slot_inj in E as [E1 E2]. cbn in *. congruence. Qed.

(** ** Sorted ordinals *)

Lemma dense_spec l : dense l = true <-> l ≡ₚ seqZ 0 (Z.of_nat (length l)).
Proof.
  unfold dense. rewrite bool_decide_eq_true. split.
  - intros E. by rewrite <- E, js_sort_perm.
  - intros Hp. apply (StronglySorted_unique Z.le).
    + pose proof (js_sort_ordered Z.sub l) as Hs. revert Hs. induction 1 as [|x k _ IH Hx]; constructor; [done|].
      eapply Forall_impl; [exact Hx|]. cbn. lia.
    + generalize (length l). intros n. unfold seqZ. rewrite Nat2Z.id. generalize 0%nat as i.
      induction n as [|n IH]; intros i; cbn; constructor; [apply IH|].
      apply Forall_fmap, Forall_forall. intros j Hj%elem_of_seq. cbn. lia.
    + by rewrite js_sort_perm.
Qed.

(** ** Loops *)

Lemma check_each_iff {A} (check : A -> checked unit) l :
  check_each check l = Done tt <-> Forall (fun x => check x = Done tt) l.
Proof.
  induction l as [|x l IH]; cbn; [by split; [constructor|]|]. rewrite Forall_cons, <- IH.
  destruct (check x) as [[]|]; cbn; [tauto|]. split; [done|by intros [? _]].
Qed.

Lemma refuse_iff b e (k : checked unit) : (refuse! b as e; k) = Done tt <-> b = false /\ k = Done tt.
Proof. destruct b; cbn; split; [done|by intros []|done|tauto]. Qed.

Lemma refuse_if_iff b e : refuse_if b e = Done tt <-> b = false.
Proof. by destruct b. Qed.

Lemma then_iff (m k : checked unit) : (_ ← m; k) = Done tt <-> m = Done tt /\ k = Done tt.
Proof. destruct m as [[]|]; cbn; [tauto|]. by split; [|intros []]. Qed.

Lemma first_duplicate_None seen l :
  first_duplicate seen l = None <-> NoDup l /\ forall x, x ∈ l -> x ∉ seen.
Proof.
  revert seen. induction l as [|x l IH]; intros seen; cbn.
  { split; [intros _; split; [constructor|]; intros x Hx; by apply not_elem_of_nil in Hx|done]. }
  case_bool_decide as Hx.
  - split; [done|]. intros [_ H]. by destruct (H x ltac:(left)).
  - rewrite IH, NoDup_cons. split.
    + intros [H1 H2]. split_and!; [|done|].
      * intros Hin. apply (H2 x Hin). by left.
      * intros y [->|Hy]%elem_of_cons; [done|]. specialize (H2 y Hy). set_solver.
    + intros [[H1 H2] H3]. split; [done|]. intros y Hy [->|Hs]%elem_of_cons; [done|]. apply (H3 y); [by right|done].
Qed.

Lemma check_outputs_iff keys slots l :
  check_outputs keys slots l = Done tt <->
  (NoDup (ca_localKey <$> l) /\ forall k, k ∈ ca_localKey <$> l -> k ∉ keys) /\
  (NoDup ((fun a => slot (ca_role a) (ca_ordinal a)) <$> l) /\
   forall s, s ∈ (fun a => slot (ca_role a) (ca_ordinal a)) <$> l -> s ∉ slots).
Proof.
  rewrite <- !first_duplicate_None. revert keys slots. induction l as [|a l IH]; intros keys slots; [done|].
  cbn [check_outputs fmap list_fmap first_duplicate]. rewrite !refuse_iff, IH.
  do 2 case_bool_decide; cbn; split; try done; try tauto; intros; by destruct_and?.
Qed.

Lemma check_evidence_iff slots keys seen l :
  check_evidence slots keys seen l = Done tt <->
  (NoDup (ce_ordinal <$> l) /\ forall n, n ∈ ce_ordinal <$> l -> n ∉ seen) /\
  Forall (fun e => ce_outputLocalKey e ∈ keys /\ slot (ce_inputRole e) (ce_inputOrdinal e) ∈ slots) l.
Proof.
  revert seen. induction l as [|e l IH]; intros seen; cbn [check_evidence].
  { split; [|done]. intros _. split; [split; [constructor|]|constructor]. intros n Hn. by apply not_elem_of_nil in Hn. }
  cbn zeta. rewrite !refuse_iff, IH, Forall_cons, fmap_cons, NoDup_cons, !negb_false_iff, bool_decide_eq_false, !bool_decide_eq_true.
  split.
  - intros (H1 & H2 & H3 & (H4 & H5) & H6). split_and!; try done.
    + intros Hin. apply (H5 _ Hin). by left.
    + intros n [->|Hn]%elem_of_cons; [done|]. specialize (H5 n Hn). set_solver.
  - intros (((H1 & H2) & H3) & (H4 & H5) & H6). split_and!; try done.
    + apply H3. by left.
    + intros n Hn [->|Hs]%elem_of_cons; [done|]. apply (H3 n); [by right|done].
Qed.

(** ** The theorems *)

(** the common checks are exact. They pass exactly when no two inputs have the same
    role and ordinal, no two outputs the same local key or the same role and ordinal,
    every piece of evidence names an output and an input of the run, and its ordinals are
    the numbers from zero on. *)
Theorem common_contract_exact input :
  validateCommonClientContract input = Done tt <->
  NoDup ((fun i => (ci_role i, ci_ordinal i)) <$> pr_inputs input) /\
  NoDup (ca_localKey <$> pr_artifacts input) /\
  NoDup ((fun a => (ca_role a, ca_ordinal a)) <$> pr_artifacts input) /\
  Forall (fun e => ce_outputLocalKey e ∈ ca_localKey <$> pr_artifacts input /\
      (ce_inputRole e, ce_inputOrdinal e) ∈ (fun i => (ci_role i, ci_ordinal i)) <$> pr_inputs input)
    (pr_evidence input) /\
  (ce_ordinal <$> pr_evidence input) ≡ₚ seqZ 0 (Z.of_nat (length (pr_evidence input))).
Proof.
  assert (input_slots input = slot_of <$> ((fun i => (ci_role i, ci_ordinal i)) <$> pr_inputs input)) as Eslots
    by by rewrite <- list_fmap_compose.
  assert (((fun a => slot (ca_role a) (ca_ordinal a)) <$> pr_artifacts input) =
          slot_of <$> ((fun a => (ca_role a, ca_ordinal a)) <$> pr_artifacts input)) as Eouts by by rewrite <- list_fmap_compose.
  unfold validateCommonClientContract. rewrite !then_iff, refuse_if_iff, check_outputs_iff, check_evidence_iff, Eouts, Eslots.
  assert (forall l, refuse_duplicate (lit "Duplicate client input slot ") (slot_of <$> l) = Done tt <-> NoDup l) as ->.
  { intros l. unfold refuse_duplicate. rewrite <- (NoDup_fmap slot_of l).
    pose proof (first_duplicate_None [] (slot_of <$> l)) as H.
    destruct (first_duplicate [] _) as [x|]; split; intros Hd; try done.
    - exfalso. enough (Some x = None) by done. apply H. split; [done|]. intros ? _. apply not_elem_of_nil.
    - by apply H. }
  rewrite negb_false_iff, dense_spec, length_fmap, (NoDup_fmap slot_of).
  assert (forall e (l : list (text * Z)), slot (ce_inputRole e) (ce_inputOrdinal e) ∈ slot_of <$> l <->
    (ce_inputRole e, ce_inputOrdinal e) ∈ l) as Hin.
  { intros e l. split.
    - intros ([r n] & E & Hx)%list_elem_of_fmap. apply slot_inj in E as [-> ->]. done.
    - intros Hx. by apply (list_elem_of_fmap_2 slot_of l (ce_inputRole e, ce_inputOrdinal e)). }
  assert (forall A (l : list A), (forall x, x ∈ l -> x ∉ []) <-> True) as Hnil.
  { intros A l. split; [done|]. intros _ x _. apply not_elem_of_nil. }
  rewrite !Hnil. setoid_rewrite Hin.
  assert ((ce_ordinal <$> pr_evidence input) ≡ₚ seqZ 0 (Z.of_nat (length (pr_evidence input))) ->
    NoDup (ce_ordinal <$> pr_evidence input)) as Hdense by (intros ->; apply NoDup_seqZ).
  intuition.
Qed.

(** the checks on inputs are exact. They pass exactly when every input has one of the
    expected roles, and for each of these the number of inputs is in its range and their
    ordinals are the numbers from zero on. *)
Theorem expected_inputs_exact input expected :
  expectInputs input expected = Done tt <->
  (forall i, i ∈ pr_inputs input -> exists role, role ∈ expected.*1 /\ ci_role i = lit role) /\
  (forall role low high, (role, (low, high)) ∈ expected ->
    let ordinals := ordinals_of (lit role) (pr_inputs input) in
    low <= Z.of_nat (length ordinals) <= high /\ ordinals ≡ₚ seqZ 0 (Z.of_nat (length ordinals))).
Proof.
  unfold expectInputs. rewrite then_iff, !check_each_iff, !Forall_forall. split.
  - intros [H1 H2]. split.
    + intros i Hi. specialize (H1 i Hi). cbn beta in H1. apply refuse_iff in H1 as [Hr _].
      apply negb_false_iff, bool_decide_eq_true, list_elem_of_fmap in Hr as (role & -> & Hr). by exists role.
    + intros role low high Hin. specialize (H2 _ Hin). cbn beta iota zeta in H2. rewrite !refuse_iff in H2.
      destruct H2 as ([Hl%Z.ltb_ge Hh%Z.ltb_ge]%orb_false_elim & Hd%negb_false_iff%dense_spec & _). cbn. split; [lia|done].
  - intros [H1 H2]. split.
    + intros i Hi. destruct (H1 i Hi) as (role & Hr & E). apply refuse_iff. split; [|done].
      rewrite E. apply negb_false_iff, bool_decide_eq_true. by apply list_elem_of_fmap_2.
    + intros [role [low high]] Hin. destruct (H2 role low high Hin) as [Hc Hd]. cbn beta iota zeta. rewrite !refuse_iff.
      split; [|split; [by apply negb_false_iff, dense_spec|done]].
      by rewrite !(proj2 (Z.ltb_ge _ _)) by lia.
Qed.

(** ** Outputs *)

(** An output and the slot it was checked against. *)
Definition fills (slot : ExpectedClientArtifact) (a : ClientRunArtifact) : Prop :=
  ca_localKey a = lit (ex_localKey slot) /\ fits_slot slot a = true /\
  forall blob, ca_blob a = Some blob -> blob_type_ok a blob = true.

Lemma expectArtifacts_spec input expected :
  expectArtifacts input expected = Done tt ->
  length (pr_artifacts input) = length expected /\
  exists l, Forall2 fills expected l /\ forall a, a ∈ l -> a ∈ pr_artifacts input.
Proof.
  unfold expectArtifacts. rewrite refuse_iff, check_each_iff. intros [Hl%negb_false_iff%Nat.eqb_eq H]. split; [done|]. clear Hl.
  induction H as [|slot expected Hs _ (l & IH & Hin)]; [by exists []; split; [constructor|]; intros a Ha; apply not_elem_of_nil in Ha|].
  cbn zeta in Hs. destruct (js_find _ _) as [a|] eqn:E; [|discriminate].
  apply js_find_Some in E as [Ha Hk%bool_decide_eq_true]. rewrite !refuse_iff in Hs. destruct Hs as (Hf%negb_false_iff & Hb & _).
  exists (a :: l). split.
  - constructor; [|done]. split; [done|]. split; [done|]. intros blob E. rewrite E in Hb. by apply negb_false_iff in Hb.
  - intros b [->|Hb']%elem_of_cons; [done|auto].
Qed.

(** the outputs are the declared ones. If the checks on outputs pass, and the common
    checks did, the outputs of the run are in one order exactly the expected ones: each
    has the key, the type and its version, the role and the ordinal of its own slot, and
    a blob if and only if the slot asks for one. *)
Theorem expected_outputs_are_exact input expected :
  NoDup (ca_localKey <$> pr_artifacts input) -> NoDup (ex_localKey <$> expected) ->
  expectArtifacts input expected = Done tt ->
  exists l, l ≡ₚ pr_artifacts input /\ Forall2 (fun slot a =>
    ca_localKey a = lit (ex_localKey slot) /\ ca_typeKey a = lit (ex_typeKey slot) /\
    ca_typeVersion a = ex_typeVersion slot /\ ca_role a = lit (ex_role slot) /\ ca_ordinal a = ex_ordinal slot /\
    (is_Some (ca_blob a) <-> ex_blob slot = true)) expected l.
Proof.
  intros Hn Hs (Hl & l & Hf & Hin)%expectArtifacts_spec. exists l. split.
  - apply submseteq_length_Permutation; [|by rewrite Hl, (Forall2_length _ _ _ Hf)].
    apply NoDup_submseteq; [|done].
    apply (NoDup_fmap_1 ca_localKey). assert (ca_localKey <$> l = lit <$> (ex_localKey <$> expected)) as ->.
    { clear -Hf. induction Hf as [|s a expected l [H _] _ IH]; cbn; [done|]. by rewrite H, IH. }
    assert (Inj (=) (=) lit) as Hlit by (intros ? ?; apply lit_inj). by apply NoDup_fmap.
  - eapply Forall2_impl; [exact Hf|]. intros s a (Hk & Hfit & _). unfold fits_slot in Hfit. bools.
    repeat match goal with H : (_ =? _) = true |- _ => apply Z.eqb_eq in H end.
    split_and!; try done. match goal with H : Bool.eqb _ _ = true |- _ => apply eqb_prop in H as -> end.
    by rewrite bool_decide_eq_true.
Qed.

(** ** Witnesses *)

Definition sample_blob : Blob := {| bl_mediaType := lit "application/json"; bl_base64 := lit "e30=" |}.
Definition sample_inspection : ClientRunArtifact :=
  {| ca_localKey := lit "inspection"; ca_typeKey := lit "core.file-inspection"; ca_typeVersion := 2;
     ca_payload := object []; ca_role := lit "inspection"; ca_ordinal := 0; ca_blob := Some sample_blob |}.
Definition sample_inspect_run : PublishClientRunInput :=
  {| pr_userId := lit "anna"; pr_scopeId := lit "scope"; pr_publicationId := lit "p";
     pr_procedureKey := lit "client.inspect-file"; pr_procedureVersion := lit "client-v1"; pr_inputs := [];
     pr_parameters := object []; pr_artifacts := [sample_inspection]; pr_evidence := [] |}.

Lemma expected_outputs_are_exact_witness :
  exists l, l ≡ₚ [sample_inspection] /\ Forall2 (fun slot a => ca_typeKey a = lit (ex_typeKey slot)) [inspectionOutput] l.
Proof.
  destruct (expected_outputs_are_exact sample_inspect_run [inspectionOutput]) as (l & Hp & Hf).
  - apply NoDup_singleton.
  - apply NoDup_singleton.
  - vm_compute. reflexivity.
  - exists l. split; [exact Hp|]. exact (Forall2_impl _ _ _ _ Hf (fun s a H => proj1 (proj2 H))).
Defined.
