(* ===== verification/ArtifactService.v ===== *)
(** * The artifact service

    [ArtifactFileService] of
    [services/aven-api/src/lib/server/artifacts/service.ts], for one database and
    scope: the publication of client runs and files, the browser of a scope and the
    evidence of an artifact.  Methods are scripts over the requests of Store.v.
    [Buffer.from(text, 'base64')], the text decoders and the digest of the platform
    are parameters. *)

From S2P Require Import Prelude Base64 Csv Canonical Store ClientContract.

Open Scope stdpp_scope.
Open Scope js_scope.
Local Open Scope Z_scope.

Definition MAX_ARTIFACT_FILE_BYTES : Z := 25 * 1024 * 1024.

(** ** Reading responses *)

Definition invalid_response (message : text) : error :=
  AppError 502 (lit "ARTIFACT_STORE_INVALID_RESPONSE") message.

Definition record_of (value : ArtifactJson) (label : text) : checked entries :=
  match value with AObject l => Done l | _ => Raise (invalid_response (label ++ lit " was not an object.")) end.

Definition field_invalid (label : text) (key : string) : error :=
  invalid_response (label ++ lit "." ++ lit key ++ lit " was invalid.").
Definition stringField (value : entries) (key : string) (label : text) : checked text :=
  match get key value with Some (AString s) => Done s | _ => Raise (field_invalid label key) end.
Definition numberField (value : entries) (key : string) (label : text) : checked Z :=
  match get key value with Some (ANumber n) => Done n | _ => Raise (field_invalid label key) end.
Definition booleanField (value : entries) (key : string) (label : text) : checked bool :=
  match get key value with Some (ABool b) => Done b | _ => Raise (field_invalid label key) end.

Fixpoint map_each {A B} (f : A -> checked B) (l : list A) : checked (list B) :=
  match l with [] => Done [] | x :: l => y ← f x; rest ← map_each f l; Done (y :: rest) end.

Record ArtifactLineageInput := { li_role : text; li_ordinal : Z; li_artifactId : text }.

Definition lineageInputs (value : option ArtifactJson) : checked (list ArtifactLineageInput) :=
  match value with
  | None => Done []
  | Some (AArray items) =>
      map_each (fun inputValue =>
        let label := lit "run input" in
        input ← record_of inputValue label;
        role ← stringField input "role" label;
        ordinal ← numberField input "ordinal" label;
        artifactId ← stringField input "artifactId" label;
        Done {| li_role := role; li_ordinal := ordinal; li_artifactId := artifactId |}) items
  | Some _ => Raise (invalid_response (lit "publication.inputs was invalid."))
  end.

Inductive ArtifactLocator :=
| ArtifactRoot
| JsonPointer (pointer : text)
| ByteRange (start endExclusive : Z)
| PageRegion (page x y width height : Z).

Definition locator (value : option ArtifactJson) (label : text) : checked ArtifactLocator :=
  source ← record_of (or_null value) label;
  kind ← stringField source "kind" label;
  if bool_decide (kind = lit "artifact-root") then Done ArtifactRoot
  else if bool_decide (kind = lit "json-pointer") then
    pointer ← stringField source "pointer" label; Done (JsonPointer pointer)
  else if bool_decide (kind = lit "byte-range") then
    start ← numberField source "start" label;
    endExclusive ← numberField source "endExclusive" label;
    Done (ByteRange start endExclusive)
  else if bool_decide (kind = lit "page-region") then
    page ← numberField source "page" label;
    x ← numberField source "x" label;
    y ← numberField source "y" label;
    width ← numberField source "width" label;
    height ← numberField source "height" label;
    Done (PageRegion page x y width height)
  else Raise (invalid_response (label ++ lit ".kind was invalid.")).

Record ArtifactEvidence := {
  ae_ordinal : Z;
  ae_outputArtifactId : text;
  ae_outputLocator : ArtifactLocator;
  ae_inputRole : text;
  ae_inputOrdinal : Z;
  ae_inputArtifactId : text;
  ae_inputLocator : ArtifactLocator
}.

Definition artifactEvidence (value : option ArtifactJson) : checked (list ArtifactEvidence) :=
  match value with
  | None => Done []
  | Some (AArray items) =>
      map_each (fun evidenceValue =>
        let label := lit "artifact evidence" in
        evidence ← record_of evidenceValue label;
        ordinal ← numberField evidence "ordinal" label;
        outputArtifactId ← stringField evidence "outputArtifactId" label;
        outputLocator ← locator (get "outputLocator" evidence) (lit "artifact evidence.outputLocator");
        inputRole ← stringField evidence "inputRole" label;
        inputOrdinal ← numberField evidence "inputOrdinal" label;
        inputArtifactId ← stringField evidence "inputArtifactId" label;
        inputLocator ← locator (get "inputLocator" evidence) (lit "artifact evidence.inputLocator");
        Done {| ae_ordinal := ordinal; ae_outputArtifactId := outputArtifactId; ae_outputLocator := outputLocator;
                ae_inputRole := inputRole; ae_inputOrdinal := inputOrdinal; ae_inputArtifactId := inputArtifactId;
                ae_inputLocator := inputLocator |}) items
  | Some _ => Raise (invalid_response (lit "supporting evidence was invalid."))
  end.

Definition evidence (artifactId : text) : script (list ArtifactEvidence) :=
  answer ← ask (SupportingEvidence artifactId);
  resource ← lift (record_of answer (lit "supporting evidence"));
  named ← lift (stringField resource "artifactId" (lit "supporting evidence"));
  _ ← lift (refuse_if (negb (bool_decide (named = artifactId)))
              (invalid_response (lit "Supporting evidence named a different artifact.")));
  lift (artifactEvidence (get "evidence" resource)).

(** ** Errors of the service *)

(** The [catch] of [publishClientRun], with the statuses it passes on, and of [browse]. *)
Definition reported {A} (passed : list Z) (m : script A) : script A :=
  catch (fun e => match e with
                  | AppError _ _ _ => Throws e
                  | StoreProblem status code message =>
                      Throws (AppError (if bool_decide (status ∈ passed) then status else 502) code message)
                  | OtherError _ =>
                      Throws (AppError 502 (lit "ARTIFACT_STORE_UNAVAILABLE") (lit "Artifact Store is unavailable."))
                  end) m.

(** ** Browsing *)

Record BrowsedArtifact := {
  br_artifactId : text;
  br_localKey : text;
  br_publicationOrdinal : Z;
  br_typeKey : text;
  br_typeVersion : Z;
  br_artifactSha256 : text;
  br_producerRunId : option text;
  br_output : ArtifactJson;
  br_inputs : list ArtifactLineageInput;
  br_publicationId : text;
  br_scopeSequence : Z;
  br_publicationKind : text;
  br_runId : option text;
  br_committedAt : text
}.
Record ArtifactBrowseResult := { bw_storeEpoch : text; bw_artifacts : list BrowsedArtifact; bw_truncated : bool }.

Definition string_option (o : option ArtifactJson) : option text :=
  match o with Some (AString s) => Some s | _ => None end.

Definition browsed (item : entries) (artifactValue : ArtifactJson) : checked BrowsedArtifact :=
  let label := lit "feed artifact" in
  artifact ← record_of artifactValue label;
  artifactId ← stringField artifact "artifactId" label;
  localKey ← stringField artifact "localKey" label;
  publicationOrdinal ← numberField artifact "publicationOrdinal" label;
  typeKey ← stringField artifact "typeKey" label;
  typeVersion ← numberField artifact "typeVersion" label;
  artifactSha256 ← stringField artifact "artifactSha256" label;
  publicationId ← stringField item "publicationId" (lit "publication");
  scopeSequence ← numberField item "scopeSequence" (lit "publication");
  publicationKind ← stringField item "kind" (lit "publication");
  committedAt ← stringField item "committedAt" (lit "publication");
  Done {| br_artifactId := artifactId; br_localKey := localKey; br_publicationOrdinal := publicationOrdinal;
          br_typeKey := typeKey; br_typeVersion := typeVersion; br_artifactSha256 := artifactSha256;
          br_producerRunId := string_option (get "producerRunId" artifact);
          br_output := or_null (get "output" artifact); br_inputs := [];
          br_publicationId := publicationId; br_scopeSequence := scopeSequence;
          br_publicationKind := publicationKind; br_runId := string_option (get "runId" item);
          br_committedAt := committedAt |}.

Definition browsed_item (itemValue : ArtifactJson) : checked (list BrowsedArtifact) :=
  item ← record_of itemValue (lit "publication");
  match get "artifacts" item with
  | Some (AArray published) => map_each (browsed item) published
  | _ => Done []
  end.

Definition pageLimit : Z := 1000.
Definition maximumPublications : Z := 10000.
Definition maximumArtifacts : nat := Z.to_nat 2000.

(** [artifacts.splice(0, artifacts.length - maximumArtifacts)] when there are more. *)
Definition newest {A} (l : list A) : list A := drop (length l - maximumArtifacts) l.

(** The [while] loop; [None] only if the fuel was not enough. *)
Fixpoint feed_loop (fuel : nat) (storeEpoch : text) (artifacts : list BrowsedArtifact)
    (afterSequence publicationsRead : Z) (truncated : bool) : script (option (list BrowsedArtifact * bool)) :=
  if negb (publicationsRead <? maximumPublications) then Return (Some (artifacts, truncated))
  else match fuel with
  | O => Return None
  | S fuel =>
      answer ← ask (Feed storeEpoch afterSequence pageLimit);
      page ← lift (record_of answer (lit "publication feed"));
      match get "items" page with
      | Some (AArray items) =>
          found ← lift (map_each browsed_item items);
          let artifacts := newest (artifacts ++ mjoin found) in
          let publicationsRead := publicationsRead + Z.of_nat (length items) in
          match get "nextAfterSequence" page with
          | Some (ANumber next) =>
              if (next <=? afterSequence) || Nat.eqb (length items) 0 then Return (Some (artifacts, truncated))
              else feed_loop fuel storeEpoch artifacts next publicationsRead
                     (truncated || (maximumPublications <=? publicationsRead))
          | _ => Return (Some (artifacts, truncated))
          end
      | _ => Throws (invalid_response (lit "Artifact Store publication feed was invalid."))
      end
  end.

(** The first artifact of every run, in the order of the runs. *)
Fixpoint representatives (seen : list text) (l : list BrowsedArtifact) : list (text * BrowsedArtifact) :=
  match l with
  | [] => []
  | a :: l =>
      match br_producerRunId a with
      | Some runId =>
          if bool_decide (runId = []) || bool_decide (runId ∈ seen) then representatives seen l
          else (runId, a) :: representatives (runId :: seen) l
      | None => representatives seen l
      end
  end.

Definition producer_inputs (runId : text) (artifact : BrowsedArtifact) : script (text * list ArtifactLineageInput) :=
  let label := lit "producer inputs" in
  answer ← ask (ProducerInputs (br_artifactId artifact));
  resource ← lift (record_of answer label);
  artifactId ← lift (stringField resource "artifactId" label);
  different ← lift (if bool_decide (artifactId = br_artifactId artifact)
                    then producerRunId ← stringField resource "producerRunId" label;
                         Done (negb (bool_decide (producerRunId = runId)))
                    else Done true);
  _ ← lift (refuse_if different (invalid_response (lit "Producer inputs named a different artifact or run.")));
  inputs ← lift (lineageInputs (get "inputs" resource));
  Return (runId, inputs).

Definition with_inputs (inputsByRun : list (text * list ArtifactLineageInput)) (a : BrowsedArtifact) : BrowsedArtifact :=
  {| br_artifactId := br_artifactId a; br_localKey := br_localKey a; br_publicationOrdinal := br_publicationOrdinal a;
     br_typeKey := br_typeKey a; br_typeVersion := br_typeVersion a; br_artifactSha256 := br_artifactSha256 a;
     br_producerRunId := br_producerRunId a; br_output := br_output a;
     br_inputs := match br_producerRunId a with
                  | Some runId => if bool_decide (runId = []) then [] else
                                  match map_get runId inputsByRun with Some inputs => inputs | None => [] end
                  | None => []
                  end;
     br_publicationId := br_publicationId a; br_scopeSequence := br_scopeSequence a;
     br_publicationKind := br_publicationKind a; br_runId := br_runId a; br_committedAt := br_committedAt a |}.

(** One turn for every publication read, at most. *)
Definition BROWSE_FUEL : nat := Z.to_nat maximumPublications.

(** [inChunks] asks 16 runs at a time; the model asks one after the other, and [None] stands for
    fuel that was not enough. *)
Definition browse : script (option ArtifactBrowseResult) :=
  reported [] (
    answer ← ask Context;
    context ← lift (record_of answer (lit "context"));
    storeEpoch ← lift (stringField context "storeEpoch" (lit "context"));
    read ← feed_loop BROWSE_FUEL storeEpoch [] 0 0 false;
    match read with
    | None => Return None
    | Some (artifacts, truncated) =>
        inputsByRun ← each (fun e => producer_inputs e.1 e.2) (representatives [] artifacts);
        Return (Some {| bw_storeEpoch := storeEpoch;
                        bw_artifacts := reverse (with_inputs inputsByRun <$> artifacts);
                        bw_truncated := truncated |})
    end).

(** ** Publishing a client run *)

(** The JSON value of a detection, as [detectCsvStatement] returns it. *)
Definition json_text (o : option text) : ArtifactJson := match o with Some t => AString t | None => ANull end.
Definition json_number (o : option Z) : ArtifactJson := match o with Some n => ANumber n | None => ANull end.

Definition transaction_json (t : Transaction) : ArtifactJson := object [
  ("transactionId", json_text (tx_transactionId t)); ("bookingDate", AString (tx_bookingDate t));
  ("valueDate", AString (tx_valueDate t)); ("title", json_text (tx_title t));
  ("amountMinor", ANumber (tx_amountMinor t)); ("counterpartyName", AString (tx_counterpartyName t));
  ("counterpartyIban", json_text (tx_counterpartyIban t)); ("description", AString (tx_description t));
  ("originalAmountMinor", ANull); ("originalCurrency", ANull); ("exchangeRate", ANull);
  ("fxSurchargeMinor", ANull); ("foreignExchangeFeeBps", ANull);
  ("balanceAfterMinor", json_number (tx_balanceAfterMinor t)); ("sourceRow", ANumber (tx_sourceRow t))].

Definition statement_json (s : Statement) : ArtifactJson := object [
  ("statementKind", str "transaction-overview"); ("currency", str "EUR"); ("accountHolder", ANull);
  ("accountHolderAddress", ANull); ("accountHolderDetails", ANull); ("institution", ANull);
  ("accountIban", AString (sm_accountIban s)); ("accountBic", ANull); ("accountNumber", ANull);
  ("productName", ANull); ("openingBalanceMinor", ANull); ("closingBalanceMinor", ANull);
  ("periodStart", ANull); ("periodEnd", ANull); ("transactions", AArray (transaction_json <$> sm_transactions s));
  ("notes", str "CSV export; full-period completeness and bank authenticity are not established.");
  ("summary", AString (decimal (Z.of_nat (length (sm_transactions s))) ++
     lit " CSV bookings. Document-type confirmation required before reconciliation."))].

Definition statement_field (d : CsvDetection) : ArtifactJson :=
  match cd_statement d with Some s => statement_json s | None => ANull end.

Definition detection_json (d : CsvDetection) : ArtifactJson := object [
  ("sourceArtifactId", AString (cd_sourceArtifactId d)); ("sourceSha256", AString (cd_sourceSha256 d));
  ("detectorVersion", str CSV_DETECTOR_VERSION); ("eligible", ABool (cd_eligible d));
  ("profile", match cd_profile d with Some p => str p | None => ANull end); ("reason", str (cd_reason d));
  ("statement", statement_field d)].

(** [value ?? '']. *)
Definition or_empty (o : option ArtifactJson) : ArtifactJson :=
  match o with Some ANull | None => AString [] | Some v => v end.

Definition sameJson (l r : option ArtifactJson) : checked bool :=
  match l, r with
  | Some v, Some w =>
      s ← of_result (canonicalArtifactJsonText v);
      t ← of_result (canonicalArtifactJsonText w);
      Done (bool_decide (s = t))
  | _, _ => Done false
  end.

(** [input.inputs.find(...)!.artifactId] and [input.artifacts[0]!]. *)
Definition input_id (role : string) (input : PublishClientRunInput) : checked text :=
  match input_of (lit role) (pr_inputs input) with
  | Some i => Done (ci_artifactId i)
  | None => Raise (OtherError (lit "TypeError"))
  end.
Definition first_payload (input : PublishClientRunInput) : checked ArtifactJson :=
  match pr_artifacts input with a :: _ => Done (ca_payload a) | [] => Raise (OtherError (lit "TypeError")) end.

Definition is_procedure (input : PublishClientRunInput) (keys : list string) : bool :=
  bool_decide (pr_procedureKey input ∈ lit <$> keys).

(** What a confirmation of a detection says, without its decision. *)
Definition expected_confirmation (sourceId sourceSha256 detectionId : text) : list (string * ArtifactJson) :=
  [("sourceArtifactId", AString sourceId); ("sourceSha256", AString sourceSha256);
   ("detectorVersion", str CSV_DETECTOR_VERSION); ("detectionArtifactId", AString detectionId)].

Section Service.
Context (utf8 windows1252 : list Z -> option text) (digest : list Z -> list Z) (fromBase64 : text -> list Z).

(** The committed source of a CSV procedure, with its bytes. *)
Definition csv_source (sourceId : text) : script (text * text * bool * list Z) :=
  answer ← ask (Artifact sourceId);
  sourceEnvelope ← lift (record_of answer (lit "CSV source"));
  sourcePayload ← lift (record_of (or_null (get "payload" sourceEnvelope)) (lit "CSV source payload"));
  originalName ← lift (of_result (String_stored (or_empty (get "originalName" sourcePayload))));
  declaredMediaType ← lift (of_result (String_stored (or_empty (get "declaredMediaType" sourcePayload))));
  bytes ← ask (Content sourceId);
  Return (originalName, declaredMediaType, is_string (get "typeKey" sourceEnvelope) (lit "core.file"), bytes).

Definition check_confirmation (input : PublishClientRunInput) (confirmationId : text)
    (expected : list (string * ArtifactJson)) : checked unit :=
  payload ← first_payload input;
  decision ← record_of payload (lit "CSV decision");
  differs ← or_check (negb (bool_decide (pr_publicationId input = confirmationId)) ||
                      negb (one_of ["accepted"; "rejected"] (get "decision" decision)))
              (same ← sameJson (Some (AObject decision))
                        (Some (object (expected ++ [("decision", or_null (get "decision" decision))])));
               Done (negb same));
  refuse! differs as
    invalidClientContract (lit "CSV confirmation differs from the exact detection revision."); Done tt.

Definition check_admission (input : PublishClientRunInput) (confirmationId : text)
    (expected : list (string * ArtifactJson)) (statement : ArtifactJson) : script unit :=
  confirmed ← committedClientRun digest (pr_scopeId input) confirmationId;
  let refused := invalidClientContract (lit "CSV statement requires its exact stored human confirmation.") in
  match confirmed with
  | None => Throws refused
  | Some confirmed =>
      differs ← lift (
        or_check (negb (bool_decide (cr_procedureKey confirmed = lit "client.confirm-csv-statement")) ||
                  negb (bool_decide (cr_procedureVersion confirmed = lit "client-v1")))
          (accepted ← sameJson (dr_payload <$> head (cr_artifacts confirmed))
                        (Some (object (expected ++ [("decision", str "accepted")])));
           or_check (negb accepted)
             (confirmationInput ← input_id "confirmation" input;
              or_check (negb (bool_decide (snd <$> head (cr_outputs confirmed) = Some confirmationInput)))
                (payload ← first_payload input;
                 same ← sameJson (Some payload) (Some statement);
                 Done (negb same)))));
      lift (refuse_if differs refused)
  end.

Definition check_csv (input : PublishClientRunInput) : script unit :=
  if negb (is_procedure input
    ["client.detect-csv-statement"; "client.confirm-csv-statement"; "client.admit-csv-statement"]) then Return tt
  else
    sourceId ← lift (input_id "source" input);
    source ← csv_source sourceId;
    let '(originalName, declaredMediaType, is_file, bytes) := source in
    _ ← lift (refuse_if (negb is_file || negb (isCsvSource originalName declaredMediaType))
                (invalidClientContract (lit "CSV procedure requires a committed CSV source.")));
    verified ← lift (of_result (detectCsvStatement utf8 windows1252 digest sourceId (toBase64 bytes)));
    if is_procedure input ["client.detect-csv-statement"] then
      payload ← lift (first_payload input);
      same ← lift (sameJson (Some payload) (Some (detection_json verified)));
      lift (refuse_if (negb same)
              (invalidClientContract (lit "CSV detection differs from the committed source bytes.")))
    else
      detectionId ← lift (input_id "detection" input);
      answer ← ask (Artifact detectionId);
      detection ← lift (record_of answer (lit "CSV detection"));
      differs ← lift (
        or_check (negb (cd_eligible verified) ||
                  negb (is_string (get "typeKey" detection) (lit "banking.csv-statement-detection")) ||
                  negb (is_number (get "typeVersion" detection) 1))
          (same ← sameJson (get "payload" detection) (Some (detection_json verified)); Done (negb same)));
      _ ← lift (refuse_if differs
                  (invalidClientContract (lit "CSV detection is not eligible or differs from this source.")));
      let expected := expected_confirmation sourceId (cd_sourceSha256 verified) detectionId in
      let confirmationId := csvConfirmationIdentity digest sourceId (cd_sourceSha256 verified) in
      if is_procedure input ["client.confirm-csv-statement"]
      then lift (check_confirmation input confirmationId expected)
      else check_admission input confirmationId expected (statement_field verified).

Definition check_financial (input : PublishClientRunInput) : script unit :=
  if negb (is_procedure input ["client.extract-statement-model"; "client.extract-invoice-model"]) then Return tt
  else
    sourceId ← lift (input_id "source" input);
    answer ← ask (Artifact sourceId);
    source ← lift (record_of answer (lit "financial source"));
    payload ← lift (record_of (or_null (get "payload" source)) (lit "financial source payload"));
    originalName ← lift (of_result (String_stored (or_empty (get "originalName" payload))));
    declaredMediaType ← lift (of_result (String_stored (or_empty (get "declaredMediaType" payload))));
    lift (refuse_if (isCsvSource originalName declaredMediaType)
            (invalidClientContract (lit "CSV finance extraction must use the human-confirmed CSV lane."))).

(** The input of a ranked candidate with a role and an ordinal. *)
Definition lineage_of (role : string) (ordinal : option ArtifactJson) (inputs : list ArtifactLineageInput) : option text :=
  li_artifactId <$> js_find (fun item => bool_decide (li_role item = lit role) && is_number ordinal (li_ordinal item)) inputs.

Definition pair_identity (invoiceId transactionId : text) : text :=
  clientRunIdentity digest (stringify_texts [lit "reconciliation-decision-v2"; invoiceId; transactionId]).

Definition check_review (input : PublishClientRunInput) : script unit :=
  if negb (is_procedure input ["client.review-reconciliation"]) then Return tt
  else
    candidateId ← lift (input_id "match-candidate" input);
    answer ← ask (Artifact candidateId);
    candidate ← lift (record_of answer (lit "match candidate"));
    _ ← lift (refuse_if (negb (is_string (get "typeKey" candidate) (lit "reconciliation.match-candidate")))
                (invalidClientContract (lit "Review input is not a match candidate.")));
    payload ← lift (record_of (or_null (get "payload" candidate)) (lit "match candidate payload"));
    answer ← ask (ProducerInputs candidateId);
    producer ← lift (record_of answer (lit "match candidate inputs"));
    inputs ← lift (lineageInputs (get "inputs" producer));
    let refused := invalidClientContract (lit "Review artifacts do not match the ranked evidence.") in
    match lineage_of "open-item" (Some (ANumber 0)) inputs,
          lineage_of "transaction" (get "transactionInputOrdinal" payload) inputs with
    | Some invoiceId, Some transactionId =>
        differs ← lift (
          or_check (bool_decide (invoiceId = []) || bool_decide (transactionId = []))
            (openItem ← input_id "open-item" input;
             or_check (negb (bool_decide (invoiceId = openItem)))
               (transaction ← input_id "transaction" input;
                Done (negb (bool_decide (transactionId = transaction))))));
        _ ← lift (refuse_if differs refused);
        lift (refuse_if (negb (bool_decide (pr_publicationId input = pair_identity invoiceId transactionId)))
                (invalidClientContract (lit "Review publication must use its exact pair identity.")))
    | _, _ => Throws refused
    end.

(** *** Uploads *)

Definition maximumBlobBytes (input : PublishClientRunInput) : Z :=
  if is_procedure input ["client.inspect-file"] then MAX_ARTIFACT_FILE_BYTES else 4 * 1024 * 1024.

Definition output_json (role : text) (ordinal : Z) : ArtifactJson :=
  object [("role", AString role); ("ordinal", ANumber ordinal)].

Definition artifact_json (output : ClientRunArtifact) (blob : ArtifactJson) : ArtifactJson := object [
  ("localKey", AString (ca_localKey output)); ("typeKey", AString (ca_typeKey output));
  ("typeVersion", ANumber (ca_typeVersion output)); ("payload", ca_payload output); ("blob", blob);
  ("references", AArray []); ("output", output_json (ca_role output) (ca_ordinal output))].

(** The loop over the outputs: what was uploaded, the authorities for it, and the artifacts to publish. *)
Fixpoint upload_outputs (input : PublishClientRunInput) (totalBlobBytes : Z) (blobAuthorities : entries)
    (artifacts : list ArtifactJson) (l : list ClientRunArtifact) : script (entries * list ArtifactJson) :=
  match l with
  | [] => Return (blobAuthorities, artifacts)
  | output :: l =>
      match ca_blob output with
      | None => upload_outputs input totalBlobBytes blobAuthorities (artifacts ++ [artifact_json output ANull]) l
      | Some blob =>
          let bytes := fromBase64 (bl_base64 blob) in
          let total := totalBlobBytes + Z.of_nat (length bytes) in
          _ ← lift (refuse_if (negb (bool_decide (toBase64 bytes = bl_base64 blob)))
                      (AppError 400 (lit "CLIENT_BLOB_INVALID") (lit "A client output blob was not canonical base64.")));
          _ ← lift (refuse_if (maximumBlobBytes input <? total)
                      (AppError 413 (lit "CLIENT_BLOB_TOO_LARGE") (lit "Client run blobs exceed their procedure limit.")));
          let sha256 := hex_digest digest bytes in
          claimId ← ask RandomUUID;
          _ ← ask (Upload claimId sha256 (Z.of_nat (length bytes)) (bl_mediaType blob) (Bytes bytes));
          let claim := object [("kind", str "upload-claim"); ("claimId", AString claimId)] in
          let blob := object [("sha256", AString sha256); ("length", ANumber (Z.of_nat (length bytes)))] in
          upload_outputs input total (map_set (ca_localKey output) claim blobAuthorities)
            (artifacts ++ [artifact_json output blob]) l
      end
  end.

(** *** The submission *)

Definition input_json (i : ClientInput) : ArtifactJson := object [
  ("role", AString (ci_role i)); ("ordinal", ANumber (ci_ordinal i)); ("artifactId", AString (ci_artifactId i))].
Definition evidence_json (e : ClientRunEvidence) : ArtifactJson := object [
  ("ordinal", ANumber (ce_ordinal e)); ("outputLocalKey", AString (ce_outputLocalKey e));
  ("outputLocator", ce_outputLocator e); ("inputRole", AString (ce_inputRole e));
  ("inputOrdinal", ANumber (ce_inputOrdinal e)); ("inputLocator", ce_inputLocator e)].

Definition receipt_json (d : ClientProcedureDescriptor) (input : PublishClientRunInput) : checked ArtifactJson :=
  if dc_deterministic d then Done (object [("outcome", str "succeeded")])
  else
    parameters ← clientRecord (pr_parameters input) (lit "model parameters");
    Done (object [("outcome", str "succeeded"); ("model", or_null (get "modelReceipt" parameters))]).

Definition run_json (d : ClientProcedureDescriptor) (input : PublishClientRunInput) (receipt : ArtifactJson) : ArtifactJson :=
  object [
    ("procedureKey", AString (pr_procedureKey input)); ("procedureVersion", AString (pr_procedureVersion input));
    ("initiator", object [("kind", str "user"); ("id", AString (lit "user:" ++ pr_userId input))]);
    ("executor", object [("kind", str "agent"); ("id", str (dc_actor d))]);
    ("inputs", AArray (input_json <$> pr_inputs input)); ("parameters", pr_parameters input);
    ("implementation", object [("adapter", str "avenos-client-actor"); ("version", str "client-v1");
                               ("deterministic", ABool (dc_deterministic d))]);
    ("receipt", receipt)].

Definition submission_json (input : PublishClientRunInput) (run : ArtifactJson) (artifacts : list ArtifactJson)
    (blobAuthorities : entries) : ArtifactJson :=
  object [
    ("intent", object [
      ("commandVersion", ANumber 1); ("publicationId", AString (pr_publicationId input));
      ("scopeId", AString (pr_scopeId input)); ("kind", str "run"); ("run", run);
      ("artifacts", AArray artifacts); ("evidence", AArray (evidence_json <$> pr_evidence input))]);
    ("blobAuthorities", AObject blobAuthorities)].

Record PublishedClientRun := {
  pc_publicationId : text;
  pc_runId : text;
  pc_replayed : bool;
  pc_scopeSequence : Z;
  pc_artifacts : list (text * text)
}.

Definition published_run (publication : entries) : checked PublishedClientRun :=
  let label := lit "publication" in
  match get "artifacts" publication with
  | Some (AArray published) =>
      publicationId ← stringField publication "publicationId" label;
      runId ← stringField publication "runId" label;
      replayed ← booleanField publication "replayed" label;
      scopeSequence ← numberField publication "scopeSequence" label;
      artifacts ← map_each (fun value =>
        item ← record_of value (lit "published artifact");
        localKey ← stringField item "localKey" (lit "published artifact");
        artifactId ← stringField item "artifactId" (lit "published artifact");
        Done (localKey, artifactId)) published;
      Done {| pc_publicationId := publicationId; pc_runId := runId; pc_replayed := replayed;
              pc_scopeSequence := scopeSequence; pc_artifacts := artifacts |}
  | _ => Raise (invalid_response (lit "Artifact Store returned no client run outputs."))
  end.

(** What is checked before anything is sent, and what is sent. *)
Definition check_run (input : PublishClientRunInput) : script ClientProcedureDescriptor :=
  d ← lift (validate_run input);
  _ ← check_csv input;
  _ ← check_financial input;
  _ ← check_review input;
  Return d.

Definition send_run (d : ClientProcedureDescriptor) (input : PublishClientRunInput) : script PublishedClientRun :=
  answer ← ask Context;
  context ← lift (record_of answer (lit "context"));
  storeEpoch ← lift (stringField context "storeEpoch" (lit "context"));
  uploaded ← upload_outputs input 0 [] [] (pr_artifacts input);
  receipt ← lift (receipt_json d input);
  answer ← publish (pr_publicationId input) storeEpoch
             (submission_json input (run_json d input receipt) uploaded.2 uploaded.1);
  publication ← lift (record_of answer (lit "publication"));
  lift (published_run publication).

Definition publishClientRun (input : PublishClientRunInput) : script PublishedClientRun :=
  reported [400; 409] (d ← check_run input; send_run d input).
End Service.

(** ** Publishing a file *)

Record PublishFileInput := {
  pf_userId : text;
  pf_scopeId : text;
  pf_publicationId : text;
  pf_intentId : text;
  pf_observedAt : text;
  pf_originalName : text;
  pf_mediaType : text;
  pf_sha256 : text;
  pf_length : Z;
  pf_sourceKind : text;
  pf_executionEnvironment : option text
}.
Record PublishedFile := {
  fl_publicationId : text;
  fl_intentId : text;
  fl_intentDeclarationArtifactId : text;
  fl_artifactId : text;
  fl_originalName : text;
  fl_mediaType : text;
  fl_sha256 : text;
  fl_length : Z;
  fl_scopeSequence : Z;
  fl_replayed : bool
}.

Definition file_blob (input : PublishFileInput) : ArtifactJson :=
  object [("sha256", AString (pf_sha256 input)); ("length", ANumber (pf_length input))].

Definition file_submission (input : PublishFileInput) (claimId : text) : ArtifactJson :=
  object [
    ("intent", object [
      ("commandVersion", ANumber 1); ("publicationId", AString (pf_publicationId input));
      ("scopeId", AString (pf_scopeId input)); ("kind", str "roots");
      ("rootActor", object [("kind", str "user"); ("id", AString (lit "user:" ++ pf_userId input))]);
      ("artifacts", AArray [
        object [
          ("localKey", str "file"); ("typeKey", str "core.file"); ("typeVersion", ANumber 1);
          ("payload", object (
            [("originalName", AString (pf_originalName input)); ("declaredMediaType", AString (pf_mediaType input));
             ("sourceKind", AString (pf_sourceKind input))] ++
            match pf_executionEnvironment input with
            | Some environment =>
                if bool_decide (environment = []) then [] else [("executionEnvironment", AString environment)]
            | None => []
            end));
          ("blob", file_blob input); ("references", AArray []); ("output", ANull)];
        object [
          ("localKey", str "intent"); ("typeKey", str "intent.declaration"); ("typeVersion", ANumber 1);
          ("payload", object [
            ("intentId", AString (pf_intentId input)); ("title", AString (pf_originalName input));
            ("triggerKind", str "file-upload"); ("observedAt", AString (pf_observedAt input))]);
          ("blob", ANull); ("references", AArray []); ("output", ANull)]]);
      ("evidence", AArray [])]);
    ("blobAuthorities", object [
      ("file", object [("kind", str "upload-claim"); ("claimId", AString claimId)])])].

Definition published_file (input : PublishFileInput) (answer : ArtifactJson) : checked PublishedFile :=
  publication ← record_of answer (lit "publication");
  match get "artifacts" publication with
  | Some (AArray [first; second]) =>
      artifact ← record_of first (lit "artifact");
      localKey ← stringField artifact "localKey" (lit "artifact");
      refuse! negb (bool_decide (localKey = lit "file")) as
        invalid_response (lit "Artifact Store returned an unexpected local key.");
      intentArtifact ← record_of second (lit "intentArtifact");
      intentKey ← stringField intentArtifact "localKey" (lit "intentArtifact");
      refuse! negb (bool_decide (intentKey = lit "intent")) as
        invalid_response (lit "Artifact Store returned an unexpected intent local key.");
      publicationId ← stringField publication "publicationId" (lit "publication");
      intentDeclarationArtifactId ← stringField intentArtifact "artifactId" (lit "intentArtifact");
      artifactId ← stringField artifact "artifactId" (lit "artifact");
      scopeSequence ← numberField publication "scopeSequence" (lit "publication");
      replayed ← booleanField publication "replayed" (lit "publication");
      Done {| fl_publicationId := publicationId; fl_intentId := pf_intentId input;
              fl_intentDeclarationArtifactId := intentDeclarationArtifactId; fl_artifactId := artifactId;
              fl_originalName := pf_originalName input; fl_mediaType := pf_mediaType input;
              fl_sha256 := pf_sha256 input; fl_length := pf_length input; fl_scopeSequence := scopeSequence;
              fl_replayed := replayed |}
  | _ => Raise (invalid_response (lit "Artifact Store did not return the file and intent declaration."))
  end.

(** The body is a stream the store checks against the declaration. *)
Definition publishFile (input : PublishFileInput) : script PublishedFile :=
  reported [409; 413] (
    answer ← ask Context;
    context ← lift (record_of answer (lit "context"));
    storeEpoch ← lift (stringField context "storeEpoch" (lit "context"));
    claimId ← ask RandomUUID;
    answer ← ask (Upload claimId (pf_sha256 input) (pf_length input) (pf_mediaType input) Stream);
    upload ← lift (record_of answer (lit "upload"));
    sha256 ← lift (stringField upload "sha256" (lit "upload"));
    different ← lift (if bool_decide (sha256 = pf_sha256 input)
                      then length ← numberField upload "length" (lit "upload"); Done (negb (length =? pf_length input))
                      else Done true);
    _ ← lift (refuse_if different (invalid_response (lit "Artifact Store confirmed different upload bytes.")));
    answer ← publish (pf_publicationId input) storeEpoch (file_submission input claimId);
    lift (published_file input answer)).
