(* ===== verification/Publishing.v ===== *)
(** * What is published, and what goes wrong

    Theorems on [ArtifactService.v] and on [committedClientRun] of [Store.v].  They hold for
    every store: [runs] gives all exchanges a method can have.  The second part is about the
    errors that leave the service. *)

From S2P Require Import Prelude Base64 Csv CsvStatements Canonical Store ClientContract ArtifactService.

Open Scope stdpp_scope.
Open Scope js_scope.
Local Open Scope Z_scope.

(** ** Requests *)

Definition is_write (q : request) : bool :=
  match q with Upload _ _ _ _ _ | Publish _ _ _ => true | _ => false end.
Definition is_publish (q : request) : bool := match q with Publish _ _ _ => true | _ => false end.

(** The store was asked, and answered this. *)
Definition asked (log : list exchange) (q : request) (a : answer q) : Prop :=
  {| ex_request := q; ex_reply := Answered a |} ∈ log.

Lemma asked_here q (a : answer q) log : asked ({| ex_request := q; ex_reply := Answered a |} :: log) q a.
Proof. by left. Qed.
Lemma asked_app_l log log' q a : asked log q a -> asked (log ++ log') q a.
Proof. intros H. by apply elem_of_app; left. Qed.
Lemma asked_app_r log log' q a : asked log' q a -> asked (log ++ log') q a.
Proof. intros H. by apply elem_of_app; right. Qed.

Create HintDb store discriminated.
#[export] Hint Resolve asked_here asked_app_l asked_app_r : store.

(** ** Committed runs *)

Lemma artifactObject_Done v l : Done l = artifactObject v -> v = AObject l.
Proof. destruct v; cbn; congruence. Qed.
Lemma string_or_Done e o s : Done s = string_or e o -> o = Some (AString s).
Proof. destruct o as [[]|]; cbn; congruence. Qed.
Lemma or_null_object o l : or_null o = AObject l -> o = Some (AObject l).
Proof. destruct o; cbn; congruence. Qed.
Lemma is_string_spec o s : is_string o s = true -> o = Some (AString s).
Proof. destruct o as [[]|]; cbn; try discriminate. by intros ->%bool_decide_eq_true. Qed.
Lemma is_number_spec o n : is_number o n = true -> o = Some (ANumber n).
Proof. destruct o as [[]|]; cbn; try discriminate. by intros ->%Z.eqb_eq. Qed.

(** Checked reads as equations on what was read. *)
Ltac store_facts :=
  repeat (bools; match goal with
  | H : Done _ = artifactObject _ |- _ => apply artifactObject_Done in H
  | H : or_null _ = AObject _ |- _ => apply or_null_object in H
  | H : Done _ = string_or _ _ |- _ => apply string_or_Done in H
  | H : is_string _ _ = true |- _ => apply is_string_spec in H
  | H : is_number _ _ = true |- _ => apply is_number_spec in H
  end); bools.

(** The bytes of a blob were read, and they have the digest and length of its envelope. *)
Definition committed_bytes (digest : list Z -> list Z) (log : list exchange) (artifactId : text)
    (declared : option ArtifactJson) (blob : Blob) : Prop :=
  exists fields bytes, declared = Some (AObject fields) /\ asked log (Content artifactId) bytes /\
    get "sha256" fields = Some (AString (hex_digest digest bytes)) /\
    get "length" fields = Some (ANumber (Z.of_nat (length bytes))) /\ bl_base64 blob = toBase64 bytes.

(** What an output of a committed run is, in the exchanges it was read with. *)
Record committed (digest : list Z -> list Z) (scopeId publicationId runId : text) (log : list exchange)
    (draft : ClientArtifactDraft) (localKey artifactId : text) : Prop := {
  co_key : dr_localKey draft = localKey;
  co_envelope : exists envelope payload,
    asked log (Artifact artifactId) (AObject envelope) /\
    get "artifactId" envelope = Some (AString artifactId) /\
    get "scopeId" envelope = Some (AString scopeId) /\
    get "publicationId" envelope = Some (AString publicationId) /\
    get "producerRunId" envelope = Some (AString runId) /\
    get "typeKey" envelope = Some (AString (dr_typeKey draft)) /\
    get "typeVersion" envelope = Some (ANumber (dr_typeVersion draft)) /\
    get "payload" envelope = Some (AObject payload) /\ dr_payload draft = AObject payload /\
    forall blob, dr_blob draft = Some blob -> committed_bytes digest log artifactId (get "blob" envelope) blob;
  co_version : 1 <= dr_typeVersion draft /\ 0 <= dr_ordinal draft
}.

Lemma asked_mono log log' q a : log ⊆ log' -> asked log q a -> asked log' q a.
Proof. intros Hs H. by apply Hs. Qed.

Lemma committed_mono digest scopeId publicationId runId log log' draft key id :
  log ⊆ log' -> committed digest scopeId publicationId runId log draft key id ->
  committed digest scopeId publicationId runId log' draft key id.
Proof.
  intros Hs [H1 (env & p & Ha & E1 & E2 & E3 & E4 & E5 & E6 & E7 & E8 & Hb) H3]. split; [done| |done].
  exists env, p. split_and!; try done; [by apply (asked_mono log)|].
  intros blob Hblob. destruct (Hb blob Hblob) as (f & b & ? & Hc & H). exists f, b.
  split; [done|]. split; [by apply (asked_mono log)|done].
Qed.

Lemma committed_blob_spec digest id o log blob :
  runs (committed_blob digest id o) log (Done (Some blob)) -> committed_bytes digest log id o blob.
Proof.
  unfold committed_blob. destruct o as [v|]; [|by intros [_ [=]]%runs_return_inv].
  destruct (truthy_json (Some v)); [|by intros [_ [=]]%runs_return_inv].
  intros H. run_all. destruct (is_number _ _ && is_string _ _) eqn:E; run_all. simplify_eq. store_facts. subst.
  eexists _, _. split_and!; [done| |done..]. by left.
Qed.

Lemma committed_contract_spec scopeId publicationId runId id envelope output envelopeOutput typeKey typeVersion role ordinal :
  Done (typeKey, typeVersion, role, ordinal) =
    committed_contract scopeId publicationId runId id envelope output envelopeOutput ->
  get "artifactId" envelope = Some (AString id) /\ get "scopeId" envelope = Some (AString scopeId) /\
  get "publicationId" envelope = Some (AString publicationId) /\ get "producerRunId" envelope = Some (AString runId) /\
  get "typeKey" envelope = Some (AString typeKey) /\ get "typeVersion" envelope = Some (ANumber typeVersion) /\
  1 <= typeVersion /\ 0 <= ordinal.
Proof.
  unfold committed_contract.
  destruct (get "typeKey" envelope) as [[]|]; try discriminate. destruct (get "typeVersion" envelope) as [[]|]; try discriminate.
  destruct (get "role" output) as [[]|]; try discriminate. destruct (get "ordinal" output) as [[]|]; try discriminate.
  match goal with |- _ = (if ?b then _ else _) -> _ => destruct b eqn:E end; [|discriminate].
  intros [= -> -> -> ->]. bools. split_and!; try done; try lia; by apply is_string_spec.
Qed.

Lemma committed_output_spec digest scopeId publicationId runId seen entry log draft key id :
  runs (committed_output digest scopeId publicationId runId seen entry) log (Done (draft, (key, id))) ->
  committed digest scopeId publicationId runId log draft key id /\ key ∉ seen.*1 /\ id ∉ seen.*2.
Proof.
  unfold committed_output. intros H. run_all.
  match goal with H : runs (let '_ := ?x in _) _ _ |- _ => destruct x as [[[typeKey typeVersion] role] ordinal] end.
  run_all. simplify_eq. cbn [app].
  match goal with H : _ = committed_contract _ _ _ _ _ _ _ |- _ => apply committed_contract_spec in H as (E1 & E2 & E3 & E4 & E5 & E6 & E7 & E8) end.
  store_facts. subst. split; [|done]. split; cbn; [done| |done].
  eexists _, _. split_and!; [apply asked_here|done..|].
  intros blob ->. match goal with H : runs (committed_blob _ _ _) _ _ |- _ => apply committed_blob_spec in H as (f & b & Hf & Hb & H) end.
  exists f, b. split; [done|]. split; [right; by apply asked_app_l|done].
Qed.

Lemma committed_outputs_spec digest scopeId publicationId runId items seen log outputs :
  runs (committed_outputs digest scopeId publicationId runId seen items) log (Done outputs) ->
  NoDup seen.*1 -> NoDup seen.*2 ->
  Forall (fun x => committed digest scopeId publicationId runId log x.1 x.2.1 x.2.2) outputs /\
  NoDup (seen.*1 ++ outputs.*2.*1) /\ NoDup (seen.*2 ++ outputs.*2.*2).
Proof.
  revert seen log outputs. induction items as [|entry items IH]; intros seen log outputs; cbn [committed_outputs].
  - intros [_ [= ->]]%runs_return_inv ? ?. split; [constructor|]. by rewrite !app_nil_r.
  - intros H H1 H2. run_all. simplify_eq.
    match goal with H : runs (committed_output _ _ _ _ _ _) _ (Done ?x) |- _ => destruct x as [draft [key id]]; apply committed_output_spec in H as (Hc & Hk & Hi) end.
    match goal with H : runs (committed_outputs _ _ _ _ _ _) _ _ |- _ => apply IH in H as (Hall & Hn1 & Hn2) end; cbn [snd] in *.
    + rewrite !fmap_app, <- !app_assoc in Hn1, Hn2. split; [|done]. rewrite app_nil_r.
      constructor; [by apply (committed_mono _ _ _ _ l); [set_solver|]|]. eapply Forall_impl; [exact Hall|].
      intros x. apply committed_mono. set_solver.
    + rewrite fmap_app. apply NoDup_app. split_and!; [done|set_solver|apply NoDup_singleton].
    + rewrite fmap_app. apply NoDup_app. split_and!; [done|set_solver|apply NoDup_singleton].
Qed.

Record committed_run (digest : list Z -> list Z) (scopeId publicationId : text) (log : list exchange)
    (run : CommittedClientRun) : Prop := {
  cm_publication : exists details item described,
    asked log (Publication publicationId) (AObject details) /\
    get "publication" details = Some (AObject item) /\ get "run" details = Some (AObject described) /\
    get "publicationId" item = Some (AString publicationId) /\ get "scopeId" item = Some (AString scopeId) /\
    get "runId" item = Some (AString (cr_runId run)) /\
    get "procedureKey" described = Some (AString (cr_procedureKey run)) /\
    get "procedureVersion" described = Some (AString (cr_procedureVersion run));
  cm_id : cr_publicationId run = publicationId;
  cm_outputs : Forall2 (fun draft output => committed digest scopeId publicationId (cr_runId run) log draft output.1 output.2)
    (cr_artifacts run) (cr_outputs run);
  cm_keys : NoDup (cr_outputs run).*1;
  cm_ids : NoDup (cr_outputs run).*2
}.

Lemma publication_spec publicationId log found :
  runs (publication publicationId) log (Done found) ->
  found = ANull \/ asked log (Publication publicationId) found.
Proof.
  unfold publication. intros [(a & H & [= ->])|(l1 & e & l2 & -> & H1 & H2)]%runs_catch.
  - run_all. right. apply asked_here.
  - destruct e; [by apply runs_throws_inv in H2 as [_ [=]]| |by apply runs_throws_inv in H2 as [_ [=]]].
    destruct (_ && _); [|by apply runs_throws_inv in H2 as [_ [=]]].
    apply runs_return_inv in H2 as [_ [= ->]]. by left.
Qed.

Lemma committedClientRun_spec digest scopeId publicationId log run :
  runs (committedClientRun digest scopeId publicationId) log (Done (Some run)) ->
  committed_run digest scopeId publicationId log run.
Proof.
  unfold committedClientRun. intros H. run_step.
  match goal with H : runs (publication _) _ (Done ?found) |- _ =>
    apply publication_spec in H as [->|Ha]; [|destruct found as [| | | | | |details]] end.
  all: try (run_all; first [discriminate|simplify_eq]; fail).
  run_all. simplify_eq. cbn [app]. rewrite !app_nil_r.
  match goal with H : runs (committed_outputs _ _ _ _ _ _) _ _ |- _ =>
    apply committed_outputs_spec in H as (Hall & Hk & Hi); [|constructor..] end.
  store_facts. simplify_eq. split; cbn; [|done| |done|done].
  - eexists _, _, _. split_and!; [by apply asked_app_l|done..].
  - apply Forall2_fmap, Forall_Forall2_diag. eapply Forall_impl; [exact Hall|].
    intros x. apply committed_mono. set_solver.
Qed.

(** C39: committed runs are whole. Whatever the store answers: a run that
    [committedClientRun] returns was stored under the publication that was asked for, in
    this scope; its outputs have distinct local keys and distinct artifacts; each was
    read from an envelope that names this artifact, scope, publication and run, and has the
    payload and type of its envelope; and every blob has the digest and length that
    its envelope declares. *)
Theorem committed_runs_are_whole digest scopeId publicationId log run :
  runs (committedClientRun digest scopeId publicationId) log (Done (Some run)) ->
  committed_run digest scopeId publicationId log run.
Proof. apply committedClientRun_spec. Qed.

(** ** Reading and writing *)

Definition reads (q : request) : Prop := is_write q = false.

Lemma committed_output_reads digest scopeId publicationId runId seen entry :
  only reads (committed_output digest scopeId publicationId runId seen entry).
Proof. unfold committed_output, committed_blob. only_all; done. Qed.

Lemma committed_outputs_reads digest scopeId publicationId runId items seen :
  only reads (committed_outputs digest scopeId publicationId runId seen items).
Proof.
  revert seen. induction items as [|entry items IH]; intros seen; cbn [committed_outputs]; only_all;
    [apply committed_output_reads|apply IH].
Qed.

Lemma committedClientRun_reads digest scopeId publicationId : only reads (committedClientRun digest scopeId publicationId).
Proof. unfold committedClientRun, publication. only_all; [done|..]; apply committed_outputs_reads. Qed.

Section Published.
Context (utf8 windows1252 : list Z -> option text) (digest : list Z -> list Z) (fromBase64 : text -> list Z).

Lemma check_run_reads input : only reads (check_run utf8 windows1252 digest input).
Proof.
  unfold check_run, check_csv, csv_source, check_admission, check_financial, check_review. only_all;
    first [apply committedClientRun_reads|done].
Qed.

(** *** Uploads *)

(** What the blob of an output is to the store. *)
Definition blob_json (a : ClientRunArtifact) : ArtifactJson :=
  match ca_blob a with
  | Some blob =>
      let bytes := fromBase64 (bl_base64 blob) in
      object [("sha256", AString (hex_digest digest bytes)); ("length", ANumber (Z.of_nat (length bytes)))]
  | None => ANull
  end.

(** An upload sends the bytes of an output, under their digest and length. *)
Definition uploads_output (input : PublishClientRunInput) (q : request) : Prop :=
  match q with
  | Upload _ sha256 len mediaType content => exists a blob bytes,
      a ∈ pr_artifacts input /\ ca_blob a = Some blob /\ content = Bytes bytes /\
      toBase64 bytes = bl_base64 blob /\ mediaType = bl_mediaType blob /\
      sha256 = hex_digest digest bytes /\ len = Z.of_nat (length bytes)
  | RandomUUID => True
  | _ => False
  end.

Definition upload_size (x : exchange) : Z :=
  match ex_request x with Upload _ _ _ _ (Bytes bytes) => Z.of_nat (length bytes) | _ => 0 end.
Definition uploaded (log : list exchange) : Z := foldr (fun x n => upload_size x + n) 0 log.

Lemma uploaded_app log log' : uploaded (log ++ log') = uploaded log + uploaded log'.
Proof. unfold uploaded. induction log as [|x log IH]; [done|]. cbn [app foldr]. rewrite IH. lia. Qed.

Lemma uploaded_reads log : Forall (fun x => reads (ex_request x)) log -> uploaded log = 0.
Proof.
  induction 1 as [|[q r] log Hx _ IH]; [done|]. change (upload_size {| ex_request := q; ex_reply := r |} + uploaded log = 0).
  rewrite IH. unfold reads, upload_size in *. cbn in *. by destruct q as [| | | | | | |? ? ? ? []| |].
Qed.

Lemma upload_outputs_spec input l total authorities artifacts log o :
  (forall a, a ∈ l -> a ∈ pr_artifacts input) -> total <= maximumBlobBytes input ->
  runs (upload_outputs digest fromBase64 input total authorities artifacts l) log o ->
  Forall (fun x => uploads_output input (ex_request x)) log /\
  total + uploaded log <= maximumBlobBytes input /\
  (forall authorities' artifacts', o = Done (authorities', artifacts') ->
    artifacts' = artifacts ++ ((fun a => artifact_json a (blob_json a)) <$> l)).
Proof.
  revert total authorities artifacts log. induction l as [|a l IH]; intros total authorities artifacts log Hin Ht; cbn [upload_outputs].
  - intros [-> ->]%runs_return_inv. split; [constructor|]. cbn. split; [lia|]. intros ? ? [= -> ->]. by rewrite app_nil_r.
  - assert (forall b, b ∈ l -> b ∈ pr_artifacts input) as Hin' by (intros b Hb; apply Hin; by right).
    destruct (ca_blob a) as [blob|] eqn:Eb; cbn zeta.
    + set (bytes := fromBase64 (bl_base64 blob)).
      intros [(_ & -> & ->)|[Hc H]]%runs_refuse; [by split; [constructor|split; [cbn; lia|]]|].
      apply runs_refuse in H as [(_ & -> & ->)|[Hm H]]; [by split; [constructor|split; [cbn; lia|]]|].
      apply negb_false_iff, bool_decide_eq_true in Hc. apply Z.ltb_ge in Hm.
      apply (runs_ask_then RandomUUID) in H as [(claimId & log' & -> & H)|(r & e & -> & ->)];
        [|split; [by repeat constructor|split; [cbn; lia|done]]].
      set (q := Upload _ _ _ _ _) in H.
      assert (uploads_output input q) as Hq.
      { exists a, blob, bytes. split; [apply Hin; by left|done]. }
      assert (forall r, upload_size {| ex_request := q; ex_reply := r |} = Z.of_nat (length bytes)) as Hsize by done.
      apply (runs_ask_then q) in H as [(ans & log'' & -> & H)|(r & e & -> & ->)].
      * apply IH in H as (H1 & H2 & H3); [|done..].
        split; [by repeat constructor|]. split; [cbn [uploaded foldr] in *; rewrite Hsize; change (foldr _ 0 log'') with (uploaded log''); cbn; lia|].
        intros au ar Ho. rewrite (H3 au ar Ho), <- app_assoc. cbn. unfold blob_json at 2. by rewrite Eb.
      * split; [by repeat constructor|]. split; [cbn [uploaded foldr]; rewrite Hsize; cbn; lia|done].
    + intros H. apply IH in H as (H1 & H2 & H3); [|done..]. split; [done|]. split; [done|].
      intros au ar Ho. rewrite (H3 au ar Ho), <- app_assoc. cbn. unfold blob_json at 2. by rewrite Eb.
Qed.

(** *** The submission *)

Definition published (d : ClientProcedureDescriptor) (input : PublishClientRunInput) (log : list exchange) (q : request) : Prop :=
  match q with
  | Publish publicationId storeEpoch submission =>
      publicationId = pr_publicationId input /\
      exists context receipt authorities,
        asked log Context (AObject context) /\ get "storeEpoch" context = Some (AString storeEpoch) /\
        submission = submission_json input (run_json d input receipt)
                       ((fun a => artifact_json a (blob_json a)) <$> pr_artifacts input) authorities
  | _ => False
  end.

Definition last_publish (log : list exchange) : Prop :=
  forall before x after, log = before ++ x :: after -> is_publish (ex_request x) = true -> after = [].

Lemma last_publish_free log : Forall (fun x => is_publish (ex_request x) = false) log -> last_publish log.
Proof. intros H before x after ->. apply Forall_app in H as [_ H]. inversion_clear H. congruence. Qed.

Lemma last_publish_app log log' :
  Forall (fun x => is_publish (ex_request x) = false) log -> last_publish log' -> last_publish (log ++ log').
Proof.
  intros H Hl. induction H as [|y log Hy _ IH]; [done|]. intros [|z before] x after E Hx; cbn in E.
  - injection E as -> _. congruence.
  - injection E as -> E. by apply (IH before x after).
Qed.

Lemma record_of_Done v label l : record_of v label = Done l -> v = AObject l.
Proof. destruct v; cbn; congruence. Qed.
Lemma stringField_Done l key label s : stringField l key label = Done s -> get key l = Some (AString s).
Proof. unfold stringField. destruct (get key l) as [[]|]; congruence. Qed.

Definition sent (d : ClientProcedureDescriptor) (input : PublishClientRunInput) (log : list exchange) : Prop :=
  (forall x, x ∈ log -> is_write (ex_request x) = true ->
     uploads_output input (ex_request x) \/ published d input log (ex_request x)) /\
  last_publish log /\ uploaded log <= maximumBlobBytes input.

Lemma sent_reads d input log : Forall (fun x => reads (ex_request x)) log -> sent d input log.
Proof.
  intros H. pose proof (uploaded_reads _ H) as Hu. rewrite Forall_forall in H. split_and!.
  - intros x Hx Hw. apply H in Hx. unfold reads in Hx. congruence.
  - apply last_publish_free, Forall_forall. intros x Hx%H. by destruct (ex_request x).
  - rewrite Hu. unfold maximumBlobBytes. by destruct (is_procedure _ _).
Qed.

Lemma uploads_not_published input q : uploads_output input q -> is_publish q = false.
Proof. by destruct q. Qed.

Lemma runs_publish publicationId storeEpoch submission log o :
  runs (publish publicationId storeEpoch submission) log o ->
  (log = [] /\ exists e, o = Raise e) \/
  (exists r, log = [{| ex_request := Publish publicationId storeEpoch submission; ex_reply := r |}]).
Proof.
  unfold publish. intros [(e & _ & -> & ->)|(t & _ & H)]%runs_lift_then; [left; eauto|].
  apply (runs_ask_inv (Publish publicationId storeEpoch submission)) in H as (r & -> & _). right. by exists r.
Qed.

Lemma sent_publish d input log q r :
  sent d input log -> Forall (fun x => is_publish (ex_request x) = false) log -> is_publish q = true ->
  published d input log q -> sent d input (log ++ [{| ex_request := q; ex_reply := r |}]).
Proof.
  intros (H1 & _ & H3) Hfree Hq Hp.
  assert (forall log', published d input log q -> published d input (log ++ log') q) as Hmono.
  { intros log' H. destruct q; try done. destruct H as (-> & context & receipt & au & Ha & H). split; [done|].
    exists context, receipt, au. split; [by apply asked_app_l|done]. }
  split_and!.
  - intros x [Hx|Hx]%elem_of_app Hw.
    + destruct (H1 x Hx Hw) as [?|Hpx]; [by left|]. rewrite Forall_forall in Hfree. specialize (Hfree x Hx).
      by destruct (ex_request x).
    + apply list_elem_of_singleton in Hx as ->. right. auto.
  - apply last_publish_app; [done|]. intros [|y before] x after E Hx; cbn in E; [by injection E|].
    injection E as _ E. by destruct before.
  - rewrite uploaded_app. cbn. unfold upload_size. cbn. destruct q; try discriminate. lia.
Qed.

Lemma send_run_sent d input log o : runs (send_run digest fromBase64 d input) log o -> sent d input log.
Proof.
  unfold send_run. intros [(answer_ & log' & -> & H)|(r & e & -> & ->)]%(runs_ask_then Context); [|apply sent_reads; by repeat constructor].
  apply runs_lift_then in H as [(e & _ & -> & ->)|(context & Ec%record_of_Done & H)]; [apply sent_reads; by repeat constructor|].
  subst answer_. apply runs_lift_then in H as [(e & _ & -> & ->)|(storeEpoch & Ee%stringField_Done & H)]; [apply sent_reads; by repeat constructor|].
  set (c := {| ex_request := Context; ex_reply := Answered (q := Context) (AObject context) |}).
  assert (forall lu o', runs (upload_outputs digest fromBase64 input 0 [] [] (pr_artifacts input)) lu o' -> sent d input (c :: lu) /\
    Forall (fun x => is_publish (ex_request x) = false) (c :: lu)) as Hup.
  { intros lu o' Hr. apply upload_outputs_spec in Hr as (H1 & H2 & _); [|done|unfold maximumBlobBytes; by destruct (is_procedure _ _)].
    assert (Forall (fun x => is_publish (ex_request x) = false) lu) as Hp.
    { eapply Forall_impl; [exact H1|]. intros x. apply uploads_not_published. }
    split; [|by constructor]. split_and!; [|by apply last_publish_free; constructor|exact H2].
    rewrite Forall_forall in H1. intros x [->|Hx]%elem_of_cons Hw; [done|]. left. auto. }
  pose proof (runs_then _ _ _ _ H) as [(lu & [authorities artifacts] & l2 & El & Hu & H')|(e & Hu & _)]; [|by apply Hup in Hu as [? _]].
  clear H. rename H' into H.
  rewrite El. clear El log'.
  pose proof (Hup _ _ Hu) as [Hs Hfree].
  apply upload_outputs_spec in Hu as (_ & _ & Ha); [|done|unfold maximumBlobBytes; by destruct (is_procedure _ _)].
  specialize (Ha _ _ eq_refl). cbn [app] in Ha. subst artifacts.
  apply runs_lift_then in H as [(e & _ & -> & ->)|(receipt & _ & H)]; [by rewrite app_nil_r|].
  match type of H with runs (publish ?p ?e ?s ≫= _) _ _ => set (q := Publish p e s) end.
  assert (forall r, sent d input ((c :: lu) ++ [{| ex_request := q; ex_reply := r |}])) as Hq.
  { intros r. apply sent_publish; [done..|]. split; [done|]. exists context, receipt, authorities. split; [by left|done]. }
  pose proof (runs_then _ _ _ _ H) as [(lp & answer_ & l3 & E2 & Hp & H')|(e & Hp & _)]; clear H.
  - apply runs_publish in Hp as [[_ [? [=]]]|[r ->]]. rewrite E2.
    assert (l3 = []) as ->; [|apply Hq].
    apply runs_lift_then in H' as [(e & _ & -> & _)|(publication & _ & H)]; [done|]. by apply runs_lift in H as [-> _].
  - apply runs_publish in Hp as [[-> _]|[r ->]]; [by rewrite app_nil_r|apply Hq].
Qed.

(** *** The whole of [publishClientRun] *)

(** How the [catch] of a method reports an error. *)
Definition report {A} (passed : list Z) (o : checked A) : checked A :=
  match o with
  | Raise (StoreProblem status code message) =>
      Raise (AppError (if bool_decide (status ∈ passed) then status else 502) code message)
  | Raise (OtherError _) =>
      Raise (AppError 502 (lit "ARTIFACT_STORE_UNAVAILABLE") (lit "Artifact Store is unavailable."))
  | _ => o
  end.

Lemma runs_reported {A} passed (m : script A) log o :
  runs (reported passed m) log o -> exists o', runs m log o' /\ o = report passed o'.
Proof.
  unfold reported. intros [(a & H & ->)|(l1 & e & l2 & -> & H1 & H2)]%runs_catch; [by exists (Done a)|].
  exists (Raise e). destruct e; apply runs_throws_inv in H2 as [-> ->]; rewrite app_nil_r; done.
Qed.

(** Nothing is sent before the run is checked. *)
Lemma publishClientRun_sent input log o :
  runs (publishClientRun utf8 windows1252 digest fromBase64 input) log o ->
  Forall (fun x => reads (ex_request x)) log \/
  exists d checks rest, log = checks ++ rest /\ runs (check_run utf8 windows1252 digest input) checks (Done d) /\
    Forall (fun x => reads (ex_request x)) checks /\ sent d input rest.
Proof.
  unfold publishClientRun. intros (o' & H & _)%runs_reported.
  apply runs_then in H as [(checks & d & rest & -> & H1 & H2)|(e & H1 & ->)].
  - right. exists d, checks, rest. split_and!; [done|done|by apply check_run_reads in H1|by apply send_run_sent in H2].
  - left. by apply check_run_reads in H1.
Qed.

Lemma validate_run_Done input d : validate_run input = Done d ->
  exists key, (key, d) ∈ CLIENT_PROCEDURES /\ pr_procedureKey input = lit key /\
    validateCommonClientContract input = Done tt /\ dc_validate d input = Done tt.
Proof.
  unfold validate_run, descriptor. destruct (js_find _ _) as [[key d']|] eqn:E.
  - apply js_find_Some in E as [Hin Hk%bool_decide_eq_true]. cbn in Hk.
    destruct (validateCommonClientContract input) as [[]|] eqn:E1; [|discriminate]. cbn [mbind checked_bind].
    destruct (dc_validate d' input) as [[]|] eqn:E2; [|discriminate]. intros [= ->]. by exists key.
  - destruct (bool_decide _); [|discriminate]. by destruct (validateCommonClientContract input).
Qed.
End Published.

(** ** The checks on statements and decisions *)

Definition same_text (v w : ArtifactJson) : Prop :=
  exists t, canonicalArtifactJsonText v = Ok t /\ canonicalArtifactJsonText w = Ok t.

Lemma sameJson_spec l r b : sameJson l r = Done b -> b = true -> exists v w, l = Some v /\ r = Some w /\ same_text v w.
Proof.
  destruct l as [v|], r as [w|]; cbn; try congruence.
  destruct (canonicalArtifactJsonText v) as [s|] eqn:Ev; [|done]. cbn.
  destruct (canonicalArtifactJsonText w) as [t|] eqn:Ew; [|done]. cbn.
  intros [= <-] ->%bool_decide_eq_true. exists v, w. split_and!; [done..|]. by exists t.
Qed.

Lemma or_check_false c m : or_check c m = Done false -> c = false /\ m = Done false.
Proof. destruct c; [discriminate|done]. Qed.

Lemma checked_then {A B} (m : checked A) (k : A -> checked B) b :
  (x ← m; k x) = Done b -> exists a, m = Done a /\ k a = Done b.
Proof. destruct m; [by eexists|done]. Qed.

Lemma negb_same l r : (same ← sameJson l r; Done (negb same)) = Done false ->
  exists v w, l = Some v /\ r = Some w /\ same_text v w.
Proof. intros (b & H & [= Hb])%checked_then. apply (sameJson_spec _ _ _ H). by destruct b. Qed.

(** The tests on the procedure, when it is known. *)
Ltac decide_procedure H Hk :=
  unfold is_procedure in H; rewrite Hk in H;
  repeat match type of H with context [bool_decide (lit ?k ∈ ?l)] =>
    let b := eval vm_compute in (bool_decide (lit k ∈ l)) in
    replace (bool_decide (lit k ∈ l)) with b in H by (vm_compute; reflexivity) end;
  cbn [negb] in H.

Section Csv.
Context (utf8 windows1252 : list Z -> option text) (digest : list Z -> list Z).

Definition accepted_confirmation (sourceId sha256 detectionId : text) : ArtifactJson :=
  object (expected_confirmation sourceId sha256 detectionId ++ [("decision", str "accepted")]).

(** A stored human confirmation: the committed run under the identity of the source, and its one
    output, which accepts this detection of this source. *)
Definition confirmed (input : PublishClientRunInput) (sourceId sha256 detectionId : text) (log : list exchange) : Prop :=
  exists run draft key id,
    committed_run digest (pr_scopeId input) (csvConfirmationIdentity digest sourceId sha256) log run /\
    cr_procedureKey run = lit "client.confirm-csv-statement" /\ cr_procedureVersion run = lit "client-v1" /\
    head (cr_artifacts run) = Some draft /\ head (cr_outputs run) = Some (key, id) /\
    same_text (dr_payload draft) (accepted_confirmation sourceId sha256 detectionId) /\
    input_id "confirmation" input = Done id.

Lemma check_admission_spec input confirmationId expected statement log :
  runs (check_admission digest input confirmationId expected statement) log (Done tt) ->
  exists run draft key id payload,
    committed_run digest (pr_scopeId input) confirmationId log run /\
    cr_procedureKey run = lit "client.confirm-csv-statement" /\ cr_procedureVersion run = lit "client-v1" /\
    head (cr_artifacts run) = Some draft /\ head (cr_outputs run) = Some (key, id) /\
    same_text (dr_payload draft) (object (expected ++ [("decision", str "accepted")])) /\
    input_id "confirmation" input = Done id /\ first_payload input = Done payload /\ same_text payload statement.
Proof.
  unfold check_admission. intros (l1 & [run|] & l2 & -> & H1 & H2)%runs_then_done; [|by apply runs_throws_inv in H2 as [_ [=]]].
  apply committedClientRun_spec in H1.
  apply runs_lift_then in H2 as [(e & _ & _ & [=])|(differs & Hd & H2)].
  apply runs_lift in H2 as [-> H2]. destruct differs; [discriminate|].
  apply or_check_false in Hd as [Hk Hd]. bools.
  apply checked_then in Hd as (acc & Hacc & Hd). apply or_check_false in Hd as [Hb%negb_false_iff Hd].
  apply (sameJson_spec _ _ _ Hacc) in Hb as (v & w & Hv & [= <-] & Hsame).
  apply checked_then in Hd as (id & Hid & Hd). apply or_check_false in Hd as [Hout Hd]. bools.
  apply checked_then in Hd as (payload & Hp & Hd). apply negb_same in Hd as (v' & w' & [= <-] & [= <-] & Hst).
  destruct (head (cr_artifacts run)) as [draft|] eqn:Edraft; [|discriminate]. injection Hv as <-.
  destruct (head (cr_outputs run)) as [[key id']|] eqn:Eout; [|discriminate]. injection Hout as ->.
  exists run, draft, key, id, payload. split_and!; try done. by rewrite app_nil_r.
Qed.

(** A statement that is admitted: read again from the committed bytes of its source, and confirmed. *)
Definition admitted_statement (input : PublishClientRunInput) (log : list exchange) : Prop :=
  exists sourceId bytes det detectionId detection payload,
    input_id "source" input = Done sourceId /\ input_id "detection" input = Done detectionId /\
    asked log (Content sourceId) bytes /\
    detectCsvStatement utf8 windows1252 digest sourceId (toBase64 bytes) = Ok det /\ cd_eligible det = true /\
    asked log (Artifact detectionId) (AObject detection) /\
    (exists v, get "payload" detection = Some v /\ same_text v (detection_json det)) /\
    confirmed input sourceId (cd_sourceSha256 det) detectionId log /\
    first_payload input = Done payload /\ same_text payload (statement_field det).

Lemma committed_run_mono scopeId publicationId log log' run :
  log ⊆ log' -> committed_run digest scopeId publicationId log run -> committed_run digest scopeId publicationId log' run.
Proof.
  intros Hs [(d & i & r & Ha & H) H1 H2 H3 H4]. split; [|done| |done|done].
  - exists d, i, r. split; [by apply (asked_mono log)|done].
  - eapply Forall2_impl; [exact H2|]. intros x y. by apply committed_mono.
Qed.

Lemma csv_source_spec sourceId log name type is_file bytes :
  runs (csv_source sourceId) log (Done (name, type, is_file, bytes)) -> asked log (Content sourceId) bytes.
Proof. unfold csv_source. intros H. run_all. simplify_eq. auto 10 with store. Qed.

Lemma check_csv_admitted input log :
  runs (check_csv utf8 windows1252 digest input) log (Done tt) ->
  pr_procedureKey input = lit "client.admit-csv-statement" -> admitted_statement input log.
Proof.
  intros H Hk. unfold check_csv in H. decide_procedure H Hk. run_step. run_step. run_step.
  match goal with H : runs (csv_source _) _ (Done ?x) |- _ => destruct x as [[[name type] is_file] bytes]; apply csv_source_spec in H end.
  run_all. simplify_eq. cbn [app].
  match goal with H : _ = of_result ?m |- _ => destruct m as [det|] eqn:Edet; [injection H as ->|discriminate H] end.
  match goal with H : _ = or_check _ _ |- _ =>
    symmetry in H; apply or_check_false in H as [He Hs]; apply negb_same in Hs as (v & w & Hv & [= <-] & Hsame) end.
  match goal with H : _ = record_of _ _ |- _ => symmetry in H; apply record_of_Done in H; subst end.
  match goal with H : runs (check_admission _ _ _ _ _) _ _ |- _ =>
    apply check_admission_spec in H as (run & draft & key & id & payload & H1 & H2) end.
  destruct H2 as (Hp & Hver & Hd & Ho & Hacc & Hid & Hfirst & Hst). bools.
  eexists _, bytes, det, _, _, payload.
  split_and!; [by symmetry|by symmetry|by apply asked_app_l|exact Edet|done| | | |done|done].
  - apply asked_app_r. left.
  - exists v. split; [done|exact Hsame].
  - exists run, draft, key, id. split_and!; try done. eapply committed_run_mono; [|exact H1]. set_solver.
Qed.
End Csv.

(** * The errors of the artifact service

    Which errors leave the methods of the artifact service: a rule for each construct
    of checks and scripts, and the theorem that only the service's own errors with
    their few statuses come out, whatever the store does. *)

(** ** Statuses *)

(** If the error is one of the service, its status is among these. *)
Definition within (statuses : list Z) (e : error) : Prop :=
  match e with AppError status _ _ => status ∈ statuses | _ => True end.

Definition raises {A} (statuses : list Z) (m : checked A) : Prop := forall e, m = Raise e -> within statuses e.
Definition throws {A} (statuses : list Z) (m : script A) : Prop :=
  forall log e, runs m log (Raise e) -> within statuses e.

Section Rules.
Context (statuses : list Z).

Lemma raises_done {A} (a : A) : raises statuses (Done a).
Proof. intros e [=]. Qed.
Lemma raises_raise {A} e : within statuses e -> raises (A := A) statuses (Raise e).
Proof. by intros H e' [= <-]. Qed.
Lemma raises_then {A B} (m : checked A) (k : A -> checked B) :
  raises statuses m -> (forall a, raises statuses (k a)) -> raises statuses (m ≫= k).
Proof. intros Hm Hk e. destruct m as [a|e']; cbn; [apply Hk|]. intros [= <-]. by apply Hm. Qed.
Lemma raises_refuse b e : within statuses e -> raises statuses (refuse_if b e).
Proof. intros He e'. destruct b; [|done]. by intros [= <-]. Qed.
Lemma raises_or c m : raises statuses m -> raises statuses (or_check c m).
Proof. by destruct c; [intros _; apply raises_done|]. Qed.
Lemma raises_each {A} (check : A -> checked unit) l : (forall x, raises statuses (check x)) -> raises statuses (check_each check l).
Proof. intros H. induction l as [|x l IH]; cbn; [apply raises_done|]. by apply raises_then. Qed.
Lemma raises_map {A B} (f : A -> checked B) l : (forall x, raises statuses (f x)) -> raises statuses (map_each f l).
Proof.
  intros H. induction l as [|x l IH]; cbn; [apply raises_done|]. apply raises_then; [done|]. intros y.
  apply raises_then; [done|]. intros. apply raises_done.
Qed.
Lemma raises_result {A} (m : result A) : raises statuses (of_result m).
Proof. destruct m; [apply raises_done|by apply raises_raise]. Qed.

Lemma throws_return {A} (a : A) : throws statuses (Return a).
Proof. intros log e H. by apply runs_return_inv in H as [_ [=]]. Qed.
Lemma throws_throws {A} e : within statuses e -> throws (A := A) statuses (Throws e).
Proof. intros He log e' H. by apply runs_throws_inv in H as [_ [= ->]]. Qed.
Lemma throws_lift {A} (m : checked A) : raises statuses m -> throws statuses (lift m).
Proof. intros Hm log e H. apply runs_lift in H as [_ H]. by apply Hm. Qed.
Lemma throws_ask q : throws statuses (ask q).
Proof. intros log e H. apply runs_ask_inv in H as (r & _ & H). by destruct r; cbn in H; simplify_eq. Qed.
Lemma throws_then {A B} (m : script A) (k : A -> script B) :
  throws statuses m -> (forall a, throws statuses (k a)) -> throws statuses (m ≫= k).
Proof.
  intros Hm Hk log e [(l1 & a & l2 & -> & H1 & H2)|(e' & H1 & [= <-])]%runs_then; [by apply Hk in H2|by apply Hm in H1].
Qed.
Lemma throws_each {A B} (work : A -> script B) l : (forall x, throws statuses (work x)) -> throws statuses (each work l).
Proof.
  intros H. induction l as [|x l IH]; cbn [each]; [apply throws_return|]. apply throws_then; [done|]. intros y.
  apply throws_then; [done|]. intros. apply throws_return.
Qed.
End Rules.

Ltac raises_step :=
  match goal with
  | |- within _ _ => first [exact I|solve [cbn; assumption]|cbn; by_compute]
  | |- raises _ (mbind _ _) => apply raises_then; [|intros ?]
  | |- raises _ (Done _) => apply raises_done
  | |- raises _ (Raise _) => apply raises_raise
  | |- raises _ (refuse_if _ _) => apply raises_refuse
  | |- raises _ (or_check _ _) => apply raises_or
  | |- raises _ (check_each _ _) => apply raises_each; intros ?
  | |- raises _ (map_each _ _) => apply raises_map; intros ?
  | |- raises _ (of_result _) => apply raises_result
  | |- raises _ (match ?x with _ => _ end) => destruct x
  | |- raises _ (let _ := _ in _) => cbv zeta
  | |- throws _ (mbind _ _) => apply throws_then; [|intros ?]
  | |- throws _ (Return _) => apply throws_return
  | |- throws _ (Throws _) => apply throws_throws
  | |- throws _ (lift _) => apply throws_lift
  | |- throws ?s (ask ?q) => apply (throws_ask s q)
  | |- throws _ (each _ _) => apply throws_each; intros ?
  | |- throws _ (match ?x with _ => _ end) => destruct x
  | |- throws _ (let _ := _ in _) => cbv zeta
  end.
Ltac raises_all := repeat raises_step.

(** ** Checks *)

Section Checks.
Context (statuses : list Z) (H400 : 400 ∈ statuses) (H502 : 502 ∈ statuses).

Lemma within_contract message : within statuses (invalidClientContract message).
Proof. exact H400. Qed.
Lemma within_response message : within statuses (invalid_response message).
Proof. exact H502. Qed.

Lemma raises_record v label : raises statuses (clientRecord v label).
Proof. destruct v; cbn; raises_all; apply within_contract. Qed.
Lemma raises_record_of v label : raises statuses (record_of v label).
Proof. destruct v; cbn; raises_all; apply within_response. Qed.
Lemma raises_string l key label : raises statuses (stringField l key label).
Proof. unfold stringField. raises_all; apply within_response. Qed.
Lemma raises_number l key label : raises statuses (numberField l key label).
Proof. unfold numberField. raises_all; apply within_response. Qed.
Lemma raises_boolean l key label : raises statuses (booleanField l key label).
Proof. unfold booleanField. raises_all; apply within_response. Qed.
Lemma raises_inputs input expected : raises statuses (expectInputs input expected).
Proof. unfold expectInputs. raises_all; apply within_contract. Qed.
Lemma raises_parameters input page : raises statuses (expectParameters input page).
Proof. unfold expectParameters. raises_all; try apply raises_record; apply within_contract. Qed.
Lemma raises_model input page : raises statuses (expectModelParameters input page).
Proof. unfold expectModelParameters. raises_all; try apply raises_record; apply within_contract. Qed.
Lemma raises_artifacts input expected : raises statuses (expectArtifacts input expected).
Proof. unfold expectArtifacts. raises_all; apply within_contract. Qed.
Lemma raises_level input level mode : raises statuses (expectClassificationLevel input level mode).
Proof. unfold expectClassificationLevel. raises_all; try apply raises_record; apply within_contract. Qed.
Lemma raises_text input n method : raises statuses (expectText input n method).
Proof. unfold expectText. raises_all; try apply raises_record; apply within_contract. Qed.
Lemma raises_outputs keys slots l : raises statuses (check_outputs keys slots l).
Proof. revert keys slots. induction l; intros; cbn [check_outputs]; raises_all; auto using within_contract. Qed.
Lemma raises_evidence slots keys seen l : raises statuses (check_evidence slots keys seen l).
Proof. revert seen. induction l; intros; cbn [check_evidence]; raises_all; auto using within_contract. Qed.
Lemma raises_common input : raises statuses (validateCommonClientContract input).
Proof.
  unfold validateCommonClientContract, refuse_duplicate.
  raises_all; try apply within_contract; [apply raises_outputs|apply raises_evidence].
Qed.

(** Everything the checks and reads of a run are made of. *)
Ltac service_errors :=
  raises_all;
  try first
    [ apply within_contract | apply within_response | exact I | apply raises_record | apply raises_record_of
    | apply raises_string | apply raises_number | apply raises_boolean | apply raises_inputs | apply raises_parameters
    | apply raises_model | apply raises_artifacts | apply raises_level | apply raises_text | apply raises_common ].

Lemma raises_procedures : Forall (fun e : string * ClientProcedureDescriptor =>
  forall input, raises statuses (dc_validate e.2 input)) CLIENT_PROCEDURES.
Proof.
  unfold CLIENT_PROCEDURES, detect_csv_statement, confirm_csv_statement, admit_csv_statement, review_reconciliation, inspect_file, decompose_pages, extract_native_text,
    classify_page_signals, assemble_document_representation, aggregate_content_classification, analyze_page_model, classify_document_model, extract_invoice_model,
    extract_statement_model, validate_invoice, validate_statement, normalize_invoice_open_item, normalize_statement, fanout_statement_transactions, rank_invoice_transactions.
  repeat (constructor; [intros input; cbn [snd dc_validate procedure model_procedure]|]); [..|constructor].
  all: unfold plain, modelled, validate_review, validate_representation, plain, expectDecision, expectModelDerived, expectPages,
    statementBatchOffset, expectStatementTransactionBatch, expectReconciliationMatches; service_errors.
Qed.

Lemma raises_validate input : raises statuses (validate_run input).
Proof.
  unfold validate_run, descriptor. destruct (js_find _ _) as [[key d]|] eqn:E.
  - pose proof raises_procedures as H. rewrite Forall_forall in H. apply js_find_Some in E as [Hin _].
    service_errors. by apply (H (key, d)).
  - destruct (bool_decide _); service_errors.
Qed.

Lemma raises_lineage v : raises statuses (lineageInputs v).
Proof. unfold lineageInputs. service_errors. Qed.
Lemma raises_object v : raises statuses (artifactObject v).
Proof. unfold artifactObject. service_errors. Qed.
Lemma raises_same l r : raises statuses (sameJson l r).
Proof. unfold sameJson. service_errors. Qed.

Lemma throws_committed digest scopeId publicationId : throws statuses (committedClientRun digest scopeId publicationId).
Proof.
  unfold committedClientRun. apply throws_then.
  { unfold publication. intros log e [(a & _ & [=])|(l1 & e' & l2 & -> & H1 & H2)]%runs_catch.
    apply (throws_ask statuses (Publication publicationId)) in H1.
    destruct e'; [by apply runs_throws_inv in H2 as [_ [= ->]]| |by apply runs_throws_inv in H2 as [_ [= ->]]].
    destruct (_ && _); [by apply runs_return_inv in H2 as [_ [=]]|by apply runs_throws_inv in H2 as [_ [= ->]]]. }
  assert (forall a b c seen items, throws statuses (committed_outputs digest a b c seen items)) as Hout.
  { intros a b c seen items. revert seen. induction items as [|entry items IH]; intros seen; cbn [committed_outputs]; service_errors; [|apply IH].
    unfold committed_output, committed_blob, string_or, committed_contract. service_errors; apply raises_object. }
  intros found. unfold string_or. service_errors; first [apply raises_object|apply Hout].
Qed.

Context (utf8 windows1252 : list Z -> option text) (digest : list Z -> list Z) (fromBase64 : text -> list Z).

Lemma throws_check input : throws statuses (check_run utf8 windows1252 digest input).
Proof.
  unfold check_run. apply throws_then; [apply throws_lift, raises_validate|]. intros d.
  unfold check_csv, csv_source, check_admission, check_confirmation, check_financial, check_review, input_id, first_payload.
  service_errors; first [apply raises_same|apply raises_lineage|apply throws_committed].
Qed.

Lemma throws_send (H413 : 413 ∈ statuses) d input : throws statuses (send_run digest fromBase64 d input).
Proof.
  assert (forall l total au ar, throws statuses (upload_outputs digest fromBase64 input total au ar l)) as Hup.
  { intros l. induction l as [|a l IH]; intros total au ar; cbn [upload_outputs]; service_errors; first [exact H400|exact H413|apply IH]. }
  unfold send_run, publish, published_run, receipt_json. service_errors. apply Hup.
Qed.
End Checks.

(** ** What comes out *)

Lemma reported_errors {A} passed statuses (m : script A) log e :
  502 ∈ statuses -> throws statuses m -> runs (reported passed m) log (Raise e) ->
  exists status code message, e = AppError status code message /\ (status ∈ passed \/ status ∈ statuses).
Proof.
  intros H502 Hm (o' & H & E)%runs_reported. destruct o' as [a|[status code message|status code message|message]]; [done|..].
  - injection E as ->. apply Hm in H. by exists status, code, message; split; [|right].
  - injection E as ->. eexists _, _, _. split; [done|]. case_bool_decide; [by left|by right].
  - injection E as ->. eexists _, _, _. split; [done|by right].
Qed.

(** C38: only the service's own errors come out. Whatever the store answers and whatever
    a client sends, [publishClientRun], [publishFile] and [browse] throw nothing but
    errors of the service: with status 400, 409, 413 or 502 for a client run, 409, 413 or
    502 for a file, and 502 for browsing. *)
Theorem only_service_errors_come_out utf8 windows1252 digest fromBase64 :
  (forall input log e, runs (publishClientRun utf8 windows1252 digest fromBase64 input) log (Raise e) ->
     exists status code message, e = AppError status code message /\ status ∈ [400; 409; 413; 502]) /\
  (forall input log e, runs (publishFile input) log (Raise e) ->
     exists status code message, e = AppError status code message /\ status ∈ [409; 413; 502]) /\
  (forall log e, runs browse log (Raise e) ->
     exists status code message, e = AppError status code message /\ status = 502).
Proof.
  split; [|split].
  - intros input log e H. apply (reported_errors _ [400; 413; 502]) in H as (s & c & m & -> & Hs); [|set_solver|].
    + exists s, c, m. split; [done|set_solver].
    + apply throws_then; [apply throws_check; set_solver|]. intros d. apply throws_send; set_solver.
  - intros input log e H. apply (reported_errors _ [502]) in H as (s & c & m & -> & Hs); [|set_solver|].
    + exists s, c, m. split; [done|set_solver].
    + unfold publish, published_file, stringField, numberField, booleanField, record_of. raises_all.
  - intros log e H. apply (reported_errors _ [502]) in H as (s & c & m & -> & Hs); [|set_solver|].
    + exists s, c, m. split; [done|set_solver].
    + assert (forall fuel epoch ar after n t, throws [502] (feed_loop fuel epoch ar after n t)) as Hfeed.
      { intros fuel. induction fuel as [|fuel IH]; intros; cbn [feed_loop]; destruct (negb _); raises_all; try apply IH;
          unfold browsed_item, browsed, stringField, numberField, record_of; raises_all. }
      raises_all; try apply Hfeed;
        unfold producer_inputs, lineageInputs, stringField, numberField, record_of; raises_all.
Qed.
