(* ===== verification/Browsing.v ===== *)
(** * Browsing a scope

    Theorems on [browse] of ArtifactService.v: the walk through the publication feed
    ends, and what it shows is the newest part of what the store answered, with the
    inputs of the runs that produced it. *)

From S2P Require Import Prelude Base64 Csv Canonical Store ClientContract ArtifactService Publishing.

Open Scope stdpp_scope.
Open Scope js_scope.
Local Open Scope Z_scope.

(** ** The walk *)

(** What one answer of the feed adds. *)
Definition page_artifacts (page : entries) (found : list BrowsedArtifact) : Prop :=
  exists items pages, get "items" page = Some (AArray items) /\ map_each browsed_item items = Done pages /\
    found = mjoin pages.
Definition page_size (page : entries) : Z :=
  match get "items" page with Some (AArray items) => Z.of_nat (length items) | _ => 0 end.

(** The exchanges of a walk from a sequence number: every page is asked for after the last
    number the store named, and these numbers grow. *)
Inductive walked (epoch : text) : Z -> list exchange -> list entries -> Prop :=
| walked_last after page :
    walked epoch after [{| ex_request := Feed epoch after pageLimit;
                           ex_reply := Answered (q := Feed epoch after pageLimit) (AObject page) |}] [page]
| walked_next after next page log pages :
    get "nextAfterSequence" page = Some (ANumber next) -> after < next -> 0 < page_size page ->
    walked epoch next log pages ->
    walked epoch after ({| ex_request := Feed epoch after pageLimit;
                           ex_reply := Answered (q := Feed epoch after pageLimit) (AObject page) |} :: log) (page :: pages).

Lemma newest_app {A} (l k : list A) : newest (newest l ++ k) = newest (l ++ k).
Proof.
  unfold newest. rewrite <- (drop_app_le l k) by lia. rewrite drop_drop. f_equal.
  rewrite length_drop, !length_app. lia.
Qed.

Lemma newest_short {A} (l : list A) : (length l <= maximumArtifacts)%nat -> newest l = l.
Proof. intros H. unfold newest. by replace (_ - _)%nat with 0%nat by lia. Qed.

Lemma length_newest {A} (l : list A) : (length (newest l) <= maximumArtifacts)%nat.
Proof. unfold newest. rewrite length_drop. lia. Qed.

Definition read_size (pages : list entries) : Z := foldr (fun page n => page_size page + n) 0 pages.

(** The walk ends, and gives the newest artifacts of the pages; it is cut off only when as many
    publications were read as it may read. *)
Lemma feed_loop_spec fuel epoch artifacts after count truncated log o :
  (length artifacts <= maximumArtifacts)%nat -> maximumPublications <= count + Z.of_nat fuel -> count < maximumPublications ->
  runs (feed_loop fuel epoch artifacts after count truncated) log o ->
  (length log <= fuel)%nat /\ o <> Done None /\
  forall shown cut, o = Done (Some (shown, cut)) ->
    exists pages found, walked epoch after log pages /\ Forall2 page_artifacts pages found /\
      shown = newest (artifacts ++ mjoin found) /\
      (cut = true -> truncated = true \/ maximumPublications <= count + read_size pages).
Proof.
  revert artifacts after count truncated log o.
  induction fuel as [|fuel IH]; intros artifacts after count truncated log o Hlen Hfuel Hcount; [lia|]. cbn [feed_loop].
  rewrite (proj2 (Z.ltb_lt _ _) Hcount). cbn [negb].
  intros [(answer_ & log' & -> & H)|(r & e & -> & ->)]%(runs_ask_then (Feed epoch after pageLimit)); [|split; [cbn; lia|done]].
  apply runs_lift_then in H as [(e & _ & -> & ->)|(page & Ep%record_of_Done & H)]; [split; [cbn; lia|done]|]. subst answer_.
  destruct (get "items" page) as [[| | | | |items|]|] eqn:Ei; try (apply runs_throws_inv in H as [-> ->]; split; [cbn; lia|done]; fail).
  apply runs_lift_then in H as [(e & _ & -> & ->)|(found & Ef & H)]; [split; [cbn; lia|done]|].
  assert (page_artifacts page (mjoin found)) as Hpage by by exists items, found.
  assert (page_size page = Z.of_nat (length items)) as Hsize by (unfold page_size; by rewrite Ei).
  set (x := {| ex_request := Feed epoch after pageLimit; ex_reply := _ |}).
  assert (forall b k, (b = true -> truncated = true \/ maximumPublications <= count + page_size page) ->
    runs (Return (Some (newest (artifacts ++ mjoin found), b))) k o ->
    (length (x :: k) <= S fuel)%nat /\ o <> Done None /\ forall shown cut, o = Done (Some (shown, cut)) ->
      exists pages found', walked epoch after (x :: k) pages /\ Forall2 page_artifacts pages found' /\
        shown = newest (artifacts ++ mjoin found') /\
        (cut = true -> truncated = true \/ maximumPublications <= count + read_size pages)) as Hstop.
  { intros b k Hb [-> ->]%runs_return_inv. split; [cbn; lia|]. split; [done|]. intros shown cut [= <- <-].
    exists [page], [mjoin found]. split; [constructor|]. split; [by repeat constructor|]. cbn. rewrite app_nil_r, Z.add_0_r. done. }
  destruct (get "nextAfterSequence" page) as [[]|] eqn:En; try (apply (Hstop truncated); [by left|done]).
  destruct ((n <=? after) || (length items =? 0)%nat) eqn:Estop; [by apply (Hstop truncated); [left|]|].
  apply orb_false_elim in Estop as [En'%Z.leb_gt Ei'%Nat.eqb_neq].
  destruct (Z.ltb_spec (count + Z.of_nat (length items)) maximumPublications) as [Hmore|Hfull].
  - replace (_ || _) with truncated in H by (rewrite (proj2 (Z.leb_gt _ _)) by done; by rewrite orb_false_r).
    apply IH in H as (H1 & H2 & H3); [|apply length_newest|lia|done]. split; [cbn; lia|]. split; [done|].
    intros shown cut Ho. destruct (H3 shown cut Ho) as (pages & found' & Hw & Hf & -> & Hcut).
    exists (page :: pages), (mjoin found :: found'). split_and!.
    + apply (walked_next epoch after n); [done|done|lia|done].
    + by constructor.
    + cbn. by rewrite newest_app, <- app_assoc.
    + intros Hc. change (read_size (page :: pages)) with (page_size page + read_size pages). destruct (Hcut Hc) as [?|?]; [by left|right; lia].
  - destruct fuel; cbn [feed_loop] in H; rewrite (proj2 (Z.ltb_ge _ _) Hfull) in H; cbn [negb] in H.
    all: apply (Hstop (truncated || (maximumPublications <=? count + Z.of_nat (length items))));
      [intros _; right; lia|done].
Qed.

(** ** The inputs of runs *)

Lemma representatives_spec seen l :
  (forall runId a, (runId, a) ∈ representatives seen l ->
     a ∈ l /\ br_producerRunId a = Some runId /\ runId <> [] /\ runId ∉ seen) /\
  NoDup (representatives seen l).*1 /\
  (forall a runId, a ∈ l -> br_producerRunId a = Some runId -> runId <> [] -> runId ∉ seen ->
     runId ∈ (representatives seen l).*1).
Proof.
  revert seen. induction l as [|b l IH]; intros seen; cbn [representatives].
  { split_and!; [|constructor|]; intros; by apply not_elem_of_nil in H. }
  destruct (br_producerRunId b) as [runId|] eqn:Eb.
  - destruct (bool_decide (runId = []) || bool_decide (runId ∈ seen)) eqn:Ec.
    + destruct (IH seen) as (H1 & H2 & H3). split_and!; [|done|].
      * intros r a Hin. destruct (H1 r a Hin) as (? & ?). split; [by right|done].
      * intros a r [->|Ha]%elem_of_cons Hr Hne Hs; [|by apply (H3 a)].
        exfalso. assert (r = runId) as -> by congruence. apply orb_prop in Ec as [Ec|Ec]; by apply bool_decide_eq_true in Ec.
    + bools. destruct (IH (runId :: seen)) as (H1 & H2 & H3). split_and!.
      * intros r a [[= -> ->]|Hin]%elem_of_cons; [split; [by left|done]|].
        destruct (H1 r a Hin) as (? & ? & ? & Hs). split_and!; [by right|done|done|set_solver].
      * cbn. constructor; [|done]. intros ([r a] & -> & Hin)%list_elem_of_fmap. cbn in *.
        destruct (H1 r a Hin) as (_ & _ & _ & Hs). apply Hs. by left.
      * intros a r [->|Ha]%elem_of_cons Hr Hne Hs; cbn; [assert (r = runId) as -> by congruence; by left|].
        destruct (decide (r = runId)) as [->|Hd]; [by left|right]. apply (H3 a); [done..|set_solver].
  - destruct (IH seen) as (H1 & H2 & H3). split_and!; [|done|].
    + intros r a Hin. destruct (H1 r a Hin) as (? & ?). split; [by right|done].
    + intros a r [->|Ha]%elem_of_cons Hr Hne Hs; [congruence|by apply (H3 a)].
Qed.

(** The inputs the store gave for one run, asked about the first artifact of the run. *)
Definition lineage_answer (log : list exchange) (e : text * BrowsedArtifact) (inputs : list ArtifactLineageInput) : Prop :=
  exists resource, asked log (ProducerInputs (br_artifactId e.2)) (AObject resource) /\
    get "artifactId" resource = Some (AString (br_artifactId e.2)) /\
    get "producerRunId" resource = Some (AString e.1) /\ lineageInputs (get "inputs" resource) = Done inputs.

Lemma producer_inputs_spec runId a log r :
  runs (producer_inputs runId a) log (Done r) -> r.1 = runId /\ lineage_answer log (runId, a) r.2.
Proof.
  unfold producer_inputs. intros H. run_all.
  repeat match goal with H : _ = record_of _ _ |- _ => symmetry in H; apply record_of_Done in H; subst end.
  simplify_eq. cbn [fst snd].
  match goal with H : Done ?i = stringField ?l "artifactId" _, H' : Done false = _ |- _ =>
    symmetry in H; apply stringField_Done in H; destruct (bool_decide (i = br_artifactId a)) eqn:Eid; [|discriminate H'];
    symmetry in H'; apply checked_then in H' as (run & Hrun%stringField_Done & [= Hr]) end.
  bools. split; [done|]. eexists. split; [by left|]. cbn [fst snd]. subst. split_and!; [done|done|by symmetry].
Qed.

Lemma each_inputs l log rs :
  runs (each (fun e => producer_inputs e.1 e.2) l) log (Done rs) ->
  rs.*1 = l.*1 /\ Forall2 (fun e r => lineage_answer log e r.2) l rs.
Proof.
  revert log rs. induction l as [|[runId a] l IH]; intros log rs; cbn [each].
  - intros [_ [= ->]]%runs_return_inv. by split.
  - intros H. run_all. simplify_eq.
    repeat match goal with
    | H : runs (producer_inputs _ _) _ _ |- _ => apply producer_inputs_spec in H as [Hrun Hin]
    | H : runs (each _ _) _ _ |- _ => apply IH in H as [Hkeys Hall]
    end.
    cbn [fmap list_fmap fst] in *. split; [by rewrite Hrun, Hkeys|].
    assert (forall k k' e i, k ⊆ k' -> lineage_answer k e i -> lineage_answer k' e i) as Hmono.
    { intros k k' e i Hs (res & Ha & Hres). exists res. split; [by apply (asked_mono k)|done]. }
    constructor; [eapply Hmono; [|exact Hin]; set_solver|]. eapply Forall2_impl; [exact Hall|].
    intros e r. apply Hmono. set_solver.
Qed.

(** browsing shows the newest artifacts. Whatever the store answers, [browse] ends
    after at most 10,000 pages of the feed. A result has the epoch the store
    named; its artifacts are, newest first, the last 2,000 of all that the pages held, asked
    for one after the other with growing sequence numbers; it says that it was cut
    off only after 10,000 publications; and an artifact that a run produced has the inputs
    the store gave for that very run. *)
Theorem browsing_shows_the_newest log o :
  runs browse log o ->
  o <> Done None /\
  forall result, o = Done (Some result) ->
    exists context feed rest pages found,
      log = {| ex_request := Context; ex_reply := Answered (q := Context) (AObject context) |} :: feed ++ rest /\
      get "storeEpoch" context = Some (AString (bw_storeEpoch result)) /\
      walked (bw_storeEpoch result) 0 feed pages /\ Z.of_nat (length feed) <= 10000 /\
      Forall2 page_artifacts pages found /\
      (bw_truncated result = true -> 10000 <= read_size pages) /\
      exists inputsByRun, bw_artifacts result = reverse (with_inputs inputsByRun <$> newest (mjoin found)) /\
        forall a runId, a ∈ newest (mjoin found) -> br_producerRunId a = Some runId -> runId <> [] ->
          exists inputs first, br_inputs (with_inputs inputsByRun a) = inputs /\
            br_producerRunId first = Some runId /\ lineage_answer log (runId, first) inputs.
Proof.
  unfold browse. intros (o' & H & ->)%runs_reported.
  apply (runs_ask_then Context) in H as [(answer_ & log' & -> & H)|(r & e & -> & ->)]; [|by destruct e].
  apply runs_lift_then in H as [(e & _ & -> & ->)|(context & Ec%record_of_Done & H)]; [by destruct e|]. subst answer_.
  apply runs_lift_then in H as [(e & _ & -> & ->)|(epoch & Ee%stringField_Done & H)]; [by destruct e|].
  apply runs_then in H as [(feed & read & rest & -> & Hf & H)|(e & _ & ->)]; [|by destruct e].
  apply feed_loop_spec in Hf as (Hlen & Hnone & Hf); [|cbn; lia|unfold BROWSE_FUEL, maximumPublications; lia|done].
  destruct read as [[shown cut]|]; [|done]. destruct (Hf _ _ eq_refl) as (pages & found & Hw & Hp & -> & Hcut).
  apply runs_then in H as [(l1 & inputsByRun & l2 & -> & He & H)|(e & _ & ->)]; [|by destruct e].
  apply runs_return_inv in H as [-> ->]. split; [done|]. intros result [= <-].
  exists context, feed, (l1 ++ []), pages, found. cbn [bw_storeEpoch bw_artifacts bw_truncated].
  split_and!; [done|done|done|unfold BROWSE_FUEL, maximumPublications in Hlen; lia|done|intros Hc; by destruct (Hcut Hc)|].
  cbn [app] in *. exists inputsByRun. split; [done|]. intros a runId Ha Hr Hne.
  destruct (representatives_spec [] (newest (mjoin found))) as (H1 & H2 & H3).
  apply each_inputs in He as [Hkeys Hall].
  assert (runId ∈ (representatives [] (newest (mjoin found))).*1) as ([r first] & Er & Hin)%list_elem_of_fmap.
  { apply (H3 a); [done..|apply not_elem_of_nil]. }
  cbn in Er. subst r. apply list_elem_of_lookup_1 in Hin as [k Hk].
  destruct (Forall2_lookup_l _ _ _ _ _ Hall Hk) as ([r inputs] & Hkr & Hin).
  assert (r = runId) as ->.
  { assert (inputsByRun.*1 !! k = Some r) as E1 by by rewrite list_lookup_fmap, Hkr.
    rewrite Hkeys, list_lookup_fmap, Hk in E1. by injection E1. }
  exists inputs, first. split_and!.
  - cbn. rewrite Hr, bool_decide_eq_false_2 by done.
    rewrite (map_get_ok runId inputs); [done| |by apply list_elem_of_lookup_2 in Hkr]. unfold map_ok. by rewrite Hkeys.
  - by apply (H1 runId first), (list_elem_of_lookup_2 _ k).
  - destruct Hin as (res & Hres & Hrest). exists res. split; [|done].
    right. apply elem_of_app. right. by rewrite app_nil_r.
Qed.
