(* ===== verification/Admission.v ===== *)
(** * What a client may publish

    Admitted statements were confirmed, decisions follow a ranking, uploads are bounded and
    every run follows its contract; and a store to try them. *)

From S2P Require Import Prelude Base64 Csv CsvStatements Canonical Store ClientContract ArtifactService Publishing Browsing.

Open Scope stdpp_scope.
Open Scope js_scope.
Local Open Scope Z_scope.

(** ** Checks as facts *)

Lemma refuse_Done b e (k : checked unit) u : (refuse! b as e; k) = Done u -> b = false /\ k = Done u.
Proof. destruct b; [discriminate|done]. Qed.

Lemma check_each_Done {A} (check : A -> checked unit) l u :
  check_each check l = Done u -> Forall (fun x => check x = Done tt) l.
Proof.
  induction l as [|x l IH]; cbn; [constructor|]. destruct (check x) as [[]|] eqn:E; [|discriminate]. cbn.
  intros H. constructor; auto.
Qed.

Section Admission.
Context (utf8 windows1252 : list Z -> option text) (digest : list Z -> list Z) (fromBase64 : text -> list Z).

Lemma check_run_parts input log d :
  runs (check_run utf8 windows1252 digest input) log (Done d) ->
  validate_run input = Done d /\
  exists l1 l2 l3, log = l1 ++ l2 ++ l3 /\ runs (check_csv utf8 windows1252 digest input) l1 (Done tt) /\
    runs (check_financial input) l2 (Done tt) /\ runs (check_review digest input) l3 (Done tt).
Proof.
  unfold check_run. intros H. run_all. simplify_eq. cbn [app]. rewrite app_nil_r. split; [done|].
  repeat match goal with u : unit |- _ => destruct u end. by eexists _, _, _.
Qed.

Lemma sent_after_reads d input checks rest :
  Forall (fun x => reads (ex_request x)) checks -> sent digest fromBase64 d input rest ->
  sent digest fromBase64 d input (checks ++ rest).
Proof.
  intros Hc (H1 & H2 & H3). split_and!.
  - intros x [Hx|Hx]%elem_of_app Hw.
    + rewrite Forall_forall in Hc. apply Hc in Hx. unfold reads in Hx. congruence.
    + destruct (H1 x Hx Hw) as [?|Hp]; [by left|right]. destruct (ex_request x); try done.
      destruct Hp as (-> & c & r & au & Ha & H). split; [done|]. exists c, r, au. split; [by apply asked_app_r|done].
  - apply last_publish_app; [|done]. eapply Forall_impl; [exact Hc|]. intros x Hx. unfold reads in Hx. by destruct (ex_request x).
  - rewrite uploaded_app, uploaded_reads by done. lia.
Qed.

(** A run that is sent has passed its checks; what they read is in the exchanges. *)
Lemma sent_after_checks input log o x :
  runs (publishClientRun utf8 windows1252 digest fromBase64 input) log o -> x ∈ log -> is_write (ex_request x) = true ->
  exists d checks rest, log = checks ++ rest /\ runs (check_run utf8 windows1252 digest input) checks (Done d) /\
    sent digest fromBase64 d input log.
Proof.
  intros H Hx Hw. apply publishClientRun_sent in H as [H|(d & checks & rest & -> & H1 & H2 & H3)].
  - rewrite Forall_forall in H. apply H in Hx. unfold reads in Hx. congruence.
  - exists d, checks, rest. split_and!; try done. by apply sent_after_reads.
Qed.

(** ** Contracts *)

(** C29: client runs follow their contract. Whatever the store answers: when a client
    run uploads or publishes anything, its procedure is one of the table, and the run
    has passed the common checks and those of its procedure. A publication is the last
    request; it has the identifier of the run and the epoch the store named, it names the
    actor of the procedure in the table as its executor and the user as its initiator, and it
    holds exactly the outputs of the run, each with the digest and length of its own blob. *)
Theorem client_runs_follow_their_contract input log o before x after :
  runs (publishClientRun utf8 windows1252 digest fromBase64 input) log o ->
  log = before ++ x :: after -> is_write (ex_request x) = true ->
  exists key d, (key, d) ∈ CLIENT_PROCEDURES /\ pr_procedureKey input = lit key /\
    validateCommonClientContract input = Done tt /\ dc_validate d input = Done tt /\
    match ex_request x with
    | Publish publicationId storeEpoch submission =>
        after = [] /\ publicationId = pr_publicationId input /\
        exists context receipt authorities,
          asked log Context (AObject context) /\ get "storeEpoch" context = Some (AString storeEpoch) /\
          submission = submission_json input (run_json d input receipt)
            ((fun a => artifact_json a (blob_json digest fromBase64 a)) <$> pr_artifacts input) authorities /\
          exists sent intent run executor initiator, submission = AObject sent /\
            get "intent" sent = Some (AObject intent) /\ get "publicationId" intent = Some (AString publicationId) /\
            get "run" intent = Some (AObject run) /\ get "procedureKey" run = Some (AString (lit key)) /\
            get "executor" run = Some (AObject executor) /\ get "kind" executor = Some (AString (lit "agent")) /\
            get "id" executor = Some (AString (lit (dc_actor d))) /\
            get "initiator" run = Some (AObject initiator) /\ get "kind" initiator = Some (AString (lit "user")) /\
            get "id" initiator = Some (AString (lit "user:" ++ pr_userId input))
    | _ => True
    end.
Proof.
  intros H E Hw. assert (x ∈ log) as Hx by (rewrite E; set_solver).
  destruct (sent_after_checks _ _ _ _ H Hx Hw) as (d & checks & rest & _ & H1 & Hs & Hl & _).
  apply check_run_parts in H1 as [(key & Hk & Hp & Hc & Hv)%validate_run_Done _].
  exists key, d. split_and!; try done. specialize (Hl before x after E).
  specialize (Hs x Hx Hw). destruct (ex_request x) eqn:Ex; try done.
  destruct Hs as [Hu|(-> & context & receipt & au & Ha & He & Hsub)]; [done|].
  split_and!; [by apply Hl|done|]. exists context, receipt, au. do 3 (split; [done|]).
  rewrite Hsub, <- Hp. by repeat eexists.
Qed.

(** C40: uploads are bounded. Whatever the store answers, and also when the run fails in
    the end: all blobs of a client run that are uploaded have together at most 4 MiB,
    or 25 MiB when a file is inspected; each upload sends the bytes of a blob of the
    run, whose text is the canonical base64 of them, under their digest and length. *)
Theorem uploads_are_bounded input log o :
  runs (publishClientRun utf8 windows1252 digest fromBase64 input) log o ->
  uploaded log <= (if bool_decide (pr_procedureKey input = lit "client.inspect-file") then 26214400 else 4194304) /\
  forall claimId sha256 len mediaType content r,
    {| ex_request := Upload claimId sha256 len mediaType content; ex_reply := r |} ∈ log ->
    exists a blob bytes, a ∈ pr_artifacts input /\ ca_blob a = Some blob /\ content = Bytes bytes /\
      toBase64 bytes = bl_base64 blob /\ mediaType = bl_mediaType blob /\
      sha256 = hex_digest digest bytes /\ len = Z.of_nat (length bytes).
Proof.
  intros H. split.
  - replace (if bool_decide _ then _ else _) with (maximumBlobBytes input).
    + apply publishClientRun_sent in H as [H|(d & checks & rest & -> & _ & H2 & _ & _ & H3)].
      * rewrite uploaded_reads by done. unfold maximumBlobBytes. by destruct (is_procedure _ _).
      * by rewrite uploaded_app, uploaded_reads.
    + unfold maximumBlobBytes, is_procedure. cbn [fmap list_fmap]. case_bool_decide as H1; case_bool_decide as H2; try done; set_solver.
  - intros claimId sha256 len mediaType content r Hin.
    destruct (sent_after_checks _ _ _ _ H Hin eq_refl) as (d & _ & _ & _ & _ & Hs & _).
    by destruct (Hs _ Hin eq_refl) as [Hu|[]].
Qed.

(** ** Statements *)

(** C16: admitted statements were confirmed. When a bank statement from a CSV file is
    sent to the store, then in this very run the bytes of its source were read; they
    decode to a complete statement of a known format, and the published payload is
    that statement; the store has the committed run in which this detection of
    this source was accepted, under the identity of source and bytes; and the artifact
    of that confirmation is the one the run names as its input. *)
Theorem admitted_statements_were_confirmed input log o x
    (Hbytes : forall id (bytes : list Z), asked log (Content id) bytes -> Forall (fun b => 0 <= b < 256) bytes) :
  runs (publishClientRun utf8 windows1252 digest fromBase64 input) log o ->
  pr_procedureKey input = lit "client.admit-csv-statement" -> x ∈ log -> is_write (ex_request x) = true ->
  exists sourceId detectionId bytes t p rows st payload,
    input_id "source" input = Done sourceId /\ input_id "detection" input = Done detectionId /\
    asked log (Content sourceId) bytes /\
    decodeCsvText utf8 windows1252 bytes = Ok t /\ eligible_statement t p rows st /\
    first_payload input = Done payload /\ same_text payload (statement_json st) /\
    confirmed digest input sourceId (hex_digest digest bytes) detectionId log.
Proof.
  intros H Hk Hx Hw.
  destruct (sent_after_checks _ _ _ _ H Hx Hw) as (d & checks & rest & El & H1 & _).
  apply check_run_parts in H1 as (_ & l1 & l2 & l3 & -> & Hcsv & _ & _).
  pose proof (check_csv_admitted _ _ _ _ _ Hcsv Hk) as Had.
  destruct Had as (sourceId & bytes & det & detectionId & detection & payload & Hs & Hd & Hc & Hdet & He & _ & _ & Hconf & Hp & Hst).
  assert (l1 ⊆ log) as Hsub by (rewrite El; set_solver).
  apply (asked_mono _ log) in Hc; [|done].
  destruct (eligible_detection _ _ _ _ _ _ Hdet He) as (bytes' & t & p & rows & st & Hb & Ht & _ & Hst' & Hel).
  rewrite atob_toBase64 in Hb by (by apply (Hbytes sourceId)). injection Hb as <-.
  exists sourceId, detectionId, bytes, t, p, rows, st, payload. split_and!; try done.
  - unfold statement_field in Hst. by rewrite Hst' in Hst.
  - assert (cd_sourceSha256 det = hex_digest digest bytes) as <-.
    { unfold detectCsvStatement, csvSourceDigest in Hdet. rewrite atob_toBase64 in Hdet by (by apply (Hbytes sourceId)).
      cbn [mbind result_bind] in Hdet. destruct (detect _ _ _) as [? ?]. by injection Hdet as <-. }
    destruct Hconf as (run & draft & key & id & Hr & Hrest). exists run, draft, key, id.
    split; [by apply (committed_run_mono _ _ _ l1)|done].
Qed.

(** ** Decisions *)

Lemma expectDecision_spec input :
  expectDecision input = Done tt ->
  exists payload, first_payload input = Done (AObject payload) /\
    one_of ["accepted"; "rejected"] (get "decision" payload) = true /\
    get "relation" payload = Some (str "supports-booking") /\
    forall field role id, (field, role) ∈ [("candidateArtifactId", "match-candidate"); ("openItemArtifactId", "open-item");
        ("transactionArtifactId", "transaction")] ->
      input_id role input = Done id -> get field payload = Some (AString id).
Proof.
  unfold expectDecision, first_payload. destruct (pr_artifacts input) as [|a l]; [done|].
  destruct (ca_payload a) as [| | | | | |payload]; try done. cbn [clientRecord mbind checked_bind].
  intros [E H]%refuse_Done. apply check_each_Done in H. bools. exists payload.
  split_and!; [done..|by apply is_string_spec|].
  intros field role id Hin Hid. rewrite Forall_forall in H. specialize (H _ Hin). apply refuse_Done in H as [Hs%negb_false_iff _].
  cbn [fst snd] in Hs. unfold input_id in Hid. destruct (input_of (lit role) (pr_inputs input)) as [i|]; [|done].
  injection Hid as <-. destruct (get field payload) as [[]|]; try discriminate. cbn in Hs. by apply bool_decide_eq_true in Hs as ->.
Qed.

(** The first of the inputs with a role and an ordinal is the artifact [id]. *)
Definition first_input (role : string) (ordinal : Z) (inputs : list ArtifactLineageInput) (id : text) : Prop :=
  exists before item after, inputs = before ++ item :: after /\ li_role item = lit role /\
    li_ordinal item = ordinal /\ li_artifactId item = id /\
    forall other, other ∈ before -> ~ (li_role other = lit role /\ li_ordinal other = ordinal).

Lemma lineage_of_first role ordinal inputs id :
  lineage_of role ordinal inputs = Some id -> exists n, ordinal = Some (ANumber n) /\ first_input role n inputs id.
Proof.
  unfold lineage_of. induction inputs as [|item inputs IH]; cbn; [done|].
  destruct (bool_decide_reflect (li_role item = lit role)) as [Hr|Hr]; cbn [andb].
  - destruct (is_number ordinal (li_ordinal item)) eqn:Hn.
    + intros [= <-]. destruct ordinal as [[| |n| | | |]|]; try done. apply Z.eqb_eq in Hn as ->.
      exists (li_ordinal item). split; [done|]. exists [], item, inputs. do 4 (split; [done|]).
      by intros ? ?%not_elem_of_nil.
    + intros (n & -> & before & i & after & -> & ? & ? & ? & Hb)%IH. exists n. split; [done|].
      exists (item :: before), i, after. do 4 (split; [done|]).
      intros other [->|Ho]%elem_of_cons; [|by apply Hb]. intros [_ E]. cbn in Hn. rewrite E in Hn. by rewrite Z.eqb_refl in Hn.
  - intros (n & -> & before & i & after & -> & ? & ? & ? & Hb)%IH. exists n. split; [done|].
    exists (item :: before), i, after. do 4 (split; [done|]).
    intros other [->|Ho]%elem_of_cons; [by intros [? _]|by apply Hb].
Qed.

(** What the store says of a ranked candidate. *)
Definition ranked_pair (log : list exchange) (candidateId invoiceId transactionId : text) : Prop :=
  exists candidate payload producer inputs,
    asked log (Artifact candidateId) (AObject candidate) /\
    get "typeKey" candidate = Some (str "reconciliation.match-candidate") /\
    get "payload" candidate = Some (AObject payload) /\
    asked log (ProducerInputs candidateId) (AObject producer) /\
    lineageInputs (get "inputs" producer) = Done inputs /\
    first_input "open-item" 0 inputs invoiceId /\
    exists ordinal, get "transactionInputOrdinal" payload = Some (ANumber ordinal) /\
      first_input "transaction" ordinal inputs transactionId.

Lemma check_review_spec input log :
  runs (check_review digest input) log (Done tt) -> pr_procedureKey input = lit "client.review-reconciliation" ->
  exists candidateId invoiceId transactionId,
    input_id "match-candidate" input = Done candidateId /\ input_id "open-item" input = Done invoiceId /\
    input_id "transaction" input = Done transactionId /\ ranked_pair log candidateId invoiceId transactionId /\
    pr_publicationId input = pair_identity digest invoiceId transactionId.
Proof.
  intros H Hk. unfold check_review in H. decide_procedure H Hk.
  run_all.
  repeat match goal with H : _ = record_of _ _ |- _ => symmetry in H; apply record_of_Done in H; subst end.
  repeat match goal with H : context [match ?x with Some _ => _ | None => _ end] |- _ =>
    match type of H with runs _ _ _ => destruct x as [?id|] eqn:? end end; run_all.
  match goal with H : _ = or_check _ _ |- _ => symmetry in H; apply or_check_false in H as [_ Hd] end.
  apply checked_then in Hd as (openItem & Hopen & Hd). apply or_check_false in Hd as [Ho Hd].
  apply checked_then in Hd as (transaction & Htx & [= Ht]). store_facts. simplify_eq.
  eexists _, _, _. split_and!; [by symmetry|exact Hopen|exact Htx| |].
  2: { lazymatch goal with H : pr_publicationId _ = pair_identity _ ?a ?b |- _ = pair_identity _ ?a ?b => exact H end. }
  repeat match goal with H : lineage_of _ _ _ = Some _ |- _ =>
    let n := fresh "n" in apply lineage_of_first in H as (n & ? & ?) end.
  eexists _, _, _, _. split_and!; [by left|done|done|right; by left|by symmetry| |eauto].
  match goal with H : Some (ANumber 0) = _ |- _ => by injection H as <- end.
Qed.

Lemma descriptor_review :
  descriptor (lit "client.review-reconciliation") = Own (procedure "reconciliation-review" validate_review).
Proof. vm_compute. reflexivity. Qed.

(** C30: decisions follow a ranking. When the decision of a reconciliation is sent to the
    store, the stored match candidate was ranked for exactly the invoice and the
    transaction that are decided on, as the first of the inputs of its run that has the role of
    an open item and the ordinal 0, or the role of a transaction and the ordinal that the
    candidate names; the decision is one of accepted and rejected and
    names these three artifacts, and it is published under the one identity of the pair:
    a second decision on the same pair goes to the same publication. *)
Theorem decisions_follow_a_ranking input log o x :
  runs (publishClientRun utf8 windows1252 digest fromBase64 input) log o ->
  pr_procedureKey input = lit "client.review-reconciliation" -> x ∈ log -> is_write (ex_request x) = true ->
  exists candidateId invoiceId transactionId decision,
    input_id "match-candidate" input = Done candidateId /\ ranked_pair log candidateId invoiceId transactionId /\
    pr_publicationId input = pair_identity digest invoiceId transactionId /\
    first_payload input = Done (AObject decision) /\
    one_of ["accepted"; "rejected"] (get "decision" decision) = true /\
    get "candidateArtifactId" decision = Some (AString candidateId) /\
    get "openItemArtifactId" decision = Some (AString invoiceId) /\
    get "transactionArtifactId" decision = Some (AString transactionId).
Proof.
  intros H Hk Hx Hw.
  destruct (sent_after_checks _ _ _ _ H Hx Hw) as (d & checks & rest & El & H1 & _).
  apply check_run_parts in H1 as (Hv & l1 & l2 & l3 & -> & _ & _ & Hr).
  apply check_review_spec in Hr as (candidateId & invoiceId & transactionId & Hc & Hi & Ht & Hpair & Hpub); [|done].
  assert (expectDecision input = Done tt) as Hd.
  { unfold validate_run in Hv. rewrite Hk, descriptor_review in Hv. apply checked_then in Hv as (_ & _ & Hv).
    apply checked_then in Hv as ([] & Hv & _). by apply checked_then in Hv as (_ & _ & Hv). }
  apply expectDecision_spec in Hd as (decision & Hp & Hone & _ & Hf).
  exists candidateId, invoiceId, transactionId, decision. split_and!; try done.
  - destruct Hpair as (c & p & pr & i & H2 & H3 & H4 & H5 & H6).
    assert (l3 ⊆ log) as Hsub by (rewrite El; set_solver).
    exists c, p, pr, i. split_and!; [by apply (asked_mono l3)|done|done|by apply (asked_mono l3)|apply H6..].
  - apply (Hf "candidateArtifactId" "match-candidate"); [by left|done].
  - apply (Hf "openItemArtifactId" "open-item"); [right; by left|done].
  - apply (Hf "transactionArtifactId" "transaction"); [right; right; by left|done].
Qed.
End Admission.

(** * A sample artifact store

    A store with a CSV file, its detection, the confirmation of a human and a ranked
    candidate, and runs of the artifact service against it: the admission of the
    statement, the decision on the candidate and the inspection of a file. *)

(** ** The store *)

Definition detected : CsvDetection :=
  match detectCsvStatement Some (fun _ => None) id (lit "file") (toBase64 sample_csv) with
  | Ok d => d
  | Throw _ => {| cd_sourceArtifactId := []; cd_sourceSha256 := []; cd_eligible := false; cd_profile := None;
                  cd_reason := ""; cd_statement := None |}
  end.
Definition confirmation_id : text := csvConfirmationIdentity id (lit "file") (cd_sourceSha256 detected).
Definition link (role : string) (ordinal : Z) (artifactId : string) : ArtifactJson :=
  object [("role", str role); ("ordinal", ANumber ordinal); ("artifactId", str artifactId)].

Definition sample_artifact (id_ : text) : option ArtifactJson :=
  if bool_decide (id_ = lit "file") then Some (object [
    ("typeKey", str "core.file");
    ("payload", object [("originalName", str "May.CSV"); ("declaredMediaType", str "application/octet-stream")])])
  else if bool_decide (id_ = lit "detection") then Some (object [
    ("typeKey", str "banking.csv-statement-detection"); ("typeVersion", ANumber 1); ("payload", detection_json detected)])
  else if bool_decide (id_ = lit "confirmation") then Some (object [
    ("artifactId", str "confirmation"); ("scopeId", str "scope"); ("publicationId", AString confirmation_id);
    ("producerRunId", str "human-run"); ("typeKey", str "banking.csv-statement-confirmation");
    ("typeVersion", ANumber 1); ("output", output_json (lit "confirmation") 0); ("blob", ANull);
    ("payload", accepted_confirmation (lit "file") (cd_sourceSha256 detected) (lit "detection"))])
  else if bool_decide (id_ = lit "match") then Some (object [
    ("typeKey", str "reconciliation.match-candidate"); ("payload", object [("transactionInputOrdinal", ANumber 1)])])
  else None.

Definition sample_publication : ArtifactJson := object [
  ("publication", object [
     ("publicationId", AString confirmation_id); ("scopeId", str "scope"); ("runId", str "human-run");
     ("artifacts", AArray [object [("artifactId", str "confirmation"); ("localKey", str "confirmation");
                                   ("output", output_json (lit "confirmation") 0)]])]);
  ("run", object [("procedureKey", str "client.confirm-csv-statement"); ("procedureVersion", str "client-v1");
                  ("parameters", object [])])].

Definition sample_feed : ArtifactJson := object [
  ("items", AArray [object [
     ("publicationId", str "p1"); ("scopeSequence", ANumber 1); ("kind", str "run"); ("committedAt", str "now");
     ("artifacts", AArray [object [
        ("artifactId", str "match"); ("localKey", str "match-001"); ("publicationOrdinal", ANumber 0);
        ("typeKey", str "reconciliation.match-candidate"); ("typeVersion", ANumber 2); ("artifactSha256", str "00");
        ("producerRunId", str "ranking")]])]]);
  ("nextAfterSequence", ANumber 1)].

Definition found_or_missing (o : option ArtifactJson) : ArtifactJson := match o with Some v => v | None => ANull end.

Definition sample_store : store := fun _ q =>
  match q return reply q with
  | Context => Answered (q := Context) (object [("storeEpoch", str "epoch")])
  | Artifact a => Answered (q := Artifact a) (found_or_missing (sample_artifact a))
  | Content a => Answered (q := Content a) sample_csv
  | ProducerInputs a => Answered (q := ProducerInputs a) (object [
      ("artifactId", AString a); ("producerRunId", str "ranking");
      ("inputs", AArray [link "open-item" 0 "invoice"; link "transaction" 0 "other"; link "transaction" 1 "payment"])])
  | SupportingEvidence a => Broken (q := SupportingEvidence a) []
  | Publication p =>
      if bool_decide (p = confirmation_id) then Answered (q := Publication p) sample_publication
      else Problem (q := Publication p) 404 (lit "RESOURCE_UNAVAILABLE") []
  | Feed e a l => Answered (q := Feed e a l) (if a =? 0 then sample_feed else object [("items", AArray [])])
  | Upload c s n m b => Answered (q := Upload c s n m b) (object [])
  | Publish p e s => Answered (q := Publish p e s) (object [
      ("publicationId", AString p); ("runId", str "run"); ("replayed", ABool false); ("scopeSequence", ANumber 2);
      ("artifacts", AArray [])])
  | RandomUUID => Answered (q := RandomUUID) (lit "claim")
  end.

(** ** Runs *)

Definition sample_input (procedureKey : string) (publicationId : text) (inputs : list (string * string))
    (artifact : ClientRunArtifact) : PublishClientRunInput := {|
  pr_userId := lit "anna"; pr_scopeId := lit "scope"; pr_publicationId := publicationId;
  pr_procedureKey := lit procedureKey; pr_procedureVersion := lit "client-v1";
  pr_inputs := (fun e => {| ci_role := lit e.1; ci_ordinal := 0; ci_artifactId := lit e.2 |}) <$> inputs;
  pr_parameters := object []; pr_artifacts := [artifact]; pr_evidence := [] |}.
Definition sample_output (localKey typeKey : string) (version : Z) (role : string) (payload : ArtifactJson)
    (blob : option Blob) : ClientRunArtifact :=
  {| ca_localKey := lit localKey; ca_typeKey := lit typeKey; ca_typeVersion := version; ca_payload := payload;
     ca_role := lit role; ca_ordinal := 0; ca_blob := blob |}.

Definition admission : PublishClientRunInput :=
  sample_input "client.admit-csv-statement" (lit "admission")
    [("source", "file"); ("detection", "detection"); ("confirmation", "confirmation")]
    (sample_output "statement" "banking.account-statement-candidate" 2 "candidate" (statement_field detected) None).
Definition decision_run : PublishClientRunInput :=
  sample_input "client.review-reconciliation" (pair_identity id (lit "invoice") (lit "payment"))
    [("match-candidate", "match"); ("open-item", "invoice"); ("transaction", "payment")]
    (sample_output "decision" "reconciliation.decision" 1 "decision" (object [
       ("decision", str "rejected"); ("relation", str "supports-booking"); ("candidateArtifactId", str "match");
       ("openItemArtifactId", str "invoice"); ("transactionArtifactId", str "payment")]) None).
Definition inspection : PublishClientRunInput :=
  sample_input "client.inspect-file" (lit "inspection") [("source", "file")]
    (sample_output "inspection" "core.file-inspection" 2 "inspection" (object [])
       (Some {| bl_mediaType := lit "application/json"; bl_base64 := lit "e30=" |})).

Definition sample_run (input : PublishClientRunInput) :=
  exec sample_store [] (publishClientRun Some (fun _ => None) id (fun _ => [123; 125]) input).

(** The last exchange is a publication, and the run succeeds. *)
Definition ends_published (input : PublishClientRunInput) : bool :=
  match last (sample_run input).1, (sample_run input).2 with
  | Some x, Done _ => is_publish (ex_request x)
  | _, _ => false
  end.

Lemma samples_published :
  ends_published admission = true /\ ends_published decision_run = true /\ ends_published inspection = true.
Proof. vm_compute. done. Qed.

Lemma sample_last input : ends_published input = true ->
  exists before x, (sample_run input).1 = before ++ [x] /\ is_write (ex_request x) = true /\ x ∈ (sample_run input).1.
Proof.
  unfold ends_published. destruct (last _) as [x|] eqn:E; [|done]. destruct (sample_run input).2; [|done].
  intros Hp. apply last_Some in E as [before E]. exists before, x. rewrite E. split_and!; [done|by destruct (ex_request x)|set_solver].
Qed.

(** Every answer for content holds bytes. *)
Definition holds_bytes (x : exchange) : bool :=
  let '{| ex_request := q; ex_reply := r |} := x in
  match q return reply q -> bool with
  | Content _ => fun r => match r with Answered bytes => forallb is_byte bytes | _ => true end
  | _ => fun _ => true
  end r.

Lemma sample_bytes input id_ (bytes : list Z) :
  forallb holds_bytes (sample_run input).1 = true -> asked (sample_run input).1 (Content id_) bytes ->
  Forall (fun b => 0 <= b < 256) bytes.
Proof.
  intros H Ha. rewrite forallb_elem in H. specialize (H _ Ha). cbn in H. rewrite forallb_elem in H.
  apply Forall_forall. intros b Hb. specialize (H b Hb). unfold is_byte in H. bools. lia.
Qed.

Lemma client_runs_follow_their_contract_witness :
  exists key d, (key, d) ∈ CLIENT_PROCEDURES /\ lit "client.inspect-file" = lit key /\
    validateCommonClientContract inspection = Done tt /\ dc_validate d inspection = Done tt.
Proof.
  destruct (sample_last inspection (proj2 (proj2 samples_published))) as (before & x & E & Hw & _).
  destruct (client_runs_follow_their_contract Some (fun _ => None) id (fun _ => [123; 125]) inspection
              (sample_run inspection).1 (sample_run inspection).2 before x [] (exec_runs _ _ _) E Hw)
    as (key & d & Hin & Hk & Hc & Hv & _).
  exists key, d. split; [exact Hin|]. split; [exact Hk|]. split; [exact Hc|exact Hv].
Defined.

Lemma uploads_are_bounded_witness : uploaded (sample_run inspection).1 = 2 /\ uploaded (sample_run inspection).1 <= 26214400.
Proof.
  split; [vm_compute; reflexivity|].
  exact (proj1 (uploads_are_bounded Some (fun _ => None) id (fun _ => [123; 125]) inspection
    (sample_run inspection).1 (sample_run inspection).2 (exec_runs _ _ _))).
Defined.

Lemma admitted_statements_were_confirmed_witness :
  exists sourceId bytes t p rows st payload,
    asked (sample_run admission).1 (Content sourceId) bytes /\ decodeCsvText Some (fun _ => None) bytes = Ok t /\
    eligible_statement t p rows st /\ first_payload admission = Done payload /\ same_text payload (statement_json st).
Proof.
  destruct (sample_last admission (proj1 samples_published)) as (before & x & E & Hw & Hx).
  assert (forallb holds_bytes (sample_run admission).1 = true) as Hb by (vm_compute; reflexivity).
  destruct (admitted_statements_were_confirmed Some (fun _ => None) id (fun _ => [123; 125]) admission
              (sample_run admission).1 (sample_run admission).2 x
              (fun id_ bytes => sample_bytes admission id_ bytes Hb) (exec_runs _ _ _) eq_refl Hx Hw)
    as (sourceId & detectionId & bytes & t & p & rows & st & payload & _ & _ & H1 & H2 & H3 & H4 & H5 & _).
  exists sourceId, bytes, t, p, rows, st, payload.
  split; [exact H1|]. split; [exact H2|]. split; [exact H3|]. split; [exact H4|exact H5].
Defined.

Lemma decisions_follow_a_ranking_witness :
  exists candidateId invoiceId transactionId,
    ranked_pair (sample_run decision_run).1 candidateId invoiceId transactionId /\
    pr_publicationId decision_run = pair_identity id invoiceId transactionId.
Proof.
  destruct (sample_last decision_run (proj1 (proj2 samples_published))) as (before & x & E & Hw & Hx).
  destruct (decisions_follow_a_ranking Some (fun _ => None) id (fun _ => [123; 125]) decision_run
              (sample_run decision_run).1 (sample_run decision_run).2 x (exec_runs _ _ _) eq_refl Hx Hw)
    as (candidateId & invoiceId & transactionId & decision & _ & H1 & H2 & _).
  exists candidateId, invoiceId, transactionId. split; [exact H1|exact H2].
Defined.

Lemma browsing_shows_the_newest_witness :
  exists result feed pages,
    (exec sample_store [] browse).2 = Done (Some result) /\ walked (bw_storeEpoch result) 0 feed pages /\
    length (bw_artifacts result) = 1%nat.
Proof.
  assert (match (exec sample_store [] browse).2 with
          | Done (Some r) => length (bw_artifacts r) | _ => 0%nat end = 1%nat) as Hr by (vm_compute; reflexivity).
  destruct (exec sample_store [] browse).2 as [[result|]|] eqn:E; [|discriminate Hr..].
  destruct (browsing_shows_the_newest (exec sample_store [] browse).1 (Done (Some result))
              (eq_ind _ (runs browse (exec sample_store [] browse).1) (exec_runs sample_store [] browse) _ E)) as [_ H].
  destruct (H result eq_refl) as (context & feed & rest & pages & found & _ & _ & Hw & _).
  exists result, feed, pages. split; [reflexivity|]. split; [exact Hw|exact Hr].
Defined.

Lemma committed_runs_are_whole_witness :
  exists run, (exec sample_store [] (committedClientRun id (lit "scope") confirmation_id)).2 = Done (Some run) /\
    committed_run id (lit "scope") confirmation_id
      (exec sample_store [] (committedClientRun id (lit "scope") confirmation_id)).1 run.
Proof.
  assert (match (exec sample_store [] (committedClientRun id (lit "scope") confirmation_id)).2 with
          | Done (Some _) => true | _ => false end = true) as Hr by (vm_compute; reflexivity).
  pose proof (exec_runs sample_store [] (committedClientRun id (lit "scope") confirmation_id)) as H.
  destruct (exec sample_store [] (committedClientRun id (lit "scope") confirmation_id)).2 as [[run|]|]; [|discriminate Hr..].
  exists run. split; [reflexivity|]. exact (committed_runs_are_whole id (lit "scope") confirmation_id _ run H).
Defined.

(** ** Surprises *)

(** A procedure named like a method of every object is reported as an outage of the store, not
    as a procedure that is not allowed. *)
Lemma inherited_procedures_look_like_an_outage :
  (sample_run (sample_input "constructor" (lit "p") [] (sample_output "a" "b" 1 "c" (object []) None))).2 =
    Raise (AppError 502 (lit "ARTIFACT_STORE_UNAVAILABLE") (lit "Artifact Store is unavailable.")) /\
  (sample_run (sample_input "construct" (lit "p") [] (sample_output "a" "b" 1 "c" (object []) None))).2 =
    Raise (AppError 400 (lit "CLIENT_PROCEDURE_INVALID") (lit "The client procedure is not allowed.")).
Proof. by vm_compute. Qed.

(** A confirmation whose decision is a list of one word passes, because its text is that word. *)
Definition listed_decision : PublishClientRunInput :=
  sample_input "client.confirm-csv-statement" confirmation_id [("source", "file"); ("detection", "detection")]
    (sample_output "confirmation" "banking.csv-statement-confirmation" 1 "confirmation"
       (object (expected_confirmation (lit "file") (cd_sourceSha256 detected) (lit "detection") ++
                [("decision", AArray [str "accepted"])])) None).
Lemma listed_decisions_are_published : ends_published listed_decision = true.
Proof. by vm_compute. Qed.

(** A page may have any version of its type; every other output is held to its own. *)
Lemma pages_of_any_version :
  dc_validate decompose_pages
    (sample_input "client.decompose-pages" (lit "p") [("source", "file"); ("inspection", "i")]
       (sample_output "page-001" "docs.page" 77 "page" (object [("sourcePage", ANumber 1)]) None)) = Done tt.
Proof. by vm_compute. Qed.
