(* ===== verification/Programs.v ===== *)
(** * Programs that share a database

    A request of a server is a program: a sequence of steps, each a statement or a
    transaction of the database, with what it computes in between.  A step is atomic
    (it commits, or it throws and the database is as before) but between two steps of
    a program any other program may run.  [alone] runs one program by itself; a pool
    is what a server is: any number of programs, started at any time, whose steps
    interleave in any order and which may stop anywhere.  [safe]
    says of one program that its steps keep an invariant and a relation whatever the others
    do in between, and [pool_keeps] that then the pool keeps them. *)

From S2P Require Import Prelude.
From stdpp Require Import relations.

Open Scope stdpp_scope.
Local Open Scope Z_scope.

(** What a call returns or throws. *)
Inductive outcome (E A : Type) :=
| Gave (a : A)
| Threw (e : E).
Arguments Gave {E A} a.
Arguments Threw {E A} e.

#[export] Instance outcome_eq_dec `{EqDecision E, EqDecision A} : EqDecision (outcome E A).
Proof. solve_decision. Defined.

(** ** Transactions *)

Section Transactions.
Context {Env Db E : Type}.

(** The body of a transaction: what it reads of its surroundings (clocks, fresh
    identifiers, answers of other services) and of the database, and what it leaves. *)
Definition txn (A : Type) : Type := Env -> Db -> outcome E (A * Db).

#[export] Instance txn_ret : MRet txn := fun A a _ db => Gave (a, db).
#[export] Instance txn_bind : MBind txn := fun A B k m env db =>
  match m env db with Gave (a, db') => k a env db' | Threw e => Threw e end.

Definition throw {A} (e : E) : txn A := fun _ _ => Threw e.
Definition ask {A} (f : Env -> A) : txn A := fun env db => Gave (f env, db).
Definition select {A} (f : Db -> A) : txn A := fun _ db => Gave (f db, db).
Definition update (f : Db -> Db) : txn unit := fun _ db => Gave (tt, f db).
Definition throw_when (c : bool) (e : E) : txn unit := if c then throw e else mret tt.
(** The answer of another service, which may be an exception. *)
Definition call {A} (f : Env -> outcome E A) : txn A :=
  fun env db => match f env with Gave a => Gave (a, db) | Threw e => Threw e end.

(** COMMIT, or ROLLBACK and the exception. *)
Definition perform {A} (t : txn A) (env : Env) (db : Db) : outcome E A * Db :=
  match t env db with Gave (a, db') => (Gave a, db') | Threw e => (Threw e, db) end.

(** ** Programs *)

Inductive prog (A : Type) : Type :=
| Return (a : A)
| Raise (e : E)
| Step {B : Type} (t : txn B) (next : outcome E B -> prog A).

(** A step whose exception is not caught, and [try] around one. *)
Definition step {A} (t : txn A) : prog A :=
  Step _ t (fun o => match o with Gave a => Return _ a | Threw e => Raise _ e end).

Fixpoint prog_bind {A B} (k : A -> prog B) (m : prog A) : prog B :=
  match m with
  | Return _ a => k a
  | Raise _ e => Raise _ e
  | Step _ t next => Step _ t (fun o => prog_bind k (next o))
  end.
#[export] Instance prog_mret : MRet prog := fun A a => Return _ a.
#[export] Instance prog_mbind : MBind prog := fun A B k m => prog_bind k m.

(** [try { m } catch (e) { handler(e) }], with what to do on the value. *)
Fixpoint try_catch {A B} (k : A -> prog B) (handler : E -> prog B) (m : prog A) : prog B :=
  match m with
  | Return _ a => k a
  | Raise _ e => handler e
  | Step _ t next => Step _ t (fun o => try_catch k handler (next o))
  end.

(** One program alone, with the surroundings of each of its steps. *)
Fixpoint alone {A} (envs : nat -> Env) (p : prog A) (db : Db) : outcome E A * Db :=
  match p with
  | Return _ a => (Gave a, db)
  | Raise _ e => (Threw e, db)
  | Step _ t next =>
      let '(o, db') := perform t (envs 0%nat) db in
      alone (fun n => envs (S n)) (next o) db'
  end.

(** ** Pools *)

(** A program at work, whatever it returns. *)
Inductive running :=
| Running {A : Type} (p : prog A).

Record pool := { pl_time : Z; pl_db : Db; pl_running : list running }.

(** [admissible] are the surroundings a step may have at a time; [service] are the programs
    that may be started; [background] is what the database may do by itself. *)
Section Pools.
Context (admissible : Z -> Env -> Db -> Prop) (service : forall A, prog A -> Prop) (background : Db -> Db -> Prop).

Inductive pool_step : pool -> pool -> Prop :=
| PoolTime time' pl : pl_time pl <= time' ->
    pool_step pl {| pl_time := time'; pl_db := pl_db pl; pl_running := pl_running pl |}
| PoolStart {A} (p : prog A) pl : service A p ->
    pool_step pl {| pl_time := pl_time pl; pl_db := pl_db pl; pl_running := Running p :: pl_running pl |}
| PoolBackground db' pl : background (pl_db pl) db' ->
    pool_step pl {| pl_time := pl_time pl; pl_db := db'; pl_running := pl_running pl |}
| PoolStep {A B} before after (t : txn B) (next : outcome E B -> prog A) env pl :
    pl_running pl = before ++ Running (Step _ t next) :: after -> admissible (pl_time pl) env (pl_db pl) ->
    pool_step pl {| pl_time := pl_time pl; pl_db := (perform t env (pl_db pl)).2;
                    pl_running := before ++ Running (next (perform t env (pl_db pl)).1) :: after |}.

(** *** What all the steps of all the programs keep

    [I] holds of the database at every time, and [R] between the database now and later.
    A program is [safe] from a database when its next step keeps both in any later one, and
    so does the rest of it: what it learned before may be relied on as far as [R] keeps it. *)
Section Keeps.
Context (I : Z -> Db -> Prop) (R : Db -> Db -> Prop) `{!PreOrder R}.

Fixpoint safe {A} (p : prog A) (db0 : Db) : Prop :=
  match p with
  | Return _ _ | Raise _ _ => True
  | Step _ t next =>
      forall time env db, admissible time env db -> I time db -> R db0 db ->
        I time (perform t env db).2 /\ R db (perform t env db).2 /\
        safe (next (perform t env db).1) (perform t env db).2
  end.

Lemma safe_later {A} (p : prog A) db db' : R db db' -> safe p db -> safe p db'.
Proof. destruct p; cbn; [done..|]. intros HR Hs time env db2 Ha HI HR2. apply Hs; [done..|by etransitivity]. Qed.

(** A step that keeps both always. *)
Definition keeping {B} (t : txn B) : Prop :=
  forall time env db, admissible time env db -> I time db ->
    I time (perform t env db).2 /\ R db (perform t env db).2.

Lemma keeping_gave {B} (t : txn B) :
  (forall time env db b db', admissible time env db -> I time db -> t env db = Gave (b, db') ->
     I time db' /\ R db db') -> keeping t.
Proof.
  intros Ht time env db Ha HI. unfold perform. destruct (t env db) as [[b db']|e] eqn:E1; cbn; [eauto|].
  split; [done|reflexivity].
Qed.

Lemma safe_step {A} (t : txn A) db : keeping t -> safe (step t) db.
Proof.
  intros Ht. cbn. intros time env db2 Ha HI _. destruct (Ht _ _ _ Ha HI) as [H1 H2].
  split; [done|]. split; [done|]. by destruct (perform t env db2) as [[]].
Qed.

Lemma safe_step_from {A} (t : txn A) db0 :
  (forall time env db a db', admissible time env db -> I time db -> R db0 db -> t env db = Gave (a, db') ->
     I time db' /\ R db db') ->
  safe (step t) db0.
Proof.
  intros Ht. cbn. intros time env db Ha HI HR. unfold perform. destruct (t env db) as [[a db']|e] eqn:E1; cbn.
  - destruct (Ht _ _ _ _ _ Ha HI HR E1). done.
  - split; [done|]. split; [reflexivity|done].
Qed.

(** What is known where [k] goes on: a database, and that the step before it returned [b]. *)
Lemma safe_step_then {A B} (t : txn B) (k : B -> prog A) db0 : keeping t ->
  (forall time env db b db', admissible time env db -> I time db -> R db0 db -> t env db = Gave (b, db') ->
     R db0 db' -> safe (k b) db') ->
  safe (step t ≫= k) db0.
Proof.
  intros Ht Hk. cbn. intros time env db Ha HI HR. destruct (Ht _ _ _ Ha HI) as [H1 H2].
  split; [done|]. split; [done|]. unfold perform in *.
  destruct (t env db) as [[b db']|e] eqn:E1; cbn in *; [|done]. eapply Hk; eauto. by etransitivity.
Qed.

Lemma safe_bind {A B} (k : A -> prog B) (m : prog A) db0 :
  safe m db0 -> (forall a db, R db0 db -> safe (k a) db) -> safe (m ≫= k) db0.
Proof.
  revert db0. induction m as [a|e|C t next IH]; intros db0; cbn.
  - intros _ Hk. apply Hk. reflexivity.
  - done.
  - intros Hm Hk time env db Ha HI HR. destruct (Hm _ _ _ Ha HI HR) as (H1 & H2 & H3).
    split; [done|]. split; [done|]. apply IH; [done|]. intros a db' HR'. apply Hk. etransitivity; [exact HR|].
    by etransitivity.
Qed.

Lemma safe_try {A B} (k : A -> prog B) handler (m : prog A) db0 :
  safe m db0 -> (forall a db, R db0 db -> safe (k a) db) -> (forall e db, R db0 db -> safe (handler e) db) ->
  safe (try_catch k handler m) db0.
Proof.
  revert db0. induction m as [a|e|C t next IH]; intros db0; cbn.
  - intros _ Hk _. apply Hk. reflexivity.
  - intros _ _ Hh. apply Hh. reflexivity.
  - intros Hm Hk Hh time env db Ha HI HR. destruct (Hm _ _ _ Ha HI HR) as (H1 & H2 & H3).
    split; [done|]. split; [done|].
    apply IH; [done|intros a db' HR'; apply Hk|intros e db' HR'; apply Hh];
      (etransitivity; [exact HR|by etransitivity]).
Qed.

Context (service_safe : forall A p, service A p -> forall db, safe p db).
Context (time_keeps : forall t t' db, t <= t' -> I t db -> I t' db).
Context (background_keeps : forall t db db', I t db -> background db db' -> I t db' /\ R db db').

Definition at_work (db : Db) (r : running) : Prop := match r with Running p => safe p db end.

Definition pool_ok (pl : pool) : Prop :=
  I (pl_time pl) (pl_db pl) /\ forall r, r ∈ pl_running pl -> at_work (pl_db pl) r.

Lemma at_work_later db db' r : R db db' -> at_work db r -> at_work db' r.
Proof. destruct r. apply safe_later. Qed.

Lemma pool_step_keeps pl pl' : pool_ok pl -> pool_step pl pl' -> pool_ok pl' /\ R (pl_db pl) (pl_db pl').
Proof.
  intros [HI Hrun] Hstep. unfold pool_ok in *.
  destruct Hstep as [time' pl Htime|A p pl Hp|db' pl Hb|A B before after t next env pl Hpl Ha]; cbn.
  - split; [split; [by eapply time_keeps|done]|reflexivity].
  - split; [|reflexivity]. split; [done|]. intros r [->|Hr]%elem_of_cons; [by apply service_safe|by apply Hrun].
  - destruct (background_keeps _ _ _ HI Hb) as [HI' HR]. split; [split; [done|]|done].
    intros r Hr. eapply at_work_later; eauto.
  - rewrite Hpl in Hrun.
    assert (safe (Step _ t next) (pl_db pl)) as Hs by (apply (Hrun (Running (Step _ t next))); set_solver).
    destruct (Hs _ _ (pl_db pl) Ha HI) as (HI' & HR & Hnext); [reflexivity|].
    split; [split; [done|]|done]. intros r. rewrite elem_of_app, elem_of_cons.
    intros [Hr|[->|Hr]]; [eapply at_work_later; [done|apply Hrun; set_solver]|exact Hnext|
                          eapply at_work_later; [done|apply Hrun; set_solver]].
Qed.

Lemma pool_keeps pl pl' : pool_ok pl -> rtc pool_step pl pl' -> pool_ok pl' /\ R (pl_db pl) (pl_db pl').
Proof.
  intros Hok Hrtc. induction Hrtc as [|pl pl1 pl2 Hs _ IH]; [split; [done|reflexivity]|].
  destruct (pool_step_keeps _ _ Hok Hs) as [Hok1 HR1]. destruct (IH Hok1) as [Hok2 HR2].
  split; [done|by etransitivity].
Qed.
End Keeps.

(** A program that runs alone is one of the interleavings. *)
Fixpoint along {A} (time : Z) (envs : nat -> Env) (p : prog A) (db : Db) : Prop :=
  match p with
  | Return _ _ | Raise _ _ => True
  | Step _ t next =>
      admissible time (envs 0%nat) db /\
      along time (fun n => envs (S n)) (next (perform t (envs 0%nat) db).1) (perform t (envs 0%nat) db).2
  end.

Lemma alone_pool {A} (p : prog A) envs time db rest : along time envs p db ->
  exists q : prog A, rtc pool_step {| pl_time := time; pl_db := db; pl_running := Running p :: rest |}
                          {| pl_time := time; pl_db := (alone envs p db).2; pl_running := Running q :: rest |}.
Proof.
  revert envs db. induction p as [a|e|B t next IH]; intros envs db; cbn; [by eexists..|].
  intros [Ha Hrest]. destruct (IH _ _ _ Hrest) as (q & Hq). exists q.
  destruct (perform t (envs 0%nat) db) as [o db'] eqn:E1. cbn in Hq.
  eapply rtc_l; [|exact Hq].
  pose proof (PoolStep [] rest t next (envs 0%nat)
    {| pl_time := time; pl_db := db; pl_running := Running (Step _ t next) :: rest |} eq_refl Ha) as H.
  cbn in H. by rewrite E1 in H.
Qed.

(** One more request, from start to end. *)
Lemma request_pool {A} (p : prog A) envs time db rest : service A p -> along time envs p db ->
  exists more, rtc pool_step {| pl_time := time; pl_db := db; pl_running := rest |}
                    {| pl_time := time; pl_db := (alone envs p db).2; pl_running := more |}.
Proof.
  intros Hp Ha. destruct (alone_pool p envs time db rest Ha) as (q & Hq). exists (Running q :: rest).
  eapply rtc_l; [|exact Hq]. by apply (PoolStart p {| pl_time := time; pl_db := db; pl_running := rest |}).
Qed.

(** *** Requests, one after the other *)

Inductive request :=
| Request {A : Type} (p : prog A) (env : Env).

Fixpoint run_all (requests : list request) (db : Db) : Db :=
  match requests with
  | [] => db
  | Request p env :: requests => run_all requests (alone (fun _ => env) p db).2
  end.

Context (check : Z -> Env -> Db -> bool) (check_sound : forall t env db, check t env db = true -> admissible t env db).

Fixpoint runs_along {A} (time : Z) (env : Env) (p : prog A) (db : Db) : bool :=
  match p with
  | Return _ _ | Raise _ _ => true
  | Step _ t next => check time env db && runs_along time env (next (perform t env db).1) (perform t env db).2
  end.

Lemma runs_along_sound {A} time env (p : prog A) db : runs_along time env p db = true -> along time (fun _ => env) p db.
Proof.
  revert db. induction p as [a|e|B t next IH]; intros db; cbn; [done..|].
  rewrite andb_true_iff. intros [Hc Hrest]. split; [by apply check_sound|by apply IH].
Qed.

Fixpoint all_along (time : Z) (requests : list request) (db : Db) : bool :=
  match requests with
  | [] => true
  | Request p env :: requests => runs_along time env p db && all_along time requests (alone (fun _ => env) p db).2
  end.
Definition served (r : request) : Prop := match r with Request p _ => service _ p end.

Lemma requests_reachable time requests db rest : Forall served requests -> all_along time requests db = true ->
  exists more, rtc pool_step {| pl_time := time; pl_db := db; pl_running := rest |}
                    {| pl_time := time; pl_db := run_all requests db; pl_running := more |}.
Proof.
  intros Hs. revert db rest. induction Hs as [|[A p env] requests Hp _ IH]; intros db rest; cbn; [by eexists|].
  rewrite andb_true_iff. intros [Hp1 Hrest].
  destruct (request_pool p (fun _ => env) time db rest Hp (runs_along_sound _ _ _ _ Hp1)) as (more & H1).
  destruct (IH _ more Hrest) as (more2 & H2). exists more2. by etransitivity.
Qed.
End Pools.
End Transactions.

Arguments Return {Env Db E A} a.
Arguments Raise {Env Db E A} e.
Arguments Step {Env Db E A B} t next.
Arguments txn : clear implicits.
Arguments prog : clear implicits.
Arguments pool : clear implicits.
Arguments running : clear implicits.
Arguments request : clear implicits.

Notation "'throw_when!' b 'as' e ; k" := (mbind (fun _ : unit => k) (throw_when b e))
  (at level 100, b at next level, e at next level, k at level 200, right associativity) : js_scope.

(** ** A transaction that committed *)

Section Committed.
Context {Env Db E : Type}.
Implicit Types (env : Env) (db : Db) (e : E).

Lemma txn_bind_gave {A B} (k : A -> txn Env Db E B) (m : txn Env Db E A) env db b db' :
  (m ≫= k) env db = Gave (b, db') -> exists a db1, m env db = Gave (a, db1) /\ k a env db1 = Gave (b, db').
Proof. unfold mbind, txn_bind. destruct (m env db) as [[a db1]|e]; [eauto|done]. Qed.

Lemma txn_ret_gave {A} (a : A) env db r :
  (mret a : txn Env Db E A) env db = Gave r -> r = (a, db).
Proof. by intros [= <-]. Qed.

Lemma ask_gave {A} (f : Env -> A) env db r : (ask f : txn Env Db E A) env db = Gave r -> r = (f env, db).
Proof. by intros [= <-]. Qed.

Lemma select_gave {A} (f : Db -> A) env db r : (select f : txn Env Db E A) env db = Gave r -> r = (f db, db).
Proof. by intros [= <-]. Qed.

Lemma update_gave (f : Db -> Db) env db r : (update f : txn Env Db E unit) env db = Gave r -> r = (tt, f db).
Proof. by intros [= <-]. Qed.

Lemma throw_when_gave (c : bool) e env db r :
  (throw_when c e : txn Env Db E unit) env db = Gave r -> c = false /\ r = (tt, db).
Proof. destruct c; [done|by intros [= <-]]. Qed.

Lemma call_gave {A} (f : Env -> outcome E A) env db r :
  (call f : txn Env Db E A) env db = Gave r -> exists a, f env = Gave a /\ r = (a, db).
Proof. unfold call. destruct (f env) as [a|e]; [intros [= <-]; eauto|done]. Qed.

Lemma throw_gave {A} e env db r : (throw e : txn Env Db E A) env db = Gave r -> False.
Proof. done. Qed.

Lemma alone_step {A} (envs : nat -> Env) (t : txn Env Db E A) db :
  alone envs (step t) db = perform t (envs 0%nat) db.
Proof. unfold alone, step. destruct (perform t (envs 0%nat) db) as [[a|e] db']; done. Qed.

Lemma alone_bind {A B} (envs : nat -> Env) (t : txn Env Db E A) (k : A -> prog Env Db E B) db :
  alone envs (step t ≫= k) db =
    match perform t (envs 0%nat) db with
    | (Gave a, db') => alone (fun n => envs (S n)) (k a) db'
    | (Threw e, db') => (Threw e, db')
    end.
Proof. cbn. destruct (perform t (envs 0%nat) db) as [[a|e] db']; done. Qed.

(** In surroundings that do not change, one program after the other. *)
Lemma alone_then {A B} env (k : A -> prog Env Db E B) (m : prog Env Db E A) db :
  alone (fun _ => env) (m ≫= k) db =
    match alone (fun _ => env) m db with
    | (Gave a, db') => alone (fun _ => env) (k a) db'
    | (Threw e, db') => (Threw e, db')
    end.
Proof.
  revert db. induction m as [a|e|C t next IH]; intros db; cbn; [done..|].
  destruct (perform t env db) as [o db']. apply IH.
Qed.

Lemma alone_try {A B} env (k : A -> prog Env Db E B) (handler : E -> prog Env Db E B) (m : prog Env Db E A) db :
  alone (fun _ => env) (try_catch k handler m) db =
    match alone (fun _ => env) m db with
    | (Gave a, db') => alone (fun _ => env) (k a) db'
    | (Threw e, db') => alone (fun _ => env) (handler e) db'
    end.
Proof.
  revert db. induction m as [a|e|C t next IH]; intros db; cbn; [done..|].
  destruct (perform t env db) as [o db']. apply IH.
Qed.

Lemma perform_gave {A} (t : txn Env Db E A) env db a db' :
  t env db = Gave (a, db') -> perform t env db = (Gave a, db').
Proof. unfold perform. by intros ->. Qed.

Lemma perform_threw {A} (t : txn Env Db E A) env db e :
  t env db = Threw e -> perform t env db = (Threw e, db).
Proof. unfold perform. by intros ->. Qed.

(** The database after a transaction: as before, or what it committed. *)
Lemma performed {A} (P : Db -> Prop) (t : txn Env Db E A) env db :
  P db -> (forall a db', t env db = Gave (a, db') -> P db') -> P (perform t env db).2.
Proof. intros H0 H1. unfold perform. destruct (t env db) as [[a db']|e] eqn:E1; cbn; eauto. Qed.
End Committed.

(** Takes a committed transaction apart, one statement at a time. *)
Ltac tx_step :=
  match goal with
  | H : mbind _ _ ?env ?db = Gave (_, _) |- _ =>
      let a := fresh "a" in let db1 := fresh "db" in let H1 := fresh "H" in
      apply txn_bind_gave in H as (a & db1 & H1 & H)
  | H : mret _ ?env ?db = Gave (_, _) |- _ => apply txn_ret_gave in H; injection H; clear H; intros; subst
  | H : ask _ ?env ?db = Gave (_, _) |- _ =>
      apply ask_gave in H; injection H; clear H; intros; subst
  | H : select _ ?env ?db = Gave (_, _) |- _ =>
      apply select_gave in H; injection H; clear H; intros; subst
  | H : update _ ?env ?db = Gave (_, _) |- _ =>
      apply update_gave in H; injection H; clear H; intros; subst
  | H : throw_when _ _ ?env ?db = Gave (_, _) |- _ =>
      let H1 := fresh "Hcond" in
      apply throw_when_gave in H as [H1 H]; injection H; clear H; intros; subst
  | H : call _ ?env ?db = Gave (_, _) |- _ =>
      let a := fresh "answer" in let H1 := fresh "Hanswer" in
      apply call_gave in H as (a & H1 & H); injection H; clear H; intros; subst
  | H : throw _ ?env ?db = Gave _ |- _ => destruct (throw_gave _ _ _ _ H)
  end.
Ltac tx_run := repeat tx_step.

(** ** The shape of a program

    What holds of it whatever its steps answer. *)

Section Shapes.
Context {Env Db E : Type}.

(** [P] holds of whatever the program returns. *)
Fixpoint returns {A} (P : A -> Prop) (p : prog Env Db E A) : Prop :=
  match p with
  | Return a => P a
  | Raise _ => True
  | Step t next => forall o, returns P (next o)
  end.

Lemma returns_bind {A B} (Q : A -> Prop) (P : B -> Prop) (m : prog Env Db E A) (k : A -> prog Env Db E B) :
  returns Q m -> (forall a, Q a -> returns P (k a)) -> returns P (m ≫= k).
Proof. intros Hm Hk. induction m as [a|e|C t next IH]; cbn in *; [by apply Hk|done|]. intros o. by apply IH. Qed.

Lemma returns_anything {A} (p : prog Env Db E A) : returns (fun _ => True) p.
Proof. induction p as [a|e|B t next IH]; cbn; auto. Qed.

Lemma returns_alone {A} (P : A -> Prop) (p : prog Env Db E A) envs db a db' : returns P p -> alone envs p db = (Gave a, db') -> P a.
Proof.
  revert envs db. induction p as [b|e|B t next IH]; intros envs db; cbn; [by intros H [= <- _]|done|].
  intros H. destruct (perform t (envs 0%nat) db) as [o db1]. apply IH, H.
Qed.

(** Two programs that take the same steps. *)
Inductive same_prog {A} : prog Env Db E A -> prog Env Db E A -> Prop :=
| SameReturn a : same_prog (Return a) (Return a)
| SameRaise e : same_prog (Raise e) (Raise e)
| SameStep {B} (t : txn Env Db E B) next next' : (forall o, same_prog (next o) (next' o)) ->
    same_prog (Step t next) (Step t next').

#[export] Instance same_prog_refl {A} : Reflexive (same_prog (A := A)).
Proof. intros p. induction p; by constructor. Qed.

Lemma same_prog_bind {A B} (m : prog Env Db E A) (k k' : A -> prog Env Db E B) :
  (forall a, same_prog (k a) (k' a)) -> same_prog (m ≫= k) (m ≫= k').
Proof. intros Hk. induction m as [a|e|C t next IH]; cbn; [apply Hk|constructor|]. by constructor. Qed.

Lemma same_prog_alone {A} (p q : prog Env Db E A) envs db : same_prog p q -> alone envs p db = alone envs q db.
Proof.
  intros H. revert envs db. induction H as [a|e|B t next next' _ IH]; intros envs db; cbn; [done..|].
  destruct (perform t (envs 0%nat) db) as [o db']. apply IH.
Qed.

(** A measure of the database that a program raises by at most [n]. *)
Context (measure : Db -> nat).
Fixpoint adds_at_most (n : nat) {A} (p : prog Env Db E A) : Prop :=
  match p with
  | Return _ | Raise _ => True
  | Step t next => exists d n', (d + n' <= n)%nat /\
      (forall env db, (measure (perform t env db).2 <= measure db + d)%nat) /\ forall o, adds_at_most n' (next o)
  end.

Lemma adds_more {A} (p : prog Env Db E A) : forall n n', (n <= n')%nat -> adds_at_most n p -> adds_at_most n' p.
Proof. destruct p as [a|e|B t next]; cbn; [done..|]. intros n n' Hn (d & m & H1 & H2). exists d, m. split; [lia|done]. Qed.

Lemma adds_bind {A B} (m : prog Env Db E A) (k : A -> prog Env Db E B) : forall n n',
  adds_at_most n m -> (forall a, adds_at_most n' (k a)) -> adds_at_most (n + n') (m ≫= k).
Proof.
  induction m as [a|e|C t next IH]; intros n n' Hm Hk; cbn in *; [by eapply adds_more; [|apply Hk]; lia|done|].
  destruct Hm as (d & n1 & H1 & H2 & H3). exists d, (n1 + n')%nat. split; [lia|]. split; [done|]. intros o. by apply IH.
Qed.

Lemma adds_alone {A} (p : prog Env Db E A) : forall n envs db, adds_at_most n p ->
  (measure (alone envs p db).2 <= measure db + n)%nat.
Proof.
  induction p as [a|e|B t next IH]; intros n envs db; cbn; [lia..|]. intros (d & n' & H1 & H2 & H3).
  specialize (H2 (envs 0%nat) db). destruct (perform t (envs 0%nat) db) as [o db'] eqn:Hp. cbn in H2.
  specialize (IH o n' (fun k => envs (S k)) db' (H3 o)). lia.
Qed.
End Shapes.
