(* ===== verification/Threads.v ===== *)
(** * Threads that share a database

    The pools of [Programs] know their programs only by what all of them keep.  Where a
    program holds something of its own while others run (a lock, a lease, a mark it
    set in a row) its steps rely on less than they may do themselves: the others leave
    what is its own.  Here every program runs as a numbered thread, [relies i] is what
    thread [i] may rely on the others and the background to keep, and a thread is
    [sound] when each of its steps keeps the invariant, what the others rely on, and
    the relation all steps keep. *)

From S2P Require Import Prelude Programs.
From stdpp Require Import relations.

Open Scope stdpp_scope.
Local Open Scope Z_scope.

Section Threads.
Context {Env Db E : Type}.

Record threads := {
  th_time : Z;
  th_db : Db;
  th_next : nat;
  th_running : list (nat * running Env Db E)
}.

(** [service i] are the programs that may be started as thread [i]. *)
Context (admissible : Z -> nat -> Env -> Db -> Prop).
Context (service : nat -> forall A, prog Env Db E A -> Prop).
Context (background : Db -> Db -> Prop).

Inductive threads_step : threads -> threads -> Prop :=
| ThreadsTime time' s : th_time s <= time' ->
    threads_step s {| th_time := time'; th_db := th_db s; th_next := th_next s; th_running := th_running s |}
| ThreadsStart {A} (p : prog Env Db E A) s : service (th_next s) A p ->
    threads_step s {| th_time := th_time s; th_db := th_db s; th_next := S (th_next s);
                      th_running := (th_next s, Running p) :: th_running s |}
| ThreadsBackground db' s : background (th_db s) db' ->
    threads_step s {| th_time := th_time s; th_db := db'; th_next := th_next s; th_running := th_running s |}
| ThreadsStep {A B} i before after (t : txn Env Db E B) (next : outcome E B -> prog Env Db E A) env s :
    th_running s = before ++ (i, Running (Step t next)) :: after -> admissible (th_time s) i env (th_db s) ->
    threads_step s {| th_time := th_time s; th_db := (perform t env (th_db s)).2; th_next := th_next s;
                      th_running := before ++ (i, Running (next (perform t env (th_db s)).1)) :: after |}.

(** *** Relying on the others *)

Context (I : Z -> Db -> Prop) (K : Db -> Db -> Prop) (relies : nat -> Db -> Db -> Prop).
Context (K_pre : PreOrder K) (relies_pre : forall i, PreOrder (relies i)).
#[local] Existing Instance K_pre.
#[local] Existing Instance relies_pre.

(** What a step of thread [i] leaves for the others. *)
Definition yields (i : nat) (db db' : Db) : Prop := K db db' /\ forall j, j <> i -> relies j db db'.

Fixpoint sound {A} (i : nat) (p : prog Env Db E A) (db0 : Db) : Prop :=
  match p with
  | Return _ | Raise _ => True
  | Step t next =>
      forall time env db, admissible time i env db -> I time db -> relies i db0 db ->
        I time (perform t env db).2 /\ yields i db (perform t env db).2 /\
        sound i (next (perform t env db).1) (perform t env db).2
  end.

Lemma sound_later {A} i (p : prog Env Db E A) db db' : relies i db db' -> sound i p db -> sound i p db'.
Proof. destruct p; cbn; [done..|]. intros HR Hs time env db2 Ha HI HR2. apply Hs; [done..|by etransitivity]. Qed.

#[export] Instance yields_preorder i : PreOrder (yields i).
Proof.
  split; [intros db; split; [reflexivity|intros j _; reflexivity]|].
  intros db1 db2 db3 [H1 H2] [H3 H4]. split; [by etransitivity|]. intros j Hj. etransitivity; [by apply H2|by apply H4].
Qed.

(** [Q] holds of what [p] returns and of the database then, [T] of what it throws. *)
Fixpoint ends {A} (i : nat) (Q : A -> Db -> Prop) (T : E -> Db -> Prop) (p : prog Env Db E A) (db0 : Db) : Prop :=
  match p with
  | Return a => Q a db0
  | Raise e => T e db0
  | Step t next =>
      forall time env db, admissible time i env db -> I time db -> relies i db0 db ->
        I time (perform t env db).2 /\ yields i db (perform t env db).2 /\
        ends i Q T (next (perform t env db).1) (perform t env db).2
  end.

Lemma ends_sound {A} i Q T (p : prog Env Db E A) db : ends i Q T p db -> sound i p db.
Proof.
  revert db. induction p as [a|e|B t next IH]; intros db; cbn; [done..|].
  intros H time env db2 Ha HI HR. destruct (H _ _ _ Ha HI HR) as (H1 & H2 & H3). eauto.
Qed.

Lemma ends_weaken {A} i (Q Q' : A -> Db -> Prop) (T T' : E -> Db -> Prop) (p : prog Env Db E A) db :
  ends i Q T p db -> (forall a db, Q a db -> Q' a db) -> (forall e db, T e db -> T' e db) -> ends i Q' T' p db.
Proof.
  revert db. induction p as [a|e|B t next IH]; intros db; cbn; [eauto..|].
  intros H HQ HT time env db2 Ha HI HR. destruct (H _ _ _ Ha HI HR) as (H1 & H2 & H3). eauto.
Qed.

Lemma ends_bind {A B} i (k : A -> prog Env Db E B) (m : prog Env Db E A) Q Q' T db :
  ends i Q' T m db -> (forall a db, Q' a db -> ends i Q T (k a) db) -> ends i Q T (m ≫= k) db.
Proof.
  revert db. induction m as [a|e|C t next IH]; intros db; cbn.
  - eauto.
  - eauto.
  - intros H Hk time env db2 Ha HI HR. destruct (H _ _ _ Ha HI HR) as (H1 & H2 & H3).
    split; [done|]. split; [done|]. by apply IH.
Qed.

Lemma ends_try {A B} i (k : A -> prog Env Db E B) handler (m : prog Env Db E A) Q Q' T T' db :
  ends i Q' T' m db -> (forall a db, Q' a db -> ends i Q T (k a) db) ->
  (forall e db, T' e db -> ends i Q T (handler e) db) ->
  ends i Q T (try_catch k handler m) db.
Proof.
  revert db. induction m as [a|e|C t next IH]; intros db; cbn.
  - eauto.
  - eauto.
  - intros H Hk Hh time env db2 Ha HI HR. destruct (H _ _ _ Ha HI HR) as (H1 & H2 & H3).
    split; [done|]. split; [done|]. by apply IH.
Qed.

(** What holds before a program and is kept by every step still holds after it. *)
Lemma ends_frame {A} i (F : Db -> Prop) Q T (p : prog Env Db E A) db :
  (forall db db', relies i db db' \/ yields i db db' -> F db -> F db') -> F db ->
  ends i Q T p db -> ends i (fun a db => Q a db /\ F db) T p db.
Proof.
  intros HF. revert db. induction p as [a|e|B t next IH]; intros db; cbn; [done..|].
  intros Hdb H time env db2 Ha HI HR. destruct (H _ _ _ Ha HI HR) as (H1 & H2 & H3).
  split; [done|]. split; [done|]. apply IH; [|done]. eapply HF; [by right|]. eapply HF; [by left|done].
Qed.

(** One statement: what it returns or throws, from any database the others may leave. *)
Lemma ends_step {A} i (t : txn Env Db E A) Q T db0 :
  (forall time env db, admissible time i env db -> I time db -> relies i db0 db ->
     match t env db with
     | Gave (a, db') => I time db' /\ yields i db db' /\ Q a db'
     | Threw e => T e db
     end) ->
  ends i Q T (step t) db0.
Proof.
  intros H. cbn. intros time env db Ha HI HR. specialize (H _ _ _ Ha HI HR). unfold perform.
  destruct (t env db) as [[a db']|e]; cbn; [done|]. split; [done|]. split; [reflexivity|done].
Qed.

(** *** All the threads *)

Context (fresh : nat -> Db -> Prop) (fresh_stable : forall i db db', relies i db db' -> fresh i db -> fresh i db').
Context (service_sound : forall i A p, service i A p -> forall time db, I time db -> fresh i db -> sound i p db).
Context (time_keeps : forall t t' db, t <= t' -> I t db -> I t' db).
Context (background_keeps : forall t db db', I t db -> background db db' ->
           I t db' /\ K db db' /\ forall i, relies i db db').

Definition thread_sound (db : Db) (r : nat * running Env Db E) : Prop :=
  match r.2 with Running p => sound r.1 p db end.

Record threads_ok (s : threads) : Prop := {
  ok_db : I (th_time s) (th_db s);
  ok_threads : forall r, r ∈ th_running s -> thread_sound (th_db s) r;
  ok_ids : NoDup (th_running s).*1;
  ok_below : forall r, r ∈ th_running s -> (r.1 < th_next s)%nat;
  ok_fresh : forall i, (th_next s <= i)%nat -> fresh i (th_db s)
}.

Lemma thread_sound_later db db' r : relies r.1 db db' -> thread_sound db r -> thread_sound db' r.
Proof. destruct r as [i [A p]]. apply sound_later. Qed.

Lemma threads_step_keeps s s' : threads_ok s -> threads_step s s' -> threads_ok s' /\ K (th_db s) (th_db s').
Proof.
  intros [HI Hrun Hids Hbelow Hfresh] Hstep.
  destruct Hstep as [time' s Htime|A p s Hp|db' s Hb|A B i before after t next env s Hs Ha]; cbn.
  - split; [constructor; cbn; eauto|reflexivity].
  - split; [|reflexivity]. constructor; cbn; [done| | | |].
    + intros r [->|Hr]%elem_of_cons; [by eapply service_sound; eauto|by apply Hrun].
    + apply NoDup_cons. split; [|done]. intros (r & E1 & Hr)%list_elem_of_fmap. specialize (Hbelow _ Hr). lia.
    + intros r [->|Hr]%elem_of_cons; cbn; [lia|]. specialize (Hbelow _ Hr). lia.
    + intros i Hi. apply Hfresh. lia.
  - destruct (background_keeps _ _ _ HI Hb) as (HI' & HK & HR). split; [|done].
    constructor; cbn; [done| |done|done|].
    + intros r Hr. eapply thread_sound_later; eauto.
    + intros i Hi. eapply fresh_stable; eauto.
  - rewrite Hs in Hrun, Hids, Hbelow.
    assert (sound i (Step t next) (th_db s)) as Hsound by (apply (Hrun (i, Running (Step t next))); set_solver).
    destruct (Hsound _ _ (th_db s) Ha HI) as (HI' & [HK HY] & Hnext); [reflexivity|]. split; [|done].
    assert ((i < th_next s)%nat) as Hi by (apply (Hbelow (i, Running (Step t next))); set_solver).
    rewrite fmap_app, fmap_cons in Hids.
    constructor; cbn; [done| | | |].
    + intros r. rewrite elem_of_app, elem_of_cons. intros Hr.
      destruct Hr as [Hr|[->|Hr]]; [| exact Hnext |].
      all: eapply thread_sound_later; [|apply Hrun; set_solver]; apply HY; intros E1.
      all: apply NoDup_app in Hids as (H1 & H2 & [H3 H4]%NoDup_cons); cbn in *.
      * apply (H2 i); [rewrite <- E1; by apply list_elem_of_fmap_2|left].
      * apply H3. rewrite <- E1. by apply list_elem_of_fmap_2.
    + rewrite fmap_app, fmap_cons. done.
    + intros r. rewrite elem_of_app, elem_of_cons. intros [Hr|[->|Hr]]; [apply Hbelow; set_solver|done|apply Hbelow; set_solver].
    + intros j Hj. eapply fresh_stable; [apply HY; lia|by apply Hfresh].
Qed.

Lemma threads_keep s s' : threads_ok s -> rtc threads_step s s' -> threads_ok s' /\ K (th_db s) (th_db s').
Proof.
  intros Hok Hrtc. induction Hrtc as [|s s1 s2 Hs _ IH]; [split; [done|reflexivity]|].
  destruct (threads_step_keeps _ _ Hok Hs) as [Hok1 HK1]. destruct (IH Hok1) as [Hok2 HK2].
  split; [done|by etransitivity].
Qed.
End Threads.

Arguments threads : clear implicits.

(** [try { m } finally { f }]. *)
Definition finally {Env Db E A} (f : prog Env Db E unit) (m : prog Env Db E A) : prog Env Db E A :=
  try_catch (fun a => f ≫= fun _ => mret a) (fun e => f ≫= fun _ => Raise e) m.
(** [m.catch(() => {})]. *)
Definition ignore_errors {Env Db E} (m : prog Env Db E unit) : prog Env Db E unit :=
  try_catch mret (fun _ => mret tt) m.

(** *** Requests, one after the other *)

Section Requests.
Context {Env Db E : Type}.
Context (admissible : Z -> nat -> Env -> Db -> Prop).
Context (service : nat -> forall A, prog Env Db E A -> Prop).
Context (background : Db -> Db -> Prop).

Lemma thread_alone {A} i (p : prog Env Db E A) envs time db next rest :
  along (fun time => admissible time i) time envs p db ->
  exists q : prog Env Db E A,
    rtc (threads_step admissible service background)
      {| th_time := time; th_db := db; th_next := next; th_running := (i, Running p) :: rest |}
      {| th_time := time; th_db := (alone envs p db).2; th_next := next; th_running := (i, Running q) :: rest |}.
Proof.
  revert envs db. induction p as [a|e|B t k IH]; intros envs db; cbn; [by eexists..|].
  intros [Ha Hrest]. destruct (IH _ _ _ Hrest) as (q & Hq). exists q.
  destruct (perform t (envs 0%nat) db) as [o db'] eqn:E1. cbn in Hq. eapply rtc_l; [|exact Hq].
  pose proof (ThreadsStep admissible service background i [] rest t k (envs 0%nat)
    {| th_time := time; th_db := db; th_next := next; th_running := (i, Running (Step t k)) :: rest |} eq_refl Ha) as H.
  cbn in H. by rewrite E1 in H.
Qed.

Lemma thread_request {A} (p : prog Env Db E A) envs time db next rest :
  service next A p -> along (fun time => admissible time next) time envs p db ->
  exists more,
    rtc (threads_step admissible service background)
      {| th_time := time; th_db := db; th_next := next; th_running := rest |}
      {| th_time := time; th_db := (alone envs p db).2; th_next := S next; th_running := more |}.
Proof.
  intros Hp Ha. destruct (thread_alone next p envs time db (S next) rest Ha) as (q & Hq).
  exists ((next, Running q) :: rest). eapply rtc_l; [|exact Hq].
  by apply (ThreadsStart admissible service background p
    {| th_time := time; th_db := db; th_next := next; th_running := rest |}).
Qed.
End Requests.

(** *** Interleavings that can be run *)

Section Schedules.
Context {Env Db E : Type}.
Context (admissible : Z -> nat -> Env -> Db -> Prop).
Context (service : nat -> forall A, prog Env Db E A -> Prop).
Context (background : Db -> Db -> Prop).

(** A thread starts, takes some steps in the same surroundings, or something happens to the
    database. *)
Inductive action :=
| Starts {A : Type} (p : prog Env Db E A)
| Steps (i : nat) (n : nat) (env : Env)
| Happens (f : Db -> Db).

Fixpoint step_thread (i : nat) (env : Env) (l : list (nat * running Env Db E)) (db : Db) :
    list (nat * running Env Db E) * Db :=
  match l with
  | [] => ([], db)
  | (j, r) :: l =>
      if Nat.eqb j i then
        match r with
        | Running (Step t next) => ((j, Running (next (perform t env db).1)) :: l, (perform t env db).2)
        | _ => ((j, r) :: l, db)
        end
      else let '(l', db') := step_thread i env l db in ((j, r) :: l', db')
  end.
Fixpoint step_times (i n : nat) (env : Env) (l : list (nat * running Env Db E)) (db : Db) :
    list (nat * running Env Db E) * Db :=
  match n with
  | O => (l, db)
  | S n => let '(l', db') := step_thread i env l db in step_times i n env l' db'
  end.

Fixpoint play (actions : list action) (next : nat) (l : list (nat * running Env Db E)) (db : Db) :
    nat * list (nat * running Env Db E) * Db :=
  match actions with
  | [] => (next, l, db)
  | Starts p :: actions => play actions (S next) ((next, Running p) :: l) db
  | Steps i n env :: actions => let '(l', db') := step_times i n env l db in play actions next l' db'
  | Happens f :: actions => play actions next l (f db)
  end.

Fixpoint playable (time : Z) (actions : list action) (next : nat) : Prop :=
  match actions with
  | [] => True
  | Starts p :: actions => service next _ p /\ playable time actions (S next)
  | Steps i n env :: actions => (forall db, admissible time i env db) /\ playable time actions next
  | Happens f :: actions => (forall db, background db (f db)) /\ playable time actions next
  end.

Abbreviation steps := (rtc (threads_step admissible service background)).
Abbreviation at_ time next l db := {| th_time := time; th_db := db; th_next := next; th_running := l |}.

Lemma step_thread_reaches time i env next l db before : (forall db, admissible time i env db) ->
  steps (at_ time next (before ++ l) db)
        (at_ time next (before ++ (step_thread i env l db).1) (step_thread i env l db).2).
Proof.
  intros Ha. revert before. induction l as [|[j r] l IH]; intros before; cbn; [done|].
  destruct (Nat.eqb_spec j i) as [->|Hj].
  - destruct r as [A [a|e|B t k]]; cbn; [done|done|]. eapply rtc_once.
    apply (ThreadsStep admissible service background i before l t k env
      (at_ time next (before ++ (i, Running (Step t k)) :: l) db)); [done|apply Ha].
  - specialize (IH (before ++ [(j, r)])). rewrite <- app_assoc in IH.
    destruct (step_thread i env l db) as [l' db']. cbn in *. by rewrite <- app_assoc in IH.
Qed.

Lemma step_times_reaches time i n env next : (forall db, admissible time i env db) -> forall l db,
  steps (at_ time next l db) (at_ time next (step_times i n env l db).1 (step_times i n env l db).2).
Proof.
  intros Ha. induction n as [|n IH]; intros l db; cbn; [done|].
  pose proof (step_thread_reaches time i env next l db [] Ha) as H1.
  destruct (step_thread i env l db) as [l' db']. etransitivity; [exact H1|apply IH].
Qed.

Lemma play_reaches time actions : forall next l db, playable time actions next ->
  exists l', steps (at_ time next l db)
    (at_ time (play actions next l db).1.1 l' (play actions next l db).2).
Proof.
  induction actions as [|[A p|i n env|f] actions IH]; intros next l db; cbn; [by eexists|..]; intros [H1 H2].
  - destruct (IH (S next) ((next, Running p) :: l) db H2) as (l' & H3). exists l'. eapply rtc_l; [|exact H3].
    by apply (ThreadsStart admissible service background p (at_ time next l db)).
  - pose proof (step_times_reaches time i n env next H1 l db) as H3. destruct (step_times i n env l db) as [l1 db1].
    destruct (IH next l1 db1 H2) as (l' & H4). exists l'. by etransitivity.
  - destruct (IH next l (f db) H2) as (l' & H4). exists l'. eapply rtc_l; [|exact H4].
    by apply (ThreadsBackground admissible service background (f db) (at_ time next l db)).
Qed.
End Schedules.

Arguments action : clear implicits.
