(* ===== verification/Tables.v ===== *)
(** * Statements on tables

    What the services that keep their state in Postgres share: [COALESCE], [lower], updates of
    the rows a condition selects, and deep equality of parsed values.  A table is a list of
    rows under their primary keys, in the order of insertion. *)

From S2P Require Import Prelude Contracts Json.

Open Scope stdpp_scope.
Local Open Scope Z_scope.

(** ** SQL *)

(** [toLowerCase] and [lower], of code units below 256. *)
Definition lower_char (c : ascii) : ascii :=
  let n := nat_of_ascii c in
  if (Nat.leb 65 n && Nat.leb n 90) || (Nat.leb 192 n && Nat.leb n 214) || (Nat.leb 216 n && Nat.leb n 222)
  then ascii_of_nat (n + 32) else c.
Fixpoint to_lower (s : string) : string :=
  match s with EmptyString => "" | String c s => String (lower_char c) (to_lower s) end.

(** [COALESCE(a, b)], [NULLIF(s, '')]. *)
Definition coalesce {A} (a b : option A) : option A := match a with Some _ => a | None => b end.
Definition coalesce_to {A} (a : option A) (b : A) : A := match a with Some a => a | None => b end.
Definition nullif_empty (s : string) : option string := if String.eqb s "" then None else Some s.

(** [UPDATE ... SET f WHERE p] on a table, and the rows it changed. *)
Definition update_where {A} (p : string * A -> bool) (f : A -> A) (rows : list (string * A)) : list (string * A) :=
  (fun row => if p row then (row.1, f row.2) else row) <$> rows.
Definition updated_where {A} (p : string * A -> bool) (f : A -> A) (rows : list (string * A)) : list (string * A) :=
  (fun row => (row.1, f row.2)) <$> base.filter (fun row => p row = true) rows.

(** [timestamp >= now] where the column is NULL or not. *)
Definition at_least (t : option Z) (now : Z) : bool := match t with Some t => now <=? t | None => false end.

(** Deep equality of parsed values: the order of keys does not matter. *)
Fixpoint isDeepStrictEqual (a b : json) : bool :=
  match a, b with
  | JNull, JNull => true
  | JBool a, JBool b => Bool.eqb a b
  | JNumber a, JNumber b => a =? b
  | JString a, JString b => String.eqb a b
  | JArray xs, JArray ys =>
      (fix items (xs ys : list json) : bool :=
         match xs, ys with
         | [], [] => true
         | x :: xs, y :: ys => isDeepStrictEqual x y && items xs ys
         | _, _ => false
         end) xs ys
  | JObject xs, JObject ys =>
      Nat.eqb (length xs) (length ys) &&
      forallb (fun e => match map_get e.1 ys with Some v => isDeepStrictEqual e.2 v | None => false end) xs
  | _, _ => false
  end.

(** ** Letters *)

Lemma lower_char_idem c : lower_char (lower_char c) = lower_char c.
Proof. by destruct c as [[] [] [] [] [] [] [] []]. Qed.

Lemma to_lower_idem s : to_lower (to_lower s) = to_lower s.
Proof. induction s as [|c s IH]; cbn; [done|]. by rewrite lower_char_idem, IH. Qed.

(** ** Updates *)

Lemma update_where_keys {A} p (f : A -> A) rows : (update_where p f rows).*1 = rows.*1.
Proof. unfold update_where. rewrite <- list_fmap_compose. apply list_fmap_ext. intros i [k v] _. cbn. by destruct (p _). Qed.

Lemma map_ok_update_where {A} p (f : A -> A) (rows : list (string * A)) : map_ok rows -> map_ok (update_where p f rows).
Proof. unfold map_ok. by rewrite update_where_keys. Qed.

Lemma map_get_update_where {A} (key k : string) (f : A -> A) (rows : list (string * A)) :
  map_get k (update_where (fun r => String.eqb r.1 key) f rows) =
    if decide (k = key) then f <$> map_get k rows else map_get k rows.
Proof.
  unfold update_where. induction rows as [|[k' v] rows IH]; cbn; [by case_decide|].
  destruct (String.eqb_spec k' key) as [->|Hk]; cbn; rewrite IH; repeat case_decide; naive_solver.
Qed.

Lemma map_get_update_any {A} k p (f : A -> A) (rows : list (string * A)) :
  map_get k (update_where p f rows) = (fun v => if p (k, v) then f v else v) <$> map_get k rows.
Proof.
  unfold update_where. induction rows as [|[k' v] rows IH]; cbn; [done|].
  destruct (p (k', v)) eqn:Hp; cbn; rewrite IH; case_decide as Hk; cbn; subst; rewrite ?Hp; done.
Qed.
