(* ===== verification/Checkout.v ===== *)
(** * The tables of the checkout

    The database of [services/checkout]: its tables ([migrations/*.sql] and
    [src/lib/server/schema]), the surroundings of a transaction, the errors, and what
    every module of the server writes: the audit log ([audit.ts]), the queue of mails
    ([email/queue.ts], [notifications.ts]) and the outbox of platform events
    ([platform-events.ts]).

    Instants are microseconds, the resolution of the database; a JavaScript [Date] is a
    multiple of a thousand.  A table that a statement reads in no particular order is a
    list, in any order.  The audit log leaves out its random identifiers, which nothing
    reads, and a mail its encryption. *)

From S2P Require Import Prelude Contracts Json Programs Tables.
From Stdlib Require Import QArith.QArith.

Open Scope stdpp_scope.
Open Scope js_scope.
Local Open Scope Z_scope.

(** ** Errors *)

(** [AppError], and any other error. *)
Inductive failure :=
| AppError (status : Z) (code message : string)
| OtherError (message : string).

#[export] Instance failure_eq_dec : EqDecision failure.
Proof. solve_decision. Defined.

(** ** Rows *)

Inductive NameStatus := NameOwned | NameRevoked.
#[export] Instance NameStatus_eq_dec : EqDecision NameStatus.
Proof. solve_decision. Defined.

(** [names], keyed by name. *)
Record NameRow := {
  nm_owner_user_id : string;
  nm_status : NameStatus;
  nm_checkout_id : option string;
  nm_order_id : option string;
  nm_price_paid_eur : option Q;
  nm_purchased_at : Z;
  nm_revoked_at : option Z;
  nm_revoke_reason : option string;
  nm_created_at : Z;
  nm_updated_at : Z
}.

(** [name_holds], keyed by [id]. *)
Record HoldRow := {
  ho_name : string;
  ho_email : string;
  ho_tier : string;
  ho_salutation : string;
  ho_idea : string;
  ho_claim_token_hash : string;
  ho_success_token_hash : string;
  ho_email_confirmed_at : option Z;
  ho_reserved_until : option Z;
  ho_checkout_id : option string;
  ho_checkout_url : option string;
  ho_created_at : Z;
  ho_expires_at : Z
}.

(** [payment_events], keyed by [id]. *)
Record PaymentEventRow := {
  pv_event_type : string;
  pv_checkout_id : option string;
  pv_payload : json;
  pv_processed_at : Z
}.

(** [checkout_customers], keyed by [subject_id]. *)
Record CustomerRow := { cu_email : string; cu_created_at : Z; cu_updated_at : Z }.

(** [subscriptions], keyed by [provider_subscription_id]. *)
Record SubscriptionRow := {
  sb_id : string;
  sb_user_id : string;
  sb_tier : string;
  sb_status : string;
  sb_current_period_end : option Z;
  sb_cancel_at_period_end : bool;
  sb_pause_at_period_end : bool;
  sb_price_eur_cents : Z;
  sb_created_at : Z;
  sb_updated_at : Z
}.

(** [billing_checkouts]. *)
Record CheckoutRow := { bc_user_id : string; bc_checkout_id : string; bc_created_at : Z }.

Inductive DeliveryState := Processing | Processed | DeliveryFailed.
#[export] Instance DeliveryState_eq_dec : EqDecision DeliveryState.
Proof. solve_decision. Defined.

(** [polar_webhook_deliveries], keyed by [delivery_id]. *)
Record DeliveryRow := {
  dl_event_id : option string;
  dl_event_type : string;
  dl_payload : json;
  dl_headers : list (string * option string);
  dl_state : DeliveryState;
  dl_attempt_count : Z;
  dl_processing_error : option string;
  dl_last_attempt_at : Z;
  dl_processed_at : option Z
}.

Inductive EmailStatus := MailQueued | MailRetryWait | MailSending | MailSent | MailDead.
#[export] Instance EmailStatus_eq_dec : EqDecision EmailStatus.
Proof. solve_decision. Defined.

(** [email_queue], keyed by [id]. *)
Record EmailRow := {
  em_template_key : string;
  em_to_address : string;
  em_payload : option (list (string * string));
  em_status : EmailStatus;
  em_priority : Z;
  em_attempts : Z;
  em_max_attempts : Z;
  em_available_at : Z;
  em_lease_owner : option string;
  em_lease_expires_at : option Z;
  em_idempotency_key : option string;
  em_last_error_code : option string;
  em_last_error_message : option string;
  em_smtp_message_id : option string;
  em_created_at : Z;
  em_updated_at : Z;
  em_sent_at : option Z;
  em_dead_at : option Z
}.

Inductive PlatformEventType := Granted | Revoked.
Inductive OutboxStatus := OutPending | OutSending | OutDelivered | OutDead.
#[export] Instance PlatformEventType_eq_dec : EqDecision PlatformEventType.
Proof. solve_decision. Defined.
#[export] Instance OutboxStatus_eq_dec : EqDecision OutboxStatus.
Proof. solve_decision. Defined.

(** [platform_event_outbox], keyed by [id]. *)
Record OutboxRow := {
  ob_event_type : PlatformEventType;
  ob_subject_id : string;
  ob_purchased_name : string;
  ob_occurred_at : Z;
  ob_status : OutboxStatus;
  ob_attempts : Z;
  ob_available_at : Z;
  ob_lease_owner : option string;
  ob_lease_expires_at : option Z;
  ob_last_error : option string;
  ob_delivered_at : option Z;
  ob_created_at : Z
}.

(** [audit_events]. *)
Record AuditRow := {
  au_event_type : string;
  au_target_user_id : option string;
  au_metadata : list (string * json);
  au_created_at : Z
}.

(** The tables, and the memory of the server process: the product identifiers a
    [SubscriptionService] resolved, once for all. *)
Record Db := {
  names : list (string * NameRow);
  name_holds : list (string * HoldRow);
  payment_events : gmap string PaymentEventRow;
  checkout_customers : list (string * CustomerRow);
  billing_customers : gmap string string;
  subscriptions : list (string * SubscriptionRow);
  billing_checkouts : list CheckoutRow;
  deliveries : gmap string DeliveryRow;
  email_queue : list (string * EmailRow);
  outbox : list (string * OutboxRow);
  audit : list AuditRow;
  products : option (outcome failure (list (string * string)))
}.

Definition set_names x db := {| names := x; name_holds := name_holds db; payment_events := payment_events db;
  checkout_customers := checkout_customers db; billing_customers := billing_customers db; subscriptions :=
  subscriptions db; billing_checkouts := billing_checkouts db; deliveries := deliveries db; email_queue :=
  email_queue db; outbox := outbox db; audit := audit db; products := products db |}.
Definition set_name_holds x db := {| names := names db; name_holds := x; payment_events := payment_events db;
  checkout_customers := checkout_customers db; billing_customers := billing_customers db; subscriptions :=
  subscriptions db; billing_checkouts := billing_checkouts db; deliveries := deliveries db; email_queue :=
  email_queue db; outbox := outbox db; audit := audit db; products := products db |}.
Definition set_payment_events x db := {| names := names db; name_holds := name_holds db; payment_events := x;
  checkout_customers := checkout_customers db; billing_customers := billing_customers db; subscriptions :=
  subscriptions db; billing_checkouts := billing_checkouts db; deliveries := deliveries db; email_queue :=
  email_queue db; outbox := outbox db; audit := audit db; products := products db |}.
Definition set_checkout_customers x db := {| names := names db; name_holds := name_holds db; payment_events :=
  payment_events db; checkout_customers := x; billing_customers := billing_customers db; subscriptions :=
  subscriptions db; billing_checkouts := billing_checkouts db; deliveries := deliveries db; email_queue :=
  email_queue db; outbox := outbox db; audit := audit db; products := products db |}.
Definition set_billing_customers x db := {| names := names db; name_holds := name_holds db; payment_events :=
  payment_events db; checkout_customers := checkout_customers db; billing_customers := x; subscriptions :=
  subscriptions db; billing_checkouts := billing_checkouts db; deliveries := deliveries db; email_queue :=
  email_queue db; outbox := outbox db; audit := audit db; products := products db |}.
Definition set_subscriptions x db := {| names := names db; name_holds := name_holds db; payment_events :=
  payment_events db; checkout_customers := checkout_customers db; billing_customers := billing_customers db;
  subscriptions := x; billing_checkouts := billing_checkouts db; deliveries := deliveries db; email_queue :=
  email_queue db; outbox := outbox db; audit := audit db; products := products db |}.
Definition set_billing_checkouts x db := {| names := names db; name_holds := name_holds db; payment_events :=
  payment_events db; checkout_customers := checkout_customers db; billing_customers := billing_customers db;
  subscriptions := subscriptions db; billing_checkouts := x; deliveries := deliveries db; email_queue :=
  email_queue db; outbox := outbox db; audit := audit db; products := products db |}.
Definition set_deliveries x db := {| names := names db; name_holds := name_holds db; payment_events :=
  payment_events db; checkout_customers := checkout_customers db; billing_customers := billing_customers db;
  subscriptions := subscriptions db; billing_checkouts := billing_checkouts db; deliveries := x; email_queue
  := email_queue db; outbox := outbox db; audit := audit db; products := products db |}.
Definition set_email_queue x db := {| names := names db; name_holds := name_holds db; payment_events :=
  payment_events db; checkout_customers := checkout_customers db; billing_customers := billing_customers db;
  subscriptions := subscriptions db; billing_checkouts := billing_checkouts db; deliveries := deliveries db;
  email_queue := x; outbox := outbox db; audit := audit db; products := products db |}.
Definition set_outbox x db := {| names := names db; name_holds := name_holds db; payment_events :=
  payment_events db; checkout_customers := checkout_customers db; billing_customers := billing_customers db;
  subscriptions := subscriptions db; billing_checkouts := billing_checkouts db; deliveries := deliveries db;
  email_queue := email_queue db; outbox := x; audit := audit db; products := products db |}.
Definition set_audit x db := {| names := names db; name_holds := name_holds db; payment_events :=
  payment_events db; checkout_customers := checkout_customers db; billing_customers := billing_customers db;
  subscriptions := subscriptions db; billing_checkouts := billing_checkouts db; deliveries := deliveries db;
  email_queue := email_queue db; outbox := outbox db; audit := x; products := products db |}.
Definition set_products x db := {| names := names db; name_holds := name_holds db; payment_events :=
  payment_events db; checkout_customers := checkout_customers db; billing_customers := billing_customers db;
  subscriptions := subscriptions db; billing_checkouts := billing_checkouts db; deliveries := deliveries db;
  email_queue := email_queue db; outbox := outbox db; audit := audit db; products := x |}.

Definition empty_db : Db :=
  {| names := []; name_holds := []; payment_events := ∅; checkout_customers := []; billing_customers := ∅;
     subscriptions := []; billing_checkouts := []; deliveries := ∅; email_queue := []; outbox := []; audit := [];
     products := None |}.

(** ** Surroundings *)

(** [ProvisionedAccount] of the identity service. *)
Record ProvisionedAccount := { pa_id : string; pa_email : string; pa_setupUrl : option string }.

(** [CheckoutInput], [SubscriptionCheckoutInput], [CheckoutSession] and [OrderRow]. *)
Record CheckoutInput := {
  ci_name : string; ci_email : string; ci_holdId : string; ci_successUrl : string; ci_locale : option string
}.
Record SubscriptionCheckoutInput := {
  si_productId : string; si_tier : string; si_userId : string; si_email : string; si_successUrl : string;
  si_embedOrigin : option string; si_locale : option string
}.
Record CheckoutSession := { cs_checkoutId : string; cs_checkoutUrl : string }.
Record OrderRow := {
  or_id : string; or_createdAt : string; or_productId : string; or_tier : option string; or_subTotalCents : Z;
  or_taxCents : Z; or_discountCents : Z; or_amountPaidCents : Z; or_currency : string; or_status : string;
  or_invoiceGenerated : bool
}.

Inductive ResumeMode := Uncancel | Unpause.

(** [PaymentProvider]: what it answers now. *)
Record PaymentProvider := {
  createCheckout : CheckoutInput -> outcome failure CheckoutSession;
  ensureProducts : outcome failure (list (string * string));
  createSubscriptionCheckout : SubscriptionCheckoutInput -> outcome failure CheckoutSession;
  cancelSubscription : string -> bool -> outcome failure unit;
  pauseSubscription : string -> outcome failure unit;
  resumeSubscription : string -> ResumeMode -> outcome failure unit;
  findCustomerByEmail : string -> outcome failure (option string);
  listOrders : string -> outcome failure (list OrderRow);
  orderInvoiceUrl : string -> outcome failure string;
  checkoutStatus : string -> outcome failure string
}.

(** What one step reads besides the database: [now()], the beginning of its transaction,
    and [clock_timestamp()]; [Date.now()] in milliseconds; the results of [randomUUID] and
    [randomToken]; the answers of the identity service and of the payment provider. *)
Record Env := {
  now : Z;
  clock_timestamp : Z;
  date_now : Z;
  randomUUID : nat -> string;
  randomToken : string;
  provisionAccount : string -> string -> outcome failure ProvisionedAccount;
  payments : PaymentProvider
}.

(** [new Date(ms)] in a column. *)
Definition js_date (ms : Z) : Z := ms * 1000.
Definition MINUTE : Z := 60 * 1000000.

Abbreviation tx := (txn Env Db failure).
Abbreviation program := (prog Env Db failure).

Definition unique_violation (constraint_ : string) : failure :=
  OtherError ("duplicate key value violates unique constraint " +:+ constraint_).

(** ** Bounds *)

Definition int4_ok (n : Z) : bool := (-2147483648 <=? n) && (n <=? 2147483647).

(** ** The audit log *)

Definition writeAudit (eventType : string) (target : option string) (metadata : list (string * json)) : tx unit :=
  created ← ask (fun env => js_date (date_now env));
  update (fun db => set_audit (audit db ++ [{| au_event_type := eventType; au_target_user_id := target;
                                              au_metadata := metadata; au_created_at := created |}]) db).

(** ** Mails *)

Record QueueSettings := { qs_maxAttempts : Z }.

(** [enqueueSystemEmail]; [id] is its [randomUUID()], and no caller sets [availableAt]. *)
Definition enqueueSystemEmail (settings : QueueSettings) (id template to_ : string)
    (data : list (string * string)) (priority : Z) (idempotencyKey : option string) : tx unit :=
  created ← ask (fun env => js_date (date_now env));
  queue ← select email_queue;
  let taken := match idempotencyKey with
               | Some key => existsb (fun row : string * EmailRow =>
                                        bool_decide (em_idempotency_key row.2 = Some key)) queue
               | None => false
               end in
  if taken then mret tt
  else
    throw_when! map_has id queue as unique_violation "email_queue_pkey";
    update (set_email_queue (queue ++
      [(id, {| em_template_key := template; em_to_address := to_; em_payload := Some data;
               em_status := MailQueued; em_priority := priority; em_attempts := 0;
               em_max_attempts := qs_maxAttempts settings; em_available_at := created;
               em_lease_owner := None; em_lease_expires_at := None; em_idempotency_key := idempotencyKey;
               em_last_error_code := None; em_last_error_message := None; em_smtp_message_id := None;
               em_created_at := created; em_updated_at := created; em_sent_at := None; em_dead_at := None |})])).

(** The [Notifier]; [showDate] is [toUTCString]. *)
Section Notifier.
Context (settings : QueueSettings) (PUBLIC_BASE_URL : string) (showDate : Z -> string).

Definition namePurchaseLink (id email name claimUrl : string) (expiresAt : Z) : tx unit :=
  enqueueSystemEmail settings id "name.purchase-link" email
    [("name", name); ("claimUrl", claimUrl); ("expiresAt", showDate expiresAt); ("baseUrl", PUBLIC_BASE_URL)]
    10 None.

Definition namePurchased (id name ownerEmail : string) (accessUrl : option string) : tx unit :=
  enqueueSystemEmail settings id "name.purchased" ownerEmail
    [("name", name); ("accessUrl", coalesce_to accessUrl ""); ("baseUrl", PUBLIC_BASE_URL)]
    0 (Some ("name-purchased:" +:+ name)).
End Notifier.

(** ** Platform events *)

(** [enqueuePlatformEvent]; the columns [id] and [subject_id] are UUIDs, and [uuid_of] is
    what a text is as a UUID. *)
Definition enqueuePlatformEvent (uuid_of : string -> option string) (id : string) (eventType : PlatformEventType)
    (userId name : string) : tx unit :=
  occurred ← ask clock_timestamp;
  match uuid_of id, uuid_of userId with
  | Some id, Some userId =>
      rows ← select outbox;
      throw_when! map_has id rows as unique_violation "platform_event_outbox_pkey";
      update (set_outbox (rows ++
        [(id, {| ob_event_type := eventType; ob_subject_id := userId; ob_purchased_name := name;
                 ob_occurred_at := occurred; ob_status := OutPending; ob_attempts := 0;
                 ob_available_at := occurred; ob_lease_owner := None; ob_lease_expires_at := None;
                 ob_last_error := None; ob_delivered_at := None; ob_created_at := occurred |})]))
  | _, _ => throw (OtherError "invalid input syntax for type uuid")
  end.

(** ** Customers *)

(** [INSERT INTO checkout_customers ... ON CONFLICT(subject_id) DO UPDATE]; addresses are unique. *)
Definition upsert_customer (account : ProvisionedAccount) : tx unit :=
  t ← ask now;
  customers ← select checkout_customers;
  throw_when! existsb (fun row : string * CustomerRow =>
                 String.eqb (cu_email row.2) (pa_email account) && negb (String.eqb row.1 (pa_id account)))
                customers as unique_violation "checkout_customers_email_unique";
  let created := match map_get (pa_id account) customers with Some row => cu_created_at row | None => t end in
  update (set_checkout_customers
    (map_set (pa_id account) {| cu_email := pa_email account; cu_created_at := created; cu_updated_at := t |}
       customers)).
