(* ===== verification/Mail.v ===== *)
(** * The mail worker

    [services/checkout/src/lib/server/email]: the rendering of mails ([templates.ts],
    [template-contract.ts]) and the worker that takes them from [email_queue] to a mail server
    ([worker.ts]).  Any number of workers run and end; a tick claims a batch in one
    transaction and delivers its mails side by side.  The templates compiled from files, the
    decryption of payloads and the mail server are parameters.  One clock is read by all. *)

From S2P Require Import Prelude Contracts Json Programs Tables Checkout.
From stdpp Require Import relations.

Open Scope stdpp_scope.
Open Scope js_scope.
Local Open Scope Z_scope.

(** ** Texts *)

(** [s.replace(/pattern/g, f)]: [f] is given what is left and gives what it puts there and
    what follows the match. *)
Fixpoint replace_all (fuel : nat) (f : string -> option (string * string)) (s : string) : string :=
  match fuel with
  | O => s
  | S fuel =>
      match f s, s with
      | Some (put, rest), _ => put +:+ replace_all fuel f rest
      | None, String c rest => String c (replace_all fuel f rest)
      | None, EmptyString => EmptyString
      end
  end.
Definition replaced (f : string -> option (string * string)) (s : string) : string := replace_all (S (String.length s)) f s.

Fixpoint drop_while (p : ascii -> bool) (s : string) : string :=
  match s with String c rest => if p c then drop_while p rest else s | EmptyString => EmptyString end.
(** What follows a word in any case. *)
Definition after_word (word s : string) : option string :=
  if String.eqb (to_lower (string_take (String.length word) s)) word then Some (string_drop (String.length word) s) else None.

(** [/postgres(?:ql)?:\/\/[^\s]+/gi]. *)
Definition postgres_url (s : string) : option (string * string) :=
  match after_word "postgres" s with
  | None => None
  | Some s =>
      match after_word "://" (coalesce_to (after_word "ql" s) s) with
      | Some (String c _ as u) =>
          if is_space c then None else Some ("postgresql://[REDACTED]", drop_while (fun c => negb (is_space c)) u)
      | _ => None
      end
  end.
(** [/(token|secret|password|key|authorization)\s*[=:]\s*[^\s,;]+/gi]. *)
Definition secret_words : list string := ["token"; "secret"; "password"; "key"; "authorization"].
Definition is_value_char (c : ascii) : bool := negb (is_space c || Ascii.eqb c ","%char || Ascii.eqb c ";"%char).
Definition secret_of (s word : string) : option (string * string) :=
  match drop_while is_space <$> after_word word s with
  | Some (String c rest) =>
      if Ascii.eqb c "="%char || Ascii.eqb c ":"%char then
        match drop_while is_space rest with
        | String d _ as value =>
            if is_value_char d
            then Some (string_take (String.length word) s +:+ "=[REDACTED]", drop_while is_value_char value) else None
        | EmptyString => None
        end
      else None
  | _ => None
  end.
Definition secret_field (s : string) : option (string * string) := head (omap (secret_of s) secret_words).
Definition sanitizeError (message : string) : string :=
  string_take 500 (replaced secret_field (replaced postgres_url message)).

(** ** Rendering *)

Definition emailTemplateTokens : list (string * string) := [
  ("message", "AVENEMAILTOKENMESSAGE9A7E3B"); ("name", "AVENEMAILTOKENNAME7D8F2A");
  ("claimUrl", "AVENEMAILTOKENCLAIMURL4C1E9B"); ("expiresAt", "AVENEMAILTOKENEXPIRESAT6A3D5C");
  ("accessUrl", "AVENEMAILTOKENACCESSURL8B2F4D"); ("baseUrl", "AVENEMAILTOKENBASEURL3E7C1F")].

(** [value.replaceAll(c, text)] of one character. *)
Fixpoint replace_char (c : ascii) (text s : string) : string :=
  match s with
  | EmptyString => EmptyString
  | String d rest => if Ascii.eqb d c then text +:+ replace_char c text rest else String d (replace_char c text rest)
  end.
Definition quote_mark : ascii := ascii_of_nat 34.
Definition escapeHtml (value : string) : string :=
  replace_char "'"%char "&#039;" (replace_char quote_mark "&quot;" (replace_char ">"%char "&gt;"
    (replace_char "<"%char "&lt;" (replace_char "&"%char "&amp;" value)))).

Definition token_at (s : string) : option (string * string) :=
  head (omap (fun entry : string * string =>
                if starts_with s entry.2 then Some (entry.1, string_drop (String.length entry.2) s) else None)
             emailTemplateTokens).
Definition interpolate (template : string) (data : list (string * string)) (transform : string -> string) : string :=
  replaced (fun s => match token_at s with
                     | Some (field, rest) => Some (transform (coalesce_to (map_get field data) ""), rest)
                     | None => None
                     end) template.

Definition is_line_break (c : ascii) : bool := let n := nat_of_ascii c in Nat.eqb n 10 || Nat.eqb n 13.
Definition subjectValue (value : string) : string :=
  trim (replaced (fun s => match s with
                           | String c _ => if is_line_break c then Some (" ", drop_while is_line_break s) else None
                           | EmptyString => None
                           end) value).

Record CompiledTemplate := { ct_subject : string; ct_variants : list (string * (string * string)) }.
Record RenderedEmail := { re_subject : string; re_text : string; re_html : string }.
Definition variant_of (template : string) (data : list (string * string)) : string * string :=
  if String.eqb template "identity.security" then ("identity.security", "default")
  else if String.eqb template "name.purchased" then
    ("name.purchased", match truthy (map_get "accessUrl" data) with None => "withoutAccess" | Some _ => "withAccess" end)
  else ("name.purchase-link", "default").
Definition renderEmail (compiledEmailTemplates : list (string * CompiledTemplate)) (template : string)
    (data : list (string * string)) : result RenderedEmail :=
  let '(source, variant) := variant_of template data in
  match map_get template compiledEmailTemplates,
        c ← map_get source compiledEmailTemplates; map_get variant (ct_variants c) with
  | Some compiled, Some (text, html) =>
      Ok {| re_subject := interpolate (ct_subject compiled) data subjectValue;
            re_text := interpolate text data (fun value => value); re_html := interpolate html data escapeHtml |}
  | _, _ => Throw "Cannot read properties of undefined"
  end.

(** ** Outcomes *)

(** An exception: of the mail server, of the database, or any other. *)
Record SmtpError := { se_responseCode : option Z; se_code : option string; se_message : string }.
Inductive SmtpFailureKind := Retry | Dead.
Definition classifySmtpFailure (error : SmtpError) : SmtpFailureKind :=
  let code := coalesce_to (se_responseCode error) 0 in
  if 500 <=? code then Dead
  else if 400 <=? code then Retry
  else if includes ["ETIMEDOUT"; "ECONNECTION"; "ECONNRESET"; "ESOCKET"; "ETLS"] (coalesce_to (se_code error) "")
  then Retry else Dead.

(** [random] is [Math.random()] in units of 2^-53. *)
Definition retryDelaySeconds (attempt base_ maximum random : Z) : Z :=
  let delay := Z.min (base_ * 2 ^ Z.max 0 (attempt - 1)) maximum in
  delay + random * Z.min delay 240 / (4 * 2 ^ 53).

Record SmtpEndpoint := { sp_protocol : string; sp_port : Z; sp_secure : bool }.
(** [describeSmtpEndpoint], of the protocol and port of the URL. *)
Definition describeSmtpEndpoint (protocol : string) (port : option Z) : result SmtpEndpoint :=
  throw! negb (String.eqb protocol "smtp:") && negb (String.eqb protocol "smtps:") as "SMTP_URL must use smtp:// or smtps://.";
  let secure := String.eqb protocol "smtps:" in
  Ok {| sp_protocol := if secure then "smtps" else "smtp"; sp_port := coalesce_to port (if secure then 465 else 587);
        sp_secure := secure |}.

(** ** The queue *)

Abbreviation mails := (list (string * EmailRow)).
Definition MAIL_SECOND : Z := 1000000.

(** An update of the columns the worker sets. *)
Definition with_mail (status : EmailStatus) (payload : option (list (string * string))) (attempts available : Z)
    (owner : option string) (expires : option Z) (error : option string * option string) (message_id : option string)
    (now : Z) (sent dead : option Z) (o : EmailRow) : EmailRow :=
  {| em_template_key := em_template_key o; em_to_address := em_to_address o; em_payload := payload; em_status := status;
     em_priority := em_priority o; em_attempts := attempts; em_max_attempts := em_max_attempts o;
     em_available_at := available; em_lease_owner := owner; em_lease_expires_at := expires;
     em_idempotency_key := em_idempotency_key o; em_last_error_code := error.1; em_last_error_message := error.2;
     em_smtp_message_id := message_id; em_created_at := em_created_at o; em_updated_at := now; em_sent_at := sent;
     em_dead_at := dead |}.

Definition expired (now : Z) (o : EmailRow) : bool :=
  match em_lease_expires_at o with Some lease => lease <? now | None => false end.
Definition recovered_row (now : Z) (o : EmailRow) : EmailRow :=
  with_mail MailRetryWait (em_payload o) (em_attempts o) now None None (em_last_error_code o, em_last_error_message o)
    (em_smtp_message_id o) now (em_sent_at o) (em_dead_at o) o.
Definition recoverExpiredLeases (now : Z) (queue : mails) : mails :=
  update_where (fun row => bool_decide (em_status row.2 = MailSending) && expired now row.2) (recovered_row now) queue.

Definition claimable (now : Z) (o : EmailRow) : bool :=
  includes [MailQueued; MailRetryWait] (em_status o) && (em_available_at o <=? now) &&
  (bool_decide (em_lease_expires_at o = None) || expired now o) && bool_decide (is_Some (em_payload o)).
Definition by_priority (a b : string * EmailRow) : Z :=
  or_else (em_priority b.2 - em_priority a.2) (em_created_at a.2 - em_created_at b.2).
Definition claimed_row (owner : string) (now leaseSeconds : Z) (o : EmailRow) : EmailRow :=
  with_mail MailSending (em_payload o) (em_attempts o + 1) (em_available_at o) (Some owner)
    (Some (now + leaseSeconds * MAIL_SECOND)) (em_last_error_code o, em_last_error_message o) (em_smtp_message_id o) now
    (em_sent_at o) (em_dead_at o) o.

Record ClaimedEmail := {
  cm_id : string;
  cm_template_key : string;
  cm_to_address : string;
  cm_payload : list (string * string);
  cm_attempts : Z;
  cm_max_attempts : Z
}.
Definition claimed_email (row : string * EmailRow) : ClaimedEmail :=
  {| cm_id := row.1; cm_template_key := em_template_key row.2; cm_to_address := em_to_address row.2;
     cm_payload := coalesce_to (em_payload row.2) []; cm_attempts := em_attempts row.2 + 1;
     cm_max_attempts := em_max_attempts row.2 |}.

(** The rows of a batch; [locked] are rows that other transactions hold at the moment. *)
Definition batch (locked : list string) (now : Z) (batchSize : nat) (queue : mails) : mails :=
  take batchSize (js_sort by_priority (base.filter (fun row => claimable now row.2 = true /\ row.1 ∉ locked) queue)).
Definition claimEmails (locked : list string) (owner : string) (batchSize : nat) (leaseSeconds now : Z) (queue : mails) :
    list ClaimedEmail * mails :=
  let rows := batch locked now batchSize queue in
  (claimed_email <$> rows,
   foldl (fun queue row => update_where (fun r => String.eqb r.1 row.1) (claimed_row owner now leaseSeconds) queue) queue rows).

(** The three updates of an outcome, of the row with this owner. *)
Definition owned (id owner : string) (row : string * EmailRow) : bool :=
  String.eqb row.1 id && bool_decide (em_lease_owner row.2 = Some owner).
Definition sent_row (messageId : option string) (now : Z) (o : EmailRow) : EmailRow :=
  with_mail MailSent None (em_attempts o) (em_available_at o) None None (None, None) messageId now (Some now) (em_dead_at o) o.
Definition dead_row (code message : string) (now : Z) (o : EmailRow) : EmailRow :=
  with_mail MailDead (em_payload o) (em_attempts o) (em_available_at o) None None (Some code, Some message)
    (em_smtp_message_id o) now (em_sent_at o) (Some now) o.
Definition retry_row (message : string) (next now : Z) (o : EmailRow) : EmailRow :=
  with_mail MailRetryWait (em_payload o) (em_attempts o) next None None (Some "EMAIL_TRANSIENT_FAILURE", Some message)
    (em_smtp_message_id o) now (em_sent_at o) (em_dead_at o) o.

Record EmailWorkerConfig := {
  EMAIL_WORKER_BATCH_SIZE : nat;
  EMAIL_WORKER_LEASE_SECONDS : Z;
  EMAIL_RETRY_BASE_SECONDS : Z;
  EMAIL_RETRY_MAX_SECONDS : Z
}.

(** [failure]. *)
Definition failure_row (config : EmailWorkerConfig) (mail : ClaimedEmail) (error : SmtpError) (now random : Z)
    (o : EmailRow) : EmailRow :=
  let message := sanitizeError (se_message error) in
  match classifySmtpFailure error with
  | Dead => dead_row "EMAIL_PERMANENT_FAILURE" message now o
  | Retry =>
      if cm_max_attempts mail <=? cm_attempts mail then dead_row "EMAIL_ATTEMPTS_EXHAUSTED" message now o
      else retry_row message
             (now + retryDelaySeconds (cm_attempts mail) (EMAIL_RETRY_BASE_SECONDS config)
                      (EMAIL_RETRY_MAX_SECONDS config) random * MAIL_SECOND) now o
  end.

(** ** Workers *)

(** Where a delivery is: before the mail is handed over, or with an outcome to record. *)
Inductive DeliveryPhase :=
| Handing
| HandedOver (messageId : option string)
| Failing (error : SmtpError).
Record Delivery := { dl_owner : string; dl_mail : ClaimedEmail; dl_phase : DeliveryPhase }.
(** A mail that was given to the mail server, and what came back. *)
Record Handover := {
  hv_owner : string;
  hv_mail : ClaimedEmail;
  hv_rendered : RenderedEmail;
  hv_answer : outcome SmtpError (option string)
}.
(** [wk_rejected]: a delivery threw, so that [Promise.all] does not wait for the others. *)
Record Worker := { wk_owner : string; wk_recovering : bool; wk_active : bool; wk_rejected : bool }.
(** [ml_errors]: the attempts to deliver a claimed mail that ended in an error, with the error. *)
Record Mailer := {
  ml_time : Z;
  ml_queue : mails;
  ml_handed : list Handover;
  ml_errors : list (ClaimedEmail * SmtpError);
  ml_workers : list Worker;
  ml_deliveries : list Delivery;
  ml_owners : list string
}.
Definition empty_mailer (time : Z) : Mailer :=
  {| ml_time := time; ml_queue := []; ml_handed := []; ml_errors := []; ml_workers := []; ml_deliveries := []; ml_owners := [] |}.

(** A row as [enqueueSystemEmail] inserts it. *)
Definition new_mail (o : EmailRow) : Prop :=
  em_status o = MailQueued /\ is_Some (em_payload o) /\ em_attempts o = 0 /\ em_lease_owner o = None /\
  em_lease_expires_at o = None /\ em_sent_at o = None /\ em_dead_at o = None /\ em_smtp_message_id o = None /\
  em_last_error_code o = None.

Section Workers.
Context (config : EmailWorkerConfig) (compiledEmailTemplates : list (string * CompiledTemplate)).

(** [deliver] up to the answer of the mail server: [decrypted] says whether the payload could
    be read, and [answer] is what [sendMail] gives. *)
Definition hand_over (decrypted : option SmtpError) (answer : outcome SmtpError (option string)) (d : Delivery) :
    DeliveryPhase * list Handover :=
  match decrypted with
  | Some error => (Failing error, [])
  | None =>
      match renderEmail compiledEmailTemplates (cm_template_key (dl_mail d)) (cm_payload (dl_mail d)) with
      | Throw message => (Failing {| se_responseCode := None; se_code := None; se_message := message |}, [])
      | Ok rendered =>
          (match answer with Gave messageId => HandedOver messageId | Threw error => Failing error end,
           [{| hv_owner := dl_owner d; hv_mail := dl_mail d; hv_rendered := rendered; hv_answer := answer |}])
      end
  end.
(** The statement that records an outcome. *)
Definition record_outcome (now random : Z) (d : Delivery) (queue : mails) : mails :=
  let here := owned (cm_id (dl_mail d)) (dl_owner d) in
  match dl_phase d with
  | Handing => queue
  | HandedOver messageId => update_where here (sent_row messageId now) queue
  | Failing error => update_where here (failure_row config (dl_mail d) error now random) queue
  end.
(** The statement fails: what was sent is a failure now, and a failure is thrown. *)
Definition outcome_lost (error : SmtpError) (d : Delivery) : option Delivery :=
  match dl_phase d with
  | HandedOver _ => Some {| dl_owner := dl_owner d; dl_mail := dl_mail d; dl_phase := Failing error |}
  | _ => None
  end.

Definition with_queue (queue : mails) (s : Mailer) : Mailer :=
  {| ml_time := ml_time s; ml_queue := queue; ml_handed := ml_handed s; ml_errors := ml_errors s; ml_workers := ml_workers s;
     ml_deliveries := ml_deliveries s; ml_owners := ml_owners s |}.
Definition with_workers (workers : list Worker) (s : Mailer) : Mailer :=
  {| ml_time := ml_time s; ml_queue := ml_queue s; ml_handed := ml_handed s; ml_errors := ml_errors s; ml_workers := workers;
     ml_deliveries := ml_deliveries s; ml_owners := ml_owners s |}.
Definition with_deliveries (deliveries : list Delivery) (s : Mailer) : Mailer :=
  {| ml_time := ml_time s; ml_queue := ml_queue s; ml_handed := ml_handed s; ml_errors := ml_errors s; ml_workers := ml_workers s;
     ml_deliveries := deliveries; ml_owners := ml_owners s |}.
Definition handing (handed : list Handover) (s : Mailer) : Mailer :=
  {| ml_time := ml_time s; ml_queue := ml_queue s; ml_handed := ml_handed s ++ handed; ml_errors := ml_errors s;
     ml_workers := ml_workers s;
     ml_deliveries := ml_deliveries s; ml_owners := ml_owners s |}.
Definition failing (d : Delivery) (s : Mailer) : Mailer :=
  {| ml_time := ml_time s; ml_queue := ml_queue s; ml_handed := ml_handed s;
     ml_errors := ml_errors s ++ match dl_phase d with Failing error => [(dl_mail d, error)] | _ => [] end;
     ml_workers := ml_workers s; ml_deliveries := ml_deliveries s; ml_owners := ml_owners s |}.

Definition new_worker (owner : string) : Worker :=
  {| wk_owner := owner; wk_recovering := true; wk_active := false; wk_rejected := false |}.
Definition has_recovered (w : Worker) : Worker :=
  {| wk_owner := wk_owner w; wk_recovering := false; wk_active := wk_active w; wk_rejected := wk_rejected w |}.
Definition ticking (active rejected : bool) (w : Worker) : Worker :=
  {| wk_owner := wk_owner w; wk_recovering := wk_recovering w; wk_active := active; wk_rejected := rejected |}.
Definition rejects (owner : string) (workers : list Worker) : list Worker :=
  (fun w => if String.eqb (wk_owner w) owner then ticking (wk_active w) true w else w) <$> workers.

(** A worker starts with one recovery; a tick claims a batch and delivers it; a statement may
    fail, applied or not, and a worker may end anywhere, with its deliveries. *)
Inductive mail_step (s : Mailer) : Mailer -> Prop :=
| MailTime time : ml_time s <= time ->
    mail_step s {| ml_time := time; ml_queue := ml_queue s; ml_handed := ml_handed s; ml_errors := ml_errors s; ml_workers := ml_workers s;
                   ml_deliveries := ml_deliveries s; ml_owners := ml_owners s |}
| MailEnqueue id o : map_has id (ml_queue s) = false -> new_mail o -> mail_step s (with_queue (ml_queue s ++ [(id, o)]) s)
| WorkerStarts owner : owner ∉ ml_owners s ->
    mail_step s {| ml_time := ml_time s; ml_queue := ml_queue s; ml_handed := ml_handed s;
                   ml_errors := ml_errors s; ml_workers := ml_workers s ++ [new_worker owner]; ml_deliveries := ml_deliveries s;
                   ml_owners := owner :: ml_owners s |}
| WorkerRecovers before w after now : ml_workers s = before ++ w :: after -> wk_recovering w = true -> now <= ml_time s ->
    mail_step s (with_workers (before ++ has_recovered w :: after) (with_queue (recoverExpiredLeases now (ml_queue s)) s))
| WorkerClaims before w after locked now : ml_workers s = before ++ w :: after -> wk_active w = false -> now <= ml_time s ->
    let claimed := claimEmails locked (wk_owner w) (EMAIL_WORKER_BATCH_SIZE config) (EMAIL_WORKER_LEASE_SECONDS config)
                     now (ml_queue s) in
    mail_step s (with_workers (before ++ ticking true false w :: after)
      (with_deliveries (ml_deliveries s ++
         ((fun mail => {| dl_owner := wk_owner w; dl_mail := mail; dl_phase := Handing |}) <$> claimed.1))
      (with_queue claimed.2 s)))
| WorkerHands before d after decrypted answer : ml_deliveries s = before ++ d :: after -> dl_phase d = Handing ->
    let handed := hand_over decrypted answer d in
    let d' := {| dl_owner := dl_owner d; dl_mail := dl_mail d; dl_phase := handed.1 |} in
    mail_step s (failing d' (with_deliveries (before ++ d' :: after) (handing handed.2 s)))
| WorkerRecords before d after now random : ml_deliveries s = before ++ d :: after -> dl_phase d <> Handing ->
    now <= ml_time s -> 0 <= random < 2 ^ 53 ->
    mail_step s (with_deliveries (before ++ after) (with_queue (record_outcome now random d (ml_queue s)) s))
| WorkerForgets before d after error (applied : bool) now random : ml_deliveries s = before ++ d :: after ->
    dl_phase d <> Handing -> now <= ml_time s -> 0 <= random < 2 ^ 53 ->
    let s' := if applied then with_queue (record_outcome now random d (ml_queue s)) s else s in
    mail_step s (match outcome_lost error d with
                 | Some d => failing d (with_deliveries (before ++ d :: after) s')
                 | None => with_deliveries (before ++ after) (with_workers (rejects (dl_owner d) (ml_workers s)) s')
                 end)
| WorkerRests before w after : ml_workers s = before ++ w :: after ->
    wk_rejected w = true \/ (forall d, d ∈ ml_deliveries s -> dl_owner d <> wk_owner w) ->
    mail_step s (with_workers (before ++ ticking false (wk_rejected w) w :: after) s)
| WorkerEnds before w after : ml_workers s = before ++ w :: after ->
    mail_step s (with_workers (before ++ after)
      (with_deliveries (base.filter (fun d => dl_owner d <> wk_owner w) (ml_deliveries s)) s)).

Definition mail_reachable (s : Mailer) : Prop := exists time, rtc mail_step (empty_mailer time) s.
End Workers.
