(* ===== verification/MailSystem.v ===== *)
(** * The mail worker as a system

    Theorems on [Mail]: what a rendered mail contains; and, for any number of workers that
    start, fail and end anywhere, what is handed over, what becomes of a row, and that mails
    that are due are sent. *)

From S2P Require Import Prelude Contracts Json Programs Tables Checkout Mail.
From stdpp Require Import relations.

Open Scope stdpp_scope.
Open Scope js_scope.
Local Open Scope Z_scope.

(** ** Rendering *)

(** The characters of a kind, in their order. *)
Definition marks (p : ascii -> bool) (s : string) : list ascii := List.filter p (String.list_ascii_of_string s).
Definition is_markup (c : ascii) : bool := existsb (Ascii.eqb c) ["<"%char; ">"%char; "'"%char; quote_mark].

Lemma marks_app p s t : marks p (s +:+ t) = marks p s ++ marks p t.
Proof. unfold marks. induction s as [|c s IH]; cbn; [done|]. rewrite IH. by destruct (p c). Qed.
Lemma marks_none p s : string_forall (fun c => negb (p c)) s = true <-> marks p s = [].
Proof.
  unfold marks. induction s as [|c s IH]; cbn; [done|]. destruct (p c); cbn; [done|exact IH].
Qed.

(** A replacement that keeps the characters of a kind keeps them in the whole text. *)
Lemma marks_replaced p f : (forall s put rest, f s = Some (put, rest) -> marks p put ++ marks p rest = marks p s) ->
  forall s, marks p (replaced f s) = marks p s.
Proof.
  intros Hf s. unfold replaced. generalize (S (String.length s)). intros fuel. revert s.
  induction fuel as [|fuel IH]; intros s; cbn [replace_all]; [done|]. destruct (f s) as [[put rest]|] eqn:E.
  - by rewrite marks_app, IH, (Hf _ _ _ E).
  - destruct s as [|c s]; [done|]. unfold marks in *. cbn. by rewrite IH.
Qed.

Lemma starts_with_split t : forall s, starts_with s t = true -> s = t +:+ string_drop (String.length t) s.
Proof.
  unfold starts_with. induction t as [|c t IH]; intros [|d s]; cbn; try done. destruct (ascii_dec c d) as [->|]; [|done].
  intros H. by rewrite <- IH.
Qed.
Lemma token_at_split s field rest : token_at s = Some (field, rest) -> exists token, (field, token) ∈ emailTemplateTokens /\ s = token +:+ rest.
Proof.
  unfold token_at. intros H%head_Some_elem_of%list_elem_of_omap. destruct H as ([f token] & Hin & H). cbn in H.
  destruct (starts_with s token) eqn:E; [|done]. injection H as -> <-. exists token. split; [done|]. by apply starts_with_split.
Qed.

Lemma marks_interpolate p template data transform : (forall entry, entry ∈ emailTemplateTokens -> marks p entry.2 = []) ->
  (forall value, marks p (transform value) = []) -> marks p (interpolate template data transform) = marks p template.
Proof.
  intros Htokens Hvalues. apply marks_replaced. intros s put rest. destruct (token_at s) as [[field rest']|] eqn:E; [|done].
  intros [= <- <-]. apply token_at_split in E as (token & Hin & ->). rewrite marks_app, Hvalues. apply Htokens in Hin. change (marks p token = []) in Hin. by rewrite Hin.
Qed.

Lemma forall_replace_char (q : ascii -> bool) c text s : string_forall q text = true ->
  string_forall (fun d => q d || Ascii.eqb d c) s = true -> string_forall q (replace_char c text s) = true.
Proof.
  intros Ht. induction s as [|d s IH]; cbn; [done|]. intros [Hd Hs]%andb_prop. destruct (Ascii.eqb d c).
  - rewrite string_forall_app. by rewrite Ht, IH.
  - rewrite orb_false_r in Hd. cbn. by rewrite Hd, IH.
Qed.
Lemma escaped_marks value : marks is_markup (escapeHtml value) = [].
Proof.
  apply marks_none. unfold escapeHtml. do 4 (apply forall_replace_char; [reflexivity|]).
  generalize (replace_char "&"%char "&amp;" value). clear. intros s. induction s as [|c s IH]; [done|]. cbn [string_forall].
  apply andb_true_intro. split; [|exact IH]. unfold is_markup. cbn [existsb].
  by destruct (Ascii.eqb c "<"), (Ascii.eqb c ">"), (Ascii.eqb c "'"), (Ascii.eqb c quote_mark).
Qed.

Lemma forall_drop_while q p s : string_forall q s = true -> string_forall q (drop_while p s) = true.
Proof. induction s as [|c s IH]; cbn; [done|]. intros [H1 H2]%andb_prop. destruct (p c); [by apply IH|]. cbn. by rewrite H1, H2. Qed.
Lemma length_drop_while p s : (String.length (drop_while p s) <= String.length s)%nat.
Proof. induction s as [|c s IH]; cbn; [done|]. destruct (p c); cbn; lia. Qed.
Lemma subject_marks value : marks is_line_break (subjectValue value) = [].
Proof.
  apply marks_none, string_forall_trim. unfold replaced. assert (String.length value < S (String.length value))%nat as Hlen by lia.
  revert Hlen. generalize (S (String.length value)). intros fuel. revert value.
  induction fuel as [|fuel IH]; intros s Hlen; [lia|]. destruct s as [|c s]; [done|]. cbn [replace_all]. cbn in Hlen.
  destruct (is_line_break c) eqn:E.
  - rewrite string_forall_app. cbn [string_forall]. apply IH. cbn. rewrite E. pose proof (length_drop_while is_line_break s). lia.
  - cbn [string_forall]. rewrite E. cbn. apply IH. lia.
Qed.

(** C22: No value gets into the structure of a mail: the brackets and quotes of its HTML are those of
    the compiled template, in their order, and the line breaks of its subject are those of the
    template's subject, whatever the data says. *)
Theorem rendered_mails_inject_nothing compiledEmailTemplates template data mail :
  renderEmail compiledEmailTemplates template data = Ok mail ->
  exists compiled source text html, map_get template compiledEmailTemplates = Some compiled /\
    map_get (variant_of template data).1 compiledEmailTemplates = Some source /\
    map_get (variant_of template data).2 (ct_variants source) = Some (text, html) /\
    marks is_markup (re_html mail) = marks is_markup html /\
    marks is_line_break (re_subject mail) = marks is_line_break (ct_subject compiled).
Proof.
  unfold renderEmail. destruct (variant_of template data) as [source variant]. cbn [fst snd].
  destruct (map_get template compiledEmailTemplates) as [compiled|]; [|done].
  destruct (map_get source compiledEmailTemplates) as [c|]; cbn [mbind option_bind]; [|done]. destruct (map_get variant (ct_variants c)) as [[text html]|] eqn:E; [|done].
  intros [= <-]. exists compiled, c, text, html. do 3 (split; [done|]).
  cbn [re_html re_subject]. split; apply marks_interpolate; try apply escaped_marks; try apply subject_marks.
  - intros entry Hin. repeat (apply elem_of_cons in Hin as [->|Hin]; [reflexivity|]). by apply elem_of_nil in Hin.
  - intros entry Hin. repeat (apply elem_of_cons in Hin as [->|Hin]; [reflexivity|]). by apply elem_of_nil in Hin.
Qed.

Abbreviation mail_of id queue := (map_get (K := string) (V := EmailRow) id queue).

(** ** Rows *)

Section Rows.
Context (config : EmailWorkerConfig).

(** The mail was handed over and taken, with this identifier. *)
Definition answered (handed : list Handover) (id : string) (messageId : option string) : Prop :=
  exists h, h ∈ handed /\ cm_id (hv_mail h) = id /\ hv_answer h = Gave messageId.
Definition unleased (o : EmailRow) : Prop := em_lease_owner o = None /\ em_lease_expires_at o = None.

Definition row_ok (handed : list Handover) (id : string) (o : EmailRow) : Prop :=
  0 <= em_attempts o /\
  match em_status o with
  | MailQueued | MailRetryWait => is_Some (em_payload o) /\ unleased o
  | MailSending => is_Some (em_payload o) /\ is_Some (em_lease_owner o) /\ is_Some (em_lease_expires_at o)
  | MailSent => em_payload o = None /\ unleased o /\ is_Some (em_sent_at o) /\ answered handed id (em_smtp_message_id o)
  | MailDead => is_Some (em_dead_at o) /\ unleased o /\
      (em_last_error_code o = Some "EMAIL_PERMANENT_FAILURE" \/
       em_last_error_code o = Some "EMAIL_ATTEMPTS_EXHAUSTED" /\ em_max_attempts o <= em_attempts o)
  end.

Definition finished (o : EmailRow) : Prop := em_status o = MailSent \/ em_status o = MailDead.
(** How a row changes: what is sent stays, attempts grow, and a finished row stays. *)
Record row_later (o o' : EmailRow) : Prop := {
  rl_template : em_template_key o' = em_template_key o;
  rl_address : em_to_address o' = em_to_address o;
  rl_maximum : em_max_attempts o' = em_max_attempts o;
  rl_attempts : em_attempts o <= em_attempts o';
  rl_payload : em_payload o' = em_payload o \/ em_payload o' = None;
  rl_finished : finished o -> o' = o
}.
#[export] Instance row_later_preorder : PreOrder row_later.
Proof.
  split.
  - intros o. constructor; auto; lia.
  - intros o1 o2 o3 [A1 A2 A3 A4 A5 A6] [B1 B2 B3 B4 B5 B6]. constructor; try congruence; [lia| |].
    + destruct B5 as [->|]; [exact A5|by right].
    + intros Hf. rewrite <- (A6 Hf). apply B6. by rewrite (A6 Hf).
Qed.

Lemma answered_later handed more id messageId : answered handed id messageId -> answered (handed ++ more) id messageId.
Proof. intros (h & H1 & H2). exists h. split; [by apply elem_of_app; left|done]. Qed.
Lemma row_ok_later handed more id o : row_ok handed id o -> row_ok (handed ++ more) id o.
Proof.
  intros [H1 H2]. split; [done|]. destruct (em_status o); try done. destruct H2 as (? & ? & ? & ?).
  split; [done|]. split; [done|]. split; [done|]. by apply answered_later.
Qed.

Lemma recovered_ok handed id now o : row_ok handed id o -> em_status o = MailSending ->
  row_ok handed id (recovered_row now o) /\ row_later o (recovered_row now o).
Proof.
  intros [H1 H2] E. rewrite E in H2. split; [split; [done|]; cbn; by split; [apply H2|]|].
  constructor; cbn; auto; [lia|]. by intros [?|?]; congruence.
Qed.
Lemma claimed_ok handed id owner now lease o : row_ok handed id o -> claimable now o = true ->
  row_ok handed id (claimed_row owner now lease o) /\ row_later o (claimed_row owner now lease o).
Proof.
  unfold claimable, includes. intros [H1 H2] Hc. bools.
  split; [split; [cbn; lia|]; cbn; split; [done|]; split; by eexists|].
  constructor; cbn; auto; [lia|]. intros [E|E]; rewrite E in *; set_solver.
Qed.

Lemma leased_sending handed id o owner : row_ok handed id o -> em_lease_owner o = Some owner -> em_status o = MailSending.
Proof. intros [_ H] E. unfold unleased in H. destruct (em_status o); try done; rewrite E in H; by destruct_and?. Qed.

(** The outcomes, of a row that is held. *)
Lemma sent_ok handed id owner messageId now o : row_ok handed id o -> em_lease_owner o = Some owner ->
  answered handed id messageId -> row_ok handed id (sent_row messageId now o) /\ row_later o (sent_row messageId now o).
Proof.
  intros H E Ha. pose proof (leased_sending _ _ _ _ H E) as Hs. destruct H as [H1 H2]. rewrite Hs in H2.
  split; [split; [done|]; cbn; by repeat split|]. constructor; cbn; auto; [lia|]. intros [?|?]; congruence.
Qed.
Lemma failed_ok handed id owner mail error now random o : row_ok handed id o -> em_lease_owner o = Some owner ->
  cm_attempts mail <= em_attempts o -> em_max_attempts o = cm_max_attempts mail ->
  row_ok handed id (failure_row config mail error now random o) /\ row_later o (failure_row config mail error now random o).
Proof.
  intros H E Hle Hmax. pose proof (leased_sending _ _ _ _ H E) as Hs. destruct H as [H1 H2]. rewrite Hs in H2.
  unfold failure_row. destruct (classifySmtpFailure error); [case_match eqn:Hex; [apply Z.leb_le in Hex|]|];
    (split; [split; [done|]; cbn|constructor; cbn; auto; [lia|intros [?|?]; congruence]]).
  - split; [by eexists|]. split; [done|]. right. split; [done|]. lia.
  - split; [apply H2|done].
  - split; [by eexists|]. split; [done|]. by left.
Qed.
End Rows.

(** ** The queue *)

(** Every row of a queue is in a later one. *)
Definition queue_later (queue queue' : mails) : Prop :=
  forall id o, mail_of id queue = Some o -> exists o', mail_of id queue' = Some o' /\ row_later o o'.
#[export] Instance queue_later_preorder : PreOrder queue_later.
Proof.
  split; [intros q id o H; by exists o|]. intros q1 q2 q3 H12 H23 id o (o2 & H2 & L2)%H12.
  destruct (H23 _ _ H2) as (o3 & H3 & L3). exists o3. split; [done|]. by etransitivity.
Qed.

Definition queue_ok (handed : list Handover) (queue : mails) : Prop :=
  map_ok queue /\ forall id o, mail_of id queue = Some o -> row_ok handed id o.

Lemma update_queue handed queue p f : queue_ok handed queue ->
  (forall id o, mail_of id queue = Some o -> p (id, o) = true -> row_ok handed id (f o) /\ row_later o (f o)) ->
  queue_ok handed (update_where p f queue) /\ queue_later queue (update_where p f queue).
Proof.
  intros [H1 H2] Hf. split; [split; [by apply map_ok_update_where|]|].
  - intros id o'. rewrite (map_get_update_any id p f queue). intros (o & Ho & ->)%fmap_Some. destruct (p (id, o)) eqn:E; [|by apply H2].
    by apply Hf.
  - intros id o Ho. rewrite (map_get_update_any id p f queue), Ho. eexists. split; [done|]. cbn. destruct (p (id, o)) eqn:E; [|done].
    by apply (Hf id).
Qed.

Lemma enqueue_queue handed queue id o : queue_ok handed queue -> map_has id queue = false -> new_mail o ->
  queue_ok handed (queue ++ [(id, o)]) /\ queue_later queue (queue ++ [(id, o)]).
Proof.
  intros [H1 H2] Hn (N1 & N2 & N3 & N4 & N5 & _). split; [split|].
  - rewrite <- (map_set_new id o) by done. by apply map_ok_set.
  - intros id' o'. rewrite map_get_app. destruct (map_get id' queue) as [o2|] eqn:E; [intros [= <-]; by apply H2|]. cbn.
    case_decide; [|done]. intros [= <-]. split; [lia|]. rewrite N1. by split.
  - intros id' o' E. exists o'. by rewrite map_get_app, E.
Qed.

Lemma recover_queue handed now queue : queue_ok handed queue ->
  queue_ok handed (recoverExpiredLeases now queue) /\ queue_later queue (recoverExpiredLeases now queue).
Proof.
  intros H. apply update_queue; [done|]. intros id o Ho Hp. cbn in Hp. bools. apply recovered_ok; [by apply H|done].
Qed.

(** *** Claims *)

Definition claim_key (m : ClaimedEmail) : string * Z := (cm_id m, cm_attempts m).
(** A claimed mail says what its row says. *)
Definition claim_ok (queue : mails) (m : ClaimedEmail) : Prop :=
  exists o, mail_of (cm_id m) queue = Some o /\ em_template_key o = cm_template_key m /\ em_to_address o = cm_to_address m /\
    em_max_attempts o = cm_max_attempts m /\ 1 <= cm_attempts m <= em_attempts o /\
    (em_payload o = Some (cm_payload m) \/ em_payload o = None).
Lemma claim_ok_later queue queue' m : queue_later queue queue' -> claim_ok queue m -> claim_ok queue' m.
Proof.
  intros Hl (o & Ho & H1 & H2 & H3 & H4 & H5). destruct (Hl _ _ Ho) as (o' & Ho' & [L1 L2 L3 L4 L5 _]).
  exists o'. split; [done|]. split; [congruence|]. split; [congruence|]. split; [congruence|]. split; [lia|].
  destruct L5 as [->|]; [done|by right].
Qed.

Lemma batch_gave locked now n queue row : map_ok queue -> row ∈ batch locked now n queue ->
  mail_of row.1 queue = Some row.2 /\ claimable now row.2 = true.
Proof.
  intros Hok Hrow. apply (subseteq_take n), elem_of_js_sort, list_elem_of_filter in Hrow as [[Hc _] Hin].
  split; [|done]. apply map_get_ok; [done|]. by destruct row.
Qed.
Lemma map_ok_sublist {A} (l k : list (string * A)) : l `sublist_of` k -> map_ok k -> map_ok l.
Proof.
  intros Hl Hk. by eapply sublist_NoDup, fmap_sublist.
Qed.
Lemma batch_keys locked now n queue : map_ok queue -> map_ok (batch locked now n queue).
Proof.
  intros Hok. unfold batch. eapply map_ok_sublist; [apply sublist_take|]. unfold map_ok. rewrite js_sort_perm.
  by eapply map_ok_sublist, Hok; apply sublist_filter.
Qed.

Lemma map_get_claims owner now lease (rows : mails) : forall queue, map_ok rows ->
  (forall row, row ∈ rows -> mail_of row.1 queue = Some row.2) -> forall id,
  mail_of id (foldl (fun queue row => update_where (fun r => String.eqb r.1 row.1) (claimed_row owner now lease) queue) queue rows) =
    match mail_of id rows with Some o => Some (claimed_row owner now lease o) | None => mail_of id queue end.
Proof.
  induction rows as [|[k o] rows IH]; intros queue Hok Hin id; cbn [foldl map_get]; [done|].
  apply NoDup_cons in Hok as [Hk Hok]. rewrite IH; [|done|].
  - cbn [fst]. rewrite (map_get_update_where k id). case_decide as E; [|done]. subst.
    rewrite (proj2 (map_get_None k rows) Hk). pose proof (Hin (k, o) ltac:(left)) as Ho. cbn in Ho. by rewrite Ho.
  - intros row Hrow. cbn [fst]. rewrite (map_get_update_where k row.1). rewrite decide_False; [apply Hin; by right|].
    intros E. apply Hk. rewrite <- E. apply list_elem_of_fmap. by exists row.
Qed.
Lemma map_ok_claims owner now lease (rows : mails) : forall queue, map_ok queue ->
  map_ok (foldl (fun queue row => update_where (fun r => String.eqb r.1 row.1) (claimed_row owner now lease) queue) queue rows).
Proof. induction rows as [|row rows IH]; intros queue Hok; cbn; [done|]. by apply IH, map_ok_update_where. Qed.

Lemma claim_queue handed locked owner n lease now queue : queue_ok handed queue ->
  queue_ok handed (claimEmails locked owner n lease now queue).2 /\
  queue_later queue (claimEmails locked owner n lease now queue).2.
Proof.
  intros [H1 H2]. pose proof (map_get_claims owner now lease (batch locked now n queue) queue (batch_keys locked now n queue H1)
    (fun row Hrow => proj1 (batch_gave _ _ _ _ _ H1 Hrow))) as Hget. cbn.
  assert (forall id o, mail_of id (batch locked now n queue) = Some o -> mail_of id queue = Some o /\ claimable now o = true) as Hb.
  { intros id o Ho%map_get_elem. by apply (batch_gave _ _ _ _ _ H1) in Ho. }
  split; [split; [by apply map_ok_claims|]|].
  - intros id o. rewrite Hget. destruct (mail_of id (batch _ _ _ _)) as [o'|] eqn:E; [|by apply H2]. intros [= <-].
    apply Hb in E as [Ho Hc]. by apply claimed_ok; [apply H2|].
  - intros id o Ho. rewrite Hget. destruct (mail_of id (batch _ _ _ _)) as [o'|] eqn:E; [|by exists o].
    apply Hb in E as [Ho' Hc]. eexists. split; [done|]. assert (o' = o) as -> by congruence. by eapply claimed_ok; [apply H2|].
Qed.
Lemma claims_ok handed locked owner n lease now queue m : queue_ok handed queue ->
  m ∈ (claimEmails locked owner n lease now queue).1 -> claim_ok (claimEmails locked owner n lease now queue).2 m /\
  exists o, mail_of (cm_id m) queue = Some o /\ cm_attempts m = em_attempts o + 1.
Proof.
  intros [H1 H2] (row & -> & Hrow)%list_elem_of_fmap. pose proof (batch_gave _ _ _ _ _ H1 Hrow) as [Ho Hc].
  pose proof (proj1 (H2 _ _ Ho)) as Hatt. split; [|exists row.2; split; [done|done]].
  exists (claimed_row owner now lease row.2). split; [|split; [done|split; [done|split; [done|split; [cbn; lia|]]]]].
  - cbn. rewrite map_get_claims; [|by apply batch_keys|by intros r Hr; apply (batch_gave _ _ _ _ _ H1 Hr)].
    rewrite (map_get_ok row.1 row.2); [done|by apply batch_keys|by destruct row].
  - left. cbn. unfold claimable in Hc. bools. destruct (em_payload row.2) as [data|]; [done|]. by match goal with H : is_Some None |- _ => destruct (is_Some_None H) end.
Qed.

(** ** The invariant *)

Section System.
Context (config : EmailWorkerConfig) (compiledEmailTemplates : list (string * CompiledTemplate)).

Definition claims (s : Mailer) : list ClaimedEmail := (dl_mail <$> ml_deliveries s) ++ (hv_mail <$> ml_handed s).
(** Deliveries that have not handed their mail over. *)
Definition is_handing (d : Delivery) : bool := match dl_phase d with Handing => true | _ => false end.
Definition waiting (deliveries : list Delivery) : list ClaimedEmail :=
  dl_mail <$> base.filter (fun d => is_handing d = true) deliveries.
(** The claims that were handed over, or will be. *)
Definition claim_keys (s : Mailer) : list (string * Z) :=
  claim_key <$> (hv_mail <$> ml_handed s) ++ waiting (ml_deliveries s).

Record mailer_ok (s : Mailer) : Prop := {
  mo_queue : queue_ok (ml_handed s) (ml_queue s);
  mo_leases : forall id o w, mail_of id (ml_queue s) = Some o -> em_lease_owner o = Some w -> w ∈ ml_owners s;
  mo_claims : forall m, m ∈ claims s -> claim_ok (ml_queue s) m;
  mo_once : NoDup (claim_keys s);
  mo_rendered : forall h, h ∈ ml_handed s ->
    renderEmail compiledEmailTemplates (cm_template_key (hv_mail h)) (cm_payload (hv_mail h)) = Ok (hv_rendered h);
  mo_answered : forall d messageId, d ∈ ml_deliveries s -> dl_phase d = HandedOver messageId ->
    answered (ml_handed s) (cm_id (dl_mail d)) messageId;
  mo_workers : NoDup (wk_owner <$> ml_workers s) /\ forall w, w ∈ ml_workers s -> wk_owner w ∈ ml_owners s;
  mo_owned : forall d, d ∈ ml_deliveries s -> dl_owner d ∈ wk_owner <$> ml_workers s
}.

(** What a step keeps: rows get later, and what was handed over stays. *)
Record mailer_later (s s' : Mailer) : Prop := {
  mla_queue : queue_later (ml_queue s) (ml_queue s');
  mla_handed : exists more, ml_handed s' = ml_handed s ++ more
}.
#[export] Instance mailer_later_preorder : PreOrder mailer_later.
Proof.
  split.
  - intros s. split; [reflexivity|]. exists []. by rewrite app_nil_r.
  - intros s1 s2 s3 [H1 [m1 E1]] [H2 [m2 E2]]. split; [by etransitivity|]. exists (m1 ++ m2). by rewrite E2, E1, app_assoc.
Qed.

Lemma queue_ok_later handed more queue : queue_ok handed queue -> queue_ok (handed ++ more) queue.
Proof. intros [H1 H2]. split; [done|]. intros id o Ho. by apply row_ok_later, H2. Qed.

(** A step on the queue alone, that gives no new leases. *)
Lemma queue_step s queue : mailer_ok s -> queue_ok (ml_handed s) queue /\ queue_later (ml_queue s) queue ->
  (forall id o w, mail_of id queue = Some o -> em_lease_owner o = Some w -> w ∈ ml_owners s) ->
  mailer_ok (with_queue queue s) /\ mailer_later s (with_queue queue s).
Proof.
  intros [M1 M2 M3 M4 M5 M6 M7 M8] [Hq Hl] Ho. split; [|split; [done|exists []; by rewrite app_nil_r]].
  constructor; try done. intros m Hm. by eapply claim_ok_later, M3.
Qed.

Lemma updated_leases (owners : list string) (queue : mails) p f :
  (forall id o w, mail_of id queue = Some o -> em_lease_owner o = Some w -> w ∈ owners) ->
  (forall o, em_lease_owner (f o) = None) ->
  forall id o w, mail_of id (update_where p f queue) = Some o -> em_lease_owner o = Some w -> w ∈ owners.
Proof.
  intros H Hf id o w. rewrite (map_get_update_any id p f queue). intros (o' & Ho & ->)%fmap_Some.
  destruct (p (id, o')); [|by eapply H]. by rewrite Hf.
Qed.

(** Recording an outcome. *)
Lemma record_step s d now random : mailer_ok s -> d ∈ ml_deliveries s ->
  mailer_ok (with_queue (record_outcome config now random d (ml_queue s)) s) /\
  mailer_later s (with_queue (record_outcome config now random d (ml_queue s)) s).
Proof.
  intros Hok Hd. assert (claim_ok (ml_queue s) (dl_mail d)) as (o0 & Hrow & _ & _ & Hmax & Hatt & _).
  { apply (mo_claims _ Hok), elem_of_app. left. apply list_elem_of_fmap. by exists d. }
  apply queue_step; [done|..]; unfold record_outcome; destruct (dl_phase d) as [|messageId|error] eqn:Hp.
  - split; [apply Hok|reflexivity].
  - apply update_queue; [apply Hok|]. intros id o Ho Hw. unfold owned in Hw. cbn in Hw. bools.
    match goal with H : String.eqb _ _ = true |- _ => apply String.eqb_eq in H as -> end.
    eapply sent_ok; [by apply (mo_queue _ Hok)|done|by apply (mo_answered _ Hok)].
  - apply update_queue; [apply Hok|]. intros id o Ho Hw. unfold owned in Hw. cbn in Hw. bools.
    match goal with H : String.eqb _ _ = true |- _ => apply String.eqb_eq in H as -> end.
    assert (o0 = o) as -> by congruence. eapply failed_ok; [by apply (mo_queue _ Hok)|done|lia|done].
  - apply Hok.
  - apply updated_leases; [apply Hok|done].
  - apply updated_leases; [apply Hok|]. intros o. unfold failure_row. by destruct (classifySmtpFailure _); [case_match|].
Qed.

Lemma same_later s s' : ml_queue s' = ml_queue s -> ml_handed s' = ml_handed s -> mailer_later s s'.
Proof. intros Hq Hh. split; [by rewrite Hq|]. exists []. by rewrite app_nil_r. Qed.

Lemma later_as s s1 s2 : mailer_later s s1 -> ml_queue s2 = ml_queue s1 -> ml_handed s2 = ml_handed s1 -> mailer_later s s2.
Proof. intros [H1 H2] Hq Hh. split; [by rewrite Hq|by rewrite Hh]. Qed.

Lemma failing_step d s : mailer_ok s -> mailer_ok (failing d s).
Proof. by intros [M1 M2 M3 M4 M5 M6 M7 M8]. Qed.

Lemma workers_step s workers : mailer_ok s -> wk_owner <$> workers = wk_owner <$> ml_workers s ->
  mailer_ok (with_workers workers s).
Proof.
  intros [M1 M2 M3 M4 M5 M6 [M7 M7'] M8] Hw. constructor; try done.
  - cbn. rewrite Hw. split; [done|]. intros w Hin. assert (wk_owner w ∈ wk_owner <$> ml_workers s) as (w' & -> & Hin')%list_elem_of_fmap.
    { rewrite <- Hw. apply list_elem_of_fmap. by exists w. }
    by apply M7'.
  - cbn. by rewrite Hw.
Qed.
Lemma same_worker before w w' after : wk_owner w' = wk_owner w ->
  wk_owner <$> before ++ w' :: after = wk_owner <$> before ++ w :: after.
Proof. intros E. by rewrite !fmap_app, !fmap_cons, E. Qed.

Lemma waiting_sublist l k : l `sublist_of` k -> waiting l `sublist_of` waiting k.
Proof.
  intros H. apply fmap_sublist. induction H as [|d l k _ IH|d l k _ IH]; [done| |]; rewrite ?filter_cons; case_decide; try done;
    by constructor.
Qed.
(** Deliveries that are given up. *)
Lemma fewer_deliveries s deliveries : mailer_ok s -> deliveries `sublist_of` ml_deliveries s ->
  mailer_ok (with_deliveries deliveries s).
Proof.
  intros [M1 M2 M3 M4 M5 M6 M7 M8] Hsub. assert (forall d, d ∈ deliveries -> d ∈ ml_deliveries s) as Hin
    by (intros d; by apply sublist_subseteq).
  constructor; try done.
  - intros m [(d & -> & Hd)%list_elem_of_fmap|Hm]%elem_of_app; apply M3, elem_of_app; [left|by right].
    apply list_elem_of_fmap. exists d. auto.
  - eapply sublist_NoDup; [exact M4|]. unfold claim_keys, waiting. cbn. rewrite !fmap_app. apply sublist_app; [done|].
    by apply fmap_sublist, waiting_sublist.
  - intros d messageId Hd. apply M6. by apply Hin.
  - intros d Hd. by apply M8, Hin.
Qed.

Lemma waiting_new owner (claimed : list ClaimedEmail) :
  waiting ((fun mail => {| dl_owner := owner; dl_mail := mail; dl_phase := Handing |}) <$> claimed) = claimed.
Proof.
  induction claimed as [|m l IH]; [done|]. unfold waiting in *. cbn [fmap list_fmap]. rewrite filter_cons.
  rewrite decide_True by done. cbn [fmap list_fmap]. by rewrite IH.
Qed.
Lemma waiting_cons d l : waiting (d :: l) = if is_handing d then dl_mail d :: waiting l else waiting l.
Proof. unfold waiting. rewrite filter_cons. by destruct (is_handing d). Qed.
Lemma waiting_app l k : waiting (l ++ k) = waiting l ++ waiting k.
Proof. unfold waiting. by rewrite filter_app, fmap_app. Qed.
Lemma waiting_claims s m : m ∈ (hv_mail <$> ml_handed s) ++ waiting (ml_deliveries s) -> m ∈ claims s.
Proof.
  intros [Hm|(d & -> & [_ Hd]%list_elem_of_filter)%list_elem_of_fmap]%elem_of_app; apply elem_of_app; [by right|left].
  apply list_elem_of_fmap. by exists d.
Qed.

(** New deliveries, for the claims of a transaction. *)
Lemma claim_step s w locked now : mailer_ok s -> w ∈ ml_workers s ->
  let claimed := claimEmails locked (wk_owner w) (EMAIL_WORKER_BATCH_SIZE config) (EMAIL_WORKER_LEASE_SECONDS config) now (ml_queue s) in
  let s' := with_deliveries (ml_deliveries s ++
      ((fun mail => {| dl_owner := wk_owner w; dl_mail := mail; dl_phase := Handing |}) <$> claimed.1)) (with_queue claimed.2 s) in
  mailer_ok s' /\ mailer_later s s'.
Proof.
  intros Hok Hw claimed s'. destruct (claim_queue _ locked (wk_owner w) (EMAIL_WORKER_BATCH_SIZE config)
    (EMAIL_WORKER_LEASE_SECONDS config) now _ (mo_queue _ Hok)) as [Hq Hl].
  assert (forall m, m ∈ claimed.1 -> claim_ok claimed.2 m /\ exists o, mail_of (cm_id m) (ml_queue s) = Some o /\ cm_attempts m = em_attempts o + 1)
    as Hnew by (intros m; by apply claims_ok with (handed := ml_handed s), mo_queue).
  split; [|split; [exact Hl|by exists []; rewrite app_nil_r]]. destruct Hok as [M1 M2 M3 M4 M5 M6 M7 M8]. constructor; try done.
  - intros id o v. cbn. rewrite map_get_claims; [|by apply batch_keys, M1|by intros r Hr; apply (batch_gave _ _ _ _ _ (proj1 M1) Hr)].
    destruct (mail_of id (batch _ _ _ _)); [|by apply M2]. intros [= <-] [= <-]. by apply M7.
  - intros m [(d & -> & [Hd|(m' & -> & Hm)%list_elem_of_fmap]%elem_of_app)%list_elem_of_fmap|Hm]%elem_of_app.
    + eapply claim_ok_later; [exact Hl|]. apply M3, elem_of_app. left. apply list_elem_of_fmap. by exists d.
    + by apply Hnew.
    + eapply claim_ok_later; [exact Hl|]. apply M3, elem_of_app. by right.
  - unfold claim_keys. cbn [ml_handed ml_deliveries s' with_deliveries with_queue]. rewrite waiting_app, waiting_new, app_assoc, fmap_app.
    apply NoDup_app. split; [exact M4|]. split.
    + intros key (m & -> & Hm)%list_elem_of_fmap (m' & E & Hm')%list_elem_of_fmap. injection E as Eid Eatt.
      destruct (M3 m) as (o & Ho & _ & _ & _ & Hle & _); [by apply waiting_claims|].
      destruct (Hnew _ Hm') as [_ (o' & Ho' & Hatt)]. rewrite <- Eid in Ho'. assert (o' = o) as -> by congruence. lia.
    + apply (NoDup_fmap_1 fst). rewrite <- list_fmap_compose. unfold claimed, claimEmails. cbn. rewrite <- list_fmap_compose.
      apply batch_keys, M1.
  - intros d messageId [Hd|(m & -> & Hm)%list_elem_of_fmap]%elem_of_app; [by apply M6|done].
  - intros d [Hd|(m & -> & Hm)%list_elem_of_fmap]%elem_of_app; [by apply M8|]. cbn. apply list_elem_of_fmap. by exists w.
Qed.

Lemma hand_over_gave decrypted answer d :
  ((hand_over compiledEmailTemplates decrypted answer d).2 = [] /\
     exists error, (hand_over compiledEmailTemplates decrypted answer d).1 = Failing error) \/
  exists rendered, renderEmail compiledEmailTemplates (cm_template_key (dl_mail d)) (cm_payload (dl_mail d)) = Ok rendered /\
    (hand_over compiledEmailTemplates decrypted answer d).2 =
      [{| hv_owner := dl_owner d; hv_mail := dl_mail d; hv_rendered := rendered; hv_answer := answer |}] /\
    (hand_over compiledEmailTemplates decrypted answer d).1 =
      match answer with Gave messageId => HandedOver messageId | Threw error => Failing error end.
Proof.
  unfold hand_over. destruct decrypted; [left; split; [done|by eexists]|].
  destruct (renderEmail _ _ _) as [rendered|] eqn:E; [right; by exists rendered|left; split; [done|by eexists]].
Qed.

Lemma hand_step s before d after decrypted answer : mailer_ok s -> ml_deliveries s = before ++ d :: after -> dl_phase d = Handing ->
  let handed := hand_over compiledEmailTemplates decrypted answer d in
  let s' := with_deliveries (before ++ {| dl_owner := dl_owner d; dl_mail := dl_mail d; dl_phase := handed.1 |} :: after)
              (handing handed.2 s) in
  mailer_ok s' /\ mailer_later s s'.
Proof.
  intros [M1 M2 M3 M4 M5 M6 M7 M8] Hd Hp handed s'.
  pose proof (hand_over_gave decrypted answer d) as Hcase. fold handed in Hcase.
  assert (handed.1 <> Handing) as Hnot by (destruct Hcase as [[_ [e ->]]|(r & _ & _ & ->)]; [done|by destruct answer]).
  assert (forall d', d' ∈ ml_deliveries s' -> d' ∈ ml_deliveries s \/ d' = {| dl_owner := dl_owner d; dl_mail := dl_mail d; dl_phase := handed.1 |})
    as Hds by (intros d'; rewrite Hd; cbn; rewrite !elem_of_app, !elem_of_cons; tauto).
  assert (d ∈ ml_deliveries s) as Hin by (rewrite Hd; apply elem_of_app; right; left).
  assert (forall h, h ∈ handed.2 -> hv_mail h = dl_mail d /\ handed.2 = [h] /\
    renderEmail compiledEmailTemplates (cm_template_key (hv_mail h)) (cm_payload (hv_mail h)) = Ok (hv_rendered h)) as Hh.
  { destruct Hcase as [[-> _]|(r & Hr & -> & _)]; [by intros h ?%elem_of_nil|]. by intros h ->%list_elem_of_singleton. }
  split; [|split; [done|by eexists]]. constructor; cbn [ml_queue ml_handed ml_workers ml_owners s' with_deliveries handing]; try done.
  - by apply queue_ok_later.
  - intros m [(d' & -> & [Hd'| ->]%Hds)%list_elem_of_fmap|(h & -> & [Hm|Hm]%elem_of_app)%list_elem_of_fmap]%elem_of_app; apply M3, elem_of_app.
    + left. apply list_elem_of_fmap. by exists d'.
    + left. apply list_elem_of_fmap. by exists d.
    + right. apply list_elem_of_fmap. by exists h.
    + destruct (Hh _ Hm) as [-> _]. left. apply list_elem_of_fmap. by exists d.
  - unfold claim_keys in *. cbn [ml_handed ml_deliveries s' with_deliveries handing]. rewrite Hd in M4.
    assert (waiting (before ++ d :: after) ≡ₚ dl_mail d :: waiting (before ++ after)) as Hw1.
    { rewrite !waiting_app, waiting_cons. unfold is_handing. rewrite Hp. by rewrite <- Permutation_middle. }
    assert (waiting (before ++ {| dl_owner := dl_owner d; dl_mail := dl_mail d; dl_phase := handed.1 |} :: after) = waiting (before ++ after)) as Hw2.
    { rewrite !waiting_app, waiting_cons. unfold is_handing. cbn. by destruct handed.1. }
    rewrite Hw2. rewrite Hw1 in M4. destruct Hcase as [[E _]|(r & _ & E & _)]; rewrite E; cbn [fmap list_fmap].
    + rewrite app_nil_r. eapply sublist_NoDup; [exact M4|]. apply fmap_sublist, sublist_app; [done|]. by constructor.
    + rewrite (fmap_app hv_mail), <- app_assoc. exact M4.
  - intros h [Hm|Hm]%elem_of_app; [by apply M5|by apply Hh].
  - intros d' messageId [Hd'| ->]%Hds Hp'; [by apply answered_later, (M6 d')|]. cbn in Hp' |- *.
    destruct Hcase as [[_ [e He]]|(r & _ & E2 & E1)]; [congruence|]. destruct answer as [mid|e]; [|congruence].
    eexists. split; [rewrite E2; apply elem_of_app; right; left|]. cbn. split; [done|]. congruence.
  - intros d' [Hd'| ->]%Hds; [by apply M8|]. by apply (M8 d).
Qed.

Lemma fail_step s before d after error : mailer_ok s -> ml_deliveries s = before ++ d :: after -> dl_phase d <> Handing ->
  mailer_ok (with_deliveries (before ++ {| dl_owner := dl_owner d; dl_mail := dl_mail d; dl_phase := Failing error |} :: after) s).
Proof.
  intros [M1 M2 M3 M4 M5 M6 M7 M8] Hd Hp.
  set (d2 := {| dl_owner := dl_owner d; dl_mail := dl_mail d; dl_phase := Failing error |}).
  assert (forall d', d' ∈ before ++ d2 :: after -> d' ∈ ml_deliveries s \/ d' = d2)
    as Hds by (intros d'; rewrite Hd, !elem_of_app, !elem_of_cons; tauto).
  assert (d ∈ ml_deliveries s) as Hin by (rewrite Hd; apply elem_of_app; right; left).
  constructor; try done.
  - intros m [(d' & -> & [Hd'| ->]%Hds)%list_elem_of_fmap|Hm]%elem_of_app; apply M3, elem_of_app; [left|left|by right];
      apply list_elem_of_fmap; [by exists d'|by exists d].
  - unfold claim_keys in *. cbn [ml_handed ml_deliveries with_deliveries]. rewrite Hd, waiting_app, waiting_cons in M4.
    rewrite waiting_app, waiting_cons. unfold is_handing in *. cbn [d2 dl_phase]. by destruct (dl_phase d).
  - intros d' messageId [Hd'| ->]%Hds; [by apply M6|done].
  - intros d' [Hd'| ->]%Hds; [by apply M8|]. by apply (M8 d).
Qed.

Lemma rejects_owners owner workers : wk_owner <$> rejects owner workers = wk_owner <$> workers.
Proof. unfold rejects. rewrite <- list_fmap_compose. apply list_fmap_ext. intros i w _. cbn. by case_match. Qed.
Lemma in_middle {A} (before after : list A) x l : l = before ++ x :: after -> x ∈ l.
Proof. intros ->. apply elem_of_app. right. by left. Qed.
Lemma without_middle {A} (before after : list A) x l : l = before ++ x :: after -> before ++ after `sublist_of` l.
Proof. intros ->. apply sublist_app; [done|]. by constructor. Qed.

Lemma step_ok s s' : mailer_ok s -> mail_step config compiledEmailTemplates s s' -> mailer_ok s' /\ mailer_later s s'.
Proof.
  intros Hok [time Ht|id o Hn Ho|owner Hfresh|before w after now Hw Hr Ht|before w after locked now Hw Ha Ht claimed
    |before d after decrypted answer Hd Hp handed|before d after now random Hd Hp Ht Hrand
    |before d after error applied now random Hd Hp Ht Hrand s1|before w after Hw Hr|before w after Hw].
  - destruct Hok. split; [by constructor|by apply same_later].
  - apply queue_step; [done|by apply enqueue_queue; [apply Hok|..]|]. intros id' o' v. rewrite map_get_app.
    destruct (mail_of id' (ml_queue s)) eqn:E; [intros [= <-]; by apply (mo_leases _ Hok id')|]. cbn. case_decide; [|done].
    intros [= <-]. destruct Ho as (_ & _ & _ & -> & _). done.
  - destruct Hok as [M1 M2 M3 M4 M5 M6 [M7 M7'] M8]. split; [|by apply same_later]. constructor; try done; cbn.
    + intros id o v H1 H2. right. by eapply M2.
    + rewrite fmap_app. split; [|intros w [Hw| ->%list_elem_of_singleton]%elem_of_app; [right; by apply M7'|by left]].
      apply NoDup_app. split; [done|]. split; [|apply NoDup_singleton]. intros v (w & -> & Hw)%list_elem_of_fmap H%list_elem_of_singleton.
      apply Hfresh. cbn in H. rewrite <- H. by apply M7'.
    + intros d Hd. rewrite fmap_app. apply elem_of_app. left. by apply M8.
  - destruct (queue_step s (recoverExpiredLeases now (ml_queue s)) Hok) as [H1 H2]; [apply recover_queue, Hok|by apply updated_leases; [apply Hok|]|].
    split; [|by eapply later_as]. apply workers_step; [done|]. cbn. rewrite Hw. by apply same_worker.
  - destruct (claim_step s w locked now Hok) as [H1 H2]; [by eapply in_middle|]. split; [|by eapply later_as].
    apply workers_step; [exact H1|]. cbn. rewrite Hw. by apply same_worker.
  - destruct (hand_step s before d after decrypted answer Hok Hd Hp) as [H1 H2].
    split; [by apply failing_step|by eapply later_as].
  - destruct (record_step s d now random Hok) as [H1 H2]; [by eapply in_middle|]. split; [|by eapply later_as].
    apply fewer_deliveries; [exact H1|]. by eapply without_middle.
  - assert (mailer_ok s1 /\ mailer_later s s1 /\ ml_deliveries s1 = ml_deliveries s /\ ml_workers s1 = ml_workers s) as (H1 & H2 & E & Ew).
    { unfold s1. destruct applied; [|done]. destruct (record_step s d now random Hok) as [H1 H2]; [by eapply in_middle|done]. }
    rewrite <- E in Hd. destruct (outcome_lost error d) as [d'|] eqn:Ed.
    + unfold outcome_lost in Ed. destruct (dl_phase d) eqn:Hph; [done| |done]. injection Ed as <-.
      split; [apply failing_step, fail_step; [done|done|by rewrite Hph]|by eapply later_as].
    + split; [|by eapply later_as]. apply fewer_deliveries; [|by eapply without_middle]. apply workers_step; [done|]. rewrite Ew. apply rejects_owners.
  - split; [|by apply same_later]. apply workers_step; [done|]. rewrite Hw. by apply same_worker.
  - split; [|by apply same_later]. destruct (fewer_deliveries s _ Hok (sublist_filter (fun d => dl_owner d <> wk_owner w) _))
      as [M1 M2 M3 M4 M5 M6 [M7 M7'] M8].
    cbn in M7, M7', M8. constructor; try done; cbn.
    + rewrite Hw in M7, M7'. split; [eapply sublist_NoDup; [exact M7|]; apply fmap_sublist; by eapply without_middle|].
      intros v Hv. apply M7'. apply elem_of_app in Hv as [Hv|Hv]; apply elem_of_app; [by left|right; by right].
    + intros d Hd. specialize (M8 d Hd). apply list_elem_of_filter in Hd as [Hne _]. rewrite Hw, fmap_app, fmap_cons in M8.
      rewrite fmap_app. set_solver.
Qed.

Lemma reachable_mailer_ok s : mail_reachable config compiledEmailTemplates s -> mailer_ok s.
Proof.
  intros [time Hs]. assert (mailer_ok (empty_mailer time)) as H0.
  { constructor; cbn; try by intros ? ?%elem_of_nil.
    - split; [constructor|by intros].
    - done.
    - constructor.
    - by intros d mid ?%elem_of_nil.
    - split; [constructor|by intros ? ?%elem_of_nil]. }
  revert H0. induction Hs as [s|s1 s2 s3 Hstep _ IH]; [done|]. intros H. apply IH. by eapply step_ok.
Qed.
Lemma steps_later s s' : mailer_ok s -> rtc (mail_step config compiledEmailTemplates) s s' -> mailer_later s s'.
Proof.
  intros H Hs. revert H. induction Hs as [s|s1 s2 s3 Hstep _ IH]; intros H; [reflexivity|].
  destruct (step_ok _ _ H Hstep) as [H2 Hl]. etransitivity; [exact Hl|by apply IH].
Qed.

(** *** Errors *)

(** What is tried again: an answer of 4xx, or without such an answer a failed connection. *)
Definition transient (error : SmtpError) : Prop :=
  (exists code, se_responseCode error = Some code /\ 400 <= code < 500) \/
  ((forall code, se_responseCode error = Some code -> code < 400) /\
   exists code, se_code error = Some code /\ code ∈ ["ETIMEDOUT"; "ECONNECTION"; "ECONNRESET"; "ESOCKET"; "ETLS"]).

Lemma classify_transient error : classifySmtpFailure error = Retry <-> transient error.
Proof.
  unfold classifySmtpFailure, transient, includes. destruct error as [rc code message]. cbn.
  assert (bool_decide (coalesce_to code "" ∈ ["ETIMEDOUT"; "ECONNECTION"; "ECONNRESET"; "ESOCKET"; "ETLS"]) = true <->
    exists c, code = Some c /\ c ∈ ["ETIMEDOUT"; "ECONNECTION"; "ECONNRESET"; "ESOCKET"; "ETLS"]) as Hc.
  { rewrite bool_decide_eq_true. destruct code as [c|]; cbn; [naive_solver|]. split; [|by intros (c & [=] & _)].
    intros Hin. by repeat (apply elem_of_cons in Hin as [Hin|Hin]; [discriminate Hin|]); apply elem_of_nil in Hin. }
  destruct rc as [n|]; cbn.
  - destruct (Z.leb_spec 500 n), (Z.leb_spec 400 n); try lia.
    + split; [done|]. intros [(k & [= <-] & ?)|[Hk _]]; [lia|]. specialize (Hk n eq_refl). lia.
    + split; [|done]. intros _. left. exists n. split; [done|lia].
    + destruct (bool_decide _); [split; [|done]; intros _; right|split; [done|]].
      * split; [by intros k [= <-]|by apply Hc].
      * intros [(k & [= <-] & ?)|[_ Hin%Hc]]; [lia|done].
  - destruct (bool_decide _); [split; [|done]; intros _; right|split; [done|]].
    + split; [done|by apply Hc].
    + intros [(k & [=] & _)|[_ Hin%Hc]]; done.
Qed.

(** Why a row was given up: an attempt to deliver it ended in the error it names, which is
    not to be tried again, or is, in an attempt that was its last. *)
Definition gave_up (errors : list (ClaimedEmail * SmtpError)) (id : string) (o : EmailRow) : Prop :=
  exists m error, (m, error) ∈ errors /\ cm_id m = id /\ em_last_error_message o = Some (sanitizeError (se_message error)) /\
    ((em_last_error_code o = Some "EMAIL_PERMANENT_FAILURE" /\ ~ transient error) \/
     (em_last_error_code o = Some "EMAIL_ATTEMPTS_EXHAUSTED" /\ transient error /\
      em_max_attempts o <= cm_attempts m <= em_attempts o)).

Record deaths_ok (s : Mailer) : Prop := {
  da_failing : forall d error, d ∈ ml_deliveries s -> dl_phase d = Failing error -> (dl_mail d, error) ∈ ml_errors s;
  da_dead : forall id o, mail_of id (ml_queue s) = Some o -> em_status o = MailDead -> gave_up (ml_errors s) id o
}.

Lemma gave_up_later errors more id o : gave_up errors id o -> gave_up (errors ++ more) id o.
Proof. intros (m & e & Hin & H). exists m, e. split; [apply elem_of_app; by left|done]. Qed.

Lemma updated_deaths errors (queue : mails) p f :
  (forall id o, mail_of id queue = Some o -> em_status o = MailDead -> gave_up errors id o) ->
  (forall id o, mail_of id queue = Some o -> p (id, o) = true -> em_status (f o) = MailDead -> gave_up errors id (f o)) ->
  forall id o, mail_of id (update_where p f queue) = Some o -> em_status o = MailDead -> gave_up errors id o.
Proof.
  intros H Hf id o. rewrite (map_get_update_any id p f queue). intros (o' & Ho & ->)%fmap_Some.
  destruct (p (id, o')) eqn:Hp; [by eapply Hf|by eapply H].
Qed.

Lemma recorded_deaths s d now random : mailer_ok s -> deaths_ok s -> d ∈ ml_deliveries s ->
  forall id o, mail_of id (record_outcome config now random d (ml_queue s)) = Some o -> em_status o = MailDead ->
    gave_up (ml_errors s) id o.
Proof.
  intros Hok [Hf Hdead] Hd. unfold record_outcome. destruct (dl_phase d) as [|messageId|error] eqn:Hp; [done|..];
    apply updated_deaths; try done. intros id o Ho Hw Hst. unfold owned in Hw. cbn in Hw. bools.
  match goal with H : String.eqb _ _ = true |- _ => apply String.eqb_eq in H as -> end.
  assert (claim_ok (ml_queue s) (dl_mail d)) as (o' & Ho' & _ & _ & Hmax & Hatt & _).
  { apply (mo_claims _ Hok), elem_of_app. left. apply list_elem_of_fmap. by exists d. }
  assert (o' = o) as -> by congruence. exists (dl_mail d), error. split; [by apply Hf|]. split; [done|].
  unfold failure_row in *. destruct (classifySmtpFailure error) eqn:Hc.
  - destruct (Z.leb_spec (cm_max_attempts (dl_mail d)) (cm_attempts (dl_mail d))); [|done].
    split; [done|]. right. split; [done|]. split; [by apply classify_transient|]. cbn. lia.
  - split; [done|]. left. split; [done|]. intros Ht%classify_transient. congruence.
Qed.

Lemma claimed_deaths s w locked now : mailer_ok s -> deaths_ok s ->
  forall id o, mail_of id (claimEmails locked (wk_owner w) (EMAIL_WORKER_BATCH_SIZE config)
    (EMAIL_WORKER_LEASE_SECONDS config) now (ml_queue s)).2 = Some o -> em_status o = MailDead -> gave_up (ml_errors s) id o.
Proof.
  intros Hok [_ Hdead] id o. unfold claimEmails. cbn [snd]. rewrite map_get_claims;
    [|by apply batch_keys, Hok|by intros r Hr; apply (batch_gave _ _ _ _ _ (proj1 (mo_queue _ Hok)) Hr)].
  destruct (mail_of id (batch _ _ _ _)); [|by apply Hdead]. by intros [= <-].
Qed.

Lemma deaths_step s s' : mailer_ok s -> deaths_ok s -> mail_step config compiledEmailTemplates s s' -> deaths_ok s'.
Proof.
  intros Hok Hda. pose proof Hda as [Hf Hdead].
  assert (forall d before after (x : Delivery), ml_deliveries s = before ++ d :: after ->
    forall d' error, d' ∈ before ++ x :: after -> dl_phase d' = Failing error -> d' = x \/ (dl_mail d', error) ∈ ml_errors s) as Hput.
  { intros d before after x Hd d' error [Hin|[->|Hin]%elem_of_cons]%elem_of_app Hp; [right|by left|right]; apply Hf; try done;
      rewrite Hd; apply elem_of_app; [by left|right; by right]. }
  assert (forall before d after, ml_deliveries s = before ++ d :: after -> forall d' error, d' ∈ before ++ after ->
    dl_phase d' = Failing error -> (dl_mail d', error) ∈ ml_errors s) as Hless.
  { intros before d after Hd d' error Hin Hp. apply Hf; [|done]. rewrite Hd. set_solver. }
  intros [time Ht|id o Hn Ho|owner Hfresh|before w after now Hw Hr Ht|before w after locked now Hw Ha Ht claimed
    |before d after decrypted answer Hd Hp handed d2|before d after now random Hd Hp Ht Hrand
    |before d after error applied now random Hd Hp Ht Hrand s1|before w after Hw Hr|before w after Hw]; try done.
  - constructor; cbn; [done|]. intros id' o'. rewrite map_get_app.
    destruct (mail_of id' (ml_queue s)) eqn:E; [intros [= <-]; by apply Hdead|]. cbn. case_decide; [|done].
    intros [= <-]. by destruct Ho as (-> & _).
  - constructor; cbn; [done|]. by apply updated_deaths.
  - constructor; cbn; [|by apply claimed_deaths].
    intros d error [Hd|(m & -> & _)%list_elem_of_fmap]%elem_of_app; [by apply Hf|done].
  - constructor; cbn; [|intros id o Ho Hs; by apply gave_up_later, Hdead].
    intros d' error Hin Hph. apply elem_of_app.
    destruct (Hput d before after d2 Hd d' error Hin Hph) as [->|]; [right|by left]. cbn in Hph. rewrite Hph. left.
  - constructor; cbn; [by eapply Hless|]. apply recorded_deaths; [done..|]. by eapply in_middle.
  - assert (ml_deliveries s1 = ml_deliveries s /\ ml_errors s1 = ml_errors s /\
      forall id o, mail_of id (ml_queue s1) = Some o -> em_status o = MailDead -> gave_up (ml_errors s) id o) as (E1 & E2 & E3).
    { unfold s1. destruct applied; [|done]. do 2 (split; [done|]). apply recorded_deaths; [done..|]. by eapply in_middle. }
    destruct (outcome_lost error d) as [d'|] eqn:El; (constructor; cbn; [|rewrite E2]).
    + intros d2 e Hin Hph. rewrite E2. apply elem_of_app.
      destruct (Hput d before after d' Hd d2 e Hin Hph) as [->|]; [right|by left]. rewrite Hph. left.
    + intros id o Ho Hs. by apply gave_up_later, E3.
    + rewrite E2. by eapply Hless.
    + done.
  - constructor; cbn; [|done]. intros d error [_ Hd]%list_elem_of_filter. by apply Hf.
Qed.

Lemma reachable_deaths s : mail_reachable config compiledEmailTemplates s -> deaths_ok s.
Proof.
  intros [time Hs]. pose proof (reachable_mailer_ok (empty_mailer time) (ex_intro _ time (rtc_refl _ _))) as Hok.
  assert (deaths_ok (empty_mailer time)) as H0 by (constructor; [by intros d error ?%elem_of_nil|done]).
  revert Hok H0. induction Hs as [s|s1 s2 s3 Hstep _ IH]; [done|]. intros Hok H.
  apply IH; [by eapply step_ok|by eapply deaths_step].
Qed.

(** *** Counting *)

(** How often a mail was handed over. *)
Definition handed_over (id : string) (s : Mailer) : list Handover :=
  base.filter (fun h => cm_id (hv_mail h) = id) (ml_handed s).

Lemma numbers_bounded (l : list Z) n : NoDup l -> (forall k, k ∈ l -> 1 <= k <= n) -> Z.of_nat (length l) <= Z.max 0 n.
Proof.
  intros Hd Hin. assert (l ⊆+ seqZ 1 n) as Hsub.
  { apply NoDup_submseteq; [done|]. intros k Hk. apply elem_of_seqZ. specialize (Hin _ Hk). lia. }
  apply submseteq_length in Hsub. rewrite length_seqZ in Hsub. lia.
Qed.

(** C13: In every state the workers reach, however many there are and wherever they fail or end: a mail
    that was given to the mail server is the one that was queued, to its address, rendered from
    its template and data; each claim of a mail gives it to the server at most once, so that it
    was sent no more often than the attempts its row counts; a row that is sent was taken by
    the server under the identifier it names and has no payload any more; and for a row that was
    given up there was an attempt to deliver it that ended in an error with the message the row
    names, and either this error is one that is not tried again (no answer of 4xx and no failed
    connection), or it is and this attempt was the last one allowed.  The error need not be an
    answer of the mail server: it may come from the decryption, from the rendering, or from
    the database after the server had taken the mail ([sent_mails_count_as_failures]). *)
Theorem mails_are_handed_over_as_queued s : mail_reachable config compiledEmailTemplates s ->
  (forall h, h ∈ ml_handed s -> exists o, mail_of (cm_id (hv_mail h)) (ml_queue s) = Some o /\
    cm_to_address (hv_mail h) = em_to_address o /\ cm_template_key (hv_mail h) = em_template_key o /\
    (em_payload o = Some (cm_payload (hv_mail h)) \/ em_payload o = None) /\
    renderEmail compiledEmailTemplates (em_template_key o) (cm_payload (hv_mail h)) = Ok (hv_rendered h)) /\
  NoDup ((fun h => (cm_id (hv_mail h), cm_attempts (hv_mail h))) <$> ml_handed s) /\
  (forall id o, mail_of id (ml_queue s) = Some o ->
     Z.of_nat (length (handed_over id s)) <= em_attempts o /\
     (em_status o = MailSent -> em_payload o = None /\ is_Some (em_sent_at o) /\
        exists h, h ∈ ml_handed s /\ cm_id (hv_mail h) = id /\ hv_answer h = Gave (em_smtp_message_id o)) /\
     (em_status o = MailDead -> is_Some (em_dead_at o) /\ gave_up (ml_errors s) id o)).
Proof.
  intros Hs. pose proof (reachable_deaths _ Hs) as Hdeaths. apply reachable_mailer_ok in Hs as Hok.
  pose proof Hok as [[M0 M1] M2 M3 M4 M5 M6 M7 M8].
  assert (forall h, h ∈ ml_handed s -> claim_ok (ml_queue s) (hv_mail h)) as Hclaim.
  { intros h Hh. apply M3, elem_of_app. right. apply list_elem_of_fmap. by exists h. }
  assert (NoDup ((fun h => claim_key (hv_mail h)) <$> ml_handed s)) as Hd.
  { unfold claim_keys in M4. rewrite fmap_app in M4. apply NoDup_app in M4 as [M4 _]. by rewrite <- list_fmap_compose in M4. }
  split; [|split; [done|]].
  - intros h Hh. destruct (Hclaim _ Hh) as (o & Ho & H1 & H2 & _ & _ & H3). exists o. split; [done|]. split; [done|].
    split; [done|]. split; [done|]. rewrite H1. by apply M5.
  - intros id o Ho. destruct (M1 _ _ Ho) as [Hatt Hrow]. split; [|split].
    2:{ intros Hst. rewrite Hst in Hrow. destruct Hrow as (H1 & _ & H2 & H3). done. }
    2:{ intros Hst. rewrite Hst in Hrow. split; [apply Hrow|by apply (da_dead _ Hdeaths)]. }
    transitivity (Z.max 0 (em_attempts o)); [|lia]. rewrite <- (length_fmap (fun h => cm_attempts (hv_mail h))).
    apply numbers_bounded.
    + apply (NoDup_fmap_1 (pair id)). rewrite <- list_fmap_compose.
      assert (compose (pair id) (fun h => cm_attempts (hv_mail h)) <$> handed_over id s =
              (fun h => claim_key (hv_mail h)) <$> handed_over id s) as ->.
      { apply list_fmap_ext. intros i h Hh%list_elem_of_lookup_2. apply list_elem_of_filter in Hh as [<- _]. done. }
      eapply sublist_NoDup; [exact Hd|]. apply fmap_sublist, sublist_filter.
    + intros k (h & -> & [Hid Hh]%list_elem_of_filter)%list_elem_of_fmap.
      destruct (Hclaim _ Hh) as (o' & Ho' & _ & _ & _ & H4 & _). rewrite Hid in Ho'. assert (o' = o) as -> by congruence. lia.
Qed.

(** A mail stays what was queued from any state on: its address, template and limit are kept,
    its attempts are only counted up, and once it was sent or given up its row never changes
    again, whatever late deliveries come to. *)
Theorem finished_mails_are_final s s' id o : mail_reachable config compiledEmailTemplates s ->
  rtc (mail_step config compiledEmailTemplates) s s' -> mail_of id (ml_queue s) = Some o ->
  exists o', mail_of id (ml_queue s') = Some o' /\ row_later o o'.
Proof. intros Hok%reachable_mailer_ok Hs. apply (mla_queue _ _ (steps_later _ _ Hok Hs)). Qed.

(** ** Delivering a batch *)

Section Batch.
Context (owner : string) (now : Z) (reply : ClaimedEmail -> option string) (rendered : ClaimedEmail -> RenderedEmail).

Definition handing_of (m : ClaimedEmail) : Delivery := {| dl_owner := owner; dl_mail := m; dl_phase := Handing |}.
Definition handover_of (m : ClaimedEmail) : Handover :=
  {| hv_owner := owner; hv_mail := m; hv_rendered := rendered m; hv_answer := Gave (reply m) |}.
Definition sends (ms : list ClaimedEmail) (queue : mails) : mails :=
  foldl (fun queue m => update_where (owned (cm_id m) owner) (sent_row (reply m) now) queue) queue ms.

Lemma map_get_sends (rows : mails) : forall queue, map_ok rows ->
  (forall row, row ∈ rows -> exists o, mail_of row.1 queue = Some o /\ em_lease_owner o = Some owner) -> forall id,
  mail_of id (sends (claimed_email <$> rows) queue) =
    match mail_of id rows with
    | Some o => sent_row (reply (claimed_email (id, o))) now <$> mail_of id queue
    | None => mail_of id queue
    end.
Proof.
  unfold sends. induction rows as [|[k o] rows IH]; intros queue Hok Hin id; cbn [fmap list_fmap foldl map_get]; [done|].
  apply NoDup_cons in Hok as [Hk Hok]. destruct (Hin (k, o) ltac:(left)) as (ok & Hget & Hlease). cbn in Hget.
  set (f := sent_row (reply (claimed_email (k, o))) now).
  assert (forall id', mail_of id' (update_where (owned k owner) f queue) =
    if decide (id' = k) then Some (f ok) else mail_of id' queue) as Hupd.
  { intros id'. rewrite (map_get_update_any id' (owned k owner) f queue). unfold owned. case_decide as E.
    - subst. rewrite Hget. cbn. by rewrite String.eqb_refl, bool_decide_true.
    - destruct (mail_of id' queue); [|done]. cbn. by rewrite (proj2 (String.eqb_neq id' k) E). }
  rewrite IH; [|done|].
  - change (cm_id (claimed_email (k, o))) with k. fold f. rewrite Hupd. case_decide as E; [|done]. subst.
    rewrite (proj2 (map_get_None k rows) Hk), Hget. done.
  - intros row Hrow. change (cm_id (claimed_email (k, o))) with k. fold f. rewrite Hupd, decide_False; [apply Hin; by right|].
    intros E. apply Hk. rewrite <- E. apply list_elem_of_fmap. by exists row.
Qed.

Lemma deliver_all others ms : forall s, ml_deliveries s = others ++ (handing_of <$> ms) -> now <= ml_time s ->
  (forall m, m ∈ ms -> renderEmail compiledEmailTemplates (cm_template_key m) (cm_payload m) = Ok (rendered m)) ->
  exists s', rtc (mail_step config compiledEmailTemplates) s s' /\ ml_time s' = ml_time s /\
    ml_queue s' = sends ms (ml_queue s) /\ ml_handed s' = ml_handed s ++ (handover_of <$> ms) /\
    ml_workers s' = ml_workers s /\ ml_deliveries s' = others /\ ml_owners s' = ml_owners s.
Proof.
  induction ms as [|m ms IH]; intros s Hd Ht Hr.
  { exists s. cbn in *. rewrite app_nil_r in *. done. }
  cbn [fmap list_fmap] in Hd. pose proof (WorkerHands config compiledEmailTemplates s others _ (handing_of <$> ms) None (Gave (reply m)) Hd eq_refl) as S1.
  unfold hand_over in S1. cbn [handing_of dl_mail dl_owner] in S1. rewrite Hr in S1 by left. cbn [fst snd] in S1.
  match type of S1 with mail_step _ _ _ ?s1 =>
    pose proof (WorkerRecords config compiledEmailTemplates s1 others _ (handing_of <$> ms) now 0 eq_refl ltac:(done) Ht ltac:(lia)) as S2 end.
  match type of S2 with mail_step _ _ _ ?s2 => destruct (IH s2) as (s' & R & E1 & E2 & E3 & E4 & E5 & E6);
    [done|done|intros m' Hm'; apply Hr; by right|] end.
  exists s'. split; [eapply rtc_l; [exact S1|]; eapply rtc_l; [exact S2|exact R]|].
  split; [done|]. split; [done|]. split; [|done]. rewrite E3. cbn. by rewrite <- app_assoc.
Qed.
End Batch.

(** What is due: it waits, its time has come, no lease on it is in force, and it has a payload. *)
Definition due (now : Z) (o : EmailRow) : Prop :=
  (em_status o = MailQueued \/ em_status o = MailRetryWait) /\ em_available_at o <= now /\
  (em_lease_expires_at o = None \/ exists lease, em_lease_expires_at o = Some lease /\ lease < now) /\
  is_Some (em_payload o).
Definition goes_before (o o' : EmailRow) : Prop :=
  em_priority o' < em_priority o \/ (em_priority o' = em_priority o /\ em_created_at o <= em_created_at o').

(** What a worker takes: rows that are due, in their order, at most [n], and if some that are due
    are left then [n] that go before them. *)
Record picked (now : Z) (n : nat) (queue rows : mails) : Prop := {
  pk_once : NoDup rows.*1;
  pk_due : forall row, row ∈ rows -> row ∈ queue /\ due now row.2;
  pk_size : (length rows <= n)%nat;
  pk_order : StronglySorted (fun a b => goes_before a.2 b.2) rows;
  pk_rest : forall row, row ∈ queue -> due now row.2 ->
    row ∈ rows \/ (length rows = n /\ forall row', row' ∈ rows -> goes_before row'.2 row.2)
}.

Lemma claimable_due now o : claimable now o = true <-> due now o.
Proof.
  unfold claimable, due, includes, expired. rewrite !andb_true_iff, !bool_decide_eq_true, Z.leb_le, orb_true_iff, bool_decide_eq_true.
  rewrite !elem_of_cons, elem_of_nil. destruct (em_lease_expires_at o) as [lease|]; rewrite ?Z.ltb_lt; naive_solver.
Qed.

Lemma by_priority_before (a b : string * EmailRow) : by_priority a b <= 0 <-> goes_before a.2 b.2.
Proof. unfold by_priority, goes_before, or_else. destruct (Z.eqb_spec (em_priority b.2 - em_priority a.2) 0); lia. Qed.

#[local] Instance by_priority_ordering : Ordering by_priority.
Proof.
  apply (ordering_lex (fun a b : string * EmailRow => em_priority b.2 - em_priority a.2)
           (fun a b => em_created_at a.2 - em_created_at b.2)).
Qed.

Lemma batch_picked now n queue : map_ok queue -> picked now n queue (batch [] now n queue).
Proof.
  intros Hok. pose proof (batch_keys [] now n queue Hok) as Hkeys. unfold batch in *.
  set (l := js_sort by_priority _) in *.
  assert (forall row, row ∈ l <-> row ∈ queue /\ due now row.2) as Hl.
  { intros row. unfold l. rewrite elem_of_js_sort, list_elem_of_filter, claimable_due, elem_of_nil. tauto. }
  assert (StronglySorted (fun a b => goes_before a.2 b.2) l) as Hs.
  { eapply StronglySorted_weaken; [|apply (js_sort_ordered by_priority)]. intros x y. apply by_priority_before. }
  rewrite <- (take_drop n l) in Hs. pose proof (StronglySorted_app_1_l _ _ _ Hs) as Hs1. constructor; try done.
  - intros row Hrow%subseteq_take. by apply Hl.
  - rewrite length_take. lia.
  - intros row Hrow Hdue. assert (row ∈ l) as Hin by by apply Hl.
    rewrite <- (take_drop n l) in Hin. apply elem_of_app in Hin as [Hin|Hin]; [by left|right]. split.
    + rewrite length_take. apply list_elem_of_lookup in Hin as (i & Hi%lookup_lt_Some). rewrite length_drop in Hi. lia.
    + intros row2 Hrow2. by apply (StronglySorted_app_1_elem_of (fun a b : string * EmailRow => goes_before a.2 b.2) _ _ row2 row Hs).
Qed.

(** The mail of a row was handed over by the worker and taken by the server, and this is recorded. *)
Definition handed_from (owner : string) (reply : string -> option string) (rendered : string -> RenderedEmail)
    (row : string * EmailRow) (h : Handover) : Prop :=
  hv_owner h = owner /\ cm_id (hv_mail h) = row.1 /\ cm_to_address (hv_mail h) = em_to_address row.2 /\
  cm_template_key (hv_mail h) = em_template_key row.2 /\ Some (cm_payload (hv_mail h)) = em_payload row.2 /\
  hv_rendered h = rendered row.1 /\ hv_answer h = Gave (reply row.1).
Definition sent_from (now : Z) (messageId : option string) (o o' : EmailRow) : Prop :=
  em_status o' = MailSent /\ em_smtp_message_id o' = messageId /\ em_sent_at o' = Some now /\ em_payload o' = None /\
  em_attempts o' = em_attempts o + 1 /\ em_lease_owner o' = None /\ em_lease_expires_at o' = None /\
  em_to_address o' = em_to_address o /\ em_template_key o' = em_template_key o.

(** C15: A worker that is idle sends what is due: whatever else the workers are at, its next tick
    takes a batch: rows that wait to be sent or tried again, whose time has come, that no lease
    in force holds and that have a payload; the ones of the highest priority and of these the oldest
    first, each once, as many as fit into the configured size, and all of them if they fit.  If
    every mail of the batch renders and no other transaction holds its rows, there is a run in
    which the worker gives each of them, to its address, to the mail server, the server takes it
    and answers [reply], and that is recorded: the rows of the batch are sent, no other row
    changes, and nothing of the batch is left to do. *)
Theorem due_mails_are_sent s w rendered reply : mail_reachable config compiledEmailTemplates s -> w ∈ ml_workers s ->
  wk_active w = false ->
  exists rows, picked (ml_time s) (EMAIL_WORKER_BATCH_SIZE config) (ml_queue s) rows /\
    ((forall row payload, row ∈ rows -> em_payload row.2 = Some payload ->
        renderEmail compiledEmailTemplates (em_template_key row.2) payload = Ok (rendered row.1)) ->
     exists s' handed, rtc (mail_step config compiledEmailTemplates) s s' /\
       ml_handed s' = ml_handed s ++ handed /\ Forall2 (handed_from (wk_owner w) reply rendered) rows handed /\
       (forall id o, (id, o) ∈ rows -> exists o', mail_of id (ml_queue s') = Some o' /\ sent_from (ml_time s) (reply id) o o') /\
       (forall id, id ∉ rows.*1 -> mail_of id (ml_queue s') = mail_of id (ml_queue s)) /\
       ml_deliveries s' = ml_deliveries s).
Proof.
  intros Hok%reachable_mailer_ok Hw Ha. pose proof (mo_queue _ Hok) as [M0 M1].
  set (rows := batch [] (ml_time s) (EMAIL_WORKER_BATCH_SIZE config) (ml_queue s)).
  pose proof (batch_picked (ml_time s) (EMAIL_WORKER_BATCH_SIZE config) (ml_queue s) M0) as Hpicked. fold rows in Hpicked.
  exists rows. split; [done|]. intros Hr. apply list_elem_of_split in Hw as (before & after & Hw).
  assert (forall row, row ∈ rows -> exists payload, em_payload row.2 = Some payload) as Hpay.
  { intros row Hrow. apply (pk_due _ _ _ _ Hpicked) in Hrow as (_ & _ & _ & _ & H). exact H. }
  pose proof (WorkerClaims config compiledEmailTemplates s before w after [] (ml_time s) Hw Ha ltac:(lia)) as S1. cbv zeta in S1.
  match type of S1 with mail_step _ _ _ ?s1 => destruct (deliver_all (wk_owner w) (ml_time s) (fun m => reply (cm_id m))
    (fun m => rendered (cm_id m)) (ml_deliveries s) (claimed_email <$> rows) s1) as (s' & R & E1 & E2 & E3 & E4 & E5 & E6);
    [done|done| |] end.
  { intros m (row & -> & Hrow)%list_elem_of_fmap. destruct (Hpay _ Hrow) as [payload Hp].
    unfold claimed_email. cbn. rewrite Hp. by apply Hr. }
  eexists s', _. split; [eapply rtc_l; [exact S1|exact R]|]. split; [exact E3|].
  assert (forall id', mail_of id' (claimEmails [] (wk_owner w) (EMAIL_WORKER_BATCH_SIZE config)
    (EMAIL_WORKER_LEASE_SECONDS config) (ml_time s) (ml_queue s)).2 = match mail_of id' rows with
      Some o => Some (claimed_row (wk_owner w) (ml_time s) (EMAIL_WORKER_LEASE_SECONDS config) o) | None => mail_of id' (ml_queue s) end) as Hc.
  { apply map_get_claims; [by apply batch_keys|by intros r Hrow; apply (batch_gave _ _ _ _ _ M0 Hrow)]. }
  pose proof (batch_keys [] (ml_time s) (EMAIL_WORKER_BATCH_SIZE config) _ M0) as Hkeys. fold rows in Hkeys.
  assert (forall id, mail_of id (ml_queue s') = match mail_of id rows with
    | Some o => Some (sent_row (reply id) (ml_time s)
                        (claimed_row (wk_owner w) (ml_time s) (EMAIL_WORKER_LEASE_SECONDS config) o))
    | None => mail_of id (ml_queue s) end) as Hq.
  { intros id. rewrite E2. cbn. rewrite map_get_sends; [rewrite Hc; by destruct (mail_of id rows)|done|].
    intros row Hrow. rewrite Hc. rewrite (map_get_ok row.1 row.2); [by eexists|done|by destruct row]. }
  split; [|split; [|split; [|exact E5]]].
  - rewrite <- list_fmap_compose. apply Forall2_fmap_r, Forall_Forall2_diag, Forall_forall. intros row Hrow.
    destruct (Hpay _ Hrow) as [payload Hp]. unfold handed_from, handover_of, claimed_email. cbn. by rewrite Hp.
  - intros id o Hin. rewrite Hq, (map_get_ok id o) by done. by eexists.
  - intros id Hid. by rewrite Hq, (proj2 (map_get_None id rows) Hid).
Qed.

(** ** Mails that are lost *)

(** A row is held by an owner that is gone, and every worker there is has done its recovery. *)
Definition orphaned (owner id : string) (o : EmailRow) (s : Mailer) : Prop :=
  mail_of id (ml_queue s) = Some o /\ em_lease_owner o = Some owner /\
  forall w, w ∈ ml_workers s -> wk_owner w <> owner /\ wk_recovering w = false.

Lemma unrecorded owner id o now random d queue : mail_of id queue = Some o -> em_lease_owner o = Some owner ->
  dl_owner d <> owner -> mail_of id (record_outcome config now random d queue) = Some o.
Proof.
  intros Ho Hl Hd. assert (owned (cm_id (dl_mail d)) (dl_owner d) (id, o) = false) as Hn.
  { unfold owned. cbn. rewrite Hl. apply andb_false_iff. right. apply bool_decide_eq_false. congruence. }
  unfold record_outcome. destruct (dl_phase d); [done|..];
    match goal with |- mail_of _ (update_where ?p ?f _) = _ => rewrite (map_get_update_any id p f queue) end; rewrite Ho; cbn; by rewrite Hn.
Qed.

Lemma replaced_in {A} (P : A -> Prop) before x y after : (forall v, v ∈ before ++ x :: after -> P v) -> (P x -> P y) ->
  forall v, v ∈ before ++ y :: after -> P v.
Proof.
  intros H Hy v [Hv|[->|Hv]%elem_of_cons]%elem_of_app.
  - apply H, elem_of_app. by left.
  - apply Hy, H, elem_of_app. right. left.
  - apply H, elem_of_app. right. by right.
Qed.
Lemma orphaned_step owner id o s s' : mailer_ok s -> mail_step config compiledEmailTemplates s s' -> ml_owners s' = ml_owners s ->
  orphaned owner id o s -> orphaned owner id o s'.
Proof.
  intros Hok Hstep Hsame (Ho & Hl & Hw). assert (forall d, d ∈ ml_deliveries s -> dl_owner d <> owner) as Hd.
  { intros d Hd. apply (mo_owned _ Hok) in Hd. apply list_elem_of_fmap in Hd as (w & -> & Hin). by apply Hw. }
  assert (forall id' o', mail_of id' (ml_queue s) = Some o' -> row_ok (ml_handed s) id' o') as Hrows by apply Hok.
  destruct Hstep as [time Ht|id' o' Hn Hnew|owner' Hfresh|before w after now Hs Hr Ht|before w after locked now Hs Ha Ht claimed
    |before d after decrypted answer Hs Hp handed|before d after now random Hs Hp Ht Hrand
    |before d after error applied now random Hs Hp Ht Hrand s1|before w after Hs Hr|before w after Hs].
  - done.
  - split; [|done]. cbn. by rewrite map_get_app, Ho.
  - exfalso. cbn in Hsame. apply (f_equal length) in Hsame. cbn in Hsame. lia.
  - exfalso. assert (w ∈ ml_workers s) as [_ E]%Hw by by eapply in_middle. congruence.
  - split; [|split; [done|]].
    + cbn. rewrite map_get_claims; [|by apply batch_keys, Hok|by intros r Hrow; apply (batch_gave _ _ _ _ _ (proj1 (mo_queue _ Hok)) Hrow)].
      destruct (mail_of id (batch _ _ _ _)) as [o'|] eqn:E; [|done]. apply map_get_elem in E.
      apply (batch_gave _ _ _ _ _ (proj1 (mo_queue _ Hok))) in E as [E Hc]. cbn in E, Hc. assert (o' = o) as -> by congruence.
      pose proof (leased_sending _ _ _ _ (Hrows _ _ Ho) Hl) as Est. unfold claimable, includes in Hc. bools.
      rewrite Est in *. by match goal with H : MailSending ∈ _ |- _ => apply elem_of_cons in H as [|[|?%elem_of_nil]%elem_of_cons] end.
    + cbn. rewrite Hs in Hw. by apply (replaced_in _ _ _ _ _ Hw).
  - done.
  - split; [|done]. cbn. eapply unrecorded; [done..|]. apply Hd. by eapply in_middle.
  - assert (mail_of id (ml_queue s1) = Some o /\ ml_workers s1 = ml_workers s) as [H1 H2].
    { unfold s1. destruct applied; [|done]. split; [|done]. eapply unrecorded; [done..|]. apply Hd. by eapply in_middle. }
    destruct (outcome_lost error d); [by split; [|rewrite <- H2 in Hw]|]. split; [done|]. split; [done|]. cbn. intros v Hv.
    unfold rejects in Hv. apply list_elem_of_fmap in Hv as (w & -> & Hin). specialize (Hw _ Hin). by case_match.
  - split; [done|]. split; [done|]. cbn. rewrite Hs in Hw. by apply (replaced_in _ _ _ _ _ Hw).
  - split; [done|]. split; [done|]. cbn. intros v Hv. apply Hw. rewrite Hs.
    apply elem_of_app in Hv as [Hv|Hv]; apply elem_of_app; [by left|right; by right].
Qed.

(** A mail whose worker ended while it delivered it, and whose lease had not expired when the
    last worker started, stays as it is for as long as no other worker starts: recovery is
    done once, at the start of a worker, and a claim does not take a row that is being sent. *)
Theorem lost_mails_stay s s' owner id o : mail_reachable config compiledEmailTemplates s -> orphaned owner id o s ->
  rtc (fun a b => mail_step config compiledEmailTemplates a b /\ ml_owners b = ml_owners a) s s' ->
  mail_of id (ml_queue s') = Some o.
Proof.
  intros Hok%reachable_mailer_ok Ho Hs. assert (orphaned owner id o s') as [H _]; [|done]. revert Hok Ho.
  induction Hs as [s|s1 s2 s3 [Hstep Hsame] _ IH]; intros Hok Ho; [done|].
  apply IH; [by eapply step_ok|by eapply orphaned_step].
Qed.
End System.

(** ** A mailer at work *)

Definition config : EmailWorkerConfig :=
  {| EMAIL_WORKER_BATCH_SIZE := 1; EMAIL_WORKER_LEASE_SECONDS := 120; EMAIL_RETRY_BASE_SECONDS := 30;
     EMAIL_RETRY_MAX_SECONDS := 21600 |}.
Definition link_html : string := "<p>AVENEMAILTOKENNAME7D8F2A</p>".
Definition templates : list (string * CompiledTemplate) :=
  [("name.purchase-link", {| ct_subject := "Checkout link for AVENEMAILTOKENNAME7D8F2A";
                             ct_variants := [("default", ("AVENEMAILTOKENCLAIMURL4C1E9B", link_html))] |})].
Definition data : list (string * string) := [("name", "<b>" +:+ String (ascii_of_nat 10) "bob"); ("claimUrl", "https://x/y")].
Definition mail (priority maximum : Z) : EmailRow :=
  {| em_template_key := "name.purchase-link"; em_to_address := "bob@example"; em_payload := Some data;
     em_status := MailQueued; em_priority := priority; em_attempts := 0; em_max_attempts := maximum; em_available_at := 0;
     em_lease_owner := None; em_lease_expires_at := None; em_idempotency_key := None; em_last_error_code := None;
     em_last_error_message := None; em_smtp_message_id := None; em_created_at := 0; em_updated_at := 0;
     em_sent_at := None; em_dead_at := None |}.
Lemma mail_is_new priority maximum : new_mail (mail priority maximum).
Proof. repeat split. by eexists. Qed.

Definition link_mail : RenderedEmail :=
  {| re_subject := "Checkout link for <b> bob"; re_text := "https://x/y";
     re_html := "<p>&lt;b&gt;" +:+ String (ascii_of_nat 10) "bob</p>" |}.
Example link_rendered : renderEmail templates "name.purchase-link" data = Ok link_mail.
Proof. vm_compute. reflexivity. Qed.
Example secrets_are_redacted :
  sanitizeError "no route to postgres://a:b@db/x, Password: hunter2; token=1" =
  "no route to postgresql://[REDACTED] Password=[REDACTED]; token=[REDACTED]".
Proof. vm_compute. reflexivity. Qed.

Abbreviation step := (mail_step config templates).
(** Two mails in the queue and a worker that has done its recovery. *)
Definition with_mails (queue : mails) (workers : list Worker) (owners : list string) : Mailer :=
  {| ml_time := 0; ml_queue := queue; ml_handed := []; ml_errors := []; ml_workers := workers; ml_deliveries := []; ml_owners := owners |}.
Definition ready (owner : string) : Worker := has_recovered (new_worker owner).
Definition two_mails : mails := [("m1", mail 0 1); ("m2", mail 5 1)].
Definition waiting_mails : Mailer := with_mails two_mails [ready "w1"] ["w1"].

(** A step by a rule, whose conditions compute. *)
Ltac steps rule := eapply rtc_l; [eapply rule; try apply mail_is_new; try reflexivity; try (cbn; lia)|].
Lemma waiting_mails_reachable : rtc step (empty_mailer 0) waiting_mails.
Proof.
  steps (MailEnqueue config templates (empty_mailer 0) "m1" (mail 0 1)).
  steps (MailEnqueue config templates (with_mails [("m1", mail 0 1)] [] []) "m2" (mail 5 1)).
  eapply rtc_l; [eapply (WorkerStarts _ _ _ "w1"), not_elem_of_nil|].
  steps (WorkerRecovers config templates (with_mails two_mails [new_worker "w1"] ["w1"]) [] (new_worker "w1") [] 0).
  apply rtc_refl.
Qed.

(** The mail of the higher priority is taken; then its worker ends, and another one starts at once. *)
Definition taken : mails := (claimEmails [] "w1" 1 120 0 two_mails).2.
Definition restarted : Mailer := with_mails taken [ready "w2"] ["w2"; "w1"].
Lemma restarted_reachable : rtc step (empty_mailer 0) restarted.
Proof.
  etransitivity; [exact waiting_mails_reachable|].
  steps (WorkerClaims config templates waiting_mails [] (ready "w1") [] [] 0).
  eapply rtc_l; [eapply (WorkerEnds _ _ _ [] (ticking true false (ready "w1")) []); reflexivity|].
  eapply rtc_l; [eapply (WorkerStarts _ _ _ "w2"); cbn; intros [E|E%elem_of_nil]%elem_of_cons; [discriminate E|done]|].
  eapply rtc_l; [eapply (WorkerRecovers _ _ _ [] (new_worker "w2") [] 0); [reflexivity|reflexivity|cbn; lia]|].
  apply rtc_refl.
Qed.
Lemma restarted_ok : mail_reachable config templates restarted.
Proof. exists 0. exact restarted_reachable. Qed.
Lemma waiting_mails_ok : mail_reachable config templates waiting_mails.
Proof. exists 0. exact waiting_mails_reachable. Qed.

Lemma rendered_mails_inject_nothing_witness :
  renderEmail templates "name.purchase-link" data = Ok link_mail /\ marks is_markup (re_html link_mail) = marks is_markup link_html /\
  marks is_line_break (re_subject link_mail) = [].
Proof.
  split; [exact link_rendered|].
  destruct (rendered_mails_inject_nothing templates "name.purchase-link" data link_mail link_rendered)
    as (compiled & source & text & html & E1 & E2 & E3 & H1 & H2).
  injection E1 as <-. injection E2 as <-. injection E3 as <- <-. split; [exact H1|exact H2].
Defined.

Definition idle : Worker := ready "w1".
Definition second_mail : ClaimedEmail := claimed_email ("m2", mail 5 1).
(** The mail of the higher priority is sent. *)
Lemma due_mails_are_sent_witness : exists s' rows o, rtc step waiting_mails s' /\
  picked 0 1 two_mails rows /\ rows.*1 = ["m2"] /\ mail_of "m2" (ml_queue s') = Some o /\
  em_status o = MailSent /\ mail_of "m1" (ml_queue s') = Some (mail 0 1) /\
  (fun h => cm_id (hv_mail h)) <$> ml_handed s' = ["m2"].
Proof.
  destruct (due_mails_are_sent config templates waiting_mails idle (fun _ => link_mail) (fun _ => Some "id")
              waiting_mails_ok ltac:(left) eq_refl) as (rows & Hp & Hrun).
  assert (rows = [("m2", mail 5 1)]) as ->.
  { assert (due 0 (mail 5 1)) as Hdue by (repeat split; [by left|cbn; lia|by left|by eexists]).
    destruct Hp as [_ P2 P3 _ P5]. cbn in P3.
    destruct (P5 ("m2", mail 5 1) ltac:(right; left) Hdue) as [Hin|[Hlen Hbefore]].
    - destruct rows as [|x [|y rows]]; [by apply elem_of_nil in Hin| |cbn in P3; lia].
      apply list_elem_of_singleton in Hin as ->. done.
    - destruct rows as [|x [|y rows]]; [done| |done]. destruct (P2 x ltac:(left)) as [Hx _].
      apply elem_of_cons in Hx as [->|Hx]; [|by apply list_elem_of_singleton in Hx as ->].
      destruct (Hbefore _ ltac:(left)) as [H|[H _]]; cbn in H; lia. }
  destruct Hrun as (s' & handed & R & Hh & Hall & Hsent & Hrest & _).
  { intros row payload ->%list_elem_of_singleton [= <-]. exact link_rendered. }
  destruct (Hsent "m2" (mail 5 1) ltac:(left)) as (o & Ho & Hst & _).
  exists s', [("m2", mail 5 1)], o. split; [exact R|]. split; [exact Hp|]. split; [reflexivity|]. split; [exact Ho|].
  split; [exact Hst|]. split.
  { rewrite Hrest; [reflexivity|]. intros H%list_elem_of_singleton. discriminate H. }
  rewrite Hh. apply Forall2_cons_inv_l in Hall as (h & rest & (_ & Hid & _) & Hall & ->). apply Forall2_nil_inv_l in Hall as ->.
  cbn. by rewrite Hid.
Defined.

(** A run that gave its mail to the server. *)
Definition after_sending : mails := sends "w1" 0 (fun _ => Some "id") [second_mail] taken.
Lemma sent_reachable : exists s, mail_reachable config templates s /\ ml_queue s = after_sending /\
  hv_mail <$> ml_handed s = [second_mail].
Proof.
  destruct (deliver_all config templates "w1" 0 (fun _ => Some "id") (fun _ => link_mail) [] [second_mail]
    (with_workers [ticking true false idle] (with_deliveries [handing_of "w1" second_mail] (with_queue taken waiting_mails))))
    as (s' & R & E1 & E2 & E3 & _); [reflexivity|cbn; lia| |].
  { intros m ->%list_elem_of_singleton. exact link_rendered. }
  exists s'. split; [exists 0|split; [exact E2|by rewrite E3]]. etransitivity; [exact waiting_mails_reachable|]. eapply rtc_l; [|exact R].
  eapply (WorkerClaims config templates waiting_mails [] idle [] [] 0); [reflexivity|reflexivity|cbn; lia].
Qed.

Lemma mails_are_handed_over_as_queued_witness : exists s, mail_reachable config templates s /\
  hv_mail <$> ml_handed s = [second_mail] /\ exists o, mail_of "m2" (ml_queue s) = Some o /\
  Z.of_nat (length (handed_over "m2" s)) <= em_attempts o /\ em_attempts o = 1 /\ answered (ml_handed s) "m2" (Some "id").
Proof.
  destruct sent_reachable as (s & Hs & E & Hh). exists s. split; [exact Hs|]. split; [exact Hh|].
  destruct (proj2 (proj2 (mails_are_handed_over_as_queued config templates s Hs)) "m2"
              (sent_row (Some "id") 0 (claimed_row "w1" 0 120 (mail 5 1)))) as [H1 [H2 _]].
  { rewrite E. vm_compute. reflexivity. }
  destruct (H2 eq_refl) as (_ & _ & H3).
  eexists. split; [rewrite E; vm_compute; reflexivity|]. split; [exact H1|]. split; [reflexivity|exact H3].
Defined.

Lemma finished_mails_are_final_witness : exists s o, mail_reachable config templates s /\
  mail_of "m2" (ml_queue s) = Some o /\ em_status o = MailSent /\
  forall s', rtc step s s' -> mail_of "m2" (ml_queue s') = Some o.
Proof.
  destruct sent_reachable as (s & Hs & E & _). exists s. eexists. split; [exact Hs|].
  assert (mail_of "m2" (ml_queue s) = Some (sent_row (Some "id") 0 (claimed_row "w1" 0 120 (mail 5 1)))) as Ho
    by (rewrite E; vm_compute; reflexivity).
  split; [exact Ho|]. split; [reflexivity|]. intros s' R.
  destruct (finished_mails_are_final config templates s s' "m2" _ Hs R Ho) as (o' & Ho' & Hl).
  rewrite Ho'. f_equal. apply (rl_finished _ _ Hl). left. reflexivity.
Defined.

(** *** What modelling showed *)

(** The worker ended while it delivered the mail, and the next one started before its lease had
    expired: the row stays in delivery, however much time passes. *)
Lemma restarts_lose_mails : exists o,
  mail_reachable config templates restarted /\ em_status o = MailSending /\ em_lease_expires_at o = Some 120000000 /\
  forall s', rtc (fun a b => step a b /\ ml_owners b = ml_owners a) restarted s' -> mail_of "m2" (ml_queue s') = Some o.
Proof.
  exists (claimed_row "w1" 0 120 (mail 5 1)). split; [exact restarted_ok|]. split; [reflexivity|]. split; [reflexivity|].
  intros s' R. apply (lost_mails_stay config templates restarted s' "w1" "m2"); [exact restarted_ok| |exact R].
  split; [vm_compute; reflexivity|]. split; [reflexivity|]. intros w ->%list_elem_of_singleton. by split.
Qed.

(** A mail that the server has taken counts as a permanent failure when the statement that records
    it fails: the error of the database is judged as one of the server. *)
Lemma sent_mails_count_as_failures : exists s o, mail_reachable config templates s /\ mail_of "m2" (ml_queue s) = Some o /\
  answered (ml_handed s) "m2" (Some "id") /\ em_status o = MailDead /\ em_last_error_code o = Some "EMAIL_PERMANENT_FAILURE".
Proof.
  set (error := {| se_responseCode := None; se_code := Some "57P01"; se_message := "terminating connection" |}).
  eexists _, _. split; [exists 0; etransitivity; [exact waiting_mails_reachable|]|].
  - steps (WorkerClaims config templates waiting_mails [] idle [] [] 0).
    eapply rtc_l; [eapply (WorkerHands _ _ _ [] (handing_of "w1" second_mail) [] None (Gave (Some "id"))); [reflexivity|reflexivity]|].
    eapply rtc_l; [eapply (WorkerForgets _ _ _ [] {| dl_owner := "w1"; dl_mail := second_mail; dl_phase := HandedOver (Some "id") |} []
      error false 0 0); [reflexivity|done|cbn; lia|lia]|].
    eapply rtc_l; [eapply (WorkerRecords _ _ _ [] {| dl_owner := "w1"; dl_mail := second_mail; dl_phase := Failing error |} [] 0 0);
      [reflexivity|done|cbn; lia|lia]|].
    apply rtc_refl.
  - split; [vm_compute; reflexivity|]. split; [|split; [reflexivity|reflexivity]].
    eexists. split; [left|]. split; reflexivity.
Qed.

(** Recovery does not look at the attempts: a mail that was allowed one gets another. *)
Lemma recovery_exceeds_the_attempts :
  let row := claimed_row "w1" 0 120 (mail 5 1) in
  (fun m => (cm_id m, cm_attempts m, cm_max_attempts m)) <$>
    (claimEmails [] "w2" 1 120 200000000 (recoverExpiredLeases 200000000 [("m2", row)])).1 = [("m2", 2, 1)].
Proof. vm_compute. reflexivity. Qed.
