(* ===== verification/Sites.v ===== *)
(** * The control of static sites

    [services/aven-api/src/hosting]: the rules for what a customer may bind to a host name
    ([validation.ts]), the table of bindings ([store.ts] over
    [0000_hosting_control.sql]) and its endpoints for users and for the host of the sites
    ([handler.ts]).  Times are in milliseconds; the hash of a token and the form of a UUID are
    parameters. *)

From S2P Require Import Prelude Ids Contracts Json Programs Tables.

Open Scope stdpp_scope.
Open Scope js_scope.
Local Open Scope Z_scope.

(** ** Regular expressions *)

Definition ends_with (s suffix : string) : bool :=
  Nat.leb (String.length suffix) (String.length s) &&
  String.eqb (string_drop (String.length s - String.length suffix) s) suffix.
(** [s.includes(t)]. *)
Fixpoint contains (t s : string) : bool :=
  starts_with s t || match s with String _ rest => contains t rest | EmptyString => false end.
Definition starts_in (chars s : string) : bool :=
  match s with String c _ => one_of chars c | EmptyString => false end.
Fixpoint ends_in (chars s : string) : bool :=
  match s with
  | EmptyString => false
  | String c EmptyString => one_of chars c
  | String _ rest => ends_in chars rest
  end.
(** [[class]{lo,hi}]. *)
Definition class_of (class : ascii -> bool) (lo hi : nat) (s : string) : bool :=
  Nat.leb lo (String.length s) && Nat.leb (String.length s) hi && string_forall class s.

(** [label]. *)
Definition label (s : string) : bool :=
  class_of (fun c => lower_alnum c || one_of "-" c) 1 63 s && negb (starts_in "-" s) && negb (ends_in "-" s).
(** [branch]: no slash, dot or dash first, no dot or slash last, no two dots or slashes together. *)
Definition branch (s : string) : bool :=
  class_of (fun c => alnum c || one_of "._/-" c) 1 200 s && negb (starts_in "./-" s) && negb (ends_in "./" s) &&
  negb (contains ".." s) && negb (contains "//" s).
Definition branchComponent (s : string) : bool :=
  class_of (fun c => alnum c || one_of "._-" c) 1 200 s && negb (starts_in "." s) && negb (ends_with s ".lock").
Definition repo_char (c : ascii) : bool := alnum c || one_of "_.-" c.
(** [repository]. *)
Definition repository (s : string) : bool :=
  match split_on "/"%char s with
  | [owner; name] => class_of repo_char 1 100 owner && class_of repo_char 1 100 name
  | _ => false
  end.
(** [/^[0-9a-f]{n}$/]. *)
Definition hex_char (c : ascii) : bool := is_digit c || in_range 97 102 c.
Definition hex_text (n : nat) (s : string) : bool := class_of hex_char n n s.

(** ** Validation *)

(** [s.replace(/\.$/, '')]. *)
Fixpoint without_last_dot (s : string) : string :=
  match s with
  | EmptyString => EmptyString
  | String c EmptyString => if Ascii.eqb c "."%char then EmptyString else s
  | String c rest => String c (without_last_dot rest)
  end.
Definition reserved (hostname : string) : bool := String.eqb hostname "aven.ceo" || ends_with hostname ".aven.ceo".

Definition normalizeSiteHostname (input : string) (allowOperatorHostname : bool) : result string :=
  let hostname := without_last_dot (to_lower (trim input)) in
  throw! negb (String.eqb hostname (without_last_dot (to_lower input))) || Nat.ltb 253 (String.length hostname)
    as "hostname must not contain surrounding whitespace";
  let parts := split_on "."%char hostname in
  throw! Nat.ltb (length parts) 2 || negb (forallb label parts) as "hostname must be an ASCII fully-qualified domain name";
  throw! negb allowOperatorHostname && reserved hostname as "aven.ceo and its subdomains are platform-managed";
  Ok hostname.

Definition normalizeRepository (input : string) : result string :=
  throw! negb (repository input) || contains ".." input as "repository must be a GitHub owner/repository name";
  Ok (to_lower input).

Definition normalizeBranch (input : string) (deployment : bool) : result string :=
  throw! negb (branch input) || String.eqb input "@" || negb (forallb branchComponent (split_on "/"%char input))
    as "invalid Git branch name";
  throw! deployment && negb (starts_with input "deploy/") as "deploymentBranch must start with deploy/";
  Ok input.

(** [SiteBindingDraft] and [SystemSiteInput]. *)
Record SiteBindingDraft := {
  sd_hostname : string;
  sd_repository : string;
  sd_sourceBranch : string;
  sd_deploymentBranch : string
}.

(** The fields of an object, and one of them as a string. *)
Definition object_fields (j : json) : option (list (string * json)) :=
  match j with JObject entries => Some entries | _ => None end.
Definition text_field (key : string) (fields : list (string * json)) : option string :=
  match map_get key fields with Some (JString s) => Some s | _ => None end.
Definition valid {A} (m : result A) : option A := match m with Ok a => Some a | Throw _ => None end.

(** [siteBindingInputSchema], and [systemSiteSchema] with [true]. *)
Definition site_schema (operator : bool) (input : json) : option SiteBindingDraft :=
  fields ← object_fields input;
  hostname ← text_field "hostname" fields; hostname ← valid (normalizeSiteHostname hostname operator);
  repo ← text_field "repository" fields; repo ← valid (normalizeRepository repo);
  source ← text_field "sourceBranch" fields; source ← valid (normalizeBranch source false);
  deployment ← text_field "deploymentBranch" fields; deployment ← valid (normalizeBranch deployment true);
  Some {| sd_hostname := hostname; sd_repository := repo; sd_sourceBranch := source; sd_deploymentBranch := deployment |}.
Definition siteBindingInputSchema : json -> option SiteBindingDraft := site_schema false.
Definition systemSiteSchema : json -> option SiteBindingDraft := site_schema true.

(** ** The table *)

Inductive SiteRuntimeStatus := AwaitingDns | SiteSyncing | SiteActive | DnsInvalid | SiteFailed.
#[export] Instance SiteRuntimeStatus_eq_dec : EqDecision SiteRuntimeStatus.
Proof. solve_decision. Defined.
Definition status_text (status : SiteRuntimeStatus) : string :=
  match status with
  | AwaitingDns => "awaiting_dns" | SiteSyncing => "syncing" | SiteActive => "active" | DnsInvalid => "dns_invalid"
  | SiteFailed => "failed"
  end.
Inductive VerificationMode := ByTxt | ByOperator.
#[export] Instance VerificationMode_eq_dec : EqDecision VerificationMode.
Proof. solve_decision. Defined.
Definition mode_text (mode : VerificationMode) : string := match mode with ByTxt => "txt" | ByOperator => "operator" end.
Inductive DesiredStatus := DesiredActive | DesiredSuspended.
#[export] Instance DesiredStatus_eq_dec : EqDecision DesiredStatus.
Proof. solve_decision. Defined.

(** [site_bindings]. *)
Record SiteRow := {
  sr_owner : option string;
  sr_system : bool;
  sr_hostname : string;
  sr_repository : string;
  sr_source_ref : string;
  sr_artifact_ref : string;
  sr_artifact_path : string;
  sr_mode : VerificationMode;
  sr_token_hash : string;
  sr_desired : DesiredStatus;
  sr_status : SiteRuntimeStatus;
  sr_artifact_revision : option string;
  sr_source_revision : option string;
  sr_error : option string;
  sr_verified_at : option Z;
  sr_checked_at : option Z;
  sr_synced_at : option Z;
  sr_created_at : Z;
  sr_updated_at : Z
}.
#[export] Instance SiteRow_eq_dec : EqDecision SiteRow.
Proof. solve_decision. Defined.
Abbreviation sites := (list (string * SiteRow)).

(** The [CHECK] constraints. *)
Definition site_check (r : SiteRow) : bool :=
  (if sr_system r then bool_decide (sr_owner r = None) else bool_decide (is_Some (sr_owner r))) &&
  (repository (sr_repository r) && negb (contains ".." (sr_repository r))) &&
  starts_with (sr_source_ref r) "refs/heads/" && starts_with (sr_artifact_ref r) "refs/heads/deploy/" &&
  String.eqb (sr_artifact_path r) "dist" &&
  (negb (bool_decide (sr_mode r = ByOperator)) || sr_system r && reserved (sr_hostname r)) &&
  hex_text 64 (sr_token_hash r).

(** What ends a call. *)
Inductive SiteFault :=
| HostingControlError (status : Z) (code message : string)
| ZodError
| PgError (code : string)
| PlainError (message : string).
#[export] Instance SiteFault_eq_dec : EqDecision SiteFault.
Proof. solve_decision. Defined.

(** Another row has the host name, or the deployment branch of the repository. *)
Definition same_hostname (hostname : string) (row : string * SiteRow) : bool := String.eqb (sr_hostname row.2) hostname.
Definition same_artifact (repo ref_ : string) (row : string * SiteRow) : bool :=
  String.eqb (sr_repository row.2) repo && String.eqb (sr_artifact_ref row.2) ref_.
Definition taken_by_others (id : string) (r : SiteRow) (rows : sites) : bool :=
  existsb (fun row => negb (String.eqb row.1 id) &&
                      (same_hostname (sr_hostname r) row || same_artifact (sr_repository r) (sr_artifact_ref r) row)) rows.
(** Before a row is written: its constraints, then the unique keys. *)
Definition constraints (id : string) (r : SiteRow) (rows : sites) : outcome SiteFault unit :=
  if negb (site_check r) then Threw (PgError "23514")
  else if taken_by_others id r rows then Threw (PgError "23505") else Gave tt.

(** ** [HostingStore] *)

(** The clock, a fresh UUID and a fresh token. *)
Record SiteEnv := { sv_now : Z; sv_uuid : string; sv_token : string }.
Abbreviation site_txn := (txn SiteEnv sites SiteFault).

Definition branchOf (ref_ : string) : string :=
  if starts_with ref_ "refs/heads/" then string_drop 11 ref_ else ref_.
Record SiteBinding := {
  sb_id : string;
  sb_hostname : string;
  sb_repository : string;
  sb_sourceBranch : string;
  sb_deploymentBranch : string;
  sb_status : SiteRuntimeStatus;
  sb_activeArtifactRevision : option string;
  sb_activeSourceRevision : option string;
  sb_lastError : option string;
  sb_verifiedAt : option Z;
  sb_lastSyncedAt : option Z;
  sb_systemManaged : bool
}.
Definition siteOf (row : string * SiteRow) : SiteBinding :=
  let r := row.2 in
  {| sb_id := row.1; sb_hostname := sr_hostname r; sb_repository := sr_repository r;
     sb_sourceBranch := branchOf (sr_source_ref r); sb_deploymentBranch := branchOf (sr_artifact_ref r);
     sb_status := sr_status r; sb_activeArtifactRevision := sr_artifact_revision r;
     sb_activeSourceRevision := sr_source_revision r; sb_lastError := sr_error r; sb_verifiedAt := sr_verified_at r;
     sb_lastSyncedAt := sr_synced_at r; sb_systemManaged := sr_system r |}.
(** [SiteDnsVerification] without the addresses of the service, which are constants. *)
Record SiteDnsVerification := { dv_txtName : string; dv_txtValue : string; dv_hostname : string }.
Record SiteBindingMutation := { sm_site : SiteBinding; sm_dns : SiteDnsVerification }.

(** What the host of the sites reads. *)
Record DirectoryBinding := {
  db_id : string;
  db_hostname : string;
  db_repository_full_name : string;
  db_clone_url : string;
  db_source_ref : string;
  db_artifact_ref : string;
  db_artifact_path : string;
  db_verification_mode : string;
  db_verification_token_hash : string;
  db_verified_at : option Z;
  db_owner_is_admin : bool
}.
#[export] Instance DirectoryBinding_eq_dec : EqDecision DirectoryBinding.
Proof. solve_decision. Defined.
Definition binding_of_row (row : string * SiteRow) : DirectoryBinding :=
  let r := row.2 in
  {| db_id := row.1; db_hostname := sr_hostname r; db_repository_full_name := sr_repository r;
     db_clone_url := "https://github.com/" +:+ sr_repository r +:+ ".git"; db_source_ref := sr_source_ref r;
     db_artifact_ref := sr_artifact_ref r; db_artifact_path := sr_artifact_path r;
     db_verification_mode := mode_text (sr_mode r); db_verification_token_hash := sr_token_hash r;
     db_verified_at := sr_verified_at r; db_owner_is_admin := sr_system r |}.

(** The input of [report]. *)
Record SiteReport := {
  rp_id : string;
  rp_status : SiteRuntimeStatus;
  rp_error : option string;
  rp_artifactRevision : option string;
  rp_sourceRevision : option string;
  rp_dnsVerified : option bool
}.

Section Store.
Context (sha256_hex : string -> string) (is_uuid : string -> bool).

Definition tokenHash (value : string) : string := sha256_hex value.

Definition by_system_and_hostname (a b : string * SiteRow) : Z :=
  let first (row : string * SiteRow) := if sr_system row.2 then 0 else 1 in
  or_else (first a - first b) (string_cmp (sr_hostname a.2) (sr_hostname b.2)).
Definition list_sites (subjectId : string) (admin : bool) : site_txn (list SiteBinding) :=
  select (fun rows => siteOf <$> js_sort by_system_and_hostname
    (base.filter (fun row => bool_decide (sr_owner row.2 = Some subjectId) || admin && sr_system row.2 = true) rows)).

(** The columns a binding is given, and those that start anew. *)
Definition bound (owner : option string) (system : bool) (mode : VerificationMode) (input : SiteBindingDraft)
    (hash : string) (verified checked synced : option Z) (revisions : option string * option string) (created now : Z) :
    SiteRow :=
  {| sr_owner := owner; sr_system := system; sr_hostname := sd_hostname input; sr_repository := sd_repository input;
     sr_source_ref := "refs/heads/" +:+ sd_sourceBranch input; sr_artifact_ref := "refs/heads/" +:+ sd_deploymentBranch input;
     sr_artifact_path := "dist"; sr_mode := mode; sr_token_hash := hash; sr_desired := DesiredActive;
     sr_status := AwaitingDns; sr_artifact_revision := revisions.1; sr_source_revision := revisions.2; sr_error := None;
     sr_verified_at := verified; sr_checked_at := checked; sr_synced_at := synced; sr_created_at := created;
     sr_updated_at := now |}.

(** The [UPDATE] of [persist] does not touch the path and the mode. *)
Definition rebound (input : SiteBindingDraft) (hash : string) (now : Z) (r : SiteRow) : SiteRow :=
  {| sr_owner := sr_owner r; sr_system := sr_system r; sr_hostname := sd_hostname input; sr_repository := sd_repository input;
     sr_source_ref := "refs/heads/" +:+ sd_sourceBranch input; sr_artifact_ref := "refs/heads/" +:+ sd_deploymentBranch input;
     sr_artifact_path := sr_artifact_path r; sr_mode := sr_mode r; sr_token_hash := hash; sr_desired := DesiredActive;
     sr_status := AwaitingDns; sr_artifact_revision := None; sr_source_revision := None; sr_error := None;
     sr_verified_at := None; sr_checked_at := None; sr_synced_at := None; sr_created_at := sr_created_at r;
     sr_updated_at := now |}.

(** The condition on the rows of a user. *)
Definition own_site (id subjectId : string) (row : string * SiteRow) : bool :=
  String.eqb row.1 id && bool_decide (sr_owner row.2 = Some subjectId) && negb (sr_system row.2).

Definition write_row (id : string) (r : SiteRow) : site_txn unit := fun _ rows =>
  match constraints id r rows with Gave _ => Gave (tt, map_set id r rows) | Threw e => Threw e end.
Definition insert_row (id : string) (r : SiteRow) : site_txn unit := fun _ rows =>
  match constraints id r rows with
  | Gave _ => if map_has id rows then Threw (PgError "23505") else Gave (tt, rows ++ [(id, r)])
  | Threw e => Threw e
  end.

(** [catch] of [persist]. *)
Definition conflicts {A} (t : site_txn A) : site_txn A := fun env rows =>
  match t env rows with
  | Threw (PgError "23505") =>
      Threw (HostingControlError 409 "SITE_BINDING_CONFLICT" "That hostname or deployment branch is already assigned.")
  | o => o
  end.
Definition site_not_found : SiteFault := HostingControlError 404 "SITE_NOT_FOUND" "No site has that id.".

Definition persist (subjectId : string) (id : option string) (input : SiteBindingDraft) : site_txn SiteBindingMutation :=
  conflicts (
    verificationToken ← ask sv_token;
    now ← ask sv_now;
    row ← match truthy id with
          | Some id =>
              found ← select (js_find (own_site id subjectId));
              match (found : option (string * SiteRow)) with
              | None => throw site_not_found
              | Some row =>
                  let r := rebound input (tokenHash verificationToken) now row.2 in
                  _ ← write_row id r; mret (id, r)
              end
          | None =>
              uuid ← ask sv_uuid;
              let r := bound (Some subjectId) false ByTxt input (tokenHash verificationToken) None None None (None, None) now now in
              _ ← insert_row uuid r; mret (uuid, r)
          end;
    mret {| sm_site := siteOf row;
            sm_dns := {| dv_txtName := "_aven-site." +:+ sd_hostname input; dv_txtValue := verificationToken;
                         dv_hostname := sd_hostname input |} |}).
Definition create (subjectId : string) (input : SiteBindingDraft) : site_txn SiteBindingMutation := persist subjectId None input.
Definition update_site (subjectId id : string) (input : SiteBindingDraft) : site_txn SiteBindingMutation :=
  persist subjectId (Some id) input.

Definition remove_site (subjectId id : string) : site_txn unit :=
  found ← select (js_find (own_site id subjectId));
  if bool_decide ((found : option (string * SiteRow)) = None) then throw site_not_found
  else update (base.filter (fun row => own_site id subjectId row = false)).

Definition by_hostname (a b : string * SiteRow) : Z := string_cmp (sr_hostname a.2) (sr_hostname b.2).
Definition directory_of (rows : sites) : list DirectoryBinding :=
  binding_of_row <$> js_sort by_hostname (base.filter (fun row => sr_desired row.2 = DesiredActive) rows).
Definition directory : site_txn (list DirectoryBinding) := select directory_of.

Definition reported (input : SiteReport) (now : Z) (r : SiteRow) : SiteRow :=
  {| sr_owner := sr_owner r; sr_system := sr_system r; sr_hostname := sr_hostname r; sr_repository := sr_repository r;
     sr_source_ref := sr_source_ref r; sr_artifact_ref := sr_artifact_ref r; sr_artifact_path := sr_artifact_path r;
     sr_mode := sr_mode r; sr_token_hash := sr_token_hash r; sr_desired := sr_desired r; sr_status := rp_status input;
     sr_artifact_revision := coalesce (rp_artifactRevision input) (sr_artifact_revision r);
     sr_source_revision := coalesce (rp_sourceRevision input) (sr_source_revision r);
     sr_error := string_take 1000 <$> rp_error input;
     sr_verified_at := if coalesce_to (rp_dnsVerified input) false then Some now else sr_verified_at r;
     sr_checked_at := Some now;
     sr_synced_at := if decide (rp_status input = SiteActive) then Some now else sr_synced_at r;
     sr_created_at := sr_created_at r; sr_updated_at := now |}.
Definition report (input : SiteReport) : site_txn unit :=
  now ← ask sv_now; update (update_where (fun row => String.eqb row.1 (rp_id input)) (reported input now)).

(** [ON CONFLICT (hostname) DO UPDATE]: the token hash and the revisions stay. *)
Definition reseeded (input : SiteBindingDraft) (now : Z) (r : SiteRow) : SiteRow :=
  bound None true ByOperator input (sr_token_hash r) (sr_verified_at r) (sr_checked_at r) (sr_synced_at r)
    (sr_artifact_revision r, sr_source_revision r) (sr_created_at r) now.
Definition seed_site (site : SiteBindingDraft) : site_txn unit := fun env rows =>
  let now := sv_now env in
  let fresh := bound None true ByOperator site (tokenHash (sv_token env)) None None None (None, None) now now in
  if negb (site_check fresh) then Threw (PgError "23514")
  else
    match js_find (same_hostname (sd_hostname site)) rows with
    | Some row => write_row row.1 (reseeded site now row.2) env rows
    | None => insert_row (sv_uuid env) fresh env rows
    end.

(** Each site is a statement of its own; [parsed] is what [JSON.parse] gives. *)
Fixpoint seed_all (l : list SiteBindingDraft) : prog SiteEnv sites SiteFault unit :=
  match l with [] => mret tt | site :: l => _ ← step (seed_site site); seed_all l end.
Definition seedSystemSites (parsed : option json) : prog SiteEnv sites SiteFault unit :=
  match parsed with
  | None => Raise (PlainError "SYSTEM_SITES_JSON must be valid JSON")
  | Some (JArray items) =>
      match mapM systemSiteSchema items with Some l => seed_all l | None => Raise ZodError end
  | Some _ => Raise ZodError
  end.

(** ** [HostingHandler] *)

Definition status_of_text (s : string) : option SiteRuntimeStatus :=
  js_find (fun status => String.eqb (status_text status) s) [AwaitingDns; SiteSyncing; SiteActive; DnsInvalid; SiteFailed].
(** A field that is [.nullable().optional()]: what it is when it is given. *)
Definition nullable_text (ok : string -> bool) (key : string) (fields : list (string * json)) : option (option string) :=
  match map_get key fields with
  | None | Some JNull => Some None
  | Some (JString s) => if ok s then Some (Some s) else None
  | Some _ => None
  end.
Definition reportSchema (input : json) : option SiteReport :=
  fields ← object_fields input;
  id ← text_field "id" fields;
  status ← text_field "status" fields ≫= status_of_text;
  error ← nullable_text (fun s => Nat.leb (String.length s) 1000) "error" fields;
  artifact ← nullable_text (hex_text 40) "artifactRevision" fields;
  source ← nullable_text (hex_text 40) "sourceRevision" fields;
  verified ← match map_get "dnsVerified" fields with
             | None => Some None | Some (JBool b) => Some (Some b) | Some _ => None
             end;
  if is_uuid id
  then Some {| rp_id := id; rp_status := status; rp_error := error; rp_artifactRevision := artifact;
               rp_sourceRevision := source; rp_dnsVerified := verified |}
  else None.

(** A request: what the code reads of it; [rq_body] is what [readBoundedJson] gives, [None] when it throws. *)
Record SiteRequest := {
  rq_method : string;
  rq_pathname : string;
  rq_authorization : option string;
  rq_body : option json
}.
Record IdentityClaims := { cl_sub : string; cl_role : string }.
Inductive SiteBody :=
| BodySites (sites : list SiteBinding)
| BodyMutation (mutation : SiteBindingMutation)
| BodyRemoved
| BodyDirectory (bindings : list DirectoryBinding)
| BodyError (code : string) (message : option string)
| BodyNone.
Record SiteResponse := { ss_status : Z; ss_body : SiteBody }.
Definition answer (status : Z) (body : SiteBody) : SiteResponse := {| ss_status := status; ss_body := body |}.

Definition authorized (request : SiteRequest) (token : string) : bool :=
  String.eqb (coalesce_to (rq_authorization request) "") ("Bearer " +:+ token).

Definition site_input (request : SiteRequest) : site_txn SiteBindingDraft :=
  match siteBindingInputSchema (coalesce_to (rq_body request) JNull) with Some d => mret d | None => throw ZodError end.

(** [failure]; an error it does not know is thrown on. *)
Definition failure (t : site_txn SiteResponse) : site_txn SiteResponse := fun env rows =>
  match t env rows with
  | Threw (HostingControlError status code message) => Gave (answer status (BodyError code (Some message)), rows)
  | Threw ZodError => Gave (answer 400 (BodyError "VALIDATION_ERROR" (Some "The site binding is invalid.")), rows)
  | o => o
  end.

Definition internal (directoryToken : string) (request : SiteRequest) : site_txn SiteResponse :=
  if negb (authorized request directoryToken) then mret (answer 404 (BodyError "NOT_FOUND" None))
  else if String.eqb (rq_method request) "GET" && String.eqb (rq_pathname request) "/internal/v1/static-sites/bindings"
  then bindings ← directory; mret (answer 200 (BodyDirectory bindings))
  else if String.eqb (rq_method request) "POST" && String.eqb (rq_pathname request) "/internal/v1/static-sites/status"
  then
    match reportSchema (coalesce_to (rq_body request) JNull) with
    | None => mret (answer 400 (BodyError "VALIDATION_ERROR" None))
    | Some parsed => _ ← report parsed; mret (answer 204 BodyNone)
    end
  else mret (answer 404 (BodyError "NOT_FOUND" None)).

(** [/^\/api\/sites\/([0-9a-f-]+)$/], where what it matches is a UUID. *)
Definition site_path (pathname : string) : option string :=
  if starts_with pathname "/api/sites/" then
    let id := string_drop 11 pathname in
    if negb (String.eqb id "") && string_forall (fun c => hex_char c || one_of "-" c) id && is_uuid id then Some id else None
  else None.

Definition route_not_found : SiteResponse :=
  answer 404 (BodyError "ROUTE_NOT_FOUND" (Some "The site route does not exist.")).
Definition user (request : SiteRequest) (claims : IdentityClaims) : site_txn SiteResponse :=
  let here := String.eqb (rq_pathname request) "/api/sites" in
  let does := String.eqb (rq_method request) in
  failure (
    if here && does "GET" then
      found ← list_sites (cl_sub claims) (String.eqb (cl_role claims) "admin"); mret (answer 200 (BodySites found))
    else if here && does "POST" then
      input ← site_input request; m ← create (cl_sub claims) input; mret (answer 201 (BodyMutation m))
    else
      match site_path (rq_pathname request) with
      | Some id =>
          if does "PUT" then
            input ← site_input request; m ← update_site (cl_sub claims) id input; mret (answer 200 (BodyMutation m))
          else if does "DELETE" then _ ← remove_site (cl_sub claims) id; mret (answer 200 BodyRemoved)
          else mret route_not_found
      | None => mret route_not_found
      end).
End Store.
