(* ===== verification/SiteHost.v ===== *)
(** * The host of static sites

    [services/static-site-host/src]: the rules for bindings of the directory ([binding.ts]),
    the check of DNS records ([dns.ts]), the releases made of a repository ([repository.ts],
    [bounded-command.ts]), and the host itself, which keeps the active sites and serves their
    files ([host.ts]).  Git, DNS and the requests to the directory are outside: what they answer
    is an argument.  The file system is the releases, the links to them and the saved state;
    its own calls succeed.  Paths are as on POSIX, and texts that come from paths their UTF-8. *)

From S2P Require Import Prelude Ids Contracts Json Programs Tables Sites.

Open Scope stdpp_scope.
Open Scope js_scope.
Local Open Scope Z_scope.

(** ** Paths *)

(** [normalizeString] of [node:path]; the segments come last first. *)
Definition path_step (aboveRoot : bool) (segments : list string) (c : string) : list string :=
  if String.eqb c "" || String.eqb c "." then segments
  else if String.eqb c ".." then
    match segments with
    | [] => if aboveRoot then [c] else []
    | last :: rest => if String.eqb last ".." then c :: segments else rest
    end
  else c :: segments.
Definition segments_of (aboveRoot : bool) (path : string) : list string :=
  reverse (foldl (path_step aboveRoot) [] (split_on "/"%char path)).
Definition is_absolute (path : string) : bool := starts_with path "/".
Definition normalize (path : string) : string :=
  if String.eqb path "" then "."
  else
    let trailing := ends_in "/" path in
    let text := join "/" (segments_of (negb (is_absolute path)) path) in
    let text := if String.eqb text "" then (if is_absolute path then "" else if trailing then "./" else ".")
                else if trailing then text +:+ "/" else text in
    if is_absolute path then "/" +:+ text else text.
(** [path.join]. *)
Definition join_paths (l : list string) : string :=
  normalize (join "/" (base.filter (fun s => String.eqb s "" = false) l)).
(** [path.resolve] of one path, in the directory [cwd]. *)
Definition resolve_path (cwd path : string) : string :=
  "/" +:+ join "/" (segments_of false (if is_absolute path then path else cwd +:+ "/" +:+ path)).

Definition is_slash (c : ascii) : bool := one_of "/\" c.
(** [s.split(/[\\/]/)]. *)
Fixpoint split_slashes (s : string) : list string :=
  match s with
  | EmptyString => [EmptyString]
  | String c rest =>
      match is_slash c, split_slashes rest with
      | true, parts => EmptyString :: parts
      | false, h :: t => String c h :: t
      | false, [] => [String c EmptyString]
      end
  end.
(** [s.replace(/^[/\\]+/, '')]. *)
Fixpoint without_slashes (s : string) : string :=
  match s with String c rest => if is_slash c then without_slashes rest else s | EmptyString => EmptyString end.
(** The last segment that is not empty, and [path.extname]. *)
Definition base_name (path : string) : string :=
  List.last (base.filter (fun c => String.eqb c "" = false) (split_on "/"%char path)) "".
Definition extname (path : string) : string :=
  let name := base_name path in
  match last_index_of "."%char name with
  | None | Some O => ""
  | Some i => if String.eqb name ".." then "" else string_drop i name
  end.

(** [decodeURIComponent]: [None] where it throws. *)
Definition hex_value (c : ascii) : option nat :=
  let n := nat_of_ascii c in
  if is_digit c then Some (n - 48)%nat
  else if in_range 97 102 c then Some (n - 87)%nat else if in_range 65 70 c then Some (n - 55)%nat else None.
Fixpoint unescape (s : string) : option (list (bool * ascii)) :=
  match s with
  | EmptyString => Some []
  | String "%" (String h (String l rest)) =>
      hi ← hex_value h; lo ← hex_value l; tail ← unescape rest;
      Some ((Nat.leb 128 (16 * hi + lo), ascii_of_nat (16 * hi + lo)) :: tail)
  | String "%" _ => None
  | String c rest => tail ← unescape rest; Some ((false, c) :: tail)
  end.
(** The escaped bytes above 127 are well-formed UTF-8: how many bytes follow a first one, and
    what the next of them may be. *)
Definition utf8_follows (b : nat) : option (nat * (nat * nat)) :=
  if Nat.leb 194 b && Nat.leb b 223 then Some (1%nat, (128, 191)%nat)
  else if Nat.eqb b 224 then Some (2%nat, (160, 191)%nat)
  else if Nat.eqb b 237 then Some (2%nat, (128, 159)%nat)
  else if Nat.leb 225 b && Nat.leb b 239 then Some (2%nat, (128, 191)%nat)
  else if Nat.eqb b 240 then Some (3%nat, (144, 191)%nat)
  else if Nat.leb 241 b && Nat.leb b 243 then Some (3%nat, (128, 191)%nat)
  else if Nat.eqb b 244 then Some (3%nat, (128, 143)%nat) else None.
Fixpoint well_formed_utf8 (expected : nat) (bounds : nat * nat) (l : list (bool * ascii)) : bool :=
  match l, expected with
  | [], _ => Nat.eqb expected 0
  | (false, _) :: l, O => well_formed_utf8 0 bounds l
  | (true, c) :: l, O =>
      match utf8_follows (nat_of_ascii c) with Some (n, bounds) => well_formed_utf8 n bounds l | None => false end
  | (true, c) :: l, S n => in_range bounds.1 bounds.2 c && well_formed_utf8 n (128, 191)%nat l
  | (false, _) :: _, S _ => false
  end.
Definition decodeURIComponent (s : string) : option string :=
  l ← unescape s;
  if well_formed_utf8 0 (128, 191)%nat l then Some (String.string_of_list_ascii l.*2) else None.

(** ** [binding.ts] *)

(** The classes are those of the control, in small letters for repositories. *)
Definition githubRepository (s : string) : bool :=
  match split_on "/"%char s with
  | [owner; name] =>
      class_of (fun c => lower_alnum c || one_of "_.-" c) 1 100 owner &&
      class_of (fun c => lower_alnum c || one_of "_.-" c) 1 100 name
  | _ => false
  end.
Definition validGitRef (ref_ : string) : bool :=
  starts_with ref_ "refs/heads/" && branch (string_drop 11 ref_) && negb (String.eqb (string_drop 11 ref_) "@") &&
  forallb branchComponent (split_on "/"%char (string_drop 11 ref_)).
(** [/^[0-9a-f]{8}-[0-9a-f]{4}-[1-8][0-9a-f]{3}-[89ab][0-9a-f]{3}-[0-9a-f]{12}$/]. *)
Definition binding_id (s : string) : bool :=
  match split_on "-"%char s with
  | [a; b; c; d; e] =>
      hex_text 8 a && hex_text 4 b && hex_text 4 c && starts_in "12345678" c && hex_text 4 d && starts_in "89ab" d && hex_text 12 e
  | _ => false
  end.
Definition site_hostname (s : string) : bool :=
  let parts := split_on "."%char s in Nat.leb 2 (length parts) && forallb label parts.

Definition validateBinding (binding : DirectoryBinding) : result unit :=
  throw! negb (binding_id (db_id binding)) as "invalid binding id";
  throw! negb (site_hostname (db_hostname binding)) || Nat.ltb 253 (String.length (db_hostname binding)) ||
         reserved (db_hostname binding) && negb (db_owner_is_admin binding) as "invalid or reserved hostname";
  throw! negb (githubRepository (db_repository_full_name binding)) || contains ".." (db_repository_full_name binding)
    as "invalid GitHub repository";
  throw! negb (String.eqb (db_clone_url binding) ("https://github.com/" +:+ db_repository_full_name binding +:+ ".git"))
    as "clone URL does not match the GitHub repository";
  throw! negb (validGitRef (db_source_ref binding)) as "invalid source ref";
  throw! negb (validGitRef (db_artifact_ref binding)) || negb (starts_with (db_artifact_ref binding) "refs/heads/deploy/")
    as "invalid deployment ref";
  throw! negb (String.eqb (db_artifact_path binding) "dist") as "only the dist artifact path is supported";
  throw! negb (includes ["txt"; "operator"] (db_verification_mode binding)) as "invalid verification mode";
  throw! String.eqb (db_verification_mode binding) "operator" &&
         (negb (db_owner_is_admin binding) || negb (reserved (db_hostname binding)))
    as "operator verification is restricted to platform-managed aven.ceo sites";
  throw! negb (hex_text 64 (db_verification_token_hash binding)) as "invalid verification token hash";
  Ok tt.

(** ** [dns.ts] *)

(** The code and the message of an exception of the resolver. *)
Record DnsError := { de_code : option string; de_message : string }.
#[export] Instance DnsError_eq_dec : EqDecision DnsError.
Proof. solve_decision. Defined.
(** What the three lookups give. *)
Record DnsAnswers := {
  da_txt : outcome DnsError (list (list string));
  da_ipv4 : outcome DnsError (list string);
  da_ipv6 : outcome DnsError (list string)
}.
#[export] Instance DnsAnswers_eq_dec : EqDecision DnsAnswers.
Proof. solve_decision. Defined.
Definition missing (error : DnsError) : bool := includes ["ENODATA"; "ENOTFOUND"; "ESERVFAIL"] (coalesce_to (de_code error) "").
Definition optional {A} (operation : outcome DnsError (list A)) : result (list A) :=
  match operation with
  | Gave l => Ok l
  | Threw error => if missing error then Ok [] else Throw (de_message error)
  end.

(** [None] is [ok], else the reason. *)
Definition verifyDns (sha256_hex : string -> string) (tokenHash : string) (allowedIpv4 allowedIpv6 : list string) (verificationMode : string)
    (resolver : DnsAnswers) : result (option string) :=
  txt ← (if String.eqb verificationMode "txt" then
           records ← optional (da_txt resolver);
           Ok (existsb (fun parts => String.eqb (sha256_hex (join "" parts)) tokenHash) records)
         else Ok true);
  if negb txt then Ok (Some "TXT ownership verification is missing or invalid")
  else
    ipv4 ← optional (da_ipv4 resolver);
    if bool_decide (ipv4 = []) || existsb (fun a => negb (includes allowedIpv4 a)) ipv4
    then Ok (Some "A records must point only to this hosting service")
    else
      ipv6 ← optional (da_ipv6 resolver);
      if existsb (fun a => negb (includes allowedIpv6 a)) ipv6
      then Ok (Some "AAAA records must point only to this hosting service") else Ok None.

(** ** Artifacts *)

(** A number of the class, and what follows. *)
Fixpoint span (class : ascii -> bool) (s : string) : string * string :=
  match s with
  | String c rest => if class c then let '(l, r) := span class rest in (String c l, r) else (EmptyString, s)
  | EmptyString => (EmptyString, EmptyString)
  end.
Definition decimal (s : string) : Z :=
  foldl (fun n c => 10 * n + Z.of_nat (nat_of_ascii c - 48)) 0 (String.list_ascii_of_string s).
(** The size and the path of [/^(100644|100755) blob [0-9a-f]{40,64}\s+(\d+)\t(.+)$/]. *)
Definition tree_row (row : string) : option (Z * string) :=
  if starts_with row "100644 blob " || starts_with row "100755 blob " then
    let '(object, rest) := span hex_char (string_drop 12 row) in
    let '(spaces, rest) := span is_space rest in
    let '(digits, rest) := span is_decimal_char rest in
    match rest with
    | String tab path =>
        if Nat.leb 40 (String.length object) && Nat.leb (String.length object) 64 && negb (String.eqb spaces "") &&
           negb (String.eqb digits "") && Nat.eqb (nat_of_ascii tab) 9 && negb (String.eqb path "") &&
           string_forall (fun c => negb (Nat.eqb (nat_of_ascii c) 10 || Nat.eqb (nat_of_ascii c) 13)) path
        then Some (decimal digits, path) else None
    | EmptyString => None
    end
  else None.
Fixpoint tree_rows (rows : list string) (count : nat) (bytes : Z) (maxFiles : nat) (maxBytes : Z) : result nat :=
  match rows with
  | [] => Ok count
  | row :: rows =>
      match tree_row row with
      | None => Throw "site artifacts must contain only regular files"
      | Some (size, path) =>
          let parts := split_on "/"%char path in
          throw! Nat.ltb 1024 (String.length path) || Nat.ltb 20 (length parts) || includes parts ".."
            as "site artifact path exceeds its limit";
          throw! Nat.ltb maxFiles (S count) || (maxBytes <? bytes + size) as "site artifact exceeds its limit";
          tree_rows rows (S count) (bytes + size) maxFiles maxBytes
      end
  end.
Definition validateArtifactTree (listing : string) (maxFiles : nat) (maxBytes : Z) : result unit :=
  count ← tree_rows (base.filter (fun row => String.eqb row "" = false) (split_on Ascii.zero listing)) 0 0 maxFiles maxBytes;
  throw! Nat.eqb count 0 as "site artifact is empty";
  Ok tt.

(** What [lstat] tells of an entry that is not a directory, and what is read of it. *)
Inductive Entry :=
| RegularFile (size : Z) (content : string)
| SymbolicLink (reads : option string)
| OtherEntry.
#[export] Instance Entry_eq_dec : EqDecision Entry.
Proof. solve_decision. Defined.
(** The entries of a directory by their paths from it, in the order a scan finds them. *)
Abbreviation tree := (list (string * Entry)).

Fixpoint inspectTree (entries : tree) (files : nat) (bytes : Z) (maxFiles : nat) (maxBytes : Z) : result unit :=
  match entries with
  | [] => Ok tt
  | (_, SymbolicLink _) :: _ => Throw "site artifacts must not contain symbolic links"
  | (_, RegularFile size _) :: entries =>
      throw! Nat.ltb maxFiles (S files) || (maxBytes <? bytes + size) as "site artifact exceeds its limit";
      inspectTree entries (S files) (bytes + size) maxFiles maxBytes
  | (_, OtherEntry) :: entries => inspectTree entries files bytes maxFiles maxBytes
  end.

Inductive FileKind := IsFile | IsDirectory | IsOther.
#[export] Instance FileKind_eq_dec : EqDecision FileKind.
Proof. solve_decision. Defined.
Definition entry_kind (e : Entry) : FileKind :=
  match e with RegularFile _ _ => IsFile | SymbolicLink _ | OtherEntry => IsOther end.
(** [stat] of a path in a tree: a directory is what has something in it. *)
Definition stat_in (files : tree) (path : string) : option FileKind :=
  match map_get path files with
  | Some e => Some (entry_kind e)
  | None =>
      let within := if ends_in "/" path then path else path +:+ "/" in
      if String.eqb path "" || existsb (fun e : string * Entry => starts_with e.1 within) files then Some IsDirectory else None
  end.
Definition read_in (files : tree) (path : string) : option string :=
  match map_get path files with
  | Some (RegularFile _ content) => Some content
  | Some (SymbolicLink reads) => reads
  | _ => None
  end.

(** ** [repository.ts] *)

Record SiteHostConfig := {
  sc_dataRoot : string;
  sc_maxFiles : nat;
  sc_maxBytes : Z;
  sc_maxConcurrentSyncs : nat;
  sc_allowedIpv4 : list string;
  sc_allowedIpv6 : list string;
  sc_dnsGraceMilliseconds : Z
}.

(** A release: its files, and the time of its directory. *)
Record Release := { rl_files : tree; rl_mtime : Z }.
Record ActiveSite := { as_binding : DirectoryBinding; as_root : string }.
(** The releases and the current one by the identifier of the binding, and [active-sites.json]. *)
Record Disk := {
  dk_releases : list ((string * string) * Release);
  dk_current : list (string * string);
  dk_saved : option (list ActiveSite)
}.
Definition empty_disk : Disk := {| dk_releases := []; dk_current := []; dk_saved := None |}.

(** What the commands print, or why they fail, and the directory of the artifact after the
    checkout.  The time limit of the whole is among the reasons. *)
Record GitAnswers := {
  ga_init : result unit;
  ga_remote : result unit;
  ga_fetch : result unit;
  ga_source : result string;
  ga_artifact : result string;
  ga_tree : result string;
  ga_checkout : result tree;
  ga_time : Z
}.

Definition checked_out (source : string) (config : SiteHostConfig) (files : tree) : result unit :=
  throw! bool_decide (stat_in files "index.html" = None) as "deployment artifact has no dist/index.html";
  match read_in files ".source-revision" with
  | None => Throw "ENOENT"
  | Some marker =>
      throw! negb (String.eqb (trim marker) source)
        as "deployment artifact was not built from the configured source branch head";
      inspectTree files 0 0 (sc_maxFiles config) (sc_maxBytes config)
  end.

Definition with_release (id revision : string) (r : Release) (disk : Disk) : Disk :=
  {| dk_releases := dk_releases disk ++ [((id, revision), r)]; dk_current := dk_current disk; dk_saved := dk_saved disk |}.
Definition with_current (id revision : string) (disk : Disk) : Disk :=
  {| dk_releases := dk_releases disk; dk_current := map_set id revision (dk_current disk); dk_saved := dk_saved disk |}.
(** The old releases of a binding but for the latest of them. *)
Definition obsolete (id revision : string) (disk : Disk) : list (string * string) :=
  drop 1 (js_sort (fun a b => rl_mtime b.2 - rl_mtime a.2)
    (base.filter (fun e => e.1.1 = id /\ e.1.2 <> revision) (dk_releases disk))).*1.
Definition cleaned (id revision : string) (disk : Disk) : Disk :=
  let old := obsolete id revision disk in
  {| dk_releases := base.filter (fun e => e.1 ∉ old) (dk_releases disk); dk_current := dk_current disk;
     dk_saved := dk_saved disk |}.

Definition release_root (config : SiteHostConfig) (id revision : string) : string :=
  join_paths [sc_dataRoot config; "bindings"; id; "releases"; revision].
Record Materialized := { mt_root : string; mt_artifactRevision : string; mt_sourceRevision : string }.

Definition fetched_revisions (git : GitAnswers) : result (string * string) :=
  _ ← ga_init git; _ ← ga_remote git; _ ← ga_fetch git;
  source ← ga_source git; artifact ← ga_artifact git; Ok (trim source, trim artifact).
Definition materialize (binding : DirectoryBinding) (config : SiteHostConfig) (git : GitAnswers) (disk : Disk) :
    result (Materialized * Disk) :=
  _ ← validateBinding binding;
  revisions ← fetched_revisions git;
  let '(source, artifact) := (revisions : string * string) in
  listing ← ga_tree git;
  _ ← validateArtifactTree (trim listing) (sc_maxFiles config) (sc_maxBytes config);
  let id := db_id binding in
  disk ← (if map_has (id, artifact) (dk_releases disk) then Ok disk
          else
            files ← ga_checkout git;
            _ ← checked_out source config files;
            Ok (with_release id artifact {| rl_files := files; rl_mtime := ga_time git |} disk));
  Ok ({| mt_root := release_root config id artifact; mt_artifactRevision := artifact; mt_sourceRevision := source |},
      cleaned id artifact (with_current id artifact disk)).

(** ** [host.ts] *)

(** [stat] of an absolute path. *)
Definition disk_stat (config : SiteHostConfig) (disk : Disk) (path : string) : option FileKind :=
  head (omap (fun e : (string * string) * Release =>
    let root := release_root config e.1.1 e.1.2 in
    if String.eqb path root then Some IsDirectory
    else if starts_with path (root +:+ "/") then stat_in (rl_files e.2) (string_drop (S (String.length root)) path) else None)
    (dk_releases disk)).
Definition disk_content (config : SiteHostConfig) (disk : Disk) (path : string) : option string :=
  head (omap (fun e : (string * string) * Release =>
    let root := release_root config e.1.1 e.1.2 in
    if starts_with path (root +:+ "/") then read_in (rl_files e.2) (string_drop (S (String.length root)) path) else None)
    (dk_releases disk)).

(** [report] of a state, which [JSON.stringify] leaves without its undefined fields. *)
Definition text_member (key : string) (value : option string) : list (string * json) :=
  match value with Some s => [(key, JString s)] | None => [] end.
Definition report_json (r : SiteReport) : json :=
  JObject ([("id", JString (rp_id r)); ("status", JString (status_text (rp_status r)))] ++ text_member "error" (rp_error r) ++
           text_member "artifactRevision" (rp_artifactRevision r) ++ text_member "sourceRevision" (rp_sourceRevision r) ++
           match rp_dnsVerified r with Some b => [("dnsVerified", JBool b)] | None => [] end).
Definition report_of (id : string) (status : SiteRuntimeStatus) (error : option string) : SiteReport :=
  {| rp_id := id; rp_status := status; rp_error := error; rp_artifactRevision := None; rp_sourceRevision := None;
     rp_dnsVerified := None |}.

(** Where [reconcileOne] is: before the DNS is asked, before the report that it is in order is
    sent, before the release is made, and before the last report is sent. *)
Inductive SitePhase :=
| Verifying
| Announcing
| Fetching
| Concluding (r : SiteReport).
Record SiteTask := { tk_binding : DirectoryBinding; tk_phase : SitePhase }.
(** [reconciling]: the directory is asked, has answered, or its bindings are gone through. *)
Inductive Pass :=
| NoPass
| Asking
| Answered (bindings : list DirectoryBinding)
| Reconciling (groups : list (list DirectoryBinding)) (tasks : list SiteTask).
Record Host := { ho_active : list (string * ActiveSite); ho_ready : bool; ho_pass : Pass }.
Definition new_host : Host := {| ho_active := []; ho_ready := false; ho_pass := NoPass |}.

Definition activating (active : list (string * ActiveSite)) (h : Host) : Host :=
  {| ho_active := active; ho_ready := ho_ready h; ho_pass := ho_pass h |}.
Definition passing (pass : Pass) (h : Host) : Host :=
  {| ho_active := ho_active h; ho_ready := ho_ready h; ho_pass := pass |}.

(** [slice] in steps of [n]; [n] is positive. *)
Fixpoint groups_of {A} (fuel n : nat) (l : list A) : list (list A) :=
  match fuel, l with
  | S fuel, _ :: _ => take n l :: groups_of fuel n (drop n l)
  | _, _ => []
  end.
Definition configured (bindings : list DirectoryBinding) : list string :=
  db_hostname <$> base.filter (fun b => is_ok (validateBinding b) = true) bindings.
Definition start_task (b : DirectoryBinding) : SiteTask := {| tk_binding := b; tk_phase := Verifying |}.
(** [doReconcile] when the directory has answered, and when a group is done. *)
Definition received (config : SiteHostConfig) (bindings : list DirectoryBinding) (h : Host) : Host :=
  {| ho_active := base.filter (fun e => e.1 ∈ configured bindings) (ho_active h); ho_ready := ho_ready h;
     ho_pass := Reconciling (groups_of (length bindings) (sc_maxConcurrentSyncs config) bindings) [] |}.

Definition verified_binding (now : Z) (b : DirectoryBinding) : DirectoryBinding :=
  {| db_id := db_id b; db_hostname := db_hostname b; db_repository_full_name := db_repository_full_name b;
     db_clone_url := db_clone_url b; db_source_ref := db_source_ref b; db_artifact_ref := db_artifact_ref b;
     db_artifact_path := db_artifact_path b; db_verification_mode := db_verification_mode b;
     db_verification_token_hash := db_verification_token_hash b; db_verified_at := Some now;
     db_owner_is_admin := db_owner_is_admin b |}.

(** [reconcileOne] up to the first report: the task then, and the active sites. *)
Definition check_site (sha256_hex : string -> string) (config : SiteHostConfig) (answers : DnsAnswers) (now : Z)
    (b : DirectoryBinding) (active : list (string * ActiveSite)) : SiteTask * list (string * ActiveSite) :=
  let failed message := ({| tk_binding := b; tk_phase := Concluding (report_of (db_id b) SiteFailed (Some message)) |}, active) in
  match validateBinding b with
  | Throw message => failed message
  | Ok _ =>
      match verifyDns sha256_hex (db_verification_token_hash b) (sc_allowedIpv4 config) (sc_allowedIpv6 config)
              (db_verification_mode b) answers with
      | Throw message => failed message
      | Ok (Some reason) =>
          let verifiedAt := coalesce_to (db_verified_at b) 0 in
          ({| tk_binding := b; tk_phase := Concluding (report_of (db_id b) DnsInvalid (Some reason)) |},
           if sc_dnsGraceMilliseconds config <? now - verifiedAt then map_delete (db_hostname b) active else active)
      | Ok None => ({| tk_binding := verified_binding now b; tk_phase := Announcing |}, active)
      end
  end.
Definition announcement (b : DirectoryBinding) : SiteReport :=
  {| rp_id := db_id b; rp_status := SiteSyncing; rp_error := None; rp_artifactRevision := None; rp_sourceRevision := None;
     rp_dnsVerified := Some true |}.
(** [reconcileOne] from the first report to the last one. *)
Definition release_site (config : SiteHostConfig) (git : GitAnswers) (b : DirectoryBinding)
    (active : list (string * ActiveSite)) (disk : Disk) : SiteTask * list (string * ActiveSite) * Disk :=
  match materialize b config git disk with
  | Throw message =>
      ({| tk_binding := b; tk_phase := Concluding (report_of (db_id b) SiteFailed (Some message)) |}, active, disk)
  | Ok (m, disk) =>
      ({| tk_binding := b;
          tk_phase := Concluding {| rp_id := db_id b; rp_status := SiteActive; rp_error := None;
                                    rp_artifactRevision := Some (mt_artifactRevision m);
                                    rp_sourceRevision := Some (mt_sourceRevision m); rp_dnsVerified := Some true |} |},
       map_set (db_hostname b) {| as_binding := b; as_root := mt_root m |} active, disk)
  end.

Definition saved (active : list (string * ActiveSite)) (disk : Disk) : Disk :=
  {| dk_releases := dk_releases disk; dk_current := dk_current disk; dk_saved := Some active.*2 |}.
(** [loadPersistedState], of a file that is there. *)
Definition loadable (cwd : string) (config : SiteHostConfig) (disk : Disk) (site : ActiveSite) : bool :=
  let expectedRoot := resolve_path cwd (join_paths [sc_dataRoot config; "bindings"; db_id (as_binding site); "releases"]) in
  let root := resolve_path cwd (as_root site) in
  is_ok (validateBinding (as_binding site)) && starts_with root (expectedRoot +:+ "/") &&
  bool_decide (is_Some (disk_stat config disk (join_paths [root; "index.html"]))).
Definition loadPersistedState (cwd : string) (config : SiteHostConfig) (disk : Disk) : Host :=
  match dk_saved disk with
  | None => new_host
  | Some l =>
      {| ho_active := foldl (fun active site => if loadable cwd config disk site
                                                then map_set (db_hostname (as_binding site)) site active else active) [] l;
         ho_ready := true; ho_pass := NoPass |}
  end.

(** *** [handle] *)

(** What the code reads of a request; [wr_pathname] is that of its URL, [wr_domain] the query
    parameter and [wr_host] the header. *)
Record WebRequest := {
  wr_method : string;
  wr_pathname : string;
  wr_domain : option string;
  wr_host : option string
}.
Inductive WebBody := WebText (text : string) | WebFile (path : string) | WebEmpty.
#[export] Instance WebBody_eq_dec : EqDecision WebBody.
Proof. solve_decision. Defined.
Record WebResponse := { ws_status : Z; ws_body : WebBody; ws_headers : list (string * string) }.
Definition plain (status : Z) (text : string) : WebResponse := {| ws_status := status; ws_body := WebText text; ws_headers := [] |}.
Definition not_found : WebResponse := plain 404 "Not found".

Definition contentTypes : list (string * string) := [
  (".css", "text/css; charset=utf-8"); (".html", "text/html; charset=utf-8"); (".ico", "image/x-icon");
  (".js", "text/javascript; charset=utf-8"); (".json", "application/json; charset=utf-8"); (".png", "image/png");
  (".svg", "image/svg+xml"); (".txt", "text/plain; charset=utf-8"); (".webp", "image/webp"); (".woff2", "font/woff2")].
Definition cache_control (relative file : string) : string :=
  if starts_with relative "_app/immutable/" then "public, max-age=31536000, immutable"
  else if ends_with file ".html" then "no-cache" else "public, max-age=3600".

(** The path of a request within a site, [None] where it is refused. *)
Definition relative_of (pathname : string) : option string :=
  let relative := without_slashes (normalize pathname) in
  if starts_with relative ".." || existsb (fun part => starts_with part ".") (split_slashes relative) then None
  else Some relative.
(** The file that is sent for it; [stat] is what the file system says at the time. *)
Definition file_of (stat : string -> option FileKind) (root relative : string) : option string :=
  let file := join_paths [root; if String.eqb relative "" then "index.html" else relative] in
  let index := join_paths [root; "index.html"] in
  let chosen := match stat file with
                | Some IsDirectory => Some (join_paths [file; "index.html"])
                | Some IsFile => Some file
                | _ => if String.eqb (extname relative) "" then Some index else None
                end in
  match chosen with
  | Some file => if bool_decide (stat file = Some IsFile) then Some file else None
  | None => None
  end.
Definition host_name (host : string) : string :=
  without_last_dot (to_lower (hd "" (split_on ":"%char host))).
Definition find_site (hostname : option string) (active : list (string * ActiveSite)) : option ActiveSite :=
  match truthy hostname with Some name => map_get name active | None => None end.

Definition handle (stat : string -> option FileKind) (h : Host) (request : WebRequest) : WebResponse :=
  let path := wr_pathname request in
  if String.eqb path "/health/live" then plain 200 ("ok" +:+ String "010"%char "")
  else if String.eqb path "/health/ready" then
    if ho_ready h then plain 200 ("ready" +:+ String "010"%char "") else plain 503 ("not ready" +:+ String "010"%char "")
  else if String.eqb path "/internal/caddy/ask" then
    {| ws_status := match find_site ((fun d => without_last_dot (to_lower d)) <$> wr_domain request) (ho_active h) with
                    | Some _ => 200 | None => 404 end;
       ws_body := WebEmpty; ws_headers := [] |}
  else if negb (includes ["GET"; "HEAD"] (wr_method request)) then plain 405 "Method not allowed"
  else
    match find_site (host_name <$> wr_host request) (ho_active h) with
    | None => not_found
    | Some site =>
        match decodeURIComponent path with
        | None => plain 400 "Bad request"
        | Some pathname =>
            match relative_of pathname with
            | None => not_found
            | Some relative =>
                match file_of stat (as_root site) relative with
                | None => not_found
                | Some file =>
                    {| ws_status := 200;
                       ws_body := if String.eqb (wr_method request) "HEAD" then WebEmpty else WebFile file;
                       ws_headers := [("content-type", coalesce_to (map_get (to_lower (extname file)) contentTypes)
                                                         "application/octet-stream");
                                      ("x-content-type-options", "nosniff");
                                      ("referrer-policy", "strict-origin-when-cross-origin");
                                      ("x-frame-options", "DENY"); ("cache-control", cache_control relative file)] |}
                end
            end
        end
    end.
