(* ===== verification/SitesSystem.v ===== *)
(** * Static sites, from the request of a customer to the file that is served

    The control of [Sites.v] and the host of [SiteHost.v] together: requests of users, seeds,
    passes of the host over the directory, reports and restarts interleave in any way, and
    DNS, git and the network answer what they like.  The theorems say what a site that is
    served has been through, that the host takes every binding the control admits, and that
    only files of a release are sent. *)

From S2P Require Import Prelude Ids Contracts Json Programs Tables Sites SiteHost.
From stdpp Require Import relations.

Open Scope stdpp_scope.
Open Scope js_scope.
Local Open Scope Z_scope.

(** ** The system *)

(** What is remembered: what the directory has listed, checks of the DNS that were in order,
    releases that were made, and tokens that were handed out. *)
Inductive SiteEvent :=
| Listed (rows : sites)
| Resolved (binding : DirectoryBinding) (now : Z) (answers : DnsAnswers)
| Installed (binding : DirectoryBinding) (revision source : string) (files : tree)
| Issued (id owner hostname token : string).

(** [sy_posted] are the reports that were sent and have not arrived. *)
Record SiteSystem := {
  sy_time : Z;
  sy_table : sites;
  sy_host : Host;
  sy_disk : Disk;
  sy_posted : list json;
  sy_log : list SiteEvent
}.
Definition start_system (time : Z) : SiteSystem :=
  {| sy_time := time; sy_table := []; sy_host := new_host; sy_disk := empty_disk; sy_posted := []; sy_log := [] |}.

Inductive SiteAction :=
| Advance (time : Z)
| UserCalls (claims : IdentityClaims) (request : SiteRequest) (env : SiteEnv)
| Seeds (input : json) (env : SiteEnv)
| ReportArrives (i : nat) (env : SiteEnv)
| ReportLost (i : nat)
| PassStarts
| DirectoryReads
| PassFails
| DirectoryArrives
| GroupStarts
| TaskChecks (i : nat) (answers : DnsAnswers)
| TaskAnnounces (i : nat)
| TaskReleases (i : nat) (git : GitAnswers)
| TaskConcludes (i : nat)
| PassEnds (written : bool)
| Restarts.

Definition with_table (rows : sites) (s : SiteSystem) : SiteSystem :=
  {| sy_time := sy_time s; sy_table := rows; sy_host := sy_host s; sy_disk := sy_disk s; sy_posted := sy_posted s;
     sy_log := sy_log s |}.
Definition with_host (h : Host) (s : SiteSystem) : SiteSystem :=
  {| sy_time := sy_time s; sy_table := sy_table s; sy_host := h; sy_disk := sy_disk s; sy_posted := sy_posted s;
     sy_log := sy_log s |}.
Definition with_disk (disk : Disk) (s : SiteSystem) : SiteSystem :=
  {| sy_time := sy_time s; sy_table := sy_table s; sy_host := sy_host s; sy_disk := disk; sy_posted := sy_posted s;
     sy_log := sy_log s |}.
Definition with_posted (posted : list json) (s : SiteSystem) : SiteSystem :=
  {| sy_time := sy_time s; sy_table := sy_table s; sy_host := sy_host s; sy_disk := sy_disk s; sy_posted := posted;
     sy_log := sy_log s |}.
Definition logging (events : list SiteEvent) (s : SiteSystem) : SiteSystem :=
  {| sy_time := sy_time s; sy_table := sy_table s; sy_host := sy_host s; sy_disk := sy_disk s; sy_posted := sy_posted s;
     sy_log := sy_log s ++ events |}.

Section System.
Context (sha256_hex : string -> string) (is_uuid : string -> bool) (config : SiteHostConfig) (cwd directoryToken : string).

(** The clock is that of the system, and [randomUUID] gives UUIDs of version 4. *)
Definition env_ok (env : SiteEnv) (s : SiteSystem) : bool := (sv_now env =? sy_time s) && binding_id (sv_uuid env).
Definition issued_by (owner : string) (o : outcome SiteFault SiteResponse) : list SiteEvent :=
  match o with
  | Gave {| ss_body := BodyMutation m |} => [Issued (sb_id (sm_site m)) owner (dv_hostname (sm_dns m)) (dv_txtValue (sm_dns m))]
  | _ => []
  end.
Definition host_request (method path : string) (body : option json) : SiteRequest :=
  {| rq_method := method; rq_pathname := path; rq_authorization := Some ("Bearer " +:+ directoryToken); rq_body := body |}.

(** A step of the task [i] of the group at work. *)
Definition on_task (i : nat) (s : SiteSystem) (f : SiteTask -> list (list DirectoryBinding) -> list SiteTask -> list SiteTask -> option SiteSystem) :
    option SiteSystem :=
  match ho_pass (sy_host s) with
  | Reconciling groups tasks =>
      match tasks !! i with Some task => f task groups (take i tasks) (drop (S i) tasks) | None => None end
  | _ => None
  end.

(** The release that was made, if it was not there before. *)
Definition made_by (git : GitAnswers) (b : DirectoryBinding) (disk : Disk) (task : SiteTask) : list SiteEvent :=
  match tk_phase task, fetched_revisions git, ga_checkout git with
  | Concluding {| rp_status := SiteActive |}, Ok (source, revision), Ok files =>
      if map_has (db_id b, revision) (dk_releases disk) then [] else [Installed b revision source files]
  | _, _, _ => []
  end.

Definition act (a : SiteAction) (s : SiteSystem) : option SiteSystem :=
  let host := sy_host s in
  match a with
  | Advance time =>
      if sy_time s <=? time
      then Some {| sy_time := time; sy_table := sy_table s; sy_host := host; sy_disk := sy_disk s; sy_posted := sy_posted s;
                   sy_log := sy_log s |}
      else None
  | UserCalls claims request env =>
      if env_ok env s then
        let '(o, rows) := perform (user sha256_hex is_uuid request claims) env (sy_table s) in
        Some (logging (issued_by (cl_sub claims) o) (with_table rows s))
      else None
  | Seeds input env =>
      match systemSiteSchema input with
      | Some site =>
          if env_ok env s then Some (with_table (perform (seed_site sha256_hex site) env (sy_table s)).2 s) else None
      | None => None
      end
  | ReportArrives i env =>
      match sy_posted s !! i with
      | Some body =>
          if env_ok env s then
            let request := host_request "POST" "/internal/v1/static-sites/status" (Some body) in
            Some (with_table (perform (internal is_uuid directoryToken request) env (sy_table s)).2
                    (with_posted (take i (sy_posted s) ++ drop (S i) (sy_posted s)) s))
          else None
      | None => None
      end
  | ReportLost i => Some (with_posted (take i (sy_posted s) ++ drop (S i) (sy_posted s)) s)
  | PassStarts => match ho_pass host with NoPass => Some (with_host (passing Asking host) s) | _ => None end
  | DirectoryReads =>
      match ho_pass host with
      | Asking =>
          let env := {| sv_now := sy_time s; sv_uuid := ""; sv_token := "" |} in
          match perform (internal is_uuid directoryToken (host_request "GET" "/internal/v1/static-sites/bindings" None))
                  env (sy_table s) with
          | (Gave {| ss_body := BodyDirectory bindings |}, _) =>
              Some (logging [Listed (sy_table s)] (with_host (passing (Answered bindings) host) s))
          | _ => None
          end
      | _ => None
      end
  | PassFails =>
      match ho_pass host with Asking | Answered _ => Some (with_host (passing NoPass host) s) | _ => None end
  | DirectoryArrives =>
      match ho_pass host with
      | Answered bindings => Some (with_host (received config bindings host) s)
      | _ => None
      end
  | GroupStarts =>
      match ho_pass host with
      | Reconciling (group :: groups) [] => Some (with_host (passing (Reconciling groups (start_task <$> group)) host) s)
      | _ => None
      end
  | TaskChecks i answers =>
      on_task i s (fun task groups before after =>
        match tk_phase task with
        | Verifying =>
            let '(task', active) := check_site sha256_hex config answers (sy_time s) (tk_binding task) (ho_active host) in
            Some (logging (match tk_phase task' with Announcing => [Resolved (tk_binding task) (sy_time s) answers] | _ => [] end)
                   (with_host (passing (Reconciling groups (before ++ task' :: after)) (activating active host)) s))
        | _ => None
        end)
  | TaskAnnounces i =>
      on_task i s (fun task groups before after =>
        match tk_phase task with
        | Announcing =>
            let task' := {| tk_binding := tk_binding task; tk_phase := Fetching |} in
            Some (with_posted (sy_posted s ++ [report_json (announcement (tk_binding task))])
                   (with_host (passing (Reconciling groups (before ++ task' :: after)) host) s))
        | _ => None
        end)
  | TaskReleases i git =>
      on_task i s (fun task groups before after =>
        match tk_phase task with
        | Fetching =>
            let b := tk_binding task in
            let '(task', active, disk) := release_site config git b (ho_active host) (sy_disk s) in
            Some (logging (made_by git b (sy_disk s) task')
                   (with_disk disk (with_host (passing (Reconciling groups (before ++ task' :: after)) (activating active host)) s)))
        | _ => None
        end)
  | TaskConcludes i =>
      on_task i s (fun task groups before after =>
        match tk_phase task with
        | Concluding r =>
            Some (with_posted (sy_posted s ++ [report_json r])
                   (with_host (passing (Reconciling groups (before ++ after)) host) s))
        | _ => None
        end)
  | PassEnds written =>
      match ho_pass host with
      | Reconciling [] [] =>
          if written
          then Some (with_disk (saved (ho_active host) (sy_disk s))
                      (with_host {| ho_active := ho_active host; ho_ready := true; ho_pass := NoPass |} s))
          else Some (with_host (passing NoPass host) s)
      | _ => None
      end
  | Restarts => Some (with_host (loadPersistedState cwd config (sy_disk s)) s)
  end.
End System.

(** ** Texts *)

Lemma lower_repo_char c : repo_char c = true -> lower_alnum (lower_char c) || one_of "_.-" (lower_char c) = true.
Proof. by destruct c as [[] [] [] [] [] [] [] []]. Qed.

Lemma lower_keeps_slash c : Ascii.eqb "/"%char (lower_char c) = Ascii.eqb "/"%char c.
Proof. by destruct c as [[] [] [] [] [] [] [] []]. Qed.

Lemma split_on_lower d s : (forall c, Ascii.eqb d (lower_char c) = Ascii.eqb d c) ->
  split_on d (to_lower s) = to_lower <$> split_on d s.
Proof.
  intros Hd. induction s as [|c s IH]; cbn; [done|]. rewrite Hd, IH. destruct (Ascii.eqb d c); cbn; [done|].
  by destruct (split_on d s).
Qed.

Lemma lowered_length s : String.length (to_lower s) = String.length s.
Proof. induction s as [|c s IH]; cbn; [done|]. by rewrite IH. Qed.

Lemma repository_lower s : repository s = true -> githubRepository (to_lower s) = true.
Proof.
  unfold repository, githubRepository. rewrite split_on_lower by apply lower_keeps_slash.
  destruct (split_on "/"%char s) as [|owner [|name [|x l]]]; cbn [fmap list_fmap]; try done.
  unfold class_of. rewrite !lowered_length. intros H. bools. repeat (apply andb_true_iff; split); try done.
  all: match goal with |- string_forall _ (to_lower ?t) = true =>
         match goal with H : string_forall repo_char t = true |- _ => revert H; clear end end.
  all: match goal with |- string_forall _ ?t = true -> _ => induction t as [|c t IH]; cbn [string_forall to_lower]; [done|] end.
  all: intros [Hc Ht]%andb_prop; rewrite (lower_repo_char c Hc); by apply IH.
Qed.

Lemma dots_lower s : contains ".." (to_lower s) = contains ".." s.
Proof.
  assert (forall c, "."%char = lower_char c <-> "."%char = c) as Hc.
  { intros c. by destruct c as [[] [] [] [] [] [] [] []]. }
  assert (forall t, starts_with (to_lower t) ".." = starts_with t "..") as Hs.
  { intros [|c [|d t]]; [done| |]; unfold starts_with; cbn [to_lower String.prefix];
      destruct (ascii_dec _ (lower_char c)) as [H1|H1], (ascii_dec _ c) as [H2|H2]; rewrite ?Hc in H1; try done.
    destruct (ascii_dec _ (lower_char d)) as [H3|H3], (ascii_dec _ d) as [H4|H4]; rewrite ?Hc in H3; try done.
    by destruct (to_lower t), t. }
  induction s as [|c s IH]; cbn [to_lower contains]; [done|]. rewrite IH. f_equal. apply (Hs (String c s)).
Qed.

(** ** What passes the validation of the control *)

Record draft_ok (operator : bool) (d : SiteBindingDraft) : Prop := {
  do_hostname : site_hostname (sd_hostname d) = true;
  do_length : (String.length (sd_hostname d) <= 253)%nat;
  do_reserved : operator = false -> reserved (sd_hostname d) = false;
  do_repository : githubRepository (sd_repository d) = true;
  do_dots : contains ".." (sd_repository d) = false;
  do_source : validGitRef ("refs/heads/" +:+ sd_sourceBranch d) = true;
  do_deployment : validGitRef ("refs/heads/" +:+ sd_deploymentBranch d) = true;
  do_deploy : starts_with ("refs/heads/" +:+ sd_deploymentBranch d) "refs/heads/deploy/" = true
}.

Lemma normalizeBranch_valid input deployment s : normalizeBranch input deployment = Ok s ->
  s = input /\ validGitRef ("refs/heads/" +:+ s) = true /\ (deployment = true -> starts_with s "deploy/" = true).
Proof.
  unfold normalizeBranch. intros H. inv_result. bools. split; [done|]. split.
  - unfold validGitRef. cbn [String.append starts_with String.prefix string_drop]. apply andb_true_iff; split; [|done].
    apply andb_true_iff; split; [|by apply negb_true_iff]. apply andb_true_iff; split; [|done]. by destruct s.
  - intros ->. by destruct (starts_with _ _).
Qed.

Lemma valid_gave {A} (m : result A) a : valid m = Some a -> m = Ok a.
Proof. destruct m; cbn; congruence. Qed.

Lemma site_schema_ok operator input d : site_schema operator input = Some d -> draft_ok operator d.
Proof.
  unfold site_schema. intros H.
  repeat match goal with
  | H : (_ ≫= _) = Some _ |- _ => apply bind_Some in H as (? & ? & H)
  | H : valid _ = Some _ |- _ => apply valid_gave in H
  end.
  injection H as <-.
  repeat match goal with
  | H : normalizeBranch _ _ = Ok _ |- _ => apply normalizeBranch_valid in H as (-> & ? & ?)
  end.
  unfold normalizeSiteHostname, normalizeRepository in *. inv_result. bools. constructor; cbn [sd_hostname sd_repository sd_sourceBranch sd_deploymentBranch].
  - unfold site_hostname. apply andb_true_iff. split; [|done].
    match goal with H : Nat.ltb (length _) 2 = false |- _ => apply Nat.ltb_ge in H; by apply Nat.leb_le end.
  - match goal with H : Nat.ltb 253 _ = false |- _ => by apply Nat.ltb_ge in H end.
  - intros ->. by destruct (reserved _).
  - by apply repository_lower.
  - by rewrite dots_lower.
  - done.
  - done.
  - cbn. match goal with H : true = true -> _ |- _ => by apply H end.
Qed.

(** ** Rows *)

(** A row was given to its owner with a token, or it is the operator's. *)
Definition issued (sha256_hex : string -> string) (log : list SiteEvent) (row : string * SiteRow) : Prop :=
  match sr_mode row.2 with
  | ByTxt => exists owner token, sr_owner row.2 = Some owner /\ sr_system row.2 = false /\
      sr_token_hash row.2 = sha256_hex token /\ Issued row.1 owner (sr_hostname row.2) token ∈ log
  | ByOperator => sr_system row.2 = true /\ reserved (sr_hostname row.2) = true
  end.
Record row_ok (sha256_hex : string -> string) (log : list SiteEvent) (row : string * SiteRow) : Prop := {
  ro_valid : validateBinding (binding_of_row row) = Ok tt;
  ro_check : site_check row.2 = true;
  ro_issued : issued sha256_hex log row
}.
(** Two bindings of a table share neither host name nor deployment branch. *)
Definition apart (a b : string * SiteRow) : Prop :=
  sr_hostname a.2 <> sr_hostname b.2 /\
  (sr_repository a.2, sr_artifact_ref a.2) <> (sr_repository b.2, sr_artifact_ref b.2).
Record table_ok (sha256_hex : string -> string) (log : list SiteEvent) (rows : sites) : Prop := {
  to_keys : map_ok rows;
  to_rows : forall row, row ∈ rows -> row_ok sha256_hex log row;
  to_apart : forall a b, a ∈ rows -> b ∈ rows -> a.1 <> b.1 -> apart a b
}.

Lemma row_validates id r operator d : draft_ok operator d -> binding_id id = true -> site_check r = true ->
  sr_hostname r = sd_hostname d -> sr_repository r = sd_repository d -> sr_source_ref r = "refs/heads/" +:+ sd_sourceBranch d ->
  sr_artifact_ref r = "refs/heads/" +:+ sd_deploymentBranch d -> (operator = true -> sr_system r = true) ->
  validateBinding (binding_of_row (id, r)) = Ok tt.
Proof.
  intros [D1 D2 D3 D4 D5 D6 D7 D8] Hid Hc E1 E2 E3 E4 Ho. unfold site_check in Hc. bools. unfold validateBinding, binding_of_row.
  cbn [db_id db_hostname db_repository_full_name db_clone_url db_source_ref db_artifact_ref db_artifact_path
       db_verification_mode db_verification_token_hash db_owner_is_admin fst snd].
  rewrite Hid, E1, D1, E2, D4, D5, E3, D6, E4, D7, D8.
  rewrite (proj2 (Nat.ltb_ge 253 (String.length (sd_hostname d)))) by done.
  assert (reserved (sd_hostname d) && negb (sr_system r) = false) as ->.
  { destruct operator; [rewrite Ho by done; apply andb_false_r|by rewrite D3]. }
  rewrite String.eqb_refl. cbn [negb orb throw_if mbind result_bind].
  match goal with H : String.eqb (sr_artifact_path r) _ = true |- _ => rewrite H end. cbn [negb throw_if mbind result_bind].
  assert (includes ["txt"; "operator"] (mode_text (sr_mode r)) = true) as -> by (by destruct (sr_mode r)).
  cbn [negb throw_if mbind result_bind].
  match goal with H : negb _ || sr_system r && _ = true |- _ => rename H into Hm end.
  match goal with H : hex_text 64 _ = true |- _ => rewrite H end.
  destruct (sr_mode r); [done|]. rewrite bool_decide_eq_true_2, E1 in Hm by done. cbn [negb orb] in Hm. bools.
  by match goal with H : sr_system r = true, H' : reserved _ = true |- _ => rewrite H, H' end.
Qed.

Lemma issued_later hash log more row : issued hash log row -> issued hash (log ++ more) row.
Proof.
  unfold issued. destruct (sr_mode row.2); [|done]. intros (owner & token & H1 & H2 & H3 & H4).
  exists owner, token. do 3 (split; [done|]). apply elem_of_app. by left.
Qed.
Lemma site_row_later hash log more row : row_ok hash log row -> row_ok hash (log ++ more) row.
Proof. intros [H1 H2 H3]. constructor; [done|done|by apply issued_later]. Qed.
Lemma table_ok_later hash log more rows : table_ok hash log rows -> table_ok hash (log ++ more) rows.
Proof. intros [H1 H2 H3]. constructor; [done| |done]. intros row Hr. by apply site_row_later, H2. Qed.

(** *** Writing a row *)

Lemma constraints_gave id r rows u : constraints id r rows = Gave u ->
  site_check r = true /\ forall row, row ∈ rows -> row.1 <> id -> apart (id, r) row.
Proof.
  unfold constraints. destruct (site_check r); cbn [negb]; [|done]. destruct (taken_by_others id r rows) eqn:E; [done|].
  intros _. split; [done|]. intros row Hrow Hid. unfold taken_by_others in E. rewrite existsb_elem_false in E.
  specialize (E row Hrow). rewrite (proj2 (String.eqb_neq _ _) Hid) in E. cbn [negb andb] in E.
  unfold same_hostname, same_artifact in E. bools. unfold apart. cbn [snd].
  match goal with H : String.eqb (sr_hostname row.2) _ = false |- _ => apply String.eqb_neq in H end.
  split; [congruence|]. intros [= E1 E2].
  match goal with H : _ && _ = false |- _ => rewrite E1, E2, !String.eqb_refl in H; done end.
Qed.

Lemma map_ok_unique {A} (m : list (string * A)) k v v' : map_ok m -> (k, v) ∈ m -> (k, v') ∈ m -> v = v'.
Proof. intros Hok H1 H2. apply map_get_ok in H1, H2; [|done|done]. congruence. Qed.

Lemma map_set_elem_ok {A} k (v : A) (m : list (string * A)) e : map_ok m -> e ∈ map_set k v m ->
  e = (k, v) \/ (e ∈ m /\ e.1 <> k).
Proof.
  intros Hok He. destruct (map_set_elem _ _ _ _ He) as [->|Hm]; [by left|]. destruct (decide (e.1 = k)) as [E|E]; [left|by right].
  destruct e as [k' v']. cbn in E. subst k'. f_equal. eapply (map_ok_unique (map_set k v m)); [by apply map_ok_set|done|].
  apply map_get_elem, map_get_set_eq.
Qed.

(** A table with one row written, new or not. *)
Lemma written_ok hash log id r rows rows' : table_ok hash log rows -> row_ok hash log (id, r) ->
  (forall row, row ∈ rows -> row.1 <> id -> apart (id, r) row) -> map_ok rows' ->
  (forall row, row ∈ rows' -> row = (id, r) \/ (row ∈ rows /\ row.1 <> id)) ->
  table_ok hash log rows'.
Proof.
  intros [T1 T2 T3] Hr Ha Hok Hrows. constructor; [done| |].
  - intros row [->|[Hrow _]]%Hrows; [done|by apply T2].
  - intros a b [->|[Ha1 Ha2]]%Hrows [->|[Hb1 Hb2]]%Hrows Hab; [done|by apply Ha| |by apply T3].
    destruct (Ha a Ha1 Ha2) as [H1 H2]. split; congruence.
Qed.

Lemma table_ok_filter hash log (P : string * SiteRow -> Prop) `{!forall e, Decision (P e)} rows :
  table_ok hash log rows -> table_ok hash log (base.filter P rows).
Proof.
  intros [T1 T2 T3]. constructor; [by apply map_ok_filter| |].
  - intros row [_ Hr]%list_elem_of_filter. by apply T2.
  - intros a b [_ Ha]%list_elem_of_filter [_ Hb]%list_elem_of_filter. by apply T3.
Qed.

(** ** The statements *)

Section Statements.
Context (sha256_hex : string -> string) (is_uuid : string -> bool).

Lemma conflicts_gave {A} (t : site_txn A) env rows x : conflicts t env rows = Gave x -> t env rows = Gave x.
Proof. unfold conflicts. repeat case_match; congruence. Qed.

(** What a user's write leaves: one row of theirs, under the token they are told. *)
Record user_write (sub : string) (input : SiteBindingDraft) (env : SiteEnv) (rows : sites) (m : SiteBindingMutation)
    (rows' : sites) (id : string) (r : SiteRow) : Prop := {
  uw_site : sm_site m = siteOf (id, r);
  uw_dns : sm_dns m = {| dv_txtName := "_aven-site." +:+ sd_hostname input; dv_txtValue := sv_token env;
                         dv_hostname := sd_hostname input |};
  uw_owner : sr_owner r = Some sub;
  uw_user : sr_system r = false;
  uw_hostname : sr_hostname r = sd_hostname input;
  uw_repository : sr_repository r = sd_repository input;
  uw_source : sr_source_ref r = "refs/heads/" +:+ sd_sourceBranch input;
  uw_artifact : sr_artifact_ref r = "refs/heads/" +:+ sd_deploymentBranch input;
  uw_token : sr_token_hash r = sha256_hex (sv_token env);
  uw_unverified : sr_verified_at r = None /\ sr_status r = AwaitingDns;
  uw_constraints : constraints id r rows = Gave tt;
  uw_rows : (exists r0, (id, r0) ∈ rows /\ sr_owner r0 = Some sub /\ sr_system r0 = false /\ rows' = map_set id r rows) \/
            (id = sv_uuid env /\ map_has id rows = false /\ rows' = rows ++ [(id, r)])
}.

Lemma persist_gave sub id input env rows m rows' : persist sha256_hex sub id input env rows = Gave (m, rows') ->
  exists key r, user_write sub input env rows m rows' key r.
Proof.
  intros H. apply conflicts_gave in H. cbn in H. destruct (truthy id) as [key|].
  - unfold select, mbind, txn_bind in H. cbn in H. destruct (js_find (own_site key sub) rows) as [[k r0]|] eqn:Ef; [|done].
    apply js_find_Some in Ef as [Hin Hown]. unfold own_site in Hown. cbn [fst snd] in Hown. bools.
    match goal with H : String.eqb k key = true |- _ => apply String.eqb_eq in H as -> end.
    unfold write_row in H. cbn in H. destruct (constraints key _ rows) as [[]|e] eqn:Ec; [|done]. injection H as <- <-.
    exists key. eexists. constructor; try reflexivity; [done|done|done|exact Ec|]. left. exists r0. done.
  - unfold mbind, txn_bind, insert_row in H. cbn in H. destruct (constraints (sv_uuid env) _ rows) as [[]|e] eqn:Ec; [|done].
    destruct (map_has (sv_uuid env) rows) eqn:Eh; [done|]. injection H as <- <-.
    exists (sv_uuid env). eexists. constructor; try reflexivity; [done|exact Ec|]. right. done.
Qed.

Lemma not_system_by_txt r : site_check r = true -> sr_system r = false -> sr_mode r = ByTxt.
Proof. unfold site_check. intros H Hs. destruct (sr_mode r) eqn:E; [done|]. rewrite Hs in H. bools. done. Qed.

Lemma written_keys id r (rows rows' : sites) : map_ok rows ->
  (rows' = map_set id r rows \/ (map_has id rows = false /\ rows' = rows ++ [(id, r)])) ->
  map_ok rows' /\ (id, r) ∈ rows' /\ (forall row, row ∈ rows' -> row = (id, r) \/ (row ∈ rows /\ row.1 <> id)) /\
  (forall row, row ∈ rows -> row.1 <> id -> row ∈ rows').
Proof.
  intros Hok [->|[Hh ->]].
  - split; [by apply map_ok_set|]. split; [apply map_get_elem, map_get_set_eq|].
    split; [intros row; by apply map_set_elem_ok|].
    intros [k v] Hrow Hk. apply map_get_elem. rewrite map_get_set_ne by done. by apply map_get_ok.
  - apply map_has_none in Hh. split; [by apply map_ok_add|]. split; [apply elem_of_app; right; by left|]. split.
    + intros row [Hr| ->%list_elem_of_singleton]%elem_of_app; [right|by left]. split; [done|]. intros E.
      apply map_get_None in Hh. apply Hh. rewrite <- E. by apply list_elem_of_fmap_2.
    + intros row Hr _. apply elem_of_app. by left.
Qed.

Lemma user_write_ok sub input env log rows m rows' id r : table_ok sha256_hex log rows -> draft_ok false input ->
  binding_id (sv_uuid env) = true -> user_write sub input env rows m rows' id r ->
  table_ok sha256_hex (log ++ [Issued id sub (sd_hostname input) (sv_token env)]) rows'.
Proof.
  intros T Hd Hu W. destruct (constraints_gave _ _ _ _ (uw_constraints _ _ _ _ _ _ _ _ W)) as [Hc Ha].
  assert (binding_id id = true) as Hid.
  { destruct (uw_rows _ _ _ _ _ _ _ _ W) as [(r0 & Hr0 & _)|[-> _]]; [|done].
    pose proof (ro_valid _ _ _ (to_rows _ _ _ T _ Hr0)) as Hv. unfold validateBinding in Hv. cbn [db_id binding_of_row fst] in Hv.
    by destruct (binding_id id). }
  destruct (written_keys id r rows rows' (to_keys _ _ _ T)) as (K1 & _ & K2 & _).
  { destruct (uw_rows _ _ _ _ _ _ _ _ W) as [(r0 & _ & _ & _ & ->)|(-> & H1 & ->)]; [by left|by right]. }
  apply (table_ok_later _ _ [Issued id sub (sd_hostname input) (sv_token env)]) in T.
  eapply written_ok; [exact T| |exact Ha|exact K1|exact K2]. destruct W. constructor.
  - by eapply row_validates.
  - done.
  - unfold issued. cbn [snd fst]. rewrite not_system_by_txt by done. exists sub, (sv_token env).
    do 3 (split; [done|]). rewrite uw_hostname0. apply elem_of_app. right. by left.
Qed.

(** What a user's request may change: rows of others, and those of the operator, stay. *)
Definition keeps_others (sub : string) (rows rows' : sites) : Prop :=
  (forall row, row ∈ rows -> sr_owner row.2 <> Some sub \/ sr_system row.2 = true -> row ∈ rows') /\
  (forall row, row ∈ rows' -> row ∈ rows \/ (sr_owner row.2 = Some sub /\ sr_system row.2 = false)).

Lemma user_write_keeps sub input env rows m rows' id r : map_ok rows -> user_write sub input env rows m rows' id r ->
  keeps_others sub rows rows'.
Proof.
  intros Hok W. destruct (written_keys id r rows rows' Hok) as (K1 & K2 & K3 & K4).
  { destruct (uw_rows _ _ _ _ _ _ _ _ W) as [(r0 & _ & _ & _ & ->)|(-> & H1 & ->)]; [by left|by right]. }
  split.
  - intros row Hrow Ho. apply K4; [done|]. intros E.
    destruct (uw_rows _ _ _ _ _ _ _ _ W) as [(r0 & Hr0 & Hs & Hm & _)|(_ & Hh & _)].
    + destruct row as [k r1]. cbn in *. subst k. rewrite (map_ok_unique _ _ _ _ Hok Hrow Hr0) in Ho. destruct Ho; congruence.
    + apply map_has_none, map_get_None in Hh. apply Hh. rewrite <- E. by apply list_elem_of_fmap_2.
  - intros row [->|[Hr _]]%K3; [right|by left]. split; [by apply (uw_owner _ _ _ _ _ _ _ _ W)|by apply (uw_user _ _ _ _ _ _ _ _ W)].
Qed.

Lemma remove_gave sub id env rows u rows' : remove_site sub id env rows = Gave (u, rows') ->
  rows' = base.filter (fun row => own_site id sub row = false) rows.
Proof. unfold remove_site, mbind, txn_bind. cbn. case_bool_decide; [done|]. by intros [= _ <-]. Qed.

Lemma remove_keeps sub id rows : keeps_others sub rows (base.filter (fun row => own_site id sub row = false) rows).
Proof.
  split.
  - intros row Hr Ho. apply list_elem_of_filter. split; [|done]. unfold own_site.
    destruct Ho as [Ho|Ho]; [rewrite (bool_decide_eq_false_2 _ Ho), andb_false_r; done|rewrite Ho; apply andb_false_r].
  - intros row [_ Hr]%list_elem_of_filter. by left.
Qed.

Lemma keeps_others_refl sub rows : keeps_others sub rows rows.
Proof. split; [done|by left]. Qed.

Lemma failure_perform sub t env rows o rows' : perform (failure t) env rows = (o, rows') ->
  (rows' = rows /\ issued_by sub o = []) \/ exists r, t env rows = Gave (r, rows') /\ o = Gave r.
Proof.
  unfold perform, failure. destruct (t env rows) as [[r rows1]|e]; [intros [= <- <-]; right; eauto|].
  intros H. left. destruct e; injection H as <- <-; done.
Qed.

Lemma site_input_gave request env rows d rows' : site_input request env rows = Gave (d, rows') ->
  draft_ok false d /\ rows' = rows.
Proof.
  unfold site_input. destruct (siteBindingInputSchema _) as [d'|] eqn:E; [|done]. intros [= <- <-].
  split; [by eapply site_schema_ok|done].
Qed.

(** A request that writes, of either method. *)
Lemma mutation_perform sub id request status env log rows r rows' : table_ok sha256_hex log rows ->
  binding_id (sv_uuid env) = true ->
  (input ← site_input request; m ← persist sha256_hex sub id input; mret (answer status (BodyMutation m)) : site_txn SiteResponse)
    env rows = Gave (r, rows') ->
  table_ok sha256_hex (log ++ issued_by sub (Gave r)) rows' /\ keeps_others sub rows rows'.
Proof.
  intros T Hu H. unfold mbind, txn_bind in H. destruct (site_input request env rows) as [[d rows1]|e] eqn:Ei; [|done].
  apply site_input_gave in Ei as [Hd ->]. destruct (persist _ _ _ _ _ _) as [[m rows2]|e] eqn:Ep; [|done].
  injection H as <- <-. apply persist_gave in Ep as (key & row & W).
  pose proof (user_write_ok _ _ _ _ _ _ _ _ _ T Hd Hu W) as T'. split; [|by eapply user_write_keeps; [apply T|]].
  unfold issued_by, answer. cbn. by rewrite (uw_site _ _ _ _ _ _ _ _ W), (uw_dns _ _ _ _ _ _ _ _ W).
Qed.

Lemma user_perform request claims env log rows o rows' : table_ok sha256_hex log rows -> binding_id (sv_uuid env) = true ->
  perform (user sha256_hex is_uuid request claims) env rows = (o, rows') ->
  table_ok sha256_hex (log ++ issued_by (cl_sub claims) o) rows' /\ keeps_others (cl_sub claims) rows rows'.
Proof.
  intros T Hu H. assert (table_ok sha256_hex (log ++ []) rows) as T0 by (by rewrite app_nil_r).
  apply (failure_perform (cl_sub claims)) in H as [[-> ->]|(r & H & ->)]; [split; [done|apply keeps_others_refl]|].
  destruct (_ && _); [injection H as <- <-; split; [done|apply keeps_others_refl]|].
  destruct (_ && _); [by eapply mutation_perform|].
  destruct (site_path _ _) as [id|]; [|injection H as <- <-; split; [done|apply keeps_others_refl]].
  destruct (String.eqb _ "PUT"); [by eapply mutation_perform|].
  destruct (String.eqb _ "DELETE"); [|injection H as <- <-; split; [done|apply keeps_others_refl]].
  unfold mbind, txn_bind in H. destruct (remove_site _ _ _ _) as [[u rows1]|e] eqn:Er; [|done]. injection H as <- <-.
  apply remove_gave in Er as ->. split; [by apply table_ok_filter|apply remove_keeps].
Qed.

(** *** Seeds and reports *)

Lemma seeded_ok log id r site rows rows' : table_ok sha256_hex log rows -> draft_ok true site -> binding_id id = true ->
  constraints id r rows = Gave tt -> sr_hostname r = sd_hostname site -> sr_repository r = sd_repository site ->
  sr_source_ref r = "refs/heads/" +:+ sd_sourceBranch site -> sr_artifact_ref r = "refs/heads/" +:+ sd_deploymentBranch site ->
  sr_system r = true -> sr_mode r = ByOperator ->
  (rows' = map_set id r rows \/ (map_has id rows = false /\ rows' = rows ++ [(id, r)])) ->
  table_ok sha256_hex log rows'.
Proof.
  intros T Hd Hid Hc E1 E2 E3 E4 E5 E6 Hrows. apply constraints_gave in Hc as [Hc Ha].
  destruct (written_keys id r rows rows' (to_keys _ _ _ T) Hrows) as (K1 & _ & K2 & _).
  eapply written_ok; [exact T| |exact Ha|exact K1|exact K2]. constructor; [by eapply row_validates|done|].
  unfold issued. cbn [snd]. rewrite E6. split; [done|]. unfold site_check in Hc. rewrite E5, E6 in Hc. bools. cbn in *. done.
Qed.

Lemma row_key_valid log rows id r : table_ok sha256_hex log rows -> (id, r) ∈ rows -> binding_id id = true.
Proof.
  intros T Hr. pose proof (ro_valid _ _ _ (to_rows _ _ _ T _ Hr)) as Hv. unfold validateBinding in Hv.
  cbn [db_id binding_of_row fst] in Hv. by destruct (binding_id id).
Qed.

Lemma seed_perform site env log rows : table_ok sha256_hex log rows -> draft_ok true site -> binding_id (sv_uuid env) = true ->
  table_ok sha256_hex log (perform (seed_site sha256_hex site) env rows).2.
Proof.
  intros T Hd Hu. unfold perform, seed_site. destruct (negb _); [done|].
  destruct (js_find _ rows) as [[id r]|] eqn:Ef.
  - apply js_find_Some in Ef as [Hin _]. unfold write_row. cbn [fst snd].
    destruct (constraints id _ rows) as [[]|e] eqn:Ec; [|done]. cbn.
    eapply seeded_ok; [exact T|exact Hd|by eapply row_key_valid|exact Ec|done..|by left].
  - unfold insert_row. destruct (constraints _ _ rows) as [[]|e] eqn:Ec; [|done]. destruct (map_has _ rows) eqn:Eh; [done|]. cbn.
    eapply seeded_ok; [exact T|exact Hd|exact Hu|exact Ec|done..|by right].
Qed.

(** A report changes none of the columns a binding is made of. *)
Lemma reported_ok log id r input now : row_ok sha256_hex log (id, r) -> row_ok sha256_hex log (id, reported input now r).
Proof. by intros [H1 H2 H3]. Qed.

Lemma report_ok log rows id input now : table_ok sha256_hex log rows ->
  table_ok sha256_hex log (update_where (fun row => String.eqb row.1 id) (reported input now) rows).
Proof.
  intros [T1 T2 T3].
  assert (forall row, row ∈ update_where (fun row => String.eqb row.1 id) (reported input now) rows ->
            exists r, (row.1, r) ∈ rows /\ (row.2 = r \/ row.2 = reported input now r)) as Hrow.
  { intros row (row0 & -> & Hr)%list_elem_of_fmap. destruct row0 as [k r]. exists r. by destruct (String.eqb _ id); cbn; split; auto. }
  constructor; [by apply map_ok_update_where| |].
  - intros [k r'] Hr. destruct (Hrow _ Hr) as (r & H1 & H2). cbn in *. specialize (T2 _ H1).
    destruct H2 as [->| ->]; [done|by apply reported_ok].
  - intros [k r'] [k2 r2'] Ha Hb Hab. destruct (Hrow _ Ha) as (r & H1 & H2), (Hrow _ Hb) as (r2 & H3 & H4). cbn in *.
    destruct (T3 _ _ H1 H3 Hab) as [H5 H6]. unfold apart. cbn in *.
    destruct H2 as [->| ->], H4 as [->| ->]; by split.
Qed.

Lemma internal_perform directoryToken request env log rows : table_ok sha256_hex log rows ->
  table_ok sha256_hex log (perform (internal is_uuid directoryToken request) env rows).2.
Proof.
  intros T. unfold perform, internal. destruct (negb _); [done|]. destruct (_ && _); [done|]. destruct (_ && _); [|done].
  destruct (reportSchema _ _); [|done]. cbn. by apply report_ok.
Qed.

Lemma directory_elem rows b : b ∈ directory_of rows ->
  exists row, row ∈ rows /\ sr_desired row.2 = DesiredActive /\ b = binding_of_row row.
Proof.
  intros (row & -> & Hr)%list_elem_of_fmap. apply elem_of_js_sort, list_elem_of_filter in Hr as [H1 H2]. by exists row.
Qed.
End Statements.

(** ** What is known of the system *)

Section Invariant.
Context (sha256_hex : string -> string) (is_uuid : string -> bool) (config : SiteHostConfig) (cwd directoryToken : string).

Definition listed (log : list SiteEvent) (b : DirectoryBinding) : Prop := exists rows, Listed rows ∈ log /\ b ∈ directory_of rows.
Abbreviation dns_in_order b answers := (verifyDns sha256_hex (db_verification_token_hash b) (sc_allowedIpv4 config)
  (sc_allowedIpv6 config) (db_verification_mode b) answers = Ok None).
(** The DNS was in order for a binding that the directory had listed. *)
Definition resolved (log : list SiteEvent) (b : DirectoryBinding) : Prop :=
  exists before after b0 now answers, log = before ++ Resolved b0 now answers :: after /\ b = verified_binding now b0 /\
    listed before b0 /\ validateBinding b0 = Ok tt /\ dns_in_order b0 answers.
Definition installed (log : list SiteEvent) (id root : string) : Prop :=
  exists b revision source files, Installed b revision source files ∈ log /\ db_id b = id /\ root = release_root config id revision.
Definition site_proved (log : list SiteEvent) (hostname : string) (site : ActiveSite) : Prop :=
  hostname = db_hostname (as_binding site) /\ resolved log (as_binding site) /\
  installed log (db_id (as_binding site)) (as_root site).
Definition task_ok (log : list SiteEvent) (t : SiteTask) : Prop :=
  match tk_phase t with
  | Verifying => listed log (tk_binding t)
  | Announcing | Fetching => resolved log (tk_binding t)
  | Concluding _ => True
  end.
Definition active_ok (log : list SiteEvent) (active : list (string * ActiveSite)) : Prop :=
  forall e, e ∈ active -> site_proved log e.1 e.2.
Definition pass_ok (log : list SiteEvent) (pass : Pass) : Prop :=
  match pass with
  | NoPass | Asking => True
  | Answered bindings => forall b, b ∈ bindings -> listed log b
  | Reconciling groups tasks =>
      (forall group, group ∈ groups -> forall b, b ∈ group -> listed log b) /\ forall t, t ∈ tasks -> task_ok log t
  end.
Record disk_ok (log : list SiteEvent) (disk : Disk) : Prop := {
  ko_releases : forall e, e ∈ dk_releases disk -> exists b source, Installed b e.1.2 source (rl_files e.2) ∈ log /\ db_id b = e.1.1;
  ko_saved : forall l site, dk_saved disk = Some l -> site ∈ l -> site_proved log (db_hostname (as_binding site)) site
}.
Definition event_ok (before : list SiteEvent) (e : SiteEvent) : Prop :=
  match e with
  | Listed rows => table_ok sha256_hex before rows
  | Installed b revision source files => resolved before b /\ checked_out source config files = Ok tt
  | _ => True
  end.
Record sys_ok (s : SiteSystem) : Prop := {
  so_table : table_ok sha256_hex (sy_log s) (sy_table s);
  so_active : active_ok (sy_log s) (ho_active (sy_host s));
  so_pass : pass_ok (sy_log s) (ho_pass (sy_host s));
  so_disk : disk_ok (sy_log s) (sy_disk s);
  so_log : forall before e after, sy_log s = before ++ e :: after -> event_ok before e
}.

(** *** As the log grows *)

Lemma listed_later log more b : listed log b -> listed (log ++ more) b.
Proof. intros (rows & H1 & H2). exists rows. split; [apply elem_of_app; by left|done]. Qed.
Lemma resolved_later log more b : resolved log b -> resolved (log ++ more) b.
Proof.
  intros (before & after & b0 & now & answers & -> & H). exists before, (after ++ more), b0, now, answers.
  split; [by rewrite <- app_assoc|done].
Qed.
Lemma installed_later log more id root : installed log id root -> installed (log ++ more) id root.
Proof.
  intros (b & revision & source & files & H1 & H2). exists b, revision, source, files.
  split; [apply elem_of_app; by left|done].
Qed.
Lemma site_proved_later log more h site : site_proved log h site -> site_proved (log ++ more) h site.
Proof. intros (H1 & H2 & H3). split; [done|]. split; [by apply resolved_later|by apply installed_later]. Qed.
Lemma task_ok_later log more t : task_ok log t -> task_ok (log ++ more) t.
Proof. unfold task_ok. destruct (tk_phase t); try done; [apply listed_later|apply resolved_later..]. Qed.
Lemma active_ok_later log more active : active_ok log active -> active_ok (log ++ more) active.
Proof. intros H e He. by apply site_proved_later, H. Qed.
Lemma pass_ok_later log more pass : pass_ok log pass -> pass_ok (log ++ more) pass.
Proof.
  destruct pass as [| |bindings|groups tasks]; cbn; [done|done| |].
  - intros H b Hb. by apply listed_later, H.
  - intros [H1 H2]. split; [intros g Hg b Hb; by apply listed_later, (H1 g)|intros t Ht; by apply task_ok_later, H2].
Qed.
Lemma disk_ok_later log more disk : disk_ok log disk -> disk_ok (log ++ more) disk.
Proof.
  intros [H1 H2]. constructor.
  - intros e He. destruct (H1 e He) as (b & source & H3 & H4). exists b, source. split; [apply elem_of_app; by left|done].
  - intros l site Hl Hs. by apply site_proved_later, (H2 l).
Qed.

(** One more event. *)
Lemma log_grows log e : (forall before e after, log = before ++ e :: after -> event_ok before e) -> event_ok log e ->
  forall before e' after, log ++ [e] = before ++ e' :: after -> event_ok before e'.
Proof.
  intros Hlog He before e' after E. destruct after as [|x after _] using rev_ind.
  - by apply app_inj_tail in E as [<- <-].
  - rewrite app_comm_cons, app_assoc in E. apply app_inj_tail in E as [E _]. by eapply Hlog.
Qed.

Lemma logging_ok e s : sys_ok s -> event_ok (sy_log s) e -> sys_ok (logging [e] s).
Proof.
  intros [H1 H2 H3 H4 H5] He. constructor; cbn.
  - by apply table_ok_later.
  - by apply active_ok_later.
  - by apply pass_ok_later.
  - by apply disk_ok_later.
  - by apply log_grows.
Qed.

Lemma sites_start_ok time : sys_ok (start_system time).
Proof.
  constructor; cbn.
  - constructor; [apply map_ok_nil|by intros row ?%elem_of_nil|by intros a b ?%elem_of_nil].
  - by intros e ?%elem_of_nil.
  - done.
  - constructor; [by intros e ?%elem_of_nil|done].
  - by intros [] e after.
Qed.

(** *** The parts of a pass *)

Lemma groups_elem {A} n fuel (l : list A) group x : group ∈ groups_of fuel n l -> x ∈ group -> x ∈ l.
Proof.
  revert l. induction fuel as [|fuel IH]; intros l; cbn; [by intros ?%elem_of_nil|].
  destruct l as [|y l]; [by intros ?%elem_of_nil|]. intros [->|Hg]%elem_of_cons Hx.
  - apply elem_of_take in Hx as (i & Hi & _). by eapply list_elem_of_lookup_2.
  - specialize (IH _ Hg Hx). rewrite <- (take_drop n (y :: l)). apply elem_of_app. by right.
Qed.

Lemma active_delete log h active : active_ok log active -> active_ok log (map_delete h active).
Proof. intros H e He. apply H. unfold map_delete in He. by apply list_elem_of_filter in He as [_ He]. Qed.

Lemma check_site_ok log answers now b active task active' : listed log b -> active_ok log active ->
  check_site sha256_hex config answers now b active = (task, active') ->
  active_ok log active' /\
  match tk_phase task with
  | Announcing => tk_binding task = verified_binding now b /\ validateBinding b = Ok tt /\ dns_in_order b answers
  | Concluding _ => True
  | _ => False
  end.
Proof.
  intros Hb Ha. unfold check_site. destruct (validateBinding b) as [[]|m]; [|by intros [= <- <-]].
  destruct (verifyDns _ _ _ _ _ _) as [[reason|]|m]; [|by intros [= <- <-]|by intros [= <- <-]].
  intros [= <- <-]. split; [|done]. case_match; [by apply active_delete|done].
Qed.

Lemma materialize_gave b git disk m disk' : materialize b config git disk = Ok (m, disk') ->
  exists source artifact, fetched_revisions git = Ok (source, artifact) /\ mt_root m = release_root config (db_id b) artifact /\
    mt_artifactRevision m = artifact /\ mt_sourceRevision m = source /\ dk_saved disk' = dk_saved disk /\
    ((map_has (db_id b, artifact) (dk_releases disk) = true /\ forall e, e ∈ dk_releases disk' -> e ∈ dk_releases disk) \/
     (map_has (db_id b, artifact) (dk_releases disk) = false /\ exists files, ga_checkout git = Ok files /\
        checked_out source config files = Ok tt /\
        forall e, e ∈ dk_releases disk' -> e ∈ dk_releases disk \/ e = ((db_id b, artifact), {| rl_files := files; rl_mtime := ga_time git |}))).
Proof.
  unfold materialize. intros H. destruct (validateBinding b) as [[]|]; [|done]. cbn [mbind result_bind] in H.
  destruct (fetched_revisions git) as [[source artifact]|]; [|done]. cbn [mbind result_bind] in H.
  destruct (ga_tree git) as [listing|]; [|done]. cbn [mbind result_bind] in H.
  destruct (validateArtifactTree _ _ _) as [[]|]; [|done]. cbn [mbind result_bind] in H.
  exists source, artifact. split; [done|]. destruct (map_has _ _) eqn:Eh.
  - injection H as <- <-. do 4 (split; [done|]). left. split; [done|]. cbn. by intros e [_ He]%list_elem_of_filter.
  - destruct (ga_checkout git) as [files|]; [|done]. cbn [mbind result_bind] in H.
    destruct (checked_out _ _ _) as [[]|] eqn:Ec; [|done]. injection H as <- <-. do 4 (split; [done|]). right. split; [done|].
    exists files. split; [done|]. split; [done|]. cbn. intros e [_ He]%list_elem_of_filter.
    apply elem_of_app in He as [He|He]; [by left|right]. by apply list_elem_of_singleton in He.
Qed.

Lemma release_site_ok log git b active disk task active' disk' : resolved log b -> active_ok log active -> disk_ok log disk ->
  release_site config git b active disk = (task, active', disk') ->
  exists made, made_by git b disk task = made /\ active_ok (log ++ made) active' /\ disk_ok (log ++ made) disk' /\
    task_ok log task /\
    (made = [] \/ exists revision source files, made = [Installed b revision source files] /\ checked_out source config files = Ok tt).
Proof.
  intros Hb Ha Hd. unfold release_site. destruct (materialize b config git disk) as [[m disk1]|message] eqn:Em.
  2:{ intros [= <- <- <-]. exists []. rewrite app_nil_r. by repeat (split; [done|]); left. }
  apply materialize_gave in Em as (source & artifact & Ef & E1 & E2 & E3 & E4 & Hcase). intros [= <- <- <-].
  unfold made_by. cbn [tk_phase rp_status]. rewrite Ef.
  assert (forall more, installed (log ++ more) (db_id b) (mt_root m) ->
            active_ok (log ++ more) (map_set (db_hostname b) {| as_binding := b; as_root := mt_root m |} active)) as Hactive.
  { intros more Hi e [->|He]%map_set_elem; [|by apply site_proved_later, Ha]. split; [done|]. split; [by apply resolved_later|done]. }
  destruct Hcase as [[Hh Hr]|(Hh & files & Ec & Hc & Hr)].
  - assert (exists b' source', Installed b' artifact source' (match map_get (db_id b, artifact) (dk_releases disk) with
              Some r => rl_files r | None => [] end) ∈ log /\ db_id b' = db_id b) as (b' & source' & Hi & Hid).
    { apply map_has_get in Hh as (r & Hh). rewrite Hh. apply map_get_elem in Hh. by apply (ko_releases _ _ Hd) in Hh. }
    exists []. rewrite app_nil_r. split; [destruct (ga_checkout git); [by rewrite Hh|done]|]. split.
    + rewrite <- (app_nil_r log). apply Hactive. rewrite app_nil_r. by exists b', artifact, source', (match map_get (db_id b, artifact) (dk_releases disk) with
              Some r => rl_files r | None => [] end).
    + split; [|split; [done|by left]]. destruct Hd as [D1 D2]. constructor; [intros e He; by apply D1, Hr|]. rewrite E4. exact D2.
  - rewrite Ec, Hh. eexists. split; [reflexivity|]. split; [|split; [|split; [done|right; by exists artifact, source, files]]].
    + apply Hactive. exists b, artifact, source, files. split; [apply elem_of_app; right; by left|done].
    + apply (disk_ok_later _ [Installed b artifact source files]) in Hd as [D1 D2].
      constructor; [|rewrite E4; exact D2]. intros e [He| ->]%Hr; [by apply D1|]. exists b, source. cbn.
      split; [apply elem_of_app; right; by left|done].
Qed.

(** ** Every step *)

Lemma on_task_gave i s f s' : on_task i s f = Some s' ->
  exists task groups before after, ho_pass (sy_host s) = Reconciling groups (before ++ task :: after) /\
    f task groups before after = Some s'.
Proof.
  unfold on_task. destruct (ho_pass (sy_host s)) as [| |bs|groups tasks]; try done.
  destruct (tasks !! i) as [task|] eqn:E; [|done]. intros H. exists task, groups, (take i tasks), (drop (S i) tasks).
  split; [|done]. by rewrite take_drop_middle.
Qed.

Lemma pass_replaces log groups before task after more : pass_ok log (Reconciling groups (before ++ task :: after)) ->
  (forall t, t ∈ more -> task_ok log t) -> pass_ok log (Reconciling groups (before ++ more ++ after)).
Proof.
  intros [H1 H2] Hm. split; [done|]. intros t. rewrite !elem_of_app. intros [Ht|[Ht|Ht]]; [|by apply Hm|].
  all: apply H2; rewrite elem_of_app, elem_of_cons; tauto.
Qed.

Lemma loaded_ok log disk : disk_ok log disk -> active_ok log (ho_active (loadPersistedState cwd config disk)).
Proof.
  intros [_ H]. unfold loadPersistedState. destruct (dk_saved disk) as [l|]; cbn; [|by intros e ?%elem_of_nil].
  assert (forall site, site ∈ l -> site_proved log (db_hostname (as_binding site)) site) as Hl by (by intros site; apply H).
  clear H. assert (active_ok log []) as Ha by (by intros e ?%elem_of_nil). revert Ha. generalize (@nil (string * ActiveSite)).
  induction l as [|site l IH]; intros active Ha; cbn; [done|]. apply IH; [intros x Hx; apply Hl; by right|].
  destruct (loadable _ _ _ _); [|done]. intros e [->|He]%map_set_elem; [apply Hl; by left|by apply Ha].
Qed.

Lemma table_step rows s : sys_ok s -> table_ok sha256_hex (sy_log s) rows -> sys_ok (with_table rows s).
Proof. by intros [H1 H2 H3 H4 H5] T. Qed.
Lemma host_step h s : sys_ok s -> active_ok (sy_log s) (ho_active h) -> pass_ok (sy_log s) (ho_pass h) -> sys_ok (with_host h s).
Proof. by intros [H1 H2 H3 H4 H5] Ha Hp. Qed.

Lemma check_step i answers s s' : sys_ok s -> act sha256_hex is_uuid config cwd directoryToken (TaskChecks i answers) s = Some s' -> sys_ok s'.
Proof.
  intros Hok H. apply on_task_gave in H as (task & groups & before & after & Hp & H). pose proof (so_pass _ Hok) as Hpass.
  rewrite Hp in Hpass. destruct (tk_phase task) eqn:Et; try done.
  assert (listed (sy_log s) (tk_binding task)) as Hb.
  { pose proof (proj2 Hpass task) as Ht. unfold task_ok in Ht. rewrite Et in Ht. apply Ht. apply elem_of_app. right. by left. }
  destruct (check_site _ _ _ _ _ _) as [task' active] eqn:Ec. injection H as <-.
  destruct (check_site_ok _ _ _ _ _ _ _ Hb (so_active _ Hok) Ec) as [Ha Ht].
  destruct (tk_phase task') eqn:Et'; try done.
  - destruct Ht as (Ht1 & Ht2 & Ht3). destruct Hok as [H1 H2 H3 H4 H5].
    apply (pass_ok_later _ [Resolved (tk_binding task) (sy_time s) answers]) in Hpass.
    constructor; cbn; [by apply table_ok_later|by apply active_ok_later| |by apply disk_ok_later|by apply log_grows].
    apply (pass_replaces _ _ _ _ _ [task'] Hpass). intros t ->%list_elem_of_singleton. unfold task_ok. rewrite Et', Ht1.
    exists (sy_log s), [], (tk_binding task), (sy_time s), answers. done.
  - destruct Hok as [H1 H2 H3 H4 H5]. constructor; cbn; rewrite ?app_nil_r; [done|done| |done|done].
    apply (pass_replaces _ _ _ _ _ [task'] Hpass). intros t ->%list_elem_of_singleton. unfold task_ok. by rewrite Et'.
Qed.

Lemma release_step i git s s' : sys_ok s -> act sha256_hex is_uuid config cwd directoryToken (TaskReleases i git) s = Some s' -> sys_ok s'.
Proof.
  intros Hok H. apply on_task_gave in H as (task & groups & before & after & Hp & H). pose proof (so_pass _ Hok) as Hpass.
  rewrite Hp in Hpass. destruct (tk_phase task) eqn:Et; try done.
  assert (resolved (sy_log s) (tk_binding task)) as Hb.
  { pose proof (proj2 Hpass task) as Ht. unfold task_ok in Ht. rewrite Et in Ht. apply Ht. apply elem_of_app. right. by left. }
  cbv zeta in H. destruct (release_site config git _ _ _) as [[task' active] disk] eqn:Er. injection H as <-.
  destruct (release_site_ok _ _ _ _ _ _ _ _ Hb (so_active _ Hok) (so_disk _ Hok) Er) as (made & -> & Ha & Hd & Ht & Hmade).
  destruct Hok as [H1 H2 H3 H4 H5]. constructor; cbn; [by apply table_ok_later|done| |done|].
  - apply (pass_replaces _ _ _ task _ [task']); [by apply pass_ok_later|]. intros t ->%list_elem_of_singleton. by apply task_ok_later.
  - destruct Hmade as [->|(revision & source & files & -> & Hc)]; [by rewrite app_nil_r|]. by apply log_grows.
Qed.

Lemma act_ok a s s' : sys_ok s -> act sha256_hex is_uuid config cwd directoryToken a s = Some s' -> sys_ok s'.
Proof.
  intros Hok H. pose proof Hok as [H1 H2 H3 H4 H5].
  destruct a as [time|claims request env|input env|i env|i| | | | | |i answers|i|i git|i|written|]; cbn [act] in H;
    [| | | | | | | | | |by eapply check_step| |by eapply release_step| | |].
  - destruct (_ <=? _); [|done]. by injection H as <-.
  - destruct (env_ok env s) eqn:He; [|done]. unfold env_ok in He. bools. destruct (perform _ _ _) as [o rows] eqn:Ep.
    injection H as <-. eapply user_perform in Ep as [T _]; [|exact H1|done].
    destruct (issued_by _ o) as [|e l] eqn:El; [rewrite app_nil_r in T; constructor; cbn; by rewrite ?app_nil_r|].
    unfold issued_by in El. destruct o as [[st []]|]; try done. injection El as <- <-.
    constructor; cbn; [done|by apply active_ok_later|by apply pass_ok_later|by apply disk_ok_later|by apply log_grows].
  - destruct (systemSiteSchema input) as [site|] eqn:Es; [|done]. destruct (env_ok env s) eqn:He; [|done].
    unfold env_ok in He. bools. injection H as <-. apply table_step; [done|]. apply seed_perform; [done|by eapply site_schema_ok|done].
  - destruct (sy_posted s !! i); [|done]. destruct (env_ok env s); [|done]. injection H as <-.
    constructor; cbn; [by apply internal_perform|done..].
  - by injection H as <-.
  - destruct (ho_pass (sy_host s)); try done. injection H as <-. by apply host_step.
  - destruct (ho_pass (sy_host s)); try done. unfold perform, internal in H.
    unfold authorized, host_request in H. cbn in H. rewrite String.eqb_refl in H. cbn in H. injection H as <-.
    constructor; cbn; [by apply table_ok_later|by apply active_ok_later| |by apply disk_ok_later|by apply log_grows].
    intros b Hb. exists (sy_table s). split; [apply elem_of_app; right; by left|done].
  - destruct (ho_pass (sy_host s)); try done; injection H as <-; by apply host_step.
  - destruct (ho_pass (sy_host s)) as [| |bindings|] eqn:Ep; try done. injection H as <-. apply host_step; [done| |].
    + intros e [_ He]%list_elem_of_filter. by apply H2.
    + split; [|by intros t ?%elem_of_nil]. intros group Hg b Hb. apply (H3 b). by eapply groups_elem.
  - destruct (ho_pass (sy_host s)) as [| | |[|group groups] [|? ?]] eqn:Ep; try done. injection H as <-. apply host_step; [done|done|].
    destruct H3 as [H3 _]. split; [intros g Hg; apply H3; by right|].
    intros t (b & -> & Hb)%list_elem_of_fmap. apply (H3 group); [by left|done].
  - apply on_task_gave in H as (task & groups & before & after & Hp & H). rewrite Hp in H3.
    destruct (tk_phase task) eqn:Et; try done. injection H as <-. constructor; cbn; [done|done| |done|done].
    apply (pass_replaces _ _ _ task _ [_]); [done|]. intros t ->%list_elem_of_singleton.
    pose proof (proj2 H3 task) as Ht. unfold task_ok in *. rewrite Et in Ht. apply Ht. apply elem_of_app. right. by left.
  - apply on_task_gave in H as (task & groups & before & after & Hp & H). rewrite Hp in H3.
    destruct (tk_phase task) eqn:Et; try done. injection H as <-. constructor; cbn; [done|done| |done|done].
    apply (pass_replaces _ _ _ task _ []); [done|]. by intros t ?%elem_of_nil.
  - destruct (ho_pass (sy_host s)) as [| | |[|? ?] [|? ?]] eqn:Ep; try done. destruct written; injection H as <-.
    + constructor; cbn; [done|done|done| |done]. destruct H4 as [D1 D2]. constructor; [done|]. cbn. intros l site [= <-] Hs.
      apply list_elem_of_fmap in Hs as (e & -> & He). destruct (H2 e He) as (E1 & E2 & E3). by split.
    + by apply host_step.
  - injection H as <-. apply host_step; [done|by apply loaded_ok|]. unfold loadPersistedState. by destruct (dk_saved _).
Qed.
End Invariant.

(** ** Paths *)

Lemma split_on_both c s t : split_on c (s +:+ String c t) = split_on c s ++ split_on c t.
Proof.
  induction s as [|d s IH]; cbn; [by rewrite Ascii.eqb_refl|]. destruct (Ascii.eqb c d); [by rewrite IH|].
  rewrite IH. by destruct (split_on_cons c s) as (h & l & ->).
Qed.

Lemma split_on_pieces c s : Forall (fun t => free_of c t = true) (split_on c s).
Proof.
  induction s as [|d s IH]; cbn; [by repeat constructor|]. destruct (Ascii.eqb c d) eqn:E; [by constructor|].
  destruct (split_on c s) as [|h t]; inversion IH; subst; constructor; cbn; try constructor; rewrite ?E; done.
Qed.

Lemma starts_with_dot s : starts_with s "." = starts_in "." s.
Proof.
  destruct s as [|c s]; [done|]. unfold starts_with. cbn [String.prefix starts_in]. unfold one_of.
  destruct (ascii_dec "."%char c) as [<-|Hc]; [by destruct s|]. symmetry. apply bool_decide_eq_false. cbn.
  rewrite (proj2 (Ascii.eqb_neq _ _)) by done. by intros [? ?].
Qed.

(** The segments of an absolute path. *)
Definition segments (path : string) : list string := segments_of false path.
Definition plain_segment (c : string) : Prop := c <> "" /\ c <> "." /\ c <> ".." /\ free_of "/"%char c = true.

Lemma path_step_empty up stack : path_step up stack "" = stack.
Proof. done. Qed.

Lemma path_step_plain up stack c : plain_segment c -> path_step up stack c = c :: stack.
Proof. intros (H1 & H2 & H3 & _). unfold path_step. by rewrite !(proj2 (String.eqb_neq _ _)). Qed.

Lemma fold_plain up l stack : Forall plain_segment l -> foldl (path_step up) stack l = reverse l ++ stack.
Proof.
  intros H. revert stack. induction H as [|c l Hc _ IH]; intros stack; [done|].
  cbn [foldl]. rewrite path_step_plain by done. rewrite IH, reverse_cons. by rewrite <- app_assoc.
Qed.

Lemma fold_stays_plain l stack : Forall plain_segment stack -> Forall (fun c => free_of "/"%char c = true) l ->
  Forall plain_segment (foldl (path_step false) stack l).
Proof.
  intros Hs Hl. revert stack Hs. induction Hl as [|c l Hc _ IH]; intros stack Hs; cbn; [done|]. apply IH. unfold path_step.
  destruct (String.eqb_spec c ""), (String.eqb_spec c "."); cbn [orb]; try done. destruct (String.eqb_spec c "..").
  - destruct Hs as [|d rest Hd Hr]; [done|]. destruct Hd as (_ & _ & Hd & _). by rewrite (proj2 (String.eqb_neq _ _) Hd).
  - by constructor.
Qed.

Lemma segments_plain p : Forall plain_segment (segments p).
Proof. unfold segments, segments_of. apply Forall_reverse, fold_stays_plain; [constructor|apply split_on_pieces]. Qed.

Lemma fold_split_plain l : l <> [] -> Forall plain_segment l ->
  foldl (path_step false) [] (split_on "/"%char (Prelude.join "/" l)) = reverse l.
Proof.
  intros Hne Hl. rewrite split_on_join; [|done|]. 
  - by rewrite fold_plain, app_nil_r.
  - eapply Forall_impl; [exact Hl|]. by intros c (_ & _ & _ & ?).
Qed.

Lemma is_absolute_iff p : is_absolute p = true <-> exists t, p = String "/"%char t.
Proof.
  unfold is_absolute, starts_with. split.
  - destruct p as [|c p]; [done|]. cbn [String.prefix]. destruct (ascii_dec _ c) as [<-|]; [by exists p|done].
  - intros (t & ->). cbn [String.prefix]. destruct (ascii_dec _ _); [by destruct t|done].
Qed.

(** A normalized path is another name for the same place. *)
Lemma segments_normalize p : is_absolute p = true -> segments (normalize p) = segments p /\ is_absolute (normalize p) = true.
Proof.
  intros Ha. unfold normalize. destruct (String.eqb_spec p "") as [->|Hp]; [done|]. rewrite Ha. cbn [negb].
  change (segments_of false p) with (segments p). pose proof (segments_plain p) as Hpl.
  assert (forall t, is_absolute ("/" +:+ t) = true) as Habs by (intros t; apply is_absolute_iff; eauto).
  split; [|by repeat case_match]. destruct (segments p) as [|c l] eqn:Es; [done|].
  assert (Prelude.join "/" (c :: l) <> "") as Hj.
  { inversion Hpl as [|? ? (H1 & _) _]; subst. destruct l; cbn; [done|]. by destruct c. }
  rewrite (proj2 (String.eqb_neq _ _) Hj). unfold segments, segments_of in *.
  assert (forall t, split_on "/"%char ("/" +:+ t) = "" :: split_on "/"%char t) as Hsplit by done.
  destruct (ends_in "/" p); rewrite Hsplit; cbn [foldl].
  - change (Prelude.join "/" (c :: l) +:+ "/") with (Prelude.join "/" (c :: l) +:+ String "/"%char ""). rewrite split_on_both, foldl_app.
    rewrite path_step_empty, fold_split_plain by done. cbn [split_on foldl].
    by rewrite path_step_empty, reverse_involutive.
  - by rewrite path_step_empty, fold_split_plain, reverse_involutive.
Qed.

Definition inner (path : string) : list string := base.filter (fun c => String.eqb c "" = false) (split_on "/"%char path).
Definition undotted (c : string) : Prop := starts_with c "." = false.

Lemma fold_undotted l stack : Forall (fun c => free_of "/"%char c = true) l -> Forall undotted l ->
  foldl (path_step false) stack l = reverse (base.filter (fun c => String.eqb c "" = false) l) ++ stack.
Proof.
  intros Hf Hu. revert stack. induction Hu as [|c l Hc _ IH]; intros stack; [done|]. inversion Hf as [|? ? Hfc Hfl]; subst.
  cbn [foldl]. rewrite IH by done. rewrite filter_cons. destruct (String.eqb_spec c "") as [->|Hne].
  - rewrite decide_False by done. done.
  - rewrite decide_True by done. rewrite path_step_plain, reverse_cons, <- app_assoc; [done|].
    split; [done|]. split; [by intros ->|]. split; [by intros ->|done].
Qed.

(** What is joined to a place and has no dots in front stays below it. *)
Lemma segments_join root x : is_absolute root = true -> x <> "" -> Forall undotted (split_on "/"%char x) ->
  segments (join_paths [root; x]) = segments root ++ inner x /\ is_absolute (join_paths [root; x]) = true.
Proof.
  intros Ha Hx Hu. unfold join_paths.
  assert (root <> "") as Hr by (by intros ->).
  rewrite !filter_cons, !decide_True by (by apply String.eqb_neq). rewrite filter_nil.
  change (Prelude.join "/" [root; x]) with (root +:+ String "/"%char x).
  assert (is_absolute (root +:+ String "/"%char x) = true) as Ha'.
  { apply is_absolute_iff in Ha as (t & ->). apply is_absolute_iff. by eexists. }
  destruct (segments_normalize _ Ha') as [-> H2]. split; [|done].
  unfold segments, segments_of. rewrite split_on_both, foldl_app, fold_undotted; [|apply split_on_pieces|done].
  by rewrite reverse_app, reverse_involutive.
Qed.

(** *** The path of a request *)

Lemma dotted_parts s :
  (starts_in "." (hd "" (split_on "/"%char s)) = true -> starts_in "." (hd "" (split_slashes s)) = true) /\
  (forall c, c ∈ tail (split_on "/"%char s) -> starts_in "." c = true ->
     exists part, part ∈ tail (split_slashes s) /\ starts_in "." part = true).
Proof.
  induction s as [|c s [IH1 IH2]]; [by split; [|intros c ?%elem_of_nil]|].
  assert (exists h t, split_on "/"%char s = h :: t) as (h & t & Eh) by apply split_on_cons.
  assert (exists h' t', split_slashes s = h' :: t') as (h' & t' & Eh').
  { clear. destruct s as [|c s]; cbn; [eauto|]. destruct (is_slash c); [eauto|]. destruct (split_slashes s); eauto. }
  rewrite Eh, Eh' in *. cbn [split_on split_slashes]. rewrite Eh, Eh'. cbn [hd tail] in *.
  assert (forall x, x ∈ h :: t -> starts_in "." x = true -> exists part, part ∈ h' :: t' /\ starts_in "." part = true) as Hall.
  { intros x [->|Hx]%elem_of_cons Hd; [exists h'; split; [left|by apply IH1]|].
    destruct (IH2 x Hx Hd) as (part & H1 & H2). exists part. split; [by right|done]. }
  destruct (Ascii.eqb_spec "/"%char c) as [<-|Hc]; cbn [hd tail]; [by split|].
  destruct (is_slash c) eqn:Es; cbn [hd tail].
  - split; [|intros x Hx; apply Hall; by right]. intros Hd. exfalso. revert Hd Es. clear.
    destruct c as [[] [] [] [] [] [] [] []]; cbn; done.
  - split; [done|exact IH2].
Qed.

Lemma undotted_split s : existsb (fun part => starts_with part ".") (split_slashes s) = false -> Forall undotted (split_on "/"%char s).
Proof.
  rewrite existsb_elem_false. intros H. apply Forall_forall. intros c Hc. unfold undotted. rewrite starts_with_dot.
  destruct (starts_in "." c) eqn:E; [|done]. exfalso. destruct (dotted_parts s) as [H1 H2].
  destruct (split_on_cons "/"%char s) as (h & t & Eh). rewrite Eh in *. cbn in *. apply elem_of_cons in Hc as [->|Hc].
  - destruct (split_slashes s) as [|part l] eqn:Es; cbn in *; [by specialize (H1 E)|].
    specialize (H part). rewrite starts_with_dot, H1 in H by done. assert (true = false); [apply H; left|done].
  - destruct (H2 c Hc E) as (part & Hp & Hd). specialize (H part). rewrite starts_with_dot, Hd in H.
    assert (true = false); [|done]. apply H. destruct (split_slashes s); [by apply elem_of_nil in Hp|by right].
Qed.

Lemma relative_undotted pathname relative : relative_of pathname = Some relative -> Forall undotted (split_on "/"%char relative).
Proof.
  unfold relative_of. cbv zeta. destruct (_ || _) eqn:E; [done|]. intros [= <-]. apply orb_false_iff in E as [_ E]. by apply undotted_split.
Qed.

Lemma relative_starts pathname relative : relative_of pathname = Some relative -> relative <> "" -> inner relative <> [].
Proof.
  unfold relative_of. cbv zeta. destruct (_ || _); [done|]. intros [= <-] Hne.
  assert (forall s, without_slashes s <> "" -> exists c t, without_slashes s = String c t /\ is_slash c = false) as Hw.
  { clear. induction s as [|c s IH]; cbn; [done|]. destruct (is_slash c) eqn:E; [apply IH|]. by exists c, s. }
  destruct (Hw _ Hne) as (c & t & -> & Hc). unfold inner. cbn [split_on].
  destruct (Ascii.eqb_spec "/"%char c) as [<-|]; [done|]. destruct (split_on_cons "/"%char t) as (h & l & ->).
  rewrite filter_cons, decide_True by done. done.
Qed.

Lemma inner_undotted x : Forall undotted (split_on "/"%char x) -> Forall undotted (inner x).
Proof. intros H. unfold inner. apply Forall_forall. intros c [_ Hc]%list_elem_of_filter. by eapply Forall_forall in H. Qed.

(** A file within a place: below it, under a name without dots in front. *)
Definition within_place (root file : string) : Prop :=
  exists rest, segments file = segments root ++ rest /\ rest <> [] /\ Forall undotted rest.

Lemma index_undotted : Forall undotted (split_on "/"%char "index.html").
Proof. repeat constructor. Qed.

Lemma file_of_within stat root pathname relative file : is_absolute root = true -> relative_of pathname = Some relative ->
  file_of stat root relative = Some file -> within_place root file /\ stat file = Some IsFile.
Proof.
  intros Ha Hr. unfold file_of. cbv zeta. set (x := if String.eqb relative "" then "index.html" else relative).
  assert (x <> "" /\ Forall undotted (split_on "/"%char x) /\ inner x <> []) as (Hx1 & Hx2 & Hx3).
  { subst x. destruct (String.eqb_spec relative "") as [->|Hne]; [by split; [|split; [apply index_undotted|]]|].
    split; [done|]. split; [by eapply relative_undotted|by eapply relative_starts]. }
  destruct (segments_join root x Ha Hx1 Hx2) as [S1 A1].
  destruct (segments_join root "index.html" Ha) as [S2 _]; [done|apply index_undotted|].
  destruct (segments_join (join_paths [root; x]) "index.html" A1) as [S3 _]; [done|apply index_undotted|].
  assert (within_place root (join_paths [root; x])) as W1 by (exists (inner x); split; [done|]; split; [done|by apply inner_undotted]).
  assert (within_place root (join_paths [root; "index.html"])) as W2.
  { exists (inner "index.html"). split; [done|]. split; [done|]. apply inner_undotted, index_undotted. }
  assert (within_place root (join_paths [join_paths [root; x]; "index.html"])) as W3.
  { exists (inner x ++ inner "index.html"). rewrite S3, S1, <- app_assoc. split; [done|]. split; [by destruct (inner x)|].
    apply Forall_app. split; apply inner_undotted; [done|apply index_undotted]. }
  assert (forall f, (if bool_decide (stat f = Some IsFile) then Some f else None) = Some file -> within_place root f ->
            within_place root file /\ stat file = Some IsFile) as Hf.
  { intros f. case_bool_decide; [|done]. by intros [= <-]. }
  destruct (stat (join_paths [root; x])) as [[| |]|]; [by intros H; apply (Hf _ H)|by intros H; apply (Hf _ H)|..].
  all: destruct (String.eqb (extname relative) ""); [by intros H; apply (Hf _ H)|done].
Qed.

Lemma join_absolute d l : is_absolute d = true -> is_absolute (join_paths (d :: l)) = true.
Proof.
  intros H. unfold join_paths. apply is_absolute_iff in H as (t & ->). rewrite filter_cons, decide_True by done.
  apply segments_normalize. apply is_absolute_iff. destruct (base.filter _ l); [by exists t|].
  rewrite join_cons by done. by eexists.
Qed.

(** ** What the program promises *)

Section Promises.
Context (sha256_hex : string -> string) (is_uuid : string -> bool) (config : SiteHostConfig) (cwd directoryToken : string).

Definition site_step (s s' : SiteSystem) : Prop := exists a, act sha256_hex is_uuid config cwd directoryToken a s = Some s'.
Definition reachable (s : SiteSystem) : Prop := exists time, rtc site_step (start_system time) s.

Lemma sites_reachable_ok s : reachable s -> sys_ok sha256_hex config s.
Proof.
  intros (time & H). pose proof (sites_start_ok sha256_hex config time) as Hok. revert Hok.
  induction H as [|s1 s2 s3 [a Ha] _ IH]; intros Hok; [done|]. apply IH. by eapply act_ok.
Qed.

Lemma verifyDns_ok b answers :
  verifyDns sha256_hex (db_verification_token_hash b) (sc_allowedIpv4 config) (sc_allowedIpv6 config) (db_verification_mode b) answers = Ok None ->
  (db_verification_mode b = "txt" -> exists records parts, da_txt answers = Gave records /\ parts ∈ records /\
     sha256_hex (Prelude.join "" parts) = db_verification_token_hash b) /\
  exists ips, da_ipv4 answers = Gave ips /\ ips <> [] /\ forall ip, ip ∈ ips -> ip ∈ sc_allowedIpv4 config.
Proof.
  unfold verifyDns. intros H.
  destruct (if String.eqb (db_verification_mode b) "txt" then _ else _) as [txt|] eqn:Et; [|done]. cbn [mbind result_bind] in H.
  destruct txt; [|done]. cbn [negb] in H. split.
  - intros Hm. rewrite Hm in Et. cbn in Et. unfold optional in Et. destruct (da_txt answers) as [records|e].
    + injection Et as Et. apply existsb_elem in Et as (parts & Hp & Heq). apply String.eqb_eq in Heq. by exists records, parts.
    + by destruct (missing e).
  - destruct (optional (da_ipv4 answers)) as [ips|] eqn:Ei; [|done]. cbn [mbind result_bind] in H. unfold optional in Ei.
    destruct (da_ipv4 answers) as [ips'|e]; [injection Ei as ->|destruct (missing e); [injection Ei as <-|done]; by rewrite bool_decide_eq_true_2 in H]. case_bool_decide as Hn; [done|]. exists ips. split; [done|]. split; [done|]. cbn [orb] in H.
    destruct (existsb _ ips) eqn:E; [done|]. rewrite existsb_elem_false in E. intros ip Hip. specialize (E ip Hip).
    apply negb_false_iff in E. unfold includes in E. by apply bool_decide_eq_true in E.
Qed.

(** The host name a request asks for: of a certificate, or of a file. *)
Definition asked_hostname (request : WebRequest) : option string :=
  if String.eqb (wr_pathname request) "/internal/caddy/ask"
  then (fun d => without_last_dot (to_lower d)) <$> wr_domain request else host_name <$> wr_host request.

Lemma handled stat h request : wr_pathname request <> "/health/live" -> wr_pathname request <> "/health/ready" ->
  ws_status (handle stat h request) = 200 -> exists hostname site, asked_hostname request = Some hostname /\
    map_get hostname (ho_active h) = Some site /\
    forall file, ws_body (handle stat h request) = WebFile file ->
      exists pathname relative, relative_of pathname = Some relative /\ file_of stat (as_root site) relative = Some file.
Proof.
  intros H1 H2. unfold handle, asked_hostname. cbv zeta. rewrite (proj2 (String.eqb_neq _ _) H1), (proj2 (String.eqb_neq _ _) H2).
  assert (forall o site, find_site o (ho_active h) = Some site -> exists hostname, o = Some hostname /\ map_get hostname (ho_active h) = Some site) as Hf.
  { intros [[|c n]|] site; unfold find_site; cbn [truthy]; [done|by eexists|done]. }
  destruct (String.eqb (wr_pathname request) "/internal/caddy/ask").
  - cbn [ws_status ws_body]. destruct (find_site _ _) as [site|] eqn:E; [|cbn; discriminate]. apply Hf in E as (hostname & E1 & E2).
    intros _. exists hostname, site. done.
  - destruct (negb _); [cbn; discriminate|]. destruct (find_site _ _) as [site|] eqn:E; [|cbn; discriminate]. apply Hf in E as (hostname & E1 & E2).
    destruct (decodeURIComponent _) as [pathname|]; [|cbn; discriminate]. destruct (relative_of pathname) as [relative|] eqn:Er; [|cbn; discriminate].
    destruct (file_of _ _ _) as [file|] eqn:Ef; [|cbn; discriminate]. intros _. exists hostname, site. split; [done|]. split; [done|].
    cbn [ws_body]. intros file'. destruct (String.eqb _ "HEAD"); [done|]. intros [= <-]. by exists pathname, relative.
Qed.

Lemma sent_file stat h request file : ws_body (handle stat h request) = WebFile file ->
  wr_pathname request <> "/health/live" /\ wr_pathname request <> "/health/ready" /\ ws_status (handle stat h request) = 200.
Proof.
  unfold handle. cbv zeta. destruct (String.eqb_spec (wr_pathname request) "/health/live"); [cbn; discriminate|].
  destruct (String.eqb_spec (wr_pathname request) "/health/ready"); [destruct (ho_ready h); cbn; discriminate|].
  destruct (String.eqb (wr_pathname request) _); [cbn; discriminate|]. destruct (negb _); [cbn; discriminate|].
  destruct (find_site _ _) as [site|]; [|cbn; discriminate]. destruct (decodeURIComponent _) as [pathname|]; [|cbn; discriminate].
  destruct (relative_of pathname) as [relative|]; [|cbn; discriminate].
  destruct (file_of _ _ _) as [file'|]; [|cbn; discriminate]. intros _. by split.
Qed.

(** What a row and the DNS say of the owner of a host name. *)
Definition vouched (log : list SiteEvent) (row : string * SiteRow) (answers : DnsAnswers) : Prop :=
  match sr_mode row.2 with
  | ByTxt => exists owner token records parts, sr_owner row.2 = Some owner /\ Issued row.1 owner (sr_hostname row.2) token ∈ log /\
      da_txt answers = Gave records /\ parts ∈ records /\ sha256_hex (Prelude.join "" parts) = sha256_hex token
  | ByOperator => sr_system row.2 = true /\ reserved (sr_hostname row.2) = true
  end.
(** A binding that may be served: it was a row of the directory, and then its DNS was in order. *)
Record verified_site (log : list SiteEvent) (row : string * SiteRow) (now : Z) (b : DirectoryBinding) : Prop := {
  vs_binding : b = verified_binding now (binding_of_row row);
  vs_order : exists before after answers rows, log = before ++ Resolved (binding_of_row row) now answers :: after /\
    Listed rows ∈ before /\ row ∈ rows /\ sr_desired row.2 = DesiredActive /\ vouched before row answers /\
    exists ips, da_ipv4 answers = Gave ips /\ ips <> [] /\ forall ip, ip ∈ ips -> ip ∈ sc_allowedIpv4 config
}.

Lemma resolved_verified s b : reachable s -> forall before after, sy_log s = before ++ after -> resolved sha256_hex config before b ->
  exists row now, verified_site before row now b.
Proof.
  intros Hs before after Hlog (l1 & l2 & b0 & now & answers & -> & -> & (rows & Hl & Hb0) & _ & Hdns).
  apply directory_elem in Hb0 as (row & Hrow & Hact & ->). exists row, now. constructor; [done|].
  exists l1, l2, answers, rows. do 4 (split; [done|]).
  destruct (verifyDns_ok _ _ Hdns) as [Ht Hips]. split; [|done].
  apply list_elem_of_split in Hl as (m1 & m2 & ->).
  assert (table_ok sha256_hex m1 rows) as T.
  { apply (so_log _ _ _ (sites_reachable_ok s Hs) m1 (Listed rows) (m2 ++ Resolved (binding_of_row row) now answers :: l2 ++ after)).
    rewrite Hlog. by rewrite <- !app_assoc. }
  pose proof (ro_issued _ _ _ (to_rows _ _ _ T _ Hrow)) as Hi. unfold issued in Hi. unfold vouched.
  cbn [binding_of_row db_verification_mode db_verification_token_hash] in Ht.
  destruct (sr_mode row.2); [|done]. destruct Hi as (owner & token & Ho & _ & Hh & Hi). destruct (Ht eq_refl) as (records & parts & R1 & R2 & R3).
  exists owner, token, records, parts. split; [done|]. split; [apply elem_of_app; by left|]. split; [done|]. split; [done|]. by rewrite R3.
Qed.

(** A release as it should be: it has an entry [index.html], a file that holds the source
    revision, no symbolic link, and as many files and bytes as the host takes. *)
Definition sizes (files : tree) : list Z :=
  omap (fun e => match e.2 with RegularFile size _ => Some size | _ => None end) files.
Record whole_release (source : string) (files : tree) : Prop := {
  wl_index : exists path entry, (path, entry) ∈ files /\
    (path = "index.html" \/ starts_with path "index.html/" = true);
  wl_mark : exists size content, (".source-revision", RegularFile size content) ∈ files /\ trim content = source;
  wl_links : forall path reads, (path, SymbolicLink reads) ∉ files;
  wl_count : (length (sizes files) <= sc_maxFiles config)%nat;
  wl_bytes : foldr Z.add 0 (sizes files) <= sc_maxBytes config
}.

Lemma inspectTree_ok files count bytes maxFiles maxBytes :
  inspectTree files count bytes maxFiles maxBytes = Ok tt ->
  (forall path reads, (path, SymbolicLink reads) ∉ files) /\
  (sizes files = [] \/
   (count + length (sizes files) <= maxFiles)%nat /\ bytes + foldr Z.add 0 (sizes files) <= maxBytes).
Proof.
  revert count bytes. induction files as [|[path [size content|reads|]] files IH]; intros count bytes; cbn [inspectTree].
  - intros _. split; [intros ? ? H; by apply not_elem_of_nil in H|by left].
  - destruct (Nat.ltb_spec maxFiles (S count)) as [|Hc]; [done|].
    destruct (Z.ltb_spec maxBytes (bytes + size)) as [|Hb]; [done|]. cbn [orb]. intros [Hl Hs]%IH. split.
    + intros p r [?|?]%elem_of_cons; [done|]. by eapply Hl.
    + right. change (sizes _) with (size :: sizes files). cbn [length foldr].
      destruct Hs as [->|[? ?]]; cbn [length foldr]; lia.
  - done.
  - intros [Hl Hs]%IH. split; [|done]. intros p r [?|?]%elem_of_cons; [done|]. by eapply Hl.
Qed.

Lemma checked_out_whole source files : checked_out source config files = Ok tt -> whole_release source files.
Proof.
  unfold checked_out. case_bool_decide as Hi; [done|]. destruct (read_in files ".source-revision") as [marker|] eqn:Hm; [|done].
  destruct (String.eqb_spec (trim marker) source) as [Ht|]; [|done]. cbn [negb]. intros [Hl Hs]%inspectTree_ok.
  assert (exists size, (".source-revision", RegularFile size marker) ∈ files) as [size Hmark].
  { unfold read_in in Hm. destruct (map_get ".source-revision" files) as [[size content|reads|]|] eqn:E; [|..|done].
    - injection Hm as ->. exists size. by apply map_get_elem.
    - apply map_get_elem in E. by destruct (Hl _ _ E).
    - done. }
  assert (sizes files <> []) as Hne.
  { intros E. assert (size ∈ sizes files) as H; [|rewrite E in H; by apply not_elem_of_nil in H].
    apply list_elem_of_omap. by exists (".source-revision", RegularFile size marker). }
  destruct Hs as [?|[Hc Hb]]; [done|]. split; [|by exists size, marker|done|done|done].
  unfold stat_in in Hi. destruct (map_get "index.html" files) as [e|] eqn:E.
  - exists "index.html", e. split; [by apply map_get_elem|by left].
  - change (ends_in "/" "index.html") with false in Hi. cbn [String.eqb orb] in Hi.
    destruct (existsb _ files) eqn:Hx; [|done]. apply existsb_elem in Hx as ([path e] & ? & ?).
    exists path, e. split; [done|by right].
Qed.

(** C11: Whatever users, the directory, DNS, git and the network do and in whatever order, and after
    any restart: a certificate is admitted or a request answered with a file only for the host
    name of a binding that the directory listed as active and whose DNS was in order after
    that: it held a token that the control had given to the owner of the row for this very
    host name, or the row is the operator's and its name reserved, and the name pointed to the
    service.  The files come from a release that was checked out for the same row at a time at
    which its DNS had been in order too, with an entry [index.html], a file with the revision of the
    source it was built from, no symbolic link, and within the limits of files and bytes. *)
Theorem served_sites_were_verified s request stat : reachable s -> wr_pathname request <> "/health/live" ->
  wr_pathname request <> "/health/ready" -> ws_status (handle stat (sy_host s) request) = 200 ->
  exists hostname site row now revision source files older row' now',
    asked_hostname request = Some hostname /\ map_get hostname (ho_active (sy_host s)) = Some site /\
    sr_hostname row.2 = hostname /\ verified_site (sy_log s) row now (as_binding site) /\
    as_root site = release_root config row.1 revision /\ row'.1 = row.1 /\
    (exists b later, sy_log s = older ++ Installed b revision source files :: later /\ verified_site older row' now' b) /\
    whole_release source files.
Proof.
  intros Hs H1 H2 H3. destruct (handled _ _ _ H1 H2 H3) as (hostname & site & E1 & E2 & _).
  pose proof (sites_reachable_ok s Hs) as Hok. apply map_get_elem in E2 as Hin.
  destruct (so_active _ _ _ Hok _ Hin) as (Eh & Hres & (b' & revision & source & files & Hi & Hid & Hroot)). cbn [fst snd] in *.
  destruct (resolved_verified s (as_binding site) Hs (sy_log s) []) as (row & now & V); [by rewrite app_nil_r|done|].
  apply list_elem_of_split in Hi as (older & later & Hlog).
  pose proof (so_log _ _ _ Hok older _ later Hlog) as [Hr' Hc].
  destruct (resolved_verified s b' Hs older _ Hlog Hr') as (row' & now' & V').
  exists hostname, site, row, now, revision, source, files, older, row', now'.
  pose proof (vs_binding _ _ _ _ V) as Vb. pose proof (vs_binding _ _ _ _ V') as Vb'. rewrite Vb in Eh, Hid, Hroot. rewrite Vb' in Hid.
  cbn in Eh, Hid, Hroot. split; [done|]. split; [done|]. split; [done|]. split; [done|]. split; [done|]. split; [done|].
  split; [by exists b', later|by apply checked_out_whole].
Qed.

(** C18: When the data are under an absolute path, the files of a site are the only ones that are
    sent for it: whatever the path of a request is, the file that is sent lies below the root
    of the site, under a name none of whose parts begins with a dot. *)
Theorem served_files_stay_inside s request stat file : reachable s -> is_absolute (sc_dataRoot config) = true ->
  ws_body (handle stat (sy_host s) request) = WebFile file ->
  exists hostname site, asked_hostname request = Some hostname /\ map_get hostname (ho_active (sy_host s)) = Some site /\
    within_place (as_root site) file /\ stat file = Some IsFile.
Proof.
  intros Hs Hd Hb.
  destruct (sent_file _ _ _ _ Hb) as (H1 & H2 & H3).
  destruct (handled _ _ _ H1 H2 H3) as (hostname & site & E1 & E2 & Hf). destruct (Hf file Hb) as (pathname & relative & R1 & R2).
  exists hostname, site. split; [done|]. split; [done|]. eapply file_of_within; [|exact R1|exact R2].
  apply map_get_elem in E2. destruct (so_active _ _ _ (sites_reachable_ok s Hs) _ E2) as (_ & _ & (b' & revision & source & files & _ & _ & Hroot)).
  cbn in Hroot. rewrite Hroot. by apply join_absolute.
Qed.

Lemma NoDup_columns {A} (f : string * SiteRow -> A) rows : map_ok rows ->
  (forall a b, a ∈ rows -> b ∈ rows -> a.1 <> b.1 -> f a <> f b) -> NoDup (f <$> rows).
Proof.
  induction rows as [|row rows IH]; [constructor|]. intros [Hk Hok]%NoDup_cons Hf. constructor.
  - intros (row' & E & Hr)%list_elem_of_fmap. apply (Hf row row'); [left|by right| |done].
    intros E'. apply Hk. rewrite E'. by apply list_elem_of_fmap_2.
  - apply IH; [done|]. intros a b Ha Hb. apply Hf; by right.
Qed.

(** C19: The host takes every binding the control admits: each binding that the directory lists,
    at any time, passes the validation of the host, and no two of them share an identifier, a
    host name or the deployment branch of a repository. *)
Theorem listed_bindings_are_taken s : reachable s -> let bindings := directory_of (sy_table s) in
  (forall b, b ∈ bindings -> validateBinding b = Ok tt) /\ NoDup (db_id <$> bindings) /\ NoDup (db_hostname <$> bindings) /\
  NoDup ((fun b => (db_repository_full_name b, db_artifact_ref b)) <$> bindings).
Proof.
  intros Hs bindings. pose proof (so_table _ _ _ (sites_reachable_ok s Hs)) as [T1 T2 T3]. split.
  { intros b (row & Hrow & _ & ->)%directory_elem. apply (ro_valid _ _ _ (T2 row Hrow)). }
  assert (forall A (f : DirectoryBinding -> A), (forall a b, a ∈ sy_table s -> b ∈ sy_table s -> a.1 <> b.1 ->
            f (binding_of_row a) <> f (binding_of_row b)) -> NoDup (f <$> bindings)) as Hn.
  { intros A f Hf. unfold bindings, directory_of. rewrite <- list_fmap_compose. rewrite js_sort_perm.
    apply NoDup_columns; [by apply map_ok_filter|]. intros a b [_ Ha]%list_elem_of_filter [_ Hb]%list_elem_of_filter. by apply Hf. }
  split; [|split]; apply Hn; intros a b Ha Hb Hab; destruct (T3 a b Ha Hb Hab) as [H1 H2]; [exact Hab|exact H1|exact H2].
Qed.

(** Users keep to their sites: whatever a user asks for, rows of others and of the operator stay
    as they are, every row that is new or changed is the user's own, and what is known of all
    rows still holds. *)
Theorem users_keep_to_their_sites s request claims env : reachable s -> binding_id (sv_uuid env) = true ->
  let after := perform (user sha256_hex is_uuid request claims) env (sy_table s) in
  keeps_others (cl_sub claims) (sy_table s) after.2 /\
  table_ok sha256_hex (sy_log s ++ issued_by (cl_sub claims) after.1) after.2.
Proof.
  intros Hs Hu after. destruct (user_perform sha256_hex is_uuid request claims env (sy_log s) (sy_table s) after.1 after.2) as [T K];
    [apply (sites_reachable_ok s Hs)|done|apply surjective_pairing|done].
Qed.
End Promises.

(** ** A few sites *)

Section Sample.

Definition zeros : string := "0000000000000000000000000000000000000000000000000000000000000000".
Fixpoint in_hex (s : string) : string :=
  match s with
  | EmptyString => zeros
  | String c s => String (hex_digit (nat_of_ascii c / 16)) (String (hex_digit (nat_of_ascii c mod 16)) (in_hex s))
  end.
(** Any text gives 64 digits. *)
Definition sample_hash (s : string) : string := string_take 64 (in_hex s).
Definition sample_config : SiteHostConfig :=
  {| sc_dataRoot := "/data"; sc_maxFiles := 10; sc_maxBytes := 1000; sc_maxConcurrentSyncs := 2;
     sc_allowedIpv4 := ["192.0.2.10"]; sc_allowedIpv6 := []; sc_dnsGraceMilliseconds := 86400000 |}.
Abbreviation does := (act sample_hash binding_id sample_config "/" "token").
Abbreviation sample_step := (site_step sample_hash binding_id sample_config "/" "token").
Abbreviation sample_reachable := (reachable sample_hash binding_id sample_config "/" "token").

Fixpoint play_sites (actions : list SiteAction) (s : SiteSystem) : option SiteSystem :=
  match actions with [] => Some s | a :: actions => s ← does a s; play_sites actions s end.
Lemma played_sites actions time s : play_sites actions (start_system time) = Some s -> sample_reachable s.
Proof.
  intros H. exists time. revert H. generalize (start_system time). induction actions as [|a actions IH]; intros s0; cbn.
  - by intros [= <-].
  - intros (s1 & H1 & H2)%bind_Some. eapply rtc_l; [by exists a|by apply IH].
Qed.

Definition noon : Z := 1700000000000.
Definition alice : IdentityClaims := {| cl_sub := "alice"; cl_role := "user" |}.
Definition bob : IdentityClaims := {| cl_sub := "bob"; cl_role := "user" |}.
Definition draft (hostname repo : string) : json :=
  JObject [("hostname", JString hostname); ("repository", JString repo); ("sourceBranch", JString "main");
           ("deploymentBranch", JString "deploy/main")].
Definition asks_for (method path : string) (body : option json) : SiteRequest :=
  {| rq_method := method; rq_pathname := path; rq_authorization := None; rq_body := body |}.
Definition first_id : string := "00000000-0000-4000-8000-000000000001".
Definition second_id : string := "00000000-0000-4000-8000-000000000002".
Definition site_env (id token : string) : SiteEnv := {| sv_now := noon; sv_uuid := id; sv_token := token |}.
Definition creates (claims : IdentityClaims) (id token hostname repo : string) : SiteAction :=
  UserCalls claims (asks_for "POST" "/api/sites" (Some (draft hostname repo))) (site_env id token).

Definition records (token : string) : DnsAnswers :=
  {| da_txt := Gave [[token]]; da_ipv4 := Gave ["192.0.2.10"]; da_ipv6 := Threw {| de_code := Some "ENODATA"; de_message := "" |} |}.
Definition revision_of (c : ascii) : string := String.string_of_list_ascii (replicate 40 c).
Definition rev_a : string := revision_of "a"%char.
Definition rev_b : string := revision_of "b"%char.
Definition rev_c : string := revision_of "c"%char.
Definition tab : string := String "009"%char "".
Definition built (source : string) : tree := [("index.html", RegularFile 5 "hello"); (".source-revision", RegularFile 40 source)].
Definition git_of (source artifact : string) (files : tree) : GitAnswers :=
  {| ga_init := Ok tt; ga_remote := Ok tt; ga_fetch := Ok tt; ga_source := Ok source; ga_artifact := Ok artifact;
     ga_tree := Ok ("100644 blob " +:+ rev_c +:+ "       5" +:+ tab +:+ "dist/index.html"); ga_checkout := Ok files; ga_time := 0 |}.
Definition no_git : GitAnswers :=
  {| ga_init := Ok tt; ga_remote := Ok tt; ga_fetch := Throw "repository command failed (exit 128)"; ga_source := Ok ""; ga_artifact := Ok "";
     ga_tree := Ok ""; ga_checkout := Ok []; ga_time := 0 |}.

Definition listing : list SiteAction := [PassStarts; DirectoryReads; DirectoryArrives; GroupStarts].
Definition a_pass (token : string) (git : GitAnswers) : list SiteAction :=
  listing ++ [TaskChecks 0 (records token); TaskAnnounces 0; TaskReleases 0 git; TaskConcludes 0; PassEnds true].
Definition browsing (host path : string) : WebRequest :=
  {| wr_method := "GET"; wr_pathname := path; wr_domain := None; wr_host := Some host |}.
Definition after_all (actions : list SiteAction) : SiteSystem := default (start_system noon) (play_sites actions (start_system noon)).
Definition get_page (host path : string) (s : SiteSystem) : WebResponse :=
  handle (disk_stat sample_config (sy_disk s)) (sy_host s) (browsing host path).

Definition publishing : list SiteAction := creates alice first_id "secret" "shop.example" "Alice/shop" :: a_pass "secret" (git_of rev_a rev_b (built rev_a)).
Definition published : SiteSystem := after_all publishing.

Lemma published_reachable : sample_reachable published.
Proof. apply (played_sites publishing noon). vm_compute. reflexivity. Qed.

Definition release_of (id revision : string) : string := "/data/bindings/" +:+ id +:+ "/releases/" +:+ revision.
Definition home : WebRequest := browsing "Shop.Example.:443" "/".
Abbreviation stat_of s := (disk_stat sample_config (sy_disk s)).

Lemma served_sites_were_verified_witness : exists site row now revision source files,
  map_get "shop.example" (ho_active (sy_host published)) = Some site /\ sr_owner row.2 = Some "alice" /\
  sr_hostname row.2 = "shop.example" /\ verified_site sample_hash sample_config (sy_log published) row now (as_binding site) /\
  as_root site = release_root sample_config row.1 revision /\ whole_release sample_config source files.
Proof.
  destruct (served_sites_were_verified sample_hash binding_id sample_config "/" "token" published home (stat_of published)
    published_reachable ltac:(done) ltac:(done) ltac:(vm_compute; reflexivity))
    as (hostname & site & row & now & revision & source & files & older & row' & now' & E1 & E2 & E3 & E4 & E5 & E6 & E7 & E8).
  vm_compute in E1. injection E1 as <-. exists site, row, now, revision, source, files. split; [exact E2|].
  split; [|split; [exact E3|split; [exact E4|split; [exact E5|exact E8]]]].
  destruct (vs_order _ _ _ _ _ _ E4) as (before & after & answers & rows & Hlog & _ & _ & _ & Hv & _).
  unfold vouched in Hv. destruct (sr_mode row.2).
  - destruct Hv as (owner & token & records_ & parts & Ho & Hi & _). rewrite Ho. f_equal.
    assert (Issued row.1 owner (sr_hostname row.2) token ∈ sy_log published) as Hi'.
    { rewrite Hlog. apply elem_of_app. by left. }
    assert (Forall (fun e => match e with Issued _ o _ _ => o = "alice" | _ => True end) (sy_log published)) as Hall
      by (vm_compute; repeat constructor).
    rewrite Forall_forall in Hall. exact (Hall _ Hi').
  - destruct Hv as [_ Hr]. rewrite E3 in Hr. vm_compute in Hr. discriminate Hr.
Defined.

Lemma served_files_stay_inside_witness : exists site file,
  ws_body (get_page "shop.example" "/a/../index.html" published) = WebFile file /\
  map_get "shop.example" (ho_active (sy_host published)) = Some site /\ within_place (as_root site) file /\
  file = release_of first_id rev_b +:+ "/index.html".
Proof.
  assert (ws_body (get_page "shop.example" "/a/../index.html" published) = WebFile (release_of first_id rev_b +:+ "/index.html")) as Hf
    by (vm_compute; reflexivity).
  destruct (served_files_stay_inside sample_hash binding_id sample_config "/" "token" published _ _ _ published_reachable
              ltac:(vm_compute; reflexivity) Hf) as (hostname & site & E1 & E2 & E3 & _).
  injection E1 as <-. exists site. eexists. split; [exact Hf|]. split; [exact E2|]. split; [exact E3|reflexivity].
Defined.

Lemma listed_bindings_are_taken_witness : exists b, directory_of (sy_table published) = [b] /\ db_hostname b = "shop.example" /\
  db_repository_full_name b = "alice/shop" /\ validateBinding b = Ok tt.
Proof.
  eexists. split; [vm_compute; reflexivity|]. split; [reflexivity|]. split; [reflexivity|].
  apply (proj1 (listed_bindings_are_taken sample_hash binding_id sample_config "/" "token" published published_reachable)).
  vm_compute. left.
Defined.

Lemma users_keep_to_their_sites_witness :
  let request := asks_for "DELETE" ("/api/sites/" +:+ first_id) None in
  let after := perform (user sample_hash binding_id request bob) (site_env second_id "") (sy_table published) in
  (exists row, row ∈ sy_table published /\ row ∈ after.2 /\ sr_owner row.2 = Some "alice") /\
  after.1 = Gave (answer 404 (BodyError "SITE_NOT_FOUND" (Some "No site has that id."))).
Proof.
  intros request after. split; [|vm_compute; reflexivity].
  destruct (users_keep_to_their_sites sample_hash binding_id sample_config "/" "token" published request bob (site_env second_id "")
    published_reachable ltac:(vm_compute; reflexivity)) as [[H _] _].
  assert (exists row, row ∈ sy_table published /\ sr_owner row.2 = Some "alice") as (row & Hr & Ho).
  { eexists. split; [vm_compute; left|reflexivity]. }
  exists row. split; [exact Hr|]. split; [|exact Ho]. apply H; [exact Hr|]. left. rewrite Ho. discriminate.
Defined.

(** *** What modelling showed *)

(** A report names a row and not what it was made for: while the check of one host name is on its
    way, the owner binds another one, and the new row is marked as verified. *)
Lemma stale_reports_verify_other_names : exists s row,
  play_sites (creates alice first_id "secret" "shop.example" "alice/shop" :: listing ++
    [TaskChecks 0 (records "secret"); TaskAnnounces 0;
     UserCalls alice (asks_for "PUT" ("/api/sites/" +:+ first_id) (Some (draft "bank.example" "alice/shop"))) (site_env second_id "other");
     ReportArrives 0 (site_env second_id "")]) (start_system noon) = Some s /\
  sy_table s = [(first_id, row)] /\ sr_hostname row = "bank.example" /\ sr_verified_at row = Some noon /\
  sr_status row = SiteSyncing.
Proof. eexists _, _. split; [vm_compute; reflexivity|]. repeat (split; [reflexivity|]). reflexivity. Qed.

(** A release that is there is not compared with the source again: the source moves on, and the
    old artifact is reported as that of the new revision. *)
Lemma old_artifacts_pass_for_new_sources :
  let git := git_of rev_c rev_b (built rev_a) in
  exists s row, play_sites (publishing ++ a_pass "secret" git ++ [ReportArrives 3 (site_env second_id "")]) (start_system noon) = Some s /\
  sy_table s = [(first_id, row)] /\ sr_status row = SiteActive /\ sr_source_revision row = Some rev_c /\
  disk_content sample_config (sy_disk s) (release_of first_id rev_b +:+ "/.source-revision") = Some rev_a /\
  checked_out rev_c sample_config (built rev_a) =
    Throw "deployment artifact was not built from the configured source branch head".
Proof. eexists _, _. split; [vm_compute; reflexivity|]. repeat (split; [vm_compute; reflexivity|]). vm_compute. reflexivity. Qed.

(** Anyone may bind the repository and the deployment branch of the operator, of which nothing is
    asked: the seed of the operator's site then ends in a conflict. *)
Lemma seeding_can_be_blocked : exists s site,
  play_sites [creates bob first_id "x" "squatter.example" "myavenceo/aven-brands"] (start_system noon) = Some s /\
  systemSiteSchema (draft "aven.ceo" "myavenceo/aven-brands") = Some site /\
  perform (seed_site sample_hash site) (site_env second_id "y") [] <> (Threw (PgError "23505"), []) /\
  (perform (seed_site sample_hash site) (site_env second_id "y") (sy_table s)).1 = Threw (PgError "23505").
Proof.
  eexists _, _. split; [vm_compute; reflexivity|]. split; [vm_compute; reflexivity|]. split; [vm_compute; discriminate|].
  vm_compute. reflexivity.
Qed.

(** A path of the immutable assets that is not there is answered with the index, to be kept for a
    year. *)
Lemma missing_assets_are_kept_for_a_year :
  let response := get_page "shop.example" "/_app/immutable/gone" published in
  ws_status response = 200 /\ ws_body response = WebFile (release_of first_id rev_b +:+ "/index.html") /\
  map_get "cache-control" (ws_headers response) = Some "public, max-age=31536000, immutable".
Proof. repeat (split; [vm_compute; reflexivity|]). vm_compute. reflexivity. Qed.

(** The grace of a site only ends when the DNS answers: while its lookups time out, the site
    stays, however long ago it was verified. *)
Lemma failing_lookups_have_no_grace binding active now : validateBinding binding = Ok tt -> db_verification_mode binding = "txt" ->
  let refused := {| de_code := Some "ETIMEOUT"; de_message := "queryTxt ETIMEOUT" |} in
  let answers := {| da_txt := Threw refused; da_ipv4 := Threw refused; da_ipv6 := Threw refused |} in
  (check_site sample_hash sample_config answers now binding active).2 = active.
Proof.
  intros Hv Hm refused answers. unfold check_site. rewrite Hv. unfold verifyDns. rewrite Hm. reflexivity.
Qed.

(** A name that was bound anew and is verified goes on with the files of its former owner while
    those of the new one cannot be fetched. *)
Lemma former_files_stay : exists s row site,
  play_sites (publishing ++
    [UserCalls alice (asks_for "DELETE" ("/api/sites/" +:+ first_id) None) (site_env second_id "");
     creates bob second_id "mine" "shop.example" "bob/shop"] ++ a_pass "mine" no_git) (start_system noon) = Some s /\
  sy_table s = [(second_id, row)] /\ sr_owner row = Some "bob" /\
  map_get "shop.example" (ho_active (sy_host s)) = Some site /\ db_id (as_binding site) = first_id /\
  ws_body (get_page "shop.example" "/" s) = WebFile (release_of first_id rev_b +:+ "/index.html").
Proof. eexists _, _, _. split; [vm_compute; reflexivity|]. repeat (split; [vm_compute; reflexivity|]). vm_compute. reflexivity. Qed.
End Sample.
