(* ===== verification/Names.v ===== *)
(** * Names

    [services/checkout/src/lib/server/names/service.ts]: who may have which name.  A
    request ([secure]) reserves nothing and sends a claim link; the link ([claim])
    reserves the name for some minutes and leads to the checkout; the events of the
    payment provider grant the name ([grantFromEvent]) or take it back
    ([revokeFromEvent]).  With the names of [validation.ts] and the shape of bearer
    tokens ([crypto.ts]).  The follow-ups of a grant and of a revocation are those of
    [runtime.ts], events of the outbox. *)

From S2P Require Import Prelude Contracts Json Programs Tables Checkout.
From Stdlib Require Import QArith.QArith.

Open Scope stdpp_scope.
Open Scope js_scope.
Local Open Scope Z_scope.

(** ** Which names there may be *)

Definition is_name_char (c : ascii) : bool :=
  let n := nat_of_ascii c in (Nat.leb 97 n && Nat.leb n 122) || (Nat.leb 48 n && Nat.leb n 57).

(** [namePattern]: three to 32 small letters, digits and inner hyphens. *)
Definition namePattern (s : string) : bool :=
  match s with
  | String c rest =>
      match rev (String.list_ascii_of_string rest) with
      | last :: inner =>
          is_name_char c && is_name_char last && Nat.leb 1 (length inner) && Nat.leb (length inner) 30 &&
          forallb (fun c => is_name_char c || Ascii.eqb c "-") inner
      | [] => false
      end
  | EmptyString => false
  end.

Definition reservedNames : list string :=
  ["admin"; "administrator"; "api"; "app"; "aven"; "billing"; "dashboard"; "help"; "id"; "login"; "logout";
   "mail"; "name"; "names"; "official"; "pay"; "payment"; "root"; "security"; "signup"; "smtp"; "staff";
   "status"; "support"; "system"; "tasks"; "test"; "webmail"; "www"].

Definition normalizeName (value : string) : string := to_lower (trim value).

Inductive NameUnavailableReason := NAME_INVALID | NAME_RESERVED | NAME_TAKEN | NAME_LOCKED | NAME_HELD.
#[export] Instance NameUnavailableReason_eq_dec : EqDecision NameUnavailableReason.
Proof. solve_decision. Defined.

Definition reason_text (r : NameUnavailableReason) : string :=
  match r with
  | NAME_INVALID => "NAME_INVALID" | NAME_RESERVED => "NAME_RESERVED" | NAME_TAKEN => "NAME_TAKEN"
  | NAME_LOCKED => "NAME_LOCKED" | NAME_HELD => "NAME_HELD"
  end.

Definition validateName (value : string) : option NameUnavailableReason :=
  if negb (namePattern value) then Some NAME_INVALID
  else if includes reservedNames value then Some NAME_RESERVED else None.

(** [isBearerToken]: [/^[A-Za-z0-9_-]{16,100}$/] of the trimmed text. *)
Definition is_token_char (c : ascii) : bool :=
  let n := nat_of_ascii c in
  is_name_char c || (Nat.leb 65 n && Nat.leb n 90) || Ascii.eqb c "_" || Ascii.eqb c "-".
Definition isBearerToken (value : string) : bool :=
  let value := trim value in
  Nat.leb 16 (String.length value) && Nat.leb (String.length value) 100 && string_forall is_token_char value.

(** ** Messages *)

Record NameAvailability := {
  na_name : string;
  na_available : bool;
  na_reason : option NameUnavailableReason;
  na_priceEur : Q;
  na_reservationMinutes : Z
}.

Record HoldOrigin := { og_tier : option string; og_salutation : option string; og_idea : option string }.

Record NameHoldResult := {
  hr_name : string;
  hr_expiresAt : Z;
  hr_priceEur : Q;
  hr_reservationMinutes : Z
}.

(** [PaymentEvent], the boundary to the provider; the amount in euros. *)
Record PaymentEvent := {
  pe_id : string;
  pe_type : string;
  pe_checkoutId : option string;
  pe_orderId : option string;
  pe_email : option string;
  pe_amountEur : option Q;
  pe_metadata : list (string * json)
}.

(** [String(event.metadata[key] ?? '')]. *)
Definition metadata_text (key : string) (event : PaymentEvent) : string :=
  match map_get key (pe_metadata event) with None | Some JNull => "" | Some value => js_String value end.

Definition json_or_null (o : option string) : json := match o with Some s => JString s | None => JNull end.

Record NameServiceConfig := {
  PUBLIC_BASE_URL : string;
  NAME_PRICE_EUR : Q;
  NAME_HOLD_TTL_HOURS : Z;
  NAME_RESERVATION_TTL_MINUTES : Z
}.

(** ** The service *)

Section NameService.
(** [sha256Hex] is the digest of the platform; [uuid_of] and [showDate] as in [Checkout.v]. *)
Context (config : NameServiceConfig) (settings : QueueSettings) (sha256Hex : string -> string)
  (uuid_of : string -> option string) (showDate : Z -> string).

Definition baseAvailability (name : string) : NameAvailability :=
  {| na_name := name; na_available := true; na_reason := None; na_priceEur := NAME_PRICE_EUR config;
     na_reservationMinutes := NAME_RESERVATION_TTL_MINUTES config |}.
Definition unavailable (name : string) (reason : NameUnavailableReason) : NameAvailability :=
  {| na_name := name; na_available := false; na_reason := Some reason; na_priceEur := NAME_PRICE_EUR config;
     na_reservationMinutes := NAME_RESERVATION_TTL_MINUTES config |}.

(** The statements of [availability], each on its own. *)
Definition delete_expired_holds (name : string) : tx unit :=
  t ← ask now;
  holds ← select name_holds;
  update (set_name_holds (base.filter (fun row => negb (String.eqb (ho_name row.2) name && (ho_expires_at row.2 <? t)) = true)
                            holds)).
Definition select_status (name : string) : tx (option NameStatus) :=
  select (fun db => nm_status <$> map_get name (names db)).
Definition is_reserved (name : string) (t : Z) (row : string * HoldRow) : bool :=
  String.eqb (ho_name row.2) name && at_least (ho_reserved_until row.2) t.
Definition select_reserved (name : string) : tx bool :=
  t ← ask now;
  select (fun db => existsb (is_reserved name t) (name_holds db)).

Definition availability (raw : string) : program NameAvailability :=
  let name := normalizeName raw in
  match validateName name with
  | Some invalid => mret (unavailable name invalid)
  | None =>
      _ ← step (delete_expired_holds name);
      owned ← step (select_status name);
      match owned with
      | Some NameOwned => mret (unavailable name NAME_TAKEN)
      | Some NameRevoked => mret (unavailable name NAME_LOCKED)
      | None =>
          reserved ← step (select_reserved name);
          if (reserved : bool) then mret (unavailable name NAME_HELD) else mret (baseAvailability name)
      end
  end.

(** The base URL is an origin, and tokens and names need no escape in a query. *)
Definition claimUrl (token : string) : string := PUBLIC_BASE_URL config +:+ "/purchase/checkout?token=" +:+ token.
Definition successUrl (name token : string) : string :=
  PUBLIC_BASE_URL config +:+ "/purchase/success?name=" +:+ name +:+ "&pt=" +:+ token.

(** [emailOwnsName] is two statements; in a transaction they are one step. *)
Definition customer_of_email (email : string) (db : Db) : option string :=
  fst <$> js_find (fun row : string * CustomerRow => String.eqb (to_lower (cu_email row.2)) (to_lower email))
            (checkout_customers db).
Definition owned_by (userId : string) (row : string * NameRow) : bool :=
  String.eqb (nm_owner_user_id row.2) userId && bool_decide (nm_status row.2 = NameOwned).
Definition owns_a_name (userId : string) (db : Db) : bool := existsb (owned_by userId) (names db).
Definition emailOwnsName (email : string) (db : Db) : bool :=
  match customer_of_email email db with Some userId => owns_a_name userId db | None => false end.
Definition emailOwnsName_steps (email : string) : program bool :=
  customer ← step (select (customer_of_email email));
  match customer with
  | None => mret false
  | Some userId => step (select (owns_a_name userId))
  end.

(** *** Requests *)

(** The live request of a name by an address. *)
Definition same_request (name email : string) (t : Z) (row : string * HoldRow) : bool :=
  String.eqb (ho_name row.2) name && String.eqb (to_lower (ho_email row.2)) (to_lower email) &&
  (t <=? ho_expires_at row.2).

Definition rotated (hash : string) (origin : HoldOrigin) (h : HoldRow) : HoldRow :=
  let keep o old := coalesce_to (nullif_empty (coalesce_to o "")) old in
  {| ho_name := ho_name h; ho_email := ho_email h; ho_tier := keep (og_tier origin) (ho_tier h);
     ho_salutation := keep (og_salutation origin) (ho_salutation h); ho_idea := keep (og_idea origin) (ho_idea h);
     ho_claim_token_hash := hash; ho_success_token_hash := ho_success_token_hash h;
     ho_email_confirmed_at := ho_email_confirmed_at h; ho_reserved_until := ho_reserved_until h;
     ho_checkout_id := ho_checkout_id h; ho_checkout_url := ho_checkout_url h;
     ho_created_at := ho_created_at h; ho_expires_at := ho_expires_at h |}.

Definition requested (name email hash : string) (origin : HoldOrigin) (created expires : Z) : HoldRow :=
  {| ho_name := name; ho_email := email; ho_tier := coalesce_to (og_tier origin) "";
     ho_salutation := coalesce_to (og_salutation origin) ""; ho_idea := coalesce_to (og_idea origin) "";
     ho_claim_token_hash := hash; ho_success_token_hash := ""; ho_email_confirmed_at := None;
     ho_reserved_until := None; ho_checkout_id := None; ho_checkout_url := None;
     ho_created_at := created; ho_expires_at := expires |}.

(** The new row of a first request. *)
Definition insert_request (name email hash : string) (origin : HoldOrigin) : tx Z :=
  created ← ask now;
  ms ← ask date_now;
  holdId ← ask (fun env => randomUUID env 0);
  holds ← select name_holds;
  let expires := js_date (ms + NAME_HOLD_TTL_HOURS config * 3600000) in
  throw_when! map_has holdId holds as unique_violation "name_holds_pkey";
  _ ← update (set_name_holds (holds ++ [(holdId, requested name email hash origin created expires)]));
  _ ← writeAudit "name.requested" None
        [("name", JString name); ("holdId", JString holdId); ("tier", JString (coalesce_to (og_tier origin) ""))];
  mret expires.

(** The transaction of [secure]. *)
Definition secure_transaction (name email : string) (origin : HoldOrigin) : tx NameHoldResult :=
  t ← ask now;
  token ← ask randomToken;
  holds ← select name_holds;
  let hash := sha256Hex token in
  expires ← match base.filter (fun row => same_request name email t row = true) holds with
            | [] => insert_request name email hash origin
            | found :: _ =>
                _ ← update (set_name_holds (update_where (same_request name email t) (rotated hash origin) holds));
                mret (ho_expires_at found.2)
            end;
  mailId ← ask (fun env => randomUUID env 1);
  _ ← namePurchaseLink settings (PUBLIC_BASE_URL config) showDate mailId email name (claimUrl token) expires;
  mret {| hr_name := name; hr_expiresAt := expires; hr_priceEur := NAME_PRICE_EUR config;
          hr_reservationMinutes := NAME_RESERVATION_TTL_MINUTES config |}.

Definition secure (raw email : string) (origin : HoldOrigin) : program NameHoldResult :=
  let name := normalizeName raw in
  check ← availability name;
  if negb (na_available check) && negb (bool_decide (na_reason check = Some NAME_HELD))
  then Raise (AppError 409 (match na_reason check with Some r => reason_text r | None => "NAME_UNAVAILABLE" end)
                "That name is not available.")
  else
    owns ← emailOwnsName_steps email;
    if (owns : bool) then Raise (AppError 409 "NAME_LIMIT_REACHED" "This email already owns a name.")
    else step (secure_transaction name email origin).

(** *** Claims *)

(** The hold of a link that has not expired. *)
Definition hold_of_token (hash : string) (t : Z) (row : string * HoldRow) : bool :=
  String.eqb (ho_claim_token_hash row.2) hash && (t <=? ho_expires_at row.2).
Definition select_hold (token : string) : tx (option (string * HoldRow)) :=
  t ← ask now;
  select (fun db => js_find (hold_of_token (sha256Hex token) t) (name_holds db)).

(** The checkout the hold has, if it has one. *)
Definition known_checkout (h : HoldRow) : option CheckoutSession :=
  match truthy (ho_checkout_id h), truthy (ho_checkout_url h) with
  | Some id, Some url => Some {| cs_checkoutId := id; cs_checkoutUrl := url |}
  | _, _ => None
  end.

(** [mintSuccessUrl] and [createCheckout]: the session and the hash of its success token. *)
Definition open_checkout (hold : string * HoldRow) : tx (CheckoutSession * string) :=
  token ← ask randomToken;
  session ← call (fun env => createCheckout (payments env)
              {| ci_name := ho_name hold.2; ci_email := ho_email hold.2; ci_holdId := hold.1;
                 ci_successUrl := successUrl (ho_name hold.2) token; ci_locale := Some "de" |});
  mret (session, sha256Hex token).

Definition reserved_row (session : CheckoutSession) (successHash : string) (t : Z) (h : HoldRow) : HoldRow :=
  {| ho_name := ho_name h; ho_email := ho_email h; ho_tier := ho_tier h; ho_salutation := ho_salutation h;
     ho_idea := ho_idea h; ho_claim_token_hash := ho_claim_token_hash h;
     ho_success_token_hash :=
       coalesce_to (coalesce (nullif_empty (ho_success_token_hash h)) (nullif_empty successHash)) "";
     ho_email_confirmed_at := coalesce (ho_email_confirmed_at h) (Some t);
     ho_reserved_until := Some (t + NAME_RESERVATION_TTL_MINUTES config * MINUTE);
     ho_checkout_id := coalesce (ho_checkout_id h) (Some (cs_checkoutId session));
     ho_checkout_url := coalesce (ho_checkout_url h) (Some (cs_checkoutUrl session));
     ho_created_at := ho_created_at h; ho_expires_at := ho_expires_at h |}.

Record Claimed := { cl_name : string; cl_checkoutUrl : string }.

Definition live_hold (id : string) (t : Z) (row : string * HoldRow) : bool :=
  String.eqb row.1 id && (t <=? ho_expires_at row.2).

(** The transaction of [claim]; [hold] is the row as it was read before. *)
Definition claim_transaction (hold : string * HoldRow) (session : CheckoutSession) (successHash : string) :
    tx Claimed :=
  t ← ask now;
  let name := ho_name hold.2 in
  taken ← select (fun db => map_has name (names db));
  throw_when! taken as AppError 410 "NAME_UNAVAILABLE" "This name has been purchased in the meantime.";
  owns ← select (emailOwnsName (ho_email hold.2));
  throw_when! owns as AppError 410 "NAME_LIMIT_REACHED" "This email already owns a name.";
  holds ← select name_holds;
  throw_when! existsb (fun row => is_reserved name t row && negb (String.eqb row.1 hold.1)) holds as
    AppError 410 "NAME_HELD" "Someone else is completing a purchase for this name right now.";
  match updated_where (live_hold hold.1 t) (reserved_row session successHash t) holds with
  | [] => throw (AppError 410 "CLAIM_LINK_EXPIRED" "This claim link is no longer valid.")
  | updated :: _ =>
      _ ← update (set_name_holds (update_where (live_hold hold.1 t) (reserved_row session successHash t) holds));
      _ ← match ho_email_confirmed_at hold.2 with
          | None => writeAudit "name.email_confirmed" None [("name", JString name); ("holdId", JString hold.1)]
          | Some _ => mret tt
          end;
      _ ← writeAudit "name.reserved" None
            [("name", JString name); ("holdId", JString hold.1);
             ("minutes", JNumber (NAME_RESERVATION_TTL_MINUTES config))];
      mret {| cl_name := name; cl_checkoutUrl := coalesce_to (ho_checkout_url updated.2) "" |}
  end.

Definition claim (token : string) : program Claimed :=
  if negb (isBearerToken token) then Raise (AppError 400 "CLAIM_TOKEN_INVALID" "The claim link is malformed.")
  else
    found ← step (select_hold token);
    match found with
    | None => Raise (AppError 410 "CLAIM_LINK_EXPIRED" "This claim link is no longer valid.")
    | Some hold =>
        opened ← match known_checkout hold.2 with
                 | Some session => mret (session, "")
                 | None => step (open_checkout hold)
                 end;
        step (claim_transaction hold opened.1 opened.2)
    end.

(** *** Events of the payment provider *)

(** [INSERT INTO payment_events ... ON CONFLICT(id) DO NOTHING]: was it new? *)
Definition record_payment_event (event : PaymentEvent) (payload : json) : tx bool :=
  t ← ask now;
  seen ← select (fun db => bool_decide (is_Some (payment_events db !! pe_id event)));
  if (seen : bool) then mret false
  else
    _ ← update (fun db => set_payment_events
          (<[pe_id event := {| pv_event_type := pe_type event; pv_checkout_id := pe_checkoutId event;
                               pv_payload := payload; pv_processed_at := t |}]> (payment_events db)) db);
    mret true.

(** The hold the event is about, else any hold of the name. *)
Definition hold_of_event (holdId name : string) (holds : list (string * HoldRow)) : option (string * HoldRow) :=
  coalesce (js_find (fun row : string * HoldRow => String.eqb row.1 holdId) holds)
           (js_find (fun row : string * HoldRow => String.eqb (ho_name row.2) name) holds).

Definition invalid_payload (message : string) : failure := AppError 400 "WEBHOOK_PAYLOAD_INVALID" message.

(** What is left to do for a name that is free. *)
Definition grant_name (event : PaymentEvent) (name email : string) : tx bool :=
  account ← call (fun env => provisionAccount env email "name-purchase");
  _ ← upsert_customer account;
  t ← ask now;
  _ ← update (fun db => set_names (names db ++
        [(name, {| nm_owner_user_id := pa_id account; nm_status := NameOwned; nm_checkout_id := pe_checkoutId event;
                   nm_order_id := pe_orderId event; nm_price_paid_eur := pe_amountEur event; nm_purchased_at := t;
                   nm_revoked_at := None; nm_revoke_reason := None; nm_created_at := t; nm_updated_at := t |})]) db);
  _ ← update (fun db => set_name_holds
        (base.filter (fun row => negb (String.eqb (ho_name row.2) name) = true) (name_holds db)) db);
  _ ← writeAudit "name.purchased" (Some (pa_id account))
        [("name", JString name); ("eventId", JString (pe_id event)); ("checkoutId", json_or_null (pe_checkoutId event))];
  eventId ← ask (fun env => randomUUID env 0);
  _ ← enqueuePlatformEvent uuid_of eventId Granted (pa_id account) name;
  mailId ← ask (fun env => randomUUID env 1);
  _ ← namePurchased settings (PUBLIC_BASE_URL config) mailId name email (pa_setupUrl account);
  mret true.

(** The transaction of [grantFromEvent]: was the name granted? *)
Definition grant_transaction (event : PaymentEvent) (name : string) : tx bool :=
  recorded ← record_payment_event event (JObject [("orderId", json_or_null (pe_orderId event)); ("name", JString name)]);
  if negb recorded then mret false
  else
    existing ← select (fun db => map_get name (names db));
    hold ← select (fun db => hold_of_event (metadata_text "holdId" event) name (name_holds db));
    match existing with
    | Some row =>
        if negb (bool_decide (nm_checkout_id row = pe_checkoutId event)) then
          _ ← writeAudit "name.purchase_conflict" None
                [("name", JString name); ("eventId", JString (pe_id event));
                 ("checkoutId", json_or_null (pe_checkoutId event));
                 ("email", json_or_null (coalesce (pe_email event) (ho_email ∘ snd <$> hold)))];
          mret false
        else mret false
    | None =>
        let email := to_lower (coalesce_to (coalesce (pe_email event) (ho_email ∘ snd <$> hold)) "") in
        throw_when! String.eqb email "" as invalid_payload "The payment event carries no customer email.";
        grant_name event name email
    end.

Definition grantFromEvent (event : PaymentEvent) : program bool :=
  let name := normalizeName (metadata_text "name" event) in
  if String.eqb name "" then Raise (invalid_payload "The payment event carries no name metadata.")
  else if String.eqb (pe_id event) "" then Raise (invalid_payload "The payment event carries no id.")
  else step (grant_transaction event name).

(** The owned name a refund is about: by its name, its checkout or its order. *)
Definition refunded (metadataName : option string) (event : PaymentEvent) (row : string * NameRow) : bool :=
  let same (a b : option string) := match a, b with Some a, Some b => String.eqb a b | _, _ => false end in
  bool_decide (nm_status row.2 = NameOwned) &&
  (same metadataName (Some row.1) || same (pe_checkoutId event) (nm_checkout_id row.2) ||
   same (pe_orderId event) (nm_order_id row.2)).

Definition revoked_row (reason : string) (t : Z) (row : NameRow) : NameRow :=
  {| nm_owner_user_id := nm_owner_user_id row; nm_status := NameRevoked; nm_checkout_id := nm_checkout_id row;
     nm_order_id := nm_order_id row; nm_price_paid_eur := nm_price_paid_eur row;
     nm_purchased_at := nm_purchased_at row; nm_revoked_at := Some t; nm_revoke_reason := Some reason;
     nm_created_at := nm_created_at row; nm_updated_at := t |}.

(** The transaction of [revokeFromEvent]: was a name revoked? *)
Definition revoke_transaction (event : PaymentEvent) (metadataName : string) : tx bool :=
  recorded ← record_payment_event event
    (JObject [("orderId", json_or_null (pe_orderId event)); ("name", json_or_null (nullif_empty metadataName))]);
  if negb recorded then mret false
  else
    found ← select (fun db => js_find (refunded (nullif_empty metadataName) event) (names db));
    match found with
    | None => mret false
    | Some row =>
        t ← ask now;
        _ ← update (fun db => set_names
              (update_where (fun r => String.eqb r.1 row.1) (revoked_row (pe_type event) t) (names db)) db);
        _ ← writeAudit "name.revoked" (Some (nm_owner_user_id row.2))
              [("name", JString row.1); ("eventId", JString (pe_id event)); ("reason", JString (pe_type event))];
        eventId ← ask (fun env => randomUUID env 0);
        _ ← enqueuePlatformEvent uuid_of eventId Revoked (nm_owner_user_id row.2) row.1;
        mret true
    end.

Definition revokeFromEvent (event : PaymentEvent) : program bool :=
  let metadataName := normalizeName (metadata_text "name" event) in
  if String.eqb (pe_id event) "" then Raise (invalid_payload "The payment event carries no id.")
  else step (revoke_transaction event metadataName).

(** *** Reading *)

Record OwnedName := { on_name : string; on_status : NameStatus; on_purchased_at : Z }.

(** Newest first. *)
Definition listForUser (userId : string) : program (list OwnedName) :=
  step (select (fun db =>
    js_sort (fun a b => on_purchased_at b - on_purchased_at a)
      ((fun row => {| on_name := row.1; on_status := nm_status row.2; on_purchased_at := nm_purchased_at row.2 |}) <$>
         base.filter (fun row => owned_by userId row = true) (names db)))).
Definition ownsAny (userId : string) : program bool := step (select (owns_a_name userId)).
End NameService.
