(* ===== verification/NamesFacts.v ===== *)
(** * What the names are worth

    Theorems on [Names.v] for every transaction: which tables it touches and how
    (specifications), and what all of them keep: the register of names with its holds,
    its payments and its platform events is consistent ([registry_ok]), and history is
    never rewritten ([history]). *)

From S2P Require Import Prelude Contracts Json Programs Tables Checkout Names.
From Stdlib Require Import QArith.QArith.

Open Scope stdpp_scope.
Open Scope js_scope.
Local Open Scope Z_scope.

(** ** Names *)

Lemma is_space_lower c : is_space (lower_char c) = is_space c.
Proof. by destruct c as [[] [] [] [] [] [] [] []]. Qed.
Lemma trim_start_lower s : trim_start (to_lower s) = to_lower (trim_start s).
Proof. induction s as [|c s IH]; cbn; [done|]. rewrite is_space_lower. by destruct (is_space c). Qed.
Lemma trim_end_lower s : trim_end (to_lower s) = to_lower (trim_end s).
Proof.
  induction s as [|c s IH]; cbn; [done|]. rewrite IH. destruct (trim_end s); cbn; rewrite ?is_space_lower; [|done].
  by destruct (is_space c).
Qed.

Lemma normalizeName_idem s : normalizeName (normalizeName s) = normalizeName s.
Proof.
  unfold normalizeName, trim. rewrite trim_end_lower, trim_start_lower, to_lower_idem. f_equal. apply trim_idem.
Qed.

(** ** What the shared writes do *)

Lemma writeAudit_gave event target metadata env db r :
  writeAudit event target metadata env db = Gave r ->
  r = (tt, set_audit (audit db ++ [{| au_event_type := event; au_target_user_id := target; au_metadata := metadata;
                                      au_created_at := js_date (date_now env) |}]) db).
Proof. destruct r as [[] db']. unfold writeAudit. intros H. by tx_run. Qed.

Lemma enqueueSystemEmail_gave settings id template to_ data priority key env db r :
  enqueueSystemEmail settings id template to_ data priority key env db = Gave r ->
  r = (tt, db) \/ exists rows, r = (tt, set_email_queue rows db).
Proof.
  destruct r as [[] db']. unfold enqueueSystemEmail. intros H. do 2 tx_step.
  destruct (match key with Some _ => _ | None => _ end); tx_run; eauto.
Qed.

Definition event_row (type : PlatformEventType) (subject name : string) (t : Z) : OutboxRow :=
  {| ob_event_type := type; ob_subject_id := subject; ob_purchased_name := name; ob_occurred_at := t;
     ob_status := OutPending; ob_attempts := 0; ob_available_at := t; ob_lease_owner := None;
     ob_lease_expires_at := None; ob_last_error := None; ob_delivered_at := None; ob_created_at := t |}.

Lemma enqueuePlatformEvent_gave uuid_of id type userId name env db r :
  enqueuePlatformEvent uuid_of id type userId name env db = Gave r ->
  exists eventId subject, uuid_of id = Some eventId /\ uuid_of userId = Some subject /\
    map_get eventId (outbox db) = None /\
    r = (tt, set_outbox (outbox db ++ [(eventId, event_row type subject name (clock_timestamp env))]) db).
Proof.
  destruct r as [[] db']. unfold enqueuePlatformEvent. intros H. tx_step. tx_step.
  destruct (uuid_of id) as [eventId|]; [|by tx_step]. destruct (uuid_of userId) as [subject|]; [|by tx_step].
  tx_run. apply map_has_none in Hcond. eauto 8.
Qed.

Lemma upsert_customer_gave account env db r :
  upsert_customer account env db = Gave r ->
  exists row, r = (tt, set_checkout_customers (map_set (pa_id account) row (checkout_customers db)) db) /\
    cu_email row = pa_email account.
Proof. destruct r as [[] db']. unfold upsert_customer. intros H. tx_run. by eexists. Qed.

(** Was the event new, and the table with it. *)
Lemma record_payment_event_gave event payload env db recorded db' :
  record_payment_event event payload env db = Gave (recorded, db') ->
  (recorded = false /\ db' = db /\ is_Some (payment_events db !! pe_id event)) \/
  (recorded = true /\ payment_events db !! pe_id event = None /\
   exists row, db' = set_payment_events (<[pe_id event := row]> (payment_events db)) db /\
     pv_event_type row = pe_type event /\ pv_checkout_id row = pe_checkoutId event /\ pv_payload row = payload).
Proof.
  unfold record_payment_event. intros H. do 4 tx_step. case_bool_decide as Hs; tx_run; [by left|].
  right. split; [done|]. split; [by apply eq_None_not_Some|]. eexists. split; [reflexivity|done].
Qed.

(** [tx_run] with the shared writes taken apart too. *)
Ltac write_step :=
  match goal with
  | H : writeAudit _ _ _ _ _ = Gave (_, _) |- _ =>
      apply writeAudit_gave in H; injection H; clear H; intros; subst
  | H : enqueuePlatformEvent _ _ _ _ _ _ _ = Gave (_, _) |- _ =>
      apply enqueuePlatformEvent_gave in H as (? & ? & ? & ? & ? & H); injection H; clear H; intros; subst
  | H : upsert_customer _ _ _ = Gave (_, _) |- _ =>
      apply upsert_customer_gave in H as (? & H & ?); injection H; clear H; intros; subst
  | H : enqueueSystemEmail _ _ _ _ _ _ _ _ _ = Gave (_, _) |- _ =>
      apply enqueueSystemEmail_gave in H as [H|(? & H)]; injection H; clear H; intros; subst
  | H : namePurchaseLink _ _ _ _ _ _ _ _ _ _ = Gave (_, _) |- _ => unfold namePurchaseLink in H
  | H : namePurchased _ _ _ _ _ _ _ _ = Gave (_, _) |- _ => unfold namePurchased in H
  end.
Ltac db_run := repeat (tx_step || write_step).

Lemma hold_of_event_elem id name holds hold : hold_of_event id name holds = Some hold -> hold ∈ holds.
Proof.
  unfold hold_of_event. destruct (js_find _ holds) as [h|] eqn:E1; cbn.
  - intros [= <-]. by apply js_find_Some in E1 as [].
  - intros E2. by apply js_find_Some in E2 as [].
Qed.

(** ** Specifications of the transactions *)

Section Specs.
Context (config : NameServiceConfig) (settings : QueueSettings) (sha256Hex : string -> string)
  (uuid_of : string -> option string) (showDate : Z -> string).

(** The columns of the register; mails and the audit log may differ. *)
Definition same_register (db db' : Db) : Prop :=
  names db' = names db /\ name_holds db' = name_holds db /\ payment_events db' = payment_events db /\
  checkout_customers db' = checkout_customers db /\ outbox db' = outbox db.

Lemma same_register_refl db : same_register db db.
Proof. done. Qed.

Definition other_holds (name : string) (holds : list (string * HoldRow)) : list (string * HoldRow) :=
  base.filter (fun row => negb (String.eqb (ho_name row.2) name) = true) holds.

Definition payload_of_grant (event : PaymentEvent) (name : string) : json :=
  JObject [("orderId", json_or_null (pe_orderId event)); ("name", JString name)].

(** The log grows, and by no request. *)
Definition logged_no_request (db db' : Db) : Prop :=
  exists rows, audit db' = audit db ++ rows /\ Forall (fun row => au_event_type row <> "name.requested") rows.

Lemma log_same db : logged_no_request db db.
Proof. exists []. by rewrite app_nil_r. Qed.

Lemma log_quiet db db' : audit db' = audit db -> logged_no_request db db'.
Proof. intros E1. exists []. by rewrite E1, app_nil_r. Qed.

Ltac logged :=
  try (split; [|]); match goal with
  | |- logged_no_request _ _ =>
      unfold logged_no_request; cbn; rewrite <- ?app_assoc;
      first [by (eexists; split; [reflexivity|repeat constructor])
            |by (exists []; rewrite app_nil_r)]
  | _ => idtac
  end.

(** A grant, as one change of the register. *)
Definition granted (event : PaymentEvent) (name : string) (env : Env) (db db' : Db) : Prop :=
  exists paid account customer row eventId subject,
    map_get name (names db) = None /\
    payment_events db !! pe_id event = None /\
    (pv_event_type paid = pe_type event /\ pv_checkout_id paid = pe_checkoutId event /\
     pv_payload paid = payload_of_grant event name) /\
    (nm_owner_user_id row = pa_id account /\ nm_status row = NameOwned /\ nm_checkout_id row = pe_checkoutId event /\
     nm_order_id row = pe_orderId event /\ nm_price_paid_eur row = pe_amountEur event) /\
    uuid_of (pa_id account) = Some subject /\ map_get eventId (outbox db) = None /\
    names db' = names db ++ [(name, row)] /\
    name_holds db' = other_holds name (name_holds db) /\
    payment_events db' = <[pe_id event := paid]> (payment_events db) /\
    checkout_customers db' = map_set (pa_id account) customer (checkout_customers db) /\
    outbox db' = outbox db ++ [(eventId, event_row Granted subject name (clock_timestamp env))] /\
    logged_no_request db db'.

(** An event that was processed before, or that is about a name that is taken. *)
Definition not_granted (event : PaymentEvent) (name : string) (db db' : Db) : Prop :=
  logged_no_request db db' /\ names db' = names db /\ name_holds db' = name_holds db /\ checkout_customers db' = checkout_customers db /\
  outbox db' = outbox db /\
  (is_Some (payment_events db !! pe_id event) /\ db' = db \/
   payment_events db !! pe_id event = None /\ is_Some (map_get name (names db)) /\
   exists paid, payment_events db' = <[pe_id event := paid]> (payment_events db)).

Lemma grant_transaction_gave event name env db b db' :
  grant_transaction config settings uuid_of event name env db = Gave (b, db') ->
  (b = true /\ granted event name env db db') \/ (b = false /\ not_granted event name db db').
Proof.
  unfold grant_transaction. intros H. tx_step.
  apply record_payment_event_gave in H0 as [(-> & -> & Hseen)|(-> & Hnew & paid & -> & Hpaid)]; cbn [negb] in H.
  { tx_run. right. split; [done|]. split; [apply log_same|]. repeat split; auto. }
  do 4 tx_step. destruct (map_get name (names _)) as [row|] eqn:Hname; cbn in Hname.
  - right. assert (is_Some (map_get name (names db))) by (rewrite Hname; eauto).
    destruct (negb _); db_run; (split; [done|]); unfold not_granted; logged; cbn; eauto 12.
  - left. destruct Hpaid as (? & ? & ?). unfold grant_name in H. db_run; (split; [done|]);
      eexists paid, _, _, _, _, _; repeat split; try done; eauto; logged.
Qed.

(** A revocation, as one change of the register. *)
Definition revoked (event : PaymentEvent) (env : Env) (db db' : Db) : Prop :=
  exists paid name row eventId subject,
    (name, row) ∈ names db /\ nm_status row = NameOwned /\
    payment_events db !! pe_id event = None /\
    uuid_of (nm_owner_user_id row) = Some subject /\ map_get eventId (outbox db) = None /\
    names db' = update_where (fun r => String.eqb r.1 name) (revoked_row (pe_type event) (now env)) (names db) /\
    name_holds db' = name_holds db /\
    payment_events db' = <[pe_id event := paid]> (payment_events db) /\
    checkout_customers db' = checkout_customers db /\
    outbox db' = outbox db ++ [(eventId, event_row Revoked subject name (clock_timestamp env))] /\
    logged_no_request db db'.

Definition not_revoked (event : PaymentEvent) (db db' : Db) : Prop :=
  logged_no_request db db' /\ names db' = names db /\ name_holds db' = name_holds db /\ checkout_customers db' = checkout_customers db /\
  outbox db' = outbox db /\
  (is_Some (payment_events db !! pe_id event) /\ db' = db \/
   payment_events db !! pe_id event = None /\
   exists paid, payment_events db' = <[pe_id event := paid]> (payment_events db)).

Lemma revoke_transaction_gave event metadataName env db b db' :
  revoke_transaction uuid_of event metadataName env db = Gave (b, db') ->
  (b = true /\ revoked event env db db') \/ (b = false /\ not_revoked event db db').
Proof.
  unfold revoke_transaction. intros H. tx_step.
  apply record_payment_event_gave in H0 as [(-> & -> & Hseen)|(-> & Hnew & paid & -> & Hpaid)]; cbn [negb] in H.
  { tx_run. right. split; [done|]. split; [apply log_same|]. repeat split; auto. }
  do 2 tx_step. destruct (js_find _ (names _)) as [[name row]|] eqn:Hfound.
  - left. apply js_find_Some in Hfound as [Hrow Hre]. unfold refunded in Hre. bools.
    db_run. split; [done|]. exists paid, name, row. do 2 eexists. repeat split; eauto; logged.
  - right. db_run. split; [done|]. unfold not_revoked; logged; cbn; eauto 12.
Qed.

(** The log of a request. *)
Definition request_row (name holdId tier : string) (t : Z) : AuditRow :=
  {| au_event_type := "name.requested"; au_target_user_id := None;
     au_metadata := [("name", JString name); ("holdId", JString holdId); ("tier", JString tier)]; au_created_at := t |}.

(** A request: the holds of others are left alone, and the one of the address gets a new
    token or is added, unreserved. *)
Definition requested_hold (name email : string) (env : Env) (db db' : Db) : Prop :=
  let hash := sha256Hex (randomToken env) in
  (exists found origin, found ∈ name_holds db /\ same_request name email (now env) found = true /\
     name_holds db' = update_where (same_request name email (now env)) (rotated hash origin) (name_holds db) /\
     audit db' = audit db) \/
  ((forall row, row ∈ name_holds db -> same_request name email (now env) row = false) /\
   exists id row tier t, id = randomUUID env 0 /\ name_holds db' = name_holds db ++ [(id, row)] /\
     audit db' = audit db ++ [request_row name id tier t] /\ map_get id (name_holds db) = None /\
     ho_name row = name /\ ho_email row = email /\ ho_claim_token_hash row = hash /\ ho_reserved_until row = None).

Lemma secure_transaction_gave name email origin env db r db' :
  secure_transaction config settings sha256Hex showDate name email origin env db = Gave (r, db') ->
  hr_name r = name /\ requested_hold name email env db db' /\
  names db' = names db /\ payment_events db' = payment_events db /\
  checkout_customers db' = checkout_customers db /\ outbox db' = outbox db.
Proof.
  unfold secure_transaction, requested_hold. intros H. tx_run.
  destruct (base.filter _ (name_holds db)) as [|found others] eqn:Hfilter.
  - assert (forall row, row ∈ name_holds db -> same_request name email (now env) row = false) as Hnone.
    { intros row Hrow. apply not_true_is_false. intros Hsame.
      assert (row ∈ base.filter (fun row => same_request name email (now env) row = true) (name_holds db)) as Hin
        by (by apply list_elem_of_filter). rewrite Hfilter in Hin. by apply elem_of_nil in Hin. }
    unfold insert_request in *. db_run; cbn; repeat split; try done; right; (split; [done|]);
      (eexists _, _, _, _; do 3 (split; [reflexivity|]); split; [by apply map_has_none|done]).
  - assert (found ∈ base.filter (fun row => same_request name email (now env) row = true) (name_holds db)) as Hin
      by (rewrite Hfilter; left).
    apply list_elem_of_filter in Hin as [Hsame Hin].
    db_run; cbn; repeat split; try done; left; exists found, origin; done.
Qed.

(** A claim: the row of the link is reserved, and nobody else has the name. *)
Definition claimed (hold : string * HoldRow) (session : CheckoutSession) (successHash : string) (t : Z)
    (db : Db) (holds' : list (string * HoldRow)) : Prop :=
  map_get (ho_name hold.2) (names db) = None /\
  emailOwnsName (ho_email hold.2) db = false /\
  (forall row, row ∈ name_holds db -> ho_name row.2 = ho_name hold.2 -> row.1 <> hold.1 ->
     at_least (ho_reserved_until row.2) t = false) /\
  (exists row, row ∈ name_holds db /\ live_hold hold.1 t row = true) /\
  holds' = update_where (live_hold hold.1 t) (reserved_row config session successHash t) (name_holds db).

Lemma claim_transaction_gave hold session successHash env db r db' :
  claim_transaction config hold session successHash env db = Gave (r, db') ->
  cl_name r = ho_name hold.2 /\ logged_no_request db db' /\ claimed hold session successHash (now env) db (name_holds db') /\
  names db' = names db /\ payment_events db' = payment_events db /\
  checkout_customers db' = checkout_customers db /\ outbox db' = outbox db.
Proof.
  unfold claim_transaction, claimed. intros H. tx_run.
  destruct (updated_where _ _ (name_holds db)) as [|updated others] eqn:Hupdated; [by tx_step|].
  assert (exists row, row ∈ name_holds db /\ live_hold hold.1 (now env) row = true) as Hlive.
  { unfold updated_where in Hupdated. destruct (base.filter _ _) as [|row rows] eqn:Hf; [done|].
    assert (row ∈ base.filter (fun row => live_hold hold.1 (now env) row = true) (name_holds db)) as Hin
      by (rewrite Hf; left). apply list_elem_of_filter in Hin as []. eauto. }
  assert (forall row, row ∈ name_holds db -> ho_name row.2 = ho_name hold.2 -> row.1 <> hold.1 ->
     at_least (ho_reserved_until row.2) (now env) = false) as Hothers.
  { intros row Hrow Hname Hid. 
    match goal with H : existsb _ _ = false |- _ => rewrite existsb_elem_false in H; specialize (H _ Hrow) as Hfree end.
    unfold is_reserved in Hfree. rewrite Hname, String.eqb_refl in Hfree.
    destruct (String.eqb_spec row.1 hold.1); [done|]. by destruct (at_least _ _). }
  match goal with H : map_has _ _ = false |- _ => apply map_has_none in H end.
  destruct (ho_email_confirmed_at hold.2); db_run; (split; [done|]); logged; cbn; repeat split; auto.
Qed.
End Specs.
