(* ===== verification/Register.v ===== *)
(** * The register of names

    What every transaction of the checkout keeps, whatever runs between: the register
    is consistent ([registry_ok]: at most one live reservation of a name, every owner a
    customer, every name paid by an event of its own, and exactly the platform events
    that fit what happened to it) and history is never rewritten ([history]). *)

From S2P Require Import Prelude Contracts Json Programs Tables Checkout Names NamesFacts.

Open Scope stdpp_scope.
Open Scope js_scope.
Local Open Scope Z_scope.

(** ** Definitions *)

(** At most one hold of a name is reserved at a time. *)
Definition exclusive (t : Z) (holds : list (string * HoldRow)) : Prop :=
  forall id1 h1 id2 h2, (id1, h1) ∈ holds -> (id2, h2) ∈ holds -> ho_name h1 = ho_name h2 ->
    at_least (ho_reserved_until h1) t = true -> at_least (ho_reserved_until h2) t = true -> id1 = id2.

(** What the audit log remembers of a request: its identifier and its name. *)
Definition logged (id name : string) (db : Db) : Prop := exists tier t, request_row name id tier t ∈ audit db.

(** The platform events about a name, in the outbox. *)
Definition events_of (name : string) (rows : list (string * OutboxRow)) : list (PlatformEventType * string) :=
  (fun row => (ob_event_type row.2, ob_subject_id row.2)) <$>
    base.filter (fun row : string * OutboxRow => ob_purchased_name row.2 = name) rows.

Section Register.
#[local] Set Default Proof Using "Type".
Context (uuid_of : string -> option string).

(** The events there should be: one for the grant, one more for the revocation. *)
Definition expected_events (o : option NameRow) : list (PlatformEventType * string) :=
  match o with
  | None => []
  | Some row =>
      let subject := coalesce_to (uuid_of (nm_owner_user_id row)) "" in
      (Granted, subject) :: match nm_status row with NameOwned => [] | NameRevoked => [(Revoked, subject)] end
  end.

Record registry_ok (t : Z) (db : Db) : Prop := {
  ok_names : map_ok (names db);
  ok_holds : map_ok (name_holds db);
  ok_outbox : map_ok (outbox db);
  ok_reservations : exclusive t (name_holds db);
  ok_logged : forall id h, (id, h) ∈ name_holds db -> logged id (ho_name h) db;
  ok_log : forall id name name', logged id name db -> logged id name' db -> name = name';
  ok_owner : forall name row, map_get name (names db) = Some row ->
    map_has (nm_owner_user_id row) (checkout_customers db) = true;
  ok_paid : forall name row, map_get name (names db) = Some row ->
    exists id paid, payment_events db !! id = Some paid /\ pv_checkout_id paid = nm_checkout_id row /\
      json_get "name" (pv_payload paid) = Some (JString name);
  ok_events : forall name, events_of name (outbox db) ≡ₚ expected_events (map_get name (names db))
}.

(** What may happen to a name: it may be revoked. *)
Definition name_history (row row' : NameRow) : Prop :=
  nm_owner_user_id row' = nm_owner_user_id row /\ nm_checkout_id row' = nm_checkout_id row /\
  nm_order_id row' = nm_order_id row /\ nm_price_paid_eur row' = nm_price_paid_eur row /\
  nm_purchased_at row' = nm_purchased_at row /\ (nm_status row = NameRevoked -> row' = row).

(** What may happen to a platform event: it is delivered, or not. *)
Definition same_event (o o' : OutboxRow) : Prop :=
  ob_event_type o' = ob_event_type o /\ ob_subject_id o' = ob_subject_id o /\
  ob_purchased_name o' = ob_purchased_name o /\ ob_occurred_at o' = ob_occurred_at o.

Record history (db db' : Db) : Prop := {
  hs_names : forall name row, map_get name (names db) = Some row ->
    exists row', map_get name (names db') = Some row' /\ name_history row row';
  hs_payments : payment_events db ⊆ payment_events db';
  hs_outbox : forall id o, map_get id (outbox db) = Some o ->
    exists o', map_get id (outbox db') = Some o' /\ same_event o o';
  hs_customers : forall subject, map_has subject (checkout_customers db) = true ->
    map_has subject (checkout_customers db') = true;
  hs_audit : audit db `prefix_of` audit db'
}.

#[export] Instance history_preorder : PreOrder history.
Proof.
  split.
  - intros db. split; try done; intros ? x Hx; exists x; (split; [done|]); [unfold name_history|unfold same_event]; auto 8.
  - intros db1 db2 db3 [N1 P1 O1 C1 A1] [N2 P2 O2 C2 A2]. split.
    + intros name row Hrow. destruct (N1 _ _ Hrow) as (row2 & Hrow2 & E1).
      destruct (N2 _ _ Hrow2) as (row3 & Hrow3 & E2). exists row3. split; [done|].
      unfold name_history in *. destruct_and!. repeat split; try congruence.
      intros Hr. assert (row2 = row) as -> by auto. auto.
    + by etransitivity.
    + intros id o Ho. destruct (O1 _ _ Ho) as (o2 & Ho2 & E1). destruct (O2 _ _ Ho2) as (o3 & Ho3 & E2).
      exists o3. split; [done|]. unfold same_event in *. destruct_and!. repeat split; congruence.
    + auto.
    + by etransitivity.
Qed.

(** ** What a step of a program keeps *)

(** A transaction began before now, and the identifier it would give a request is new. *)
Definition admissible (t : Z) (env : Env) (db : Db) : Prop :=
  now env <= t /\ forall name, ~ logged (randomUUID env 0) name db.

Definition keeps (env : Env) (db db' : Db) : Prop :=
  forall t, admissible t env db -> registry_ok t db -> registry_ok t db' /\ history db db'.

Lemma keeps_refl env db : keeps env db db.
Proof. intros t _ H. split; [done|reflexivity]. Qed.

Lemma exclusive_later t t' holds : t <= t' -> exclusive t holds -> exclusive t' holds.
Proof.
  intros Ht Hex id1 h1 id2 h2 H1 H2 Hn R1 R2. refine (Hex _ _ _ _ H1 H2 Hn _ _).
  - unfold at_least in *. destruct (ho_reserved_until h1); [lia|done].
  - unfold at_least in *. destruct (ho_reserved_until h2); [lia|done].
Qed.

Lemma registry_ok_later t t' db : t <= t' -> registry_ok t db -> registry_ok t' db.
Proof. intros Ht []. split; try done. by eapply exclusive_later. Qed.

Lemma logged_later id name db db' : audit db `prefix_of` audit db' -> logged id name db -> logged id name db'.
Proof. intros [rows E] (tier & t & H). exists tier, t. rewrite E. apply elem_of_app. by left. Qed.

Lemma logged_quiet id name db db' : logged_no_request db db' -> logged id name db' <-> logged id name db.
Proof.
  intros (rows & E & Hq). split; intros (tier & t & H); exists tier, t; rewrite E in *; [|apply elem_of_app; by left].
  apply elem_of_app in H as [H|H]; [done|]. rewrite Forall_forall in Hq. by specialize (Hq _ H).
Qed.

Lemma logged_no_request_prefix db db' : logged_no_request db db' -> audit db `prefix_of` audit db'.
Proof. intros (rows & E & _). by exists rows. Qed.

(** What is left to show of a step that leaves the names, the payments and the outbox alone. *)
Lemma keeps_holds env db db' : names db' = names db -> payment_events db' = payment_events db ->
  outbox db' = outbox db ->
  (forall subject, map_has subject (checkout_customers db) = true -> map_has subject (checkout_customers db') = true) ->
  audit db `prefix_of` audit db' ->
  (forall t, admissible t env db -> registry_ok t db ->
     map_ok (name_holds db') /\ exclusive t (name_holds db') /\
     (forall id h, (id, h) ∈ name_holds db' -> logged id (ho_name h) db') /\
     (forall id name name', logged id name db' -> logged id name' db' -> name = name')) ->
  keeps env db db'.
Proof.
  intros En Ep Eo Hc Hp Hh t Ht Hok. destruct (Hh t Ht Hok) as (Hh1 & Hh2 & Hh3 & Hh4). destruct Hok. split.
  - split; rewrite ?En, ?Ep, ?Eo; eauto.
  - split; rewrite ?En, ?Ep, ?Eo; eauto; intros ? x Hx; exists x; (split; [done|]); [unfold name_history|unfold same_event]; auto 8.
Qed.

(** Holds that are as before, but for some that are gone. *)
Lemma exclusive_incl t holds holds' : (forall row, row ∈ holds' -> row ∈ holds) -> exclusive t holds -> exclusive t holds'.
Proof. intros Hin Hex id1 h1 id2 h2 H1 H2. apply Hex; auto. Qed.

Lemma keeps_fewer_holds env db db' : names db' = names db -> payment_events db' = payment_events db ->
  outbox db' = outbox db ->
  (forall subject, map_has subject (checkout_customers db) = true -> map_has subject (checkout_customers db') = true) ->
  logged_no_request db db' -> name_holds db' `sublist_of` name_holds db ->
  keeps env db db'.
Proof.
  intros En Ep Eo Hc Hl Hs. apply keeps_holds; auto using logged_no_request_prefix.
  intros t _ []. assert (forall row, row ∈ name_holds db' -> row ∈ name_holds db) as Hin.
  { intros row Hrow. by eapply elem_of_submseteq, sublist_submseteq; [|done..]. }
  split; [|split; [by eapply exclusive_incl|split]].
  - unfold map_ok in *. apply (sublist_NoDup _ (name_holds db).*1); [done|by apply (fmap_sublist fst)].
  - intros id h Hh. rewrite (logged_quiet _ _ _ _ Hl). auto.
  - intros id n n'. rewrite !(logged_quiet _ _ _ _ Hl). eauto.
Qed.

(** A step that does not touch the register. *)
Lemma keeps_same env db db' : same_register db db' -> logged_no_request db db' -> keeps env db db'.
Proof. intros (En & Eh & Ep & Ec & Eo) Hl. apply keeps_fewer_holds; rewrite ?Eh, ?Ec; auto. Qed.

Lemma map_has_kept {V} (k k' : string) (v : V) m : map_has k m = true -> map_has k (map_set k' v m) = true.
Proof.
  rewrite !map_has_get. intros [w Hw]. destruct (decide (k = k')) as [->|Hk].
  - exists v. apply map_get_set_eq.
  - exists w. by rewrite map_get_set_ne.
Qed.

(** *** Requests and claims *)

(** Holds that kept their name and their reservation, or are not reserved. *)
Lemma exclusive_image t holds holds' :
  (forall id h', (id, h') ∈ holds' -> at_least (ho_reserved_until h') t = false \/
     exists h, (id, h) ∈ holds /\ ho_name h = ho_name h' /\ ho_reserved_until h = ho_reserved_until h') ->
  exclusive t holds -> exclusive t holds'.
Proof.
  intros Him Hex id1 h1 id2 h2 H1 H2 Hn R1 R2.
  destruct (Him _ _ H1) as [?|(g1 & G1 & N1 & E1)]; [congruence|].
  destruct (Him _ _ H2) as [?|(g2 & G2 & N2 & E2)]; [congruence|].
  apply (Hex _ g1 _ g2); congruence.
Qed.

Lemma elem_of_update_where {A} p (f : A -> A) rows id a' : (id, a') ∈ update_where p f rows <->
  exists a, (id, a) ∈ rows /\ a' = if p (id, a) then f a else a.
Proof.
  unfold update_where. rewrite list_elem_of_fmap. split.
  - intros ([id' a] & E & Ha). destruct (p (id', a)) eqn:Hp; injection E as -> ->; exists a; by rewrite Hp.
  - intros (a & Ha & ->). exists (id, a). by destruct (p (id, a)).
Qed.

(** Holds changed in place, their names and what the log says of them kept. *)
Lemma keeps_changed_holds env db db' p f : names db' = names db -> payment_events db' = payment_events db ->
  outbox db' = outbox db -> checkout_customers db' = checkout_customers db -> logged_no_request db db' ->
  name_holds db' = update_where p f (name_holds db) -> (forall h, ho_name (f h) = ho_name h) ->
  (forall t, admissible t env db -> registry_ok t db -> exclusive t (name_holds db')) ->
  keeps env db db'.
Proof.
  intros En Ep Eo Ec Hl Eh Hname Hex. apply keeps_holds; rewrite ?Ec; auto using logged_no_request_prefix.
  intros t Ha Hok. split; [rewrite Eh; apply map_ok_update_where, Hok|]. split; [by apply Hex|]. split.
  - intros id h. rewrite Eh, elem_of_update_where. intros (h0 & Hh0 & ->). rewrite (logged_quiet _ _ _ _ Hl).
    replace (ho_name (if p (id, h0) then f h0 else h0)) with (ho_name h0) by (by destruct (p _)).
    by eapply ok_logged.
  - intros id n n'. rewrite !(logged_quiet _ _ _ _ Hl). by eapply ok_log.
Qed.

Lemma secure_keeps config settings sha256Hex showDate name email origin env db r db' :
  secure_transaction config settings sha256Hex showDate name email origin env db = Gave (r, db') -> keeps env db db'.
Proof.
  intros (_ & Hr & En & Ep & Ec & Eo)%secure_transaction_gave.
  destruct Hr as [(found & o & _ & _ & Eh & Ea)|(_ & id & row & tier & t0 & -> & Eh & Ea & Hfree & Hn & _ & _ & Hres)].
  - eapply keeps_changed_holds; try done; [by exists []; rewrite Ea, app_nil_r|].
    intros t _ Hok. rewrite Eh. apply (exclusive_image t (name_holds db)); [|by apply ok_reservations].
    intros id h'. rewrite elem_of_update_where. intros (h & Hh & ->). right. exists h. by case_match.
  - apply keeps_holds; rewrite ?Ec; auto; [by eexists|].
    intros t [_ Hnew] Hok.
    assert (forall id n, logged id n db' <-> logged id n db \/ id = randomUUID env 0 /\ n = name) as Hlog.
    { intros id n. unfold logged. rewrite Ea. setoid_rewrite elem_of_app. setoid_rewrite list_elem_of_singleton.
      split; [intros (ti & t1 & [?|[= -> -> -> ->]]); eauto|].
      intros [(ti & t1 & ?)|[-> ->]]; eauto. }
    rewrite Eh. split; [by apply map_ok_add; [apply Hok|]|]. split; [|split].
    + apply (exclusive_image t (name_holds db)); [|by apply ok_reservations].
      intros id h'. rewrite elem_of_app, list_elem_of_singleton. intros [Hh|[= -> ->]]; [eauto|left; by rewrite Hres].
    + intros id h. rewrite elem_of_app, list_elem_of_singleton, Hlog. intros [Hh|[= -> ->]]; [|by right].
      left. by eapply ok_logged.
    + intros id n n'. rewrite !Hlog. intros [H1|[-> ->]] [H2|[E2 ->]]; subst; try done.
      * by eapply ok_log.
      * destruct (Hnew _ H1).
      * destruct (Hnew _ H2).
Qed.

(** A claim relies on what it read before: the name of the hold. *)
Lemma claim_keeps config hold session successHash env db r db' :
  logged hold.1 (ho_name hold.2) db ->
  claim_transaction config hold session successHash env db = Gave (r, db') -> keeps env db db'.
Proof.
  intros Hlog (_ & Hl & Hc & En & Ep & Ec & Eo)%claim_transaction_gave.
  destruct Hc as (_ & _ & Hothers & _ & Eh).
  eapply keeps_changed_holds; try done. intros t [Hnow _] Hok. rewrite Eh.
  assert (forall id h, (id, h) ∈ name_holds db -> id = hold.1 -> ho_name h = ho_name hold.2) as Hname.
  { intros id h Hh ->. eapply ok_log; [done|by eapply ok_logged|done]. }
  assert (forall id h, (id, h) ∈ name_holds db -> ho_name h = ho_name hold.2 -> id <> hold.1 ->
            at_least (ho_reserved_until h) t = false) as Hfree.
  { intros id h Hh Hn Hid. specialize (Hothers _ Hh Hn Hid). unfold at_least in *.
    cbn in Hothers. destruct (ho_reserved_until h); [lia|done]. }
  intros id1 h1 id2 h2. rewrite !elem_of_update_where. intros (g1 & G1 & E1) (g2 & G2 & E2) Hn R1 R2.
  unfold live_hold in E1, E2. cbn in E1, E2.
  destruct (String.eqb_spec id1 hold.1) as [Hid1|Hid1], (String.eqb_spec id2 hold.1) as [Hid2|Hid2]; cbn in E1, E2.
  - congruence.
  - exfalso. assert (ho_name h1 = ho_name hold.2) as Hn1.
    { rewrite <- (Hname _ _ G1 Hid1). subst h1. by case_match. }
    subst h2. rewrite (Hfree _ _ G2) in R2; congruence.
  - exfalso. assert (ho_name h2 = ho_name hold.2) as Hn2.
    { rewrite <- (Hname _ _ G2 Hid2). subst h2. by case_match. }
    subst h1. rewrite (Hfree _ _ G1) in R1; congruence.
  - subst. by eapply (ok_reservations _ _ Hok).
Qed.

(** *** Grants and revocations *)

Lemma events_of_add name rows id o : events_of name (rows ++ [(id, o)]) =
  events_of name rows ++ if decide (ob_purchased_name o = name) then [(ob_event_type o, ob_subject_id o)] else [].
Proof.
  unfold events_of. rewrite filter_app, fmap_app. f_equal. rewrite filter_cons, filter_nil. cbn. by case_decide.
Qed.

Lemma outbox_added (rows : list (string * OutboxRow)) eid row id o : map_get id rows = Some o ->
  exists o', map_get id (rows ++ [(eid, row)]) = Some o' /\ same_event o o'.
Proof. intros Ho. exists o. rewrite map_get_app, Ho. split; [done|]. unfold same_event. auto. Qed.

Lemma grant_keeps event name env db db' : granted uuid_of event name env db db' -> keeps env db db'.
Proof.
  intros (paid & account & customer & row & eid & subject & Hnew & Hpay & (_ & Pc & Pp) & (Ro & Rs & Rc & _) & Hsub &
          Hfree & En & Eh & Ep & Ec & Eo & Hl) t Ha Hok.
  assert (payment_events db ⊆ payment_events db') as Hsubset by (rewrite Ep; by apply insert_subseteq).
  split; [|split].
  - split.
    + rewrite En. by apply map_ok_add; [apply Hok|].
    + rewrite Eh. unfold other_holds. by apply map_ok_filter, Hok.
    + rewrite Eo. by apply map_ok_add; [apply Hok|].
    + rewrite Eh. apply (exclusive_incl _ (name_holds db)); [|by apply ok_reservations].
      intros r Hr. by apply list_elem_of_filter in Hr as [].
    + intros id h. rewrite Eh, (logged_quiet _ _ _ _ Hl). intros Hh. apply list_elem_of_filter in Hh as [].
      by eapply ok_logged.
    + intros id n n'. rewrite !(logged_quiet _ _ _ _ Hl). by eapply ok_log.
    + intros n r. rewrite En, map_get_app, Ec. destruct (map_get n (names db)) as [r'|] eqn:E1; cbn.
      * intros [= <-]. apply map_has_kept. by eapply ok_owner.
      * case_decide; [|done]. intros [= <-]. rewrite Ro. apply map_has_get. eexists. apply map_get_set_eq.
    + intros n r. rewrite En, map_get_app. destruct (map_get n (names db)) as [r'|] eqn:E1; cbn.
      * intros [= <-]. destruct (ok_paid _ _ Hok _ _ E1) as (id & p & Hp & Hc & Hj). exists id, p.
        split; [by eapply lookup_weaken|done].
      * case_decide; [|done]. intros [= <-]. subst n. exists (pe_id event), paid. rewrite Ep, lookup_insert_eq, Pc, Rc, Pp.
        done.
    + intros n. rewrite Eo, En, events_of_add, map_get_app. cbn [ob_purchased_name event_row ob_event_type ob_subject_id].
      rewrite (ok_events _ _ Hok n). destruct (decide (name = n)) as [->|Hn]; cbn.
      * rewrite Hnew. rewrite decide_True by done. unfold expected_events. by rewrite Rs, Ro, Hsub.
      * rewrite app_nil_r. destruct (map_get n (names db)); [done|]. by rewrite decide_False.
  - intros n r Hr. exists r. rewrite En, map_get_app, Hr. split; [done|]. unfold name_history. auto 8.
  - done.
  - rewrite Eo. intros. by apply outbox_added.
  - rewrite Ec. intros. by apply map_has_kept.
  - by apply logged_no_request_prefix.
Qed.

Lemma payments_kept env event db db' : payment_events db' = payment_events db \/
    payment_events db !! pe_id event = None /\ (exists paid, payment_events db' = <[pe_id event := paid]> (payment_events db)) ->
  names db' = names db -> name_holds db' = name_holds db -> checkout_customers db' = checkout_customers db ->
  outbox db' = outbox db -> logged_no_request db db' -> keeps env db db'.
Proof.
  intros Hp En Eh Ec Eo Hl t Ha Hok.
  assert (payment_events db ⊆ payment_events db') as Hsub.
  { destruct Hp as [->|(Hn & paid & ->)]; [done|by apply insert_subseteq]. }
  destruct (keeps_same env db (set_payment_events (payment_events db) db')) with (t := t) as [K1 K2]; try done.
  split.
  - destruct K1. split; try done. intros n r Hr. destruct (ok_paid0 n r Hr) as (id & p & H1 & H2).
    exists id, p. split; [by eapply lookup_weaken|done].
  - by destruct K2.
Qed.

Lemma not_granted_keeps event name env db db' : not_granted event name db db' -> keeps env db db'.
Proof.
  intros (Hl & En & Eh & Ec & Eo & Hp). apply (payments_kept _ event); auto.
  destruct Hp as [(_ & ->)|(Hn & _ & Hp)]; auto.
Qed.

Lemma not_revoked_keeps event env db db' : not_revoked event db db' -> keeps env db db'.
Proof.
  intros (Hl & En & Eh & Ec & Eo & Hp). apply (payments_kept _ event); auto.
  destruct Hp as [(_ & ->)|(Hn & Hp)]; auto.
Qed.

Lemma revoke_keeps event env db db' : revoked uuid_of event env db db' -> keeps env db db'.
Proof.
  intros (paid & name & row & eid & subject & Hin & Hs & Hpay & Hsub & Hfree & En & Eh & Ep & Ec & Eo & Hl) t Ha Hok.
  assert (map_get name (names db) = Some row) as Hrow by (apply map_get_ok; [apply Hok|done]).
  assert (payment_events db ⊆ payment_events db') as Hsubset by (rewrite Ep; by apply insert_subseteq).
  assert (forall n, map_get n (names db') =
            if decide (n = name) then revoked_row (pe_type event) (now env) <$> map_get n (names db)
            else map_get n (names db)) as Hget by (intros n; by rewrite En, map_get_update_where).
  assert (forall n r, map_get n (names db') = Some r -> exists r0, map_get n (names db) = Some r0 /\
            nm_owner_user_id r = nm_owner_user_id r0 /\ nm_checkout_id r = nm_checkout_id r0) as Hback.
  { intros n r. rewrite Hget. case_decide; [|eauto]. destruct (map_get n (names db)) as [r0|]; [|done].
    intros [= <-]. eauto. }
  split; [|split].
  - split.
    + rewrite En. by apply map_ok_update_where, Hok.
    + rewrite Eh. apply Hok.
    + rewrite Eo. by apply map_ok_add; [apply Hok|].
    + rewrite Eh. by apply ok_reservations.
    + intros id h. rewrite Eh, (logged_quiet _ _ _ _ Hl). by eapply ok_logged.
    + intros id n n'. rewrite !(logged_quiet _ _ _ _ Hl). by eapply ok_log.
    + intros n r (r0 & Hr0 & -> & _)%Hback. rewrite Ec. by eapply ok_owner.
    + intros n r (r0 & Hr0 & _ & ->)%Hback. destruct (ok_paid _ _ Hok _ _ Hr0) as (id & p & Hp & Hc & Hj).
      exists id, p. split; [by eapply lookup_weaken|done].
    + intros n. rewrite Eo, events_of_add, (ok_events _ _ Hok n), Hget.
      cbn [ob_purchased_name event_row ob_event_type ob_subject_id]. destruct (decide (name = n)) as [->|Hn].
      * rewrite decide_True, Hrow by done. cbn. by rewrite Hs, Hsub.
      * rewrite decide_False, app_nil_r by done. done.
  - intros n r Hr. rewrite Hget, Hr. case_decide as Hn; cbn.
    + eexists. split; [done|]. unfold name_history. cbn. repeat split. intros Hr'. subst n. congruence.
    + exists r. split; [done|]. unfold name_history. auto 8.
  - done.
  - rewrite Eo. intros. by apply outbox_added.
  - by rewrite Ec.
  - by apply logged_no_request_prefix.
Qed.
End Register.
