(* ===== verification/Subscriptions.v ===== *)
(** * Subscriptions

    [services/checkout/src/lib/server/billing/subscriptions.ts]: the recurring
    subscriptions of an account.  The actions of a customer only ever call the payment
    provider; [applyEvent] mirrors what the provider says into the tables. *)

From S2P Require Import Prelude Contracts Json Programs Tables Checkout.

Open Scope stdpp_scope.
Open Scope js_scope.
Local Open Scope Z_scope.

Definition SUBSCRIPTION_TIERS : list string := ["aven-ceo"].
Definition isSubscriptionTier (value : string) : bool := includes SUBSCRIPTION_TIERS value.

Definition ENDED_STATUSES : list string := ["canceled"; "expired"; "incomplete_expired"; "unpaid"; "revoked"].
Definition ended (row : SubscriptionRow) : bool := includes ENDED_STATUSES (sb_status row).

Record SubscriptionStanding := {
  st_tier : string;
  st_status : string;
  st_priceEurCents : Z;
  st_currentPeriodEnd : option Z;
  st_cancelAtPeriodEnd : bool;
  st_pauseAtPeriodEnd : bool
}.

(** [SubscriptionEvent]; a [pauseAtPeriodEnd] of [None] is a payload that does not say. *)
Record SubscriptionEvent := {
  se_id : string;
  se_type : string;
  se_providerSubscriptionId : string;
  se_providerCustomerId : option string;
  se_email : option string;
  se_userId : option string;
  se_tier : option string;
  se_status : string;
  se_currentPeriodEnd : option string;
  se_cancelAtPeriodEnd : bool;
  se_pauseAtPeriodEnd : option bool;
  se_priceCents : option Z
}.

Record User := { us_id : string; us_email : string }.

Section SubscriptionService.
(** [canBuyMore tier held] is the limit of the pricing package; [timestamp_of] reads a text as
    a timestamp; [collate] is the order of text in the database. *)
Context (PUBLIC_BASE_URL : string) (canBuyMore : string -> Z -> bool) (timestamp_of : string -> option Z)
  (collate : string -> string -> Z).

Definition foreign_key_violation (table : string) : failure :=
  OtherError ("insert or update on table " +:+ table +:+ " violates foreign key constraint").

(** [INSERT INTO billing_customers ... ON CONFLICT (user_id) DO UPDATE]: the user is a customer
    of the checkout, and a provider's customer belongs to one user. *)
Definition upsert_billing_customer (userId providerCustomerId : string) : tx unit :=
  customers ← select checkout_customers;
  known ← select billing_customers;
  throw_when! negb (map_has userId customers) as foreign_key_violation "billing_customers";
  throw_when! existsb (fun row : string * string =>
                 String.eqb row.2 providerCustomerId && negb (String.eqb row.1 userId)) (map_to_list known)
    as unique_violation "billing_customers_provider_customer_id_unique";
  update (set_billing_customers (<[userId := providerCustomerId]> known)).

Definition customerId (user : User) : program (option string) :=
  known ← step (select (fun db => billing_customers db !! us_id user));
  match truthy known with
  | Some known => mret (Some known)
  | None =>
      found ← step (call (fun env => findCustomerByEmail (payments env) (to_lower (us_email user))));
      match truthy found with
      | None => mret None
      | Some found =>
          _ ← step (upsert_billing_customer (us_id user) found);
          mret (Some found)
      end
  end.

(** The promise of the products is kept, also a rejected one. *)
Definition cached_products : tx (outcome failure (list (string * string))) :=
  cached ← select products;
  match cached with
  | Some answer => mret answer
  | None =>
      answer ← ask (fun env => ensureProducts (payments env));
      _ ← update (set_products (Some answer));
      mret answer
  end.
Definition ensure_products : program (list (string * string)) :=
  answer ← step cached_products;
  match (answer : outcome failure (list (string * string))) with Gave ids => mret ids | Threw e => Raise e end.

Definition productId (tier : string) : program string :=
  ids ← ensure_products;
  match map_get tier ids ≫= nullif_empty with
  | Some id => mret id
  | None => Raise (AppError 502 "BILLING_PRODUCT_MISSING" ("No provider product exists for " +:+ tier +:+ "."))
  end.

(** ** Reading *)

(** Newest first. *)
Definition by_updated (a b : string * SubscriptionRow) : Z := sb_updated_at b.2 - sb_updated_at a.2.
Definition of_user (userId : string) (row : string * SubscriptionRow) : bool := String.eqb (sb_user_id row.2) userId.
Definition of_tier (userId tier : string) (row : string * SubscriptionRow) : bool :=
  of_user userId row && String.eqb (sb_tier row.2) tier.

(** [DISTINCT ON (tier)] of rows in order: the first of each tier. *)
Fixpoint distinct_tiers (seen : list string) (rows : list (string * SubscriptionRow)) :
    list (string * SubscriptionRow) :=
  match rows with
  | [] => []
  | row :: rows =>
      if includes seen (sb_tier row.2) then distinct_tiers seen rows
      else row :: distinct_tiers (sb_tier row.2 :: seen) rows
  end.

Definition latest_rows (userId : string) (db : Db) : list (string * SubscriptionRow) :=
  distinct_tiers []
    (js_sort (fun a b => or_else (collate (sb_tier a.2) (sb_tier b.2)) (by_updated a b))
       (base.filter (fun row => of_user userId row = true) (subscriptions db))).

(** How many of a tier stand. *)
Definition live (userId tier : string) (row : string * SubscriptionRow) : bool :=
  of_tier userId tier row && negb (ended row.2).
Definition count_live (userId tier : string) (db : Db) : Z :=
  Z.of_nat (length (base.filter (fun row => live userId tier row = true) (subscriptions db))).
Definition liveCount (userId tier : string) : program Z := step (select (count_live userId tier)).

Definition latest_row (userId tier : string) (db : Db) : option (string * SubscriptionRow) :=
  head (js_sort by_updated (base.filter (fun row => of_tier userId tier row = true) (subscriptions db))).
Definition tierRow (userId tier : string) : program (option (string * SubscriptionRow)) :=
  if negb (isSubscriptionTier tier) then Raise (AppError 400 "VALIDATION_ERROR" "Unknown subscription tier.")
  else step (select (latest_row userId tier)).

Definition me (userId : string) : program (list SubscriptionStanding) :=
  rows ← step (select (latest_rows userId));
  mret ((fun row : string * SubscriptionRow =>
           {| st_tier := sb_tier row.2; st_status := sb_status row.2; st_priceEurCents := sb_price_eur_cents row.2;
              st_currentPeriodEnd := sb_current_period_end row.2;
              st_cancelAtPeriodEnd := sb_cancel_at_period_end row.2;
              st_pauseAtPeriodEnd := sb_pause_at_period_end row.2 |}) <$> (rows : list _)).

(** ** Actions *)

Definition insert_checkout (userId checkoutId : string) : tx unit :=
  t ← ask now;
  customers ← select checkout_customers;
  throw_when! negb (map_has userId customers) as foreign_key_violation "billing_checkouts";
  update (fun db => set_billing_checkouts
    (billing_checkouts db ++ [{| bc_user_id := userId; bc_checkout_id := checkoutId; bc_created_at := t |}]) db).

Definition subscribe (user : User) (tier : string) (embedOrigin locale : option string) : program string :=
  if negb (isSubscriptionTier tier) then Raise (AppError 400 "VALIDATION_ERROR" "Unknown subscription tier.")
  else
    held ← liveCount (us_id user) tier;
    if negb (canBuyMore tier held)
    then Raise (AppError 409 "SUBSCRIPTION_EXISTS" "You already have an active subscription for this product.")
    else
      productId ← productId tier;
      session ← step (call (fun env => createSubscriptionCheckout (payments env)
                  {| si_productId := productId; si_tier := tier; si_userId := us_id user; si_email := us_email user;
                     si_successUrl := PUBLIC_BASE_URL +:+ "/dashboard"; si_embedOrigin := embedOrigin;
                     si_locale := locale |}));
      _ ← step (insert_checkout (us_id user) (cs_checkoutId session));
      mret (cs_checkoutUrl session).

Definition missing (message : string) : failure := AppError 404 "SUBSCRIPTION_MISSING" message.

Definition requireActive (userId tier : string) : program (string * SubscriptionRow) :=
  row ← tierRow userId tier;
  match (row : option (string * SubscriptionRow)) with
  | Some row => if ended row.2 then Raise (missing "There is no active subscription.") else mret row
  | None => Raise (missing "There is no active subscription.")
  end.

Definition cancel (userId tier : string) (immediate : bool) : program unit :=
  row ← requireActive userId tier;
  step (call (fun env => cancelSubscription (payments env) row.1 immediate)).

Definition resume (userId tier : string) : program unit :=
  row ← tierRow userId tier;
  match (row : option (string * SubscriptionRow)) with
  | Some row =>
      if ended row.2 then Raise (missing "There is no subscription to resume.")
      else
        let paused := String.eqb (sb_status row.2) "paused" || sb_pause_at_period_end row.2 in
        step (call (fun env => resumeSubscription (payments env) row.1 (if paused then Unpause else Uncancel)))
  | None => Raise (missing "There is no subscription to resume.")
  end.

Definition pause (userId tier : string) : program unit :=
  row ← requireActive userId tier;
  step (call (fun env => pauseSubscription (payments env) row.1)).

Definition orders (user : User) : program (list OrderRow) :=
  customer ← customerId user;
  match customer with
  | None => mret []
  | Some providerCustomerId => step (call (fun env => listOrders (payments env) providerCustomerId))
  end.

Definition invoice_url (user : User) (orderId : string) : program string :=
  rows ← orders user;
  match js_find (fun order : OrderRow => String.eqb (or_id order) orderId) rows with
  | None => Raise (AppError 404 "ORDER_MISSING" "There is no such order.")
  | Some owned => step (call (fun env => orderInvoiceUrl (payments env) (or_id owned)))
  end.

Definition latest_checkout (userId : string) (db : Db) : option string :=
  bc_checkout_id <$>
    head (js_sort (fun a b => bc_created_at b - bc_created_at a)
            (base.filter (fun row => bc_user_id row = userId) (billing_checkouts db))).
Definition checkout_status (userId : string) : program (option string) :=
  checkoutId ← step (select (latest_checkout userId));
  match truthy checkoutId with
  | None => mret None
  | Some checkoutId =>
      status ← step (call (fun env => checkoutStatus (payments env) checkoutId));
      mret (Some status)
  end.

(** ** Events *)

(** [ON CONFLICT(subject_id) DO UPDATE] of the account of an address; addresses are unique. *)
Definition provisioned_user (event : SubscriptionEvent) : tx (option string) :=
  match truthy (se_email event) with
  | None => mret None
  | Some email =>
      account ← call (fun env => provisionAccount env (to_lower email) "subscription");
      _ ← upsert_customer account;
      mret (Some (pa_id account))
  end.

(** Whose subscription it is: the user of the metadata when the checkout knows it, else the
    account of the address. *)
Definition user_of_event (event : SubscriptionEvent) : tx (option string) :=
  customers ← select checkout_customers;
  match truthy (se_userId event) with
  | Some userId => if map_has userId customers then mret (Some userId) else provisioned_user event
  | None => provisioned_user event
  end.

(** The row of the event: inserted, or what [DO UPDATE] makes of the old one. *)
Definition new_subscription (id userId : string) (event : SubscriptionEvent) (period : option Z) (t : Z) :
    SubscriptionRow :=
  {| sb_id := id; sb_user_id := userId; sb_tier := coalesce_to (se_tier event) "";
     sb_status := se_status event; sb_current_period_end := period;
     sb_cancel_at_period_end := se_cancelAtPeriodEnd event;
     sb_pause_at_period_end := coalesce_to (se_pauseAtPeriodEnd event) false;
     sb_price_eur_cents := coalesce_to (se_priceCents event) 0; sb_created_at := t; sb_updated_at := t |}.

Definition updated_subscription (event : SubscriptionEvent) (period : option Z) (t : Z) (old : SubscriptionRow) :
    SubscriptionRow :=
  {| sb_id := sb_id old; sb_user_id := sb_user_id old;
     sb_tier := coalesce_to (nullif_empty (coalesce_to (se_tier event) "")) (sb_tier old);
     sb_status := se_status event; sb_current_period_end := coalesce period (sb_current_period_end old);
     sb_cancel_at_period_end := se_cancelAtPeriodEnd event;
     sb_pause_at_period_end := coalesce_to (se_pauseAtPeriodEnd event) (sb_pause_at_period_end old);
     sb_price_eur_cents :=
       if 0 <? coalesce_to (se_priceCents event) 0 then coalesce_to (se_priceCents event) 0
       else sb_price_eur_cents old;
     sb_created_at := sb_created_at old; sb_updated_at := t |}.

Definition upsert_subscription (userId : string) (event : SubscriptionEvent) : tx unit :=
  t ← ask now;
  id ← ask (fun env => randomUUID env 0);
  rows ← select subscriptions;
  throw_when! negb (int4_ok (coalesce_to (se_priceCents event) 0)) as OtherError "integer out of range";
  period ← match se_currentPeriodEnd event with
           | None => mret None
           | Some s => match timestamp_of s with
                       | Some period => mret (Some period)
                       | None => throw (OtherError "invalid input syntax for type timestamp")
                       end
           end;
  let key := se_providerSubscriptionId event in
  match map_get key rows with
  | Some old => update (set_subscriptions (map_set key (updated_subscription event period t old) rows))
  | None =>
      throw_when! existsb (fun row : string * SubscriptionRow => String.eqb (sb_id row.2) id) rows
        as unique_violation "subscriptions_pkey";
      update (set_subscriptions (rows ++ [(key, new_subscription id userId event period t)]))
  end.

(** The transaction of [applyEvent]: was the event applied? *)
Definition apply_transaction (event : SubscriptionEvent) : tx bool :=
  user ← user_of_event event;
  match user with
  | None =>
      _ ← writeAudit "billing.subscription_unmatched" None
            [("eventId", JString (se_id event)); ("subscriptionId", JString (se_providerSubscriptionId event))];
      mret false
  | Some userId =>
      _ ← match truthy (se_providerCustomerId event) with
          | Some providerCustomerId => upsert_billing_customer userId providerCustomerId
          | None => mret tt
          end;
      _ ← upsert_subscription userId event;
      _ ← writeAudit "billing.subscription_applied" None
            [("eventId", JString (se_id event)); ("type", JString (se_type event));
             ("subscriptionId", JString (se_providerSubscriptionId event)); ("status", JString (se_status event));
             ("tier", match se_tier event with Some tier => JString tier | None => JNull end)];
      mret true
  end.
Definition applyEvent (event : SubscriptionEvent) : program bool := step (apply_transaction event).
End SubscriptionService.
