(* ===== verification/Webhooks.v ===== *)
(** * Webhooks of the payment provider

    [services/checkout/src/lib/server/billing]: what a call of the provider says
    ([provider.ts]), the archive of calls ([webhook-deliveries.ts]), and the route
    [routes/api/webhooks/polar/+server.ts] that processes them.

    The body of a call is modelled by what [JSON.parse] reads from it, [None] for a text it
    refuses; its numbers are integers.  The check of a signature is a library's. *)

From S2P Require Import Prelude Contracts Json Programs Tables Checkout Names Subscriptions.
From Stdlib Require Import QArith.QArith.

Open Scope stdpp_scope.
Open Scope js_scope.
Local Open Scope Z_scope.

(** ** Values *)

(** [value.key ?? undefined]: [None] is [undefined] or [null]. *)
Definition field (key : string) (value : json) : option json :=
  match json_get key value with None | Some JNull => None | found => found end.
Definition empty_object : json := JObject [].

(** A value the database driver gets for a column of text, a number by its digits. *)
Definition as_text (o : option json) : option string := js_String <$> o.

(** [Boolean(value)]. *)
Definition json_truthy (o : option json) : bool :=
  match o with
  | None | Some JNull => false
  | Some (JBool b) => b
  | Some (JNumber n) => negb (n =? 0)
  | Some (JString s) => negb (String.eqb s "")
  | Some (JArray _ | JObject _) => true
  end.

(** [Number(text)] of a decimal integer, of white space around it or nothing else; the texts
    of fractions, powers and other bases are left out and count as no number. *)
Fixpoint digits_value (acc : Z) (s : string) : option Z :=
  match s with
  | EmptyString => Some acc
  | String c s =>
      if is_decimal_char c then digits_value (acc * 10 + (Z.of_nat (nat_of_ascii c) - 48)) s else None
  end.
Definition number_of_text (s : string) : option Z :=
  match trim s with
  | EmptyString => Some 0
  | String c EmptyString => digits_value 0 (String c EmptyString)
  | String c rest =>
      if Ascii.eqb c "-" then Z.opp <$> digits_value 0 rest
      else if Ascii.eqb c "+" then digits_value 0 rest else digits_value 0 (String c rest)
  end.
(** [Number(value)]; [None] is no finite number. *)
Definition js_Number (value : json) : option Z :=
  match value with
  | JNumber n => Some n
  | JBool b => Some (if b then 1 else 0)
  | JNull => Some 0
  | JString s => number_of_text s
  | JArray _ | JObject _ => number_of_text (js_String value)
  end.

(** [typeof value === 'string' ? value : null]. *)
Definition only_text (o : option json) : option string :=
  match o with Some (JString s) => Some s | _ => None end.

(** ** What a call says *)

Record Envelope := { ev_type : string; ev_data : json }.

(** [parseEnvelope]. *)
Definition parseEnvelope (body : option json) : outcome failure Envelope :=
  match body with
  | None => Threw (AppError 400 "WEBHOOK_PAYLOAD_INVALID" "The webhook payload is not JSON.")
  | Some JNull => Threw (OtherError "TypeError")
  | Some payload =>
      Gave {| ev_type := match field "type" payload with Some t => js_String t | None => "" end;
              ev_data := coalesce_to (field "data" payload) empty_object |}
  end.

Definition cents (o : option json) : option Z := o ≫= js_Number.

Definition parsePolarEvent (body : option json) : outcome failure PaymentEvent :=
  match parseEnvelope body with
  | Threw e => Threw e
  | Gave {| ev_type := type; ev_data := data |} =>
      let customer := coalesce_to (field "customer" data) empty_object in
      Gave {| pe_id := coalesce_to (as_text (field "id" data)) "";
              pe_type := type;
              pe_checkoutId := as_text (field "checkout_id" data);
              pe_orderId := if starts_with type "order." then as_text (field "id" data)
                            else as_text (field "order_id" data);
              pe_email := as_text (coalesce (field "email" customer) (field "customer_email" data));
              pe_amountEur := (fun n => (inject_Z n / inject_Z 100)%Q) <$>
                                cents (coalesce (field "total_amount" data) (field "amount" data));
              pe_metadata := match field "metadata" data with Some (JObject entries) => entries | _ => [] end |}
  end.

Definition parsePolarSubscriptionEvent (body : option json) : outcome failure (option SubscriptionEvent) :=
  match parseEnvelope body with
  | Threw e => Threw e
  | Gave {| ev_type := type; ev_data := data |} =>
      let subscriptionId := coalesce_to (as_text (field "id" data)) "" in
      if negb (starts_with type "subscription.") || String.eqb subscriptionId "" then Gave None
      else
        let customer := coalesce_to (field "customer" data) empty_object in
        let product := coalesce_to (field "product" data) empty_object in
        let metadata := coalesce_to (field "metadata" data) empty_object in
        let productMetadata := coalesce_to (field "metadata" product) empty_object in
        Gave (Some {|
          se_id := subscriptionId;
          se_type := type;
          se_providerSubscriptionId := subscriptionId;
          se_providerCustomerId := as_text (coalesce (field "id" customer) (field "customer_id" data));
          se_email := as_text (field "email" customer);
          se_userId := coalesce (only_text (field "userId" metadata)) (only_text (field "external_id" customer));
          se_tier := coalesce (only_text (field "tier" metadata)) (only_text (field "tier" productMetadata));
          se_status := coalesce_to (as_text (field "status" data)) "";
          se_currentPeriodEnd := as_text (field "current_period_end" data);
          se_cancelAtPeriodEnd := json_truthy (field "cancel_at_period_end" data);
          se_pauseAtPeriodEnd := json_truthy ∘ Some <$> json_get "pause_at_period_end" data;
          se_priceCents := cents (field "amount" data) |})
  end.

(** One subscription of [customer.state_changed]. *)
Definition standing_event (type : string) (data sub : json) : SubscriptionEvent :=
  {| se_id := coalesce_to (as_text (field "id" sub)) "";
     se_type := type;
     se_providerSubscriptionId := coalesce_to (as_text (field "id" sub)) "";
     se_providerCustomerId := as_text (field "id" data);
     se_email := as_text (field "email" data);
     se_userId := only_text (field "external_id" data);
     se_tier := None;
     se_status := coalesce_to (as_text (field "status" sub)) "active";
     se_currentPeriodEnd := as_text (field "current_period_end" sub);
     se_cancelAtPeriodEnd := json_truthy (field "cancel_at_period_end" sub);
     se_pauseAtPeriodEnd := json_truthy ∘ Some <$> json_get "pause_at_period_end" sub;
     se_priceCents := json_get "amount" sub ≫= js_Number |}.

Definition parsePolarCustomerState (body : option json) : outcome failure (list SubscriptionEvent) :=
  match parseEnvelope body with
  | Threw e => Threw e
  | Gave {| ev_type := type; ev_data := data |} =>
      if negb (String.eqb type "customer.state_changed") then Gave []
      else
        let subscriptions := match field "active_subscriptions" data with Some (JArray items) => items | _ => [] end in
        Gave (standing_event type data <$> base.filter (fun sub => json_truthy (json_get "id" sub) = true) subscriptions)
  end.

(** ** The archive of calls *)

Record PolarWebhookDelivery := {
  wd_deliveryId : string;
  wd_eventId : option string;
  wd_eventType : string;
  wd_payload : json;
  wd_headers : list (string * option string)
}.

Inductive Claim := Process | AlreadyProcessed | InFlight.
#[export] Instance Claim_eq_dec : EqDecision Claim.
Proof. solve_decision. Defined.

(** [INSERT ... ON CONFLICT(delivery_id) DO NOTHING]: was it new? *)
Definition insert_delivery (delivery : PolarWebhookDelivery) : tx bool :=
  t ← ask clock_timestamp;
  rows ← select deliveries;
  if bool_decide (is_Some (rows !! wd_deliveryId delivery)) then mret false
  else
    _ ← update (set_deliveries (<[wd_deliveryId delivery :=
          {| dl_event_id := wd_eventId delivery; dl_event_type := wd_eventType delivery;
             dl_payload := wd_payload delivery; dl_headers := wd_headers delivery; dl_state := Processing;
             dl_attempt_count := 1; dl_processing_error := None; dl_last_attempt_at := t;
             dl_processed_at := None |}]> rows));
    mret true.

Definition set_state (state : DeliveryState) (attempts : Z) (error : option string) (attempted : Z)
    (processed : option Z) (row : DeliveryRow) : DeliveryRow :=
  {| dl_event_id := dl_event_id row; dl_event_type := dl_event_type row; dl_payload := dl_payload row;
     dl_headers := dl_headers row; dl_state := state; dl_attempt_count := attempts;
     dl_processing_error := error; dl_last_attempt_at := attempted; dl_processed_at := processed |}.

Definition update_delivery (id : string) (f : DeliveryRow -> DeliveryRow) (db : Db) : Db :=
  match deliveries db !! id with
  | Some row => set_deliveries (<[id := f row]> (deliveries db)) db
  | None => db
  end.

(** An attempt counts as lost after five minutes. *)
Definition stale_before (ms : Z) : Z := js_date (ms - 5 * 60000).
Definition stale (ms : Z) (row : DeliveryRow) : bool := dl_last_attempt_at row <? stale_before ms.

(** The [UPDATE ... WHERE] that takes over a failed or a lost attempt: did it?  [ms] is the
    [Date.now()] of the check before. *)
Definition reclaim (id : string) (ms : Z) : tx bool :=
  t ← ask clock_timestamp;
  row ← select (fun db => deliveries db !! id);
  match row with
  | Some row =>
      if bool_decide (dl_state row = DeliveryFailed) ||
         (bool_decide (dl_state row = Processing) && stale ms row)
      then _ ← update (update_delivery id (fun row =>
                 set_state Processing (dl_attempt_count row + 1) None t (dl_processed_at row) row));
           mret true
      else mret false
  | None => mret false
  end.

Definition same_delivery (delivery : PolarWebhookDelivery) (row : DeliveryRow) : bool :=
  bool_decide (dl_event_id row = wd_eventId delivery) && String.eqb (dl_event_type row) (wd_eventType delivery) &&
  isDeepStrictEqual (dl_payload row) (wd_payload delivery).

Definition delivery_conflict : failure :=
  AppError 409 "WEBHOOK_DELIVERY_CONFLICT" "The webhook delivery ID is already bound to different content.".

Definition claim_delivery (delivery : PolarWebhookDelivery) : program Claim :=
  inserted ← step (insert_delivery delivery);
  if (inserted : bool) then mret Process
  else
    existing ← step (select (fun db => deliveries db !! wd_deliveryId delivery));
    match existing with
    | None => Raise delivery_conflict
    | Some row =>
        if negb (same_delivery delivery row) then Raise delivery_conflict
        else if bool_decide (dl_state row = Processed) then mret AlreadyProcessed
        else
          ms ← step (ask date_now);
          if bool_decide (dl_state row = Processing) && negb (stale ms row) then mret InFlight
          else
            reclaimed ← step (reclaim (wd_deliveryId delivery) ms);
            mret (if (reclaimed : bool) then Process else InFlight)
    end.

Definition processed (id : string) : program unit :=
  step (t ← ask clock_timestamp;
        update (update_delivery id (fun row =>
          set_state Processed (dl_attempt_count row) None (dl_last_attempt_at row) (Some t) row))).

(** [String(error).slice(0, 2_000)]. *)
Definition error_text (e : failure) : string :=
  string_take 2000 ("Error: " +:+ match e with AppError _ _ message => message | OtherError message => message end).

Definition failed (id : string) (e : failure) : program unit :=
  step (update (update_delivery id (fun row =>
          set_state DeliveryFailed (dl_attempt_count row) (Some (error_text e)) (dl_last_attempt_at row) None row))).

(** ** The route *)

(** What the check of a signature says. *)
Inductive Verdict := Verified | NotVerified | VerifierBroke (message : string).

Record Headers := { hd_id : option string; hd_timestamp : option string; hd_signature : option string;
                    hd_content_type : option string; hd_user_agent : option string }.

Record Response := { rp_status : Z; rp_body : list (string * json) }.

Section Webhook.
Context (config : NameServiceConfig) (settings : QueueSettings) (uuid_of : string -> option string)
  (timestamp_of : string -> option Z) (verify : option json -> string -> string -> string -> Verdict).

Definition assertWebhookSignature (body : option json) (headers : Headers) : outcome failure unit :=
  match truthy (hd_id headers), truthy (hd_timestamp headers), truthy (hd_signature headers) with
  | Some id, Some timestamp, Some signature =>
      match verify body id timestamp signature with
      | Verified => Gave tt
      | NotVerified => Threw (AppError 403 "WEBHOOK_SIGNATURE_INVALID" "The webhook signature is invalid.")
      | VerifierBroke message => Threw (OtherError message)
      end
  | _, _, _ => Threw (AppError 403 "WEBHOOK_SIGNATURE_MISSING" "The webhook signature headers are missing.")
  end.

Definition verifyWebhook (body : option json) (headers : Headers) : outcome failure PaymentEvent :=
  match assertWebhookSignature body headers with
  | Gave _ => parsePolarEvent body
  | Threw e => Threw e
  end.

(** An [AppError] is an answer, any other error goes on. *)
Definition answer_error (e : failure) : program Response :=
  match e with
  | AppError status code message =>
      mret {| rp_status := status; rp_body := [("code", JString code); ("message", JString message)] |}
  | OtherError _ => Raise e
  end.

Definition ignore {A} (p : program A) : program unit := _ ← p; mret tt.

Fixpoint apply_events (events : list SubscriptionEvent) : program unit :=
  match events with
  | [] => mret tt
  | event :: events => _ ← applyEvent timestamp_of event; apply_events events
  end.

Definition raised {A} (o : outcome failure A) : program A :=
  match o with Gave a => mret a | Threw e => Raise e end.

(** What an event does, by its type. *)
Definition dispatch (body : option json) (event : PaymentEvent) : program unit :=
  if String.eqb (pe_type event) "order.paid" then
    if json_truthy (map_get "holdId" (pe_metadata event)) then ignore (grantFromEvent config settings uuid_of event)
    else step (writeAudit "billing.order_paid" None
           [("eventId", JString (pe_id event));
            ("tier", match map_get "tier" (pe_metadata event) with Some tier => tier | None => JNull end)])
  else if starts_with (pe_type event) "subscription." then
    parsed ← raised (parsePolarSubscriptionEvent body);
    match parsed with Some event => ignore (applyEvent timestamp_of event) | None => mret tt end
  else if String.eqb (pe_type event) "customer.state_changed" then
    events ← raised (parsePolarCustomerState body);
    apply_events events
  else if String.eqb (pe_type event) "refund.created" then ignore (revokeFromEvent uuid_of event)
  else step (writeAudit "billing.event_ignored" None
         [("eventId", JString (pe_id event)); ("type", JString (pe_type event))]).

Definition received (b : bool) : string * json := ("received", JBool b).

Definition process_delivery (id : string) (body : option json) (event : PaymentEvent) : program Response :=
  try_catch
    (fun _ => _ ← processed id; mret {| rp_status := 200; rp_body := [received true] |})
    (fun e =>
       try_catch (fun _ => mret {| rp_status := 500; rp_body := [received false] |})
                 (fun _ => mret {| rp_status := 500; rp_body := [received false] |})
                 (failed id e))
    (dispatch body event).

Definition delivery_of (payload : json) (headers : Headers) (event : PaymentEvent) : PolarWebhookDelivery :=
  {| wd_deliveryId := coalesce_to (hd_id headers) "";
     wd_eventId := nullif_empty (pe_id event);
     wd_eventType := pe_type event;
     wd_payload := payload;
     wd_headers := [("webhook-id", hd_id headers); ("webhook-timestamp", hd_timestamp headers);
                    ("webhook-signature", hd_signature headers); ("content-type", hd_content_type headers);
                    ("user-agent", hd_user_agent headers)] |}.

(** [POST], after the body was read within its limit. *)
Definition POST (body : option json) (headers : Headers) : program Response :=
  match verifyWebhook body headers with
  | Threw e => answer_error e
  | Gave event =>
      match body with
      | None => Raise (OtherError "SyntaxError")
      | Some payload =>
          let delivery := delivery_of payload headers event in
          try_catch
            (fun claim =>
               match claim with
               | AlreadyProcessed => mret {| rp_status := 200; rp_body := [received true; ("replay", JBool true)] |}
               | InFlight =>
                   mret {| rp_status := 409; rp_body := [received false; ("code", JString "WEBHOOK_DELIVERY_IN_FLIGHT")] |}
               | Process => process_delivery (wd_deliveryId delivery) body event
               end)
            answer_error (claim_delivery delivery)
      end
  end.
End Webhook.
