(* ===== verification/Outbox.v ===== *)
(** * The outbox of platform events

    [services/checkout/scripts/platform-event-worker.ts]: the worker that takes the events
    of purchases and refunds from the outbox of the checkout to the customer API, which
    takes them in [services/aven-api/src/customers/handler.ts] ([internal]).  The worker is
    written over any state that contains the tables of the checkout, and any way to post. *)

From S2P Require Import Prelude Contracts Programs Tables Checkout.

Open Scope stdpp_scope.
Open Scope js_scope.
Local Open Scope Z_scope.

Definition SECOND : Z := 1000000.

(** [EventRow], with its [attempts] before the claim. *)
Record EventRow := {
  er_id : string;
  er_event_type : PlatformEventType;
  er_subject_id : string;
  er_purchased_name : string;
  er_occurred_at : Z;
  er_attempts : Z
}.

Definition event_of_row (row : string * OutboxRow) : EventRow :=
  {| er_id := row.1; er_event_type := ob_event_type row.2; er_subject_id := ob_subject_id row.2;
     er_purchased_name := ob_purchased_name row.2; er_occurred_at := ob_occurred_at row.2;
     er_attempts := ob_attempts row.2 |}.

Record OutboxConfig := { LEASE_SECONDS : Z; MAX_ATTEMPTS : Z }.

Section Outbox.
Context (config : OutboxConfig) (instanceId : string).

(** The rows there are to deliver, oldest first. *)
Definition due (t : Z) (row : string * OutboxRow) : bool :=
  (bool_decide (ob_status row.2 = OutPending) && (ob_available_at row.2 <=? t)) ||
  (bool_decide (ob_status row.2 = OutSending) &&
   match ob_lease_expires_at row.2 with Some lease => lease <? t | None => false end).
Definition by_creation (a b : string * OutboxRow) : Z :=
  or_else (ob_created_at a.2 - ob_created_at b.2) (string_cmp a.1 b.1).
Definition next_due (t : Z) (db : Db) : option (string * OutboxRow) :=
  head (js_sort by_creation (base.filter (fun row => due t row = true) (outbox db))).

Definition sending_row (t : Z) (o : OutboxRow) : OutboxRow :=
  {| ob_event_type := ob_event_type o; ob_subject_id := ob_subject_id o; ob_purchased_name := ob_purchased_name o;
     ob_occurred_at := ob_occurred_at o; ob_status := OutSending; ob_attempts := ob_attempts o + 1;
     ob_available_at := ob_available_at o; ob_lease_owner := Some instanceId;
     ob_lease_expires_at := Some (t + LEASE_SECONDS config * SECOND); ob_last_error := ob_last_error o;
     ob_delivered_at := ob_delivered_at o; ob_created_at := ob_created_at o |}.

Definition claim_event : tx (option EventRow) :=
  t ← ask now;
  row ← select (next_due t);
  match (row : option (string * OutboxRow)) with
  | None => mret None
  | Some row =>
      _ ← update (fun db => set_outbox (update_where (fun r => String.eqb r.1 row.1) (sending_row t) (outbox db)) db);
      mret (Some (event_of_row row))
  end.

(** The row the worker still has the lease of. *)
Definition leased (id : string) (r : string * OutboxRow) : bool :=
  String.eqb r.1 id && bool_decide (ob_lease_owner r.2 = Some instanceId).

Definition delivered_row (t : Z) (o : OutboxRow) : OutboxRow :=
  {| ob_event_type := ob_event_type o; ob_subject_id := ob_subject_id o; ob_purchased_name := ob_purchased_name o;
     ob_occurred_at := ob_occurred_at o; ob_status := OutDelivered; ob_attempts := ob_attempts o;
     ob_available_at := ob_available_at o; ob_lease_owner := None; ob_lease_expires_at := None;
     ob_last_error := None; ob_delivered_at := Some t; ob_created_at := ob_created_at o |}.
Definition mark_delivered (id : string) : tx unit :=
  t ← ask now;
  update (fun db => set_outbox (update_where (leased id) (delivered_row t) (outbox db)) db).

Definition failed_row (t : Z) (status : OutboxStatus) (delay : Z) (error : string) (o : OutboxRow) : OutboxRow :=
  {| ob_event_type := ob_event_type o; ob_subject_id := ob_subject_id o; ob_purchased_name := ob_purchased_name o;
     ob_occurred_at := ob_occurred_at o; ob_status := status; ob_attempts := ob_attempts o;
     ob_available_at := t + delay * SECOND; ob_lease_owner := None; ob_lease_expires_at := None;
     ob_last_error := Some error; ob_delivered_at := ob_delivered_at o; ob_created_at := ob_created_at o |}.
(** Two, four, ... seconds, at most a quarter of an hour. *)
Definition delay_seconds (attempts : Z) : Z := Z.min (2 ^ Z.min attempts 10) 900.
Definition mark_failed (row : EventRow) (error : string) : tx unit :=
  t ← ask now;
  let attempts := er_attempts row + 1 in
  let status := if MAX_ATTEMPTS config <=? attempts then OutDead else OutPending in
  update (fun db => set_outbox
    (update_where (leased (er_id row)) (failed_row t status (delay_seconds attempts) (string_take 1000 error))
       (outbox db)) db).

(** *** The worker, over a state with these tables *)

Context {Env' State : Type} (lift : forall A, tx A -> txn Env' State failure A).

(** [post] is the call of the customer API: its status, or an exception of the network. *)
Context (post : EventRow -> txn Env' State failure (outcome failure Z)).

Definition deliver (row : EventRow) : prog Env' State failure unit :=
  try_catch mret
    (fun e => step (lift _ (mark_failed row (match e with AppError _ _ m | OtherError m => "Error: " +:+ m end))))
    (answer ← step (post row);
     match (answer : outcome failure Z) with
     | Threw e => Raise e
     | Gave status =>
         if (200 <=? status) && (status <=? 299) then step (lift _ (mark_delivered (er_id row)))
         else Raise (OtherError ("platform API returned " +:+ pretty status))
     end).

(** One turn of [main]; between turns it sleeps when there was nothing to do. *)
Definition outbox_turn : prog Env' State failure unit :=
  row ← step (lift _ claim_event);
  match (row : option EventRow) with Some row => deliver row | None => mret tt end.
End Outbox.
