(* ===== verification/CheckoutSystem.v ===== *)
(** * The checkout as a system

    The server runs any number of requests at once: those of [Names.v] and
    [Subscriptions.v] and the calls of the payment provider ([Webhooks.v]), while the
    workers of the outboxes write to the same tables.  The theorems hold for every
    interleaving of their statements and transactions, whatever the identity service and
    the payment provider answer, and wherever a request is broken off. *)

From S2P Require Import Prelude Contracts Json Programs Tables Checkout Names NamesFacts Register Subscriptions Webhooks Outbox.
From stdpp Require Import relations.

Open Scope stdpp_scope.
Open Scope js_scope.
Local Open Scope Z_scope.

(** ** Transactions of other modules *)

(** What a module may change that does not touch the register. *)
Definition harmless_change (db db' : Db) : Prop :=
  names db' = names db /\ name_holds db' = name_holds db /\ payment_events db' = payment_events db /\
  outbox db' = outbox db /\
  (forall subject, map_has subject (checkout_customers db) = true -> map_has subject (checkout_customers db') = true) /\
  logged_no_request db db'.

Definition harmless {A} (t : tx A) : Prop :=
  forall env db a db', t env db = Gave (a, db') -> harmless_change db db'.

#[export] Instance harmless_change_preorder : PreOrder harmless_change.
Proof.
  split.
  - intros db. repeat split; auto. apply log_same.
  - intros d1 d2 d3 (N1 & H1 & P1 & O1 & C1 & r1 & A1 & Q1) (N2 & H2 & P2 & O2 & C2 & r2 & A2 & Q2).
    repeat split; try congruence; [auto|]. exists (r1 ++ r2). rewrite A2, A1, app_assoc. split; [done|].
    by apply Forall_app.
Qed.

Lemma harmless_bind {A B} (k : A -> tx B) (m : tx A) : harmless m -> (forall a, harmless (k a)) -> harmless (m ≫= k).
Proof.
  intros Hm Hk env db b db' (a & db1 & H1 & H2)%txn_bind_gave. etransitivity; [by eapply Hm|by eapply Hk].
Qed.
Lemma harmless_ret {A} (a : A) : harmless (mret a).
Proof. intros env db b db' [= <- <-]. reflexivity. Qed.
Lemma harmless_ask {A} (f : Env -> A) : harmless (ask f).
Proof. intros env db b db' [= <- <-]. reflexivity. Qed.
Lemma harmless_select {A} (f : Db -> A) : harmless (select f).
Proof. intros env db b db' [= <- <-]. reflexivity. Qed.
Lemma harmless_throw {A} e : harmless (throw e : tx A).
Proof. done. Qed.
Lemma harmless_when c e : harmless (throw_when c e).
Proof. destruct c; [done|apply harmless_ret]. Qed.
Lemma harmless_call {A} (f : Env -> outcome failure A) : harmless (call f).
Proof. intros env db b db' (a & _ & [= -> ->])%call_gave. reflexivity. Qed.
Lemma harmless_update f : (forall db, harmless_change db (f db)) -> harmless (update f).
Proof. intros Hf env db b db' [= <- <-]. apply Hf. Qed.
Lemma harmless_audit event target metadata : event <> "name.requested" -> harmless (writeAudit event target metadata).
Proof.
  intros He env db b db' [= -> ->]%writeAudit_gave. repeat split; auto. eexists. split; [reflexivity|].
  by constructor.
Qed.
Lemma harmless_customer account : harmless (upsert_customer account).
Proof.
  intros env db b db' (row & [= -> ->] & _)%upsert_customer_gave. repeat split; cbn; try done; [|by apply log_quiet].
  intros. by apply map_has_kept.
Qed.

#[export] Hint Resolve harmless_ret harmless_ask harmless_select harmless_throw harmless_when harmless_call
  harmless_customer : js.
Ltac harmless :=
  repeat first [solve [auto with js] | simple apply harmless_bind; [|intros]];
  try (apply harmless_audit; discriminate);
  try (apply harmless_update; intros; repeat split; first [done|by apply log_quiet]).

Lemma harmless_billing_customer userId id : harmless (upsert_billing_customer userId id).
Proof. unfold upsert_billing_customer. harmless. Qed.
Lemma harmless_products : harmless cached_products.
Proof. unfold cached_products. harmless. destruct a as [o|]; harmless. Qed.
Lemma harmless_checkout userId id : harmless (insert_checkout userId id).
Proof. unfold insert_checkout. harmless. Qed.
#[export] Hint Resolve harmless_billing_customer harmless_products harmless_checkout : js.

Lemma harmless_status name : harmless (select_status name).
Proof. unfold select_status. harmless. Qed.
Lemma harmless_reserved name : harmless (select_reserved name).
Proof. unfold select_reserved. harmless. Qed.
Lemma harmless_select_hold sha256Hex token : harmless (select_hold sha256Hex token).
Proof. unfold select_hold. harmless. Qed.
Lemma harmless_open config sha256Hex hold : harmless (open_checkout config sha256Hex hold).
Proof. unfold open_checkout. harmless. Qed.
#[export] Hint Resolve harmless_status harmless_reserved harmless_select_hold harmless_open : js.

Lemma harmless_subscription timestamp_of userId event : harmless (upsert_subscription timestamp_of userId event).
Proof.
  unfold upsert_subscription. harmless; repeat (case_match; harmless).
Qed.
Lemma harmless_user event : harmless (user_of_event event).
Proof. unfold user_of_event, provisioned_user. harmless; repeat (case_match; harmless). Qed.
#[export] Hint Resolve harmless_subscription harmless_user : js.

Lemma harmless_apply timestamp_of event : harmless (apply_transaction timestamp_of event).
Proof. unfold apply_transaction. harmless; repeat (case_match; harmless). Qed.

Lemma update_delivery_harmless id f db : harmless_change db (update_delivery id f db).
Proof. unfold update_delivery. case_match; repeat split; try done; by apply log_quiet. Qed.

Lemma harmless_insert_delivery delivery : harmless (insert_delivery delivery).
Proof. unfold insert_delivery. harmless. case_match; harmless. Qed.
Lemma harmless_reclaim id ms : harmless (reclaim id ms).
Proof.
  unfold reclaim. harmless; repeat (case_match; harmless). apply harmless_update. intros. apply update_delivery_harmless.
Qed.
Lemma harmless_update_delivery id (f : Z -> DeliveryRow -> DeliveryRow) :
  harmless (t ← ask clock_timestamp; update (update_delivery id (f t))).
Proof. harmless. apply harmless_update. intros. apply update_delivery_harmless. Qed.
#[export] Hint Resolve harmless_apply harmless_insert_delivery harmless_reclaim harmless_update_delivery : js.

(** ** Every program is safe *)

Section System.
Context (config : NameServiceConfig) (settings : QueueSettings) (sha256Hex : string -> string)
  (uuid_of : string -> option string) (showDate : Z -> string)
  (canBuyMore : string -> Z -> bool) (timestamp_of : string -> option Z) (collate : string -> string -> Z)
  (verify : option json -> string -> string -> string -> Verdict).

Abbreviation keeping_db := (keeping admissible (registry_ok uuid_of) history).
Abbreviation safe_db := (safe admissible (registry_ok uuid_of) history).

Lemma keeps_keeping {A} (t : tx A) :
  (forall env db a db', t env db = Gave (a, db') -> keeps uuid_of env db db') -> keeping_db t.
Proof. intros Ht. apply keeping_gave; [apply _|]. intros time env db a db' Ha HI H. by apply (Ht _ _ _ _ H time). Qed.

Lemma harmless_keeps env db db' : harmless_change db db' -> keeps uuid_of env db db'.
Proof. intros (N & H & P & O & C & L). apply keeps_fewer_holds; try done. by rewrite H. Qed.

Lemma harmless_keeping {A} (t : tx A) : harmless t -> keeping_db t.
Proof. intros Ht. apply keeps_keeping. intros env db a db' H. by eapply harmless_keeps, Ht. Qed.

Lemma delete_keeping name : keeping_db (delete_expired_holds name).
Proof.
  apply keeps_keeping. unfold delete_expired_holds. intros env db a db' H. tx_run.
  apply keeps_fewer_holds; cbn; try done; [by apply log_quiet|apply sublist_filter].
Qed.
Lemma secure_keeping name email origin :
  keeping_db (secure_transaction config settings sha256Hex showDate name email origin).
Proof. apply keeps_keeping. intros env db a db'. apply secure_keeps. Qed.
Lemma grant_keeping event name : keeping_db (grant_transaction config settings uuid_of event name).
Proof.
  apply keeps_keeping. intros env db a db' [[_ H]|[_ H]]%grant_transaction_gave;
    [by eapply grant_keeps|by eapply not_granted_keeps].
Qed.
Lemma revoke_keeping event name : keeping_db (revoke_transaction uuid_of event name).
Proof.
  apply keeps_keeping. intros env db a db' [[_ H]|[_ H]]%revoke_transaction_gave;
    [by eapply revoke_keeps|by eapply not_revoked_keeps].
Qed.
#[local] Hint Resolve delete_keeping secure_keeping grant_keeping revoke_keeping : js.
#[local] Hint Extern 1 (keeping_db _) => apply harmless_keeping; solve [auto with js] : js.

Lemma safe_ret {A} (a : A) db : safe_db (mret a : program A) db.
Proof. done. Qed.
Lemma safe_raise {A} e db : safe_db (Raise e : program A) db.
Proof. done. Qed.
Lemma safe_keeping {A} (t : tx A) db : keeping_db t -> safe_db (step t) db.
Proof. apply safe_step. Qed.
#[local] Hint Resolve safe_ret safe_raise safe_keeping : js.

Ltac safely :=
  repeat first [solve [auto with js] | apply safe_bind; [apply _| |intros] | case_match].

Lemma availability_safe raw db : safe_db (availability config raw) db.
Proof. unfold availability. safely. Qed.
#[local] Hint Resolve availability_safe : js.

Lemma secure_safe raw email origin db : safe_db (secure config settings sha256Hex showDate raw email origin) db.
Proof. unfold secure, emailOwnsName_steps. safely. Qed.

(** A claim goes on with the hold it found, whose name the log remembers. *)
Lemma claim_safe token db : safe_db (claim config sha256Hex token) db.
Proof.
  unfold claim. case_match; [done|]. apply safe_step_then; [apply _|auto with js|].
  intros time env db1 [hold|] db2 Ha Hok HR1 Hfound HR2; [|done].
  assert (logged hold.1 (ho_name hold.2) db2) as Hlog.
  { unfold select_hold in Hfound. tx_run.
    match goal with H : Some _ = js_find _ _ |- _ => symmetry in H; apply js_find_Some in H as [Hin _] end.
    destruct hold.
    by eapply ok_logged. }
  apply safe_bind; [apply _|safely|]. intros [session hash] db3 HR3.
  apply safe_step_from; [apply _|]. intros time' env' db4 r db5 Ha' Hok' HR4 Hc.
  eapply claim_keeps; [|exact Hc|done..]. apply (logged_later _ _ db2 db4); [|exact Hlog].
  transitivity (audit db3); [by apply hs_audit|by apply hs_audit].
Qed.

Lemma grantFromEvent_safe event db : safe_db (grantFromEvent config settings uuid_of event) db.
Proof. unfold grantFromEvent. safely. Qed.
Lemma revokeFromEvent_safe event db : safe_db (revokeFromEvent uuid_of event) db.
Proof. unfold revokeFromEvent. safely. Qed.
Lemma applyEvent_safe event db : safe_db (applyEvent timestamp_of event) db.
Proof. unfold applyEvent. safely. Qed.
#[local] Hint Resolve secure_safe claim_safe grantFromEvent_safe revokeFromEvent_safe applyEvent_safe : js.

(** *** Subscriptions *)

Lemma customerId_safe user db : safe_db (customerId user) db.
Proof. unfold customerId. safely. Qed.
Lemma productId_safe tier db : safe_db (productId tier) db.
Proof. unfold productId, ensure_products. safely. Qed.
Lemma tierRow_safe userId tier db : safe_db (tierRow userId tier) db.
Proof. unfold tierRow. safely. Qed.
#[local] Hint Resolve customerId_safe productId_safe tierRow_safe : js.
Lemma requireActive_safe userId tier db : safe_db (requireActive userId tier) db.
Proof. unfold requireActive. safely. Qed.
Lemma orders_safe user db : safe_db (orders user) db.
Proof. unfold orders. safely. Qed.
#[local] Hint Resolve requireActive_safe orders_safe : js.
Lemma subscribe_safe user tier embedOrigin locale db :
  safe_db (subscribe (PUBLIC_BASE_URL config) canBuyMore user tier embedOrigin locale) db.
Proof. unfold subscribe, liveCount. safely. Qed.

(** *** Webhooks *)

Lemma claim_delivery_safe delivery db : safe_db (claim_delivery delivery) db.
Proof. unfold claim_delivery. safely. Qed.
Lemma processed_safe id db : safe_db (processed id) db.
Proof. unfold processed. auto with js. Qed.
Lemma failed_safe id e db : safe_db (failed id e) db.
Proof.
  unfold failed. apply safe_keeping, harmless_keeping, harmless_update. intros. apply update_delivery_harmless.
Qed.
#[local] Hint Resolve claim_delivery_safe processed_safe failed_safe : js.

Lemma apply_events_safe events db : safe_db (apply_events timestamp_of events) db.
Proof. revert db. induction events as [|event events IH]; intros db; cbn -[applyEvent]; safely. Qed.
Lemma raised_safe {A} (o : outcome failure A) db : safe_db (raised o) db.
Proof. by destruct o. Qed.
#[local] Hint Resolve apply_events_safe raised_safe : js.

Lemma dispatch_safe body event db : safe_db (dispatch config settings uuid_of timestamp_of body event) db.
Proof.
  unfold dispatch, ignore. safely;
    apply safe_keeping, harmless_keeping, harmless_audit; discriminate.
Qed.

Lemma POST_safe body headers db : safe_db (POST config settings uuid_of timestamp_of verify body headers) db.
Proof.
  assert (forall e db, safe_db (answer_error e) db) as Herr by (intros []; done).
  unfold POST, process_delivery. case_match; [|by apply Herr]. case_match; [|done].
  apply safe_try; [apply _|auto with js| |auto]. intros [] db1 _; try done.
  apply safe_try; [apply _|apply dispatch_safe| |].
  - intros [] db2 _. safely.
  - intros e db2 _. apply safe_try; [apply _|auto with js|done|done].
Qed.

(** ** The system *)

(** The requests the server answers. *)
Inductive checkout_service : forall A : Type, program A -> Prop :=
| ServeAvailability raw : checkout_service _ (availability config raw)
| ServeSecure raw email origin : checkout_service _ (secure config settings sha256Hex showDate raw email origin)
| ServeClaim token : checkout_service _ (claim config sha256Hex token)
| ServeListForUser userId : checkout_service _ (listForUser userId)
| ServeOwnsAny userId : checkout_service _ (ownsAny userId)
| ServeWebhook body headers :
    checkout_service _ (POST config settings uuid_of timestamp_of verify body headers)
| ServeMe userId : checkout_service _ (me collate userId)
| ServeSubscribe user tier embedOrigin locale :
    checkout_service _ (subscribe (PUBLIC_BASE_URL config) canBuyMore user tier embedOrigin locale)
| ServeCancel userId tier immediate : checkout_service _ (Subscriptions.cancel userId tier immediate)
| ServeResume userId tier : checkout_service _ (resume userId tier)
| ServePause userId tier : checkout_service _ (pause userId tier)
| ServeOrders user : checkout_service _ (orders user)
| ServeInvoice user orderId : checkout_service _ (invoice_url user orderId)
| ServeCheckoutStatus userId : checkout_service _ (checkout_status userId).

Lemma service_is_safe A (p : program A) : checkout_service A p -> forall db, safe_db p db.
Proof.
  intros [] db; auto with js; first [apply POST_safe|apply subscribe_safe|idtac].
  - unfold listForUser. safely.
  - unfold ownsAny. safely.
  - unfold me. safely.
  - unfold Subscriptions.cancel. safely.
  - unfold resume. safely.
  - unfold pause. safely.
  - unfold invoice_url. safely.
  - unfold checkout_status. safely.
Qed.
End System.

(** What happens besides: rows may come in another order, and the workers of the outbox and
    of the mails write what became of theirs. *)
Record reordered (db db' : Db) : Prop := {
  re_names : names db' ≡ₚ names db;
  re_holds : name_holds db' ≡ₚ name_holds db;
  re_payments : payment_events db' = payment_events db;
  re_customers : checkout_customers db' ≡ₚ checkout_customers db;
  re_outbox : outbox db' ≡ₚ outbox db;
  re_audit : audit db' = audit db
}.

Inductive checkout_background : Db -> Db -> Prop :=
| BackgroundOrder db db' : reordered db db' -> checkout_background db db'
| BackgroundClaim outboxConfig instanceId env db :
    checkout_background db (perform (claim_event outboxConfig instanceId) env db).2
| BackgroundDelivered instanceId id env db :
    checkout_background db (perform (mark_delivered instanceId id) env db).2
| BackgroundFailed outboxConfig instanceId row error env db :
    checkout_background db (perform (mark_failed outboxConfig instanceId row error) env db).2
| BackgroundMails rows db : checkout_background db (set_email_queue rows db).

Section Background.
Context (uuid_of : string -> option string).

Lemma map_get_perm {V} k (m m' : list (string * V)) : map_ok m -> m' ≡ₚ m -> map_get k m' = map_get k m.
Proof.
  intros Hm Hp. assert (map_ok m') as Hm' by (unfold map_ok in *; by rewrite Hp).
  destruct (map_get k m) as [v|] eqn:E1.
  - apply map_get_ok; [done|]. rewrite Hp. by apply map_get_elem.
  - apply map_get_None. apply map_get_None in E1. by rewrite Hp.
Qed.

Lemma map_has_elem {V} k (m : list (string * V)) : map_has k m = true <-> k ∈ m.*1.
Proof.
  rewrite <- not_false_iff_true, map_has_none, map_get_None. destruct (decide (k ∈ m.*1)); tauto.
Qed.

Lemma events_of_perm name rows rows' : rows' ≡ₚ rows -> events_of name rows' ≡ₚ events_of name rows.
Proof. intros Hp. unfold events_of. by rewrite Hp. Qed.

Lemma logged_same_audit id name db db' : audit db' = audit db -> logged id name db' <-> logged id name db.
Proof. unfold logged. by intros ->. Qed.

Lemma reordered_keeps t db db' : registry_ok uuid_of t db -> reordered db db' ->
  registry_ok uuid_of t db' /\ history db db'.
Proof.
  intros Hok [Hn Hh Hp Hc Ho Ha].
  assert (forall n, map_get n (names db') = map_get n (names db)) as En by (intros n; apply map_get_perm; [apply Hok|done]).
  assert (forall s, map_has s (checkout_customers db) = true -> map_has s (checkout_customers db') = true) as Ec.
  { intros s. rewrite !map_has_elem. by rewrite Hc. }
  split; [split|split].
  - unfold map_ok. rewrite Hn. apply Hok.
  - unfold map_ok. rewrite Hh. apply Hok.
  - unfold map_ok. rewrite Ho. apply Hok.
  - apply (exclusive_incl _ (name_holds db)); [|by eapply ok_reservations]. intros row. by rewrite Hh.
  - intros id h. rewrite Hh, (logged_same_audit _ _ _ _ Ha). apply (ok_logged _ _ _ Hok).
  - intros id n n'. rewrite !(logged_same_audit _ _ _ _ Ha). apply (ok_log _ _ _ Hok).
  - intros n r. rewrite En. intros Hr. apply Ec. by apply (ok_owner _ _ _ Hok n).
  - intros n r. rewrite En, Hp. apply (ok_paid _ _ _ Hok).
  - intros n. rewrite En, (events_of_perm _ _ _ Ho). apply (ok_events _ _ _ Hok).
  - intros n r Hr. exists r. rewrite En. split; [done|]. unfold name_history. auto 8.
  - by rewrite Hp.
  - intros id o. rewrite (map_get_perm id (outbox db) (outbox db')); [|apply Hok|done]. intros H. exists o.
    split; [done|]. unfold same_event. auto.
  - done.
  - by rewrite Ha.
Qed.

(** What the workers write of the outbox. *)
Lemma same_event_refl o : same_event o o.
Proof. unfold same_event. auto. Qed.

Lemma events_of_update name p f rows : (forall o, same_event o (f o)) ->
  events_of name (update_where p f rows) = events_of name rows.
Proof.
  intros Hf. unfold events_of, update_where. induction rows as [|[id o] rows IH]; [done|].
  cbn [fmap list_fmap]. rewrite !filter_cons. destruct (Hf o) as (E1 & E2 & E3 & _).
  destruct (p (id, o)); cbn -[base.filter]; rewrite ?E3; case_decide; cbn -[base.filter]; rewrite ?E1, ?E2, ?IH; done.
Qed.

Lemma worker_keeps t db rows p f : rows = update_where p f (outbox db) -> (forall o, same_event o (f o)) ->
  registry_ok uuid_of t db -> registry_ok uuid_of t (set_outbox rows db) /\ history db (set_outbox rows db).
Proof.
  intros -> Hf []. split; split; try done.
  - by apply map_ok_update_where.
  - intros n. cbn [outbox set_outbox names]. by rewrite events_of_update.
  - intros n r Hr. exists r. split; [done|]. unfold name_history. auto 8.
  - intros id o Ho. cbn [outbox set_outbox]. rewrite map_get_update_any, Ho. cbn. eexists. split; [reflexivity|].
    case_match; [apply Hf|apply same_event_refl].
Qed.

Lemma mails_keep t db rows : registry_ok uuid_of t db ->
  registry_ok uuid_of t (set_email_queue rows db) /\ history db (set_email_queue rows db).
Proof.
  intros []. split; split; try done; intros ? x Hx; exists x; (split; [done|]);
    [unfold name_history|unfold same_event]; auto 8.
Qed.

Lemma background_keeps t db db' : registry_ok uuid_of t db -> checkout_background db db' ->
  registry_ok uuid_of t db' /\ history db db'.
Proof.
  intros Hok Hb. assert (registry_ok uuid_of t db /\ history db db) as Hsame by (split; [done|reflexivity]). destruct Hb as [db0 db1 Hr|cfg inst env db0|inst id env db0|cfg inst row error env db0|rows db0].
  - by eapply reordered_keeps.
  - apply performed; [done|]. intros a db' Ht. unfold claim_event in Ht. tx_run.
    destruct (next_due (now env) db0) as [row|]; tx_run; [|done].
    eapply worker_keeps; [reflexivity| |done]. intros []; by repeat split.
  - apply performed; [done|]. intros a db' Ht. unfold mark_delivered in Ht. tx_run.
    eapply worker_keeps; [reflexivity| |done]. intros []; by repeat split.
  - apply performed; [done|]. intros a db' Ht. unfold mark_failed in Ht. tx_run.
    eapply worker_keeps; [reflexivity| |done]. intros []; by repeat split.
  - by apply mails_keep.
Qed.
End Background.

(** ** Reachable states *)

Section Reachable.
Context (config : NameServiceConfig) (settings : QueueSettings) (sha256Hex : string -> string)
  (uuid_of : string -> option string) (showDate : Z -> string)
  (canBuyMore : string -> Z -> bool) (timestamp_of : string -> option Z) (collate : string -> string -> Z)
  (verify : option json -> string -> string -> string -> Verdict).

(** One step of the checkout. *)
Definition checkout_step : pool Env Db failure -> pool Env Db failure -> Prop :=
  pool_step admissible
    (checkout_service config settings sha256Hex uuid_of showDate canBuyMore timestamp_of collate verify)
    checkout_background.

Definition starting (time : Z) : pool Env Db failure := {| pl_time := time; pl_db := empty_db; pl_running := [] |}.

Definition sound (pl : pool Env Db failure) : Prop := pool_ok admissible (registry_ok uuid_of) history pl.

Lemma empty_ok t : registry_ok uuid_of t empty_db.
Proof.
  split; try apply map_ok_nil; try done.
  - intros id1 h1 id2 h2 H. by apply elem_of_nil in H.
  - intros id h H. by apply elem_of_nil in H.
  - intros id n n' (ti & t0 & H). by apply elem_of_nil in H.
Qed.

Lemma starting_sound time : sound (starting time).
Proof. split; [apply empty_ok|]. intros r H. by apply elem_of_nil in H. Qed.

Lemma checkout_keeps pl pl' : sound pl -> rtc checkout_step pl pl' -> sound pl' /\ history (pl_db pl) (pl_db pl').
Proof.
  apply pool_keeps.
  - apply _.
  - intros A p Hp db. by eapply service_is_safe.
  - intros t t' db. apply registry_ok_later.
  - intros t db db'. apply background_keeps.
Qed.

Lemma reachable_sound time pl : rtc checkout_step (starting time) pl -> sound pl.
Proof. intros H. by apply (checkout_keeps _ _ (starting_sound time)). Qed.

(** ** What holds of every reachable state *)

(** C12: The register of names is consistent in every state the checkout can reach. *)
Theorem register_is_consistent (time : Z) (pl : pool Env Db failure) (Hreach : rtc checkout_step (starting time) pl) :
  (* a name is reserved by one hold at a time *)
  exclusive (pl_time pl) (name_holds (pl_db pl)) /\
  (* an owner is a customer *)
  (forall name row, map_get name (names (pl_db pl)) = Some row ->
     map_has (nm_owner_user_id row) (checkout_customers (pl_db pl)) = true) /\
  (* a name was paid by an event that names it *)
  (forall name row, map_get name (names (pl_db pl)) = Some row ->
     exists id paid, payment_events (pl_db pl) !! id = Some paid /\ pv_checkout_id paid = nm_checkout_id row /\
       json_get "name" (pv_payload paid) = Some (JString name)) /\
  (* the platform hears of each grant and each revocation once, and of nothing else *)
  (forall name, events_of name (outbox (pl_db pl)) ≡ₚ expected_events uuid_of (map_get name (names (pl_db pl)))).
Proof. apply reachable_sound in Hreach as [[] _]. done. Qed.

(** C32: History is not rewritten: from any reachable state on, whatever runs, a name keeps its
    owner, its checkout and its order; a revoked name stays revoked, so it is never sold again;
    payments, platform events and the audit log only grow. *)
Theorem names_are_permanent (time : Z) (pl pl' : pool Env Db failure)
    (Hreach : rtc checkout_step (starting time) pl) (Hlater : rtc checkout_step pl pl') :
  (forall name row, map_get name (names (pl_db pl)) = Some row ->
     exists row', map_get name (names (pl_db pl')) = Some row' /\
       nm_owner_user_id row' = nm_owner_user_id row /\ nm_checkout_id row' = nm_checkout_id row /\
       nm_order_id row' = nm_order_id row /\ nm_price_paid_eur row' = nm_price_paid_eur row /\
       nm_purchased_at row' = nm_purchased_at row /\ (nm_status row = NameRevoked -> row' = row)) /\
  payment_events (pl_db pl) ⊆ payment_events (pl_db pl') /\
  (forall id o, map_get id (outbox (pl_db pl)) = Some o ->
     exists o', map_get id (outbox (pl_db pl')) = Some o' /\ ob_event_type o' = ob_event_type o /\
       ob_subject_id o' = ob_subject_id o /\ ob_purchased_name o' = ob_purchased_name o) /\
  audit (pl_db pl) `prefix_of` audit (pl_db pl').
Proof.
  apply reachable_sound in Hreach. destruct (checkout_keeps _ _ Hreach Hlater) as [_ [HN HP HO HC HA]].
  split; [done|]. split; [done|]. split; [|done]. intros id o Ho.
  destruct (HO _ _ Ho) as (o' & Ho' & H). exists o'. unfold same_event in H. naive_solver.
Qed.

(** C20: An event of the payment provider takes effect once: when its identifier was recorded,
    whatever became of it, no later transaction of a grant or a revocation with that identifier
    changes anything or says that it did something. *)
Theorem payment_events_apply_once (time : Z) (pl pl' : pool Env Db failure) (event : PaymentEvent) (name : string)
    (Hreach : rtc checkout_step (starting time) pl) (Hlater : rtc checkout_step pl pl')
    (Hseen : is_Some (payment_events (pl_db pl) !! pe_id event)) (env : Env) :
  perform (grant_transaction config settings uuid_of event name) env (pl_db pl') = (Gave false, pl_db pl') /\
  perform (revoke_transaction uuid_of event name) env (pl_db pl') = (Gave false, pl_db pl').
Proof.
  apply reachable_sound in Hreach. destruct (checkout_keeps _ _ Hreach Hlater) as [_ [HN HP HO HC HA]].
  assert (is_Some (payment_events (pl_db pl') !! pe_id event)) as Hs.
  { destruct Hseen as [row Hrow]. exists row. by eapply lookup_weaken. }
  assert (forall payload, record_payment_event event payload env (pl_db pl') = Gave (false, pl_db pl')) as Hrec.
  { intros payload. unfold record_payment_event, mbind, txn_bind, ask, select. by rewrite bool_decide_true. }
  split; apply perform_gave; [unfold grant_transaction|unfold revoke_transaction];
    unfold mbind, txn_bind; by rewrite Hrec.
Qed.
End Reachable.
