(* ===== verification/NamesJourney.v ===== *)
(** * Buying a name

    What each operation of [Names.v] does when it runs alone, on every branch, and the
    journey of a buyer: who asks for a name that is free and follows the link in the mail
    becomes its owner when the payment arrives. *)

From S2P Require Import Prelude Contracts Json Programs Tables Checkout Names NamesFacts Register.

Open Scope stdpp_scope.
Open Scope js_scope.
Local Open Scope Z_scope.

Section Journey.
Context (config : NameServiceConfig) (settings : QueueSettings) (sha256Hex : string -> string)
  (uuid_of : string -> option string) (showDate : Z -> string).

(** Computes a transaction, one statement at a time. *)
Ltac tx_eval := unfold throw_when, throw, call, perform, mbind, txn_bind, mret, txn_ret, ask, select, update;
  cbn beta iota zeta.

Lemma perform_select {A} (f : Db -> A) (env : Env) db :
  perform (select f : tx A) env db = (Gave (f db), db).
Proof. done. Qed.

(** ** Availability *)

(** The holds of a name that have not expired. *)
Definition current_holds (name : string) (t : Z) (holds : list (string * HoldRow)) : list (string * HoldRow) :=
  base.filter (fun row => negb (String.eqb (ho_name row.2) name && (ho_expires_at row.2 <? t)) = true) holds.

(** What [availability] answers. *)
Definition availability_of (name : string) (t : Z) (db : Db) : option NameUnavailableReason :=
  match validateName name with
  | Some invalid => Some invalid
  | None =>
      match nm_status <$> map_get name (names db) with
      | Some NameOwned => Some NAME_TAKEN
      | Some NameRevoked => Some NAME_LOCKED
      | None => if existsb (is_reserved name t) (current_holds name t (name_holds db)) then Some NAME_HELD else None
      end
  end.

Definition after_availability (name : string) (t : Z) (db : Db) : Db :=
  match validateName name with
  | Some _ => db
  | None => set_name_holds (current_holds name t (name_holds db)) db
  end.

Lemma perform_delete name env db :
  perform (delete_expired_holds name) env db =
    (Gave tt, set_name_holds (current_holds name (now env) (name_holds db)) db).
Proof. done. Qed.

Lemma availability_alone raw env db :
  alone (fun _ => env) (availability config raw) db =
    (Gave match availability_of (normalizeName raw) (now env) db with
          | Some reason => unavailable config (normalizeName raw) reason
          | None => baseAvailability config (normalizeName raw)
          end, after_availability (normalizeName raw) (now env) db).
Proof.
  unfold availability, availability_of, after_availability.
  destruct (validateName (normalizeName raw)) as [invalid|]; [done|].
  rewrite alone_bind, perform_delete, alone_bind. unfold select_status. rewrite perform_select. cbn [names set_name_holds].
  destruct (nm_status <$> map_get (normalizeName raw) (names db)) as [[]|]; [done|done|].
  rewrite alone_bind.
  change (perform (select_reserved (normalizeName raw)) env ?d) with
    (Gave (E := failure) (existsb (is_reserved (normalizeName raw) (now env)) (name_holds d)), d).
  cbn [name_holds set_name_holds]. by destruct (existsb _ _).
Qed.

(** ** A request *)

(** The link is on its way. *)
Definition offered (name email hash : string) (t : Z) (row : string * HoldRow) : Prop :=
  ho_name row.2 = name /\ to_lower (ho_email row.2) = to_lower email /\ ho_claim_token_hash row.2 = hash /\
  t <= ho_expires_at row.2.

Lemma emailOwnsName_alone email env db :
  alone (fun _ => env) (emailOwnsName_steps email) db = (Gave (emailOwnsName email db), db).
Proof.
  unfold emailOwnsName_steps, emailOwnsName. rewrite alone_bind, perform_select.
  by destruct (customer_of_email email db).
Qed.

(** The clock of the server is not behind that of the database by more than a link lasts. *)
Definition clocks_agree (env : Env) : Prop :=
  now env <= js_date (date_now env + NAME_HOLD_TTL_HOURS config * 3600000).

Lemma secure_transaction_commits name email origin env db :
  map_has (randomUUID env 0) (name_holds db) = false -> map_has (randomUUID env 1) (email_queue db) = false ->
  clocks_agree env ->
  exists r db', secure_transaction config settings sha256Hex showDate name email origin env db = Gave (r, db') /\
    exists row, row ∈ name_holds db' /\ offered name email (sha256Hex (randomToken env)) (now env) row.
Proof.
  intros Hid Hmail Hclock. unfold clocks_agree in Hclock.
  unfold secure_transaction, insert_request, namePurchaseLink, enqueueSystemEmail, writeAudit. tx_eval.
  destruct (base.filter _ (name_holds db)) as [|found rest] eqn:Hf.
  - rewrite Hid. cbn beta iota. cbn [email_queue set_name_holds set_audit]. rewrite Hmail. cbn beta iota.
    do 2 eexists. split; [reflexivity|].
    cbn [name_holds set_name_holds set_audit set_email_queue]. eexists. split.
    + apply elem_of_app. right. apply list_elem_of_singleton. reflexivity.
    + done.
  - cbn [email_queue set_name_holds]. rewrite Hmail. cbn beta iota. do 2 eexists. split; [reflexivity|].
    cbn [name_holds set_name_holds set_email_queue].
    assert (found ∈ base.filter (fun row => same_request name email (now env) row = true) (name_holds db)) as Hin
      by (rewrite Hf; left). apply list_elem_of_filter in Hin as [Hsame Hin].
    exists (found.1, rotated (sha256Hex (randomToken env)) origin found.2). split.
    + destruct found as [id h]. cbn [fst snd]. apply elem_of_update_where. exists h. split; [done|]. by rewrite Hsame.
    + unfold same_request in Hsame. bools. unfold offered. cbn. repeat split; first [by apply String.eqb_eq|lia].
Qed.

(** A valid name that nobody has, asked for by somebody who has none. *)
Lemma secure_offers raw name email origin env db : normalizeName raw = name ->
  validateName name = None -> map_get name (names db) = None -> emailOwnsName email db = false ->
  map_has (randomUUID env 0) (name_holds db) = false -> map_has (randomUUID env 1) (email_queue db) = false ->
  clocks_agree env ->
  exists r db', alone (fun _ => env) (secure config settings sha256Hex showDate raw email origin) db = (Gave r, db') /\
    (exists row, row ∈ name_holds db' /\ offered name email (sha256Hex (randomToken env)) (now env) row) /\
    requested_hold sha256Hex name email env (set_name_holds (current_holds name (now env) (name_holds db)) db) db' /\
    names db' = names db /\ payment_events db' = payment_events db /\
    checkout_customers db' = checkout_customers db /\ outbox db' = outbox db.
Proof.
  intros Hraw Hvalid Hfree Howns Hid Hmail Hclock. unfold secure. rewrite alone_then, Hraw, availability_alone.
  assert (normalizeName name = name) as -> by (subst; apply normalizeName_idem).
  unfold after_availability, availability_of. rewrite Hvalid, Hfree. cbn [fmap option_fmap option_map].
  set (db1 := set_name_holds (current_holds name (now env) (name_holds db)) db).
  assert (map_has (randomUUID env 0) (name_holds db1) = false) as Hid1.
  { apply map_has_none, map_get_None. apply map_has_none, map_get_None in Hid. cbn. contradict Hid.
    apply list_elem_of_fmap in Hid as (row & -> & Hrow). apply list_elem_of_filter in Hrow as [_ Hrow].
    apply list_elem_of_fmap. eauto. }
  assert (emailOwnsName email db1 = false) as Howns1 by exact Howns.
  destruct (secure_transaction_commits name email origin env db1 Hid1 Hmail Hclock) as (r & db' & Ht & Hrow).
  destruct (secure_transaction_gave _ _ _ _ _ _ _ _ _ _ _ Ht) as (_ & Hreq & En & Ep & Ec & Eo).
  exists r, db'. split; [|by repeat split].
  destruct (existsb _ _); cbn [na_available na_reason unavailable baseAvailability negb andb];
    rewrite ?bool_decide_true by done; cbn [negb andb];
    rewrite alone_then, emailOwnsName_alone, Howns1, alone_step; by apply perform_gave.
Qed.

(** ** A claim *)

Definition nobody_reserved (name : string) (t : Z) (holds : list (string * HoldRow)) : Prop :=
  forall row, row ∈ holds -> ho_name row.2 = name -> at_least (ho_reserved_until row.2) t = false.

(** Rows that a statement finds. *)
Lemma updated_where_found {A} p (f : A -> A) (rows : list (string * A)) row :
  row ∈ rows -> p row = true -> exists row' rest, updated_where p f rows = row' :: rest.
Proof.
  intros Hin Hp. unfold updated_where. destruct (base.filter _ rows) as [|r rest] eqn:Hf; [|by do 2 eexists].
  assert (row ∈ base.filter (fun row => p row = true) rows) as H by (by apply list_elem_of_filter).
  rewrite Hf in H. by apply elem_of_nil in H.
Qed.

Lemma writeAudit_commits event target metadata env db :
  exists rows, writeAudit event target metadata env db = Gave (tt, set_audit rows db).
Proof. unfold writeAudit. tx_eval. eauto. Qed.

Lemma claim_transaction_commits hold session hash env db :
  hold ∈ name_holds db -> now env <= ho_expires_at hold.2 ->
  map_get (ho_name hold.2) (names db) = None -> emailOwnsName (ho_email hold.2) db = false ->
  nobody_reserved (ho_name hold.2) (now env) (name_holds db) ->
  exists r db', claim_transaction config hold session hash env db = Gave (r, db').
Proof.
  intros Hin Hlive Hfree Howns Hnobody. unfold claim_transaction. tx_eval.
  apply map_has_none in Hfree. rewrite Hfree. cbn beta iota. rewrite Howns. cbn beta iota.
  match goal with |- context [existsb ?p ?l] => assert (existsb p l = false) as -> end.
  { apply existsb_elem_false. intros row Hrow. unfold is_reserved.
    destruct (String.eqb_spec (ho_name row.2) (ho_name hold.2)) as [Hn|]; [|done].
    by rewrite (Hnobody _ Hrow Hn). }
  cbn beta iota.
  destruct (updated_where_found (live_hold hold.1 (now env)) (reserved_row config session hash (now env)) _ _ Hin)
    as (updated & others & ->).
  { unfold live_hold. rewrite String.eqb_refl. by apply Z.leb_le. }
  destruct (ho_email_confirmed_at hold.2); unfold writeAudit; tx_eval; eauto.
Qed.

(** The link of a free name that nobody has reserved. *)
Lemma claim_reserves token name email env db :
  isBearerToken token = true -> map_get name (names db) = None -> emailOwnsName email db = false ->
  nobody_reserved name (now env) (name_holds db) ->
  (exists row, row ∈ name_holds db /\ offered name email (sha256Hex token) (now env) row) ->
  (forall row, row ∈ name_holds db -> ho_claim_token_hash row.2 = sha256Hex token ->
     ho_name row.2 = name /\ to_lower (ho_email row.2) = to_lower email) ->
  (forall input, exists session, createCheckout (payments env) input = Gave session) ->
  exists r db', alone (fun _ => env) (claim config sha256Hex token) db = (Gave r, db') /\ cl_name r = name /\
    (exists hold session successHash, hold ∈ name_holds db /\ ho_name hold.2 = name /\
       to_lower (ho_email hold.2) = to_lower email /\
       name_holds db' = update_where (live_hold hold.1 (now env)) (reserved_row config session successHash (now env))
                          (name_holds db)) /\
    names db' = names db /\ payment_events db' = payment_events db /\
    checkout_customers db' = checkout_customers db /\ outbox db' = outbox db.
Proof.
  intros Htoken Hfree Howns Hnobody (row & Hrow & Hn & He & Hhash & Hlive) Honly Hprovider.
  unfold claim. rewrite Htoken. cbn [negb]. rewrite alone_bind.
  change (perform (select_hold sha256Hex token) env db) with
    (Gave (E := failure) (js_find (hold_of_token (sha256Hex token) (now env)) (name_holds db)), db).
  cbn beta iota. destruct (js_find _ (name_holds db)) as [hold|] eqn:Hfound.
  2: { rewrite js_find_None in Hfound. specialize (Hfound _ Hrow). unfold hold_of_token in Hfound.
       rewrite Hhash, String.eqb_refl in Hfound. apply Z.leb_gt in Hfound. lia. }
  apply js_find_Some in Hfound as [Hin Hp]. unfold hold_of_token in Hp. bools.
  assert (ho_claim_token_hash hold.2 = sha256Hex token) as Hh by (by apply String.eqb_eq).
  destruct (Honly _ Hin Hh) as [Hname Hemail].
  assert (emailOwnsName (ho_email hold.2) db = false) as Howns'.
  { revert Howns. unfold emailOwnsName, customer_of_email. by rewrite Hemail. }
  assert (forall session hash, exists r db', alone (fun _ => env) (step (claim_transaction config hold session hash)) db =
            (Gave r, db') /\ claim_transaction config hold session hash env db = Gave (r, db')) as Hcommit.
  { intros session hash. destruct (claim_transaction_commits hold session hash env db) as (r & db' & Ht);
      [done|lia|by rewrite Hname|done|by rewrite Hname|].
    exists r, db'. rewrite alone_step. split; [by apply perform_gave|done]. }
  assert (exists session hash r db',
     alone (fun _ => env) (opened ← match known_checkout hold.2 with
                                    | Some session => mret (session, "")
                                    | None => step (open_checkout config sha256Hex hold)
                                    end; step (claim_transaction config hold opened.1 opened.2)) db = (Gave r, db') /\
     claim_transaction config hold session hash env db = Gave (r, db')) as (session & hash & r & db' & Hrun & Ht).
  { destruct (known_checkout hold.2) as [session|].
    - destruct (Hcommit session "") as (r & db' & H1 & H2). exists session, "", r, db'. by rewrite alone_then.
    - destruct (Hprovider {| ci_name := ho_name hold.2; ci_email := ho_email hold.2; ci_holdId := hold.1;
                 ci_successUrl := successUrl config (ho_name hold.2) (randomToken env); ci_locale := Some "de" |})
        as (session & Hs).
      destruct (Hcommit session (sha256Hex (randomToken env))) as (r & db' & H1 & H2). do 4 eexists. split; [|exact H2].
      rewrite alone_bind. unfold open_checkout, perform at 1. tx_eval. rewrite Hs. exact H1. }
  destruct (claim_transaction_gave _ _ _ _ _ _ _ _ Ht) as (Hr & _ & (_ & _ & _ & _ & Eh) & En & Ep & Ec & Eo).
  exists r, db'. split; [exact Hrun|]. split; [congruence|]. split; [by exists hold, session, hash|done].
Qed.

(** ** A payment *)

(** The address an event is about. *)
Definition address_of (event : PaymentEvent) (name : string) (db : Db) : string :=
  to_lower (coalesce_to (coalesce (pe_email event)
    (ho_email ∘ snd <$> hold_of_event (metadata_text "holdId" event) name (name_holds db))) "").

(** The identity service has an account of the address, which no other account of the checkout has,
    and the identifiers of this step are new. *)
Record can_grant (event : PaymentEvent) (name : string) (account : ProvisionedAccount) (env : Env) (db : Db) : Prop := {
  cg_name : name <> "";
  cg_id : pe_id event <> "";
  cg_new : payment_events db !! pe_id event = None;
  cg_address : address_of event name db <> "";
  cg_account : provisionAccount env (address_of event name db) "name-purchase" = Gave account;
  cg_customer : forall row, row ∈ checkout_customers db -> cu_email row.2 = pa_email account -> row.1 = pa_id account;
  cg_subject : is_Some (uuid_of (pa_id account));
  cg_event : exists id, uuid_of (randomUUID env 0) = Some id /\ map_get id (outbox db) = None;
  cg_mail : map_has (randomUUID env 1) (email_queue db) = false
}.

Lemma enqueue_commits id template to_ data priority key env db :
  map_has id (email_queue db) = false ->
  exists rows, enqueueSystemEmail settings id template to_ data priority key env db =
    Gave (tt, set_email_queue rows db).
Proof.
  intros Hid. unfold enqueueSystemEmail. tx_eval.
  destruct (match key with Some _ => _ | None => _ end); [exists (email_queue db); by destruct db|].
  rewrite Hid. eauto.
Qed.

Lemma grant_commits event name account env db :
  can_grant event name account env db -> map_get name (names db) = None ->
  exists db' row, grant_transaction config settings uuid_of event name env db = Gave (true, db') /\
    names db' = names db ++ [(name, row)] /\ nm_owner_user_id row = pa_id account /\ nm_status row = NameOwned /\
    nm_checkout_id row = pe_checkoutId event.
Proof.
  intros [Hname Hid Hnew Haddress Haccount Hcustomer [subject Hsubject] (eid & Heid & Hfree) Hmail] Hnone.
  unfold grant_transaction, record_payment_event. tx_eval. rewrite bool_decide_false by (by rewrite <- eq_None_not_Some).
  cbn [negb]. tx_eval. cbn [names set_payment_events]. rewrite Hnone. cbn beta iota.
  change (name_holds (set_payment_events ?x db)) with (name_holds db). fold (address_of event name db).
  destruct (String.eqb_spec (address_of event name db) "") as [|_]; [done|]. cbn beta iota.
  unfold grant_name, upsert_customer. tx_eval. rewrite Haccount. cbn beta iota.
  match goal with |- context [existsb ?p ?l] => assert (existsb p l = false) as -> end.
  { apply existsb_elem_false. intros row Hrow. cbn in Hrow.
    destruct (String.eqb_spec (cu_email row.2) (pa_email account)) as [He|]; [|done].
    by rewrite (Hcustomer _ Hrow He), String.eqb_refl. }
  cbn beta iota. unfold writeAudit, enqueuePlatformEvent. tx_eval. rewrite Heid, Hsubject. tx_eval.
  match goal with |- context [map_has eid ?rows] => assert (map_has eid rows = false) as -> by (by apply map_has_none) end.
  cbn beta iota. unfold namePurchased.
  match goal with |- context [enqueueSystemEmail settings ?id ?t ?a ?d ?p ?k env ?db1] =>
    destruct (enqueue_commits id t a d p k env db1 Hmail) as (rows & ->) end.
  do 2 eexists. split; [reflexivity|]. by cbn.
Qed.

Lemma grant_sells event name account env db :
  normalizeName (metadata_text "name" event) = name ->
  can_grant event name account env db -> map_get name (names db) = None ->
  exists db' row, alone (fun _ => env) (grantFromEvent config settings uuid_of event) db = (Gave true, db') /\
    names db' = names db ++ [(name, row)] /\ nm_owner_user_id row = pa_id account /\ nm_status row = NameOwned /\
    nm_checkout_id row = pe_checkoutId event.
Proof.
  intros Hmeta Hcan Hnone. destruct (grant_commits _ _ _ _ _ Hcan Hnone) as (db' & row & Ht & Hrow).
  exists db', row. split; [|done]. unfold grantFromEvent. rewrite Hmeta.
  destruct (String.eqb_spec name ""); [by destruct (cg_name _ _ _ _ _ Hcan)|].
  destruct (String.eqb_spec (pe_id event) ""); [by destruct (cg_id _ _ _ _ _ Hcan)|].
  rewrite alone_step. by apply perform_gave.
Qed.

(** ** The journey *)

(** After a request the holds are those there were, or the one of the request; and its token
    is on no other. *)
Lemma requested_holds name email env db db' row :
  requested_hold sha256Hex name email env db db' -> row ∈ name_holds db' ->
  (exists h, (row.1, h) ∈ name_holds db /\ ho_name h = ho_name row.2 /\ ho_reserved_until h = ho_reserved_until row.2 /\
     (ho_claim_token_hash h = ho_claim_token_hash row.2 \/
      ho_name row.2 = name /\ to_lower (ho_email row.2) = to_lower email)) \/
  (ho_reserved_until row.2 = None /\ ho_name row.2 = name /\ to_lower (ho_email row.2) = to_lower email).
Proof.
  intros [(found & o & _ & _ & Eh & _)|(_ & id & r & tier & t0 & _ & Eh & _ & _ & Hn & He & _ & Hres)]; rewrite Eh;
    destruct row as [id' h']; cbn.
  - intros (h & Hh & E1)%elem_of_update_where. left. exists h. destruct (same_request _ _ _ _) eqn:Hs; subst h'.
    + unfold same_request in Hs. bools. cbn in *. repeat split; try done. right.
      split; by apply String.eqb_eq.
    + by repeat split; [..|left].
  - rewrite elem_of_app, list_elem_of_singleton. intros [Hh|[= -> ->]]; [left; exists h'; auto|].
    right. by rewrite Hres, Hn, He.
Qed.

(** C14: A purchase completes under the following conditions, and every step of it succeeds: the
    request, the claim through the link of the mail and the grant by the payment, each run alone
    and one after the other; after them the names are those there were and the requested one, owned
    by the account of the payment's address and noted with the checkout that was paid.
    The conditions.  The name, normalized, is valid and nobody has it; the requesting address
    owns no name; nobody has the name reserved at the time of the claim (other holds of the
    name, also of other buyers, do not matter).  The identifiers and the token that are drawn are
    fresh, the token has the form of one, and no hold has its hash; the clock of the database is not
    past the lifetime the process gives a hold.  The link is followed before the hold expires, and
    the provider of payments opens a checkout.  The payment event names this name, has an
    identifier that was not processed yet, and gives an address (its own or that of its hold); the
    identity service has an account for it with a well-formed identifier, and no other customer
    of the checkout has the account's address; the identifiers of the outbox event and of the
    mail are fresh. *)
Theorem purchase_completes (raw name email : string) (origin : HoldOrigin) (event : PaymentEvent)
    (account : ProvisionedAccount) (env1 env2 env3 : Env) (db0 db1 db2 db3 : Db) o1 o2 o3
    (* the three programs, one after the other *)
    (Hsecure : alone (fun _ => env1) (secure config settings sha256Hex showDate raw email origin) db0 = (o1, db1))
    (Hclaim : alone (fun _ => env2) (claim config sha256Hex (randomToken env1)) db1 = (o2, db2))
    (Hgrant : alone (fun _ => env3) (grantFromEvent config settings uuid_of event) db2 = (o3, db3))
    (* the name and the buyer *)
    (Hraw : normalizeName raw = name) (Hvalid : validateName name = None) (Hfree : map_get name (names db0) = None)
    (Hbuyer : emailOwnsName email db0 = false) (Hnobody : nobody_reserved name (now env2) (name_holds db0))
    (* fresh identifiers and a fresh token *)
    (Hid : map_has (randomUUID env1 0) (name_holds db0) = false)
    (Hmail : map_has (randomUUID env1 1) (email_queue db0) = false) (Hclock : clocks_agree env1)
    (Htoken : isBearerToken (randomToken env1) = true)
    (Hhash : forall row, row ∈ name_holds db0 -> ho_claim_token_hash row.2 <> sha256Hex (randomToken env1))
    (* the link is followed in time, the provider opens a checkout, the payment names the name *)
    (Htime : forall row, row ∈ name_holds db1 -> ho_claim_token_hash row.2 = sha256Hex (randomToken env1) ->
       now env2 <= ho_expires_at row.2)
    (Hprovider : forall input, exists session, createCheckout (payments env2) input = Gave session)
    (Hmeta : normalizeName (metadata_text "name" event) = name)
    (Hcan : can_grant event name account env3 db2) :
  (exists r, o1 = Gave r) /\ (exists r, o2 = Gave r /\ cl_name r = name) /\ o3 = Gave true /\
  exists row, names db3 = names db0 ++ [(name, row)] /\ nm_owner_user_id row = pa_id account /\
    nm_status row = NameOwned /\ nm_checkout_id row = pe_checkoutId event.
Proof.
  destruct (secure_offers raw name email origin env1 db0) as (r1 & d1 & E1 & (row & Hrow & Hoffer) & Hreq & En1 & _ & Ec1 & _);
    [done..|]. rewrite Hsecure in E1. injection E1 as -> ->.
  assert (forall x, x ∈ current_holds name (now env1) (name_holds db0) -> x ∈ name_holds db0) as Hcurrent.
  { intros x Hx. by apply list_elem_of_filter in Hx as []. }
  destruct (claim_reserves (randomToken env1) name email env2 d1) as (r2 & d2 & E2 & Hn2 & _ & En2 & _);
    try done; rewrite ?En1; try done.
  - by unfold emailOwnsName, customer_of_email, owns_a_name in *; rewrite En1, Ec1.
  - intros x Hx Hname. destruct (requested_holds _ _ _ _ _ x Hreq Hx) as [(h & Hh & H1 & H2 & _)|(-> & _)]; [|done].
    rewrite <- H2. apply (Hnobody (x.1, h)); [by apply Hcurrent|cbn; congruence].
  - exists row. split; [done|]. destruct Hoffer as (H1 & H2 & H3 & _). unfold offered. auto.
  - intros x Hx Hh. destruct (requested_holds _ _ _ _ _ x Hreq Hx) as [(h & Hh' & H1 & _ & [H2|H2])|(_ & H2)]; [|done..].
    exfalso. apply (Hhash (x.1, h)); [by apply Hcurrent|cbn; congruence].
  - rewrite Hclaim in E2. injection E2 as -> ->. rewrite En1 in En2.
    destruct (grant_sells event name account env3 d2) as (d3 & row3 & E3 & En3 & Hrow3); [done..|by rewrite En2|].
    rewrite Hgrant in E3. injection E3 as -> ->. rewrite En2 in En3. eauto 10.
Qed.

(** ** What a payment can come to *)

Definition conflict_row (event : PaymentEvent) (name : string) (db : Db) (t : Z) : AuditRow :=
  {| au_event_type := "name.purchase_conflict"; au_target_user_id := None;
     au_metadata := [("name", JString name); ("eventId", JString (pe_id event));
                     ("checkoutId", json_or_null (pe_checkoutId event));
                     ("email", json_or_null (coalesce (pe_email event)
                        (ho_email ∘ snd <$> hold_of_event (metadata_text "holdId" event) name (name_holds db))))];
     au_created_at := t |}.

Lemma grant_alone event env db : normalizeName (metadata_text "name" event) <> "" -> pe_id event <> "" ->
  alone (fun _ => env) (grantFromEvent config settings uuid_of event) db =
    perform (grant_transaction config settings uuid_of event (normalizeName (metadata_text "name" event))) env db.
Proof.
  intros Hname Hid. unfold grantFromEvent. destruct (String.eqb_spec (normalizeName (metadata_text "name" event)) ""); [done|].
  destruct (String.eqb_spec (pe_id event) ""); [done|]. apply alone_step.
Qed.

(** C33: What a payment comes to, on every branch.  An event without a name or an identifier is
    refused; one that was processed is ignored.  For a name that is taken nothing is sold, and when
    another checkout was paid the conflict is logged with the address, for a refund.  For a name
    that is free, an event without an address, an identity service that fails, and an address that
    another account has end in an exception and leave every table as it was, so that the provider
    tries again. *)
Theorem payments_are_decided (event : PaymentEvent) (env : Env) (db : Db) (name : string)
    (Hmeta : normalizeName (metadata_text "name" event) = name) :
  let run := alone (fun _ => env) (grantFromEvent config settings uuid_of event) db in
  (name = "" -> run = (Threw (invalid_payload "The payment event carries no name metadata."), db)) /\
  (name <> "" -> pe_id event = "" -> run = (Threw (invalid_payload "The payment event carries no id."), db)) /\
  (name <> "" -> pe_id event <> "" -> is_Some (payment_events db !! pe_id event) -> run = (Gave false, db)) /\
  (name <> "" -> pe_id event <> "" -> payment_events db !! pe_id event = None ->
   (forall row, map_get name (names db) = Some row ->
      run.1 = Gave false /\ names run.2 = names db /\ name_holds run.2 = name_holds db /\
      checkout_customers run.2 = checkout_customers db /\ outbox run.2 = outbox db /\
      is_Some (payment_events run.2 !! pe_id event) /\
      audit run.2 = audit db ++ if decide (nm_checkout_id row = pe_checkoutId event) then []
                                else [conflict_row event name db (js_date (date_now env))]) /\
   (map_get name (names db) = None ->
      (address_of event name db = "" ->
         run = (Threw (invalid_payload "The payment event carries no customer email."), db)) /\
      (address_of event name db <> "" -> forall e,
         provisionAccount env (address_of event name db) "name-purchase" = Threw e -> run = (Threw e, db)) /\
      (address_of event name db <> "" -> forall account other,
         provisionAccount env (address_of event name db) "name-purchase" = Gave account ->
         other ∈ checkout_customers db -> cu_email other.2 = pa_email account -> other.1 <> pa_id account ->
         run = (Threw (unique_violation "checkout_customers_email_unique"), db)))).
Proof.
  cbn zeta. split; [|split; [|split]].
  - intros ->. unfold grantFromEvent. by rewrite Hmeta.
  - intros Hname Hid. unfold grantFromEvent. rewrite Hmeta, Hid. by destruct (String.eqb_spec name "").
  - intros Hname Hid Hseen. rewrite grant_alone by congruence. rewrite Hmeta.
    unfold grant_transaction, record_payment_event. tx_eval. by rewrite bool_decide_true.
  - intros Hname Hid Hnew. rewrite grant_alone by congruence. rewrite Hmeta.
    unfold grant_transaction, record_payment_event. tx_eval.
    rewrite bool_decide_false by (by rewrite <- eq_None_not_Some). cbn [negb]. tx_eval. cbn [names set_payment_events].
    change (name_holds (set_payment_events ?x db)) with (name_holds db). split.
    + intros row ->. cbn beta iota. unfold writeAudit. tx_eval. case_decide as Hc.
      * rewrite bool_decide_true by done. cbn. rewrite app_nil_r, lookup_insert_eq. by repeat split.
      * rewrite bool_decide_false by done. cbn. rewrite lookup_insert_eq. by repeat split.
    + intros ->. cbn beta iota. fold (address_of event name db). split; [|split].
      * intros ->. done.
      * intros Ha e He. destruct (String.eqb_spec (address_of event name db) ""); [done|]. cbn beta iota.
        unfold grant_name. tx_eval. by rewrite He.
      * intros Ha account other Hacc Hin Hemail Hother.
        destruct (String.eqb_spec (address_of event name db) ""); [done|]. cbn beta iota.
        unfold grant_name, upsert_customer. tx_eval. rewrite Hacc. cbn beta iota.
        match goal with |- context [existsb ?p ?l] => assert (existsb p l = true) as -> end; [|done].
        apply existsb_elem. exists other. split; [done|]. rewrite Hemail, String.eqb_refl. cbn.
        by destruct (String.eqb_spec other.1 (pa_id account)).
Qed.
End Journey.
