(* ===== verification/BillingFacts.v ===== *)
(** * Calls of the payment provider, and subscriptions

    The route that takes the provider's calls answers as its specification, and what the
    events of subscriptions and the actions of a customer do. *)

From S2P Require Import Prelude Contracts Json Programs Tables Checkout Names NamesFacts Register Subscriptions Webhooks.

Open Scope stdpp_scope.
Open Scope js_scope.
Local Open Scope Z_scope.

(** ** The same content *)

(** Two parsed values are the same, whatever the order of the keys of an object. *)
Inductive same_json : json -> json -> Prop :=
| same_null : same_json JNull JNull
| same_bool b : same_json (JBool b) (JBool b)
| same_number n : same_json (JNumber n) (JNumber n)
| same_string s : same_json (JString s) (JString s)
| same_array xs ys : Forall2 same_json xs ys -> same_json (JArray xs) (JArray ys)
| same_object xs ys : length xs = length ys ->
    Forall (fun e => exists v, map_get e.1 ys = Some v /\ same_json e.2 v) xs -> same_json (JObject xs) (JObject ys).

Lemma isDeepStrictEqual_spec a b : isDeepStrictEqual a b = true <-> same_json a b.
Proof.
  revert b. induction a as [|x|x|x|xs IH|xs IH] using json_nested_ind; intros b.
  - destruct b; split; intros H; (done || inversion H || constructor).
  - destruct b as [|y| | | |]; (split; intros H; [try done|inversion H; subst]).
    + apply eqb_prop in H as ->. constructor.
    + apply eqb_reflx.
  - destruct b as [| |y| | |]; (split; intros H; [try done|inversion H; subst]).
    + apply Z.eqb_eq in H as ->. constructor.
    + apply Z.eqb_refl.
  - destruct b as [| | |y| |]; (split; intros H; [try done|inversion H; subst]).
    + apply String.eqb_eq in H as ->. constructor.
    + apply String.eqb_refl.
  - destruct b as [| | | |ys|]; (split; intros H; [try done|inversion H; subst]).
    + constructor. revert ys H. induction IH as [|x xs Hx _ IHxs]; intros [|y ys] H; try done.
      apply andb_prop in H as [H1 H2]. constructor; [by apply Hx|by apply IHxs].
    + match goal with H : Forall2 _ _ _ |- _ => rename H into Hall end. clear H.
      revert ys Hall. induction IH as [|x xs Hx _ IHxs]; intros ys Hall; inversion Hall; subst; [done|].
      apply andb_true_intro. split; [by apply Hx|by apply IHxs].
  - destruct b as [| | | | |ys]; (split; intros H; [try done|inversion H as [| | | | |? ? Hl Hall]; subst]).
    + cbn in H. apply andb_prop in H as [Hl H]. apply Nat.eqb_eq in Hl. constructor; [done|].
      apply Forall_forall. intros e He. rewrite forallb_forall in H. rewrite Forall_forall in IH.
      specialize (H e (proj1 (list_elem_of_In _ _) He)). destruct (map_get e.1 ys) as [v|]; [|done].
      exists v. split; [done|]. by apply IH.
    + cbn. apply andb_true_intro. split; [by apply Nat.eqb_eq|]. apply forallb_forall. intros e He.
      apply list_elem_of_In in He. rewrite !Forall_forall in *.
      destruct (Hall e He) as (v & -> & Hv).
      by apply IH.
Qed.

Section Claiming.
Context (env : Env) (delivery : PolarWebhookDelivery).

(** The row of a call that is processed for the first time, and of one that is taken over. *)
Definition first_attempt : DeliveryRow :=
  {| dl_event_id := wd_eventId delivery; dl_event_type := wd_eventType delivery; dl_payload := wd_payload delivery;
     dl_headers := wd_headers delivery; dl_state := Processing; dl_attempt_count := 1; dl_processing_error := None;
     dl_last_attempt_at := clock_timestamp env; dl_processed_at := None |}.
Definition next_attempt (row : DeliveryRow) : DeliveryRow :=
  set_state Processing (dl_attempt_count row + 1) None (clock_timestamp env) (dl_processed_at row) row.

(** Is the call to be processed, and with which row? *)
Definition attempt (row : option DeliveryRow) : option DeliveryRow :=
  match row with
  | None => Some first_attempt
  | Some row =>
      match dl_state row with
      | DeliveryFailed => Some (next_attempt row)
      | Processing => if stale (date_now env) row then Some (next_attempt row) else None
      | Processed => None
      end
  end.

Definition in_archive (row : DeliveryRow) (db : Db) : Db :=
  set_deliveries (<[wd_deliveryId delivery := row]> (deliveries db)) db.

(** Comparisons of states. *)
Ltac states :=
  repeat match goal with
  | |- context [bool_decide (?x = ?x)] => change (bool_decide (x = x)) with true
  | |- context [bool_decide (Processing = ?y)] => change (bool_decide (Processing = y)) with false
  | |- context [bool_decide (Processed = ?y)] => change (bool_decide (Processed = y)) with false
  | |- context [bool_decide (DeliveryFailed = ?y)] => change (bool_decide (DeliveryFailed = y)) with false
  end; cbn.

Lemma claim_delivery_alone db :
  alone (fun _ => env) (claim_delivery delivery) db =
    match deliveries db !! wd_deliveryId delivery with
    | None => (Gave Process, in_archive first_attempt db)
    | Some row =>
        if negb (same_delivery delivery row) then (Threw delivery_conflict, db)
        else match attempt (Some row) with
             | Some row' => (Gave Process, in_archive row' db)
             | None => (Gave (if bool_decide (dl_state row = Processed) then AlreadyProcessed else InFlight), db)
             end
    end.
Proof.
  unfold claim_delivery. rewrite alone_bind. unfold insert_delivery, perform, mbind, txn_bind, ask, select.
  destruct (deliveries db !! wd_deliveryId delivery) as [row|] eqn:Hrow.
  - rewrite bool_decide_true by eauto. cbn. rewrite Hrow. destruct (same_delivery delivery row); cbn; [|done].
    assert (forall ms, perform (reclaim (wd_deliveryId delivery) ms) env db =
      if bool_decide (dl_state row = DeliveryFailed) || (bool_decide (dl_state row = Processing) && stale ms row)
      then (Gave true, in_archive (next_attempt row) db) else (Gave (E := failure) false, db)) as Hreclaim.
    { intros ms. unfold perform, reclaim, mbind, txn_bind, ask, select. rewrite Hrow.
      destruct (_ || _); [|done]. unfold update, update_delivery. by rewrite Hrow. }
    unfold attempt. destruct (dl_state row) eqn:Hs; states.
    + destruct (stale (date_now env) row) eqn:Hstale; cbn; [|done].
      change (perform _ env db) with (perform (reclaim (wd_deliveryId delivery) (date_now env)) env db).
      rewrite Hreclaim, Hstale. by states.
    + done.
    + change (perform _ env db) with (perform (reclaim (wd_deliveryId delivery) (date_now env)) env db).
      rewrite Hreclaim. by states.
  - rewrite bool_decide_false by (by rewrite <- eq_None_not_Some). done.
Qed.
End Claiming.

Section Calls.
Context (config : NameServiceConfig) (settings : QueueSettings) (uuid_of : string -> option string)
  (timestamp_of : string -> option Z) (verify : option json -> string -> string -> string -> Verdict).

(** The archive once the call [id] was processed, and once processing it failed. *)
Definition finished (env : Env) (id : string) (db : Db) : Db :=
  set_deliveries (alter (fun row =>
    {| dl_event_id := dl_event_id row; dl_event_type := dl_event_type row; dl_payload := dl_payload row;
       dl_headers := dl_headers row; dl_state := Processed; dl_attempt_count := dl_attempt_count row;
       dl_processing_error := None; dl_last_attempt_at := dl_last_attempt_at row;
       dl_processed_at := Some (clock_timestamp env) |}) id (deliveries db)) db.
Definition broken (message : string) (id : string) (db : Db) : Db :=
  set_deliveries (alter (fun row =>
    {| dl_event_id := dl_event_id row; dl_event_type := dl_event_type row; dl_payload := dl_payload row;
       dl_headers := dl_headers row; dl_state := DeliveryFailed; dl_attempt_count := dl_attempt_count row;
       dl_processing_error := Some (string_take 2000 ("Error: " +:+ message));
       dl_last_attempt_at := dl_last_attempt_at row; dl_processed_at := None |}) id (deliveries db)) db.

Lemma update_delivery_alter id f db : update_delivery id f db = set_deliveries (alter f id (deliveries db)) db.
Proof.
  unfold update_delivery. destruct (deliveries db !! id) as [row|] eqn:E.
  - f_equal. apply map_eq. intros k. destruct (decide (k = id)) as [->|Hne].
    + by rewrite lookup_insert_eq, lookup_alter_eq, E.
    + by rewrite lookup_insert_ne, lookup_alter_ne.
  - rewrite alter_id; [by destruct db|]. intros row Hrow. congruence.
Qed.

(** The call carries what a row of the archive has: the identifier of the event, its type and the
    whole body. *)
Definition same_call (body : json) (event : PaymentEvent) (row : DeliveryRow) : Prop :=
  dl_event_id row = (if String.eqb (pe_id event) "" then None else Some (pe_id event)) /\
  dl_event_type row = pe_type event /\ same_json (dl_payload row) body.

Lemma same_delivery_spec body headers event row :
  same_delivery (delivery_of body headers event) row = true <-> same_call body event row.
Proof.
  unfold same_delivery, same_call. cbn [delivery_of wd_eventId wd_eventType wd_payload].
  rewrite !andb_true_iff, bool_decide_eq_true, String.eqb_eq, isDeepStrictEqual_spec.
  assert (nullif_empty (pe_id event) = if String.eqb (pe_id event) "" then None else Some (pe_id event)) as -> by done.
  naive_solver.
Qed.

(** How a call is processed, once its row is in the archive. *)
Lemma processed_call env id body event db :
  alone (fun _ => env) (process_delivery config settings uuid_of timestamp_of id (Some body) event) db =
    match alone (fun _ => env) (dispatch config settings uuid_of timestamp_of (Some body) event) db with
    | (Gave _, db') => (Gave {| rp_status := 200; rp_body := [("received", JBool true)] |}, finished env id db')
    | (Threw e, db') =>
        (Gave {| rp_status := 500; rp_body := [("received", JBool false)] |},
         broken (match e with AppError _ _ message | OtherError message => message end) id db')
    end.
Proof.
  unfold process_delivery. rewrite alone_try. unfold finished, broken.
  destruct (alone _ (dispatch _ _ _ _ _ _) db) as [[a|e] db']; [|rewrite alone_try];
    rewrite <- update_delivery_alter; done.
Qed.

(** C31: What a call of the provider comes to.  Without the three headers of the signature, or with
    a wrong one, it is refused and nothing changes.  A call that was verified and parsed is
    compared with the archive under the identifier of its header: one whose event, type or body
    (but for the order of keys) is another than what the archive has is refused; one that was
    processed is answered without any effect; and one that is being processed, by an attempt that
    was begun no more than 300 000 milliseconds before the clock of the server, is turned away.  Any
    other, a new one, one that failed and one whose attempt is older, is processed: the archive has
    it as an attempt, counted and dated, before the event takes effect (what an event does is the
    subject of other theorems); then it has it as processed, or as failed with the error when the
    effect raised one, which is answered with 500, so that the provider calls again. *)
Theorem calls_are_answered (env : Env) (db : Db) (headers : Headers) :
  let run body := alone (fun _ => env) (POST config settings uuid_of timestamp_of verify body headers) db in
  let answer status body := Gave (E := failure) {| rp_status := status; rp_body := body |} in
  let refused status code message := (answer status [("code", JString code); ("message", JString message)], db) in
  (forall body, (truthy (hd_id headers) = None \/ truthy (hd_timestamp headers) = None \/ truthy (hd_signature headers) = None) ->
     run body = refused 403 "WEBHOOK_SIGNATURE_MISSING" "The webhook signature headers are missing.") /\
  (forall body id timestamp signature, truthy (hd_id headers) = Some id -> truthy (hd_timestamp headers) = Some timestamp ->
     truthy (hd_signature headers) = Some signature -> verify body id timestamp signature = NotVerified ->
     run body = refused 403 "WEBHOOK_SIGNATURE_INVALID" "The webhook signature is invalid.") /\
  (forall body event id timestamp signature, truthy (hd_id headers) = Some id ->
     truthy (hd_timestamp headers) = Some timestamp -> truthy (hd_signature headers) = Some signature ->
     verify (Some body) id timestamp signature = Verified -> parsePolarEvent (Some body) = Gave event ->
     let processes row := run (Some body) =
       match alone (fun _ => env) (dispatch config settings uuid_of timestamp_of (Some body) event)
               (set_deliveries (<[id := row]> (deliveries db)) db) with
       | (Gave _, db') => (answer 200 [("received", JBool true)], finished env id db')
       | (Threw e, db') =>
           (answer 500 [("received", JBool false)],
            broken (match e with AppError _ _ message | OtherError message => message end) id db')
       end in
     match deliveries db !! id with
     | None => processes
         {| dl_event_id := if String.eqb (pe_id event) "" then None else Some (pe_id event);
            dl_event_type := pe_type event; dl_payload := body;
            dl_headers := [("webhook-id", hd_id headers); ("webhook-timestamp", hd_timestamp headers);
                           ("webhook-signature", hd_signature headers);
                           ("content-type", hd_content_type headers); ("user-agent", hd_user_agent headers)];
            dl_state := Processing; dl_attempt_count := 1; dl_processing_error := None;
            dl_last_attempt_at := clock_timestamp env; dl_processed_at := None |}
     | Some row =>
         (~ same_call body event row -> run (Some body) =
            refused 409 "WEBHOOK_DELIVERY_CONFLICT" "The webhook delivery ID is already bound to different content.") /\
         (same_call body event row ->
            let again := processes
              {| dl_event_id := dl_event_id row; dl_event_type := dl_event_type row; dl_payload := dl_payload row;
                 dl_headers := dl_headers row; dl_state := Processing; dl_attempt_count := dl_attempt_count row + 1;
                 dl_processing_error := None; dl_last_attempt_at := clock_timestamp env;
                 dl_processed_at := dl_processed_at row |} in
            match dl_state row with
            | Processed => run (Some body) = (answer 200 [("received", JBool true); ("replay", JBool true)], db)
            | DeliveryFailed => again
            | Processing =>
                if dl_last_attempt_at row <? (date_now env - 300000) * 1000 then again
                else run (Some body) =
                  (answer 409 [("received", JBool false); ("code", JString "WEBHOOK_DELIVERY_IN_FLIGHT")], db)
            end)
     end).
Proof.
  cbn zeta. split; [|split].
  - intros body Hmissing. unfold POST, verifyWebhook, assertWebhookSignature.
    destruct (truthy (hd_id headers)), (truthy (hd_timestamp headers)), (truthy (hd_signature headers)); naive_solver.
  - intros body id timestamp signature Hid Ht Hs Hv. unfold POST, verifyWebhook, assertWebhookSignature.
    by rewrite Hid, Ht, Hs, Hv.
  - intros body event id timestamp signature Hid Ht Hs Hv Hevent.
    unfold POST, verifyWebhook, assertWebhookSignature. rewrite Hid, Ht, Hs, Hv, Hevent, alone_try, claim_delivery_alone.
    assert (wd_deliveryId (delivery_of body headers event) = id) as Hdid.
    { cbn. apply truthy_Some in Hid. by rewrite Hid. }
    unfold in_archive. rewrite Hdid. destruct (deliveries db !! id) as [row|] eqn:Hrow.
    + split; intros Hsame; rewrite <- (same_delivery_spec body headers) in Hsame.
      * apply not_true_is_false in Hsame as ->. done.
      * rewrite Hsame. cbn [negb]. unfold attempt, stale, stale_before, js_date.
        change (date_now env - 5 * 60000) with (date_now env - 300000).
        destruct (dl_state row); [|done|by rewrite processed_call].
        destruct (_ <? _); [by rewrite processed_call|done].
    + by rewrite processed_call.
Qed.
End Calls.

(** * What the mirror of subscriptions keeps

    [applyEvent] of [Subscriptions.v] said twice says it once, and the actions of a customer
    concern no subscription of anybody else. *)

Section Replays.
Context (timestamp_of : string -> option Z).

(** Rows without their last change. *)
Definition unstamped (s : SubscriptionRow) : SubscriptionRow :=
  {| sb_id := sb_id s; sb_user_id := sb_user_id s; sb_tier := sb_tier s; sb_status := sb_status s;
     sb_current_period_end := sb_current_period_end s; sb_cancel_at_period_end := sb_cancel_at_period_end s;
     sb_pause_at_period_end := sb_pause_at_period_end s; sb_price_eur_cents := sb_price_eur_cents s;
     sb_created_at := sb_created_at s; sb_updated_at := 0 |}.
Definition mirror (db : Db) : list (string * SubscriptionRow) := prod_map id unstamped <$> subscriptions db.
Definition customers (db : Db) : list (string * string) := prod_map id cu_email <$> checkout_customers db.

(** *** Whose subscription it is *)

Lemma map_set_fmap {V W} (f : V -> W) k v (m : list (string * V)) :
  prod_map id f <$> map_set k v m = map_set k (f v) (prod_map id f <$> m).
Proof. induction m as [|[k' v'] m IH]; cbn; [done|]. case_decide; cbn; [done|]. by rewrite IH. Qed.

Lemma map_get_fmap {V W} (f : V -> W) k (m : list (string * V)) : map_get k (prod_map id f <$> m) = f <$> map_get k m.
Proof. induction m as [|[k' v'] m IH]; cbn; [done|]. by case_decide. Qed.

Lemma upsert_customer_again account env env' db db1 db2 :
  upsert_customer account env db = Gave (tt, db1) -> checkout_customers db2 = checkout_customers db1 ->
  exists rows, upsert_customer account env' db2 = Gave (tt, set_checkout_customers rows db2) /\
    prod_map id cu_email <$> rows = customers db2 /\ map_has (pa_id account) rows = true.
Proof.
  unfold upsert_customer. intros H E. tx_run. rename Hcond into Hfree. cbn in E.
  unfold mbind, txn_bind, ask, select, throw_when, update. rewrite E.
  match goal with |- context [existsb ?p ?l] => assert (existsb p l = false) as -> end.
  { apply existsb_elem_false. intros row [->|Hrow]%map_set_elem; cbn.
    - by rewrite !String.eqb_refl.
    - by apply (proj1 (existsb_elem_false _ _) Hfree). }
  cbn. rewrite map_get_set_eq. cbn. eexists. split; [reflexivity|]. unfold customers. rewrite E.
  split; [|apply map_has_get; eexists; apply map_get_set_eq].
  rewrite map_set_fmap. cbn. rewrite map_set_same; [done|]. rewrite map_get_fmap, map_get_set_eq. done.
Qed.

Lemma provisioned_again event env env' db userId db1 db2 :
  provisioned_user event env db = Gave (Some userId, db1) -> provisionAccount env' = provisionAccount env ->
  checkout_customers db2 = checkout_customers db1 ->
  exists rows, provisioned_user event env' db2 = Gave (Some userId, set_checkout_customers rows db2) /\
    prod_map id cu_email <$> rows = customers db2 /\ map_has userId rows = true.
Proof.
  unfold provisioned_user. intros H Hp E. destruct (truthy (se_email event)) as [email|]; [|by tx_run].
  apply txn_bind_gave in H as (account & db0 & (a & Ha & [= -> ->])%call_gave & H).
  apply txn_bind_gave in H as ([] & db' & Hup & [= -> ->]%txn_ret_gave).
  destruct (upsert_customer_again _ _ env' _ _ db2 Hup E) as (rows & H2 & Hrows).
  exists rows. split; [|done]. unfold mbind, txn_bind, call. by rewrite Hp, Ha, H2.
Qed.

Lemma user_again event env env' db userId db1 db2 :
  user_of_event event env db = Gave (Some userId, db1) -> provisionAccount env' = provisionAccount env ->
  checkout_customers db2 = checkout_customers db1 ->
  exists rows, user_of_event event env' db2 = Gave (Some userId, set_checkout_customers rows db2) /\
    prod_map id cu_email <$> rows = customers db2 /\ map_has userId rows = true.
Proof.
  unfold user_of_event. intros H Hp E. apply txn_bind_gave in H as (cs & db0 & [= -> ->]%select_gave & H).
  assert (map_has userId (checkout_customers db2) = true ->
    (mret (Some userId) : tx (option string)) env' db2 = Gave (Some userId, set_checkout_customers (checkout_customers db2) db2) /\
    prod_map id cu_email <$> checkout_customers db2 = customers db2 /\
    map_has userId (checkout_customers db2) = true) as Hknown by (intros; by destruct db2).
  unfold mbind, txn_bind, select. destruct (truthy (se_userId event)) as [u|]; [|by eapply provisioned_again].
  destruct (map_has u (checkout_customers db)) eqn:Hu.
  - apply txn_ret_gave in H as [= <- <-]. rewrite E, Hu. rewrite E in Hknown. eauto.
  - destruct (map_has u (checkout_customers db2)) eqn:Hu2; [|by eapply provisioned_again].
    exists (checkout_customers db2).
    (* the user that became known is the one of the address *)
    assert (u = userId) as ->; [|by apply Hknown].
    revert H. unfold provisioned_user. destruct (truthy (se_email event)) as [email|]; [|by intros H; tx_run].
    intros (account & db0 & (a & Ha & [= -> ->])%call_gave & H)%txn_bind_gave.
    apply txn_bind_gave in H as ([] & db' & Hup & [= -> ->]%txn_ret_gave).
    destruct (upsert_customer_gave _ _ _ _ Hup) as (row & [= ->] & _). cbn in E. rewrite E in Hu2.
    apply map_has_get in Hu2 as [v Hv]. destruct (decide (u = pa_id a)) as [|Hne]; [done|].
    rewrite map_get_set_ne in Hv by done. exfalso. apply map_has_none in Hu. congruence.
Qed.

(** *** The rows *)

Lemma billing_again userId pc env env' db db1 db2 :
  upsert_billing_customer userId pc env db = Gave (tt, db1) -> billing_customers db2 = billing_customers db1 ->
  map_has userId (checkout_customers db2) = true ->
  upsert_billing_customer userId pc env' db2 = Gave (tt, db2).
Proof.
  unfold upsert_billing_customer. intros H E Hu. tx_run. rename Hcond into Hfree. cbn in E.
  unfold mbind, txn_bind, select, throw_when, update. rewrite Hu, E. cbn [negb].
  match goal with |- context [existsb ?p ?l] => assert (existsb p l = false) as -> end.
  { apply existsb_elem_false. intros [k v] Hrow. apply elem_of_map_to_list in Hrow. cbn.
    destruct (decide (k = userId)) as [->|Hne]; [by rewrite String.eqb_refl, andb_false_r|].
    rewrite lookup_insert_ne in Hrow by done. apply elem_of_map_to_list in Hrow.
    by apply (proj1 (existsb_elem_false _ _) Hfree) in Hrow. }
  cbn. rewrite insert_insert_eq, <- E. by destruct db2.
Qed.

Lemma upsert_again userId event env env' db db1 db2 :
  upsert_subscription timestamp_of userId event env db = Gave (tt, db1) -> subscriptions db2 = subscriptions db1 ->
  exists rows, upsert_subscription timestamp_of userId event env' db2 = Gave (tt, set_subscriptions rows db2) /\
    prod_map id unstamped <$> rows = mirror db2.
Proof.
  unfold upsert_subscription. intros H E. tx_run.
  match goal with Hp : (match se_currentPeriodEnd event with _ => _ end) env db = Gave (?p, ?d) |- _ =>
    rename Hp into Hperiod; rename p into period; rename d into dbp end.
  assert (dbp = db /\ forall e d, (match se_currentPeriodEnd event with
            | Some s => match timestamp_of s with
                        | Some period => mret (Some period)
                        | None => throw (OtherError "invalid input syntax for type timestamp")
                        end
            | None => mret None
            end : tx (option Z)) e d = Gave (period, d)) as [-> Hagain].
  { destruct (se_currentPeriodEnd event) as [s|]; [destruct (timestamp_of s); [|done]|];
      by apply txn_ret_gave in Hperiod as [= -> ->]. }
  unfold mbind, txn_bind, ask, select, throw_when, update. rewrite Hcond. cbn [mret txn_ret].
  assert (forall old, map_get (se_providerSubscriptionId event) (subscriptions db1) = Some old ->
    unstamped (updated_subscription event period (now env') old) = unstamped old) as Hsame.
  { intros old Hold. destruct (map_get _ (subscriptions db)) as [old0|] eqn:Hold0.
    - apply update_gave in H as [= ->]. cbn in Hold. rewrite map_get_set_eq in Hold. injection Hold as <-.
      unfold unstamped, updated_subscription. cbn. f_equal.
      + by destruct (nullif_empty _).
      + by destruct period.
      + by destruct (se_pauseAtPeriodEnd event).
      + by destruct (0 <? _).
    - tx_run. cbn in Hold. rewrite map_get_app, Hold0 in Hold. cbn in Hold. rewrite decide_True in Hold by done.
      injection Hold as <-. unfold unstamped, updated_subscription. cbn. f_equal.
      + unfold nullif_empty. by destruct (String.eqb_spec (coalesce_to (se_tier event) "") "").
      + by destruct period.
      + by destruct (se_pauseAtPeriodEnd event).
      + by destruct (0 <? _). }
  assert (exists old, map_get (se_providerSubscriptionId event) (subscriptions db1) = Some old) as [old Hold].
  { destruct (map_get _ (subscriptions db)) as [old0|] eqn:Hold0.
    - apply update_gave in H as [= ->]. cbn. rewrite map_get_set_eq. eauto.
    - tx_run. cbn. rewrite map_get_app, Hold0. cbn. rewrite decide_True by done. eauto. }
  unfold mret at 1, txn_ret. rewrite Hagain, E, Hold. eexists. split; [reflexivity|]. unfold mirror. rewrite E, map_set_fmap, Hsame by done.
  apply map_set_same. by rewrite map_get_fmap, Hold.
Qed.

Lemma upsert_frame userId event env db db1 r : upsert_subscription timestamp_of userId event env db = Gave (r, db1) ->
  checkout_customers db1 = checkout_customers db /\ billing_customers db1 = billing_customers db.
Proof.
  unfold upsert_subscription. intros H. tx_run. destruct (se_currentPeriodEnd event) as [s|];
    [destruct (timestamp_of s); [|done]|]; tx_run; destruct (map_get _ _); tx_run; done.
Qed.

(** An event of a subscription that is said again changes nothing but the times of the last
    change: once it was applied, it is applied again whatever the time, and the subscriptions, the
    customers and their provider's identifiers are those there were; only the audit log has one
    row more. *)
Theorem subscription_events_converge (event : SubscriptionEvent) (env env' : Env) (db db1 : Db)
    (Happlied : perform (apply_transaction timestamp_of event) env db = (Gave true, db1))
    (Hidentity : provisionAccount env' = provisionAccount env) :
  exists customer_rows subscription_rows audit_row,
    perform (apply_transaction timestamp_of event) env' db1 =
      (Gave true, set_audit (audit db1 ++ [audit_row])
                    (set_subscriptions subscription_rows (set_checkout_customers customer_rows db1))) /\
    prod_map id cu_email <$> customer_rows = customers db1 /\
    prod_map id unstamped <$> subscription_rows = mirror db1.
Proof.
  unfold perform in *. destruct (apply_transaction timestamp_of event env db) as [[b db']|] eqn:Hrun; [|done].
  injection Happlied as -> ->. unfold apply_transaction in *.
  apply txn_bind_gave in Hrun as ([userId|] & dba & Huser & Hrun).
  2: { by apply txn_bind_gave in Hrun as (? & ? & _ & [= ?]%txn_ret_gave). }
  apply txn_bind_gave in Hrun as ([] & dbb & Hbilling & Hrun).
  apply txn_bind_gave in Hrun as ([] & dbc & Hsubscription & Hrun).
  apply txn_bind_gave in Hrun as ([] & dbd & [= ->]%writeAudit_gave & [= ->]%txn_ret_gave).
  assert (checkout_customers dbc = checkout_customers dba /\ billing_customers dbc = billing_customers dbb)
    as [Ec Eb].
  { destruct (upsert_frame _ _ _ _ _ _ Hsubscription) as [-> ->]. split; [|done].
    destruct (truthy (se_providerCustomerId event)); [|by apply txn_ret_gave in Hbilling as [= ->]].
    unfold upsert_billing_customer in Hbilling. by tx_run. }
  match goal with |- context [set_audit ?r dbc] => set (db1 := set_audit r dbc) end.
  destruct (user_again _ _ env' _ _ _ db1 Huser Hidentity) as (rows & Huser2 & Hrows & Hhas); [exact Ec|].
  set (db2 := set_checkout_customers rows db1) in *.
  destruct (upsert_again _ _ _ env' _ _ db2 Hsubscription eq_refl) as (rows' & Hsub2 & Hrows').
  exists rows, rows'. eexists. split; [|split; [exact Hrows|exact Hrows']].
  assert (match truthy (se_providerCustomerId event) with
          | Some pc => upsert_billing_customer userId pc
          | None => mret tt
          end env' db2 = Gave (tt, db2)) as Hbilling2.
  { destruct (truthy (se_providerCustomerId event)) as [pc|]; [|done]. by eapply billing_again. }
  unfold mbind, txn_bind. by rewrite Huser2, Hbilling2, Hsub2.
Qed.
End Replays.

(** ** Whose subscriptions an action concerns *)

Section Actions.
Context (user : User) (db : Db).

(** Two providers that say the same about the user's own: the subscriptions mirrored for the user,
    and the orders of the user's own customer. *)
Record agree (p p' : PaymentProvider) : Prop := {
  ag_cancel : forall row immediate, row ∈ subscriptions db -> sb_user_id row.2 = us_id user ->
    cancelSubscription p row.1 immediate = cancelSubscription p' row.1 immediate;
  ag_pause : forall row, row ∈ subscriptions db -> sb_user_id row.2 = us_id user ->
    pauseSubscription p row.1 = pauseSubscription p' row.1;
  ag_resume : forall row mode, row ∈ subscriptions db -> sb_user_id row.2 = us_id user ->
    resumeSubscription p row.1 mode = resumeSubscription p' row.1 mode;
  ag_find : findCustomerByEmail p (to_lower (us_email user)) = findCustomerByEmail p' (to_lower (us_email user));
  ag_orders : forall customer,
    (billing_customers db !! us_id user = Some customer \/ findCustomerByEmail p (to_lower (us_email user)) = Gave (Some customer)) ->
    listOrders p customer = listOrders p' customer;
  ag_invoices : forall customer rows order, listOrders p customer = Gave rows -> order ∈ rows ->
    orderInvoiceUrl p (or_id order) = orderInvoiceUrl p' (or_id order)
}.

Context (env env' : Env) (Hagree : agree (payments env) (payments env')).

Lemma latest_row_own tier row : latest_row (us_id user) tier db = Some row ->
  row ∈ subscriptions db /\ sb_user_id row.2 = us_id user.
Proof.
  unfold latest_row. intros H%head_Some_elem_of. rewrite elem_of_js_sort in H.
  apply list_elem_of_filter in H as [H Hin]. unfold of_tier, of_user in H. bools.
  split; [done|by apply String.eqb_eq].
Qed.

Lemma tierRow_alone e tier : alone (fun _ => e) (tierRow (us_id user) tier) db =
  (if isSubscriptionTier tier then Gave (latest_row (us_id user) tier db)
   else Threw (AppError 400 "VALIDATION_ERROR" "Unknown subscription tier."), db).
Proof. unfold tierRow. by destruct (isSubscriptionTier tier). Qed.

Lemma requireActive_alone e tier : alone (fun _ => e) (requireActive (us_id user) tier) db =
  (if isSubscriptionTier tier then
     match latest_row (us_id user) tier db with
     | Some row => if ended row.2 then Threw (missing "There is no active subscription.") else Gave row
     | None => Threw (missing "There is no active subscription.")
     end
   else Threw (AppError 400 "VALIDATION_ERROR" "Unknown subscription tier."), db).
Proof.
  unfold requireActive. rewrite alone_then, tierRow_alone. destruct (isSubscriptionTier tier); [|done].
  destruct (latest_row _ _ _) as [row|]; [|done]. by destruct (ended row.2).
Qed.

Lemma step_call_alone {A} e (f : Env -> outcome failure A) d :
  alone (fun _ => e) (step (call f) : program A) d = (f e, d).
Proof. rewrite alone_step. unfold perform, call. by destruct (f e). Qed.

Lemma customerId_same : alone (fun _ => env) (customerId user) db = alone (fun _ => env') (customerId user) db.
Proof.
  unfold customerId. rewrite !alone_bind. change (perform (select ?f) ?e db) with (Gave (E := failure) (f db), db).
  cbn beta iota. destruct (truthy (billing_customers db !! us_id user)) as [known|]; [done|].
  rewrite !alone_then, !step_call_alone, (ag_find _ _ Hagree).
  destruct (findCustomerByEmail _ _) as [found|]; [|done]. destruct (truthy found) as [customer|]; [|done].
  rewrite !alone_bind. assert (forall id pc d, perform (upsert_billing_customer id pc) env d =
    perform (upsert_billing_customer id pc) env' d) as ->; [|by destruct (perform _ env' db) as [[]]].
  intros id pc d. unfold perform, upsert_billing_customer, mbind, txn_bind, select, throw_when.
  destruct (negb _); [done|]. cbn. by destruct (existsb _ _).
Qed.

(** Whose orders are listed. *)
Lemma customerId_own e customer db' : alone (fun _ => e) (customerId user) db = (Gave (Some customer), db') ->
  billing_customers db !! us_id user = Some customer \/
  findCustomerByEmail (payments e) (to_lower (us_email user)) = Gave (Some customer).
Proof.
  unfold customerId. rewrite !alone_bind. change (perform (select ?f) ?e db) with (Gave (E := failure) (f db), db).
  cbn beta iota. destruct (truthy (billing_customers db !! us_id user)) as [known|] eqn:Hknown.
  - intros [= -> _]. left. by apply truthy_Some.
  - rewrite !alone_then, !step_call_alone. destruct (findCustomerByEmail _ _) as [found|]; [|done].
    destruct (truthy found) as [f|] eqn:Hf; [|done]. rewrite alone_bind.
    destruct (perform _ e db) as [[[]|] ?]; [|done]. intros [= -> _]. right. f_equal. by apply truthy_Some.
Qed.

Lemma orders_same : alone (fun _ => env) (orders user) db = alone (fun _ => env') (orders user) db.
Proof.
  unfold orders. rewrite !alone_then, <- customerId_same.
  destruct (alone _ (customerId user) db) as [[[customer|]|] db'] eqn:Hc; [|done..].
  rewrite !step_call_alone. f_equal. apply (ag_orders _ _ Hagree). by eapply customerId_own.
Qed.

(** The actions of a customer concern nobody else: whatever a client names, the result of
    cancelling, pausing and resuming a subscription, of listing orders and of asking for an invoice
    depends only on what the provider says about the user's own subscriptions and orders. *)
Theorem actions_concern_own_subscriptions (tier orderId : string) (immediate : bool) :
  alone (fun _ => env) (Subscriptions.cancel (us_id user) tier immediate) db =
    alone (fun _ => env') (Subscriptions.cancel (us_id user) tier immediate) db /\
  alone (fun _ => env) (pause (us_id user) tier) db = alone (fun _ => env') (pause (us_id user) tier) db /\
  alone (fun _ => env) (resume (us_id user) tier) db = alone (fun _ => env') (resume (us_id user) tier) db /\
  alone (fun _ => env) (orders user) db = alone (fun _ => env') (orders user) db /\
  alone (fun _ => env) (invoice_url user orderId) db = alone (fun _ => env') (invoice_url user orderId) db.
Proof.
  unfold Subscriptions.cancel, pause, resume, invoice_url. rewrite !alone_then, !requireActive_alone, !tierRow_alone.
  split; [|split; [|split; [|split; [apply orders_same|]]]].
  1-3: destruct (isSubscriptionTier tier); [|done];
    destruct (latest_row (us_id user) tier db) as [row|] eqn:Hrow; [|done];
    apply latest_row_own in Hrow as [Hin Hu]; destruct (ended row.2); [done|]; rewrite !step_call_alone; f_equal.
  - by apply (ag_cancel _ _ Hagree).
  - by apply (ag_pause _ _ Hagree).
  - by apply (ag_resume _ _ Hagree).
  - rewrite <- orders_same. destruct (alone _ (orders user) db) as [[rows|] db'] eqn:Ho; [|done].
    destruct (js_find _ rows) as [order|] eqn:Hfind; [|done]. apply js_find_Some in Hfind as [Hin _].
    rewrite !step_call_alone. f_equal. revert Ho. unfold orders. rewrite alone_then.
    destruct (alone _ (customerId user) db) as [[[customer|]|] db1] eqn:Hc; [| |done].
    + rewrite step_call_alone. intros [= Hrows ->]. by eapply (ag_invoices _ _ Hagree).
    + intros [= <- _]. by apply elem_of_nil in Hin.
Qed.
End Actions.
