(* ===== verification/Tenants.v ===== *)
(** * Tenants

    Whose environment is for which name, and whether it should run: the part of the
    customer directory that entitlements decide.  An entitlement event sets it
    ([accept_spec]), and no other transaction of the directory does ([quiet_step]). *)

From S2P Require Import Prelude Contracts Directory Movement Provisioning Customers Placement.

Open Scope stdpp_scope.
Open Scope js_scope.
Local Open Scope Z_scope.

(** Name, owner and wanted state. *)
Definition tenant (e : Environment) : string * string * DesiredState :=
  (en_purchased_name e, en_owner_subject_id e, en_desired_state e).
Definition tenants (d : Directory) : gmap string (string * string * DesiredState) := tenant <$> environments d.

(** The tenants are as before, and no event was accepted. *)
Definition quiet (d d' : Directory) : Prop := tenants d' = tenants d /\ events d' = events d.

#[export] Instance quiet_preorder : PreOrder quiet.
Proof. split; [done|]. intros d1 d2 d3 [] []. split; congruence. Qed.

Lemma tenants_lookup d eid t : tenants d !! eid = Some t <-> exists e, environments d !! eid = Some e /\ tenant e = t.
Proof.
  unfold tenants. rewrite lookup_fmap. destruct (environments d !! eid) as [e|]; cbn; [|naive_solver].
  split; [intros [= <-]; eauto|]. by intros (? & [= ->] & ->).
Qed.

Lemma quiet_rows d d' : environments d' = environments d -> events d' = events d -> quiet d d'.
Proof. unfold quiet, tenants. by intros -> ->. Qed.

Lemma quiet_env d eid f : (forall e, tenant (f e) = tenant e) -> quiet d (update_environment eid f d).
Proof.
  intros Hf. split; [|done]. unfold tenants. cbn. apply map_eq. intros i. rewrite !lookup_fmap.
  destruct (decide (eid = i)) as [->|]; [|by rewrite lookup_alter_ne].
  rewrite lookup_alter_eq. destruct (environments d !! i) as [e|]; cbn; [by rewrite Hf|done].
Qed.

Lemma quiet_operations x d : quiet d (set_operations x d).
Proof. by apply quiet_rows. Qed.
Lemma quiet_components x d : quiet d (set_components x d).
Proof. by apply quiet_rows. Qed.
Lemma quiet_movements x d : quiet d (set_movements x d).
Proof. by apply quiet_rows. Qed.
Lemma quiet_controllers x d : quiet d (set_controllers x d).
Proof. by apply quiet_rows. Qed.
Lemma quiet_runtimes x d : quiet d (set_runtimes x d).
Proof. by apply quiet_rows. Qed.
Lemma quiet_default x d : quiet d (set_default_runtime x d).
Proof. by apply quiet_rows. Qed.
Lemma quiet_movement id f d : quiet d (update_movement id f d).
Proof. by apply quiet_rows. Qed.
#[export] Hint Resolve quiet_operations quiet_components quiet_movements quiet_controllers quiet_runtimes
  quiet_default quiet_movement : js.

(** One assignment after the other. *)
Ltac quietly :=
  repeat first [reflexivity | solve [auto with js] | simple apply quiet_env; done
               | etransitivity; [|simple apply quiet_env; done] | etransitivity; [|simple apply quiet_components]
               | etransitivity; [|simple apply quiet_operations] | etransitivity; [|simple apply quiet_movement]].

(** ** The steps that are no entitlements *)

Lemma claim_quiet instanceId lease runtimeId now locked d : quiet d (claim instanceId lease runtimeId now locked d).1.
Proof. unfold claim. destruct (next_operation _ _ _ _) as [[id row]|]; cbn [fst]; quietly. Qed.

Lemma finish_quiet instanceId runtimeId operation d d' : finish instanceId runtimeId operation d = Ok d' -> quiet d d'.
Proof. unfold finish. intros Hf. inv_result. quietly. Qed.

Lemma fail_quiet instanceId runtimeId operation error d :
  quiet d (fail_operation instanceId runtimeId operation error d).
Proof. unfold fail_operation. cbv zeta. repeat case_match; quietly. Qed.

Lemma queue_rows_quiet uuids now rows d d' : queue_rows uuids now rows d = Ok d' -> quiet d d'.
Proof.
  revert uuids d. induction rows as [|o rows IH]; intros uuids d; cbn; [by intros [= <-]|].
  intros Hq. inv_result. etransitivity; [|by eapply IH].
  match goal with H : queue_row _ _ _ _ = Ok _ |- _ => revert H end. unfold queue_row.
  destruct (find_operation d o) as [[id existing]|]; [intros [= <-]; case_match; quietly|].
  intros Hr. inv_result. quietly.
Qed.

Lemma queue_quiet uuids now environmentId d d' :
  queueCustomerReconciliation uuids now environmentId d = Ok d' -> quiet d d'.
Proof.
  unfold queueCustomerReconciliation. destruct (environments d !! environmentId) as [e|]; [|by intros [= <-]].
  case_match; [apply queue_rows_quiet|by intros [= <-]].
Qed.

Lemma reconcile_quiet restore uuids now customers d d' :
  reconcile_customers restore uuids now customers d = Ok d' -> quiet d d'.
Proof.
  revert d. induction customers as [|c customers IH]; intros d; cbn; [by intros [= <-]|].
  intros Hr. inv_result. etransitivity; [by eapply queue_quiet|]. etransitivity; [|by eapply IH].
  unfold pending_components. quietly.
Qed.

Lemma supersede_events input d d' : supersede input d = Ok d' -> events d' = events d.
Proof.
  unfold supersede. destruct (truthy _); [|intros Hs; by inv_result].
  destruct (movements d !! _); [|done]. intros Hs. inv_result. by case_match.
Qed.

Lemma begin_quiet input uuid d d' id : begin input uuid d = Ok (d', id) -> quiet d d'.
Proof.
  intros [[-> _]|(e & d1 & _ & _ & _ & _ & Hs & _ & _ & ->)]%begin_spec; [done|].
  pose proof (supersede_events _ _ _ Hs). apply supersede_spec in Hs as (_ & He & _).
  etransitivity; [by apply (quiet_rows d d1)|]. unfold begins. quietly.
Qed.

Lemma store_components_events eid generation values d d' :
  store_components eid generation values d = Ok d' -> events d' = events d.
Proof.
  revert d. induction values as [|value values IH]; intros d; cbn; [by intros [= <-]|].
  intros Hs. unfold upsert_component in Hs. inv_result. by match goal with H : store_components _ _ _ _ = _ |- _ => apply IH in H end.
Qed.

Lemma activate_quiet id more d d' : activate id more d = Ok d' -> quiet d d'.
Proof.
  intros Ha. pose proof (activate_spec _ _ _ _ Ha) as (row & e & Hact). split.
  - unfold tenants. rewrite (act_environments _ _ _ _ _ _ Hact), fmap_insert. apply insert_id.
    by rewrite lookup_fmap, (act_environment _ _ _ _ _ _ Hact).
  - revert Ha. unfold activate. intros Ha. inv_result.
    destruct (mv_evidence _ !! _) as [[| | | |[|v1 vs]|]|]; try discriminate. inv_result. cbn.
    match goal with H : store_components _ _ _ _ = Ok _ |- _ => by rewrite (store_components_events _ _ _ _ _ H) end.
Qed.

(** ** Entitlements *)

Section Accepting.
Context (isUuid : string -> bool) (uuid : string) (uuids : nat -> string) (now : Z).

Definition tenant_of (row : EntitlementRow) : string * string * DesiredState :=
  (ev_purchased_name row, ev_subject_id row, desired_of (ev_event_type row)).

Lemma find_environment_None name d : find_environment name d = None ->
  forall eid e, environments d !! eid = Some e -> en_purchased_name e <> name.
Proof.
  unfold find_environment. rewrite fmap_None, js_find_None. intros Hn eid e He <-.
  specialize (Hn (eid, e) (proj2 (elem_of_map_to_list _ _ _) He)). cbn in Hn. by rewrite bool_decide_true in Hn.
Qed.

(** The environment of a name is the one there is, or a new one. *)
Definition environment_of (name : string) (d : Directory) (eid : string) : Prop :=
  match environments d !! eid with
  | Some e => en_purchased_name e = name
  | None => forall other e, environments d !! other = Some e -> en_purchased_name e <> name
  end.

Lemma entitle_tenant row d d' eid catalog : entitle isUuid uuid now row d = Ok (d', eid, catalog) ->
  environment_of (ev_purchased_name row) d eid /\ tenants d' = <[eid := tenant_of row]> (tenants d) /\ events d' = events d.
Proof.
  unfold entitle, environment_of. intros He. destruct (find_environment _ d) as [i|] eqn:Ef.
  - destruct (find_environment_Some _ _ _ Ef) as (e & Hi & Hn). inv_result. rewrite Hi. split; [done|]. split; [|done].
    unfold tenants. cbn. rewrite (alter_Some _ _ _ _ Hi), fmap_insert. f_equal. unfold tenant, tenant_of. cbn. by rewrite Hn.
  - destruct (placement d) as [p|]; [|discriminate].
    destruct (databaseNameForEnvironment isUuid uuid) as [databaseName|]; [|discriminate].
    cbn [mbind result_bind] in He. unfold insert_environment in He.
    destruct (bool_decide _) eqn:Eb in He; [discriminate|]. bools. cbn [orb] in He. inv_result.
    split; [|split; [|done]].
    + destruct (environments d !! _) as [e|] eqn:E0; [destruct Eb; by exists e|]. by apply find_environment_None.
    + unfold tenants. cbn. by rewrite fmap_insert.
Qed.

(** An event that was accepted before changes nothing; a new one sets the tenant of its name. *)
Lemma accept_spec event d d' accepted : acceptEntitlement isUuid uuid uuids now event d = Ok (d', accepted) ->
  (ac_replay accepted = true /\ d' = d /\ events d !! ee_eventId event = Some (ee_row event)) \/
  (ac_replay accepted = false /\ events d !! ee_eventId event = None /\
   events d' = <[ee_eventId event := ee_row event]> (events d) /\
   environment_of (ev_purchased_name (ee_row event)) d (ac_environmentId accepted) /\
   tenants d' = <[ac_environmentId accepted := tenant_of (ee_row event)]> (tenants d)).
Proof.
  unfold acceptEntitlement. intros Ha. past_checks Ha. destruct (events d !! ee_eventId event) as [replay|].
  { destruct (throw_if _ _) eqn:Er in Ha; [|discriminate]. cbn [mbind result_bind] in Ha.
    destruct (find_environment _ _); [|discriminate]. injection Ha as <- <-. left.
    unfold throw_if in Er. case_match; [discriminate|]. bools. by subst. }
  destruct (entitle _ _ _ _ _) as [[[d1 eid] catalog]|] eqn:Eent; [|discriminate]. cbn [mbind result_bind] in Ha.
  destruct (entitle_tenant _ _ _ _ _ Eent) as (E1 & E2 & E3). cbn in E1, E2, E3.
  destruct (match environments _ !! eid with Some _ => _ | None => _ end) as [generation|]; [|discriminate].
  past_checks Ha. destruct (install _ _ _ _ _ _ _ _) as [d2|] eqn:Ei; [|discriminate]. injection Ha as <- <-.
  destruct (install_spec _ _ _ _ _ _ _ _ _ Ei) as (_ & I2 & _ & _ & _ & I6 & _). right.
  split; [done|]. split; [done|]. split; [by rewrite I6|]. split; [done|]. unfold tenants in *. by rewrite I2.
Qed.
End Accepting.

(** ** Every other step is quiet *)

Lemma quiet_step `{Collation} isUuid d d' : dir_step isUuid d d' -> events d' = events d -> quiet d d'.
Proof.
  destruct 1; intros Hev.
  - match goal with H : registerRuntime _ _ _ = _ |- _ => revert H end. unfold registerRuntime. intros Hr. inv_result.
    destruct (runtimes d !! id); inv_result; quietly.
  - match goal with H : selectDefaultRuntime _ _ _ _ = _ |- _ => revert H end. unfold selectDefaultRuntime. intros Hr. inv_result.
    destruct (runtimes d !! id); inv_result; by apply quiet_rows.
  - by eapply begin_quiet.
  - match goal with H : advance _ _ _ _ _ = _ |- _ => revert H end. unfold advance. intros Hr. inv_result. quietly.
  - match goal with H : requestReturn _ _ = _ |- _ => revert H end. unfold requestReturn. intros Hr. inv_result. quietly.
  - by eapply activate_quiet.
  - quietly.
  - quietly.
  - match goal with H : acceptEntitlement _ _ _ _ _ _ = _ |- _ => apply accept_spec in H end.
    destruct_or!; destruct_and!; [subst; done|]. exfalso.
    match goal with H : events d' = <[_ := _]> _ |- _ => rewrite Hev in H; rewrite H in * end.
    by match goal with H : <[_ := _]> _ !! _ = None |- _ => rewrite lookup_insert_eq in H end.
  - apply claim_quiet.
  - by eapply finish_quiet.
  - apply fail_quiet.
  - by eapply reconcile_quiet.
Qed.
