(* ===== verification/Entitlements.v ===== *)
(** * From purchases to tenants

    The checkout and the customer API as one system: what the checkout sells it tells
    the customer API ([Outbox.v]), whose handler ([services/aven-api/src/customers/handler.ts],
    [internal]) turns an event into a tenant ([Customers.v]).  Between the two is a network
    that may lose a request or an answer.  The theorems hold for every interleaving of the
    requests of the checkout, any number of outbox workers, and all that the provisioning
    workers and the movement controllers do. *)

From S2P Require Import Prelude Contracts Directory Movement Provisioning Customers Placement Tenants Json Programs Tables Checkout Names NamesFacts Register Subscriptions Webhooks Outbox CheckoutSystem.
From stdpp Require Import relations.

Open Scope stdpp_scope.
Open Scope js_scope.
Local Open Scope Z_scope.

(** ** The system *)

(** The databases of the two services. *)
Record World := { w_checkout : Db; w_customers : Directory }.

(** What becomes of a call. *)
Inductive Network := Works | RequestLost | ResponseLost.

(** Surroundings of a step on either side: those of the checkout; the network; and the
    identifiers and the clock of the customer API. *)
Record WorldEnv := {
  we_checkout : Env;
  we_network : Network;
  we_uuid : string;
  we_uuids : nat -> string;
  we_now : Z
}.

Abbreviation wtx := (txn WorldEnv World failure).
Abbreviation wprogram := (prog WorldEnv World failure).

(** A transaction and a program of the checkout. *)
Definition on_checkout (A : Type) (t : tx A) : wtx A := fun env w =>
  match t (we_checkout env) (w_checkout w) with
  | Gave (a, db) => Gave (a, {| w_checkout := db; w_customers := w_customers w |})
  | Threw e => Threw e
  end.
Fixpoint in_world {A} (p : program A) : wprogram A :=
  match p with
  | Return a => Return a
  | Raise e => Raise e
  | Step t next => Step (on_checkout _ t) (fun o => in_world (next o))
  end.

Section System.
Context `{Collation} (isUuid : string -> bool) (uuid : string) (uuids : nat -> string) (time : Z).

Definition type_of (t : PlatformEventType) : EntitlementType :=
  match t with Granted => PurchaseGranted | Revoked => PurchaseRevoked end.

(** The body of the call; [toISOString] has milliseconds. *)
Definition posted (row : EventRow) : EntitlementEvent :=
  {| ee_eventId := er_id row;
     ee_row := {| ev_event_type := type_of (er_event_type row); ev_subject_id := er_subject_id row;
                  ev_purchased_name := er_purchased_name row; ev_occurred_at := er_occurred_at row / 1000 |} |}.

Definition entitlementSchema (event : EntitlementEvent) : bool :=
  isUuid (ee_eventId event) && isUuid (ev_subject_id (ee_row event)) &&
  is_purchased_name (ev_purchased_name (ee_row event)).

Definition event_conflict : string := "The event ID is already bound to different entitlement data.".

(** [internal], for a caller with the token of the outbox. *)
Definition internal (event : EntitlementEvent) (d : Directory) : Z * Directory :=
  if negb (entitlementSchema event) then (400, d)
  else
    match acceptEntitlement isUuid uuid uuids time event d with
    | Ok (d', accepted) => (if ac_replay accepted then 200 else 201, d')
    | Throw message => (if String.eqb message event_conflict then 409 else 500, d)
    end.
End System.

(** [fetch]. *)
Definition post (isUuid : string -> bool) (row : EventRow) : wtx (outcome failure Z) := fun env w =>
  let answered := internal isUuid (we_uuid env) (we_uuids env) (we_now env) (posted row) (w_customers w) in
  match we_network env with
  | RequestLost => Gave (Threw (OtherError "fetch failed"), w)
  | ResponseLost => Gave (Threw (OtherError "fetch failed"),
                          {| w_checkout := w_checkout w; w_customers := answered.2 |})
  | Works => Gave (Gave answered.1, {| w_checkout := w_checkout w; w_customers := answered.2 |})
  end.

Definition worker_turn (isUuid : string -> bool) (outboxConfig : OutboxConfig) (instanceId : string) : wprogram unit :=
  outbox_turn outboxConfig instanceId on_checkout (post isUuid).

Section World.
Context `{Collation} (config : NameServiceConfig) (settings : QueueSettings) (sha256Hex : string -> string)
  (uuid_of : string -> option string) (showDate : Z -> string)
  (canBuyMore : string -> Z -> bool) (timestamp_of : string -> option Z) (collate : string -> string -> Z)
  (verify : option json -> string -> string -> string -> Verdict) (isUuid : string -> bool).

(** The requests of the checkout, and any turn of any outbox worker. *)
Inductive world_service : forall A : Type, wprogram A -> Prop :=
| WorldCheckout A (p : program A) :
    checkout_service config settings sha256Hex uuid_of showDate canBuyMore timestamp_of collate verify A p ->
    world_service A (in_world p)
| WorldOutbox outboxConfig instanceId : world_service unit (worker_turn isUuid outboxConfig instanceId).

(** What happens besides: the tables of the checkout are read in another order, the mail worker
    writes, and the directory takes any step but the acceptance of an entitlement. *)
Inductive world_background : World -> World -> Prop :=
| WorldOrder db' w : reordered (w_checkout w) db' ->
    world_background w {| w_checkout := db'; w_customers := w_customers w |}
| WorldMails rows w :
    world_background w {| w_checkout := set_email_queue rows (w_checkout w); w_customers := w_customers w |}
| WorldCustomers d' w : dir_step isUuid (w_customers w) d' -> events d' = events (w_customers w) ->
    world_background w {| w_checkout := w_checkout w; w_customers := d' |}.

Definition world_admissible (t : Z) (env : WorldEnv) (w : World) : Prop :=
  admissible t (we_checkout env) (w_checkout w).

Definition world_step : pool WorldEnv World failure -> pool WorldEnv World failure -> Prop :=
  pool_step world_admissible world_service world_background.

Definition empty_world : World := {| w_checkout := empty_db; w_customers := initial_directory |}.
Definition world_starting (t : Z) : pool WorldEnv World failure :=
  {| pl_time := t; pl_db := empty_world; pl_running := [] |}.

(** ** The invariant *)

(** An accepted event is one of the outbox. *)
Definition event_fits (o : OutboxRow) (row : EntitlementRow) : Prop :=
  ev_event_type row = type_of (ob_event_type o) /\ ev_subject_id row = ob_subject_id o /\
  ev_purchased_name row = ob_purchased_name o.

Record tenants_ok (rows : list (string * OutboxRow)) (d : Directory) : Prop := {
  to_events : forall id row, events d !! id = Some row -> exists o, map_get id rows = Some o /\ event_fits o row;
  to_tenants : forall eid t, tenants d !! eid = Some t -> exists id row, events d !! id = Some row /\ t = tenant_of row;
  to_unique : forall eid eid' t t', tenants d !! eid = Some t -> tenants d !! eid' = Some t' -> t.1.1 = t'.1.1 -> eid = eid'
}.

(** What may happen to a tenant: its wanted state changes with a new event. *)
Record tenant_history (d d' : Directory) : Prop := {
  th_events : events d ⊆ events d';
  th_tenants : forall eid t, tenants d !! eid = Some t -> exists t', tenants d' !! eid = Some t' /\ t'.1.1 = t.1.1 /\
    (t' = t \/ exists id row, events d !! id = None /\ events d' !! id = Some row /\ t' = tenant_of row)
}.

#[export] Instance tenant_history_preorder : PreOrder tenant_history.
Proof.
  split.
  - intros d. split; [done|]. intros eid t Ht. exists t. auto.
  - intros d1 d2 d3 [E1 T1] [E2 T2]. split; [by etransitivity|]. intros eid t Ht.
    destruct (T1 _ _ Ht) as (t2 & Ht2 & Hn2 & C2). destruct (T2 _ _ Ht2) as (t3 & Ht3 & Hn3 & C3).
    exists t3. split; [done|]. split; [congruence|]. destruct C3 as [->|(id & row & Hnew & Hrow & ->)].
    + destruct C2 as [->|(id & row & Hnew & Hrow & ->)]; [auto|]. right. exists id, row.
      split; [done|]. split; [by eapply lookup_weaken|done].
    + right. exists id, row. split; [|done]. destruct (events d1 !! id) as [row1|] eqn:E; [|done].
      by rewrite (lookup_weaken _ _ _ _ E E1) in Hnew.
Qed.

Definition world_ok (t : Z) (w : World) : Prop :=
  registry_ok uuid_of t (w_checkout w) /\ tenants_ok (outbox (w_checkout w)) (w_customers w).
Definition world_history (w w' : World) : Prop :=
  history (w_checkout w) (w_checkout w') /\ tenant_history (w_customers w) (w_customers w').

#[export] Instance world_history_preorder : PreOrder world_history.
Proof. split; [by split|]. intros w1 w2 w3 [] []. split; by etransitivity. Qed.

Abbreviation keeping_world := (keeping world_admissible world_ok world_history).
Abbreviation safe_world := (safe world_admissible world_ok world_history).

Lemma tenants_ok_later rows rows' d : tenants_ok rows d ->
  (forall id o, map_get id rows = Some o -> exists o', map_get id rows' = Some o' /\ same_event o o') ->
  tenants_ok rows' d.
Proof.
  intros [E T U] Hrows. split; [|done..]. intros id row Hrow. destruct (E _ _ Hrow) as (o & Ho & F1 & F2 & F3).
  destruct (Hrows _ _ Ho) as (o' & Ho' & S1 & S2 & S3 & _). exists o'. split; [done|].
  unfold event_fits. rewrite S1, S2, S3. auto.
Qed.

(** A step of the checkout. *)
Lemma checkout_side t w db' : world_ok t w -> registry_ok uuid_of t db' -> history (w_checkout w) db' ->
  world_ok t {| w_checkout := db'; w_customers := w_customers w |} /\
  world_history w {| w_checkout := db'; w_customers := w_customers w |}.
Proof.
  intros [HR HT] Hok Hh. split; split; try done.
  eapply tenants_ok_later; [done|]. intros id o Ho. by apply (hs_outbox _ _ Hh).
Qed.

Lemma perform_on_checkout {A} (t : tx A) env w :
  perform (on_checkout A t) env w =
    ((perform t (we_checkout env) (w_checkout w)).1,
     {| w_checkout := (perform t (we_checkout env) (w_checkout w)).2; w_customers := w_customers w |}).
Proof. unfold perform, on_checkout. destruct (t _ _) as [[a db]|e]; [done|]. by destruct w. Qed.

Lemma on_checkout_keeping {A} (t : tx A) : keeping admissible (registry_ok uuid_of) history t ->
  keeping_world (on_checkout A t).
Proof.
  intros Ht time env w Ha [HR HT]. rewrite perform_on_checkout. cbn [fst snd].
  destruct (Ht time (we_checkout env) (w_checkout w) Ha HR). by apply checkout_side.
Qed.

Lemma in_world_safe {A} (p : program A) w :
  safe admissible (registry_ok uuid_of) history p (w_checkout w) -> safe_world (in_world p) w.
Proof.
  revert w. induction p as [a|e|B t next IH]; intros w; cbn; [done..|].
  intros Hs time env w1 Ha [HR HT] [HH _]. rewrite perform_on_checkout. cbn [fst snd].
  destruct (Hs time (we_checkout env) (w_checkout w1) Ha HR HH) as (K1 & K2 & K3).
  destruct (checkout_side time w1 _ (conj HR HT) K1 K2). auto.
Qed.

(** A call of the customer API, about an event of the outbox. *)
Lemma environment_tenant name d eid t : environment_of name d eid -> tenants d !! eid = Some t -> t.1.1 = name.
Proof. unfold environment_of. intros Hn (e & He & <-)%tenants_lookup. by rewrite He in Hn. Qed.
Lemma environment_other name d eid other t : environment_of name d eid ->
  (forall i j t1 t2, tenants d !! i = Some t1 -> tenants d !! j = Some t2 -> t1.1.1 = t2.1.1 -> i = j) ->
  tenants d !! other = Some t -> t.1.1 = name -> other = eid.
Proof.
  intros Hn Hu Ht Hname. unfold environment_of in Hn. destruct (environments d !! eid) as [e|] eqn:He.
  - apply (Hu other eid t (tenant e)); [done| |by rewrite Hname, <- Hn]. apply tenants_lookup. eauto.
  - apply tenants_lookup in Ht as (e & He' & <-). by destruct (Hn _ _ He').
Qed.

Lemma accept_keeps uuid uuids now event rows o d d' accepted : tenants_ok rows d ->
  map_get (ee_eventId event) rows = Some o -> event_fits o (ee_row event) ->
  acceptEntitlement isUuid uuid uuids now event d = Ok (d', accepted) ->
  tenants_ok rows d' /\ tenant_history d d'.
Proof.
  intros [E T U] Ho Hfits [(_ & -> & _)|(_ & Hnew & Hev & Heid & Htenants)]%accept_spec; [by split|].
  assert (events d ⊆ events d') as Hsub by (rewrite Hev; by apply insert_subseteq).
  split; split; try done.
  - intros id row. rewrite Hev. destruct (decide (ee_eventId event = id)) as [<-|].
    + rewrite lookup_insert_eq. intros [= <-]. eauto.
    + rewrite lookup_insert_ne by done. apply E.
  - intros eid t. rewrite Htenants. destruct (decide (ac_environmentId accepted = eid)) as [<-|].
    + rewrite lookup_insert_eq. intros [= <-]. exists (ee_eventId event), (ee_row event).
      by rewrite Hev, lookup_insert_eq.
    + rewrite lookup_insert_ne by done. intros (id & row & Hrow & ->)%T. exists id, row.
      split; [by eapply lookup_weaken|done].
  - assert (forall other t, tenants d !! other = Some t -> t.1.1 = ev_purchased_name (ee_row event) ->
              other = ac_environmentId accepted) as Hone.
    { intros other t Ht Hname. eapply environment_other; eauto. }
    intros eid eid' t t'. rewrite Htenants.
    destruct (decide (ac_environmentId accepted = eid)) as [<-|], (decide (ac_environmentId accepted = eid')) as [<-|];
      rewrite ?lookup_insert_eq, ?lookup_insert_ne by done; [done|..].
    + intros [= <-] Ht' Hname. symmetry. eapply Hone; [done|]. by rewrite <- Hname.
    + intros Ht [= <-] Hname. by eapply Hone.
    + apply U.
  - intros eid t Ht. rewrite Htenants. destruct (decide (ac_environmentId accepted = eid)) as [<-|].
    + exists (tenant_of (ee_row event)). rewrite lookup_insert_eq. split; [done|].
      split; [by rewrite (environment_tenant _ _ _ _ Heid Ht)|]. right.
      exists (ee_eventId event), (ee_row event). by rewrite Hev, lookup_insert_eq.
    + exists t. rewrite lookup_insert_ne by done. auto.
Qed.

Lemma internal_keeps uuid uuids now event rows o d : tenants_ok rows d ->
  map_get (ee_eventId event) rows = Some o -> event_fits o (ee_row event) ->
  tenants_ok rows (internal isUuid uuid uuids now event d).2 /\
  tenant_history d (internal isUuid uuid uuids now event d).2.
Proof.
  intros HT Ho Hfits. unfold internal. case_match; [by split|].
  destruct (acceptEntitlement _ _ _ _ _ _) as [[d' accepted]|] eqn:Ha; cbn; [by eapply accept_keeps|by split].
Qed.

(** *** The worker *)

Definition known (row : EventRow) (w : World) : Prop :=
  exists o, map_get (er_id row) (outbox (w_checkout w)) = Some o /\ ob_event_type o = er_event_type row /\
    ob_subject_id o = er_subject_id row /\ ob_purchased_name o = er_purchased_name row.

Lemma known_later row w w' : world_history w w' -> known row w -> known row w'.
Proof.
  intros [Hh _] (o & Ho & E1 & E2 & E3). destruct (hs_outbox _ _ Hh _ _ Ho) as (o' & Ho' & S1 & S2 & S3 & _).
  exists o'. split; [done|]. repeat split; congruence.
Qed.

(** A statement of the worker that keeps what the events say. *)
Lemma outbox_keeping {A} (t : tx A) :
  (forall env db a db', t env db = Gave (a, db') ->
     db' = db \/ exists p f, db' = set_outbox (update_where p f (outbox db)) db /\ forall o, same_event o (f o)) ->
  keeping_world (on_checkout A t).
Proof.
  intros Ht. apply on_checkout_keeping, keeping_gave; [apply _|]. intros time env db a db' _ Hok Hrun.
  destruct (Ht _ _ _ _ Hrun) as [->|(p & f & -> & Hf)]; [by split|]. by eapply worker_keeps.
Qed.

Lemma claim_event_keeping outboxConfig instanceId : keeping_world (on_checkout _ (claim_event outboxConfig instanceId)).
Proof.
  apply outbox_keeping. intros env db a db' Hrun. unfold claim_event in Hrun. tx_run.
  destruct (next_due (now env) db) as [row|]; tx_run; [|auto]. right. do 2 eexists. split; [reflexivity|].
  intros []; by repeat split.
Qed.
Lemma mark_delivered_keeping instanceId id : keeping_world (on_checkout _ (mark_delivered instanceId id)).
Proof.
  apply outbox_keeping. intros env db a db' Hrun. unfold mark_delivered in Hrun. tx_run. right. do 2 eexists.
  split; [reflexivity|]. intros []; by repeat split.
Qed.
Lemma mark_failed_keeping outboxConfig instanceId row error :
  keeping_world (on_checkout _ (mark_failed outboxConfig instanceId row error)).
Proof.
  apply outbox_keeping. intros env db a db' Hrun. unfold mark_failed in Hrun. tx_run. right. do 2 eexists.
  split; [reflexivity|]. intros []; by repeat split.
Qed.

Lemma claimed_known outboxConfig instanceId env w row w' : map_ok (outbox (w_checkout w)) ->
  on_checkout _ (claim_event outboxConfig instanceId) env w = Gave (Some row, w') -> known row w'.
Proof.
  intros Hok. unfold on_checkout. destruct (claim_event _ _ _ _) as [[o db']|] eqn:Hc; [|done]. intros [= -> <-].
  unfold claim_event in Hc. tx_run. destruct (next_due _ _) as [r|] eqn:Hr; tx_run; [|done].
  unfold next_due in Hr. apply head_Some_elem_of in Hr. rewrite elem_of_js_sort in Hr.
  apply list_elem_of_filter in Hr as [_ Hr]. destruct r as [id o]. unfold known. cbn [w_checkout outbox set_outbox].
  rewrite map_get_update_any. cbn [fst er_id event_of_row].
  assert (map_get id (outbox (w_checkout w)) = Some o) as -> by (by apply map_get_ok). cbn. rewrite String.eqb_refl.
  eexists. split; [reflexivity|done].
Qed.

Lemma post_safe row w : known row w -> safe_world (step (post isUuid row)) w.
Proof.
  intros Hknown. apply safe_step_from; [apply _|]. intros time env w1 a w2 _ [HR HT] HH Hpost.
  destruct (known_later _ _ _ HH Hknown) as (o & Ho & E1 & E2 & E3).
  destruct (internal_keeps (we_uuid env) (we_uuids env) (we_now env) (posted row) _ o _ HT Ho) as [K1 K2].
  { unfold event_fits, posted. cbn. by rewrite E1, E2, E3. }
  unfold post in Hpost. destruct (we_network env); injection Hpost as <- <-; by split.
Qed.

Lemma worker_turn_safe outboxConfig instanceId w : safe_world (worker_turn isUuid outboxConfig instanceId) w.
Proof.
  unfold worker_turn, outbox_turn. apply safe_step_then; [apply _|apply claim_event_keeping|].
  intros time env w1 [row|] w2 _ [HR _] _ Hclaim _; [|done].
  assert (known row w2) as Hknown by (eapply claimed_known; [apply HR|done]).
  unfold deliver. apply safe_try; [apply _| |done|].
  - apply safe_bind; [apply _|by apply post_safe|]. intros [status|e] w3 _; [|done].
    case_match; [|done]. apply safe_step, mark_delivered_keeping.
  - intros e w3 _. apply safe_step, mark_failed_keeping.
Qed.

(** ** Reachable worlds *)

Lemma world_background_keeps t w w' : world_ok t w -> world_background w w' -> world_ok t w' /\ world_history w w'.
Proof.
  intros Hok Hb. destruct Hb as [db' w Hr|rows w|d' w Hd Hev].
  - destruct (reordered_keeps uuid_of t _ _ (proj1 Hok) Hr). by apply checkout_side.
  - destruct (mails_keep uuid_of t _ rows (proj1 Hok)). by apply checkout_side.
  - destruct (quiet_step _ _ _ Hd Hev) as [Htenants Hevents]. destruct Hok as [HR [E T U]]. split; split; try done.
    + split; cbn [w_checkout w_customers]; rewrite ?Htenants, ?Hevents; done.
    + split; cbn [w_checkout w_customers]; rewrite ?Htenants, ?Hevents; [done|]. eauto.
Qed.

Lemma world_keeps pl pl' : pool_ok world_admissible world_ok world_history pl -> rtc world_step pl pl' ->
  pool_ok world_admissible world_ok world_history pl' /\ world_history (pl_db pl) (pl_db pl').
Proof.
  apply pool_keeps.
  - apply _.
  - intros A p [B q Hq|outboxConfig instanceId] w; [|apply worker_turn_safe].
    by eapply in_world_safe, service_is_safe.
  - intros t t' w Ht [HR HT]. split; [by eapply registry_ok_later|done].
  - intros t w w'. apply world_background_keeps.
Qed.

Lemma empty_world_ok t : world_ok t empty_world.
Proof. split; [apply empty_ok|]. split; intros; by rewrite ?lookup_empty in *. Qed.

Lemma world_reachable_ok t pl : rtc world_step (world_starting t) pl ->
  pool_ok world_admissible world_ok world_history pl.
Proof.
  intros Hr. apply (fun Hs => proj1 (world_keeps _ _ Hs Hr)). split; [apply empty_world_ok|].
  intros r Hin. by apply elem_of_nil in Hin.
Qed.

(** The grant and the revocation of a name in the outbox, as the names have it. *)
Lemma outbox_name db t id o : registry_ok uuid_of t db -> map_get id (outbox db) = Some o ->
  exists row, map_get (ob_purchased_name o) (names db) = Some row /\
    ob_subject_id o = coalesce_to (uuid_of (nm_owner_user_id row)) "" /\
    (ob_event_type o = Revoked -> nm_status row = NameRevoked).
Proof.
  intros Hok Ho. assert ((ob_event_type o, ob_subject_id o) ∈ events_of (ob_purchased_name o) (outbox db)) as Hin.
  { unfold events_of. apply list_elem_of_fmap. exists (id, o). split; [done|]. apply list_elem_of_filter.
    split; [done|]. by apply map_get_elem. }
  rewrite (ok_events _ _ _ Hok) in Hin. destruct (map_get _ (names db)) as [row|]; [|by apply elem_of_nil in Hin].
  exists row. split; [done|]. cbn in Hin. apply elem_of_cons in Hin as [[= H1 H2]|Hin].
  - by rewrite H1, H2.
  - destruct (nm_status row); [by apply elem_of_nil in Hin|]. apply list_elem_of_singleton in Hin as [= H1 H2].
    by rewrite H1, H2.
Qed.

(** C8: Every tenant comes from a purchase.  In every world the two services can reach, whatever
    calls the network lost and whatever was retried, an environment is for a name that was sold,
    its owner is the owner of the name, it is suspended only if the name was revoked, and a name
    has one environment. *)
Theorem tenants_follow_purchases (t : Z) (pl : pool WorldEnv World failure)
    (Hreach : rtc world_step (world_starting t) pl) (eid : string) (e : Environment)
    (Henvironment : environments (w_customers (pl_db pl)) !! eid = Some e) :
  (exists row, map_get (en_purchased_name e) (names (w_checkout (pl_db pl))) = Some row /\
     en_owner_subject_id e = coalesce_to (uuid_of (nm_owner_user_id row)) "" /\
     (en_desired_state e = DesiredSuspended -> nm_status row = NameRevoked)) /\
  (forall eid' e', environments (w_customers (pl_db pl)) !! eid' = Some e' ->
     en_purchased_name e' = en_purchased_name e -> eid' = eid).
Proof.
  apply world_reachable_ok in Hreach as [[HR [E T U]] _].
  assert (tenants (w_customers (pl_db pl)) !! eid = Some (tenant e)) as Ht by (apply tenants_lookup; eauto).
  split.
  - destruct (T _ _ Ht) as (id & row & Hrow & [= Hn Ho Hd]). destruct (E _ _ Hrow) as (o & Hout & F1 & F2 & F3).
    destruct (outbox_name _ _ _ _ HR Hout) as (name & Hname & Hsubject & Hrevoked). exists name.
    rewrite Hn, F3. split; [done|]. split; [congruence|]. rewrite Hd, F1. destruct (ob_event_type o); [done|auto].
  - intros eid' e' He' Hname. apply (U eid' eid (tenant e') (tenant e)); [apply tenants_lookup; eauto|done|done].
Qed.

(** A name is granted by one event. *)
Lemma two_rows {A} (x y : A) l : x ∈ l -> y ∈ l -> x <> y -> exists rest, l ≡ₚ x :: y :: rest.
Proof.
  intros (l1 & Hl1)%elem_of_Permutation Hy Hxy. rewrite Hl1 in Hy. apply elem_of_cons in Hy as [|Hy]; [congruence|].
  apply elem_of_Permutation in Hy as (l2 & Hl2). exists l2. by rewrite Hl1, Hl2.
Qed.

Lemma granted_once t db id id' o o' : registry_ok uuid_of t db ->
  map_get id (outbox db) = Some o -> map_get id' (outbox db) = Some o' ->
  ob_event_type o = Granted -> ob_event_type o' = Granted -> ob_purchased_name o' = ob_purchased_name o -> id' = id.
Proof.
  intros Hok Ho Ho' G G' Hname. destruct (decide (id' = id)) as [|Hne]; [done|]. exfalso.
  destruct (two_rows (id, o) (id', o') (outbox db)) as (rest & Hrest); [by apply map_get_elem..|congruence|].
  pose proof (ok_events _ _ _ Hok (ob_purchased_name o)) as Hev. rewrite (events_of_perm _ _ _ Hrest) in Hev.
  unfold events_of in Hev. rewrite !filter_cons in Hev. cbn [fst snd] in Hev.
  rewrite decide_True, decide_True in Hev by done. cbn [fmap list_fmap fst snd] in Hev. rewrite G, G' in Hev.
  assert (forall l l' : list (PlatformEventType * string), l ≡ₚ l' ->
    length (base.filter (fun p => p.1 = Granted) l) = length (base.filter (fun p => p.1 = Granted) l')) as Hlen
    by (intros l l' Hp; by rewrite Hp).
  apply Hlen in Hev. destruct (map_get _ (names db)) as [row|]; [|done]. unfold expected_events in Hev.
  destruct (nm_status row); rewrite !filter_cons in Hev; repeat (case_decide; cbn in *; try congruence); lia.
Qed.

Lemma type_of_granted t : type_of t = PurchaseGranted -> t = Granted.
Proof. by destruct t. Qed.

(** C21: A suspension lasts.  When the customer API has accepted the grant of a name, and its
    environment is suspended, it stays suspended whatever happens later, and nobody is authorized
    to use any of its components. *)
Theorem suspension_lasts (t : Z) (pl pl' : pool WorldEnv World failure)
    (Hreach : rtc world_step (world_starting t) pl) (Hlater : rtc world_step pl pl')
    (eid : string) (e : Environment) (granted : string) (row : EntitlementRow)
    (Henvironment : environments (w_customers (pl_db pl)) !! eid = Some e)
    (Hsuspended : en_desired_state e = DesiredSuspended)
    (Hgrant : events (w_customers (pl_db pl)) !! granted = Some row)
    (Htype : ev_event_type row = PurchaseGranted) (Hname : ev_purchased_name row = en_purchased_name e) :
  (exists e', environments (w_customers (pl_db pl')) !! eid = Some e' /\ en_desired_state e' = DesiredSuspended) /\
  forall subject component actions,
    exists message, authorize subject eid component actions (w_customers (pl_db pl')) = Throw message.
Proof.
  apply world_reachable_ok in Hreach. destruct (world_keeps _ _ Hreach Hlater) as [[[HR [E _ _]] _] [_ [Hsub Hth]]].
  assert (exists e', environments (w_customers (pl_db pl')) !! eid = Some e' /\
            en_desired_state e' = DesiredSuspended) as (e' & He' & Hs').
  { destruct (Hth eid (tenant e)) as (t' & Ht' & Hn & Hcase); [apply tenants_lookup; eauto|].
    apply tenants_lookup in Ht' as (e' & He' & <-). exists e'. split; [done|].
    destruct Hcase as [[= _ _ Hd]|(id & row' & Hnew & Hrow' & [= H1 _ H3])]; [congruence|].
    rewrite H3. destruct (ev_event_type row') eqn:Htype'; [exfalso|done].
    destruct (E _ _ (lookup_weaken _ _ _ _ Hgrant Hsub)) as (o & Ho & F1 & _ & F3).
    destruct (E _ _ Hrow') as (o' & Ho' & F1' & _ & F3').
    assert (id = granted) as ->; [|congruence]. cbn in Hn.
    eapply granted_once; [done|exact Ho|exact Ho'| | |congruence].
    - apply type_of_granted. congruence.
    - apply type_of_granted. congruence. }
  split; [eauto|]. intros subject component actions. unfold authorize. rewrite He'.
  destruct (memberships _ !! _) as [role|]; [|eauto]. destruct (Directory.components _ !! _) as [c|]; [|eauto].
  destruct (membershipAllows _ _ _); [|by eauto]. cbn [throw_if negb mbind result_bind].
  rewrite (bool_decide_false (en_desired_state e' = DesiredReady)) by congruence. cbn [negb]. rewrite orb_true_r.
  by eexists.
Qed.
End World.

(** ** One turn of the worker *)

Section Turn.
Context (isUuid : string -> bool) (outboxConfig : OutboxConfig) (instanceId : string).

(** What the customer API answers when an event arrives. *)
Definition answer_of (env : WorldEnv) (w : World) (row : string * OutboxRow) : Z * Directory :=
  internal isUuid (we_uuid env) (we_uuids env) (we_now env) (posted (event_of_row row)) (w_customers w).
Definition succeeds (status : Z) : bool := (200 <=? status) && (status <=? 299).

(** What becomes of the row. *)
Definition settled (env : WorldEnv) (w : World) (row : string * OutboxRow) (error : string) (o : OutboxRow) : OutboxRow :=
  let t := now (we_checkout env) in
  let attempts := ob_attempts row.2 + 1 in
  let sent := sending_row outboxConfig instanceId t o in
  let failed := failed_row t (if MAX_ATTEMPTS outboxConfig <=? attempts then OutDead else OutPending)
                  (delay_seconds attempts) (string_take 1000 error) sent in
  match we_network env with
  | Works => if succeeds (answer_of env w row).1 then delivered_row t sent else failed
  | _ => failed
  end.

Lemma settle_where (id : string) (f g : OutboxRow -> OutboxRow) rows :
  (forall o, ob_lease_owner (f o) = Some instanceId) ->
  update_where (leased instanceId id) g (update_where (fun r => String.eqb r.1 id) f rows) =
    update_where (fun r => String.eqb r.1 id) (fun o => g (f o)) rows.
Proof.
  intros Hf. unfold update_where, leased. rewrite <- list_fmap_compose. apply list_fmap_ext. intros i [k o] _. cbn.
  destruct (String.eqb_spec k id) as [->|Hk]; cbn; [by rewrite String.eqb_refl, Hf, bool_decide_true|].
  by rewrite (proj2 (String.eqb_neq _ _) Hk).
Qed.

Lemma accepted_event env w row : succeeds (answer_of env w row).1 = true ->
  events (answer_of env w row).2 !! row.1 = Some (ee_row (posted (event_of_row row))).
Proof.
  unfold answer_of, internal. case_match; [done|].
  destruct (acceptEntitlement _ _ _ _ _ _) as [[d' accepted]|] eqn:Ha; [|by case_match]. intros _. cbn [fst snd].
  destruct (accept_spec _ _ _ _ _ _ _ _ Ha) as [(_ & -> & Hrow)|(_ & _ & -> & _)]; [exact Hrow|apply lookup_insert_eq].
Qed.

(** The checkout after [claim_event] took the row with this key. *)
Definition sent (t : Z) (id : string) (db : Db) : Db :=
  set_outbox (update_where (fun r => String.eqb r.1 id) (sending_row outboxConfig instanceId t) (outbox db)) db.

Lemma mark_sent t id g db :
  set_outbox (update_where (leased instanceId id) g (outbox (sent t id db))) (sent t id db) =
    set_outbox (update_where (fun r => String.eqb r.1 id) (fun o => g (sending_row outboxConfig instanceId t o))
                  (outbox db)) db.
Proof. unfold sent. cbn [outbox set_outbox]. by rewrite settle_where. Qed.

Lemma mark_delivered_performed id env db : perform (mark_delivered instanceId id) env db =
  (Gave tt, set_outbox (update_where (leased instanceId id) (delivered_row (now env)) (outbox db)) db).
Proof. done. Qed.
Lemma mark_failed_performed row error env db : perform (mark_failed outboxConfig instanceId row error) env db =
  (Gave tt, set_outbox (update_where (leased instanceId (er_id row))
     (failed_row (now env) (if MAX_ATTEMPTS outboxConfig <=? er_attempts row + 1 then OutDead else OutPending)
        (delay_seconds (er_attempts row + 1)) (string_take 1000 error)) (outbox db)) db).
Proof. done. Qed.

(** One turn of an outbox worker takes the oldest event that is due to the customer API.  When
    the API answers that it has the event, it does, and the row is delivered; on any other answer,
    and when a request or an answer was lost, the row is to be sent again after a while, or dead
    after too many attempts.  The API acts on the event unless the request was lost; no other row
    and no other table of the checkout changes. *)
Theorem deliveries_are_settled (env : WorldEnv) (w : World) (row : string * OutboxRow)
    (Hdue : next_due (now (we_checkout env)) (w_checkout w) = Some row) :
  (exists error db', alone (fun _ => env) (worker_turn isUuid outboxConfig instanceId) w =
     (Gave tt, {| w_checkout := db';
                  w_customers := match we_network env with RequestLost => w_customers w | _ => (answer_of env w row).2 end |}) /\
     db' = set_outbox (update_where (fun r => String.eqb r.1 row.1) (settled env w row error)
                         (outbox (w_checkout w))) (w_checkout w)) /\
  (succeeds (answer_of env w row).1 = true ->
     events (answer_of env w row).2 !! row.1 = Some (ee_row (posted (event_of_row row)))).
Proof.
  split; [|apply accepted_event]. unfold worker_turn, outbox_turn. rewrite alone_bind, perform_on_checkout.
  assert (perform (claim_event outboxConfig instanceId) (we_checkout env) (w_checkout w) =
            (Gave (Some (event_of_row row)), sent (now (we_checkout env)) row.1 (w_checkout w))) as ->.
  { unfold perform, claim_event, mbind, txn_bind, ask, select. by rewrite Hdue. }
  cbn [fst snd]. unfold deliver, settled, succeeds. cbn -[string_take internal].
  change (internal isUuid (we_uuid env) (we_uuids env) (we_now env) (posted (event_of_row row)) (w_customers w))
    with (answer_of env w row). unfold perform, post. cbn -[string_take internal].
  change (internal isUuid (we_uuid env) (we_uuids env) (we_now env) (posted (event_of_row row)) (w_customers w))
    with (answer_of env w row).
  destruct (we_network env); cbn -[string_take internal]; [destruct (andb _ _)|..]; cbn -[string_take internal];
    rewrite perform_on_checkout, ?mark_delivered_performed, ?mark_failed_performed;
    cbn -[string_take internal answer_of sent update_where];
    first [eexists "", _; (split; [reflexivity|]); apply mark_sent | eexists _, _; (split; [reflexivity|]); apply mark_sent].
Qed.
End Turn.
