(* ===== verification/CheckoutSample.v ===== *)
(** * The checkout at work

    Concrete requests of the checkout and of the customer API behind it: the theorems applied
    to them, and what modelling showed. *)

From S2P Require Import Prelude Contracts Json Directory Movement Provisioning Customers Placement Programs Tables Checkout Names NamesFacts Register Subscriptions Webhooks Outbox CheckoutSystem NamesJourney BillingFacts Tenants Entitlements.
From stdpp Require Import relations.
From Stdlib Require Import QArith.QArith.

Open Scope stdpp_scope.
Open Scope js_scope.
Local Open Scope Z_scope.

(** ** The surroundings *)

Definition sample_config : NameServiceConfig :=
  {| PUBLIC_BASE_URL := "https://checkout.test"; NAME_PRICE_EUR := (12 # 1)%Q; NAME_HOLD_TTL_HOURS := 48;
     NAME_RESERVATION_TTL_MINUTES := 30 |}.
Definition sample_settings : QueueSettings := {| qs_maxAttempts := 5 |}.
Definition sample_hash (s : string) : string := "h:" +:+ s.
Definition sample_verify (_ : option json) (_ _ signature : string) : Verdict :=
  if String.eqb signature "good" then Verified else NotVerified.

Definition sample_provider : PaymentProvider := {|
  createCheckout := fun input => Gave {| cs_checkoutId := "co-" +:+ ci_name input; cs_checkoutUrl := "pay" |};
  ensureProducts := Gave [("aven-ceo", "product-1")];
  createSubscriptionCheckout := fun input => Gave {| cs_checkoutId := "sub-checkout"; cs_checkoutUrl := "pay-sub" |};
  cancelSubscription := fun _ _ => Gave tt;
  pauseSubscription := fun _ => Gave tt;
  resumeSubscription := fun _ _ => Gave tt;
  findCustomerByEmail := fun _ => Gave None;
  listOrders := fun _ => Gave [];
  orderInvoiceUrl := fun _ => Threw (OtherError "none");
  checkoutStatus := fun _ => Gave "open" |}.

(** Surroundings at a time, in milliseconds; [tag] makes the fresh identifiers. *)
Definition token_of (tag : string) : string := "0123456789abcdef" +:+ tag.
Definition sample_env (ms : Z) (tag : string) : Env :=
  {| now := js_date ms; clock_timestamp := js_date ms; date_now := ms;
     randomUUID := fun n => match n with 0%nat => tag | _ => tag +:+ "-mail" end;
     randomToken := token_of tag;
     provisionAccount := fun email _ => Gave {| pa_id := "account of " +:+ email; pa_email := email; pa_setupUrl := None |};
     payments := sample_provider |}.

Definition no_origin : HoldOrigin := {| og_tier := None; og_salutation := None; og_idea := None |}.

(** ** Requests, one after the other *)

Definition sample_service : forall A : Type, program A -> Prop :=
  checkout_service sample_config sample_settings sample_hash Some (fun _ => "") (fun _ held => held <? 1) (fun _ => None)
    string_cmp sample_verify.
Definition sample_step : pool Env Db failure -> pool Env Db failure -> Prop :=
  checkout_step sample_config sample_settings sample_hash Some (fun _ => "") (fun _ held => held <? 1) (fun _ => None)
    string_cmp sample_verify.

(** The identifier is on no request of the log. *)
Definition fresh_id (id : string) (db : Db) : bool :=
  forallb (fun row => match nth_error (au_metadata row) 1 with
                      | Some (_, JString id') => negb (String.eqb id' id)
                      | _ => true
                      end) (audit db).
Definition check_admissible (time : Z) (env : Env) (db : Db) : bool :=
  (now env <=? time) && fresh_id (randomUUID env 0) db.

Lemma check_admissible_sound time env db : check_admissible time env db = true -> admissible time env db.
Proof.
  unfold check_admissible, fresh_id. rewrite andb_true_iff, Z.leb_le, forallb_forall. intros [Ht Hall].
  split; [done|]. intros name (tier & t & Hrow). apply list_elem_of_In in Hrow. specialize (Hall _ Hrow).
  cbn in Hall. by rewrite String.eqb_refl in Hall.
Qed.

(** ** A purchase and its refund *)

Definition ask_for (name email : string) (origin : HoldOrigin) : program NameHoldResult :=
  secure sample_config sample_settings sample_hash (fun _ => "") name email origin.
Definition follow (tag : string) : program Claimed := claim sample_config sample_hash (token_of tag).
Definition paid_event (id name : string) : PaymentEvent :=
  {| pe_id := id; pe_type := "order.paid"; pe_checkoutId := Some ("co-" +:+ name); pe_orderId := Some id;
     pe_email := Some "Buyer@Example.org"; pe_amountEur := Some (12 # 1)%Q;
     pe_metadata := [("name", JString name); ("holdId", JString ("hold-" +:+ name))] |}.

(** The call of the provider that says so, as the parser reads it. *)
Definition paid_body (id name : string) : json := JObject [
  ("type", JString "order.paid");
  ("data", JObject [("id", JString id); ("checkout_id", JString ("co-" +:+ name));
     ("customer", JObject [("email", JString "Buyer@Example.org")]);
     ("total_amount", JNumber 1200);
     ("metadata", JObject [("name", JString name); ("holdId", JString ("hold-" +:+ name))])])].
Definition refund_body (id name : string) : json := JObject [
  ("type", JString "refund.created");
  ("data", JObject [("id", JString id); ("order_id", JString ("order-" +:+ name));
     ("metadata", JObject [("name", JString name)])])].
Definition headers (id : string) : Headers :=
  {| hd_id := Some id; hd_timestamp := Some "1"; hd_signature := Some "good"; hd_content_type := None;
     hd_user_agent := None |}.
Definition webhook (delivery : string) (body : json) : program Response :=
  POST sample_config sample_settings Some (fun _ => None) sample_verify (Some body) (headers delivery).

Definition buyer : string := "account of buyer@example.org".
Definition hour : Z := 3600000.

Definition purchase : list (request Env Db failure) := [
  Request (ask_for "Alice " "buyer@example.org" no_origin) (sample_env 0 "r1");
  Request (follow "r1") (sample_env hour "c1");
  Request (webhook "d1" (paid_body "order-alice" "alice")) (sample_env (2 * hour) "g1")].
Definition refund : list (request Env Db failure) := [
  Request (webhook "d2" (refund_body "refund-1" "alice")) (sample_env (3 * hour) "v1")].
Definition the_end : Z := js_date (1000 * hour).

Ltac serve := repeat constructor.

Example purchase_grants : nm_owner_user_id <$> map_get "alice" (names (run_all purchase empty_db)) = Some buyer.
Proof. vm_compute. reflexivity. Qed.
Example refund_revokes :
  nm_status <$> map_get "alice" (names (run_all (purchase ++ refund) empty_db)) = Some NameRevoked.
Proof. vm_compute. reflexivity. Qed.

(** What these requests lead to. *)
Definition after (requests : list (request Env Db failure)) : Db := run_all requests empty_db.

Lemma after_reachable requests more : Forall (served sample_service) (requests ++ more) ->
  all_along check_admissible the_end requests empty_db = true -> all_along check_admissible the_end more (after requests) = true ->
  exists pl pl', pl_db pl = after requests /\ pl_db pl' = run_all more (after requests) /\
    rtc sample_step (starting the_end) pl /\ rtc sample_step pl pl'.
Proof.
  intros [Hs Hs']%Forall_app Ha Ha'.
  destruct (requests_reachable admissible sample_service checkout_background _ check_admissible_sound the_end requests empty_db [] Hs Ha) as (work & H1).
  destruct (requests_reachable admissible sample_service checkout_background _ check_admissible_sound the_end more _ work Hs' Ha') as (work' & H2).
  do 2 eexists. split; [|split; [|split; [exact H1|exact H2]]]; done.
Qed.

Lemma refund_served : Forall (served sample_service) (purchase ++ refund).
Proof. serve. Qed.
Lemma purchase_along : all_along check_admissible the_end purchase empty_db = true.
Proof. vm_compute. reflexivity. Qed.
Lemma refund_along : all_along check_admissible the_end refund (after purchase) = true.
Proof. vm_compute. reflexivity. Qed.

Definition after_refund : Db := run_all refund (after purchase).

Lemma refund_reachable : exists pl pl', pl_db pl = after purchase /\ pl_db pl' = after_refund /\
  rtc sample_step (starting the_end) pl /\ rtc sample_step pl pl'.
Proof. exact (after_reachable _ _ refund_served purchase_along refund_along). Qed.

Lemma register_is_consistent_witness :
  map_has "alice" (names after_refund) = true /\
  forall name, events_of name (outbox after_refund) ≡ₚ expected_events Some (map_get name (names after_refund)).
Proof.
  split; [vm_compute; reflexivity|].
  destruct refund_reachable as (pl & pl' & _ & E2 & H1 & H2).
  rewrite <- E2.
  exact (proj2 (proj2 (proj2 (register_is_consistent _ _ _ _ _ _ _ _ _ _ _ (transitivity H1 H2))))).
Defined.

Lemma names_are_permanent_witness : exists row row', map_get "alice" (names (after purchase)) = Some row /\
  map_get "alice" (names after_refund) = Some row' /\ nm_status row' = NameRevoked /\
  nm_owner_user_id row' = nm_owner_user_id row.
Proof.
  destruct refund_reachable as (pl & pl' & E1 & E2 & H1 & H2).
  assert (exists row, map_get "alice" (names (after purchase)) = Some row) as (row & Hrow)
    by (eexists; vm_compute; reflexivity).
  assert (forall row', map_get "alice" (names after_refund) = Some row' -> nm_status row' = NameRevoked) as Hrevoked
    by (intros row'; vm_compute; by intros [= <-]).
  destruct (names_are_permanent _ _ _ _ _ _ _ _ _ _ _ _ H1 H2) as [Hnames _].
  rewrite E1, E2 in Hnames. destruct (Hnames "alice" row Hrow) as (row' & Hrow' & Ho & _).
  exists row, row'. auto.
Defined.

(** The same order once more, with another delivery, after the refund. *)
Lemma payment_events_apply_once_witness :
  (perform (grant_transaction sample_config sample_settings Some (paid_event "order-alice" "alice") "alice")
     (sample_env (4 * hour) "x") after_refund).1 = Gave false /\
  is_Some (payment_events after_refund !! "order-alice").
Proof.
  destruct refund_reachable as (pl & pl' & E1 & E2 & H1 & H2).
  assert (is_Some (payment_events (after purchase) !! "order-alice")) as Hseen by (vm_compute; eauto).
  split; [|vm_compute; eauto]. rewrite <- E1 in Hseen. rewrite <- E2.
  exact (f_equal fst (proj1 (payment_events_apply_once sample_config sample_settings _ _ _ _ _ _ _ _ _ _
    (paid_event "order-alice" "alice") "alice" H1 H2 Hseen (sample_env (4 * hour) "x")))).
Defined.

Lemma purchase_completes_witness : exists db row,
  (alone (fun _ => sample_env (2 * hour) "g1")
     (grantFromEvent sample_config sample_settings Some (paid_event "order-alice" "alice"))
     (after (take 2 purchase))) = (Gave true, db) /\
  names db = [("alice", row)] /\ nm_owner_user_id row = buyer.
Proof.
  destruct (purchase_completes sample_config sample_settings sample_hash Some (fun _ => "")
    "Alice " "alice" "buyer@example.org" no_origin (paid_event "order-alice" "alice")
    {| pa_id := buyer; pa_email := "buyer@example.org"; pa_setupUrl := None |}
    (sample_env 0 "r1") (sample_env hour "c1") (sample_env (2 * hour) "g1") empty_db _ _ _ _ _ _
    (surjective_pairing _) (surjective_pairing _) (surjective_pairing _)) as (_ & _ & H3 & row & H4 & H5 & _).
  - vm_compute. reflexivity.
  - vm_compute. reflexivity.
  - vm_compute. reflexivity.
  - vm_compute. reflexivity.
  - intros r Hr. by apply elem_of_nil in Hr.
  - vm_compute. reflexivity.
  - vm_compute. reflexivity.
  - unfold clocks_agree. vm_compute. discriminate.
  - vm_compute. reflexivity.
  - intros r Hr. by apply elem_of_nil in Hr.
  - intros r Hr _. revert r Hr. apply Forall_forall. vm_compute. repeat constructor; discriminate.
  - intros input. eexists. reflexivity.
  - vm_compute. reflexivity.
  - split; try (vm_compute; reflexivity); try (vm_compute; discriminate).
    + intros r Hr. vm_compute in Hr. by apply elem_of_nil in Hr.
    + vm_compute. eauto.
    + exists "g1". split; vm_compute; reflexivity.
  - eexists _, row. split; [|split; [exact H4|exact H5]]. cbn [after]. rewrite <- H3. apply surjective_pairing.
Defined.

(** The name is taken, and another checkout was paid for it. *)
Definition second_payment : PaymentEvent :=
  {| pe_id := "order-late"; pe_type := "order.paid"; pe_checkoutId := Some "co-other"; pe_orderId := None;
     pe_email := None; pe_amountEur := None; pe_metadata := [("name", JString "alice")] |}.
Lemma payments_are_decided_witness :
  let run := alone (fun _ => sample_env (5 * hour) "g2")
    (grantFromEvent sample_config sample_settings Some second_payment) (after purchase) in
  run.1 = Gave false /\ map_has "alice" (names run.2) = true /\ is_Some (payment_events run.2 !! "order-late").
Proof.
  destruct (payments_are_decided sample_config sample_settings Some second_payment
    (sample_env (5 * hour) "g2") (after purchase) "alice" ltac:(vm_compute; reflexivity)) as (_ & _ & _ & H).
  assert (exists row, map_get "alice" (names (after purchase)) = Some row) as (row & Hrow)
    by (eexists; vm_compute; reflexivity).
  assert (payment_events (after purchase) !! "order-late" = None) as Hnew by (vm_compute; reflexivity).
  destruct (proj1 (H ltac:(discriminate) ltac:(discriminate) Hnew) row Hrow) as (H1 & H2 & _ & _ & _ & H3 & _).
  cbn zeta. rewrite H2. split; [exact H1|]. split; [vm_compute; reflexivity|exact H3].
Defined.

(** ** What the sample shows *)

(** An address asks for two names before it owns one: both links reserve, both payments grant,
    and one account owns two names. *)
Definition two_purchases : list (request Env Db failure) := [
  Request (ask_for "alpha" "buyer@example.org" no_origin) (sample_env 0 "r1");
  Request (ask_for "bravo" "buyer@example.org" no_origin) (sample_env 1 "r2");
  Request (follow "r1") (sample_env 2 "c1");
  Request (follow "r2") (sample_env 3 "c2");
  Request (webhook "d1" (paid_body "order-1" "alpha")) (sample_env 4 "g1");
  Request (webhook "d2" (paid_body "order-2" "bravo")) (sample_env 5 "g2")].
Lemma two_names_of_one_account :
  (fun row => (row.1, nm_owner_user_id row.2)) <$> names (after two_purchases) =
    [("alpha", buyer); ("bravo", buyer)].
Proof. vm_compute. reflexivity. Qed.

(** A link is followed a minute before it expires, so that the name is reserved for half an hour;
    ten minutes later somebody looks at the name, which drops the hold: the name is free again,
    while the buyer pays. *)
Definition late_claim : list (request Env Db failure) := [
  Request (ask_for "alice" "buyer@example.org" no_origin) (sample_env 0 "r1");
  Request (follow "r1") (sample_env (48 * hour - 60000) "c1")].
Lemma reservation_dropped_with_its_link :
  let env := sample_env (48 * hour + 600000) "x" in
  existsb (is_reserved "alice" (now env)) (name_holds (after late_claim)) = true /\
  exists db, alone (fun _ => env) (availability sample_config "alice") (after late_claim) =
    (Gave (baseAvailability sample_config "alice"), db) /\ name_holds db = [].
Proof. cbn zeta. split; [vm_compute; reflexivity|]. eexists. split; vm_compute; reflexivity. Qed.

(** ** Subscriptions *)

Definition sample_subscribe (user : User) : program string :=
  subscribe "https://checkout.test" (fun _ held => held <? 1) user "aven-ceo" None None.
Definition owner : User := {| us_id := buyer; us_email := "buyer@example.org" |}.
Definition provider_down : PaymentProvider := {|
  createCheckout := createCheckout sample_provider; ensureProducts := Threw (OtherError "provider is down");
  createSubscriptionCheckout := createSubscriptionCheckout sample_provider;
  cancelSubscription := cancelSubscription sample_provider; pauseSubscription := pauseSubscription sample_provider;
  resumeSubscription := resumeSubscription sample_provider; findCustomerByEmail := findCustomerByEmail sample_provider;
  listOrders := listOrders sample_provider; orderInvoiceUrl := orderInvoiceUrl sample_provider;
  checkoutStatus := checkoutStatus sample_provider |}.
Definition with_payments (p : PaymentProvider) (env : Env) : Env :=
  {| now := now env; clock_timestamp := clock_timestamp env; date_now := date_now env; randomUUID := randomUUID env;
     randomToken := randomToken env; provisionAccount := provisionAccount env; payments := p |}.

Example owner_subscribes :
  (alone (fun _ => sample_env (5 * hour) "x") (sample_subscribe owner) (after purchase)).1 = Gave "pay-sub".
Proof. vm_compute. reflexivity. Qed.

(** The provider is down once, when the products are first asked for: every later subscription
    fails, although the provider works. *)
Lemma one_failure_is_remembered :
  let down := alone (fun _ => with_payments provider_down (sample_env (5 * hour) "x")) (sample_subscribe owner)
                (after purchase) in
  down.1 = Threw (OtherError "provider is down") /\
  (alone (fun _ => sample_env (6 * hour) "y") (sample_subscribe owner) down.2).1 =
    Threw (OtherError "provider is down").
Proof. cbn zeta. split; vm_compute; reflexivity. Qed.

(** A user who has no name and no subscription is no customer of the checkout: the provider opens
    the checkout, and then the foreign key is violated. *)
Lemma first_subscription_without_a_name :
  (alone (fun _ => sample_env 0 "x")
     (sample_subscribe {| us_id := "new user"; us_email := "new@example.org" |}) (after purchase)).1 =
    Threw (foreign_key_violation "billing_checkouts").
Proof. vm_compute. reflexivity. Qed.

(** A subscription ends and another begins; then a late event of the first is processed.  The
    first counts as the latest, so the standing one cannot be cancelled. *)
Definition subscription_event (id status type : string) : SubscriptionEvent :=
  {| se_id := id; se_type := type; se_providerSubscriptionId := id; se_providerCustomerId := None;
     se_email := Some "buyer@example.org"; se_userId := None; se_tier := Some "aven-ceo"; se_status := status;
     se_currentPeriodEnd := None; se_cancelAtPeriodEnd := false; se_pauseAtPeriodEnd := None;
     se_priceCents := Some 2900 |}.
Definition mirrored (id status : string) (ms : Z) (tag : string) (db : Db) : Db :=
  (alone (fun _ => sample_env ms tag)
     (applyEvent (fun _ => None) (subscription_event id status "subscription.updated")) db).2.
Definition late_event : Db :=
  mirrored "s1" "canceled" 3 "k3" (mirrored "s2" "active" 2 "k2" (mirrored "s1" "canceled" 1 "k1" empty_db)).
Lemma late_event_hides_the_subscription :
  count_live buyer "aven-ceo" late_event = 1 /\
  (alone (fun _ => sample_env 4 "x") (Subscriptions.cancel buyer "aven-ceo" false) late_event).1 =
    Threw (missing "There is no active subscription.") /\
  (alone (fun _ => sample_env 4 "x") (me string_cmp buyer) late_event).1 =
    Gave [{| st_tier := "aven-ceo"; st_status := "canceled"; st_priceEurCents := 2900; st_currentPeriodEnd := None;
             st_cancelAtPeriodEnd := false; st_pauseAtPeriodEnd := false |}].
Proof. repeat split; vm_compute; reflexivity. Qed.

Lemma subscription_events_converge_witness :
  let event := subscription_event "s1" "active" "subscription.active" in
  let env := sample_env 1 "k1" in
  let first := perform (apply_transaction (fun _ => None) event) env empty_db in
  first.1 = Gave true /\
  exists db, perform (apply_transaction (fun _ => None) event) (sample_env 2 "k2") first.2 = (Gave true, db) /\
    length (subscriptions db) = 1%nat.
Proof.
  cbn zeta.
  destruct (subscription_events_converge (fun _ => None) (subscription_event "s1" "active" "subscription.active")
    (sample_env 1 "k1") (sample_env 2 "k2") empty_db
    (perform (apply_transaction (fun _ => None) (subscription_event "s1" "active" "subscription.active"))
       (sample_env 1 "k1") empty_db).2 ltac:(vm_compute; reflexivity) eq_refl) as (cs & ss & a & H & _ & Hs).
  split; [vm_compute; reflexivity|]. eexists. split; [exact H|]. cbn.
  transitivity (length (prod_map id unstamped <$> ss)); [by rewrite length_fmap|]. rewrite Hs. vm_compute. reflexivity.
Defined.

(** A provider that answers as the sample for the subscription s1, and refuses for any other. *)
Definition other_provider : PaymentProvider := {|
  createCheckout := createCheckout sample_provider; ensureProducts := ensureProducts sample_provider;
  createSubscriptionCheckout := createSubscriptionCheckout sample_provider;
  cancelSubscription := fun id immediate => if String.eqb id "s1" then Gave tt else Threw (OtherError "no");
  pauseSubscription := pauseSubscription sample_provider;
  resumeSubscription := resumeSubscription sample_provider; findCustomerByEmail := findCustomerByEmail sample_provider;
  listOrders := listOrders sample_provider; orderInvoiceUrl := orderInvoiceUrl sample_provider;
  checkoutStatus := checkoutStatus sample_provider |}.
Lemma actions_concern_own_subscriptions_witness :
  let db := mirrored "s1" "active" 1 "k1" empty_db in
  alone (fun _ => sample_env 2 "x") (Subscriptions.cancel buyer "aven-ceo" false) db =
    alone (fun _ => with_payments other_provider (sample_env 2 "x")) (Subscriptions.cancel buyer "aven-ceo" false) db.
Proof.
  cbn zeta.
  refine (proj1 (actions_concern_own_subscriptions owner (mirrored "s1" "active" 1 "k1" empty_db)
    (sample_env 2 "x") (with_payments other_provider (sample_env 2 "x")) _ "aven-ceo" "" false)).
  split; try done. intros row immediate Hrow _.
  assert (row.1 = "s1") as ->; [|done]. revert row Hrow. apply Forall_forall. vm_compute. by repeat constructor.
Defined.

(** The call of the purchase once more. *)
Lemma calls_are_answered_witness :
  (alone (fun _ => sample_env (3 * hour) "x") (webhook "d1" (paid_body "order-alice" "alice")) (after purchase)).1 =
    Gave {| rp_status := 200; rp_body := [("received", JBool true); ("replay", JBool true)] |}.
Proof.
  destruct (calls_are_answered sample_config sample_settings Some (fun _ => None) sample_verify
    (sample_env (3 * hour) "x") (after purchase) (headers "d1")) as (_ & _ & H).
  assert (exists event, parsePolarEvent (Some (paid_body "order-alice" "alice")) = Gave event /\
    exists row, deliveries (after purchase) !! "d1" = Some row /\ dl_state row = Processed /\
      same_call (paid_body "order-alice" "alice") event row) as (event & Hevent & row & Hrow & Hs & Hsame).
  { eexists. split; [vm_compute; reflexivity|]. eexists. split; [vm_compute; reflexivity|].
    split; [vm_compute; reflexivity|]. split; [vm_compute; reflexivity|]. split; [vm_compute; reflexivity|].
    apply isDeepStrictEqual_spec. vm_compute. reflexivity. }
  specialize (H (paid_body "order-alice" "alice") event "d1" "1" "good"). cbv zeta in H.
  rewrite Hrow, Hs in H. refine (f_equal fst (proj2 (H _ _ _ _ Hevent) Hsame)); vm_compute; reflexivity.
Defined.

(** The payment cannot be processed at first, and is refunded before the provider calls again: the
    refund finds no name, and counts as processed; then the name is granted for good. *)
Definition refund_first : list (request Env Db failure) :=
  take 2 purchase ++ refund ++ [Request (webhook "d1" (paid_body "order-alice" "alice")) (sample_env (4 * hour) "g1")].
Lemma refund_overtakes_the_payment :
  nm_status <$> map_get "alice" (names (after refund_first)) = Some NameOwned /\
  dl_state <$> deliveries (after refund_first) !! "d2" = Some Processed.
Proof. split; vm_compute; reflexivity. Qed.

(** * Purchases that become tenants

    Runs of the two services of [Entitlements.v], with the sample checkout: a purchase and
    its refund that arrive in order, and the same when the network loses the first call. *)

(** ** The surroundings *)

#[local] Existing Instance bytes_collation.

Definition any_uuid (_ : string) : bool := true.
Definition world_env (network : Network) (ms : Z) (tag : string) : WorldEnv :=
  {| we_checkout := sample_env ms tag; we_network := network;
     we_uuid := "00000000-0000-0000-0000-000000000001"; we_uuids := fun n => tag +:+ pretty n; we_now := ms |}.

Definition sample_world_service : forall A : Type, wprogram A -> Prop :=
  world_service sample_config sample_settings sample_hash Some (fun _ => "") (fun _ held => held <? 1) (fun _ => None)
    string_cmp sample_verify any_uuid.
Definition sample_world_step : pool WorldEnv World failure -> pool WorldEnv World failure -> Prop :=
  world_step sample_config sample_settings sample_hash Some (fun _ => "") (fun _ held => held <? 1) (fun _ => None)
    string_cmp sample_verify any_uuid.

Definition check_world (time : Z) (env : WorldEnv) (w : World) : bool :=
  check_admissible time (we_checkout env) (w_checkout w).
Lemma check_world_sound time env w : check_world time env w = true -> world_admissible time env w.
Proof. apply check_admissible_sound. Qed.

(** ** Requests *)

Definition outbox_config : OutboxConfig := {| LEASE_SECONDS := 60; MAX_ATTEMPTS := 10 |}.
Definition delivery (network : Network) (ms : Z) : request WorldEnv World failure :=
  Request (worker_turn any_uuid outbox_config "worker") (world_env network ms ("w" +:+ pretty ms)).
Definition shop {A} (p : program A) (ms : Z) (tag : string) : request WorldEnv World failure :=
  Request (in_world p) (world_env Works ms tag).

Definition buy : list (request WorldEnv World failure) := [
  shop (ask_for "Alice " "buyer@example.org" no_origin) 0 "r1";
  shop (follow "r1") hour "c1";
  shop (webhook "d1" (paid_body "order-alice" "alice")) (2 * hour) "g1"].
Definition refund_it : request WorldEnv World failure :=
  shop (webhook "d2" (refund_body "refund-1" "alice")) (2 * hour + 1000) "v1".

(** In order: the grant, then the revocation. *)
Definition in_order : list (request WorldEnv World failure) :=
  buy ++ [delivery Works (2 * hour); refund_it; delivery Works (2 * hour + 1000)].
(** The API restarts, and the worker looks again, in vain. *)
Definition afterwards : list (request WorldEnv World failure) := [delivery Works (3 * hour); delivery ResponseLost (4 * hour)].

Definition world_after (requests : list (request WorldEnv World failure)) : World := run_all requests empty_world.

Lemma world_after_reachable requests more : Forall (served sample_world_service) (requests ++ more) ->
  all_along check_world the_end requests empty_world = true ->
  all_along check_world the_end more (world_after requests) = true ->
  exists pl pl', pl_db pl = world_after requests /\ pl_db pl' = run_all more (world_after requests) /\
    rtc sample_world_step (world_starting the_end) pl /\ rtc sample_world_step pl pl'.
Proof.
  intros [Hs Hs']%Forall_app Ha Ha'.
  destruct (requests_reachable world_admissible sample_world_service (world_background any_uuid) _ check_world_sound
              the_end requests empty_world [] Hs Ha) as (work & H1).
  destruct (requests_reachable world_admissible sample_world_service (world_background any_uuid) _ check_world_sound
              the_end more _ work Hs' Ha') as (work' & H2).
  do 2 eexists. split; [|split; [|split; [exact H1|exact H2]]]; done.
Qed.

Lemma in_order_served : Forall (served sample_world_service) (in_order ++ afterwards).
Proof. repeat constructor. Qed.
Lemma in_order_along : all_along check_world the_end in_order empty_world = true.
Proof. vm_compute. reflexivity. Qed.
Lemma afterwards_along : all_along check_world the_end afterwards (world_after in_order) = true.
Proof. vm_compute. reflexivity. Qed.

Definition later_world : World := run_all afterwards (world_after in_order).
Lemma in_order_reachable : exists pl pl', pl_db pl = world_after in_order /\ pl_db pl' = later_world /\
  rtc sample_world_step (world_starting the_end) pl /\ rtc sample_world_step pl pl'.
Proof. exact (world_after_reachable _ _ in_order_served in_order_along afterwards_along). Qed.

Definition alices : string := "00000000-0000-0000-0000-000000000001".

Example suspended_in_order :
  en_desired_state <$> environments (w_customers (world_after in_order)) !! alices = Some DesiredSuspended.
Proof. vm_compute. reflexivity. Qed.

Lemma tenants_follow_purchases_witness : exists e row,
  environments (w_customers (world_after in_order)) !! alices = Some e /\
  map_get (en_purchased_name e) (names (w_checkout (world_after in_order))) = Some row /\
  en_owner_subject_id e = nm_owner_user_id row /\ nm_status row = NameRevoked.
Proof.
  assert (exists e, environments (w_customers (world_after in_order)) !! alices = Some e /\
            en_desired_state e = DesiredSuspended) as (e & He & Hd)
    by (eexists; split; [vm_compute; reflexivity|reflexivity]).
  destruct in_order_reachable as (pl & pl' & E1 & _ & H1 & _). rewrite <- E1 in *.
  destruct (tenants_follow_purchases _ _ _ _ _ _ _ _ _ _ _ _ H1 _ _ He) as [(row & Hrow & Howner & Hs) _].
  exists e, row. auto.
Defined.

Lemma suspension_lasts_witness : exists e,
  environments (w_customers later_world) !! alices = Some e /\ en_desired_state e = DesiredSuspended /\
  exists message, authorize buyer alices artifacts_ref ["artifacts:read"] (w_customers later_world) = Throw message.
Proof.
  assert (exists e row, environments (w_customers (world_after in_order)) !! alices = Some e /\
            en_desired_state e = DesiredSuspended /\ events (w_customers (world_after in_order)) !! "g1" = Some row /\
            ev_event_type row = PurchaseGranted /\ ev_purchased_name row = en_purchased_name e)
    as (e & row & He & Hd & Hg & Ht & Hn)
    by (do 2 eexists; split; [vm_compute; reflexivity|split; [reflexivity|split; [vm_compute; reflexivity|]]]; done).
  destruct in_order_reachable as (pl & pl' & E1 & E2 & H1 & H2). rewrite <- E1 in He, Hg. rewrite <- E2.
  destruct (suspension_lasts _ _ _ _ _ _ _ _ _ _ _ _ _ H1 H2 _ _ _ _ He Hd Hg Ht Hn) as [(e' & He' & Hd') Ha].
  exists e'. auto.
Defined.

(** The first turn of the worker after the purchase. *)
Definition granted_row : string * OutboxRow :=
  match outbox (w_checkout (world_after buy)) with
  | row :: _ => row
  | [] => ("", {| ob_event_type := Granted; ob_subject_id := ""; ob_purchased_name := ""; ob_occurred_at := 0;
                  ob_status := OutPending; ob_attempts := 0; ob_available_at := 0; ob_lease_owner := None;
                  ob_lease_expires_at := None; ob_last_error := None; ob_delivered_at := None; ob_created_at := 0 |})
  end.
Lemma deliveries_are_settled_witness :
  let env := world_env Works (2 * hour) "w" in
  succeeds (answer_of any_uuid env (world_after buy) granted_row).1 = true /\
  exists row, events (answer_of any_uuid env (world_after buy) granted_row).2 !! "g1" = Some row /\
    ev_purchased_name row = "alice".
Proof.
  cbn zeta.
  pose proof (deliveries_are_settled any_uuid outbox_config "worker" (world_env Works (2 * hour) "w")
    (world_after buy) granted_row ltac:(vm_compute; reflexivity)) as [_ H].
  assert (succeeds (answer_of any_uuid (world_env Works (2 * hour) "w") (world_after buy) granted_row).1 = true) as Hs
    by (vm_compute; reflexivity).
  split; [exact Hs|]. specialize (H Hs).
  assert (granted_row.1 = "g1") as E1 by (vm_compute; reflexivity). rewrite E1 in H.
  eexists. split; [exact H|vm_compute; reflexivity].
Defined.

(** ** A revocation that is overtaken *)

(** The call with the grant is lost, the name is refunded a second later, and the revocation is
    delivered first.  When the grant is sent again, it is accepted: the customer API does not look
    at when an event occurred. *)
Definition overtaken : list (request WorldEnv World failure) :=
  buy ++ [delivery RequestLost (2 * hour); refund_it; delivery Works (2 * hour + 1000);
          delivery Works (2 * hour + 3000)].

(** The provisioning worker does what there is to do. *)
Fixpoint provision (n : nat) (d : Directory) : Directory :=
  match n with
  | O => d
  | S n =>
      match Provisioning.claim "provisioner" 60 "primary" 100000000 (fun _ => false) d with
      | (d, Some operation) =>
          match finish "provisioner" "primary" operation d with Ok d => provision n d | Throw _ => d end
      | (d, None) => d
      end
  end.

Lemma revocation_overtaken :
  (nm_status <$> map_get "alice" (names (w_checkout (world_after overtaken)))) = Some NameRevoked /\
  (en_desired_state <$> environments (w_customers (world_after overtaken)) !! alices) = Some DesiredReady /\
  match authorize buyer alices artifacts_ref ["artifacts:write"] (provision 6 (w_customers (world_after overtaken))) with
  | Ok grant => gr_actions grant = ["artifacts:write"]
  | Throw _ => False
  end.
Proof. split; [|split]; vm_compute; reflexivity. Qed.
