(* ===== verification/SqlRunner.v ===== *)
(** * The plan runner of the customers

    [services/actor-runner/src/sql-runner.ts]: runs kept in a customer's own database,
    executed by any number of processes at once, and the movement that waits for them
    ([stopApplicationAccess] in [services/platform-provisioner/src/movement-postgres.ts]).

    Every statement is a step of its own.  A connection of the worker is a session of the
    database: it holds advisory locks, and it may be lost between any two statements, which
    frees its locks while the process goes on.  The executor is outside: it is a tree of the
    progress it reports, the answers it gets, and how it ends. *)

From S2P Require Import Prelude Contracts Json Planner Registry Authorization Run MemoryRunner Programs Threads.

Open Scope stdpp_scope.
Open Scope js_scope.

(** ** The database of a customer *)

Record RunRow := {
  rw_subject_id : string;
  rw_idempotency_key : string;
  rw_material_hash : string;
  rw_state : PlanRunState;
  rw_revision : nat;
  rw_record : PlanRunRecord;
  rw_created_at : Z;
  rw_updated_at : Z
}.

(** The table [runs], the singleton of [environment_identity], what connections hold, and
    whether the roles of the customer may log in.  The last two are no tables: the run each
    thread's executor is working on, and the thread that put a run into
    [execution_unsettled]. *)
Record RunsDb := {
  runs : list (string * RunRow);
  execution_enabled : bool;
  execution_unsettled : list string;
  sessions : gset nat;
  run_locks : gmap Z nat;
  barrier_shared : gset nat;
  barrier_exclusive : option nat;
  access : bool;
  executing : gmap nat string;
  marked_by : gmap string nat
}.

Definition set_runs (x : list (string * RunRow)) (db : RunsDb) : RunsDb :=
  {| runs := x; execution_enabled := execution_enabled db; execution_unsettled := execution_unsettled db;
     sessions := sessions db; run_locks := run_locks db; barrier_shared := barrier_shared db;
     barrier_exclusive := barrier_exclusive db; access := access db; executing := executing db;
     marked_by := marked_by db |}.
Definition set_enabled (x : bool) (db : RunsDb) : RunsDb :=
  {| runs := runs db; execution_enabled := x; execution_unsettled := execution_unsettled db;
     sessions := sessions db; run_locks := run_locks db; barrier_shared := barrier_shared db;
     barrier_exclusive := barrier_exclusive db; access := access db; executing := executing db;
     marked_by := marked_by db |}.
Definition set_marks (x : list string) (by_ : gmap string nat) (db : RunsDb) : RunsDb :=
  {| runs := runs db; execution_enabled := execution_enabled db; execution_unsettled := x;
     sessions := sessions db; run_locks := run_locks db; barrier_shared := barrier_shared db;
     barrier_exclusive := barrier_exclusive db; access := access db; executing := executing db;
     marked_by := by_ |}.
Definition set_connections (s : gset nat) (locks : gmap Z nat) (shared : gset nat) (db : RunsDb) : RunsDb :=
  {| runs := runs db; execution_enabled := execution_enabled db; execution_unsettled := execution_unsettled db;
     sessions := s; run_locks := locks; barrier_shared := shared;
     barrier_exclusive := barrier_exclusive db; access := access db; executing := executing db;
     marked_by := marked_by db |}.
Definition set_exclusive (x : option nat) (db : RunsDb) : RunsDb :=
  {| runs := runs db; execution_enabled := execution_enabled db; execution_unsettled := execution_unsettled db;
     sessions := sessions db; run_locks := run_locks db; barrier_shared := barrier_shared db;
     barrier_exclusive := x; access := access db; executing := executing db; marked_by := marked_by db |}.
Definition set_access (x : bool) (db : RunsDb) : RunsDb :=
  {| runs := runs db; execution_enabled := execution_enabled db; execution_unsettled := execution_unsettled db;
     sessions := sessions db; run_locks := run_locks db; barrier_shared := barrier_shared db;
     barrier_exclusive := barrier_exclusive db; access := x; executing := executing db; marked_by := marked_by db |}.
Definition set_executing (x : gmap nat string) (db : RunsDb) : RunsDb :=
  {| runs := runs db; execution_enabled := execution_enabled db; execution_unsettled := execution_unsettled db;
     sessions := sessions db; run_locks := run_locks db; barrier_shared := barrier_shared db;
     barrier_exclusive := barrier_exclusive db; access := access db; executing := x; marked_by := marked_by db |}.

(** What is thrown: [CustomerExecutionPaused], [PlanRunConflict], or another error. *)
Inductive run_error :=
| ExecutionPaused
| RunConflict (message : string)
| RunError (message : string).

(** What a statement gets from outside: [new Date().toISOString()], the clock of the
    database, [randomUUID()], and [signal.aborted]. *)
Record RunEnv := { rv_now : string; rv_clock : Z; rv_uuid : string; rv_aborted : bool }.

Abbreviation rtx := (txn RunEnv RunsDb run_error).
Abbreviation rprog := (prog RunEnv RunsDb run_error).

(** A [result] of the pure code, thrown. *)
Definition lift_result {A} (m : result A) : rprog A :=
  match m with Ok a => Return a | Throw message => Raise (RunError message) end.

(** ** What an executor does *)

(** It ends, or it reports progress and goes on with what [reportProgress] returned or threw. *)
Inductive execution :=
| Finished (outcome : result PlanRunExecutionResult)
| Reports (progress : unknown) (next : result unit -> execution).

Record ExecutionContext := {
  xc_session : option string;
  xc_submission : option PlanRunContinuationSubmission
}.

(** ** Records *)

Definition with_state (state : PlanRunState) (r : PlanRunRecord) : PlanRunRecord :=
  {| rr_runId := rr_runId r; rr_revision := rr_revision r; rr_state := state;
     rr_request := rr_request r; rr_createdAt := rr_createdAt r; rr_updatedAt := rr_updatedAt r;
     rr_checkpoints := rr_checkpoints r; rr_progress := rr_progress r;
     rr_continuations := rr_continuations r; rr_failure := rr_failure r |}.
(** [record.revision += 1; record.updatedAt = now]. *)
Definition touched (now : string) (r : PlanRunRecord) : PlanRunRecord := moved (rr_state r) now r.

(** [#applyResult]: the state is assigned without [assertPlanRunTransition]. *)
Definition assignResult (r : PlanRunRecord) (result_ : PlanRunExecutionResult)
    (resolved : option nat) (checkpointId now : string) : PlanRunRecord * result unit :=
  let remainingGoals := default [] (er_remainingGoals result_) in
  let commit r :=
    match appendCheckpoint r result_ checkpointId now with
    | Throw m => (r, Throw m)
    | Ok r => (r, Ok tt)
    end in
  match er_continuation result_ with
  | Some continuation =>
      match assertContinuation continuation with
      | Throw m => (r, Throw m)
      | Ok _ =>
          if bool_decide (remainingGoals = [])
          then (r, Throw "a continuation must retain at least one unfinished goal")
          else
            let other := match resolved ≫= fun i => rr_continuations r !! i with
                         | Some c => negb (bool_decide (ct_continuationId c = ct_continuationId continuation))
                         | None => false
                         end in
            let r := if other then set_resolved resolved r else r in
            commit (with_state WaitingForInput (upsertContinuation r continuation))
      end
  | None =>
      if bool_decide (remainingGoals = [])
      then commit (with_state Succeeded (set_resolved resolved r))
      else (r, Throw ("executor left unmet goals: " +:+ join ", " remainingGoals))
  end.

Definition assignFailure (message : string) (r : PlanRunRecord) : PlanRunRecord :=
  with_failure (execution_failed message) (with_state Failed r).

(** The record after the executor and its [catch]. *)
Definition concluded (r : PlanRunRecord) (outcome : result PlanRunExecutionResult) (resolved : option nat)
    (explain : string -> string) (checkpointId now : string) : PlanRunRecord :=
  match outcome with
  | Throw message => assignFailure (explain message) r
  | Ok result_ =>
      match assignResult r result_ resolved checkpointId now with
      | (r, Ok _) => r
      | (r, Throw message) => assignFailure (explain message) r
      end
  end.

(** ** Statements *)

Section Runner.
Context {collation : Collation}.
(** [createHash('sha256')] of a text, and [hashtext] of the database. *)
Context (sha256_hex : string -> string) (hashtext : string -> Z).
Context (customerExecutionBarrier : bool).
Context (executor : PlanRunStartRequest -> ExecutionContext -> execution).

Definition materialHash (request : PlanRunStartRequest) : string := sha256_hex (materialCommand request).

(** A statement of a connection of the worker. *)
Definition on_session {A} (i : nat) (t : rtx A) : rtx A := fun env db =>
  if bool_decide (i ∈ sessions db) then t env db else Threw (RunError "Connection terminated unexpectedly").
(** A statement on whatever connection of a pool. *)
Definition on_pool {A} (t : rtx A) : rtx A := fun env db =>
  if access db then t env db else Threw (RunError "role is not permitted to log in").

(** [pool.connect()] and [connection.release()]. *)
Definition connect (i : nat) : rtx unit :=
  on_pool (update (fun db => set_connections ({[i]} ∪ sessions db) (run_locks db) (barrier_shared db) db)).
Definition release (i : nat) : rtx unit :=
  update (fun db => set_connections (sessions db ∖ {[i]}) (run_locks db) (barrier_shared db) db).

(** [pg_advisory_lock_shared]: the statement waits until nobody holds the lock alone, or runs
    into [statement_timeout]. *)
Definition lock_shared (i : nat) : rtx unit :=
  on_session i (
    holder ← select barrier_exclusive;
    throw_when! bool_decide (is_Some (holder : option nat))
      as RunError "canceling statement due to statement timeout";
    update (fun db => set_connections (sessions db) (run_locks db) ({[i]} ∪ barrier_shared db) db)).
Definition unlock_shared (i : nat) : rtx unit :=
  on_session i (update (fun db => set_connections (sessions db) (run_locks db) (barrier_shared db ∖ {[i]}) db)).

(** [pg_try_advisory_lock] of a run. *)
Definition try_lock (i : nat) (runId : string) : rtx bool :=
  on_session i (
    holder ← select (fun db => run_locks db !! hashtext runId);
    if bool_decide (holder = None \/ holder = Some i) then
      _ ← update (fun db => set_connections (sessions db) (<[hashtext runId := i]> (run_locks db)) (barrier_shared db) db);
      mret true
    else mret false).
Definition unlock_run (i : nat) (runId : string) : rtx unit :=
  on_session i (update (fun db => set_connections (sessions db) (delete (hashtext runId) (run_locks db)) (barrier_shared db) db)).

Definition row_of (runId : string) (db : RunsDb) : option RunRow := map_get runId (runs db).
Definition in_state (state : PlanRunState) (row : RunRow) : bool := bool_decide (rw_state row = state).
Definition select_in (i : nat) (runId : string) (state : PlanRunState) : rtx (option PlanRunRecord) :=
  on_session i (select (fun db =>
    match row_of runId db with
    | Some row => if in_state state row then Some (rw_record row) else None
    | None => None
    end)).

(** [UPDATE runs SET state,revision,record,updated_at WHERE id=$1 AND ...], and whether a row
    was. *)
Definition stored (r : PlanRunRecord) (clock : Z) (row : RunRow) : RunRow :=
  {| rw_subject_id := rw_subject_id row; rw_idempotency_key := rw_idempotency_key row;
     rw_material_hash := rw_material_hash row; rw_state := rr_state r; rw_revision := rr_revision r;
     rw_record := r; rw_created_at := rw_created_at row; rw_updated_at := clock |}.
Definition update_run (runId : string) (where_ : RunRow -> bool) (r : PlanRunRecord) : rtx bool :=
  clock ← ask rv_clock;
  row ← select (row_of runId);
  match (row : option RunRow) with
  | Some row =>
      if where_ row then
        _ ← update (fun db => set_runs (map_set runId (stored r clock row) (runs db)) db); mret true
      else mret false
  | None => mret false
  end.
(** [SET revision,record,updated_at]: the column [state] is left. *)
Definition update_progress (runId : string) (r : PlanRunRecord) : rtx bool :=
  clock ← ask rv_clock;
  row ← select (row_of runId);
  match (row : option RunRow) with
  | Some row =>
      if in_state Accepted row then
        _ ← update (fun db => set_runs (map_set runId
               {| rw_subject_id := rw_subject_id row; rw_idempotency_key := rw_idempotency_key row;
                  rw_material_hash := rw_material_hash row; rw_state := rw_state row;
                  rw_revision := rr_revision r; rw_record := r; rw_created_at := rw_created_at row;
                  rw_updated_at := clock |} (runs db)) db);
        mret true
      else mret false
  | None => mret false
  end.

(** ** The barrier of an execution *)

Definition mark_run (i : nat) (runId : string) : rtx bool :=
  on_session i (
    open ← select (fun db => execution_enabled db && negb (includes (execution_unsettled db) runId));
    if (open : bool) then
      _ ← update (fun db => set_marks (execution_unsettled db ++ [runId]) (<[runId := i]> (marked_by db)) db);
      mret true
    else mret false).
Definition beginExecution (i : nat) (runId : string) : rprog unit :=
  if negb customerExecutionBarrier then mret tt
  else
    marked ← step (mark_run i runId);
    if (marked : bool) then mret tt
    else Raise (RunConflict "customer execution is paused or a previous attempt requires reconciliation").

Definition unmark_run (i : nat) (runId : string) : rtx unit :=
  on_session i (update (fun db =>
    set_marks (base.filter (fun id => id <> runId) (execution_unsettled db)) (delete runId (marked_by db)) db)).
Definition endExecution (i : nat) (runId : string) : rprog unit :=
  if negb customerExecutionBarrier then mret tt else step (unmark_run i runId).

(** [reportProgress]: the record of the attempt changes before the statement, and keeps the
    change when it throws. *)
Definition reportProgress (i : nat) (runId : string) (progress : json) (record : PlanRunRecord) :
    rprog (PlanRunRecord * result unit) :=
  now ← step (ask rv_now);
  let record := with_progress progress now record in
  try_catch
    (fun saved : bool => mret (record, if saved then Ok tt else Throw "the actor run is no longer active"))
    (fun e => mret (record, Throw (match e with ExecutionPaused => "" | RunConflict m | RunError m => m end)))
    (step (on_session i (update_progress runId record))).

(** The attempt: the executor with [reportProgress]. *)
Fixpoint attempt (i : nat) (runId : string) (e : execution) (record : PlanRunRecord) :
    rprog (PlanRunRecord * result PlanRunExecutionResult) :=
  match e with
  | Finished outcome => mret (record, outcome)
  | Reports (Throw message) next => attempt i runId (next (Throw message)) record
  | Reports (Ok progress) next =>
      answer ← reportProgress i runId progress record;
      attempt i runId (next answer.2) answer.1
  end.

(** The executor without it: [resume] hands none over. *)
Fixpoint unreported (e : execution) : result PlanRunExecutionResult :=
  match e with
  | Finished outcome => outcome
  | Reports _ next => unreported (next (Ok tt))
  end.

Definition entered (i : nat) (runId : string) : rtx unit :=
  update (fun db => set_executing (<[i := runId]> (executing db)) db).
Definition left_ (i : nat) : rtx unit :=
  update (fun db => set_executing (delete i (executing db)) db).

(** ** [execute] *)

Definition finish_accepted (i : nat) (runId : string) (record : PlanRunRecord)
    (outcome : result PlanRunExecutionResult) : rtx bool :=
  on_session i (
    now ← ask rv_now;
    checkpointId ← ask rv_uuid;
    update_run runId (in_state Accepted) (touched now (concluded record outcome None id checkpointId now))).

Definition execute_claimed (i : nat) (runId : string) (session : option string) : rprog bool :=
  row ← step (select_in i runId Accepted);
  match (row : option PlanRunRecord) with
  | None => mret false
  | Some record =>
      _ ← beginExecution i runId;
      _ ← step (entered i runId);
      answer ← attempt i runId (executor (rr_request record) {| xc_session := session; xc_submission := None |}) record;
      _ ← step (left_ i);
      updated ← step (finish_accepted i runId answer.1 answer.2);
      if (updated : bool) then _ ← endExecution i runId; mret true else mret false
  end.

Definition execute_run (i : nat) (runId : string) (session : option string) : rprog bool :=
  claimed ← step (try_lock i runId);
  if (claimed : bool)
  then finally (step (unlock_run i runId)) (execute_claimed i runId session)
  else mret false.

Definition execute (i : nat) (runId : string) (session : option string) : rprog bool :=
  _ ← step (connect i);
  finally (step (release i))
    (if customerExecutionBarrier then
       _ ← step (lock_shared i);
       finally (ignore_errors (step (unlock_shared i)))
         (enabled ← step (on_session i (select execution_enabled));
          if (enabled : bool) then execute_run i runId session else mret false)
     else execute_run i runId session).

(** ** [recoverAcceptedRuns] *)

Definition by_admission (a b : string * RunRow) : Z :=
  or_else (rw_created_at a.2 - rw_created_at b.2)%Z (string_cmp a.1 b.1).
Definition accepted_runs (db : RunsDb) : list string :=
  (js_sort by_admission (base.filter (fun r => in_state Accepted r.2 = true) (runs db))).*1.

Fixpoint execute_each (i : nat) (ids : list string) (recovered : nat) : rprog nat :=
  match ids with
  | [] => mret recovered
  | id :: ids =>
      done ← execute i id None;
      execute_each i ids (if (done : bool) then S recovered else recovered)
  end.
Definition recoverAcceptedRuns (i : nat) : rprog nat :=
  accepted ← step (on_pool (select accepted_runs));
  execute_each i accepted 0.

(** ** [start], [status], [cancel] *)

Definition row_of_request (admitted : PlanRunStartRequest) (hash : string) (runId now : string) (clock : Z) : RunRow :=
  let record := new_record admitted runId now in
  {| rw_subject_id := ap_subjectId (sc_principal (sr_security admitted));
     rw_idempotency_key := sr_idempotencyKey admitted; rw_material_hash := hash; rw_state := rr_state record;
     rw_revision := rr_revision record; rw_record := record; rw_created_at := clock; rw_updated_at := clock |}.

Definition of_key (subject key : string) (row : string * RunRow) : bool :=
  String.eqb (rw_subject_id row.2) subject && String.eqb (rw_idempotency_key row.2) key.

(** [INSERT ... ON CONFLICT(subject_id,idempotency_key) DO NOTHING]. *)
Definition insert_run (admitted : PlanRunStartRequest) (hash : string) : rtx (option PlanRunHandle) :=
  on_pool (
    runId ← ask rv_uuid; now ← ask rv_now; clock ← ask rv_clock;
    let row := row_of_request admitted hash runId now clock in
    conflict ← select (fun db =>
      existsb (of_key (rw_subject_id row) (rw_idempotency_key row)) (runs db));
    if (conflict : bool) then mret None
    else
      taken ← select (fun db => map_has runId (runs db));
      throw_when! taken as RunError "duplicate key value violates unique constraint";
      _ ← update (fun db => set_runs (runs db ++ [(runId, row)]) db);
      mret (Some (handle (rw_record row)))).

(** [queueMicrotask] of the execution is another thread. *)
Definition start_run (cloned : result PlanRunStartRequest) : rprog PlanRunHandle :=
  admitted ← lift_result cloned;
  if negb (bool_decide (sr_executionEnvironment admitted = Server))
  then Raise (RunError "the server runner accepts only server placement")
  else
    enabled ← (if customerExecutionBarrier then step (on_pool (select execution_enabled)) else mret true);
    if negb enabled then Raise ExecutionPaused
    else
      let hash := materialHash admitted in
      inserted ← step (insert_run admitted hash);
      match (inserted : option PlanRunHandle) with
      | Some handle => mret handle
      | None =>
          prior ← step (on_pool (select (fun db =>
            js_find (of_key (ap_subjectId (sc_principal (sr_security admitted))) (sr_idempotencyKey admitted)) (runs db))));
          match (prior : option (string * RunRow)) with
          | Some (_, row) =>
              if String.eqb (rw_material_hash row) hash then mret (handle (rw_record row))
              else Raise (RunConflict "the idempotency key is already bound to another command")
          | None => Raise (RunConflict "the idempotency key is already bound to another command")
          end
      end.

Definition run_status (runId : string) : rprog (option PlanRunRecord) :=
  step (on_pool (select (fun db => option_map rw_record (row_of runId db)))).

Definition cancel_run (runId : string) : rprog PlanRunHandle :=
  record ← run_status runId;
  match (record : option PlanRunRecord) with
  | None => Raise (RunError "run not found")
  | Some record =>
      if bool_decide (rr_state record = Cancelled) then mret (handle record)
      else
        _ ← lift_result (assertPlanRunTransition (rr_state record) Cancelled);
        changed ← step (on_pool (
          now ← ask rv_now;
          let changed := touched now (with_state Cancelled record) in
          updated ← update_run runId (fun row => Nat.eqb (rw_revision row) (rr_revision record)) changed;
          mret (if (updated : bool) then Some changed else None)));
        match (changed : option PlanRunRecord) with
        | Some changed => mret (handle changed)
        | None => Raise (RunConflict "the actor run changed concurrently")
        end
  end.

(** ** [resume] *)

(** [#replaceWaiting], of the record as it is to be. *)
Definition replaceWaiting (i : nat) (runId : string) (expectedRevision : nat)
    (next : string -> string -> PlanRunRecord) : rprog PlanRunRecord :=
  changed ← step (on_session i (
    now ← ask rv_now;
    checkpointId ← ask rv_uuid;
    let changed := touched now (next checkpointId now) in
    updated ← update_run runId
      (fun row => in_state WaitingForInput row && Nat.eqb (rw_revision row) expectedRevision) changed;
    mret (if (updated : bool) then Some changed else None)));
  match (changed : option PlanRunRecord) with
  | Some changed => mret changed
  | None => Raise (RunConflict "the actor run changed concurrently")
  end.

Definition explained (kind : ContinuationKind) (message : string) : string :=
  if bool_decide (kind = KSecret) then "Secret continuation execution failed." else message.

Definition resume_claimed (i : nat) (runId : string) (submission : PlanRunContinuationSubmission)
    (session : option string) : rprog PlanRunHandle :=
  _ ← (match submission with Postpone _ _ => mret tt | Submit _ _ _ value_ => _ ← lift_result value_; mret tt end);
  row ← step (select_in i runId WaitingForInput);
  match (row : option PlanRunRecord) with
  | None => Raise (RunError "the run is not waiting for input")
  | Some record =>
      c ← lift_result (requiredContinuation record (submission_continuation submission));
      match submission with
      | Postpone _ _ =>
          record ← replaceWaiting i runId (rr_revision record)
            (fun _ _ => with_continuations (alter (set_ct_state CPostponed) c (rr_continuations record)) record);
          mret (handle record)
      | Submit _ _ kind _ =>
          if negb (bool_decide (Some kind = (ct_kind <$> rr_continuations record !! c)))
          then Raise (RunError "continuation kind mismatch")
          else
            _ ← beginExecution i runId;
            _ ← step (entered i runId);
            let outcome :=
              match assertPlanRunTransition (rr_state record) Run.Running with
              | Throw message => Throw message
              | Ok _ => unreported (executor (rr_request record)
                          {| xc_session := session; xc_submission := Some submission |})
              end in
            _ ← step (left_ i);
            record ← replaceWaiting i runId (rr_revision record)
              (concluded record outcome (Some c) (explained kind));
            _ ← endExecution i runId;
            mret (handle record)
      end
  end.

Definition resume_with_lock (i : nat) (runId : string) (submission : PlanRunContinuationSubmission)
    (session : option string) : rprog PlanRunHandle :=
  claimed ← step (try_lock i runId);
  if (claimed : bool)
  then finally (ignore_errors (step (unlock_run i runId))) (resume_claimed i runId submission session)
  else Raise (RunConflict "the Actor run is already executing").

Definition resume_run (i : nat) (runId : string) (submission : PlanRunContinuationSubmission)
    (session : option string) : rprog PlanRunHandle :=
  _ ← step (connect i);
  finally (step (release i))
    (if customerExecutionBarrier then
       _ ← step (lock_shared i);
       finally (ignore_errors (step (unlock_shared i)))
         (enabled ← step (on_session i (select execution_enabled));
          if (enabled : bool) then resume_with_lock i runId submission session else Raise ExecutionPaused)
     else resume_with_lock i runId submission session).

(** ** The movement stops the customer *)

(** [pg_advisory_lock], which waits or runs into its timeout. *)
Definition lock_exclusive (i : nat) : rtx unit :=
  free ← select (fun db => bool_decide (barrier_shared db = ∅) &&
                            bool_decide (barrier_exclusive db = None \/ barrier_exclusive db = Some i));
  throw_when! negb free as RunError "canceling statement due to statement timeout";
  update (set_exclusive (Some i)).
Definition unlock_exclusive (i : nat) : rtx unit :=
  update (fun db => if bool_decide (barrier_exclusive db = Some i) then set_exclusive None db else db).

(** The roles may not log in any more and their connections are terminated. *)
Definition stop_roles : rtx unit := update (fun db => set_access false (set_connections ∅ ∅ ∅ db)).

(** The statements of [stopApplicationAccess] on one connection, which its end frees. *)
Definition stopApplicationAccess (i : nat) : rprog unit :=
  _ ← step (update (set_enabled false));
  finally (step (unlock_exclusive i))
    (_ ← step (lock_exclusive i);
     unsettled ← step (select (fun db => length (execution_unsettled db)));
     if negb (Nat.eqb unsettled 0)
     then Raise (RunError "interrupted Actor execution requires reconciliation before movement")
     else
       aborted ← step (ask rv_aborted);
       if (aborted : bool) then Raise (RunError "This operation was aborted")
       else step stop_roles).

(** ** The system *)

(** What runs as a thread: a request, an execution from the microtask queue, the recovery of
    a process that starts, or a movement. *)
Inductive run_service (i : nat) : forall A : Type, rprog A -> Prop :=
| ServeStart cloned : run_service i _ (start_run cloned)
| ServeStatus runId : run_service i _ (run_status runId)
| ServeCancel runId : run_service i _ (cancel_run runId)
| ServeResume runId submission session : run_service i _ (resume_run i runId submission session)
| ServeExecute runId session : run_service i _ (execute i runId session)
| ServeRecover : run_service i _ (recoverAcceptedRuns i)
| ServeStop : run_service i _ (stopApplicationAccess i).

(** A connection is lost: of the worker, or of a movement. *)
Inductive run_background (db : RunsDb) : RunsDb -> Prop :=
| SessionLost i : run_background db
    (set_connections (sessions db ∖ {[i]}) (base.filter (fun l => l.2 <> i) (run_locks db))
       (barrier_shared db ∖ {[i]}) db)
| MoverLost : run_background db (set_exclusive None db).

Definition run_admissible (time : Z) (i : nat) (env : RunEnv) (db : RunsDb) : Prop := rv_clock env = time.

Definition empty_runs : RunsDb :=
  {| runs := []; execution_enabled := true; execution_unsettled := []; sessions := ∅; run_locks := ∅;
     barrier_shared := ∅; barrier_exclusive := None; access := true; executing := ∅; marked_by := ∅ |}.
Definition runner_start (time : Z) : threads RunEnv RunsDb run_error :=
  {| th_time := time; th_db := empty_runs; th_next := 0; th_running := [] |}.
Definition runs_step := threads_step run_admissible run_service run_background.
End Runner.
