(* ===== verification/RunnerSystem.v ===== *)
(** * The runs of a customer as a system

    What holds of [SqlRunner] as it is deployed, with the barrier, whatever the executors do,
    however the statements of all the threads interleave, wherever threads stop and whenever
    connections are lost: first what every statement and every program keeps, then the
    theorems.  A run only moves forward and is frozen when it has ended; a run is executed by
    one thread at a time; and a customer whose access was stopped has no executor at work and
    does not change any more. *)

From S2P Require Import Prelude Contracts Json Planner Registry Authorization Run MemoryRunner Programs Threads SqlRunner.
From stdpp Require Import relations.

Open Scope stdpp_scope.
Open Scope js_scope.

#[local] Arguments row_of : simpl never.

(** ** How a row advances *)

(** The moves of this runner: [accepted] is left at the end of the execution only. *)
Definition sql_moves (from : PlanRunState) : list PlanRunState :=
  match from with
  | Accepted => [Accepted; WaitingForInput; Succeeded; Failed; Cancelled]
  | WaitingForInput => [WaitingForInput; Succeeded; Failed; Cancelled]
  | Failed => [Cancelled]
  | _ => []
  end.

(** [r'] is [r] further on: the same run of the same command, at no lower revision. *)
Record ahead (r r' : PlanRunRecord) : Prop := {
  ah_runId : rr_runId r' = rr_runId r;
  ah_request : rr_request r' = rr_request r;
  ah_createdAt : rr_createdAt r' = rr_createdAt r;
  ah_revision : rr_revision r <= rr_revision r';
  ah_checkpoints : exists more, rr_checkpoints r' = rr_checkpoints r ++ more
}.

#[export] Instance ahead_preorder : PreOrder ahead.
Proof.
  split.
  - intros r. constructor; try done. exists []. by rewrite app_nil_r.
  - intros r1 r2 r3 [A1 A2 A3 A4 (m1 & A5)] [B1 B2 B3 B4 (m2 & B5)]. constructor; try congruence; [lia|].
    exists (m1 ++ m2). rewrite B5, A5. by rewrite app_assoc.
Qed.

Record row_advanced (row row' : RunRow) : Prop := {
  ad_subject : rw_subject_id row' = rw_subject_id row;
  ad_key : rw_idempotency_key row' = rw_idempotency_key row;
  ad_hash : rw_material_hash row' = rw_material_hash row;
  ad_created_at : rw_created_at row' = rw_created_at row;
  ad_record : ahead (rw_record row) (rw_record row');
  ad_revision : rw_revision row < rw_revision row';
  ad_state : rw_state row' ∈ sql_moves (rw_state row)
}.
Definition row_evolves (row row' : RunRow) : Prop := row' = row \/ row_advanced row row'.

Lemma sql_moves_trans a b c : b ∈ sql_moves a -> c ∈ sql_moves b -> c ∈ sql_moves a.
Proof. destruct a, b; cbn; set_solver. Qed.

#[export] Instance row_evolves_preorder : PreOrder row_evolves.
Proof.
  split; [by left|]. intros r1 r2 r3 [->|[A1 A2 A3 A4 A5 A6 A7]] [->|[B1 B2 B3 B4 B5 B6 B7]];
    [by left|by right; constructor|by right; constructor|].
  right. constructor; try congruence; [by etransitivity|lia|by eapply sql_moves_trans].
Qed.

Lemma evolves_same_revision row row' : row_evolves row row' -> rw_revision row' = rw_revision row -> row' = row.
Proof. intros [->|[]]; [done|lia]. Qed.

Lemma evolves_accepted row row' : row_evolves row row' -> rw_state row' = Accepted -> rw_state row = Accepted.
Proof. intros [->|[_ _ _ _ _ _ Hs]]; [done|]. intros E. rewrite E in Hs. by destruct (rw_state row); set_solver. Qed.

(** ** The records of an attempt *)

Lemma ahead_same r r' :
  rr_runId r' = rr_runId r -> rr_request r' = rr_request r -> rr_createdAt r' = rr_createdAt r ->
  rr_revision r' = rr_revision r -> rr_checkpoints r' = rr_checkpoints r -> ahead r r'.
Proof. intros. constructor; try done; [lia|]. exists []. by rewrite app_nil_r. Qed.

Lemma ahead_with_state state r : ahead r (with_state state r).
Proof. by apply ahead_same. Qed.
Lemma ahead_continuations cs r : ahead r (with_continuations cs r).
Proof. by apply ahead_same. Qed.
Lemma ahead_failure message r : ahead r (assignFailure message r).
Proof. by apply ahead_same. Qed.
Lemma ahead_touched now r : ahead r (touched now r).
Proof. constructor; try done; cbn; [lia|]. exists []. by rewrite app_nil_r. Qed.
Lemma ahead_progress progress now r : ahead r (with_progress progress now r).
Proof. constructor; try done; cbn; [lia|]. exists []. by rewrite app_nil_r. Qed.
Lemma ahead_resolved i r : ahead r (set_resolved i r).
Proof. destruct i; [apply ahead_continuations|reflexivity]. Qed.
Lemma ahead_upsert c r : ahead r (upsertContinuation r c).
Proof. unfold upsertContinuation. destruct (find_index _ _); apply ahead_continuations. Qed.
Lemma ahead_checkpoint r result_ id now r' : appendCheckpoint r result_ id now = Ok r' ->
  ahead r r' /\ rr_state r' = rr_state r.
Proof.
  unfold appendCheckpoint. intros Hc. inv_result. split; [|done]. constructor; try done. by eexists.
Qed.

(** A record an attempt may leave: it has the state of an end, or waits. *)
Definition closed_state (s : PlanRunState) : Prop := s = WaitingForInput \/ s = Succeeded \/ s = Failed.

Lemma assignResult_spec (r : PlanRunRecord) result_ resolved id now :
  ahead r (assignResult r result_ resolved id now).1 /\
  ((assignResult r result_ resolved id now).2 = Ok tt -> closed_state (rr_state (assignResult r result_ resolved id now).1)).
Proof.
  unfold assignResult. destruct (er_continuation result_) as [c|].
  - destruct (assertContinuation c); [|by split]. destruct (bool_decide _); [by split|].
    match goal with |- context [upsertContinuation ?x c] => set (r1 := x) end.
    assert (ahead r r1) as H1 by (subst r1; case_match; [apply ahead_resolved|reflexivity]).
    assert (ahead r (with_state WaitingForInput (upsertContinuation r1 c))) as H2.
    { etransitivity; [exact H1|]. etransitivity; [apply ahead_upsert|apply ahead_with_state]. }
    destruct (appendCheckpoint _ _ _ _) as [r2|] eqn:E1; cbn; [|by split].
    destruct (ahead_checkpoint _ _ _ _ _ E1) as [H3 H4]. split; [by etransitivity|]. intros _. rewrite H4. by left.
  - destruct (bool_decide _); [|by split].
    assert (ahead r (with_state Succeeded (set_resolved resolved r))) as H2.
    { etransitivity; [apply ahead_resolved|apply ahead_with_state]. }
    destruct (appendCheckpoint _ _ _ _) as [r2|] eqn:E1; cbn; [|by split].
    destruct (ahead_checkpoint _ _ _ _ _ E1) as [H3 H4]. split; [by etransitivity|]. intros _. rewrite H4. right; by left.
Qed.

Lemma concluded_spec (r : PlanRunRecord) outcome resolved explain id now :
  ahead r (concluded r outcome resolved explain id now) /\
  closed_state (rr_state (concluded r outcome resolved explain id now)).
Proof.
  unfold concluded. destruct outcome as [result_|m]; [|split; [apply ahead_failure|by right; right]].
  destruct (assignResult_spec r result_ resolved id now) as [H1 H2].
  destruct (assignResult r result_ resolved id now) as [r' [[]|m]]; cbn in *; [auto|].
  split; [etransitivity; [done|apply ahead_failure]|by right; right].
Qed.

Lemma closed_moves s s' : closed_state s' -> s = Accepted \/ s = WaitingForInput -> s' ∈ sql_moves s.
Proof. intros [->|[->| ->]] [->| ->]; set_solver. Qed.

(** ** What all threads keep *)

Section Facts.
Context {collation : Collation}.
Context (sha256_hex : string -> string) (hashtext : string -> Z).
Context (executor : PlanRunStartRequest -> ExecutionContext -> execution).

Abbreviation materialHash_ := (materialHash sha256_hex).

Record row_ok (db : RunsDb) (id : string) (row : RunRow) : Prop := {
  ro_runId : rr_runId (rw_record row) = id;
  ro_state : rw_state row = rr_state (rw_record row);
  ro_revision : rw_revision row = rr_revision (rw_record row);
  ro_positive : 1 <= rw_revision row;
  ro_subject : rw_subject_id row = ap_subjectId (sc_principal (sr_security (rr_request (rw_record row))));
  ro_key : rw_idempotency_key row = sr_idempotencyKey (rr_request (rw_record row));
  ro_hash : rw_material_hash row = materialHash_ (rr_request (rw_record row));
  ro_settled : rw_state row <> Planning /\ rw_state row <> Run.Running;
  ro_untouched : rw_state row = Accepted -> marked_by db !! id = None -> rw_revision row = 1
}.

Definition run_keys (db : RunsDb) : list (string * string) :=
  (fun row : string * RunRow => (rw_subject_id row.2, rw_idempotency_key row.2)) <$> runs db.

Record runs_ok (db : RunsDb) : Prop := {
  ok_ids : map_ok (runs db);
  ok_keys : NoDup (run_keys db);
  ok_rows : forall id row, row_of id db = Some row -> row_ok db id row;
  ok_executing : forall i id, executing db !! i = Some id -> marked_by db !! id = Some i;
  ok_unsettled : forall id, id ∈ execution_unsettled db <-> is_Some (marked_by db !! id);
  ok_marked : forall id i, marked_by db !! id = Some i -> is_Some (row_of id db);
  ok_stopped : access db = false ->
    execution_enabled db = false /\ execution_unsettled db = [] /\ sessions db = ∅
}.

Record runs_later (db db' : RunsDb) : Prop := {
  lt_rows : forall id row, row_of id db = Some row -> exists row', row_of id db' = Some row' /\ row_evolves row row';
  lt_closed : execution_enabled db = false ->
    execution_enabled db' = false /\ (execution_unsettled db = [] -> execution_unsettled db' = []);
  lt_stopped : access db = false -> access db' = false /\ runs db' = runs db
}.

#[export] Instance runs_later_preorder : PreOrder runs_later.
Proof.
  split.
  - intros db. constructor; [|done|done]. intros id row Hr. exists row. split; [done|reflexivity].
  - intros d1 d2 d3 [A1 A2 A3] [B1 B2 B3]. constructor.
    + intros id row Hr. destruct (A1 _ _ Hr) as (row2 & H2 & E2). destruct (B1 _ _ H2) as (row3 & H3 & E3).
      exists row3. split; [done|by etransitivity].
    + intros H1. destruct (A2 H1) as [H2 H3]. destruct (B2 H2) as [H4 H5]. auto.
    + intros H1. destruct (A3 H1) as [H2 H3]. destruct (B3 H2) as [H4 H5]. split; [done|congruence].
Qed.

(** What is thread [i]'s own: the run it executes, its marks, and the rows it has marked as
    long as they are accepted. *)
Record owned_kept (i : nat) (db db' : RunsDb) : Prop := {
  ow_executing : executing db' !! i = executing db !! i;
  ow_marked : forall id, marked_by db' !! id = Some i <-> marked_by db !! id = Some i;
  ow_rows : forall id row, marked_by db !! id = Some i -> row_of id db' = Some row -> rw_state row = Accepted ->
    row_of id db = Some row
}.
Definition runs_rely (i : nat) (db db' : RunsDb) : Prop := runs_later db db' /\ owned_kept i db db'.

#[export] Instance runs_rely_preorder i : PreOrder (runs_rely i).
Proof.
  split.
  - intros db. split; [reflexivity|]. by constructor.
  - intros d1 d2 d3 [L1 [A1 A2 A3]] [L2 [B1 B2 B3]]. split; [by etransitivity|]. constructor.
    + congruence.
    + intros id. by rewrite B2, A2.
    + intros id row Hm Hr Hs. apply A3; [done| |done]. apply B3; [by apply A2|done|done].
Qed.

Abbreviation run_yields := (yields runs_later runs_rely).
Abbreviation run_ends := (ends run_admissible (fun _ => runs_ok) runs_later runs_rely).

(** What a thread that has never run knows. *)
Definition unused (i : nat) (db : RunsDb) : Prop :=
  executing db !! i = None /\ forall id, marked_by db !! id <> Some i.

Lemma unused_stable i db db' : runs_rely i db db' -> unused i db -> unused i db'.
Proof. intros [_ [E1 E2 _]] [H1 H2]. split; [congruence|]. intros id. rewrite E2. apply H2. Qed.

(** *** Changes of the database *)

(** Connections and locks come and go. *)
Record quiet_connections (db db' : RunsDb) : Prop := {
  qc_runs : runs db' = runs db;
  qc_enabled : execution_enabled db' = execution_enabled db;
  qc_unsettled : execution_unsettled db' = execution_unsettled db;
  qc_access : access db' = access db;
  qc_executing : executing db' = executing db;
  qc_marked : marked_by db' = marked_by db;
  qc_sessions : access db = false -> sessions db = ∅ -> sessions db' = ∅
}.

Lemma later_same_runs db db' : runs db' = runs db -> execution_enabled db' = execution_enabled db ->
  execution_unsettled db' = execution_unsettled db -> access db' = access db -> runs_later db db'.
Proof.
  intros E1 E2 E3 E4. constructor.
  - intros id row Hr. exists row. unfold row_of. rewrite E1. split; [done|reflexivity].
  - rewrite E2, E3. auto.
  - by rewrite E4, E1.
Qed.

Lemma quiet_keeps db db' : quiet_connections db db' -> runs_ok db -> runs_ok db' /\ forall j, runs_rely j db db'.
Proof.
  intros [E1 E2 E3 E4 E5 E6 E7] [O1 O2 O3 O4 O5 O6 O7]. unfold row_of, run_keys in *. split.
  - constructor; unfold row_of, run_keys; rewrite ?E1, ?E2, ?E3, ?E4, ?E5, ?E6; auto.
    + intros id row Hr. destruct (O3 _ _ Hr). constructor; auto. by rewrite E6.
    + intros Ha. destruct (O7 Ha) as (H1 & H2 & H3). auto.
  - intros j. split; [by apply later_same_runs|]. constructor; rewrite ?E5, ?E6; [done|done|].
    unfold row_of. by rewrite E1.
Qed.

Lemma quiet_yields i db db' : quiet_connections db db' -> runs_ok db -> runs_ok db' /\ run_yields i db db'.
Proof.
  intros Hq Hok. destruct (quiet_keeps _ _ Hq Hok) as [H1 H2]. split; [done|].
  split; [apply (H2 i)|]. intros j _. apply H2.
Qed.

Lemma row_of_store id row' db id' :
  row_of id' (set_runs (map_set id row' (runs db)) db) = if decide (id' = id) then Some row' else row_of id' db.
Proof.
  unfold row_of. cbn. destruct (decide (id' = id)) as [->|Hn]; [apply map_get_set_eq|by apply map_get_set_ne].
Qed.

Lemma map_set_fmap_keys {V B} (f : string * V -> B) id (row row' : V) m :
  map_ok m -> map_get id m = Some row -> f (id, row') = f (id, row) -> f <$> map_set id row' m = f <$> m.
Proof.
  intros Hok Hg Hf. induction m as [|[k v] m IH]; [done|]. cbn in Hg |- *.
  apply NoDup_cons in Hok as [Hk Hok]. case_decide as E1.
  - subst. injection Hg as ->. cbn. by rewrite Hf.
  - cbn. f_equal. by apply IH.
Qed.

(** A row takes a step. *)
Lemma store_keeps i db id row row' :
  runs_ok db -> row_of id db = Some row -> row_advanced row row' -> access db = true ->
  rr_state (rw_record row') = rw_state row' -> rr_revision (rw_record row') = rw_revision row' ->
  (rw_state row' = Accepted -> marked_by db !! id = Some i) ->
  runs_ok (set_runs (map_set id row' (runs db)) db) /\
  run_yields i db (set_runs (map_set id row' (runs db)) db).
Proof.
  intros Hok Hr Ha Hacc Hs Hrev Hm. destruct Hok as [O1 O2 O3 O4 O5 O6 O7].
  assert (is_Some (map_get id (runs db))) as Hsome by by eexists.
  assert (runs_later db (set_runs (map_set id row' (runs db)) db)) as Hlater.
  { constructor; cbn; [|auto|congruence]. intros id' row1 H1. rewrite row_of_store. case_decide as E1; [|exists row1; split; [done|reflexivity]].
    subst. exists row'. split; [done|]. right. rewrite Hr in H1. by injection H1 as <-. }
  split; [|split; [done|]].
  - constructor; cbn; [by apply map_ok_set| | |done|done| |done].
    + unfold run_keys. cbn. erewrite map_set_fmap_keys; [exact O2|done|exact Hr|]. cbn.
      by rewrite (ad_subject _ _ Ha), (ad_key _ _ Ha).
    + intros id' row1. rewrite row_of_store. case_decide as E1; [|intros H1; destruct (O3 _ _ H1); by constructor].
      intros [= <-]. subst. destruct (O3 _ _ Hr) as [R1 R2 R3 R4 R5 R6 R7 R8 R9].
      destruct Ha as [A1 A2 A3 A4 [B1 B2 B3 B4 B5] A6 A7]. constructor; rewrite ?B2; cbn; try congruence; [lia| |].
      * destruct R8. destruct (rw_state row), (rw_state row'); set_solver.
      * intros Hacc' Hnone. rewrite Hm in Hnone by done. done.
    + intros id' j Hj. rewrite row_of_store. case_decide; [done|by eapply O6].
  - intros j Hj. split; [done|]. constructor; cbn; [done|done|]. intros id' row1 Hmj. rewrite row_of_store.
    case_decide as E1; [|done]. intros [= <-] Hacc'. subst. rewrite Hm in Hmj by done. congruence.
Qed.

(** *** Statements *)

Lemma statement {A} i (t : rtx A) (Q : A -> RunsDb -> Prop) (T : run_error -> RunsDb -> Prop) db0 :
  (forall env db a db', runs_ok db -> runs_rely i db0 db -> t env db = Gave (a, db') ->
     runs_ok db' /\ run_yields i db db' /\ Q a db') ->
  (forall env db e, runs_ok db -> runs_rely i db0 db -> t env db = Threw e -> T e db) ->
  run_ends i Q T (step t) db0.
Proof.
  intros H1 H2. apply ends_step; [typeclasses eauto..|]. intros time env db _ Hok Hr.
  destruct (t env db) as [[a db']|e] eqn:E1; [by eapply H1|by eapply H2].
Qed.

Abbreviation anyhow := (fun _ _ => True).
(** A program that keeps everything and of which nothing more is known. *)
Definition fine {A} (i : nat) (p : rprog A) : Prop := forall db, run_ends i anyhow anyhow p db.

Lemma fine_ret {A} i (a : A) : fine i (mret a).
Proof. by intros db. Qed.
Lemma fine_raise {A} i e : fine i (Raise e : rprog A).
Proof. by intros db. Qed.
Lemma fine_result {A} i (m : result A) : fine i (lift_result m).
Proof. destruct m; by intros db. Qed.
Lemma fine_bind {A B} i (m : rprog A) (k : A -> rprog B) : fine i m -> (forall a, fine i (k a)) -> fine i (m ≫= k).
Proof. intros Hm Hk db. eapply ends_bind; [apply Hm|]. intros a db' _. apply Hk. Qed.
Lemma fine_try {A B} i (m : rprog A) (k : A -> rprog B) handler :
  fine i m -> (forall a, fine i (k a)) -> (forall e, fine i (handler e)) -> fine i (try_catch k handler m).
Proof. intros Hm Hk Hh db. eapply ends_try; [apply Hm| |]; intros ? db' _; [apply Hk|apply Hh]. Qed.
Lemma fine_finally {A} i (f : rprog unit) (m : rprog A) : fine i f -> fine i m -> fine i (finally f m).
Proof.
  intros Hf Hm. apply fine_try; [done|intros a|intros e]; (apply fine_bind; [done|]); intros []; [apply fine_ret|apply fine_raise].
Qed.
Lemma fine_ignore i (f : rprog unit) : fine i f -> fine i (ignore_errors f).
Proof. intros Hf. apply fine_try; [done|intros a|intros e]; apply fine_ret. Qed.

(** From what is known before, with the errors left aside. *)
Lemma ends_fine {A} i Q T (p : rprog A) db : run_ends i Q T p db -> run_ends i anyhow anyhow p db.
Proof. intros H. eapply ends_weaken; [exact H|done|done]. Qed.
Lemma ends_finally {A} i (f : rprog unit) (m : rprog A) db :
  fine i f -> run_ends i anyhow anyhow m db -> run_ends i anyhow anyhow (finally f m) db.
Proof.
  intros Hf Hm. eapply ends_try; [exact Hm|intros a db' _|intros e db' _];
    (eapply ends_bind; [apply Hf|]); intros [] db2 _; done.
Qed.

(** A statement that only reads, or changes connections. *)
Lemma quiet_statement {A} i (t : rtx A) (Q : A -> RunsDb -> Prop) db0 :
  (forall env db a db', runs_ok db -> runs_rely i db0 db -> t env db = Gave (a, db') ->
     quiet_connections db db' /\ Q a db') ->
  run_ends i Q anyhow (step t) db0.
Proof.
  intros H. apply statement; [|done]. intros env db a db' Hok Hr Ht. destruct (H _ _ _ _ Hok Hr Ht) as [Hq HQ].
  destruct (quiet_yields i _ _ Hq Hok). done.
Qed.

Lemma quiet_refl db : quiet_connections db db.
Proof. by constructor. Qed.

Lemma on_session_gave {A} i (t : rtx A) env db r :
  on_session i t env db = Gave r -> i ∈ sessions db /\ t env db = Gave r.
Proof. unfold on_session. case_bool_decide; done. Qed.
Lemma on_pool_gave {A} (t : rtx A) env db r : on_pool t env db = Gave r -> access db = true /\ t env db = Gave r.
Proof. unfold on_pool. destruct (access db); done. Qed.

Lemma session_access db i : runs_ok db -> i ∈ sessions db -> access db = true.
Proof.
  intros Hok Hi. destruct (access db) eqn:E; [done|]. destruct (ok_stopped _ Hok E) as (_ & _ & Hs). set_solver.
Qed.

(** Takes a statement that committed apart. *)
Ltac stmt H :=
  try (apply on_session_gave in H as [?Hsession H]); try (apply on_pool_gave in H as [?Haccess H]); tx_run.

Lemma connect_fine i : fine i (step (connect i)).
Proof.
  intros db0. apply quiet_statement. intros env db a db' Hok _ H. unfold connect in H. stmt H.
  split; [|done]. constructor; try done. cbn. congruence.
Qed.
Lemma release_fine i : fine i (step (release i)).
Proof.
  intros db0. apply quiet_statement. intros env db a db' Hok _ H. unfold release in H. stmt H.
  split; [|done]. constructor; try done. cbn. intros _ ->. set_solver.
Qed.
Lemma connections_fine i locks shared (f : RunsDb -> RunsDb) :
  (forall db, f db = set_connections (sessions db) (locks db) (shared db) db) -> fine i (step (on_session i (update f))).
Proof.
  intros Hf db0. apply quiet_statement. intros env db a db' Hok _ H. stmt H.
  split; [|done]. rewrite Hf. by constructor.
Qed.
Lemma unlock_shared_fine i : fine i (step (unlock_shared i)).
Proof. by eapply connections_fine. Qed.
Lemma unlock_run_fine i id : fine i (step (unlock_run hashtext i id)).
Proof. by eapply connections_fine. Qed.
Lemma lock_shared_fine i : fine i (step (lock_shared i)).
Proof.
  intros db0. apply quiet_statement. intros env db a db' Hok _ H. unfold lock_shared in H. stmt H.
  split; [|done]. by constructor.
Qed.
Lemma try_lock_fine i id : fine i (step (try_lock hashtext i id)).
Proof.
  intros db0. apply quiet_statement. intros env db a db' Hok _ H. unfold try_lock in H. stmt H.
  case_bool_decide; stmt H; (split; [|done]); [by constructor|apply quiet_refl].
Qed.
Lemma session_select_fine {A} i (f : RunsDb -> A) : fine i (step (on_session i (select f))).
Proof.
  intros db0. apply quiet_statement. intros env db a db' Hok _ H. stmt H. split; [apply quiet_refl|done].
Qed.
Lemma pool_select_fine {A} i (f : RunsDb -> A) : fine i (step (on_pool (select f))).
Proof.
  intros db0. apply quiet_statement. intros env db a db' Hok _ H. stmt H. split; [apply quiet_refl|done].
Qed.

(** *** What a thread has learned *)

(** The record of a run as some earlier statement returned it. *)
Definition seen (id : string) (r : PlanRunRecord) (db : RunsDb) : Prop := exists row0 row,
  rw_record row0 = r /\ rw_revision row0 = rr_revision r /\ rw_state row0 = rr_state r /\ 1 <= rw_revision row0 /\
  row_of id db = Some row /\ row_evolves row0 row.

Lemma seen_later id r db db' : runs_later db db' -> seen id r db -> seen id r db'.
Proof.
  intros [L _ _] (row0 & row & H1 & H2 & H3 & H4 & H5 & H6). destruct (L _ _ H5) as (row' & H7 & H8).
  exists row0, row'. repeat split; try done. by etransitivity.
Qed.

Lemma seen_now id row db : runs_ok db -> row_of id db = Some row -> seen id (rw_record row) db.
Proof.
  intros Hok Hr. destruct (ok_rows _ Hok _ _ Hr) as [R1 R2 R3 R4 _ _ _ _ _].
  exists row, row. repeat split; try done.
Qed.

(** At the revision that was seen, the row is the one that was seen. *)
Lemma seen_same id r db row : runs_ok db -> seen id r db -> row_of id db = Some row -> rw_revision row = rr_revision r ->
  rw_record row = r /\ rw_state row = rr_state r.
Proof.
  intros Hok (row0 & row1 & H1 & H2 & H3 & H4 & H5 & H6) Hr He. rewrite Hr in H5. injection H5 as <-.
  apply evolves_same_revision in H6; [|congruence]. subst. split; [done|congruence].
Qed.

Lemma select_in_ends i id state db0 :
  run_ends i (fun r db => match r with Some r => seen id r db /\ rr_state r = state | None => True end) anyhow
    (step (select_in i id state)) db0.
Proof.
  apply quiet_statement. intros env db a db' Hok _ H. unfold select_in in H. stmt H.
  split; [apply quiet_refl|]. destruct (row_of id db) as [row|] eqn:Er; [|done].
  destruct (in_state state row) eqn:Es; [|done]. split; [by apply seen_now|].
  destruct (ok_rows _ Hok _ _ Er) as [_ R2 _ _ _ _ _ _ _]. unfold in_state in Es. apply bool_decide_eq_true in Es. congruence.
Qed.

(** *** Updates of a run *)

Lemma update_run_gave id where_ r env db b db' : update_run id where_ r env db = Gave (b, db') ->
  (b = false /\ db' = db) \/
  (b = true /\ exists row, row_of id db = Some row /\ where_ row = true /\
     db' = set_runs (map_set id (stored r (rv_clock env) row) (runs db)) db).
Proof.
  unfold update_run. intros H. tx_run. destruct (row_of id _) as [row|] eqn:Er; [|tx_run; by left].
  destruct (where_ row) eqn:Ew; tx_run; [|by left]. right. eauto 6.
Qed.

Lemma stored_keeps i db id row r clock :
  runs_ok db -> row_of id db = Some row -> access db = true -> ahead (rw_record row) r ->
  rw_revision row < rr_revision r -> rr_state r ∈ sql_moves (rw_state row) -> rr_state r <> Accepted ->
  runs_ok (set_runs (map_set id (stored r clock row) (runs db)) db) /\
  run_yields i db (set_runs (map_set id (stored r clock row) (runs db)) db).
Proof.
  intros Hok Hr Hacc Ha Hrev Hs Hn. eapply store_keeps; [exact Hok|exact Hr|by constructor|exact Hacc|done|done|done].
Qed.

(** Nothing is accepted any more. *)
Definition not_accepted (id : string) (db : RunsDb) : Prop :=
  exists row, row_of id db = Some row /\ rw_state row <> Accepted.

Lemma not_accepted_later id db db' : runs_later db db' -> not_accepted id db -> not_accepted id db'.
Proof.
  intros [L _ _] (row & Hr & Hs). destruct (L _ _ Hr) as (row' & Hr' & He). exists row'. split; [done|].
  intros Ha. by apply Hs, (evolves_accepted _ _ He).
Qed.

Lemma not_accepted_stored id row r clock db : rr_state r <> Accepted ->
  not_accepted id (set_runs (map_set id (stored r clock row) (runs db)) db).
Proof. intros Hs. exists (stored r clock row). rewrite row_of_store, decide_True by done. done. Qed.

(** *** The barrier *)

Definition mine (i : nat) (id : string) (db : RunsDb) : Prop := marked_by db !! id = Some i.
(** The record of the attempt, of a run the thread has marked. *)
Definition owned (i : nat) (id : string) (r : PlanRunRecord) (db : RunsDb) : Prop :=
  mine i id db /\ forall row, row_of id db = Some row -> rw_state row = Accepted -> ahead (rw_record row) r.

Lemma mine_rely i id db db' : runs_rely i db db' -> mine i id db -> mine i id db'.
Proof. intros [_ [_ E _]] H. by apply E. Qed.
Lemma owned_rely i id r db db' : runs_rely i db db' -> owned i id r db -> owned i id r db'.
Proof.
  intros Hr [Hm Ho]. split; [by eapply mine_rely|]. intros row H1 H2. apply Ho; [|done].
  destruct Hr as [_ [_ _ E]]. by apply E.
Qed.
Lemma owned_ahead i id r r' db : ahead r r' -> owned i id r db -> owned i id r' db.
Proof. intros Ha [Hm Ho]. split; [done|]. intros row H1 H2. etransitivity; [by apply Ho|done]. Qed.

Lemma mark_keeps i db id : runs_ok db -> execution_enabled db = true -> id ∉ execution_unsettled db ->
  is_Some (row_of id db) -> access db = true ->
  runs_ok (set_marks (execution_unsettled db ++ [id]) (<[id := i]> (marked_by db)) db) /\
  run_yields i db (set_marks (execution_unsettled db ++ [id]) (<[id := i]> (marked_by db)) db).
Proof.
  intros [O1 O2 O3 O4 O5 O6 O7] He Hn Hrow Hacc.
  assert (marked_by db !! id = None) as Hfree.
  { destruct (marked_by db !! id) eqn:E1; [|done]. destruct Hn. apply O5. by eexists. }
  assert (runs_later db (set_marks (execution_unsettled db ++ [id]) (<[id := i]> (marked_by db)) db)) as Hl.
  { constructor; cbn; [|congruence|congruence]. intros id' row Hr. exists row. split; [done|reflexivity]. }
  split; [|split; [done|]].
  - constructor; cbn; [done|done| | | | |congruence].
    + intros id' row Hr. destruct (O3 _ _ Hr) as [R1 R2 R3 R4 R5 R6 R7 R8 R9]. constructor; try done. cbn. intros Ha Hm.
      apply R9; [done|]. destruct (decide (id = id')) as [->|]; [by rewrite lookup_insert_eq in Hm|by rewrite lookup_insert_ne in Hm].
    + intros j id' Hj. apply O4 in Hj. rewrite lookup_insert_ne; [done|]. intros ->. congruence.
    + intros id'. rewrite elem_of_app, list_elem_of_singleton, O5. destruct (decide (id = id')) as [->|].
      * rewrite lookup_insert_eq. split; [eauto|]. by right.
      * rewrite lookup_insert_ne by done. split; [by intros [?| ->]|by left].
    + intros id' j. destruct (decide (id = id')) as [->|]; [done|]. rewrite lookup_insert_ne by done. apply O6.
  - intros j Hj. split; [done|]. constructor; cbn; [done| |done]. intros id'.
    destruct (decide (id = id')) as [->|]; [|by rewrite lookup_insert_ne].
    rewrite lookup_insert_eq, Hfree. split; [by intros [= ->]|done].
Qed.

(** What the attempt's record knows when the run was just marked. *)
Lemma seen_owned id r db : runs_ok db -> marked_by db !! id = None -> seen id r db ->
  forall row, row_of id db = Some row -> rw_state row = Accepted -> ahead (rw_record row) r.
Proof.
  intros Hok Hm (row0 & row & H1 & H2 & H3 & H4 & H5 & H6) row' Hr Hs. rewrite Hr in H5. injection H5 as <-.
  destruct (ok_rows _ Hok _ _ Hr) as [_ _ _ _ _ _ _ _ R9]. specialize (R9 Hs Hm).
  destruct H6 as [->|[_ _ _ _ _ H6 _]]; [subst; reflexivity|lia].
Qed.

Lemma begin_ends i id r db0 : seen id r db0 ->
  run_ends i (fun _ db => owned i id r db /\ seen id r db) anyhow (beginExecution true i id) db0.
Proof.
  intros Hseen. unfold beginExecution. cbn [negb].
  eapply ends_bind with (Q' := fun (marked : bool) db => if marked then owned i id r db /\ seen id r db else True).
  - apply statement; [|done]. intros env db a db' Hok Hr H. unfold mark_run in H. stmt H.
    assert (access db = true) as Hacc by by eapply session_access.
    assert (seen id r db) as Hs by (eapply seen_later; [apply Hr|done]).
    destruct (execution_enabled db) eqn:He; cbn [andb] in H.
    2:{ stmt H. split; [done|]. split; [reflexivity|done]. }
    destruct (includes (execution_unsettled db) id) eqn:Hi; cbn [negb] in H; stmt H.
    { split; [done|]. split; [reflexivity|done]. }
    unfold includes in Hi. apply bool_decide_eq_false in Hi.
    destruct (mark_keeps i db id Hok He Hi) as [H1 H2]; [|done|].
    { destruct Hs as (? & row & _ & _ & _ & _ & Hrow & _). by exists row. }
    split; [done|]. split; [done|]. split; [|eapply seen_later; [apply H2|done]].
    split; [apply lookup_insert_eq|]. apply (seen_owned id r db Hok); [|done].
    destruct (marked_by db !! id) eqn:E1; [|done]. destruct Hi. apply (ok_unsettled _ Hok). by eexists.
  - intros [] db H; [done|exact Logic.I].
Qed.

Lemma unmark_keeps i db id : runs_ok db -> mine i id db -> executing db !! i = None -> not_accepted id db ->
  access db = true ->
  runs_ok (set_marks (base.filter (fun x => x <> id) (execution_unsettled db)) (delete id (marked_by db)) db) /\
  run_yields i db (set_marks (base.filter (fun x => x <> id) (execution_unsettled db)) (delete id (marked_by db)) db).
Proof.
  intros [O1 O2 O3 O4 O5 O6 O7] Hm He (row0 & Hrow & Hna) Hacc. unfold mine in *.
  assert (runs_later db (set_marks (base.filter (fun x => x <> id) (execution_unsettled db)) (delete id (marked_by db)) db)) as Hl.
  { constructor; cbn; [|intros ->; split; [done|by intros ->]|congruence]. intros id' row Hr. exists row. split; [done|reflexivity]. }
  split; [|split; [done|]].
  - constructor; cbn; [done|done| | | | |congruence].
    + intros id' row Hr. destruct (O3 _ _ Hr) as [R1 R2 R3 R4 R5 R6 R7 R8 R9]. constructor; try done. cbn. intros Ha Hn.
      destruct (decide (id = id')) as [->|]; [|apply R9; [done|by rewrite lookup_delete_ne in Hn]].
      unfold row_of in *. cbn in Hr. congruence.
    + intros j id' Hj. pose proof (O4 _ _ Hj) as Hj'. rewrite lookup_delete_ne; [done|]. intros ->. congruence.
    + intros id'. rewrite list_elem_of_filter, O5. destruct (decide (id = id')) as [->|].
      * rewrite lookup_delete_eq. split; [by intros []|by intros []].
      * rewrite lookup_delete_ne by done. split; [by intros []|done].
    + intros id' j. destruct (decide (id = id')) as [->|]; [by rewrite lookup_delete_eq|].
      rewrite lookup_delete_ne by done. apply O6.
  - intros j Hj. split; [done|]. constructor; cbn; [done| |done]. intros id'.
    destruct (decide (id = id')) as [->|]; [|by rewrite lookup_delete_ne].
    rewrite lookup_delete_eq, Hm. split; [done|congruence].
Qed.

Lemma end_ends i id db0 : mine i id db0 -> executing db0 !! i = None -> not_accepted id db0 ->
  run_ends i anyhow anyhow (endExecution true i id) db0.
Proof.
  intros Hm He Hn. unfold endExecution. cbn [negb]. apply statement; [|done]. intros env db a db' Hok Hr H. unfold unmark_run in H. stmt H.
  destruct Hr as [Hl Ho]. destruct (unmark_keeps i db id Hok) as [H1 H2]; [..|done].
  - eapply mine_rely; [by split|done].
  - by rewrite (ow_executing _ _ _ Ho).
  - by eapply not_accepted_later.
  - by eapply session_access.
Qed.

(** *** The executor *)

Lemma executing_keeps i db x : runs_ok db -> (forall id, x = Some id -> mine i id db) ->
  runs_ok (set_executing (partial_alter (fun _ => x) i (executing db)) db) /\
  run_yields i db (set_executing (partial_alter (fun _ => x) i (executing db)) db).
Proof.
  intros [O1 O2 O3 O4 O5 O6 O7] Hx. split; [|split].
  - constructor; cbn; [done|done| | |done|done|done].
    + intros id row Hr. destruct (O3 _ _ Hr) as [R1 R2 R3 R4 R5 R6 R7 R8 R9]. by constructor.
    + intros j id. destruct (decide (i = j)) as [->|]; [|rewrite lookup_partial_alter_ne by done; apply O4].
      rewrite lookup_partial_alter_eq. apply Hx.
  - by apply later_same_runs.
  - intros j Hj. split; [by apply later_same_runs|]. constructor; cbn; [|done|done].
    by rewrite lookup_partial_alter_ne.
Qed.

Lemma entered_ends i id (P : RunsDb -> Prop) db0 :
  mine i id db0 -> P db0 -> (forall db db', runs_rely i db db' -> P db -> P db') ->
  (forall db x, P db -> P (set_executing x db)) ->
  run_ends i (fun _ db => P db) anyhow (step (entered i id)) db0.
Proof.
  intros Hm HP Hrely Hset. apply statement; [|done]. intros env db a db' Hok Hr H. unfold entered in H. stmt H.
  destruct (executing_keeps i db (Some id) Hok) as [H1 H2].
  { intros id' [= <-]. by eapply mine_rely. }
  split; [done|]. split; [done|]. apply Hset. by eapply Hrely.
Qed.
Lemma left_ends i (P : RunsDb -> Prop) db0 :
  P db0 -> (forall db db', runs_rely i db db' -> P db -> P db') -> (forall db x, P db -> P (set_executing x db)) ->
  run_ends i (fun _ db => P db /\ executing db !! i = None) anyhow (step (left_ i)) db0.
Proof.
  intros HP Hrely Hset. apply statement; [|done]. intros env db a db' Hok Hr H. unfold left_ in H. stmt H.
  destruct (executing_keeps i db None Hok) as [H1 H2]; [done|].
  split; [done|]. split; [done|]. split; [apply Hset; by eapply Hrely|apply lookup_delete_eq].
Qed.

Lemma owned_set_executing i id r db x : owned i id r db -> owned i id r (set_executing x db).
Proof. done. Qed.

Lemma progress_keeps i id r env db b db' : runs_ok db -> access db = true -> owned i id r db ->
  (forall row, row_of id db = Some row -> rw_state row = Accepted -> rw_revision row < rr_revision r /\ rr_state r = Accepted) ->
  update_progress id r env db = Gave (b, db') ->
  runs_ok db' /\ run_yields i db db' /\ owned i id r db'.
Proof.
  intros Hok Hacc Ho Hst H. unfold update_progress in H. tx_run.
  destruct (row_of id _) as [row|] eqn:Er; [|tx_run; split; [done|]; split; [reflexivity|done]].
  destruct (in_state Accepted row) eqn:Es; tx_run; [|split; [done|]; split; [reflexivity|done]].
  unfold in_state in Es. apply bool_decide_eq_true in Es. destruct (Hst _ eq_refl Es) as [H1 H2].
  match goal with |- context [map_set id ?x] => set (row' := x) end.
  match goal with |- context [set_runs _ ?d] => rename d into db end.
  destruct (store_keeps i db id row row') as [K1 K2]; [done|done| |done|by subst row'; cbn; congruence|done|by intros _; apply Ho|].
  { constructor; try done; cbn; [by apply (proj2 Ho)|]. rewrite Es. left. }
  split; [done|]. split; [done|]. split; [apply Ho|]. intros row1 Hr1 _. subst row'. revert Hr1. rewrite row_of_store, decide_True by done.
  intros [= <-]. reflexivity.
Qed.

(** The attempt's record is ahead of the row, and still says [accepted]. *)
Definition attempting (i : nat) (id : string) (r : PlanRunRecord) (db : RunsDb) : Prop :=
  owned i id r db /\ rr_state r = Accepted.

Lemma reportProgress_ends i id progress r db0 : attempting i id r db0 ->
  run_ends i (fun answer db => attempting i id answer.1 db) anyhow (reportProgress i id progress r) db0.
Proof.
  intros [Ho Hs]. unfold reportProgress.
  eapply ends_bind with (Q' := fun _ db => owned i id r db).
  { apply quiet_statement. intros env db a db' _ Hr H. stmt H. split; [apply quiet_refl|by eapply owned_rely]. }
  intros now db1 Ho1. pose proof (owned_ahead _ _ _ _ _ (ahead_progress progress now r) Ho1) as Ho2.
  eapply ends_try with (Q' := fun _ db => owned i id (with_progress progress now r) db)
                       (T' := fun _ db => owned i id (with_progress progress now r) db).
  - apply statement.
    + intros env db a db' Hok Hr H. stmt H. eapply progress_keeps; [done|by eapply session_access|by eapply owned_rely| |done].
      intros row H1 H2. split; [|done]. destruct (owned_rely _ _ _ _ _ Hr Ho1) as [_ Ho3].
      pose proof (ah_revision _ _ (Ho3 _ H1 H2)). rewrite (ro_revision _ _ _ (ok_rows _ Hok _ _ H1)). cbn. lia.
    + intros env db e _ Hr _. by eapply owned_rely.
  - intros saved db H. by split.
  - intros e db H. by split.
Qed.

Lemma attempt_ends i id e : forall r db0, attempting i id r db0 ->
  run_ends i (fun answer db => attempting i id answer.1 db) anyhow (attempt i id e r) db0.
Proof.
  induction e as [outcome|[progress|m] next IH]; intros r db0 H; cbn [attempt]; [done| |by apply IH].
  eapply ends_bind; [by apply reportProgress_ends|]. intros [r1 answer] db1 H1. by apply IH.
Qed.

Lemma finish_keeps i id r outcome env db b db' now checkpointId : runs_ok db -> access db = true ->
  attempting i id r db ->
  update_run id (in_state Accepted) (touched now (concluded r outcome None Datatypes.id checkpointId now)) env db = Gave (b, db') ->
  runs_ok db' /\ run_yields i db db' /\ mine i id db' /\ executing db' = executing db /\ (b = true -> not_accepted id db').
Proof.
  intros Hok Hacc [[Hm Ho] Hst] H.
  destruct (update_run_gave _ _ _ _ _ _ _ H) as [[-> ->]|[-> (row & Er & Es & ->)]].
  { split; [done|]. split; [reflexivity|done]. }
  unfold in_state in Es. apply bool_decide_eq_true in Es.
  match type of H with update_run _ _ (touched _ ?c) _ _ = _ => set (r1 := c) in * end.
  destruct (concluded_spec r outcome None Datatypes.id checkpointId now) as [C1 C2]. fold r1 in C1, C2.
  pose proof (Ho _ Er Es) as Ha. pose proof (ah_revision _ _ Ha). pose proof (ah_revision _ _ C1).
  pose proof (ro_revision _ _ _ (ok_rows _ Hok _ _ Er)).
  assert (rr_state r1 <> Accepted) as Hna by by destruct C2 as [->|[->| ->]].
  destruct (stored_keeps i db id row (touched now r1) (rv_clock env)) as [K1 K2]; try done.
  - etransitivity; [exact Ha|]. etransitivity; [exact C1|apply ahead_touched].
  - cbn. lia.
  - apply closed_moves; [done|by left].
  - split; [done|]. split; [done|]. split; [done|]. split; [done|]. intros _. by apply not_accepted_stored.
Qed.

Lemma execute_claimed_fine i id session : fine i (execute_claimed true executor i id session).
Proof.
  intros db0. unfold execute_claimed.
  eapply ends_bind; [apply (select_in_ends i id Accepted)|]. intros [r|] db1; [|done]. intros [Hseen Hst].
  eapply ends_bind; [by apply (begin_ends i id r)|]. intros [] db2 [Ho2 _].
  eapply ends_bind; [apply (entered_ends i id (owned i id r)); [apply Ho2|done|by apply owned_rely|done]|]. intros [] db3 Ho3.
  eapply ends_bind; [apply attempt_ends; by split|]. intros [r1 outcome] db4 H4.
  eapply ends_bind; [apply (left_ends i (attempting i id r1)); [done| |done]|].
  { intros db db' Hr [H1 H2]. split; [by eapply owned_rely|done]. }
  intros [] db5 [H5 He5].
  eapply ends_bind with (Q' := fun (b : bool) db => b = true -> mine i id db /\ executing db !! i = None /\ not_accepted id db).
  - apply statement; [|done]. intros env db b db' Hok Hr H. unfold finish_accepted in H. stmt H.
    destruct (finish_keeps i id r1 outcome env db b db' (rv_now env) (rv_uuid env) Hok) as (K1 & K2 & K3 & K4 & K5); [by eapply session_access| |done|].
    { destruct H5 as [H5 H6]. split; [by eapply owned_rely|done]. }
    split; [done|]. split; [done|]. intros Hb. split; [done|]. split; [|auto]. rewrite K4.
    by rewrite (ow_executing _ _ _ (proj2 Hr)).
  - intros [] db H; [|done]. destruct (H eq_refl) as (H1 & H2 & H3).
    eapply ends_bind; [by apply end_ends|]. intros [] db' _. done.
Qed.

Lemma execute_fine i id session : fine i (execute hashtext true executor i id session).
Proof.
  unfold execute. cbv iota. apply fine_bind; [apply connect_fine|]. intros []. apply fine_finally; [apply release_fine|].
  apply fine_bind; [apply lock_shared_fine|]. intros [].
  apply fine_finally; [apply fine_ignore, unlock_shared_fine|].
  apply fine_bind; [apply session_select_fine|]. intros []; [|apply fine_ret].
  unfold execute_run. apply fine_bind; [apply try_lock_fine|]. intros []; [|apply fine_ret].
  apply fine_finally; [apply unlock_run_fine|apply execute_claimed_fine].
Qed.

Lemma execute_each_fine i ids : forall n, fine i (execute_each hashtext true executor i ids n).
Proof.
  induction ids as [|id ids IH]; intros n; cbn [execute_each]; [apply fine_ret|].
  apply fine_bind; [apply execute_fine|]. intros done_. apply IH.
Qed.

Lemma recover_fine i : fine i (recoverAcceptedRuns hashtext true executor i).
Proof. apply fine_bind; [apply pool_select_fine|]. intros ids. apply execute_each_fine. Qed.

(** *** [start] *)

Lemma row_of_added id row id' db :
  row_of id' (set_runs (runs db ++ [(id, row)]) db) =
    match row_of id' db with Some r => Some r | None => if decide (id' = id) then Some row else None end.
Proof. unfold row_of. cbn. rewrite map_get_app. done. Qed.

Lemma insert_keeps i db id admitted now clock :
  let row := row_of_request admitted (materialHash_ admitted) id now clock in
  runs_ok db -> access db = true -> map_has id (runs db) = false ->
  existsb (of_key (rw_subject_id row) (rw_idempotency_key row)) (runs db) = false ->
  runs_ok (set_runs (runs db ++ [(id, row)]) db) /\ run_yields i db (set_runs (runs db ++ [(id, row)]) db).
Proof.
  intros row [O1 O2 O3 O4 O5 O6 O7] Hacc Hnew Hkey.
  assert (row_of id db = None) as Hnone.
  { unfold row_of. unfold map_has in Hnew. apply bool_decide_eq_false in Hnew. by apply eq_None_not_Some. }
  assert (runs_later db (set_runs (runs db ++ [(id, row)]) db)) as Hl.
  { constructor; cbn; [|auto|congruence]. intros id' r Hr. exists r. rewrite row_of_added, Hr. split; [done|reflexivity]. }
  split; [|split; [done|]].
  - constructor; cbn; [| | |done|done| |congruence].
    + by apply map_ok_add.
    + unfold run_keys. cbn. rewrite fmap_app. cbn. apply NoDup_app. split; [done|]. split; [|apply NoDup_singleton].
      intros k Hk ->%list_elem_of_singleton. apply list_elem_of_fmap in Hk as ([id1 r1] & E1 & Hin). cbn in E1.
      assert (existsb (of_key (rw_subject_id row) (rw_idempotency_key row)) (runs db) = true) as Hex.
      { apply existsb_elem. exists (id1, r1). split; [done|]. unfold of_key. cbn. injection E1 as -> ->.
        by rewrite !String.eqb_refl. }
      congruence.
    + intros id' r. rewrite row_of_added. destruct (row_of id' db) as [r0|] eqn:E0.
      * intros [= <-]. destruct (O3 _ _ E0). by constructor.
      * case_decide; [|done]. intros [= <-]. subst id'. by constructor.
    + intros id' j Hm. rewrite row_of_added. destruct (O6 _ _ Hm) as [r ->]. by eexists.
  - intros j Hj. split; [done|]. constructor; cbn; [done|done|]. intros id' r Hm Hr _. revert Hr. rewrite row_of_added.
    by destruct (O6 _ _ Hm) as [r0 ->].
Qed.

Lemma insert_fine i admitted : fine i (step (insert_run admitted (materialHash_ admitted))).
Proof.
  intros db0. apply statement; [|done]. intros env db a db' Hok Hr H. unfold insert_run in H. stmt H.
  destruct (existsb _ _) eqn:Ec; stmt H; [split; [done|]; split; [reflexivity|done]|].
  match goal with |- runs_ok (set_runs _ ?d) /\ _ => destruct (insert_keeps i d (rv_uuid env) admitted (rv_now env) (rv_clock env)); done end.
Qed.

Lemma start_fine i cloned : fine i (start_run sha256_hex true cloned).
Proof.
  unfold start_run. apply fine_bind; [apply fine_result|]. intros admitted. destruct (negb _); [apply fine_raise|].
  apply fine_bind; [apply pool_select_fine|]. intros []; cbn [negb]; [|apply fine_raise].
  apply fine_bind; [apply insert_fine|]. intros [h|]; [apply fine_ret|].
  apply fine_bind; [apply pool_select_fine|]. intros [[id row]|]; [|apply fine_raise].
  destruct (String.eqb _ _); [apply fine_ret|apply fine_raise].
Qed.

(** *** [cancel] *)

Lemma status_ends i id db0 :
  run_ends i (fun r db => match r with Some r => seen id r db | None => True end) anyhow (run_status id) db0.
Proof.
  apply quiet_statement. intros env db a db' Hok _ H. stmt H. split; [apply quiet_refl|].
  destruct (row_of id db) as [row|] eqn:Er; cbn; [by apply seen_now|done].
Qed.

Lemma cancel_legal s : s <> Planning -> s <> Run.Running -> s <> Cancelled ->
  assertPlanRunTransition s Cancelled = Ok tt -> Cancelled ∈ sql_moves s.
Proof. destruct s; try done; intros; set_solver. Qed.

Lemma seen_settled id r db : runs_ok db -> seen id r db -> forall row, row_of id db = Some row ->
  rw_revision row = rr_revision r -> rr_state r <> Planning /\ rr_state r <> Run.Running.
Proof.
  intros Hok Hs row Hr He. destruct (seen_same _ _ _ _ Hok Hs Hr He) as [_ <-]. apply (ro_settled _ _ _ (ok_rows _ Hok _ _ Hr)).
Qed.

Lemma cancel_fine i id : fine i (cancel_run id).
Proof.
  intros db0. unfold cancel_run. eapply ends_bind; [apply status_ends|]. intros [r|] db1; [|done]. intros Hseen.
  destruct (bool_decide _) eqn:Ec; [done|]. apply bool_decide_eq_false in Ec.
  destruct (assertPlanRunTransition (rr_state r) Cancelled) as [[]|m] eqn:El; [|done].
  eapply ends_bind with (Q' := fun _ => seen id r); [done|]. intros [] db2 Hseen2.
  eapply ends_bind with (Q' := anyhow); [|intros [] db _; done].
  apply statement; [|done]. intros env db a db' Hok Hr H. stmt H.
  match goal with Hu : update_run _ _ _ _ _ = Gave _ |- _ => rename Hu into Hupd end.
  destruct (update_run_gave _ _ _ _ _ _ _ Hupd) as [[-> ->]|[-> (row & Er & Es & ->)]].
  { split; [done|]. split; [reflexivity|done]. }
  apply Nat.eqb_eq in Es. assert (seen id r db) as Hs by (eapply seen_later; [apply Hr|done]).
  destruct (seen_same _ _ _ _ Hok Hs Er Es) as [E1 E2], (seen_settled _ _ _ Hok Hs _ Er Es).
  destruct (stored_keeps i db id row (touched (rv_now env) (with_state Cancelled r)) (rv_clock env)) as [K1 K2]; try done.
  - rewrite E1. etransitivity; [apply ahead_with_state|apply ahead_touched].
  - cbn. lia.
  - rewrite E2. by apply cancel_legal.
Qed.

(** *** [resume] *)

Lemma replaceWaiting_ends i id r (next : string -> string -> PlanRunRecord) (P : RunsDb -> Prop) db0 :
  seen id r db0 -> rr_state r = WaitingForInput -> P db0 ->
  (forall db db', runs_rely i db db' -> P db -> P db') -> (forall db x, P db -> P (set_runs x db)) ->
  (forall c n, ahead r (next c n) /\ closed_state (rr_state (next c n))) ->
  run_ends i (fun _ db => P db /\ not_accepted id db) anyhow (replaceWaiting i id (rr_revision r) next) db0.
Proof.
  intros Hseen Hst HP Hrely Hset Hnext. unfold replaceWaiting.
  eapply ends_bind with (Q' := fun o db => match o with Some _ => P db /\ not_accepted id db | None => True end);
    [|intros [] db H; done].
  apply statement; [|done]. intros env db a db' Hok Hr H. stmt H.
  match goal with Hu : update_run _ _ _ _ _ = Gave _ |- _ => rename Hu into Hupd end.
  destruct (update_run_gave _ _ _ _ _ _ _ Hupd) as [[-> ->]|[-> (row & Er & Es & ->)]].
  { split; [done|]. split; [reflexivity|done]. }
  apply andb_prop in Es as [_ Es]. apply Nat.eqb_eq in Es.
  assert (seen id r db) as Hs by (eapply seen_later; [apply Hr|done]).
  destruct (seen_same _ _ _ _ Hok Hs Er Es) as [E1 E2]. destruct (Hnext (rv_uuid env) (rv_now env)) as [N1 N2].
  assert (rr_state (next (rv_uuid env) (rv_now env)) <> Accepted) as Hna by by destruct N2 as [->|[->| ->]].
  destruct (stored_keeps i db id row (touched (rv_now env) (next (rv_uuid env) (rv_now env))) (rv_clock env)) as [K1 K2]; try done.
  - by eapply session_access.
  - rewrite E1. etransitivity; [exact N1|apply ahead_touched].
  - pose proof (ah_revision _ _ N1). cbn. lia.
  - rewrite E2, Hst. apply closed_moves; [done|by right].
  - split; [done|]. split; [done|]. split; [apply Hset; by eapply Hrely|by apply not_accepted_stored].
Qed.

Lemma resume_claimed_fine i id submission session : fine i (resume_claimed true executor i id submission session).
Proof.
  intros db0. unfold resume_claimed. eapply ends_bind with (Q' := anyhow).
  { destruct submission as [|? ? ? [v|m]]; done. }
  intros [] db1 _. eapply ends_bind; [apply (select_in_ends i id WaitingForInput)|]. intros [r|] db2; [|done]. intros [Hseen Hst].
  destruct (requiredContinuation _ _) as [c|m]; [|done]. cbn [lift_result].
  eapply ends_bind with (Q' := fun c' db => seen id r db); [done|]. intros c' db3 Hseen3.
  destruct submission as [req cid|req cid kind value_].
  - eapply ends_bind; [apply (replaceWaiting_ends i id r _ (fun _ => True)); try done|by intros r' db4].
    intros _ _. split; [apply ahead_continuations|by left].
  - destruct (negb _); [done|].
    eapply ends_bind; [by apply (begin_ends i id r)|]. intros [] db4 [Ho4 Hs4].
    eapply ends_bind; [apply (entered_ends i id (fun db => mine i id db /\ seen id r db));
                         [apply Ho4|by split; [apply Ho4|]| |done]|].
    { intros db db' Hr [H1 H2]. split; [by eapply mine_rely|eapply seen_later; [apply Hr|done]]. }
    intros [] db5 H5.
    eapply ends_bind; [apply (left_ends i (fun db => mine i id db /\ seen id r db)); [done| |done]|].
    { intros db db' Hr [H1 H2]. split; [by eapply mine_rely|eapply seen_later; [apply Hr|done]]. }
    intros [] db6 [[H6 H7] H8].
    eapply ends_bind.
    { apply (replaceWaiting_ends i id r _ (fun db => mine i id db /\ executing db !! i = None)); [done|done|done| |done|].
      - intros db db' Hr [H1 H2]. split; [by eapply mine_rely|]. by rewrite (ow_executing _ _ _ (proj2 Hr)).
      - intros ? ?. apply concluded_spec. }
    intros r' db7 [[H9 H10] H11]. eapply ends_bind; [by apply end_ends|]. by intros [] db8 _.
Qed.

Lemma resume_fine i id submission session : fine i (resume_run hashtext true executor i id submission session).
Proof.
  unfold resume_run. cbv iota. apply fine_bind; [apply connect_fine|]. intros []. apply fine_finally; [apply release_fine|].
  apply fine_bind; [apply lock_shared_fine|]. intros [].
  apply fine_finally; [apply fine_ignore, unlock_shared_fine|].
  apply fine_bind; [apply session_select_fine|]. intros []; [|apply fine_raise].
  unfold resume_with_lock. apply fine_bind; [apply try_lock_fine|]. intros []; [|apply fine_raise].
  apply fine_finally; [apply fine_ignore, unlock_run_fine|apply resume_claimed_fine].
Qed.

(** *** The movement *)

Definition paused (db : RunsDb) : Prop := execution_enabled db = false.
Definition paused_settled (db : RunsDb) : Prop := paused db /\ execution_unsettled db = [].

Lemma paused_rely i db db' : runs_rely i db db' -> paused db -> paused db'.
Proof. intros [[_ L _] _] H. by apply L. Qed.
Lemma settled_rely i db db' : runs_rely i db db' -> paused_settled db -> paused_settled db'.
Proof. intros [[_ L _] _] [H1 H2]. destruct (L H1) as [H3 H4]. by split; [|apply H4]. Qed.

Lemma pause_ends i db0 : run_ends i (fun _ => paused) anyhow (step (update (set_enabled false)) : rprog unit) db0.
Proof.
  apply statement; [|done]. intros env db a db' [O1 O2 O3 O4 O5 O6 O7] Hr H. stmt H.
  assert (runs_later db (set_enabled false db)) as Hl.
  { constructor; cbn; [|done|done]. intros id row Hrow. exists row. split; [done|reflexivity]. }
  split; [|split; [|done]].
  - constructor; cbn; try done.
    + intros id row Hrow. destruct (O3 _ _ Hrow). by constructor.
    + intros Ha. destruct (O7 Ha) as (_ & ? & ?). done.
  - split; [done|]. intros j Hj. split; [done|]. by constructor.
Qed.

Lemma stop_keeps i db : runs_ok db -> paused_settled db ->
  runs_ok (set_access false (set_connections ∅ ∅ ∅ db)) /\
  run_yields i db (set_access false (set_connections ∅ ∅ ∅ db)).
Proof.
  intros [O1 O2 O3 O4 O5 O6 O7] [Hp Hs].
  assert (runs_later db (set_access false (set_connections ∅ ∅ ∅ db))) as Hl.
  { constructor; cbn; [|auto|auto]. intros id row Hrow. exists row. split; [done|reflexivity]. }
  split; [|split; [done|]].
  - constructor; cbn; try done. intros id row Hrow. destruct (O3 _ _ Hrow). by constructor.
  - intros j Hj. split; [done|]. by constructor.
Qed.

Lemma unlock_exclusive_fine i : fine i (step (unlock_exclusive i)).
Proof.
  intros db0. apply quiet_statement. intros env db a db' Hok _ H. unfold unlock_exclusive in H. stmt H.
  split; [|done]. case_bool_decide; by constructor.
Qed.

Lemma stop_fine i : fine i (stopApplicationAccess i).
Proof.
  intros db0. unfold stopApplicationAccess. eapply ends_bind; [apply pause_ends|]. intros [] db1 Hp1.
  apply ends_finally; [apply unlock_exclusive_fine|].
  eapply ends_bind with (Q' := fun _ => paused).
  { apply quiet_statement. intros env db a db' Hok Hr H. unfold lock_exclusive in H. stmt H.
    split; [by constructor|]. by apply (paused_rely i _ _ Hr). }
  intros [] db2 Hp2.
  eapply ends_bind with (Q' := fun n db => n = 0 -> paused_settled db).
  { apply quiet_statement. intros env db a db' Hok Hr H. stmt H. split; [apply quiet_refl|]. intros Hn%length_zero_iff_nil.
    split; [by eapply paused_rely|done]. }
  intros n db3 Hn. destruct (Nat.eqb n 0) eqn:E0; cbn [negb]; [|done]. apply Nat.eqb_eq in E0. specialize (Hn E0).
  eapply ends_bind with (Q' := fun _ => paused_settled).
  { apply quiet_statement. intros env db a db' Hok Hr H. stmt H. split; [apply quiet_refl|by eapply settled_rely]. }
  intros [] db4 H4; [done|]. apply statement; [|done]. intros env db a db' Hok Hr H. unfold stop_roles in H. stmt H.
  destruct (stop_keeps i db Hok) as [H1 H2]; [by eapply settled_rely|done].
Qed.
End Facts.

(** * The plan runner of the customers as a system

    The theorems on [SqlRunner]: for every interleaving of requests, executions, recoveries
    and movements, whatever the executors do ([RunnerSystem]); and, for an execution that
    is left alone, that it ends as one of the process-local runner does ([MemoryRunner]). *)

Section System.
Context {collation : Collation}.
Context (sha256_hex : string -> string) (hashtext : string -> Z).
Context (executor : PlanRunStartRequest -> ExecutionContext -> execution).

Abbreviation runs_step_ := (runs_step sha256_hex hashtext true executor).
Abbreviation runs_ok_ := (runs_ok sha256_hex).

Definition runs_reachable (s : threads RunEnv RunsDb run_error) : Prop :=
  exists time, rtc runs_step_ (runner_start time) s.

Lemma service_fine i A (p : rprog A) : run_service sha256_hex hashtext true executor i A p -> fine sha256_hex i p.
Proof.
  destruct 1 as [cloned|id|id|id submission session|id session| |].
  - apply start_fine.
  - intros db. eapply ends_fine, status_ends.
  - apply cancel_fine.
  - apply resume_fine.
  - apply execute_fine.
  - apply recover_fine.
  - apply stop_fine.
Qed.

Lemma background_fine db db' : runs_ok_ db -> run_background db db' ->
  runs_ok_ db' /\ runs_later db db' /\ forall i, runs_rely i db db'.
Proof.
  intros Hok Hb. assert (quiet_connections db db') as Hq.
  { destruct Hb; constructor; try done. cbn. intros _ ->. set_solver. }
  destruct (quiet_keeps sha256_hex _ _ Hq Hok) as [H1 H2]. split; [done|]. split; [apply (H2 0)|done].
Qed.

Lemma empty_runs_ok : runs_ok_ empty_runs.
Proof.
  constructor; cbn; try done; [constructor..|]. intros id. split; [by intros ?%elem_of_nil|by intros []].
Qed.

Abbreviation all_ok :=
  (threads_ok run_admissible (fun _ => runs_ok_) runs_later runs_rely unused).

Lemma runs_step_keeps s s' : all_ok s -> rtc runs_step_ s s' -> all_ok s' /\ runs_later (th_db s) (th_db s').
Proof.
  apply threads_keep; try typeclasses eauto.
  - apply unused_stable.
  - intros i A p Hp _ db _ _. eapply ends_sound, service_fine, Hp.
  - done.
  - intros _ db db' Hok Hb. by eapply background_fine.
Qed.

Lemma runner_start_ok time : all_ok (runner_start time).
Proof.
  constructor; cbn; [apply empty_runs_ok|set_solver|constructor|set_solver|]. by intros i _.
Qed.

Lemma runs_reachable_ok s : runs_reachable s -> all_ok s.
Proof. intros [time H]. by destruct (runs_step_keeps _ _ (runner_start_ok time) H). Qed.

(** C4: A customer whose access the movement has stopped has no executor at work, nothing
    unsettled and execution disabled; and however the system goes on, no run of it changes and
    no executor is entered any more. *)
Theorem stopped_customers_are_still s s' :
  runs_reachable s -> access (th_db s) = false -> rtc runs_step_ s s' ->
  executing (th_db s) = ∅ /\ execution_unsettled (th_db s) = [] /\ execution_enabled (th_db s) = false /\
  runs (th_db s') = runs (th_db s) /\ executing (th_db s') = ∅.
Proof.
  intros Hs Ha Hr. apply runs_reachable_ok in Hs. destruct (runs_step_keeps _ _ Hs Hr) as [Hs' [_ _ L]].
  destruct (L Ha) as [Ha' Hruns].
  assert (forall db, runs_ok_ db -> access db = false -> executing db = ∅) as Hidle.
  { intros db Hok Hstop. destruct (ok_stopped _ _ Hok Hstop) as (_ & Hu & _). apply map_empty. intros i.
    apply eq_None_not_Some. intros [id Hi]. apply (ok_executing _ _ Hok) in Hi.
    assert (id ∈ execution_unsettled db) as Hin by (apply (ok_unsettled _ _ Hok); by eexists). rewrite Hu in Hin. set_solver. }
  destruct Hs as [Hok _ _ _ _], Hs' as [Hok' _ _ _ _]. destruct (ok_stopped _ _ Hok Ha) as (H1 & H2 & _).
  split; [by apply Hidle|]. split; [done|]. split; [done|]. split; [done|by apply Hidle].
Qed.

(** C24: At most one thread executes a run at any time, and there is one run for an idempotency key
    of a subject, whose columns repeat what its record says. *)
Theorem runs_are_executed_once_at_a_time s :
  runs_reachable s ->
  (forall i j id, executing (th_db s) !! i = Some id -> executing (th_db s) !! j = Some id -> i = j) /\
  NoDup (run_keys (th_db s)) /\
  (forall id row, row_of id (th_db s) = Some row ->
     rr_runId (rw_record row) = id /\ rw_state row = rr_state (rw_record row) /\
     rw_revision row = rr_revision (rw_record row)).
Proof.
  intros Hs. destruct (runs_reachable_ok _ Hs) as [Hok _ _ _ _]. split; [|split; [apply Hok|]].
  - intros i j id Hi Hj. apply (ok_executing _ _ Hok) in Hi, Hj. congruence.
  - intros id row Hr. destruct (ok_rows _ _ Hok _ _ Hr). done.
Qed.

(** Whatever happens to a run, it stays the run of its command: its identifier, command, key and
    creation never change, its checkpoints are only added to, its revision grows with every
    change and its state moves forward; when it has succeeded or was cancelled, nothing
    changes any more. *)
Theorem runs_move_forward s s' id row :
  runs_reachable s -> rtc runs_step_ s s' -> row_of id (th_db s) = Some row ->
  exists row', row_of id (th_db s') = Some row' /\ row_evolves row row' /\
    (terminal (rw_state row) = true -> row' = row).
Proof.
  intros Hs Hr Hrow. apply runs_reachable_ok in Hs. destruct (runs_step_keeps _ _ Hs Hr) as [_ [L _ _]].
  destruct (L _ _ Hrow) as (row' & H1 & H2). exists row'. split; [done|]. split; [done|].
  intros Ht. destruct H2 as [->|[_ _ _ _ _ _ Hm]]; [done|]. destruct (rw_state row); try done; set_solver.
Qed.
End System.
