(* ===== verification/RunnersAgree.v ===== *)
(** * The two plan runners agree

    An execution of [SqlRunner] that is left alone ends the run as the process-local runner
    ends it ([MemoryRunner]): the same state, checkpoints, progress, continuations and
    failure, whatever the executor reports and however it ends.  Only the revision and the
    times differ: the one keeps a run [accepted] while it executes, the other moves it
    through [planning] and [running].  Concrete runs follow, with what modelling showed. *)

From S2P Require Import Prelude Contracts Json Planner Registry Authorization Run MemoryRunner Programs Threads SqlRunner RunnerSystem.
From stdpp Require Import relations.

Open Scope stdpp_scope.
Open Scope js_scope.

#[local] Arguments row_of : simpl never.

(** The record with another state, revision and time of change. *)
Definition recast (state : PlanRunState) (revision : nat) (updatedAt : string) (r : PlanRunRecord) : PlanRunRecord :=
  {| rr_runId := rr_runId r; rr_revision := revision; rr_state := state;
     rr_request := rr_request r; rr_createdAt := rr_createdAt r; rr_updatedAt := updatedAt;
     rr_checkpoints := rr_checkpoints r; rr_progress := rr_progress r;
     rr_continuations := rr_continuations r; rr_failure := rr_failure r |}.

Definition same_end (r r' : PlanRunRecord) : Prop := exists revision updatedAt, r' = recast (rr_state r) revision updatedAt r.

Lemma recast_upsert s n t r c : upsertContinuation (recast s n t r) c = recast s n t (upsertContinuation r c).
Proof. unfold upsertContinuation. cbn. by destruct (find_index _ _). Qed.

Lemma recast_checkpoint s n t r result_ id now :
  appendCheckpoint (recast s n t r) result_ id now = recast s n t <$> appendCheckpoint r result_ id now.
Proof. unfold appendCheckpoint. by destruct (er_output result_) as [[]|]. Qed.

Lemma apply_agrees n t r result_ id now :
  applyResult (recast Run.Running n t r) result_ None id now =
    match assignResult r result_ None id now with
    | (r', Ok _) => (recast (rr_state r') (S n) now r', Ok tt)
    | (r', Throw m) => (recast Run.Running n t r', Throw m)
    end.
Proof.
  unfold applyResult, assignResult. cbn [mbind option_bind]. destruct (er_continuation result_) as [c|].
  - destruct (assertContinuation c) as [[]|m]; [|done]. destruct (bool_decide _); [done|].
    rewrite recast_upsert, recast_checkpoint.
    unfold appendCheckpoint. by destruct (er_output result_) as [[]|].
  - destruct (bool_decide _); [|done]. cbn [set_resolved]. rewrite recast_checkpoint.
    unfold appendCheckpoint. by destruct (er_output result_) as [[]|].
Qed.

Lemma fail_agrees n t r message now :
  fail_record (recast Run.Running n t r) message now = recast Failed (S n) now (assignFailure message r).
Proof. done. Qed.

Lemma run_end_agrees id outcome checkpointId now n t r s :
  map_get id (mr_records s) = Some (recast Run.Running n t r) ->
  let c := concluded r outcome None Datatypes.id checkpointId now in
  run_end id outcome checkpointId now s = Ok (set_record id (recast (rr_state c) (S n) now c) s).
Proof.
  intros Hg c. subst c. unfold run_end, required. rewrite Hg. cbn -[applyResult assertPlanRunTransition].
  destruct outcome as [result_|m]; cbn -[applyResult]; [|done].
  rewrite apply_agrees. unfold concluded. destruct (assignResult r result_ None checkpointId now) as [r' [[]|m]]; [done|].
  by rewrite fail_agrees.
Qed.

(** The process-local runner, with an executor as a tree. *)
Fixpoint memory_attempt (id : string) (e : execution) (checkpointId now : string) (s : Runner) : result Runner :=
  match e with
  | Finished outcome => run_end id outcome checkpointId now s
  | Reports progress next =>
      match report_progress id progress now s with
      | Ok s => memory_attempt id (next (Ok tt)) checkpointId now s
      | Throw message => memory_attempt id (next (Throw message)) checkpointId now s
      end
  end.

Section Agree.
Context {collation : Collation}.
Context (hashtext : string -> Z).
Context (executor : PlanRunStartRequest -> ExecutionContext -> execution).
Context (env : RunEnv) (i : nat) (id : string).

Abbreviation runs_alone p db := (alone (fun _ => env) p db).

Lemma alone_session {A} (t : rtx A) db : i ∈ sessions db ->
  runs_alone (step (on_session i t)) db = perform t env db.
Proof. intros Hi. rewrite alone_step. unfold perform, on_session. by rewrite bool_decide_true. Qed.

Lemma alone_finally {A} (f : rprog unit) (m : rprog A) db :
  runs_alone (finally f m) db =
    match runs_alone m db with
    | (o, db') => match runs_alone f db' with
                  | (Gave _, db2) => (o, db2)
                  | (Threw e, db2) => (Threw e, db2)
                  end
    end.
Proof.
  unfold finally. rewrite alone_try. destruct (runs_alone m db) as [[a|e] db']; rewrite alone_then;
    by destruct (runs_alone f db') as [[[]|?] ?].
Qed.

(** The database while the run executes. *)
Record at_run (db : RunsDb) (r : PlanRunRecord) : Prop := {
  ar_session : i ∈ sessions db;
  ar_row : exists row, row_of id db = Some row /\ rw_state row = Accepted;
  ar_state : rr_state r = Accepted
}.

Lemma progress_alone r progress db : at_run db r ->
  exists db', runs_alone (reportProgress i id progress r) db =
      (Gave (with_progress progress (rv_now env) r, Ok tt), db') /\
    at_run db' (with_progress progress (rv_now env) r) /\ exists row, db' = set_runs (map_set id row (runs db)) db.
Proof.
  intros [Hs (row & Hr & Ha) Hst]. unfold reportProgress. rewrite alone_then, alone_step. cbn [perform ask].
  rewrite alone_try, alone_session by done. unfold perform, update_progress, mbind, txn_bind, ask, select, update. cbn.
  rewrite Hr. unfold in_state. rewrite Ha. cbn.
  eexists. split; [reflexivity|]. split; [|by eexists]. constructor; [done| |done].
  eexists. split; [unfold row_of; apply map_get_set_eq|done].
Qed.

Lemma attempt_alone e checkpointId : forall r db n t s, at_run db r ->
  map_get id (mr_records s) = Some (recast Run.Running n t r) ->
  exists r' outcome db' n' t' s',
    runs_alone (attempt i id e r) db = (Gave (r', outcome), db') /\ at_run db' r' /\
    (exists row, db' = set_runs (map_set id row (runs db)) db) /\
    map_get id (mr_records s') = Some (recast Run.Running n' t' r') /\
    memory_attempt id e checkpointId (rv_now env) s = run_end id outcome checkpointId (rv_now env) s'.
Proof.
  induction e as [outcome|[progress|m] next IH]; intros r db n t s Hat Hs; cbn [attempt memory_attempt].
  - exists r, outcome, db, n, t, s. split; [done|]. split; [done|]. split; [|done]. destruct Hat as [_ (row & Hr & _) _].
    exists row. rewrite map_set_same by exact Hr. by destruct db.
  - destruct (progress_alone r progress db Hat) as (db1 & H1 & Hat1 & x & ->).
    rewrite alone_then, H1. cbn [fst snd].
    unfold report_progress, required. rewrite Hs. cbn -[run_end set_record].
    destruct (IH (Ok tt) _ _ (S n) (rv_now env)
                (set_record id (with_progress progress (rv_now env) (recast Run.Running n t r)) s) Hat1)
      as (r' & o & db' & n' & t' & s' & H2 & H3 & (x' & ->) & H4 & H5).
    { cbn. by rewrite map_get_set_eq. }
    eexists r', o, _, n', t', s'. split; [done|]. split; [done|]. split; [|done].
    exists x'. cbn. by rewrite map_set_set.
  - unfold report_progress, required. rewrite Hs. cbn -[run_end set_record].
    by apply (IH (Throw m) r db n t s).
Qed.

(** One statement after the other. *)
Lemma alone_gave {A B} (t : rtx A) (k : A -> rprog B) db a db' :
  t env db = Gave (a, db') -> runs_alone (step t ≫= k) db = runs_alone (k a) db'.
Proof. intros E. by rewrite alone_then, alone_step, (perform_gave _ _ _ _ _ E). Qed.

Lemma session_gave {A} (t : rtx A) db r : i ∈ sessions db -> t env db = r -> on_session i t env db = r.
Proof. intros Hi. unfold on_session. by rewrite bool_decide_true. Qed.

Lemma select_in_gave db row : i ∈ sessions db -> row_of id db = Some row -> rw_state row = Accepted ->
  select_in i id Accepted env db = Gave (Some (rw_record row), db).
Proof. intros Hi Hr Ha. apply session_gave; [done|]. unfold select, in_state. by rewrite Hr, bool_decide_true. Qed.

Lemma mark_gave db : i ∈ sessions db -> execution_enabled db = true -> id ∉ execution_unsettled db ->
  mark_run i id env db = Gave (true, set_marks (execution_unsettled db ++ [id]) (<[id := i]> (marked_by db)) db).
Proof.
  intros Hi He Hu. apply session_gave; [done|]. unfold mbind, txn_bind, select, update, includes.
  by rewrite He, (bool_decide_false _ Hu).
Qed.

Lemma finish_gave r outcome db row : i ∈ sessions db -> row_of id db = Some row -> rw_state row = Accepted ->
  finish_accepted i id r outcome env db =
    Gave (true, set_runs (map_set id (stored (touched (rv_now env) (concluded r outcome None Datatypes.id (rv_uuid env) (rv_now env)))
                            (rv_clock env) row) (runs db)) db).
Proof.
  intros Hi Hr Ha. apply session_gave; [done|]. unfold update_run, mbind, txn_bind, ask, select, update, in_state.
  by rewrite Hr, bool_decide_true.
Qed.

Lemma unmark_gave db : i ∈ sessions db ->
  unmark_run i id env db = Gave (tt, set_marks (base.filter (fun x => x <> id) (execution_unsettled db)) (delete id (marked_by db)) db).
Proof. intros Hi. by apply session_gave. Qed.

Lemma begin_alone {B} (k : unit -> rprog B) db : i ∈ sessions db -> execution_enabled db = true -> id ∉ execution_unsettled db ->
  runs_alone (beginExecution true i id ≫= k) db =
    runs_alone (k tt) (set_marks (execution_unsettled db ++ [id]) (<[id := i]> (marked_by db)) db).
Proof.
  intros Hi He Hu. rewrite alone_then. unfold beginExecution. cbn [negb].
  by rewrite (alone_gave _ _ _ _ _ (mark_gave db Hi He Hu)).
Qed.

Lemma claimed_alone session db row s :
  i ∈ sessions db -> execution_enabled db = true -> id ∉ execution_unsettled db ->
  row_of id db = Some row -> rw_state row = Accepted -> rr_state (rw_record row) = Accepted ->
  map_get id (mr_records s) = Some (rw_record row) ->
  exists row' r' s1 s2 r2,
    runs_alone (execute_claimed true executor i id session) db =
      (Gave true, set_marks (base.filter (fun x => x <> id) (execution_unsettled db ++ [id]))
                    (delete id (<[id := i]> (marked_by db)))
                    (set_runs (map_set id row' (runs db)) (set_executing (delete i (<[i := id]> (executing db))) db))) /\
    rw_record row' = r' /\
    run_begin id (rv_now env) s = Ok s1 /\
    memory_attempt id (executor (rr_request (rw_record row)) {| xc_session := session; xc_submission := None |})
      (rv_uuid env) (rv_now env) s1 = Ok s2 /\
    map_get id (mr_records s2) = Some r2 /\ same_end r' r2.
Proof.
  intros Hi He Hu Hr Ha Hst Hm. set (r := rw_record row) in *. unfold execute_claimed.
  rewrite (alone_gave _ _ _ _ _ (select_in_gave db row Hi Hr Ha)). fold r.
  rewrite (begin_alone _ db Hi He Hu). set (db1 := set_marks _ _ db).
  rewrite (alone_gave (entered i id) _ db1 tt (set_executing (<[i := id]> (executing db1)) db1) eq_refl).
  set (db2 := set_executing _ db1).
  assert (at_run db2 r) as Hat by (constructor; [done|by exists row|done]).
  set (s1 := add_job id Executing (set_record id (recast Run.Running (S (S (rr_revision r))) (rv_now env) r) s)).
  assert (run_begin id (rv_now env) s = Ok s1) as Hbegin.
  { unfold run_begin, required. rewrite Hm. fold r. cbn -[assertPlanRunTransition]. unfold transition. by rewrite Hst. }
  destruct (attempt_alone (executor (rr_request r) {| xc_session := session; xc_submission := None |}) (rv_uuid env)
              r db2 (S (S (rr_revision r))) (rv_now env) s1 Hat)
    as (r' & o & db' & n' & t' & s' & H2 & Hat' & (x & ->) & H4 & H5).
  { cbn. by rewrite map_get_set_eq. }
  rewrite alone_then, H2. cbn [fst snd].
  rewrite (alone_gave (left_ i) _ _ tt _ eq_refl). set (db3 := set_executing _ (set_runs _ db2)).
  destruct Hat' as [_ (row' & Hr' & Ha') _].
  rewrite (alone_gave _ _ _ _ _ (finish_gave r' o db3 row' Hi Hr' Ha')).
  set (c := concluded r' o None Datatypes.id (rv_uuid env) (rv_now env)).
  rewrite alone_then. unfold endExecution. cbn [negb].
  match goal with |- context [runs_alone (step (unmark_run i id)) ?d] =>
    rewrite (alone_step _ _ d); rewrite (perform_gave _ _ _ _ _ (unmark_gave d Hi)) end.
  eexists (stored (touched (rv_now env) c) (rv_clock env) row'), (touched (rv_now env) c), s1, _, _.
  split; [unfold db3; cbn; by rewrite map_set_set|].
  split; [done|]. split; [done|]. split; [rewrite H5; by eapply run_end_agrees|].
  split; [cbn; apply map_get_set_eq|]. by eexists _, _.
Qed.

Lemma connect_gave db : access db = true ->
  connect i env db = Gave (tt, set_connections ({[i]} ∪ sessions db) (run_locks db) (barrier_shared db) db).
Proof. intros Ha. unfold connect, on_pool, update. by rewrite Ha. Qed.
Lemma lock_shared_gave db : i ∈ sessions db -> barrier_exclusive db = None ->
  lock_shared i env db = Gave (tt, set_connections (sessions db) (run_locks db) ({[i]} ∪ barrier_shared db) db).
Proof.
  intros Hi Hx. apply session_gave; [done|]. unfold mbind, txn_bind, select. rewrite Hx, bool_decide_false by (by intros []). done.
Qed.
Lemma try_lock_gave db : i ∈ sessions db -> run_locks db !! hashtext id = None ->
  try_lock hashtext i id env db =
    Gave (true, set_connections (sessions db) (<[hashtext id := i]> (run_locks db)) (barrier_shared db) db).
Proof.
  intros Hi Hx. apply session_gave; [done|]. unfold mbind, txn_bind, select. rewrite Hx, bool_decide_true by (by left). done.
Qed.

Lemma filter_unmarked (l : list string) : id ∉ l -> base.filter (fun x => x <> id) (l ++ [id]) = l.
Proof.
  induction l as [|x l IH]; cbn [app]; intros Hl.
  - by rewrite filter_cons_False by (intros H; by apply H).
  - apply not_elem_of_cons in Hl as [Hne Hl]. by rewrite filter_cons_True, (IH Hl) by auto.
Qed.

(** C9: An accepted run that is executed alone by the runner of the customers ends as the
    process-local runner ends it: executed from the same record, with the same executor, it has the same
    state, checkpoints, progress, continuations and failure.  Nothing else is left of the
    execution: of the whole state of the database only the row of the run differs, and
    connection [i], its share of the barrier, the lock and the mark of the run are gone.  The
    run is stored as accepted and unmarked, nobody holds its lock or the barrier for itself,
    and the customer is neither paused nor stopped. *)
Theorem runners_agree session db row s :
  access db = true -> barrier_exclusive db = None -> execution_enabled db = true ->
  id ∉ execution_unsettled db -> run_locks db !! hashtext id = None ->
  row_of id db = Some row -> rw_state row = Accepted -> rr_state (rw_record row) = Accepted ->
  map_get id (mr_records s) = Some (rw_record row) ->
  exists db' row' s1 s2 r2,
    runs_alone (execute hashtext true executor i id session) db = (Gave true, db') /\
    db' = {| runs := map_set id row' (runs db); execution_enabled := true;
             execution_unsettled := execution_unsettled db; sessions := sessions db ∖ {[i]};
             run_locks := run_locks db; barrier_shared := barrier_shared db ∖ {[i]};
             barrier_exclusive := None; access := true; executing := delete i (executing db);
             marked_by := delete id (marked_by db) |} /\
    run_begin id (rv_now env) s = Ok s1 /\
    memory_attempt id (executor (rr_request (rw_record row)) {| xc_session := session; xc_submission := None |})
      (rv_uuid env) (rv_now env) s1 = Ok s2 /\
    map_get id (mr_records s2) = Some r2 /\ same_end (rw_record row') r2.
Proof.
  intros Hacc Hex He Hu Hl Hr Ha Hst Hm. unfold execute. cbv iota.
  rewrite (alone_gave _ _ _ _ _ (connect_gave db Hacc)).
  set (db1 := set_connections _ _ _ db). assert (i ∈ sessions db1) as Hi by (cbn; set_solver).
  rewrite alone_finally. rewrite (alone_gave _ _ _ _ _ (lock_shared_gave db1 Hi Hex)).
  set (db2 := set_connections _ _ _ db1). rewrite alone_finally.
  rewrite (alone_gave (on_session i (select execution_enabled)) _ db2 true db2) by (apply session_gave; [done|]; unfold select; change (execution_enabled db2) with (execution_enabled db); by rewrite He).
  unfold execute_run. rewrite (alone_gave _ _ _ _ _ (try_lock_gave db2 Hi Hl)).
  set (db3 := set_connections _ _ _ db2). rewrite alone_finally.
  destruct (claimed_alone session db3 row s) as (row' & r' & s1 & s2 & r2 & H1 & H2 & H3 & H4 & H5 & H6); [done..|].
  rewrite H1. clear H1. set (db4 := set_marks _ _ _).
  unfold unlock_run. rewrite alone_session by done. unfold perform at 1. cbv beta iota delta [update].
  unfold ignore_errors. rewrite alone_try. unfold unlock_shared. rewrite alone_session by done.
  unfold perform at 1. cbv beta iota delta [update].
  eexists _, row', s1, s2, r2. split; [reflexivity|]. split; [|rewrite H2; done].
  subst db4 db3 db2 db1. clear -Hacc Hex He Hu Hl. destruct db. cbn in *. subst.
  assert (forall X : gset nat, ({[i]} ∪ X) ∖ {[i]} = X ∖ {[i]}) as Hx by (intros X; apply set_eq; set_solver).
  cbv beta iota delta [set_connections set_marks set_runs set_executing SqlRunner.runs SqlRunner.execution_enabled
    SqlRunner.execution_unsettled SqlRunner.sessions SqlRunner.run_locks SqlRunner.barrier_shared
    SqlRunner.barrier_exclusive SqlRunner.access SqlRunner.executing SqlRunner.marked_by].
  rewrite !Hx, delete_insert_id, !delete_insert_eq, filter_unmarked by done. reflexivity.
Qed.
End Agree.

(** * Runs of the customers' plan runner

    Concrete interleavings of [SqlRunner]: the theorems applied to them, and what modelling
    it showed. *)

#[local] Existing Instance bytes_collation.

Definition sample_hex (s : string) : string := s.
Definition sample_hashtext (s : string) : Z := Z.of_nat (String.length s).
(** Reports once, then succeeds. *)
Definition sample_executor (request : PlanRunStartRequest) (context : ExecutionContext) : execution :=
  Reports (Ok (JNumber 1)) (fun _ => Finished (Ok sample_result)).
Definition sample_env : RunEnv := {| rv_now := "t"; rv_clock := 5; rv_uuid := "run"; rv_aborted := false |}.

Abbreviation sample_step := (runs_step sample_hex sample_hashtext true sample_executor).
Abbreviation sample_action := (action RunEnv RunsDb run_error).

Definition starting : list sample_action :=
  [Starts (start_run sample_hex true (Ok sample_request)); Steps 0 9 sample_env].
Definition executing_run : list sample_action := [Starts (execute sample_hashtext true sample_executor 1 "run" None)].
(** The execution is left in the middle of the executor. *)
Definition halfway : list sample_action := starting ++ executing_run ++ [Steps 1 9 sample_env].
Definition completed : list sample_action := starting ++ executing_run ++ [Steps 1 30 sample_env].
Definition stopped : list sample_action := completed ++ [Starts (stopApplicationAccess 2); Steps 2 9 sample_env].
Definition interrupted : list sample_action :=
  halfway ++ [Happens (fun db => set_connections (sessions db ∖ {[1]}) (base.filter (fun l => l.2 <> 1) (run_locks db))
                                   (barrier_shared db ∖ {[1]}) db)].
Definition cancelled_halfway : list sample_action :=
  halfway ++ [Starts (cancel_run "run"); Steps 2 9 sample_env; Steps 1 30 sample_env].

Definition db_after (actions : list sample_action) : RunsDb := (play actions 0 [] empty_runs).2.

Ltac playing := unfold stopped, interrupted, cancelled_halfway, completed, halfway, executing_run, starting; cbn [playable app];
  repeat match goal with
  | |- _ /\ _ => split
  | |- True => exact Logic.I
  | |- forall db : RunsDb, run_admissible _ _ _ _ => intros ?; reflexivity
  | |- forall db : RunsDb, run_background _ _ => intros ?; constructor
  | |- run_service _ _ _ _ _ _ _ => constructor
  end.

Lemma played actions : playable run_admissible (run_service sample_hex sample_hashtext true sample_executor) run_background 5 actions 0 ->
  exists s, runs_reachable sample_hex sample_hashtext sample_executor s /\ th_db s = db_after actions.
Proof.
  intros H. destruct (play_reaches _ _ _ 5 actions 0 [] empty_runs H) as (l & Hl).
  eexists. split; [exists 5%Z; exact Hl|reflexivity].
Qed.

Lemma stopped_reachable : exists s, runs_reachable sample_hex sample_hashtext sample_executor s /\ th_db s = db_after stopped.
Proof. apply played. playing. Qed.
Lemma halfway_reachable : exists s, runs_reachable sample_hex sample_hashtext sample_executor s /\ th_db s = db_after halfway.
Proof. apply played. playing. Qed.
Lemma completed_reachable : exists s, runs_reachable sample_hex sample_hashtext sample_executor s /\ th_db s = db_after completed.
Proof. apply played. playing. Qed.

Lemma stopped_customers_are_still_witness :
  exists s, runs_reachable sample_hex sample_hashtext sample_executor s /\ access (th_db s) = false /\
    length (runs (th_db s)) = 1 /\ executing (th_db s) = ∅.
Proof.
  destruct stopped_reachable as (s & Hs & E). exists s. split; [exact Hs|].
  assert (access (th_db s) = false) as Ha by (rewrite E; vm_compute; reflexivity).
  split; [exact Ha|]. split; [rewrite E; vm_compute; reflexivity|].
  apply (stopped_customers_are_still sample_hex sample_hashtext sample_executor s s Hs Ha (rtc_refl _ _)).
Defined.

Lemma runs_are_executed_once_at_a_time_witness :
  exists s, runs_reachable sample_hex sample_hashtext sample_executor s /\ executing (th_db s) !! 1 = Some "run" /\
    forall i, executing (th_db s) !! i = Some "run" -> i = 1.
Proof.
  destruct halfway_reachable as (s & Hs & E). exists s. split; [exact Hs|].
  assert (executing (th_db s) !! 1 = Some "run") as H1 by (rewrite E; vm_compute; reflexivity).
  split; [exact H1|]. intros i Hi.
  exact (proj1 (runs_are_executed_once_at_a_time sample_hex sample_hashtext sample_executor s Hs) i 1 "run" Hi H1).
Defined.

Definition row_in (actions : list sample_action) : RunRow :=
  default (row_of_request sample_request "" "run" "t" 5) (row_of "run" (db_after actions)).

Lemma runs_move_forward_witness :
  terminal (rw_state (row_in completed)) = true /\
  exists s, runs_reachable sample_hex sample_hashtext sample_executor s /\
    forall s', rtc sample_step s s' -> row_of "run" (th_db s') = Some (row_in completed).
Proof.
  split; [vm_compute; reflexivity|]. destruct completed_reachable as (s & Hs & E). exists s. split; [exact Hs|].
  intros s' Hr. assert (row_of "run" (th_db s) = Some (row_in completed)) as Hrow by (rewrite E; vm_compute; reflexivity).
  destruct (runs_move_forward sample_hex sample_hashtext sample_executor s s' "run" _ Hs Hr Hrow) as (row' & H1 & _ & H2).
  rewrite H1. f_equal. apply H2. vm_compute. reflexivity.
Defined.

Definition started_db : RunsDb := db_after starting.
Definition started_row : RunRow := row_in starting.
Definition memory_started : Runner :=
  {| mr_records := [("run", rw_record started_row)]; mr_idempotency := []; mr_jobs := [] |}.

Lemma runners_agree_witness :
  exists row' s1 s2 r2,
    alone (fun _ => sample_env) (execute sample_hashtext true sample_executor 1 "run" None) started_db =
      (Gave true, set_runs (map_set "run" row' (runs started_db)) started_db) /\
    memory_attempt "run" (sample_executor sample_request {| xc_session := None; xc_submission := None |}) "run" "t" s1 = Ok s2 /\
    map_get "run" (mr_records s2) = Some r2 /\ same_end (rw_record row') r2.
Proof.
  destruct (runners_agree sample_hashtext sample_executor sample_env 1 "run" None started_db started_row memory_started)
    as (db' & row' & s1 & s2 & r2 & H1 & H2 & _ & H3 & H4 & H5);
    [reflexivity|reflexivity|reflexivity|apply not_elem_of_nil|reflexivity|reflexivity|reflexivity|reflexivity|reflexivity|].
  exists row', s1, s2, r2. split; [|split; [exact H3|split; [exact H4|exact H5]]].
  rewrite H1, H2. vm_compute. reflexivity.
Defined.

(** ** What modelling showed *)

(** A process that dies while an executor is at work leaves its run accepted and marked. Every
    recovery after it is refused, also for the other runs of the customer; [index.ts]
    recovers before it serves any request, so each of them fails until the mark is
    taken away by hand. *)
Lemma interrupted_run_blocks_the_customer :
  (exists s, runs_reachable sample_hex sample_hashtext sample_executor s /\ th_db s = db_after interrupted) /\
  rw_state (row_in interrupted) = Accepted /\ execution_unsettled (db_after interrupted) = ["run"] /\
  execution_enabled (db_after interrupted) = true /\ access (db_after interrupted) = true /\
  (alone (fun _ => sample_env) (recoverAcceptedRuns sample_hashtext true sample_executor 2) (db_after interrupted)).1 =
    Threw (RunConflict "customer execution is paused or a previous attempt requires reconciliation").
Proof.
  split; [apply played; playing|]. split; [vm_compute; reflexivity|]. split; [vm_compute; reflexivity|].
  split; [vm_compute; reflexivity|]. split; [vm_compute; reflexivity|]. vm_compute. reflexivity.
Qed.

(** A run that is cancelled while its executor is at work stays marked after the executor has
    ended: nothing takes the mark away, and a movement of the customer is refused for good. *)
Lemma cancelled_run_blocks_the_movement :
  (exists s, runs_reachable sample_hex sample_hashtext sample_executor s /\ th_db s = db_after cancelled_halfway) /\
  rw_state (row_in cancelled_halfway) = Cancelled /\ executing (db_after cancelled_halfway) !! 1 = None /\
  sessions (db_after cancelled_halfway) = ∅ /\ execution_unsettled (db_after cancelled_halfway) = ["run"] /\
  (alone (fun _ => sample_env) (stopApplicationAccess 3) (db_after cancelled_halfway)).1 =
    Threw (RunError "interrupted Actor execution requires reconciliation before movement").
Proof.
  split; [apply played; playing|]. split; [vm_compute; reflexivity|]. split; [vm_compute; reflexivity|].
  split; [vm_compute; reflexivity|]. split; [vm_compute; reflexivity|]. vm_compute. reflexivity.
Qed.

(** The run goes from [accepted] to [succeeded] in one step, which the table of transitions of
    the protocol does not have. *)
Lemma accepted_runs_succeed_at_once :
  rw_state (row_in halfway) = Accepted /\ rw_state (row_in completed) = Succeeded /\
  is_ok (assertPlanRunTransition Accepted Succeeded) = false.
Proof. split; [vm_compute; reflexivity|]. split; vm_compute; reflexivity. Qed.
