(* ===== verification/Intents.v ===== *)
(** * Intents

    [services/intent-service/src/store.ts]: the intents of a customer, what people and agents
    contributed to them, and their merges, over the tables of
    [services/platform-provisioner/components/intents/0001_intents.sql].  Every statement on
    the pool is a step and so is every transaction; the constraints on lengths hold of what
    [handler.ts] admits and are left out.  A [uuid] is read in any case and printed in small
    letters; the code compares the printed text with the one of the request. *)

From S2P Require Import Prelude Contracts Json Programs Tables.

Open Scope stdpp_scope.
Open Scope js_scope.
Local Open Scope Z_scope.

(** ** Tables *)

Inductive IntentState := Working | Waiting | Done | Erroneous | Archived | Merged | Deleted.
#[export] Instance IntentState_eq_dec : EqDecision IntentState.
Proof. solve_decision. Defined.

(** [ActiveIntentState]. *)
Inductive ActiveIntentState := ActiveWorking | ActiveWaiting | ActiveDone | ActiveError.
Definition active_state (s : ActiveIntentState) : IntentState :=
  match s with
  | ActiveWorking => Working | ActiveWaiting => Waiting | ActiveDone => Done | ActiveError => Erroneous
  end.

Inductive ContributorKind := Human | Agent | Skill | System.
#[export] Instance ContributorKind_eq_dec : EqDecision ContributorKind.
Proof. solve_decision. Defined.

(** [intents], keyed by [id]. *)
Record IntentRow := {
  it_owner_subject_id : string;
  it_trigger_kind : ContributorKind;
  it_title : string;
  it_intent_type : string;
  it_source_label : string;
  it_deadline : option string;
  it_routing_summary : string;
  it_state : IntentState;
  it_state_before_archive : option IntentState;
  it_merged_into_id : option string;
  it_version : Z;
  it_created_at : Z;
  it_updated_at : Z
}.

(** [contributions], keyed by [id]. *)
Record ContributionRow := {
  cb_intent_id : string;
  cb_sequence : Z;
  cb_contributor_kind : ContributorKind;
  cb_kind : string;
  cb_text : option string;
  cb_payload : json;
  cb_idempotency_key : string;
  cb_created_at : Z
}.

(** [merge_commands], keyed by [command_id]. *)
Record MergeCommandRow := { mc_target_intent_id : string; mc_target_version : Z; mc_source_versions : json }.
Record MergeRelationRow := { ml_target_intent_id : string; ml_source_intent_id : string; ml_command_id : string }.

Record IntentsDb := {
  intents : list (string * IntentRow);
  contributions : list (string * ContributionRow);
  merge_commands : list (string * MergeCommandRow);
  merge_relations : list MergeRelationRow
}.

Definition set_intents (x : list (string * IntentRow)) (db : IntentsDb) : IntentsDb :=
  {| intents := x; contributions := contributions db; merge_commands := merge_commands db;
     merge_relations := merge_relations db |}.
Definition set_contributions (x : list (string * ContributionRow)) (db : IntentsDb) : IntentsDb :=
  {| intents := intents db; contributions := x; merge_commands := merge_commands db;
     merge_relations := merge_relations db |}.
Definition set_merges (c : list (string * MergeCommandRow)) (r : list MergeRelationRow) (db : IntentsDb) : IntentsDb :=
  {| intents := intents db; contributions := contributions db; merge_commands := c; merge_relations := r |}.

(** [IntentNotFoundError], [IntentConflictError], or an error of the database. *)
Inductive intent_error :=
| IntentNotFound (message : string)
| IntentConflict (message : string)
| IntentFailed (message : string).

(** [clock_timestamp()], [randomUUID()], and which of several rows a [LIMIT 1] without an order
    returns. *)
Record IntentEnv := { ie_clock : Z; ie_uuid : string; ie_choice : nat }.

Abbreviation itx := (txn IntentEnv IntentsDb intent_error).
Abbreviation iprog := (prog IntentEnv IntentsDb intent_error).

(** The text of a [uuid] as the database stores and returns it. *)
Definition uuid (s : string) : string := to_lower s.

(** [value?.trim() || null]. *)
Definition trimmed_or_null (o : option string) : option string := truthy (trim <$> o).

(** ** Values of the interface *)

Record CreateIntent := {
  ci_id : string; ci_title : string; ci_intentType : string; ci_sourceLabel : string;
  ci_deadline : option string; ci_routingSummary : option string
}.
Record UpdateIntent := {
  ui_expectedVersion : Z; ui_title : option string; ui_intentType : option string;
  ui_sourceLabel : option string; ui_deadline : option string; ui_clearDeadline : bool;
  ui_routingSummary : option string; ui_state : option ActiveIntentState
}.
Record ContributionInput := {
  cn_id : string; cn_contributorKind : ContributorKind; cn_kind : string; cn_text : option string; cn_payload : json
}.
Record VersionCommand := { vc_id : string; vc_expectedVersion : Z }.
Record MergeCommand := {
  mg_id : string; mg_expectedVersion : Z; mg_commandId : string; mg_sources : list (string * Z)
}.

(** [IntentDetail]: the row of the intent and its contributions in sequence. *)
Record IntentDetail := {
  id_intent : string * IntentRow;
  id_contributions : list (string * ContributionRow)
}.

(** ** Statements *)

Definition live (row : IntentRow) : bool :=
  negb (bool_decide (it_state row = Merged)) && negb (bool_decide (it_state row = Deleted)).
(** [WHERE owner_subject_id=$1 AND id=$2]. *)
Definition own (subjectId intentId : string) (db : IntentsDb) : option IntentRow :=
  match map_get (uuid intentId) (intents db) with
  | Some row => if String.eqb (it_owner_subject_id row) subjectId then Some row else None
  | None => None
  end.

Definition contributions_of (intentId : string) (db : IntentsDb) : list (string * ContributionRow) :=
  base.filter (fun c => cb_intent_id c.2 = uuid intentId) (contributions db).
Definition by_sequence (a b : string * ContributionRow) : Z := cb_sequence a.2 - cb_sequence b.2.
(** [COALESCE(max(sequence),0)+1]. *)
Definition next_sequence (intentId : string) (db : IntentsDb) : Z :=
  foldr Z.max 0 ((fun c : string * ContributionRow => cb_sequence c.2) <$> contributions_of intentId db) + 1.

Definition duplicate_key : intent_error := IntentFailed "duplicate key value violates unique constraint".

Definition insertContribution (intentId : string) (input : ContributionInput) (idempotencyKey : string) :
    itx (string * ContributionRow) :=
  clock ← ask ie_clock;
  sequence ← select (next_sequence intentId);
  let row := {| cb_intent_id := uuid intentId; cb_sequence := sequence;
                cb_contributor_kind := cn_contributorKind input; cb_kind := cn_kind input; cb_text := cn_text input;
                cb_payload := cn_payload input; cb_idempotency_key := idempotencyKey; cb_created_at := clock |} in
  taken ← select (fun db => map_has (uuid (cn_id input)) (contributions db) ||
    existsb (fun c => String.eqb (cb_idempotency_key c.2) idempotencyKey) (contributions_of intentId db));
  throw_when! taken as duplicate_key;
  _ ← update (fun db => set_contributions (contributions db ++ [(uuid (cn_id input), row)]) db);
  mret (uuid (cn_id input), row).

(** [version=version+1, updated_at=clock_timestamp()]. *)
Definition bumped (clock : Z) (row : IntentRow) : IntentRow :=
  {| it_owner_subject_id := it_owner_subject_id row; it_trigger_kind := it_trigger_kind row; it_title := it_title row;
     it_intent_type := it_intent_type row; it_source_label := it_source_label row; it_deadline := it_deadline row;
     it_routing_summary := it_routing_summary row; it_state := it_state row;
     it_state_before_archive := it_state_before_archive row; it_merged_into_id := it_merged_into_id row;
     it_version := it_version row + 1; it_created_at := it_created_at row; it_updated_at := clock |}.
Definition with_intent_state (state : IntentState) (before : option IntentState) (merged_into : option string)
    (row : IntentRow) : IntentRow :=
  {| it_owner_subject_id := it_owner_subject_id row; it_trigger_kind := it_trigger_kind row; it_title := it_title row;
     it_intent_type := it_intent_type row; it_source_label := it_source_label row; it_deadline := it_deadline row;
     it_routing_summary := it_routing_summary row; it_state := state;
     it_state_before_archive := before; it_merged_into_id := merged_into;
     it_version := it_version row; it_created_at := it_created_at row; it_updated_at := it_updated_at row |}.
Definition set_intent (intentId : string) (row : IntentRow) (db : IntentsDb) : IntentsDb :=
  set_intents (map_set (uuid intentId) row (intents db)) db.
Definition bump_intent (intentId : string) : itx unit :=
  clock ← ask ie_clock;
  update (fun db => set_intents (update_where (fun r => String.eqb r.1 (uuid intentId)) (bumped clock) (intents db)) db).

(** ** Reading *)

Definition by_update (a b : string * IntentRow) : Z :=
  or_else (it_updated_at b.2 - it_updated_at a.2) (string_cmp a.1 b.1).
Definition list_intents (subjectId : string) : iprog (list (string * IntentRow)) :=
  step (select (fun db => js_sort by_update
    (base.filter (fun r => String.eqb (it_owner_subject_id r.2) subjectId && live r.2 = true) (intents db)))).

Definition not_found : intent_error := IntentNotFound "Intent not found.".
Definition readable (subjectId intentId : string) (db : IntentsDb) : option IntentRow :=
  match own subjectId intentId db with
  | Some row => if bool_decide (it_state row = Deleted) then None else Some row
  | None => None
  end.
Definition select_contributions (intentId : string) (db : IntentsDb) : list (string * ContributionRow) :=
  js_sort by_sequence (contributions_of intentId db).

(** [detail], two statements on the pool, and [detailWith] in a transaction. *)
Definition detail (subjectId intentId : string) : iprog IntentDetail :=
  intent ← step (select (readable subjectId intentId));
  match (intent : option IntentRow) with
  | None => Raise not_found
  | Some row =>
      rows ← step (select (select_contributions intentId));
      mret {| id_intent := (uuid intentId, row); id_contributions := rows |}
  end.
Definition detailWith (subjectId intentId : string) : itx IntentDetail :=
  intent ← select (readable subjectId intentId);
  match (intent : option IntentRow) with
  | None => throw not_found
  | Some row =>
      rows ← select (select_contributions intentId);
      mret {| id_intent := (uuid intentId, row); id_contributions := rows |}
  end.

(** ** [create] *)

Definition routing_summary (input : CreateIntent) : string :=
  coalesce_to (trimmed_or_null (ci_routingSummary input)) ("Intent: " +:+ trim (ci_title input)).
Definition new_intent (subjectId : string) (input : CreateIntent) (clock : Z) : IntentRow :=
  {| it_owner_subject_id := subjectId; it_trigger_kind := Human; it_title := trim (ci_title input);
     it_intent_type := trim (ci_intentType input); it_source_label := trim (ci_sourceLabel input);
     it_deadline := trimmed_or_null (ci_deadline input); it_routing_summary := routing_summary input;
     it_state := Working; it_state_before_archive := None; it_merged_into_id := None; it_version := 1;
     it_created_at := clock; it_updated_at := clock |}.

Definition system_contribution (id kind : string) (payload : json) : ContributionInput :=
  {| cn_id := id; cn_contributorKind := System; cn_kind := kind; cn_text := None; cn_payload := payload |}.

Definition create_transaction (subjectId : string) (input : CreateIntent) : itx bool :=
  clock ← ask ie_clock;
  conflict ← select (fun db => map_has (uuid (ci_id input)) (intents db));
  if (conflict : bool) then mret false
  else
    _ ← update (fun db => set_intents (intents db ++ [(uuid (ci_id input), new_intent subjectId input clock)]) db);
    fresh ← ask ie_uuid;
    _ ← insertContribution (ci_id input)
          (system_contribution fresh "intent-created" (JObject [("triggerKind", JString "human")]))
          ("create:" +:+ ci_id input);
    mret true.

(** The intent there is, if it is the one that is asked for. *)
Definition same_intent (input : CreateIntent) (row : IntentRow) : bool :=
  String.eqb (it_title row) (trim (ci_title input)) && String.eqb (it_intent_type row) (trim (ci_intentType input)) &&
  String.eqb (it_source_label row) (trim (ci_sourceLabel input)) &&
  bool_decide (it_deadline row = trimmed_or_null (ci_deadline input)) &&
  String.eqb (it_routing_summary row) (routing_summary input).

Definition create (subjectId : string) (input : CreateIntent) : iprog IntentDetail :=
  inserted ← step (create_transaction subjectId input);
  if negb inserted then
    try_catch
      (fun existing => if same_intent input (id_intent existing).2 then mret existing
                       else Raise (IntentConflict "Intent ID conflicts with another request."))
      (fun _ => Raise (IntentConflict "Intent ID conflicts with another request."))
      (detail subjectId (ci_id input))
  else detail subjectId (ci_id input).

(** ** [append] *)

Definition contribution_matches (intentId : string) (input : ContributionInput) (c : string * ContributionRow) : bool :=
  String.eqb c.1 (uuid (cn_id input)) ||
  (String.eqb (cb_intent_id c.2) (uuid intentId) && String.eqb (cb_idempotency_key c.2) (cn_id input)).
Definition pick {A} (n : nat) (l : list A) : option A := l !! (n mod length l)%nat.

Definition same_contribution (intentId : string) (input : ContributionInput) (row : ContributionRow) : bool :=
  String.eqb (cb_intent_id row) intentId && bool_decide (cb_contributor_kind row = cn_contributorKind input) &&
  String.eqb (cb_kind row) (cn_kind input) && bool_decide (cb_text row = cn_text input) &&
  isDeepStrictEqual (cb_payload row) (cn_payload input).

Definition append (subjectId intentId : string) (input : ContributionInput) : itx (string * ContributionRow) :=
  owned ← select (own subjectId intentId);
  throw_when! negb (match (owned : option IntentRow) with Some row => live row | None => false end) as not_found;
  choice ← ask ie_choice;
  existing ← select (fun db => pick choice
    (base.filter (fun c => contribution_matches intentId input c = true) (contributions db)));
  match (existing : option (string * ContributionRow)) with
  | Some (id, row) =>
      throw_when! negb (same_contribution intentId input row)
        as IntentConflict "Contribution ID conflicts with another request.";
      mret (id, row)
  | None =>
      created ← insertContribution intentId input (cn_id input);
      _ ← bump_intent intentId;
      mret created
  end.

(** ** [update], [archiveOrRestore], [tombstone] *)

Definition version_changed : intent_error := IntentConflict "Intent version or state changed.".

(** [UPDATE intents SET ... WHERE owner_subject_id=$1 AND id=$2 AND version=$3 AND state ...]:
    whether a row was changed. *)
Definition update_intent (subjectId intentId : string) (expectedVersion : Z) (in_state : IntentRow -> bool)
    (f : IntentRow -> IntentRow) : itx unit :=
  clock ← ask ie_clock;
  row ← select (own subjectId intentId);
  match (row : option IntentRow) with
  | Some row =>
      throw_when! negb ((it_version row =? expectedVersion) && in_state row) as version_changed;
      update (set_intent intentId (bumped clock (f row)))
  | None => throw version_changed
  end.

Definition edited (input : UpdateIntent) (row : IntentRow) : IntentRow :=
  {| it_owner_subject_id := it_owner_subject_id row; it_trigger_kind := it_trigger_kind row;
     it_title := coalesce_to (trimmed_or_null (ui_title input)) (it_title row);
     it_intent_type := coalesce_to (trimmed_or_null (ui_intentType input)) (it_intent_type row);
     it_source_label := coalesce_to (trimmed_or_null (ui_sourceLabel input)) (it_source_label row);
     it_deadline := if ui_clearDeadline input then None
                    else coalesce (trimmed_or_null (ui_deadline input)) (it_deadline row);
     it_routing_summary := coalesce_to (trimmed_or_null (ui_routingSummary input)) (it_routing_summary row);
     it_state := coalesce_to (active_state <$> ui_state input) (it_state row);
     it_state_before_archive := it_state_before_archive row; it_merged_into_id := it_merged_into_id row;
     it_version := it_version row; it_created_at := it_created_at row; it_updated_at := it_updated_at row |}.

Definition update_ (subjectId intentId : string) (input : UpdateIntent) : iprog IntentDetail :=
  _ ← step (update_intent subjectId intentId (ui_expectedVersion input) live (edited input));
  detail subjectId intentId.

Definition active (row : IntentRow) : bool :=
  match it_state row with Working | Waiting | Done | Erroneous => true | _ => false end.
Definition archived (row : IntentRow) : IntentRow :=
  with_intent_state Archived (Some (it_state row)) (it_merged_into_id row) row.
Definition restored (row : IntentRow) : IntentRow :=
  with_intent_state (coalesce_to (it_state_before_archive row) Working) None (it_merged_into_id row) row.

Definition path_mismatch : intent_error := IntentConflict "Intent ID does not match the path.".

Definition archiveOrRestore (subjectId intentId : string) (input : VersionCommand) (restore : bool) : iprog IntentDetail :=
  if negb (String.eqb (vc_id input) intentId) then Raise path_mismatch
  else
    _ ← step (if restore
              then update_intent subjectId intentId (vc_expectedVersion input)
                     (fun row => bool_decide (it_state row = Archived)) restored
              else update_intent subjectId intentId (vc_expectedVersion input) active archived);
    detail subjectId intentId.

Definition deleted (row : IntentRow) : IntentRow :=
  with_intent_state Deleted (it_state_before_archive row) (it_merged_into_id row) row.
Definition tombstone (subjectId intentId : string) (input : VersionCommand) : iprog unit :=
  if negb (String.eqb (vc_id input) intentId) then Raise path_mismatch
  else step (update_intent subjectId intentId (vc_expectedVersion input) live deleted).

(** ** [merge] *)

Section Merge.
Context {collation : Collation}.

Definition source_versions (sourceVersions : list (string * Z)) : json :=
  JObject ((fun e : string * Z => (e.1, JNumber e.2)) <$>
           js_sort (fun left right => localeCompare left.1 right.1) sourceVersions).

(** The rows [SELECT ... FOR UPDATE] of the target and the sources returns. *)
Definition lock_rows (subjectId : string) (ids : list string) (db : IntentsDb) : list (string * IntentRow) :=
  base.filter (fun r => String.eqb (it_owner_subject_id r.2) subjectId && existsb (fun id => String.eqb (uuid id) r.1) ids = true)
    (intents db).
(** The rows are as the command expects them. *)
Definition as_expected (targetId : string) (expectedVersion : Z) (sourceVersions : list (string * Z))
    (locked : list (string * IntentRow)) : bool :=
  match js_find (fun r : string * IntentRow => String.eqb r.1 targetId) locked with
  | None => false
  | Some (_, target) =>
      (it_version target =? expectedVersion) && live target &&
      forallb (fun r : string * IntentRow =>
        String.eqb r.1 targetId ||
        (bool_decide (map_get r.1 sourceVersions = Some (it_version r.2)) && live r.2)) locked
  end.

Definition merged_row (targetId : string) (row : IntentRow) : IntentRow :=
  with_intent_state Merged (it_state_before_archive row) (Some (uuid targetId)) row.
Definition merge_source (targetId commandId sourceId : string) : itx unit :=
  used ← select (fun db => existsb (fun r => String.eqb (ml_source_intent_id r) (uuid sourceId)) (merge_relations db));
  throw_when! used as duplicate_key;
  _ ← update (fun db => set_merges (merge_commands db)
        (merge_relations db ++ [{| ml_target_intent_id := uuid targetId; ml_source_intent_id := uuid sourceId;
                                   ml_command_id := uuid commandId |}]) db);
  clock ← ask ie_clock;
  update (fun db => set_intents (update_where (fun r => String.eqb r.1 (uuid sourceId))
    (fun row => bumped clock (merged_row targetId row)) (intents db)) db).
Fixpoint merge_sources (targetId commandId : string) (sources : list string) : itx unit :=
  match sources with
  | [] => mret tt
  | sourceId :: sources => _ ← merge_source targetId commandId sourceId; merge_sources targetId commandId sources
  end.

Definition same_merge (targetId : string) (input : MergeCommand) (sourceVersions : list (string * Z))
    (row : MergeCommandRow) : bool :=
  String.eqb (mc_target_intent_id row) targetId && (mc_target_version row =? mg_expectedVersion input) &&
  isDeepStrictEqual (mc_source_versions row) (source_versions sourceVersions).

(** A replay answers with the intent and its contributions as they are at one moment, where the
    code reads them in two statements without a lock: what commits in between can change the
    details of the answer, and no table. *)
Definition merge_transaction (subjectId targetId : string) (input : MergeCommand) (sourceVersions : list (string * Z)) :
    itx IntentDetail :=
  let sources := js_sort string_cmp (sourceVersions.*1) in
  prior ← select (fun db => map_get (uuid (mg_commandId input)) (merge_commands db));
  match (prior : option MergeCommandRow) with
  | Some row =>
      throw_when! negb (same_merge targetId input sourceVersions row)
        as IntentConflict "Merge command ID conflicts with another request.";
      detailWith subjectId targetId
  | None =>
      let ids := js_sort string_cmp (targetId :: sources) in
      locked ← select (lock_rows subjectId ids);
      throw_when! negb (Nat.eqb (length locked) (length ids)) as IntentConflict "One or more intents do not exist.";
      throw_when! negb (as_expected targetId (mg_expectedVersion input) sourceVersions locked) as version_changed;
      _ ← update (fun db => set_merges (merge_commands db ++
            [(uuid (mg_commandId input), {| mc_target_intent_id := uuid targetId; mc_target_version := mg_expectedVersion input;
                                            mc_source_versions := source_versions sourceVersions |})]) (merge_relations db) db);
      _ ← merge_sources targetId (mg_commandId input) sources;
      fresh ← ask ie_uuid;
      _ ← insertContribution targetId
            (system_contribution fresh "intents-merged"
               (JObject [("sourceIntentIds", JArray (JString <$> sources)); ("commandId", JString (mg_commandId input))]))
            (mg_commandId input);
      _ ← bump_intent targetId;
      detailWith subjectId targetId
  end.

(** [new Map(input.sources.map(...))]. *)
Definition sourceVersions_of (input : MergeCommand) : list (string * Z) :=
  foldl (fun m s => map_set s.1 s.2 m) [] (mg_sources input).
Definition merge (subjectId targetId : string) (input : MergeCommand) : iprog IntentDetail :=
  if negb (String.eqb (mg_id input) targetId) || existsb (fun s : string * Z => String.eqb s.1 targetId) (mg_sources input)
  then Raise (IntentConflict "Intent merge is invalid.")
  else
    let sourceVersions := sourceVersions_of input in
    if negb (Nat.eqb (length sourceVersions) (length (mg_sources input)))
    then Raise (IntentConflict "Intent merge contains duplicate sources.")
    else step (merge_transaction subjectId targetId input sourceVersions).

(** ** The service *)

Inductive intent_service : forall A : Type, iprog A -> Prop :=
| ServeList subjectId : intent_service _ (list_intents subjectId)
| ServeDetail subjectId intentId : intent_service _ (detail subjectId intentId)
| ServeCreate subjectId input : intent_service _ (create subjectId input)
| ServeAppend subjectId intentId input : intent_service _ (step (append subjectId intentId input))
| ServeUpdate subjectId intentId input : intent_service _ (update_ subjectId intentId input)
| ServeArchive subjectId intentId input restore : intent_service _ (archiveOrRestore subjectId intentId input restore)
| ServeTombstone subjectId intentId input : intent_service _ (tombstone subjectId intentId input)
| ServeMerge subjectId targetId input : intent_service _ (merge subjectId targetId input).
End Merge.

(** [randomUUID] prints small letters; nothing else writes to the tables. *)
Definition intent_admissible (time : Z) (env : IntentEnv) (db : IntentsDb) : Prop := True.
Definition intent_background (db db' : IntentsDb) : Prop := False.
Definition empty_intents : IntentsDb :=
  {| intents := []; contributions := []; merge_commands := []; merge_relations := [] |}.
Definition intents_start (time : Z) : pool IntentEnv IntentsDb intent_error :=
  {| pl_time := time; pl_db := empty_intents; pl_running := [] |}.
