(* ===== verification/IntentSystem.v ===== *)
(** * The intents as a system

    For every interleaving of the requests of [Intents] the tables are consistent, a version
    stands for one state of an intent, and commands that are sent again do nothing more:
    first what every transaction keeps, then the theorems, then a run of the service. *)

From S2P Require Import Prelude Contracts Json Programs Tables Intents.
From stdpp Require Import relations.

Open Scope stdpp_scope.
Open Scope js_scope.
Local Open Scope Z_scope.

Abbreviation intent_of id db := (map_get id (intents db)).
(** The contributions of an intent by its key. *)
Definition thread (id : string) (db : IntentsDb) : list (string * ContributionRow) :=
  base.filter (fun c => cb_intent_id c.2 = id) (contributions db).

Lemma uuid_idem s : uuid (uuid s) = uuid s.
Proof. apply to_lower_idem. Qed.

Lemma contributions_thread intentId db : contributions_of intentId db = thread (uuid intentId) db.
Proof. done. Qed.

(** ** The invariant *)

(** The check on [state_before_archive]. *)
Definition before_ok (row : IntentRow) : Prop :=
  match it_state_before_archive row with
  | Some state => state = Working \/ state = Waiting \/ state = Done \/ state = Erroneous
  | None => True
  end.

Record intents_ok (db : IntentsDb) : Prop := {
  in_ids : map_ok (intents db);
  in_contributions : map_ok (contributions db);
  in_printed : forall id row, intent_of id db = Some row -> uuid id = id;
  in_known : forall c, c ∈ contributions db -> is_Some (intent_of (cb_intent_id c.2) db);
  in_sequence : forall id, (fun c : string * ContributionRow => cb_sequence c.2) <$> thread id db =
                           seqZ 1 (Z.of_nat (length (thread id db)));
  in_keys : forall id, NoDup ((fun c : string * ContributionRow => cb_idempotency_key c.2) <$> thread id db);
  in_started : forall id row, intent_of id db = Some row -> 1 <= it_version row /\ thread id db <> [];
  in_merged : forall id row, intent_of id db = Some row ->
    (it_state row = Merged <-> exists r, r ∈ merge_relations db /\ ml_source_intent_id r = id);
  in_before : forall id row, intent_of id db = Some row -> before_ok row;
  in_relations : forall r, r ∈ merge_relations db ->
    is_Some (map_get (ml_command_id r) (merge_commands db)) /\ is_Some (intent_of (ml_target_intent_id r) db) /\
    exists row, intent_of (ml_source_intent_id r) db = Some row /\ it_merged_into_id row = Some (ml_target_intent_id r);
  in_sources : NoDup (ml_source_intent_id <$> merge_relations db);
  in_order : forall i j r r', merge_relations db !! i = Some r -> merge_relations db !! j = Some r' ->
    ml_source_intent_id r' = ml_target_intent_id r -> (i < j)%nat
}.

(** ** How intents change *)

Record intents_later (db db' : IntentsDb) : Prop := {
  il_intent : forall id row, intent_of id db = Some row -> exists row', intent_of id db' = Some row' /\
    it_owner_subject_id row' = it_owner_subject_id row /\ it_created_at row' = it_created_at row /\
    it_version row <= it_version row' /\
    (it_version row' = it_version row -> row' = row /\ thread id db' = thread id db) /\
    (live row = false -> row' = row);
  il_thread : forall id, exists more, thread id db' = thread id db ++ more;
  il_commands : forall id mc, map_get id (merge_commands db) = Some mc -> map_get id (merge_commands db') = Some mc
}.

#[export] Instance intents_later_preorder : PreOrder intents_later.
Proof.
  split.
  - intros db. constructor; [|intros id; exists []; by rewrite app_nil_r|done].
    intros id row H. exists row. repeat split; try done; lia.
  - intros d1 d2 d3 [A1 A2 A3] [B1 B2 B3]. constructor; [| |by auto].
    + intros id row H1. destruct (A1 _ _ H1) as (r2 & H2 & O2 & C2 & V2 & S2 & L2).
      destruct (B1 _ _ H2) as (r3 & H3 & O3 & C3 & V3 & S3 & L3). exists r3.
      split; [done|]. split; [congruence|]. split; [congruence|]. split; [lia|]. split.
      * intros Hv. destruct S2 as [-> E2]; [lia|]. destruct S3 as [-> E3]; [lia|]. split; [done|congruence].
      * intros Hl. rewrite (L2 Hl) in *. by apply L3.
    + intros id. destruct (A2 id) as [m1 E1], (B2 id) as [m2 E2]. exists (m1 ++ m2). by rewrite E2, E1, app_assoc.
Qed.

(** One intent takes a step, or a new one is added with its thread. *)
Lemma map_get_set_cases {V} (k k' : string) (v : V) m :
  map_get k (map_set k' v m) = if decide (k = k') then Some v else map_get k m.
Proof. destruct (decide (k = k')) as [->|]; [apply map_get_set_eq|by apply map_get_set_ne]. Qed.

Lemma thread_add id c db : thread id (set_contributions (contributions db ++ [c]) db) =
  thread id db ++ (if decide (cb_intent_id c.2 = id) then [c] else []).
Proof. unfold thread. cbn. rewrite filter_app. done. Qed.

(** *** Contributions *)

Lemma max_sequence (l : list Z) n : l = seqZ 1 (Z.of_nat n) -> foldr Z.max 0 l = Z.of_nat n.
Proof.
  intros ->. assert (forall m k, 0 <= k -> foldr Z.max 0 (seqZ (k + 1) (Z.of_nat m)) = if (0 <? Z.of_nat m) then k + Z.of_nat m else 0) as H.
  { induction m as [|m IH]; intros k Hk; [done|]. rewrite seqZ_cons by lia. cbn [foldr].
    replace (Z.succ (k + 1)) with ((k + 1) + 1) by lia. replace (Z.pred (Z.of_nat (S m))) with (Z.of_nat m) by lia.
    rewrite IH by lia. destruct (Z.ltb_spec 0 (Z.of_nat m)), (Z.ltb_spec 0 (Z.of_nat (S m))); lia. }
  specialize (H n 0 ltac:(lia)). rewrite Z.add_0_l in H. rewrite H. destruct (Z.ltb_spec 0 (Z.of_nat n)); lia.
Qed.

Lemma next_sequence_ok intentId db : intents_ok db -> next_sequence intentId db = Z.of_nat (length (thread (uuid intentId) db)) + 1.
Proof.
  intros Hok. unfold next_sequence. rewrite contributions_thread. f_equal. apply max_sequence, (in_sequence _ Hok).
Qed.

Definition new_contribution (intentId : string) (input : ContributionInput) (key : string) (env : IntentEnv) (db : IntentsDb) :
    ContributionRow :=
  {| cb_intent_id := uuid intentId; cb_sequence := next_sequence intentId db;
     cb_contributor_kind := cn_contributorKind input; cb_kind := cn_kind input; cb_text := cn_text input;
     cb_payload := cn_payload input; cb_idempotency_key := key; cb_created_at := ie_clock env |}.

Lemma insertContribution_gave intentId input key env db c db' :
  insertContribution intentId input key env db = Gave (c, db') ->
  c = (uuid (cn_id input), new_contribution intentId input key env db) /\
  map_get (uuid (cn_id input)) (contributions db) = None /\
  (forall x, x ∈ thread (uuid intentId) db -> cb_idempotency_key x.2 <> key) /\
  db' = set_contributions (contributions db ++ [c]) db.
Proof.
  unfold insertContribution. intros H. tx_run.
  match goal with Hc : _ || _ = false |- _ => apply orb_false_iff in Hc as [H1 H2] end.
  split; [done|]. split; [by apply map_has_none|]. split; [|done].
  intros x Hx He. pose proof (proj1 (existsb_elem_false _ _) H2 x Hx) as H3. cbn in H3. apply String.eqb_neq in H3. done.
Qed.

(** What an insertion keeps, of an intent that is there. *)
Lemma contribution_keeps intentId input key env db c db' :
  intents_ok db -> is_Some (intent_of (uuid intentId) db) ->
  insertContribution intentId input key env db = Gave (c, db') -> intents_ok db'.
Proof.
  intros Hok Hint (-> & Hnew & Hkey & ->)%insertContribution_gave.
  pose proof (next_sequence_ok intentId db Hok) as Hnext.
  destruct Hok as [O1 O2 O3 O4 O5 O6 O7 O8 O12 O9 O10 O11]. constructor; cbn [intents merge_relations merge_commands set_contributions contributions]; try done.
  - by apply map_ok_add.
  - intros x [Hx|Hx]%elem_of_app; [by apply O4|]. by apply list_elem_of_singleton in Hx as ->.
  - intros id. rewrite thread_add, fmap_app, length_app. cbn [snd cb_intent_id new_contribution].
    destruct (decide (uuid intentId = id)) as [<-|]; [|by rewrite app_nil_r, Nat.add_0_r].
    cbn. rewrite O5, Hnext, Nat2Z.inj_add, seqZ_app by lia. f_equal. rewrite seqZ_cons by lia. f_equal. lia.
  - intros id. rewrite thread_add, fmap_app. cbn [snd cb_intent_id new_contribution].
    destruct (decide (uuid intentId = id)) as [<-|]; [|by rewrite app_nil_r].
    cbn. apply NoDup_app. split; [done|]. split; [|apply NoDup_singleton]. intros k (x & -> & Hx)%list_elem_of_fmap Hk.
    apply list_elem_of_singleton in Hk. by apply (Hkey x Hx).
  - intros id row H. destruct (O7 _ _ H) as [H1 H2]. split; [done|]. rewrite thread_add. by destruct (thread id db).
Qed.

(** *** Rows *)

Lemma later_by_steps db db' :
  (forall id row, intent_of id db = Some row -> exists row', intent_of id db' = Some row' /\
     ((row' = row /\ thread id db' = thread id db) \/
      (it_owner_subject_id row' = it_owner_subject_id row /\ it_created_at row' = it_created_at row /\
       it_version row < it_version row' /\ live row = true))) ->
  (forall id, exists more, thread id db' = thread id db ++ more) ->
  (exists more, merge_commands db' = merge_commands db ++ more) ->
  intents_later db db'.
Proof.
  intros H1 H2 [more Hmore]. constructor; [|done|by intros id mc Hmc; rewrite Hmore, map_get_app, Hmc]. intros id row Hr. destruct (H1 _ _ Hr) as (row' & Hr' & [[-> Ht]|(Ho & Hc & Hv & Hl)]).
  - exists row. repeat split; try done; lia.
  - exists row'. split; [done|]. split; [done|]. split; [done|]. split; [lia|]. split; [lia|congruence].
Qed.

Lemma own_spec subjectId intentId db row : own subjectId intentId db = Some row ->
  intent_of (uuid intentId) db = Some row /\ it_owner_subject_id row = subjectId.
Proof.
  unfold own. destruct (map_get _ _) as [r|]; [|done]. destruct (String.eqb_spec (it_owner_subject_id r) subjectId); [|done].
  by intros [= ->].
Qed.

(** Changes of rows that leave merges alone. *)
Lemma rows_keep db intents' :
  intents_ok db -> map_ok intents' ->
  (forall id row', map_get id intents' = Some row' -> exists row, intent_of id db = Some row /\ 1 <= it_version row' /\
     (it_state row' = Merged <-> it_state row = Merged) /\
     (it_state row = Merged -> it_merged_into_id row' = it_merged_into_id row) /\ (before_ok row -> before_ok row')) ->
  (forall id, is_Some (intent_of id db) -> is_Some (map_get id intents')) ->
  intents_ok (set_intents intents' db).
Proof.
  intros [O1 O2 O3 O4 O5 O6 O7 O8 O12 O9 O10 O11] Hids H1 H2. constructor; cbn; try done.
  - intros id row Hr. destruct (H1 _ _ Hr) as (r & Hr' & _). by eapply O3.
  - intros c Hc. by apply H2, O4.
  - intros id row Hr. destruct (H1 _ _ Hr) as (r & Hr' & Hv & _). split; [done|]. by destruct (O7 _ _ Hr').
  - intros id row Hr. destruct (H1 _ _ Hr) as (r & Hr' & _ & Hs & _). rewrite Hs. by apply O8.
  - intros id row Hr. destruct (H1 _ _ Hr) as (r & Hr' & _ & _ & _ & Hb). by eapply Hb, O12.
  - intros r Hr. destruct (O9 _ Hr) as (Hc & Ht & row & Hrow & Hm). split; [done|]. split; [by apply H2|].
    destruct (H2 (ml_source_intent_id r)) as [row' Hrow']; [by eexists|]. exists row'. split; [done|].
    destruct (H1 _ _ Hrow') as (r0 & Hr0 & _ & Hs & Hmi & _). rewrite Hrow in Hr0. injection Hr0 as <-.
    rewrite Hmi; [done|]. apply (O8 _ _ Hrow). by exists r.
Qed.

Lemma live_not_merged row : live row = true -> it_state row <> Merged /\ it_state row <> Deleted.
Proof. unfold live. intros [H1 H2]%andb_prop. by rewrite negb_true_iff, bool_decide_eq_false in H1, H2. Qed.

Lemma live_intro row : it_state row <> Merged -> it_state row <> Deleted -> live row = true.
Proof. intros H1 H2. unfold live. by rewrite !bool_decide_false. Qed.

(** A guarded update of one row. *)
Lemma update_intent_keeps subjectId intentId version in_state f env db db' :
  intents_ok db -> (forall row, in_state row = true -> it_state row <> Merged /\ it_state row <> Deleted) ->
  (forall row, in_state row = true -> before_ok row -> it_state (f row) <> Merged /\ before_ok (f row) /\
     it_owner_subject_id (f row) = it_owner_subject_id row /\
     it_created_at (f row) = it_created_at row /\ it_version (f row) = it_version row) ->
  update_intent subjectId intentId version in_state f env db = Gave (tt, db') ->
  intents_ok db' /\ intents_later db db'.
Proof.
  intros Hok Hin Hf H. unfold update_intent in H. tx_run.
  destruct (own subjectId intentId _) as [row|] eqn:Hown; [|by tx_run]. tx_run.
  apply own_spec in Hown as [Hrow _].
  match goal with Hc : negb _ = false |- _ => apply negb_false_iff, andb_prop in Hc as [_ Hst] end.
  destruct (Hin _ Hst) as [Hm Hd], (Hf _ Hst (in_before _ Hok _ _ Hrow)) as (F1 & F5 & F2 & F3 & F4). unfold set_intent.
  split.
  - apply rows_keep; [done|by apply map_ok_set, (in_ids _ Hok)| |].
    + intros id row'. rewrite map_get_set_cases. case_decide as E.
      * intros [= <-]. subst. exists row. split; [done|]. cbn. rewrite F4. destruct (in_started _ Hok _ _ Hrow).
        split; [lia|]. done.
      * intros Hr. exists row'. split; [done|]. split; [by destruct (in_started _ Hok _ _ Hr)|done].
    + intros id [r Hr]. rewrite map_get_set_cases. case_decide; by eexists.
  - apply later_by_steps; [|intros id; exists []; by rewrite app_nil_r|exists []; by rewrite app_nil_r].
    intros id r Hr. cbn. rewrite map_get_set_cases. case_decide as E; [|by exists r; split; [done|left]].
    subst. rewrite Hrow in Hr. injection Hr as <-. eexists. split; [done|]. right. cbn. rewrite F4.
    split; [done|]. split; [done|]. split; [lia|by apply live_intro].
Qed.

(** *** [create] *)

Lemma create_keeps subjectId input env db b db' :
  intents_ok db -> create_transaction subjectId input env db = Gave (b, db') ->
  intents_ok db' /\ intents_later db db'.
Proof.
  intros Hok H. unfold create_transaction in H. tx_run.
  destruct (map_has _ (intents _)) eqn:Hc; tx_run; [split; [done|reflexivity]|].
  apply map_has_none in Hc. set (key := uuid (ci_id input)) in *.
  match goal with Hi : insertContribution _ _ _ _ (set_intents _ ?d) = _ |- _ => rename d into db0, Hi into Hins end.
  set (db1 := set_intents _ db0) in *.
  apply insertContribution_gave in Hins as (-> & Hnew & Hkeys & ->).
  assert (forall c, c ∈ contributions db0 -> cb_intent_id c.2 <> key) as Hnone.
  { intros c Hin E1. destruct (in_known _ Hok _ Hin) as [r Hr]. rewrite E1 in Hr. congruence. }
  assert (thread key db0 = []) as Hempty.
  { unfold thread.
    destruct (base.filter _ (contributions db0)) as [|c l] eqn:E1; [done|].
    assert (c ∈ base.filter (fun c : string * ContributionRow => cb_intent_id c.2 = key) (contributions db0)) as Hin by (rewrite E1; left).
    apply list_elem_of_filter in Hin as [H1 H2]. by apply Hnone in H2. }
  assert (next_sequence (ci_id input) db1 = 1) as Hseq.
  { unfold next_sequence. rewrite contributions_thread. fold key.
    change (thread key db1) with (thread key db0). by rewrite Hempty. }
  assert (forall id, intent_of id (set_contributions (contributions db1 ++ [(uuid (ie_uuid env),
            new_contribution (ci_id input) (system_contribution (ie_uuid env) "intent-created"
              (JObject [("triggerKind", JString "human")])) ("create:" +:+ ci_id input) env db1)]) db1) =
          match intent_of id db0 with Some r => Some r
          | None => if decide (id = key) then Some (new_intent subjectId input (ie_clock env)) else None end) as Hget.
  { intros id. cbn. rewrite map_get_app. by destruct (map_get id (intents db0)). }
  split.
  - destruct Hok as [O1 O2 O3 O4 O5 O6 O7 O8 O12 O9 O10 O11].
    assert (forall id, is_Some (intent_of id db0) -> id <> key) as Hne by (intros id [r Hr] ->; congruence).
    constructor.
    + by apply map_ok_add.
    + by apply map_ok_add.
    + intros id row. rewrite Hget. destruct (intent_of id db0) eqn:E1; [intros _; by eapply O3|].
      case_decide; [|done]. subst. intros _. apply uuid_idem.
    + intros c [Hin|Hin]%elem_of_app; rewrite Hget.
      * destruct (O4 _ Hin) as [r ->]. by eexists.
      * apply list_elem_of_singleton in Hin as ->. cbn. fold key. rewrite Hc, decide_True by done. by eexists.
    + intros id. rewrite thread_add. cbn [snd cb_intent_id new_contribution]. fold key. destruct (decide (key = id)) as [<-|].
      * change (thread key db1) with (thread key db0). rewrite Hempty. cbn. by rewrite Hseq.
      * rewrite app_nil_r. apply O5.
    + intros id. rewrite thread_add. cbn [snd cb_intent_id new_contribution]. fold key. destruct (decide (key = id)) as [<-|].
      * change (thread key db1) with (thread key db0). rewrite Hempty. cbn. apply NoDup_singleton.
      * rewrite app_nil_r. apply O6.
    + intros id row. rewrite Hget, thread_add. cbn [snd cb_intent_id new_contribution]. fold key.
      destruct (intent_of id db0) as [r|] eqn:E1.
      * intros [= ->]. destruct (O7 _ _ E1). split; [done|]. change (thread id db1) with (thread id db0). by destruct (thread id db0).
      * case_decide; [|done]. intros [= <-]. subst id. rewrite decide_True by done. split; [cbn; lia|]. intros [_ E2]%app_nil. done.
    + intros id row. rewrite Hget. destruct (intent_of id db0) as [r|] eqn:E1; [intros [= ->]; by apply O8|].
      case_decide; [|done]. intros [= <-]. subst id. split; [done|]. intros (r & Hr & Hs).
      destruct (O9 _ Hr) as (_ & _ & row & Hrow & _). congruence.
    + intros id row. rewrite Hget. destruct (intent_of id db0) as [r|] eqn:E1; [intros [= ->]; by eapply O12|].
      case_decide; [|done]. by intros [= <-].
    + intros r Hr. destruct (O9 _ Hr) as (H1 & [t Ht] & row & Hrow & Hm). split; [done|]. rewrite !Hget, Ht, Hrow. eauto.
    + done.
    + done.
  - apply later_by_steps.
    + intros id row Hr. exists row. rewrite Hget, Hr. split; [done|]. left. split; [done|]. rewrite thread_add.
      cbn [snd cb_intent_id new_contribution]. fold key. rewrite decide_False by congruence. by rewrite app_nil_r.
    + intros id. rewrite thread_add. by eexists.
    + exists []. by rewrite app_nil_r.
Qed.

(** *** [append] *)

Lemma bump_gave intentId env db db' : bump_intent intentId env db = Gave (tt, db') ->
  db' = set_intents (update_where (fun r => String.eqb r.1 (uuid intentId)) (bumped (ie_clock env)) (intents db)) db.
Proof. intros H. unfold bump_intent in H. by tx_run. Qed.

Lemma bump_keeps intentId clock db row : intents_ok db -> intent_of (uuid intentId) db = Some row ->
  intents_ok (set_intents (update_where (fun r => String.eqb r.1 (uuid intentId)) (bumped clock) (intents db)) db).
Proof.
  intros Hok Hrow. apply rows_keep; [done|by apply map_ok_update_where, (in_ids _ Hok)| |].
  - intros id row'. rewrite map_get_update_where. case_decide as E.
    + subst. rewrite Hrow. intros [= <-]. exists row. split; [done|]. cbn. destruct (in_started _ Hok _ _ Hrow). split; [lia|done].
    + intros Hr. exists row'. split; [done|]. split; [by destruct (in_started _ Hok _ _ Hr)|done].
  - intros id [r Hr]. rewrite map_get_update_where, Hr. case_decide; by eexists.
Qed.

Lemma contribute_keeps intentId input key env db c db1 db2 row :
  intents_ok db -> intent_of (uuid intentId) db = Some row -> live row = true ->
  insertContribution intentId input key env db = Gave (c, db1) -> bump_intent intentId env db1 = Gave (tt, db2) ->
  intents_ok db2 /\ intents_later db db2.
Proof.
  intros Hok Hrow Hlive Hins Hb%bump_gave. pose proof (contribution_keeps _ _ _ _ _ _ _ Hok (ex_intro _ _ Hrow) Hins) as Hok1.
  apply insertContribution_gave in Hins as (-> & Hnew & Hkeys & ->). subst db2.
  split; [by eapply bump_keeps|]. apply later_by_steps.
  - intros id r Hr. cbn [intents set_intents set_contributions]. rewrite map_get_update_where, Hr. case_decide as E.
    + subst. rewrite Hrow in Hr. injection Hr as <-. eexists. split; [done|]. right. cbn. split; [done|]. split; [done|]. split; [lia|done].
    + exists r. split; [done|]. left. split; [done|]. change (thread id (set_intents ?x ?d)) with (thread id d).
      rewrite thread_add. cbn [snd cb_intent_id new_contribution]. rewrite decide_False by congruence. by rewrite app_nil_r.
  - intros id. change (thread id (set_intents ?x ?d)) with (thread id d). rewrite thread_add. by eexists.
  - exists []. by rewrite app_nil_r.
Qed.

Lemma append_keeps subjectId intentId input env db c db' :
  intents_ok db -> append subjectId intentId input env db = Gave (c, db') -> intents_ok db' /\ intents_later db db'.
Proof.
  intros Hok H. unfold append in H. tx_run.
  destruct (own subjectId intentId _) as [row|] eqn:Hown; [|done]. apply own_spec in Hown as [Hrow _].
  match goal with Hc : negb _ = false |- _ => apply negb_false_iff in Hc end.
  destruct (pick _ _) as [[id r]|]; tx_run; [split; [done|reflexivity]|].
  destruct a0. by eapply contribute_keeps.
Qed.

(** *** [merge] *)

Lemma merge_source_gave targetId commandId s env db db' :
  merge_source targetId commandId s env db = Gave (tt, db') ->
  (forall r, r ∈ merge_relations db -> ml_source_intent_id r <> uuid s) /\
  db' = set_intents (update_where (fun r => String.eqb r.1 (uuid s)) (fun row => bumped (ie_clock env) (merged_row targetId row)) (intents db))
          (set_merges (merge_commands db)
             (merge_relations db ++ [{| ml_target_intent_id := uuid targetId; ml_source_intent_id := uuid s;
                                        ml_command_id := uuid commandId |}]) db).
Proof.
  unfold merge_source. intros H. tx_run. split; [|done]. intros r Hr E1.
  match goal with Hc : existsb _ _ = false |- _ => pose proof (proj1 (existsb_elem_false _ _) Hc r Hr) as H1 end.
  cbn in H1. by apply String.eqb_neq in H1.
Qed.

Definition new_relation (targetId commandId s : string) : MergeRelationRow :=
  {| ml_target_intent_id := uuid targetId; ml_source_intent_id := uuid s; ml_command_id := uuid commandId |}.

(** The tables after the sources of a command. *)
Record merged_sources (targetId commandId : string) (clock : Z) (sources : list string) (db db' : IntentsDb) : Prop := {
  ms_contributions : contributions db' = contributions db;
  ms_commands : merge_commands db' = merge_commands db;
  ms_relations : merge_relations db' = merge_relations db ++ (new_relation targetId commandId <$> sources);
  ms_distinct : NoDup (uuid <$> sources);
  ms_unused : forall s r, s ∈ sources -> r ∈ merge_relations db -> ml_source_intent_id r <> uuid s;
  ms_keys : (intents db').*1 = (intents db).*1;
  ms_intents : forall id, intent_of id db' =
    if decide (id ∈ uuid <$> sources) then (fun row => bumped clock (merged_row targetId row)) <$> intent_of id db
    else intent_of id db
}.

Lemma merge_sources_gave targetId commandId env sources : forall db db',
  merge_sources targetId commandId sources env db = Gave (tt, db') ->
  merged_sources targetId commandId (ie_clock env) sources db db'.
Proof.
  induction sources as [|s sources IH]; intros db db' H; cbn [merge_sources] in H; tx_run.
  { constructor; try done; [by rewrite app_nil_r|constructor|by intros s r ?%elem_of_nil]. }
  destruct a. match goal with Hs : merge_source _ _ _ _ _ = _ |- _ => apply merge_source_gave in Hs as [Hu ->] end.
  destruct (IH _ _ H) as [M1 M2 M3 M4 M5 M6 M7]. cbn [merge_relations set_merges set_intents] in M3, M5.
  constructor.
  - by rewrite M1.
  - by rewrite M2.
  - rewrite M3, <- app_assoc. done.
  - apply NoDup_cons. split; [|done]. intros (s' & E1 & Hs')%list_elem_of_fmap.
    apply (M5 s' (new_relation targetId commandId s) Hs'); [apply elem_of_app; right; left|done].
  - intros s' r [->|Hs']%elem_of_cons Hr; [by apply Hu|]. apply (M5 s' r Hs'), elem_of_app. by left.
  - rewrite M6. apply update_where_keys.
  - intros id. rewrite M7. cbn [intents set_merges set_intents]. rewrite map_get_update_where, fmap_cons.
    destruct (decide (id = uuid s)) as [->|Hne].
    + rewrite (decide_True (P := uuid s ∈ uuid s :: _)) by left. rewrite decide_False; [done|].
      intros (s' & E1 & Hs')%list_elem_of_fmap. apply (M5 s' (new_relation targetId commandId s) Hs'); [apply elem_of_app; right; left|done].
    + destruct (decide (id ∈ uuid <$> sources)) as [Hi|Hi];
        [rewrite decide_True by (by right)|rewrite decide_False by (intros [?|?]%elem_of_cons; done)]; done.
Qed.

(** As many rows as identifiers: each identifier has its own. *)
Lemma locked_rows subjectId ids db : intents_ok db -> length (lock_rows subjectId ids db) = length ids ->
  NoDup (uuid <$> ids) /\
  forall id, id ∈ ids -> exists row, (uuid id, row) ∈ lock_rows subjectId ids db /\ intent_of (uuid id) db = Some row.
Proof.
  intros Hok Hlen. set (locked := lock_rows subjectId ids db) in *.
  assert (map_ok locked) as Hl by (apply map_ok_filter, (in_ids _ Hok)).
  assert (forall k, k ∈ locked.*1 -> k ∈ uuid <$> ids) as Hsub.
  { intros k ([k' row] & -> & Hin)%list_elem_of_fmap. apply list_elem_of_filter in Hin as [H1 _]. cbn in H1.
    apply andb_prop in H1 as [_ H1]. apply existsb_elem in H1 as (id & Hid & E1). apply String.eqb_eq in E1. cbn in E1. cbn.
    rewrite <- E1. by apply list_elem_of_fmap_2. }
  assert (locked.*1 ≡ₚ uuid <$> ids) as Hp.
  { apply submseteq_length_Permutation; [by apply NoDup_submseteq|]. rewrite !length_fmap. lia. }
  split; [by rewrite <- Hp|]. intros id Hid.
  assert (uuid id ∈ locked.*1) as Hin by (rewrite Hp; by apply list_elem_of_fmap_2).
  apply list_elem_of_fmap in Hin as ([k row] & E1 & Hin). cbn in E1. subst k. exists row. split; [done|].
  apply list_elem_of_filter in Hin as [_ Hin]. by apply map_get_ok; [apply (in_ids _ Hok)|].
Qed.

(** The target and the sources of a command that goes on. *)
Lemma expected_rows targetId expectedVersion sourceVersions subjectId ids db :
  intents_ok db -> length (lock_rows subjectId ids db) = length ids ->
  (forall id, id ∈ ids <-> id = targetId \/ id ∈ sourceVersions.*1) -> length ids = S (length sourceVersions) ->
  as_expected targetId expectedVersion sourceVersions (lock_rows subjectId ids db) = true ->
  uuid targetId = targetId /\
  (exists row, intent_of (uuid targetId) db = Some row /\ it_version row = expectedVersion /\ live row = true) /\
  NoDup (uuid <$> ids) /\
  (forall s, s ∈ sourceVersions.*1 -> uuid s <> uuid targetId ->
     exists row, intent_of (uuid s) db = Some row /\ live row = true /\ map_get (uuid s) sourceVersions = Some (it_version row)).
Proof.
  intros Hok Hlen Hids Hlens Hexp. destruct (locked_rows _ _ _ Hok Hlen) as [Hnd Hrows].
  unfold as_expected in Hexp. destruct (js_find _ _) as [[k target]|] eqn:Hf; [|done].
  apply js_find_Some in Hf as [Hin Ek]. cbn in Ek. apply String.eqb_eq in Ek. subst k.
  apply andb_prop in Hexp as [[Hv Hl]%andb_prop Hall]. apply Z.eqb_eq in Hv.
  apply list_elem_of_filter in Hin as [Hsel Hin].
  assert (intent_of targetId db = Some target) as Ht by (by apply map_get_ok; [apply (in_ids _ Hok)|]).
  assert (uuid targetId = targetId) as Hprint by by eapply in_printed.
  split; [done|]. split; [exists target; rewrite Hprint; done|]. split; [done|].
  intros s Hs Hne. destruct (Hrows s) as (row & Hrow & Hget); [apply Hids; by right|]. exists row. split; [done|].
  apply forallb_elem with (x := (uuid s, row)) in Hall; [|done]. cbn in Hall.
  apply orb_prop in Hall as [E1|[E1 E2]%andb_prop]; [apply String.eqb_eq in E1; congruence|].
  by apply bool_decide_eq_true in E1.
Qed.

(** The tables once the sources of a new command are merged. *)
Section MergedKeeps.
Context (targetId commandId : string) (clock : Z) (sources : list string) (target : IntentRow) (command : MergeCommandRow).
Context (db db' : IntentsDb) (Hok : intents_ok db).
Context (Htarget : intent_of (uuid targetId) db = Some target) (Htlive : live target = true).
Context (Hsources : forall s, s ∈ sources -> uuid s <> uuid targetId /\ exists r, intent_of (uuid s) db = Some r /\ live r = true).
Context (Hms : merged_sources targetId commandId clock sources
  (set_merges (merge_commands db ++ [(uuid commandId, command)]) (merge_relations db) db) db').

Lemma merged_thread id : thread id db' = thread id db.
Proof. unfold thread. by rewrite (ms_contributions _ _ _ _ _ _ Hms). Qed.

(** An intent of after is one of before, merged when it is a source. *)
Lemma merged_before id row' : intent_of id db' = Some row' -> exists row, intent_of id db = Some row /\
  ((id ∈ uuid <$> sources /\ row' = bumped clock (merged_row targetId row) /\ live row = true) \/
   (id ∉ uuid <$> sources /\ row' = row)).
Proof.
  rewrite (ms_intents _ _ _ _ _ _ Hms). cbn [intents set_merges].
  case_decide as Hi; [|by exists row'; split; [|right]].
  intros (row & Hrow & ->)%fmap_Some. exists row. split; [done|]. left.
  split; [done|]. split; [done|]. apply list_elem_of_fmap in Hi as (s & -> & Hs).
  destruct (Hsources _ Hs) as (_ & r & Hr & Hl). congruence.
Qed.
Lemma merged_after id row : intent_of id db = Some row -> exists row', intent_of id db' = Some row'.
Proof.
  intros Hrow. rewrite (ms_intents _ _ _ _ _ _ Hms). cbn [intents set_merges]. rewrite Hrow. case_decide; by eexists.
Qed.

Lemma merged_target : intent_of (uuid targetId) db' = Some target.
Proof.
  rewrite (ms_intents _ _ _ _ _ _ Hms). cbn [intents set_merges]. rewrite decide_False; [done|].
  intros (s & E & Hs)%list_elem_of_fmap. by destruct (Hsources _ Hs).
Qed.

Lemma merged_relation r : r ∈ merge_relations db' ->
  r ∈ merge_relations db \/ exists s, s ∈ sources /\ r = new_relation targetId commandId s.
Proof.
  rewrite (ms_relations _ _ _ _ _ _ Hms). cbn [merge_relations set_merges].
  intros [Hr|(s & -> & Hs)%list_elem_of_fmap]%elem_of_app; [by left|right; eauto].
Qed.

Lemma old_source_not_live r row : r ∈ merge_relations db -> intent_of (ml_source_intent_id r) db = Some row -> live row = false.
Proof.
  intros Hr Hrow. destruct (live row) eqn:Hl; [|done]. apply live_not_merged in Hl as [Hm _].
  exfalso. apply Hm, (in_merged _ Hok _ _ Hrow). by exists r.
Qed.

Lemma merged_order i j r r' : merge_relations db' !! i = Some r -> merge_relations db' !! j = Some r' ->
  ml_source_intent_id r' = ml_target_intent_id r -> (i < j)%nat.
Proof.
  rewrite (ms_relations _ _ _ _ _ _ Hms). cbn [merge_relations set_merges].
  intros [Hi|[Hi1 Hi2]]%lookup_app_Some [Hj|[Hj1 Hj2]]%lookup_app_Some Hst.
  - by eapply (in_order _ Hok).
  - apply lookup_lt_Some in Hi. lia.
  - rewrite list_lookup_fmap in Hi2. apply fmap_Some in Hi2 as (s & Hs & ->). cbn in Hst.
    apply list_elem_of_lookup_2 in Hj. pose proof (old_source_not_live r' target Hj) as H1. rewrite Hst in H1.
    by rewrite H1 in Htlive.
  - rewrite list_lookup_fmap in Hi2, Hj2. apply fmap_Some in Hi2 as (s & _ & ->), Hj2 as (s' & Hs' & ->).
    apply list_elem_of_lookup_2 in Hs'. destruct (Hsources _ Hs') as [Hne _]. by cbn in Hst.
Qed.

Lemma merged_ok : intents_ok db'.
Proof.
  pose proof Hok as [O1 O2 O3 O4 O5 O6 O7 O8 O12 O9 O10 O11]. pose proof Hms as [M1 M2 M3 M4 M5 M6 M7].
  cbn [merge_relations merge_commands contributions intents set_merges] in *. constructor.
  - unfold map_ok. by rewrite M6.
  - by rewrite M1.
  - intros id row' (row & Hrow & _)%merged_before. by eapply O3.
  - intros c. rewrite M1. intros Hc. destruct (O4 _ Hc) as [row Hrow]. by destruct (merged_after _ _ Hrow) as [? ->].
  - intros id. rewrite merged_thread. apply O5.
  - intros id. rewrite merged_thread. apply O6.
  - intros id row' (row & Hrow & Hr)%merged_before. rewrite merged_thread. destruct (O7 _ _ Hrow).
    split; [|done]. destruct Hr as [(_ & -> & _)|[_ ->]]; [cbn; lia|done].
  - intros id row' (row & Hrow & Hr)%merged_before. destruct Hr as [(Hi & -> & Hl)|[Hi ->]].
    + split; [|done]. intros _. apply list_elem_of_fmap in Hi as (s & -> & Hs). exists (new_relation targetId commandId s).
      rewrite M3. split; [|done]. apply elem_of_app. right. by apply list_elem_of_fmap_2.
    + rewrite (O8 _ _ Hrow). split; intros (r & Hr & Hs).
      * exists r. rewrite M3. split; [apply elem_of_app; by left|done].
      * apply merged_relation in Hr as [Hr|(s & Hs' & ->)]; [by exists r|]. destruct Hi. rewrite <- Hs.
        apply list_elem_of_fmap. by exists s.
  - intros id row' (row & Hrow & Hr)%merged_before. pose proof (O12 _ _ Hrow). by destruct Hr as [(_ & -> & _)|[_ ->]].
  - intros r Hr. rewrite M2. apply merged_relation in Hr as [Hr|(s & Hs & ->)].
    + destruct (O9 _ Hr) as ([mc Hmc] & [t Ht] & row & Hrow & Hi). split; [rewrite map_get_app, Hmc; by eexists|].
      split; [by apply (merged_after _ _ Ht)|]. destruct (merged_after _ _ Hrow) as [row' Hrow'].
      exists row'. split; [done|]. apply merged_before in Hrow' as (row0 & Hrow0 & [(Hi' & _ & Hl)|[_ ->]]); [|congruence].
      rewrite Hrow in Hrow0. injection Hrow0 as <-. by rewrite (old_source_not_live _ _ Hr Hrow) in Hl.
    + cbn. split; [rewrite map_get_app; destruct (map_get _ (merge_commands db)); [by eexists|]; cbn; by rewrite decide_True; eexists|].
      split; [rewrite merged_target; by eexists|]. destruct (Hsources _ Hs) as (_ & r & Hr & Hl).
      exists (bumped clock (merged_row targetId r)). rewrite M7, Hr, decide_True by (by apply list_elem_of_fmap_2). done.
  - rewrite M3, fmap_app, <- list_fmap_compose. apply NoDup_app. split; [done|]. split; [|done].
    intros k (r & -> & Hr)%list_elem_of_fmap (s & E & Hs)%list_elem_of_fmap. by apply (M5 _ _ Hs Hr).
  - apply merged_order.
Qed.

Lemma merged_later : intents_later db db'.
Proof.
  apply later_by_steps; [|intros id; exists []; by rewrite merged_thread, app_nil_r|rewrite (ms_commands _ _ _ _ _ _ Hms); by eexists].
  intros id row Hrow. destruct (merged_after _ _ Hrow) as [row' Hrow']. exists row'. split; [done|].
  rewrite merged_thread. apply merged_before in Hrow' as (row0 & Hrow0 & Hr). rewrite Hrow in Hrow0. injection Hrow0 as <-.
  destruct Hr as [(_ & -> & Hl)|[_ ->]]; [right|by left]. cbn. split; [done|]. split; [done|]. split; [lia|done].
Qed.
End MergedKeeps.

(** *** [merge] *)

Lemma merge_sources_distinct targetId sources : forall ids, ids ≡ₚ targetId :: sources -> NoDup (uuid <$> ids) ->
  forall s, s ∈ sources -> uuid s <> uuid targetId.
Proof.
  intros ids Hp Hnd s Hs E. assert (uuid <$> ids ≡ₚ uuid targetId :: (uuid <$> sources)) as Hp' by (by rewrite Hp).
  rewrite Hp' in Hnd. apply NoDup_cons in Hnd as [Hn _]. apply Hn. rewrite <- E. by apply list_elem_of_fmap_2.
Qed.

Section MergeKeeps.
Context {collation : Collation}.

Lemma detailWith_gave subjectId intentId env db d db' :
  detailWith subjectId intentId env db = Gave (d, db') ->
  db' = db /\ exists row, readable subjectId intentId db = Some row /\
    d = {| id_intent := (uuid intentId, row); id_contributions := select_contributions intentId db |}.
Proof.
  unfold detailWith. intros H. tx_run. destruct (readable _ _ _) as [row|] eqn:E; tx_run. split; [done|]. by exists row.
Qed.

(** A merge is the merge of its sources, then a contribution to the target. *)
Lemma merge_keeps subjectId targetId input sourceVersions env db d db' :
  intents_ok db -> merge_transaction subjectId targetId input sourceVersions env db = Gave (d, db') ->
  intents_ok db' /\ intents_later db db'.
Proof.
  intros Hok H. unfold merge_transaction in H. tx_run.
  destruct (map_get _ (merge_commands _)) as [prior|] eqn:Hprior; tx_run.
  { apply detailWith_gave in H as [-> _]. split; [done|reflexivity]. }
  apply detailWith_gave in H as [-> _].
  repeat match goal with Hc : negb _ = false |- _ => apply negb_false_iff in Hc end.
  match goal with Hl : (_ =? _)%nat = true |- _ => apply Nat.eqb_eq in Hl; rename Hl into Hlen end.
  match goal with He : as_expected _ _ _ _ = true |- _ => rename He into Hexp end.
  set (sources := js_sort string_cmp (sourceVersions.*1)) in *.
  set (ids := js_sort string_cmp (targetId :: sources)) in *.
  change (sort_insert string_cmp targetId (js_sort string_cmp sources)) with ids in Hlen, Hexp.
  assert (ids ≡ₚ targetId :: sources) as Hids by apply js_sort_perm.
  assert (sources ≡ₚ sourceVersions.*1) as Hsrc by apply js_sort_perm.
  destruct (expected_rows targetId (mg_expectedVersion input) sourceVersions subjectId ids _ Hok Hlen)
    as (_ & (target & Ht & _ & Hl) & Hnd & Hs); [| |exact Hexp|].
  { intros id. rewrite Hids, elem_of_cons. by rewrite Hsrc. }
  { rewrite Hids. cbn. by rewrite Hsrc, length_fmap. }
  match goal with Hm : merge_sources _ _ _ _ ?d = Gave (?u, _) |- _ =>
    destruct u; rename Hm into Hms; apply merge_sources_gave in Hms; set (db0 := d) in Hms end.
  match goal with Hb : bump_intent _ _ _ = Gave (?u, _) |- _ => destruct u; rename Hb into Hbump end.
  match goal with Hi : insertContribution _ _ _ _ _ = _ |- _ => rename Hi into Hins end.
  match type of Hms with merged_sources _ _ _ _ _ ?x => rename x into db1 end.
  assert (forall s, s ∈ sources -> uuid s <> uuid targetId /\ exists r, intent_of (uuid s) db = Some r /\ live r = true) as Hsources.
  { intros s Hin. assert (uuid s <> uuid targetId) as Hne by (by eapply merge_sources_distinct).
    split; [done|]. destruct (Hs s) as (r & Hr & Hrl & _); [by rewrite <- Hsrc|done|]. by exists r. }
  pose proof (merged_ok _ _ _ _ _ _ _ _ Hok Ht Hl Hsources Hms) as Hok1.
  assert (intents_later db db1) as Hlater by (eapply merged_later; done).
  assert (intent_of (uuid targetId) db1 = Some target) as Ht1 by (eapply merged_target; done).
  destruct (contribute_keeps _ _ _ _ _ _ _ _ _ Hok1 Ht1 Hl Hins Hbump). split; [done|by etransitivity].
Qed.
End MergeKeeps.

(** * The intents as a system

    The theorems on [Intents]: for every interleaving of the requests the tables are
    consistent, a version stands for one state of an intent, and commands that are sent
    again do nothing more. *)

Section System.
Context {collation : Collation}.

Abbreviation intents_step := (pool_step intent_admissible intent_service intent_background).
Abbreviation intent_pool := (pool IntentEnv IntentsDb intent_error).

Definition intents_reachable (pl : intent_pool) : Prop := exists time, rtc intents_step (intents_start time) pl.

Abbreviation calm p := (safe (E := intent_error) intent_admissible (fun _ => intents_ok) intents_later p).

Lemma calm_reads {A} (f : IntentsDb -> A) db : calm (step (select f)) db.
Proof. apply safe_step, keeping_gave; [typeclasses eauto|]. intros time env d b d' _ Hok [= <- <-]. split; [done|reflexivity]. Qed.

Lemma calm_writes {A} (t : itx A) db :
  (forall env d a d', intents_ok d -> t env d = Gave (a, d') -> intents_ok d' /\ intents_later d d') -> calm (step t) db.
Proof. intros Ht. apply safe_step, keeping_gave; [typeclasses eauto|]. intros time env d a d' _. apply Ht. Qed.

Lemma detail_calm subjectId intentId db : calm (detail subjectId intentId) db.
Proof.
  unfold detail. apply safe_bind; [typeclasses eauto|apply calm_reads|]. intros [row|] d _; [|done].
  apply safe_bind; [typeclasses eauto|apply calm_reads|]. intros; done.
Qed.

Lemma update_calm subjectId intentId version in_state f db :
  (forall row, in_state row = true -> it_state row <> Merged /\ it_state row <> Deleted) ->
  (forall row, in_state row = true -> before_ok row -> it_state (f row) <> Merged /\ before_ok (f row) /\
     it_owner_subject_id (f row) = it_owner_subject_id row /\
     it_created_at (f row) = it_created_at row /\ it_version (f row) = it_version row) ->
  calm (step (update_intent subjectId intentId version in_state f)) db.
Proof. intros H1 H2. apply calm_writes. intros env d [] d' Hok H. by eapply update_intent_keeps. Qed.

Lemma service_calm A (p : iprog A) : intent_service A p -> forall db, calm p db.
Proof.
  destruct 1 as [subjectId|subjectId intentId|subjectId input|subjectId intentId input|subjectId intentId input|
                 subjectId intentId input restore|subjectId intentId input|subjectId targetId input]; intros db.
  - apply calm_reads.
  - apply detail_calm.
  - unfold create. apply safe_bind; [typeclasses eauto|apply calm_writes; intros; by eapply create_keeps|].
    intros [] d _; cbv beta iota delta [negb]; [apply detail_calm|]. apply safe_try; [typeclasses eauto|apply detail_calm| |done].
    intros existing d' _. by destruct (same_intent _ _).
  - apply calm_writes. intros. by eapply append_keeps.
  - unfold update_. apply safe_bind; [typeclasses eauto| |intros; apply detail_calm].
    apply update_calm; [apply live_not_merged|]. intros row [Hm _]%live_not_merged Hb. cbn. split; [|done].
    destruct (ui_state input) as [[]|]; done.
  - unfold archiveOrRestore. destruct (String.eqb _ _); [|done]. cbv beta iota delta [negb].
    apply safe_bind; [typeclasses eauto| |intros; apply detail_calm]. destruct restore; apply update_calm.
    + by intros row ->%bool_decide_eq_true.
    + intros row _. unfold before_ok. cbn. destruct (it_state_before_archive row) as [?|]; [naive_solver|done].
    + intros row. unfold active. by destruct (it_state row).
    + intros row. unfold active, before_ok. cbn. destruct (it_state row); naive_solver.
  - unfold tombstone. destruct (String.eqb _ _); [|done]. cbv beta iota delta [negb].
    apply update_calm; [apply live_not_merged|done].
  - unfold Intents.merge. do 2 (case_match; [done|]). apply calm_writes. intros. by eapply merge_keeps.
Qed.

Lemma empty_intents_ok : intents_ok empty_intents.
Proof.
  constructor; cbn; try done; try (by intros ? ?%elem_of_nil).
  all: repeat intro; constructor.
Qed.

Abbreviation all_calm := (pool_ok (E := intent_error) intent_admissible (fun _ => intents_ok) intents_later).

Lemma intents_keep pl pl' : all_calm pl -> rtc intents_step pl pl' -> all_calm pl' /\ intents_later (pl_db pl) (pl_db pl').
Proof. apply pool_keeps; [typeclasses eauto|apply service_calm|done|done]. Qed.

Lemma reachable_calm pl : intents_reachable pl -> all_calm pl.
Proof. intros [time Hpl]. eapply intents_keep, Hpl. split; [apply empty_intents_ok|by intros r ?%elem_of_nil]. Qed.

Lemma later_ok pl pl' : intents_reachable pl -> rtc intents_step pl pl' ->
  intents_ok (pl_db pl) /\ intents_ok (pl_db pl') /\ intents_later (pl_db pl) (pl_db pl').
Proof.
  intros Hpl%reachable_calm Hlater. destruct (intents_keep _ _ Hpl Hlater) as [[H1 _] H2]. split; [apply Hpl|done].
Qed.

(** ** Consistency *)

(** An intent is merged into another, which may be merged itself. *)
Definition merged_into (db : IntentsDb) (id id' : string) : Prop :=
  exists row, intent_of id db = Some row /\ it_state row = Merged /\ it_merged_into_id row = Some id'.

(** A merge into an intent comes before the merge of that intent. *)
Lemma merges_end db : intents_ok db -> forall id, is_Some (intent_of id db) ->
  exists id' row, rtc (merged_into db) id id' /\ intent_of id' db = Some row /\ it_state row <> Merged.
Proof.
  intros Hok. assert (forall n i r, (length (merge_relations db) - i <= n)%nat -> merge_relations db !! i = Some r ->
    exists id' row, rtc (merged_into db) (ml_target_intent_id r) id' /\ intent_of id' db = Some row /\ it_state row <> Merged) as H.
  { induction n as [|n IH]; intros i r Hn Hr; [apply lookup_lt_Some in Hr; lia|].
    destruct (in_relations _ Hok _ (list_elem_of_lookup_2 _ _ _ Hr)) as (_ & [row Hrow] & _).
    destruct (decide (it_state row = Merged)) as [Hm|Hm]; [|by eexists _, _].
    destruct (proj1 (in_merged _ Hok _ _ Hrow) Hm) as (r' & [j Hj]%list_elem_of_lookup_1 & Hs).
    pose proof (in_order _ Hok _ _ _ _ Hr Hj Hs) as Hij. apply lookup_lt_Some in Hj as Hj'.
    destruct (IH j r' ltac:(lia) Hj) as (id' & row' & H1 & H2). exists id', row'. split; [|done].
    eapply rtc_l; [|exact H1]. exists row. split; [done|]. split; [done|].
    destruct (in_relations _ Hok _ (list_elem_of_lookup_2 _ _ _ Hj)) as (_ & _ & row2 & Hrow2 & Hi). congruence. }
  intros id [row Hrow]. destruct (decide (it_state row = Merged)) as [Hm|Hm]; [|by eexists _, _].
  destruct (proj1 (in_merged _ Hok _ _ Hrow) Hm) as (r & [i Hi]%list_elem_of_lookup_1 & Hs).
  destruct (H _ i r (Nat.le_refl _) Hi) as (id' & row' & H1 & H2). exists id', row'. split; [|done].
  eapply rtc_l; [|exact H1]. exists row. split; [done|]. split; [done|].
  destruct (in_relations _ Hok _ (list_elem_of_lookup_2 _ _ _ Hi)) as (_ & _ & row2 & Hrow2 & He). congruence.
Qed.

(** C26: In every state the service reaches, however its requests interleave, the tables are
    consistent: identifiers are unique and printed as they are stored, the contributions of
    an intent are numbered from one without a gap and no request contributed twice, an intent
    is in the state [merged] exactly when one relation says into which other one, an archived
    one can be restored to an active state, and merges never go in a circle: from every intent
    they lead to one that is not merged. *)
Theorem intents_are_consistent pl : intents_reachable pl ->
  intents_ok (pl_db pl) /\
  forall id, is_Some (intent_of id (pl_db pl)) ->
    exists id' row, rtc (merged_into (pl_db pl)) id id' /\ intent_of id' (pl_db pl) = Some row /\ it_state row <> Merged.
Proof.
  intros Hpl%reachable_calm. split; [apply Hpl|]. apply merges_end, Hpl.
Qed.

(** C25: The version of an intent stands for all of it: while it is the same, nothing the intent
    shows has changed, neither a column nor a contribution; it never decreases, the owner and
    the time of creation are those of the beginning, contributions are only added, and an
    intent that is merged or deleted stays as it is. *)
Theorem same_version_same_intent pl pl' id row :
  intents_reachable pl -> rtc intents_step pl pl' -> intent_of id (pl_db pl) = Some row ->
  exists row' more, intent_of id (pl_db pl') = Some row' /\ thread id (pl_db pl') = thread id (pl_db pl) ++ more /\
    it_owner_subject_id row' = it_owner_subject_id row /\ it_created_at row' = it_created_at row /\
    it_version row <= it_version row' /\
    (it_version row' = it_version row -> row' = row /\ more = []) /\
    (live row = false -> row' = row /\ more = []).
Proof.
  intros Hpl Hlater Hrow. destruct (later_ok _ _ Hpl Hlater) as (_ & _ & [Hi Ht _]).
  destruct (Hi _ _ Hrow) as (row' & Hrow' & Ho & Hc & Hv & Hsame & Hlive). destruct (Ht id) as [more Hmore].
  assert (it_version row' = it_version row -> row' = row /\ more = []) as H.
  { intros E. destruct (Hsame E) as [-> E2]. split; [done|]. rewrite Hmore in E2. by eapply app_inv_head; rewrite app_nil_r. }
  exists row', more. do 6 (split; [done|]). intros Hl. apply H. by rewrite (Hlive Hl).
Qed.

(** ** Commands that are sent again *)

(** The system goes on from a database. *)
Definition with_db (db : IntentsDb) (pl : intent_pool) : intent_pool :=
  {| pl_time := pl_time pl; pl_db := db; pl_running := pl_running pl |}.

Lemma goes_on pl db pl' : all_calm pl -> intents_ok db -> intents_later (pl_db pl) db ->
  rtc intents_step (with_db db pl) pl' -> intents_ok (pl_db pl') /\ intents_later db (pl_db pl').
Proof.
  intros [_ Hrun] Hok Hl Hsteps. destruct (intents_keep (with_db db pl) pl') as [[H1 _] H2]; [|done..].
  split; [done|]. intros r Hr. eapply at_work_later; [typeclasses eauto|exact Hl|by apply Hrun].
Qed.

Lemma pick_all {A} n (x : A) l : l <> [] -> (forall y, y ∈ l -> y = x) -> pick n l = Some x.
Proof.
  intros Hl Hx. unfold pick. destruct (l !! (n mod length l)%nat) as [y|] eqn:E.
  - f_equal. eapply Hx, list_elem_of_lookup_2, E.
  - apply lookup_ge_None in E. assert (length l <> 0%nat) as H0 by (by destruct l).
    pose proof (Nat.mod_upper_bound n _ H0). lia.
Qed.

Lemma later_contribution db db' c : intents_later db db' -> c ∈ contributions db -> c ∈ contributions db'.
Proof.
  intros Hl Hc. destruct (il_thread _ _ Hl (cb_intent_id c.2)) as [more E].
  assert (c ∈ thread (cb_intent_id c.2) db') as H by (rewrite E; apply elem_of_app; left; by apply list_elem_of_filter).
  by apply list_elem_of_filter in H as [_ H].
Qed.

Lemma fmap_inj_on {A B} (f : A -> B) l x y : NoDup (f <$> l) -> x ∈ l -> y ∈ l -> f x = f y -> x = y.
Proof.
  intros Hnd [i Hi]%list_elem_of_lookup_1 [j Hj]%list_elem_of_lookup_1 E.
  assert (i = j) as ->; [|congruence]. eapply (NoDup_lookup _ _ _ (f x) Hnd); rewrite list_lookup_fmap.
  - by rewrite Hi.
  - by rewrite Hj, E.
Qed.

(** What an appended contribution is. *)
Lemma append_gave subjectId intentId input env db c db' :
  append subjectId intentId input env db = Gave (c, db') -> db' <> db ->
  c ∈ contributions db' /\ c.1 = uuid (cn_id input) /\ cb_intent_id c.2 = uuid intentId /\
  cb_idempotency_key c.2 = cn_id input /\ cb_contributor_kind c.2 = cn_contributorKind input /\
  cb_kind c.2 = cn_kind input /\ cb_text c.2 = cn_text input /\ cb_payload c.2 = cn_payload input.
Proof.
  intros H Hne. unfold append in H. tx_run. destruct (pick _ _) as [[id r]|]; tx_run; [done|].
  match goal with Hi : insertContribution _ _ _ _ _ = _ |- _ => apply insertContribution_gave in Hi as (-> & _ & _ & ->) end.
  match goal with Hb : bump_intent _ _ _ = Gave (?u, _) |- _ => destruct u; apply bump_gave in Hb as -> end.
  split; [apply elem_of_app; right; by left|]. done.
Qed.

(** The only contribution a repeated request finds is its own. *)
Lemma append_again subjectId intentId input env db c row : intents_ok db -> c ∈ contributions db ->
  c.1 = uuid (cn_id input) -> cb_intent_id c.2 = uuid intentId -> cb_idempotency_key c.2 = cn_id input ->
  cb_contributor_kind c.2 = cn_contributorKind input -> cb_kind c.2 = cn_kind input -> cb_text c.2 = cn_text input ->
  cb_payload c.2 = cn_payload input -> isDeepStrictEqual (cn_payload input) (cn_payload input) = true ->
  uuid intentId = intentId -> own subjectId intentId db = Some row -> live row = true ->
  append subjectId intentId input env db = Gave (c, db).
Proof.
  intros Hok Hc H1 H2 H3 H4 H5 H6 H7 Hp Hu Hown Hlive. unfold append, mbind, txn_bind, select, ask. rewrite Hown, Hlive.
  cbv beta iota delta [negb throw_when mret txn_ret].
  rewrite (pick_all _ c).
  - destruct c as [k r]. cbn in *. unfold same_contribution. rewrite H2, H4, H5, H6, H7, Hp, Hu, !String.eqb_refl, !bool_decide_true by done.
    done.
  - intros E. assert (c ∈ base.filter (fun c => contribution_matches intentId input c = true) (contributions db)) as Hin; [|rewrite E in Hin; by apply elem_of_nil in Hin].
    apply list_elem_of_filter. split; [|done]. unfold contribution_matches. by rewrite H1, String.eqb_refl.
  - intros y [Hm Hy]%list_elem_of_filter. unfold contribution_matches in Hm. apply orb_prop in Hm as [Hm|[Hm1 Hm2]%andb_prop].
    + apply String.eqb_eq in Hm. rewrite <- H1 in Hm. destruct y as [k1 r1], c as [k r]. cbn in *. subst.
      pose proof (map_get_ok _ _ _ (in_contributions _ Hok) Hy). pose proof (map_get_ok _ _ _ (in_contributions _ Hok) Hc). congruence.
    + apply String.eqb_eq in Hm1, Hm2. pose proof (in_keys _ Hok (uuid intentId)) as Hnd.
      eapply (fmap_inj_on _ _ _ _ Hnd); [apply list_elem_of_filter; done..|]. cbn. congruence.
Qed.

(** The versions of the sources, sorted, are an object without a key twice. *)
Lemma same_versions (versions : list (string * Z)) : map_ok versions ->
  isDeepStrictEqual (source_versions versions) (source_versions versions) = true.
Proof.
  intros Hok. unfold source_versions. set (sorted := js_sort _ versions).
  assert (map_ok sorted) as Hs by (unfold map_ok, sorted; by rewrite (js_sort_perm _ versions)).
  cbn. rewrite Nat.eqb_refl. apply forallb_elem. intros [k v] Hin. cbn.
  rewrite (map_get_ok k v).
  - apply list_elem_of_fmap in Hin as ([k' n] & [= -> ->] & _). apply Z.eqb_refl.
  - unfold map_ok in *. by rewrite <- list_fmap_compose.
  - done.
Qed.

Lemma sourceVersions_ok input : map_ok (sourceVersions_of input).
Proof.
  unfold sourceVersions_of. assert (map_ok ([] : list (string * Z))) as H by constructor. revert H.
  generalize ([] : list (string * Z)). induction (mg_sources input) as [|s l IH]; intros m Hm; cbn; [done|].
  by apply IH, map_ok_set.
Qed.

(** A merge that committed left its command. *)
Lemma merge_gave subjectId targetId input sourceVersions env db d db' : intents_ok db -> map_ok sourceVersions ->
  merge_transaction subjectId targetId input sourceVersions env db = Gave (d, db') ->
  exists mc, map_get (uuid (mg_commandId input)) (merge_commands db') = Some mc /\
    same_merge targetId input sourceVersions mc = true.
Proof.
  intros Hok Hsv H. unfold merge_transaction in H. tx_run.
  destruct (map_get _ (merge_commands _)) as [prior|] eqn:Hprior; tx_run; apply detailWith_gave in H as [-> _].
  { exists prior. split; [done|]. match goal with Hc : negb _ = false |- _ => by apply negb_false_iff in Hc end. }
  match goal with He : negb (as_expected _ _ _ _) = false |- _ => apply negb_false_iff in He; rename He into Hexp end.
  match goal with Hi : insertContribution _ _ _ _ _ = _ |- _ => apply insertContribution_gave in Hi as (_ & _ & _ & ->) end.
  match goal with Hb : bump_intent _ _ _ = Gave (?u, _) |- _ => destruct u; apply bump_gave in Hb as -> end.
  match goal with Hm : merge_sources _ _ _ _ _ = Gave (?u, _) |- _ => destruct u; apply merge_sources_gave in Hm as [_ Hc _ _ _ _ _] end.
  cbn [merge_commands set_intents set_contributions] in *. rewrite Hc. cbn [merge_commands set_merges].
  rewrite map_get_app, Hprior. cbn. rewrite decide_True by done. eexists. split; [done|].
  unfold same_merge. cbn [mc_target_intent_id mc_target_version mc_source_versions]. rewrite same_versions, Z.eqb_refl by done.
  unfold as_expected in Hexp. destruct (js_find _ _) as [[k target]|] eqn:Hf; [|done].
  apply js_find_Some in Hf as [[_ Hin]%list_elem_of_filter Ek]. cbn in Ek. apply String.eqb_eq in Ek as ->.
  rewrite (in_printed _ Hok targetId target), String.eqb_refl; [done|]. by apply map_get_ok; [apply (in_ids _ Hok)|].
Qed.

Lemma merge_again subjectId targetId input sourceVersions env db mc :
  map_get (uuid (mg_commandId input)) (merge_commands db) = Some mc -> same_merge targetId input sourceVersions mc = true ->
  merge_transaction subjectId targetId input sourceVersions env db = detailWith subjectId targetId env db.
Proof.
  intros Hmc Hs. unfold merge_transaction, mbind, txn_bind, select. by rewrite Hmc, Hs.
Qed.

(** Commands that are sent again are done once.  When a contribution was appended, the same
    request gives the same contribution ever after, as long as the intent can be contributed
    to, and changes nothing; when a merge was done, the same merge is no conflict ever after,
    although its intents have other versions by then, and only reads the target; and an
    intent that was created is not created a second time. *)
Theorem commands_are_idempotent pl db pl' : intents_reachable pl -> rtc intents_step (with_db db pl) pl' ->
  (forall subjectId intentId input env c env' row,
     append subjectId intentId input env (pl_db pl) = Gave (c, db) -> db <> pl_db pl ->
     isDeepStrictEqual (cn_payload input) (cn_payload input) = true -> uuid intentId = intentId ->
     own subjectId intentId (pl_db pl') = Some row -> live row = true ->
     append subjectId intentId input env' (pl_db pl') = Gave (c, pl_db pl')) /\
  (forall subjectId targetId input env d env',
     merge_transaction subjectId targetId input (sourceVersions_of input) env (pl_db pl) = Gave (d, db) ->
     merge_transaction subjectId targetId input (sourceVersions_of input) env' (pl_db pl') =
       detailWith subjectId targetId env' (pl_db pl')) /\
  (forall subjectId subjectId' input input' env env',
     create_transaction subjectId input env (pl_db pl) = Gave (true, db) -> uuid (ci_id input') = uuid (ci_id input) ->
     create_transaction subjectId' input' env' (pl_db pl') = Gave (false, pl_db pl')).
Proof.
  intros Hpl%reachable_calm Hlater. pose proof (proj1 Hpl) as Hok. repeat split.
  - intros subjectId intentId input env c env' row H Hne Hp Hu Hown Hlive.
    destruct (append_keeps _ _ _ _ _ _ _ Hok H) as [Hok1 Hl1]. destruct (goes_on _ _ _ Hpl Hok1 Hl1 Hlater) as [Hok2 Hl2].
    destruct (append_gave _ _ _ _ _ _ _ H Hne) as (G1 & G2 & G3 & G4 & G5 & G6 & G7 & G8).
    eapply append_again; eauto. by eapply later_contribution.
  - intros subjectId targetId input env d env' H. pose proof (sourceVersions_ok input) as Hsv.
    destruct (merge_keeps _ _ _ _ _ _ _ _ Hok H) as [Hok1 Hl1]. destruct (goes_on _ _ _ Hpl Hok1 Hl1 Hlater) as [Hok2 Hl2].
    destruct (merge_gave _ _ _ _ _ _ _ _ Hok Hsv H) as (mc & Hmc & Hs).
    eapply merge_again; [|exact Hs]. by apply (il_commands _ _ Hl2).
  - intros subjectId subjectId' input input' env env' H Hid.
    destruct (create_keeps _ _ _ _ _ _ Hok H) as [Hok1 Hl1]. destruct (goes_on _ _ _ Hpl Hok1 Hl1 Hlater) as [Hok2 Hl2].
    assert (map_has (uuid (ci_id input)) (intents db) = true) as Hhas.
    { unfold create_transaction in H. tx_run. destruct (map_has _ (intents (pl_db pl))); tx_run; [done|].
      match goal with Hi : insertContribution _ _ _ _ _ = _ |- _ => apply insertContribution_gave in Hi as (_ & _ & _ & ->) end.
      apply map_has_get. cbn [intents set_intents set_contributions]. rewrite map_get_app. cbn [map_get].
      destruct (map_get _ (intents (pl_db pl))); [by eexists|]. rewrite decide_True by done. by eexists. }
    apply map_has_get in Hhas as [row Hrow]. destruct (il_intent _ _ Hl2 _ _ Hrow) as (row' & Hrow' & _).
    unfold create_transaction, mbind, txn_bind, ask, select. rewrite Hid.
    rewrite (proj2 (map_has_get _ _)) by (by eexists). done.
Qed.
End System.

(** * A few intents

    A run of [Intents]: two intents are created, talked about, archived and merged, and the
    merge and a contribution are sent again; and what happens to identifiers in capitals. *)

#[local] Existing Instance bytes_collation.

Abbreviation intent_request := (request IntentEnv IntentsDb intent_error).

Definition desk (ms : Z) (tag : string) : IntentEnv := {| ie_clock := ms; ie_uuid := tag; ie_choice := 0 |}.

Definition visit : CreateIntent :=
  {| ci_id := "a1"; ci_title := " Plan a visit "; ci_intentType := "intent"; ci_sourceLabel := "Conversation";
     ci_deadline := Some " "; ci_routingSummary := None |}.
Definition travel : CreateIntent :=
  {| ci_id := "b2"; ci_title := "Book a train"; ci_intentType := "intent"; ci_sourceLabel := "Conversation";
     ci_deadline := None; ci_routingSummary := Some "Trains" |}.
Definition remark : ContributionInput :=
  {| cn_id := "c3"; cn_contributorKind := Human; cn_kind := "message"; cn_text := Some "On Friday.";
     cn_payload := JObject [("day", JNumber 5)] |}.
Definition into_visit : MergeCommand :=
  {| mg_id := "a1"; mg_expectedVersion := 2; mg_commandId := "d4"; mg_sources := [("b2", 3)] |}.

Definition opening : list intent_request := [
  Request (create "alice" visit) (desk 10 "e1");
  Request (create "alice" travel) (desk 20 "e2")].
Definition talk : list intent_request := [
  Request (step (append "alice" "a1" remark)) (desk 30 "e3");
  Request (archiveOrRestore "alice" "b2" {| vc_id := "b2"; vc_expectedVersion := 1 |} false) (desk 40 "e4");
  Request (archiveOrRestore "alice" "b2" {| vc_id := "b2"; vc_expectedVersion := 2 |} true) (desk 50 "e5");
  Request (Intents.merge "alice" "a1" into_visit) (desk 60 "e6")].

Definition intents_after (requests : list intent_request) : IntentsDb := run_all requests empty_intents.

(** Any two lists of requests can be served one after the other. *)
Lemma all_of_them {A} time env (p : iprog A) db : runs_along (fun _ _ _ => true) time env p db = true.
Proof. revert db. induction p as [a|e|B t next IH]; intros db; cbn; auto. Qed.
Lemma all_in_turn time requests db : all_along (Env := IntentEnv) (Db := IntentsDb) (E := intent_error) (fun _ _ _ => true) time requests db = true.
Proof. revert db. induction requests as [|[A p env] l IH]; intros db; cbn; [done|]. by rewrite all_of_them, IH. Qed.

Lemma served_in_turn requests more : Forall (served intent_service) (requests ++ more) ->
  exists pl pl', pl_db pl = intents_after requests /\ pl_db pl' = run_all more (intents_after requests) /\
    intents_reachable pl /\ rtc (pool_step intent_admissible intent_service intent_background) pl pl'.
Proof.
  intros [Hs Hs']%Forall_app.
  destruct (requests_reachable intent_admissible intent_service intent_background _ (fun _ _ _ _ => I)
              0 requests empty_intents [] Hs (all_in_turn _ _ _)) as (work & H1).
  destruct (requests_reachable intent_admissible intent_service intent_background _ (fun _ _ _ _ => I)
              0 more (intents_after requests) work Hs' (all_in_turn _ _ _)) as (work' & H2).
  do 2 eexists. split; [|split; [|split; [exists 0; exact H1|exact H2]]]; done.
Qed.

Lemma opening_served : Forall (served intent_service) opening.
Proof. repeat (apply List.Forall_cons; [exact (ServeCreate _ _)|]). apply List.Forall_nil. Qed.
Lemma talk_served : Forall (served intent_service) talk.
Proof.
  apply List.Forall_cons; [exact (ServeAppend _ _ _)|]. do 2 (apply List.Forall_cons; [exact (ServeArchive _ _ _ _)|]).
  apply List.Forall_cons; [exact (ServeMerge _ _ _)|]. apply List.Forall_nil.
Qed.
Lemma sample_served : Forall (served intent_service) (opening ++ talk).
Proof. apply Forall_app. split; [apply opening_served|apply talk_served]. Qed.

Example after_the_talk :
  (fun r : string * IntentRow => (r.1, it_title r.2, it_state r.2, it_version r.2)) <$> intents (intents_after (opening ++ talk)) =
  [("a1", "Plan a visit", Working, 3); ("b2", "Book a train", Merged, 4)].
Proof. vm_compute. reflexivity. Qed.

Lemma intents_are_consistent_witness : exists id row,
  intent_of id (intents_after (opening ++ talk)) = Some row /\ it_state row <> Merged /\
  rtc (merged_into (intents_after (opening ++ talk))) "b2" id.
Proof.
  destruct (served_in_turn (opening ++ talk) []) as (pl & _ & E & _ & H & _); [by rewrite app_nil_r; apply sample_served|].
  rewrite <- E. destruct (proj2 (intents_are_consistent pl H) "b2") as (id & row & H1 & H2 & H3).
  - rewrite E. vm_compute. by eexists.
  - exists id, row. auto.
Defined.

(** After the merge nothing of the merged intent changes any more. *)
Lemma same_version_same_intent_witness : exists row more,
  intent_of "b2" (intents_after (opening ++ talk)) = Some row /\
  intent_of "b2" (run_all opening (intents_after (opening ++ talk))) = Some row /\
  thread "b2" (run_all opening (intents_after (opening ++ talk))) = thread "b2" (intents_after (opening ++ talk)) ++ more /\ more = [].
Proof.
  destruct (served_in_turn (opening ++ talk) opening) as (pl & pl' & E & E' & H & Hlater).
  { apply Forall_app. split; [apply sample_served|apply opening_served]. }
  assert (exists row, intent_of "b2" (pl_db pl) = Some row /\ live row = false) as (row & Hrow & Hl).
  { rewrite E. vm_compute. eexists. split; reflexivity. }
  destruct (same_version_same_intent pl pl' "b2" row H Hlater Hrow) as (row' & more & H1 & H2 & _ & _ & _ & _ & Hdead).
  destruct (Hdead Hl) as [-> Hmore]. exists row, more. rewrite <- E', <- E. auto.
Defined.

(** The contribution is sent again after the merge. *)
Lemma commands_are_idempotent_witness : exists c db, db <> intents_after opening /\
  append "alice" "a1" remark (desk 30 "e3") (intents_after opening) = Gave (c, db) /\
  append "alice" "a1" remark (desk 90 "e9") db = Gave (c, db).
Proof.
  destruct (served_in_turn opening []) as (pl & _ & E & _ & H & _); [rewrite app_nil_r; apply opening_served|].
  assert (exists c db, append "alice" "a1" remark (desk 30 "e3") (pl_db pl) = Gave (c, db) /\ db <> pl_db pl /\
            exists row, own "alice" "a1" db = Some row /\ live row = true) as (c & db & Hc & Hne & row & Hown & Hlive).
  { rewrite E. do 2 eexists. split; [vm_compute; reflexivity|]. split; [by vm_compute|]. eexists. split; vm_compute; reflexivity. }
  exists c, db. rewrite <- E. split; [done|]. split; [done|].
  destruct (commands_are_idempotent pl db (with_db db pl) H (rtc_refl _ _)) as [Happend _].
  by eapply (Happend "alice" "a1" remark (desk 30 "e3") c (desk 90 "e9") row Hc Hne).
Defined.

(** ** Identifiers in capitals *)

(** [z.uuid()] and the path admit capitals, the database prints small letters, and the code
    compares texts: a contribution sent again to an intent addressed in capitals conflicts with
    itself, and no merge into such an address is ever done. *)
Lemma capitals_conflict_with_themselves :
  (exists c db, append "alice" "A1" remark (desk 30 "e3") (intents_after opening) = Gave (c, db) /\
     append "alice" "A1" remark (desk 90 "e9") db =
       Threw (IntentConflict "Contribution ID conflicts with another request.")) /\
  (perform (append "alice" "a1" remark) (desk 30 "e3") (intents_after opening)).2 =
    (perform (append "alice" "A1" remark) (desk 30 "e3") (intents_after opening)).2.
Proof. split; [|vm_compute; reflexivity]. do 2 eexists. split; vm_compute; reflexivity. Qed.

Lemma merges_into_capitals_fail : let before := intents_after (opening ++ take 3 talk) in
  let into_VISIT := {| mg_id := "A1"; mg_expectedVersion := 2; mg_commandId := "d4"; mg_sources := [("b2", 3)] |} in
  (alone (fun _ => desk 60 "e6") (Intents.merge "alice" "A1" into_VISIT) before).1 = Threw version_changed /\
  exists d, (alone (fun _ => desk 60 "e6") (Intents.merge "alice" "a1" into_visit) before).1 = Gave d.
Proof. split; [vm_compute; reflexivity|]. eexists. vm_compute. reflexivity. Qed.
