(* ===== verification/HttpContracts.v ===== *)
(** * Requests for web resources

    [libs/aven-http-resources/src/contracts.ts]: what a request for a web resource may be, its
    digest, and what is kept of a response.  [URL] is the platform's parser and a parameter;
    the schema is read of parsed JSON. *)

From S2P Require Import Prelude Contracts Json Tables.

Open Scope stdpp_scope.
Open Scope js_scope.
Local Open Scope Z_scope.

(** ** URLs *)

(** The parts of a [URL] the code reads. *)
Record Url := {
  u_protocol : string;
  u_username : string;
  u_password : string;
  u_hostname : string;
  u_port : string;
  u_pathname : string;
  u_hash : string;
  u_origin : string;
  u_href : string
}.
#[export] Instance Url_eq_dec : EqDecision Url.
Proof. solve_decision. Defined.

Class UrlParser := {
  (** [new URL(text)] and [new URL(text, base)], [None] where they throw. *)
  parse_url : string -> option Url;
  resolve_url : string -> string -> option Url;
  (** [url.hostname = value] and [url.searchParams.set(name, value)]. *)
  set_hostname : Url -> string -> Url;
  set_search_param : Url -> string -> string -> Url
}.

(** What the standard says of them: a printed URL is read as the same one, and the host name of
    a URL with one of the two schemes is in small letters. *)
Class UrlLaws (P : UrlParser) : Prop := {
  url_stable text url : parse_url text = Some url -> parse_url (u_href url) = Some url;
  url_small text url : parse_url text = Some url -> u_protocol url = "https:" \/ u_protocol url = "http:" ->
    to_lower (u_hostname url) = u_hostname url;
  url_same_host url : set_hostname url (u_hostname url) = url
}.

(** ** Requests *)

Inductive HttpMethod := GET | HEAD.
#[export] Instance HttpMethod_eq_dec : EqDecision HttpMethod.
Proof. solve_decision. Defined.
Inductive HttpAuthenticationMode := Anonymous | MappedRequired | MappedIfPresent.
#[export] Instance HttpAuthenticationMode_eq_dec : EqDecision HttpAuthenticationMode.
Proof. solve_decision. Defined.
Inductive HttpFreshness := Revalidate | OfflineOnly | NewCapture.
#[export] Instance HttpFreshness_eq_dec : EqDecision HttpFreshness.
Proof. solve_decision. Defined.
Inductive RedirectMode := Follow | Manual.
#[export] Instance RedirectMode_eq_dec : EqDecision RedirectMode.
Proof. solve_decision. Defined.

(** [HttpRequestArtifact]; a header is its name and value. *)
Record HttpRequestArtifact := {
  hr_method : HttpMethod;
  hr_url : string;
  hr_headers : list (string * string);
  hr_mode : HttpAuthenticationMode;
  hr_purpose : option string;
  hr_redirects : RedirectMode;
  hr_maximumHops : nat;
  hr_freshness : HttpFreshness
}.
#[export] Instance HttpRequestArtifact_eq_dec : EqDecision HttpRequestArtifact.
Proof. solve_decision. Defined.

(** [HttpRequestPolicy]. *)
Definition HttpRequestPolicy : Type := list string.

Definition is_token_char (c : ascii) : bool :=
  let n := nat_of_ascii c in
  (Nat.leb 48 n && Nat.leb n 57) || (Nat.leb 65 n && Nat.leb n 90) || (Nat.leb 97 n && Nat.leb n 122) ||
  existsb (Ascii.eqb c) (String.list_ascii_of_string "!#$%&'*+.^_`|~-").
(** [HTTP_TOKEN]. *)
Definition is_http_token (s : string) : bool := negb (String.eqb s "") && string_forall is_token_char s.

Definition FORBIDDEN_REQUEST_HEADERS : list string := [
  "authorization"; "connection"; "content-length"; "cookie"; "forwarded"; "host"; "if-modified-since";
  "if-none-match"; "keep-alive"; "proxy-authorization"; "te"; "trailer"; "transfer-encoding"; "upgrade";
  "x-forwarded-for"; "x-forwarded-host"; "x-forwarded-proto"].

Definition is_control (c : ascii) : bool := let n := nat_of_ascii c in Nat.leb n 31 || Nat.eqb n 127.
Definition containsControlCharacter (s : string) : bool := negb (string_forall (fun c => negb (is_control c)) s).

(** ** The schema *)

Definition invalid : string := "ZodError".
Definition within (lo hi n : Z) : bool := (lo <=? n) && (n <=? hi).
Definition length_within (lo hi : Z) (s : string) : bool := within lo hi (Z.of_nat (String.length s)).

(** [z.object(...).strict()]: an object without other keys. *)
Definition strict_object (keys : list string) (j : json) : result (list (string * json)) :=
  match j with
  | JObject entries => if forallb (fun e => includes keys e.1) entries then Ok entries else Throw invalid
  | _ => Throw invalid
  end.
Definition text_field (key : string) (lo hi : Z) (entries : list (string * json)) : result string :=
  match map_get key entries with
  | Some (JString s) => if length_within lo hi s then Ok s else Throw invalid
  | _ => Throw invalid
  end.
(** [z.enum(...)], with its default when there is one. *)
Definition enum_field {A} (key : string) (values : list (string * A)) (default_ : option A)
    (entries : list (string * json)) : result A :=
  match map_get key entries, default_ with
  | None, Some a => Ok a
  | Some (JString s), _ => match map_get s values with Some a => Ok a | None => Throw invalid end
  | _, _ => Throw invalid
  end.

Fixpoint collect_results {A B} (f : A -> result B) (l : list A) : result (list B) :=
  match l with
  | [] => Ok []
  | x :: l => y ← f x; l ← collect_results f l; Ok (y :: l)
  end.

Definition requestHeaderSchema (j : json) : result (string * string) :=
  entries ← strict_object ["name"; "value"] j;
  name ← text_field "name" 1 128 entries;
  value ← text_field "value" 0 8192 entries;
  Ok (name, value).
Definition headers_field (entries : list (string * json)) : result (list (string * string)) :=
  match map_get "headers" entries with
  | None => Ok []
  | Some (JArray items) =>
      if within 0 64 (Z.of_nat (length items)) then collect_results requestHeaderSchema items else Throw invalid
  | Some _ => Throw invalid
  end.

Definition modes : list (string * HttpAuthenticationMode) :=
  [("anonymous", Anonymous); ("mapped-required", MappedRequired); ("mapped-if-present", MappedIfPresent)].
Definition purpose_field (entries : list (string * json)) : result (option string) :=
  match map_get "purpose" entries with
  | None => Ok None
  | Some (JString s) => if length_within 1 128 (trim s) then Ok (Some (trim s)) else Throw invalid
  | Some _ => Throw invalid
  end.
Definition authenticationSchema (entries : list (string * json)) : result (HttpAuthenticationMode * option string) :=
  match map_get "authentication" entries with
  | None => Ok (Anonymous, None)
  | Some j =>
      entries ← strict_object ["mode"; "purpose"] j;
      mode ← enum_field "mode" modes (Some Anonymous) entries;
      purpose ← purpose_field entries;
      throw! bool_decide (mode <> Anonymous) && bool_decide (purpose = None) as invalid;
      throw! bool_decide (mode = Anonymous) && bool_decide (is_Some purpose) as invalid;
      Ok (mode, purpose)
  end.

Definition hops_field (entries : list (string * json)) : result nat :=
  match map_get "maximumHops" entries with
  | None => Ok 5%nat
  | Some (JNumber n) => if within 0 10 n then Ok (Z.to_nat n) else Throw invalid
  | Some _ => Throw invalid
  end.
Definition redirects_field (entries : list (string * json)) : result (RedirectMode * nat) :=
  match map_get "redirects" entries with
  | None => Ok (Follow, 5%nat)
  | Some j =>
      entries ← strict_object ["mode"; "maximumHops"] j;
      mode ← enum_field "mode" [("follow", Follow); ("manual", Manual)] (Some Follow) entries;
      hops ← hops_field entries;
      Ok (mode, hops)
  end.

Definition freshness_values : list (string * HttpFreshness) :=
  [("revalidate", Revalidate); ("offline-only", OfflineOnly); ("new-capture", NewCapture)].
Definition requestSchema (j : json) : result HttpRequestArtifact :=
  entries ← strict_object ["method"; "url"; "headers"; "authentication"; "redirects"; "freshness"] j;
  method ← enum_field "method" [("GET", GET); ("HEAD", HEAD)] None entries;
  url ← text_field "url" 1 8192 entries;
  headers ← headers_field entries;
  authentication ← authenticationSchema entries;
  redirects ← redirects_field entries;
  freshness ← enum_field "freshness" freshness_values (Some Revalidate) entries;
  Ok {| hr_method := method; hr_url := url; hr_headers := headers; hr_mode := authentication.1;
        hr_purpose := authentication.2; hr_redirects := redirects.1; hr_maximumHops := redirects.2;
        hr_freshness := freshness |}.

(** ** [parseHttpRequestArtifact] *)

Section Parse.
Context {url_parser : UrlParser} {collation : Collation}.

Definition allowedHttpOrigin (url : Url) (origins : list string) : bool :=
  existsb (fun origin => match parse_url origin with
                         | Some allowed => String.eqb (u_origin allowed) (u_origin url)
                         | None => false
                         end) origins.

(** The headers in order, with the names seen before. *)
Fixpoint normalize_headers (names : list string) (headers : list (string * string)) : result (list (string * string)) :=
  match headers with
  | [] => Ok []
  | (name, value) :: headers =>
      let name := to_lower name in
      throw! negb (is_http_token name) || includes FORBIDDEN_REQUEST_HEADERS name as "HTTP_REQUEST_HEADER_FORBIDDEN";
      throw! containsControlCharacter value as "HTTP_REQUEST_HEADER_INVALID";
      throw! includes names name as "HTTP_REQUEST_HEADER_DUPLICATE";
      rest ← normalize_headers (name :: names) headers;
      Ok ((name, trim value) :: rest)
  end.

Definition by_name {A} (left right : string * A) : Z := localeCompare left.1 right.1.

Definition normalize_url (text : string) (policy : HttpRequestPolicy) : result Url :=
  match parse_url text with
  | None => Throw "HTTP_REQUEST_URL_INVALID"
  | Some url =>
      throw! negb (String.eqb (u_username url) "" && String.eqb (u_password url) "") as "HTTP_REQUEST_USERINFO_FORBIDDEN";
      throw! negb (String.eqb (u_hash url) "") as "HTTP_REQUEST_FRAGMENT_FORBIDDEN";
      throw! negb (includes ["https:"; "http:"] (u_protocol url)) as "HTTP_REQUEST_SCHEME_FORBIDDEN";
      throw! String.eqb (u_protocol url) "http:" && negb (allowedHttpOrigin url policy)
        as "HTTP_REQUEST_INSECURE_ORIGIN_FORBIDDEN";
      Ok (set_hostname url (to_lower (u_hostname url)))
  end.

Definition parseHttpRequestArtifact (input : json) (policy : HttpRequestPolicy) : result HttpRequestArtifact :=
  parsed ← requestSchema input;
  url ← normalize_url (hr_url parsed) policy;
  headers ← normalize_headers [] (hr_headers parsed);
  Ok {| hr_method := hr_method parsed; hr_url := u_href url; hr_headers := js_sort by_name headers;
        hr_mode := hr_mode parsed; hr_purpose := truthy (hr_purpose parsed);
        hr_redirects := hr_redirects parsed; hr_maximumHops := hr_maximumHops parsed;
        hr_freshness := hr_freshness parsed |}.

(** A request as the plain object it is, to be parsed again or printed. *)
Definition method_text (m : HttpMethod) : string := match m with GET => "GET" | HEAD => "HEAD" end.
Definition mode_text (m : HttpAuthenticationMode) : string :=
  match m with Anonymous => "anonymous" | MappedRequired => "mapped-required" | MappedIfPresent => "mapped-if-present" end.
Definition redirect_text (m : RedirectMode) : string := match m with Follow => "follow" | Manual => "manual" end.
Definition freshness_text (f : HttpFreshness) : string :=
  match f with Revalidate => "revalidate" | OfflineOnly => "offline-only" | NewCapture => "new-capture" end.
Definition request_object (r : HttpRequestArtifact) : json := JObject [
  ("method", JString (method_text (hr_method r)));
  ("url", JString (hr_url r));
  ("headers", JArray ((fun h : string * string => JObject [("name", JString h.1); ("value", JString h.2)]) <$> hr_headers r));
  ("authentication", JObject (("mode", JString (mode_text (hr_mode r))) ::
     match hr_purpose r with Some p => [("purpose", JString p)] | None => [] end));
  ("redirects", JObject [("mode", JString (redirect_text (hr_redirects r))); ("maximumHops", JNumber (Z.of_nat (hr_maximumHops r)))]);
  ("freshness", JString (freshness_text (hr_freshness r)))].

Definition canonicalJson (j : json) : string := stableJson j.
Definition httpRequestDigest (sha256_hex : string -> string) (request : HttpRequestArtifact) : string :=
  sha256_hex (canonicalJson (request_object request)).
End Parse.

(** ** Responses *)

(** [Headers] of a response: names in small letters, each with one text. *)
Abbreviation response_headers := (list (string * string)).
(** A header that is kept, with its list of one value. *)
Definition RETAINED_RESPONSE_HEADERS : list string := [
  "cache-control"; "content-disposition"; "content-type"; "date"; "etag"; "expires"; "last-modified"; "vary"].
Definition retained_value (headers : response_headers) (name : string) : option (string * string) :=
  match map_get name headers with
  | Some value =>
      if containsControlCharacter value || (16384 <? Z.of_nat (String.length value)) then None else Some (name, value)
  | None => None
  end.
Definition retainedResponseHeaders (headers : response_headers) : list (string * string) :=
  omap (retained_value headers) (js_sort string_cmp RETAINED_RESPONSE_HEADERS).

(** [.replace(/^"|"$/g, '')]. *)
Definition unquoted (s : string) : string :=
  let mark := ascii_of_nat 34 in
  let s := match s with String c rest => if Ascii.eqb c mark then rest else s | EmptyString => s end in
  match last_index_of mark s with
  | Some i => if Nat.eqb (S i) (String.length s) then string_take i s else s
  | None => s
  end.
Definition charset_of (charset : option string) (parameter : string) : option string :=
  match split_on "="%char parameter with
  | name :: rest =>
      if String.eqb (to_lower (trim name)) "charset"
      then match rest with rawValue :: _ => truthy (Some (to_lower (unquoted (trim rawValue)))) | [] => None end
      else charset
  | [] => charset
  end.
Definition declaredContentType (headers : response_headers) : option string * option string :=
  match truthy (map_get "content-type" headers) with
  | None => (None, None)
  | Some value =>
      match split_on ";"%char value with
      | rawMediaType :: parameters =>
          (truthy (Some (to_lower (trim rawMediaType))), foldl charset_of None parameters)
      | [] => (None, None)
      end
  end.

Inductive HttpCacheDisposition := CacheNew | CacheFresh | CacheRevalidated.
(** [HttpResponseArtifact] without [storedBodyLength]. *)
Record HttpResponseMetadata := {
  hm_requestedUrl : string;
  hm_finalUrl : string;
  hm_statusCode : Z;
  hm_networkStatusCode : option Z;
  hm_cacheDisposition : HttpCacheDisposition;
  hm_representationSourceArtifactId : option string;
  hm_protocol : option string;
  hm_declaredMediaType : option string;
  hm_declaredCharset : option string;
  hm_etag : option string;
  hm_lastModified : option string;
  hm_headers : list (string * string);
  hm_redirectCount : nat;
  hm_capturedAt : string
}.
Record HttpResponseArtifact := { ra_metadata : HttpResponseMetadata; ra_storedBodyLength : Z }.
