(* ===== verification/Vault.v ===== *)
(** * The vault of a customer

    [libs/aven-http-resources/src/vault.ts]: credentials and their bindings to requests, the
    administration that sets them and never reads a secret back, and the sessions that match
    requests and resolve a secret for one use.  The checks of [z.uuid()] are a parameter.  Every
    method but [resolveForUse] runs in one piece; that one is two, around its [await]. *)

From S2P Require Import Prelude Contracts Json Tables HttpContracts.

Open Scope stdpp_scope.
Open Scope js_scope.
Local Open Scope Z_scope.

(** ** Data *)

Inductive Placement := Local_ | Server_.
#[export] Instance Placement_eq_dec : EqDecision Placement.
Proof. solve_decision. Defined.
Inductive Scheme_ := Https | Http.
#[export] Instance Scheme_eq_dec : EqDecision Scheme_.
Proof. solve_decision. Defined.
Inductive HostMatcher := ExactHost (value : string) | SuffixHost (value : string).
#[export] Instance HostMatcher_eq_dec : EqDecision HostMatcher.
Proof. solve_decision. Defined.

(** [CredentialAttachmentRule]. *)
Inductive CredentialAttachmentRule :=
| AttachHeader (name prefix_ : string)
| AttachCookie (name : string)
| AttachQuery (name : string).
#[export] Instance CredentialAttachmentRule_eq_dec : EqDecision CredentialAttachmentRule.
Proof. solve_decision. Defined.

Record CredentialBinding := {
  bd_bindingRef : string;
  bd_label : string;
  bd_ownerSubjectId : string;
  bd_credentialRef : string;
  bd_placements : list Placement;
  bd_schemes : list Scheme_;
  bd_host : HostMatcher;
  bd_ports : list Z;
  bd_pathPrefix : string;
  bd_methods : list HttpMethod;
  bd_purpose : string;
  bd_attachment : CredentialAttachmentRule;
  bd_enabled : bool
}.

(** [RedactedCredentialBinding]. *)
Record RedactedCredentialBinding := {
  rb_bindingRef : string;
  rb_label : string;
  rb_credentialRef : string;
  rb_placements : list Placement;
  rb_schemes : list Scheme_;
  rb_host : HostMatcher;
  rb_ports : list Z;
  rb_pathPrefix : string;
  rb_methods : list HttpMethod;
  rb_purpose : string;
  rb_attachment : CredentialAttachmentRule;
  rb_enabled : bool
}.

Record StoredCredential := {
  sc_label : string;
  sc_ownerSubjectId : string;
  sc_secret : string;
  sc_version : Z;
  sc_enabled : bool;
  sc_createdAt : string;
  sc_updatedAt : string
}.

Record VaultCredentialMetadata := {
  vm_credentialRef : string;
  vm_label : string;
  vm_version : Z;
  vm_enabled : bool;
  vm_createdAt : string;
  vm_updatedAt : string
}.

(** The two maps of the vault. *)
Record VaultState := {
  credentials : list (string * StoredCredential);
  bindings : list (string * CredentialBinding)
}.
Definition empty_vault : VaultState := {| credentials := []; bindings := [] |}.

Record VaultSessionContext := {
  vx_tenantId : string;
  vx_subjectId : string;
  vx_sessionId : string;
  vx_executionEnvironment : Placement
}.
#[export] Instance VaultSessionContext_eq_dec : EqDecision VaultSessionContext.
Proof. solve_decision. Defined.

Inductive VaultMatch :=
| MatchNone
| MatchAmbiguous (bindingRefs : list string)
| Matched (binding : RedactedCredentialBinding) (credentialRef : string) (secretVersion : Z).

Record RequestScopedCredentialAttachment := {
  at_bindingRef : string;
  at_credentialRef : string;
  at_secretVersion : Z;
  at_requestDigest : string;
  at_rule : CredentialAttachmentRule;
  at_secret : string
}.

Section Vault.
Context {url_parser : UrlParser} {collation : Collation}.
Context (is_uuid : string -> bool) (sha256_hex : string -> string) (tenantId : string).

(** [z.uuid().parse(value)]. *)
Definition uuid_of (value : string) : result string := if is_uuid value then Ok value else Throw invalid.

Definition byte_length (s : string) : Z :=
  foldr (fun c n => (if Nat.leb 128 (nat_of_ascii c) then 2 else 1) + n) 0 (String.list_ascii_of_string s).
Definition secretValue (value : string) : result string :=
  throw! String.eqb value "" || (32768 <? byte_length value) as "VAULT_SECRET_INVALID";
  throw! containsControlCharacter value as "VAULT_SECRET_INVALID";
  Ok value.
Definition label_of (label : string) : result string :=
  if length_within 1 256 (trim label) then Ok (trim label) else Throw invalid.

Definition ownedCredential (v : VaultState) (ownerSubjectId credentialRef : string) : result StoredCredential :=
  subject ← uuid_of ownerSubjectId;
  reference ← uuid_of credentialRef;
  match map_get reference (credentials v) with
  | Some c => if String.eqb (sc_ownerSubjectId c) subject then Ok c else Throw "VAULT_CREDENTIAL_NOT_FOUND"
  | None => Throw "VAULT_CREDENTIAL_NOT_FOUND"
  end.
Definition ownedBinding (v : VaultState) (ownerSubjectId bindingRef : string) : result CredentialBinding :=
  subject ← uuid_of ownerSubjectId;
  reference ← uuid_of bindingRef;
  match map_get reference (bindings v) with
  | Some b => if String.eqb (bd_ownerSubjectId b) subject then Ok b else Throw "VAULT_BINDING_NOT_FOUND"
  | None => Throw "VAULT_BINDING_NOT_FOUND"
  end.

Definition credentialMetadata (credentialRef : string) (c : StoredCredential) : VaultCredentialMetadata :=
  {| vm_credentialRef := credentialRef; vm_label := sc_label c; vm_version := sc_version c; vm_enabled := sc_enabled c;
     vm_createdAt := sc_createdAt c; vm_updatedAt := sc_updatedAt c |}.
Definition redactedBinding (b : CredentialBinding) : RedactedCredentialBinding :=
  {| rb_bindingRef := bd_bindingRef b; rb_label := bd_label b; rb_credentialRef := bd_credentialRef b;
     rb_placements := bd_placements b; rb_schemes := bd_schemes b; rb_host := bd_host b; rb_ports := bd_ports b;
     rb_pathPrefix := bd_pathPrefix b; rb_methods := bd_methods b; rb_purpose := bd_purpose b;
     rb_attachment := bd_attachment b; rb_enabled := bd_enabled b |}.

(** ** Administration *)

Definition set_credential (credentialRef : string) (c : StoredCredential) (v : VaultState) : VaultState :=
  {| credentials := map_set credentialRef c (credentials v); bindings := bindings v |}.
Definition set_binding (b : CredentialBinding) (v : VaultState) : VaultState :=
  {| credentials := credentials v; bindings := map_set (bd_bindingRef b) b (bindings v) |}.

(** [now] is the clock and [fresh] a random identifier. *)
Definition setCredential (ownerSubjectId label secret : string) (credentialRef : option string) (fresh now : string)
    (v : VaultState) : result (VaultCredentialMetadata * VaultState) :=
  ownerSubjectId ← uuid_of ownerSubjectId;
  credentialRef ← uuid_of (coalesce_to credentialRef fresh);
  throw! map_has credentialRef (credentials v) as "VAULT_CREDENTIAL_EXISTS";
  label ← label_of label;
  secret ← secretValue secret;
  let c := {| sc_label := label; sc_ownerSubjectId := ownerSubjectId; sc_secret := secret; sc_version := 1;
              sc_enabled := true; sc_createdAt := now; sc_updatedAt := now |} in
  Ok (credentialMetadata credentialRef c, set_credential credentialRef c v).

Definition rotateCredential (ownerSubjectId credentialRef secret now : string) (v : VaultState) :
    result (VaultCredentialMetadata * VaultState) :=
  c ← ownedCredential v ownerSubjectId credentialRef;
  secret ← secretValue secret;
  let c := {| sc_label := sc_label c; sc_ownerSubjectId := sc_ownerSubjectId c; sc_secret := secret;
              sc_version := sc_version c + 1; sc_enabled := true; sc_createdAt := sc_createdAt c; sc_updatedAt := now |} in
  Ok (credentialMetadata credentialRef c, set_credential credentialRef c v).

Definition revokeCredential (ownerSubjectId credentialRef now : string) (v : VaultState) :
    result (VaultCredentialMetadata * VaultState) :=
  c ← ownedCredential v ownerSubjectId credentialRef;
  let c := {| sc_label := sc_label c; sc_ownerSubjectId := sc_ownerSubjectId c; sc_secret := sc_secret c;
              sc_version := sc_version c; sc_enabled := false; sc_createdAt := sc_createdAt c; sc_updatedAt := now |} in
  Ok (credentialMetadata credentialRef c, set_credential credentialRef c v).

Definition FORBIDDEN_ATTACHMENT_HEADERS : list string := [
  "connection"; "content-length"; "forwarded"; "host"; "if-modified-since"; "if-none-match"; "proxy-authorization";
  "transfer-encoding"; "x-forwarded-for"; "x-forwarded-host"; "x-forwarded-proto"].
Definition normalizeAttachment (attachment : CredentialAttachmentRule) : result CredentialAttachmentRule :=
  match attachment with
  | AttachHeader name prefix_ =>
      let name := to_lower name in
      throw! negb (is_http_token name) as "VAULT_ATTACHMENT_NAME_INVALID";
      throw! includes FORBIDDEN_ATTACHMENT_HEADERS name as "VAULT_ATTACHMENT_HEADER_FORBIDDEN";
      throw! containsControlCharacter prefix_ as "VAULT_ATTACHMENT_PREFIX_INVALID";
      Ok (AttachHeader name prefix_)
  | AttachCookie name =>
      let name := to_lower name in
      throw! negb (is_http_token name) as "VAULT_ATTACHMENT_NAME_INVALID";
      Ok (AttachCookie name)
  | AttachQuery name =>
      let name := to_lower name in
      throw! negb (is_http_token name) as "VAULT_ATTACHMENT_NAME_INVALID";
      Ok (AttachQuery name)
  end.

Definition host_value (h : HostMatcher) : string := match h with ExactHost s | SuffixHost s => s end.
Definition with_host (s : string) (h : HostMatcher) : HostMatcher :=
  match h with ExactHost _ => ExactHost s | SuffixHost _ => SuffixHost s end.
(** [.replace(/^\*\./, '')]. *)
Definition without_star (s : string) : string := if starts_with s "*." then string_drop 2 s else s.
Definition ends_with_char (c : ascii) (s : string) : bool :=
  match last_index_of c s with Some i => Nat.eqb (S i) (String.length s) | None => false end.

Definition attachment_ok (attachment : CredentialAttachmentRule) : bool :=
  match attachment with
  | AttachHeader name prefix_ => length_within 1 128 name && length_within 0 256 prefix_
  | AttachCookie name | AttachQuery name => length_within 1 128 name
  end.
Definition count_within {A} (lo hi : Z) (l : list A) : bool := within lo hi (Z.of_nat (length l)).
(** [bindingSchema.parse(input)]. *)
Definition bindingSchema (b : CredentialBinding) : result CredentialBinding :=
  throw! negb (is_uuid (bd_bindingRef b) && length_within 1 256 (trim (bd_label b)) && is_uuid (bd_ownerSubjectId b) &&
               is_uuid (bd_credentialRef b) && count_within 1 2 (bd_placements b) && count_within 1 2 (bd_schemes b) &&
               length_within 1 253 (host_value (bd_host b)) && count_within 1 32 (bd_ports b) &&
               forallb (within 1 65535) (bd_ports b) && length_within 1 2048 (bd_pathPrefix b) &&
               count_within 1 2 (bd_methods b) && length_within 1 128 (trim (bd_purpose b)) &&
               attachment_ok (bd_attachment b)) as invalid;
  Ok {| bd_bindingRef := bd_bindingRef b; bd_label := trim (bd_label b); bd_ownerSubjectId := bd_ownerSubjectId b;
        bd_credentialRef := bd_credentialRef b; bd_placements := bd_placements b; bd_schemes := bd_schemes b;
        bd_host := bd_host b; bd_ports := bd_ports b; bd_pathPrefix := bd_pathPrefix b; bd_methods := bd_methods b;
        bd_purpose := trim (bd_purpose b); bd_attachment := bd_attachment b; bd_enabled := bd_enabled b |}.

Definition placement_text (p : Placement) : string := match p with Local_ => "local" | Server_ => "server" end.
Definition scheme_text (s : Scheme_) : string := match s with Https => "https" | Http => "http" end.
(** [[...new Set(list)].sort()], of texts. *)
Definition sorted_set {A} `{EqDecision A} (text_of : A -> string) (l : list A) : list A :=
  js_sort (fun a b => string_cmp (text_of a) (text_of b)) (dedup l).

Definition normalizeBinding (input : CredentialBinding) : result CredentialBinding :=
  parsed ← bindingSchema input;
  let host := without_star (to_lower (host_value (bd_host parsed))) in
  throw! includes_char ":" host || ends_with_char "." host as "VAULT_BINDING_HOST_INVALID";
  match resolve_url (bd_pathPrefix parsed) "https://binding.invalid" with
  | None => Throw "Invalid URL"
  | Some url =>
      let path := u_pathname url in
      throw! negb (String.eqb path (bd_pathPrefix parsed)) || negb (starts_with path "/") as "VAULT_BINDING_PATH_INVALID";
      attachment ← normalizeAttachment (bd_attachment parsed);
      Ok {| bd_bindingRef := bd_bindingRef parsed; bd_label := bd_label parsed;
            bd_ownerSubjectId := bd_ownerSubjectId parsed; bd_credentialRef := bd_credentialRef parsed;
            bd_placements := sorted_set placement_text (bd_placements parsed);
            bd_schemes := sorted_set scheme_text (bd_schemes parsed);
            bd_host := with_host host (bd_host parsed);
            bd_ports := js_sort (fun left right => left - right) (dedup (bd_ports parsed));
            bd_pathPrefix := path; bd_methods := sorted_set method_text (bd_methods parsed);
            bd_purpose := bd_purpose parsed; bd_attachment := attachment; bd_enabled := bd_enabled parsed |}
  end.

Definition putBinding (input : CredentialBinding) (v : VaultState) : result (RedactedCredentialBinding * VaultState) :=
  binding ← normalizeBinding input;
  _ ← ownedCredential v (bd_ownerSubjectId binding) (bd_credentialRef binding);
  let foreign := match map_get (bd_bindingRef binding) (bindings v) with
                 | Some existing => negb (String.eqb (bd_ownerSubjectId existing) (bd_ownerSubjectId binding))
                 | None => false
                 end in
  throw! foreign as "VAULT_BINDING_NOT_FOUND";
  Ok (redactedBinding binding, set_binding binding v).

Definition disabled (b : CredentialBinding) : CredentialBinding :=
  {| bd_bindingRef := bd_bindingRef b; bd_label := bd_label b; bd_ownerSubjectId := bd_ownerSubjectId b;
     bd_credentialRef := bd_credentialRef b; bd_placements := bd_placements b; bd_schemes := bd_schemes b;
     bd_host := bd_host b; bd_ports := bd_ports b; bd_pathPrefix := bd_pathPrefix b; bd_methods := bd_methods b;
     bd_purpose := bd_purpose b; bd_attachment := bd_attachment b; bd_enabled := false |}.
Definition revokeBinding (ownerSubjectId bindingRef : string) (v : VaultState) :
    result (RedactedCredentialBinding * VaultState) :=
  binding ← ownedBinding v ownerSubjectId bindingRef;
  let binding := disabled binding in
  Ok (redactedBinding binding, {| credentials := credentials v; bindings := map_set bindingRef binding (bindings v) |}).

Definition metadata (ownerSubjectId : string) (v : VaultState) :
    result (list VaultCredentialMetadata * list RedactedCredentialBinding) :=
  subject ← uuid_of ownerSubjectId;
  Ok (js_sort (fun left right => localeCompare (vm_credentialRef left) (vm_credentialRef right))
        ((fun e => credentialMetadata e.1 e.2) <$>
           base.filter (fun e => sc_ownerSubjectId e.2 = subject) (credentials v)),
      js_sort (fun left right => localeCompare (rb_bindingRef left) (rb_bindingRef right))
        ((fun e => redactedBinding e.2) <$>
           base.filter (fun e => bd_ownerSubjectId e.2 = subject) (bindings v))).

(** ** Matching *)

Definition hostMatches (matcher : HostMatcher) (hostname : string) : bool :=
  let candidate := to_lower hostname in
  match matcher with
  | ExactHost value => String.eqb candidate value
  | SuffixHost value =>
      negb (String.eqb candidate value) &&
      (let n := String.length ("." +:+ value) in
       Nat.leb n (String.length candidate) &&
       String.eqb (string_drop (String.length candidate - n) candidate) ("." +:+ value))
  end.
Definition pathMatches (prefix_ pathname : string) : bool :=
  if String.eqb prefix_ "/" then true
  else if ends_with_char "/" prefix_ then starts_with pathname prefix_
  else String.eqb pathname prefix_ || starts_with pathname (prefix_ +:+ "/").

Definition specificity (b : CredentialBinding) : Z :=
  match bd_host b with
  | ExactHost _ => 1000000
  | SuffixHost value => Z.of_nat (String.length value) * 1000
  end + Z.of_nat (String.length (bd_pathPrefix b)).

(** [Number(url.port || default)]. *)
Definition url_port (url : Url) : option Z :=
  match truthy (Some (u_port url)) with
  | None => Some (if String.eqb (u_protocol url) "https:" then 443 else 80)
  | Some port =>
      if string_forall is_decimal_char port
      then Some (foldl (fun n c => 10 * n + Z.of_nat (nat_of_ascii c - 48)) 0 (String.list_ascii_of_string port))
      else None
  end.
Definition scheme_of (url : Url) : option Scheme_ :=
  if String.eqb (u_protocol url) "https:" then Some Https
  else if String.eqb (u_protocol url) "http:" then Some Http else None.

(** Every condition on a binding, its credential and the request. *)
Definition applies (v : VaultState) (request : HttpRequestArtifact) (url : Url) (context : VaultSessionContext)
    (b : CredentialBinding) : bool :=
  match map_get (bd_credentialRef b) (credentials v) with
  | Some c =>
      bd_enabled b && sc_enabled c && String.eqb (bd_ownerSubjectId b) (vx_subjectId context) &&
      String.eqb (sc_ownerSubjectId c) (vx_subjectId context) &&
      includes (bd_placements b) (vx_executionEnvironment context) &&
      match scheme_of url with Some scheme => includes (bd_schemes b) scheme | None => false end &&
      match url_port url with Some port => includes (bd_ports b) port | None => false end &&
      includes (bd_methods b) (hr_method request) && bool_decide (Some (bd_purpose b) = hr_purpose request) &&
      hostMatches (bd_host b) (u_hostname url) && pathMatches (bd_pathPrefix b) (u_pathname url)
  | None => false
  end.
Definition by_specificity (left right : CredentialBinding) : Z :=
  or_else (specificity right - specificity left) (localeCompare (bd_bindingRef left) (bd_bindingRef right)).
Definition matchingBindings (v : VaultState) (request : HttpRequestArtifact) (context : VaultSessionContext) :
    result (list CredentialBinding) :=
  if bool_decide (hr_mode request = Anonymous) then Ok []
  else
    match parse_url (hr_url request) with
    | None => Throw "Invalid URL"
    | Some url =>
        Ok (js_sort by_specificity
              (base.filter (fun b => applies v request url context b = true) ((bindings v).*2)))
    end.

(** ** Sessions *)

Definition assertSessionContext (context : VaultSessionContext) : result unit :=
  requested ← uuid_of (vx_tenantId context);
  throw! negb (String.eqb requested tenantId) as "VAULT_TENANT_MISMATCH";
  _ ← uuid_of (vx_subjectId context);
  throw! negb (length_within 1 256 (vx_sessionId context)) as invalid;
  Ok tt.

(** A request is parsed again under a policy that allows its own origin. *)
Definition reparsed (request : HttpRequestArtifact) : result HttpRequestArtifact :=
  policy ← (if starts_with (hr_url request) "http:"
            then match parse_url (hr_url request) with Some url => Ok [u_origin url] | None => Throw "Invalid URL" end
            else Ok []);
  parseHttpRequestArtifact (request_object request) policy.

Definition select_best (v : VaultState) (candidates : list CredentialBinding) (context : VaultSessionContext) :
    result VaultMatch :=
  match candidates with
  | [] => Ok MatchNone
  | first :: _ =>
      match base.filter (fun b => specificity b = specificity first) candidates with
      | [selected] =>
          c ← ownedCredential v (vx_subjectId context) (bd_credentialRef selected);
          Ok (Matched (redactedBinding selected) (bd_credentialRef selected) (sc_version c))
      | [] => Ok MatchNone
      | best => Ok (MatchAmbiguous (js_sort string_cmp (bd_bindingRef <$> best)))
      end
  end.
Definition match_ (request : HttpRequestArtifact) (context : VaultSessionContext) (v : VaultState) : result VaultMatch :=
  _ ← assertSessionContext context;
  normalized ← reparsed request;
  candidates ← matchingBindings v normalized context;
  select_best v candidates context.

(** [resolveForUse] up to its [await], and after it with the match of before. *)
Definition resolve_match (request : HttpRequestArtifact) (requestDigest runId stepId : string)
    (context : VaultSessionContext) (v : VaultState) : result (string * VaultMatch) :=
  _ ← assertSessionContext context;
  throw! String.eqb runId "" || String.eqb stepId "" as "VAULT_INVOCATION_UNBOUND";
  request ← reparsed request;
  let digest := httpRequestDigest sha256_hex request in
  throw! negb (String.eqb digest requestDigest) as "VAULT_REQUEST_DIGEST_MISMATCH";
  m ← match_ request context v;
  Ok (digest, m).
Definition resolve_secret (bindingRef : string) (context : VaultSessionContext) (matched : string * VaultMatch)
    (v : VaultState) : result RequestScopedCredentialAttachment :=
  match matched with
  | (digest, Matched binding credentialRef _) =>
      throw! negb (String.eqb (rb_bindingRef binding) bindingRef) as "VAULT_BINDING_NOT_USABLE";
      c ← ownedCredential v (vx_subjectId context) credentialRef;
      throw! negb (sc_enabled c) as "VAULT_CREDENTIAL_REVOKED";
      Ok {| at_bindingRef := rb_bindingRef binding; at_credentialRef := credentialRef; at_secretVersion := sc_version c;
            at_requestDigest := digest; at_rule := rb_attachment binding; at_secret := sc_secret c |}
  | _ => Throw "VAULT_BINDING_NOT_USABLE"
  end.
End Vault.
