(* ===== verification/Acquisition.v ===== *)
(** * Acquiring a web resource

    [libs/aven-http-resources/src/acquisition.ts]: one observation of a web resource with the
    credential the vault of the customer maps to it.  The index of responses, the policy of
    egress and the network answer what they like ([HttpEnv]); what they were asked is written
    down, and so are the states the vault has been in.  An acquisition is a program whose steps
    are its [await]s; administration of the vault runs in between. *)

From S2P Require Import Prelude Contracts Json Programs Threads Tables HttpContracts Vault.

Open Scope stdpp_scope.
Open Scope js_scope.
Local Open Scope Z_scope.

(** ** The surroundings *)

(** [HttpResponseCandidate]. *)
Record HttpResponseCandidate := {
  cd_artifactId : string;
  cd_payload : HttpResponseMetadata;
  cd_sha256 : string;
  cd_length : Z;
  cd_fresh : bool
}.
Record HttpResponseLookup := {
  lk_tenantId : string;
  lk_subjectId : string;
  lk_credentialRef : option string;
  lk_method : HttpMethod;
  lk_url : string;
  lk_headers : list (string * string)
}.
Inductive HttpConditionalValidators := IfNoneMatch (etag : string) | IfModifiedSince (date : string).

(** [HttpTransportExchange]. *)
Record HttpTransportExchange := {
  ex_status : Z;
  ex_headers : response_headers;
  ex_body : option string;
  ex_protocol : option string
}.

Record HttpAcquisitionContext := { ax_session : VaultSessionContext; ax_runId : string; ax_stepId : string }.

(** What the dependencies were asked. *)
Inductive HttpQuestion :=
| AskedIndex (lookup : HttpResponseLookup)
| AskedEgress (request : HttpRequestArtifact) (context : HttpAcquisitionContext) (allowed : bool)
| AskedNetwork (request : HttpRequestArtifact) (credential : option RequestScopedCredentialAttachment)
    (conditional : option HttpConditionalValidators) (context : HttpAcquisitionContext).

(** [hw_marks] says for every question how often the vault had changed when it was asked. *)
Record HttpWorld := {
  hw_vault : VaultState;
  hw_past : list VaultState;
  hw_asked : list HttpQuestion;
  hw_marks : list nat
}.
Definition empty_world : HttpWorld := {| hw_vault := empty_vault; hw_past := []; hw_asked := []; hw_marks := [] |}.
(** The vault is in another state. *)
Definition vault_becomes (v : VaultState) (w : HttpWorld) : HttpWorld :=
  {| hw_vault := v; hw_past := hw_past w ++ [hw_vault w]; hw_asked := hw_asked w; hw_marks := hw_marks w |}.
Definition asks (q : HttpQuestion) (w : HttpWorld) : HttpWorld :=
  {| hw_vault := hw_vault w; hw_past := hw_past w; hw_asked := hw_asked w ++ [q];
     hw_marks := hw_marks w ++ [length (hw_past w)] |}.

(** The answers at one step: an index, a policy and a network may throw. *)
Record HttpEnv := {
  he_found : outcome string (option HttpResponseCandidate);
  he_allowed : option string;
  he_exchanged : outcome string HttpTransportExchange;
  he_now : string;
  he_uuid : string
}.

Abbreviation htx := (txn HttpEnv HttpWorld string).
Abbreviation hprog := (prog HttpEnv HttpWorld string).

Definition lift {A} (m : result A) : hprog A := match m with Ok a => mret a | Throw message => Raise message end.
(** A method of the vault, with the answer computed from its state. *)
Definition on_vault {A} (f : VaultState -> result A) : htx A := fun env w =>
  match f (hw_vault w) with Ok a => Gave (a, w) | Throw message => Threw message end.
Definition administer {A} (f : HttpEnv -> VaultState -> result (A * VaultState)) : htx A := fun env w =>
  match f env (hw_vault w) with Ok (a, v) => Gave (a, vault_becomes v w) | Throw message => Threw message end.
(** A question stays asked when its answer is an exception. *)
Definition ask_world {A} (q : HttpEnv -> HttpQuestion) (answer : HttpEnv -> outcome string A) : hprog A :=
  Step (fun env w => Gave (answer env, asks (q env) w))
    (fun o => match o with Gave (Gave a) => mret a | Gave (Threw e) | Threw e => Raise e end).

(** ** Results *)

Record UsedCredential := {
  uc_credentialRef : string;
  uc_bindingRef : string;
  uc_secretVersion : Z;
  uc_attachmentKind : string
}.
Inductive CapturedBody :=
| BodyStream (stream : string) (declaredLength : option Z)
| BodyExisting (artifactId sha256 : string) (length : Z).
(** [AcquiredHttpResource]. *)
Inductive AcquiredHttpResource :=
| ExistingResponse (responseArtifactId : string)
| Capture (metadata : HttpResponseMetadata) (body : CapturedBody) (credential : option UsedCredential).

Definition attachment_kind (rule : CredentialAttachmentRule) : string :=
  match rule with AttachHeader _ _ => "header" | AttachCookie _ => "cookie" | AttachQuery _ => "query" end.
Definition used (a : RequestScopedCredentialAttachment) : UsedCredential :=
  {| uc_credentialRef := at_credentialRef a; uc_bindingRef := at_bindingRef a; uc_secretVersion := at_secretVersion a;
     uc_attachmentKind := attachment_kind (at_rule a) |}.

(** [/^\d+$/] and [Number.isSafeInteger]. *)
Definition contentLength (headers : response_headers) : option Z :=
  match map_get "content-length" headers with
  | Some raw =>
      if String.eqb raw "" || negb (string_forall is_decimal_char raw) then None
      else
        let value := foldl (fun n c => 10 * n + Z.of_nat (nat_of_ascii c - 48)) 0 (String.list_ascii_of_string raw) in
        if value <=? 9007199254740991 then Some value else None
  | None => None
  end.
Definition isRedirect (status : Z) : bool := includes [301; 302; 303; 307; 308] status.
Definition conditionalValidators (payload : HttpResponseMetadata) : option HttpConditionalValidators :=
  match truthy (hm_etag payload), truthy (hm_lastModified payload) with
  | Some etag, _ => Some (IfNoneMatch etag)
  | None, Some date => Some (IfModifiedSince date)
  | None, None => None
  end.

Section Acquisition.
Context {url_parser : UrlParser} {collation : Collation}.
Context (is_uuid : string -> bool) (sha256_hex : string -> string) (tenantId : string).

Definition mergeRetainedHeaders (prior observed : list (string * string)) : list (string * string) :=
  js_sort by_name (foldl (fun m h => map_set h.1 h.2 m) [] (prior ++ observed)).

Definition responseMetadata (requested final : HttpRequestArtifact) (exchange : HttpTransportExchange)
    (redirectCount : nat) (capturedAt : string) (statusCode : Z) (networkStatusCode : option Z)
    (cacheDisposition : HttpCacheDisposition) (source : option string) (fallback : option HttpResponseMetadata) :
    HttpResponseMetadata :=
  let declared := declaredContentType (ex_headers exchange) in
  {| hm_requestedUrl := hr_url requested; hm_finalUrl := hr_url final; hm_statusCode := statusCode;
     hm_networkStatusCode := networkStatusCode; hm_cacheDisposition := cacheDisposition;
     hm_representationSourceArtifactId := truthy source; hm_protocol := truthy (ex_protocol exchange);
     hm_declaredMediaType := coalesce declared.1 (fallback ≫= hm_declaredMediaType);
     hm_declaredCharset := coalesce declared.2 (fallback ≫= hm_declaredCharset);
     hm_etag := coalesce (map_get "etag" (ex_headers exchange)) (fallback ≫= hm_etag);
     hm_lastModified := coalesce (map_get "last-modified" (ex_headers exchange)) (fallback ≫= hm_lastModified);
     hm_headers := mergeRetainedHeaders (match fallback with Some f => hm_headers f | None => [] end)
                     (retainedResponseHeaders (ex_headers exchange));
     hm_redirectCount := redirectCount; hm_capturedAt := capturedAt |}.

Definition capture (exchange : HttpTransportExchange) (requested final : HttpRequestArtifact) (redirectCount : nat)
    (credential : option UsedCredential) (capturedAt : string) : AcquiredHttpResource :=
  Capture (responseMetadata requested final exchange redirectCount capturedAt (ex_status exchange) None CacheNew None None)
    (BodyStream (coalesce_to (ex_body exchange) "") (contentLength (ex_headers exchange))) credential.

Definition finalizedHttpResponseArtifact (metadata : HttpResponseMetadata) (body : CapturedBody) (storedBodyLength : Z) :
    result HttpResponseArtifact :=
  throw! negb (within 0 9007199254740991 storedBodyLength) as "HTTP_STORED_LENGTH_INVALID";
  throw! match body with BodyExisting _ _ length => negb (length =? storedBodyLength) | BodyStream _ _ => false end
    as "HTTP_REUSED_LENGTH_MISMATCH";
  Ok {| ra_metadata := metadata; ra_storedBodyLength := storedBodyLength |}.

(** ** Credentials of a request *)

Definition credentialMatch (request : HttpRequestArtifact) (context : HttpAcquisitionContext) : hprog VaultMatch :=
  if bool_decide (hr_mode request = Anonymous) then mret MatchNone
  else
    found ← step (on_vault (match_ is_uuid tenantId request (ax_session context)));
    match (found : VaultMatch) with
    | MatchAmbiguous _ => Raise "HTTP_CREDENTIAL_AMBIGUOUS"
    | MatchNone => if bool_decide (hr_mode request = MappedRequired) then Raise "HTTP_CREDENTIAL_REQUIRED" else mret MatchNone
    | Matched _ _ _ => mret found
    end.

Definition resolveForUse (bindingRef : string) (request : HttpRequestArtifact) (context : HttpAcquisitionContext) :
    hprog RequestScopedCredentialAttachment :=
  matched ← step (on_vault (resolve_match is_uuid sha256_hex tenantId request (httpRequestDigest sha256_hex request)
                              (ax_runId context) (ax_stepId context) (ax_session context)));
  step (on_vault (resolve_secret is_uuid bindingRef (ax_session context) matched)).

Definition credentialForUse (request : HttpRequestArtifact) (found : VaultMatch) (context : HttpAcquisitionContext) :
    hprog (option RequestScopedCredentialAttachment) :=
  match found with
  | Matched binding _ _ => a ← resolveForUse (rb_bindingRef binding) request context; mret (Some a)
  | _ => mret None
  end.

(** ** [acquireHttpResource] *)

Definition assertContext (context : HttpAcquisitionContext) : result unit :=
  throw_if (String.eqb (ax_runId context) "" || String.eqb (ax_stepId context) "" ||
            String.eqb (vx_sessionId (ax_session context)) "") "HTTP_SESSION_CONTEXT_REQUIRED".

Definition redirected (current : HttpRequestArtifact) (location : string) (policy : HttpRequestPolicy) :
    result HttpRequestArtifact :=
  match resolve_url location (hr_url current) with
  | None => Throw "Invalid URL"
  | Some nextUrl =>
      parseHttpRequestArtifact (request_object
        {| hr_method := hr_method current; hr_url := u_href nextUrl; hr_headers := hr_headers current;
           hr_mode := hr_mode current; hr_purpose := hr_purpose current; hr_redirects := hr_redirects current;
           hr_maximumHops := hr_maximumHops current; hr_freshness := hr_freshness current |}) policy
  end.

Definition revalidated (request current : HttpRequestArtifact) (candidate : HttpResponseCandidate)
    (exchange : HttpTransportExchange) (redirectCount : nat) (credential : option UsedCredential) (capturedAt : string) :
    AcquiredHttpResource :=
  Capture (responseMetadata request current exchange redirectCount capturedAt (hm_statusCode (cd_payload candidate))
             (Some 304) CacheRevalidated (Some (cd_artifactId candidate)) (Some (cd_payload candidate)))
    (BodyExisting (cd_artifactId candidate) (cd_sha256 candidate) (cd_length candidate)) credential.

Definition exchange_ (current : HttpRequestArtifact) (credential : option RequestScopedCredentialAttachment)
    (conditional : option HttpConditionalValidators) (context : HttpAcquisitionContext) : hprog HttpTransportExchange :=
  ask_world (fun _ => AskedNetwork current credential conditional context) he_exchanged.
Definition authorize (current : HttpRequestArtifact) (context : HttpAcquisitionContext) : hprog unit :=
  ask_world (fun env => AskedEgress current context (bool_decide (he_allowed env = None)))
    (fun env => match he_allowed env with None => Gave tt | Some message => Threw message end).
Definition find_response (lookup : HttpResponseLookup) : hprog (option HttpResponseCandidate) :=
  ask_world (fun _ => AskedIndex lookup) he_found.

Definition conditional_for (candidate : option HttpResponseCandidate) (current : HttpRequestArtifact) :
    option HttpConditionalValidators :=
  match candidate with
  | Some c => if String.eqb (hm_finalUrl (cd_payload c)) (hr_url current) then conditionalValidators (cd_payload c) else None
  | None => None
  end.

(** The loop, with one turn more than the redirects that are allowed. *)
Fixpoint follow (turns : nat) (request : HttpRequestArtifact) (candidate : option HttpResponseCandidate)
    (policy : HttpRequestPolicy) (context : HttpAcquisitionContext) (redirectCount : nat)
    (current : HttpRequestArtifact) (found : VaultMatch) : hprog AcquiredHttpResource :=
  match turns with
  | O => Raise "out of fuel"
  | S turns =>
      _ ← authorize current context;
      credential ← credentialForUse current found context;
      let lastCredential := used <$> (credential : option RequestScopedCredentialAttachment) in
      exchange ← exchange_ current credential (conditional_for candidate current) context;
      if isRedirect (ex_status exchange) && bool_decide (hr_redirects request = Follow) then
        if Nat.leb (hr_maximumHops request) redirectCount then Raise "HTTP_REDIRECT_LIMIT_EXCEEDED"
        else
          match truthy (map_get "location" (ex_headers exchange)) with
          | None => now ← step (ask he_now); mret (capture exchange request current redirectCount lastCredential now)
          | Some location =>
              next ← lift (redirected current location policy);
              found ← credentialMatch next context;
              follow turns request candidate policy context (S redirectCount) next found
          end
      else if ex_status exchange =? 304 then
        match candidate with
        | None => Raise "HTTP_304_WITHOUT_CANDIDATE"
        | Some c =>
            now ← step (ask he_now);
            mret (revalidated request current c exchange redirectCount lastCredential now)
        end
      else now ← step (ask he_now); mret (capture exchange request current redirectCount lastCredential now)
  end.

Definition lookup_of (request : HttpRequestArtifact) (context : HttpAcquisitionContext) (found : VaultMatch) :
    HttpResponseLookup :=
  {| lk_tenantId := vx_tenantId (ax_session context); lk_subjectId := vx_subjectId (ax_session context);
     lk_credentialRef := match found with Matched _ credentialRef _ => Some credentialRef | _ => None end;
     lk_method := hr_method request; lk_url := hr_url request; lk_headers := hr_headers request |}.

Definition acquireHttpResource (input : json) (context : HttpAcquisitionContext) (policy : HttpRequestPolicy) :
    hprog AcquiredHttpResource :=
  _ ← lift (assertContext context);
  request ← lift (parseHttpRequestArtifact input policy);
  found ← credentialMatch request context;
  candidate ← (if bool_decide (hr_freshness request = NewCapture) then mret None
               else find_response (lookup_of request context found));
  if bool_decide (hr_freshness request = OfflineOnly) then
    match (candidate : option HttpResponseCandidate) with
    | None => Raise "HTTP_OFFLINE_ARTIFACT_NOT_FOUND"
    | Some c => mret (ExistingResponse (cd_artifactId c))
    end
  else
    match (candidate : option HttpResponseCandidate) with
    | Some c =>
        if cd_fresh c then mret (ExistingResponse (cd_artifactId c))
        else follow (S (hr_maximumHops request)) request candidate policy context 0 request found
    | None => follow (S (hr_maximumHops request)) request None policy context 0 request found
    end.

(** ** The vault's administration, and the system *)

Inductive http_service (i : nat) : forall A : Type, hprog A -> Prop :=
| ServeAcquire input context policy : http_service i _ (acquireHttpResource input context policy)
| ServeSet owner label secret ref_ : http_service i _ (step (administer (fun env =>
    setCredential is_uuid owner label secret ref_ (he_uuid env) (he_now env))))
| ServeRotate owner ref_ secret : http_service i _ (step (administer (fun env =>
    rotateCredential is_uuid owner ref_ secret (he_now env))))
| ServeRevoke owner ref_ : http_service i _ (step (administer (fun env => revokeCredential is_uuid owner ref_ (he_now env))))
| ServePut input : http_service i _ (step (administer (fun _ => putBinding is_uuid input)))
| ServeRevokeBinding owner ref_ : http_service i _ (step (administer (fun _ => revokeBinding is_uuid owner ref_)))
| ServeMetadata owner : http_service i _ (step (on_vault (metadata is_uuid owner))).
End Acquisition.

Definition http_admissible (time : Z) (i : nat) (env : HttpEnv) (w : HttpWorld) : Prop := True.
Definition http_background (w w' : HttpWorld) : Prop := False.
Definition http_start (time : Z) : threads HttpEnv HttpWorld string :=
  {| th_time := time; th_db := empty_world; th_next := 0; th_running := [] |}.

(** ** The network request *)

Section Transport.
Context {url_parser : UrlParser} {collation : Collation}.
Context (sha256_hex : string -> string).

(** [headers.set(name, value)] of a name in any case and a value without its outer blanks. *)
Definition is_http_space (c : ascii) : bool := let n := nat_of_ascii c in Nat.eqb n 9 || Nat.eqb n 10 || Nat.eqb n 13 || Nat.eqb n 32.
Fixpoint strip_start (s : string) : string :=
  match s with String c rest => if is_http_space c then strip_start rest else s | EmptyString => EmptyString end.
Fixpoint strip_end (s : string) : string :=
  match s with
  | String c rest => match strip_end rest with
                     | EmptyString => if is_http_space c then EmptyString else String c EmptyString
                     | rest' => String c rest'
                     end
  | EmptyString => EmptyString
  end.
Definition header_value (value : string) : string := strip_start (strip_end value).
Definition header_set (name value : string) (headers : list (string * string)) : list (string * string) :=
  map_set (to_lower name) (header_value value) headers.
Definition applyCredential (url : Url) (headers : list (string * string)) (a : RequestScopedCredentialAttachment) :
    Url * list (string * string) :=
  match at_rule a with
  | AttachHeader name prefix_ => (url, header_set name (prefix_ +:+ at_secret a) headers)
  | AttachCookie name => (url, header_set "cookie" (name +:+ "=" +:+ at_secret a) headers)
  | AttachQuery name => (set_search_param url name (at_secret a), headers)
  end.
(** What [FetchHttpResourceTransport.exchange] fetches: a URL and headers. *)
Definition fetched (request : HttpRequestArtifact) (credential : option RequestScopedCredentialAttachment)
    (conditional : option HttpConditionalValidators) : result (Url * list (string * string)) :=
  match parse_url (hr_url request) with
  | None => Throw "Invalid URL"
  | Some url =>
      let headers := foldl (fun m h => header_set h.1 h.2 m) [] (hr_headers request) in
      let headers := match conditional with
                     | Some (IfNoneMatch etag) => header_set "if-none-match" etag headers
                     | Some (IfModifiedSince date) => header_set "if-modified-since" date headers
                     | None => headers
                     end in
      match credential with
      | None => Ok (url, headers)
      | Some a =>
          throw! negb (String.eqb (at_requestDigest a) (httpRequestDigest sha256_hex request))
            as "HTTP_CREDENTIAL_REQUEST_MISMATCH";
          Ok (applyCredential url headers a)
      end
  end.
End Transport.
