(* ===== verification/HttpFacts.v ===== *)
(** * Requests in normal form, and the vault

    What parsing a request gives and parsing it again, and what the vault keeps: its
    invariant, its methods, its matches, and that nothing but a use depends on a secret. *)

From S2P Require Import Prelude Contracts Json Tables HttpContracts Vault.

Open Scope stdpp_scope.
Open Scope js_scope.
Local Open Scope Z_scope.

(** ** Reading back what was printed *)

Section Requests.
Context {url_parser : UrlParser} {collation : Collation} `{!UrlLaws url_parser} `{!CollationLaws collation}.

#[export] Instance by_name_ordering {A} : Ordering (by_name (A := A)).
Proof. split; unfold by_name; intros; [apply locale_antisym|by eapply locale_trans]. Qed.

(** The headers of a parsed request. *)
Definition header_ok (h : string * string) : Prop :=
  to_lower h.1 = h.1 /\ is_http_token h.1 = true /\ h.1 ∉ FORBIDDEN_REQUEST_HEADERS /\
  containsControlCharacter h.2 = false /\ trim h.2 = h.2.
Definition headers_ok (l : list (string * string)) : Prop := (forall h, h ∈ l -> header_ok h) /\ NoDup l.*1.

Lemma control_trim s : containsControlCharacter s = false -> containsControlCharacter (trim s) = false.
Proof.
  unfold containsControlCharacter. rewrite !negb_false_iff. apply string_forall_trim.
Qed.

Lemma normalized_headers headers : forall names l, normalize_headers names headers = Ok l ->
  headers_ok l /\ forall h, h ∈ l -> h.1 ∉ names.
Proof.
  induction headers as [|[name value] headers IH]; intros names l H; cbn [normalize_headers] in H; inv_result.
  { split; [split; [by intros h ?%elem_of_nil|constructor]|by intros h ?%elem_of_nil]. }
  match goal with Hr : normalize_headers _ _ = Ok _ |- _ => apply IH in Hr as [[H1 H2] H3] end.
  match goal with Hc : _ || _ = false |- _ => apply orb_false_iff in Hc as [Ht%negb_false_iff Hf] end.
  unfold includes in *. rewrite bool_decide_eq_false in Hf.
  match goal with Hc : bool_decide (_ ∈ names) = false |- _ => rewrite bool_decide_eq_false in Hc; rename Hc into Hn end.
  split; [split|].
  - intros h [->|Hh]%elem_of_cons; [|by apply H1]. split; [apply to_lower_idem|]. split; [done|]. split; [done|].
    split; [by apply control_trim|apply trim_idem].
  - cbn. apply NoDup_cons. split; [|done]. intros (h & E & Hh)%list_elem_of_fmap. apply (H3 h Hh). rewrite <- E. left.
  - intros h [->|Hh]%elem_of_cons; [done|]. intros Hin. apply (H3 h Hh). by right.
Qed.

Lemma normalize_again l : forall names, headers_ok l -> (forall h, h ∈ l -> h.1 ∉ names) -> normalize_headers names l = Ok l.
Proof.
  induction l as [|[name value] l IH]; intros names [H1 H2] H3; [done|]. cbn [normalize_headers].
  destruct (H1 (name, value)) as (E1 & E2 & E3 & E4 & E5); [left|]. cbn [fst snd] in E1, E2, E3, E4, E5.
  rewrite E1, E2, E4. unfold includes. rewrite !bool_decide_false by (try done; apply (H3 (name, value)); left).
  cbn [negb orb throw_if]. apply NoDup_cons in H2 as [Hn H2]. cbn [mbind result_bind].
  rewrite IH; [by rewrite E5|split; [|done]|].
  - intros h Hh. apply H1. by right.
  - intros h Hh [E|Hin]%elem_of_cons; [|by apply (H3 h); [right|]]. apply Hn. apply list_elem_of_fmap. by exists h.
Qed.

Lemma headers_ok_sorted l : headers_ok l -> headers_ok (js_sort by_name l).
Proof.
  intros [H1 H2]. split.
  - intros h Hh. apply H1. by apply elem_of_js_sort in Hh.
  - by rewrite js_sort_perm.
Qed.

Lemma sorted_again {A} (f : A -> A -> Z) `{!Ordering f} l : StronglySorted (fun x y => f x y <= 0) l -> js_sort f l = l.
Proof.
  induction 1 as [|x l Hs IH Hx]; [done|]. cbn. fold (js_sort f l). rewrite IH. destruct l as [|y l]; [done|]. cbn.
  apply Forall_inv in Hx. by rewrite (proj2 (Z.leb_le _ _) Hx).
Qed.

(** The schema reads the fields of the plain object. *)
Lemma strict_object_gave keys j entries : strict_object keys j = Ok entries -> j = JObject entries.
Proof. unfold strict_object. destruct j; try done. by case_match; [intros [= ->]|]. Qed.

Lemma text_field_gave key lo hi entries s : text_field key lo hi entries = Ok s ->
  map_get key entries = Some (JString s) /\ length_within lo hi s = true.
Proof. unfold text_field. repeat case_match; try done. by intros [= ->]. Qed.

Abbreviation header_object h := (JObject [("name", JString h.1); ("value", JString h.2)]).

Lemma schema_header (h h' : string * string) : requestHeaderSchema (header_object h) = Ok h' -> h' = h.
Proof.
  destruct h as [name value]. unfold requestHeaderSchema. intros H. inv_result.
  match goal with Hs : strict_object _ _ = Ok _ |- _ => apply strict_object_gave in Hs; injection Hs as <- end.
  repeat match goal with Ht : text_field _ _ _ _ = Ok _ |- _ => apply text_field_gave in Ht as [[= <-] _] end. done.
Qed.

Lemma schema_headers l : forall l', collect_results requestHeaderSchema ((fun h => header_object h) <$> l) = Ok l' -> l' = l.
Proof.
  induction l as [|h l IH]; intros l' H; cbn [fmap list_fmap collect_results] in H; inv_result; [done|].
  match goal with Hh : requestHeaderSchema _ = Ok _ |- _ => apply schema_header in Hh as -> end.
  f_equal. by apply IH.
Qed.

Lemma headers_again entries l l' : map_get "headers" entries = Some (JArray ((fun h => header_object h) <$> l)) ->
  headers_field entries = Ok l' -> l' = l.
Proof. unfold headers_field. intros ->. case_match; [|done]. apply schema_headers. Qed.

Lemma enum_again {A} key text (a b : A) values d entries : map_get key entries = Some (JString text) ->
  map_get text values = Some a -> enum_field key values d entries = Ok b -> b = a.
Proof. unfold enum_field. intros -> ->. destruct d; by intros [= ->]. Qed.

Lemma purpose_again entries purpose p : map_get "purpose" entries = JString <$> purpose ->
  (forall q, purpose = Some q -> trim q = q) -> purpose_field entries = Ok p -> p = purpose.
Proof.
  unfold purpose_field. intros -> Hp. destruct purpose as [q|]; cbn [fmap option_fmap option_map]; [|congruence].
  rewrite (Hp q) by done. case_match; congruence.
Qed.

Lemma authentication_again entries mode purpose a :
  map_get "authentication" entries =
    Some (JObject (("mode", JString (mode_text mode)) :: match purpose with Some p => [("purpose", JString p)] | None => [] end)) ->
  (forall q, purpose = Some q -> trim q = q) -> authenticationSchema entries = Ok a -> a = (mode, purpose).
Proof.
  unfold authenticationSchema. intros -> Hp H. inv_result.
  match goal with Hs : strict_object _ _ = Ok _ |- _ => apply strict_object_gave in Hs; injection Hs as <- end.
  match goal with He : enum_field _ _ _ _ = Ok _ |- _ =>
    apply (enum_again _ (mode_text mode) mode) in He; [subst|done|by destruct mode] end.
  match goal with He : purpose_field _ = Ok _ |- _ => apply (purpose_again _ purpose) in He; [by subst|by destruct purpose|done] end.
Qed.

Lemma hops_again entries hops n : map_get "maximumHops" entries = Some (JNumber (Z.of_nat hops)) ->
  hops_field entries = Ok n -> n = hops.
Proof. unfold hops_field. intros ->. case_match; [|done]. intros [= <-]. apply Nat2Z.id. Qed.

Lemma redirects_again entries mode hops r :
  map_get "redirects" entries =
    Some (JObject [("mode", JString (redirect_text mode)); ("maximumHops", JNumber (Z.of_nat hops))]) ->
  redirects_field entries = Ok r -> r = (mode, hops).
Proof.
  unfold redirects_field. intros -> H. inv_result.
  match goal with Hs : strict_object _ _ = Ok _ |- _ => apply strict_object_gave in Hs; injection Hs as <- end.
  match goal with He : enum_field _ _ _ _ = Ok _ |- _ =>
    apply (enum_again _ (redirect_text mode) mode) in He; [subst|done|by destruct mode] end.
  match goal with He : hops_field _ = Ok _ |- _ => apply (hops_again _ hops) in He; [by subst|done] end.
Qed.

Lemma schema_again r r' : requestSchema (request_object r) = Ok r' ->
  (forall p, hr_purpose r = Some p -> trim p = p) -> r' = r.
Proof.
  destruct r as [method url headers mode purpose redirects hops freshness]. intros H Hp. unfold requestSchema in H.
  cbn [hr_purpose] in Hp. inv_result.
  match goal with Hs : strict_object _ _ = Ok _ |- _ => apply strict_object_gave in Hs; injection Hs as <- end.
  repeat match goal with
  | He : enum_field "method" _ _ _ = Ok _ |- _ => apply (enum_again _ (method_text method) method) in He; [subst|done|by destruct method]
  | He : enum_field "freshness" _ _ _ = Ok _ |- _ =>
      apply (enum_again _ (freshness_text freshness) freshness) in He; [subst|done|by destruct freshness]
  | He : text_field _ _ _ _ = Ok _ |- _ => apply text_field_gave in He as [[= <-] _]
  | He : headers_field _ = Ok _ |- _ => apply (headers_again _ headers) in He; [subst|done]
  | He : authenticationSchema _ = Ok _ |- _ => apply (authentication_again _ mode purpose) in He; [subst|done..]
  | He : redirects_field _ = Ok _ |- _ => apply (redirects_again _ redirects hops) in He; [subst|done]
  end. done.
Qed.

(** *** The schema admits what it read *)

Definition lengths_ok (l : list (string * string)) : Prop :=
  forall h, h ∈ l -> length_within 1 128 h.1 = true /\ length_within 0 8192 h.2 = true.

Lemma length_to_lower s : String.length (to_lower s) = String.length s.
Proof. induction s as [|c s IH]; cbn; [done|]. by rewrite IH. Qed.
Lemma length_trim_start s : (String.length (trim_start s) <= String.length s)%nat.
Proof. induction s as [|c s IH]; cbn; [done|]. destruct (is_space c); cbn; lia. Qed.
Lemma length_trim_end s : (String.length (trim_end s) <= String.length s)%nat.
Proof. induction s as [|c s IH]; [done|]. rewrite trim_end_cons. case_match; cbn; lia. Qed.
Lemma length_trim s : (String.length (trim s) <= String.length s)%nat.
Proof. unfold trim. pose proof (length_trim_start (trim_end s)). pose proof (length_trim_end s). lia. Qed.

Lemma within_spec lo hi n : within lo hi n = true <-> lo <= n <= hi.
Proof. unfold within. rewrite andb_true_iff, !Z.leb_le. done. Qed.

Lemma schema_lengths items : forall l, collect_results requestHeaderSchema items = Ok l -> lengths_ok l /\ length l = length items.
Proof.
  induction items as [|j items IH]; intros l H; cbn [collect_results] in H; inv_result; [by split; [intros h ?%elem_of_nil|]|].
  destruct (IH _ eq_refl) as [H1 H2]. split; [|by cbn; rewrite H2].
  intros h [->|Hh]%elem_of_cons; [|by apply H1].
  match goal with Hh : requestHeaderSchema _ = Ok _ |- _ => unfold requestHeaderSchema in Hh end. inv_result.
  repeat match goal with Ht : text_field _ _ _ _ = Ok _ |- _ => apply text_field_gave in Ht as [_ ?] end. done.
Qed.

Lemma normalized_lengths headers : forall names l, normalize_headers names headers = Ok l ->
  (lengths_ok headers -> lengths_ok l) /\ length l = length headers.
Proof.
  induction headers as [|[name value] headers IH]; intros names l H; cbn [normalize_headers] in H; inv_result; [done|].
  match goal with Hr : normalize_headers _ _ = Ok _ |- _ => apply IH in Hr as [H1 H2] end.
  split; [|by cbn; rewrite H2]. intros Hl h [->|Hh]%elem_of_cons.
  - destruct (Hl (name, value)) as [L1 L2]; [left|]. unfold length_within in *. cbn [fst snd] in *. rewrite length_to_lower.
    split; [done|]. rewrite within_spec in *. pose proof (length_trim value). lia.
  - apply H1; [|done]. intros h' Hh'. apply Hl. by right.
Qed.

Lemma text_field_reads key lo hi entries s : map_get key entries = Some (JString s) -> length_within lo hi s = true ->
  text_field key lo hi entries = Ok s.
Proof. unfold text_field. by intros -> ->. Qed.

Lemma schema_header_reads (h : string * string) : length_within 1 128 h.1 = true -> length_within 0 8192 h.2 = true ->
  requestHeaderSchema (header_object h) = Ok h.
Proof.
  intros H1 H2. unfold requestHeaderSchema. destruct h as [name value]. cbn [fst snd] in *.
  change (strict_object _ _) with (Ok [("name", JString name); ("value", JString value)]). cbn [mbind result_bind].
  rewrite (text_field_reads "name" _ _ _ name) by done. cbn [mbind result_bind]. by rewrite (text_field_reads "value" _ _ _ value).
Qed.

Lemma schema_headers_read l : lengths_ok l -> collect_results requestHeaderSchema ((fun h => header_object h) <$> l) = Ok l.
Proof.
  intros Hl. induction l as [|h l IH]; [done|]. rewrite fmap_cons. cbn [collect_results].
  rewrite schema_header_reads by (apply Hl; left). cbn [mbind result_bind].
  rewrite IH; [done|]. intros h' Hh'. apply Hl. by right.
Qed.

Lemma headers_read entries l : map_get "headers" entries = Some (JArray ((fun h => header_object h) <$> l)) ->
  lengths_ok l -> (length l <= 64)%nat -> headers_field entries = Ok l.
Proof.
  unfold headers_field. intros -> Hl Hn. rewrite schema_headers_read by done.
  by rewrite length_fmap, (proj2 (within_spec _ _ _)) by lia.
Qed.

Lemma authentication_reads entries mode purpose :
  map_get "authentication" entries =
    Some (JObject (("mode", JString (mode_text mode)) :: match purpose with Some p => [("purpose", JString p)] | None => [] end)) ->
  (mode = Anonymous <-> purpose = None) -> (forall p, purpose = Some p -> trim p = p /\ length_within 1 128 p = true) ->
  authenticationSchema entries = Ok (mode, purpose).
Proof.
  unfold authenticationSchema. intros -> Hm Hp. set (fields := ("mode", _) :: _).
  assert (strict_object ["mode"; "purpose"] (JObject fields) = Ok fields) as -> by (subst fields; by destruct purpose).
  cbn [mbind result_bind].
  assert (enum_field "mode" modes (Some Anonymous) fields = Ok mode) as -> by (subst fields; by destruct mode).
  assert (purpose_field fields = Ok purpose) as ->.
  { subst fields. destruct purpose as [p|]; [|done]. destruct (Hp p eq_refl) as [H1 H2]. unfold purpose_field.
    change (map_get "purpose" _) with (Some (JString p)). cbv iota. by rewrite H1, H2. }
  destruct mode, purpose; naive_solver.
Qed.

Lemma redirects_read entries mode hops :
  map_get "redirects" entries =
    Some (JObject [("mode", JString (redirect_text mode)); ("maximumHops", JNumber (Z.of_nat hops))]) ->
  (hops <= 10)%nat -> redirects_field entries = Ok (mode, hops).
Proof.
  unfold redirects_field. intros -> Hh. set (fields := [("mode", _); _]).
  change (strict_object _ _) with (Ok fields). cbn [mbind result_bind].
  assert (enum_field "mode" [("follow", Follow); ("manual", Manual)] (Some Follow) fields = Ok mode) as -> by (by destruct mode).
  assert (hops_field fields = Ok hops) as ->; [|done].
  unfold hops_field. change (map_get "maximumHops" fields) with (Some (JNumber (Z.of_nat hops))). cbv iota.
  by rewrite (proj2 (within_spec _ _ _)), Nat2Z.id by lia.
Qed.

Lemma schema_reads r : length_within 1 8192 (hr_url r) = true -> lengths_ok (hr_headers r) ->
  (length (hr_headers r) <= 64)%nat -> (hr_mode r = Anonymous <-> hr_purpose r = None) ->
  (forall p, hr_purpose r = Some p -> trim p = p /\ length_within 1 128 p = true) -> (hr_maximumHops r <= 10)%nat ->
  requestSchema (request_object r) = Ok r.
Proof.
  destruct r as [method url headers mode purpose redirects hops freshness].
  cbn [hr_url hr_headers hr_mode hr_purpose hr_maximumHops]. intros Hurl Hl Hn Hm Hp Hh.
  unfold requestSchema, request_object. cbn [hr_method hr_url hr_headers hr_mode hr_purpose hr_redirects hr_maximumHops hr_freshness].
  match goal with |- context [strict_object _ (JObject ?e)] => set (entries := e) end.
  change (strict_object _ _) with (Ok entries). cbn [mbind result_bind].
  assert (enum_field "method" [("GET", GET); ("HEAD", HEAD)] None entries = Ok method) as -> by (by destruct method).
  rewrite (text_field_reads _ _ _ _ url) by done. rewrite (headers_read _ headers) by done.
  rewrite (authentication_reads _ mode purpose) by done. rewrite (redirects_read _ redirects hops) by done.
  by destruct freshness.
Qed.

(** ** Requests that were parsed *)

(** What the schema itself promises of a request. *)
Lemma schema_purpose j r : requestSchema j = Ok r ->
  (forall p, hr_purpose r = Some p -> trim p = p /\ length_within 1 128 p = true) /\
  (hr_mode r = Anonymous <-> hr_purpose r = None) /\ (hr_maximumHops r <= 10)%nat /\
  lengths_ok (hr_headers r) /\ (length (hr_headers r) <= 64)%nat.
Proof.
  unfold requestSchema. intros H. inv_result. cbn [hr_purpose hr_mode hr_maximumHops hr_headers].
  split; [|split; [|split]].
  - match goal with Ha : authenticationSchema _ = Ok _ |- _ => rename Ha into Hauth end. unfold authenticationSchema in Hauth.
    case_match; inv_result; [|done]. cbn [snd].
    match goal with Hp : purpose_field _ = Ok _ |- _ => unfold purpose_field in Hp; repeat case_match; try done end; inv_result; [|done].
    intros p [= <-]. split; [apply trim_idem|done].
  - match goal with Ha : authenticationSchema _ = Ok _ |- _ => rename Ha into Hauth end. unfold authenticationSchema in Hauth.
    case_match; inv_result; [|done]. cbn [fst snd]. bools.
    match goal with |- ?m = _ <-> ?p = _ => destruct m, p as [?|] end; naive_solver.
  - match goal with Ha : redirects_field _ = Ok _ |- _ => rename Ha into Hr end. unfold redirects_field in Hr.
    case_match; inv_result; [|cbn; lia]. cbn [snd].
    match goal with Hh : hops_field _ = Ok _ |- _ => unfold hops_field in Hh; repeat case_match; try done end; inv_result; [|lia].
    match goal with Hw : within _ _ _ = true |- _ => apply within_spec in Hw end. lia.
  - match goal with Ha : headers_field _ = Ok _ |- _ => rename Ha into Hf end. unfold headers_field in Hf.
    repeat case_match; try done; inv_result; [|by split; [intros h ?%elem_of_nil|cbn; lia]].
    match goal with Hc : collect_results _ _ = Ok _ |- _ => apply schema_lengths in Hc as [L1 L2] end.
    match goal with Hw : within _ _ _ = true |- _ => apply within_spec in Hw end. split; [done|lia].
Qed.

Lemma normalize_url_gave text policy url : normalize_url text policy = Ok url ->
  parse_url text = Some url /\ (u_protocol url = "https:" \/ u_protocol url = "http:") /\ u_username url = "" /\
  u_password url = "" /\ u_hash url = "" /\ (u_protocol url = "http:" -> allowedHttpOrigin url policy = true).
Proof.
  unfold normalize_url. destruct (parse_url text) as [url0|] eqn:Hu; [|done]. intros H. inv_result. bools. unfold includes in *. bools.
  assert (u_protocol url0 = "https:" \/ u_protocol url0 = "http:") as Hp.
  { match goal with Hc : u_protocol url0 ∈ _ |- _ => apply elem_of_cons in Hc as [|[|?%elem_of_nil]%elem_of_cons]; auto; done end. }
  rewrite (url_small _ _ Hu Hp), url_same_host in *.
  repeat match goal with Hc : String.eqb _ _ = true |- _ => apply String.eqb_eq in Hc end.
  split; [done|]. split; [done|]. do 3 (split; [done|]). intros E.
  match goal with Hc : _ && negb _ = false |- _ => apply andb_false_iff in Hc as [Hc|Hc]; [apply String.eqb_neq in Hc; congruence|by apply negb_false_iff in Hc] end.
Qed.

(** A request that was parsed is what parsing it again gives. *)
Definition well_formed (r : HttpRequestArtifact) : Prop := exists input policy, parseHttpRequestArtifact input policy = Ok r.

Record normal_request (r : HttpRequestArtifact) : Prop := {
  nr_url : exists url, parse_url (hr_url r) = Some url /\ u_href url = hr_url r /\
    (u_protocol url = "https:" \/ u_protocol url = "http:") /\ u_username url = "" /\ u_password url = "" /\ u_hash url = "";
  nr_headers : headers_ok (hr_headers r) /\ js_sort by_name (hr_headers r) = hr_headers r;
  nr_purpose : forall p, hr_purpose r = Some p -> trim p = p /\ length_within 1 128 p = true;
  nr_mode : hr_mode r = Anonymous <-> hr_purpose r = None;
  nr_hops : (hr_maximumHops r <= 10)%nat;
  nr_lengths : lengths_ok (hr_headers r) /\ (length (hr_headers r) <= 64)%nat
}.

Lemma parsed_normal r : well_formed r -> normal_request r.
Proof.
  intros (input & policy & H). unfold parseHttpRequestArtifact in H. inv_result.
  match goal with Hs : requestSchema _ = Ok _ |- _ => destruct (schema_purpose _ _ Hs) as (P1 & P2 & P3 & P4 & P5) end.
  match goal with Hn : normalize_url _ _ = Ok _ |- _ => apply normalize_url_gave in Hn as (U1 & U2 & U3 & U4 & U5 & _) end.
  match goal with Hh : normalize_headers _ _ = Ok _ |- _ =>
    destruct (normalized_lengths _ _ _ Hh) as [N2 N3]; apply normalized_headers in Hh as [N1 _] end.
  constructor; cbn [hr_url hr_headers hr_purpose hr_mode hr_maximumHops]; [| | | |done|].
  - eexists. split; [by eapply url_stable|]. done.
  - split; [by apply headers_ok_sorted|]. apply sorted_again; [typeclasses eauto|]. apply js_sort_ordered. typeclasses eauto.
  - intros p. destruct (hr_purpose _) as [[|c p']|] eqn:E; cbn; [done| |done]. intros [= <-]. by apply P1.
  - rewrite P2. destruct (hr_purpose _) as [[|c p']|] eqn:E; cbn; [|done|done]. by destruct (P1 "" eq_refl).
  - split.
    + intros h Hh. apply N2; [done|]. by apply elem_of_js_sort in Hh.
    + rewrite length_js_sort. lia.
Qed.

Lemma truthy_normal r : (forall p, hr_purpose r = Some p -> trim p = p /\ length_within 1 128 p = true) ->
  truthy (hr_purpose r) = hr_purpose r.
Proof. intros Hp. destruct (hr_purpose r) as [[|c p]|] eqn:E; [|done|done]. by destruct (Hp _ eq_refl). Qed.

Lemma parse_again r policy r' : well_formed r -> parseHttpRequestArtifact (request_object r) policy = Ok r' -> r' = r.
Proof.
  intros [(url & Hu & Hhref & _) [Hh Hsort] Hp Hm _ _]%parsed_normal H. unfold parseHttpRequestArtifact in H. inv_result.
  match goal with Hs : requestSchema _ = Ok _ |- _ => apply schema_again in Hs as ->; [|intros p E; by apply Hp] end.
  match goal with Hn : normalize_url _ _ = Ok _ |- _ => apply normalize_url_gave in Hn as (U1 & _) end.
  match goal with Hn : normalize_headers _ _ = Ok _ |- _ => rewrite normalize_again in Hn; [injection Hn as <-|done|by intros h _ ?%elem_of_nil] end.
  rewrite Hsort. rewrite Hu in U1. injection U1 as <-. rewrite Hhref.
  rewrite truthy_normal by done. by destruct r.
Qed.

Lemma parse_reads input policy r : parseHttpRequestArtifact input policy = Ok r -> length_within 1 8192 (hr_url r) = true ->
  parseHttpRequestArtifact (request_object r) policy = Ok r.
Proof.
  intros H Hlen. destruct (parsed_normal r) as [(url & Hu & Hhref & Hprot & Huser & Hpass & Hhash) [Hh Hsort] Hp Hm Hhops [L1 L2]];
    [by eexists _, _|].
  assert (u_protocol url = "http:" -> allowedHttpOrigin url policy = true) as Hallowed.
  { unfold parseHttpRequestArtifact in H. inv_result. cbn [hr_url] in Hu.
    match goal with Hn : normalize_url _ _ = Ok _ |- _ => apply normalize_url_gave in Hn as (U1 & _ & _ & _ & _ & U6) end.
    apply url_stable in U1. rewrite U1 in Hu. by injection Hu as <-. }
  unfold parseHttpRequestArtifact. rewrite schema_reads by done. cbn [mbind result_bind].
  assert (normalize_url (hr_url r) policy = Ok url) as ->.
  { unfold normalize_url. rewrite Hu, Huser, Hpass, Hhash, (url_small _ _ Hu Hprot), url_same_host. cbn.
    destruct Hprot as [E|E]; rewrite E; [done|]. by rewrite (Hallowed E). }
  cbn [mbind result_bind]. rewrite normalize_again by (try done; by intros h _ ?%elem_of_nil). cbn [mbind result_bind].
  rewrite Hsort, Hhref, truthy_normal by done. by destruct r.
Qed.
End Requests.

(** * What the vault keeps

    The invariant of [Vault], how its states change, what a match says, and that nothing but
    the resolution for one use depends on a secret. *)

Abbreviation credential_of ref_ v := (map_get ref_ (credentials v)).
Abbreviation binding_of ref_ v := (map_get ref_ (bindings v)).

Section Vault.
Context {url_parser : UrlParser} {collation : Collation} `{!CollationLaws collation}.
Context (is_uuid : string -> bool) (sha256_hex : string -> string) (tenantId : string).

(** ** The invariant *)

(** What may be attached to a request: no field of the transport's own. *)
Definition rule_ok (rule : CredentialAttachmentRule) : Prop :=
  match rule with
  | AttachHeader name prefix_ =>
      to_lower name = name /\ is_http_token name = true /\ name ∉ FORBIDDEN_ATTACHMENT_HEADERS /\
      containsControlCharacter prefix_ = false
  | AttachCookie name | AttachQuery name => to_lower name = name /\ is_http_token name = true
  end.

Record vault_ok (v : VaultState) : Prop := {
  vo_credentials : map_ok (credentials v);
  vo_bindings : map_ok (bindings v);
  vo_keys : forall k b, binding_of k v = Some b -> bd_bindingRef b = k;
  vo_owner : forall k b, binding_of k v = Some b ->
    exists c, credential_of (bd_credentialRef b) v = Some c /\ sc_ownerSubjectId c = bd_ownerSubjectId b;
  vo_rule : forall k b, binding_of k v = Some b -> rule_ok (bd_attachment b);
  vo_secret : forall k c, credential_of k v = Some c ->
    1 <= sc_version c /\ sc_secret c <> "" /\ containsControlCharacter (sc_secret c) = false
}.

(** How a vault changes: owners stay, versions grow, and a version has one secret. *)
Record vault_later (v v' : VaultState) : Prop := {
  vl_credential : forall k c, credential_of k v = Some c -> exists c', credential_of k v' = Some c' /\
    sc_ownerSubjectId c' = sc_ownerSubjectId c /\ sc_label c' = sc_label c /\ sc_createdAt c' = sc_createdAt c /\
    sc_version c <= sc_version c' /\ (sc_version c' = sc_version c -> sc_secret c' = sc_secret c);
  vl_binding : forall k b, binding_of k v = Some b -> exists b', binding_of k v' = Some b' /\
    bd_ownerSubjectId b' = bd_ownerSubjectId b
}.

#[export] Instance vault_later_preorder : PreOrder vault_later.
Proof.
  split.
  - intros v. constructor; [intros k c H; exists c; repeat split; try done; lia|intros k b H; by exists b].
  - intros v1 v2 v3 [A1 A2] [B1 B2]. constructor.
    + intros k c H. destruct (A1 _ _ H) as (c2 & H2 & O2 & L2 & C2 & V2 & S2).
      destruct (B1 _ _ H2) as (c3 & H3 & O3 & L3 & C3 & V3 & S3). exists c3. split; [done|].
      do 3 (split; [congruence|]). split; [lia|]. intros E. rewrite S3, S2; [done|lia|lia].
    + intros k b H. destruct (A2 _ _ H) as (b2 & H2 & O2), (B2 _ _ H2) as (b3 & H3 & O3). exists b3. split; [done|congruence].
Qed.

(** ** Lookups *)

Lemma uuid_of_gave s t : uuid_of is_uuid s = Ok t -> t = s.
Proof. unfold uuid_of. case_match; [|done]. by intros [= ->]. Qed.

Lemma ownedCredential_gave v owner ref_ c : ownedCredential is_uuid v owner ref_ = Ok c ->
  credential_of ref_ v = Some c /\ sc_ownerSubjectId c = owner.
Proof.
  unfold ownedCredential. intros H. inv_result.
  repeat match goal with Hu : uuid_of _ _ = Ok _ |- _ => apply uuid_of_gave in Hu as -> end.
  destruct (credential_of ref_ v); [|done]. destruct (String.eqb_spec (sc_ownerSubjectId s) owner); [|done].
  by injection H as ->.
Qed.

Lemma ownedBinding_gave v owner ref_ b : ownedBinding is_uuid v owner ref_ = Ok b ->
  binding_of ref_ v = Some b /\ bd_ownerSubjectId b = owner.
Proof.
  unfold ownedBinding. intros H. inv_result.
  repeat match goal with Hu : uuid_of _ _ = Ok _ |- _ => apply uuid_of_gave in Hu as -> end.
  destruct (binding_of ref_ v); [|done]. destruct (String.eqb_spec (bd_ownerSubjectId c) owner); [|done].
  by injection H as ->.
Qed.

Lemma secretValue_gave s t : secretValue s = Ok t -> t = s /\ s <> "" /\ containsControlCharacter s = false.
Proof.
  unfold secretValue. intros H. inv_result. split; [done|]. split; [|done].
  match goal with Hc : _ || _ = false |- _ => apply orb_false_iff in Hc as [Hc _]; by apply String.eqb_neq in Hc end.
Qed.

(** ** Administration *)

(** A credential is set anew or changed. *)
Lemma set_credential_keeps k c v : vault_ok v -> 1 <= sc_version c -> sc_secret c <> "" ->
  containsControlCharacter (sc_secret c) = false ->
  (forall c0, credential_of k v = Some c0 -> sc_ownerSubjectId c = sc_ownerSubjectId c0 /\ sc_label c = sc_label c0 /\
     sc_createdAt c = sc_createdAt c0 /\ sc_version c0 <= sc_version c /\ (sc_version c = sc_version c0 -> sc_secret c = sc_secret c0)) ->
  vault_ok (set_credential k c v) /\ vault_later v (set_credential k c v).
Proof.
  intros [O1 O2 O3 O4 O5 O6] Hv Hs Hc Hold.
  assert (forall k', credential_of k' (set_credential k c v) = if decide (k' = k) then Some c else credential_of k' v) as Hget.
  { intros k'. cbn. destruct (decide (k' = k)) as [->|]; [apply map_get_set_eq|by apply map_get_set_ne]. }
  split.
  - constructor; [by apply map_ok_set|done|done| |done|].
    + intros k' b Hb. destruct (O4 _ _ Hb) as (c0 & H0 & E0). rewrite Hget. case_decide as E; [|by exists c0].
      exists c. split; [done|]. rewrite E in H0. destruct (Hold _ H0) as [-> _]. done.
    + intros k' c'. rewrite Hget. case_decide; [by intros [= <-]|apply O6].
  - constructor; [|intros k' b Hb; by exists b]. intros k' c' Hc'. rewrite Hget. case_decide as E.
    + rewrite E in Hc'. exists c. split; [done|by apply Hold].
    + exists c'. repeat split; try done; lia.
Qed.

Lemma setCredential_keeps owner label secret ref_ fresh now v m v' : vault_ok v ->
  setCredential is_uuid owner label secret ref_ fresh now v = Ok (m, v') -> vault_ok v' /\ vault_later v v'.
Proof.
  unfold setCredential. intros Hok H. inv_result.
  match goal with Hs : secretValue _ = Ok _ |- _ => apply secretValue_gave in Hs as (-> & H1 & H2) end.
  match goal with Hh : map_has _ _ = false |- _ => apply map_has_none in Hh; rename Hh into Hnone end.
  apply set_credential_keeps; try done. cbn. intros c0 H0. congruence.
Qed.

Lemma rotateCredential_keeps owner ref_ secret now v m v' : vault_ok v ->
  rotateCredential is_uuid owner ref_ secret now v = Ok (m, v') -> vault_ok v' /\ vault_later v v'.
Proof.
  unfold rotateCredential. intros Hok H. inv_result.
  match goal with Hs : secretValue _ = Ok _ |- _ => apply secretValue_gave in Hs as (-> & H1 & H2) end.
  match goal with Ho : ownedCredential _ _ _ _ = Ok _ |- _ => apply ownedCredential_gave in Ho as [Hc _] end.
  destruct (vo_secret _ Hok _ _ Hc) as [Hv _].
  apply set_credential_keeps; cbn; try done; [lia|]. intros c0 H0. rewrite Hc in H0. injection H0 as ->. repeat split; lia.
Qed.

Lemma revokeCredential_keeps owner ref_ now v m v' : vault_ok v ->
  revokeCredential is_uuid owner ref_ now v = Ok (m, v') -> vault_ok v' /\ vault_later v v'.
Proof.
  unfold revokeCredential. intros Hok H. inv_result.
  match goal with Ho : ownedCredential _ _ _ _ = Ok _ |- _ => apply ownedCredential_gave in Ho as [Hc _] end.
  destruct (vo_secret _ Hok _ _ Hc) as (Hv & H1 & H2).
  apply set_credential_keeps; cbn; try done. intros c0 H0. rewrite Hc in H0. injection H0 as ->. repeat split; lia.
Qed.

Lemma normalizeAttachment_gave a a' : normalizeAttachment a = Ok a' -> rule_ok a'.
Proof.
  destruct a as [name prefix_|name|name]; cbn [normalizeAttachment]; intros H; inv_result; bools; cbn;
    rewrite to_lower_idem; try done. unfold includes in *. bools. done.
Qed.

Lemma normalizeBinding_gave b b' : normalizeBinding is_uuid b = Ok b' -> rule_ok (bd_attachment b').
Proof.
  unfold normalizeBinding. intros H. inv_result. destruct (resolve_url _ _); [|done]. inv_result.
  by eapply normalizeAttachment_gave.
Qed.

Lemma set_binding_keeps k b v : vault_ok v -> bd_bindingRef b = k -> rule_ok (bd_attachment b) ->
  (exists c, credential_of (bd_credentialRef b) v = Some c /\ sc_ownerSubjectId c = bd_ownerSubjectId b) ->
  (forall b0, binding_of k v = Some b0 -> bd_ownerSubjectId b = bd_ownerSubjectId b0) ->
  vault_ok {| credentials := credentials v; bindings := map_set k b (bindings v) |} /\
  vault_later v {| credentials := credentials v; bindings := map_set k b (bindings v) |}.
Proof.
  intros [O1 O2 O3 O4 O5 O6] Hk Hrule Hc Hold.
  assert (forall k', map_get k' (map_set k b (bindings v)) = if decide (k' = k) then Some b else binding_of k' v) as Hget.
  { intros k'. destruct (decide (k' = k)) as [->|]; [apply map_get_set_eq|by apply map_get_set_ne]. }
  split.
  - constructor; cbn; [done|by apply map_ok_set| | | |done].
    + intros k' b'. rewrite Hget. case_decide; [intros [= <-]; by subst|apply O3].
    + intros k' b'. rewrite Hget. case_decide; [by intros [= <-]|apply O4].
    + intros k' b'. rewrite Hget. case_decide; [by intros [= <-]|apply O5].
  - constructor; cbn.
    + intros k' c' Hc'. exists c'. repeat split; try done; lia.
    + intros k' b' Hb'. rewrite Hget. case_decide as E; [|by exists b']. rewrite E in Hb'. exists b. split; [done|by apply Hold].
Qed.

Lemma putBinding_keeps input v m v' : vault_ok v -> putBinding is_uuid input v = Ok (m, v') -> vault_ok v' /\ vault_later v v'.
Proof.
  unfold putBinding. intros Hok H. inv_result.
  match goal with Hn : normalizeBinding _ _ = Ok _ |- _ => apply normalizeBinding_gave in Hn end.
  match goal with Ho : ownedCredential _ _ _ _ = Ok _ |- _ => apply ownedCredential_gave in Ho as [Hc Ho] end.
  apply set_binding_keeps; [done|done|done|by eexists|]. intros b0 Hb0.
  match goal with Hf : match _ with Some _ => _ | None => _ end = false |- _ => rewrite Hb0 in Hf; apply negb_false_iff, String.eqb_eq in Hf end.
  done.
Qed.

Lemma revokeBinding_keeps owner ref_ v m v' : vault_ok v -> revokeBinding is_uuid owner ref_ v = Ok (m, v') ->
  vault_ok v' /\ vault_later v v'.
Proof.
  unfold revokeBinding. intros Hok H. inv_result.
  match goal with Ho : ownedBinding _ _ _ _ = Ok _ |- _ => apply ownedBinding_gave in Ho as [Hb Ho] end.
  apply set_binding_keeps; cbn; [done|by apply (vo_keys _ Hok)|by eapply (vo_rule _ Hok)|by apply (vo_owner _ Hok _ _ Hb)|].
  intros b0 Hb0. congruence.
Qed.

(** ** Matching *)

Context `{!UrlLaws url_parser}.

(** The host is the one of the binding or, for a suffix, ends in a dot and the suffix; the
    path is the prefix, or what follows the prefix begins a new segment. *)
Definition host_within (matcher : HostMatcher) (hostname : string) : Prop :=
  match matcher with
  | ExactHost value => to_lower hostname = value
  | SuffixHost value => exists sub, to_lower hostname = sub +:+ "." +:+ value
  end.
Definition path_within (prefix_ pathname : string) : Prop :=
  prefix_ = "/" \/ pathname = prefix_ \/
  exists rest, pathname = prefix_ +:+ rest /\ ((exists p, prefix_ = p +:+ "/") \/ exists r, rest = "/" +:+ r).

(** The port of a URL: the one it names in decimal digits, or the default of its scheme. *)
Definition has_port (url : Url) (port : Z) : Prop :=
  (u_port url = "" /\ u_protocol url = "https:" /\ port = 443) \/
  (u_port url = "" /\ u_protocol url <> "https:" /\ port = 80) \/
  (u_port url <> "" /\ string_forall is_decimal_char (u_port url) = true /\
   port = foldl (fun n c => 10 * n + Z.of_nat (nat_of_ascii c - 48)) 0 (String.list_ascii_of_string (u_port url))).

(** What decides between bindings that cover a request: an exact host weighs a million, a
    suffix a thousand for each character, and a path one for each character. *)
Definition weight (b : CredentialBinding) : Z :=
  (match bd_host b with ExactHost _ => 1000000 | SuffixHost value => 1000 * Z.of_nat (String.length value) end) +
  Z.of_nat (String.length (bd_pathPrefix b)).

(** A binding covers a request of a session: all that is asked of it. *)
Record covers (v : VaultState) (request : HttpRequestArtifact) (session : VaultSessionContext) (b : CredentialBinding) : Prop := {
  cv_enabled : bd_enabled b = true;
  cv_owner : bd_ownerSubjectId b = vx_subjectId session;
  cv_credential : exists c, map_get (bd_credentialRef b) (credentials v) = Some c /\ sc_enabled c = true /\
    sc_ownerSubjectId c = vx_subjectId session;
  cv_placement : vx_executionEnvironment session ∈ bd_placements b;
  cv_method : hr_method request ∈ bd_methods b;
  cv_purpose : hr_purpose request = Some (bd_purpose b);
  cv_url : exists url, parse_url (hr_url request) = Some url /\
    ((u_protocol url = "https:" /\ Https ∈ bd_schemes b) \/ (u_protocol url = "http:" /\ Http ∈ bd_schemes b)) /\
    (exists port, has_port url port /\ port ∈ bd_ports b) /\
    host_within (bd_host b) (u_hostname url) /\ path_within (bd_pathPrefix b) (u_pathname url)
}.

Lemma prefix_spec p s : String.prefix p s = true <-> exists r, s = p +:+ r.
Proof.
  revert s. induction p as [|c p IH]; intros s; cbn.
  { split; [by exists s|by destruct s]. }
  destruct s as [|d s]; [by split; [|intros [r [=]]]|]. cbn. destruct (ascii_dec c d) as [->|Hne].
  - transitivity (exists r, s = p +:+ r); [exact (IH s)|].
    split; intros [r E]; exists r; [by rewrite E|by injection E].
  - split; [done|]. by intros [r [= -> _]].
Qed.

Lemma take_drop_string n s : string_take n s +:+ string_drop n s = s.
Proof. revert s. induction n as [|n IH]; intros [|c s]; cbn; [done..|]. by rewrite IH. Qed.

Lemma ends_with_char_spec c s : ends_with_char c s = true <-> exists p, s = p +:+ String c "".
Proof.
  unfold ends_with_char. split.
  - induction s as [|d s IH]; cbn [last_index_of]; [done|]. destruct (last_index_of c s) as [i|] eqn:E.
    + cbn. intros H. destruct IH as [p ->]; [done|]. by exists (String d p).
    + destruct (Ascii.eqb_spec c d) as [->|]; [|done]. destruct s; [by exists ""|done].
  - intros [p ->]. rewrite last_index_app by done. rewrite length_app_string. apply Nat.eqb_eq. cbn. lia.
Qed.

Lemma hostMatches_spec matcher hostname : hostMatches matcher hostname = true <-> host_within matcher hostname.
Proof.
  destruct matcher as [value|value]; cbn; [apply String.eqb_eq|]. set (s := to_lower hostname). split.
  - intros H. apply andb_true_iff in H as [_ H]. destruct (String.length s) as [|n] eqn:El; [done|].
    apply andb_true_iff in H as [_ H%String.eqb_eq]. eexists (string_take (n - String.length value) s).
    rewrite <- H. symmetry. apply take_drop_string.
  - intros [sub ->]. rewrite length_app_string. cbn [String.length].
    apply andb_true_iff. split.
    + apply negb_true_iff, String.eqb_neq. intros E. apply (f_equal String.length) in E.
      rewrite length_app_string in E. cbn in E. lia.
    + rewrite Nat.add_succ_r. apply andb_true_iff. split; [apply Nat.leb_le; lia|].
      replace (S (String.length sub + String.length value) - S (String.length value))%nat with (String.length sub) by lia.
      rewrite drop_app_string. apply String.eqb_refl.
Qed.

Lemma pathMatches_spec prefix_ pathname : pathMatches prefix_ pathname = true <-> path_within prefix_ pathname.
Proof.
  unfold pathMatches, path_within, starts_with. destruct (String.eqb_spec prefix_ "/") as [|Hne]; [tauto|].
  destruct (ends_with_char "/" prefix_) eqn:E.
  - apply ends_with_char_spec in E. rewrite prefix_spec. split.
    + intros [r ->]. right. right. exists r. split; [done|]. by left.
    + intros [?|[->|(r & -> & _)]]; [done|exists ""; by rewrite string_app_nil_r|by exists r].
  - rewrite orb_true_iff, String.eqb_eq, prefix_spec. split.
    + intros [->|[r ->]]; [by right; left|]. right. right. exists ("/" +:+ r). rewrite string_app_assoc.
      split; [done|]. right. by exists r.
    + intros [?|[->|(r & -> & [Hp|[q ->]])]]; [done|by left| |].
      * apply ends_with_char_spec in Hp. by rewrite Hp in E.
      * right. exists q. by rewrite string_app_assoc.
Qed.

Lemma scheme_spec url schemes :
  match scheme_of url with Some scheme => includes schemes scheme | None => false end = true <->
  (u_protocol url = "https:" /\ Https ∈ schemes) \/ (u_protocol url = "http:" /\ Http ∈ schemes).
Proof.
  unfold scheme_of, includes. destruct (String.eqb_spec (u_protocol url) "https:") as [->|Hs].
  { rewrite bool_decide_eq_true. split; [by left|]. by intros [[_ ?]|[? _]]. }
  destruct (String.eqb_spec (u_protocol url) "http:") as [->|Hn]; [rewrite bool_decide_eq_true|]; naive_solver.
Qed.

Lemma port_spec url ports :
  match url_port url with Some port => includes ports port | None => false end = true <->
  exists port, has_port url port /\ port ∈ ports.
Proof.
  unfold url_port, truthy, has_port, includes. destruct (u_port url) as [|c rest] eqn:Hp.
  - rewrite bool_decide_eq_true. destruct (String.eqb_spec (u_protocol url) "https:"); naive_solver.
  - set (text := String c rest). destruct (string_forall is_decimal_char text) eqn:Hd.
    + rewrite bool_decide_eq_true. split.
      * intros Hin. eexists. split; [|exact Hin]. right. right. by split.
      * intros (port & [[? _]|[[? _]|(_ & _ & ->)]] & Hin); done.
    + split; [done|]. intros (port & [[? _]|[[? _]|(_ & Ht & _)]] & _); [done..|]. fold text in Ht. congruence.
Qed.

Lemma specificity_weight b : specificity b = weight b.
Proof. unfold specificity, weight. destruct (bd_host b); lia. Qed.

Lemma applies_covers v request url session b : parse_url (hr_url request) = Some url ->
  applies v request url session b = true <-> covers v request session b.
Proof.
  intros Hu. unfold applies. split.
  - intros H. destruct (map_get (bd_credentialRef b) (credentials v)) as [c|] eqn:Hc; [|done].
    repeat (apply andb_true_iff in H as [H ?]). unfold includes in *. bools.
    repeat match goal with He : String.eqb _ _ = true |- _ => apply String.eqb_eq in He end.
    constructor; try done; [by exists c|]. exists url. split; [done|].
    split; [by apply scheme_spec|]. split; [by apply port_spec|]. by rewrite <- hostMatches_spec, <- pathMatches_spec.
  - intros [C1 C2 (c & C3 & C4 & C5) C6 C7 C8 (url' & Hu' & S%scheme_spec & P%port_spec & C9%hostMatches_spec & C10%pathMatches_spec)].
    rewrite Hu in Hu'. injection Hu' as <-. rewrite C1, C3, C4, C2, C5, S, P, C9, C10. unfold includes.
    rewrite !String.eqb_refl, !bool_decide_true by done. done.
Qed.

Lemma reparsed_gave r r' : well_formed r -> reparsed r = Ok r' -> r' = r.
Proof. unfold reparsed. intros Hr H. inv_result. by eapply parse_again. Qed.

#[local] Instance by_specificity_ordering : Ordering by_specificity.
Proof.
  apply ordering_lex; [apply (ordering_down specificity)|]. apply (ordering_on bd_bindingRef). split; [apply locale_antisym|apply locale_trans].
Qed.

(** The binding of a match covers the request, and is the most specific one that does. *)
Lemma match_gave request session v rb ref_ version : vault_ok v -> well_formed request ->
  match_ is_uuid tenantId request session v = Ok (Matched rb ref_ version) ->
  exists b, binding_of (bd_bindingRef b) v = Some b /\ rb = redactedBinding b /\ ref_ = bd_credentialRef b /\
    covers v request session b /\ vx_tenantId session = tenantId /\
    forall b', binding_of (bd_bindingRef b') v = Some b' -> covers v request session b' -> b' <> b ->
      weight b' < weight b.
Proof.
  intros Hok Hr H. unfold match_ in H. inv_result.
  match goal with Hp : reparsed _ = Ok _ |- _ => apply reparsed_gave in Hp as ->; [|done] end.
  match goal with Ha : assertSessionContext _ _ _ = Ok _ |- _ => unfold assertSessionContext in Ha end. inv_result.
  repeat match goal with Hu : uuid_of _ _ = Ok _ |- _ => apply uuid_of_gave in Hu as -> end. bools.
  match goal with He : String.eqb _ tenantId = true |- _ => apply String.eqb_eq in He; rename He into Htenant end.
  match goal with Hm : matchingBindings _ _ _ = Ok ?l |- _ => rename Hm into Hmatch, l into candidates end.
  unfold matchingBindings in Hmatch. case_bool_decide; [by injection Hmatch as <-|].
  destruct (parse_url (hr_url request)) as [url|] eqn:Hu; [|done].
  assert (forall b, b ∈ candidates <-> covers v request session b /\ binding_of (bd_bindingRef b) v = Some b) as Hin.
  { intros b. injection Hmatch as <-. rewrite elem_of_js_sort, list_elem_of_filter, (applies_covers _ _ _ _ _ Hu).
    split; intros [Hc Hb]; (split; [done|]).
    - apply list_elem_of_fmap in Hb as ([k b'] & -> & Hb). apply map_get_ok in Hb; [|apply (vo_bindings _ Hok)].
      cbn. by rewrite (vo_keys _ Hok _ _ Hb).
    - apply map_get_elem in Hb. apply list_elem_of_fmap. by exists (bd_bindingRef b, b). }
  assert (StronglySorted (fun x y => by_specificity x y <= 0) candidates) as Hsorted by (injection Hmatch as <-; apply (js_sort_ordered by_specificity)).
  unfold select_best in H. destruct candidates as [|first rest] eqn:Hcand; [done|].
  destruct (base.filter _ (first :: rest)) as [|selected [|]] eqn:Hbest; [done| |done]. inv_result.
  assert (selected ∈ base.filter (fun b => specificity b = specificity first) (first :: rest)) as Hsel by (rewrite Hbest; left).
  apply list_elem_of_filter in Hsel as [Hspec Hsel]. apply Hin in Hsel as [Hc Hb].
  match goal with Hi : Matched _ _ _ = Matched _ _ _ |- _ => injection Hi as <- <- _ end || idtac.
  exists selected. do 5 (split; [done|]). intros b' Hb' Hc' Hne. rewrite <- !specificity_weight.
  assert (b' ∈ first :: rest) as Hin' by (by apply Hin).
  assert (specificity b' <= specificity first) as Hle.
  { apply StronglySorted_inv in Hsorted as [_ Hall]. apply elem_of_cons in Hin' as [->|Hrest]; [lia|].
    rewrite Forall_forall in Hall. specialize (Hall _ Hrest). unfold by_specificity, or_else in Hall.
    destruct (Z.eqb_spec (specificity b' - specificity first) 0); lia. }
  destruct (Z.eq_dec (specificity b') (specificity first)) as [E|]; [|lia].
  assert (b' ∈ [selected]) as Hs by (rewrite <- Hbest; by apply list_elem_of_filter).
  by apply list_elem_of_singleton in Hs.
Qed.

(** ** What can be seen of the vault *)

(** The vault without its secrets. *)
Definition blank (c : StoredCredential) : StoredCredential :=
  {| sc_label := sc_label c; sc_ownerSubjectId := sc_ownerSubjectId c; sc_secret := ""; sc_version := sc_version c;
     sc_enabled := sc_enabled c; sc_createdAt := sc_createdAt c; sc_updatedAt := sc_updatedAt c |}.
Definition public (v : VaultState) : VaultState :=
  {| credentials := (fun e => (e.1, blank e.2)) <$> credentials v; bindings := bindings v |}.

(** What an operation shows: what it returns, and the vault after it, without secrets. *)
Definition seen {A} (f : VaultState -> result (A * VaultState)) (v : VaultState) : result (A * VaultState) :=
  match f v with Ok (a, v') => Ok (a, public v') | Throw message => Throw message end.
Definition without_secret (a : RequestScopedCredentialAttachment) : RequestScopedCredentialAttachment :=
  {| at_bindingRef := at_bindingRef a; at_credentialRef := at_credentialRef a; at_secretVersion := at_secretVersion a;
     at_requestDigest := at_requestDigest a; at_rule := at_rule a; at_secret := "" |}.
Definition seen_use (m : result RequestScopedCredentialAttachment) : result RequestScopedCredentialAttachment :=
  match m with Ok a => Ok (without_secret a) | Throw message => Throw message end.

Lemma blank_same c c' : blank c = blank c' ->
  sc_label c = sc_label c' /\ sc_ownerSubjectId c = sc_ownerSubjectId c' /\ sc_version c = sc_version c' /\
  sc_enabled c = sc_enabled c' /\ sc_createdAt c = sc_createdAt c' /\
  forall k, credentialMetadata k c = credentialMetadata k c'.
Proof. destruct c, c'. unfold blank, credentialMetadata. cbn. intros [= -> -> -> -> -> ->]. done. Qed.

Section Public.
Context (v w : VaultState) (Hpublic : public v = public w).

Lemma public_bindings : bindings v = bindings w.
Proof. by injection Hpublic. Qed.

Lemma public_credentials : (fun e => (e.1, blank e.2)) <$> credentials v = (fun e => (e.1, blank e.2)) <$> credentials w.
Proof. by injection Hpublic. Qed.

Lemma map_get_blank k (m : list (string * StoredCredential)) :
  map_get k ((fun e => (e.1, blank e.2)) <$> m) = blank <$> map_get k m.
Proof. induction m as [|[k' c] m IH]; cbn; [done|]. by case_decide. Qed.
Lemma map_set_blank k c (m : list (string * StoredCredential)) :
  (fun e => (e.1, blank e.2)) <$> map_set k c m = map_set k (blank c) ((fun e => (e.1, blank e.2)) <$> m).
Proof. induction m as [|[k' c'] m IH]; cbn; [done|]. case_decide; [done|]. cbn. by rewrite <- IH. Qed.

Lemma public_credential k :
  match credential_of k v, credential_of k w with Some c, Some c' => blank c = blank c' | None, None => True | _, _ => False end.
Proof.
  assert (blank <$> credential_of k v = blank <$> credential_of k w) as H.
  { injection Hpublic as Hc _. by rewrite <- !map_get_blank, Hc. }
  destruct (credential_of k v), (credential_of k w); cbn [fmap option_fmap option_map] in H; [congruence|done..].
Qed.

Lemma public_set k c c' : blank c = blank c' -> public (set_credential k c v) = public (set_credential k c' w).
Proof.
  intros Hc. injection Hpublic as H1 H2. unfold public, set_credential. cbn [credentials bindings].
  by rewrite !map_set_blank, H1, H2, Hc.
Qed.

(** A credential of the one is a credential of the other, but for the secret. *)
Lemma public_owned owner ref_ :
  match ownedCredential is_uuid v owner ref_, ownedCredential is_uuid w owner ref_ with
  | Ok c, Ok c' => blank c = blank c'
  | Throw message, Throw message' => message = message'
  | _, _ => False
  end.
Proof.
  unfold ownedCredential, uuid_of. destruct (is_uuid owner); [|done]. destruct (is_uuid ref_); [|done].
  cbn [mbind result_bind]. pose proof (public_credential ref_) as H.
  destruct (credential_of ref_ v) as [c|], (credential_of ref_ w) as [c'|]; try done.
  destruct (blank_same _ _ H) as (_ & -> & _). by destruct (String.eqb _ owner).
Qed.

Lemma public_applies request url session b : applies v request url session b = applies w request url session b.
Proof.
  unfold applies. pose proof (public_credential (bd_credentialRef b)) as H.
  destruct (credential_of _ v) as [c|], (credential_of _ w) as [c'|]; try done.
  by destruct (blank_same _ _ H) as (_ & -> & _ & -> & _).
Qed.

Lemma public_match request session : match_ is_uuid tenantId request session v = match_ is_uuid tenantId request session w.
Proof.
  unfold match_. destruct (assertSessionContext _ _ _); [|done]. cbn [mbind result_bind].
  destruct (reparsed request) as [normalized|]; [|done]. cbn [mbind result_bind].
  assert (matchingBindings v normalized session = matchingBindings w normalized session) as ->.
  { unfold matchingBindings. case_bool_decide; [done|]. destruct (parse_url _) as [url|]; [|done]. f_equal. f_equal.
    rewrite public_bindings. apply list_filter_iff. intros b. by rewrite public_applies. }
  destruct (matchingBindings w normalized session) as [candidates|]; [|done]. cbn [mbind result_bind].
  unfold select_best. destruct candidates as [|first rest]; [done|].
  destruct (base.filter _ _) as [|selected [|]]; [done| |done].
  pose proof (public_owned (vx_subjectId session) (bd_credentialRef selected)) as H.
  destruct (ownedCredential _ v _ _), (ownedCredential _ w _ _); try done; cbn [mbind result_bind]; [|by rewrite H].
  by destruct (blank_same _ _ H) as (_ & _ & -> & _).
Qed.

Lemma public_metadata owner : metadata is_uuid owner v = metadata is_uuid owner w.
Proof.
  unfold metadata, uuid_of. destruct (is_uuid owner); [|done]. cbn [mbind result_bind]. rewrite public_bindings. f_equal. f_equal. f_equal.
  injection Hpublic as H _. revert H. generalize (credentials v) (credentials w). intros l.
  induction l as [|[k c] l IH]; intros [|[k' c'] l']; try done. rewrite !fmap_cons. cbn [fst snd]. intros E.
  assert (k = k') as <- by congruence. assert (blank c = blank c') as Ec by congruence.
  assert ((fun e : string * StoredCredential => (e.1, blank e.2)) <$> l = (fun e => (e.1, blank e.2)) <$> l') as H by congruence.
  apply IH in H. rewrite !filter_cons. cbn [snd].
  destruct (blank_same c c' Ec) as (_ & -> & _ & _ & _ & Hm).
  case_decide; [|done]. rewrite !fmap_cons, H. cbn. by rewrite Hm.
Qed.

Lemma secrets_alike s s' : is_ok (secretValue s) = is_ok (secretValue s') ->
  match secretValue s, secretValue s' with
  | Ok _, Ok _ => True
  | Throw message, Throw message' => message = message'
  | _, _ => False
  end.
Proof.
  assert (forall t m, secretValue t = Throw m -> m = "VAULT_SECRET_INVALID") as H.
  { intros t m. unfold secretValue. destruct (_ || _); [by intros [= <-]|]. destruct (containsControlCharacter t); [by intros [= <-]|done]. }
  intros E. destruct (secretValue s) eqn:E1, (secretValue s') eqn:E2; try done. by rewrite (H _ _ E1), (H _ _ E2).
Qed.

Lemma public_setCredential owner label secret secret' ref_ fresh now : is_ok (secretValue secret) = is_ok (secretValue secret') ->
  seen (setCredential is_uuid owner label secret ref_ fresh now) v = seen (setCredential is_uuid owner label secret' ref_ fresh now) w.
Proof.
  intros Hs%secrets_alike. unfold seen, setCredential, uuid_of. destruct (is_uuid owner); [|done]. cbn [mbind result_bind].
  destruct (is_uuid (coalesce_to ref_ fresh)); [|done]. cbn [mbind result_bind]. set (k := coalesce_to ref_ fresh).
  assert (map_has k (credentials v) = map_has k (credentials w)) as ->.
  { pose proof (public_credential k) as H. unfold map_has. apply bool_decide_ext.
    destruct (credential_of k v), (credential_of k w); try done; split; intros _; by eexists. }
  destruct (map_has k (credentials w)); [done|]. cbn [throw_if mbind result_bind].
  destruct (label_of label) as [l|]; [|done]. cbn [mbind result_bind].
  destruct (secretValue secret), (secretValue secret'); try done; cbn [mbind result_bind]; [|by rewrite Hs].
  f_equal. f_equal. by apply public_set.
Qed.

Lemma public_rotateCredential owner ref_ secret secret' now : is_ok (secretValue secret) = is_ok (secretValue secret') ->
  seen (rotateCredential is_uuid owner ref_ secret now) v = seen (rotateCredential is_uuid owner ref_ secret' now) w.
Proof.
  intros Hs%secrets_alike. unfold seen, rotateCredential. pose proof (public_owned owner ref_) as H.
  destruct (ownedCredential _ v _ _) as [c|], (ownedCredential _ w _ _) as [c'|]; try done; cbn [mbind result_bind]; [|by rewrite H].
  destruct (secretValue secret), (secretValue secret'); try done; cbn [mbind result_bind]; [|by rewrite Hs].
  destruct (blank_same _ _ H) as (-> & -> & -> & _ & -> & _). f_equal. f_equal. by apply public_set.
Qed.

Lemma public_revokeCredential owner ref_ now :
  seen (revokeCredential is_uuid owner ref_ now) v = seen (revokeCredential is_uuid owner ref_ now) w.
Proof.
  unfold seen, revokeCredential. pose proof (public_owned owner ref_) as H.
  destruct (ownedCredential _ v _ _) as [c|], (ownedCredential _ w _ _) as [c'|]; try done; cbn [mbind result_bind]; [|by rewrite H].
  destruct (blank_same _ _ H) as (-> & -> & -> & _ & -> & _). f_equal. f_equal. by apply public_set.
Qed.

Lemma public_putBinding input : seen (putBinding is_uuid input) v = seen (putBinding is_uuid input) w.
Proof.
  unfold seen, putBinding. destruct (normalizeBinding is_uuid input) as [b|]; [|done]. cbn [mbind result_bind].
  pose proof (public_owned (bd_ownerSubjectId b) (bd_credentialRef b)) as H.
  destruct (ownedCredential _ v _ _) as [c|], (ownedCredential _ w _ _) as [c'|]; try done; cbn [mbind result_bind]; [|by rewrite H].
  rewrite public_bindings. destruct (match map_get _ _ with Some _ => _ | None => _ end); [done|].
  cbn [throw_if mbind result_bind]. f_equal. f_equal. unfold public, set_binding. cbn [credentials bindings].
  by rewrite public_credentials, public_bindings.
Qed.

Lemma public_revokeBinding owner ref_ : seen (revokeBinding is_uuid owner ref_) v = seen (revokeBinding is_uuid owner ref_) w.
Proof.
  unfold seen, revokeBinding, ownedBinding. rewrite public_bindings. destruct (uuid_of is_uuid owner); [|done]. cbn [mbind result_bind].
  destruct (uuid_of is_uuid ref_); [|done]. cbn [mbind result_bind]. destruct (binding_of _ w) as [b|]; [|done].
  destruct (String.eqb _ _); [|done]. cbn [mbind result_bind]. f_equal. f_equal.
  unfold public. cbn [credentials bindings]. by rewrite public_credentials.
Qed.

Lemma public_resolve bindingRef session matched :
  seen_use (resolve_secret is_uuid bindingRef session matched v) = seen_use (resolve_secret is_uuid bindingRef session matched w).
Proof.
  unfold resolve_secret. destruct matched as [digest [| |rb ref_ version]]; [done|done|].
  destruct (negb _); [done|]. cbn [throw_if mbind result_bind]. pose proof (public_owned (vx_subjectId session) ref_) as H.
  destruct (ownedCredential _ v _ _) as [c|], (ownedCredential _ w _ _) as [c'|]; try done; cbn [mbind result_bind]; [|by rewrite H].
  destruct (blank_same _ _ H) as (_ & _ & Hv & -> & _). destruct (sc_enabled c'); [|done]. cbn. unfold without_secret. cbn. by rewrite Hv.
Qed.
End Public.
End Vault.
