(* ===== verification/HttpSystem.v ===== *)
(** * Web resources and secrets

    The theorems on [HttpContracts], [Vault] and [Acquisition], for every interleaving of
    acquisitions with the administration of the vault and whatever the index, the policy and
    the network answer; how acquisitions end, and what they fetch. *)

From S2P Require Import Prelude Contracts Json Programs Threads Tables HttpContracts Vault Acquisition HttpFacts.
From stdpp Require Import relations.

Open Scope stdpp_scope.
Open Scope js_scope.
Local Open Scope Z_scope.

Section System.
Context {url_parser : UrlParser} {collation : Collation} `{!UrlLaws url_parser} `{!CollationLaws collation}.
Context (is_uuid : string -> bool) (sha256_hex : string -> string) (tenantId : string).

(** ** The invariant *)

(** The states the vault has been in, and is in. *)
Definition states (w : HttpWorld) : list VaultState := hw_past w ++ [hw_vault w].

(** A secret may be sent with a request that was allowed when the vault was in state number [lo]
    and is sent in state number [hi]: in a state [i] between them its binding covered the request
    and was the heaviest one that did, and in a state [j], no earlier, its credential was in
    force. *)
Record entitled (w : HttpWorld) (lo hi : nat) (request : HttpRequestArtifact) (context : HttpAcquisitionContext)
    (a : RequestScopedCredentialAttachment) : Prop := {
  en_digest : at_requestDigest a = httpRequestDigest sha256_hex request;
  en_tenant : vx_tenantId (ax_session context) = tenantId;
  en_vault : exists i j v b v' c, (lo <= i)%nat /\ (i <= j)%nat /\ (j <= hi)%nat /\
    states w !! i = Some v /\ binding_of (at_bindingRef a) v = Some b /\
    covers v request (ax_session context) b /\ bd_attachment b = at_rule a /\ bd_credentialRef b = at_credentialRef a /\
    (forall b', binding_of (bd_bindingRef b') v = Some b' -> covers v request (ax_session context) b' -> b' <> b ->
      weight b' < weight b) /\
    states w !! j = Some v' /\ credential_of (at_credentialRef a) v' = Some c /\ sc_enabled c = true /\
    sc_ownerSubjectId c = vx_subjectId (ax_session context) /\ sc_version c = at_secretVersion a /\ sc_secret c = at_secret a;
  en_rule : rule_ok (at_rule a)
}.

(** Question number [n] was [q], asked in state number [k] of the vault. *)
Definition was_asked (w : HttpWorld) (n : nat) (q : HttpQuestion) (k : nat) : Prop :=
  hw_asked w !! n = Some q /\ hw_marks w !! n = Some k /\ (k <= length (hw_past w))%nat.

(** What justifies that the network is asked. *)
Definition justified (w : HttpWorld) (m hi : nat) (request : HttpRequestArtifact)
    (credential : option RequestScopedCredentialAttachment) (context : HttpAcquisitionContext) : Prop :=
  exists n lo, (n < m)%nat /\ (lo <= hi)%nat /\ was_asked w n (AskedEgress request context true) lo /\
    forall a, credential = Some a -> entitled w lo hi request context a.

Record world_ok (w : HttpWorld) : Prop := {
  wo_vaults : forall v, v ∈ states w -> vault_ok v;
  wo_history : StronglySorted vault_later (states w);
  wo_marks : length (hw_marks w) = length (hw_asked w);
  wo_bound : Forall (fun k => (k <= length (hw_past w))%nat) (hw_marks w);
  wo_sent : forall m hi request credential conditional context,
    was_asked w m (AskedNetwork request credential conditional context) hi -> justified w m hi request credential context
}.

Record world_later (w w' : HttpWorld) : Prop := {
  wl_states : exists more, states w' = states w ++ more;
  wl_asked : exists more, hw_asked w' = hw_asked w ++ more;
  wl_marks : exists more, hw_marks w' = hw_marks w ++ more
}.

#[local] Instance world_later_preorder : PreOrder world_later.
Proof.
  split.
  - intros w. split; exists []; by rewrite app_nil_r.
  - intros w1 w2 w3 [[m1 E1] [a1 F1] [n1 G1]] [[m2 E2] [a2 F2] [n2 G2]]. split.
    + exists (m1 ++ m2). by rewrite E2, E1, app_assoc.
    + exists (a1 ++ a2). by rewrite F2, F1, app_assoc.
    + exists (n1 ++ n2). by rewrite G2, G1, app_assoc.
Qed.

Lemma past_later w w' : world_later w w' -> (length (hw_past w) <= length (hw_past w'))%nat.
Proof.
  intros [[m E] _ _]. apply (f_equal length) in E. unfold states in E. rewrite !length_app in E. cbn in E. lia.
Qed.
Lemma state_later w w' i v : world_later w w' -> states w !! i = Some v -> states w' !! i = Some v.
Proof. intros [[m ->] _ _] Hv. by apply lookup_app_l_Some. Qed.
Lemma was_asked_later w w' n q k : world_later w w' -> was_asked w n q k -> was_asked w' n q k.
Proof.
  intros Hl (H1 & H2 & H3). pose proof (past_later _ _ Hl). destruct Hl as [_ [a E] [m F]].
  split; [rewrite E; by apply lookup_app_l_Some|]. split; [rewrite F; by apply lookup_app_l_Some|lia].
Qed.

Lemma entitled_later w w' lo hi hi' request context a : world_later w w' -> (hi <= hi')%nat ->
  entitled w lo hi request context a -> entitled w' lo hi' request context a.
Proof.
  intros Hl Hle [E1 E2 (i & j & v & b & v' & c & L1 & L2 & L3 & S1 & B1 & B2 & B3 & B4 & B5 & S2 & C1 & C2 & C3 & C4 & C5) E5].
  constructor; [done|done| |done]. exists i, j, v, b, v', c. split_and!; first [done|lia|by eapply state_later].
Qed.

Lemma justified_later w w' m hi request credential context : world_later w w' ->
  justified w m hi request credential context -> justified w' m hi request credential context.
Proof.
  intros Hl (n & lo & Hn & Hle & Hasked & Ha). exists n, lo. split_and!; [done|done|by eapply was_asked_later|].
  intros a Hc. by apply (entitled_later w w' lo hi hi), Ha.
Qed.

Lemma state_now w : states w !! length (hw_past w) = Some (hw_vault w).
Proof. unfold states. by apply list_lookup_middle. Qed.
Lemma vault_now w : hw_vault w ∈ states w.
Proof. by eapply list_elem_of_lookup_2, state_now. Qed.

(** ** One step *)

Abbreviation calm i p := (ends (E := string) http_admissible (fun _ => world_ok) world_later (fun _ => world_later) i
  (fun _ _ => True) (fun _ _ => True) p).
Abbreviation ends_ i Q p := (ends (E := string) http_admissible (fun _ => world_ok) world_later (fun _ => world_later) i
  Q (fun _ _ => True) p).

Lemma vault_becomes_ok v w : world_ok w -> vault_ok v -> vault_later (hw_vault w) v ->
  world_ok (vault_becomes v w) /\ world_later w (vault_becomes v w).
Proof.
  intros [O1 O2 O3 O5 O4] Hv Hl. assert (states (vault_becomes v w) = states w ++ [v]) as E by done.
  assert (world_later w (vault_becomes v w)) as Hlater
    by (split; [by exists [v]|exists []; by rewrite app_nil_r|exists []; by rewrite app_nil_r]).
  split; [|done]. constructor; [| |done| |].
  - intros u. rewrite E. intros [Hu|Hu]%elem_of_app; [by apply O1|]. by apply list_elem_of_singleton in Hu as ->.
  - rewrite E. apply StronglySorted_app_2; [|done|repeat constructor]. intros u x Hu ->%list_elem_of_singleton.
    unfold states in *. apply elem_of_app in Hu as [Hu|Hu]; [|by apply list_elem_of_singleton in Hu as ->].
    etransitivity; [|exact Hl]. eapply (StronglySorted_app_1_elem_of _ (hw_past w) [hw_vault w]); [done|done|by left].
  - eapply Forall_impl; [exact O5|]. cbn. intros k. rewrite length_app. lia.
  - intros m hi request credential conditional context (H1 & H2 & H3). eapply justified_later; [exact Hlater|].
    eapply O4. split; [exact H1|]. split; [exact H2|]. rewrite Forall_forall in O5.
    by eapply O5, list_elem_of_lookup_2.
Qed.

(** A question is written down; one to the network needs what justifies it. *)
Lemma asks_ok q w : world_ok w ->
  (forall request credential conditional context, q = AskedNetwork request credential conditional context ->
     justified w (length (hw_asked w)) (length (hw_past w)) request credential context) ->
  world_ok (asks q w) /\ world_later w (asks q w).
Proof.
  intros [O1 O2 O3 O5 O4] Hq.
  assert (world_later w (asks q w)) as Hlater by (split; [exists []; by rewrite app_nil_r|by exists [q]|by eexists]).
  split; [|done]. constructor; [done|done|cbn; rewrite !length_app; cbn; lia| |].
  { apply Forall_app. split; [exact O5|by repeat constructor]. }
  intros m hi request credential conditional context (H1 & H2 & H3). eapply justified_later; [exact Hlater|].
  cbn in H1, H2, H3. apply lookup_snoc_Some in H1 as [[Hm H1]|[-> ->]].
  - rewrite lookup_app_l in H2 by lia. by eapply O4.
  - rewrite <- O3, list_lookup_middle in H2 by done. injection H2 as <-. by apply (Hq request credential conditional context).
Qed.

Lemma asked_now q w : world_ok w -> was_asked (asks q w) (length (hw_asked w)) q (length (hw_past w)).
Proof.
  intros [_ _ O3 _ _]. split; [by apply list_lookup_middle|]. split; [|done]. cbn. rewrite <- O3. by apply list_lookup_middle.
Qed.

(** *** The steps of a program *)

Lemma yields_later i w w' : world_later w w' -> yields world_later (fun _ => world_later) i w w'.
Proof. intros H. split; [done|]. intros j _. exact H. Qed.

Lemma ends_ask {A} i q (answer : HttpEnv -> outcome string A) (Q : A -> HttpWorld -> Prop) w0 :
  (forall env w, world_ok w -> world_later w0 w -> forall request credential conditional context,
     q env = AskedNetwork request credential conditional context ->
     justified w (length (hw_asked w)) (length (hw_past w)) request credential context) ->
  (forall env w a, answer env = Gave a -> world_ok w -> Q a (asks (q env) w)) ->
  ends_ i Q (ask_world q answer) w0.
Proof.
  intros Hq HQ. cbn. intros time env w _ Hok Hl. destruct (asks_ok (q env) w Hok) as [H1 H2]; [by apply Hq|].
  split; [done|]. split; [by apply yields_later|]. destruct (answer env) as [a|e] eqn:E; cbn; [by apply HQ|done].
Qed.

Lemma ends_on_vault {A} i (f : VaultState -> result A) (Q : A -> HttpWorld -> Prop) w0 :
  (forall w a, world_ok w -> world_later w0 w -> f (hw_vault w) = Ok a -> Q a w) -> ends_ i Q (step (on_vault f)) w0.
Proof.
  intros HQ. apply ends_step; [typeclasses eauto..|]. intros time env w _ Hok Hl. unfold on_vault.
  destruct (f (hw_vault w)) as [a|m] eqn:E; [|done]. split; [done|]. split; [apply yields_later; reflexivity|by apply HQ].
Qed.

Lemma administer_calm {A} i (f : HttpEnv -> VaultState -> result (A * VaultState)) w0 :
  (forall env v a v', vault_ok v -> f env v = Ok (a, v') -> vault_ok v' /\ vault_later v v') ->
  calm i (step (administer f)) w0.
Proof.
  intros Hf. apply ends_step; [typeclasses eauto..|]. intros time env w _ Hok Hl. unfold administer.
  destruct (f env (hw_vault w)) as [[a v]|m] eqn:E; [|done].
  destruct (Hf _ _ _ _ (wo_vaults _ Hok _ (vault_now w)) E) as [H1 H2].
  destruct (vault_becomes_ok v w Hok H1 H2). split; [done|]. split; [by apply yields_later|done].
Qed.

Lemma ends_lift {A} i (m : result A) (Q : A -> HttpWorld -> Prop) w : (forall a, m = Ok a -> Q a w) -> ends_ i Q (lift m) w.
Proof. intros HQ. destruct m as [a|e]; [|done]. by apply HQ. Qed.

Lemma ends_now i (Q : string -> HttpWorld -> Prop) w0 : (forall now w, Q now w) -> ends_ i Q (step (ask he_now)) w0.
Proof.
  intros HQ. apply ends_step; [typeclasses eauto..|]. intros time env w _ Hok Hl. cbn. split; [done|].
  split; [apply yields_later; reflexivity|done].
Qed.

(** ** Acquisitions *)

Lemma credentialMatch_calm i request context w : calm i (credentialMatch is_uuid tenantId request context) w.
Proof.
  unfold credentialMatch. case_bool_decide; [done|]. eapply ends_bind; [by apply (ends_on_vault i _ (fun _ _ => True))|].
  intros [| |] w' _; [|done|done]. by case_bool_decide.
Qed.

(** The two halves of a resolution, at two states of the vault. *)
Lemma resolved_is_entitled i bindingRef request context w : well_formed request ->
  ends_ i (fun a w' => entitled w' (length (hw_past w)) (length (hw_past w')) request context a)
    (resolveForUse is_uuid sha256_hex tenantId bindingRef request context) w.
Proof.
  intros Hr. unfold resolveForUse.
  eapply ends_bind with (Q' := (fun matched w' => exists k v, (length (hw_past w) <= k)%nat /\
     (k <= length (hw_past w'))%nat /\ states w' !! k = Some v /\
     resolve_match is_uuid sha256_hex tenantId request (httpRequestDigest sha256_hex request) (ax_runId context)
       (ax_stepId context) (ax_session context) v = Ok matched)).
  { apply ends_on_vault. intros w' matched Hok Hl Hm. exists (length (hw_past w')), (hw_vault w').
    split; [by apply past_later|]. split; [done|]. split; [apply state_now|done]. }
  intros [digest found] w' (k & v & Hlo & Hhi & Hv & Hm). apply ends_on_vault. intros w2 a Hok Hl Ha.
  apply (state_later _ _ _ _ Hl) in Hv. pose proof (past_later _ _ Hl). unfold resolve_match in Hm. inv_result.
  match goal with Hp : reparsed _ = Ok _ |- _ => apply reparsed_gave in Hp as ->; [|done] end.
  unfold resolve_secret in Ha. destruct found as [| |rb ref_ version]; [done|done|].
  match goal with Hf : match_ _ _ _ _ _ = Ok _ |- _ => rename Hf into Hmatch end.
  assert (vault_ok v) as Hvault by (by eapply (wo_vaults _ Hok), list_elem_of_lookup_2).
  apply match_gave in Hmatch as (b & Hb & -> & -> & Hc & Ht & Hbest); try typeclasses eauto; [|done..].
  inv_result. bools.
  match goal with Ho : ownedCredential _ _ _ _ = Ok _ |- _ => apply ownedCredential_gave in Ho as [Hcred Howner] end.
  constructor; cbn; [done|done| |by eapply (vo_rule _ Hvault)].
  exists k, (length (hw_past w2)), v, b, (hw_vault w2). eexists.
  do 3 (split; [lia|]). split; [done|]. do 5 (split; [done|]). split; [apply state_now|]. split; [exact Hcred|]. done.
Qed.

Lemma credentialForUse_entitled i request found context w : well_formed request ->
  ends_ i (fun credential w' => forall a, credential = Some a ->
      entitled w' (length (hw_past w)) (length (hw_past w')) request context a)
    (credentialForUse is_uuid sha256_hex tenantId request found context) w.
Proof.
  intros Hr. destruct found as [| |rb ref_ version]; cbn [credentialForUse]; [by intros a|by intros a|].
  eapply ends_bind; [by apply resolved_is_entitled|]. intros a w' Ha. cbn. by intros a' [= <-].
Qed.

Lemma redirected_well_formed current location policy next : redirected current location policy = Ok next -> well_formed next.
Proof. unfold redirected. destruct (resolve_url _ _); [|done]. intros H. by eexists _, _. Qed.

Lemma follow_calm i turns request candidate policy context : forall redirectCount current found w, well_formed current ->
  calm i (follow is_uuid sha256_hex tenantId turns request candidate policy context redirectCount current found) w.
Proof.
  induction turns as [|turns IH]; intros redirectCount current found w Hc; [done|]. cbn [follow].
  eapply ends_bind with (Q' := fun _ w' => exists n, (n < length (hw_asked w'))%nat /\
    was_asked w' n (AskedEgress current context true) (length (hw_past w'))).
  { apply ends_ask; [done|]. intros env w' [] Ha Hok. destruct (he_allowed env); [done|].
    exists (length (hw_asked w')). split; [cbn; rewrite length_app; cbn; lia|exact (asked_now _ _ Hok)]. }
  intros [] w1 (n & Hn & Hegress). eapply ends_bind.
  { apply (ends_frame _ _ _ _ i (world_later w1)); [|done|by apply credentialForUse_entitled].
    intros w' w2 [Hl|[Hl _]] Hin; by etransitivity. }
  intros credential w2 [Hent Hl1]. eapply ends_bind; [apply (ends_ask i _ _ (fun _ _ => True)); [|done]|].
  { intros env w' Hok Hl request' credential' conditional' context' [= <- <- <- <-].
    assert (world_later w1 w') as Hl' by (by etransitivity). pose proof (past_later _ _ Hl').
    exists n, (length (hw_past w1)). split; [destruct Hl' as [_ [m E] _]; rewrite E, length_app; lia|].
    split; [done|]. split; [by eapply was_asked_later|].
    intros a Ha. eapply entitled_later; [exact Hl|exact (past_later _ _ Hl)|by apply Hent]. }
  intros exchange w3 _. destruct (isRedirect _ && _).
  - destruct (Nat.leb _ _); [done|]. destruct (truthy _) as [location|].
    + eapply ends_bind; [apply (ends_lift i _ (fun next _ => well_formed next)); intros next; apply redirected_well_formed|].
      intros next w4 Hnext. eapply ends_bind; [apply credentialMatch_calm|]. intros found' w5 _. by apply IH.
    + by eapply ends_bind; [apply (ends_now i (fun _ _ => True))|].
  - destruct (ex_status exchange =? 304); [destruct candidate; [|done]|];
      by eapply ends_bind; [apply (ends_now i (fun _ _ => True))|].
Qed.

Lemma acquire_calm i input context policy w :
  calm i (acquireHttpResource is_uuid sha256_hex tenantId input context policy) w.
Proof.
  unfold acquireHttpResource. eapply ends_bind; [by apply (ends_lift i _ (fun _ _ => True))|]. intros _ w1 _.
  eapply ends_bind; [apply (ends_lift i _ (fun r _ => well_formed r)); intros r Hr; by eexists _, _|].
  intros request w2 Hr. eapply ends_bind; [apply credentialMatch_calm|]. intros found w3 _.
  eapply ends_bind with (Q' := fun _ _ => True).
  { case_bool_decide; [done|]. by apply ends_ask. }
  intros candidate w4 _. case_bool_decide; [by destruct candidate|].
  destruct candidate as [c|]; [destruct (cd_fresh c); [done|]|]; by apply follow_calm.
Qed.

Lemma http_service_calm i A (p : hprog A) : http_service is_uuid sha256_hex tenantId i A p -> forall w, calm i p w.
Proof.
  destruct 1 as [input context policy|owner label secret ref_|owner ref_ secret|owner ref_|input|owner ref_|owner]; intros w.
  - apply acquire_calm.
  - apply administer_calm. intros env v a v'. apply setCredential_keeps.
  - apply administer_calm. intros env v a v'. apply rotateCredential_keeps.
  - apply administer_calm. intros env v a v'. apply revokeCredential_keeps.
  - apply administer_calm. intros env v a v'. apply putBinding_keeps.
  - apply administer_calm. intros env v a v'. apply revokeBinding_keeps.
  - by apply (ends_on_vault i _ (fun _ _ => True)).
Qed.

(** ** The system *)

Abbreviation http_step := (threads_step http_admissible (http_service is_uuid sha256_hex tenantId) http_background).
Definition http_reachable (s : threads HttpEnv HttpWorld string) : Prop := exists time, rtc http_step (http_start time) s.
Abbreviation all_calm := (threads_ok http_admissible (fun _ => world_ok) world_later (fun _ => world_later) (fun _ _ => True)).

Lemma empty_http_ok : world_ok empty_world.
Proof.
  constructor.
  - intros v ->%list_elem_of_singleton. constructor; cbn; try done; constructor.
  - repeat constructor.
  - done.
  - constructor.
  - intros m hi request credential conditional context [H _]. by destruct m.
Qed.

Lemma http_reachable_calm s : http_reachable s -> all_calm s.
Proof.
  intros [time Hs]. eapply (threads_keep http_admissible (http_service is_uuid sha256_hex tenantId) http_background
    (fun _ => world_ok) world_later (fun _ => world_later)); [| | |..|exact Hs]; try typeclasses eauto; try done.
  - intros i A p Hp _ w _ _. eapply ends_sound, http_service_calm, Hp.
  - constructor; cbn; [apply empty_http_ok|by intros r ?%elem_of_nil|constructor|by intros r ?%elem_of_nil|done].
Qed.

(** C10: In every state the system reaches, whatever the network, the index and the policy answered
    and however acquisitions and the administration of the vault were interleaved: when the network
    is asked for a request (question number [m], asked when the vault was in its state number
    [hi]), the policy of egress had allowed this very request and context before (question
    number [n], in state number [lo]).  A secret only goes along with a request of the vault's
    own tenant, for the digest of this request, and what entitles it was so in states between
    [lo] and [hi], that is between the permission and the sending of this hop, not in some
    older state: an enabled binding of the session's subject covered the request (method,
    purpose, scheme, host, port, path and placement of the request as it was sent, also after a
    redirect) and was the heaviest one that did, and then the credential was enabled, owned by
    the subject, and had this secret in this version. *)
Theorem secrets_go_where_they_belong s m hi request credential conditional context :
  http_reachable s ->
  hw_asked (th_db s) !! m = Some (AskedNetwork request credential conditional context) ->
  hw_marks (th_db s) !! m = Some hi ->
  exists n lo, (n < m)%nat /\ (lo <= hi)%nat /\
    hw_asked (th_db s) !! n = Some (AskedEgress request context true) /\ hw_marks (th_db s) !! n = Some lo /\
    forall a, credential = Some a -> entitled (th_db s) lo hi request context a.
Proof.
  intros [Hok _ _ _ _]%http_reachable_calm H1 H2.
  destruct (wo_sent _ Hok m hi request credential conditional context) as (n & lo & Hn & Hle & (E1 & E2 & _) & Ha).
  - split; [done|]. split; [done|]. pose proof (wo_bound _ Hok) as Hb. rewrite Forall_forall in Hb.
    by eapply Hb, list_elem_of_lookup_2.
  - by exists n, lo.
Qed.


(** C27: Nothing but the resolution of a secret for its use depends on a secret: on vaults that differ
    in secrets only, every method of administration and every match answer the same and leave
    vaults that differ in secrets only, also when they are given different secrets that are
    both valid or both refused; a resolution answers the same but for the secret. *)
Theorem secrets_are_not_observable v w : public v = public w ->
  (forall owner, metadata is_uuid owner v = metadata is_uuid owner w) /\
  (forall request session, match_ is_uuid tenantId request session v = match_ is_uuid tenantId request session w) /\
  (forall owner label secret secret' ref_ fresh now, is_ok (secretValue secret) = is_ok (secretValue secret') ->
     seen (setCredential is_uuid owner label secret ref_ fresh now) v =
     seen (setCredential is_uuid owner label secret' ref_ fresh now) w) /\
  (forall owner ref_ secret secret' now, is_ok (secretValue secret) = is_ok (secretValue secret') ->
     seen (rotateCredential is_uuid owner ref_ secret now) v = seen (rotateCredential is_uuid owner ref_ secret' now) w) /\
  (forall owner ref_ now, seen (revokeCredential is_uuid owner ref_ now) v = seen (revokeCredential is_uuid owner ref_ now) w) /\
  (forall input, seen (putBinding is_uuid input) v = seen (putBinding is_uuid input) w) /\
  (forall owner ref_, seen (revokeBinding is_uuid owner ref_) v = seen (revokeBinding is_uuid owner ref_) w) /\
  (forall bindingRef session matched,
     seen_use (resolve_secret is_uuid bindingRef session matched v) =
     seen_use (resolve_secret is_uuid bindingRef session matched w)).
Proof.
  intros Hp. split; [by apply public_metadata|]. split; [by apply public_match|].
  split; [by apply public_setCredential|]. split; [by apply public_rotateCredential|].
  split; [by apply public_revokeCredential|]. split; [by apply public_putBinding|].
  split; [by apply public_revokeBinding|by apply public_resolve].
Qed.

(** A request that was parsed is in normal form: if it is parsed again, under any policy and if it
    is accepted, it stays what it is; under the policy it was accepted by it is accepted again,
    unless writing its URL in full made that longer than the limit. *)
Theorem parsed_requests_are_normal input policy request : parseHttpRequestArtifact input policy = Ok request ->
  (forall policy' request', parseHttpRequestArtifact (request_object request) policy' = Ok request' -> request' = request) /\
  (length_within 1 8192 (hr_url request) = true -> parseHttpRequestArtifact (request_object request) policy = Ok request).
Proof.
  intros H. split; [|by apply (parse_reads input)]. intros policy' request'. apply parse_again. by eexists _, _.
Qed.
End System.

(** * How acquisitions end

    An acquisition asks the network a bounded number of times, the turns given to its loop are
    enough, and what is fetched carries no more than the request, its validators and the
    credential. *)

Definition is_exchange (q : HttpQuestion) : bool := match q with AskedNetwork _ _ _ _ => true | _ => false end.
(** The exchanges with the network there have been. *)
Definition exchanges (w : HttpWorld) : nat := length (base.filter (fun q => is_exchange q = true) (hw_asked w)).

(** The headers of the validators and of a credential. *)
Definition validator_headers (conditional : option HttpConditionalValidators) : list (string * string) :=
  match conditional with
  | Some (IfNoneMatch etag) => [("if-none-match", etag)]
  | Some (IfModifiedSince date) => [("if-modified-since", date)]
  | None => []
  end.
Definition credential_headers (credential : option RequestScopedCredentialAttachment) : list (string * string) :=
  match credential with
  | Some a => match at_rule a with
              | AttachHeader name prefix_ => [(name, prefix_ +:+ at_secret a)]
              | AttachCookie name => [("cookie", name +:+ "=" +:+ at_secret a)]
              | AttachQuery _ => []
              end
  | None => []
  end.

Section Bounds.
Context {url_parser : UrlParser} {collation : Collation} `{!UrlLaws url_parser} `{!CollationLaws collation}.
Context (is_uuid : string -> bool) (sha256_hex : string -> string) (tenantId : string).

Abbreviation follow_ := (follow is_uuid sha256_hex tenantId).
Abbreviation adds n p := (adds_at_most (E := string) exchanges n p).

Lemma adds_ask {A} q (answer : HttpEnv -> outcome string A) (n : nat) :
  (forall env, is_exchange (q env) = true -> (1 <= n)%nat) -> adds n (ask_world q answer).
Proof.
  intros Hq. cbn. exists n, 0%nat. split; [lia|]. split.
  - intros env w. cbn. unfold exchanges. cbn. rewrite filter_app, length_app, filter_cons.
    destruct (decide (is_exchange (q env) = true)) as [E|E]; cbn; [specialize (Hq _ E)|]; lia.
  - by intros [[]|].
Qed.

Lemma adds_quiet {A} (t : htx A) : (forall env w, hw_asked (perform t env w).2 = hw_asked w) -> adds 0 (step t).
Proof.
  intros Ht. cbn. exists 0%nat, 0%nat. split; [done|]. split; [|by intros []].
  intros env w. unfold exchanges. rewrite Ht. lia.
Qed.
Lemma adds_on_vault {A} (f : VaultState -> result A) : adds 0 (step (on_vault f)).
Proof. apply adds_quiet. intros env w. unfold perform, on_vault. by destruct (f (hw_vault w)). Qed.
Lemma adds_now : adds 0 (step (ask he_now) : hprog string).
Proof. by apply adds_quiet. Qed.
Lemma adds_lift {A} (m : result A) : adds 0 (lift m).
Proof. by destruct m. Qed.

Lemma adds_credentialMatch request context : adds 0 (credentialMatch is_uuid tenantId request context).
Proof.
  unfold credentialMatch. case_bool_decide; [done|]. apply (adds_bind _ _ _ 0 0); [apply adds_on_vault|].
  intros [| |]; [|done|done]. by case_bool_decide.
Qed.
Lemma adds_credentialForUse request found context : adds 0 (credentialForUse is_uuid sha256_hex tenantId request found context).
Proof.
  destruct found; cbn [credentialForUse]; [done|done|]. apply (adds_bind _ _ _ 0 0); [|done].
  apply (adds_bind _ _ _ 0 0); [apply adds_on_vault|]. intros matched. apply adds_on_vault.
Qed.

(** One exchange for each turn. *)
Lemma adds_follow turns request candidate policy context : forall redirectCount current found,
  (redirectCount <= hr_maximumHops request)%nat ->
  adds (S (hr_maximumHops request) - redirectCount) (follow_ turns request candidate policy context redirectCount current found).
Proof.
  induction turns as [|turns IH]; intros redirectCount current found Hle; [done|]. cbn [follow].
  apply (adds_bind _ _ _ 0 (S (hr_maximumHops request) - redirectCount)); [by apply adds_ask|]. intros _.
  apply (adds_bind _ _ _ 0 (S (hr_maximumHops request) - redirectCount)); [apply adds_credentialForUse|]. intros credential.
  eapply adds_more; [|apply (adds_bind _ _ _ 1 (hr_maximumHops request - redirectCount)); [by apply adds_ask|]]; [lia|].
  intros exchange. destruct (isRedirect _ && _).
  - destruct (Nat.leb_spec (hr_maximumHops request) redirectCount) as [|Hlt]; [done|]. destruct (truthy _) as [location|].
    + apply (adds_bind _ _ _ 0 (hr_maximumHops request - redirectCount)); [apply adds_lift|]. intros next.
      apply (adds_bind _ _ _ 0 (hr_maximumHops request - redirectCount)); [apply adds_credentialMatch|]. intros found'.
      eapply adds_more; [|apply IH; lia]. lia.
    + eapply adds_more; [|apply (adds_bind _ _ _ 0 0); [apply adds_now|done]]. lia.
  - destruct (ex_status exchange =? 304); [destruct candidate; [|done]|];
      (eapply adds_more; [|apply (adds_bind _ _ _ 0 0); [apply adds_now|done]]; lia).
Qed.

(** More turns change nothing. *)
Lemma follow_enough turns more request candidate policy context : forall redirectCount current found,
  (redirectCount <= hr_maximumHops request)%nat -> (hr_maximumHops request < turns + redirectCount)%nat ->
  same_prog (follow_ (turns + more) request candidate policy context redirectCount current found)
            (follow_ turns request candidate policy context redirectCount current found).
Proof.
  induction turns as [|turns IH]; intros redirectCount current found Hle Hlt; [lia|]. cbn [follow Nat.add].
  apply same_prog_bind. intros _. apply same_prog_bind. intros credential. apply same_prog_bind. intros exchange.
  destruct (isRedirect _ && _); [|reflexivity].
  destruct (Nat.leb_spec (hr_maximumHops request) redirectCount); [reflexivity|]. destruct (truthy _); [|reflexivity].
  apply same_prog_bind. intros next. apply same_prog_bind. intros found'. apply IH; lia.
Qed.

(** What a capture says of its redirects and its requests. *)
Definition capture_ok (request : HttpRequestArtifact) (r : AcquiredHttpResource) : Prop :=
  match r with
  | Capture metadata _ _ => (hm_redirectCount metadata <= hr_maximumHops request)%nat /\ hm_requestedUrl metadata = hr_url request
  | ExistingResponse _ => True
  end.
Lemma returns_follow turns request candidate policy context : forall redirectCount current found,
  (redirectCount <= hr_maximumHops request)%nat ->
  returns (capture_ok request) (follow_ turns request candidate policy context redirectCount current found).
Proof.
  induction turns as [|turns IH]; intros redirectCount current found Hle; [done|]. cbn [follow].
  do 3 (apply (returns_bind (fun _ => True)); [apply returns_anything|]; intros ? _).
  destruct (isRedirect _ && _).
  - destruct (Nat.leb_spec (hr_maximumHops request) redirectCount) as [|Hlt]; [done|]. destruct (truthy _) as [location|].
    + do 2 (apply (returns_bind (fun _ => True)); [apply returns_anything|]; intros ? _). apply IH. lia.
    + by apply (returns_bind (fun _ => True)); [apply returns_anything|].
  - destruct (_ =? 304); [destruct candidate; [|done]|]; by apply (returns_bind (fun _ => True)); [apply returns_anything|].
Qed.

Lemma adds_acquire input context policy request : parseHttpRequestArtifact input policy = Ok request ->
  adds (S (hr_maximumHops request)) (acquireHttpResource is_uuid sha256_hex tenantId input context policy).
Proof.
  intros Hparse. unfold acquireHttpResource. rewrite Hparse.
  apply (adds_bind _ _ _ 0 (S (hr_maximumHops request))); [apply adds_lift|]. intros _.
  cbn [lift mbind prog_mbind mret prog_mret prog_bind].
  apply (adds_bind _ _ _ 0 (S (hr_maximumHops request))); [apply adds_credentialMatch|]. intros found.
  apply (adds_bind _ _ _ 0 (S (hr_maximumHops request))); [case_bool_decide; [done|by apply adds_ask]|]. intros candidate.
  case_bool_decide; [by destruct candidate|].
  destruct candidate as [c|]; [destruct (cd_fresh c); [done|]|]; eapply adds_more, adds_follow; lia.
Qed.

Lemma returns_acquire input context policy request : parseHttpRequestArtifact input policy = Ok request ->
  returns (capture_ok request) (acquireHttpResource is_uuid sha256_hex tenantId input context policy).
Proof.
  intros Hparse. unfold acquireHttpResource. rewrite Hparse.
  apply (returns_bind (fun _ => True)); [apply returns_anything|]. intros _ _.
  cbn [lift mbind prog_mbind mret prog_mret prog_bind].
  do 2 (apply (returns_bind (fun _ => True)); [apply returns_anything|]; intros ? _).
  case_bool_decide; [by destruct a0|]. destruct a0 as [c|]; [destruct (cd_fresh c); [done|]|]; apply returns_follow; lia.
Qed.
(** ** What is fetched *)

Definition names_small (l : list (string * string)) : Prop := forall h, h ∈ l -> to_lower h.1 = h.1.
Lemma map_get_header_set n name value m : to_lower name = name ->
  map_get n (header_set name value m) = if decide (n = name) then Some (header_value value) else map_get n m.
Proof. intros Hname. unfold header_set. rewrite Hname. apply map_get_set. Qed.
Lemma map_ok_header_set name value m : map_ok m -> map_ok (header_set name value m).
Proof. apply map_ok_set. Qed.

Abbreviation set_all := (foldl (fun m h => header_set h.1 h.2 m)).
Lemma map_ok_set_all l : forall m, map_ok m -> map_ok (set_all m l).
Proof. induction l as [|h l IH]; intros m Hm; cbn; [done|]. by apply IH, map_ok_header_set. Qed.
Lemma map_get_set_all n l : forall m, names_small l -> NoDup l.*1 ->
  map_get n (set_all m l) = match map_get n l with Some v => Some (header_value v) | None => map_get n m end.
Proof.
  induction l as [|[name value] l IH]; intros m Hs Hd; cbn; [done|]. apply NoDup_cons in Hd as [Hn Hd]. rewrite IH; [|by intros h Hh; apply Hs; right|done].
  rewrite map_get_header_set by (apply (Hs (name, value)); left). case_decide as E; [|done]. subst n.
  by rewrite (proj2 (map_get_None name l) Hn).
Qed.

(** The headers of a request, its validators and a credential, the later before the earlier. *)
Definition header_given (n : string) (request : HttpRequestArtifact) (credential : option RequestScopedCredentialAttachment)
    (conditional : option HttpConditionalValidators) : option string :=
  map_get n (credential_headers credential ++ validator_headers conditional ++ hr_headers request).

Lemma conditional_set n conditional m :
  let set := match conditional with
             | Some (IfNoneMatch etag) => header_set "if-none-match" etag m
             | Some (IfModifiedSince date) => header_set "if-modified-since" date m
             | None => m
             end in
  (map_ok m -> map_ok set) /\
 map_get n set = match map_get n (validator_headers conditional) with Some v => Some (header_value v) | None => map_get n m end.
Proof.
  destruct conditional as [[etag|date]|]; cbn [validator_headers]; (split; [|try rewrite map_get_header_set by done]).
  all: try apply map_ok_header_set; try done; cbn; by case_decide.
Qed.

Lemma applied_set n url m a : rule_ok (at_rule a) ->
  (map_ok m -> map_ok (applyCredential url m a).2) /\
 map_get n (applyCredential url m a).2 =
    match map_get n (credential_headers (Some a)) with Some v => Some (header_value v) | None => map_get n m end.
Proof.
  unfold applyCredential, credential_headers. destruct (at_rule a) as [name prefix_|name|name]; cbn [rule_ok snd]; intros H.
  - split; [apply map_ok_header_set|]. rewrite map_get_header_set by apply H. cbn. by case_decide.
  - split; [apply map_ok_header_set|]. rewrite map_get_header_set by done. cbn. by case_decide.
  - done.
Qed.

Lemma given_allowed n request credential conditional : well_formed request ->
  (forall a, credential = Some a -> rule_ok (at_rule a)) -> n ∈ FORBIDDEN_ATTACHMENT_HEADERS ->
  header_given n request credential conditional = map_get n (validator_headers conditional).
Proof.
  clear is_uuid sha256_hex tenantId. intros [_ [Hh _] _ _ _ _]%parsed_normal Hc Hn. unfold header_given. rewrite !map_get_app.
  rewrite (proj2 (map_get_None n (credential_headers credential))).
  2: { destruct credential as [a|]; [|by intros ?%elem_of_nil]. specialize (Hc a eq_refl). unfold credential_headers.
       destruct (at_rule a) as [name prefix_|name|name]; cbn; [|set_solver|set_solver]. intros ->%list_elem_of_singleton. naive_solver. }
  rewrite (proj2 (map_get_None n (hr_headers request))); [by destruct (map_get _ _)|].
  intros (h & -> & Hin)%list_elem_of_fmap. apply Hh in Hin as (_ & _ & Hf & _). apply Hf.
  revert Hn. generalize h.1. clear. intros n. unfold FORBIDDEN_ATTACHMENT_HEADERS, FORBIDDEN_REQUEST_HEADERS. set_solver.
Qed.

Lemma fetched_gave request credential conditional url headers : well_formed request ->
  fetched sha256_hex request credential conditional = Ok (url, headers) ->
  exists url0 m, parse_url (hr_url request) = Some url0 /\ map_ok m /\
    (forall n, map_get n m = header_value <$> map_get n (validator_headers conditional ++ hr_headers request)) /\
    match credential with
    | None => (url, headers) = (url0, m)
    | Some a => at_requestDigest a = httpRequestDigest sha256_hex request /\ applyCredential url0 m a = (url, headers)
    end.
Proof.
  intros Hr Hf. unfold fetched in Hf. destruct (parse_url (hr_url request)) as [url0|]; [|done].
  destruct (nr_headers _ (parsed_normal _ Hr)) as [[Hnames Hdup] _].
  assert (names_small (hr_headers request)) as Hsmall by (intros h Hh; by apply Hnames).
  set (m1 := set_all [] (hr_headers request)) in *.
  assert (map_ok m1) as Hm1 by (apply map_ok_set_all; constructor).
  set (m2 := match conditional with Some (IfNoneMatch etag) => _ | Some (IfModifiedSince date) => _ | None => m1 end) in *.
  exists url0, m2. split; [done|]. split; [by apply (conditional_set "" conditional m1)|]. split.
  - intros n. destruct (conditional_set n conditional m1) as [_ E]. unfold m2. rewrite E, map_get_app. unfold m1.
    rewrite map_get_set_all by done. destruct (map_get n (validator_headers _)); [done|]. by destruct (map_get n (hr_headers _)).
  - destruct credential as [a|]; inv_result; [|done]. split; [|done].
    by match goal with H : negb _ = false |- _ => apply negb_false_iff, String.eqb_eq in H end.
Qed.

(** What is sent for a parsed request: each header once; every header that the request, its
    validators or the credential give, the credential's before the others, and no other; so
    none of the transport's own but the validators; the request's URL, changed only by the
    parameter of a credential that goes there; and the credential only if it was resolved for
    this very request. *)
Theorem fetched_requests_are_clean request credential conditional url headers : well_formed request ->
  (forall a, credential = Some a -> rule_ok (at_rule a)) ->
  fetched sha256_hex request credential conditional = Ok (url, headers) ->
  NoDup headers.*1 /\
 (forall n, map_get n headers = header_value <$> header_given n request credential conditional) /\
 (forall n, n ∈ FORBIDDEN_ATTACHMENT_HEADERS -> n ∈ headers.*1 -> n ∈ (validator_headers conditional).*1) /\
 (exists url0, parse_url (hr_url request) = Some url0 /\
    url = match at_rule <$> credential, credential with
           | Some (AttachQuery name), Some a => set_search_param url0 name (at_secret a)
           | _, _ => url0
           end) /\
 forall a, credential = Some a -> at_requestDigest a = httpRequestDigest sha256_hex request.
Proof.
  intros Hr Hc Hf. pose proof (fetched_gave _ _ _ _ _ Hr Hf) as (url0 & m & Hu & Hm & Hget & Hlast).
  assert (map_ok headers /\ forall n, map_get n headers = header_value <$> header_given n request credential conditional) as [Hok Hall].
  { unfold header_given. destruct credential as [a|]; [|by injection Hlast as -> ->]. destruct Hlast as [_ E].
    split; [|intros n; rewrite map_get_app]; destruct (applied_set "" url0 m a (Hc a eq_refl)) as [H1 _];
      [|destruct (applied_set n url0 m a (Hc a eq_refl)) as [_ H2]]; rewrite E in *; cbn [snd] in *; [by apply H1|].
    rewrite H2, Hget. by destruct (map_get n (credential_headers _)). }
  split; [exact Hok|]. split; [exact Hall|]. split; [|split].
  - intros n Hn Hin. destruct (decide (n ∈ (validator_headers conditional).*1)) as [|Hno]; [done|]. exfalso.
    apply map_get_None in Hno. specialize (Hall n). rewrite (given_allowed n), Hno in Hall by done. by apply map_get_None in Hall.
  - exists url0. split; [done|]. destruct credential as [a|]; cbn; [|by injection Hlast as -> ->]. destruct Hlast as [_ E].
    unfold applyCredential in E. destruct (at_rule a); congruence.
  - intros a ->. apply Hlast.
Qed.

(** C28: An acquisition asks the network at most once more often than the request allows redirects,
    which is never more than eleven times; what it captures names the requested URL and counts
    no more redirects than are allowed; and the turns given to its loop are enough: with more
    of them it does the same. *)
Theorem acquisitions_end input context policy request : parseHttpRequestArtifact input policy = Ok request ->
  (forall envs w, let acquired := alone envs (acquireHttpResource is_uuid sha256_hex tenantId input context policy) w in
     (exchanges acquired.2 <= exchanges w + S (hr_maximumHops request))%nat /\ (hr_maximumHops request <= 10)%nat /\
     forall r, acquired.1 = Gave r -> capture_ok request r) /\
  (forall more candidate current found envs w,
     alone envs (follow_ (S (hr_maximumHops request) + more) request candidate policy context 0 current found) w =
     alone envs (follow_ (S (hr_maximumHops request)) request candidate policy context 0 current found) w).
Proof.
  intros Hparse. split.
  - intros envs w. cbv zeta. split; [|split].
    + by apply adds_alone, adds_acquire.
    + apply nr_hops, parsed_normal. by exists input, policy.
    + destruct (alone _ _ _) as [o w'] eqn:E. cbn. intros r ->. eapply returns_alone, E. by apply returns_acquire.
  - intros more candidate current found envs w. apply same_prog_alone. apply follow_enough; lia.
Qed.
End Bounds.

(** * A few web resources

    Acquisitions of [Acquisition] against a small table of URLs: the theorems applied to them,
    and what modelling showed. *)

#[local] Existing Instance bytes_collation.
#[local] Existing Instance bytes_collation_laws.

(** ** A few URLs *)

Definition secure (host path hash : string) : Url :=
  {| u_protocol := "https:"; u_username := ""; u_password := ""; u_hostname := host; u_port := ""; u_pathname := path;
     u_hash := hash; u_origin := "https://" +:+ host; u_href := "https://" +:+ host +:+ path +:+ hash |}.
Definition things : Url := secure "api.example" "/things" "".
Definition elsewhere : Url := secure "other.example" "/things" "".
Definition titled : Url := secure "api.example" "/things" "#top".
(** 2500 blanks, as they are typed and as they are written in a URL. *)
Definition long_text : string := "https://api.example/" +:+ String.concat "" (repeat " x" 2500).
Definition long_path : string := "/" +:+ String.concat "" (repeat "%20x" 2500).
Definition distant : Url := secure "api.example" long_path "".
Definition root_page : Url := secure "binding.invalid" "/" "".

(** What is read, and as which URL. *)
Definition known : list (string * Url) := [
  ("HTTPS://API.example/things", things); (long_text, distant);
  (u_href things, things); (u_href elsewhere, elsewhere); (u_href titled, titled); (u_href distant, distant);
  (u_href root_page, root_page)].
#[local] Instance sample_parser : UrlParser := {|
  parse_url text := map_get text known;
  resolve_url text base := if String.eqb text "/" then Some root_page else map_get text known;
  set_hostname url host :=
    if String.eqb (u_hostname url) host then url else secure host (u_pathname url) (u_hash url);
  set_search_param url name value :=
    {| u_protocol := u_protocol url; u_username := ""; u_password := ""; u_hostname := u_hostname url; u_port := "";
       u_pathname := u_pathname url; u_hash := ""; u_origin := u_origin url;
       u_href := u_href url +:+ "?" +:+ name +:+ "=" +:+ value |}
|}.

Definition url_fine (url : Url) : bool :=
  bool_decide (map_get (u_href url) known = Some url) && String.eqb (to_lower (u_hostname url)) (u_hostname url).
Lemma known_fine text url : parse_url text = Some url -> url_fine url = true.
Proof.
  intros H%map_get_elem. assert (forallb (fun e => url_fine e.2) known = true) as Hall by (vm_compute; reflexivity).
  rewrite forallb_forall in Hall. by apply (Hall (text, url)), list_elem_of_In.
Qed.
#[local] Instance sample_url_laws : UrlLaws sample_parser.
Proof.
  split.
  - intros text url [H _]%known_fine%andb_true_iff. by apply bool_decide_eq_true in H.
  - intros text url [_ H]%known_fine%andb_true_iff _. by apply String.eqb_eq in H.
  - intros url. cbn. by rewrite String.eqb_refl.
Qed.

(** ** Requests, bindings and answers *)

Definition any_uuid (s : string) : bool := negb (String.eqb s "").
Definition sample_hash (s : string) : string := s.
Definition alice : VaultSessionContext :=
  {| vx_tenantId := "t"; vx_subjectId := "alice"; vx_sessionId := "session"; vx_executionEnvironment := Server_ |}.
Definition context : HttpAcquisitionContext := {| ax_session := alice; ax_runId := "run"; ax_stepId := "step" |}.

Definition asking (url purpose : string) : json := JObject [
  ("method", JString "GET"); ("url", JString url);
  ("headers", JArray [JObject [("name", JString "Accept"); ("value", JString " text/html ")]]);
  ("authentication", JObject [("mode", JString "mapped-if-present"); ("purpose", JString purpose)])].
Definition reading : json := asking "HTTPS://API.example/things" "read".
Definition sample_policy : HttpRequestPolicy := [].

Definition api_binding : CredentialBinding :=
  {| bd_bindingRef := "b1"; bd_label := "Things"; bd_ownerSubjectId := "alice"; bd_credentialRef := "c1";
     bd_placements := [Server_]; bd_schemes := [Https]; bd_host := ExactHost "API.example"; bd_ports := [443];
     bd_pathPrefix := "/"; bd_methods := [GET]; bd_purpose := "read"; bd_attachment := AttachHeader "Authorization" "Bearer ";
     bd_enabled := true |}.

Definition answer_of (status : Z) (headers : response_headers) : HttpTransportExchange :=
  {| ex_status := status; ex_headers := headers; ex_body := Some "body"; ex_protocol := None |}.
Definition world_of (found : option HttpResponseCandidate) (exchange : HttpTransportExchange) : HttpEnv :=
  {| he_found := Gave found; he_allowed := None; he_exchanged := Gave exchange; he_now := "now"; he_uuid := "c1" |}.
Definition quiet : HttpEnv := world_of None (answer_of 200 [("content-type", "text/html; charset=UTF-8")]).
Definition moved_to (location : string) (found : option HttpResponseCandidate) : HttpEnv :=
  world_of found (answer_of 302 [("location", location)]).

Definition sample_set : hprog VaultCredentialMetadata :=
  step (administer (fun env => setCredential any_uuid "alice" "Key" "s3cret" None (he_uuid env) (he_now env))).
Definition sample_put (b : CredentialBinding) : hprog RedactedCredentialBinding :=
  step (administer (fun _ => putBinding any_uuid b)).
Definition acquiring (input : json) : hprog AcquiredHttpResource :=
  acquireHttpResource any_uuid sample_hash "t" input context sample_policy.

Abbreviation http_action := (action HttpEnv HttpWorld string).
Definition equipped : list http_action := [Starts sample_set; Steps 0 1 quiet; Starts (sample_put api_binding); Steps 1 1 quiet].
(** The credential goes along to its host, and not to the host the answer redirects to. *)
Definition redirected_away : list http_action :=
  equipped ++ [Starts (acquiring reading); Steps 2 6 (moved_to "https://other.example/things" None); Steps 2 9 quiet].
Definition world_after (actions : list http_action) : HttpWorld := (play actions 0 [] empty_world).2.

Lemma http_played actions : playable http_admissible (http_service any_uuid sample_hash "t") http_background 0 actions 0 ->
  exists s, http_reachable any_uuid sample_hash "t" s /\ th_db s = world_after actions.
Proof.
  intros H. destruct (play_reaches _ _ _ 0 actions 0 [] empty_world H) as (l & Hl).
  eexists. split; [exists 0; exact Hl|reflexivity].
Qed.
Lemma redirected_away_reachable : exists s, http_reachable any_uuid sample_hash "t" s /\ th_db s = world_after redirected_away.
Proof.
  apply http_played. split; [exact (ServeSet any_uuid sample_hash "t" 0 "alice" "Key" "s3cret" None)|]. split; [by intros db|].
  split; [exact (ServePut any_uuid sample_hash "t" 1 api_binding)|]. split; [by intros db|].
  split; [exact (ServeAcquire any_uuid sample_hash "t" 2 reading context sample_policy)|].
  split; [by intros db|]. by split; [intros db|].
Qed.

(** The request as it is parsed, and the credential it is sent with. *)
Definition things_request : HttpRequestArtifact :=
  {| hr_method := GET; hr_url := "https://api.example/things"; hr_headers := [("accept", "text/html")];
     hr_mode := MappedIfPresent; hr_purpose := Some "read"; hr_redirects := Follow; hr_maximumHops := 5;
     hr_freshness := Revalidate |}.
Definition things_credential : RequestScopedCredentialAttachment :=
  {| at_bindingRef := "b1"; at_credentialRef := "c1"; at_secretVersion := 1;
     at_requestDigest := httpRequestDigest sample_hash things_request; at_rule := AttachHeader "authorization" "Bearer ";
     at_secret := "s3cret" |}.
Lemma reading_parsed : parseHttpRequestArtifact reading sample_policy = Ok things_request.
Proof. vm_compute. reflexivity. Qed.

Lemma secrets_go_where_they_belong_witness : exists s,
  http_reachable any_uuid sample_hash "t" s /\
  hw_asked (th_db s) !! 2%nat = Some (AskedNetwork things_request (Some things_credential) None context) /\
  entitled sample_hash "t" (th_db s) 2 2 things_request context things_credential.
Proof.
  destruct redirected_away_reachable as (s & Hs & E).
  assert (hw_asked (th_db s) !! 2%nat = Some (AskedNetwork things_request (Some things_credential) None context)) as Ha
    by (rewrite E; vm_compute; reflexivity).
  assert (hw_marks (th_db s) = [2; 2; 2; 2; 2]%nat) as Hm by (rewrite E; vm_compute; reflexivity).
  exists s. split; [exact Hs|]. split; [exact Ha|].
  destruct (secrets_go_where_they_belong any_uuid sample_hash "t" s 2 2 _ _ _ _ Hs Ha) as (n & lo & Hn & _ & _ & Hlo & He).
  { rewrite Hm. reflexivity. }
  assert (lo = 2%nat) as ->.
  { rewrite Hm in Hlo. destruct n as [|[|n]]; [injection Hlo as <-; reflexivity..|lia]. }
  exact (He _ eq_refl).
Defined.


(** A vault with another secret, and a call that answers the same on both. *)
Definition other_secret : VaultState :=
  match setCredential any_uuid "alice" "Key" "another" None "c1" "now" empty_vault with Ok (_, v) => v | Throw _ => empty_vault end.
Definition first_secret : VaultState :=
  match setCredential any_uuid "alice" "Key" "s3cret" None "c1" "now" empty_vault with Ok (_, v) => v | Throw _ => empty_vault end.
Lemma secrets_are_not_observable_witness :
  first_secret <> other_secret /\ is_ok (putBinding any_uuid api_binding first_secret) = true /\
  seen (putBinding any_uuid api_binding) first_secret = seen (putBinding any_uuid api_binding) other_secret.
Proof.
  split; [vm_compute; discriminate|]. split; [vm_compute; reflexivity|].
  assert (public first_secret = public other_secret) as Hp by (vm_compute; reflexivity).
  destruct (secrets_are_not_observable any_uuid "t" _ _ Hp) as (_ & _ & _ & _ & _ & H & _). exact (H api_binding).
Defined.

Lemma parsed_requests_are_normal_witness :
  parseHttpRequestArtifact (request_object things_request) sample_policy = Ok things_request.
Proof.
  apply (proj2 (parsed_requests_are_normal reading sample_policy things_request reading_parsed)). vm_compute. reflexivity.
Defined.

(** The network never stops redirecting. *)
Definition in_circles : nat -> HttpEnv := fun _ => moved_to "https://api.example/things" None.
Lemma acquisitions_end_witness :
  let acquired := alone in_circles (acquiring reading) empty_world in
  acquired.1 = Threw "HTTP_REDIRECT_LIMIT_EXCEEDED" /\ exchanges acquired.2 = 6%nat /\
  (exchanges acquired.2 <= exchanges empty_world + 6)%nat.
Proof.
  split; [vm_compute; reflexivity|]. split; [vm_compute; reflexivity|].
  exact (proj1 (proj1 (acquisitions_end any_uuid sample_hash "t" reading context sample_policy things_request reading_parsed)
                  in_circles empty_world)).
Defined.

Definition sent_headers : list (string * string) :=
  [("accept", "text/html"); ("if-none-match", "v1"); ("authorization", "Bearer s3cret")].
Lemma fetched_requests_are_clean_witness :
  fetched sample_hash things_request (Some things_credential) (Some (IfNoneMatch "v1")) = Ok (things, sent_headers) /\
  forall n, n ∈ FORBIDDEN_ATTACHMENT_HEADERS -> n ∈ sent_headers.*1 -> n = "if-none-match".
Proof.
  assert (fetched sample_hash things_request (Some things_credential) (Some (IfNoneMatch "v1")) = Ok (things, sent_headers)) as Hf
    by (vm_compute; reflexivity).
  split; [exact Hf|]. intros n Hn Hin.
  refine (proj1 (list_elem_of_singleton n "if-none-match")
    (proj1 (proj2 (proj2 (fetched_requests_are_clean sample_hash things_request (Some things_credential) (Some (IfNoneMatch "v1"))
       things sent_headers _ _ Hf))) n Hn Hin)).
  - exists reading, sample_policy. exact reading_parsed.
  - intros a [= <-]. vm_compute. split; [reflexivity|]. split; [reflexivity|]. split; [|reflexivity].
    intros H. repeat (apply elem_of_cons in H as [H|H]; [discriminate H|]). by apply elem_of_nil in H.
Defined.

(** ** What modelling showed *)

Definition old_metadata : HttpResponseMetadata :=
  {| hm_requestedUrl := "https://api.example/things"; hm_finalUrl := "https://api.example/things"; hm_statusCode := 200;
     hm_networkStatusCode := None; hm_cacheDisposition := CacheNew; hm_representationSourceArtifactId := None;
     hm_protocol := None; hm_declaredMediaType := Some "text/html"; hm_declaredCharset := None; hm_etag := Some "v1";
     hm_lastModified := None; hm_headers := [("etag", "v1")]; hm_redirectCount := 0; hm_capturedAt := "then" |}.
Definition old_response : HttpResponseCandidate :=
  {| cd_artifactId := "old"; cd_payload := old_metadata; cd_sha256 := "hash"; cd_length := 4; cd_fresh := false |}.
Definition then_unchanged (n : nat) : HttpEnv :=
  if Nat.leb n 3 then moved_to "https://other.example/things" (Some old_response)
  else world_of (Some old_response) (answer_of 304 []).
Definition last_conditional (w : HttpWorld) : option (string * option HttpConditionalValidators) :=
  match last (hw_asked w) with
  | Some (AskedNetwork request _ conditional _) => Some (hr_url request, conditional)
  | _ => None
  end.

(** After a redirect to another host no validators are sent, and a 304 from there is taken all
    the same for a revalidation: the capture names the other host as its final URL and carries
    the body that was kept from the first one. *)
Lemma unasked_304_keeps_the_old_body :
  let acquired := alone then_unchanged (acquiring reading) empty_world in
  last_conditional acquired.2 = Some ("https://other.example/things", None) /\
  exists metadata, acquired.1 = Gave (Capture metadata (BodyExisting "old" "hash" 4) None) /\
    hm_finalUrl metadata = "https://other.example/things" /\ hm_cacheDisposition metadata = CacheRevalidated /\
    hm_etag metadata = Some "v1".
Proof. split; [vm_compute; reflexivity|]. eexists. split; [vm_compute; reflexivity|]. done. Qed.

Definition with_host_and_path (host : HostMatcher) (path : string) (attachment : CredentialAttachmentRule) : CredentialBinding :=
  {| bd_bindingRef := "b2"; bd_label := "Wide"; bd_ownerSubjectId := "alice"; bd_credentialRef := "c1";
     bd_placements := [Server_]; bd_schemes := [Https]; bd_host := host; bd_ports := [443]; bd_pathPrefix := path;
     bd_methods := [GET]; bd_purpose := "read"; bd_attachment := attachment; bd_enabled := true |}.
Definition normalized (b : CredentialBinding) : option CredentialBinding :=
  match normalizeBinding any_uuid b with Ok b => Some b | Throw _ => None end.

(** The suffix [*.] becomes the empty text, which covers every host name that ends in a dot. *)
Lemma empty_suffix_covers_hosts :
  bd_host <$> normalized (with_host_and_path (SuffixHost "*.") "/" (AttachCookie "id")) = Some (SuffixHost "") /\
  hostMatches (SuffixHost "") "bank.example." = true /\ hostMatches (SuffixHost "") "elsewhere.example." = true.
Proof. split; [vm_compute; reflexivity|]. split; vm_compute; reflexivity. Qed.

(** The names of cookies and of parameters are put in small letters, though they mean others then. *)
Lemma names_lose_their_capitals :
  bd_attachment <$> normalized (with_host_and_path (ExactHost "api.example") "/" (AttachQuery "apiKey")) = Some (AttachQuery "apikey") /\
  bd_attachment <$> normalized (with_host_and_path (ExactHost "api.example") "/" (AttachCookie "SID")) = Some (AttachCookie "sid").
Proof. split; vm_compute; reflexivity. Qed.

(** A redirect whose location has a fragment is refused. *)
Lemma fragments_end_redirects :
  (alone (fun _ => moved_to "https://api.example/things#top" None) (acquiring reading) empty_world).1 =
    Threw "HTTP_REQUEST_FRAGMENT_FORBIDDEN".
Proof. vm_compute. reflexivity. Qed.

(** A long path prefix outweighs a longer suffix of the host. *)
Lemma long_paths_outweigh_hosts :
  specificity (with_host_and_path (SuffixHost "a.io") "/" (AttachCookie "id")) <
  specificity (with_host_and_path (SuffixHost "io") (string_take 2040 long_path) (AttachCookie "id")).
Proof. vm_compute. reflexivity. Qed.

(** A request is accepted whose URL, written in full, is longer than a request's may be: for a
    credential, when it is parsed again, it is refused. *)
Lemma long_urls_have_no_credential : exists request,
  parseHttpRequestArtifact (asking long_text "read") sample_policy = Ok request /\
  reparsed request = Throw "ZodError" /\ (alone (fun _ => quiet) (acquiring (asking long_text "read")) empty_world).1 = Threw "ZodError".
Proof.
  eexists. split; [vm_compute; reflexivity|]. split; vm_compute; reflexivity.
Qed.
